(* ===== verification/_CoqProject ===== *)
-Q . S2P
Prelude.v
BitUtils.v
Bitmapset.v
BitmapsetSpec.v
BitmapsetProps.v
Knapsack.v
PgList.v
PgListProps.v
Sort.v
SortSpec.v
SortProps.v
PgListSort.v
BinaryHeap.v
BinaryHeapProps.v
FsmPage.v
FsmPageProps.v
Transam.v
TransamProps.v
HeapVisibility.v
VisibilityRules.v
HeapVisibilityProps.v
Mvcc.v
Snapshots.v
Clog.v
ClogProps.v
Numutils.v
NumutilsProps.v
NumutilsOutput.v
LWLock.v
LWLockInv.v
LWLockSteps.v
LWLockWakeSteps.v
LWLockProps.v
Pglz.v
PglzDecode.v
PglzHistory.v
PglzEncode.v
PglzProps.v
BufPage.v
BufPageSpec.v
BufPageAdd.v
BufPageCompact.v
BufPageRepair.v
BufPageIndex.v
BufPageMulti.v
BufPageLife.v
BufPageProps.v
Numeric.v
NumericArith.v
NumericRound.v
NumericMul.v
NumericPack.v
NumericNum.v
NumericTimes.v
NumericInt.v
NumericProps.v
NumericFun.v
NumericType.v
NumericWhole.v
NumericText.v
NumericPrint.v
NumericParse.v
NumericBased.v
NumericAccept.v
NumericTextProps.v
NumericDiv.v
NumericQuot.v
NumericDivide.v
NumericModulo.v
NumericDivProps.v
NumericAccum.v
NumericAccumSpec.v
NumericAgg.v
NumericAggProps.v
Dates.v
DatesProps.v
Timestamps.v
TimestampSpec.v
TimestampProps.v
TimestampTrunc.v
