(* ===== verification/Prelude.v ===== *)
(** * PostgreSQL 16.0: verified core libraries

    The program is the PostgreSQL 16.0 server under src/dataset/postgresql-16.0.
    This library models, function by function, a part of its C code that the rest
    of the server is built on, and proves it correct: the container libraries
    (bit operations, bitmap sets, lists, sorting, binary heaps), one algorithm on
    top of them (the knapsack solver), two on-page data structures (the slotted page
    that holds tuples and the free space map page), the heart of multiversion
    concurrency control (transaction identifiers and outcomes, the commit log, the
    process array and its snapshots, and the tuple visibility rules), the lightweight
    locks that protect shared memory, the compression of column values, and data
    types: integer input and output, numeric, dates, timestamps and intervals.
    Paths below are relative to src/dataset/postgresql-16.0/src.

    ** Parts, files and the code they model

    - Prelude.v (this file): the language of the models.  C integers are elements
      of [Z] with their wrap-around written out ([uwrap], [swrap], [unot], [ushl],
      [ushr]); arrays are lists read with [rd] and written with stdpp's insert;
      [elog(ERROR)] is the [Err] case of [res] with a bind notation; [for] loops
      are [for_up], [for_down] and their variants with early return, [while]
      loops take fuel.  Each loop has an induction principle.
    - BitUtils.v: port/pg_bitutils.c and include/port/pg_bitutils.h.
    - Bitmapset.v (operations), BitmapsetSpec.v (denotation and lemmas),
      BitmapsetProps.v (theorems): backend/nodes/bitmapset.c.  A set is NULL or an
      array of 64-bit words.
    - Knapsack.v: backend/lib/knapsack.c, against an interface of integer sets (the
      classes [IntSetOps] and [IntSet]) that Bitmapset implements.  Values are
      doubles ([double]) whose sums are rounded.
    - PgList.v, PgListProps.v: backend/nodes/list.c and include/nodes/pg_list.h.  A
      list is NIL or a tagged array with a length and an allocated size; cells
      that the code has not written are [None].
    - Sort.v, SortSpec.v (its parts), SortProps.v (theorems): the quicksort of
      include/lib/sort_template.h as port/qsort.c instantiates it; PgListSort.v:
      list_sort, which calls it.
    - BinaryHeap.v, BinaryHeapProps.v: backend/lib/binaryheap.c.
    - FsmPage.v, FsmPageProps.v: backend/storage/freespace/fsmpage.c.  The exchange
      of the buffer lock during a repair is recorded, and what other backends do
      to the page meanwhile is a parameter.
    - Transam.v, TransamProps.v: include/access/transam.h,
      backend/access/transam/transam.c and the parent climb of subtrans.c.
    - HeapVisibility.v: backend/access/heap/heapam_visibility.c, all of it, with
      XidInMVCCSnapshot (snapmgr.c), MultiXactIdGetUpdateXid (heapam.c),
      MultiXactIdIsRunning (multixact.c), the command-id accessors (combocid.c) and
      the infomask macros (htup_details.h).  A routine is a statement that reads
      and hints a tuple header and may return early.
    - VisibilityRules.v, HeapVisibilityProps.v, Mvcc.v: the specification of tuple
      states, the rules and tactics by which the routines are executed symbolically,
      the answers of each routine, and the theorems.
    - Snapshots.v: the process array as a state machine (GetNewTransactionId of
      varsup.c, SubTransSetParent of subtrans.c, and of procarray.c
      XidCacheRemoveRunningXids, ProcArrayEndTransactionInternal and
      MaintainLatestCompletedXid), and the snapshots that GetSnapshotData makes or
      reuses in its states.
    - Clog.v, ClogProps.v: backend/access/transam/clog.c and the commit and abort
      entry points of transam.c.  The log is a function from page numbers to pages
      of status bits and group LSNs; setting the status of a transaction tree is
      the sequence of its page updates, each of which is atomic.
    - LWLock.v: backend/storage/lmgr/lwlock.c.  One lock and its processes; a
      process is at a place [pc] of the code, and [run] executes its next access
      to shared memory.  LWLockInv.v: the step relation and the invariant;
      LWLockSteps.v, LWLockWakeSteps.v: every step keeps it; LWLockProps.v: the
      theorems.
    - Numutils.v, NumutilsProps.v (input), NumutilsOutput.v (output):
      backend/utils/adt/numutils.c.
    - Pglz.v: common/pg_lzcompress.c, both directions.  PglzDecode.v: the compressed
      format as a stream of tokens, and its decompression; PglzHistory.v: the lists
      of earlier positions and the search in them; PglzEncode.v: the compressor
      writes the format; PglzProps.v: the theorems.
    - BufPage.v: backend/storage/page/bufpage.c with include/storage/bufpage.h,
      itemid.h and off.h.  A page is its header, its line pointers and the bytes of
      its block, of any block size; copies outside a block are errors.
      BufPageSpec.v: the abstract page (a sequence of slots) and validity;
      BufPageAdd.v, BufPageCompact.v, BufPageRepair.v, BufPageIndex.v,
      BufPageMulti.v: insertion, compaction, repair and truncation, deletion and
      replacement, deletion of many items; BufPageLife.v: the pages the operations
      can make; BufPageProps.v: the theorems.
    - backend/utils/adt/numeric.c, in four groups of files.  Numeric.v: the packed
      form, variables, comparison, sum, product, rounding, conversion from and to
      integers; NumericArith.v, NumericRound.v, NumericMul.v, NumericPack.v,
      NumericNum.v, NumericTimes.v, NumericInt.v: their lemmas; NumericProps.v:
      theorems.  NumericFun.v (columns, whole numbers, scales), NumericType.v,
      NumericWhole.v, NumericText.v (input and output), NumericPrint.v,
      NumericParse.v, NumericBased.v, NumericAccept.v; theorems in
      NumericTextProps.v.  NumericDiv.v (division, remainders, divisors,
      factorials), NumericQuot.v, NumericDivide.v, NumericModulo.v; theorems in
      NumericDivProps.v.  NumericAccum.v (the accumulator and the aggregates sum, avg
      and variance), NumericAccumSpec.v, NumericAgg.v; theorems in NumericAggProps.v.
    - Dates.v, DatesProps.v: Julian days and date checks of
      backend/utils/adt/datetime.c, ISO weeks of timestamp.c, the type date of date.c.
    - Timestamps.v: timestamps without time zone, intervals and times of day, of
      timestamp.c and date.c; TimestampSpec.v: fields and stages of the arithmetic;
      TimestampProps.v, TimestampTrunc.v: theorems.

    Bitmapset uses BitUtils, and so does Numutils; Clog uses Transam and gives it
    its log; Knapsack uses Bitmapset through its interface; HeapVisibility uses
    Transam for comparing identifiers; Snapshots gives the visibility routines their
    snapshots; PgListSort uses Sort; Timestamps uses Dates.

    ** What the theorems show

    - Visibility (Mvcc.v).  An MVCC snapshot sees exactly the tuples whose insertion
      it sees and whose deletion it does not, whatever hint bits are set, and every
      hint bit set is true ([mvcc_visibility]); reads are repeatable while other
      transactions end ([mvcc_repeatable]); a tuple that vacuum calls dead is
      invisible to every snapshot the horizon respects ([vacuum_dead_invisible]);
      the verdict of the update test is a function of the state of the tuple's
      transactions and lockers ([update_verdict]); the routines change hint bits
      only ([visibility_only_hints]).
    - Snapshots (Snapshots.v).  In every state that backends reach by beginning,
      aborting and ending transactions and subtransactions, a snapshot counts as
      running what runs in other backends and what has not begun, and not what has
      ended, whether or not the caches of subtransactions overflow and whether the
      snapshot is new or reused ([snapshot_membership]).
    - Transactions (TransamProps.v, ClogProps.v).  The wrap-around comparisons are
      the order of the 64-bit identifiers ([xid_order_full]); outcome lookups end
      and agree with the log, and what they cache stays true while the log changes
      ([xact_outcome_correct]); the climb to the topmost parent ends at an
      ancestor.  What is written to the commit log is read back, for the members of
      a tree and nobody else ([clog_tree_status]), and the commit of a tree that
      spans several pages is atomic for those who ask between two page updates
      ([clog_commit_atomic]).
    - Lightweight locks (LWLockProps.v).  In every state that any interleaving
      reaches, the lock word counts the holders and an exclusive holder is alone
      ([lwlock_mutual_exclusion]), the wait queue is intact and the assertions of
      the code hold ([lwlock_queue_integrity]), and the processes never all wait
      while the lock is not held from outside ([lwlock_no_lost_wakeup]).
    - Integer input and output.  The parsers accept exactly the literals of their
      range ([strtoint_accepts]); every integer is printed in its shortest form,
      inside the buffer, and read back ([int_text_roundtrip],
      [unsigned_output_bounds]).
    - Compression (PglzProps.v).  What was compressed is decompressed to itself
      ([pglz_roundtrip]), a prefix of it from the prefix of the compressed data that
      pglz_maximum_compressed_size tells ([pglz_prefix]); compression keeps inside
      the buffer it asks for, whatever its static tables hold
      ([pglz_compress_bounds]), and decompression of data that may be corrupt
      writes nothing outside its buffer and answers from the data alone
      ([pglz_decompress_bounds]); but an offset that is too large makes it copy
      bytes from the memory in front of its buffer ([Sample.wild_read]).
    - Slotted pages (BufPageProps.v).  Each operation on a valid page refines an
      operation on a sequence of slots: insertion ([page_add_item_refines]), repair
      and truncation ([page_compaction_refines]), deletion and replacement
      ([index_item_refines]), deletion of many items, whose two ways agree
      ([index_multi_delete_refines]); no item loses a byte when it moves.  The space
      that is reported is there ([free_space_promise]); every heap or index page
      made by the operations is valid, raises no corruption error and can be
      repaired ([pages_stay_valid]), though insertions in front of others may
      exceed the limit of line pointers ([heap_limit_passed]), and repair of a
      corrupt page may overrun its scratch block ([repair_overrun]).
    - Numeric values.  Sums, products and quotients are exact or rounded correctly at
      the documented scale ([numeric_sum_exact], [numeric_product_exact],
      [numeric_quotient_exact]), with no overflow of the digit arithmetic
      ([div_var_exact], [accumulator_exact]); exactly the literals are read, with
      their value ([numeric_in_literals]), and text and columns keep values
      ([numeric_text_roundtrip], [numeric_column_cast]); aggregates are functions of
      their inputs through additions, removals and combinations
      ([aggregate_transitions], [aggregate_sum_avg]).
    - Dates and timestamps.  Julian days are the Gregorian calendar
      ([calendar_roundtrip]), weeks those of ISO 8601 ([iso_week]); timestamps and
      their fields are inverse ([timestamp_fields]); adding an interval adds
      months, days and time in this order ([timestamp_interval_sum]); justified
      intervals keep their length ([interval_arithmetic]), truncation finds the
      beginning of a unit ([timestamp_truncation]).  Where the code does not check a
      sum, examples show what comes out ([days_mistaken], [time_sum_wraps]).
    - Bit operations: the table-driven scans and counts are the mathematical
      functions.
    - Bitmap sets (BitmapsetProps.v): every operation refines the operation on finite
      sets of integers ([gset Z]) and keeps the representation invariant; errors;
      the iteration protocol; compatibility of hashing with matching.
    - Knapsack: the solver's answer is feasible, and optimal if the sums of values
      are exact ([DiscreteKnapsack_optimal]); [rounding_loses] shows one that is not.
    - Lists (PgListProps.v): every operation refines the operation on sequences, and
      every list reachable by the operations satisfies the invariant of
      check_list_invariants, with no access outside its array.
    - Sorting (SortProps.v): for any comparison the sort ends with a permutation, in
      logarithmic stack space and within its array; sorted if the comparison is a
      total preorder ([pg_qsort_sorts]).
    - Binary heap: a priority queue over the multiset of its contents.
    - Free space map page: setting, rebuilding and truncating keep the tree valid; a
      search ends on any page, torn or not, after at most one repair, and on a valid
      page finds the first suitable slot from the hint on.

    ** Hypotheses, bounds and fuel

    Loops that do not count have fuel, and the theorems state that a result is
    returned, so the fuel is enough: the number of nodes for the binary heap and the
    free space map, four rounds for the integer printers (two are needed), the length
    of the input and of the history for the compressor, the number of elements for
    the sort and its partition, three passes for the correction of an estimated
    quotient digit and for the special transaction identifiers, twice the number of
    bits for Euclid's algorithm, three passes for the carries between the fields of
    an age.  The chains of parents in Transam take as much fuel as a rank that
    decreases from child to parent gives, the bound being a hypothesis.  List lengths
    are bounded by the largest allocation, as in the code.  Words are 64 bits wide;
    the block size is arbitrary, for slotted pages any multiple of 8 from 64 to 2^15
    ([block_ok]), which includes all that configure offers.  Items on a page are not
    empty; deletion on index pages asks, as the code asserts, that every line pointer
    has an item.

    Assert() is compiled out of a production build, and the models do not stop at
    one.  Where a theorem needs what is asserted, it is a hypothesis or follows from
    an invariant.

    What the visibility routines ask of the transaction system (process array,
    own transaction, multixact members, combo command ids, horizons) is the record
    [xact_env]; the class [env_ok] says that the answers come from one state of
    every transaction: the caller's own, running, committed or aborted.  A sound
    tuple ([sound]) has true hint bits, was not moved by a pre-9.0 VACUUM FULL (the
    code for moved tuples is modelled, and covered by [visibility_only_hints]), and
    was deleted by nobody else while its inserter runs.  Comparators, [equal()] and
    [copyObjectImpl()], which the build generates, the byte hash, the bytes of
    memory that a routine finds in its buffers or in front of them, and whether the
    platform has 128-bit integers are parameters.

    Transaction identifiers are given out only while all that runs is less than half
    the range of 32-bit identifiers behind ([headroom]); this is what the limits
    behind xidStopLimit are for.

    The lock theorems hold for any number of processes up to MAX_BACKENDS, any
    interleaving and any number of extra semaphore posts, over sequentially
    consistent memory; callers do not request a lock they hold and change its
    variable only under the exclusive lock ([request_ok]), as the code asserts.

    ** What is not modelled

    Releasing memory (bms_free, list_free, binaryheap_free), the compiler-builtin,
    SIMD and CPU-specific branches, weak memory, the lock tranche registry and
    statistics, the exchange of messages about unflushed commit records beyond its
    result ([CommitUnflushed]), logical decoding beyond the historic visibility test,
    the SLRU buffers under the commit log, the upkeep of KnownAssignedXids during
    recovery, group clearing of identifiers, prepared transactions, strtoul based
    input, page checksums and the verification of a page read from disk; of numeric,
    roots, exponentials and logarithms, div_var_fast, standard deviations, the
    aggregates over integers and the transfer of aggregate states, hashing, sort
    support, binary and floating-point conversion and scientific notation; of dates
    and timestamps, time zones, text input and output, extraction of fields, and
    multiplication of intervals, which is floating-point arithmetic; and every other
    part of the server: buffers, WAL, heavyweight locks, access methods, parser,
    planner, executor, commands, replication, client programs.  The vendored readline
    and the web site of the repository are not part of the program.

    What could follow: the pairing heap, the red-black tree and the integer set of
    backend/lib; the other readers of the process array; time zones; deadlock
    detection. *)

From stdpp Require Export base list gmap sets numbers list_numbers strings sorting.
From Stdlib Require Export ZArith Lia.

#[global] Set Default Goal Selector "!".

(** Local Ltac and notations of the development live in [pg_scope]. *)
Declare Scope pg_scope.
Delimit Scope pg_scope with pg.

Create HintDb pg.
Create HintDb pgbits.

Local Open Scope Z_scope.

(** * Machine integers

    A [w]-bit unsigned integer is a [Z] in [[0, 2^w)]; [uwrap w] is C's
    conversion to the unsigned type and [swrap w] the two's complement
    conversion to the signed type.  Operators whose C counterpart can leave the
    range are followed by the conversion. *)

Definition uwrap (w x : Z) : Z := x mod 2 ^ w.
Definition swrap (w x : Z) : Z := (x + 2 ^ (w - 1)) mod 2 ^ w - 2 ^ (w - 1).

Definition in_u (w x : Z) : Prop := 0 <= x < 2 ^ w.
Definition in_s (w x : Z) : Prop := - 2 ^ (w - 1) <= x < 2 ^ (w - 1).

(** [~x], [x << n], [x >> n] on a [w]-bit unsigned operand. *)
Definition unot (w x : Z) : Z := Z.lxor x (Z.ones w).
Definition ushl (w x n : Z) : Z := uwrap w (Z.shiftl x n).
Definition ushr (x n : Z) : Z := Z.shiftr x n.

(** * Errors

    [elog(ERROR, ...)] and [ereport(ERROR, ...)] leave the function through a
    longjmp: a function that can raise returns a [res]. *)
Inductive res (A : Type) : Type :=
| Ok (a : A)
| Err (msg : string).
Arguments Ok {A} _.
Arguments Err {A} _.

Definition res_bind {A B} (r : res A) (f : A -> res B) : res B :=
  match r with Ok a => f a | Err m => Err m end.
Notation "x <-! r ;; k" := (res_bind r (fun x => k))
  (at level 100, r at next level, right associativity) : pg_scope.
Notation "' p <-! r ;; k" := (res_bind r (fun x => match x with p => k end))
  (at level 20, p pattern, r at level 99, k at level 200, only parsing) : pg_scope.

(** * Loops

    [for_up n i body s] runs [body] at [i, i+1, ..., i+n-1]: the C loop
    [for (k = i; k < i + n; k++) s = body(k, s)].  The [_ret] forms allow the
    body to return from the function; [for_down_ret] is
    [for (k = n; --k >= 0;)]. *)
Inductive flow (S R : Type) : Type :=
| Next (s : S)
| Return (r : R).
Arguments Next {S R} _.
Arguments Return {S R} _.

Fixpoint for_up {S} (n i : nat) (body : nat -> S -> S) (s : S) : S :=
  match n with
  | O => s
  | Datatypes.S n' => for_up n' (Datatypes.S i) body (body i s)
  end.

Fixpoint for_up_ret {S R} (n i : nat) (body : nat -> S -> flow S R) (s : S)
  : flow S R :=
  match n with
  | O => Next s
  | Datatypes.S n' =>
      match body i s with
      | Next s' => for_up_ret n' (Datatypes.S i) body s'
      | Return r => Return r
      end
  end.

Fixpoint for_down_ret {S R} (n : nat) (body : nat -> S -> flow S R) (s : S)
  : flow S R :=
  match n with
  | O => Next s
  | Datatypes.S i =>
      match body i s with
      | Next s' => for_down_ret i body s'
      | Return r => Return r
      end
  end.

(** [for (k = n; --k >= 0;) s = body(k, s)] *)
Fixpoint for_down {S} (n : nat) (body : nat -> S -> S) (s : S) : S :=
  match n with
  | O => s
  | Datatypes.S i => for_down i body (body i s)
  end.

(** A [while] loop, cut off after [fuel] rounds.  The cut is a value of its own,
    never a result: a theorem that a function returns [Ok] also shows that its
    loops end. *)
Fixpoint while {S R} (fuel : nat) (body : S -> flow S R) (s : S) : option R :=
  match fuel with
  | O => None
  | Datatypes.S fuel' =>
      match body s with
      | Next s' => while fuel' body s'
      | Return r => Some r
      end
  end.

Definition out_of_fuel : string := "loop cut off".

Definition of_fuel {A} (o : option A) : res A :=
  match o with Some a => Ok a | None => Err out_of_fuel end.

(** What follows a loop that may have returned. *)
Definition after {S R} (f : flow S R) (k : S -> R) : R :=
  match f with Next s => k s | Return r => r end.

(** * Arrays

    A C array is a list.  [rd] reads a word; a read out of range, which C leaves
    undefined, gives 0 here, and the theorems keep their accesses in range.
    [<[i:=x]> l] is the write. *)
Definition rd (l : list Z) (i : nat) : Z := default 0 (l !! i).

(** ** Loop lemmas *)

Section loops.
Context {S R : Type}.
Implicit Types (s : S) (r : R) (n i j : nat).

Lemma for_up_ind (P : nat -> S -> Prop) (body : nat -> S -> S) n i s :
  P i s ->
  (forall k s, (i <= k < i + n)%nat -> P k s -> P (Datatypes.S k) (body k s)) ->
  P (i + n)%nat (for_up n i body s).
Proof.
  revert i s; induction n as [|n IH]; intros i s H0 Hs; simpl.
  - by rewrite Nat.add_0_r.
  - replace (i + Datatypes.S n)%nat with (Datatypes.S i + n)%nat by lia.
    apply IH.
    + apply Hs; [lia | done].
    + intros k s' Hk HP. apply Hs; [lia | done].
Qed.

Lemma for_up_ret_ind (P : nat -> S -> Prop) (Q : R -> Prop)
    (body : nat -> S -> flow S R) n i s :
  P i s ->
  (forall k s, (i <= k < i + n)%nat -> P k s ->
     match body k s with Next s' => P (Datatypes.S k) s' | Return r => Q r end) ->
  match for_up_ret n i body s with
  | Next s' => P (i + n)%nat s'
  | Return r => Q r
  end.
Proof.
  revert i s; induction n as [|n IH]; intros i s H0 Hs; simpl.
  - by rewrite Nat.add_0_r.
  - replace (i + Datatypes.S n)%nat with (Datatypes.S i + n)%nat by lia.
    pose proof (Hs i s ltac:(lia) H0) as Hb.
    destruct (body i s) as [s'|r]; [|done].
    apply IH; [done|]. intros k s'' Hk HP. apply Hs; [lia | done].
Qed.

Lemma for_down_ind (P : nat -> S -> Prop) (body : nat -> S -> S) n s :
  P n s ->
  (forall k s, (k < n)%nat -> P (Datatypes.S k) s -> P k (body k s)) ->
  P 0%nat (for_down n body s).
Proof.
  revert s; induction n as [|n IH]; intros s H0 Hs; simpl; [done|].
  apply IH; [apply Hs; [lia|done]|]. intros k s' Hk. apply Hs. lia.
Qed.

Lemma for_down_ret_ind (P : nat -> S -> Prop) (Q : R -> Prop)
    (body : nat -> S -> flow S R) n s :
  P n s ->
  (forall k s, (k < n)%nat -> P (Datatypes.S k) s ->
     match body k s with Next s' => P k s' | Return r => Q r end) ->
  match for_down_ret n body s with
  | Next s' => P 0%nat s'
  | Return r => Q r
  end.
Proof.
  revert s; induction n as [|n IH]; intros s H0 Hs; simpl; [done|].
  pose proof (Hs n s ltac:(lia) H0) as Hb.
  destruct (body n s) as [s'|r]; [|done].
  apply IH; [done|]. intros k s'' Hk HP. apply Hs; [lia | done].
Qed.

(** A loop whose measure decreases ends, in a state the invariant gives. *)
Lemma while_total (P : S -> Prop) (Q : R -> Prop) (mu : S -> nat)
    (body : S -> flow S R) fuel s :
  P s -> (mu s < fuel)%nat ->
  (forall s, P s ->
     match body s with Next s' => P s' /\ (mu s' < mu s)%nat | Return r => Q r end) ->
  exists r, while fuel body s = Some r /\ Q r.
Proof.
  intros H0 Hmu Hs. revert s H0 Hmu; induction fuel as [|fuel IH]; intros s H0 Hmu; [lia|].
  simpl. specialize (Hs s H0). destruct (body s) as [s'|r]; [|by exists r].
  destruct Hs as [H' Hlt]. apply IH; [done|lia].
Qed.

(** A search loop: the first index that satisfies the test decides. *)
Lemma for_up_ret_search (p : nat -> bool) r n i s :
  for_up_ret n i (fun k s => if p k then Return r else Next s) s =
  if existsb p (seq i n) then Return r else Next s.
Proof.
  revert i; induction n as [|n IH]; intros i; simpl; [done|].
  destruct (p i); simpl; [done | apply IH].
Qed.
End loops.

(** The same over the elements of an array. *)
Lemma existsb_seq_lookup {A} (p : A -> bool) l :
  existsb (fun i => match l !! i with Some x => p x | None => false end) (seq 0 (length l))
  = existsb p l.
Proof.
  apply eq_bool_prop_intro. rewrite !Is_true_true, !existsb_exists. split.
  - intros (i & _ & Hi). destruct (l !! i) as [x|] eqn:E; [|done].
    exists x. split; [|done]. apply list_elem_of_In. by eapply list_elem_of_lookup_2.
  - intros (x & Hx & Hp). apply list_elem_of_In, list_elem_of_lookup in Hx as [i Hi].
    exists i. rewrite Hi. split; [|done]. apply in_seq.
    apply lookup_lt_Some in Hi. lia.
Qed.

Lemma for_up_ret_array {A R} (p : A -> bool) (r : R) l :
  for_up_ret (length l) 0
    (fun i (_ : unit) =>
       match l !! i with Some x => if p x then Return r else Next tt | None => Next tt end) tt
  = if existsb p l then Return r else Next tt.
Proof.
  rewrite <- existsb_seq_lookup. generalize (length l) as n, 0%nat as i.
  induction n as [|n IH]; intros i; simpl; [done|].
  destruct (l !! i) as [x|]; [destruct (p x)|]; simpl; done.
Qed.

(** A loop that rewrites each cell of an array from its own old value. *)
Lemma for_up_array_length (f : nat -> Z -> Z) n i l :
  length (for_up n i (fun k l => <[k := f k (rd l k)]> l) l) = length l.
Proof.
  apply (for_up_ind (fun _ l' => length l' = length l)); [done|].
  intros k s _ Hs. by rewrite length_insert.
Qed.

Lemma rd_insert_eq l i x : (i < length l)%nat -> rd (<[i := x]> l) i = x.
Proof. intros H. unfold rd. by rewrite list_lookup_insert_eq. Qed.

Lemma rd_insert_ne l i j x : i <> j -> rd (<[i := x]> l) j = rd l j.
Proof. intros H. unfold rd. by rewrite list_lookup_insert_ne. Qed.

Lemma rd_insert l i j x :
  (i < length l)%nat -> rd (<[i := x]> l) j = if decide (i = j) then x else rd l j.
Proof.
  intros H. case_decide as Hd; [subst; by apply rd_insert_eq | by apply rd_insert_ne].
Qed.

Lemma rd_ge l i : (length l <= i)%nat -> rd l i = 0.
Proof. intros H. unfold rd. by rewrite lookup_ge_None_2. Qed.

Lemma rd_lookup l i : (i < length l)%nat -> l !! i = Some (rd l i).
Proof.
  intros H. unfold rd. by destruct (lookup_lt_is_Some_2 l i H) as [x ->].
Qed.

Lemma rd_cons_S x l i : rd (x :: l) (S i) = rd l i.
Proof. done. Qed.

Lemma rd_app_l l1 l2 i : (i < length l1)%nat -> rd (l1 ++ l2) i = rd l1 i.
Proof. intros H. unfold rd. by rewrite lookup_app_l. Qed.

Lemma rd_app_r l1 l2 i :
  (length l1 <= i)%nat -> rd (l1 ++ l2) i = rd l2 (i - length l1)%nat.
Proof. intros H. unfold rd. by rewrite lookup_app_r. Qed.

Lemma rd_replicate n i x : rd (replicate n x) i = if decide (i < n)%nat then x else 0.
Proof.
  unfold rd. case_decide as H; [by rewrite lookup_replicate_2|].
  rewrite (lookup_ge_None_2 (replicate n x) i); [done|].
  rewrite length_replicate; lia.
Qed.

Lemma rd_take l n i : (i < n)%nat -> rd (take n l) i = rd l i.
Proof. intros H. unfold rd. by rewrite lookup_take_lt. Qed.

Lemma rd_ext l1 l2 :
  length l1 = length l2 ->
  (forall i, (i < length l1)%nat -> rd l1 i = rd l2 i) -> l1 = l2.
Proof.
  intros Hl H. apply list_eq_same_length with (length l1); [done|done|].
  intros i x y Hi Hx Hy. specialize (H i Hi). unfold rd in H.
  rewrite Hx, Hy in H. done.
Qed.

Lemma for_up_array (f : nat -> Z -> Z) n i l j :
  (i + n <= length l)%nat ->
  rd (for_up n i (fun k l => <[k := f k (rd l k)]> l) l) j =
  if decide (i <= j < i + n)%nat then f j (rd l j) else rd l j.
Proof.
  intros Hle.
  pose proof (for_up_ind (fun k l' => length l' = length l /\
    forall j, rd l' j = if decide (i <= j < k)%nat then f j (rd l j) else rd l j)
    (fun k l => <[k := f k (rd l k)]> l) n i l) as H.
  destruct H as [_ H]; [| |apply H].
  - split; [done|]. intros j'. case_decide; [lia|done].
  - intros k s Hk [Hlen Hs]. split; [by rewrite length_insert|].
    intros j'. rewrite rd_insert by lia. rewrite !Hs.
    repeat case_decide; subst; try lia; done.
Qed.

(** ** Bit lemmas

    [bits] rewrites the test bit of a word expression into a boolean formula. *)

Lemma in_u_testbit_high w x i : in_u w x -> 0 <= w <= i -> Z.testbit x i = false.
Proof.
  intros [H0 H1] Hi. destruct (decide (x = 0)) as [->|Hx]; [apply Z.testbit_0_l|].
  apply Z.bits_above_log2; [done|].
  assert (Z.log2 x < w) by (apply Z.log2_lt_pow2; lia). lia.
Qed.

Lemma in_u_of_testbit w x :
  0 <= w -> 0 <= x -> (forall i, w <= i -> Z.testbit x i = false) -> in_u w x.
Proof.
  intros Hw Hx H. split; [done|].
  destruct (decide (x < 2 ^ w)) as [|Hge]; [done|].
  assert (Hlog : w <= Z.log2 x).
  { apply Z.log2_le_pow2; [|lia].
    pose proof (Z.pow_pos_nonneg 2 w ltac:(lia) Hw). lia. }
  specialize (H _ Hlog). rewrite Z.bit_log2 in H; [done|].
  pose proof (Z.pow_pos_nonneg 2 w ltac:(lia) Hw). lia.
Qed.

Lemma uwrap_range w x : 0 <= w -> in_u w (uwrap w x).
Proof. intros Hw. apply Z.mod_pos_bound. apply Z.pow_pos_nonneg; lia. Qed.

Lemma uwrap_small w x : in_u w x -> uwrap w x = x.
Proof. apply Z.mod_small. Qed.

Lemma uwrap_testbit w x i :
  0 <= w -> 0 <= i -> Z.testbit (uwrap w x) i = bool_decide (i < w) && Z.testbit x i.
Proof.
  intros Hw Hi. unfold uwrap. case_bool_decide as H; simpl.
  - by apply Z.mod_pow2_bits_low.
  - apply Z.mod_pow2_bits_high. lia.
Qed.

Lemma unot_testbit w x i :
  0 <= w -> 0 <= i -> Z.testbit (unot w x) i =
  xorb (Z.testbit x i) (bool_decide (i < w)).
Proof.
  intros Hw Hi. unfold unot. rewrite Z.lxor_spec. f_equal.
  case_bool_decide; [apply Z.ones_spec_low | apply Z.ones_spec_high]; lia.
Qed.

Lemma unot_range w x : 0 <= w -> in_u w x -> in_u w (unot w x).
Proof.
  intros Hw Hx. apply in_u_of_testbit; [done| |].
  - unfold unot. apply Z.lxor_nonneg. unfold in_u in Hx.
    rewrite Z.ones_equiv. pose proof (Z.pow_pos_nonneg 2 w); lia.
  - intros i Hi. rewrite unot_testbit by lia.
    rewrite (in_u_testbit_high w) by (done || lia).
    by rewrite bool_decide_eq_false_2 by lia.
Qed.

Lemma ushl_testbit w x n i :
  0 <= w -> 0 <= i -> 0 <= n ->
  Z.testbit (ushl w x n) i = bool_decide (i < w) && Z.testbit x (i - n).
Proof.
  intros Hw Hi Hn. unfold ushl. rewrite uwrap_testbit by lia. f_equal.
  by apply Z.shiftl_spec.
Qed.

Lemma ushr_testbit x n i :
  0 <= i -> 0 <= n -> Z.testbit (ushr x n) i = Z.testbit x (i + n).
Proof. intros Hi Hn. unfold ushr. by apply Z.shiftr_spec. Qed.

Lemma testbit_one i : Z.testbit 1 i = bool_decide (i = 0).
Proof.
  case_bool_decide as H; [by subst|].
  destruct (decide (i < 0)) as [Hn|Hp]; [by apply Z.testbit_neg_r|].
  change 1 with (2 ^ 0). rewrite Z.pow2_bits_false by lia. done.
Qed.

Lemma land_range w x y : 0 <= w -> in_u w x -> 0 <= y -> in_u w (Z.land x y).
Proof.
  intros Hw [Hx Hx'] Hy. apply in_u_of_testbit; [done| |].
  - apply Z.land_nonneg. by left.
  - intros i Hi. rewrite Z.land_spec. by rewrite (in_u_testbit_high w).
Qed.

Lemma lor_range w x y : 0 <= w -> in_u w x -> in_u w y -> in_u w (Z.lor x y).
Proof.
  intros Hw Hx Hy. apply in_u_of_testbit; [done| |].
  - apply Z.lor_nonneg. unfold in_u in *; lia.
  - intros i Hi. rewrite Z.lor_spec. by rewrite !(in_u_testbit_high w).
Qed.

Lemma ushr_range w x n : 0 <= w -> 0 <= n -> in_u w x -> in_u w (ushr x n).
Proof.
  intros Hw Hn Hx. apply in_u_of_testbit; [done| |].
  - apply Z.shiftr_nonneg. unfold in_u in Hx; lia.
  - intros i Hi. rewrite ushr_testbit by lia.
    apply (in_u_testbit_high w); [done|lia].
Qed.

Lemma Z_eq_0_testbit x : (forall i, 0 <= i -> Z.testbit x i = false) -> x = 0.
Proof.
  intros H. apply Z.bits_inj'. intros n Hn. by rewrite H, Z.testbit_0_l.
Qed.

(** A nonzero word has a set bit, and its positions are below the width. *)
Lemma nonzero_testbit x : 0 <= x -> x <> 0 -> exists i, 0 <= i /\ Z.testbit x i = true.
Proof.
  intros Hx Hnz. exists (Z.log2 x). split; [apply Z.log2_nonneg|].
  apply Z.bit_log2. lia.
Qed.

Lemma testbit_true_lt w x i :
  in_u w x -> 0 <= w -> Z.testbit x i = true -> 0 <= i < w.
Proof.
  intros Hx Hw Hb. split.
  - destruct (decide (i < 0)); [|lia]. by rewrite Z.testbit_neg_r in Hb.
  - destruct (decide (w <= i)); [|lia]. by rewrite (in_u_testbit_high w) in Hb.
Qed.

(** ** Sorted sequences *)

Lemma StronglySorted_mono {A} (R1 R2 : A -> A -> Prop) l :
  (forall x y, R1 x y -> R2 x y) -> StronglySorted R1 l -> StronglySorted R2 l.
Proof.
  intros HR. induction 1 as [|x l Hl IH Hx]; constructor; [done|].
  eapply Forall_impl; [exact Hx|]. intros y. apply HR.
Qed.

Lemma StronglySorted_lt_NoDup l : StronglySorted Z.lt l -> NoDup l.
Proof.
  induction 1 as [|x l Hl IH Hx]; constructor; [|done].
  intros Hin. rewrite Forall_forall in Hx. specialize (Hx x Hin). lia.
Qed.

(** * Writing several elements *)

(** [l] written at [p]. *)
Definition splice (a : list Z) (p : nat) (l : list Z) : list Z :=
  take p a ++ l ++ drop (p + length l) a.

Lemma splice_insert a p x : (p < length a)%nat -> <[p := x]> a = splice a p [x].
Proof. intros Hp. unfold splice. rewrite insert_take_drop by done. simpl. by rewrite Nat.add_1_r. Qed.

Lemma length_splice a p l : (p + length l <= length a)%nat -> length (splice a p l) = length a.
Proof. intros H. unfold splice. rewrite !length_app, length_take, length_drop. lia. Qed.

(** Writing in front of what was written last. *)
Lemma splice_before a p m l :
  (p + length m + length l <= length a)%nat ->
  splice (splice a (p + length m) l) p m = splice a p (m ++ l).
Proof.
  intros H. unfold splice. rewrite take_app_le by (rewrite length_take; lia).
  rewrite take_take, Nat.min_l by lia. rewrite <- !app_assoc. do 2 f_equal.
  rewrite drop_app_ge by (rewrite length_take; lia).
  rewrite length_take, Nat.min_l by lia. rewrite Nat.sub_diag, drop_0, length_app. do 2 f_equal. lia.
Qed.

(** Two characters, the second after the first. *)
Lemma splice_after a p x y :
  (p + 2 <= length a)%nat -> <[S p := y]> (<[p := x]> a) = splice a p [x; y].
Proof.
  intros H. apply list_eq. intros i. unfold splice.
  destruct (decide (i = S p)) as [->|Hi].
  { rewrite list_lookup_insert_eq by (rewrite length_insert; lia).
    rewrite lookup_app_r by (rewrite length_take; lia). rewrite length_take, Nat.min_l by lia.
    by replace (S p - p)%nat with 1%nat by lia. }
  rewrite list_lookup_insert_ne by done. destruct (decide (i = p)) as [->|Hi'].
  { rewrite list_lookup_insert_eq by lia. rewrite lookup_app_r by (rewrite length_take; lia).
    rewrite length_take, Nat.min_l by lia. by rewrite Nat.sub_diag. }
  rewrite list_lookup_insert_ne by done. destruct (decide (i < p)%nat).
  - rewrite lookup_app_l by (rewrite length_take; lia). by rewrite lookup_take_lt by lia.
  - rewrite lookup_app_r by (rewrite length_take; lia). rewrite length_take, Nat.min_l by lia.
    rewrite lookup_app_r by (simpl; lia). rewrite lookup_drop. f_equal. simpl. lia.
Qed.
