(* ===== verification/BitUtils.v ===== *)
(** Bit-twiddling primitives: src/port/pg_bitutils.c and the inline functions of
    src/include/port/pg_bitutils.h.

    The functions are selected at configure time between a compiler builtin and
    portable code over three 256-entry tables.  What is translated is the
    portable code (the [#else] branches), tables included.  Each is proved equal
    to its mathematical meaning: the position of the highest or lowest set bit,
    the number of set bits, the neighbouring powers of two.  The byte-wise loops
    carry a fuel of one step per byte of the word, and the lemmas show that they
    leave through their own exit condition. *)

From S2P Require Import Prelude.

Local Open Scope Z_scope.

Definition pg_leftmost_one_pos : list Z :=
  [0; 0; 1; 1; 2; 2; 2; 2; 3; 3; 3; 3; 3; 3; 3; 3;
   4; 4; 4; 4; 4; 4; 4; 4; 4; 4; 4; 4; 4; 4; 4; 4;
   5; 5; 5; 5; 5; 5; 5; 5; 5; 5; 5; 5; 5; 5; 5; 5;
   5; 5; 5; 5; 5; 5; 5; 5; 5; 5; 5; 5; 5; 5; 5; 5;
   6; 6; 6; 6; 6; 6; 6; 6; 6; 6; 6; 6; 6; 6; 6; 6;
   6; 6; 6; 6; 6; 6; 6; 6; 6; 6; 6; 6; 6; 6; 6; 6;
   6; 6; 6; 6; 6; 6; 6; 6; 6; 6; 6; 6; 6; 6; 6; 6;
   6; 6; 6; 6; 6; 6; 6; 6; 6; 6; 6; 6; 6; 6; 6; 6;
   7; 7; 7; 7; 7; 7; 7; 7; 7; 7; 7; 7; 7; 7; 7; 7;
   7; 7; 7; 7; 7; 7; 7; 7; 7; 7; 7; 7; 7; 7; 7; 7;
   7; 7; 7; 7; 7; 7; 7; 7; 7; 7; 7; 7; 7; 7; 7; 7;
   7; 7; 7; 7; 7; 7; 7; 7; 7; 7; 7; 7; 7; 7; 7; 7;
   7; 7; 7; 7; 7; 7; 7; 7; 7; 7; 7; 7; 7; 7; 7; 7;
   7; 7; 7; 7; 7; 7; 7; 7; 7; 7; 7; 7; 7; 7; 7; 7;
   7; 7; 7; 7; 7; 7; 7; 7; 7; 7; 7; 7; 7; 7; 7; 7;
   7; 7; 7; 7; 7; 7; 7; 7; 7; 7; 7; 7; 7; 7; 7; 7].

Definition pg_rightmost_one_pos : list Z :=
  [0; 0; 1; 0; 2; 0; 1; 0; 3; 0; 1; 0; 2; 0; 1; 0;
   4; 0; 1; 0; 2; 0; 1; 0; 3; 0; 1; 0; 2; 0; 1; 0;
   5; 0; 1; 0; 2; 0; 1; 0; 3; 0; 1; 0; 2; 0; 1; 0;
   4; 0; 1; 0; 2; 0; 1; 0; 3; 0; 1; 0; 2; 0; 1; 0;
   6; 0; 1; 0; 2; 0; 1; 0; 3; 0; 1; 0; 2; 0; 1; 0;
   4; 0; 1; 0; 2; 0; 1; 0; 3; 0; 1; 0; 2; 0; 1; 0;
   5; 0; 1; 0; 2; 0; 1; 0; 3; 0; 1; 0; 2; 0; 1; 0;
   4; 0; 1; 0; 2; 0; 1; 0; 3; 0; 1; 0; 2; 0; 1; 0;
   7; 0; 1; 0; 2; 0; 1; 0; 3; 0; 1; 0; 2; 0; 1; 0;
   4; 0; 1; 0; 2; 0; 1; 0; 3; 0; 1; 0; 2; 0; 1; 0;
   5; 0; 1; 0; 2; 0; 1; 0; 3; 0; 1; 0; 2; 0; 1; 0;
   4; 0; 1; 0; 2; 0; 1; 0; 3; 0; 1; 0; 2; 0; 1; 0;
   6; 0; 1; 0; 2; 0; 1; 0; 3; 0; 1; 0; 2; 0; 1; 0;
   4; 0; 1; 0; 2; 0; 1; 0; 3; 0; 1; 0; 2; 0; 1; 0;
   5; 0; 1; 0; 2; 0; 1; 0; 3; 0; 1; 0; 2; 0; 1; 0;
   4; 0; 1; 0; 2; 0; 1; 0; 3; 0; 1; 0; 2; 0; 1; 0].

Definition pg_number_of_ones : list Z :=
  [0; 1; 1; 2; 1; 2; 2; 3; 1; 2; 2; 3; 2; 3; 3; 4;
   1; 2; 2; 3; 2; 3; 3; 4; 2; 3; 3; 4; 3; 4; 4; 5;
   1; 2; 2; 3; 2; 3; 3; 4; 2; 3; 3; 4; 3; 4; 4; 5;
   2; 3; 3; 4; 3; 4; 4; 5; 3; 4; 4; 5; 4; 5; 5; 6;
   1; 2; 2; 3; 2; 3; 3; 4; 2; 3; 3; 4; 3; 4; 4; 5;
   2; 3; 3; 4; 3; 4; 4; 5; 3; 4; 4; 5; 4; 5; 5; 6;
   2; 3; 3; 4; 3; 4; 4; 5; 3; 4; 4; 5; 4; 5; 5; 6;
   3; 4; 4; 5; 4; 5; 5; 6; 4; 5; 5; 6; 5; 6; 6; 7;
   1; 2; 2; 3; 2; 3; 3; 4; 2; 3; 3; 4; 3; 4; 4; 5;
   2; 3; 3; 4; 3; 4; 4; 5; 3; 4; 4; 5; 4; 5; 5; 6;
   2; 3; 3; 4; 3; 4; 4; 5; 3; 4; 4; 5; 4; 5; 5; 6;
   3; 4; 4; 5; 4; 5; 5; 6; 4; 5; 5; 6; 5; 6; 6; 7;
   2; 3; 3; 4; 3; 4; 4; 5; 3; 4; 4; 5; 4; 5; 5; 6;
   3; 4; 4; 5; 4; 5; 5; 6; 4; 5; 5; 6; 5; 6; 6; 7;
   3; 4; 4; 5; 4; 5; 5; 6; 4; 5; 5; 6; 5; 6; 6; 7;
   4; 5; 5; 6; 5; 6; 6; 7; 5; 6; 6; 7; 6; 7; 7; 8].

(** [while ((word >> shift) == 0) shift -= 8;] *)
Fixpoint leftmost_shift (fuel : nat) (word shift : Z) : Z :=
  match fuel with
  | O => shift
  | S f => if ushr word shift =? 0 then leftmost_shift f word (shift - 8) else shift
  end.

Definition pg_leftmost_one_pos32 (word : Z) : Z :=
  let shift := leftmost_shift 4 word (32 - 8) in
  shift + rd pg_leftmost_one_pos (Z.to_nat (Z.land (ushr word shift) 255)).

Definition pg_leftmost_one_pos64 (word : Z) : Z :=
  let shift := leftmost_shift 8 word (64 - 8) in
  shift + rd pg_leftmost_one_pos (Z.to_nat (Z.land (ushr word shift) 255)).

(** [while ((word & 255) == 0) { word >>= 8; result += 8; }] *)
Fixpoint rightmost_loop (fuel : nat) (word result : Z) : Z * Z :=
  match fuel with
  | O => (word, result)
  | S f => if Z.land word 255 =? 0 then rightmost_loop f (ushr word 8) (result + 8)
           else (word, result)
  end.

Definition pg_rightmost_one_pos32 (word : Z) : Z :=
  let '(word, result) := rightmost_loop 4 word 0 in
  result + rd pg_rightmost_one_pos (Z.to_nat (Z.land word 255)).

Definition pg_rightmost_one_pos64 (word : Z) : Z :=
  let '(word, result) := rightmost_loop 8 word 0 in
  result + rd pg_rightmost_one_pos (Z.to_nat (Z.land word 255)).

(** [while (word != 0) { result += table[word & 255]; word >>= 8; }] *)
Fixpoint popcount_loop (fuel : nat) (word result : Z) : Z :=
  match fuel with
  | O => result
  | S f =>
      if word =? 0 then result
      else popcount_loop f (ushr word 8)
             (result + rd pg_number_of_ones (Z.to_nat (Z.land word 255)))
  end.

Definition pg_popcount32_slow (word : Z) : Z := popcount_loop 4 word 0.
Definition pg_popcount64_slow (word : Z) : Z := popcount_loop 8 word 0.
Definition pg_popcount32 (word : Z) : Z := pg_popcount32_slow word.
Definition pg_popcount64 (word : Z) : Z := pg_popcount64_slow word.

(** A [uint64] read from eight bytes of memory, in either byte order. *)
Fixpoint le_word (bs : list Z) : Z :=
  match bs with
  | [] => 0
  | b :: bs => Z.lor b (Z.shiftl (le_word bs) 8)
  end.
Definition load_word (bigendian : bool) (bs : list Z) : Z :=
  le_word (if bigendian then rev bs else bs).

(** [while (bytes >= 8) { popcnt += pg_popcount64( *words++ ); bytes -= 8; }];
    the pair is (popcnt, remaining buffer). *)
Fixpoint popcount_words (fuel : nat) (bigendian : bool) (buf : list Z) (popcnt : Z)
  : Z * list Z :=
  match fuel with
  | O => (popcnt, buf)
  | S f =>
      if (8 <=? Z.of_nat (length buf)) then
        popcount_words f bigendian (drop 8 buf)
          (uwrap 64 (popcnt + pg_popcount64 (load_word bigendian (take 8 buf))))
      else (popcnt, buf)
  end.

(** [while (bytes--) popcnt += pg_number_of_ones[( unsigned char ) *buf++];] *)
Fixpoint popcount_bytes (buf : list Z) (popcnt : Z) : Z :=
  match buf with
  | [] => popcnt
  | b :: buf =>
      popcount_bytes buf (uwrap 64 (popcnt + rd pg_number_of_ones (Z.to_nat (uwrap 8 b))))
  end.

(** [aligned] is the outcome of [buf == TYPEALIGN(8, buf)]; the buffer is the
    [bytes] bytes that start at [buf]. *)
Definition pg_popcount (bigendian aligned : bool) (buf : list Z) : Z :=
  let '(popcnt, buf) :=
    if aligned then popcount_words (length buf) bigendian buf 0 else (0, buf) in
  popcount_bytes buf popcnt.

Definition pg_nextpower2_32 (num : Z) : Z :=
  if Z.land num (uwrap 32 (num - 1)) =? 0 then num
  else ushl 32 1 (pg_leftmost_one_pos32 num + 1).

Definition pg_nextpower2_64 (num : Z) : Z :=
  if Z.land num (uwrap 64 (num - 1)) =? 0 then num
  else ushl 64 1 (pg_leftmost_one_pos64 num + 1).

Definition pg_prevpower2_32 (num : Z) : Z := ushl 32 1 (pg_leftmost_one_pos32 num).
Definition pg_prevpower2_64 (num : Z) : Z := ushl 64 1 (pg_leftmost_one_pos64 num).

Definition pg_ceil_log2_32 (num : Z) : Z :=
  if num <? 2 then 0 else pg_leftmost_one_pos32 (num - 1) + 1.
Definition pg_ceil_log2_64 (num : Z) : Z :=
  if num <? 2 then 0 else pg_leftmost_one_pos64 (num - 1) + 1.

Definition pg_rotate_right32 (word n : Z) : Z :=
  Z.lor (ushr word n) (ushl 32 word (32 - n)).
Definition pg_rotate_left32 (word n : Z) : Z :=
  Z.lor (ushl 32 word n) (ushr word (32 - n)).

(** * Reference meanings *)

(** The number of set bits among positions [0 .. n-1]. *)
Fixpoint bitcount (n : nat) (x : Z) : Z :=
  match n with
  | O => 0
  | S n' => bitcount n' x + Z.b2z (Z.testbit x (Z.of_nat n'))
  end.

(** [k] is the lowest set bit of [x]. *)
Definition lowest_bit (x k : Z) : Prop :=
  0 <= k /\ Z.testbit x k = true /\ forall i, 0 <= i < k -> Z.testbit x i = false.

(** * Tables *)

Lemma byte_table (p : Z -> Z -> bool) (t : list Z) :
  forallb (fun b => p (Z.of_nat b) (rd t b)) (seq 0 256) = true ->
  forall b, 0 <= b < 256 -> p b (rd t (Z.to_nat b)) = true.
Proof.
  intros H b Hb. rewrite forallb_forall in H.
  specialize (H (Z.to_nat b)). rewrite Z2Nat.id in H by lia.
  apply H, in_seq. lia.
Qed.

Lemma leftmost_table b :
  0 < b < 256 -> rd pg_leftmost_one_pos (Z.to_nat b) = Z.log2 b.
Proof.
  intros Hb.
  pose proof (byte_table (fun b v => v =? Z.log2 b) pg_leftmost_one_pos
    ltac:(vm_compute; reflexivity) b ltac:(lia)) as H. by apply Z.eqb_eq.
Qed.

Lemma ones_table b :
  0 <= b < 256 -> rd pg_number_of_ones (Z.to_nat b) = bitcount 8 b.
Proof.
  intros Hb.
  pose proof (byte_table (fun b v => v =? bitcount 8 b) pg_number_of_ones
    ltac:(vm_compute; reflexivity) b ltac:(lia)) as H. by apply Z.eqb_eq.
Qed.

Lemma rightmost_table b :
  0 < b < 256 -> lowest_bit b (rd pg_rightmost_one_pos (Z.to_nat b)).
Proof.
  intros Hb.
  pose proof (byte_table (fun b v => (b =? 0) || (0 <=? v) && Z.testbit b v &&
      forallb (fun i => (v <=? Z.of_nat i) || negb (Z.testbit b (Z.of_nat i))) (seq 0 8))
    pg_rightmost_one_pos ltac:(vm_compute; reflexivity) b ltac:(lia)) as H.
  apply orb_prop in H as [H%Z.eqb_eq|H]; [lia|].
  apply andb_prop in H as [[H1%Z.leb_le H2]%andb_prop H3].
  split; [done|]. split; [done|]. intros i Hi.
  rewrite forallb_forall in H3.
  assert (Hv : rd pg_rightmost_one_pos (Z.to_nat b) < 8).
  { apply (testbit_true_lt 8 b); unfold in_u; [lia|lia|done]. }
  specialize (H3 (Z.to_nat i) ltac:(apply in_seq; lia)).
  rewrite Z2Nat.id in H3 by lia.
  apply orb_prop in H3 as [H3%Z.leb_le|H3]; [lia|]. by apply negb_true_iff.
Qed.

(** * Bit counting *)

Lemma bitcount_0 n : bitcount n 0 = 0.
Proof. induction n as [|n IH]; simpl; [done|]. by rewrite IH, Z.testbit_0_l. Qed.

Lemma bitcount_ext n x y :
  (forall i, 0 <= i < Z.of_nat n -> Z.testbit x i = Z.testbit y i) ->
  bitcount n x = bitcount n y.
Proof.
  induction n as [|n IH]; intros H; simpl; [done|].
  rewrite IH by (intros i Hi; apply H; lia). by rewrite H by lia.
Qed.

Lemma bitcount_split n m x :
  bitcount (n + m) x = bitcount n x + bitcount m (ushr x (Z.of_nat n)).
Proof.
  induction m as [|m IH]; simpl.
  - by rewrite Nat.add_0_r, Z.add_0_r.
  - rewrite Nat.add_succ_r. simpl. rewrite IH, ushr_testbit by lia.
    replace (Z.of_nat (n + m)) with (Z.of_nat m + Z.of_nat n) by lia. lia.
Qed.

Lemma bitcount_range n x : 0 <= bitcount n x <= Z.of_nat n.
Proof.
  induction n as [|n IH]; simpl bitcount; [lia|].
  destruct (Z.testbit x (Z.of_nat n)); simpl Z.b2z; lia.
Qed.

Lemma bitcount_land_ones n m x :
  (n <= m)%nat -> bitcount n (Z.land x (Z.ones (Z.of_nat m))) = bitcount n x.
Proof.
  intros Hnm. apply bitcount_ext. intros i Hi.
  rewrite Z.land_spec, Z.ones_spec_low by lia. apply andb_true_r.
Qed.

Lemma byte_land x : 0 <= Z.land x 255 < 256.
Proof.
  change 255 with (Z.ones 8). rewrite Z.land_ones by lia.
  apply Z.mod_pos_bound. lia.
Qed.

Lemma popcount_loop_spec fuel x r :
  in_u (8 * Z.of_nat fuel) x ->
  popcount_loop fuel x r = r + bitcount (8 * fuel) x.
Proof.
  revert x r; induction fuel as [|f IH]; intros x r Hx; simpl popcount_loop.
  - simpl. lia.
  - destruct (Z.eqb_spec x 0) as [->|Hnz]; [by rewrite bitcount_0; lia|].
    rewrite IH; last first.
    { unfold in_u, ushr in *. rewrite Z.shiftr_div_pow2 by lia.
      split; [apply Z.div_pos; lia|]. apply Z.div_lt_upper_bound; [lia|].
      rewrite <- Z.pow_add_r by lia.
      replace (8 + 8 * Z.of_nat f) with (8 * Z.of_nat (S f)) by lia. lia. }
    rewrite ones_table by apply byte_land.
    change 255 with (Z.ones (Z.of_nat 8)). rewrite bitcount_land_ones by lia.
    replace (8 * S f)%nat with (8 + 8 * f)%nat by lia.
    rewrite bitcount_split. change (Z.of_nat 8) with 8. ring.
Qed.

Lemma pg_popcount64_bitcount x : in_u 64 x -> pg_popcount64 x = bitcount 64 x.
Proof.
  intros Hx. unfold pg_popcount64, pg_popcount64_slow.
  rewrite popcount_loop_spec by done. done.
Qed.

Lemma pg_popcount32_bitcount x : in_u 32 x -> pg_popcount32 x = bitcount 32 x.
Proof.
  intros Hx. unfold pg_popcount32, pg_popcount32_slow.
  rewrite popcount_loop_spec by done. done.
Qed.

(** * Highest set bit *)

Lemma leftmost_shift_spec fuel x :
  0 < x < 2 ^ (8 * Z.of_nat (S fuel)) ->
  let s := leftmost_shift (S fuel) x (8 * Z.of_nat fuel) in
  0 <= s /\ 0 < ushr x s < 256.
Proof.
  induction fuel as [|f IH]; intros Hx.
  - cbn -[Z.mul Z.pow]. unfold ushr. rewrite Z.shiftr_0_r.
    rewrite (proj2 (Z.eqb_neq x 0)) by lia. rewrite Z.shiftr_0_r. lia.
  - cbn zeta. set (s := 8 * Z.of_nat (S f)).
    change (leftmost_shift (S (S f)) x s) with
      (if ushr x s =? 0 then leftmost_shift (S f) x (s - 8) else s).
    assert (Hd : ushr x s = x / 2 ^ s) by (unfold ushr; apply Z.shiftr_div_pow2; lia).
    assert (Hp : 0 < 2 ^ s) by (apply Z.pow_pos_nonneg; lia).
    destruct (Z.eqb_spec (ushr x s) 0) as [Hz|Hz].
    + replace (s - 8) with (8 * Z.of_nat f) by lia. apply IH.
      rewrite Hd in Hz. apply Z.div_small_iff in Hz; [|lia]. fold s. lia.
    + split; [lia|]. rewrite Hd in *.
      split; [pose proof (Z.div_pos x (2 ^ s)); lia|].
      apply Z.div_lt_upper_bound; [done|]. change 256 with (2 ^ 8).
      rewrite Z.mul_comm, <- Z.pow_add_r by lia.
      replace (8 + s) with (8 * Z.of_nat (S (S f))) by lia. lia.
Qed.

Lemma leftmost_combine x s :
  0 <= s -> 0 < ushr x s < 256 -> 0 < x ->
  s + rd pg_leftmost_one_pos (Z.to_nat (Z.land (ushr x s) 255)) = Z.log2 x.
Proof.
  intros Hs Hu Hx. change 255 with (Z.ones 8). rewrite Z.land_ones by lia.
  rewrite Z.mod_small by (simpl; lia). rewrite leftmost_table by lia.
  unfold ushr in *. rewrite Z.log2_shiftr by lia.
  assert (s <= Z.log2 x); [|lia].
  destruct (decide (Z.log2 x < s)) as [Hlt|]; [|lia].
  rewrite Z.shiftr_eq_0 in Hu; lia.
Qed.

Lemma pg_leftmost_one_pos64_log2 x :
  0 < x < 2 ^ 64 -> pg_leftmost_one_pos64 x = Z.log2 x.
Proof.
  intros Hx. destruct (leftmost_shift_spec 7 x Hx) as [H1 H2].
  apply leftmost_combine; [done|done|lia].
Qed.

Lemma pg_leftmost_one_pos32_log2 x :
  0 < x < 2 ^ 32 -> pg_leftmost_one_pos32 x = Z.log2 x.
Proof.
  intros Hx. destruct (leftmost_shift_spec 3 x Hx) as [H1 H2].
  apply leftmost_combine; [done|done|lia].
Qed.

(** * Lowest set bit *)

Lemma lowest_bit_shift x k n :
  0 <= n -> (forall i, 0 <= i < n -> Z.testbit x i = false) ->
  lowest_bit (ushr x n) k -> lowest_bit x (n + k).
Proof.
  intros Hn Hlow (Hk & Hb & Hl). rewrite ushr_testbit in Hb by lia.
  split; [lia|]. split; [by rewrite Z.add_comm|]. intros i Hi.
  destruct (decide (i < n)); [apply Hlow; lia|].
  specialize (Hl (i - n) ltac:(lia)). rewrite ushr_testbit in Hl by lia.
  by replace (i - n + n) with i in Hl by lia.
Qed.

Lemma rightmost_loop_spec fuel x r :
  0 < x < 2 ^ (8 * Z.of_nat (S fuel)) ->
  exists x' k, rightmost_loop (S fuel) x r = (x', r + k) /\ 0 <= k /\
    x' = ushr x k /\ 0 < Z.land x' 255 /\
    (forall i, 0 <= i < k -> Z.testbit x i = false).
Proof.
  revert x r; induction fuel as [|f IH]; intros x r Hx.
  - simpl. change 255 with (Z.ones 8). rewrite Z.land_ones, Z.mod_small by (simpl in *; lia).
    rewrite (proj2 (Z.eqb_neq x 0)) by lia.
    exists x, 0. rewrite Z.land_ones, Z.mod_small by (simpl in *; lia).
    unfold ushr. rewrite Z.shiftr_0_r, Z.add_0_r. repeat split; lia.
  - change (rightmost_loop (S (S f)) x r) with
      (if Z.land x 255 =? 0 then rightmost_loop (S f) (ushr x 8) (r + 8) else (x, r)).
    destruct (Z.eqb_spec (Z.land x 255) 0) as [Hz|Hz].
    + assert (Hlow : forall i, 0 <= i < 8 -> Z.testbit x i = false).
      { intros i Hi. assert (Hb : Z.testbit (Z.land x 255) i = false)
          by (by rewrite Hz, Z.testbit_0_l).
        change 255 with (Z.ones 8) in Hb.
        rewrite Z.land_spec, Z.ones_spec_low, andb_true_r in Hb by lia. done. }
      destruct (IH (ushr x 8) (r + 8)) as (x' & k & -> & Hk & -> & Hb & Hl).
      { unfold ushr. rewrite Z.shiftr_div_pow2 by lia. split.
        - assert (x / 2 ^ 8 <> 0); [|pose proof (Z.div_pos x (2 ^ 8)); lia].
          intros E. apply Z.div_small_iff in E; [|lia].
          change 255 with (Z.ones 8) in Hz.
          rewrite Z.land_ones, Z.mod_small in Hz; lia.
        - apply Z.div_lt_upper_bound; [lia|]. rewrite <- Z.pow_add_r by lia.
          replace (8 + 8 * Z.of_nat (S f)) with (8 * Z.of_nat (S (S f))) by lia. lia. }
      exists (ushr (ushr x 8) k), (8 + k). split; [f_equal; lia|].
      split; [lia|]. split; [unfold ushr; by rewrite Z.shiftr_shiftr by lia|].
      split; [done|]. intros i Hi. destruct (decide (i < 8)); [apply Hlow; lia|].
      specialize (Hl (i - 8) ltac:(lia)). rewrite ushr_testbit in Hl by lia.
      by replace (i - 8 + 8) with i in Hl by lia.
    + exists x, 0. split; [f_equal; lia|]. split; [lia|].
      split; [unfold ushr; by rewrite Z.shiftr_0_r|].
      pose proof (byte_land x). split; lia.
Qed.

Lemma rightmost_combine fuel x :
  0 < x < 2 ^ (8 * Z.of_nat (S fuel)) ->
  lowest_bit x (let '(w, r) := rightmost_loop (S fuel) x 0 in
                r + rd pg_rightmost_one_pos (Z.to_nat (Z.land w 255))).
Proof.
  intros Hx. destruct (rightmost_loop_spec fuel x 0 Hx) as (x' & k & -> & Hk & -> & Hb & Hl).
  apply lowest_bit_shift; [done|done|].
  pose proof (byte_land (ushr x k)).
  destruct (rightmost_table (Z.land (ushr x k) 255)) as (H1 & H2 & H3); [lia|].
  set (t := rd _ _) in *.
  assert (Ht : t < 8).
  { apply (testbit_true_lt 8 (Z.land (ushr x k) 255)); unfold in_u; [lia|lia|done]. }
  assert (E : forall i, 0 <= i < 8 ->
    Z.testbit (ushr x k) i = Z.testbit (Z.land (ushr x k) 255) i).
  { intros i Hi. change 255 with (Z.ones 8).
    rewrite Z.land_spec, Z.ones_spec_low, andb_true_r by lia. done. }
  split; [lia|]. split; [rewrite E by lia; done|].
  intros i Hi. rewrite E by lia. apply H3; lia.
Qed.

Lemma pg_rightmost_one_pos64_lowest x :
  0 < x < 2 ^ 64 -> lowest_bit x (pg_rightmost_one_pos64 x).
Proof. intros Hx. apply (rightmost_combine 7 x Hx). Qed.

Lemma pg_rightmost_one_pos32_lowest x :
  0 < x < 2 ^ 32 -> lowest_bit x (pg_rightmost_one_pos32 x).
Proof. intros Hx. apply (rightmost_combine 3 x Hx). Qed.

(** * Population count of a buffer *)

Definition byte_ones (buf : list Z) : Z :=
  foldr (fun b acc => bitcount 8 b + acc) 0 buf.

Lemma byte_ones_cons b buf : byte_ones (b :: buf) = bitcount 8 b + byte_ones buf.
Proof. done. Qed.

Lemma byte_ones_app l1 l2 : byte_ones (l1 ++ l2) = byte_ones l1 + byte_ones l2.
Proof.
  induction l1 as [|b l1 IH]; [done|]. simpl app. rewrite !byte_ones_cons, IH. lia.
Qed.

Lemma byte_ones_rev l : byte_ones (rev l) = byte_ones l.
Proof.
  induction l as [|b l IH]; [done|]. simpl rev.
  rewrite byte_ones_app, IH, !byte_ones_cons. change (byte_ones []) with 0. lia.
Qed.

Lemma byte_ones_bound l : 0 <= byte_ones l <= 8 * Z.of_nat (length l).
Proof.
  induction l as [|b l IH]; [done|]. rewrite byte_ones_cons.
  pose proof (bitcount_range 8 b). simpl length. lia.
Qed.

Lemma le_word_range bs :
  Forall (in_u 8) bs -> in_u (8 * Z.of_nat (length bs)) (le_word bs).
Proof.
  induction 1 as [|b bs Hb _ IH]; simpl le_word; [unfold in_u; simpl; lia|].
  unfold in_u in IH, Hb. rewrite Z.shiftl_mul_pow2 by lia.
  apply in_u_of_testbit; [lia| |].
  - apply Z.lor_nonneg. split; [lia|]. apply Z.mul_nonneg_nonneg; lia.
  - intros i Hi. simpl length in Hi. rewrite Z.lor_spec, Z.mul_pow2_bits by lia.
    rewrite (in_u_testbit_high 8 b) by (done || lia).
    rewrite (in_u_testbit_high (8 * Z.of_nat (length bs))) by (done || lia). done.
Qed.

Lemma le_word_ones bs :
  Forall (in_u 8) bs -> bitcount (8 * length bs) (le_word bs) = byte_ones bs.
Proof.
  induction 1 as [|b bs Hb _ IH]; [done|].
  rewrite byte_ones_cons, <- IH.
  replace (8 * length (b :: bs))%nat with (8 + 8 * length bs)%nat by (simpl length; lia).
  rewrite bitcount_split. change (Z.of_nat 8) with 8. f_equal.
  - apply bitcount_ext. intros i Hi. simpl le_word.
    rewrite Z.lor_spec, Z.shiftl_spec_low by lia. apply orb_false_r.
  - apply bitcount_ext. intros i Hi. simpl le_word. rewrite ushr_testbit by lia.
    rewrite Z.lor_spec, Z.shiftl_spec by lia.
    rewrite (in_u_testbit_high 8 b) by (done || lia).
    simpl. f_equal. lia.
Qed.

Lemma load_word_popcount be bs :
  Forall (in_u 8) bs -> length bs = 8%nat ->
  pg_popcount64 (load_word be bs) = byte_ones bs.
Proof.
  intros Hf Hl. unfold load_word.
  set (bs' := if be then rev bs else bs).
  assert (Hf' : Forall (in_u 8) bs') by (unfold bs'; destruct be; [by apply Forall_rev|done]).
  assert (Hl' : length bs' = 8%nat) by (unfold bs'; destruct be; [by rewrite length_rev|done]).
  assert (Ho : byte_ones bs' = byte_ones bs) by (unfold bs'; destruct be; [apply byte_ones_rev|done]).
  pose proof (le_word_range bs' Hf') as Hr. rewrite Hl' in Hr.
  rewrite pg_popcount64_bitcount by exact Hr.
  rewrite <- Ho, <- le_word_ones by done. by rewrite Hl'.
Qed.

Lemma popcount_bytes_spec buf n :
  Forall (in_u 8) buf -> 0 <= n -> n + 8 * Z.of_nat (length buf) < 2 ^ 64 ->
  popcount_bytes buf n = n + byte_ones buf.
Proof.
  intros Hf; revert n; induction Hf as [|b buf Hb _ IH]; intros n Hn Hlt.
  - simpl. lia.
  - simpl popcount_bytes. simpl length in Hlt. rewrite (uwrap_small 8 b) by done.
    unfold in_u in Hb. rewrite ones_table by (simpl in *; lia).
    pose proof (bitcount_range 8 b). rewrite (uwrap_small 64) by (unfold in_u; lia).
    rewrite IH by lia. rewrite byte_ones_cons. lia.
Qed.

Lemma popcount_words_spec fuel be buf n :
  Forall (in_u 8) buf -> 0 <= n -> n + 8 * Z.of_nat (length buf) < 2 ^ 64 ->
  let '(n', buf') := popcount_words fuel be buf n in
  n' + byte_ones buf' = n + byte_ones buf /\ Forall (in_u 8) buf' /\
  0 <= n' /\ n' + 8 * Z.of_nat (length buf') < 2 ^ 64.
Proof.
  revert buf n; induction fuel as [|f IH]; intros buf n Hf Hn Hlt;
    simpl popcount_words; [by repeat split|].
  destruct (Z.leb_spec 8 (Z.of_nat (length buf))) as [Hle|]; [|by repeat split].
  rewrite load_word_popcount; [|by apply Forall_take|rewrite length_take; lia].
  pose proof (byte_ones_bound (take 8 buf)) as Hb. rewrite length_take in Hb.
  rewrite (uwrap_small 64) by (unfold in_u; lia).
  specialize (IH (drop 8 buf) (n + byte_ones (take 8 buf))).
  rewrite length_drop in IH.
  specialize (IH ltac:(by apply Forall_drop) ltac:(lia) ltac:(lia)).
  destruct (popcount_words f be (drop 8 buf) _) as [n' buf'].
  destruct IH as (E & IH). split; [|done]. rewrite E, <- Z.add_assoc. f_equal.
  rewrite <- byte_ones_app. by rewrite take_drop.
Qed.

(** * Powers of two *)

Lemma land_pred_pow2 n : 0 < n -> Z.land n (n - 1) = 0 <-> n = 2 ^ Z.log2 n.
Proof.
  intros Hn. destruct (Z.log2_spec n Hn) as [Hlo Hhi]. split.
  - intros H. destruct (decide (n = 2 ^ Z.log2 n)) as [|Hne]; [done|].
    assert (Hb : Z.testbit (Z.land n (n - 1)) (Z.log2 n) = false)
      by (by rewrite H, Z.testbit_0_l).
    rewrite Z.land_spec, Z.bit_log2 in Hb by lia. simpl in Hb.
    assert (Hl : Z.log2 (n - 1) = Z.log2 n)
      by (apply Z.log2_unique; [apply Z.log2_nonneg|lia]).
    rewrite <- Hl, Z.bit_log2 in Hb; [done|].
    pose proof (Z.pow_pos_nonneg 2 (Z.log2 n) ltac:(lia) (Z.log2_nonneg n)). lia.
  - intros H. pose proof (Z.log2_nonneg n) as Hk. remember (Z.log2 n) as k eqn:Ek.
    clear Ek. subst n. rewrite Z.sub_1_r, <- Z.ones_equiv, Z.land_ones by done.
    apply Z_mod_same_full.
Qed.

Lemma nextpower2_spec w num :
  0 < w -> 0 < num <= 2 ^ (w - 1) ->
  (if Z.land num (uwrap w (num - 1)) =? 0 then num
   else ushl w 1 (Z.log2 num + 1)) = 2 ^ Z.log2_up num.
Proof.
  intros Hw Hn.
  assert (Hp : 2 ^ w = 2 * 2 ^ (w - 1))
    by (rewrite <- Z.pow_succ_r by lia; f_equal; lia).
  rewrite uwrap_small by (unfold in_u; lia).
  destruct (Z.eqb_spec (Z.land num (num - 1)) 0) as [H|H].
  - apply land_pred_pow2 in H; [|lia]. rewrite H at 2.
    rewrite Z.log2_up_pow2 by apply Z.log2_nonneg. done.
  - rewrite land_pred_pow2 in H by lia.
    pose proof (Z.log2_spec num ltac:(lia)) as Hs. pose proof (Z.log2_nonneg num).
    assert (Z.log2 num < w - 1) by (apply (Z.pow_lt_mono_r_iff 2); lia).
    unfold ushl. rewrite Z.shiftl_1_l, uwrap_small.
    + f_equal. symmetry. apply Z.log2_up_unique; [lia|].
      replace (Z.pred (Z.log2 num + 1)) with (Z.log2 num) by lia.
      replace (Z.log2 num + 1) with (Z.succ (Z.log2 num)) by lia. lia.
    + split; [apply Z.pow_nonneg; lia|]. apply Z.pow_lt_mono_r; lia.
Qed.

Lemma prevpower2_spec w num :
  0 < w -> 0 < num < 2 ^ w -> ushl w 1 (Z.log2 num) = 2 ^ Z.log2 num.
Proof.
  intros Hw Hn. unfold ushl. rewrite Z.shiftl_1_l. apply uwrap_small.
  pose proof (Z.log2_spec num ltac:(lia)). unfold in_u.
  pose proof (Z.pow_pos_nonneg 2 (Z.log2 num) ltac:(lia) (Z.log2_nonneg num)). lia.
Qed.

Lemma ceil_log2_spec num :
  0 <= num -> (if num <? 2 then 0 else Z.log2 (num - 1) + 1) = Z.log2_up num.
Proof.
  intros Hn. destruct (Z.ltb_spec num 2) as [H|H].
  - symmetry. apply Z.log2_up_eqn0. lia.
  - rewrite Z.log2_up_eqn by lia. rewrite Z.sub_1_r. lia.
Qed.

Lemma rotate_testbit word n i :
  in_u 32 word -> 0 <= n <= 32 -> 0 <= i < 32 ->
  Z.testbit (pg_rotate_left32 word n) i = Z.testbit word ((i - n) mod 32).
Proof.
  intros Hw Hn Hi. unfold pg_rotate_left32.
  rewrite Z.lor_spec, ushl_testbit, ushr_testbit by lia.
  rewrite bool_decide_eq_true_2 by lia. simpl.
  destruct (decide (n <= i)) as [H|H].
  - rewrite (in_u_testbit_high 32 word (i + (32 - n))) by (done || lia).
    rewrite orb_false_r. rewrite Z.mod_small by lia. done.
  - rewrite (Z.testbit_neg_r word (i - n)) by lia. simpl. f_equal.
    apply (Z.mod_unique_pos _ _ (-1)); lia.
Qed.

(** * Properties *)

(** For every nonzero word of either width, the table-driven scans return the
    position of its highest set bit (the floor of its base-2 logarithm) and the
    position of its lowest set bit. *)
Theorem pg_bit_scan_correct (x : Z) :
  0 < x < 2 ^ 64 ->
  pg_leftmost_one_pos64 x = Z.log2 x /\ lowest_bit x (pg_rightmost_one_pos64 x) /\
  (x < 2 ^ 32 ->
   pg_leftmost_one_pos32 x = Z.log2 x /\ lowest_bit x (pg_rightmost_one_pos32 x)).
Proof.
  intros Hx. split; [by apply pg_leftmost_one_pos64_log2|].
  split; [by apply pg_rightmost_one_pos64_lowest|]. intros Hlt.
  split; [apply pg_leftmost_one_pos32_log2|apply pg_rightmost_one_pos32_lowest]; lia.
Qed.

Lemma pg_bit_scan_correct_witness :
  0 < 0x50000 < 2 ^ 64 /\ pg_leftmost_one_pos64 0x50000 = Z.log2 0x50000.
Proof.
  assert (H : 0 < 0x50000 < 2 ^ 64) by lia.
  split; [exact H|]. exact (proj1 (pg_bit_scan_correct _ H)).
Defined.

(** The population counts are the number of one bits: of a 32- or 64-bit word,
    and of a whole buffer, whatever its alignment and the machine's byte order,
    as long as the bit count itself fits in 64 bits. *)
Theorem pg_popcount_correct (buf : list Z) (x : Z) (bigendian aligned : bool) :
  Forall (in_u 8) buf -> 8 * Z.of_nat (length buf) < 2 ^ 64 -> in_u 64 x ->
  pg_popcount bigendian aligned buf = byte_ones buf /\
  pg_popcount64 x = bitcount 64 x /\
  (x < 2 ^ 32 -> pg_popcount32 x = bitcount 32 x).
Proof.
  intros Hf Hl Hx. split; [|split].
  - unfold pg_popcount. destruct aligned; [|by rewrite popcount_bytes_spec by (done || lia)].
    pose proof (popcount_words_spec (length buf) bigendian buf 0 Hf) as H.
    specialize (H ltac:(lia) ltac:(lia)).
    destruct (popcount_words _ _ _ _) as [n' buf']. destruct H as (E & Hf' & Hn & Hlt).
    rewrite popcount_bytes_spec by (done || lia). lia.
  - by apply pg_popcount64_bitcount.
  - intros Hlt. apply pg_popcount32_bitcount. unfold in_u in *. lia.
Qed.

Lemma pg_popcount_correct_witness :
  pg_popcount true true (replicate 11 0xA5) = byte_ones (replicate 11 0xA5) /\
  pg_popcount true true (replicate 11 0xA5) = 44.
Proof.
  split; [|vm_compute; reflexivity].
  refine (proj1 (pg_popcount_correct (replicate 11 0xA5) 0 true true _ _ _)).
  - apply Forall_replicate. split; lia.
  - simpl; lia.
  - split; lia.
Defined.

(** The power-of-two helpers: in the documented range, [pg_nextpower2] is the
    least power of two not below its argument, [pg_prevpower2] the greatest not
    above it, [pg_ceil_log2] the ceiling of the logarithm; a left rotation by
    [n] moves bit [i] to bit [(i + n) mod 32] and the right rotation undoes it. *)
Theorem pg_power2_helpers (num n : Z) :
  0 < num <= 2 ^ 31 -> 0 <= n <= 32 ->
  pg_nextpower2_32 num = 2 ^ Z.log2_up num /\
  pg_nextpower2_64 num = 2 ^ Z.log2_up num /\
  pg_prevpower2_32 num = 2 ^ Z.log2 num /\
  pg_prevpower2_64 num = 2 ^ Z.log2 num /\
  pg_ceil_log2_32 num = Z.log2_up num /\
  pg_ceil_log2_64 num = Z.log2_up num /\
  pg_rotate_right32 (pg_rotate_left32 num n) n = num.
Proof.
  intros Hnum Hn.
  assert (H31 : 2 ^ 31 < 2 ^ 32 /\ 2 ^ 31 <= 2 ^ 63 /\ 2 ^ 32 < 2 ^ 64) by lia.
  unfold pg_nextpower2_32, pg_nextpower2_64, pg_prevpower2_32, pg_prevpower2_64.
  rewrite !pg_leftmost_one_pos32_log2, !pg_leftmost_one_pos64_log2 by lia.
  split; [apply nextpower2_spec; simpl; lia|]. split; [apply nextpower2_spec; simpl; lia|].
  split; [apply prevpower2_spec; lia|]. split; [apply prevpower2_spec; lia|].
  split; [|split].
  - rewrite <- ceil_log2_spec by lia. unfold pg_ceil_log2_32.
    destruct (Z.ltb_spec num 2); [done|]. by rewrite pg_leftmost_one_pos32_log2 by lia.
  - rewrite <- ceil_log2_spec by lia. unfold pg_ceil_log2_64.
    destruct (Z.ltb_spec num 2); [done|]. by rewrite pg_leftmost_one_pos64_log2 by lia.
  - assert (Hw : in_u 32 num) by (unfold in_u; lia).
    assert (Hrl : in_u 32 (pg_rotate_left32 num n)).
    { apply lor_range; [lia|apply uwrap_range; lia|apply ushr_range; [lia|lia|done]]. }
    apply Z.bits_inj'. intros i Hi. unfold pg_rotate_right32 at 1.
    rewrite Z.lor_spec, ushr_testbit, ushl_testbit by lia.
    destruct (decide (32 <= i)) as [Hge|Hlt].
    { rewrite (in_u_testbit_high 32 num) by (done || lia).
      rewrite (in_u_testbit_high 32 _ (i + n)) by (done || lia).
      by rewrite bool_decide_eq_false_2 by lia. }
    rewrite bool_decide_eq_true_2 by lia. simpl.
    destruct (decide (i + n < 32)) as [Hs|Hs].
    + rewrite rotate_testbit by (done || lia).
      rewrite (Z.testbit_neg_r _ (i - (32 - n))) by lia. rewrite orb_false_r. f_equal.
      symmetry. apply Z.mod_unique_pos with 0; lia.
    + rewrite (in_u_testbit_high 32 _ (i + n)) by (done || lia). simpl.
      rewrite rotate_testbit by (done || lia). f_equal.
      symmetry. apply Z.mod_unique_pos with (-1); lia.
Qed.

Lemma pg_power2_helpers_witness :
  pg_nextpower2_32 100 = 2 ^ Z.log2_up 100 /\ pg_nextpower2_32 100 = 128.
Proof.
  split; [|vm_compute; reflexivity].
  exact (proj1 (pg_power2_helpers 100 5 ltac:(lia) ltac:(lia))).
Defined.
