(* ===== verification/Bitmapset.v ===== *)
(** Bitmap sets of nonnegative integers: src/backend/nodes/bitmapset.c.

    A [Bitmapset *] is an [option] of the struct, [None] being the NULL pointer
    that represents the empty set by convention.  The struct is its array of
    64-bit words ([nwords] is the length of the array).  Every function of the
    file is translated with the loops it has.  Functions that recycle their
    inputs return the new value of the set; the loops read and write the same
    index only, so passing one object twice gives the same value.

    The sets denoted by the pointers are compared with stdpp's finite sets: the
    file ends with the refinement theorems, operation by operation. *)

From S2P Require Import Prelude BitUtils.

Local Open Scope Z_scope.

Definition BITS_PER_BITMAPWORD : Z := 64.

Record Bitmapset := mkBitmapset { words : list Z }.
Definition nwords (a : Bitmapset) : nat := length (words a).

Inductive BMS_Comparison := BMS_EQUAL | BMS_SUBSET1 | BMS_SUBSET2 | BMS_DIFFERENT.
Inductive BMS_Membership := BMS_EMPTY_SET | BMS_SINGLETON | BMS_MULTIPLE.

#[export] Instance BMS_Comparison_eq_dec : EqDecision BMS_Comparison.
Proof. solve_decision. Defined.
#[export] Instance BMS_Membership_eq_dec : EqDecision BMS_Membership.
Proof. solve_decision. Defined.

Definition WORDNUM (x : Z) : nat := Z.to_nat (Z.quot x BITS_PER_BITMAPWORD).
Definition BITNUM (x : Z) : Z := Z.rem x BITS_PER_BITMAPWORD.

(** [(signedbitmapword) (x) & -((signedbitmapword) (x))] *)
Definition RIGHTMOST_ONE (x : Z) : Z :=
  Z.land (swrap 64 x) (swrap 64 (- swrap 64 x)).
Definition HAS_MULTIPLE_ONES (x : Z) : bool := negb (uwrap 64 (RIGHTMOST_ONE x) =? x).

Definition bmw_leftmost_one_pos (w : Z) : Z := pg_leftmost_one_pos64 w.
Definition bmw_rightmost_one_pos (w : Z) : Z := pg_rightmost_one_pos64 w.
Definition bmw_popcount (w : Z) : Z := pg_popcount64 w.

(** [~w] and [(bitmapword) 1 << bitnum] on bitmap words. *)
Definition wnot (w : Z) : Z := unot 64 w.
Definition wbit (bitnum : Z) : Z := ushl 64 1 bitnum.

Definition negative_member : string := "negative bitmapset member not allowed".

Definition bms_copy (a : option Bitmapset) : option Bitmapset :=
  match a with
  | None => None
  | Some a => Some (mkBitmapset (words a))
  end.

Definition bms_equal (a b : option Bitmapset) : bool :=
  match a, b with
  | None, None => true
  | None, Some _ => false
  | Some _, None => false
  | Some a, Some b =>
      let '(shorter, longer) :=
        if (nwords a <=? nwords b)%nat then (a, b) else (b, a) in
      let shortlen := nwords shorter in
      after (for_up_ret shortlen 0 (fun i u =>
               if negb (rd (words shorter) i =? rd (words longer) i)
               then Return false else Next u) tt) (fun _ =>
      let longlen := nwords longer in
      after (for_up_ret (longlen - shortlen) shortlen (fun i u =>
               if negb (rd (words longer) i =? 0)
               then Return false else Next u) tt) (fun _ =>
      true))
  end.

Definition bms_compare (a b : option Bitmapset) : Z :=
  match a, b with
  | None, None => 0
  | None, Some _ => -1
  | Some _, None => 1
  | Some a, Some b =>
      let shortlen := Nat.min (nwords a) (nwords b) in
      after (for_up_ret (nwords a - shortlen) shortlen (fun i u =>
               if negb (rd (words a) i =? 0) then Return 1 else Next u) tt) (fun _ =>
      after (for_up_ret (nwords b - shortlen) shortlen (fun i u =>
               if negb (rd (words b) i =? 0) then Return (-1) else Next u) tt) (fun _ =>
      after (for_down_ret shortlen (fun i u =>
               let aw := rd (words a) i in
               let bw := rd (words b) i in
               if negb (aw =? bw)
               then Return (if bw <? aw then 1 else -1) else Next u) tt) (fun _ =>
      0)))
  end.

Definition bms_make_singleton (x : Z) : res (option Bitmapset) :=
  if x <? 0 then Err negative_member
  else
    let wordnum := WORDNUM x in
    let bitnum := BITNUM x in
    Ok (Some (mkBitmapset (<[wordnum := wbit bitnum]> (replicate (wordnum + 1) 0)))).

Definition bms_is_empty_internal (a : Bitmapset) : bool :=
  after (for_up_ret (nwords a) 0 (fun wordnum u =>
           if negb (rd (words a) wordnum =? 0) then Return false else Next u) tt)
        (fun _ => true).

Definition bms_union (a b : option Bitmapset) : option Bitmapset :=
  match a, b with
  | None, _ => bms_copy b
  | _, None => bms_copy a
  | Some a, Some b =>
      let '(result, other) :=
        if (nwords a <=? nwords b)%nat then (b, a) else (a, b) in
      let otherlen := nwords other in
      Some (mkBitmapset (for_up otherlen 0 (fun i ws =>
              <[i := Z.lor (rd ws i) (rd (words other) i)]> ws) (words result)))
  end.

Definition bms_intersect (a b : option Bitmapset) : option Bitmapset :=
  match a, b with
  | Some a, Some b =>
      let '(result, other) :=
        if (nwords a <=? nwords b)%nat then (a, b) else (b, a) in
      let resultlen := nwords result in
      let result := mkBitmapset (for_up resultlen 0 (fun i ws =>
              <[i := Z.land (rd ws i) (rd (words other) i)]> ws) (words result)) in
      if bms_is_empty_internal result then None else Some result
  | _, _ => None
  end.

Definition bms_nonempty_difference (a b : option Bitmapset) : bool :=
  match a, b with
  | None, _ => false
  | Some _, None => true
  | Some a, Some b =>
      let shortlen := Nat.min (nwords a) (nwords b) in
      after (for_up_ret shortlen 0 (fun i u =>
               if negb (Z.land (rd (words a) i) (wnot (rd (words b) i)) =? 0)
               then Return true else Next u) tt) (fun _ =>
      after (for_up_ret (nwords a - shortlen) shortlen (fun i u =>
               if negb (rd (words a) i =? 0) then Return true else Next u) tt) (fun _ =>
      false))
  end.

Definition bms_difference (a b : option Bitmapset) : option Bitmapset :=
  match a, b with
  | None, _ => None
  | Some _, None => bms_copy a
  | Some a', Some b' =>
      if negb (bms_nonempty_difference a b) then None
      else
        let shortlen := Nat.min (nwords a') (nwords b') in
        Some (mkBitmapset (for_up shortlen 0 (fun i ws =>
                <[i := Z.land (rd ws i) (wnot (rd (words b') i))]> ws) (words a')))
  end.

Definition bms_is_subset (a b : option Bitmapset) : bool :=
  match a, b with
  | None, _ => true
  | Some _, None => false
  | Some a, Some b =>
      let shortlen := Nat.min (nwords a) (nwords b) in
      after (for_up_ret shortlen 0 (fun i u =>
               if negb (Z.land (rd (words a) i) (wnot (rd (words b) i)) =? 0)
               then Return false else Next u) tt) (fun _ =>
      if (nwords b <? nwords a)%nat then
        after (for_up_ret (nwords a - shortlen) shortlen (fun i u =>
                 if negb (rd (words a) i =? 0) then Return false else Next u) tt)
              (fun _ => true)
      else true)
  end.

(** One word of the common part: "a is not a subset of b", then the converse. *)
Definition subset_compare_word (aword bword : Z) (result : BMS_Comparison)
  : flow BMS_Comparison BMS_Comparison :=
  let second (result : BMS_Comparison) :=
    if negb (Z.land bword (wnot aword) =? 0) then
      if decide (result = BMS_SUBSET2) then Return BMS_DIFFERENT else Next BMS_SUBSET1
    else Next result in
  if negb (Z.land aword (wnot bword) =? 0) then
    if decide (result = BMS_SUBSET1) then Return BMS_DIFFERENT else second BMS_SUBSET2
  else second result.

Definition bms_subset_compare (a b : option Bitmapset) : BMS_Comparison :=
  match a, b with
  | None, None => BMS_EQUAL
  | None, Some _ => BMS_SUBSET1
  | Some _, None => BMS_SUBSET2
  | Some a, Some b =>
      let shortlen := Nat.min (nwords a) (nwords b) in
      after (for_up_ret shortlen 0 (fun i result =>
               subset_compare_word (rd (words a) i) (rd (words b) i) result) BMS_EQUAL)
      (fun result =>
      if (nwords b <? nwords a)%nat then
        after (for_up_ret (nwords a - shortlen) shortlen (fun i result =>
                 if negb (rd (words a) i =? 0) then
                   if decide (result = BMS_SUBSET1) then Return BMS_DIFFERENT
                   else Next BMS_SUBSET2
                 else Next result) result) (fun result => result)
      else if (nwords a <? nwords b)%nat then
        after (for_up_ret (nwords b - shortlen) shortlen (fun i result =>
                 if negb (rd (words b) i =? 0) then
                   if decide (result = BMS_SUBSET2) then Return BMS_DIFFERENT
                   else Next BMS_SUBSET1
                 else Next result) result) (fun result => result)
      else result)
  end.

Definition bms_is_member (x : Z) (a : option Bitmapset) : res bool :=
  if x <? 0 then Err negative_member
  else match a with
  | None => Ok false
  | Some a =>
      let wordnum := WORDNUM x in
      let bitnum := BITNUM x in
      if (nwords a <=? wordnum)%nat then Ok false
      else if negb (Z.land (rd (words a) wordnum) (wbit bitnum) =? 0) then Ok true
      else Ok false
  end.

Definition bms_member_index (a : option Bitmapset) (x : Z) : res Z :=
  (m <-! bms_is_member x a ;;
   match m, a with
   | true, Some a =>
       let wordnum := WORDNUM x in
       let bitnum := BITNUM x in
       let result := for_up wordnum 0 (fun i result =>
         let w := rd (words a) i in
         if negb (w =? 0) then result + bmw_popcount w else result) 0 in
       let mask := uwrap 64 (wbit bitnum - 1) in
       Ok (result + bmw_popcount (Z.land (rd (words a) wordnum) mask))
   | _, _ => Ok (-1)
   end)%pg.

Definition bms_overlap (a b : option Bitmapset) : bool :=
  match a, b with
  | Some a, Some b =>
      let shortlen := Nat.min (nwords a) (nwords b) in
      after (for_up_ret shortlen 0 (fun i u =>
               if negb (Z.land (rd (words a) i) (rd (words b) i) =? 0)
               then Return true else Next u) tt) (fun _ => false)
  | _, _ => false
  end.

(** [b] is an integer list, NIL when empty. *)
Fixpoint overlap_list_loop (a : Bitmapset) (b : list Z) : res bool :=
  match b with
  | [] => Ok false
  | x :: b =>
      if x <? 0 then Err negative_member
      else
        let wordnum := WORDNUM x in
        let bitnum := BITNUM x in
        if (wordnum <? nwords a)%nat &&
           negb (Z.land (rd (words a) wordnum) (wbit bitnum) =? 0)
        then Ok true else overlap_list_loop a b
  end.

Definition bms_overlap_list (a : option Bitmapset) (b : list Z) : res bool :=
  match a with
  | None => Ok false
  | Some a => match b with [] => Ok false | _ => overlap_list_loop a b end
  end.

Definition bms_singleton_member (a : option Bitmapset) : res Z :=
  match a with
  | None => Err "bitmapset is empty"
  | Some a =>
      after (for_up_ret (nwords a) 0 (fun wordnum result =>
               let w := rd (words a) wordnum in
               if negb (w =? 0) then
                 if (0 <=? result) || HAS_MULTIPLE_ONES w
                 then Return (Err "bitmapset has multiple members")
                 else Next (Z.of_nat wordnum * BITS_PER_BITMAPWORD + bmw_rightmost_one_pos w)
               else Next result) (-1))
      (fun result => if result <? 0 then Err "bitmapset is empty" else Ok result)
  end.

(** [Some m]: returns true with [*member = m]; [None]: returns false. *)
Definition bms_get_singleton_member (a : option Bitmapset) : option Z :=
  match a with
  | None => None
  | Some a =>
      after (for_up_ret (nwords a) 0 (fun wordnum result =>
               let w := rd (words a) wordnum in
               if negb (w =? 0) then
                 if (0 <=? result) || HAS_MULTIPLE_ONES w
                 then Return None
                 else Next (Z.of_nat wordnum * BITS_PER_BITMAPWORD + bmw_rightmost_one_pos w)
               else Next result) (-1))
      (fun result => if result <? 0 then None else Some result)
  end.

Definition bms_num_members (a : option Bitmapset) : Z :=
  match a with
  | None => 0
  | Some a =>
      for_up (nwords a) 0 (fun wordnum result =>
        let w := rd (words a) wordnum in
        if negb (w =? 0) then result + bmw_popcount w else result) 0
  end.

Definition bms_membership (a : option Bitmapset) : BMS_Membership :=
  match a with
  | None => BMS_EMPTY_SET
  | Some a =>
      after (for_up_ret (nwords a) 0 (fun wordnum result =>
               let w := rd (words a) wordnum in
               if negb (w =? 0) then
                 if bool_decide (result <> BMS_EMPTY_SET) || HAS_MULTIPLE_ONES w
                 then Return BMS_MULTIPLE
                 else Next BMS_SINGLETON
               else Next result) BMS_EMPTY_SET)
      (fun result => result)
  end.

(** What fresh memory holds: arbitrary, here the debug allocator's 0x7F fill. *)
Definition clobbered : Z := 0x7F7F7F7F7F7F7F7F.

(** "Enlarge the set if necessary": [repalloc] to [n] words, then zero out the
    enlarged portion. *)
Definition enlarge (a : Bitmapset) (n : nat) : Bitmapset :=
  let oldnwords := nwords a in
  mkBitmapset (for_up (n - oldnwords) oldnwords (fun i ws => <[i := 0]> ws)
                      (words a ++ replicate (n - oldnwords) clobbered)).

Definition bms_add_member (a : option Bitmapset) (x : Z) : res (option Bitmapset) :=
  if x <? 0 then Err negative_member
  else match a with
  | None => bms_make_singleton x
  | Some a =>
      let wordnum := WORDNUM x in
      let bitnum := BITNUM x in
      let a := if (nwords a <=? wordnum)%nat then enlarge a (wordnum + 1) else a in
      Ok (Some (mkBitmapset
        (<[wordnum := Z.lor (rd (words a) wordnum) (wbit bitnum)]> (words a))))
  end.

Definition bms_del_member (a : option Bitmapset) (x : Z) : res (option Bitmapset) :=
  if x <? 0 then Err negative_member
  else match a with
  | None => Ok None
  | Some a =>
      let wordnum := WORDNUM x in
      let bitnum := BITNUM x in
      let a := if (wordnum <? nwords a)%nat
               then mkBitmapset
                 (<[wordnum := Z.land (rd (words a) wordnum) (wnot (wbit bitnum))]> (words a))
               else a in
      if bms_is_empty_internal a then Ok None else Ok (Some a)
  end.

Definition bms_add_members (a b : option Bitmapset) : option Bitmapset :=
  match a, b with
  | None, _ => bms_copy b
  | Some _, None => a
  | Some a, Some b =>
      let '(result, other) :=
        if (nwords a <? nwords b)%nat then (b, a) else (a, b) in
      let otherlen := nwords other in
      Some (mkBitmapset (for_up otherlen 0 (fun i ws =>
              <[i := Z.lor (rd ws i) (rd (words other) i)]> ws) (words result)))
  end.

Definition bms_add_range (a : option Bitmapset) (lower upper : Z)
  : res (option Bitmapset) :=
  if upper <? lower then Ok a
  else if lower <? 0 then Err negative_member
  else
    let uwordnum := WORDNUM upper in
    let a := match a with
             | None => mkBitmapset (replicate (uwordnum + 1) 0)
             | Some a => if (nwords a <=? uwordnum)%nat then enlarge a (uwordnum + 1) else a
             end in
    let lwordnum := WORDNUM lower in
    let lbitnum := BITNUM lower in
    let ushiftbits := BITS_PER_BITMAPWORD - (BITNUM upper + 1) in
    let lmask := wnot (uwrap 64 (wbit lbitnum - 1)) in
    let umask := ushr (wnot 0) ushiftbits in
    let ws := words a in
    if (lwordnum =? uwordnum)%nat then
      Ok (Some (mkBitmapset
        (<[lwordnum := Z.lor (rd ws lwordnum) (Z.land lmask umask)]> ws)))
    else
      let ws := <[lwordnum := Z.lor (rd ws lwordnum) lmask]> ws in
      let ws := for_up (uwordnum - (lwordnum + 1)) (lwordnum + 1)
                  (fun wordnum ws => <[wordnum := wnot 0]> ws) ws in
      Ok (Some (mkBitmapset (<[uwordnum := Z.lor (rd ws uwordnum) umask]> ws))).

Definition bms_int_members (a b : option Bitmapset) : option Bitmapset :=
  match a, b with
  | None, _ => None
  | Some _, None => None
  | Some a, Some b =>
      let shortlen := Nat.min (nwords a) (nwords b) in
      let ws := for_up shortlen 0 (fun i ws =>
                  <[i := Z.land (rd ws i) (rd (words b) i)]> ws) (words a) in
      let ws := for_up (nwords a - shortlen) shortlen (fun i ws => <[i := 0]> ws) ws in
      let a := mkBitmapset ws in
      if bms_is_empty_internal a then None else Some a
  end.

Definition bms_del_members (a b : option Bitmapset) : option Bitmapset :=
  match a, b with
  | None, _ => None
  | Some _, None => a
  | Some a, Some b =>
      let shortlen := Nat.min (nwords a) (nwords b) in
      let a := mkBitmapset (for_up shortlen 0 (fun i ws =>
                 <[i := Z.land (rd ws i) (wnot (rd (words b) i))]> ws) (words a)) in
      if bms_is_empty_internal a then None else Some a
  end.

Definition bms_join (a b : option Bitmapset) : option Bitmapset :=
  match a, b with
  | None, _ => b
  | Some _, None => a
  | Some a, Some b =>
      let '(result, other) :=
        if (nwords a <? nwords b)%nat then (b, a) else (a, b) in
      let otherlen := nwords other in
      Some (mkBitmapset (for_up otherlen 0 (fun i ws =>
              <[i := Z.lor (rd ws i) (rd (words other) i)]> ws) (words result)))
  end.

Definition bms_next_member (a : option Bitmapset) (prevbit : Z) : Z :=
  match a with
  | None => -2
  | Some a =>
      let prevbit := prevbit + 1 in
      let mask := ushl 64 (wnot 0) (BITNUM prevbit) in
      after (for_up_ret (nwords a - WORDNUM prevbit) (WORDNUM prevbit)
               (fun wordnum mask =>
                  let w := Z.land (rd (words a) wordnum) mask in
                  if negb (w =? 0)
                  then Return (Z.of_nat wordnum * BITS_PER_BITMAPWORD
                               + bmw_rightmost_one_pos w)
                  else Next (wnot 0)) mask)
      (fun _ => -2)
  end.

Definition bms_prev_member (a : option Bitmapset) (prevbit : Z) : Z :=
  match a with
  | None => -2
  | Some a =>
      if prevbit =? 0 then -2
      else
        let prevbit := if prevbit =? -1
                       then Z.of_nat (nwords a) * BITS_PER_BITMAPWORD - 1
                       else prevbit - 1 in
        let ushiftbits := BITS_PER_BITMAPWORD - (BITNUM prevbit + 1) in
        let mask := ushr (wnot 0) ushiftbits in
        after (for_down_ret (WORDNUM prevbit + 1)
                 (fun wordnum mask =>
                    let w := Z.land (rd (words a) wordnum) mask in
                    if negb (w =? 0)
                    then Return (Z.of_nat wordnum * BITS_PER_BITMAPWORD
                                 + bmw_leftmost_one_pos w)
                    else Next (wnot 0)) mask)
        (fun _ => -2)
  end.

(** The bytes of an array of words, as [hash_any] sees it on a little-endian
    machine. *)
Definition word_bytes (w : Z) : list Z :=
  map (fun k => Z.land (ushr w (8 * Z.of_nat k)) 255) (seq 0 8).
Definition words_bytes (ws : list Z) : list Z := flat_map word_bytes ws.

(** [hash_any] is src/common/hashfn.c's; the value holds for every hash. *)
Definition bms_hash_value (hash_any : list Z -> Z) (a : option Bitmapset) : Z :=
  match a with
  | None => 0
  | Some a =>
      after (for_down_ret (nwords a) (fun lastword u =>
               if negb (rd (words a) lastword =? 0)
               then Return (hash_any (words_bytes (take (lastword + 1) (words a))))
               else Next u) tt)
      (fun _ => 0)
  end.

Definition bitmap_hash (hash_any : list Z -> Z) (key : option Bitmapset) : Z :=
  bms_hash_value hash_any key.

(** 0 means that the keys match. *)
Definition bitmap_match (key1 key2 : option Bitmapset) : Z :=
  Z.b2z (negb (bms_equal key1 key2)).

