(* ===== verification/BitmapsetSpec.v ===== *)
(** What the bitmap set functions promise, against finite sets of integers.

    [bms_mem] is the membership predicate a pointer denotes and [bms_set] the
    finite set it denotes; [bms_wf] is the representation invariant: words are
    64-bit values and an allocated set is not empty (the empty set is NULL).
    Trailing zero words are allowed, so two representations can denote one set:
    [≡] is that equivalence and the operations respect it. *)

From S2P Require Import Prelude BitUtils Bitmapset.

Local Open Scope Z_scope.

Definition wmem (ws : list Z) (x : Z) : bool :=
  bool_decide (0 <= x) && Z.testbit (rd ws (Z.to_nat (x / 64))) (x mod 64).

Definition bms_mem (a : option Bitmapset) (x : Z) : bool :=
  match a with None => false | Some a => wmem (words a) x end.

Definition words_ok (ws : list Z) : Prop := Forall (in_u 64) ws.

Definition bms_wf (a : option Bitmapset) : Prop :=
  match a with
  | None => True
  | Some a => words_ok (words a) /\ exists x, wmem (words a) x = true
  end.

(** The members below [n], and the set a pointer denotes. *)
Definition members_below (ws : list Z) (n : nat) : list Z :=
  filter (fun x => wmem ws x = true) (Z.of_nat <$> seq 0 n).

Definition bms_set (a : option Bitmapset) : gset Z :=
  match a with
  | None => ∅
  | Some a => list_to_set (members_below (words a) (64 * nwords a))
  end.

#[export] Instance bms_equiv : Equiv (option Bitmapset) :=
  fun a b => forall x, bms_mem a x = bms_mem b x.
#[export] Instance bms_equivalence : Equivalence bms_equiv.
Proof.
  split.
  - by intros a x.
  - intros a b H x. by rewrite H.
  - intros a b c H1 H2 x. by rewrite H1, H2.
Qed.

(** * Words and members *)

Lemma rd_in_u ws i : words_ok ws -> in_u 64 (rd ws i).
Proof.
  intros H. unfold rd. destruct (ws !! i) as [w|] eqn:E; simpl; [|split; lia].
  by eapply Forall_lookup_1.
Qed.
#[export] Hint Resolve rd_in_u : pg.

Lemma wmem_split x : 0 <= x -> x = 64 * Z.of_nat (Z.to_nat (x / 64)) + x mod 64.
Proof.
  intros Hx. rewrite Z2Nat.id by (apply Z.div_pos; lia). apply Z.div_mod. lia.
Qed.

Lemma wmem_at ws i b :
  0 <= b < 64 -> wmem ws (64 * Z.of_nat i + b) = Z.testbit (rd ws i) b.
Proof.
  intros Hb. unfold wmem. rewrite bool_decide_eq_true_2 by lia. simpl.
  rewrite Z.mul_comm, Z.div_add_l, Z.div_small, Z.add_0_r, Nat2Z.id by lia.
  by rewrite Z.add_comm, Z_mod_plus_full, Z.mod_small by lia.
Qed.

Lemma wmem_neg ws x : x < 0 -> wmem ws x = false.
Proof. intros H. unfold wmem. by rewrite bool_decide_eq_false_2 by lia. Qed.

(** Two statements about members of word arrays follow from the words. *)
Lemma wmem_ind (P : Z -> Prop) :
  (forall x, x < 0 -> P x) ->
  (forall i b, 0 <= b < 64 -> P (64 * Z.of_nat i + b)) -> forall x, P x.
Proof.
  intros Hn Hp x. destruct (decide (x < 0)) as [|Hx]; [by apply Hn|].
  rewrite (wmem_split x) by lia. apply Hp. apply Z.mod_pos_bound. lia.
Qed.

Lemma wmem_true ws x :
  words_ok ws -> wmem ws x = true ->
  exists i b, x = 64 * Z.of_nat i + b /\ 0 <= b < 64 /\ (i < length ws)%nat /\
              Z.testbit (rd ws i) b = true.
Proof.
  intros Hok. induction x as [x Hx|i b Hb] using wmem_ind; [by rewrite wmem_neg|].
  - intros H. rewrite wmem_at in H by done. exists i, b.
    split; [done|]. split; [done|]. split; [|done].
    destruct (decide (i < length ws)%nat) as [|Hge]; [done|].
    rewrite rd_ge, Z.testbit_0_l in H by lia. done.
Qed.

Lemma wmem_of_testbit ws i b :
  words_ok ws -> Z.testbit (rd ws i) b = true -> wmem ws (64 * Z.of_nat i + b) = true.
Proof.
  intros Hok H. rewrite wmem_at; [done|]. eapply testbit_true_lt; [|lia|done]. auto with pg.
Qed.

Lemma wmem_bound ws x :
  words_ok ws -> wmem ws x = true -> 0 <= x < 64 * Z.of_nat (length ws).
Proof. intros Hok H. destruct (wmem_true ws x Hok H) as (i & b & -> & ? & ? & _). lia. Qed.

Lemma word_zero ws i :
  words_ok ws -> rd ws i = 0 <-> forall b, 0 <= b < 64 -> wmem ws (64 * Z.of_nat i + b) = false.
Proof.
  intros Hok. split.
  - intros E b Hb. by rewrite wmem_at, E, Z.testbit_0_l.
  - intros H. apply Z_eq_0_testbit. intros b Hb.
    destruct (decide (b < 64)); [by rewrite <- wmem_at, H|].
    apply (in_u_testbit_high 64); [auto with pg|lia].
Qed.

Lemma word_nonzero ws i :
  words_ok ws -> rd ws i <> 0 ->
  exists b, 0 <= b < 64 /\ Z.testbit (rd ws i) b = true.
Proof.
  intros Hok H. pose proof (rd_in_u ws i Hok) as Hr.
  destruct (nonzero_testbit (rd ws i)) as (b & Hb & Ht); [unfold in_u in Hr; lia|done|].
  exists b. split; [|done]. by apply (testbit_true_lt 64 (rd ws i)).
Qed.

Lemma bms_mem_set a x : bms_wf a -> x ∈ bms_set a <-> bms_mem a x = true.
Proof.
  destruct a as [[ws]|]; simpl; [|set_solver]. intros [Hok _].
  rewrite elem_of_list_to_set. unfold members_below. rewrite list_elem_of_filter.
  split; [by intros [? _]|]. intros H. split; [done|].
  pose proof (wmem_bound ws x Hok H) as Hb. rewrite list_elem_of_fmap.
  exists (Z.to_nat x). split; [lia|]. apply elem_of_seq. unfold nwords. simpl. lia.
Qed.

Lemma bms_equiv_set a b : bms_wf a -> bms_wf b -> a ≡ b <-> bms_set a = bms_set b.
Proof.
  intros Ha Hb. split.
  - intros H. apply set_eq. intros x. rewrite !bms_mem_set by done. by rewrite H.
  - intros H x. apply eq_true_iff_eq. by rewrite <- !bms_mem_set, H.
Qed.

(** * Search loops *)

Lemma existsb_seq (p : nat -> bool) i n :
  existsb p (seq i n) = true <-> exists k, (i <= k < i + n)%nat /\ p k = true.
Proof.
  rewrite existsb_exists. split.
  - intros (k & Hk & Hp). exists k. split; [by apply in_seq|done].
  - intros (k & Hk & Hp). exists k. split; [by apply in_seq|done].
Qed.

Lemma existsb_seq_false (p : nat -> bool) i n :
  existsb p (seq i n) = false <-> forall k, (i <= k < i + n)%nat -> p k = false.
Proof.
  rewrite <- not_true_iff_false, existsb_seq. split.
  - intros H k Hk. apply not_true_iff_false. intros Hp. apply H. eauto.
  - intros H (k & Hk & Hp). by rewrite H in Hp.
Qed.

(** [search_cases] turns the search loops of the goal into their two outcomes. *)
Ltac search_cases :=
  repeat (rewrite for_up_ret_search;
          let E := fresh "E" in
          match goal with
          | |- context [existsb ?p (seq ?i ?n)] => destruct (existsb p (seq i n)) eqn:E
          end;
          [apply existsb_seq in E | rewrite existsb_seq_false in E]; simpl after;
          cbv iota).

Lemma neqb_true x y : negb (x =? y) = true <-> x <> y.
Proof. by rewrite negb_true_iff, Z.eqb_neq. Qed.
Lemma neqb_false x y : negb (x =? y) = false <-> x = y.
Proof. by rewrite negb_false_iff, Z.eqb_eq. Qed.

Lemma bms_is_empty_internal_spec a :
  words_ok (words a) ->
  bms_is_empty_internal a = true <-> forall x, wmem (words a) x = false.
Proof.
  intros Hok. unfold bms_is_empty_internal. search_cases.
  - destruct E as (k & Hk & Hp%neqb_true). split; [done|]. intros H.
    exfalso. apply Hp. apply word_zero; [done|]. intros b Hb. apply H.
  - split; [|done]. intros _ x. apply not_true_iff_false. intros Hx.
    destruct (wmem_true _ _ Hok Hx) as (i & b & -> & Hb & Hi & Ht).
    specialize (E i). unfold nwords in E. rewrite neqb_false in E.
    rewrite E, Z.testbit_0_l in Ht by lia. done.
Qed.

(** The result of a function that checks for emptiness at its end. *)
Lemma null_if_empty_mem a x :
  words_ok (words a) ->
  bms_mem (if bms_is_empty_internal a then None else Some a) x = wmem (words a) x.
Proof.
  intros Hok. destruct (bms_is_empty_internal a) eqn:E; [|done].
  simpl. symmetry. by apply bms_is_empty_internal_spec.
Qed.

Lemma null_if_empty_wf a :
  words_ok (words a) -> bms_wf (if bms_is_empty_internal a then None else Some a).
Proof.
  intros Hok. destruct (bms_is_empty_internal a) eqn:E; [done|].
  split; [done|]. unfold bms_is_empty_internal in E. revert E. search_cases; [|done].
  intros _. destruct E as (k & Hk & Hp%neqb_true).
  destruct (word_nonzero _ _ Hok Hp) as (b & Hb & Ht).
  exists (64 * Z.of_nat k + b). by apply wmem_of_testbit.
Qed.

(** * Word-level facts of the updating loops *)

Lemma words_ok_rd ws : words_ok ws <-> forall i, in_u 64 (rd ws i).
Proof.
  split; [intros H i; by apply rd_in_u|]. intros H. apply Forall_lookup_2.
  intros i w Hw. specialize (H i). unfold rd in H. by rewrite Hw in H.
Qed.

Lemma wnot_range w : in_u 64 w -> in_u 64 (wnot w).
Proof. apply unot_range. lia. Qed.

Lemma wnot_testbit w b : 0 <= b < 64 -> Z.testbit (wnot w) b = negb (Z.testbit w b).
Proof.
  intros Hb. unfold wnot. rewrite unot_testbit by lia.
  rewrite bool_decide_eq_true_2 by lia. apply xorb_true_r.
Qed.

Lemma wbit_range n : in_u 64 (wbit n).
Proof. apply uwrap_range. lia. Qed.

Lemma wbit_testbit n b :
  0 <= n < 64 -> 0 <= b < 64 -> Z.testbit (wbit n) b = bool_decide (b = n).
Proof.
  intros Hn Hb. unfold wbit. rewrite ushl_testbit by lia.
  rewrite bool_decide_eq_true_2 by lia. simpl. rewrite testbit_one.
  apply bool_decide_ext. lia.
Qed.

#[export] Hint Resolve wnot_range wbit_range : pg.

Lemma land_range64 x y : in_u 64 x -> in_u 64 y -> in_u 64 (Z.land x y).
Proof. intros Hx [Hy _]. by apply land_range. Qed.
Lemma lor_range64 x y : in_u 64 x -> in_u 64 y -> in_u 64 (Z.lor x y).
Proof. intros Hx Hy. by apply lor_range. Qed.
Lemma zero_range64 : in_u 64 0.
Proof. split; lia. Qed.
#[export] Hint Resolve land_range64 lor_range64 zero_range64 : pg.

Lemma or_loop_rd (res oth : list Z) j :
  (length oth <= length res)%nat ->
  rd (for_up (length oth) 0 (fun i ws => <[i := Z.lor (rd ws i) (rd oth i)]> ws) res) j =
  Z.lor (rd res j) (rd oth j).
Proof.
  intros Hl. rewrite (for_up_array (fun i w => Z.lor w (rd oth i))) by lia.
  case_decide; [done|]. by rewrite (rd_ge oth), Z.lor_0_r by lia.
Qed.

Lemma andnot_loop_rd (a b : list Z) j :
  words_ok a ->
  rd (for_up (Nat.min (length a) (length b)) 0
        (fun i ws => <[i := Z.land (rd ws i) (wnot (rd b i))]> ws) a) j =
  Z.land (rd a j) (wnot (rd b j)).
Proof.
  intros Hok. rewrite (for_up_array (fun i w => Z.land w (wnot (rd b i)))) by lia.
  case_decide as H; [done|].
  destruct (decide (j < length a)%nat) as [Ha|Ha].
  - rewrite (rd_ge b) by lia. apply Z.bits_inj'. intros k Hk. rewrite Z.land_spec.
    destruct (decide (k < 64)); [by rewrite wnot_testbit, Z.testbit_0_l, andb_true_r by lia|].
    by rewrite (in_u_testbit_high 64 (rd a j)) by (auto with pg; lia).
  - by rewrite !(rd_ge a), Z.land_0_l by lia.
Qed.

(** Membership in an array whose words are bitwise combinations of others. *)
Lemma wmem_combine (f : bool -> bool -> bool) ws wa wb x :
  f false false = false ->
  (forall i b, 0 <= b < 64 ->
     Z.testbit (rd ws i) b = f (Z.testbit (rd wa i) b) (Z.testbit (rd wb i) b)) ->
  wmem ws x = f (wmem wa x) (wmem wb x).
Proof.
  intros Hf H. induction x as [x Hx|i b Hb] using wmem_ind; [by rewrite !wmem_neg|].
  rewrite !wmem_at by done. by apply H.
Qed.

(** * The operations that combine two sets *)

Lemma bms_copy_eq a : bms_copy a = a.
Proof. by destruct a as [[ws]|]. Qed.

Lemma union_words_mem (res oth : list Z) x :
  (length oth <= length res)%nat ->
  wmem (for_up (length oth) 0 (fun i ws => <[i := Z.lor (rd ws i) (rd oth i)]> ws) res) x =
  wmem res x || wmem oth x.
Proof.
  intros Hl. apply (wmem_combine orb); [done|]. intros i b Hb.
  by rewrite or_loop_rd, Z.lor_spec.
Qed.

Lemma union_words_ok (res oth : list Z) :
  words_ok res -> words_ok oth -> (length oth <= length res)%nat ->
  words_ok (for_up (length oth) 0 (fun i ws => <[i := Z.lor (rd ws i) (rd oth i)]> ws) res).
Proof.
  intros H1 H2 Hl. apply words_ok_rd. intros i. rewrite or_loop_rd by done. auto with pg.
Qed.

(** The three unions differ in which input they reuse; one lemma covers them. *)
Lemma union_words_wf (res oth : list Z) :
  (length oth <= length res)%nat -> bms_wf (Some (mkBitmapset res)) ->
  words_ok oth ->
  bms_wf (Some (mkBitmapset (for_up (length oth) 0
     (fun i ws => <[i := Z.lor (rd ws i) (rd oth i)]> ws) res))).
Proof.
  intros Hl [Hok [x Hx]] Hoth. simpl in *. split; [by apply union_words_ok|].
  exists x. by rewrite union_words_mem, Hx.
Qed.

Lemma bms_union_mem a b x : bms_mem (bms_union a b) x = bms_mem a x || bms_mem b x.
Proof.
  destruct a as [[wa]|], b as [[wb]|]; simpl; try by rewrite ?orb_false_r.
  destruct (Nat.leb_spec (nwords (mkBitmapset wa)) (nwords (mkBitmapset wb))) as [H|H];
    unfold nwords in *; simpl in *; rewrite union_words_mem by lia; [apply orb_comm|done].
Qed.

Lemma bms_union_wf a b : bms_wf a -> bms_wf b -> bms_wf (bms_union a b).
Proof.
  destruct a as [[wa]|], b as [[wb]|]; simpl; try done. intros Ha Hb.
  destruct (Nat.leb_spec (nwords (mkBitmapset wa)) (nwords (mkBitmapset wb))) as [H|H];
    unfold nwords in *; apply union_words_wf; simpl in *; (done || lia || by apply Ha || by apply Hb).
Qed.

Lemma bms_add_members_mem a b x :
  bms_mem (bms_add_members a b) x = bms_mem a x || bms_mem b x.
Proof.
  destruct a as [[wa]|], b as [[wb]|]; simpl; try by rewrite ?orb_false_r.
  destruct (Nat.ltb_spec (nwords (mkBitmapset wa)) (nwords (mkBitmapset wb))) as [H|H];
    unfold nwords in *; simpl in *; rewrite union_words_mem by lia; [apply orb_comm|done].
Qed.

Lemma bms_add_members_wf a b : bms_wf a -> bms_wf b -> bms_wf (bms_add_members a b).
Proof.
  destruct a as [[wa]|], b as [[wb]|]; simpl; try done. intros Ha Hb.
  destruct (Nat.ltb_spec (nwords (mkBitmapset wa)) (nwords (mkBitmapset wb))) as [H|H];
    unfold nwords in *; apply union_words_wf; simpl in *; (done || lia || by apply Ha || by apply Hb).
Qed.

(** [bms_join] computes what [bms_add_members] computes. *)
Lemma bms_join_add_members a b : bms_join a b = bms_add_members a b.
Proof. by destruct a as [[wa]|], b as [[wb]|]. Qed.

(** Intersection: the shorter array, and-ed with the longer one. *)
Lemma and_loop_rd (res oth : list Z) j :
  rd (for_up (length res) 0 (fun i ws => <[i := Z.land (rd ws i) (rd oth i)]> ws) res) j =
  Z.land (rd res j) (rd oth j).
Proof.
  rewrite (for_up_array (fun i w => Z.land w (rd oth i))) by lia.
  case_decide; [done|]. by rewrite (rd_ge res), Z.land_0_l by lia.
Qed.

Lemma and_words_mem (ws wa wb : list Z) x :
  (forall i, rd ws i = Z.land (rd wa i) (rd wb i)) -> wmem ws x = wmem wa x && wmem wb x.
Proof.
  intros H. apply (wmem_combine andb); [done|]. intros i b Hb. by rewrite H, Z.land_spec.
Qed.

Lemma and_words_ok (ws wa wb : list Z) :
  words_ok wa -> words_ok wb ->
  (forall i, rd ws i = Z.land (rd wa i) (rd wb i)) -> words_ok ws.
Proof. intros Ha Hb H. apply words_ok_rd. intros i. rewrite H. auto with pg. Qed.

Lemma bms_intersect_spec a b :
  bms_wf a -> bms_wf b ->
  bms_wf (bms_intersect a b) /\
  forall x, bms_mem (bms_intersect a b) x = bms_mem a x && bms_mem b x.
Proof.
  destruct a as [[wa]|], b as [[wb]|]; simpl; intros Ha Hb;
    try (split; [done|]; intros x; by rewrite ?andb_false_r).
  destruct (nwords _ <=? nwords _)%nat; unfold nwords; simpl.
  - pose proof (and_loop_rd wa wb) as Hrd. set (ws := for_up _ _ _ _) in *.
    assert (Hok : words_ok ws) by (apply (and_words_ok ws wa wb); [apply Ha|apply Hb|done]).
    split; [by apply null_if_empty_wf|]. intros x.
    rewrite null_if_empty_mem by done. by apply and_words_mem.
  - pose proof (and_loop_rd wb wa) as Hrd. set (ws := for_up _ _ _ _) in *.
    assert (Hok : words_ok ws) by (apply (and_words_ok ws wb wa); [apply Hb|apply Ha|done]).
    split; [by apply null_if_empty_wf|]. intros x.
    rewrite null_if_empty_mem by done. rewrite andb_comm. by apply and_words_mem.
Qed.

Lemma int_members_rd (wa wb : list Z) j :
  let ws := for_up (Nat.min (length wa) (length wb)) 0
              (fun i ws => <[i := Z.land (rd ws i) (rd wb i)]> ws) wa in
  rd (for_up (length wa - Nat.min (length wa) (length wb))
        (Nat.min (length wa) (length wb)) (fun i ws => <[i := 0]> ws) ws) j =
  Z.land (rd wa j) (rd wb j).
Proof.
  intros ws.
  assert (Hl : length ws = length wa)
    by apply (for_up_array_length (fun i w => Z.land w (rd wb i))).
  rewrite (for_up_array (fun _ _ => 0)) by lia. unfold ws.
  rewrite (for_up_array (fun i w => Z.land w (rd wb i))) by lia.
  repeat case_decide; try lia; try done.
  - by rewrite (rd_ge wb), Z.land_0_r by lia.
  - by rewrite (rd_ge wa), Z.land_0_l by lia.
Qed.

Lemma bms_int_members_spec a b :
  bms_wf a -> bms_wf b ->
  bms_wf (bms_int_members a b) /\
  forall x, bms_mem (bms_int_members a b) x = bms_mem a x && bms_mem b x.
Proof.
  destruct a as [[wa]|], b as [[wb]|]; simpl; intros Ha Hb;
    try (split; [done|]; intros x; by rewrite ?andb_false_r).
  unfold nwords; simpl. pose proof (int_members_rd wa wb) as Hrd; simpl in Hrd.
  set (ws := for_up (length wa - _) _ _ _) in *.
  assert (Hok : words_ok ws) by (apply (and_words_ok ws wa wb); [apply Ha|apply Hb|done]).
  split; [by apply null_if_empty_wf|]. intros x.
  rewrite null_if_empty_mem by done. by apply and_words_mem.
Qed.

(** Difference. *)
Lemma andnot_words_mem (wa wb : list Z) x :
  words_ok wa ->
  wmem (for_up (Nat.min (length wa) (length wb)) 0
        (fun i ws => <[i := Z.land (rd ws i) (wnot (rd wb i))]> ws) wa) x =
  wmem wa x && negb (wmem wb x).
Proof.
  intros Hok. apply (wmem_combine (fun p q => p && negb q)); [done|]. intros i b Hb.
  by rewrite andnot_loop_rd, Z.land_spec, wnot_testbit.
Qed.

Lemma andnot_words_ok (wa wb : list Z) :
  words_ok wa -> words_ok wb ->
  words_ok (for_up (Nat.min (length wa) (length wb)) 0
        (fun i ws => <[i := Z.land (rd ws i) (wnot (rd wb i))]> ws) wa).
Proof.
  intros Ha Hb. apply words_ok_rd. intros i. rewrite andnot_loop_rd by done. auto with pg.
Qed.

Lemma land_wnot_zero x y :
  in_u 64 x -> in_u 64 y -> Z.land x (wnot y) = 0 <->
  forall b, 0 <= b < 64 -> Z.testbit x b = true -> Z.testbit y b = true.
Proof.
  intros Hx Hy. split.
  - intros H b Hb Ht. assert (E : Z.testbit (Z.land x (wnot y)) b = false)
      by (by rewrite H, Z.testbit_0_l).
    rewrite Z.land_spec, wnot_testbit, Ht in E by done. simpl in E.
    by apply negb_false_iff.
  - intros H. apply Z_eq_0_testbit. intros b Hb. rewrite Z.land_spec.
    destruct (decide (b < 64)).
    + rewrite wnot_testbit by lia. specialize (H b).
      destruct (Z.testbit x b); [|done]. by rewrite H by (done || lia).
    + by rewrite (in_u_testbit_high 64 x) by (done || lia).
Qed.

(** The two scans shared by [bms_is_subset] and [bms_nonempty_difference]:
    a word of the common part that is not covered, or a nonzero extra word. *)
Lemma not_covered_common (wa wb : list Z) i :
  words_ok wa -> words_ok wb -> Z.land (rd wa i) (wnot (rd wb i)) <> 0 ->
  exists x, wmem wa x = true /\ wmem wb x = false.
Proof.
  intros Ha Hb H.
  destruct (nonzero_testbit (Z.land (rd wa i) (wnot (rd wb i)))) as (b & Hb0 & Ht); [|done|].
  { assert (Hr : in_u 64 (Z.land (rd wa i) (wnot (rd wb i)))) by auto with pg.
    unfold in_u in Hr; lia. }
  rewrite Z.land_spec in Ht. apply andb_true_iff in Ht as [Ht1 Ht2].
  assert (Hb64 : 0 <= b < 64) by (apply (testbit_true_lt 64 (rd wa i)); auto with pg; lia).
  rewrite wnot_testbit in Ht2 by done. apply negb_true_iff in Ht2.
  exists (64 * Z.of_nat i + b). by rewrite !wmem_at.
Qed.

Lemma not_covered_extra (wa wb : list Z) i :
  words_ok wa -> rd wa i <> 0 -> (length wb <= i)%nat ->
  exists x, wmem wa x = true /\ wmem wb x = false.
Proof.
  intros Ha H Hi. destruct (word_nonzero wa i Ha H) as (b & Hb & Ht).
  exists (64 * Z.of_nat i + b). rewrite !wmem_at by done.
  by rewrite (rd_ge wb), Z.testbit_0_l.
Qed.

Lemma covered (wa wb : list Z) :
  words_ok wa -> words_ok wb ->
  (forall i, (i < Nat.min (length wa) (length wb))%nat ->
     Z.land (rd wa i) (wnot (rd wb i)) = 0) ->
  (forall i, (Nat.min (length wa) (length wb) <= i < length wa)%nat -> rd wa i = 0) ->
  forall x, wmem wa x = true -> wmem wb x = true.
Proof.
  intros Ha Hb H1 H2 x Hx. destruct (wmem_true wa x Ha Hx) as (i & b & -> & Hb64 & Hi & Ht).
  rewrite wmem_at by done.
  destruct (decide (i < Nat.min (length wa) (length wb))%nat) as [Hc|Hc].
  - specialize (H1 i Hc). rewrite land_wnot_zero in H1 by auto with pg. by apply H1.
  - rewrite H2, Z.testbit_0_l in Ht by lia. done.
Qed.

Lemma bms_nonempty_difference_spec a b :
  bms_wf a -> bms_wf b ->
  if bms_nonempty_difference a b
  then exists x, bms_mem a x = true /\ bms_mem b x = false
  else forall x, bms_mem a x = true -> bms_mem b x = true.
Proof.
  destruct a as [[wa]|]; simpl; [|done]. intros [Ha [x0 Hx0]].
  destruct b as [[wb]|]; simpl; intros Hb; [|by exists x0]. destruct Hb as [Hb _].
  unfold nwords; simpl in *. search_cases.
  - destruct E as (k & _ & Hk%neqb_true). by eapply not_covered_common.
  - destruct E0 as (k & Hk1 & Hk%neqb_true). eapply not_covered_extra; [done|done|lia].
  - apply covered; [done|done| |].
    + intros i Hi. apply neqb_false, E. lia.
    + intros i Hi. apply neqb_false, E0. lia.
Qed.

Lemma bms_is_subset_spec a b :
  bms_wf a -> bms_wf b ->
  bms_is_subset a b = true <-> forall x, bms_mem a x = true -> bms_mem b x = true.
Proof.
  intros Ha Hb.
  assert (E : bms_is_subset a b = negb (bms_nonempty_difference a b)).
  { destruct a as [[wa]|], b as [[wb]|]; simpl; try done. unfold nwords; simpl.
    rewrite !for_up_ret_search. destruct (existsb _ _); simpl; [done|].
    destruct (Nat.ltb_spec (length wb) (length wa)).
    - by destruct (existsb _ _).
    - replace (length wa - _)%nat with 0%nat by lia. done. }
  rewrite E. pose proof (bms_nonempty_difference_spec a b Ha Hb) as H.
  destruct (bms_nonempty_difference a b); simpl; [|done].
  split; [done|]. destruct H as (x & H1 & H2). intros H. by rewrite H in H2.
Qed.

Lemma bms_difference_spec a b :
  bms_wf a -> bms_wf b ->
  bms_wf (bms_difference a b) /\
  forall x, bms_mem (bms_difference a b) x = bms_mem a x && negb (bms_mem b x).
Proof.
  intros Ha Hb. pose proof (bms_nonempty_difference_spec a b Ha Hb) as Hd.
  unfold bms_difference. destruct a as [[wa]|]; [|done].
  destruct b as [[wb]|]; [|rewrite bms_copy_eq; split; [done|]; intros x; simpl; by rewrite andb_true_r].
  destruct (bms_nonempty_difference _ _); simpl negb; cbn match.
  - unfold nwords; simpl in *. split.
    + split; [apply andnot_words_ok; [apply Ha|apply Hb]|].
      destruct Hd as (x & H1 & H2). exists x. simpl. rewrite andnot_words_mem by apply Ha.
      by rewrite H1, H2.
    + intros x. apply andnot_words_mem, Ha.
  - split; [done|]. intros x. specialize (Hd x). simpl in *.
    destruct (wmem wa x); [|done]. by rewrite Hd.
Qed.

Lemma bms_del_members_spec a b :
  bms_wf a -> bms_wf b ->
  bms_wf (bms_del_members a b) /\
  forall x, bms_mem (bms_del_members a b) x = bms_mem a x && negb (bms_mem b x).
Proof.
  destruct a as [[wa]|], b as [[wb]|]; simpl; intros Ha Hb;
    try (split; [done|]; intros x; by rewrite ?andb_true_r).
  unfold nwords; simpl.
  assert (Hok := andnot_words_ok wa wb (proj1 Ha) (proj1 Hb)).
  split; [by apply null_if_empty_wf|]. intros x.
  rewrite null_if_empty_mem by done. apply andnot_words_mem, Ha.
Qed.

Lemma bms_overlap_spec a b :
  bms_wf a -> bms_wf b ->
  bms_overlap a b = true <-> exists x, bms_mem a x = true /\ bms_mem b x = true.
Proof.
  destruct a as [[wa]|], b as [[wb]|]; simpl; intros Ha Hb;
    try (split; [done|]; by intros (x & H1 & H2)).
  destruct Ha as [Ha _], Hb as [Hb _]. unfold nwords; simpl in *. search_cases.
  - split; [|done]. intros _. destruct E as (k & Hk & Hp%neqb_true).
    destruct (nonzero_testbit (Z.land (rd wa k) (rd wb k))) as (b & Hb0 & Ht); [|done|].
    { assert (Hr : in_u 64 (Z.land (rd wa k) (rd wb k))) by auto with pg.
      unfold in_u in Hr; lia. }
    rewrite Z.land_spec in Ht. apply andb_true_iff in Ht as [H1 H2].
    exists (64 * Z.of_nat k + b). split; by apply wmem_of_testbit.
  - split; [done|]. intros (x & H1 & H2).
    destruct (wmem_true wa x Ha H1) as (i & b & -> & Hb64 & Hi & Ht).
    rewrite wmem_at in H2 by done.
    assert (Hi2 : (i < length wb)%nat).
    { destruct (decide (i < length wb)%nat); [done|].
      rewrite rd_ge, Z.testbit_0_l in H2 by lia. done. }
    specialize (E i ltac:(lia)). apply neqb_false in E.
    assert (Hz : Z.testbit (Z.land (rd wa i) (rd wb i)) b = true)
      by (by rewrite Z.land_spec, Ht, H2).
    by rewrite E, Z.testbit_0_l in Hz.
Qed.

(** * Equality and the two comparisons *)

Lemma wmem_ext_words wa wb :
  words_ok wa -> words_ok wb ->
  (forall x, wmem wa x = wmem wb x) <-> (forall i, rd wa i = rd wb i).
Proof.
  intros Ha Hb. split.
  - intros H i. apply Z.bits_inj'. intros b Hb0. destruct (decide (b < 64)).
    + by rewrite <- !wmem_at, H by lia.
    + rewrite !(in_u_testbit_high 64) by (auto with pg; lia). done.
  - intros H x. unfold wmem. by rewrite H.
Qed.

Lemma wequal_spec wa wb :
  words_ok wa -> words_ok wb -> (length wa <= length wb)%nat ->
  after (for_up_ret (length wa) 0 (fun i u =>
           if negb (rd wa i =? rd wb i) then Return false else Next u) tt) (fun _ =>
  after (for_up_ret (length wb - length wa) (length wa) (fun i u =>
           if negb (rd wb i =? 0) then Return false else Next u) tt) (fun _ => true)) = true
  <-> forall x, wmem wa x = wmem wb x.
Proof.
  intros Ha Hb Hl. rewrite wmem_ext_words by done. search_cases.
  - split; [done|]. destruct E as (k & Hk & Hp%neqb_true). intros H. by rewrite H in Hp.
  - split; [done|]. destruct E0 as (k & Hk & Hp%neqb_true). intros H.
    rewrite <- H, rd_ge in Hp by lia. done.
  - split; [|done]. intros _ i. destruct (decide (i < length wa)%nat).
    { apply neqb_false, E. lia. }
    rewrite rd_ge by lia. destruct (decide (i < length wb)%nat).
    { symmetry. apply neqb_false, E0. lia. }
    by rewrite rd_ge by lia.
Qed.

Lemma bms_equal_spec a b :
  bms_wf a -> bms_wf b -> bms_equal a b = true <-> a ≡ b.
Proof.
  unfold equiv, bms_equiv.
  destruct a as [[wa]|], b as [[wb]|]; simpl; try done.
  - intros [Ha _] [Hb _]. destruct (Nat.leb_spec (nwords (mkBitmapset wa)) (nwords (mkBitmapset wb)));
      unfold nwords in *; simpl in *; rewrite wequal_spec by (done || lia); [done|].
    split; intros H0 x; by rewrite H0.
  - intros [_ [x Hx]] _. split; [done|]. intros H. simpl in Hx. by rewrite H in Hx.
  - intros _ [_ [x Hx]]. split; [done|]. intros H. simpl in Hx. by rewrite <- H in Hx.
Qed.

(** A word greater than another has the highest bit in which they differ. *)
Lemma word_gt_highest u v :
  0 <= v < u ->
  exists k, 0 <= k /\ Z.testbit u k = true /\ Z.testbit v k = false /\
    forall j, k < j -> Z.testbit u j = Z.testbit v j.
Proof.
  intros Huv. set (d := Z.lxor u v).
  assert (Hd0 : 0 <= d) by (apply Z.lxor_nonneg; lia).
  assert (Hd : d <> 0) by (intros E; apply Z.lxor_eq in E; lia).
  assert (Hab : forall j, Z.log2 d < j -> Z.testbit u j = Z.testbit v j).
  { intros j Hj. assert (Hz : Z.testbit d j = false) by (apply Z.bits_above_log2; lia).
    unfold d in Hz. rewrite Z.lxor_spec in Hz. by apply xorb_eq. }
  assert (Hk : Z.testbit d (Z.log2 d) = true) by (apply Z.bit_log2; lia).
  unfold d in Hk at 1. rewrite Z.lxor_spec in Hk. pose proof (Z.log2_nonneg d).
  exists (Z.log2 d). split; [done|].
  destruct (Z.testbit u (Z.log2 d)) eqn:Eu, (Z.testbit v (Z.log2 d)) eqn:Ev; try done.
  exfalso. set (k := Z.log2 d) in *.
  assert (Hs : Z.shiftr u (k + 1) = Z.shiftr v (k + 1)).
  { apply Z.bits_inj'. intros n Hn. rewrite !Z.shiftr_spec by done. apply Hab. lia. }
  assert (Hu2 : Z.shiftr u k = 2 * Z.shiftr u (k + 1)).
  { rewrite <- Z.shiftr_shiftr by lia. rewrite <- Z.div2_spec.
    rewrite (Z.div2_odd (Z.shiftr u k)) at 1.
    rewrite <- Z.bit0_odd, Z.shiftr_spec, Z.add_0_l, Eu by lia. simpl. lia. }
  assert (Hv2 : Z.shiftr v k = 2 * Z.shiftr v (k + 1) + 1).
  { rewrite <- Z.shiftr_shiftr by lia. rewrite <- Z.div2_spec.
    rewrite (Z.div2_odd (Z.shiftr v k)) at 1.
    rewrite <- Z.bit0_odd, Z.shiftr_spec, Z.add_0_l, Ev by lia. simpl. lia. }
  rewrite !Z.shiftr_div_pow2 in * by lia.
  pose proof (Z.div_le_mono v u (2 ^ k) ltac:(apply Z.pow_pos_nonneg; lia) ltac:(lia)). lia.
Qed.

(** [dominates a b]: the highest-numbered bit set in one and not in the other is
    in [a]. *)
Definition dominates (a b : Z -> bool) : Prop :=
  exists x, a x = true /\ b x = false /\ forall y, x < y -> a y = b y.

Lemma dominates_asym f g : dominates f g -> dominates g f -> False.
Proof.
  intros (x & H1 & H2 & H3) (y & H4 & H5 & H6).
  destruct (Z.lt_trichotomy x y) as [Hlt|[->|Hgt]]; [|congruence|].
  - rewrite H3 in H5 by done. congruence.
  - rewrite H6 in H2 by done. congruence.
Qed.

Lemma dominates_words wa wb i :
  words_ok wa -> words_ok wb -> rd wb i < rd wa i ->
  (forall j, (i < j)%nat -> rd wa j = rd wb j) -> dominates (wmem wa) (wmem wb).
Proof.
  intros Ha Hb Hlt Heq. pose proof (rd_in_u wb i Hb) as Hr. unfold in_u in Hr.
  destruct (word_gt_highest (rd wa i) (rd wb i)) as (k & Hk & H1 & H2 & H3); [lia|].
  assert (Hk64 : 0 <= k < 64) by (apply (testbit_true_lt 64 (rd wa i)); auto with pg; lia).
  exists (64 * Z.of_nat i + k). rewrite !wmem_at by done. split; [done|]. split; [done|].
  intros y. induction y as [y Hy|j b Hb0] using wmem_ind; [lia|]. intros Hy.
  rewrite !wmem_at by done. destruct (decide (j = i)) as [->|Hne]; [apply H3; lia|].
  by rewrite Heq by lia.
Qed.

(** An array with a nonzero word has a highest one. *)
Lemma highest_nonzero_word (ws : list Z) k :
  rd ws k <> 0 ->
  exists i, (k <= i)%nat /\ rd ws i <> 0 /\ forall j, (i < j)%nat -> rd ws j = 0.
Proof.
  remember (length ws - k)%nat as n eqn:En. revert k En.
  induction n as [n IH] using lt_wf_ind; intros k En Hnz.
  destruct (existsb (fun j => negb (rd ws j =? 0)) (seq (S k) (length ws - k))) eqn:Ex.
  - apply existsb_seq in Ex as (j & Hj & Hp%neqb_true).
    assert (j < length ws)%nat.
    { destruct (decide (j < length ws)%nat); [done|]. by rewrite rd_ge in Hp by lia. }
    destruct (IH (length ws - j)%nat ltac:(lia) j eq_refl Hp) as (i & Hi & Hr).
    exists i. split; [lia|done].
  - rewrite existsb_seq_false in Ex. exists k. split; [done|]. split; [done|].
    intros j Hj. destruct (decide (j < length ws)%nat); [|by rewrite rd_ge by lia].
    apply neqb_false, Ex. lia.
Qed.

(** A nonzero word past the end of the other array decides. *)
Lemma extra_word_dominates (wa wb : list Z) k :
  words_ok wa -> words_ok wb -> (length wb <= k)%nat -> rd wa k <> 0 ->
  dominates (wmem wa) (wmem wb).
Proof.
  intros Ha Hb Hl Hnz. destruct (highest_nonzero_word wa k Hnz) as (i & Hi & Hnz' & Hz).
  apply (dominates_words wa wb i); [done|done| |].
  - rewrite (rd_ge wb) by lia. pose proof (rd_in_u wa i Ha) as Hr. unfold in_u in Hr. lia.
  - intros j Hj. rewrite (rd_ge wb) by lia. by apply Hz.
Qed.

Lemma nonempty_dominates (wa : list Z) x :
  words_ok wa -> wmem wa x = true -> dominates (wmem wa) (wmem []).
Proof.
  intros Ha Hx. destruct (wmem_true wa x Ha Hx) as (i & b & _ & _ & _ & Ht).
  apply (extra_word_dominates wa [] i); [done|by apply Forall_nil|simpl; lia|].
  intros E. by rewrite E, Z.testbit_0_l in Ht.
Qed.

(** The downward loop over the common words. *)
Lemma compare_common (wa wb : list Z) m :
  words_ok wa -> words_ok wb ->
  (forall j, (m <= j)%nat -> rd wa j = rd wb j) ->
  match for_down_ret m (fun i (u : unit) => if negb (rd wa i =? rd wb i)
          then Return (if rd wb i <? rd wa i then 1 else -1) else Next u) tt with
  | Next _ => forall j, (0 <= j)%nat -> rd wa j = rd wb j
  | Return r => (r = 1 /\ dominates (wmem wa) (wmem wb)) \/
                (r = -1 /\ dominates (wmem wb) (wmem wa))
  end.
Proof.
  intros Ha Hb Hhi.
  apply (for_down_ret_ind (fun k (_ : unit) => forall j, (k <= j)%nat -> rd wa j = rd wb j));
    [done|].
  intros k s Hk Hj. destruct (Z.eqb_spec (rd wa k) (rd wb k)) as [He|Hne]; simpl.
  - intros j Hjk. destruct (decide (j = k)); [by subst|apply Hj; lia].
  - destruct (Z.ltb_spec (rd wb k) (rd wa k)); [left|right]; (split; [done|]).
    + apply (dominates_words wa wb k); [done|done|done|intros j Hjk; apply Hj; lia].
    + apply (dominates_words wb wa k); [done|done|lia|].
      intros j Hjk. symmetry. apply Hj; lia.
Qed.

Lemma bms_compare_spec a b :
  bms_wf a -> bms_wf b ->
  (bms_compare a b = 0 /\ a ≡ b) \/
  (bms_compare a b = 1 /\ dominates (bms_mem a) (bms_mem b)) \/
  (bms_compare a b = -1 /\ dominates (bms_mem b) (bms_mem a)).
Proof.
  assert (Hnil : forall x, wmem [] x = false).
  { intros x. induction x as [x Hx|i b' Hb'] using wmem_ind; [by apply wmem_neg|].
    by rewrite wmem_at, rd_ge, Z.testbit_0_l by (simpl; done || lia). }
  destruct a as [[wa]|], b as [[wb]|]; intros Ha Hb.
  - destruct Ha as [Ha _], Hb as [Hb _]. unfold equiv, bms_equiv, bms_compare, nwords.
    simpl words in *. simpl bms_mem. set (m := Nat.min (length wa) (length wb)).
    search_cases.
    + destruct E as (k & Hk & Hp%neqb_true). right; left. split; [done|].
      apply (extra_word_dominates wa wb k); try done; lia.
    + destruct E0 as (k & Hk & Hp%neqb_true). right; right. split; [done|].
      apply (extra_word_dominates wb wa k); try done; lia.
    + assert (Hhi : forall j, (m <= j)%nat -> rd wa j = rd wb j).
      { intros j Hj. transitivity 0; [|symmetry].
        - destruct (decide (j < length wa)%nat); [apply neqb_false, E; lia|by apply rd_ge; lia].
        - destruct (decide (j < length wb)%nat); [apply neqb_false, E0; lia|by apply rd_ge; lia]. }
      pose proof (compare_common wa wb m Ha Hb Hhi) as H.
      destruct (for_down_ret m _ tt) as [u|r]; simpl after; [left|by right].
      split; [done|]. apply wmem_ext_words; [done|done|]. intros i. apply H. lia.
  - destruct Ha as [Ha [x Hx]]. right; left. split; [done|].
    destruct (nonempty_dominates wa x Ha Hx) as (y & H1 & H2 & H3). exists y. simpl.
    split; [done|]. split; [done|]. intros z Hz. by rewrite H3, Hnil.
  - destruct Hb as [Hb [x Hx]]. right; right. split; [done|].
    destruct (nonempty_dominates wb x Hb Hx) as (y & H1 & H2 & H3). exists y. simpl.
    split; [done|]. split; [done|]. intros z Hz. by rewrite H3, Hnil.
  - left. by split.
Qed.

(** * Subset comparison *)

(** What the running result says of the words seen so far: whether a member of
    [a] outside [b] was met ([p]) and conversely ([q]). *)
Definition cmp_of (p q : bool) : BMS_Comparison :=
  match p, q with
  | false, false => BMS_EQUAL
  | false, true => BMS_SUBSET1
  | true, false => BMS_SUBSET2
  | true, true => BMS_DIFFERENT
  end.

(** A loop whose body folds one word into the running result. *)
Lemma subset_compare_loop (dp dq : nat -> bool) (body : nat -> BMS_Comparison -> flow _ _) n :
  forall i p q, cmp_of p q <> BMS_DIFFERENT ->
  (forall k p q, (i <= k < i + n)%nat -> cmp_of p q <> BMS_DIFFERENT ->
     body k (cmp_of p q) =
     if decide (cmp_of (p || dp k) (q || dq k) = BMS_DIFFERENT) then Return BMS_DIFFERENT
     else Next (cmp_of (p || dp k) (q || dq k))) ->
  for_up_ret n i body (cmp_of p q) =
  let r := cmp_of (p || existsb dp (seq i n)) (q || existsb dq (seq i n)) in
  if decide (r = BMS_DIFFERENT) then Return BMS_DIFFERENT else Next r.
Proof.
  induction n as [|n IH]; intros i p q Hne Hb; simpl.
  - rewrite !orb_false_r. by case_decide.
  - rewrite Hb by (done || lia). case_decide as Hd.
    + destruct p, q, (dp i), (dq i); simpl in Hd; try done; by rewrite ?orb_true_r.
    + rewrite IH; [by rewrite !orb_assoc|done|]. intros k p' q' Hk. apply Hb. lia.
Qed.

Lemma subset_compare_word_spec (p q dp dq : bool) aw bw :
  negb (Z.land aw (wnot bw) =? 0) = dp -> negb (Z.land bw (wnot aw) =? 0) = dq ->
  cmp_of p q <> BMS_DIFFERENT ->
  subset_compare_word aw bw (cmp_of p q) =
  if decide (cmp_of (p || dp) (q || dq) = BMS_DIFFERENT) then Return BMS_DIFFERENT
  else Next (cmp_of (p || dp) (q || dq)).
Proof.
  intros Hp Hq Hne. unfold subset_compare_word. rewrite Hp, Hq.
  by destruct p, q, dp, dq; simpl in *.
Qed.

Lemma cmp_of_different p q : cmp_of p q = BMS_DIFFERENT <-> p = true /\ q = true.
Proof. destruct p, q; simpl; split; (done || by intros []). Qed.

(** [bms_subset_compare] combines the two subset tests. *)
Lemma bms_subset_compare_eq a b :
  bms_subset_compare a b = cmp_of (negb (bms_is_subset a b)) (negb (bms_is_subset b a)).
Proof.
  destruct a as [[wa]|], b as [[wb]|]; simpl; try done. unfold nwords; simpl.
  set (m := Nat.min (length wa) (length wb)).
  rewrite (Nat.min_comm (length wb)). fold m.
  set (dp := fun i => negb (Z.land (rd wa i) (wnot (rd wb i)) =? 0)).
  set (dq := fun i => negb (Z.land (rd wb i) (wnot (rd wa i)) =? 0)).
  set (ep := fun i => negb (rd wa i =? 0)). set (eq := fun i => negb (rd wb i =? 0)).
  assert (Hf : forall i n, existsb (fun _ : nat => false) (seq i n) = false)
    by (intros i n; by apply existsb_seq_false).
  change BMS_EQUAL with (cmp_of false false) at 1.
  rewrite (subset_compare_loop dp dq); [|done|intros; by apply subset_compare_word_spec].
  rewrite !for_up_ret_search. fold dp dq. cbn zeta.
  simpl orb. set (P := existsb dp (seq 0 m)). set (Q := existsb dq (seq 0 m)).
  case_decide as Hd; [apply cmp_of_different in Hd as [-> ->]; done|]. simpl after.
  destruct (Nat.ltb_spec (length wb) (length wa)) as [Hlt|Hge];
  [|destruct (Nat.ltb_spec (length wa) (length wb)) as [Hlt'|Hge']].
  - rewrite (subset_compare_loop ep (fun _ => false)); [|done|].
    + destruct (Nat.ltb_spec (length wa) (length wb)); [lia|]. fold ep. rewrite Hf, orb_false_r. cbn zeta.
      destruct P, Q; try done; simpl; by destruct (existsb ep _).
    + intros k p q _ Hne. fold (ep k). rewrite orb_false_r.
      by destruct (ep k) eqn:Ee, p, q; simpl in *; rewrite ?Ee.
  - rewrite (subset_compare_loop (fun _ => false) eq); [|done|].
    + fold eq. rewrite Hf, orb_false_r. cbn zeta.
      destruct P, Q; try done; simpl; by destruct (existsb eq _).
    + intros k p q _ Hne. fold (eq k). rewrite orb_false_r.
      by destruct (eq k) eqn:Ee, p, q; simpl in *; rewrite ?Ee.
  - by destruct P, Q.
Qed.

(** * Single members *)

Lemma WORDNUM_eq x : 0 <= x -> WORDNUM x = Z.to_nat (x / 64).
Proof. intros H. unfold WORDNUM. by rewrite Z.quot_div_nonneg. Qed.
Lemma BITNUM_eq x : 0 <= x -> BITNUM x = x mod 64.
Proof. intros H. unfold BITNUM. by rewrite Z.rem_mod_nonneg. Qed.
Lemma BITNUM_range x : 0 <= x -> 0 <= BITNUM x < 64.
Proof. intros H. rewrite BITNUM_eq by done. apply Z.mod_pos_bound. lia. Qed.
Lemma WORDNUM_BITNUM x : 0 <= x -> x = 64 * Z.of_nat (WORDNUM x) + BITNUM x.
Proof. intros H. rewrite WORDNUM_eq, BITNUM_eq by done. by apply wmem_split. Qed.

Lemma wmem_WORDNUM ws x :
  0 <= x -> wmem ws x = Z.testbit (rd ws (WORDNUM x)) (BITNUM x).
Proof.
  intros H. rewrite (WORDNUM_BITNUM x H) at 1. by apply wmem_at, BITNUM_range.
Qed.

(** [64 * i + b] names one word and bit only. *)
Lemma word_bit_inj i b x :
  0 <= x -> 0 <= b < 64 ->
  64 * Z.of_nat i + b = x <-> i = WORDNUM x /\ b = BITNUM x.
Proof.
  intros Hx Hb. pose proof (BITNUM_range x Hx) as Hr. pose proof (WORDNUM_BITNUM x Hx) as E.
  split; [|intros [-> ->]; done]. intros H. rewrite E in H. lia.
Qed.

Lemma land_wbit_nonzero w n :
  in_u 64 w -> 0 <= n < 64 -> negb (Z.land w (wbit n) =? 0) = Z.testbit w n.
Proof.
  intros Hw Hn. destruct (Z.testbit w n) eqn:E.
  - apply neqb_true. intros H.
    assert (Ht : Z.testbit (Z.land w (wbit n)) n = true).
    { rewrite Z.land_spec, E, wbit_testbit by done. by rewrite bool_decide_eq_true_2. }
    by rewrite H, Z.testbit_0_l in Ht.
  - apply neqb_false, Z_eq_0_testbit. intros i Hi. rewrite Z.land_spec.
    destruct (decide (i < 64)).
    + rewrite wbit_testbit by lia. case_bool_decide; [subst; by rewrite E|apply andb_false_r].
    + by rewrite (in_u_testbit_high 64 w) by (done || lia).
Qed.

Lemma bms_is_member_spec x a :
  bms_wf a -> bms_is_member x a = if x <? 0 then Err negative_member else Ok (bms_mem a x).
Proof.
  intros Ha. unfold bms_is_member. destruct (Z.ltb_spec x 0) as [|Hx]; [done|].
  destruct a as [[ws]|]; [|done]. destruct Ha as [Hok _]. unfold nwords; simpl in *.
  rewrite (wmem_WORDNUM ws x Hx).
  destruct (Nat.leb_spec (length ws) (WORDNUM x)).
  - by rewrite rd_ge, Z.testbit_0_l.
  - rewrite land_wbit_nonzero by (auto with pg; by apply BITNUM_range).
    by destruct (Z.testbit _ _).
Qed.

(** Setting a bit of an array that is long enough. *)
Lemma set_bit_mem ws x y :
  0 <= x -> (WORDNUM x < length ws)%nat ->
  wmem (<[WORDNUM x := Z.lor (rd ws (WORDNUM x)) (wbit (BITNUM x))]> ws) y =
  bool_decide (y = x) || wmem ws y.
Proof.
  intros Hx Hl. pose proof (BITNUM_range x Hx) as Hb.
  induction y as [y Hy|i b Hi] using wmem_ind.
  { rewrite !wmem_neg by done. by rewrite bool_decide_eq_false_2 by lia. }
  rewrite !wmem_at by done.
  rewrite (bool_decide_ext _ _ (word_bit_inj i b x Hx Hi)).
  rewrite rd_insert by done. case_decide as Hd.
  - subst i. rewrite Z.lor_spec, wbit_testbit, orb_comm by done. f_equal.
    apply bool_decide_ext. naive_solver.
  - rewrite bool_decide_eq_false_2; [done|]. naive_solver.
Qed.

Lemma insert_words_ok ws i w : words_ok ws -> in_u 64 w -> words_ok (<[i := w]> ws).
Proof. intros H1 H2. by apply Forall_insert. Qed.
#[export] Hint Resolve insert_words_ok : pg.

Lemma enlarge_rd a n j :
  (nwords a <= n)%nat -> rd (words (enlarge a n)) j = rd (words a) j.
Proof.
  intros Hn. unfold enlarge, nwords in *. simpl.
  rewrite (for_up_array (fun _ _ => 0)) by (rewrite length_app, length_replicate; lia).
  case_decide as H; [by rewrite rd_ge by lia|].
  destruct (decide (j < length (words a))%nat); [by apply rd_app_l|].
  rewrite !rd_ge by (rewrite ?length_app, ?length_replicate; lia). done.
Qed.

Lemma enlarge_length a n : (nwords a <= n)%nat -> nwords (enlarge a n) = n.
Proof.
  intros Hn. unfold enlarge, nwords in *. simpl.
  rewrite (for_up_array_length (fun _ _ => 0)), length_app, length_replicate. lia.
Qed.

Lemma enlarge_ok a n : (nwords a <= n)%nat -> words_ok (words a) -> words_ok (words (enlarge a n)).
Proof.
  intros Hn Hok. apply words_ok_rd. intros i. rewrite enlarge_rd by done. auto with pg.
Qed.

(** "Enlarge if necessary", as both callers do it. *)
Lemma enlarge_if_spec a m :
  let a' := if (nwords a <=? m)%nat then enlarge a (m + 1) else a in
  (m < nwords a')%nat /\ (forall j, rd (words a') j = rd (words a) j) /\
  (words_ok (words a) -> words_ok (words a')).
Proof.
  destruct (Nat.leb_spec (nwords a) m); simpl; [|done].
  rewrite enlarge_length by lia. split; [lia|].
  split; [intros j; apply enlarge_rd; lia|intros; by apply enlarge_ok; [lia|]].
Qed.

Lemma wmem_rd_ext ws ws' x : (forall j, rd ws j = rd ws' j) -> wmem ws x = wmem ws' x.
Proof. intros H. unfold wmem. by rewrite H. Qed.

Lemma wmem_replicate_0 n x : wmem (replicate n 0) x = false.
Proof.
  induction x as [x Hx|i b Hb] using wmem_ind; [by apply wmem_neg|].
  rewrite wmem_at, rd_replicate by done. case_decide; apply Z.testbit_0_l.
Qed.

Lemma replicate_0_ok n : words_ok (replicate n 0).
Proof. apply Forall_replicate. auto with pg. Qed.
#[export] Hint Resolve replicate_0_ok : pg.

Lemma bms_make_singleton_spec x :
  bms_make_singleton x = Err negative_member /\ x < 0 \/
  exists a, bms_make_singleton x = Ok a /\ 0 <= x /\ bms_wf a /\
    forall y, bms_mem a y = bool_decide (y = x).
Proof.
  unfold bms_make_singleton. destruct (Z.ltb_spec x 0) as [|Hx]; [by left|right].
  eexists. split; [done|]. split; [done|].
  assert (Hm : forall y, wmem (<[WORDNUM x:=wbit (BITNUM x)]> (replicate (WORDNUM x + 1) 0)) y
                         = bool_decide (y = x)).
  { intros y. pose proof (set_bit_mem (replicate (WORDNUM x + 1) 0) x y Hx) as H.
    rewrite rd_replicate, decide_True, Z.lor_0_l, wmem_replicate_0, orb_false_r in H by lia.
    apply H. rewrite length_replicate. lia. }
  split; [|done]. split; simpl; [auto with pg|]. exists x. rewrite Hm.
  by apply bool_decide_eq_true_2.
Qed.

Lemma bms_add_member_spec a x :
  bms_wf a -> 0 <= x ->
  exists a', bms_add_member a x = Ok a' /\ bms_wf a' /\
    forall y, bms_mem a' y = bool_decide (y = x) || bms_mem a y.
Proof.
  intros Ha Hx. unfold bms_add_member. rewrite (proj2 (Z.ltb_ge x 0)) by done.
  destruct a as [a|].
  - destruct (enlarge_if_spec a (WORDNUM x)) as (H1 & H2 & H3). simpl.
    set (a' := if (nwords a <=? WORDNUM x)%nat then _ else a) in *.
    eexists. split; [done|].
    assert (Hm : forall y, bms_mem (Some (mkBitmapset (<[WORDNUM x:=Z.lor (rd (words a') (WORDNUM x))
       (wbit (BITNUM x))]> (words a')))) y = bool_decide (y = x) || wmem (words a) y).
    { intros y. simpl. rewrite set_bit_mem by done. f_equal. by apply wmem_rd_ext. }
    split; [|done]. destruct Ha as [Hok _]. specialize (H3 Hok).
    split; simpl; [auto with pg|]. exists x. simpl in Hm. rewrite Hm.
    by rewrite bool_decide_eq_true_2.
  - destruct (bms_make_singleton_spec x) as [[_ Hneg]|(a & -> & _ & Hwf & Hm)]; [lia|].
    exists a. split; [done|]. split; [done|]. intros y. by rewrite Hm, orb_false_r.
Qed.

Lemma bms_del_member_spec a x :
  bms_wf a -> 0 <= x ->
  exists a', bms_del_member a x = Ok a' /\ bms_wf a' /\
    forall y, bms_mem a' y = negb (bool_decide (y = x)) && bms_mem a y.
Proof.
  intros Ha Hx. unfold bms_del_member. rewrite (proj2 (Z.ltb_ge x 0)) by done.
  destruct a as [[ws]|]; [|exists None; split; [done|]; split; [done|]; intros y; by rewrite andb_false_r].
  destruct Ha as [Hok _]. unfold nwords; simpl in *.
  set (a' := if (WORDNUM x <? length ws)%nat then _ else _).
  assert (Hok' : words_ok (words a')).
  { unfold a'. destruct (_ <? _)%nat; simpl; auto with pg. }
  assert (Hm : forall y, wmem (words a') y = negb (bool_decide (y = x)) && wmem ws y).
  { intros y. pose proof (BITNUM_range x Hx) as Hbx.
    induction y as [y Hy|i b Hb] using wmem_ind; [by rewrite !wmem_neg, andb_false_r|].
    rewrite !wmem_at by done. rewrite (bool_decide_ext _ _ (word_bit_inj i b x Hx Hb)).
    unfold a'. destruct (Nat.ltb_spec (WORDNUM x) (length ws)) as [Hlt|Hge]; simpl.
    - rewrite rd_insert by done. case_decide as Hd.
      + subst i. rewrite Z.land_spec, wnot_testbit, wbit_testbit, andb_comm by done.
        do 2 f_equal. apply bool_decide_ext. naive_solver.
      + rewrite bool_decide_eq_false_2; [done|]. naive_solver.
    - case_bool_decide as Hd; [|done]. destruct Hd as [-> ->].
      by rewrite rd_ge, Z.testbit_0_l. }
  exists (if bms_is_empty_internal a' then None else Some a').
  split; [by destruct (bms_is_empty_internal a')|].
  split; [by apply null_if_empty_wf|]. intros y. by rewrite null_if_empty_mem, Hm.
Qed.

(** * Ranges *)

Lemma ones_shift_testbit n b :
  0 <= n < 64 -> 0 <= b < 64 ->
  Z.testbit (ushr (wnot 0) (64 - (n + 1))) b = bool_decide (b <= n).
Proof.
  intros Hn Hb. rewrite ushr_testbit by lia. unfold wnot.
  rewrite unot_testbit, Z.testbit_0_l by lia. simpl. apply bool_decide_ext. lia.
Qed.

Lemma low_mask_testbit n b :
  0 <= n < 64 -> 0 <= b < 64 ->
  Z.testbit (uwrap 64 (wbit n - 1)) b = bool_decide (b < n).
Proof.
  intros Hn Hb. unfold wbit, ushl. rewrite Z.shiftl_1_l.
  pose proof (Z.pow_lt_mono_r 2 n 64 ltac:(lia) ltac:(lia) ltac:(lia)).
  pose proof (Z.pow_pos_nonneg 2 n ltac:(lia) ltac:(lia)).
  rewrite !uwrap_small by (rewrite ?uwrap_small; unfold in_u; lia).
  rewrite Z.sub_1_r, <- Z.ones_equiv.
  case_bool_decide; [apply Z.ones_spec_low|apply Z.ones_spec_high]; lia.
Qed.

Lemma ushr_range64 x n : 0 <= n -> in_u 64 x -> in_u 64 (ushr x n).
Proof. intros. apply ushr_range; [lia|done|done]. Qed.
Lemma uwrap_range64 x : in_u 64 (uwrap 64 x).
Proof. apply uwrap_range. lia. Qed.
#[export] Hint Resolve uwrap_range64 : pg.

(** The masks [bms_add_range] ors in, for the words [l] and [u] of the two ends. *)
Lemma lmask_testbit n b :
  0 <= n < 64 -> 0 <= b < 64 ->
  Z.testbit (wnot (uwrap 64 (wbit n - 1))) b = bool_decide (n <= b).
Proof.
  intros Hn Hb. rewrite wnot_testbit, low_mask_testbit by done.
  repeat case_bool_decide; (done || lia).
Qed.

Definition range_words (ws : list Z) (l u : nat) (lmask umask : Z) : list Z :=
  if (l =? u)%nat then <[l := Z.lor (rd ws l) (Z.land lmask umask)]> ws
  else
    let ws := <[l := Z.lor (rd ws l) lmask]> ws in
    let ws := for_up (u - (l + 1)) (l + 1) (fun i ws => <[i := wnot 0]> ws) ws in
    <[u := Z.lor (rd ws u) umask]> ws.

Lemma range_words_rd ws l u lmask umask j :
  (l <= u < length ws)%nat ->
  rd (range_words ws l u lmask umask) j =
  if decide (l = j /\ u = j) then Z.lor (rd ws j) (Z.land lmask umask)
  else if decide (l = j) then Z.lor (rd ws j) lmask
  else if decide (u = j) then Z.lor (rd ws j) umask
  else if decide (l < j < u)%nat then wnot 0 else rd ws j.
Proof.
  intros Hlu. unfold range_words. destruct (Nat.eqb_spec l u) as [->|Hne].
  - rewrite rd_insert by lia. repeat case_decide; subst; try lia; done.
  - set (ws1 := <[l := _]> ws).
    assert (Hl1 : length ws1 = length ws) by apply length_insert.
    rewrite rd_insert by (rewrite (for_up_array_length (fun _ _ => wnot 0)); lia).
    rewrite !(for_up_array (fun _ _ => wnot 0)) by lia.
    unfold ws1. rewrite !rd_insert by lia. repeat case_decide; subst; try lia; done.
Qed.

Lemma range_words_mem ws lower upper y :
  0 <= lower <= upper -> (WORDNUM upper < length ws)%nat ->
  wmem (range_words ws (WORDNUM lower) (WORDNUM upper)
          (wnot (uwrap 64 (wbit (BITNUM lower) - 1)))
          (ushr (wnot 0) (64 - (BITNUM upper + 1)))) y =
  bool_decide (lower <= y <= upper) || wmem ws y.
Proof.
  intros Hlu Hlen.
  pose proof (WORDNUM_BITNUM lower ltac:(lia)) as El.
  pose proof (WORDNUM_BITNUM upper ltac:(lia)) as Eu.
  pose proof (BITNUM_range lower ltac:(lia)) as Hl.
  pose proof (BITNUM_range upper ltac:(lia)) as Hu.
  induction y as [y Hy|j b Hb] using wmem_ind.
  { rewrite !wmem_neg by done. by rewrite bool_decide_eq_false_2 by lia. }
  rewrite !wmem_at, range_words_rd by (done || lia).
  repeat case_decide; rewrite ?Z.lor_spec, ?Z.land_spec, ?lmask_testbit, ?ones_shift_testbit by done;
    rewrite 1?orb_comm;
    (repeat case_bool_decide; try lia; try done).
  all: rewrite ?orb_true_r, ?orb_false_r; try done.
  by rewrite wnot_testbit, Z.testbit_0_l.
Qed.

Lemma range_words_ok ws lower upper :
  0 <= lower <= upper -> (WORDNUM upper < length ws)%nat -> words_ok ws ->
  words_ok (range_words ws (WORDNUM lower) (WORDNUM upper)
          (wnot (uwrap 64 (wbit (BITNUM lower) - 1)))
          (ushr (wnot 0) (64 - (BITNUM upper + 1)))).
Proof.
  intros Hlu Hlen Hok. pose proof (BITNUM_range upper ltac:(lia)) as Hu.
  pose proof (WORDNUM_BITNUM lower ltac:(lia)). pose proof (WORDNUM_BITNUM upper ltac:(lia)).
  pose proof (BITNUM_range lower ltac:(lia)) as Hl.
  apply words_ok_rd. intros i. rewrite range_words_rd by lia.
  assert (in_u 64 (ushr (wnot 0) (64 - (BITNUM upper + 1))))
    by (apply ushr_range64; [lia|auto with pg]).
  repeat case_decide; auto 6 with pg.
Qed.

Lemma bms_add_range_spec a lower upper :
  bms_wf a -> 0 <= lower <= upper ->
  exists a', bms_add_range a lower upper = Ok a' /\ bms_wf a' /\
    forall y, bms_mem a' y = bool_decide (lower <= y <= upper) || bms_mem a y.
Proof.
  intros Ha Hlu.
  set (a0 := match a with
             | None => mkBitmapset (replicate (WORDNUM upper + 1) 0)
             | Some a => if (nwords a <=? WORDNUM upper)%nat
                         then enlarge a (WORDNUM upper + 1) else a
             end).
  assert (H0 : (WORDNUM upper < length (words a0))%nat /\ words_ok (words a0) /\
               forall y, wmem (words a0) y = bms_mem a y).
  { unfold a0. destruct a as [a|].
    - destruct (enlarge_if_spec a (WORDNUM upper)) as (H1 & H2 & H3). split; [done|].
      split; [by apply H3, Ha|]. intros y. by apply wmem_rd_ext.
    - simpl. rewrite length_replicate. split; [lia|]. split; [auto with pg|].
      intros y. apply wmem_replicate_0. }
  destruct H0 as (Hlen & Hok & Hm).
  exists (Some (mkBitmapset (range_words (words a0) (WORDNUM lower) (WORDNUM upper)
          (wnot (uwrap 64 (wbit (BITNUM lower) - 1)))
          (ushr (wnot 0) (64 - (BITNUM upper + 1)))))).
  split.
  { unfold bms_add_range. rewrite (proj2 (Z.ltb_ge upper lower)) by lia.
    rewrite (proj2 (Z.ltb_ge lower 0)) by lia. fold a0. unfold range_words.
    by destruct (_ =? _)%nat. }
  assert (Hmem : forall y, bms_mem (Some (mkBitmapset (range_words (words a0)
      (WORDNUM lower) (WORDNUM upper) (wnot (uwrap 64 (wbit (BITNUM lower) - 1)))
          (ushr (wnot 0) (64 - (BITNUM upper + 1)))))) y =
      bool_decide (lower <= y <= upper) || bms_mem a y).
  { intros y. simpl. by rewrite range_words_mem, Hm. }
  split; [|done]. split; [by apply range_words_ok|]. exists lower. simpl in Hmem.
  simpl. rewrite Hmem. by rewrite bool_decide_eq_true_2 by lia.
Qed.

(** * Counting *)

Lemma members_below_0 ws : members_below ws 0 = [].
Proof. done. Qed.

Lemma members_below_app ws n m :
  members_below ws (n + m) =
  members_below ws n ++ filter (fun x => wmem ws x = true) (Z.of_nat <$> seq n m).
Proof. unfold members_below. by rewrite seq_app, fmap_app, filter_app. Qed.

Lemma members_in_word ws i m :
  (m <= 64)%nat ->
  Z.of_nat (length (filter (fun x => wmem ws x = true) (Z.of_nat <$> seq (64 * i) m))) =
  bitcount m (rd ws i).
Proof.
  induction m as [|m IH]; intros Hm; [done|].
  rewrite seq_S, fmap_app, filter_app, length_app.
  change (Z.of_nat <$> [(64 * i + m)%nat]) with [Z.of_nat (64 * i + m)].
  rewrite Nat2Z.inj_add, IH by lia. simpl bitcount. f_equal.
  rewrite <- (wmem_at ws i (Z.of_nat m)) by lia.
  replace (64 * Z.of_nat i + Z.of_nat m) with (Z.of_nat (64 * i + m)) by lia.
  rewrite filter_cons. case_decide as H; [by rewrite H|].
  apply not_true_is_false in H. by rewrite H.
Qed.

(** The sum of the word counts is the number of members below the word boundary. *)
Lemma count_words ws n :
  words_ok ws ->
  for_up n 0 (fun i r => if negb (rd ws i =? 0) then r + bmw_popcount (rd ws i) else r) 0 =
  Z.of_nat (length (members_below ws (64 * n))).
Proof.
  intros Hok.
  apply (for_up_ind (fun k r => r = Z.of_nat (length (members_below ws (64 * k))))); [done|].
  intros k r _ ->. replace (64 * S k)%nat with (64 * k + 64)%nat by lia.
  rewrite members_below_app, length_app, Nat2Z.inj_add, members_in_word by lia.
  destruct (Z.eqb_spec (rd ws k) 0) as [E|E]; simpl negb; cbv iota.
  - rewrite E, bitcount_0. lia.
  - unfold bmw_popcount. by rewrite pg_popcount64_bitcount by auto with pg.
Qed.

Lemma members_below_NoDup ws n : NoDup (members_below ws n).
Proof. apply NoDup_filter, NoDup_fmap_2; [apply _|apply NoDup_seq]. Qed.

Lemma bms_num_members_spec a : bms_wf a -> bms_num_members a = Z.of_nat (size (bms_set a)).
Proof.
  destruct a as [[ws]|]; [|done]. intros [Hok _]. simpl bms_set.
  rewrite size_list_to_set by apply members_below_NoDup. by apply count_words.
Qed.

(** The members of [a] below [x]. *)
Definition bms_below (a : option Bitmapset) (x : Z) : gset Z :=
  filter (fun y => y < x) (bms_set a).

Lemma elem_of_members_below ws n y :
  y ∈ members_below ws n <-> 0 <= y < Z.of_nat n /\ wmem ws y = true.
Proof.
  unfold members_below. rewrite list_elem_of_filter, list_elem_of_fmap. split.
  - intros [Hm (k & -> & Hk%elem_of_seq)]. split; [lia|done].
  - intros [Hy Hm]. split; [done|]. exists (Z.to_nat y). split; [lia|].
    apply elem_of_seq. lia.
Qed.

Lemma bms_member_index_spec a x :
  bms_wf a -> 0 <= x ->
  bms_member_index a x =
  Ok (if bms_mem a x then Z.of_nat (size (bms_below a x)) else -1).
Proof.
  intros Ha Hx. unfold bms_member_index. rewrite bms_is_member_spec by done.
  rewrite (proj2 (Z.ltb_ge x 0)) by done. unfold res_bind; cbv iota.
  destruct (bms_mem a x) eqn:Hm; [|done]. destruct a as [[ws]|]; [|done].
  destruct Ha as [Hok Hne]. simpl words in *. f_equal.
  rewrite count_words by done. pose proof (BITNUM_range x Hx) as Hb.
  unfold bmw_popcount. rewrite pg_popcount64_bitcount by auto with pg.
  assert (E : bitcount 64 (Z.land (rd ws (WORDNUM x)) (uwrap 64 (wbit (BITNUM x) - 1))) =
              bitcount (Z.to_nat (BITNUM x)) (rd ws (WORDNUM x))).
  { replace 64%nat with (Z.to_nat (BITNUM x) + (64 - Z.to_nat (BITNUM x)))%nat by lia.
    rewrite bitcount_split. rewrite <- (Z.add_0_r (bitcount (Z.to_nat _) (rd _ _))). f_equal.
    - apply bitcount_ext. intros i Hi. rewrite Z.land_spec, low_mask_testbit by lia.
      rewrite bool_decide_eq_true_2 by lia. apply andb_true_r.
    - rewrite <- (bitcount_0 (64 - Z.to_nat (BITNUM x))). apply bitcount_ext. intros i Hi.
      rewrite ushr_testbit, Z.land_spec, low_mask_testbit, Z.testbit_0_l by lia.
      rewrite bool_decide_eq_false_2 by lia. apply andb_false_r. }
  rewrite E, <- members_in_word, <- Nat2Z.inj_add, <- length_app, <- members_below_app by lia.
  pose proof (WORDNUM_BITNUM x Hx) as Ex.
  replace (64 * WORDNUM x + Z.to_nat (BITNUM x))%nat with (Z.to_nat x) by lia.
  rewrite <- (size_list_to_set (C := gset Z)) by apply members_below_NoDup.
  do 2 f_equal. apply set_eq. intros y. unfold bms_below.
  rewrite elem_of_list_to_set, elem_of_members_below, elem_of_filter, bms_mem_set by done.
  simpl. split; [intros [? ?]; split; [lia|done]|]. intros [Hy Hw]. split; [|done].
  pose proof (wmem_bound ws y Hok Hw). lia.
Qed.

(** * Singletons *)

Lemma swrap_mod w x : 0 < w -> swrap w x mod 2 ^ w = x mod 2 ^ w.
Proof.
  intros Hw. unfold swrap.
  rewrite Zminus_mod_idemp_l. f_equal. lia.
Qed.

Lemma has_multiple_ones_spec x :
  0 < x < 2 ^ 64 -> HAS_MULTIPLE_ONES x = false <-> x = 2 ^ Z.log2 x.
Proof.
  intros Hx. unfold HAS_MULTIPLE_ONES, RIGHTMOST_ONE.
  assert (E : uwrap 64 (Z.land (swrap 64 x) (swrap 64 (- swrap 64 x))) = Z.ldiff x (x - 1)).
  { unfold uwrap. rewrite <- !Z.land_ones by lia. apply Z.bits_inj'. intros n Hn.
    rewrite !Z.land_spec, Z.ldiff_spec.
    destruct (decide (n < 64)) as [Hlt|Hge].
    - rewrite <- (Z.mod_pow2_bits_low (swrap 64 x) 64) by done. rewrite swrap_mod by lia.
      rewrite <- (Z.mod_pow2_bits_low (swrap 64 (- _)) 64) by done. rewrite swrap_mod by lia.
      assert (En : (- swrap 64 x) mod 2 ^ 64 = (- x) mod 2 ^ 64).
      { rewrite <- (Z.sub_0_l (swrap _ _)), <- (Z.sub_0_l x).
        by rewrite <- Zminus_mod_idemp_r, swrap_mod, Zminus_mod_idemp_r by lia. }
      rewrite En, !Z.mod_pow2_bits_low, Z.ones_spec_low, andb_true_r by lia.
      f_equal. replace (- x) with (Z.lnot (x - 1)) by (unfold Z.lnot; lia).
      by apply Z.lnot_spec.
    - rewrite Z.ones_spec_high, andb_false_r by lia.
      by rewrite (in_u_testbit_high 64 x) by (unfold in_u; lia). }
  rewrite E, neqb_false, <- land_pred_pow2 by lia. split; intros H.
  - apply Z.bits_inj'. intros n Hn. rewrite Z.land_spec, Z.testbit_0_l.
    assert (Ht : Z.testbit (Z.ldiff x (x - 1)) n = Z.testbit x n) by (by rewrite H).
    rewrite Z.ldiff_spec in Ht. by destruct (Z.testbit x n), (Z.testbit (x - 1) n).
  - apply Z.bits_inj'. intros n Hn. rewrite Z.ldiff_spec.
    assert (Ht : Z.testbit (Z.land x (x - 1)) n = false) by (by rewrite H, Z.testbit_0_l).
    rewrite Z.land_spec in Ht. by destruct (Z.testbit x n), (Z.testbit (x - 1) n).
Qed.

(** The members held by word [k]. *)
Definition word_members (ws : list Z) (k : nat) : list Z :=
  filter (fun x => wmem ws x = true) (Z.of_nat <$> seq (64 * k) 64).

Lemma members_below_S ws k :
  members_below ws (64 * S k) = members_below ws (64 * k) ++ word_members ws k.
Proof. replace (64 * S k)%nat with (64 * k + 64)%nat by lia. apply members_below_app. Qed.

Lemma elem_of_word_members ws k y :
  y ∈ word_members ws k <->
  exists b, 0 <= b < 64 /\ y = 64 * Z.of_nat k + b /\ Z.testbit (rd ws k) b = true.
Proof.
  unfold word_members. rewrite list_elem_of_filter, list_elem_of_fmap. split.
  - intros [Hm (j & -> & Hj%elem_of_seq)]. exists (Z.of_nat j - 64 * Z.of_nat k).
    split; [lia|]. split; [lia|]. rewrite <- wmem_at by lia.
    by replace (64 * Z.of_nat k + (Z.of_nat j - 64 * Z.of_nat k)) with (Z.of_nat j) by lia.
  - intros (b & Hb & -> & Ht). split; [by rewrite wmem_at|].
    exists (64 * k + Z.to_nat b)%nat. split; [lia|]. apply elem_of_seq. lia.
Qed.

Lemma word_members_NoDup ws k : NoDup (word_members ws k).
Proof. apply NoDup_filter, NoDup_fmap_2; [apply _|apply NoDup_seq]. Qed.

Lemma word_members_zero ws k : rd ws k = 0 -> word_members ws k = [].
Proof.
  intros E. apply elem_of_nil_inv. intros y Hy.
  apply elem_of_word_members in Hy as (b & _ & _ & Ht). by rewrite E, Z.testbit_0_l in Ht.
Qed.

Lemma word_pos ws k : words_ok ws -> rd ws k <> 0 -> 0 < rd ws k < 2 ^ 64.
Proof. intros Hok Hnz. pose proof (rd_in_u ws k Hok) as H. unfold in_u in H. lia. Qed.

Lemma word_members_single ws k :
  words_ok ws -> rd ws k <> 0 -> HAS_MULTIPLE_ONES (rd ws k) = false ->
  word_members ws k = [Z.of_nat k * BITS_PER_BITMAPWORD + bmw_rightmost_one_pos (rd ws k)].
Proof.
  intros Hok Hnz Hm. pose proof (word_pos ws k Hok Hnz) as Hw.
  apply has_multiple_ones_spec in Hm; [|done].
  destruct (pg_rightmost_one_pos64_lowest _ Hw) as (Hr0 & Hr & _).
  assert (Hr64 : 0 <= pg_rightmost_one_pos64 (rd ws k) < 64)
    by (apply (testbit_true_lt 64 (rd ws k)); auto with pg; lia).
  assert (Hall : forall b, 0 <= b -> Z.testbit (rd ws k) b = true -> b = Z.log2 (rd ws k)).
  { intros b Hb Ht. rewrite Hm in Ht. rewrite Z.pow2_bits_eqb in Ht by apply Z.log2_nonneg.
    apply Z.eqb_eq in Ht. done. }
  apply Permutation_singleton_r, NoDup_Permutation;
    [apply word_members_NoDup|apply NoDup_singleton|].
  intros y. rewrite elem_of_word_members, list_elem_of_singleton.
  unfold BITS_PER_BITMAPWORD, bmw_rightmost_one_pos. split.
  - intros (b & Hb & -> & Ht). rewrite (Hall b), <- (Hall _ Hr0 Hr) by (done || lia). lia.
  - intros ->. exists (pg_rightmost_one_pos64 (rd ws k)). split; [done|]. split; [lia|done].
Qed.

Lemma word_members_multiple ws k :
  words_ok ws -> rd ws k <> 0 -> HAS_MULTIPLE_ONES (rd ws k) = true ->
  (2 <= length (word_members ws k))%nat.
Proof.
  intros Hok Hnz Hm. pose proof (word_pos ws k Hok Hnz) as Hw.
  assert (Hne : rd ws k <> 2 ^ Z.log2 (rd ws k)).
  { intros E. apply has_multiple_ones_spec in E; [|done]. by rewrite E in Hm. }
  set (h := Z.log2 (rd ws k)) in *. pose proof (Z.log2_nonneg (rd ws k)) as Hh0. fold h in Hh0.
  assert (Hh : Z.testbit (rd ws k) h = true) by (apply Z.bit_log2; lia).
  destruct (nonzero_testbit (Z.lxor (rd ws k) (2 ^ h))) as (b & Hb0 & Hb).
  { apply Z.lxor_nonneg. pose proof (Z.pow_pos_nonneg 2 h); lia. }
  { intros E. by apply Z.lxor_eq in E. }
  rewrite Z.lxor_spec, Z.pow2_bits_eqb in Hb by done.
  destruct (Z.eqb_spec h b) as [->|Hhb]; [by rewrite Hh in Hb|].
  rewrite xorb_false_r in Hb.
  assert (Hlt : forall j, Z.testbit (rd ws k) j = true -> 0 <= j < 64)
    by (intros j Hj; apply (testbit_true_lt 64 (rd ws k)); auto with pg; lia).
  change 2%nat with (length [64 * Z.of_nat k + h; 64 * Z.of_nat k + b]).
  apply submseteq_length, NoDup_submseteq.
  - apply NoDup_cons. split; [rewrite list_elem_of_singleton; lia|apply NoDup_singleton].
  - intros y Hy. apply elem_of_word_members.
    apply elem_of_cons in Hy as [->|Hy%list_elem_of_singleton]; [exists h|subst y; exists b];
      (split; [by apply Hlt|done]).
Qed.

(** The scan shared by [bms_singleton_member], [bms_get_singleton_member] and
    [bms_membership]: what has been seen below word [k]. *)
Definition seen (ws : list Z) (k : nat) (r : Z) : Prop :=
  (r = -1 /\ members_below ws (64 * k) = []) \/
  (0 <= r /\ members_below ws (64 * k) = [r]).

Lemma seen_step ws k r :
  words_ok ws -> seen ws k r ->
  if negb (rd ws k =? 0) then
    if (0 <=? r) || HAS_MULTIPLE_ONES (rd ws k)
    then (2 <= length (members_below ws (64 * S k)))%nat
    else seen ws (S k) (Z.of_nat k * BITS_PER_BITMAPWORD + bmw_rightmost_one_pos (rd ws k))
  else seen ws (S k) r.
Proof.
  intros Hok Hs. unfold seen. rewrite members_below_S.
  destruct (Z.eqb_spec (rd ws k) 0) as [E|E]; simpl negb; cbv iota.
  { rewrite (word_members_zero ws k E), app_nil_r. done. }
  destruct (HAS_MULTIPLE_ONES (rd ws k)) eqn:Hm.
  { rewrite orb_true_r, length_app. pose proof (word_members_multiple ws k Hok E Hm). lia. }
  rewrite (word_members_single ws k Hok E Hm), orb_false_r.
  destruct Hs as [[-> ->]|[Hr ->]].
  - simpl. right. split; [|done].
    pose proof (word_pos ws k Hok E) as Hw.
    destruct (pg_rightmost_one_pos64_lowest _ Hw) as (Hr0 & _). unfold bmw_rightmost_one_pos,
      BITS_PER_BITMAPWORD. lia.
  - rewrite (proj2 (Z.leb_le 0 r)) by done. simpl. lia.
Qed.

Lemma members_below_mono ws n m :
  (n <= m)%nat -> (length (members_below ws n) <= length (members_below ws m))%nat.
Proof.
  intros H. replace m with (n + (m - n))%nat by lia. rewrite members_below_app, length_app. lia.
Qed.

(** The generic outcome: [multi] is what the loop returns on a second member and
    [upd] the state it keeps for the member [r] found so far ([-1] for none). *)
Lemma seen_scan {R} (multi : R) ws :
  words_ok ws ->
  match for_up_ret (length ws) 0 (fun k r =>
          if negb (rd ws k =? 0) then
            if (0 <=? r) || HAS_MULTIPLE_ONES (rd ws k) then Return multi
            else Next (Z.of_nat k * BITS_PER_BITMAPWORD + bmw_rightmost_one_pos (rd ws k))
          else Next r) (-1) with
  | Next r => seen ws (length ws) r
  | Return x => x = multi /\ (2 <= length (members_below ws (64 * length ws)))%nat
  end.
Proof.
  intros Hok. apply (for_up_ret_ind (seen ws)); [by left|]. intros k r Hk Hs.
  pose proof (seen_step ws k r Hok Hs) as H.
  destruct (negb _); [|done]. destruct (_ || _); [|done]. split; [done|].
  etransitivity; [apply H|]. apply members_below_mono. lia.
Qed.

Lemma bms_set_Some ws :
  bms_set (Some (mkBitmapset ws)) = list_to_set (members_below ws (64 * length ws)).
Proof. done. Qed.

Lemma bms_singleton_member_spec a :
  bms_wf a ->
  (exists m, bms_singleton_member a = Ok m /\ bms_set a = {[m]}) \/
  (bms_singleton_member a = Err "bitmapset is empty" /\ bms_set a = ∅) \/
  (bms_singleton_member a = Err "bitmapset has multiple members" /\ (2 <= size (bms_set a))%nat).
Proof.
  destruct a as [[ws]|]; [|by right; left]. intros [Hok _]. simpl words in *.
  rewrite bms_set_Some. unfold bms_singleton_member, nwords; simpl words.
  pose proof (seen_scan (Err "bitmapset has multiple members" : res Z) ws Hok) as H.
  destruct (for_up_ret _ _ _ _) as [r|x]; simpl after.
  - destruct H as [[-> E]|[Hr E]]; rewrite E.
    + right; left. done.
    + left. exists r. rewrite (proj2 (Z.ltb_ge r 0)) by done. split; [done|].
      simpl. set_solver.
  - destruct H as [-> H]. right; right. split; [done|].
    by rewrite size_list_to_set by apply members_below_NoDup.
Qed.

Lemma bms_get_singleton_member_spec a m :
  bms_wf a -> bms_get_singleton_member a = Some m <-> bms_set a = {[m]}.
Proof.
  destruct a as [[ws]|]; [|intros _; split; [done|]; intros E; exfalso; simpl in E; set_solver].
  intros [Hok _]. simpl words in *.
  rewrite bms_set_Some. unfold bms_get_singleton_member, nwords; simpl words.
  pose proof (seen_scan (None : option Z) ws Hok) as H.
  destruct (for_up_ret _ _ _ _) as [r|x]; simpl after.
  - destruct H as [[-> E]|[Hr E]]; rewrite E.
    + split; [done|]. simpl. intros Hs. exfalso. set_solver.
    + rewrite (proj2 (Z.ltb_ge r 0)) by done. simpl. rewrite union_empty_r_L. split; [by intros [= ->]|].
      intros Hs. f_equal. set_solver.
  - destruct H as [-> H]. split; [done|]. intros E. exfalso.
    rewrite <- (size_list_to_set (C := gset Z)) in H by apply members_below_NoDup.
    rewrite E, size_singleton in H. lia.
Qed.

(** The same scan with the three-valued state of [bms_membership]. *)
Lemma membership_scan ws :
  words_ok ws ->
  match for_up_ret (length ws) 0 (fun k r =>
          if negb (rd ws k =? 0) then
            if bool_decide (r <> BMS_EMPTY_SET) || HAS_MULTIPLE_ONES (rd ws k)
            then Return BMS_MULTIPLE else Next BMS_SINGLETON
          else Next r) BMS_EMPTY_SET with
  | Next r => exists r', seen ws (length ws) r' /\
                r = if 0 <=? r' then BMS_SINGLETON else BMS_EMPTY_SET
  | Return x => x = BMS_MULTIPLE /\ (2 <= length (members_below ws (64 * length ws)))%nat
  end.
Proof.
  intros Hok. apply (for_up_ret_ind (fun k r => exists r', seen ws k r' /\
       r = if 0 <=? r' then BMS_SINGLETON else BMS_EMPTY_SET)); [by exists (-1); split; [left|]|].
  intros k r Hk (r' & Hs & Er). pose proof (seen_step ws k r' Hok Hs) as H.
  assert (E : bool_decide (r <> BMS_EMPTY_SET) = (0 <=? r')) by (subst r; by destruct (0 <=? r')).
  rewrite E. destruct (negb _); [|by exists r'].
  destruct ((0 <=? r') || _) eqn:Eo.
  - split; [done|]. etransitivity; [apply H|]. apply members_below_mono. lia.
  - eexists. split; [exact H|]. destruct H as [[H _]|[H _]].
    + exfalso. rewrite orb_false_iff in Eo. destruct Eo as [_ Em].
      destruct (Z.eqb_spec (rd ws k) 0) as [Ez|Ez].
      * unfold bmw_rightmost_one_pos, BITS_PER_BITMAPWORD in H. rewrite Ez in H.
        vm_compute (pg_rightmost_one_pos64 0) in H. lia.
      * destruct (pg_rightmost_one_pos64_lowest _ (word_pos ws k Hok Ez)) as (Hr0 & _).
        unfold bmw_rightmost_one_pos, BITS_PER_BITMAPWORD in H. lia.
    + by rewrite (proj2 (Z.leb_le _ _) H).
Qed.

Lemma bms_membership_spec a :
  bms_wf a ->
  bms_membership a = match size (bms_set a) with
                     | O => BMS_EMPTY_SET
                     | S O => BMS_SINGLETON
                     | _ => BMS_MULTIPLE
                     end.
Proof.
  destruct a as [[ws]|]; [|done]. intros [Hok _]. simpl words in *.
  rewrite bms_set_Some. unfold bms_membership, nwords; simpl words.
  rewrite size_list_to_set by apply members_below_NoDup.
  pose proof (membership_scan ws Hok) as H.
  destruct (for_up_ret _ _ _ _) as [r|x]; simpl after.
  - destruct H as (r' & [[-> E]|[Hr E]] & ->); rewrite E; [done|].
    by rewrite (proj2 (Z.leb_le 0 r')).
  - destruct H as [-> H]. by destruct (length _) as [|[|]]; try lia.
Qed.

(** * Iteration *)

Lemma shl_mask_testbit n b :
  0 <= n < 64 -> 0 <= b < 64 ->
  Z.testbit (ushl 64 (wnot 0) n) b = bool_decide (n <= b).
Proof.
  intros Hn Hb. rewrite ushl_testbit by lia. unfold wnot.
  rewrite bool_decide_eq_true_2 by lia. simpl. case_bool_decide.
  - rewrite unot_testbit, Z.testbit_0_l by lia. simpl. apply bool_decide_eq_true_2. lia.
  - apply Z.testbit_neg_r. lia.
Qed.

Lemma wnot_0_testbit b : 0 <= b < 64 -> Z.testbit (wnot 0) b = true.
Proof. intros Hb. by rewrite wnot_testbit, Z.testbit_0_l. Qed.

(** The members of a masked word. *)
Lemma masked_word ws k mask :
  words_ok ws -> in_u 64 mask -> Z.land (rd ws k) mask <> 0 -> 0 < Z.land (rd ws k) mask < 2 ^ 64.
Proof.
  intros Hok Hm Hnz. assert (H : in_u 64 (Z.land (rd ws k) mask)) by auto with pg.
  unfold in_u in H. lia.
Qed.

Lemma masked_word_zero ws k mask b :
  Z.land (rd ws k) mask = 0 -> 0 <= b < 64 -> Z.testbit mask b = true ->
  wmem ws (64 * Z.of_nat k + b) = false.
Proof.
  intros Hz Hb Hm. rewrite wmem_at by done.
  assert (H : Z.testbit (Z.land (rd ws k) mask) b = false) by (by rewrite Hz, Z.testbit_0_l).
  by rewrite Z.land_spec, Hm, andb_true_r in H.
Qed.

(** [r] is the least member of [a] at or above [p], or [-2] when there is none. *)
Definition least_from (ws : list Z) (p r : Z) : Prop :=
  (r = -2 /\ forall y, p <= y -> wmem ws y = false) \/
  (p <= r /\ wmem ws r = true /\ forall y, p <= y < r -> wmem ws y = false).

Lemma next_member_loop ws p :
  words_ok ws -> 0 <= p ->
  match for_up_ret (length ws - WORDNUM p) (WORDNUM p) (fun k mask =>
          if negb (Z.land (rd ws k) mask =? 0)
          then Return (Z.of_nat k * BITS_PER_BITMAPWORD
                       + bmw_rightmost_one_pos (Z.land (rd ws k) mask))
          else Next (wnot 0)) (ushl 64 (wnot 0) (BITNUM p)) with
  | Next _ => forall y, p <= y -> wmem ws y = false
  | Return r => p <= r /\ wmem ws r = true /\ forall y, p <= y < r -> wmem ws y = false
  end.
Proof.
  intros Hok Hp. pose proof (WORDNUM_BITNUM p Hp) as Ep. pose proof (BITNUM_range p Hp) as Hb.
  pose (P := fun k mask => in_u 64 mask /\
    (forall b, 0 <= b < 64 -> Z.testbit mask b = bool_decide (p <= 64 * Z.of_nat k + b)) /\
    (forall y, p <= y < 64 * Z.of_nat k -> wmem ws y = false)).
  match goal with |- match ?l with _ => _ end =>
    assert (H : match l with
      | Next m => P (WORDNUM p + (length ws - WORDNUM p))%nat m
      | Return r => p <= r /\ wmem ws r = true /\ forall y, p <= y < r -> wmem ws y = false
      end); [|destruct l as [m|r]; [|done]] end.
  - apply (for_up_ret_ind P).
    + split; [apply uwrap_range; lia|]. split; [|intros y Hy; lia].
      intros b Hb0. rewrite shl_mask_testbit by done. apply bool_decide_ext. lia.
    + intros k mask Hk (Hr & Hm & Hlow).
      destruct (Z.eqb_spec (Z.land (rd ws k) mask) 0) as [Ez|Ez]; simpl negb; cbv iota.
      * split; [auto with pg|]. split.
        { intros b Hb0. rewrite wnot_0_testbit by done. symmetry. apply bool_decide_eq_true_2. lia. }
        intros y Hy. destruct (decide (y < 64 * Z.of_nat k)); [apply Hlow; lia|].
        replace y with (64 * Z.of_nat k + (y - 64 * Z.of_nat k)) by lia.
        apply (masked_word_zero ws k mask); [done|lia|]. rewrite Hm by lia.
        apply bool_decide_eq_true_2. lia.
      * destruct (pg_rightmost_one_pos64_lowest _ (masked_word ws k mask Hok Hr Ez))
          as (H0 & H1 & H2).
        unfold BITS_PER_BITMAPWORD, bmw_rightmost_one_pos.
        set (r := pg_rightmost_one_pos64 _) in *.
        rewrite Z.land_spec in H1. apply andb_true_iff in H1 as [H1w H1m].
        assert (Hr64 : 0 <= r < 64) by (apply (testbit_true_lt 64 (rd ws k)); auto with pg; lia).
        replace (Z.of_nat k * 64 + r) with (64 * Z.of_nat k + r) by lia.
        rewrite Hm in H1m by done. apply bool_decide_eq_true in H1m.
        split; [done|]. split; [by rewrite wmem_at|]. intros y Hy.
        destruct (decide (y < 64 * Z.of_nat k)); [apply Hlow; lia|].
        specialize (H2 (y - 64 * Z.of_nat k) ltac:(lia)). rewrite Z.land_spec, Hm in H2 by lia.
        rewrite bool_decide_eq_true_2, andb_true_r in H2 by lia. rewrite <- H2.
        rewrite <- wmem_at by lia. f_equal. lia.
  - destruct H as (_ & _ & H). intros y Hy. apply not_true_is_false. intros Hw.
    pose proof (wmem_bound ws y Hok Hw). rewrite H in Hw; [done|lia].
Qed.

Lemma bms_next_member_spec a prevbit :
  bms_wf a -> -1 <= prevbit ->
  let r := bms_next_member a prevbit in
  (r = -2 /\ forall y, prevbit < y -> bms_mem a y = false) \/
  (prevbit < r /\ 0 <= r /\ bms_mem a r = true /\
   forall y, prevbit < y < r -> bms_mem a y = false).
Proof.
  intros Ha Hp. destruct a as [[ws]|]; [|left; done]. destruct Ha as [Hok _].
  unfold bms_next_member, nwords. simpl words in *. simpl bms_mem.
  pose proof (next_member_loop ws (prevbit + 1) Hok ltac:(lia)) as H.
  destruct (for_up_ret _ _ _ _) as [m|r]; simpl after.
  - left. split; [done|]. intros y Hy. apply H. lia.
  - right. destruct H as (H1 & H2 & H3). split; [lia|]. split; [lia|]. split; [done|].
    intros y Hy. apply H3. lia.
Qed.

Lemma prev_member_loop ws p :
  words_ok ws -> 0 <= p ->
  match for_down_ret (WORDNUM p + 1) (fun k mask =>
          if negb (Z.land (rd ws k) mask =? 0)
          then Return (Z.of_nat k * BITS_PER_BITMAPWORD
                       + bmw_leftmost_one_pos (Z.land (rd ws k) mask))
          else Next (wnot 0)) (ushr (wnot 0) (BITS_PER_BITMAPWORD - (BITNUM p + 1))) with
  | Next _ => forall y, y <= p -> wmem ws y = false
  | Return r => r <= p /\ wmem ws r = true /\ forall y, r < y <= p -> wmem ws y = false
  end.
Proof.
  intros Hok Hp. pose proof (WORDNUM_BITNUM p Hp) as Ep. pose proof (BITNUM_range p Hp) as Hb.
  pose (P := fun k mask => in_u 64 mask /\
    (forall b, 0 <= b < 64 -> Z.testbit mask b = bool_decide (64 * (Z.of_nat k - 1) + b <= p)) /\
    (forall y, 64 * Z.of_nat k <= y <= p -> wmem ws y = false)).
  match goal with |- match ?l with _ => _ end =>
    assert (H : match l with
      | Next m => P 0%nat m
      | Return r => r <= p /\ wmem ws r = true /\ forall y, r < y <= p -> wmem ws y = false
      end); [|destruct l as [m|r]; [|done]] end.
  - apply (for_down_ret_ind P).
    + split; [apply ushr_range64; [unfold BITS_PER_BITMAPWORD; lia|auto with pg]|].
      split; [|intros y Hy; lia]. intros b Hb0. unfold BITS_PER_BITMAPWORD.
      rewrite ones_shift_testbit by done. apply bool_decide_ext. lia.
    + intros k mask Hk (Hr & Hm & Hhi).
      destruct (Z.eqb_spec (Z.land (rd ws k) mask) 0) as [Ez|Ez]; simpl negb; cbv iota.
      * split; [auto with pg|]. split.
        { intros b Hb0. rewrite wnot_0_testbit by done. symmetry. apply bool_decide_eq_true_2. lia. }
        intros y Hy. destruct (decide (64 * Z.of_nat (S k) <= y)); [apply Hhi; lia|].
        replace y with (64 * Z.of_nat k + (y - 64 * Z.of_nat k)) by lia.
        apply (masked_word_zero ws k mask); [done|lia|]. rewrite Hm by lia.
        apply bool_decide_eq_true_2. lia.
      * pose proof (masked_word ws k mask Hok Hr Ez) as Hmw.
        unfold BITS_PER_BITMAPWORD, bmw_leftmost_one_pos. rewrite pg_leftmost_one_pos64_log2 by done.
        set (r := Z.log2 _).
        assert (H1 : Z.testbit (Z.land (rd ws k) mask) r = true) by (apply Z.bit_log2; lia).
        rewrite Z.land_spec in H1. apply andb_true_iff in H1 as [H1w H1m].
        assert (Hr64 : 0 <= r < 64) by (apply (testbit_true_lt 64 (rd ws k)); auto with pg; lia).
        replace (Z.of_nat k * 64 + r) with (64 * Z.of_nat k + r) by lia.
        rewrite Hm in H1m by done. apply bool_decide_eq_true in H1m.
        split; [lia|]. split; [by rewrite wmem_at|]. intros y Hy.
        destruct (decide (64 * Z.of_nat (S k) <= y)); [apply Hhi; lia|].
        assert (H2 : Z.testbit (Z.land (rd ws k) mask) (y - 64 * Z.of_nat k) = false).
        { apply Z.bits_above_log2; fold r; lia. }
        rewrite Z.land_spec, Hm in H2 by lia.
        rewrite bool_decide_eq_true_2, andb_true_r in H2 by lia. rewrite <- H2.
        rewrite <- wmem_at by lia. f_equal. lia.
  - destruct H as (_ & _ & H). intros y Hy. destruct (decide (y < 0)); [by apply wmem_neg|].
    apply H. lia.
Qed.

(** The bound below which [bms_prev_member] looks. *)
Definition prev_bound (a : option Bitmapset) (prevbit : Z) : Z :=
  if prevbit =? -1 then 64 * match a with None => 0 | Some a => Z.of_nat (nwords a) end
  else prevbit.

Lemma bms_prev_member_spec a prevbit :
  bms_wf a -> -1 <= prevbit <= prev_bound a (-1) ->
  let r := bms_prev_member a prevbit in
  (r = -2 /\ forall y, y < prev_bound a prevbit -> bms_mem a y = false) \/
  (0 <= r < prev_bound a prevbit /\ bms_mem a r = true /\
   forall y, r < y < prev_bound a prevbit -> bms_mem a y = false).
Proof.
  intros Ha Hp. destruct a as [[ws]|]; [|left; done]. destruct Ha as [Hok [x Hx]].
  unfold bms_prev_member, prev_bound, nwords in *. simpl words in *. simpl bms_mem.
  pose proof (wmem_bound ws x Hok Hx) as Hlen.
  destruct (Z.eqb_spec prevbit 0) as [->|Hnz].
  { left. split; [done|]. intros y Hy. apply wmem_neg. done. }
  set (p := if prevbit =? -1 then _ else _).
  assert (Hp0 : 0 <= p) by (unfold p, BITS_PER_BITMAPWORD; destruct (Z.eqb_spec prevbit (-1)); lia).
  replace (if prevbit =? -1 then 64 * Z.of_nat (length ws) else prevbit) with (p + 1)
    by (unfold p, BITS_PER_BITMAPWORD; destruct (Z.eqb_spec prevbit (-1)); lia).
  pose proof (prev_member_loop ws p Hok Hp0) as H.
  destruct (for_down_ret _ _ _) as [m|r]; simpl after.
  - left. split; [done|]. intros y Hy. apply H. lia.
  - right. destruct H as (H1 & H2 & H3). pose proof (wmem_bound ws r Hok H2).
    split; [lia|]. split; [done|]. intros y Hy. apply H3. lia.
Qed.

(** The iteration pattern of the header comment:
    [x = -1; while ((x = bms_next_member(a, x)) >= 0) process x;] *)
Fixpoint bms_iterate (fuel : nat) (a : option Bitmapset) (x : Z) : list Z :=
  match fuel with
  | O => []
  | S f => let x := bms_next_member a x in
           if 0 <=? x then x :: bms_iterate f a x else []
  end.

Lemma bms_iterate_spec fuel a x :
  bms_wf a -> -1 <= x -> (size (filter (fun y => (x < y)%Z) (bms_set a)) < fuel)%nat ->
  StronglySorted Z.lt (bms_iterate fuel a x) /\
  forall y, y ∈ bms_iterate fuel a x <-> x < y /\ bms_mem a y = true.
Proof.
  intros Ha. revert x; induction fuel as [|f IH]; intros x Hx Hf; [lia|]. simpl.
  destruct (bms_next_member_spec a x Ha Hx) as [[-> Hn]|(H1 & H2 & H3 & H4)].
  - simpl. split; [constructor|]. intros y. split; [by intros ?%elem_of_nil|].
    intros [Hy Hm]. by rewrite Hn in Hm.
  - set (r := bms_next_member a x) in *. rewrite (proj2 (Z.leb_le 0 r)) by done.
    assert (Hsz : (size (filter (fun y => (r < y)%Z) (bms_set a)) <
                   size (filter (fun y => (x < y)%Z) (bms_set a)))%nat).
    { apply subset_size. split.
      - intros y. rewrite !elem_of_filter. intros [? ?]. split; [lia|done].
      - intros Hsub. specialize (Hsub r). rewrite !elem_of_filter, bms_mem_set in Hsub by done.
        destruct Hsub; [done|lia]. }
    destruct (IH r ltac:(lia) ltac:(lia)) as [IHs IHm]. split.
    + constructor; [done|]. apply Forall_forall. intros y Hy. apply IHm in Hy. lia.
    + intros y. rewrite elem_of_cons, IHm. split.
      * intros [->|[? ?]]; (split; [lia|done]).
      * intros [Hy Hm]. destruct (decide (y = r)); [by left|right]. split; [|done].
        destruct (decide (y < r)); [|lia]. by rewrite H4 in Hm by lia.
Qed.

(** * Hashing and lists *)

Lemma take_rd_eq (wa wb : list Z) n :
  (n <= length wa)%nat -> (n <= length wb)%nat ->
  (forall i, rd wa i = rd wb i) -> take n wa = take n wb.
Proof.
  intros Ha Hb H. apply rd_ext; [rewrite !length_take; lia|]. intros i Hi.
  rewrite length_take in Hi. rewrite !rd_take by lia. apply H.
Qed.

(** The hash is that of the words up to the highest nonzero one. *)
Lemma hash_loop h ws k :
  rd ws k <> 0 -> (forall j, (k < j)%nat -> rd ws j = 0) ->
  forall n, (k < n)%nat ->
  for_down_ret n (fun i (u : unit) => if negb (rd ws i =? 0)
     then Return (h (words_bytes (take (i + 1) ws))) else Next u) tt =
  Return (h (words_bytes (take (k + 1) ws))) :> flow unit Z.
Proof.
  intros Hk Hz n. induction n as [|n IH]; intros Hn; [lia|]. simpl.
  destruct (decide (n = k)) as [->|Hne].
  - by rewrite (proj2 (neqb_true (rd ws k) 0)).
  - rewrite (Hz n) by lia. simpl. apply IH. lia.
Qed.

Lemma bms_hash_value_eq h wa wb x :
  words_ok wa -> words_ok wb -> wmem wa x = true -> (forall i, rd wa i = rd wb i) ->
  bms_hash_value h (Some (mkBitmapset wa)) = bms_hash_value h (Some (mkBitmapset wb)).
Proof.
  intros Ha Hb Hx H. destruct (wmem_true wa x Ha Hx) as (i & b & _ & _ & _ & Ht).
  destruct (highest_nonzero_word wa i) as (k & _ & Hk & Hz).
  { intros E. by rewrite E, Z.testbit_0_l in Ht. }
  assert (Hla : (k < length wa)%nat).
  { destruct (decide (k < length wa)%nat); [done|]. by rewrite rd_ge in Hk by lia. }
  assert (Hlb : (k < length wb)%nat).
  { destruct (decide (k < length wb)%nat); [done|]. by rewrite H, rd_ge in Hk by lia. }
  unfold bms_hash_value, nwords; simpl words.
  rewrite (hash_loop h wa k), (hash_loop h wb k); [| |intros j Hj; rewrite <- H; by apply Hz| | | |];
    [|by rewrite <- H|done|done|done|done].
  simpl. by rewrite (take_rd_eq wa wb) by (done || lia).
Qed.

Lemma overlap_list_spec a l :
  bms_wf (Some a) -> Forall (fun x => 0 <= x) l ->
  overlap_list_loop a l = Ok (existsb (bms_mem (Some a)) l).
Proof.
  intros Ha. induction 1 as [|x l Hx _ IH]; [done|]. simpl.
  rewrite (proj2 (Z.ltb_ge x 0)) by done. destruct Ha as [Hok _].
  rewrite (wmem_WORDNUM (words a) x Hx).
  rewrite land_wbit_nonzero by (auto with pg; by apply BITNUM_range).
  destruct (Nat.ltb_spec (WORDNUM x) (nwords a)) as [|Hge]; simpl.
  - destruct (Z.testbit _ _); simpl; [done|exact IH].
  - rewrite rd_ge, Z.testbit_0_l by done. exact IH.
Qed.

(** * Sets of the results *)

Lemma bms_set_ext a X : bms_wf a -> (forall x, bms_mem a x = true <-> x ∈ X) -> bms_set a = X.
Proof. intros Ha H. apply set_eq. intros x. by rewrite bms_mem_set, H. Qed.

(** [bms_sets] reduces an equation between denoted sets to membership. *)
Ltac bms_sets :=
  apply bms_set_ext; [by auto|];
  let x := fresh "x" in
  intros x;
  rewrite ?elem_of_union, ?elem_of_intersection, ?elem_of_difference, ?elem_of_singleton,
    ?bms_mem_set by done.

(** The operations respect the equivalence of representations. *)
#[export] Instance bms_mem_proper : Proper ((≡) ==> eq ==> eq) bms_mem.
Proof. intros a b H x y ->. apply H. Qed.
#[export] Instance bms_union_proper : Proper ((≡) ==> (≡) ==> (≡)) bms_union.
Proof. intros a a' Ha b b' Hb x. rewrite !bms_union_mem. by rewrite Ha, Hb. Qed.
#[export] Instance bms_add_members_proper : Proper ((≡) ==> (≡) ==> (≡)) bms_add_members.
Proof. intros a a' Ha b b' Hb x. rewrite !bms_add_members_mem. by rewrite Ha, Hb. Qed.
