(* ===== verification/BitmapsetProps.v ===== *)
(** The properties of src/backend/nodes/bitmapset.c, as theorems over the denoted
    finite sets, each with a concrete instance. *)

From S2P Require Import Prelude BitUtils Bitmapset BitmapsetSpec.

Local Open Scope Z_scope.

(** * Properties *)

(** C36: the set operations refine the operations on finite sets of integers:
    for well-formed inputs each returns a well-formed value (in particular NULL
    exactly for an empty result) that denotes the union, intersection or
    difference, in the allocating and in the recycling variants. *)
Theorem bms_set_operations_refine (a b : option Bitmapset) :
  bms_wf a -> bms_wf b ->
  (bms_wf (bms_union a b) /\ bms_set (bms_union a b) = bms_set a ∪ bms_set b) /\
  (bms_wf (bms_intersect a b) /\ bms_set (bms_intersect a b) = bms_set a ∩ bms_set b) /\
  (bms_wf (bms_difference a b) /\ bms_set (bms_difference a b) = bms_set a ∖ bms_set b) /\
  (bms_wf (bms_add_members a b) /\ bms_set (bms_add_members a b) = bms_set a ∪ bms_set b) /\
  (bms_wf (bms_int_members a b) /\ bms_set (bms_int_members a b) = bms_set a ∩ bms_set b) /\
  (bms_wf (bms_del_members a b) /\ bms_set (bms_del_members a b) = bms_set a ∖ bms_set b) /\
  (bms_wf (bms_join a b) /\ bms_set (bms_join a b) = bms_set a ∪ bms_set b).
Proof.
  intros Ha Hb. rewrite bms_join_add_members.
  destruct (bms_intersect_spec a b Ha Hb) as [W1 M1].
  destruct (bms_difference_spec a b Ha Hb) as [W2 M2].
  destruct (bms_int_members_spec a b Ha Hb) as [W3 M3].
  destruct (bms_del_members_spec a b Ha Hb) as [W4 M4].
  pose proof (bms_union_wf a b Ha Hb). pose proof (bms_add_members_wf a b Ha Hb).
  repeat split; try done; bms_sets.
  - by rewrite bms_union_mem, orb_true_iff.
  - by rewrite M1, andb_true_iff.
  - by rewrite M2, andb_true_iff, negb_true_iff, not_true_iff_false.
  - by rewrite bms_add_members_mem, orb_true_iff.
  - by rewrite M3, andb_true_iff.
  - by rewrite M4, andb_true_iff, negb_true_iff, not_true_iff_false.
  - by rewrite bms_add_members_mem, orb_true_iff.
Qed.

Lemma wf_example_3 : bms_wf (Some (mkBitmapset [8; 0])).
Proof.
  split; [repeat constructor; simpl; lia|]. by exists 3.
Qed.
Lemma wf_example_3_70 : bms_wf (Some (mkBitmapset [8; 64])).
Proof.
  split; [repeat constructor; simpl; lia|]. by exists 70.
Qed.

Lemma bms_set_operations_refine_witness :
  bms_set (bms_difference (Some (mkBitmapset [8; 64])) (Some (mkBitmapset [8; 0]))) =
  bms_set (Some (mkBitmapset [8; 64])) ∖ bms_set (Some (mkBitmapset [8; 0])) /\
  bms_difference (Some (mkBitmapset [8; 64])) (Some (mkBitmapset [8; 0])) =
  Some (mkBitmapset [0; 64]).
Proof.
  split; [|vm_compute; reflexivity].
  exact (proj2 (proj1 (proj2 (proj2 (bms_set_operations_refine _ _
    wf_example_3_70 wf_example_3))))).
Defined.

(** The single-member operations refine insertion, removal and membership: on
    a nonnegative member they return normally, keep the representation
    invariant and denote the expected set; a range insertion adds exactly the
    integers of the range, and an empty range changes nothing. *)
Theorem bms_member_operations_refine (a : option Bitmapset) (x upper : Z) :
  bms_wf a -> 0 <= x ->
  (exists s, bms_make_singleton x = Ok s /\ bms_wf s /\ bms_set s = {[x]}) /\
  (exists a', bms_add_member a x = Ok a' /\ bms_wf a' /\ bms_set a' = {[x]} ∪ bms_set a) /\
  (exists a', bms_del_member a x = Ok a' /\ bms_wf a' /\ bms_set a' = bms_set a ∖ {[x]}) /\
  (exists a', bms_add_range a x upper = Ok a' /\ bms_wf a' /\
     forall y, y ∈ bms_set a' <-> x <= y <= upper \/ y ∈ bms_set a) /\
  bms_is_member x a = Ok (bool_decide (x ∈ bms_set a)).
Proof.
  intros Ha Hx.
  destruct (bms_make_singleton_spec x) as [[_ ?]|(s & E1 & _ & W1 & M1)]; [lia|].
  destruct (bms_add_member_spec a x Ha Hx) as (a2 & E2 & W2 & M2).
  destruct (bms_del_member_spec a x Ha Hx) as (a3 & E3 & W3 & M3).
  split; [exists s; split; [done|]; split; [done|]; bms_sets; by rewrite M1, bool_decide_eq_true|].
  split; [exists a2; split; [done|]; split; [done|]; bms_sets;
          by rewrite M2, orb_true_iff, bool_decide_eq_true|].
  split.
  { exists a3. split; [done|]. split; [done|]. bms_sets.
    rewrite M3, andb_true_iff, negb_true_iff, bool_decide_eq_false. naive_solver. }
  split.
  { destruct (decide (x <= upper)) as [Hle|Hgt].
    - destruct (bms_add_range_spec a x upper Ha ltac:(lia)) as (a4 & E4 & W4 & M4).
      exists a4. split; [done|]. split; [done|]. intros y.
      by rewrite !bms_mem_set, M4, orb_true_iff, bool_decide_eq_true by done.
    - exists a. split; [unfold bms_add_range; by rewrite (proj2 (Z.ltb_lt upper x)) by lia|].
      split; [done|]. intros y. split; [by right|]. intros [?|?]; [lia|done]. }
  rewrite bms_is_member_spec by done. rewrite (proj2 (Z.ltb_ge x 0)) by done. f_equal.
  symmetry. destruct (bms_mem a x) eqn:E.
  - apply bool_decide_eq_true_2. by apply bms_mem_set.
  - apply bool_decide_eq_false_2. by rewrite bms_mem_set, E.
Qed.

Lemma bms_member_operations_refine_witness :
  (exists a', bms_add_member (Some (mkBitmapset [8; 64])) 200 = Ok a' /\ bms_wf a' /\
     bms_set a' = {[200]} ∪ bms_set (Some (mkBitmapset [8; 64]))) /\
  bms_add_member (Some (mkBitmapset [8; 64])) 200 = Ok (Some (mkBitmapset [8; 64; 0; 256])).
Proof.
  split; [|vm_compute; reflexivity].
  exact (proj1 (proj2 (bms_member_operations_refine _ 200 0 wf_example_3_70 ltac:(lia)))).
Defined.

(** Every operation that takes a member raises the documented error for a
    negative one and for nothing else: on a negative integer all of them fail
    with the same message (the range insertion unless the range is empty), and a
    list overlap test fails at the first negative element it reaches. *)
Theorem bms_negative_member_error (a : option Bitmapset) (x upper : Z) (l1 l2 : list Z) :
  bms_wf a -> x < 0 -> Forall (fun y => 0 <= y) l1 ->
  bms_make_singleton x = Err negative_member /\
  bms_add_member a x = Err negative_member /\
  bms_del_member a x = Err negative_member /\
  bms_is_member x a = Err negative_member /\
  bms_member_index a x = Err negative_member /\
  bms_add_range a x upper = (if upper <? x then Ok a else Err negative_member) /\
  bms_overlap_list a l1 = Ok (existsb (bms_mem a) l1) /\
  bms_overlap_list a (l1 ++ x :: l2) =
    (if bool_decide (a = None) then Ok false
     else if existsb (bms_mem a) l1 then Ok true else Err negative_member).
Proof.
  intros Ha Hx Hl. apply Z.ltb_lt in Hx as Hb.
  unfold bms_make_singleton, bms_add_member, bms_del_member, bms_member_index,
    bms_is_member, bms_add_range. rewrite Hb. repeat split.
  - destruct a as [a|]; simpl; [|by induction l1 as [|y l1 IH]; [|simpl; inversion Hl; auto]].
    destruct l1 as [|y l1]; [done|]. by apply overlap_list_spec.
  - destruct a as [a|]; [|done]. rewrite bool_decide_eq_false_2 by done.
    assert (E : bms_overlap_list (Some a) (l1 ++ x :: l2) = overlap_list_loop a (l1 ++ x :: l2))
      by (by destruct l1).
    rewrite E. clear E. induction Hl as [|y l1 Hy Hl IH]; simpl; [by rewrite Hb|].
    rewrite (proj2 (Z.ltb_ge y 0)) by done. rewrite (wmem_WORDNUM (words a) y Hy).
    rewrite land_wbit_nonzero by (try apply BITNUM_range; try done; apply rd_in_u, Ha).
    destruct (Nat.ltb_spec (WORDNUM y) (nwords a)); simpl.
    + by destruct (Z.testbit _ _).
    + by rewrite rd_ge, Z.testbit_0_l.
Qed.

Lemma bms_negative_member_error_witness :
  bms_overlap_list (Some (mkBitmapset [8; 64])) ([5] ++ (-1) :: [3]) = Err negative_member.
Proof.
  refine (eq_trans (proj2 (proj2 (proj2 (proj2 (proj2 (proj2 (proj2
    (bms_negative_member_error (Some (mkBitmapset [8; 64])) (-1) 0 [5] [3] wf_example_3_70
       ltac:(lia) ltac:(repeat constructor; lia))))))))) _).
  vm_compute. reflexivity.
Defined.

(** The predicates decide what they are named for: logical equality (across
    representations with different numbers of words), inclusion, overlap,
    nonempty difference; and [bms_subset_compare] agrees with testing inclusion
    in both directions. *)
Theorem bms_predicates_decide (a b : option Bitmapset) :
  bms_wf a -> bms_wf b ->
  (bms_equal a b = true <-> bms_set a = bms_set b) /\
  (bms_is_subset a b = true <-> bms_set a ⊆ bms_set b) /\
  (bms_overlap a b = true <-> bms_set a ∩ bms_set b <> ∅) /\
  (bms_nonempty_difference a b = true <-> ~ bms_set a ⊆ bms_set b) /\
  bms_subset_compare a b =
    (if decide (bms_set a ⊆ bms_set b)
     then if decide (bms_set b ⊆ bms_set a) then BMS_EQUAL else BMS_SUBSET1
     else if decide (bms_set b ⊆ bms_set a) then BMS_SUBSET2 else BMS_DIFFERENT).
Proof.
  intros Ha Hb.
  assert (Hsub : forall a b, bms_wf a -> bms_wf b ->
    bms_is_subset a b = true <-> bms_set a ⊆ bms_set b).
  { clear. intros a b Ha Hb. rewrite bms_is_subset_spec by done. split; intros H x.
    - rewrite !bms_mem_set by done. apply H.
    - rewrite <- !bms_mem_set by done. apply H. }
  split; [rewrite bms_equal_spec by done; by apply bms_equiv_set|].
  split; [by apply Hsub|]. split.
  { rewrite bms_overlap_spec by done. split.
    - intros (x & H1 & H2) E. rewrite <- bms_mem_set in H1, H2 by done. set_solver.
    - intros H. apply set_choose_L in H as [x Hx]. exists x.
      rewrite <- !bms_mem_set by done. set_solver. }
  split.
  { pose proof (bms_nonempty_difference_spec a b Ha Hb) as H.
    rewrite <- Hsub, bms_is_subset_spec by done.
    destruct (bms_nonempty_difference a b); split; try done.
    destruct H as (x & H1 & H2). intros _ Hall. by rewrite Hall in H2. }
  rewrite bms_subset_compare_eq.
  pose proof (Hsub a b Ha Hb) as H1. pose proof (Hsub b a Hb Ha) as H2.
  destruct (bms_is_subset a b), (bms_is_subset b a); repeat case_decide; naive_solver.
Qed.

Lemma bms_predicates_decide_witness :
  bms_subset_compare (Some (mkBitmapset [8; 0])) (Some (mkBitmapset [8; 64])) =
    (if decide (bms_set (Some (mkBitmapset [8; 0])) ⊆ bms_set (Some (mkBitmapset [8; 64])))
     then if decide (bms_set (Some (mkBitmapset [8; 64])) ⊆ bms_set (Some (mkBitmapset [8; 0])))
          then BMS_EQUAL else BMS_SUBSET1
     else if decide (bms_set (Some (mkBitmapset [8; 64])) ⊆ bms_set (Some (mkBitmapset [8; 0])))
          then BMS_SUBSET2 else BMS_DIFFERENT) /\
  bms_subset_compare (Some (mkBitmapset [8; 0])) (Some (mkBitmapset [8; 64])) = BMS_SUBSET1.
Proof.
  split; [|vm_compute; reflexivity].
  exact (proj2 (proj2 (proj2 (proj2 (bms_predicates_decide _ _ wf_example_3 wf_example_3_70))))).
Defined.

(** [bms_compare] is a total order on sets, decided by the highest-numbered bit
    that is in one set and not the other: it returns 0 exactly for equal sets, 1
    when that bit is in the first set and -1 when it is in the second, and
    swapping the arguments negates it. *)
Theorem bms_compare_order (a b : option Bitmapset) :
  bms_wf a -> bms_wf b ->
  (bms_compare a b = 0 <-> bms_set a = bms_set b) /\
  (bms_compare a b = 1 <-> dominates (bms_mem a) (bms_mem b)) /\
  (bms_compare a b = -1 <-> dominates (bms_mem b) (bms_mem a)) /\
  bms_compare b a = - bms_compare a b.
Proof.
  intros Ha Hb.
  assert (Hne : forall a b, a ≡ b -> ~ dominates (bms_mem a) (bms_mem b)).
  { intros a' b' E (x & H1 & H2 & _). rewrite E in H1. congruence. }
  pose proof (Hne a b) as N1. pose proof (Hne b a) as N2.
  pose proof (dominates_asym (bms_mem a) (bms_mem b)) as N3.
  assert (Hsym : a ≡ b <-> b ≡ a) by (split; intros E; by symmetry).
  rewrite <- bms_equiv_set by done.
  destruct (bms_compare_spec a b Ha Hb) as [[-> E1]|[[-> E1]|[-> E1]]],
    (bms_compare_spec b a Hb Ha) as [[-> E2]|[[-> E2]|[-> E2]]];
    try (exfalso; tauto); (split; [|split; [|split]]); try done; split; (done || tauto).
Qed.

Lemma bms_compare_order_witness :
  bms_compare (Some (mkBitmapset [8; 0])) (Some (mkBitmapset [8; 64])) = -1 /\
  bms_compare (Some (mkBitmapset [8; 64])) (Some (mkBitmapset [8; 0])) =
  - bms_compare (Some (mkBitmapset [8; 0])) (Some (mkBitmapset [8; 64])).
Proof.
  split; [vm_compute; reflexivity|].
  exact (proj2 (proj2 (proj2 (bms_compare_order _ _ wf_example_3 wf_example_3_70)))).
Defined.

(** Counting: [bms_num_members] is the cardinality, [bms_member_index] the
    number of smaller members (-1 for a non-member), [bms_membership] tells
    empty, singleton and larger sets apart, and the two singleton extractors
    return the member of a singleton, the erroring one failing with the right
    message on the empty set and on larger sets. *)
Theorem bms_counting (a : option Bitmapset) (x : Z) :
  bms_wf a -> 0 <= x ->
  bms_num_members a = Z.of_nat (size (bms_set a)) /\
  bms_member_index a x =
    Ok (if bool_decide (x ∈ bms_set a)
        then Z.of_nat (size (filter (fun y => (y < x)%Z) (bms_set a))) else -1) /\
  bms_membership a = match size (bms_set a) with
                     | O => BMS_EMPTY_SET | S O => BMS_SINGLETON | _ => BMS_MULTIPLE end /\
  (bms_get_singleton_member a = Some x <-> bms_set a = {[x]}) /\
  (bms_singleton_member a = Ok x <-> bms_set a = {[x]}) /\
  (bms_singleton_member a = Err "bitmapset is empty" <-> bms_set a = ∅) /\
  (bms_singleton_member a = Err "bitmapset has multiple members" <->
   (2 <= size (bms_set a))%nat).
Proof.
  intros Ha Hx. split; [by apply bms_num_members_spec|]. split.
  { rewrite bms_member_index_spec by done. do 2 f_equal.
    destruct (bms_mem a x) eqn:E.
    - rewrite bool_decide_eq_true_2; [done|]. by apply bms_mem_set.
    - rewrite bool_decide_eq_false_2; [done|]. by rewrite bms_mem_set, E. }
  split; [by apply bms_membership_spec|]. split; [by apply bms_get_singleton_member_spec|].
  destruct (bms_singleton_member_spec a Ha) as [(m & -> & ->)|[[-> ->]|[-> Hs]]].
  - rewrite size_singleton. repeat split; intros H; try done; try lia; try set_solver.
  - rewrite size_empty. repeat split; intros H; try done; try lia; exfalso; set_solver.
  - repeat split; intros H; try done.
    + rewrite H, size_singleton in Hs. lia.
    + rewrite H, size_empty in Hs. lia.
Qed.

Lemma bms_counting_witness :
  bms_num_members (Some (mkBitmapset [8; 64])) =
    Z.of_nat (size (bms_set (Some (mkBitmapset [8; 64])))) /\
  bms_num_members (Some (mkBitmapset [8; 64])) = 2.
Proof.
  split; [|vm_compute; reflexivity].
  exact (proj1 (bms_counting _ 0 wf_example_3_70 ltac:(lia))).
Defined.

(** iterating with [bms_next_member] from -1 terminates after at most one call
    more than the set has members, and visits every member exactly once in
    increasing order. *)
Theorem bms_iteration_complete (a : option Bitmapset) (fuel : nat) :
  bms_wf a -> (size (bms_set a) < fuel)%nat ->
  StronglySorted Z.lt (bms_iterate fuel a (-1)) /\
  list_to_set (bms_iterate fuel a (-1)) = bms_set a /\
  Z.of_nat (length (bms_iterate fuel a (-1))) = bms_num_members a.
Proof.
  intros Ha Hf.
  assert (Hfil : filter (fun y => (-1 < y)%Z) (bms_set a) = bms_set a).
  { apply set_eq. intros y. rewrite elem_of_filter, bms_mem_set by done.
    split; [by intros [_ ?]|]. intros Hy. split; [|done].
    destruct a as [[ws]|]; [|done]. destruct Ha as [Hok _].
    pose proof (wmem_bound ws y Hok Hy). lia. }
  destruct (bms_iterate_spec fuel a (-1) Ha ltac:(lia)) as [H1 H2]; [by rewrite Hfil|].
  assert (Hs : list_to_set (bms_iterate fuel a (-1)) = bms_set a).
  { apply set_eq. intros y. rewrite elem_of_list_to_set, H2, bms_mem_set by done.
    split; [by intros [_ ?]|]. intros Hy. split; [|done].
    apply bms_mem_set in Hy; [|done]. rewrite <- Hfil in Hy. by apply elem_of_filter in Hy as [? _]. }
  split; [done|]. split; [done|]. rewrite bms_num_members_spec by done. f_equal.
  rewrite <- Hs. symmetry. apply size_list_to_set.
  clear -H1. induction H1 as [|y l _ IH Hy]; constructor; [|done].
  intros Hin. rewrite Forall_forall in Hy. specialize (Hy y Hin). lia.
Qed.

Lemma bms_iteration_complete_witness :
  StronglySorted Z.lt (bms_iterate 3 (Some (mkBitmapset [8; 64])) (-1)) /\
  bms_iterate 3 (Some (mkBitmapset [8; 64])) (-1) = [3; 70].
Proof.
  split; [|vm_compute; reflexivity].
  refine (proj1 (bms_iteration_complete _ 3 wf_example_3_70 _)).
  vm_compute. lia.
Defined.

(** [bms_prev_member] returns the greatest member below its argument ([-1]
    standing for the end of the set), or -2 when there is none, as long as the
    argument is at most one above the highest bit the set can hold. *)
Theorem bms_prev_member_greatest (a : option Bitmapset) (prevbit : Z) :
  bms_wf a -> -1 <= prevbit <= prev_bound a (-1) ->
  let r := bms_prev_member a prevbit in
  (r = -2 /\ forall y, y ∈ bms_set a -> prev_bound a prevbit <= y) \/
  (r < prev_bound a prevbit /\ r ∈ bms_set a /\
   forall y, y ∈ bms_set a -> y <= r \/ prev_bound a prevbit <= y).
Proof.
  intros Ha Hp. pose proof (bms_prev_member_spec a prevbit Ha Hp) as H. simpl in *.
  set (r := bms_prev_member a prevbit) in *.
  destruct H as [[-> H]|(H1 & H2 & H3)]; [left|right].
  - split; [done|]. intros y Hy%bms_mem_set; [|done].
    destruct (decide (prev_bound a prevbit <= y)); [done|]. by rewrite H in Hy by lia.
  - split; [lia|]. split; [by apply bms_mem_set|]. intros y Hy%bms_mem_set; [|done].
    destruct (decide (y <= r)); [by left|]. right.
    destruct (decide (prev_bound a prevbit <= y)); [done|]. by rewrite H3 in Hy by lia.
Qed.

Lemma bms_prev_member_greatest_witness :
  bms_prev_member (Some (mkBitmapset [8; 64])) (-1) = 70 /\
  (let r := bms_prev_member (Some (mkBitmapset [8; 64])) (-1) in
   (r = -2 /\ forall y, y ∈ bms_set (Some (mkBitmapset [8; 64])) ->
      prev_bound (Some (mkBitmapset [8; 64])) (-1) <= y) \/
   (r < prev_bound (Some (mkBitmapset [8; 64])) (-1) /\ r ∈ bms_set (Some (mkBitmapset [8; 64])) /\
    forall y, y ∈ bms_set (Some (mkBitmapset [8; 64])) ->
      y <= r \/ prev_bound (Some (mkBitmapset [8; 64])) (-1) <= y)).
Proof.
  split; [vm_compute; reflexivity|].
  apply (bms_prev_member_greatest _ (-1) wf_example_3_70).
  split; [lia|]. vm_compute. discriminate.
Defined.

(** Bitmap sets can be hash table keys: whatever the byte-string hash is, keys
    that [bitmap_match] reports as matching (return value 0), that is equal
    sets, have equal hashes, also when their arrays have different lengths. *)
Theorem bitmap_hash_respects_match (hash_any : list Z -> Z) (a b : option Bitmapset) :
  bms_wf a -> bms_wf b ->
  (bitmap_match a b = 0 <-> bms_set a = bms_set b) /\
  (bitmap_match a b = 0 -> bitmap_hash hash_any a = bitmap_hash hash_any b).
Proof.
  intros Ha Hb.
  assert (H : bitmap_match a b = 0 <-> a ≡ b).
  { rewrite <- bms_equal_spec by done. unfold bitmap_match. by destruct (bms_equal a b). }
  split; [rewrite H; by apply bms_equiv_set|]. rewrite H. clear H. intros H.
  destruct a as [[wa]|], b as [[wb]|]; try done.
  - destruct Ha as [Ha [x Hx]], Hb as [Hb _].
    apply (bms_hash_value_eq _ wa wb x); [done|done|done|]. by apply wmem_ext_words.
  - destruct Ha as [Ha [x Hx]]. specialize (H x). simpl in *. congruence.
  - destruct Hb as [Hb [x Hx]]. specialize (H x). simpl in *. congruence.
Qed.

Lemma bitmap_hash_respects_match_witness :
  bitmap_match (Some (mkBitmapset [8; 0])) (Some (mkBitmapset [8])) = 0 /\
  bitmap_hash (foldr Z.add 7) (Some (mkBitmapset [8; 0])) =
  bitmap_hash (foldr Z.add 7) (Some (mkBitmapset [8])).
Proof.
  split; [vm_compute; reflexivity|].
  refine (proj2 (bitmap_hash_respects_match _ _ _ wf_example_3 _) _).
  - split; [repeat constructor; simpl; lia|]. by exists 3.
  - vm_compute. reflexivity.
Defined.
