(* ===== verification/Knapsack.v ===== *)
(** The 0/1 knapsack solver: src/backend/lib/knapsack.c.

    [DiscreteKnapsack] only uses bitmap sets through six operations.  [IntSetOps]
    is that interface and [IntSet] what it promises; the solver is translated and
    proved against the interface, and the bitmap sets of [Bitmapset] discharge it.

    Item values are C doubles, and so are their sums: [double] has the finite values of
    the format, infinities and NaN, with additions rounded to nearest.  The function asserts
    that there is an item; so does the theorem. *)

From S2P Require Import Prelude BitUtils Bitmapset BitmapsetSpec.

Local Open Scope Z_scope.

(** * The interface *)

Class IntSetOps (T : Type) := {
  is_singleton : Z -> res T;
  is_copy : T -> T;
  is_add_member : T -> Z -> res T;
  is_del_member : T -> Z -> res T;
  is_add_members : T -> T -> T;
  is_del_members : T -> T -> T;
}.

Class IntSet (T : Type) `{!IntSetOps T} := {
  is_ok : T -> Prop;
  is_elems : T -> gset Z;
  is_singleton_spec x : 0 <= x ->
    exists s, is_singleton x = Ok s /\ is_ok s /\ is_elems s = {[x]};
  is_copy_spec s : is_ok s -> is_ok (is_copy s) /\ is_elems (is_copy s) = is_elems s;
  is_add_member_spec s x : is_ok s -> 0 <= x ->
    exists s', is_add_member s x = Ok s' /\ is_ok s' /\ is_elems s' = {[x]} ∪ is_elems s;
  is_del_member_spec s x : is_ok s -> 0 <= x ->
    exists s', is_del_member s x = Ok s' /\ is_ok s' /\ is_elems s' = is_elems s ∖ {[x]};
  is_add_members_spec s t : is_ok s -> is_ok t ->
    is_ok (is_add_members s t) /\ is_elems (is_add_members s t) = is_elems s ∪ is_elems t;
  is_del_members_spec s t : is_ok s -> is_ok t ->
    is_ok (is_del_members s t) /\ is_elems (is_del_members s t) = is_elems s ∖ is_elems t;
}.

(** * Doubles *)

(** A finite double is a multiple of 2^-1074; the two zeros are one. *)
Inductive double : Set :=
| Finite (units : Z)
| Infinity (negative : bool)
| NotANumber.

Definition double_one : double := Finite (2 ^ 1074).

(** A magnitude of more than 53 bits is rounded to that many, to the nearest and of two
    equally near to the even one. *)
Definition round_even (z : Z) : Z :=
  let e := Z.log2 z - 52 in
  if e <=? 0 then z
  else
    let q := z / 2 ^ e in
    let r := z mod 2 ^ e in
    let q := if (2 ^ e <? 2 * r) || (2 * r =? 2 ^ e) && Z.odd q then q + 1 else q in
    q * 2 ^ e.

Definition rounded (z : Z) : double :=
  let m := round_even (Z.abs z) in
  if 2 ^ 2098 <=? m then Infinity (z <? 0) else Finite (Z.sgn z * m).

Definition double_add (a b : double) : double :=
  match a, b with
  | Finite x, Finite y => rounded (x + y)
  | NotANumber, _ | _, NotANumber => NotANumber
  | Infinity n, Infinity n' => if Bool.eqb n n' then Infinity n else NotANumber
  | Infinity n, _ | _, Infinity n => Infinity n
  end.

Definition double_le (a b : double) : bool :=
  match a, b with
  | NotANumber, _ | _, NotANumber => false
  | Finite x, Finite y => x <=? y
  | Infinity true, _ | _, Infinity false => true
  | _, _ => false
  end.

Definition rdd (l : list double) (i : nat) : double := default (Finite 0) (l !! i).

(** A sum is exact when it fits into 53 bits from some bit on. *)
Lemma round_even_exact u z : 0 <= u -> 0 <= z < 2 ^ (u + 53) -> (2 ^ u | z) -> round_even z = z.
Proof.
  intros Hu Hz [k Hk]. unfold round_even. destruct (Z.leb_spec (Z.log2 z - 52) 0) as [|He]; [done|].
  assert (Hle : Z.log2 z - 52 <= u).
  { assert (Z.log2 z < u + 53); [|lia]. apply Z.log2_lt_pow2; [|lia]. destruct (decide (z = 0)) as [->|]; [simpl in He; lia|lia]. }
  set (e := Z.log2 z - 52) in *. assert (Hd : (2 ^ e | z)).
  { exists (k * 2 ^ (u - e)). rewrite <- Z.mul_assoc, <- Z.pow_add_r by lia. replace (u - e + e) with u by lia. done. }
  pose proof (Z.pow_pos_nonneg 2 e ltac:(lia) ltac:(lia)) as Hp. apply Z.mod_divide in Hd; [|lia]. rewrite Hd.
  destruct (Z.ltb_spec (2 ^ e) (2 * 0)); [lia|]. destruct (Z.eqb_spec (2 * 0) (2 ^ e)); [lia|]. simpl.
  pose proof (Z.div_mod z (2 ^ e) ltac:(lia)). lia.
Qed.

Lemma double_add_exact u x y : 0 <= u <= 2045 -> 0 <= x -> 0 <= y -> (2 ^ u | x) -> (2 ^ u | y) -> x + y < 2 ^ (u + 53) ->
  double_add (Finite x) (Finite y) = Finite (x + y).
Proof.
  intros Hu Hx Hy Dx Dy Hlt. simpl. unfold rounded. rewrite Z.abs_eq by lia.
  rewrite (round_even_exact u) by (try lia; by apply Z.divide_add_r).
  assert (2 ^ (u + 53) <= 2 ^ 2098) by (apply Z.pow_le_mono_r; lia).
  destruct (Z.leb_spec (2 ^ 2098) (x + y)); [lia|]. f_equal. destruct (decide (x + y = 0)) as [->|]; [done|]. rewrite Z.sgn_pos; lia.
Qed.

(** * The solver *)

Section knapsack.
Context {T : Type} `{!IntSetOps T}.
Local Open Scope pg_scope.

(** [values] and [sets], the two arrays indexed by weight. *)
Record knap_state := mkKnap { values : list double; sets : list T }.

(** [for (i = 0; i <= max_weight; ++i)]: the initial arrays of [n] cells. *)
Fixpoint knap_init (n : nat) (num_items : Z) : res knap_state :=
  match n with
  | O => Ok (mkKnap [] [])
  | S n' =>
      st <-! knap_init n' num_items ;;
      s <-! is_singleton num_items ;;
      Ok (mkKnap (values st ++ [Finite 0]) (sets st ++ [s]))
  end.

(** The body of the inner loop, for item [i] of weight [iw] and value [iv]. *)
Definition knap_step (i : Z) (iw : nat) (iv : double) (j : nat) (st : knap_state)
  : res knap_state :=
  let ow := (j - iw)%nat in
  match sets st !! j, sets st !! ow with
  | Some sj, Some sow =>
      if double_le (rdd (values st) j) (double_add (rdd (values st) ow) iv) then
        let sj := if (j =? ow)%nat then sj
                  else let sj := is_del_members sj sj in is_add_members sj sow in
        sj <-! is_add_member sj i ;;
        Ok (mkKnap (<[j := double_add (rdd (values st) ow) iv]> (values st)) (<[j := sj]> (sets st)))
      else Ok st
  | _, _ => Ok st
  end.

(** [for (j = max_weight; j >= iw; --j)], [n] being the iterations left. *)
Fixpoint knap_inner (n : nat) (i : Z) (iw : nat) (iv : double) (st : knap_state)
  : res knap_state :=
  match n with
  | O => Ok st
  | S n' =>
      st <-! knap_step i iw iv (iw + n')%nat st ;;
      knap_inner n' i iw iv st
  end.

(** [for (i = 0; i < num_items; ++i)] *)
Fixpoint knap_items (n : nat) (i : nat) (max_weight : nat)
    (item_weights : list Z) (item_values : option (list double)) (st : knap_state)
  : res knap_state :=
  match n with
  | O => Ok st
  | S n' =>
      let iw := Z.to_nat (rd item_weights i) in
      let iv := match item_values with Some vs => rdd vs i | None => double_one end in
      st <-! knap_inner (S max_weight - iw) (Z.of_nat i) iw iv st ;;
      knap_items n' (S i) max_weight item_weights item_values st
  end.

Definition DiscreteKnapsack (max_weight num_items : Z)
    (item_weights : list Z) (item_values : option (list double)) : res T :=
  let W := Z.to_nat max_weight in
  st <-! knap_init (S W) num_items ;;
  st <-! knap_items (Z.to_nat num_items) 0 W item_weights item_values st ;;
  match sets st !! W with
  | Some s => is_del_member (is_copy s) num_items
  | None => Err "sets[max_weight]"
  end.
End knapsack.
Arguments knap_state : clear implicits.

(** * Sums over sets of items *)

Definition gsum (f : Z -> Z) (X : gset Z) : Z := foldr (fun x acc => f x + acc) 0 (elements X).

Lemma foldr_sum_perm (f : Z -> Z) l1 l2 :
  l1 ≡ₚ l2 -> foldr (fun x acc => f x + acc) 0 l1 = foldr (fun x acc => f x + acc) 0 l2.
Proof. induction 1; simpl; lia. Qed.

Lemma gsum_empty f : gsum f ∅ = 0.
Proof. unfold gsum. by rewrite elements_empty. Qed.

Lemma gsum_insert f x X : x ∉ X -> gsum f ({[x]} ∪ X) = f x + gsum f X.
Proof.
  intros H. unfold gsum.
  by rewrite (foldr_sum_perm f _ _ (elements_union_singleton X x H)).
Qed.

Lemma gsum_delete f x X : x ∈ X -> gsum f X = f x + gsum f (X ∖ {[x]}).
Proof.
  intros H. rewrite <- gsum_insert by set_solver.
  by rewrite <- union_difference_singleton_L.
Qed.

Lemma gsum_nonneg f X : (forall x, x ∈ X -> 0 <= f x) -> 0 <= gsum f X.
Proof.
  unfold gsum. intros H.
  assert (H' : forall x, x ∈ elements X -> 0 <= f x) by (intros x Hx; by apply H, elem_of_elements).
  clear H. induction (elements X) as [|x l IH]; simpl; [lia|].
  pose proof (H' x ltac:(left)). assert (0 <= foldr (fun x acc => f x + acc) 0 l); [|lia].
  apply IH. intros y Hy. apply H'. by right.
Qed.

Lemma gsum_divide f d X : (forall x, x ∈ X -> (d | f x)) -> (d | gsum f X).
Proof.
  unfold gsum. intros H. assert (H' : forall x, x ∈ elements X -> (d | f x)) by (intros x Hx; by apply H, elem_of_elements).
  clear H. induction (elements X) as [|x l IH]; simpl; [apply Z.divide_0_r|].
  apply Z.divide_add_r; [apply H'; by left|]. apply IH. intros y Hy. apply H'. by right.
Qed.

(** * Correctness *)

Section correct.
Context {T : Type} `{!IntSetOps T} `{!IntSet T}.
Variables (W num : nat) (weights : list Z) (vals : option (list double)).

Definition wt (x : Z) : Z := rd weights (Z.to_nat x).

(** The value of an item, and in units of 2^-1074. *)
Definition value_of (x : Z) : double :=
  match vals with Some vs => rdd vs (Z.to_nat x) | None => double_one end.
Definition vl (x : Z) : Z := match value_of x with Finite z => z | _ => 0 end.

(** The subsets of the first [i] items. *)
Definition items (i : nat) (X : gset Z) : Prop := forall x, x ∈ X -> 0 <= x < Z.of_nat i.

(** All sums of values are exact: the values are multiples of a power of two, and even
    the sum of all is less than 2^53 times that. *)
Definition exact_values : Prop :=
  exists u, 0 <= u <= 2045
    /\ (forall x, 0 <= x < Z.of_nat num -> exists z, value_of x = Finite z /\ 0 <= z /\ (2 ^ u | z))
    /\ (forall Y, items num Y -> gsum vl Y < 2 ^ (u + 53)).

Hypothesis weights_nonneg : forall i, 0 <= rd weights i.
Hypothesis Hexact : exact_values.

Lemma values_nonneg x : 0 <= x < Z.of_nat num -> 0 <= vl x.
Proof. intros Hx. destruct Hexact as (u & _ & Hv & _). destruct (Hv x Hx) as (z & E & ? & _). unfold vl. by rewrite E. Qed.

(** Adding an item to a set is exact. *)
Lemma value_added i X : (i < num)%nat -> items i X ->
  double_add (Finite (gsum vl X)) (value_of (Z.of_nat i)) = Finite (gsum vl ({[Z.of_nat i]} ∪ X)).
Proof.
  intros Hi HX. destruct Hexact as (u & Hu & Hv & Hsum). destruct (Hv (Z.of_nat i) ltac:(lia)) as (z & E & Hz & Hd).
  assert (Hni : Z.of_nat i ∉ X) by (intros Hin; specialize (HX _ Hin); lia). rewrite gsum_insert by done.
  assert (Ez : vl (Z.of_nat i) = z) by (unfold vl; by rewrite E). rewrite E, Ez.
  assert (Hdiv : (2 ^ u | gsum vl X)).
  { apply gsum_divide. intros x Hx. destruct (Hv x ltac:(specialize (HX x Hx); lia)) as (y & Ey & _ & ?). unfold vl. by rewrite Ey. }
  rewrite (double_add_exact u); [f_equal; lia|done| |done|done|done|].
  - apply gsum_nonneg. intros x Hx. apply values_nonneg. specialize (HX x Hx). lia.
  - assert (Hall : items num ({[Z.of_nat i]} ∪ X)).
    { intros x [->%elem_of_singleton|Hx]%elem_of_union; [lia|]. specialize (HX x Hx). lia. }
    specialize (Hsum _ Hall). rewrite gsum_insert, Ez in Hsum by done. lia.
Qed.

(** The cell of weight [w] is optimal for the first [i] items. *)
Definition cell_ok (i w : nat) (d : double) (s : T) : Prop :=
  is_ok s /\ exists X, items i X /\ is_elems s = {[Z.of_nat num]} ∪ X /\
    gsum wt X <= Z.of_nat w /\ d = Finite (gsum vl X) /\
    (forall k, 0 <= k < Z.of_nat i -> wt k = 0 -> k ∈ X) /\
    (forall Y, items i Y -> gsum wt Y <= Z.of_nat w -> gsum vl Y <= gsum vl X).

(** Cells from weight [m] on are up to date with item [i], the others not yet. *)
Definition inner_inv (i m : nat) (st : knap_state T) : Prop :=
  length (values st) = S W /\ length (sets st) = S W /\
  forall w s, (w <= W)%nat -> sets st !! w = Some s ->
    cell_ok (if decide (m <= w)%nat then S i else i) w (rdd (values st) w) s.

Lemma cell_lt_mono i w v s :
  Z.of_nat w < wt (Z.of_nat i) -> cell_ok i w v s -> cell_ok (S i) w v s.
Proof.
  intros Hlt (Hok & X & HX & He & Hw & Hv & Hz & Hopt). split; [done|].
  exists X. split; [intros x Hx; specialize (HX x Hx); lia|].
  split; [done|]. split; [done|]. split; [done|]. split.
  - intros k Hk Hwk. destruct (decide (k = Z.of_nat i)) as [->|]; [lia|]. apply Hz; [lia|done].
  - intros Y HY HwY. apply Hopt; [|done]. intros y Hy. specialize (HY y Hy).
    destruct (decide (y = Z.of_nat i)) as [->|]; [|lia].
    rewrite (gsum_delete wt (Z.of_nat i)) in HwY by done.
    pose proof (gsum_nonneg wt (Y ∖ {[Z.of_nat i]}) ltac:(intros; apply weights_nonneg)). lia.
Qed.

(** Dropping item [i] from a set of the first [S i] items. *)
Lemma items_drop i Y : items (S i) Y -> items i (Y ∖ {[Z.of_nat i]}).
Proof. intros HY y Hy. apply elem_of_difference in Hy as [Hy Hne].
  specialize (HY y Hy). assert (y <> Z.of_nat i) by set_solver. lia. Qed.

Lemma opt_with i j ow v vo Y :
  (forall Y, items i Y -> gsum wt Y <= Z.of_nat j -> gsum vl Y <= v) ->
  (forall Y, items i Y -> gsum wt Y <= Z.of_nat ow -> gsum vl Y <= vo) ->
  Z.of_nat j = Z.of_nat ow + wt (Z.of_nat i) ->
  items (S i) Y -> gsum wt Y <= Z.of_nat j -> gsum vl Y <= Z.max v (vo + vl (Z.of_nat i)).
Proof.
  intros Hv Hvo Hj HY HwY. destruct (decide (Z.of_nat i ∈ Y)) as [Hin|Hout].
  - rewrite (gsum_delete vl (Z.of_nat i) Y Hin).
    rewrite (gsum_delete wt (Z.of_nat i) Y Hin) in HwY.
    specialize (Hvo (Y ∖ {[Z.of_nat i]}) (items_drop i Y HY) ltac:(lia)). lia.
  - specialize (Hv Y). assert (gsum vl Y <= v); [|lia]. apply Hv; [|done].
    intros y Hy. specialize (HY y Hy). assert (y <> Z.of_nat i) by set_solver. lia.
Qed.

(** Taking item [i]: its cell comes from the cell of the remaining weight. *)
Lemma cell_take i j ow vj vo sj so s :
  (i < num)%nat -> cell_ok i j vj sj -> cell_ok i ow vo so ->
  Z.of_nat j = Z.of_nat ow + wt (Z.of_nat i) -> double_le vj (double_add vo (value_of (Z.of_nat i))) = true ->
  is_ok s -> is_elems s = {[Z.of_nat i]} ∪ is_elems so ->
  cell_ok (S i) j (double_add vo (value_of (Z.of_nat i))) s.
Proof.
  intros Hi (_ & Xj & _ & _ & _ & -> & _ & Hoptj) (_ & X & HX & He & Hw & -> & Hz & Hopto) Hj Hle Hok Hs.
  rewrite value_added in * by done. simpl in Hle. apply Z.leb_le in Hle.
  assert (Hni : Z.of_nat i ∉ X) by (intros Hin; specialize (HX _ Hin); lia).
  split; [done|]. exists ({[Z.of_nat i]} ∪ X).
  split; [intros x [->%elem_of_singleton|Hx]%elem_of_union; [lia|];
          specialize (HX x Hx); lia|].
  split; [rewrite Hs, He; set_solver|].
  rewrite !gsum_insert in * by done. split; [lia|]. split; [done|]. split.
  - intros k Hk Hwk. destruct (decide (k = Z.of_nat i)); [set_solver|].
    assert (k ∈ X) by (apply Hz; [lia|done]). set_solver.
  - intros Y HY HwY. pose proof (opt_with i j ow _ _ Y Hoptj Hopto Hj HY HwY). lia.
Qed.

(** Leaving item [i], which cannot have weight zero then. *)
Lemma cell_leave i j ow vj vo sj so :
  (i < num)%nat -> cell_ok i j vj sj -> cell_ok i ow vo so ->
  Z.of_nat j = Z.of_nat ow + wt (Z.of_nat i) -> double_le vj (double_add vo (value_of (Z.of_nat i))) = false ->
  (ow = j -> vo = vj) -> cell_ok (S i) j vj sj.
Proof.
  intros Hi (Hok & X & HX & He & Hw & -> & Hz & Hoptj) (_ & Xo & HXo & _ & _ & -> & _ & Hopto) Hj Hgt Hsame.
  rewrite value_added in Hgt by done. simpl in Hgt. apply Z.leb_gt in Hgt.
  assert (Hni : Z.of_nat i ∉ Xo) by (intros Hin; specialize (HXo _ Hin); lia). rewrite gsum_insert in Hgt by done.
  split; [done|]. exists X. split; [intros x Hx; specialize (HX x Hx); lia|].
  split; [done|]. split; [done|]. split; [done|]. split.
  - intros k Hk Hwk. destruct (decide (k = Z.of_nat i)) as [->|]; [|apply Hz; [lia|done]].
    exfalso. specialize (Hsame ltac:(lia)). injection Hsame as Hsame. pose proof (values_nonneg (Z.of_nat i) ltac:(lia)). lia.
  - intros Y HY HwY. pose proof (opt_with i j ow _ _ Y Hoptj Hopto Hj HY HwY). lia.
Qed.

(** Updating the cell of weight [j] moves the frontier down to it. *)
Lemma inner_inv_update i j v s st :
  (j <= W)%nat -> inner_inv i (S j) st -> cell_ok (S i) j v s ->
  inner_inv i j (mkKnap (<[j := v]> (values st)) (<[j := s]> (sets st))).
Proof.
  intros Hj (Hl1 & Hl2 & Hinv) Hc. split; [simpl; by rewrite length_insert|].
  split; [simpl; by rewrite length_insert|]. simpl. intros w s' Hw Es'.
  destruct (decide (w = j)) as [->|Hne].
  - rewrite list_lookup_insert_eq in Es' by lia. injection Es' as <-.
    unfold rdd. rewrite list_lookup_insert_eq by lia. by rewrite decide_True by lia.
  - rewrite list_lookup_insert_ne in Es' by done. unfold rdd. rewrite list_lookup_insert_ne by done.
    specialize (Hinv w s' Hw Es'). repeat case_decide; (lia || done).
Qed.

Lemma inner_inv_keep i j s st :
  (j <= W)%nat -> inner_inv i (S j) st -> sets st !! j = Some s ->
  cell_ok (S i) j (rdd (values st) j) s -> inner_inv i j st.
Proof.
  intros Hj (Hl1 & Hl2 & Hinv) Es Hc. split; [done|]. split; [done|]. intros w s' Hw Es'.
  destruct (decide (w = j)) as [->|Hne].
  - rewrite decide_True by lia. by simplify_eq.
  - specialize (Hinv w s' Hw Es'). repeat case_decide; (lia || done).
Qed.

Lemma knap_step_ok i iw j st :
  (i < num)%nat -> Z.of_nat iw = wt (Z.of_nat i) -> (iw <= j <= W)%nat ->
  inner_inv i (S j) st ->
  exists st', knap_step (Z.of_nat i) iw (value_of (Z.of_nat i)) j st = Ok st' /\ inner_inv i j st'.
Proof.
  intros Hi Hiw Hj Hst. pose proof Hst as (Hl1 & Hl2 & Hinv). unfold knap_step.
  destruct (lookup_lt_is_Some_2 (sets st) j ltac:(lia)) as [sj Ej].
  destruct (lookup_lt_is_Some_2 (sets st) (j - iw) ltac:(lia)) as [so Eo].
  rewrite Ej, Eo.
  pose proof (Hinv j sj ltac:(lia) Ej) as Hcj. rewrite decide_False in Hcj by lia.
  pose proof (Hinv (j - iw)%nat so ltac:(lia) Eo) as Hco. rewrite decide_False in Hco by lia.
  destruct (double_le (rdd (values st) j) (double_add (rdd (values st) (j - iw)) (value_of (Z.of_nat i)))) eqn:Hle.
  - set (sj' := if (j =? j - iw)%nat then sj else _).
    assert (Hs : is_ok sj' /\ is_elems sj' = is_elems so).
    { pose proof (proj1 Hcj) as Hokj. pose proof (proj1 Hco) as Hoko.
      unfold sj'. destruct (Nat.eqb_spec j (j - iw)) as [E|E].
      - rewrite E, Eo in Ej. by injection Ej as <-.
      - destruct (is_del_members_spec sj sj Hokj Hokj) as [Hd1 Hd2].
        destruct (is_add_members_spec _ so Hd1 Hoko) as [Ha1 Ha2].
        split; [done|]. rewrite Ha2, Hd2. set_solver. }
    destruct Hs as [Hs1 Hs2].
    destruct (is_add_member_spec sj' (Z.of_nat i) Hs1 ltac:(lia)) as (s & -> & Hok & He).
    eexists. split; [done|]. apply inner_inv_update; [lia|done|].
    apply (cell_take i j (j - iw) (rdd (values st) j) _ sj so); try done; [lia|].
    by rewrite He, Hs2.
  - exists st. split; [done|]. apply (inner_inv_keep i j sj); [lia|done|done|].
    apply (cell_leave i j (j - iw) _ (rdd (values st) (j - iw)) sj so); try done; [lia|].
    by intros ->.
Qed.

Lemma knap_inner_ok n i iw st :
  (i < num)%nat -> Z.of_nat iw = wt (Z.of_nat i) -> (iw + n <= S W)%nat ->
  inner_inv i (iw + n) st ->
  exists st', knap_inner n (Z.of_nat i) iw (value_of (Z.of_nat i)) st = Ok st' /\ inner_inv i iw st'.
Proof.
  intros Hi Hiw. revert st; induction n as [|n IH]; intros st Hn Hinv; simpl.
  - rewrite Nat.add_0_r in Hinv. eauto.
  - destruct (knap_step_ok i iw (iw + n) st Hi Hiw ltac:(lia)) as (st' & -> & Hinv').
    { by replace (S (iw + n)) with (iw + S n)%nat by lia. }
    simpl. apply IH; [lia|done].
Qed.

(** A whole pass, and all the passes. *)
Definition outer_inv (i : nat) (st : knap_state T) : Prop :=
  length (values st) = S W /\ length (sets st) = S W /\
  forall w s, (w <= W)%nat -> sets st !! w = Some s -> cell_ok i w (rdd (values st) w) s.

Lemma knap_pass_ok i st :
  (i < num)%nat -> outer_inv i st ->
  exists st', knap_inner (S W - Z.to_nat (rd weights i)) (Z.of_nat i)
                (Z.to_nat (rd weights i)) (value_of (Z.of_nat i)) st = Ok st' /\ outer_inv (S i) st'.
Proof.
  intros Hi (Hl1 & Hl2 & Hinv). set (iw := Z.to_nat (rd weights i)).
  assert (Hiw : Z.of_nat iw = wt (Z.of_nat i)).
  { unfold iw, wt. rewrite Nat2Z.id. pose proof (weights_nonneg i). lia. }
  assert (H0 : inner_inv i (iw + (S W - iw)) st).
  { split; [done|]. split; [done|]. intros w s Hw Es. rewrite decide_False by lia.
    by apply Hinv. }
  destruct (decide (iw <= S W)%nat) as [Hle|Hgt].
  - destruct (knap_inner_ok (S W - iw) i iw st Hi Hiw ltac:(lia) H0) as (st' & E & Hl1' & Hl2' & Hinv').
    exists st'. split; [done|]. split; [done|]. split; [done|]. intros w s Hw Es.
    specialize (Hinv' w s Hw Es). case_decide; [done|]. apply cell_lt_mono; [lia|done].
  - exists st. replace (S W - iw)%nat with 0%nat by lia. split; [done|]. split; [done|].
    split; [done|]. intros w s Hw Es. apply cell_lt_mono; [lia|by apply Hinv].
Qed.

Lemma knap_items_ok n i st :
  (i + n <= num)%nat -> outer_inv i st ->
  exists st', knap_items n i W weights vals st = Ok st' /\ outer_inv (i + n) st'.
Proof.
  revert i st; induction n as [|n IH]; intros i st Hn Hinv; simpl.
  - rewrite Nat.add_0_r. eauto.
  - destruct (knap_pass_ok i st ltac:(lia) Hinv) as (st' & E & Hinv').
    assert (Ev : match vals with Some vs => rdd vs i | None => double_one end = value_of (Z.of_nat i))
      by (unfold value_of; by rewrite Nat2Z.id).
    rewrite Ev, E. simpl. replace (i + S n)%nat with (S i + n)%nat by lia.
    apply IH; [lia|done].
Qed.

Lemma knap_init_ok n :
  exists st, knap_init (T := T) n (Z.of_nat num) = Ok st /\
    length (values st) = n /\ length (sets st) = n /\
    forall w, rdd (values st) w = Finite 0 /\ forall s, sets st !! w = Some s ->
      is_ok s /\ is_elems s = {[Z.of_nat num]}.
Proof.
  induction n as [|n (st & E & H1 & H2 & H3)]; simpl.
  - exists (mkKnap [] []). split; [done|]. split; [done|]. split; [done|].
    intros w. split; [done|]. by intros s Hs.
  - destruct (is_singleton_spec (Z.of_nat num) ltac:(lia)) as (s0 & E0 & Hok0 & He0).
    rewrite E. simpl. rewrite E0. simpl. eexists. split; [done|]. simpl.
    rewrite !length_app, H1, H2. simpl. split; [lia|]. split; [lia|]. intros w.
    destruct (H3 w) as [Hv Hs]. split.
    + unfold rdd in *. destruct (decide (w < n)%nat); [by rewrite lookup_app_l by lia|].
      rewrite lookup_app_r by lia. by destruct (w - _)%nat as [|[|]].
    + intros s [Hl|[_ Hl]]%lookup_app_Some; [by apply Hs|].
      by apply list_lookup_singleton_Some in Hl as [_ <-].
Qed.

(** The initial arrays are optimal for no items. *)
Lemma outer_inv_init :
  exists st, knap_init (T := T) (S W) (Z.of_nat num) = Ok st /\ outer_inv 0 st.
Proof.
  destruct (knap_init_ok (S W)) as (st & E & H1 & H2 & H3). exists st. split; [done|].
  split; [done|]. split; [done|]. intros w s Hw Es. destruct (H3 w) as [-> Hs].
  destruct (Hs s Es) as [Hok He]. split; [done|]. exists ∅.
  assert (Hnil : forall Y, items 0 Y -> Y = ∅).
  { intros Y HY. apply set_eq. intros y. split; [|set_solver].
    intros Hy. specialize (HY y Hy). lia. }
  rewrite !gsum_empty. split; [intros x Hx; set_solver|].
  split; [rewrite He; set_solver|]. split; [lia|]. split; [done|]. split; [lia|].
  intros Y HY _. rewrite (Hnil Y HY), gsum_empty. lia.
Qed.

Lemma DiscreteKnapsack_ok :
  exists r X, DiscreteKnapsack (T := T) (Z.of_nat W) (Z.of_nat num) weights vals = Ok r /\
    is_ok r /\ is_elems r = X /\ items num X /\ gsum wt X <= Z.of_nat W /\
    (forall k, 0 <= k < Z.of_nat num -> wt k = 0 -> k ∈ X) /\
    (forall Y, items num Y -> gsum wt Y <= Z.of_nat W -> gsum vl Y <= gsum vl X).
Proof.
  unfold DiscreteKnapsack. rewrite !Nat2Z.id.
  destruct outer_inv_init as (st0 & -> & H0). simpl.
  destruct (knap_items_ok num 0 st0 ltac:(lia) H0) as (st & -> & _ & Hl & Hinv). simpl.
  destruct (lookup_lt_is_Some_2 (sets st) W ltac:(lia)) as [s Es]. rewrite Es.
  destruct (Hinv W s ltac:(lia) Es) as (Hok & X & HX & He & Hw & Hv & Hz & Hopt).
  destruct (is_copy_spec s Hok) as [Hokc Hec].
  destruct (is_del_member_spec (is_copy s) (Z.of_nat num) Hokc ltac:(lia)) as (r & -> & Hokr & Her).
  exists r, X. split; [done|]. split; [done|]. split.
  { rewrite Her, Hec, He. apply set_eq. intros x. rewrite elem_of_difference, elem_of_union,
      elem_of_singleton. split; [naive_solver|]. intros Hx. specialize (HX x Hx).
    split; [by right|]. simpl in HX. lia. }
  split; [done|]. split; [done|]. split; [done|]. exact Hopt.
Qed.
End correct.

(** * The bitmap sets implement the interface *)

#[export] Instance bms_ops : IntSetOps (option Bitmapset) := {
  is_singleton := bms_make_singleton;
  is_copy := bms_copy;
  is_add_member := bms_add_member;
  is_del_member := bms_del_member;
  is_add_members := bms_add_members;
  is_del_members := bms_del_members;
}.

#[export] Program Instance bms_intset : IntSet (option Bitmapset) := {
  is_ok := bms_wf;
  is_elems := bms_set;
}.
Next Obligation.
  intros x Hx. destruct (bms_make_singleton_spec x) as [[_ ?]|(s & E & _ & W & M)]; [lia|].
  exists s. split; [done|]. split; [done|]. bms_sets. by rewrite M, bool_decide_eq_true.
Qed.
Next Obligation. intros s Hs. simpl. by rewrite bms_copy_eq. Qed.
Next Obligation.
  intros s x Hs Hx. destruct (bms_add_member_spec s x Hs Hx) as (s' & E & W & M).
  exists s'. split; [done|]. split; [done|]. bms_sets.
  by rewrite M, orb_true_iff, bool_decide_eq_true.
Qed.
Next Obligation.
  intros s x Hs Hx. destruct (bms_del_member_spec s x Hs Hx) as (s' & E & W & M).
  exists s'. split; [done|]. split; [done|]. bms_sets.
  rewrite M, andb_true_iff, negb_true_iff, bool_decide_eq_false. tauto.
Qed.
Next Obligation.
  intros s t Hs Ht. simpl. pose proof (bms_add_members_wf s t Hs Ht). split; [done|]. bms_sets.
  by rewrite bms_add_members_mem, orb_true_iff.
Qed.
Next Obligation.
  intros s t Hs Ht. simpl. destruct (bms_del_members_spec s t Hs Ht) as [W M].
  split; [done|]. bms_sets. by rewrite M, andb_true_iff, negb_true_iff, not_true_iff_false.
Qed.

(** * Properties *)

Lemma gsum_bounded f n c Y : items n Y -> 0 <= c -> (forall x, x ∈ Y -> f x <= c) -> gsum f Y <= Z.of_nat n * c.
Proof.
  intros HY Hc. revert Y HY. induction n as [|n IH]; intros Y HY Hf.
  - replace Y with (∅ : gset Z); [rewrite gsum_empty; lia|]. apply set_eq. intros y. split; [set_solver|]. intros Hy. specialize (HY y Hy). lia.
  - assert (Hd : items n (Y ∖ {[Z.of_nat n]})).
    { intros y [Hy Hne]%elem_of_difference. specialize (HY y Hy). rewrite elem_of_singleton in Hne. lia. }
    specialize (IH (Y ∖ {[Z.of_nat n]}) Hd ltac:(set_solver)).
    destruct (decide (Z.of_nat n ∈ Y)) as [Hin|Hout].
    + rewrite (gsum_delete f (Z.of_nat n) Y Hin). specialize (Hf _ Hin). lia.
    + replace (Y ∖ {[Z.of_nat n]}) with Y in IH by set_solver. lia.
Qed.

(** Without values every item counts 1.0, and there are fewer than 2^31 of them. *)
Lemma no_values_exact num : Z.of_nat num < 2 ^ 31 -> exact_values num None.
Proof.
  intros Hn. exists 1074. split; [lia|]. split; [intros x _; exists (2 ^ 1074); by split; [|split; [lia|apply Z.divide_refl]]|].
  intros Y HY. apply Z.le_lt_trans with (Z.of_nat num * 2 ^ 1074); [apply gsum_bounded; [done|lia|]; intros x _; apply Z.le_refl|].
  apply Z.lt_le_trans with (2 ^ 53 * 2 ^ 1074); [apply Z.mul_lt_mono_pos_r; lia|]. rewrite <- Z.pow_add_r by lia. apply Z.pow_le_mono_r; lia.
Qed.


(** Doubles of small integers. *)
Definition dbl (n : Z) : double := Finite (n * 2 ^ 1074).
Definition sample_values : option (list double) := Some [dbl 10; dbl 40; dbl 30; dbl 50].

Lemma sample_exact : exact_values 4 sample_values.
Proof.
  exists 1074. split; [lia|].
  assert (Hv : forall x, exists n, value_of sample_values x = dbl n /\ 0 <= n <= 50).
  { intros x. unfold value_of, sample_values. generalize (Z.to_nat x) as i. intros i.
    destruct i as [|[|[|[|i]]]]; [exists 10|exists 40|exists 30|exists 50|exists 0]; (split; [reflexivity|lia]). }
  pose proof (Z.pow_pos_nonneg 2 1074 ltac:(lia) ltac:(lia)) as Hp. set (k := 2 ^ 1074) in *. split.
  - intros x _. destruct (Hv x) as (n & E & Hn). exists (n * k). split; [exact E|]. split; [lia|by exists n].
  - intros Y HY. apply Z.le_lt_trans with (Z.of_nat 4 * (50 * k)).
    + apply gsum_bounded; [done|lia|]. intros x _. unfold vl. destruct (Hv x) as (n & -> & Hn). unfold dbl. fold k. nia.
    + rewrite (Z.pow_add_r 2 1074 53) by lia. fold k. lia.
Qed.


(** Where sums are rounded the answer need not be the best: of three items of weight 1
    with the values 2^53, 1 and 0, two may be taken, and the last one is taken instead of
    the second, since 2^53 + 1 is rounded to 2^53. *)
Example rounding_loses :
  DiscreteKnapsack (T := option Bitmapset) 2 3 [1; 1; 1] (Some [dbl (2 ^ 53); dbl 1; dbl 0]) = Ok (Some (mkBitmapset [5])).
Proof. vm_compute. reflexivity. Qed.
