(* ===== verification/PgList.v ===== *)
(** PostgreSQL's expansible-array lists: backend/nodes/list.c and the inline
    functions of include/nodes/pg_list.h that it uses.

    A [List *] is an [option PgList], NIL being [None].  A list's [elements] is
    the whole allocated array of [max_length] cells; a cell that has been
    allocated and not yet written is [None], a cell that holds a value (a
    pointer, an int, an Oid or a TransactionId, by the list's tag) is [Some].
    [memmove], [memcpy] and single-cell stores are [splice], which lengthens the
    array when it writes past its end: the invariant that the array has exactly
    [max_length] cells is therefore also the statement that no operation writes
    out of bounds.  [equal] and [copyObjectImpl], which the build generates from
    the node definitions, are parameters of the operations that call them. *)

From S2P Require Import Prelude BitUtils.
Local Open Scope Z_scope.

(** ** Data *)

(** The node tags a list can carry. *)
Inductive ltag : Set := T_List | T_IntList | T_OidList | T_XidList.

Record PgList : Set := mk_list {
  l_type : ltag;
  l_length : nat;
  l_max_length : nat;
  l_elements : list (option Z);
  (** [elements == initial_elements]: the cells are inside the header's chunk *)
  l_inline : bool
}.

Definition set_length (n : nat) (l : PgList) : PgList :=
  mk_list (l_type l) n (l_max_length l) (l_elements l) (l_inline l).

Definition set_elements (es : list (option Z)) (l : PgList) : PgList :=
  mk_list (l_type l) (l_length l) (l_max_length l) es (l_inline l).

(** ** Cells and memory *)

(** Store the cells [xs] at offset [d] of an array. *)
Definition splice (d : nat) (xs es : list (option Z)) : list (option Z) :=
  take d es ++ xs ++ drop (d + length xs) es.

(** The [n] cells at offset [s] of an array, the source of a copy. *)
Definition cells_at (s n : nat) (es : list (option Z)) : list (option Z) :=
  take n (drop s es).

(** [lfirst(cell)] of cell [i], and [lfirst(cell) = x]. *)
Definition lfirst (l : PgList) (i : nat) : Z := default 0 (mjoin (l_elements l !! i)).

Definition store (i : nat) (x : Z) (l : PgList) : PgList :=
  set_elements (splice i [Some x] (l_elements l)) l.

(** [palloc] of [n] cells. *)
Definition palloc_cells (n : nat) : list (option Z) := replicate n None.

Definition list_length (l : option PgList) : nat :=
  match l with None => 0 | Some l => l_length l end.

(** [(offsetof(List, initial_elements) - 1) / sizeof(ListCell) + 1] with
    8-byte pointers: the header takes 24 bytes, a cell 8. *)
Definition LIST_HEADER_OVERHEAD : Z := (24 - 1) / 8 + 1.

(** ** Allocation *)

Definition new_list (type : ltag) (min_size : nat) : PgList :=
  let max_size := pg_nextpower2_32 (Z.max 8 (Z.of_nat min_size + LIST_HEADER_OVERHEAD)) in
  let max_size := Z.to_nat (max_size - LIST_HEADER_OVERHEAD) in
  mk_list type min_size max_size (palloc_cells max_size) true.

Definition enlarge_list (list : PgList) (min_size : nat) : PgList :=
  let new_max_len := Z.to_nat (pg_nextpower2_32 (Z.max 16 (Z.of_nat min_size))) in
  let elements :=
    if l_inline list
    then (* MemoryContextAlloc, then memcpy of the live cells *)
      splice 0 (cells_at 0 (l_length list) (l_elements list)) (palloc_cells new_max_len)
    else (* repalloc *)
      l_elements list ++ palloc_cells (new_max_len - length (l_elements list)) in
  mk_list (l_type list) (l_length list) new_max_len elements false.

(** ** Constructors *)

Definition list_make1_impl (t : ltag) (d1 : Z) : option PgList :=
  Some (store 0 d1 (new_list t 1)).

Definition list_make2_impl (t : ltag) (d1 d2 : Z) : option PgList :=
  Some (store 1 d2 (store 0 d1 (new_list t 2))).

Definition list_make3_impl (t : ltag) (d1 d2 d3 : Z) : option PgList :=
  Some (store 2 d3 (store 1 d2 (store 0 d1 (new_list t 3)))).

Definition list_make4_impl (t : ltag) (d1 d2 d3 d4 : Z) : option PgList :=
  Some (store 3 d4 (store 2 d3 (store 1 d2 (store 0 d1 (new_list t 4))))).

Definition list_make5_impl (t : ltag) (d1 d2 d3 d4 d5 : Z) : option PgList :=
  Some (store 4 d5 (store 3 d4 (store 2 d3 (store 1 d2 (store 0 d1 (new_list t 5)))))).

(** ** Insertion *)

Definition new_head_cell (list : PgList) : PgList :=
  let list :=
    if (l_max_length list <=? l_length list)%nat
    then enlarge_list list (l_length list + 1) else list in
  let es := l_elements list in
  let list := set_elements (splice 1 (cells_at 0 (l_length list) es) es) list in
  set_length (l_length list + 1) list.

Definition new_tail_cell (list : PgList) : PgList :=
  let list :=
    if (l_max_length list <=? l_length list)%nat
    then enlarge_list list (l_length list + 1) else list in
  set_length (l_length list + 1) list.

(** The body the [lappend] family shares: [t] is the tag of a list made from
    NIL, and the datum is stored through the member that tag selects. *)
Definition lappend_as (t : ltag) (list : option PgList) (datum : Z) : option PgList :=
  let list := match list with
              | None => new_list t 1
              | Some list => new_tail_cell list
              end in
  Some (store (l_length list - 1) datum list).

Definition lappend := lappend_as T_List.
Definition lappend_int := lappend_as T_IntList.
Definition lappend_oid := lappend_as T_OidList.
Definition lappend_xid := lappend_as T_XidList.

Definition insert_new_cell (list : PgList) (pos : nat) : PgList :=
  let list :=
    if (l_max_length list <=? l_length list)%nat
    then enlarge_list list (l_length list + 1) else list in
  let list :=
    if (pos <? l_length list)%nat
    then
      let es := l_elements list in
      set_elements (splice (pos + 1) (cells_at pos (l_length list - pos) es) es) list
    else list in
  set_length (l_length list + 1) list.

Definition list_insert_nth_as (t : ltag) (list : option PgList) (pos : nat) (datum : Z)
  : option PgList :=
  match list with
  | None => list_make1_impl t datum
  | Some list => Some (store pos datum (insert_new_cell list pos))
  end.

Definition list_insert_nth := list_insert_nth_as T_List.
Definition list_insert_nth_int := list_insert_nth_as T_IntList.
Definition list_insert_nth_oid := list_insert_nth_as T_OidList.

Definition lcons_as (t : ltag) (datum : Z) (list : option PgList) : option PgList :=
  let list := match list with
              | None => new_list t 1
              | Some list => new_head_cell list
              end in
  Some (store 0 datum list).

Definition lcons := lcons_as T_List.
Definition lcons_int := lcons_as T_IntList.
Definition lcons_oid := lcons_as T_OidList.

(** ** Copies and concatenation *)

Definition list_copy (oldlist : option PgList) : option PgList :=
  match oldlist with
  | None => None
  | Some oldlist =>
      let newlist := new_list (l_type oldlist) (l_length oldlist) in
      Some (set_elements
              (splice 0 (cells_at 0 (l_length newlist) (l_elements oldlist))
                 (l_elements newlist)) newlist)
  end.

Definition list_copy_head (oldlist : option PgList) (len : Z) : option PgList :=
  match oldlist with
  | None => None
  | Some oldlist =>
      if len <=? 0 then None
      else
        let len := Z.to_nat (Z.min (Z.of_nat (l_length oldlist)) len) in
        let newlist := new_list (l_type oldlist) len in
        Some (set_elements (splice 0 (cells_at 0 len (l_elements oldlist))
                              (l_elements newlist)) newlist)
  end.

Definition list_copy_tail (oldlist : option PgList) (nskip : Z) : option PgList :=
  let nskip := if nskip <? 0 then 0%nat else Z.to_nat nskip in
  match oldlist with
  | None => None
  | Some oldlist =>
      if (l_length oldlist <=? nskip)%nat then None
      else
        let newlist := new_list (l_type oldlist) (l_length oldlist - nskip) in
        Some (set_elements (splice 0 (cells_at nskip (l_length newlist) (l_elements oldlist))
                              (l_elements newlist)) newlist)
  end.

Definition list_copy_deep (copyObjectImpl : Z -> Z) (oldlist : option PgList)
  : option PgList :=
  match oldlist with
  | None => None
  | Some oldlist =>
      let newlist := new_list (l_type oldlist) (l_length oldlist) in
      Some (for_up (l_length newlist) 0
              (fun i newlist => store i (copyObjectImpl (lfirst oldlist i)) newlist)
              newlist)
  end.

Definition list_concat (list1 list2 : option PgList) : option PgList :=
  match list1, list2 with
  | None, _ => list_copy list2
  | Some _, None => list1
  | Some list1, Some list2 =>
      let new_len := (l_length list1 + l_length list2)%nat in
      let list1 := if (l_max_length list1 <? new_len)%nat
                   then enlarge_list list1 new_len else list1 in
      let list1 :=
        set_elements (splice (l_length list1)
                        (cells_at 0 (l_length list2) (l_elements list2))
                        (l_elements list1)) list1 in
      Some (set_length new_len list1)
  end.

Definition list_concat_copy (list1 list2 : option PgList) : option PgList :=
  match list1, list2 with
  | None, _ => list_copy list2
  | Some _, None => list_copy list1
  | Some list1, Some list2 =>
      let new_len := (l_length list1 + l_length list2)%nat in
      let result := new_list (l_type list1) new_len in
      let result := set_elements
        (splice 0 (cells_at 0 (l_length list1) (l_elements list1)) (l_elements result))
        result in
      Some (set_elements
        (splice (l_length list1) (cells_at 0 (l_length list2) (l_elements list2))
           (l_elements result)) result)
  end.

Definition list_truncate (list : option PgList) (new_size : Z) : option PgList :=
  if new_size <=? 0 then None
  else match list with
       | None => None
       | Some l =>
           if new_size <? Z.of_nat (list_length list)
           then Some (set_length (Z.to_nat new_size) l) else list
       end.

(** ** Membership

    [foreach(cell, list)] runs over the indexes of the list. *)
Definition list_member_as (eqb : Z -> Z -> bool) (list : option PgList) (datum : Z) : bool :=
  match list with
  | None => false
  | Some l =>
      after (for_up_ret (l_length l) 0
               (fun i (_ : unit) => if eqb (lfirst l i) datum then Return true else Next tt)
               tt)
        (fun _ => false)
  end.

Definition list_member (equal : Z -> Z -> bool) := list_member_as equal.
Definition list_member_ptr := list_member_as Z.eqb.
Definition list_member_int := list_member_as Z.eqb.
Definition list_member_oid := list_member_as Z.eqb.
Definition list_member_xid := list_member_as Z.eqb.

(** ** Deletion *)

(** Called on a non-NIL list and [n < length]. *)
Definition list_delete_nth_cell (l : PgList) (n : nat) : option PgList :=
  if (l_length l =? 1)%nat then None
  else
    let es := l_elements l in
    let l := set_elements (splice n (cells_at (n + 1) (l_length l - 1 - n) es) es) l in
    Some (set_length (l_length l - 1) l).

(** A cell pointer is its offset in [elements]. *)
Definition list_delete_cell (l : PgList) (cell : nat) : option PgList :=
  list_delete_nth_cell l cell.

Definition list_delete_as (eqb : Z -> Z -> bool) (list : option PgList) (datum : Z)
  : option PgList :=
  match list with
  | None => None
  | Some l =>
      after (for_up_ret (l_length l) 0
               (fun i (_ : unit) =>
                  if eqb (lfirst l i) datum then Return (list_delete_cell l i) else Next tt)
               tt)
        (fun _ => list)
  end.

Definition list_delete (equal : Z -> Z -> bool) := list_delete_as equal.
Definition list_delete_ptr := list_delete_as Z.eqb.
Definition list_delete_int := list_delete_as Z.eqb.
Definition list_delete_oid := list_delete_as Z.eqb.

Definition list_delete_first (list : option PgList) : option PgList :=
  match list with None => None | Some l => list_delete_nth_cell l 0 end.

Definition list_delete_last (list : option PgList) : option PgList :=
  match list with
  | None => None
  | Some l =>
      if (list_length list <=? 1)%nat then None
      else list_truncate list (Z.of_nat (list_length list) - 1)
  end.

Definition list_delete_first_n (list : option PgList) (n : Z) : option PgList :=
  if n <=? 0 then list
  else if Z.of_nat (list_length list) <=? n then None
  else match list with
       | None => None
       | Some l =>
           let n := Z.to_nat n in
           let es := l_elements l in
           let l := set_elements (splice 0 (cells_at n (l_length l - n) es) es) l in
           Some (set_length (l_length l - n) l)
       end.

(** ** Set-like operations *)

(** [foreach(cell, list)] over a list the body does not change. *)
Definition foreach_cell {S} (list : option PgList) (body : Z -> S -> S) (s : S) : S :=
  match list with
  | None => s
  | Some l => for_up (l_length l) 0 (fun i s => body (lfirst l i) s) s
  end.

(** The loop of the union and concat_unique families. *)
Definition append_missing (t : ltag) (eqb : Z -> Z -> bool) (list2 result : option PgList)
  : option PgList :=
  foreach_cell list2
    (fun x result => if negb (list_member_as eqb result x)
                     then lappend_as t result x else result) result.

Definition list_union_as (t : ltag) (eqb : Z -> Z -> bool) (list1 list2 : option PgList)
  : option PgList :=
  append_missing t eqb list2 (list_copy list1).

Definition list_union (equal : Z -> Z -> bool) := list_union_as T_List equal.
Definition list_union_ptr := list_union_as T_List Z.eqb.
Definition list_union_int := list_union_as T_IntList Z.eqb.
Definition list_union_oid := list_union_as T_OidList Z.eqb.

Definition list_intersection_as (t : ltag) (eqb : Z -> Z -> bool)
    (list1 list2 : option PgList) : option PgList :=
  match list1, list2 with
  | None, _ | _, None => None
  | Some _, Some _ =>
      foreach_cell list1
        (fun x result => if list_member_as eqb list2 x
                         then lappend_as t result x else result) None
  end.

Definition list_intersection (equal : Z -> Z -> bool) := list_intersection_as T_List equal.
Definition list_intersection_int := list_intersection_as T_IntList Z.eqb.

Definition list_difference_as (t : ltag) (eqb : Z -> Z -> bool)
    (list1 list2 : option PgList) : option PgList :=
  match list2 with
  | None => list_copy list1
  | Some _ =>
      foreach_cell list1
        (fun x result => if negb (list_member_as eqb list2 x)
                         then lappend_as t result x else result) None
  end.

Definition list_difference (equal : Z -> Z -> bool) := list_difference_as T_List equal.
Definition list_difference_ptr := list_difference_as T_List Z.eqb.
Definition list_difference_int := list_difference_as T_IntList Z.eqb.
Definition list_difference_oid := list_difference_as T_OidList Z.eqb.

Definition list_append_unique_as (t : ltag) (eqb : Z -> Z -> bool) (list : option PgList)
    (datum : Z) : option PgList :=
  if list_member_as eqb list datum then list else lappend_as t list datum.

Definition list_append_unique (equal : Z -> Z -> bool) := list_append_unique_as T_List equal.
Definition list_append_unique_ptr := list_append_unique_as T_List Z.eqb.
Definition list_append_unique_int := list_append_unique_as T_IntList Z.eqb.
Definition list_append_unique_oid := list_append_unique_as T_OidList Z.eqb.

Definition list_concat_unique_as (t : ltag) (eqb : Z -> Z -> bool)
    (list1 list2 : option PgList) : option PgList :=
  append_missing t eqb list2 list1.

Definition list_concat_unique (equal : Z -> Z -> bool) := list_concat_unique_as T_List equal.
Definition list_concat_unique_ptr := list_concat_unique_as T_List Z.eqb.
Definition list_concat_unique_int := list_concat_unique_as T_IntList Z.eqb.
Definition list_concat_unique_oid := list_concat_unique_as T_OidList Z.eqb.

(** ** Deduplication and comparison *)

(** The list is changed in place: the result is its new state. *)
Definition list_deduplicate_oid (list : option PgList) : option PgList :=
  match list with
  | None => None
  | Some l =>
      let len := list_length list in
      if (1 <? len)%nat then
        let '(i, l) :=
          for_up (len - 1) 1
            (fun j '(i, l) =>
               if negb (lfirst l i =? lfirst l j)
               then (S i, store (S i) (lfirst l j) l) else (i, l))
            (0%nat, l) in
        Some (set_length (i + 1) l)
      else list
  end.

Definition list_int_cmp (v1 v2 : Z) : Z :=
  if v1 <? v2 then -1 else if v1 >? v2 then 1 else 0.

Definition list_oid_cmp (v1 v2 : Z) : Z :=
  if v1 <? v2 then -1 else if v1 >? v2 then 1 else 0.
