(* ===== verification/PgListProps.v ===== *)
(** Correctness of the lists of [PgList]: each operation refines the operation
    on plain sequences it stands for, keeps the invariant that
    [check_list_invariants] asserts, and writes only inside the allocated cells. *)

From S2P Require Import Prelude BitUtils PgList.
Local Open Scope Z_scope.

(** ** Abstraction

    [list_rep t l xs]: the list [l] carries the tag [t] and holds the sequence
    [xs].  NIL represents the empty sequence and nothing else; a list header has
    a nonempty sequence in its first [length] cells, an array of exactly
    [max_length] cells, and no more than 2^26 of them, so that its byte size
    stays below MaxAllocSize and its length far from INT_MAX. *)
Inductive list_rep (t : ltag) : option PgList -> list Z -> Prop :=
| rep_nil : list_rep t None []
| rep_header n m es il xs rest :
    xs <> [] -> n = length xs -> es = (Some <$> xs) ++ rest -> m = length es ->
    Z.of_nat m <= 2 ^ 26 ->
    list_rep t (Some (mk_list t n m es il)) xs.

(** The longest list the theorems let an operation build. *)
Definition list_max : Z := 2 ^ 26 - 3.

Definition fits (xs : list Z) : Prop := Z.of_nat (length xs) <= list_max.

(** [check_list_invariants], with the size of the array. *)
Definition list_invariants (l : option PgList) : Prop :=
  match l with
  | None => True
  | Some l => (0 < l_length l <= l_max_length l)%nat
              /\ length (l_elements l) = l_max_length l
              /\ Forall is_Some (take (l_length l) (l_elements l))
  end.

Lemma list_rep_invariants t l xs : list_rep t l xs -> list_invariants l.
Proof.
  intros [|n m es il xs' rest Hne -> -> -> _]; [done|]. simpl.
  assert (length xs' <> 0%nat) by (by destruct xs').
  rewrite length_app, length_fmap. split; [lia|]. split; [done|].
  rewrite take_app_le by (rewrite length_fmap; lia).
  rewrite take_ge by (rewrite length_fmap; lia).
  apply Forall_fmap, Forall_true. by eexists.
Qed.

Lemma list_rep_length t l xs : list_rep t l xs -> list_length l = length xs.
Proof. by intros []. Qed.

Lemma list_rep_nil_inv t l : list_rep t l [] -> l = None.
Proof. by inversion 1. Qed.

(** ** Memory *)

Lemma splice_app (a b c : list (option Z)) d :
  d = length a -> splice d b (a ++ c) = a ++ b ++ drop (length b) c.
Proof.
  intros ->. unfold splice. rewrite take_app_length.
  rewrite drop_app_ge by lia. do 3 f_equal. lia.
Qed.

Lemma splice_0 (b c : list (option Z)) : splice 0 b c = b ++ drop (length b) c.
Proof. done. Qed.

(** Moving a block one cell up, over the free cell [c] that follows it. *)
Lemma splice_shift_up (a b : list (option Z)) c r :
  splice (length a + 1) b (a ++ b ++ c :: r) = a ++ hd c b :: b ++ r.
Proof.
  destruct b as [|y b].
  - unfold splice. simpl. by rewrite Nat.add_0_r, take_drop.
  - replace (a ++ (y :: b) ++ c :: r) with ((a ++ [y]) ++ b ++ c :: r)
      by (by rewrite <- app_assoc).
    rewrite (splice_app (a ++ [y])) by (rewrite length_app; done).
    rewrite <- !app_assoc. simpl. do 4 f_equal.
    rewrite (cons_middle c), app_assoc, drop_app_length'; [done|].
    rewrite length_app; simpl. lia.
Qed.

Lemma cells_at_app (a b c : list (option Z)) s n :
  s = length a -> n = length b -> cells_at s n (a ++ b ++ c) = b.
Proof.
  intros -> ->. unfold cells_at.
  by rewrite drop_app_length, take_app_length.
Qed.

Lemma cells_at_0_app (b c : list (option Z)) n : n = length b -> cells_at 0 n (b ++ c) = b.
Proof. apply (cells_at_app []). done. Qed.

Lemma lfirst_rep t n m xs rest il i x :
  xs !! i = Some x -> lfirst (mk_list t n m ((Some <$> xs) ++ rest) il) i = x.
Proof.
  intros H. unfold lfirst; simpl.
  rewrite lookup_app_l by (rewrite length_fmap; by eapply lookup_lt_Some).
  by rewrite list_lookup_fmap, H.
Qed.

(** ** Allocation *)

Lemma nextpower2_bounds n k :
  0 < n <= 2 ^ k -> 0 <= k <= 31 ->
  n <= pg_nextpower2_32 n <= 2 ^ k.
Proof.
  intros Hn Hk.
  assert (2 ^ k <= 2 ^ 31) by (apply Z.pow_le_mono_r; lia).
  unfold pg_nextpower2_32. rewrite pg_leftmost_one_pos32_log2 by lia.
  rewrite (nextpower2_spec 32) by (simpl; lia).
  split; [apply Z.log2_log2_up_spec; lia|].
  apply Z.pow_le_mono_r; [lia|]. apply Z.log2_up_le_pow2; lia.
Qed.

(** A fresh list of [n] cells has room for them and is within the size bound. *)
Lemma new_list_room t n :
  (0 < n)%nat -> Z.of_nat n <= list_max ->
  exists m, new_list t n = mk_list t n m (replicate m None) true
            /\ (n <= m)%nat /\ Z.of_nat m <= 2 ^ 26.
Proof.
  intros Hn Hmax. unfold new_list, palloc_cells. eexists. split; [done|].
  pose proof (nextpower2_bounds (Z.max 8 (Z.of_nat n + LIST_HEADER_OVERHEAD)) 26) as Hp.
  unfold list_max in Hmax. change LIST_HEADER_OVERHEAD with 3 in *.
  change (2 ^ 26) with 67108864 in *. lia.
Qed.

(** The guard [if (need > max_length) enlarge_list(list, need)]: afterwards the
    sequence is unchanged and there is room for [need] cells. *)
Lemma enlarge_room t m xs rest il need :
  m = length ((Some <$> xs) ++ rest) -> Z.of_nat m <= 2 ^ 26 ->
  (length xs <= need)%nat -> Z.of_nat need <= list_max ->
  exists m' rest' il',
    (if (m <? need)%nat
     then enlarge_list (mk_list t (length xs) m ((Some <$> xs) ++ rest) il) need
     else mk_list t (length xs) m ((Some <$> xs) ++ rest) il)
    = mk_list t (length xs) m' ((Some <$> xs) ++ rest') il'
    /\ m' = (length xs + length rest')%nat /\ (need <= m')%nat /\ Z.of_nat m' <= 2 ^ 26.
Proof.
  intros Hm Hm26 Hxs Hneed. rewrite length_app, length_fmap in Hm.
  destruct (Nat.ltb_spec m need) as [Hlt|Hge]; [|exists m, rest, il; split; [done|lia]].
  pose proof (nextpower2_bounds (Z.max 16 (Z.of_nat need)) 26) as Hp.
  unfold list_max in Hneed. change (2 ^ 26) with 67108864 in *.
  unfold enlarge_list; simpl.
  set (k := Z.to_nat (pg_nextpower2_32 (Z.max 16 (Z.of_nat need)))).
  assert ((need <= k)%nat /\ Z.of_nat k <= 67108864) as [Hk1 Hk2] by (unfold k; lia).
  destruct il.
  - rewrite cells_at_0_app by (by rewrite length_fmap). rewrite splice_0.
    exists k, (drop (length xs) (palloc_cells k)), false.
    rewrite length_fmap. split; [done|].
    unfold palloc_cells. rewrite drop_replicate, length_replicate. lia.
  - exists k, (rest ++ palloc_cells (k - m)), false.
    rewrite length_app, length_fmap, <- Hm, <- app_assoc. split; [done|].
    unfold palloc_cells. rewrite length_app, length_replicate. lia.
Qed.

(** The form of the guard in the one-cell insertions. *)
Lemma enlarge_room1 t m xs rest il :
  m = length ((Some <$> xs) ++ rest) -> Z.of_nat m <= 2 ^ 26 ->
  Z.of_nat (S (length xs)) <= list_max ->
  exists m' c rest' il',
    (if (m <=? length xs)%nat
     then enlarge_list (mk_list t (length xs) m ((Some <$> xs) ++ rest) il) (length xs + 1)
     else mk_list t (length xs) m ((Some <$> xs) ++ rest) il)
    = mk_list t (length xs) m' ((Some <$> xs) ++ c :: rest') il'
    /\ m' = S (length xs + length rest')%nat /\ Z.of_nat m' <= 2 ^ 26.
Proof.
  intros Hm Hm26 Hfit.
  destruct (enlarge_room t m xs rest il (length xs + 1)) as (m' & rest' & il' & E & H1 & H2 & H3);
    [done|done|lia|lia|].
  replace (m <=? length xs)%nat with (m <? length xs + 1)%nat
    by (destruct (Nat.ltb_spec m (length xs + 1)), (Nat.leb_spec m (length xs)); lia || done).
  destruct rest' as [|c rest']; simpl in *; [lia|].
  exists m', c, rest', il'. split; [done|]. lia.
Qed.

(** ** Construction *)

Lemma fmap_Some_snoc (xs : list Z) d : Some <$> (xs ++ [d]) = (Some <$> xs) ++ [Some d].
Proof. by rewrite fmap_app. Qed.

(** A fresh list filled with [xs], however it is filled. *)
Lemma fresh_rep t n m xs il :
  xs <> [] -> n = length xs -> (n <= m)%nat -> Z.of_nat m <= 2 ^ 26 ->
  list_rep t (Some (mk_list t n m (splice 0 (Some <$> xs) (replicate m None)) il)) xs.
Proof.
  intros Hne -> Hle Hm. rewrite splice_0, drop_replicate.
  eapply rep_header; [done|done|done| |done].
  rewrite length_app, length_replicate, length_fmap. lia.
Qed.

Lemma store_next t n m xs rest il d i :
  i = length xs ->
  store i d (mk_list t n m ((Some <$> xs) ++ rest) il) =
  mk_list t n m ((Some <$> (xs ++ [d])) ++ drop 1 rest) il.
Proof.
  intros ->. unfold store, set_elements; simpl. f_equal.
  rewrite splice_app by (by rewrite length_fmap).
  by rewrite fmap_Some_snoc, <- app_assoc.
Qed.

Lemma store_first t n m rest il d :
  store 0 d (mk_list t n m rest il) = mk_list t n m ((Some <$> [d]) ++ drop 1 rest) il.
Proof. apply (store_next t n m [] rest il d 0). done. Qed.

Lemma rep_fill t n m xs rest il :
  xs <> [] -> n = length xs -> m = (length xs + length rest)%nat -> Z.of_nat m <= 2 ^ 26 ->
  list_rep t (Some (mk_list t n m ((Some <$> xs) ++ rest) il)) xs.
Proof.
  intros Hne -> -> Hm. eapply rep_header; [done|done|done| |done].
  by rewrite length_app, length_fmap.
Qed.

Ltac solve_fill :=
  unfold palloc_cells;
  repeat first [rewrite store_first | rewrite store_next by done];
  rewrite ?drop_drop, ?drop_replicate; apply rep_fill; simpl;
  rewrite ?length_replicate; try done; lia.

Lemma list_make_impl_rep t d1 d2 d3 d4 d5 :
  list_rep t (list_make1_impl t d1) [d1]
  /\ list_rep t (list_make2_impl t d1 d2) [d1; d2]
  /\ list_rep t (list_make3_impl t d1 d2 d3) [d1; d2; d3]
  /\ list_rep t (list_make4_impl t d1 d2 d3 d4) [d1; d2; d3; d4]
  /\ list_rep t (list_make5_impl t d1 d2 d3 d4 d5) [d1; d2; d3; d4; d5].
Proof.
  unfold list_make1_impl, list_make2_impl, list_make3_impl, list_make4_impl,
    list_make5_impl.
  repeat split;
    match goal with |- context [new_list t ?k] =>
      destruct (new_list_room t k) as (m & -> & H1 & H2); [lia|done|] end;
    solve_fill.
Qed.

Lemma lappend_rep t l xs d :
  list_rep t l xs -> fits (xs ++ [d]) -> list_rep t (lappend_as t l d) (xs ++ [d]).
Proof.
  unfold fits. rewrite length_app; simpl.
  intros [|n m es il xs' rest Hne -> -> Hm Hm26] Hfit; unfold lappend_as.
  - destruct (new_list_room t 1) as (m & -> & H1 & H2); [lia|done|]. simpl. solve_fill.
  - unfold new_tail_cell; simpl.
    destruct (enlarge_room1 t m xs' rest il) as (m' & c & rest' & il' & -> & H1 & H2);
      [done|done|lia|].
    unfold set_length; simpl. rewrite store_next by lia.
    apply rep_fill; [by destruct xs'| |simpl|done];
      rewrite length_app; simpl; rewrite ?drop_0; lia.
Qed.

Lemma lcons_rep t l xs d :
  list_rep t l xs -> fits (d :: xs) -> list_rep t (lcons_as t d l) (d :: xs).
Proof.
  unfold fits. simpl length.
  intros [|n m es il xs' rest Hne -> -> Hm Hm26] Hfit; unfold lcons_as.
  - destruct (new_list_room t 1) as (m & -> & H1 & H2); [lia|done|]. solve_fill.
  - unfold new_head_cell; simpl.
    destruct (enlarge_room1 t m xs' rest il) as (m' & c & rest' & il' & -> & H1 & H2);
      [done|done|lia|].
    unfold set_length, set_elements; simpl.
    rewrite cells_at_0_app by (by rewrite length_fmap).
    rewrite store_first. unfold splice.
    destruct ((Some <$> xs') ++ c :: rest') as [|h tl] eqn:E; [by destruct xs'|].
    change (drop 1 (take 1 (h :: tl) ++ ?x)) with x.
    change ((Some <$> [d]) ++ ?x) with (Some d :: x). rewrite app_comm_cons.
    change (Some d :: (Some <$> xs')) with (Some <$> (d :: xs')).
    apply rep_fill; [done|simpl; lia| |done].
    rewrite length_drop, <- E, length_app, length_fmap. simpl. lia.
Qed.

(** Insertion before position [length xs1]. *)
Lemma list_insert_nth_rep t l xs1 xs2 d :
  list_rep t l (xs1 ++ xs2) -> fits (xs1 ++ d :: xs2) ->
  list_rep t (list_insert_nth_as t l (length xs1) d) (xs1 ++ d :: xs2).
Proof.
  unfold fits. rewrite length_app; simpl length. intros Hrep Hfit.
  remember (xs1 ++ xs2) as xs eqn:Exs.
  destruct Hrep as [|n m es il xs' rest Hne -> -> Hm Hm26].
  - symmetry in Exs. apply app_eq_nil in Exs as [-> ->].
    apply (list_make_impl_rep t d 0 0 0 0).
  - unfold list_insert_nth_as, insert_new_cell; simpl.
    assert (Hlen : length xs' = (length xs1 + length xs2)%nat) by (by rewrite Exs, length_app).
    destruct (enlarge_room1 t m xs' rest il) as (m' & c & rest' & il' & -> & H1 & H2);
      [done|done|lia|]. simpl.
    assert (Hes : (Some <$> xs') ++ c :: rest' =
                  (Some <$> xs1) ++ (Some <$> xs2) ++ c :: rest')
      by (by rewrite Exs, fmap_app, <- app_assoc).
    assert (Hgoal : forall rest'', (length rest'' = length rest')%nat ->
      list_rep t (Some (mk_list t (length xs' + 1) m'
        ((Some <$> xs1) ++ Some d :: (Some <$> xs2) ++ rest'') il')) (xs1 ++ d :: xs2)).
    { intros rest'' Hr. eapply rep_header; [by destruct xs1|..|done].
      - rewrite length_app; simpl; lia.
      - by rewrite fmap_app, <- app_assoc.
      - rewrite length_app. simpl. rewrite length_app, !length_fmap. lia. }
    destruct (Nat.ltb_spec (length xs1) (length xs')) as [Hlt|Hge];
      unfold store, set_length, set_elements; simpl; rewrite Hes.
    + rewrite cells_at_app by (rewrite ?length_fmap; lia).
      replace (length xs1 + 1)%nat with (length (Some <$> xs1) + 1)%nat
        by (by rewrite length_fmap).
      rewrite splice_shift_up, splice_app by (by rewrite length_fmap).
      simpl. rewrite drop_0. by apply Hgoal.
    + destruct xs2 as [|y xs2]; simpl in *; [|lia].
      rewrite splice_app by (by rewrite length_fmap). simpl. rewrite drop_0. by apply Hgoal.
Qed.

(** ** Copies *)

Lemma fresh_copy_rep t k xs :
  xs <> [] -> k = length xs -> fits xs ->
  list_rep t (Some (set_elements (splice 0 (Some <$> xs) (l_elements (new_list t k)))
                      (new_list t k))) xs.
Proof.
  intros Hne -> Hfit.
  destruct (new_list_room t (length xs)) as (m & -> & H1 & H2);
    [by destruct xs; simpl; [|lia]|done|].
  by apply fresh_rep.
Qed.

Lemma list_copy_rep t l xs : list_rep t l xs -> fits xs -> list_rep t (list_copy l) xs.
Proof.
  intros [|n m es il xs' rest Hne -> -> Hm Hm26] Hfit; [constructor|]. simpl.
  rewrite cells_at_0_app by (by rewrite length_fmap). by apply fresh_copy_rep.
Qed.

Lemma list_copy_head_rep t l xs len :
  list_rep t l xs -> fits xs ->
  list_rep t (list_copy_head l len) (take (Z.to_nat len) xs).
Proof.
  intros [|n m es il xs' rest Hne -> -> Hm Hm26] Hfit; simpl.
  { rewrite take_nil. constructor. }
  destruct (Z.leb_spec len 0) as [Hle|Hgt].
  { replace (Z.to_nat len) with 0%nat by lia. constructor. }
  assert (Htk : forall k, k = Z.to_nat (Z.min (Z.of_nat (length xs')) len) ->
    cells_at 0 k ((Some <$> xs') ++ rest) = Some <$> take (Z.to_nat len) xs'
    /\ k = length (take (Z.to_nat len) xs')).
  { intros k ->. rewrite length_take. split; [|lia]. unfold cells_at. rewrite drop_0.
    rewrite take_app_le by (rewrite length_fmap; lia). rewrite <- fmap_take. f_equal.
    destruct (decide (Z.of_nat (length xs') <= len)).
    - rewrite !take_ge by lia. done.
    - f_equal. lia. }
  destruct (Htk _ eq_refl) as [-> Hk]. apply fresh_copy_rep; [|done|].
  - destruct xs'; [done|]. by destruct (Z.to_nat len) eqn:E; [lia|].
  - unfold fits in *. rewrite length_take. lia.
Qed.

Lemma list_copy_tail_rep t l xs nskip :
  list_rep t l xs -> fits xs ->
  list_rep t (list_copy_tail l nskip) (drop (Z.to_nat nskip) xs).
Proof.
  intros [|n m es il xs' rest Hne -> -> Hm Hm26] Hfit; unfold list_copy_tail; simpl.
  { rewrite drop_nil. constructor. }
  replace (if nskip <? 0 then 0%nat else Z.to_nat nskip) with (Z.to_nat nskip)
    by (destruct (Z.ltb_spec nskip 0); lia).
  set (k := Z.to_nat nskip).
  destruct (Nat.leb_spec (length xs') k) as [Hle|Hgt].
  { rewrite drop_ge by lia. constructor. }
  replace (cells_at k (length xs' - k) ((Some <$> xs') ++ rest)) with (Some <$> drop k xs').
  - apply fresh_copy_rep.
    + intros E. apply (f_equal length) in E. rewrite length_drop in E. simpl in E. lia.
    + by rewrite length_drop.
    + unfold fits in *. rewrite length_drop. lia.
  - rewrite <- (take_drop k xs') at 3. rewrite fmap_app, <- app_assoc.
    rewrite cells_at_app; [done|..]; rewrite length_fmap, ?length_take, ?length_drop; lia.
Qed.

Lemma list_copy_deep_rep t f l xs :
  list_rep t l xs -> fits xs -> list_rep t (list_copy_deep f l) (f <$> xs).
Proof.
  intros [|n m es il xs' rest Hne -> -> Hm Hm26] Hfit; [constructor|]. simpl.
  destruct (new_list_room t (length xs')) as (k & -> & H1 & H2);
    [by destruct xs'; simpl; [|lia]|done|].
  pose proof (for_up_ind (fun i nl => nl = mk_list t (length xs') k
     ((Some <$> (f <$> take i xs')) ++ replicate (k - i) None) true)
    (fun i newlist => store i (f (lfirst (mk_list t (length xs') m
       ((Some <$> xs') ++ rest) il) i)) newlist)
    (length xs') 0 (mk_list t (length xs') k (replicate k None) true)) as H.
  rewrite H; clear H.
  - simpl. rewrite firstn_all. apply rep_fill; [by destruct xs'|by rewrite length_fmap| |done].
    rewrite length_fmap, length_replicate. lia.
  - simpl. do 2 f_equal. lia.
  - intros i nl Hi ->. destruct (lookup_lt_is_Some_2 xs' i) as [x Hx]; [lia|].
    rewrite (lfirst_rep _ _ _ _ _ _ _ _ Hx).
    rewrite store_next by (rewrite length_fmap, length_take; lia).
    rewrite (take_S_r _ _ _ Hx), (fmap_app f), drop_replicate.
    by replace (k - i - 1)%nat with (k - S i)%nat by lia.
Qed.

(** ** Concatenation and truncation *)

Lemma list_concat_rep t l1 l2 xs ys :
  list_rep t l1 xs -> list_rep t l2 ys -> fits (xs ++ ys) ->
  list_rep t (list_concat l1 l2) (xs ++ ys).
Proof.
  unfold fits. rewrite length_app. intros H1 H2 Hfit.
  destruct H1 as [|n1 m1 es1 il1 xs rest1 Hne1 -> -> Hm1 Hb1].
  { apply list_copy_rep; [done|]. unfold fits. simpl in *. lia. }
  destruct H2 as [|n2 m2 es2 il2 ys rest2 Hne2 -> -> Hm2 Hb2]; simpl.
  { rewrite app_nil_r. by eapply rep_header. }
  destruct (enlarge_room t m1 xs rest1 il1 (length xs + length ys))
    as (m' & rest' & il' & -> & H1 & H2 & H3); [done|done|lia|lia|].
  unfold set_length, set_elements; simpl.
  rewrite cells_at_0_app by (by rewrite length_fmap).
  rewrite splice_app by (by rewrite length_fmap). rewrite app_assoc, <- fmap_app.
  apply rep_fill; [by destruct xs|by rewrite length_app| |done].
  rewrite length_app, length_drop, length_fmap. lia.
Qed.

Lemma list_concat_copy_rep t l1 l2 xs ys :
  list_rep t l1 xs -> list_rep t l2 ys -> fits (xs ++ ys) ->
  list_rep t (list_concat_copy l1 l2) (xs ++ ys).
Proof.
  unfold fits. rewrite length_app. intros H1 H2 Hfit.
  destruct H1 as [|n1 m1 es1 il1 xs rest1 Hne1 -> -> Hm1 Hb1].
  { apply list_copy_rep; [done|]. unfold fits. simpl in *. lia. }
  destruct H2 as [|n2 m2 es2 il2 ys rest2 Hne2 -> -> Hm2 Hb2].
  { rewrite app_nil_r. apply list_copy_rep; [by eapply rep_header|].
    unfold fits. simpl in *. lia. }
  cbn [list_concat_copy l_type l_length l_elements].
  rewrite !cells_at_0_app by (by rewrite length_fmap).
  destruct (new_list_room t (length xs + length ys)) as (m & -> & H1 & H2);
    [by destruct xs; simpl; [|lia]|lia|].
  unfold set_elements; simpl.
  rewrite splice_0, splice_app by (by rewrite length_fmap). rewrite app_assoc, <- fmap_app.
  apply rep_fill; [by destruct xs|by rewrite length_app| |done].
  rewrite !drop_replicate, length_replicate, length_app, !length_fmap. lia.
Qed.

Lemma list_truncate_rep t l xs k :
  list_rep t l xs -> list_rep t (list_truncate l k) (take (Z.to_nat k) xs).
Proof.
  unfold list_truncate. intros [|n m es il xs' rest Hne -> -> Hm Hm26].
  { rewrite take_nil. destruct (k <=? 0); constructor. }
  destruct (Z.leb_spec k 0) as [Hle|Hgt].
  { replace (Z.to_nat k) with 0%nat by lia. constructor. }
  simpl. destruct (Z.ltb_spec k (Z.of_nat (length xs'))) as [Hlt|Hge].
  - unfold set_length; simpl.
    eapply (rep_header t _ _ _ _ _ ((Some <$> drop (Z.to_nat k) xs') ++ rest)); [| | |done|done].
    + destruct xs'; [done|]. by destruct (Z.to_nat k) eqn:E; [lia|].
    + rewrite length_take. lia.
    + by rewrite app_assoc, <- fmap_app, take_drop.
  - rewrite take_ge by lia. by eapply rep_header.
Qed.

(** ** Deletion *)

Lemma list_delete_nth_cell_rep t l xs1 x xs2 :
  list_rep t (Some l) (xs1 ++ x :: xs2) ->
  list_rep t (list_delete_nth_cell l (length xs1)) (xs1 ++ xs2).
Proof.
  intros H. inversion H as [|n m es il xs rest Hne -> Hes Hm Hm26 El]; subst l.
  unfold list_delete_nth_cell; simpl. rewrite length_app; simpl.
  destruct (Nat.eqb_spec (length xs1 + S (length xs2)) 1) as [E|E].
  { destruct xs1, xs2; simpl in *; try lia. constructor. }
  unfold set_length, set_elements; simpl.
  assert (Hes' : es = ((Some <$> xs1) ++ [Some x]) ++ (Some <$> xs2) ++ rest)
    by (by rewrite Hes, fmap_app, fmap_cons, <- !app_assoc).
  rewrite Hes' at 1. rewrite cells_at_app; [|rewrite length_app, length_fmap; done
                                            |rewrite length_fmap; lia].
  rewrite Hes', <- app_assoc, splice_app by (by rewrite length_fmap).
  rewrite app_assoc, <- fmap_app.
  apply rep_fill; [destruct xs1, xs2; simpl in *; done || lia|rewrite length_app; lia| |done].
  rewrite Hm, Hes', length_drop, !length_app, !length_fmap; simpl. lia.
Qed.

(** The first element that satisfies [p], with what precedes and follows it. *)
Fixpoint first_match (p : Z -> bool) (xs : list Z) : option (list Z * Z * list Z) :=
  match xs with
  | [] => None
  | x :: xs =>
      if p x then Some ([], x, xs)
      else '(a, y, b) ← first_match p xs; Some (x :: a, y, b)
  end.

Lemma first_match_Some p xs a x b :
  first_match p xs = Some (a, x, b) ->
  xs = a ++ x :: b /\ p x = true /\ Forall (fun y => p y = false) a.
Proof.
  revert a; induction xs as [|y xs IH]; intros a; simpl; [done|].
  destruct (p y) eqn:Hy.
  - intros [= <- <- <-]. done.
  - destruct (first_match p xs) as [[[a' x'] b']|] eqn:E; simpl; [|done].
    intros [= <- -> ->]. destruct (IH a' eq_refl) as (-> & Hx & Ha). by repeat constructor.
Qed.

Lemma first_match_None p xs :
  first_match p xs = None -> Forall (fun y => p y = false) xs.
Proof.
  induction xs as [|y xs IH]; simpl; [done|].
  destruct (p y) eqn:Hy; [done|].
  destruct (first_match p xs) as [[[a' x'] b']|]; simpl; [done|].
  intros _. by constructor; [|apply IH].
Qed.

(** The search loop of the membership and deletion families. *)
Lemma search_from {R} t n m il (p : Z -> bool) (f : nat -> R) (d : R) pre xs rest :
  let l := mk_list t n m ((Some <$> (pre ++ xs)) ++ rest) il in
  after (for_up_ret (length xs) (length pre)
           (fun i (_ : unit) => if p (lfirst l i) then Return (f i) else Next tt) tt)
    (fun _ => d) =
  match first_match p xs with
  | Some (a, _, _) => f (length pre + length a)%nat
  | None => d
  end.
Proof.
  intros l. subst l. revert pre.
  induction xs as [|x xs IH]; intros pre; simpl; [done|].
  rewrite (lfirst_rep _ _ _ (pre ++ x :: xs) rest il (length pre) x)
    by (apply list_lookup_middle; done).
  destruct (p x); simpl; [by rewrite Nat.add_0_r|].
  specialize (IH (pre ++ [x])). rewrite length_app, <- app_assoc, Nat.add_1_r in IH.
  simpl in IH. rewrite IH.
  destruct (first_match p xs) as [[[a y] b]|]; simpl; [|done]. f_equal. lia.
Qed.

Lemma list_member_rep t eqb l xs d :
  list_rep t l xs -> list_member_as eqb l d = existsb (fun x => eqb x d) xs.
Proof.
  intros [|n m es il xs' rest Hne -> -> Hm Hm26]; [done|]. simpl.
  rewrite (search_from t _ m il (fun x => eqb x d) (fun _ => true) false [] xs' rest).
  clear. induction xs' as [|x xs IH]; simpl; [done|]. destruct (eqb x d); simpl; [done|].
  rewrite <- IH. by destruct (first_match _ xs) as [[[a y] b]|].
Qed.

(** What the deletion family removes: the first match only. *)
Definition remove_first (p : Z -> bool) (xs : list Z) : list Z :=
  match first_match p xs with Some (a, _, b) => a ++ b | None => xs end.

Lemma list_delete_rep t eqb l xs d :
  list_rep t l xs -> list_rep t (list_delete_as eqb l d) (remove_first (fun x => eqb x d) xs).
Proof.
  intros H. destruct l as [l|]; [|inversion H; constructor].
  inversion H as [|n m es il xs' rest Hne En Ees Em Hm26 El]; subst xs' n es l.
  simpl. rewrite (search_from t _ m il (fun x => eqb x d)
    (list_delete_cell (mk_list t (length xs) m ((Some <$> xs) ++ rest) il))
    (Some (mk_list t (length xs) m ((Some <$> xs) ++ rest) il)) [] xs rest).
  unfold remove_first.
  destruct (first_match _ xs) as [[[a x] b]|] eqn:E; [|done].
  apply first_match_Some in E as (Exs & _ & _). simpl.
  apply (list_delete_nth_cell_rep t _ a x b).
  by rewrite <- Exs.
Qed.

Lemma list_delete_first_rep t l xs :
  list_rep t l xs -> list_rep t (list_delete_first l) (tail xs).
Proof.
  intros H. destruct l as [l|]; [|inversion H; constructor].
  destruct xs as [|x xs]; [by inversion H|]. by apply (list_delete_nth_cell_rep t l [] x xs).
Qed.

Lemma list_delete_last_rep t l xs :
  list_rep t l xs -> list_rep t (list_delete_last l) (take (length xs - 1) xs).
Proof.
  intros H. unfold list_delete_last. rewrite (list_rep_length _ _ _ H).
  destruct l as [l|]; [|inversion H; constructor].
  destruct (Nat.leb_spec (length xs) 1) as [Hle|Hgt].
  - replace (length xs - 1)%nat with 0%nat by lia. constructor.
  - replace (length xs - 1)%nat with (Z.to_nat (Z.of_nat (length xs) - 1)) by lia.
    by apply list_truncate_rep.
Qed.

Lemma list_delete_first_n_rep t l xs n :
  list_rep t l xs -> list_rep t (list_delete_first_n l n) (drop (Z.to_nat n) xs).
Proof.
  intros H. unfold list_delete_first_n. rewrite (list_rep_length _ _ _ H).
  destruct (Z.leb_spec n 0) as [Hle|Hgt]; [by replace (Z.to_nat n) with 0%nat by lia|].
  destruct (Z.leb_spec (Z.of_nat (length xs)) n) as [Hle|Hlt].
  { rewrite drop_ge by lia. constructor. }
  destruct H as [|k m es il xs rest Hne -> -> Hm Hm26]; simpl in *; [lia|].
  set (j := Z.to_nat n) in *.
  assert (Hes : (Some <$> xs) ++ rest = (Some <$> take j xs) ++ (Some <$> drop j xs) ++ rest)
    by (by rewrite app_assoc, <- fmap_app, take_drop).
  unfold set_length, set_elements; simpl.
  assert (Hl : length (drop j xs) = (length xs - j)%nat) by apply length_drop.
  rewrite Hes at 1.
  rewrite cells_at_app; [|rewrite length_fmap, length_take; lia|rewrite length_fmap; lia].
  rewrite splice_0. apply rep_fill; [|by rewrite Hl| |done].
  - intros E. rewrite E in Hl. simpl in Hl. lia.
  - rewrite Hm, !length_drop, !length_app, !length_fmap, length_drop. lia.
Qed.

(** ** Set-like operations *)

Lemma foreach_cell_rep {S} t l xs (body : Z -> S -> S) s :
  list_rep t l xs -> foreach_cell l body s = foldl (fun s x => body x s) s xs.
Proof.
  intros [|n m es il xs' rest Hne -> -> Hm Hm26]; [done|]. simpl.
  assert (H : forall pre suf s, xs' = pre ++ suf ->
    for_up (length suf) (length pre)
      (fun i s => body (lfirst (mk_list t (length xs') m ((Some <$> xs') ++ rest) il) i) s) s
    = foldl (fun s x => body x s) s suf); [|by apply (H [])].
  intros pre suf. revert pre. induction suf as [|x suf IH]; intros pre s' E; simpl; [done|].
  rewrite (lfirst_rep _ _ _ _ _ _ (length pre) x)
    by (rewrite E; apply list_lookup_middle; done).
  specialize (IH (pre ++ [x])). rewrite length_app, Nat.add_1_r in IH. apply IH.
  by rewrite <- app_assoc.
Qed.

(** Appending the elements of [ys] that are not there yet. *)
Definition add_missing (eqb : Z -> Z -> bool) (xs ys : list Z) : list Z :=
  foldl (fun acc y => if existsb (fun x => eqb x y) acc then acc else acc ++ [y]) xs ys.

(** The elements of [xs] that have, or do not have, an equal in [ys]. *)
Definition keep (eqb : Z -> Z -> bool) (b : bool) (xs ys : list Z) : list Z :=
  filter (fun x => existsb (fun y => eqb y x) ys = b) xs.

Lemma keep_nil eqb b xs : keep eqb b xs [] = if b then [] else xs.
Proof.
  unfold keep. induction xs as [|x xs IH]; [by destruct b|].
  rewrite filter_cons, IH. by destruct b.
Qed.

Lemma append_missing_rep t eqb l1 l2 xs ys :
  list_rep t l1 xs -> list_rep t l2 ys -> fits (xs ++ ys) ->
  list_rep t (append_missing t eqb l2 l1) (add_missing eqb xs ys).
Proof.
  intros H1 H2 Hfit. unfold append_missing, add_missing.
  rewrite (foreach_cell_rep _ _ _ _ _ H2). clear H2 l2. revert l1 xs H1 Hfit.
  induction ys as [|y ys IH]; intros l1 xs H1 Hfit; simpl; [done|].
  rewrite (list_member_rep t eqb l1 xs y H1).
  unfold fits in Hfit. rewrite length_app in Hfit. simpl in Hfit.
  destruct (existsb _ xs); simpl; apply IH; unfold fits; rewrite ?length_app; simpl; try lia.
  - done.
  - apply lappend_rep; [done|]. unfold fits; rewrite length_app; simpl. lia.
Qed.

Lemma select_rep t (q p : Z -> bool) r acc xs :
  (forall x, q x = p x) -> list_rep t r acc -> fits (acc ++ xs) ->
  list_rep t (foldl (fun r x => if q x then lappend_as t r x else r) r xs)
    (acc ++ filter (fun x => p x = true) xs).
Proof.
  intros Hqp. revert r acc; induction xs as [|x xs IH]; intros r acc Hr Hfit; simpl.
  { by rewrite app_nil_r. }
  unfold fits in Hfit. rewrite length_app in Hfit. simpl in Hfit.
  rewrite filter_cons, Hqp. destruct (p x); simpl.
  - rewrite (cons_middle x), app_assoc. apply IH.
    + apply lappend_rep; [done|]. unfold fits; rewrite length_app; simpl. lia.
    + unfold fits; rewrite !length_app; simpl. lia.
  - apply IH; [done|]. unfold fits; rewrite length_app; lia.
Qed.

Lemma list_intersection_rep t eqb l1 l2 xs ys :
  list_rep t l1 xs -> list_rep t l2 ys -> fits xs ->
  list_rep t (list_intersection_as t eqb l1 l2) (keep eqb true xs ys).
Proof.
  intros H1 H2 Hfit. unfold list_intersection_as.
  destruct l1 as [l1|]; [|inversion H1; constructor].
  destruct l2 as [l2|]; [|inversion H2; rewrite keep_nil].
  - rewrite (foreach_cell_rep _ _ _ _ _ H1).
    apply (select_rep t _ _ None []); [|constructor|done].
    intros x. by apply (list_member_rep t).
  - constructor.
Qed.

Lemma list_difference_rep t eqb l1 l2 xs ys :
  list_rep t l1 xs -> list_rep t l2 ys -> fits xs ->
  list_rep t (list_difference_as t eqb l1 l2) (keep eqb false xs ys).
Proof.
  intros H1 H2 Hfit. unfold list_difference_as.
  destruct l2 as [l2|]; [|inversion H2; rewrite keep_nil].
  - rewrite (foreach_cell_rep _ _ _ _ _ H1).
    unfold keep. rewrite (list_filter_iff _ (fun x => negb (existsb (fun y => eqb y x) ys) = true))
      by (intros x; by destruct (existsb _ ys)).
    apply (select_rep t _ _ None []); [|constructor|done].
    intros x. f_equal. by apply (list_member_rep t).
  - by apply list_copy_rep.
Qed.

Lemma list_append_unique_rep t eqb l xs d :
  list_rep t l xs -> fits (xs ++ [d]) ->
  list_rep t (list_append_unique_as t eqb l d) (add_missing eqb xs [d]).
Proof.
  intros H Hfit. unfold list_append_unique_as, add_missing. simpl.
  rewrite (list_member_rep t eqb l xs d H).
  destruct (existsb _ xs); [done|]. by apply lappend_rep.
Qed.

(** With the identity of cells as equality these are the set operations. *)
Lemma existsb_eqb x xs : existsb (fun y => y =? x) xs = bool_decide (x ∈ xs).
Proof.
  induction xs as [|y xs IH]; simpl; [done|]. rewrite IH.
  destruct (Z.eqb_spec y x) as [->|Hne]; simpl.
  - symmetry. apply bool_decide_eq_true_2. by left.
  - apply bool_decide_ext. rewrite elem_of_cons. naive_solver.
Qed.

Lemma add_missing_set xs ys :
  (forall z, z ∈ add_missing Z.eqb xs ys <-> z ∈ xs \/ z ∈ ys)
  /\ (NoDup xs -> NoDup (add_missing Z.eqb xs ys))
  /\ exists new, add_missing Z.eqb xs ys = xs ++ new.
Proof.
  unfold add_missing. revert xs; induction ys as [|y ys IH]; intros xs; simpl.
  - split; [set_solver|]. split; [done|]. exists []. by rewrite app_nil_r.
  - rewrite existsb_eqb. case_bool_decide as Hy.
    + destruct (IH xs) as (He & Hnd & Hnew). split; [|done].
      intros z. rewrite He. set_solver.
    + destruct (IH (xs ++ [y])) as (He & Hnd & new & Hnew). split; [|split].
      * intros z. rewrite He. set_solver.
      * intros Hxs. apply Hnd, NoDup_app. split; [done|].
        split; [set_solver|]. apply NoDup_singleton.
      * exists (y :: new). by rewrite Hnew, <- app_assoc.
Qed.

Lemma keep_set b xs ys z :
  z ∈ keep Z.eqb b xs ys <-> z ∈ xs /\ bool_decide (z ∈ ys) = b.
Proof. unfold keep. rewrite list_elem_of_filter, existsb_eqb. naive_solver. Qed.

Lemma keep_NoDup b xs ys : NoDup xs -> NoDup (keep Z.eqb b xs ys).
Proof. apply NoDup_filter. Qed.

(** ** Deduplication *)

(** Drop each element that repeats its predecessor. *)
Fixpoint dedup_from (x : Z) (xs : list Z) : list Z :=
  match xs with
  | [] => [x]
  | y :: xs => if x =? y then dedup_from x xs else x :: dedup_from y xs
  end.

Definition dedup_adjacent (xs : list Z) : list Z :=
  match xs with [] => [] | x :: xs => dedup_from x xs end.

Lemma dedup_loop t n m il rest out x mid suf :
  exists ys rest',
    for_up (length suf) (length out + 1 + length mid)
      (fun j '(i, l) =>
         if negb (lfirst l i =? lfirst l j)
         then (S i, store (S i) (lfirst l j) l) else (i, l))
      (length out, mk_list t n m ((Some <$> (out ++ x :: mid ++ suf)) ++ rest) il)
    = ((length ys - 1)%nat, mk_list t n m ((Some <$> ys) ++ rest') il)
    /\ ys = out ++ dedup_from x suf
    /\ (length ys + length rest' = length out + 1 + length mid + length suf + length rest)%nat.
Proof.
  revert out x mid; induction suf as [|y suf IH]; intros out x mid; simpl.
  { exists (out ++ [x]), ((Some <$> mid) ++ rest). rewrite app_nil_r. split; [|split; [done|]].
    - rewrite length_app. simpl. f_equal; [lia|]. f_equal.
      rewrite !fmap_app, <- !app_assoc. done.
    - rewrite !length_app, length_fmap. simpl. lia. }
  rewrite (lfirst_rep _ _ _ _ _ _ (length out) x) by (apply list_lookup_middle; done).
  rewrite (lfirst_rep _ _ _ _ _ _ (length out + 1 + length mid) y).
  2:{ rewrite (cons_middle x), !app_assoc. apply list_lookup_middle.
      rewrite !length_app. simpl. lia. }
  destruct (Z.eqb_spec x y) as [->|Hne]; simpl.
  - specialize (IH out y (mid ++ [y])). rewrite <- app_assoc, length_app in IH. simpl in IH.
    replace (length out + 1 + (length mid + 1))%nat
      with (S (length out + 1 + length mid)) in IH by lia.
    destruct IH as (ys & rest' & E & Hys & Hl). exists ys, rest'.
    split; [done|]. split; [done|]. lia.
  - replace (store (S (length out)) y _) with
      (mk_list t n m ((Some <$> ((out ++ [x]) ++ y :: tail (mid ++ [y]) ++ suf)) ++ rest) il).
    + specialize (IH (out ++ [x]) y (tail (mid ++ [y]))).
      assert (Ht : length (tail (mid ++ [y])) = length mid)
        by (rewrite length_tl, length_app; simpl; lia).
      rewrite Ht, length_app in IH. simpl in IH.
      replace (length out + 1 + 1 + length mid)%nat
        with (S (length out + 1 + length mid)) in IH by lia.
      replace (S (length out)) with (length out + 1)%nat by lia.
      destruct IH as (ys & rest' & E & Hys & Hl). exists ys, rest'.
      split; [done|]. rewrite <- app_assoc in Hys. split; [done|]. lia.
    + unfold store, set_elements; simpl. f_equal.
      replace (out ++ x :: mid ++ y :: suf) with ((out ++ [x]) ++ mid ++ y :: suf)
        by (by rewrite <- app_assoc).
      rewrite !(fmap_app _ (out ++ [x])), <- !app_assoc.
      rewrite splice_app by (rewrite length_fmap, length_app; simpl; lia). f_equal.
      destruct mid as [|z mid]; simpl; rewrite ?drop_0; [done|].
      by rewrite <- app_assoc.
Qed.

Lemma dedup_from_ne x xs : dedup_from x xs <> [].
Proof. revert x; induction xs as [|y xs IH]; intros x; simpl; [done|]. by case_match. Qed.

Lemma list_deduplicate_oid_rep t l xs :
  list_rep t l xs -> list_rep t (list_deduplicate_oid l) (dedup_adjacent xs).
Proof.
  intros [|n m es il xs' rest Hne -> -> Hm Hm26]; [constructor|]. simpl.
  destruct xs' as [|x xs'']; [done|].
  destruct (Nat.ltb_spec 1 (length (x :: xs''))) as [Hlt|Hge].
  - destruct (dedup_loop t (length (x :: xs'')) m il rest [] x [] xs'')
      as (ys & rest' & E & Hys & Hl).
    simpl in E |- *. rewrite Nat.sub_0_r, E. unfold set_length; simpl in *.
    rewrite length_app, length_fmap in Hm. simpl in Hm.
    assert (ys <> []) by (rewrite Hys; apply dedup_from_ne).
    assert (length ys <> 0%nat) by (by destruct ys).
    rewrite <- Hys. apply rep_fill; [done|lia|lia|done].
  - destruct xs'' as [|y xs'']; simpl in *; [|lia]. by eapply rep_header.
Qed.

Lemma dedup_from_elem x xs z : z ∈ dedup_from x xs <-> z ∈ x :: xs.
Proof.
  revert x; induction xs as [|y xs IH]; intros x; simpl; [done|].
  destruct (Z.eqb_spec x y) as [->|Hne]; rewrite ?elem_of_cons, IH; set_solver.
Qed.

Lemma dedup_from_sorted x xs :
  StronglySorted Z.le (x :: xs) -> StronglySorted Z.lt (dedup_from x xs).
Proof.
  revert x; induction xs as [|y xs IH]; intros x Hs; simpl; [repeat constructor|].
  apply StronglySorted_inv in Hs as [Hs Hx].
  apply Forall_cons in Hx as [Hxy Hx].
  destruct (Z.eqb_spec x y) as [->|Hne]; [by apply IH|].
  constructor; [by apply IH|]. apply Forall_forall. intros z Hz.
  apply dedup_from_elem, elem_of_cons in Hz as [->|Hz]; [lia|].
  apply StronglySorted_inv in Hs as [_ Hy].
  rewrite Forall_forall in Hy. specialize (Hy z Hz). lia.
Qed.

(** ** Statements

    [refines t op f]: on lists tagged [t] that hold and are to hold a sequence
    within the size bound, [op] does to the represented sequence what [f] does;
    [refines2] is the same for an operation of two lists. *)
Definition refines (t : ltag) (op : option PgList -> option PgList)
    (f : list Z -> list Z) : Prop :=
  forall l xs, list_rep t l xs -> fits xs -> fits (f xs) -> list_rep t (op l) (f xs).

Definition refines2 (t : ltag) (op : option PgList -> option PgList -> option PgList)
    (f : list Z -> list Z -> list Z) : Prop :=
  forall l1 l2 xs ys, list_rep t l1 xs -> list_rep t l2 ys -> fits (xs ++ ys) ->
    list_rep t (op l1 l2) (f xs ys).

Lemma fits_app_l xs ys : fits (xs ++ ys) -> fits xs.
Proof. unfold fits. rewrite length_app. lia. Qed.

(** Building lists.  [list_make1] to [list_make5] hold their arguments in
    order; on lists of their own tag, NIL included, the append family adds its
    datum at the end, the cons family at the front, and the insertion family at
    position [pos] (with [pos] at most the length), shifting the later cells;
    the invariant of list.c holds of every result. *)
Theorem list_construction_refines (d d2 d3 d4 d5 : Z) (t : ltag) (pos : nat) :
  (list_rep t (list_make1_impl t d) [d]
   /\ list_rep t (list_make2_impl t d d2) [d; d2]
   /\ list_rep t (list_make3_impl t d d2 d3) [d; d2; d3]
   /\ list_rep t (list_make4_impl t d d2 d3 d4) [d; d2; d3; d4]
   /\ list_rep t (list_make5_impl t d d2 d3 d4 d5) [d; d2; d3; d4; d5])
  /\ (refines T_List (fun l => lappend l d) (fun xs => xs ++ [d])
      /\ refines T_IntList (fun l => lappend_int l d) (fun xs => xs ++ [d])
      /\ refines T_OidList (fun l => lappend_oid l d) (fun xs => xs ++ [d])
      /\ refines T_XidList (fun l => lappend_xid l d) (fun xs => xs ++ [d]))
  /\ (refines T_List (lcons d) (cons d)
      /\ refines T_IntList (lcons_int d) (cons d)
      /\ refines T_OidList (lcons_oid d) (cons d))
  /\ (forall xs1 xs2 l, length xs1 = pos -> fits (xs1 ++ d :: xs2) ->
      (list_rep T_List l (xs1 ++ xs2) ->
         list_rep T_List (list_insert_nth l pos d) (xs1 ++ d :: xs2))
      /\ (list_rep T_IntList l (xs1 ++ xs2) ->
         list_rep T_IntList (list_insert_nth_int l pos d) (xs1 ++ d :: xs2))
      /\ (list_rep T_OidList l (xs1 ++ xs2) ->
         list_rep T_OidList (list_insert_nth_oid l pos d) (xs1 ++ d :: xs2)))
  /\ (forall l xs, list_rep t l xs -> list_invariants l /\ list_length l = length xs).
Proof.
  split; [apply list_make_impl_rep|].
  split; [repeat split; intros l xs H _ Hf; by apply lappend_rep|].
  split; [repeat split; intros l xs H _ Hf; by apply lcons_rep|].
  split; [intros xs1 xs2 l <- Hf; repeat split; intros H; by apply list_insert_nth_rep|].
  intros l xs H. split; [by eapply list_rep_invariants|by eapply list_rep_length].
Qed.

Lemma list_construction_refines_witness :
  list_rep T_IntList (lappend_int (lappend_int None 7) 9) ([7] ++ [9]).
Proof.
  destruct (list_construction_refines 9 0 0 0 0 T_IntList 0) as (_ & (_ & H & _) & _).
  apply H; [|done|done].
  apply (rep_header T_IntList _ _ _ _ [7] (replicate 4 None)); done.
Defined.

(** Copying, concatenating and truncating.  [list_copy], [list_copy_head]
    and [list_copy_tail] (any [len], negative ones included) copy the whole, a
    prefix and a suffix; [list_copy_deep] copies every element through
    [copyObjectImpl]; [list_concat] and [list_concat_copy] hold the first
    sequence followed by the second, also when one of them is NIL;
    [list_truncate] keeps the first [new_size] elements. *)
Theorem list_copy_concat_refines (t : ltag) (k : Z) (copyObjectImpl : Z -> Z) :
  refines t list_copy (fun xs => xs)
  /\ refines t (fun l => list_copy_head l k) (take (Z.to_nat k))
  /\ refines t (fun l => list_copy_tail l k) (drop (Z.to_nat k))
  /\ refines t (list_copy_deep copyObjectImpl) (fmap copyObjectImpl)
  /\ refines t (fun l => list_truncate l k) (take (Z.to_nat k))
  /\ refines2 t list_concat app
  /\ refines2 t list_concat_copy app.
Proof.
  repeat split; first [intros l1 l2 xs ys H1 H2 Hf | intros l xs H Hf _].
  - by apply list_copy_rep.
  - by apply list_copy_head_rep.
  - by apply list_copy_tail_rep.
  - by apply list_copy_deep_rep.
  - by apply list_truncate_rep.
  - by apply list_concat_rep.
  - by apply list_concat_copy_rep.
Qed.

Lemma list_copy_concat_refines_witness :
  list_rep T_OidList (list_concat (list_make2_impl T_OidList 1 2) (list_make1_impl T_OidList 3))
    ([1; 2] ++ [3]).
Proof.
  destruct (list_copy_concat_refines T_OidList 0 (fun x => x)) as (_ & _ & _ & _ & _ & H & _).
  apply H; [| |done];
    [apply (rep_header T_OidList _ _ _ _ [1; 2] (replicate 3 None))
    |apply (rep_header T_OidList _ _ _ _ [3] (replicate 4 None))]; done.
Defined.

(** Deletion.  Deleting the [n]th cell closes the gap; the delete family
    removes the first element that compares equal to the datum and only that
    one, leaving the list alone when there is none; the first, the last and the
    first [n] elements are removed; a list that loses its last element becomes
    NIL. *)
Theorem list_deletion_refines (t : ltag) (equal : Z -> Z -> bool) (d n : Z) :
  (forall l xs1 x xs2, list_rep t (Some l) (xs1 ++ x :: xs2) ->
     list_rep t (list_delete_nth_cell l (length xs1)) (xs1 ++ xs2))
  /\ (forall l xs, list_rep t l xs ->
      exists ys, list_rep t (list_delete equal l d) ys
      /\ ((ys = xs /\ Forall (fun y => equal y d = false) xs)
          \/ exists a x b, xs = a ++ x :: b /\ ys = a ++ b /\ equal x d = true
                           /\ Forall (fun y => equal y d = false) a))
  /\ (forall l xs, list_rep t l xs ->
      list_delete_ptr l d = list_delete Z.eqb l d
      /\ list_delete_int l d = list_delete Z.eqb l d
      /\ list_delete_oid l d = list_delete Z.eqb l d
      /\ list_rep t (list_delete_first l) (tail xs)
      /\ list_rep t (list_delete_last l) (take (length xs - 1) xs)
      /\ list_rep t (list_delete_first_n l n) (drop (Z.to_nat n) xs))
  /\ (forall l x, list_rep t l [x] -> list_delete_first l = None).
Proof.
  split; [intros *; apply list_delete_nth_cell_rep|]. split; [|split].
  - intros l xs H. exists (remove_first (fun x => equal x d) xs).
    split; [by apply list_delete_rep|]. unfold remove_first.
    destruct (first_match _ xs) as [[[a x] b]|] eqn:E.
    + apply first_match_Some in E as (-> & Hx & Ha). right. by exists a, x, b.
    + left. by apply first_match_None in E.
  - intros l xs H. do 3 (split; [done|]).
    split; [by apply list_delete_first_rep|].
    split; [by apply list_delete_last_rep|by apply list_delete_first_n_rep].
  - intros l x H. by apply (list_rep_nil_inv t), (list_delete_first_rep t l [x]).
Qed.

Lemma list_deletion_refines_witness :
  list_rep T_IntList (list_delete_first_n (list_make3_impl T_IntList 5 6 7) 2) [7].
Proof.
  destruct (list_deletion_refines T_IntList Z.eqb 0 2) as (_ & _ & H & _).
  apply (H _ [5; 6; 7]).
  apply (rep_header T_IntList _ _ _ _ [5; 6; 7] (replicate 2 None)); done.
Defined.

(** Set-like operations.  Membership decides whether an equal element is
    present; union, concat_unique and append_unique append, in order, the
    elements that have no equal yet; intersection and difference keep, in
    order, the elements of the first list that have, or lack, an equal in the
    second.  With identity as equality (the ptr, int, oid and xid flavours)
    the results are the set union, intersection and difference, and a list
    without duplicates stays one. *)
Theorem list_set_operations_refine (equal : Z -> Z -> bool) (d : Z) :
  (refines2 T_List (list_union equal) (add_missing equal)
   /\ refines2 T_List list_union_ptr (add_missing Z.eqb)
   /\ refines2 T_IntList list_union_int (add_missing Z.eqb)
   /\ refines2 T_OidList list_union_oid (add_missing Z.eqb)
   /\ refines2 T_List (list_concat_unique equal) (add_missing equal)
   /\ refines2 T_List list_concat_unique_ptr (add_missing Z.eqb)
   /\ refines2 T_IntList list_concat_unique_int (add_missing Z.eqb)
   /\ refines2 T_OidList list_concat_unique_oid (add_missing Z.eqb))
  /\ (refines2 T_List (list_intersection equal) (keep equal true)
   /\ refines2 T_IntList list_intersection_int (keep Z.eqb true)
   /\ refines2 T_List (list_difference equal) (keep equal false)
   /\ refines2 T_List list_difference_ptr (keep Z.eqb false)
   /\ refines2 T_IntList list_difference_int (keep Z.eqb false)
   /\ refines2 T_OidList list_difference_oid (keep Z.eqb false))
  /\ (forall t l xs, list_rep t l xs ->
      list_member equal l d = existsb (fun x => equal x d) xs
      /\ list_member_ptr l d = bool_decide (d ∈ xs)
      /\ list_member_int l d = bool_decide (d ∈ xs)
      /\ list_member_oid l d = bool_decide (d ∈ xs)
      /\ list_member_xid l d = bool_decide (d ∈ xs))
  /\ (forall l xs, fits (xs ++ [d]) ->
      (list_rep T_List l xs ->
         list_rep T_List (list_append_unique equal l d) (add_missing equal xs [d])
         /\ list_rep T_List (list_append_unique_ptr l d) (add_missing Z.eqb xs [d]))
      /\ (list_rep T_IntList l xs ->
         list_rep T_IntList (list_append_unique_int l d) (add_missing Z.eqb xs [d]))
      /\ (list_rep T_OidList l xs ->
         list_rep T_OidList (list_append_unique_oid l d) (add_missing Z.eqb xs [d])))
  /\ (forall xs ys z,
      (z ∈ add_missing Z.eqb xs ys <-> z ∈ xs \/ z ∈ ys)
      /\ (z ∈ keep Z.eqb true xs ys <-> z ∈ xs /\ z ∈ ys)
      /\ (z ∈ keep Z.eqb false xs ys <-> z ∈ xs /\ z ∉ ys)
      /\ (NoDup xs -> NoDup (add_missing Z.eqb xs ys) /\ NoDup (keep Z.eqb true xs ys)
                      /\ NoDup (keep Z.eqb false xs ys))).
Proof.
  assert (Hu : forall t eqb, refines2 t (list_union_as t eqb) (add_missing eqb)).
  { intros t eqb l1 l2 xs ys H1 H2 Hf. apply append_missing_rep; [|done|done].
    apply list_copy_rep; [done|by eapply fits_app_l]. }
  assert (Hc : forall t eqb, refines2 t (list_concat_unique_as t eqb) (add_missing eqb))
    by (intros t eqb l1 l2 xs ys H1 H2 Hf; by apply append_missing_rep).
  assert (Hi : forall t eqb, refines2 t (list_intersection_as t eqb) (keep eqb true)).
  { intros t eqb l1 l2 xs ys H1 H2 Hf.
    apply list_intersection_rep; [done|done|by eapply fits_app_l]. }
  assert (Hd : forall t eqb, refines2 t (list_difference_as t eqb) (keep eqb false)).
  { intros t eqb l1 l2 xs ys H1 H2 Hf.
    apply list_difference_rep; [done|done|by eapply fits_app_l]. }
  split; [do 7 (split; [first [apply Hu | apply Hc]|]); apply Hc|].
  split; [do 5 (split; [first [apply Hi | apply Hd]|]); apply Hd|].
  split; [|split].
  - intros t l xs H. split; [by apply (list_member_rep t)|].
    rewrite <- existsb_eqb. repeat split; by apply (list_member_rep t).
  - intros l xs Hf. split; [intros H; split|split; intros H];
      by apply list_append_unique_rep.
  - intros xs ys z. destruct (add_missing_set xs ys) as (He & Hnd & _).
    rewrite He, !keep_set, bool_decide_eq_true, bool_decide_eq_false.
    do 3 (split; [tauto|]). intros Hx.
    split; [by apply Hnd|]. split; by apply keep_NoDup.
Qed.

Lemma list_set_operations_refine_witness :
  list_rep T_IntList
    (list_union_int (list_make2_impl T_IntList 1 2) (list_make2_impl T_IntList 2 4)) [1; 2; 4].
Proof.
  destruct (list_set_operations_refine Z.eqb 0) as ((_ & _ & H & _) & _).
  apply (H _ _ [1; 2] [2; 4]); [| |done];
    [apply (rep_header T_IntList _ _ _ _ [1; 2] (replicate 3 None))
    |apply (rep_header T_IntList _ _ _ _ [2; 4] (replicate 3 None))]; done.
Defined.

(** [list_deduplicate_oid], in place, leaves of each run of equal
    neighbours one element; on a list sorted by [list_oid_cmp] the result is
    strictly ascending, so without duplicates, and has the same elements. *)
Theorem list_deduplicate_oid_correct (l : option PgList) (xs : list Z)
    (Hrep : list_rep T_OidList l xs) :
  list_rep T_OidList (list_deduplicate_oid l) (dedup_adjacent xs)
  /\ (forall z, z ∈ dedup_adjacent xs <-> z ∈ xs)
  /\ (StronglySorted (fun a b => list_oid_cmp a b <= 0) xs ->
      StronglySorted (fun a b => list_oid_cmp a b < 0) (dedup_adjacent xs)
      /\ NoDup (dedup_adjacent xs)).
Proof.
  split; [by apply list_deduplicate_oid_rep|].
  assert (Hle : forall a b, list_oid_cmp a b <= 0 <-> a <= b)
    by (intros a b; unfold list_oid_cmp; destruct (Z.ltb_spec a b), (Z.gtb_spec a b); lia).
  assert (Hlt : forall a b, list_oid_cmp a b < 0 <-> a < b)
    by (intros a b; unfold list_oid_cmp; destruct (Z.ltb_spec a b), (Z.gtb_spec a b); lia).
  destruct xs as [|x xs]; simpl.
  { split; [done|]. intros _. split; constructor. }
  split; [intros z; apply dedup_from_elem|]. intros Hs.
  assert (Hss : StronglySorted Z.lt (dedup_from x xs)).
  { apply dedup_from_sorted. eapply StronglySorted_mono; [|exact Hs]. intros a b. apply Hle. }
  split.
  - eapply StronglySorted_mono; [|exact Hss]. intros a b. apply Hlt.
  - by apply StronglySorted_lt_NoDup.
Qed.

Lemma list_deduplicate_oid_correct_witness :
  list_rep T_OidList (list_deduplicate_oid (list_make4_impl T_OidList 3 3 5 5)) [3; 5].
Proof.
  apply (list_deduplicate_oid_correct _ [3; 3; 5; 5]).
  apply (rep_header T_OidList _ _ _ _ [3; 3; 5; 5] (replicate 1 None)); done.
Defined.

(** ** Reachable lists

    The Oid lists a caller can build from NIL with the operations of list.c,
    each called as its assertions ask and within the size bound. *)
Inductive oid_reachable : option PgList -> Prop :=
| reach_nil : oid_reachable None
| reach_append l d : oid_reachable l -> Z.of_nat (list_length l) < list_max ->
    oid_reachable (lappend_oid l d)
| reach_append_unique l d : oid_reachable l -> Z.of_nat (list_length l) < list_max ->
    oid_reachable (list_append_unique_oid l d)
| reach_cons l d : oid_reachable l -> Z.of_nat (list_length l) < list_max ->
    oid_reachable (lcons_oid d l)
| reach_insert l pos d : oid_reachable l -> Z.of_nat (list_length l) < list_max ->
    (pos <= list_length l)%nat -> oid_reachable (list_insert_nth_oid l pos d)
| reach_truncate l k : oid_reachable l -> oid_reachable (list_truncate l k)
| reach_delete l d : oid_reachable l -> oid_reachable (list_delete_oid l d)
| reach_delete_nth l n : oid_reachable (Some l) -> (n < l_length l)%nat ->
    oid_reachable (list_delete_nth_cell l n)
| reach_delete_first l : oid_reachable l -> oid_reachable (list_delete_first l)
| reach_delete_last l : oid_reachable l -> oid_reachable (list_delete_last l)
| reach_delete_first_n l n : oid_reachable l -> oid_reachable (list_delete_first_n l n)
| reach_dedup l : oid_reachable l -> oid_reachable (list_deduplicate_oid l)
| reach_concat l1 l2 : oid_reachable l1 -> oid_reachable l2 ->
    Z.of_nat (list_length l1 + list_length l2) <= list_max ->
    oid_reachable (list_concat l1 l2)
| reach_union l1 l2 : oid_reachable l1 -> oid_reachable l2 ->
    Z.of_nat (list_length l1 + list_length l2) <= list_max ->
    oid_reachable (list_union_oid l1 l2)
| reach_difference l1 l2 : oid_reachable l1 -> oid_reachable l2 ->
    Z.of_nat (list_length l1 + list_length l2) <= list_max ->
    oid_reachable (list_difference_oid l1 l2).

(** The size of an array is bounded, so that its byte size is below
    MaxAllocSize (2^30 - 1) and [length] fits an int. *)
Lemma list_rep_bounds t l xs :
  list_rep t (Some l) xs -> Z.of_nat (l_max_length l) * 8 + 24 <= 2 ^ 30 - 1.
Proof. inversion 1; subst. simpl l_max_length. change (2 ^ 30 - 1) with 1073741823.
  change (2 ^ 26) with 67108864 in *. lia.
Qed.

Lemma oid_reachable_rep l : oid_reachable l -> exists xs, list_rep T_OidList l xs.
Proof.
  assert (Hfit : forall l xs, list_rep T_OidList l xs ->
    Z.of_nat (list_length l) < list_max -> fits xs /\ forall d, fits (xs ++ [d])).
  { intros l' xs H Hl. rewrite (list_rep_length _ _ _ H) in Hl. unfold fits.
    split; [lia|]. intros d. rewrite length_app; simpl; lia. }
  assert (Hfit2 : forall l1 l2 xs ys, list_rep T_OidList l1 xs -> list_rep T_OidList l2 ys ->
    Z.of_nat (list_length l1 + list_length l2) <= list_max -> fits (xs ++ ys)).
  { intros l1 l2 xs ys H1 H2 Hl.
    rewrite (list_rep_length _ _ _ H1), (list_rep_length _ _ _ H2) in Hl.
    unfold fits. by rewrite length_app. }
  induction 1 as [|l d _ [xs H] Hl|l d _ [xs H] Hl|l d _ [xs H] Hl|l pos d _ [xs H] Hl Hpos
    |l k _ [xs H]|l d _ [xs H]|l n _ [xs H] Hn|l _ [xs H]|l _ [xs H]|l n _ [xs H]|l _ [xs H]
    |l1 l2 _ [xs H1] _ [ys H2] Hl|l1 l2 _ [xs H1] _ [ys H2] Hl|l1 l2 _ [xs H1] _ [ys H2] Hl].
  - eexists. constructor.
  - eexists. by apply lappend_rep, (Hfit l).
  - eexists. by apply list_append_unique_rep, (Hfit l).
  - eexists. apply lcons_rep; [done|]. destruct (Hfit l xs H Hl) as [_ Hf].
    specialize (Hf d). unfold fits in *. rewrite length_app in Hf. simpl in *. lia.
  - rewrite (list_rep_length _ _ _ H) in Hpos.
    exists (take pos xs ++ d :: drop pos xs).
    replace pos with (length (take pos xs)) at 1 by (rewrite length_take; lia).
    apply list_insert_nth_rep; [by rewrite take_drop|].
    destruct (Hfit l xs H Hl) as [_ Hf]. specialize (Hf d). unfold fits in *.
    rewrite length_app in *. simpl in *. rewrite length_take, length_drop. lia.
  - eexists. by apply list_truncate_rep.
  - eexists. by apply list_delete_rep.
  - pose proof (list_rep_length _ _ _ H) as Hlen. simpl in Hlen.
    destruct (lookup_lt_is_Some_2 xs n) as [x Hx]; [lia|].
    exists (take n xs ++ drop (S n) xs).
    replace n with (length (take n xs)) at 1 by (rewrite length_take; lia).
    eapply list_delete_nth_cell_rep. by rewrite (take_drop_middle _ _ _ Hx).
  - eexists. by apply list_delete_first_rep.
  - eexists. by apply list_delete_last_rep.
  - eexists. by apply list_delete_first_n_rep.
  - eexists. by apply list_deduplicate_oid_rep.
  - eexists. eapply list_concat_rep; eauto.
  - pose proof (Hfit2 _ _ _ _ H1 H2 Hl) as Hf. exists (add_missing Z.eqb xs ys).
    apply append_missing_rep; [|done|done].
    apply list_copy_rep; [done|by eapply fits_app_l].
  - eexists. eapply list_difference_rep; [exact H1|exact H2|].
    eapply fits_app_l, Hfit2; [exact H1|exact H2|done].
Qed.

(** C38: whatever sequence of operations builds it, an Oid list satisfies the
    invariant [check_list_invariants] asserts: a header has between one and
    [max_length] live cells, all of them written, in an array of exactly
    [max_length] cells whose allocation is below MaxAllocSize. *)
Theorem oid_reachable_invariant (l : option PgList) (Hr : oid_reachable l) :
  list_invariants l
  /\ match l with
     | None => True
     | Some l => l_type l = T_OidList /\ Z.of_nat (l_max_length l) * 8 + 24 <= 2 ^ 30 - 1
     end.
Proof.
  destruct (oid_reachable_rep l Hr) as [xs H].
  split; [by eapply list_rep_invariants|]. destruct l as [l|]; [|done].
  split; [by inversion H|by eapply list_rep_bounds].
Qed.

Lemma oid_reachable_invariant_witness :
  list_invariants (list_delete_first (lappend_oid (lcons_oid 4 None) 5)).
Proof.
  apply oid_reachable_invariant.
  apply reach_delete_first, reach_append; [apply reach_cons; [constructor|done]|done].
Defined.
