(* ===== verification/Sort.v ===== *)
(** The sort of include/lib/sort_template.h, from which pg_qsort (port/qsort.c) and the
    specialised sorts are generated.

    An array is a list of elements, and a pointer into it its position; an access outside
    the array is an error.  The comparison is a parameter.  Interrupts are not modelled. *)

From S2P Require Import Prelude.
Local Open Scope Z_scope.
Local Open Scope pg_scope.

Section sort.
Context {A : Type} (compare : A -> A -> Z).

(** ** Elements *)

(** [*p] *)
Definition elem (l : list A) (p : Z) : res A :=
  if p <? 0 then Err "access before the array"
  else match l !! Z.to_nat p with Some x => Ok x | None => Err "access behind the array" end.

(** [*p = x] *)
Definition assign (l : list A) (p : Z) (x : A) : res (list A) :=
  _ <-! elem l p ;; Ok (<[Z.to_nat p := x]> l).

Definition DO_COMPARE (l : list A) (p q : Z) : res Z :=
  x <-! elem l p ;; y <-! elem l q ;; Ok (compare x y).

Definition ST_SWAP (l : list A) (p q : Z) : res (list A) :=
  tmp <-! elem l p ;;
  y <-! elem l q ;;
  l <-! assign l p y ;;
  assign l q tmp.

(** [n] elements from [p] and from [q] on, the first first. *)
Fixpoint ST_SWAPN (n : nat) (l : list A) (p q : Z) : res (list A) :=
  match n with
  | O => Ok l
  | S n => l <-! ST_SWAP l p q ;; ST_SWAPN n l (p + 1) (q + 1)
  end.

Definition ST_MED3 (l : list A) (a b c : Z) : res Z :=
  ab <-! DO_COMPARE l a b ;;
  bc <-! DO_COMPARE l b c ;;
  if ab <? 0 then
    if bc <? 0 then Ok b else ac <-! DO_COMPARE l a c ;; Ok (if ac <? 0 then c else a)
  else if 0 <? bc then Ok b else ac <-! DO_COMPARE l a c ;; Ok (if ac <? 0 then a else c).

(** ** Few elements *)

(** [for (pl = pm; pl > a && DO_COMPARE(pl - 1, pl) > 0; pl--)] with [pl = a + k] *)
Fixpoint sink (k : nat) (a : Z) (l : list A) : res (list A) :=
  match k with
  | O => Ok l
  | S k' =>
      let pl := a + Z.of_nat k in
      c <-! DO_COMPARE l (pl - 1) pl ;;
      if 0 <? c then l <-! ST_SWAP l pl (pl - 1) ;; sink k' a l else Ok l
  end.

(** [for (pm = a + k; ...; pm++)], [m] times *)
Fixpoint insertion (m k : nat) (a : Z) (l : list A) : res (list A) :=
  match m with
  | O => Ok l
  | S m => l <-! sink k a l ;; insertion m (S k) a l
  end.

(** ** Presorted elements *)

(** [for (pm = a + k; ...; pm++)], [m] times *)
Fixpoint presorted (m : nat) (pm : Z) (l : list A) : res bool :=
  match m with
  | O => Ok true
  | S m =>
      c <-! DO_COMPARE l (pm - 1) pm ;;
      if 0 <? c then Ok false else presorted m (pm + 1) l
  end.

(** ** Partition *)

(** The position of the element to partition by. *)
Definition choose (l : list A) (a n : Z) : res Z :=
  let pm := a + n / 2 in
  if 7 <? n then
    let pl := a in
    let pn := a + (n - 1) in
    '(pl, pm, pn) <-!
      (if 40 <? n then
         let d := n / 8 in
         pl <-! ST_MED3 l pl (pl + d) (pl + 2 * d) ;;
         pm <-! ST_MED3 l (pm - d) pm (pm + d) ;;
         pn <-! ST_MED3 l (pn - 2 * d) (pn - d) pn ;;
         Ok (pl, pm, pn)
       else Ok (pl, pm, pn)) ;;
    ST_MED3 l pl pm pn
  else Ok pm.

(** [while (pb <= pc && (r = DO_COMPARE(pb, a)) <= 0)] *)
Fixpoint scan_up (fuel : nat) (a : Z) (l : list A) (pa pb pc : Z) : res (list A * Z * Z) :=
  match fuel with
  | O => Err "the loop does not end"
  | S fuel =>
      if pb <=? pc then
        r <-! DO_COMPARE l pb a ;;
        if r <=? 0 then
          '(l, pa) <-! (if r =? 0 then l <-! ST_SWAP l pa pb ;; Ok (l, pa + 1) else Ok (l, pa)) ;;
          scan_up fuel a l pa (pb + 1) pc
        else Ok (l, pa, pb)
      else Ok (l, pa, pb)
  end.

(** [while (pb <= pc && (r = DO_COMPARE(pc, a)) >= 0)] *)
Fixpoint scan_down (fuel : nat) (a : Z) (l : list A) (pb pc pd : Z) : res (list A * Z * Z) :=
  match fuel with
  | O => Err "the loop does not end"
  | S fuel =>
      if pb <=? pc then
        r <-! DO_COMPARE l pc a ;;
        if 0 <=? r then
          '(l, pd) <-! (if r =? 0 then l <-! ST_SWAP l pc pd ;; Ok (l, pd - 1) else Ok (l, pd)) ;;
          scan_down fuel a l pb (pc - 1) pd
        else Ok (l, pc, pd)
      else Ok (l, pc, pd)
  end.

(** [for (;;)] *)
Fixpoint partition (fuel : nat) (a : Z) (l : list A) (pa pb pc pd : Z) : res (list A * Z * Z * Z * Z) :=
  match fuel with
  | O => Err "the loop does not end"
  | S fuel' =>
      '(l, pa, pb) <-! scan_up fuel a l pa pb pc ;;
      '(l, pc, pd) <-! scan_down fuel a l pb pc pd ;;
      if pc <? pb then Ok (l, pa, pb, pc, pd)
      else
        l <-! ST_SWAP l pb pc ;;
        partition fuel' a l pa (pb + 1) (pc - 1) pd
  end.

(** The elements that equal the first are put in the middle: the array, and the numbers of
    lesser and greater elements. *)
Definition split_equal (l : list A) (a n pa pb pc pd : Z) : res (list A * Z * Z) :=
  let pn := a + n in
  let d1 := Z.min (pa - a) (pb - pa) in
  l <-! ST_SWAPN (Z.to_nat d1) l a (pb - d1) ;;
  let d1 := Z.min (pd - pc) (pn - pd - 1) in
  l <-! ST_SWAPN (Z.to_nat d1) l pb (pn - d1) ;;
  Ok (l, pb - pa, pd - pc).

(** ** The sort *)

(** [n] elements from [a] on.  [fuel] is for the calls and the jumps to the beginning,
    [depth] for the calls that are on the stack at a time. *)
Fixpoint ST_SORT (fuel depth : nat) (l : list A) (a n : Z) : res (list A) :=
  match fuel, depth with
  | O, _ => Err "the loop does not end"
  | _, O => Err "the stack is too small"
  | S fuel, S depth' =>
      if n <? 7 then insertion (Z.to_nat (n - 1)) 1 a l
      else
        sorted <-! presorted (Z.to_nat (n - 1)) (a + 1) l ;;
        if sorted : bool then Ok l
        else
          pm <-! choose l a n ;;
          l <-! ST_SWAP l a pm ;;
          '(l, pa, pb, pc, pd) <-! partition (Z.to_nat n) a l (a + 1) (a + 1) (a + (n - 1)) (a + (n - 1)) ;;
          '(l, d1, d2) <-! split_equal l a n pa pb pc pd ;;
          if d1 <=? d2 then
            l <-! (if 1 <? d1 then ST_SORT fuel depth' l a d1 else Ok l) ;;
            if 1 <? d2 then ST_SORT fuel depth l (a + n - d2) d2 else Ok l
          else
            l <-! (if 1 <? d2 then ST_SORT fuel depth' l (a + n - d2) d2 else Ok l) ;;
            if 1 <? d1 then ST_SORT fuel depth l a d1 else Ok l
  end.

(** The stack is as deep as the logarithm of the number of elements. *)
Definition stack_depth (n : Z) : nat := S (Z.to_nat (Z.log2 n)).

Definition pg_qsort (l : list A) (n : Z) : res (list A) := ST_SORT (S (Z.to_nat n)) (stack_depth n) l 0 n.
End sort.

Example sorts : pg_qsort Z.sub [5; 3; 9; 1; 5; 8; 2; 5; 7; 0; 6; 5] 12 = Ok [0; 1; 2; 3; 5; 5; 5; 5; 6; 7; 8; 9].
Proof. vm_compute. reflexivity. Qed.

(** A comparison that is no order does no harm. *)
Example sorts_nothing : pg_qsort (fun _ _ => 1) [5; 3; 9; 1; 5; 8; 2] 7 = Ok [1; 2; 8; 5; 5; 9; 3].
Proof. vm_compute. reflexivity. Qed.
