(* ===== verification/SortSpec.v ===== *)
(** The parts of the sort: insertion, the choice of an element, partition, exchange of
    blocks.  Each is stated for a segment of an array, and for any comparison: nothing here
    needs an order. *)

From S2P Require Import Prelude Sort.
Local Open Scope Z_scope.
Local Open Scope pg_scope.

Section parts.
Context {A : Type} (compare : A -> A -> Z).
Implicit Types (l pre seg post : list A) (x y : A).

(** ** Elements *)

Lemma elem_at pre x post p : p = Z.of_nat (length pre) -> elem (pre ++ x :: post) p = Ok x.
Proof. intros ->. unfold elem. destruct (Z.ltb_spec (Z.of_nat (length pre)) 0); [lia|]. by rewrite Nat2Z.id, list_lookup_middle. Qed.

Lemma assign_at pre x y post p : p = Z.of_nat (length pre) -> assign (pre ++ x :: post) p y = Ok (pre ++ y :: post).
Proof. intros Hp. unfold assign. rewrite (elem_at pre x post p Hp). cbn [res_bind]. rewrite Hp, Nat2Z.id. by rewrite insert_app_r_alt, Nat.sub_diag by lia. Qed.

Lemma swap_at pre x mid y post p q : p = Z.of_nat (length pre) -> q = p + 1 + Z.of_nat (length mid) ->
  ST_SWAP (pre ++ x :: mid ++ y :: post) p q = Ok (pre ++ y :: mid ++ x :: post) /\ ST_SWAP (pre ++ x :: mid ++ y :: post) q p = Ok (pre ++ y :: mid ++ x :: post).
Proof.
  intros Hp Hq. assert (Hq' : forall z, q = Z.of_nat (length (pre ++ z :: mid))) by (intros z; rewrite length_app; cbn [length]; lia).
  assert (E : forall z z', pre ++ z :: mid ++ z' :: post = (pre ++ z :: mid) ++ z' :: post) by (intros; by rewrite <- app_assoc).
  assert (E1 : elem (pre ++ x :: mid ++ y :: post) q = Ok y) by (rewrite E; by apply elem_at). unfold ST_SWAP. rewrite (elem_at pre x (mid ++ y :: post) p Hp), E1. cbn [res_bind]. split.
  - rewrite (assign_at pre x y _ p Hp). cbn [res_bind]. rewrite !E. by apply assign_at.
  - rewrite E, (assign_at (pre ++ x :: mid) y x post q) by done. cbn [res_bind]. rewrite <- E. by apply assign_at.
Qed.

Lemma swap_same pre x post p : p = Z.of_nat (length pre) -> ST_SWAP (pre ++ x :: post) p p = Ok (pre ++ x :: post).
Proof. intros Hp. unfold ST_SWAP. rewrite (elem_at pre x post p Hp). cbn [res_bind]. rewrite (assign_at pre x x post p Hp). cbn [res_bind]. by apply assign_at. Qed.

Lemma compare_at pre x mid y post p q : p = Z.of_nat (length pre) -> q = p + 1 + Z.of_nat (length mid) ->
  DO_COMPARE compare (pre ++ x :: mid ++ y :: post) p q = Ok (compare x y) /\ DO_COMPARE compare (pre ++ x :: mid ++ y :: post) q p = Ok (compare y x).
Proof.
  intros Hp Hq. unfold DO_COMPARE. rewrite (elem_at pre x _ p Hp). assert (E : pre ++ x :: mid ++ y :: post = (pre ++ x :: mid) ++ y :: post) by (by rewrite <- app_assoc). rewrite E, (elem_at (pre ++ x :: mid) y post q) by (rewrite length_app; cbn [length]; lia). done.
Qed.

(** A position inside a segment. *)
Definition inside (pre seg : list A) (p : Z) : Prop := Z.of_nat (length pre) <= p < Z.of_nat (length pre) + Z.of_nat (length seg).

Lemma inside_split pre seg p : inside pre seg p -> exists s1 x s2, seg = s1 ++ x :: s2 /\ p = Z.of_nat (length pre) + Z.of_nat (length s1).
Proof.
  intros [H1 H2]. set (k := Z.to_nat (p - Z.of_nat (length pre))). destruct (lookup_lt_is_Some_2 seg k) as [x Hx]; [unfold k; lia|]. exists (take k seg), x, (drop (S k) seg). split; [symmetry; by apply take_drop_middle|]. rewrite length_take. unfold k. lia.
Qed.

Lemma elem_inside pre seg post p : inside pre seg p -> exists x, elem (pre ++ seg ++ post) p = Ok x.
Proof. intros (s1 & x & s2 & -> & Hp)%inside_split. exists x. rewrite <- (app_assoc s1). cbn [app]. rewrite app_assoc. apply elem_at. rewrite length_app. lia. Qed.

Lemma compare_inside pre seg post p q : inside pre seg p -> inside pre seg q -> exists c, DO_COMPARE compare (pre ++ seg ++ post) p q = Ok c.
Proof. intros Hp Hq. unfold DO_COMPARE. destruct (elem_inside pre seg post p Hp) as [x ->], (elem_inside pre seg post q Hq) as [y ->]. by eexists. Qed.

(** The median is one of the three. *)
Lemma med3_inside pre seg post a b c : inside pre seg a -> inside pre seg b -> inside pre seg c -> exists m, ST_MED3 compare (pre ++ seg ++ post) a b c = Ok m /\ inside pre seg m.
Proof.
  intros Ha Hb Hc. unfold ST_MED3. destruct (compare_inside pre seg post a b Ha Hb) as [ab ->], (compare_inside pre seg post b c Hb Hc) as [bc ->], (compare_inside pre seg post a c Ha Hc) as [ac ->]. cbn [res_bind].
  destruct (ab <? 0), (bc <? 0), (0 <? bc); eexists; (split; [done|]); try done; by destruct (ac <? 0).
Qed.

Lemma choose_inside pre seg post a n : a = Z.of_nat (length pre) -> n = Z.of_nat (length seg) -> 7 <= n -> exists m, choose compare (pre ++ seg ++ post) a n = Ok m /\ inside pre seg m.
Proof.
  intros -> -> Hn. unfold choose. set (n := Z.of_nat (length seg)) in *. set (a := Z.of_nat (length pre)). assert (Hd : 0 <= n / 8 /\ 8 * (n / 8) <= n /\ 0 <= n / 2 /\ 2 * (n / 2) <= n /\ n <= 2 * (n / 2) + 1) by (pose proof (Z.div_mod n 8); pose proof (Z.mod_pos_bound n 8); pose proof (Z.div_mod n 2); pose proof (Z.mod_pos_bound n 2); lia).
  assert (Hin : forall k, 0 <= k < n -> inside pre seg (a + k)) by (intros k Hk; unfold inside; fold n a; lia). destruct (7 <? n); [|exists (a + n / 2); split; [done|apply Hin; lia]].
  set (d := n / 8) in *. set (h := n / 2) in *. clearbody d h. destruct (40 <? n); cbn [res_bind].
  - destruct (med3_inside pre seg post a (a + d) (a + 2 * d)) as (m1 & -> & H1); [replace a with (a + 0) at 1 by lia; apply Hin; lia|apply Hin; lia|apply Hin; lia|]. cbn [res_bind].
    destruct (med3_inside pre seg post (a + h - d) (a + h) (a + h + d)) as (m2 & -> & H2); [replace (a + h - d) with (a + (h - d)) by lia; apply Hin; lia|apply Hin; lia|replace (a + h + d) with (a + (h + d)) by lia; apply Hin; lia|]. cbn [res_bind].
    destruct (med3_inside pre seg post (a + (n - 1) - 2 * d) (a + (n - 1) - d) (a + (n - 1))) as (m3 & -> & H3); [replace (a + (n - 1) - 2 * d) with (a + (n - 1 - 2 * d)) by lia; apply Hin; lia|replace (a + (n - 1) - d) with (a + (n - 1 - d)) by lia; apply Hin; lia|apply Hin; lia|]. cbn [res_bind].
    by apply med3_inside.
  - apply med3_inside; [replace a with (a + 0) by lia; apply Hin; lia|apply Hin; lia|apply Hin; lia].
Qed.

(** The chosen element goes to the front. *)
Lemma swap_first pre x seg post a m : a = Z.of_nat (length pre) -> inside pre (x :: seg) m ->
  exists p rest, ST_SWAP (pre ++ x :: seg ++ post) a m = Ok (pre ++ p :: rest ++ post) /\ p :: rest ≡ₚ x :: seg.
Proof.
  intros Ha (s1 & y & s2 & E & Hm)%inside_split. destruct s1 as [|x' s1]; cbn [app] in E; injection E as -> ->.
  - exists y, s2. split; [|reflexivity]. cbn [length] in Hm. replace m with a by lia. by apply swap_same.
  - exists y, (s1 ++ x' :: s2). rewrite <- !app_assoc. cbn [app]. split; [apply (swap_at pre x' s1 y (s2 ++ post) a m); [done|cbn [length] in Hm; lia]|]. rewrite <- !Permutation_middle. apply Permutation_swap.
Qed.

(** ** Blocks *)

Lemma swapn_blocks pre X mid Y post : length X = length Y ->
  ST_SWAPN (length X) (pre ++ X ++ mid ++ Y ++ post) (Z.of_nat (length pre)) (Z.of_nat (length pre) + Z.of_nat (length X) + Z.of_nat (length mid)) = Ok (pre ++ Y ++ mid ++ X ++ post).
Proof.
  revert pre mid Y. induction X as [|x X IH]; intros pre mid [|y Y] Hl; try done; cbn [length ST_SWAPN app] in *.
  pose proof (proj1 (swap_at pre x (X ++ mid) y (Y ++ post) (Z.of_nat (length pre)) (Z.of_nat (length pre) + Z.of_nat (S (length X)) + Z.of_nat (length mid)) eq_refl ltac:(rewrite length_app; lia))) as E. rewrite <- !app_assoc in E. rewrite E. cbn [res_bind].
  specialize (IH (pre ++ [y]) (mid ++ [x]) Y ltac:(lia)). rewrite !length_app in IH. cbn [length] in IH. rewrite <- !app_assoc in IH. cbn [app] in IH. rewrite <- IH. f_equal; lia.
Qed.

(** The shorter of two neighbours changes places with the end, or the beginning, of the
    other: both have then changed places. *)
Lemma exchange pre S T post a b : a = Z.of_nat (length pre) -> b = a + Z.of_nat (length S) + Z.of_nat (length T) ->
  let d := Z.min (Z.of_nat (length S)) (Z.of_nat (length T)) in
  exists S' T', ST_SWAPN (Z.to_nat d) (pre ++ S ++ T ++ post) a (b - d) = Ok (pre ++ T' ++ S' ++ post) /\ S' ≡ₚ S /\ T' ≡ₚ T.
Proof.
  intros Ha Hb d. destruct (decide (length S <= length T)%nat) as [Hle|Hgt].
  - set (k := (length T - length S)%nat). pose proof (swapn_blocks pre S (take k T) (drop k T) post ltac:(rewrite length_drop; unfold k; lia)) as E. rewrite length_take, !(app_assoc (take k T)), take_drop in E. exists S, (drop k T ++ take k T).
    replace (Z.to_nat d) with (length S) by (unfold d; lia). replace (b - d) with (Z.of_nat (length pre) + Z.of_nat (length S) + Z.of_nat (k `min` length T)) by (unfold d, k; lia). rewrite Ha, E. split; [by rewrite <- !app_assoc|]. split; [done|]. rewrite Permutation_app_comm. by rewrite take_drop.
  - set (k := length T). pose proof (swapn_blocks pre (take k S) (drop k S) T post ltac:(rewrite length_take; unfold k; lia)) as E. rewrite length_take, length_drop, !(app_assoc (take k S)), take_drop in E. exists (drop k S ++ take k S), T.
    replace (Z.to_nat d) with (k `min` length S)%nat by (unfold d, k; lia). replace (b - d) with (Z.of_nat (length pre) + Z.of_nat (k `min` length S) + Z.of_nat (length S - k)) by (unfold d, k; lia). rewrite Ha, E. split; [by rewrite <- !app_assoc|]. split; [|done]. rewrite Permutation_app_comm. by rewrite take_drop.
Qed.

(** ** Insertion *)

(** An element sinks to where the one before is not greater. *)
Lemma sink_spec S : forall pre x post a k, a = Z.of_nat (length pre) -> k = length S ->
  exists S1 S2, sink compare k a (pre ++ S ++ x :: post) = Ok (pre ++ S1 ++ x :: S2 ++ post) /\ S = S1 ++ S2 /\ Forall (fun y => 0 < compare y x) S2
  /\ (S1 = [] \/ exists S0 y, S1 = S0 ++ [y] /\ compare y x <= 0).
Proof.
  induction S as [|y S IH] using rev_ind; intros pre x post a k Ha ->; [exists [], []; split; [done|]; split; [done|]; split; [constructor|by left]|].
  rewrite length_app, Nat.add_comm. cbn [length Nat.add sink]. rewrite <- app_assoc. cbn [app]. set (pl := a + Z.of_nat (Datatypes.S (length S))).
  assert (Hp : pl - 1 = Z.of_nat (length (pre ++ S))) by (rewrite length_app; unfold pl; lia). pose proof (compare_at (pre ++ S) y [] x post (pl - 1) pl Hp ltac:(cbn [length]; lia)) as [E _]. cbn [app] in E. rewrite <- app_assoc in E. rewrite E. cbn [res_bind].
  destruct (Z.ltb_spec 0 (compare y x)) as [Hc|Hc]; [|exists (S ++ [y]), []; rewrite <- app_assoc, app_nil_r; split; [done|]; split; [done|]; split; [constructor|right; by exists S, y]].
  pose proof (swap_at (pre ++ S) y [] x post (pl - 1) pl Hp ltac:(cbn [length]; lia)) as [_ E']. cbn [app] in E'. rewrite <- !app_assoc in E'. cbn [app] in E'. rewrite E'. cbn [res_bind].
  destruct (IH pre x (y :: post) a (length S) Ha eq_refl) as (S1 & S2 & -> & -> & HF & HS). exists S1, (S2 ++ [y]). rewrite <- !app_assoc. split; [done|]. split; [done|]. split; [|done]. apply Forall_app. split; [done|]. by constructor.
Qed.

(** ** Presorted elements *)

Lemma presorted_spec T : forall pre x post pm m, pm = Z.of_nat (length pre) + 1 -> m = length T ->
  exists b, presorted compare m pm (pre ++ x :: T ++ post) = Ok b /\ (b = true -> Sorted (fun y z => compare y z <= 0) (x :: T)).
Proof.
  induction T as [|y T IH]; intros pre x post pm m Hpm ->; cbn [length presorted app]; [exists true; split; [done|]; intros _; by repeat constructor|].
  pose proof (compare_at pre x [] y (T ++ post) (pm - 1) pm ltac:(lia) ltac:(cbn [length]; lia)) as [E _]. cbn [app] in E. rewrite E. cbn [res_bind]. destruct (Z.ltb_spec 0 (compare x y)) as [Hc|Hc]; [by exists false|].
  destruct (IH (pre ++ [x]) y post (pm + 1) (length T)) as (b & Eb & Hb); [rewrite length_app; cbn [length]; lia|done|]. rewrite <- app_assoc in Eb. cbn [app] in Eb. exists b. split; [done|]. intros Ht. constructor; [by apply Hb|]. by constructor.
Qed.
End parts.

(** * Partition by the first element *)

Section pivot.
Context {A : Type} (compare : A -> A -> Z) (p : A).

(** What a comparison with the element in front has said. *)
Definition same (x : A) : Prop := compare x p = 0.
Definition less (x : A) : Prop := compare x p < 0.
Definition more (x : A) : Prop := 0 < compare x p.

(** The first elements that are not greater are taken from [U]: equal ones go to [E], the
    others to [L]. *)
Lemma scan_up_spec U : forall fuel pre E L post a pa pb pc, (length U < fuel)%nat -> a = Z.of_nat (length pre) -> pa = a + 1 + Z.of_nat (length E) -> pb = pa + Z.of_nat (length L) -> pc = pb + Z.of_nat (length U) - 1 ->
  Forall same E -> Forall less L ->
  exists E' L' U', scan_up compare fuel a (pre ++ p :: E ++ L ++ U ++ post) pa pb pc = Ok (pre ++ p :: E' ++ L' ++ U' ++ post, a + 1 + Z.of_nat (length E'), a + 1 + Z.of_nat (length E') + Z.of_nat (length L'))
  /\ E' ++ L' ++ U' ≡ₚ E ++ L ++ U /\ Forall same E' /\ Forall less L' /\ (length U' <= length U)%nat /\ (U' = [] \/ exists x U0, U' = x :: U0 /\ more x).
Proof.
  induction U as [|x U IH]; intros [|fuel] pre E L post a pa pb pc Hf Ha Hpa Hpb Hpc HE HL; cbn [length] in *; try lia; cbn [scan_up].
  - destruct (Z.leb_spec pb pc); [lia|]. exists E, L, []. rewrite Hpb, Hpa. do 5 (split; [done|]). by left.
  - destruct (Z.leb_spec pb pc); [|lia]. pose proof (compare_at compare pre p (E ++ L) x (U ++ post) a pb Ha ltac:(rewrite length_app; lia)) as [_ Ec]. rewrite <- !app_assoc in Ec. cbn [app] in *. rewrite Ec. cbn [res_bind].
    destruct (Z.leb_spec (compare x p) 0) as [Hle|Hgt]; [|exists E, L, (x :: U); rewrite Hpb, Hpa; do 5 (split; [done|]); right; by exists x, U]. destruct (Z.eqb_spec (compare x p) 0) as [He|Hne].
    + assert (Es : exists L2, ST_SWAP (pre ++ p :: E ++ L ++ x :: U ++ post) pa pb = Ok (pre ++ p :: (E ++ [x]) ++ L2 ++ U ++ post) /\ length L2 = length L /\ Forall less L2 /\ E ++ [x] ++ L2 ++ U ≡ₚ E ++ L ++ x :: U).
      { destruct L as [|y L].
        - exists []. cbn [length app] in *. replace pb with pa by lia. pose proof (swap_same (pre ++ p :: E) x (U ++ post) pa ltac:(rewrite length_app; cbn [length]; lia)) as Es. rewrite <- !app_assoc in *. cbn [app] in *. by rewrite Es.
        - exists (L ++ [y]). inversion HL as [|? ? Hy HL']; subst y L. pose proof (proj1 (swap_at (pre ++ p :: E) x0 l x (U ++ post) pa pb ltac:(rewrite length_app; cbn [length]; lia) ltac:(cbn [length] in *; lia))) as Es. rewrite <- !app_assoc in *. cbn [app] in *. rewrite Es. split; [done|].
          split; [rewrite length_app; cbn [length]; lia|]. split; [apply Forall_app; split; [done|by repeat constructor]|]. rewrite <- !Permutation_middle. apply Permutation_swap. }
      destruct Es as (L2 & -> & Hl2 & HL2 & Hperm). cbn [res_bind]. destruct (IH fuel pre (E ++ [x]) L2 post a (pa + 1) (pb + 1) pc ltac:(lia) Ha) as (E' & L' & U' & Er & Hp & H1 & H2 & H3 & H4); try (rewrite length_app; cbn [length]; lia); try lia; [apply Forall_app; split; [done|by repeat constructor]|done|].
      exists E', L', U'. split; [exact Er|]. split; [rewrite Hp, <- app_assoc; exact Hperm|]. do 2 (split; [done|]). split; [lia|done].
    + cbn [res_bind]. destruct (IH fuel pre E (L ++ [x]) post a pa (pb + 1) pc ltac:(lia) Ha) as (E' & L' & U' & Er & Hp & H1 & H2 & H3 & H4); try (rewrite length_app; cbn [length]; lia); try lia; [done|apply Forall_app; split; [done|repeat constructor; unfold less; lia]|].
      rewrite <- !app_assoc in *. cbn [app] in *. exists E', L', U'. do 4 (split; [done|]). split; [lia|done].
Qed.

(** The last elements that are not less are taken from [U]: equal ones go to [E], the others
    to [G]. *)
Lemma scan_down_spec U : forall fuel pre F G E post a pb pc pd, (length U < fuel)%nat -> a = Z.of_nat (length pre) -> pb = a + 1 + Z.of_nat (length F) -> pc = pb + Z.of_nat (length U) - 1 -> pd = pc + Z.of_nat (length G) ->
  Forall more G -> Forall same E ->
  exists U' G' E', scan_down compare fuel a (pre ++ p :: F ++ U ++ G ++ E ++ post) pb pc pd = Ok (pre ++ p :: F ++ U' ++ G' ++ E' ++ post, pb + Z.of_nat (length U') - 1, pb + Z.of_nat (length U') - 1 + Z.of_nat (length G'))
  /\ U' ++ G' ++ E' ≡ₚ U ++ G ++ E /\ Forall more G' /\ Forall same E' /\ (exists V, U = U' ++ V) /\ (U' = [] \/ exists U0 y, U' = U0 ++ [y] /\ less y).
Proof.
  induction U as [|x U IH] using rev_ind; intros [|fuel] pre F G E post a pb pc pd Hf Ha Hpb Hpc Hpd HG HE; rewrite ?length_app in *; cbn [length] in *; try lia; cbn [scan_down].
  - destruct (Z.leb_spec pb pc); [lia|]. exists [], G, E. rewrite Hpd, Hpc. do 4 (split; [done|]). split; [by exists []|by left].
  - destruct (Z.leb_spec pb pc); [|lia]. pose proof (compare_at compare pre p (F ++ U) x (G ++ E ++ post) a pc Ha ltac:(rewrite length_app; lia)) as [_ Ec]. rewrite <- !app_assoc in *. cbn [app] in *. rewrite Ec. cbn [res_bind].
    destruct (Z.leb_spec 0 (compare x p)) as [Hge|Hlt]; [|exists (U ++ [x]), G, E; rewrite Hpd, Hpc, !length_app, <- !app_assoc; do 4 (split; [done|]); split; [exists []; by rewrite app_nil_r|right; by exists U, x]]. destruct (Z.eqb_spec (compare x p) 0) as [He|Hne].
    + assert (Es : exists G2, ST_SWAP (pre ++ p :: F ++ U ++ x :: G ++ E ++ post) pc pd = Ok (pre ++ p :: F ++ U ++ G2 ++ (x :: E) ++ post) /\ length G2 = length G /\ Forall more G2 /\ G2 ++ x :: E ≡ₚ x :: G ++ E).
      { destruct G as [|y G _] using rev_ind.
        - exists []. cbn [length app] in *. replace pd with pc by lia. pose proof (swap_same (pre ++ p :: F ++ U) x (E ++ post) pc ltac:(rewrite !length_app; cbn [length]; rewrite length_app; lia)) as Es. rewrite <- !app_assoc in *. cbn [app] in *. rewrite <- !app_assoc in *. by rewrite Es.
        - exists (y :: G). apply Forall_app in HG as [HG Hy]. rewrite length_app in Hpd |- *. cbn [length] in *. pose proof (proj1 (swap_at (pre ++ p :: F ++ U) x G y (E ++ post) pc pd ltac:(rewrite !length_app; cbn [length]; rewrite length_app; lia) ltac:(lia))) as Es.
          rewrite <- !app_assoc in *. cbn [app] in *. rewrite <- !app_assoc in *. rewrite Es. split; [done|]. split; [lia|]. split; [constructor; [by inversion Hy|done]|]. rewrite <- !Permutation_middle. apply Permutation_swap. }
      destruct Es as (G2 & -> & Hl2 & HG2 & Hperm). cbn [res_bind]. destruct (IH fuel pre F G2 (x :: E) post a pb (pc - 1) (pd - 1) ltac:(lia) Ha Hpb ltac:(lia) ltac:(lia) HG2) as (U' & G' & E' & Er & Hp & H1 & H2 & [V HV] & H3); [by constructor|].
      exists U', G', E'. split; [exact Er|]. split; [rewrite Hp, Hperm; by rewrite <- Permutation_middle|]. do 2 (split; [done|]). split; [exists (V ++ [x]); by rewrite HV, app_assoc|done].
    + cbn [res_bind]. destruct (IH fuel pre F (x :: G) E post a pb (pc - 1) pd ltac:(lia) Ha Hpb ltac:(lia) ltac:(cbn [length]; lia)) as (U' & G' & E' & Er & Hp & H1 & H2 & [V HV] & H3); [constructor; [unfold more; lia|done]|done|].
      exists U', G', E'. split; [exact Er|]. split; [exact Hp|]. do 2 (split; [done|]). split; [exists (V ++ [x]); by rewrite HV, app_assoc|done].
Qed.

(** The elements of a segment after the first, in their groups. *)
Lemma partition_spec fuel : forall pre E L U G E2 post a pa pb pc pd, (length U < fuel)%nat -> a = Z.of_nat (length pre) -> pa = a + 1 + Z.of_nat (length E) -> pb = pa + Z.of_nat (length L) -> pc = pb + Z.of_nat (length U) - 1 -> pd = pc + Z.of_nat (length G) ->
  Forall same E -> Forall less L -> Forall more G -> Forall same E2 ->
  exists E' L' G' E2', partition compare fuel a (pre ++ p :: E ++ L ++ U ++ G ++ E2 ++ post) pa pb pc pd
    = Ok (pre ++ p :: E' ++ L' ++ G' ++ E2' ++ post, a + 1 + Z.of_nat (length E'), a + 1 + Z.of_nat (length E') + Z.of_nat (length L'), a + Z.of_nat (length E') + Z.of_nat (length L'), a + Z.of_nat (length E') + Z.of_nat (length L') + Z.of_nat (length G'))
  /\ E' ++ L' ++ G' ++ E2' ≡ₚ E ++ L ++ U ++ G ++ E2 /\ Forall same E' /\ Forall less L' /\ Forall more G' /\ Forall same E2'.
Proof.
  induction fuel as [|fuel IH]; intros pre E L U G E2 post a pa pb pc pd Hf Ha Hpa Hpb Hpc Hpd HE HL HG HE2; [lia|]. cbn [partition].
  destruct (scan_up_spec U (S fuel) pre E L (G ++ E2 ++ post) a pa pb pc ltac:(lia) Ha Hpa Hpb Hpc HE HL) as (E' & L' & U' & -> & P1 & HE' & HL' & HlU & HU'). cbn [res_bind]. set (pb' := a + 1 + Z.of_nat (length E') + Z.of_nat (length L')).
  assert (Hlen : (length E' + length L' + length U' = length E + length L + length U)%nat) by (apply Permutation_length in P1; rewrite !length_app in P1; lia).
  destruct (scan_down_spec U' (S fuel) pre (E' ++ L') G E2 post a pb' pc pd) as (U2 & G' & E2' & Er & P2 & HG' & HE2' & [V HV] & HU2); try done; [lia|rewrite length_app; unfold pb'; lia|unfold pb'; lia|].
  rewrite <- !app_assoc in Er. rewrite Er. cbn [res_bind]. assert (P3 : E' ++ L' ++ U2 ++ G' ++ E2' ≡ₚ E ++ L ++ U ++ G ++ E2) by (rewrite P2, !(app_assoc E'), app_assoc, <- (app_assoc E'), P1; by rewrite <- !app_assoc).
  destruct (Z.ltb_spec (pb' + Z.of_nat (length U2) - 1) pb') as [Hlt|Hge].
  - assert (U2 = []) as -> by (apply nil_length_inv; lia). exists E', L', G', E2'. cbn [length app] in *. replace (pb' + Z.of_nat 0 - 1) with (a + Z.of_nat (length E') + Z.of_nat (length L')) by (unfold pb'; lia). done.
  - destruct HU2 as [->|(U0 & y & -> & Hy)]; [cbn [length] in Hge; lia|]. destruct HU' as [->|(x & U1 & -> & Hx)]; [by destruct U0|]. destruct U0 as [|x' M]; cbn [app] in HV; injection HV as Hxx HV; [subst; unfold less, more in *; lia|subst x'].
    rewrite length_app in *. cbn [length] in *. assert (Hm : (length M + 1 <= length U1)%nat) by (rewrite HV, !length_app; cbn [length]; lia).
    pose proof (proj1 (swap_at (pre ++ p :: E' ++ L') x M y (G' ++ E2' ++ post) pb' (pb' + Z.of_nat (S (length M) + 1) - 1) ltac:(rewrite length_app; cbn [length]; rewrite length_app; unfold pb'; lia) ltac:(lia))) as Es. repeat (rewrite <- app_assoc in Es; cbn [app] in Es). repeat (rewrite <- app_assoc; cbn [app]). rewrite Es. cbn [res_bind].
    destruct (IH pre E' (L' ++ [y]) M (x :: G') E2' post a (a + 1 + Z.of_nat (length E')) (pb' + 1) (pb' + Z.of_nat (S (length M) + 1) - 1 - 1) (pb' + Z.of_nat (S (length M) + 1) - 1 + Z.of_nat (length G'))) as (E3 & L3 & G3 & E4 & Er' & P4 & Hall); try done; try lia; try (rewrite length_app; cbn [length]; unfold pb'; lia); [cbn [length]; lia|apply Forall_app; split; [done|by repeat constructor]|by constructor|].
    rewrite <- ?app_assoc in Er'. cbn [app] in Er'. exists E3, L3, G3, E4. split; [exact Er'|]. split; [|done]. rewrite P4, <- P3, <- !app_assoc. cbn [app]. do 2 f_equiv. rewrite <- ?app_assoc. cbn [app]. rewrite <- !Permutation_middle. apply Permutation_swap.
Qed.
End pivot.
