(* ===== verification/SortProps.v ===== *)
(** The sort ends, keeps to the array and gives a permutation for any comparison, and a
    sorted array if the comparison is an order. *)

From S2P Require Import Prelude Sort SortSpec.
Local Open Scope Z_scope.
Local Open Scope pg_scope.

(** What a comparison function has to be. *)
Class Comparison {A : Type} (compare : A -> A -> Z) : Prop := {
  compare_swap x y : compare x y <= 0 <-> 0 <= compare y x;
  compare_trans x y z : compare x y <= 0 -> compare y z <= 0 -> compare x z <= 0
}.

Section sorting.
Context {A : Type} (compare : A -> A -> Z).
Implicit Types (l pre seg post : list A) (x y : A).

Definition le (x y : A) : Prop := compare x y <= 0.

(** The blocks of equal elements are put between the others. *)
Lemma split_equal_spec pre p E L G E2 post a n : a = Z.of_nat (length pre) -> n = 1 + Z.of_nat (length E) + Z.of_nat (length L) + Z.of_nat (length G) + Z.of_nat (length E2) ->
  exists L' M G', split_equal (pre ++ p :: E ++ L ++ G ++ E2 ++ post) a n (a + 1 + Z.of_nat (length E)) (a + 1 + Z.of_nat (length E) + Z.of_nat (length L)) (a + Z.of_nat (length E) + Z.of_nat (length L)) (a + Z.of_nat (length E) + Z.of_nat (length L) + Z.of_nat (length G))
    = Ok (pre ++ L' ++ M ++ G' ++ post, Z.of_nat (length L), Z.of_nat (length G)) /\ L' ≡ₚ L /\ M ≡ₚ p :: E ++ E2 /\ G' ≡ₚ G.
Proof.
  intros Ha Hn. unfold split_equal. set (pb := a + 1 + Z.of_nat (length E) + Z.of_nat (length L)).
  destruct (exchange pre (p :: E) L (G ++ E2 ++ post) a pb Ha) as (M1 & L' & E1 & P1 & P2); [unfold pb; cbn [length]; lia|]. cbn [length app] in E1.
  replace (Z.min (a + 1 + Z.of_nat (length E) - a) (pb - (a + 1 + Z.of_nat (length E)))) with (Z.min (Z.of_nat (S (length E))) (Z.of_nat (length L))) by (unfold pb; lia). rewrite E1. cbn [res_bind].
  assert (Hl : Z.of_nat (length L') = Z.of_nat (length L) /\ Z.of_nat (length M1) = 1 + Z.of_nat (length E)) by (apply Permutation_length in P1, P2; cbn [length] in P1; lia). destruct Hl as [Hl1 Hl2].
  destruct (exchange (pre ++ L' ++ M1) G E2 post pb (a + n)) as (G' & E2' & E3 & P3 & P4); [rewrite !length_app; unfold pb; lia|unfold pb; lia|]. rewrite <- !app_assoc in E3.
  replace (Z.min (_ - _) (a + n - _ - 1)) with (Z.min (Z.of_nat (length G)) (Z.of_nat (length E2))) by lia. rewrite E3. cbn [res_bind]. exists L', (M1 ++ E2'), G'. split; [rewrite <- !app_assoc; f_equal; f_equal; [f_equal; unfold pb; lia|lia]|].
  split; [done|]. split; [|done]. by rewrite P1, P4.
Qed.

(** ** Order *)

Lemma less_same_more (H : Comparison compare) p L M G : StronglySorted le L -> StronglySorted le G -> Forall (less compare p) L -> Forall (same compare p) M -> Forall (more compare p) G -> StronglySorted le (L ++ M ++ G).
Proof.
  intros SL SG HL HM HG. destruct H as [Hs Ht]. unfold less, same, more in *. rewrite Forall_forall in HL, HM, HG. assert (Hp : forall y, 0 <= compare y p -> le p y) by (intros y; apply Hs).
  apply StronglySorted_app. split; [|split; [done|]]; [intros x y Hx [Hy|Hy]%elem_of_app; unfold le|apply StronglySorted_app; split; [|split; [|done]]].
  - apply (Ht _ p); [specialize (HL x Hx); lia|]. apply Hp. specialize (HM y Hy). lia.
  - apply (Ht _ p); [specialize (HL x Hx); lia|]. apply Hp. specialize (HG y Hy). lia.
  - intros x y Hx Hy. apply (Ht _ p); [specialize (HM x Hx); lia|]. apply Hp. specialize (HG y Hy). lia.
  - clear HL HG SL SG. induction M as [|x M IH]; [constructor|]. constructor; [apply IH; intros y Hy; apply HM; by right|]. apply Forall_forall. intros y Hy. apply (Ht _ p); [rewrite (HM x); [done|by left]|]. apply Hp. rewrite (HM y); [done|by right].
Qed.

(** ** Insertion *)

Lemma insertion_spec T : forall pre S post a k m, a = Z.of_nat (length pre) -> k = length S -> m = length T ->
  exists R, insertion compare m k a (pre ++ S ++ T ++ post) = Ok (pre ++ R ++ post) /\ R ≡ₚ S ++ T /\ (Comparison compare -> StronglySorted le S -> StronglySorted le R).
Proof.
  induction T as [|x T IH]; intros pre S post a k m Ha -> ->; cbn [length insertion app]; [exists S; rewrite app_nil_r; by split|].
  destruct (sink_spec compare S pre x (T ++ post) a (length S) Ha eq_refl) as (S1 & S2 & -> & -> & HF & HS). cbn [res_bind].
  destruct (IH pre (S1 ++ x :: S2) post a (length (S1 ++ x :: S2)) (length T) Ha eq_refl eq_refl) as (R & ER & PR & SR). rewrite <- !app_assoc in ER. cbn [app] in ER. replace (Datatypes.S (length (S1 ++ S2))) with (length (S1 ++ x :: S2)) by (rewrite !length_app; cbn [length]; lia). rewrite ER.
  exists R. split; [done|]. split; [rewrite PR, <- !app_assoc; cbn [app]; f_equiv; by rewrite Permutation_middle|]. intros HC Hsort. apply SR; [done|]. destruct HC as [Hs Ht]. apply StronglySorted_app in Hsort as (H12 & H1 & H2).
  assert (HF' : Forall (le x) S2) by (eapply Forall_impl; [exact HF|]; intros y Hy; cbv beta in Hy; apply (proj2 (Hs x y)); lia). apply StronglySorted_app. split; [|split; [done|by constructor]].
  intros u v Hu [->|Hv]%elem_of_cons; [|by apply H12]. destruct HS as [->|(S0 & y & -> & Hy)]; [by apply elem_of_nil in Hu|]. apply elem_of_app in Hu as [Hu|Hu%list_elem_of_singleton]; [|by subst]. apply (Ht _ y); [|done]. apply StronglySorted_app in H1 as (H1 & _). apply H1; [done|by left].
Qed.

(** ** The sort *)

(** A segment becomes a permutation of itself, and sorted if the comparison is an order;
    nothing outside it changes. *)
Definition sorts_segment (r : res (list A)) (pre seg post : list A) : Prop :=
  exists seg', r = Ok (pre ++ seg' ++ post) /\ seg' ≡ₚ seg /\ (Comparison compare -> StronglySorted le seg').

Lemma sorted_already pre seg post : (Comparison compare -> StronglySorted le seg) -> sorts_segment (Ok (pre ++ seg ++ post)) pre seg post.
Proof. intros H. by exists seg. Qed.

Lemma short_sorted seg : (length seg <= 1)%nat -> StronglySorted le seg.
Proof. destruct seg as [|x [|y seg]]; cbn [length]; [constructor|by repeat constructor|lia]. Qed.

Lemma sorts_permuted r pre seg seg0 post : seg ≡ₚ seg0 -> sorts_segment r pre seg post -> sorts_segment r pre seg0 post.
Proof. intros E (s & H1 & H2 & H3). exists s. by rewrite <- E. Qed.

(** Few elements. *)
Lemma few_sorted pre seg post a n : a = Z.of_nat (length pre) -> n = Z.of_nat (length seg) -> sorts_segment (insertion compare (Z.to_nat (n - 1)) 1 a (pre ++ seg ++ post)) pre seg post.
Proof.
  intros Ha Hn. destruct seg as [|x seg]; [rewrite Hn; exists []; split; [done|]; split; [done|constructor]|]. destruct (insertion_spec seg pre [x] post a 1 (Z.to_nat (n - 1)) Ha eq_refl) as (R & E & P & S); [cbn [length] in Hn; lia|]. exists R. split; [exact E|]. split; [done|]. intros HC. apply S; [done|by repeat constructor].
Qed.

(** Lesser and greater elements stand on both sides of those that equal [p]; both sides are
    sorted, in either order. *)
Section sides.
Context (pre L M G post : list A) (p : A) (f g : list A -> res (list A)).
Hypothesis HL : Forall (less compare p) L.
Hypothesis HM : Comparison compare -> Forall (same compare p) M.
Hypothesis HG : Forall (more compare p) G.
Hypothesis Hf : forall post, sorts_segment (f (pre ++ L ++ post)) pre L post.
Hypothesis Hg : forall L', length L' = length L -> sorts_segment (g (pre ++ L' ++ M ++ G ++ post)) (pre ++ L' ++ M) G post.

Lemma sides_sorted L' G' : L' ≡ₚ L -> G' ≡ₚ G -> (Comparison compare -> StronglySorted le L') -> (Comparison compare -> StronglySorted le G') -> sorts_segment (Ok (pre ++ L' ++ M ++ G' ++ post)) pre (L ++ M ++ G) post.
Proof.
  intros P1 P2 S1 S2. exists (L' ++ M ++ G'). split; [by rewrite <- !app_assoc|]. split; [by rewrite P1, P2|]. intros HC. apply (less_same_more HC p); [by apply S1|by apply S2|by rewrite P1|by apply HM|by rewrite P2].
Qed.

Lemma left_first : sorts_segment (l <-! f (pre ++ L ++ M ++ G ++ post) ;; g l) pre (L ++ M ++ G) post.
Proof.
  destruct (Hf (M ++ G ++ post)) as (L' & -> & P1 & S1). cbn [res_bind]. destruct (Hg L') as (G' & -> & P2 & S2); [by apply Permutation_length|]. rewrite <- !app_assoc. by apply sides_sorted.
Qed.

Lemma right_first : sorts_segment (l <-! g (pre ++ L ++ M ++ G ++ post) ;; f l) pre (L ++ M ++ G) post.
Proof.
  destruct (Hg L eq_refl) as (G' & -> & P2 & S2). cbn [res_bind]. rewrite <- !app_assoc. destruct (Hf (M ++ G' ++ post)) as (L' & -> & P1 & S1). by apply sides_sorted.
Qed.
End sides.

Lemma groups p (L E E2 G : list A) : L ++ (p :: E ++ E2) ++ G ≡ₚ p :: E ++ L ++ G ++ E2.
Proof. cbn [app]. rewrite <- Permutation_middle, <- (app_assoc E), (Permutation_app_swap_app L E). do 3 f_equiv. apply Permutation_app_comm. Qed.

Lemma sort_spec fuel : forall depth pre seg post a n, a = Z.of_nat (length pre) -> n = Z.of_nat (length seg) -> n < Z.of_nat fuel -> (1 <= depth)%nat -> n < 2 ^ Z.of_nat depth ->
  sorts_segment (ST_SORT compare fuel depth (pre ++ seg ++ post) a n) pre seg post.
Proof.
  induction fuel as [|fuel IH]; intros depth pre seg post a n Ha Hn Hfuel Hdep Hlog; [lia|]. destruct depth as [|depth]; [lia|]. cbn [ST_SORT]. destruct (Z.ltb_spec n 7) as [H7|H7]; [by apply few_sorted|].
  destruct seg as [|x seg]; [cbn [length] in Hn; lia|]. destruct (presorted_spec compare seg pre x post (a + 1) (Z.to_nat (n - 1))) as (b & Eb & Hb); [lia|cbn [length] in Hn; lia|]. cbn [app]. rewrite Eb. cbn [res_bind]. destruct b.
  { apply (sorted_already pre (x :: seg) post). intros [_ Ht]. apply Sorted_StronglySorted; [intros u v w; apply Ht|by apply Hb]. }
  destruct (choose_inside compare pre (x :: seg) post a n Ha Hn H7) as (m & Em & Hm). cbn [app] in Em. rewrite Em. cbn [res_bind]. destruct (swap_first pre x seg post a m Ha Hm) as (p & rest & -> & Hperm). cbn [res_bind].
  assert (Hlen : Z.of_nat (length rest) = n - 1) by (apply Permutation_length in Hperm; cbn [length] in *; lia).
  destruct (partition_spec compare p (Z.to_nat n) pre [] [] rest [] [] post a (a + 1) (a + 1) (a + (n - 1)) (a + (n - 1))) as (E & L & G & E2 & Ep & Pp & HE & HL & HG & HE2); try done; cbn [length]; try lia. cbn [app] in Ep, Pp. rewrite app_nil_r in Pp. rewrite Ep. cbn [res_bind]. clear Ep.
  assert (Hsum : n = 1 + Z.of_nat (length E) + Z.of_nat (length L) + Z.of_nat (length G) + Z.of_nat (length E2)) by (apply Permutation_length in Pp; rewrite !length_app in Pp; lia).
  destruct (split_equal_spec pre p E L G E2 post a n Ha Hsum) as (L' & M & G' & Es & PL & PM & PG). rewrite Es. cbn [res_bind]. clear Es.
  apply (sorts_permuted _ pre (L' ++ M ++ G')); [rewrite <- Hperm, <- Pp, PL, PM, PG; apply groups|]. pose proof (Permutation_length PL) as LL. pose proof (Permutation_length PG) as LG. pose proof (Permutation_length PM) as LM. cbn [length] in LM. rewrite length_app in LM.
  set (d1 := Z.of_nat (length L)) in *. set (d2 := Z.of_nat (length G)) in *.
  assert (Hf : forall k, (1 < d1 -> (1 <= k)%nat /\ d1 < 2 ^ Z.of_nat k) -> forall post, sorts_segment (if 1 <? d1 then ST_SORT compare fuel k (pre ++ L' ++ post) a d1 else Ok (pre ++ L' ++ post)) pre L' post).
  { intros k Hk post'. destruct (Z.ltb_spec 1 d1) as [H1|H1]; [destruct (Hk H1); apply IH; try done; lia|]. apply sorted_already. intros _. apply short_sorted. lia. }
  assert (Hg : forall k, (1 < d2 -> (1 <= k)%nat /\ d2 < 2 ^ Z.of_nat k) -> forall L2, length L2 = length L' -> sorts_segment (if 1 <? d2 then ST_SORT compare fuel k (pre ++ L2 ++ M ++ G' ++ post) (a + n - d2) d2 else Ok (pre ++ L2 ++ M ++ G' ++ post)) (pre ++ L2 ++ M) G' post).
  { intros k Hk L2 HL2. replace (pre ++ L2 ++ M ++ G' ++ post) with ((pre ++ L2 ++ M) ++ G' ++ post) by (by rewrite <- !app_assoc). destruct (Z.ltb_spec 1 d2) as [H1|H1]; [destruct (Hk H1); apply IH; try done; try lia; rewrite !length_app; lia|]. apply sorted_already. intros _. apply short_sorted. lia. }
  assert (HM : Comparison compare -> Forall (same compare p) M) by (intros [Hs _]; rewrite PM; constructor; [pose proof (Hs p p); unfold same; lia|by apply Forall_app]).
  rewrite <- PL in HL. rewrite <- PG in HG. assert (Hpow : 2 ^ Z.of_nat (S depth) = 2 * 2 ^ Z.of_nat depth) by (rewrite Nat2Z.inj_succ, Z.pow_succ_r; lia).
  assert (Hhalf : forall d, 1 < d -> 2 * d < n -> (1 <= depth)%nat /\ d < 2 ^ Z.of_nat depth) by (intros d H1 H2; split; [destruct depth; [change (2 ^ Z.of_nat 0) with 1 in Hpow|]; lia|lia]).
  destruct (Z.leb_spec d1 d2) as [Hd|Hd].
  - apply (left_first pre L' M G' post p (fun l => if 1 <? d1 then ST_SORT compare fuel depth l a d1 else Ok l) (fun l => if 1 <? d2 then ST_SORT compare fuel (S depth) l (a + n - d2) d2 else Ok l)); try done; [apply Hf; intros; apply Hhalf; lia|apply Hg; lia].
  - apply (right_first pre L' M G' post p (fun l => if 1 <? d1 then ST_SORT compare fuel (S depth) l a d1 else Ok l) (fun l => if 1 <? d2 then ST_SORT compare fuel depth l (a + n - d2) d2 else Ok l)); try done; [apply Hf; lia|apply Hg; intros; apply Hhalf; lia].
Qed.
End sorting.

(** ** Theorems *)

Lemma log2_depth n : 0 <= n -> (1 <= stack_depth n)%nat /\ n < 2 ^ Z.of_nat (stack_depth n).
Proof.
  intros H. unfold stack_depth. pose proof (Z.log2_nonneg n). split; [lia|]. rewrite Nat2Z.inj_succ, Z2Nat.id by lia. destruct (Z.eq_dec n 0) as [->|]; [done|]. apply Z.log2_spec. lia.
Qed.

Lemma qsort_spec {A} (compare : A -> A -> Z) l n : 0 <= n <= Z.of_nat (length l) ->
  exists l', pg_qsort compare l n = Ok (l' ++ drop (Z.to_nat n) l) /\ l' ≡ₚ take (Z.to_nat n) l /\ (Comparison compare -> StronglySorted (le compare) l').
Proof.
  intros Hn. unfold pg_qsort. destruct (log2_depth n) as [H1 H2]; [lia|]. pose proof (sort_spec compare (S (Z.to_nat n)) (stack_depth n) [] (take (Z.to_nat n) l) (drop (Z.to_nat n) l) 0 n eq_refl) as H. cbn [app] in H. rewrite take_drop in H.
  apply H; [rewrite length_take; lia|lia|done|done].
Qed.

(** C25: pg_qsort with any comparison function, even one that is no order, ends, accesses
    only the elements it is given, leaves the rest of the array alone and gives a
    permutation of them; calls are nested no deeper than the binary logarithm of their
    number.  If the comparison is a total preorder the result is sorted. *)
Theorem pg_qsort_sorts {A : Type} (compare : A -> A -> Z) (l : list A) n : 0 <= n <= Z.of_nat (length l) ->
  exists l', ST_SORT compare (S (Z.to_nat n)) (S (Z.to_nat (Z.log2 n))) l 0 n = Ok (l' ++ drop (Z.to_nat n) l) /\ l' ≡ₚ take (Z.to_nat n) l /\ (Comparison compare -> StronglySorted (le compare) l').
Proof. apply qsort_spec. Qed.

Lemma pg_qsort_sorts_witness :
  exists l', ST_SORT (fun x y => x mod 10 - y mod 10) 13 4 [25; 13; 9; 11; 5; 8; 2; 35; 7; 20; 6; 15; 0] 0 12 = Ok (l' ++ [0]) /\ StronglySorted (le (fun x y => x mod 10 - y mod 10)) l'.
Proof.
  destruct (pg_qsort_sorts (fun x y => x mod 10 - y mod 10) [25; 13; 9; 11; 5; 8; 2; 35; 7; 20; 6; 15; 0] 12 ltac:(split; discriminate)) as (l' & E & _ & S). exists l'. split; [exact E|]. apply S. split; intros; lia.
Defined.
