(* ===== verification/PgListSort.v ===== *)
(** Sorting a list in place: list_sort of backend/nodes/list.c, which calls qsort, and its
    use before the removal of duplicates. *)

From S2P Require Import Prelude PgList PgListProps Sort SortSpec SortProps.
Local Open Scope Z_scope.
Local Open Scope pg_scope.

(** A comparison function is given cells, and reads their values. *)
Definition on_cells (cmp : Z -> Z -> Z) (p1 p2 : option Z) : Z := cmp (default 0 p1) (default 0 p2).

Definition list_sort (cmp : Z -> Z -> Z) (list : option PgList) : res (option PgList) :=
  let len := list_length list in
  if (1 <? len)%nat then
    match list with
    | None => Ok None
    | Some l => es <-! pg_qsort (on_cells cmp) (l_elements l) (Z.of_nat len) ;; Ok (Some (set_elements es l))
    end
  else Ok list.

#[export] Instance on_cells_comparison cmp : Comparison cmp -> Comparison (on_cells cmp).
Proof. intros [H1 H2]. split; intros; unfold on_cells; [apply H1|by eapply H2]. Qed.

Lemma ascending x y : (list_oid_cmp x y <= 0 <-> x <= y) /\ (0 <= list_oid_cmp x y <-> y <= x).
Proof. unfold list_oid_cmp. destruct (Z.ltb_spec x y), (Z.gtb_spec x y); lia. Qed.

#[export] Instance list_oid_cmp_comparison : Comparison list_oid_cmp.
Proof. split; intros *; rewrite ?(proj1 (ascending _ _)), ?(proj2 (ascending _ _)); lia. Qed.

#[export] Instance list_int_cmp_comparison : Comparison list_int_cmp := list_oid_cmp_comparison.

Lemma sorted_cells (R : option Z -> option Z -> Prop) ys : StronglySorted R (Some <$> ys) -> StronglySorted (fun x y => R (Some x) (Some y)) ys.
Proof. induction ys as [|y ys IH]; [constructor|]. rewrite fmap_cons. intros [S F]%StronglySorted_inv. constructor; [by apply IH|]. rewrite Forall_fmap in F. exact F. Qed.

(** A permutation of cells that hold values. *)
Lemma cells_permuted (cells : list (option Z)) xs : cells ≡ₚ Some <$> xs -> exists ys, cells = Some <$> ys /\ ys ≡ₚ xs.
Proof. intros (ys & -> & P)%Permutation_map_inv. exists ys. by split. Qed.

Lemma list_sort_rep t cmp l xs : list_rep t l xs ->
  exists l' ys, list_sort cmp l = Ok l' /\ list_rep t l' ys /\ ys ≡ₚ xs /\ (Comparison cmp -> StronglySorted (fun x y => cmp x y <= 0) ys).
Proof.
  intros H. unfold list_sort. rewrite (list_rep_length t l xs H). destruct (Nat.ltb_spec 1 (length xs)) as [Hlt|Hge].
  - destruct H as [|n m es il xs rest Hne -> Ees -> Hm]; [cbn [length] in Hlt; lia|]. cbn [l_elements]. destruct (qsort_spec (on_cells cmp) es (Z.of_nat (length xs))) as (cs & -> & P & S); [rewrite Ees, length_app, length_fmap; lia|]. cbn [res_bind].
    rewrite Nat2Z.id, Ees in *. rewrite take_app_length' in P by (by rewrite length_fmap). rewrite drop_app_length' by (by rewrite length_fmap). apply cells_permuted in P as (ys & -> & P). exists (Some (mk_list t (length xs) (length ((Some <$> xs) ++ rest)) ((Some <$> ys) ++ rest) il)), ys.
    pose proof (Permutation_length P) as Hl. split; [done|]. split; [eapply rep_header; [intros ->; cbn [length] in Hl; lia|done|done|by rewrite !length_app, !length_fmap, Hl|done]|]. split; [done|]. intros HC. apply on_cells_comparison in HC. specialize (S HC). by apply sorted_cells in S.
  - exists l, xs. split; [done|]. split; [done|]. split; [done|]. intros _. destruct xs as [|x [|y xs]]; cbn [length] in Hge; [constructor|by repeat constructor|lia].
Qed.

(** ** Theorem *)

(** list_sort rearranges a list in place with any comparison function, and sorts it if
    that is an order; after a sort by list_oid_cmp, list_deduplicate_oid leaves the distinct
    elements of the original list in ascending order. *)
Theorem list_sort_correct t cmp l xs : list_rep t l xs ->
  (exists l' ys, list_sort cmp l = Ok l' /\ list_rep t l' ys /\ ys ≡ₚ xs /\ (Comparison cmp -> StronglySorted (fun x y => cmp x y <= 0) ys))
  /\ (exists l' zs, list_sort list_oid_cmp l = Ok l' /\ list_rep t (list_deduplicate_oid l') zs /\ StronglySorted Z.lt zs /\ forall z, z ∈ zs <-> z ∈ xs).
Proof.
  intros H. split; [by apply list_sort_rep|]. destruct (list_sort_rep t list_oid_cmp l xs H) as (l' & ys & E & H' & P & S). exists l', (dedup_adjacent ys). split; [done|]. split; [by apply list_deduplicate_oid_rep|].
  specialize (S _). destruct ys as [|y ys]; cbn [dedup_adjacent]; [split; [constructor|intros z; by rewrite <- P]|]. split; [|intros z; by rewrite dedup_from_elem, P]. apply dedup_from_sorted. eapply StronglySorted_mono; [|exact S]. intros a b. apply ascending.
Qed.

Lemma list_sort_correct_witness :
  exists l' zs, list_sort list_oid_cmp (list_make5_impl T_OidList 7 3 5 3 7) = Ok l' /\ list_rep T_OidList (list_deduplicate_oid l') zs /\ StronglySorted Z.lt zs /\ list_length (list_deduplicate_oid l') = 3%nat.
Proof.
  destruct (list_sort_correct T_OidList list_oid_cmp (list_make5_impl T_OidList 7 3 5 3 7) [7; 3; 5; 3; 7]) as (_ & l' & zs & E & H & S & _).
  - apply (rep_header T_OidList _ _ _ _ [7; 3; 5; 3; 7] []); done.
  - exists l', zs. split; [exact E|]. split; [exact H|]. split; [exact S|]. vm_compute in E. by injection E as <-.
Defined.
