(* ===== verification/BinaryHeap.v ===== *)
(** The binary heap of backend/lib/binaryheap.c.

    [bh_nodes] is the whole array of [bh_space] Datums, of which the first
    [bh_size] are live.  The comparator and its argument are one function
    [compare], a parameter of the operations.  [sift_up] and [sift_down] move a
    hole instead of swapping, as the code does; their loops run with fuel and
    the theorems show that it is never exhausted. *)

From S2P Require Import Prelude.
Local Open Scope Z_scope.
Local Open Scope pg_scope.

Record binaryheap : Set := mk_heap {
  bh_size : nat;
  bh_space : nat;
  bh_has_heap_property : bool;
  bh_nodes : list Z
}.

Definition set_nodes (ns : list Z) (h : binaryheap) : binaryheap :=
  mk_heap (bh_size h) (bh_space h) (bh_has_heap_property h) ns.
Definition set_size (n : nat) (h : binaryheap) : binaryheap :=
  mk_heap n (bh_space h) (bh_has_heap_property h) (bh_nodes h).
Definition set_property (b : bool) (h : binaryheap) : binaryheap :=
  mk_heap (bh_size h) (bh_space h) b (bh_nodes h).

(** [garbage] is what palloc left in the [capacity] Datums. *)
Definition binaryheap_allocate (garbage : list Z) (capacity : nat) : binaryheap :=
  mk_heap 0 capacity true (take capacity garbage).

Definition binaryheap_reset (heap : binaryheap) : binaryheap :=
  set_property true (set_size 0 heap).

Definition binaryheap_empty (heap : binaryheap) : bool := (bh_size heap =? 0)%nat.

Definition left_offset (i : nat) : nat := 2 * i + 1.
Definition right_offset (i : nat) : nat := 2 * i + 2.
(** Division truncates towards zero: the parent of -1 is -1, of 0 is 0. *)
Definition parent_offset (i : Z) : Z := Z.quot (i - 1) 2.

Section heap.
Context (compare : Z -> Z -> Z).

(** One round of the [while] loop: climb, or stop and fill the hole. *)
Definition sift_up_step (node_val : Z) (s : list Z * nat) : flow (list Z * nat) (list Z) :=
  let '(nodes, node_off) := s in
  if (node_off =? 0)%nat then Return (<[node_off := node_val]> nodes)
  else
    let parent_off := Z.to_nat (parent_offset (Z.of_nat node_off)) in
    let parent_val := rd nodes parent_off in
    let cmp := compare node_val parent_val in
    if cmp <=? 0 then Return (<[node_off := node_val]> nodes)
    else Next (<[node_off := parent_val]> nodes, parent_off).

Definition sift_up (heap : binaryheap) (node_off : nat) : res binaryheap :=
  let node_val := rd (bh_nodes heap) node_off in
  nodes <-! of_fuel (while (S node_off) (sift_up_step node_val) (bh_nodes heap, node_off)) ;;
  Ok (set_nodes nodes heap).

Definition sift_down_step (size : nat) (node_val : Z) (s : list Z * nat)
  : flow (list Z * nat) (list Z) :=
  let '(nodes, node_off) := s in
  let left_off := left_offset node_off in
  let right_off := right_offset node_off in
  let swap_off :=
    if ((left_off <? size)%nat && (compare node_val (rd nodes left_off) <? 0))
    then left_off else 0%nat in
  let swap_off :=
    if ((right_off <? size)%nat && (compare node_val (rd nodes right_off) <? 0))
    then
      if ((swap_off =? 0)%nat || (compare (rd nodes left_off) (rd nodes right_off) <? 0))
      then right_off else swap_off
    else swap_off in
  if (swap_off =? 0)%nat then Return (<[node_off := node_val]> nodes)
  else Next (<[node_off := rd nodes swap_off]> nodes, swap_off).

Definition sift_down (heap : binaryheap) (node_off : nat) : res binaryheap :=
  let node_val := rd (bh_nodes heap) node_off in
  nodes <-! of_fuel (while (S (bh_size heap)) (sift_down_step (bh_size heap) node_val)
                       (bh_nodes heap, node_off)) ;;
  Ok (set_nodes nodes heap).

Definition binaryheap_add_unordered (heap : binaryheap) (d : Z) : res binaryheap :=
  if (bh_space heap <=? bh_size heap)%nat then Err "out of binary heap slots"
  else
    let heap := set_property false heap in
    let heap := set_nodes (<[bh_size heap := d]> (bh_nodes heap)) heap in
    Ok (set_size (bh_size heap + 1) heap).

(** [for (i = parent_offset(bh_size - 1); i >= 0; i--) sift_down(heap, i)] *)
Definition binaryheap_build (heap : binaryheap) : res binaryheap :=
  let n := Z.to_nat (parent_offset (Z.of_nat (bh_size heap) - 1) + 1) in
  after (for_down_ret n
           (fun i heap => match sift_down heap i with
                          | Ok heap => Next heap
                          | Err m => Return (Err m)
                          end) heap)
    (fun heap => Ok (set_property true heap)).

Definition binaryheap_add (heap : binaryheap) (d : Z) : res binaryheap :=
  if (bh_space heap <=? bh_size heap)%nat then Err "out of binary heap slots"
  else
    let heap := set_nodes (<[bh_size heap := d]> (bh_nodes heap)) heap in
    let heap := set_size (bh_size heap + 1) heap in
    sift_up heap (bh_size heap - 1).

(** The next three assert that the heap is not empty and has the heap property; a
    production build does not check it, and an empty heap gives what the first cell holds. *)
Definition binaryheap_first (heap : binaryheap) : Z := rd (bh_nodes heap) 0.

Definition binaryheap_remove_first (heap : binaryheap) : res (Z * binaryheap) :=
  let result := rd (bh_nodes heap) 0 in
  if (bh_size heap =? 1)%nat then Ok (result, set_size (bh_size heap - 1) heap)
  else
    let heap := set_size (bh_size heap - 1) heap in
    let heap := set_nodes (<[0%nat := rd (bh_nodes heap) (bh_size heap)]> (bh_nodes heap)) heap in
    heap <-! sift_down heap 0 ;;
    Ok (result, heap).

Definition binaryheap_replace_first (heap : binaryheap) (d : Z) : res binaryheap :=
  let heap := set_nodes (<[0%nat := d]> (bh_nodes heap)) heap in
  if (1 <? bh_size heap)%nat then sift_down heap 0 else Ok heap.
End heap.
