(* ===== verification/BinaryHeapProps.v ===== *)
(** Correctness of the binary heap: every operation keeps the heap property and
    the multiset of stored Datums, the first node is a maximum for the
    comparator, and draining a heap yields its contents in descending order. *)

From S2P Require Import Prelude BinaryHeap.
Local Open Scope Z_scope.
Local Open Scope pg_scope.

(** What include/lib/binaryheap.h asks of a comparator: its sign is that of a
    total preorder. *)
Class Comparator (compare : Z -> Z -> Z) : Prop := {
  compare_flip a b : compare a b < 0 <-> compare b a > 0;
  compare_trans a b c : compare a b <= 0 -> compare b c <= 0 -> compare a c <= 0
}.

(** [child p i]: node [i] is the left or right child of node [p]. *)
Definition child (p i : nat) : Prop := i = left_offset p \/ i = right_offset p.

Lemma child_parent i : (0 < i)%nat -> child (Z.to_nat (parent_offset (Z.of_nat i))) i.
Proof.
  intros Hi. unfold child, left_offset, right_offset, parent_offset.
  rewrite Z.quot_div_nonneg by lia. Z.to_euclidean_division_equations. lia.
Qed.

Lemma child_inj p q i : child p i -> child q i -> p = q.
Proof. unfold child, left_offset, right_offset. lia. Qed.

Lemma child_gt p i : child p i -> (p < i)%nat.
Proof. unfold child, left_offset, right_offset. lia. Qed.

(** ** The hole

    The loops work on an array with a hole at [h] that will receive [v]; [hole]
    reads the array as if it had been filled. *)
Definition hole (nodes : list Z) (h : nat) (v : Z) (i : nat) : Z :=
  if decide (i = h) then v else rd nodes i.

Lemma hole_eq nodes h v : hole nodes h v h = v.
Proof. unfold hole. by rewrite decide_True. Qed.

Lemma hole_ne nodes h v i : i <> h -> hole nodes h v i = rd nodes i.
Proof. intros H. unfold hole. by rewrite decide_False. Qed.

Lemma hole_fill nodes h v i : (h < length nodes)%nat -> rd (<[h := v]> nodes) i = hole nodes h v i.
Proof.
  intros H. rewrite rd_insert by done. unfold hole.
  repeat case_decide; done || lia.
Qed.

(** Filling [h] from [p] and moving the hole there. *)
Lemma hole_move nodes h p v i :
  (h < length nodes)%nat -> h <> p ->
  hole (<[h := rd nodes p]> nodes) p v i =
  if decide (i = p) then v else if decide (i = h) then rd nodes p else hole nodes h v i.
Proof.
  intros Hh Hne. unfold hole. rewrite rd_insert by done.
  repeat case_decide; subst; done || lia.
Qed.

Lemma hole_move_perm n nodes h p v :
  (h < n)%nat -> (p < n)%nat -> (n <= length nodes)%nat -> h <> p ->
  take n (<[p := v]> (<[h := rd nodes p]> nodes)) ≡ₚ take n (<[h := v]> nodes).
Proof.
  intros Hh Hp Hn Hne. rewrite !take_insert_lt by done.
  set (l := take n nodes).
  assert (Hl : length l = n) by (unfold l; rewrite length_take; lia).
  assert (Hx : l !! p = Some (rd nodes p)).
  { unfold l. rewrite lookup_take_lt by done. apply rd_lookup. lia. }
  pose proof (Permutation_insert_swap (<[h := v]> l) h p v (rd nodes p)) as Hsw.
  rewrite list_insert_insert_eq in Hsw. apply Hsw.
  - by rewrite list_lookup_insert_eq by lia.
  - by rewrite list_lookup_insert_ne.
Qed.

Section heap_props.
Context (compare : Z -> Z -> Z) {HC : Comparator compare}.

Local Notation "'le' a b" := (compare a b <= 0)
  (at level 10, a at level 9, b at level 9).

Lemma compare_refl a : le a a.
Proof. pose proof (compare_flip a a). lia. Qed.

Lemma compare_not_lt a b : ~ compare a b < 0 -> le b a.
Proof. pose proof (compare_flip a b). lia. Qed.

Lemma compare_gt a b : ~ le a b -> le b a.
Proof. pose proof (compare_flip b a). lia. Qed.

(** ** The heap property

    [ordered k n f]: below node [k], no node among the first [n] exceeds its
    parent. *)
Definition ordered (k n : nat) (f : nat -> Z) : Prop :=
  forall p i, (k <= p)%nat -> child p i -> (i < n)%nat -> le (f i) (f p).

Lemma ordered_ext k n f g : (forall i, f i = g i) -> ordered k n f -> ordered k n g.
Proof. intros E H p i Hk Hc Hi. rewrite <- !E. by apply H. Qed.

(** ** Sifting up *)

(** The order holds except that the hole may exceed its parent. *)
Definition up_ok (n h : nat) (f : nat -> Z) : Prop :=
  (forall p i, child p i -> (i < n)%nat -> i <> h -> le (f i) (f p))
  /\ (forall p c, child p h -> child h c -> (c < n)%nat -> le (f c) (f p)).

Lemma up_ok_step n h p nodes v :
  child p h -> (h < n)%nat -> (h < length nodes)%nat ->
  up_ok n h (hole nodes h v) -> ~ le v (rd nodes p) ->
  up_ok n p (hole (<[h := rd nodes p]> nodes) p v).
Proof.
  intros Hph Hh Hlen [H1 H2] Hgt. apply compare_gt in Hgt.
  pose proof (child_gt _ _ Hph) as Hlt.
  assert (Hp : hole nodes h v p = rd nodes p) by (apply hole_ne; lia).
  split.
  - intros q i Hc Hi Hne. rewrite !hole_move by lia.
    pose proof (child_gt _ _ Hc). rewrite (decide_False (P := i = p)) by done.
    destruct (decide (i = h)) as [->|Hih].
    + rewrite (child_inj _ _ _ Hc Hph). by rewrite decide_True.
    + destruct (decide (q = p)) as [->|Hqp].
      * eapply compare_trans; [apply H1; done|]. by rewrite Hp.
      * destruct (decide (q = h)) as [->|Hqh]; [|by apply H1].
        rewrite <- Hp. by apply H2.
  - intros q c Hq Hc Hcn. rewrite !hole_move by lia.
    pose proof (child_gt _ _ Hq). pose proof (child_gt _ _ Hc).
    rewrite (decide_False (P := c = p)), (decide_False (P := q = p)),
      (decide_False (P := q = h)) by lia.
    assert (Hpq : le (hole nodes h v p) (hole nodes h v q)) by (apply H1; done || lia).
    destruct (decide (c = h)) as [->|Hch].
    + by rewrite <- Hp.
    + eapply compare_trans; [|exact Hpq]. by apply H1.
Qed.

Lemma up_ok_done n h f : up_ok n h f -> (h = 0%nat \/ forall p, child p h -> le (f h) (f p)) ->
  ordered 0 n f.
Proof.
  intros [H1 _] Hd p i _ Hc Hi. destruct (decide (i = h)) as [->|Hne]; [|by apply H1].
  destruct Hd as [->|Hd]; [|by apply Hd]. pose proof (child_gt _ _ Hc). lia.
Qed.

Lemma sift_up_loop n nodes h v xs :
  (h < n)%nat -> (n <= length nodes)%nat ->
  up_ok n h (hole nodes h v) -> take n (<[h := v]> nodes) ≡ₚ xs ->
  exists nodes', while (S h) (sift_up_step compare v) (nodes, h) = Some nodes'
    /\ length nodes' = length nodes /\ ordered 0 n (rd nodes') /\ take n nodes' ≡ₚ xs.
Proof.
  intros Hh Hn Hok Hperm.
  apply (while_total
    (fun '(ns, k) => (k < n)%nat /\ length ns = length nodes
       /\ up_ok n k (hole ns k v) /\ take n (<[k := v]> ns) ≡ₚ xs)
    (fun ns => length ns = length nodes /\ ordered 0 n (rd ns) /\ take n ns ≡ₚ xs)
    snd); [done|simpl; lia|].
  intros [ns k] (Hk & Hlen & Hok' & Hp). unfold sift_up_step.
  assert (Hfill : forall i, hole ns k v i = rd (<[k := v]> ns) i)
    by (intros i; rewrite hole_fill by lia; done).
  destruct (Nat.eqb_spec k 0) as [->|Hk0].
  - rewrite length_insert. split; [done|]. split; [|done].
    eapply ordered_ext; [exact Hfill|]. eapply up_ok_done; [done|by left].
  - pose proof (child_parent k ltac:(lia)) as Hc.
    set (p := Z.to_nat (parent_offset (Z.of_nat k))) in *.
    pose proof (child_gt _ _ Hc) as Hpk.
    destruct (Z.leb_spec (compare v (rd ns p)) 0) as [Hle|Hgt].
    + rewrite length_insert. split; [done|]. split; [|done].
      eapply ordered_ext; [exact Hfill|]. eapply up_ok_done; [done|right].
      intros q Hq. rewrite (child_inj _ _ _ Hq Hc), hole_eq, hole_ne by lia. done.
    + rewrite length_insert. split_and!; [lia|done| | |simpl; lia].
      * apply up_ok_step; try done; lia.
      * rewrite hole_move_perm by lia. done.
Qed.

(** ** Sifting down *)

(** Below [k] the order holds except that the hole's children may exceed it;
    they do not exceed its parent. *)
Definition down_ok (k n h : nat) (f : nat -> Z) : Prop :=
  (forall p i, (k <= p)%nat -> child p i -> (i < n)%nat -> p <> h -> le (f i) (f p))
  /\ (forall p c, (k <= p)%nat -> child p h -> child h c -> (c < n)%nat -> le (f c) (f p)).

Lemma down_ok_step k n h s nodes v :
  child h s -> (s < n)%nat -> (k <= h)%nat -> (n <= length nodes)%nat ->
  down_ok k n h (hole nodes h v) -> le v (rd nodes s) ->
  (forall c, child h c -> (c < n)%nat -> le (rd nodes c) (rd nodes s)) ->
  down_ok k n s (hole (<[h := rd nodes s]> nodes) s v).
Proof.
  intros Hhs Hs Hk Hlen [H1 H2] Hv Hmax. pose proof (child_gt _ _ Hhs) as Hlt.
  assert (Hgs : hole nodes h v s = rd nodes s) by (apply hole_ne; lia).
  split.
  - intros p i Hp Hc Hi Hne. pose proof (child_gt _ _ Hc). rewrite !hole_move by lia.
    rewrite (decide_False (P := p = s)) by done.
    destruct (decide (p = h)) as [->|Hph].
    + destruct (decide (i = s)); [done|]. rewrite decide_False by lia.
      rewrite hole_ne by lia. by apply Hmax.
    + destruct (decide (i = s)) as [->|His]; [by destruct (child_inj _ _ _ Hc Hhs)|].
      destruct (decide (i = h)) as [->|Hih]; [|by apply H1].
      rewrite <- Hgs. by apply H2.
  - intros p c Hp Hps Hc Hcn. rewrite (child_inj _ _ _ Hps Hhs) in *.
    pose proof (child_gt _ _ Hc). rewrite !hole_move by lia.
    rewrite (decide_False (P := c = s)), (decide_False (P := c = h)),
      (decide_False (P := h = s)), (decide_True (P := h = h)) by lia.
    rewrite <- Hgs. apply H1; done || lia.
Qed.

(** One round picks the larger child that exceeds the value, if any does. *)
Lemma sift_down_step_cases n v nodes h :
  match sift_down_step compare n v (nodes, h) with
  | Return ns => ns = <[h := v]> nodes
                 /\ forall c, child h c -> (c < n)%nat -> le (rd nodes c) v
  | Next (ns, s) => ns = <[h := rd nodes s]> nodes /\ child h s /\ (s < n)%nat
                    /\ le v (rd nodes s)
                    /\ forall c, child h c -> (c < n)%nat -> le (rd nodes c) (rd nodes s)
  end.
Proof.
  unfold sift_down_step.
  set (l := left_offset h); set (r := right_offset h).
  assert (Hl0 : (l =? 0)%nat = false) by (apply Nat.eqb_neq; unfold l, left_offset; lia).
  assert (Hr0 : (r =? 0)%nat = false) by (apply Nat.eqb_neq; unfold r, right_offset; lia).
  assert (Hlr : (l < r)%nat) by (unfold l, r, left_offset, right_offset; lia).
  assert (Hch : forall y, ((l < n)%nat -> le (rd nodes l) y) ->
    ((r < n)%nat -> le (rd nodes r) y) ->
    forall c, child h c -> (c < n)%nat -> le (rd nodes c) y)
    by (intros y Ql Qr c [->| ->]; done).
  assert (Hcl : child h l) by (by left). assert (Hcr : child h r) by (by right).
  destruct (Nat.ltb_spec l n) as [Hln|Hln]; destruct (Nat.ltb_spec r n) as [Hrn|Hrn];
    [| |lia|]; cbn [andb].
  - destruct (Z.ltb_spec (compare v (rd nodes l)) 0) as [Hvl|Hvl];
      destruct (Z.ltb_spec (compare v (rd nodes r)) 0) as [Hvr|Hvr];
      cbn [Nat.eqb orb]; rewrite ?Hl0, ?Hr0; cbn [orb].
    + destruct (Z.ltb_spec (compare (rd nodes l) (rd nodes r)) 0) as [H|H];
        rewrite ?Hl0, ?Hr0; (do 3 (split; [done|])); (split; [lia|]); apply Hch; intros _;
        try apply compare_refl; [lia|]. apply compare_not_lt; lia.
    + do 3 (split; [done|]). split; [lia|]. apply Hch; intros _; [apply compare_refl|].
      apply (compare_trans _ v); [apply compare_not_lt|]; lia.
    + do 3 (split; [done|]). split; [lia|]. apply Hch; intros _; [|apply compare_refl].
      apply (compare_trans _ v); [apply compare_not_lt|]; lia.
    + split; [done|]. apply Hch; intros _; apply compare_not_lt; lia.
  - destruct (Z.ltb_spec (compare v (rd nodes l)) 0) as [Hvl|Hvl]; cbn [Nat.eqb]; rewrite ?Hl0.
    + do 3 (split; [done|]). split; [lia|]. apply Hch; [intros _; apply compare_refl|lia].
    + split; [done|]. apply Hch; [intros _; apply compare_not_lt; lia|lia].
  - cbn [Nat.eqb]. split; [done|]. apply Hch; lia.
Qed.

Lemma sift_down_loop k n nodes v xs :
  (k < n)%nat -> (n <= length nodes)%nat ->
  down_ok k n k (hole nodes k v) -> take n (<[k := v]> nodes) ≡ₚ xs ->
  exists nodes', while (S n) (sift_down_step compare n v) (nodes, k) = Some nodes'
    /\ length nodes' = length nodes /\ ordered k n (rd nodes') /\ take n nodes' ≡ₚ xs.
Proof.
  intros Hk Hn Hok Hperm.
  apply (while_total
    (fun '(ns, h) => (k <= h < n)%nat /\ length ns = length nodes
       /\ down_ok k n h (hole ns h v) /\ take n (<[h := v]> ns) ≡ₚ xs)
    (fun ns => length ns = length nodes /\ ordered k n (rd ns) /\ take n ns ≡ₚ xs)
    (fun '(_, h) => (n - h)%nat)); [split; [lia|done]|lia|].
  intros [ns h] (Hh & Hlen & Hok' & Hp).
  pose proof (sift_down_step_cases n v ns h) as Hcase.
  destruct (sift_down_step compare n v (ns, h)) as [[ns' s]|ns'].
  - destruct Hcase as (-> & Hc & Hs & Hle & Hmax). pose proof (child_gt _ _ Hc).
    rewrite length_insert. split_and!; [lia|lia|done| | |lia].
    + apply down_ok_step; done || lia.
    + rewrite hole_move_perm by lia. done.
  - destruct Hcase as (-> & Hmax). rewrite length_insert. split; [done|]. split; [|done].
    intros p i Hkp Hc Hi. rewrite !hole_fill by lia.
    destruct (decide (p = h)) as [->|Hne]; [|by apply (proj1 Hok')].
    pose proof (child_gt _ _ Hc). rewrite hole_eq, hole_ne by lia. by apply Hmax.
Qed.

(** ** Operations *)

(** A heap header is sound when the array has [bh_space] cells and the live
    ones fit. *)
Definition heap_ok (h : binaryheap) : Prop :=
  (bh_size h <= bh_space h)%nat /\ length (bh_nodes h) = bh_space h.

(** The stored Datums, in array order. *)
Definition contents (h : binaryheap) : list Z := take (bh_size h) (bh_nodes h).

Definition is_heap (h : binaryheap) : Prop :=
  heap_ok h /\ ordered 0 (bh_size h) (rd (bh_nodes h)).

(** Writing a node back where it was read changes nothing. *)
Lemma hole_same nodes h i : hole nodes h (rd nodes h) i = rd nodes i.
Proof. unfold hole. case_decide; by subst. Qed.

Lemma insert_rd nodes h : <[h := rd nodes h]> nodes = nodes.
Proof.
  destruct (decide (h < length nodes)%nat) as [H|H].
  - by apply list_insert_id, rd_lookup.
  - apply list_insert_ge. lia.
Qed.

Lemma sift_down_spec h k :
  heap_ok h -> (k < bh_size h)%nat ->
  ordered (S k) (bh_size h) (rd (bh_nodes h)) ->
  exists ns, sift_down compare h k = Ok (set_nodes ns h)
    /\ length ns = length (bh_nodes h)
    /\ ordered k (bh_size h) (rd ns) /\ take (bh_size h) ns ≡ₚ contents h.
Proof.
  intros [Hsz Hlen] Hk Hord. unfold sift_down.
  destruct (sift_down_loop k (bh_size h) (bh_nodes h) (rd (bh_nodes h) k) (contents h))
    as (ns & -> & Hns); [done|lia| |by rewrite insert_rd|].
  - split.
    + intros p i Hp Hc Hi Hne. rewrite !hole_same. apply Hord; [lia|done|done].
    + intros p c Hp Hc. pose proof (child_gt _ _ Hc). lia.
  - by exists ns.
Qed.

Lemma contents_snoc h d :
  heap_ok h -> (bh_size h < bh_space h)%nat ->
  take (S (bh_size h)) (<[bh_size h := d]> (bh_nodes h)) = contents h ++ [d].
Proof.
  intros [Hsz Hlen] Hlt. rewrite (take_S_r _ _ d) by (apply list_lookup_insert_eq; lia).
  by rewrite take_insert_ge.
Qed.

Lemma binaryheap_add_spec h d :
  is_heap h -> (bh_size h < bh_space h)%nat ->
  exists h', binaryheap_add compare h d = Ok h' /\ is_heap h'
    /\ contents h' ≡ₚ d :: contents h
    /\ bh_space h' = bh_space h /\ bh_has_heap_property h' = bh_has_heap_property h.
Proof.
  intros [Hok Hord] Hlt. unfold binaryheap_add.
  destruct (Nat.leb_spec (bh_space h) (bh_size h)) as [|_]; [lia|].
  unfold sift_up; cbn [bh_nodes bh_size set_nodes set_size].
  rewrite Nat.add_1_r, Nat.sub_succ, Nat.sub_0_r.
  set (ns := <[bh_size h := d]> (bh_nodes h)).
  destruct Hok as [Hsz Hlen].
  assert (Hns : length ns = bh_space h) by (unfold ns; by rewrite length_insert).
  destruct (sift_up_loop (S (bh_size h)) ns (bh_size h) (rd ns (bh_size h))
    (contents h ++ [d])) as (ns' & -> & Hl' & Ho' & Hp'); [lia|lia| | |].
  - split.
    + intros p i Hc Hi Hne. pose proof (child_gt _ _ Hc). rewrite !hole_same. unfold ns.
      rewrite !rd_insert_ne by lia. apply Hord; done || lia.
    + intros p c _ Hc Hcn. pose proof (child_gt _ _ Hc). lia.
  - rewrite insert_rd. unfold ns. by rewrite contents_snoc.
  - eexists. split; [done|]. split; [split; [split|]|]; simpl; try done || lia.
    split; [|done]. unfold contents; simpl. rewrite Hp'. symmetry. apply Permutation_cons_append.
Qed.

Lemma binaryheap_build_spec h :
  heap_ok h ->
  exists h', binaryheap_build compare h = Ok h' /\ is_heap h'
    /\ contents h' ≡ₚ contents h
    /\ bh_space h' = bh_space h /\ bh_has_heap_property h' = true.
Proof.
  intros Hok. unfold binaryheap_build.
  set (n := Z.to_nat (parent_offset (Z.of_nat (bh_size h) - 1) + 1)).
  assert (Hloop : match for_down_ret n
    (fun i heap => match sift_down compare heap i with
                   | Ok heap => Next heap
                   | Err m => Return (Err m)
                   end) h with
    | Next h' => heap_ok h' /\ ordered 0 (bh_size h) (rd (bh_nodes h'))
       /\ contents h' ≡ₚ contents h /\ bh_size h' = bh_size h /\ bh_space h' = bh_space h
    | Return r => r = Ok h /\ False
    end).
  { apply (for_down_ret_ind (fun k h' => heap_ok h' /\ ordered k (bh_size h) (rd (bh_nodes h'))
       /\ contents h' ≡ₚ contents h /\ bh_size h' = bh_size h /\ bh_space h' = bh_space h)
       (fun r => r = Ok h /\ False)).
    - split; [done|]. split; [|done]. intros p i Hp Hc Hi.
      unfold n, child, left_offset, right_offset, parent_offset in *.
      exfalso. Z.to_euclidean_division_equations. lia.
    - intros k h' Hk (Hok' & Hord & Hp & Hs & Hsp).
      destruct (sift_down_spec h' k) as (ns & -> & Hl & Ho & Hpe); [done| |by rewrite Hs|].
      { rewrite Hs. unfold n, parent_offset in Hk. Z.to_euclidean_division_equations. lia. }
      destruct Hok' as [H1 H2]. unfold heap_ok; simpl. rewrite Hs in *.
      split; [split; [done|congruence]|]. split; [done|].
      split; [|done]. unfold contents at 1; simpl. rewrite Hs, Hpe. done. }
  destruct (for_down_ret n _ h) as [h'|r]; simpl; [|by destruct Hloop].
  destruct Hloop as (Hok' & Hord & Hp & Hs & Hsp).
  eexists. split; [done|]. unfold is_heap; simpl. rewrite Hs. by split_and!.
Qed.

Lemma root_max h i :
  is_heap h -> (i < bh_size h)%nat -> le (rd (bh_nodes h) i) (binaryheap_first h).
Proof.
  intros [_ Hord]. induction i as [i IH] using lt_wf_ind. intros Hi.
  destruct (decide (i = 0%nat)) as [->|Hne]; [apply compare_refl|].
  pose proof (child_parent i ltac:(lia)) as Hc. pose proof (child_gt _ _ Hc).
  eapply compare_trans; [apply (Hord (Z.to_nat (parent_offset (Z.of_nat i))) i); [lia|done|done]|].
  apply IH; lia.
Qed.

Lemma contents_max h x : is_heap h -> x ∈ contents h -> le x (binaryheap_first h).
Proof.
  intros Hh Hx. apply list_elem_of_lookup in Hx as [i Hi].
  unfold contents in Hi. apply lookup_take_Some in Hi as [Hi Hlt].
  replace x with (rd (bh_nodes h) i) by (unfold rd; by rewrite Hi).
  by apply root_max.
Qed.

(** Replacing the root by [v] in the first [n] nodes, then sifting it down. *)
Lemma sift_root h v n :
  heap_ok h -> (0 < n <= bh_size h)%nat -> ordered 0 (bh_size h) (rd (bh_nodes h)) ->
  exists ns, sift_down compare (mk_heap n (bh_space h) (bh_has_heap_property h)
                          (<[0%nat := v]> (bh_nodes h))) 0
    = Ok (mk_heap n (bh_space h) (bh_has_heap_property h) ns)
    /\ length ns = length (bh_nodes h) /\ ordered 0 n (rd ns)
    /\ take n ns ≡ₚ take n (<[0%nat := v]> (bh_nodes h)).
Proof.
  intros [Hsz Hlen] Hn Hord.
  destruct (sift_down_spec (mk_heap n (bh_space h) (bh_has_heap_property h)
    (<[0%nat := v]> (bh_nodes h))) 0) as (ns & E & Hl & Ho & Hp); simpl.
  - split; simpl; [lia|]. by rewrite length_insert.
  - lia.
  - intros p i Hp Hc Hi. pose proof (child_gt _ _ Hc). rewrite !rd_insert_ne by lia.
    apply Hord; done || lia.
  - exists ns. simpl in *. rewrite length_insert in Hl. done.
Qed.

Lemma contents_cons h :
  heap_ok h -> (0 < bh_size h)%nat ->
  contents h = binaryheap_first h :: tail (contents h).
Proof.
  intros [Hsz Hlen] Hn. unfold contents, binaryheap_first, rd.
  destruct (bh_nodes h) as [|x ns]; simpl in *; [lia|]. by destruct (bh_size h); [lia|].
Qed.

Lemma binaryheap_remove_first_spec h :
  is_heap h -> (0 < bh_size h)%nat ->
  exists h', binaryheap_remove_first compare h = Ok (binaryheap_first h, h') /\ is_heap h'
    /\ contents h ≡ₚ binaryheap_first h :: contents h'
    /\ bh_size h' = (bh_size h - 1)%nat /\ bh_space h' = bh_space h.
Proof.
  intros [Hok Hord] Hn. pose proof Hok as [Hsz Hlen]. unfold binaryheap_remove_first.
  destruct (Nat.eqb_spec (bh_size h) 1) as [E|E].
  - eexists. split; [done|]. unfold is_heap, heap_ok; simpl.
    split; [split; [lia|intros p i _ Hc Hi; lia]|]. split; [|done].
    rewrite (contents_cons h) by done.
    unfold contents; simpl. rewrite E. by destruct (bh_nodes h).
  - cbn [bh_size bh_nodes set_size]. unfold set_nodes; simpl.
    destruct (sift_root h (rd (bh_nodes h) (bh_size h - 1)) (bh_size h - 1))
      as (ns & -> & Hl & Ho & Hp); [done|lia|done|]. simpl.
    eexists. split; [done|]. split; [split; [split|]|]; simpl; try done || lia.
    split; [|done]. unfold contents at 2; simpl. rewrite Hp.
    rewrite take_insert_lt by lia. rewrite (contents_cons h) by done. f_equiv.
    unfold contents. replace (bh_size h) with (S (bh_size h - 1)) at 1 by lia.
    rewrite (take_S_r _ _ (rd (bh_nodes h) (bh_size h - 1))) by (apply rd_lookup; lia).
    destruct (bh_nodes h) as [|x xs]; simpl in *; [lia|].
    destruct (bh_size h - 1)%nat eqn:En; [lia|]. simpl.
    symmetry. apply Permutation_cons_append.
Qed.

Lemma binaryheap_replace_first_spec h d :
  is_heap h -> (0 < bh_size h)%nat ->
  exists h', binaryheap_replace_first compare h d = Ok h' /\ is_heap h'
    /\ contents h' ≡ₚ d :: tail (contents h)
    /\ bh_size h' = bh_size h /\ bh_space h' = bh_space h.
Proof.
  intros [Hok Hord] Hn. pose proof Hok as [Hsz Hlen]. unfold binaryheap_replace_first.
  assert (Hc : take (bh_size h) (<[0%nat := d]> (bh_nodes h)) = d :: tail (contents h)).
  { rewrite take_insert_lt by lia. unfold contents.
    destruct (bh_nodes h) as [|x xs]; simpl in *; [lia|]. by destruct (bh_size h); [lia|]. }
  cbn [bh_size set_nodes]. destruct (Nat.ltb_spec 1 (bh_size h)) as [H1|H1].
  - destruct (sift_root h d (bh_size h)) as (ns & E & Hl & Ho & Hp); [done|lia|done|].
    unfold set_nodes. rewrite E. eexists. split; [done|].
    split; [split; [split|]|]; simpl; try done || lia.
    split; [|done]. unfold contents at 1; simpl. by rewrite Hp, Hc.
  - eexists. split; [done|]. unfold is_heap, heap_ok; simpl. rewrite length_insert.
    split; [split; [done|]|]; [|split; [|done]].
    + intros p i _ Hch Hi. pose proof (child_gt _ _ Hch). lia.
    + unfold contents at 1; simpl. by rewrite Hc.
Qed.

(** Removing the first node [n] times, collecting the results. *)
Fixpoint drain (n : nat) (h : binaryheap) : res (list Z * binaryheap) :=
  match n with
  | O => Ok ([], h)
  | S n =>
      r <-! binaryheap_remove_first compare h ;;
      rest <-! drain n (snd r) ;;
      Ok (fst r :: fst rest, snd rest)
  end.

Lemma drain_spec h :
  is_heap h ->
  exists out h', drain (bh_size h) h = Ok (out, h') /\ bh_size h' = 0%nat
    /\ out ≡ₚ contents h /\ StronglySorted (fun a b => le b a) out.
Proof.
  remember (bh_size h) as n eqn:En. revert h En.
  induction n as [|n IH]; intros h En Hh.
  { exists [], h. split; [done|]. split; [done|]. unfold contents. rewrite <- En.
    split; [done|constructor]. }
  destruct (binaryheap_remove_first_spec h Hh ltac:(lia)) as (h' & E & Hh' & Hp & Hsz & _).
  destruct (IH h' ltac:(lia) Hh') as (out & h'' & E' & H0 & Hp' & Hs).
  exists (binaryheap_first h :: out), h''. simpl. rewrite E. simpl. rewrite E'.
  split; [done|]. split; [done|]. split; [by rewrite Hp, Hp'|].
  constructor; [done|]. apply Forall_forall. intros x Hx. apply contents_max; [done|].
  rewrite Hp. right. by rewrite <- Hp'.
Qed.
End heap_props.

(** The integers compared as integers: a comparator a max-heap may use. *)
Definition int_compare (a b : Z) : Z := Z.sgn (a - b).

#[global] Instance int_compare_Comparator : Comparator int_compare.
Proof. split; unfold int_compare; intros; lia. Qed.

(** C39: the heap is a priority queue.  On a heap of a comparator that orders
    its Datums, with a free slot where one is needed, insertion keeps the heap
    property and adds its Datum to the multiset of contents; the first node is a
    maximum of the contents; removing it returns it and takes exactly one
    occurrence away; replacing it exchanges it for the new Datum.  Every call
    returns: the sifting loops end. *)
Theorem binaryheap_priority_queue (compare : Z -> Z -> Z) (HC : Comparator compare)
    (h : binaryheap) (d : Z) (Hh : is_heap compare h) :
  ((bh_size h < bh_space h)%nat ->
     exists h', binaryheap_add compare h d = Ok h' /\ is_heap compare h'
       /\ contents h' ≡ₚ d :: contents h)
  /\ ((0 < bh_size h)%nat ->
     binaryheap_first h ∈ contents h
     /\ (forall x, x ∈ contents h -> compare x (binaryheap_first h) <= 0)
     /\ (exists h', binaryheap_remove_first compare h = Ok (binaryheap_first h, h')
           /\ is_heap compare h' /\ contents h ≡ₚ binaryheap_first h :: contents h')
     /\ (exists h', binaryheap_replace_first compare h d = Ok h' /\ is_heap compare h'
           /\ binaryheap_first h :: contents h' ≡ₚ d :: contents h)).
Proof.
  split.
  - intros Hlt. destruct (binaryheap_add_spec compare h d Hh Hlt) as (h' & E & H1 & H2 & _).
    by exists h'.
  - intros Hn. pose proof (contents_cons h (proj1 Hh) Hn) as Hc.
    split; [rewrite Hc; by left|]. split; [intros x; by apply contents_max|]. split.
    + destruct (binaryheap_remove_first_spec compare h Hh Hn) as (h' & E & H1 & H2 & _).
      by exists h'.
    + destruct (binaryheap_replace_first_spec compare h d Hh Hn) as (h' & E & H1 & H2 & _).
      exists h'. split; [done|]. split; [done|]. rewrite H2, Hc. simpl. constructor.
Qed.

Lemma binaryheap_priority_queue_witness :
  exists h', binaryheap_add int_compare (mk_heap 2 4 true [9; 3; 0; 0]) 11 = Ok h'
    /\ contents h' ≡ₚ [11; 9; 3].
Proof.
  destruct (binaryheap_priority_queue int_compare int_compare_Comparator
    (mk_heap 2 4 true [9; 3; 0; 0]) 11) as [H _].
  - split; [split; simpl; lia|]. intros p i _ Hc Hi. simpl in Hi.
    assert (p = 0%nat /\ i = 1%nat) as [-> ->]
      by (unfold child, left_offset, right_offset in Hc; lia). done.
  - destruct H as (h' & E & _ & Hp); [simpl; lia|]. by exists h'.
Defined.

(** Building a heap and draining it sorts.  From any sound header, in
    whatever order its Datums were added, [binaryheap_build] reestablishes the
    heap property, sets the flag and keeps the contents; removing the first node
    as often as there are nodes then empties the heap and yields a permutation of
    the contents in descending order. *)
Theorem binaryheap_build_drain (compare : Z -> Z -> Z) (HC : Comparator compare)
    (h : binaryheap) (Hok : heap_ok h) :
  exists h' out h'', binaryheap_build compare h = Ok h' /\ is_heap compare h'
    /\ bh_has_heap_property h' = true /\ contents h' ≡ₚ contents h
    /\ drain compare (bh_size h') h' = Ok (out, h'') /\ binaryheap_empty h'' = true
    /\ out ≡ₚ contents h /\ StronglySorted (fun a b => compare b a <= 0) out.
Proof.
  destruct (binaryheap_build_spec compare h Hok) as (h' & E & Hh' & Hp & _ & Hflag).
  destruct (drain_spec compare h' Hh') as (out & h'' & E' & H0 & Hp' & Hs).
  exists h', out, h''. do 5 (split; [done|]).
  split; [unfold binaryheap_empty; by rewrite H0|]. split; [by rewrite Hp', Hp|done].
Qed.

Lemma binaryheap_build_drain_witness :
  exists h' out h'', binaryheap_build int_compare (mk_heap 4 5 false [3; 8; 1; 5; 0]) = Ok h'
    /\ drain int_compare (bh_size h') h' = Ok (out, h'') /\ out = [8; 5; 3; 1].
Proof.
  destruct (binaryheap_build_drain int_compare int_compare_Comparator
    (mk_heap 4 5 false [3; 8; 1; 5; 0])) as (h' & out & h'' & E & _ & _ & _ & E' & _).
  - split; simpl; lia.
  - exists h', out, h''. split; [done|]. split; [done|].
    vm_compute in E. injection E as <-. vm_compute in E'. by injection E' as <- _.
Defined.

(** Capacity.  A full heap refuses both insertions with the documented
    error; a heap with a free slot accepts an unordered one, which appends the
    Datum and clears the flag; a fresh or reset heap is empty, sound, and has the
    heap property, so up to [capacity] Datums can be added. *)
Theorem binaryheap_capacity (compare : Z -> Z -> Z) (h : binaryheap) (d : Z)
    (garbage : list Z) (capacity : nat) (Hok : heap_ok h)
    (Hg : (capacity <= length garbage)%nat) :
  (bh_size h = bh_space h ->
     binaryheap_add compare h d = Err "out of binary heap slots"
     /\ binaryheap_add_unordered h d = Err "out of binary heap slots")
  /\ ((bh_size h < bh_space h)%nat ->
     exists h', binaryheap_add_unordered h d = Ok h' /\ heap_ok h'
       /\ contents h' = contents h ++ [d] /\ bh_has_heap_property h' = false)
  /\ (is_heap compare (binaryheap_allocate garbage capacity)
      /\ contents (binaryheap_allocate garbage capacity) = []
      /\ bh_space (binaryheap_allocate garbage capacity) = capacity
      /\ is_heap compare (binaryheap_reset h) /\ contents (binaryheap_reset h) = []
      /\ bh_space (binaryheap_reset h) = bh_space h).
Proof.
  unfold binaryheap_add, binaryheap_add_unordered.
  split; [intros ->; by rewrite Nat.leb_refl|]. split.
  - intros Hlt. destruct (Nat.leb_spec (bh_space h) (bh_size h)) as [|_]; [lia|].
    eexists. split; [done|]. unfold heap_ok; simpl. rewrite length_insert.
    split; [split; [lia|apply Hok]|]. split; [|done].
    unfold contents at 1; simpl. rewrite Nat.add_1_r. by apply contents_snoc.
  - destruct Hok as [Hsz Hlen].
    assert (Hempty : forall f, ordered compare 0 0 f) by (intros f p i _ _ Hi; lia).
    split_and!; try done.
    + split; [split; [simpl; lia|simpl; rewrite length_take; lia]|apply Hempty].
    + split; [split; [simpl; lia|done]|apply Hempty].
Qed.

Lemma binaryheap_capacity_witness :
  binaryheap_add int_compare (mk_heap 1 1 true [4]) 5 = Err "out of binary heap slots".
Proof.
  apply (binaryheap_capacity int_compare (mk_heap 1 1 true [4]) 5 [] 0);
    [split; simpl; lia|simpl; lia|done].
Defined.
