(* ===== verification/FsmPage.v ===== *)
(** One page of the free space map: backend/storage/freespace/fsmpage.c and the
    layout of include/storage/fsm_internals.h.

    A page is a binary tree of one-byte categories stored in an array: the first
    [NonLeafNodesPerPage] nodes are upper nodes, each to hold the maximum of its
    children, and the rest are the leaves, one per slot.  The block size
    [BLCKSZ], chosen at configure time, is a parameter.  [fsm_search_avail] may
    give up its lock before repairing a torn page; what other backends do to the
    page meanwhile is the argument [others], and the calls to the buffer manager
    are collected in the result. *)

From S2P Require Import Prelude.
Local Open Scope Z_scope.
Local Open Scope pg_scope.

Record FSMPage : Set := mk_page {
  fp_next_slot : Z;
  fp_nodes : list Z
}.

Definition set_nodes (ns : list Z) (p : FSMPage) : FSMPage := mk_page (fp_next_slot p) ns.

(** Calls into the buffer manager. *)
Inductive buf_event : Set := LockUnlock | LockExclusive | MarkDirtyHint.

Section fsm.
Context (BLCKSZ : nat).

(** [BLCKSZ - MAXALIGN(SizeOfPageHeaderData) - offsetof(FSMPageData, fp_nodes)]:
    the page header has 24 bytes and [fp_next_slot] 4. *)
Definition NodesPerPage : nat := BLCKSZ - 24 - 4.
Definition NonLeafNodesPerPage : nat := BLCKSZ / 2 - 1.
Definition LeafNodesPerPage : nat := NodesPerPage - NonLeafNodesPerPage.

Definition leftchild (x : nat) : nat := 2 * x + 1.
(** Only taken of nodes other than the root. *)
Definition parentof (x : nat) : nat := (x - 1) / 2.

Definition rightneighbor (x : nat) : nat :=
  let x := S x in
  if Z.land (Z.of_nat x + 1) (Z.of_nat x) =? 0 then parentof x else x.

(** The maximum of a node's children, as the loops compute it; a [uint8] that
    starts as 0. *)
Definition children_max (nodes : list Z) (nodeno : nat) : Z :=
  let lchild := leftchild nodeno in
  let rchild := S lchild in
  let newvalue := 0 in
  let newvalue := if (lchild <? NodesPerPage)%nat then rd nodes lchild else newvalue in
  if (rchild <? NodesPerPage)%nat then Z.max newvalue (rd nodes rchild) else newvalue.

Definition fsm_rebuild_page (page : FSMPage) : bool * FSMPage :=
  let '(changed, nodes) :=
    for_down NonLeafNodesPerPage
      (fun nodeno '(changed, nodes) =>
         let newvalue := children_max nodes nodeno in
         if negb (rd nodes nodeno =? newvalue)
         then (true, <[nodeno := newvalue]> nodes)
         else (changed, nodes))
      (false, fp_nodes page) in
  (changed, set_nodes nodes page).

(** The [do ... while] loop of [fsm_set_avail], one round. *)
Definition propagate_step (s : list Z * nat) : flow (list Z * nat) (list Z) :=
  let '(nodes, nodeno) := s in
  let nodeno := parentof nodeno in
  let lchild := leftchild nodeno in
  let rchild := S lchild in
  let newvalue := rd nodes lchild in
  let newvalue := if (rchild <? NodesPerPage)%nat
                  then Z.max newvalue (rd nodes rchild) else newvalue in
  let oldvalue := rd nodes nodeno in
  if oldvalue =? newvalue then Return nodes
  else
    let nodes := <[nodeno := newvalue]> nodes in
    if (0 <? nodeno)%nat then Next (nodes, nodeno) else Return nodes.

Definition fsm_set_avail (page : FSMPage) (slot : nat) (value : Z) : res (bool * FSMPage) :=
  let nodeno := (NonLeafNodesPerPage + slot)%nat in
  let oldvalue := rd (fp_nodes page) nodeno in
  if (oldvalue =? value) && (value <=? rd (fp_nodes page) 0) then Ok (false, page)
  else
    let nodes := <[nodeno := value]> (fp_nodes page) in
    nodes <-! of_fuel (while NodesPerPage propagate_step (nodes, nodeno)) ;;
    let page := set_nodes nodes page in
    if value >? rd (fp_nodes page) 0
    then Ok (true, snd (fsm_rebuild_page page))
    else Ok (true, page).

Definition fsm_get_avail (page : FSMPage) (slot : nat) : Z :=
  rd (fp_nodes page) (NonLeafNodesPerPage + slot).

Definition fsm_get_max_avail (page : FSMPage) : Z := rd (fp_nodes page) 0.

(** Right and up from the target until a node has enough space. *)
Definition climb_step (nodes : list Z) (minvalue : Z) (nodeno : nat) : flow nat nat :=
  if (0 <? nodeno)%nat then
    if minvalue <=? rd nodes nodeno then Return nodeno
    else Next (parentof (rightneighbor nodeno))
  else Return nodeno.

(** Down from there; [None] where a node promised space its children lack. *)
Definition descend_step (nodes : list Z) (minvalue : Z) (nodeno : nat)
  : flow nat (option nat) :=
  if (nodeno <? NonLeafNodesPerPage)%nat then
    let childnodeno := leftchild nodeno in
    if (childnodeno <? NodesPerPage)%nat && (minvalue <=? rd nodes childnodeno)
    then Next childnodeno
    else
      let childnodeno := S childnodeno in
      if (childnodeno <? NodesPerPage)%nat && (minvalue <=? rd nodes childnodeno)
      then Next childnodeno
      else Return None
  else Return (Some nodeno).

(** The state at the label [restart]. *)
Record search : Set := mk_search {
  s_page : FSMPage;
  s_exclusive : bool;
  s_events : list buf_event
}.

Definition search_round (others : FSMPage -> FSMPage) (minvalue : Z) (advancenext : bool)
    (s : search) : flow search (res (Z * FSMPage * list buf_event)) :=
  let fsmpage := s_page s in
  if rd (fp_nodes fsmpage) 0 <? minvalue then Return (Ok (-1, fsmpage, s_events s))
  else
    let target := fp_next_slot fsmpage in
    let target := if (target <? 0) || (Z.of_nat LeafNodesPerPage <=? target)
                  then 0 else target in
    let target := (Z.to_nat target + NonLeafNodesPerPage)%nat in
    match while (S NodesPerPage) (climb_step (fp_nodes fsmpage) minvalue) target with
    | None => Return (Err out_of_fuel)
    | Some nodeno =>
        match while (S NodesPerPage) (descend_step (fp_nodes fsmpage) minvalue) nodeno with
        | None => Return (Err out_of_fuel)
        | Some None =>
            (* torn page: repair it under an exclusive lock and start again *)
            let '(fsmpage, events) :=
              if s_exclusive s then (fsmpage, s_events s)
              else (others fsmpage, s_events s ++ [LockUnlock; LockExclusive]) in
            Next (mk_search (snd (fsm_rebuild_page fsmpage)) true (events ++ [MarkDirtyHint]))
        | Some (Some nodeno) =>
            let slot := uwrap 16 (Z.of_nat nodeno - Z.of_nat NonLeafNodesPerPage) in
            let fsmpage := mk_page (slot + (if advancenext then 1 else 0)) (fp_nodes fsmpage) in
            Return (Ok (slot, fsmpage, s_events s))
        end
    end.

(** Two rounds suffice: a repaired page is never found torn again. *)
Definition fsm_search_avail (others : FSMPage -> FSMPage) (page : FSMPage) (minvalue : Z)
    (advancenext exclusive_lock_held : bool) : res (Z * FSMPage * list buf_event) :=
  match while 2 (search_round others minvalue advancenext)
          (mk_search page exclusive_lock_held []) with
  | Some r => r
  | None => Err out_of_fuel
  end.

(** Clear the leaves from [nslots] on. *)
Definition fsm_truncate_avail (page : FSMPage) (nslots : nat) : bool * FSMPage :=
  let '(changed, nodes) :=
    for_up (LeafNodesPerPage - nslots) (NonLeafNodesPerPage + nslots)
      (fun i '(changed, nodes) =>
         let changed := if negb (rd nodes i =? 0) then true else changed in
         (changed, <[i := 0]> nodes))
      (false, fp_nodes page) in
  let page := set_nodes nodes page in
  if changed then (changed, snd (fsm_rebuild_page page)) else (changed, page).
End fsm.
