(* ===== verification/FsmPageProps.v ===== *)
(** Correctness of a free space map page: rebuilding and updating keep every
    upper node the maximum of its children, a search finds the first suitable
    slot at or after the hint, cyclically, and a torn page is repaired. *)

From S2P Require Import Prelude BitUtils FsmPage.
Local Open Scope Z_scope.
Local Open Scope pg_scope.

Section fsm_props.
Context (D BLCKSZ : nat).
Context (HD : (5 <= D <= 14)%nat) (HB : BLCKSZ = (2 ^ (D + 1))%nat).

Local Notation "'N'" := (NodesPerPage BLCKSZ).
Local Notation "'L'" := (NonLeafNodesPerPage BLCKSZ).

Lemma fsm_sizes :
  L = (2 ^ D - 1)%nat /\ N = (2 * 2 ^ D - 28)%nat /\ (32 <= 2 ^ D)%nat /\ Z.of_nat N <= 32740.
Proof.
  unfold NonLeafNodesPerPage, NodesPerPage. rewrite HB, Nat.add_1_r, Nat.pow_succ_r'.
  rewrite (Nat.mul_comm 2 (2 ^ D)), Nat.div_mul by done.
  assert (2 ^ 5 <= 2 ^ D)%nat by (apply Nat.pow_le_mono_r; lia).
  assert (2 ^ D <= 2 ^ 14)%nat by (apply Nat.pow_le_mono_r; lia).
  change (2 ^ 5)%nat with 32%nat in *.
  assert (Z.of_nat (2 ^ D) <= 16384).
  { rewrite Nat2Z.inj_pow. change 16384 with (2 ^ 14). apply Z.pow_le_mono_r; lia. }
  lia.
Qed.

(** A page as the disk format gives it: the right number of bytes. *)
Definition nodes_ok (nodes : list Z) : Prop :=
  length nodes = N /\ Forall (in_u 8) nodes.

Lemma nodes_ok_nonneg nodes i : nodes_ok nodes -> 0 <= rd nodes i < 2 ^ 8.
Proof.
  intros [_ H]. unfold rd. destruct (nodes !! i) as [x|] eqn:E; simpl; [|lia].
  rewrite Forall_forall in H. apply (H x). by eapply list_elem_of_lookup_2.
Qed.

Lemma nodes_ok_insert nodes i x : nodes_ok nodes -> in_u 8 x -> nodes_ok (<[i := x]> nodes).
Proof.
  intros [Hl H] Hx. split; [by rewrite length_insert|]. by apply Forall_insert.
Qed.

Lemma children_max_eq nodes i :
  nodes_ok nodes ->
  children_max BLCKSZ nodes i = Z.max (rd nodes (leftchild i)) (rd nodes (S (leftchild i))).
Proof.
  intros Hok. unfold children_max.
  pose proof (nodes_ok_nonneg nodes (leftchild i) Hok).
  pose proof (nodes_ok_nonneg nodes (S (leftchild i)) Hok).
  destruct (Nat.ltb_spec (leftchild i) N), (Nat.ltb_spec (S (leftchild i)) N); try lia.
  - rewrite (rd_ge nodes (S (leftchild i))) in * by (rewrite (proj1 Hok); lia). lia.
  - rewrite (rd_ge nodes (leftchild i)), (rd_ge nodes (S (leftchild i))) in *
      by (rewrite (proj1 Hok); lia). lia.
Qed.

Lemma children_max_u8 nodes i : nodes_ok nodes -> in_u 8 (children_max BLCKSZ nodes i).
Proof.
  intros Hok. rewrite children_max_eq by done. unfold in_u.
  pose proof (nodes_ok_nonneg nodes (leftchild i) Hok).
  pose proof (nodes_ok_nonneg nodes (S (leftchild i)) Hok). lia.
Qed.

(** Node [i] holds the maximum of its children. *)
Definition node_valid (nodes : list Z) (i : nat) : Prop :=
  rd nodes i = children_max BLCKSZ nodes i.

Definition tree_valid (nodes : list Z) : Prop :=
  forall i, (i < L)%nat -> node_valid nodes i.

(** A write spoils only the node itself and its parent. *)
Lemma node_valid_insert nodes i j x :
  nodes_ok nodes -> in_u 8 x -> i <> j -> leftchild j <> i -> S (leftchild j) <> i ->
  node_valid nodes j -> node_valid (<[i := x]> nodes) j.
Proof.
  unfold node_valid. intros Hok Hx H1 H2 H3 Hv.
  rewrite !children_max_eq in * by (done || by apply nodes_ok_insert).
  by rewrite !rd_insert_ne by done.
Qed.

(** Writing the maximum of its children into a node makes it valid. *)
Lemma node_valid_update nodes k :
  nodes_ok nodes -> (k < length nodes)%nat ->
  node_valid (<[k := children_max BLCKSZ nodes k]> nodes) k.
Proof.
  intros Hok Hk. unfold node_valid. rewrite rd_insert_eq by done.
  pose proof (children_max_u8 nodes k Hok) as Hu.
  rewrite (children_max_eq (<[k := _]> nodes)) by (by apply nodes_ok_insert).
  rewrite !rd_insert_ne by (unfold leftchild; lia). by apply children_max_eq.
Qed.

(** ** Rebuilding *)

(** The loop invariant: the nodes from [k] on are done. *)
Definition rebuild_inv (orig : list Z) (k : nat) (s : bool * list Z) : Prop :=
  nodes_ok (snd s)
  /\ (forall i, (k <= i < L)%nat -> node_valid (snd s) i)
  /\ (forall i, (i < k \/ L <= i)%nat -> rd (snd s) i = rd orig i)
  /\ (if fst s then exists i, (k <= i)%nat /\ rd (snd s) i <> rd orig i else snd s = orig).

Lemma rebuild_step orig k ch ns :
  (k < L)%nat -> rebuild_inv orig (S k) (ch, ns) ->
  rebuild_inv orig k
    (if negb (rd ns k =? children_max BLCKSZ ns k)
     then (true, <[k := children_max BLCKSZ ns k]> ns) else (ch, ns)).
Proof.
  intros Hk (Hok' & Hv & Hsame & Hch). unfold rebuild_inv. simpl in *. pose proof fsm_sizes as (HL & HN & H32 & _).
  pose proof (children_max_u8 ns k Hok') as Hu.
  destruct (Z.eqb_spec (rd ns k) (children_max BLCKSZ ns k)) as [E|E]; simpl.
  - split; [done|]. split; [|split].
    + intros i Hi. destruct (decide (i = k)) as [->|]; [done|]. apply Hv. lia.
    + intros i Hi. apply Hsame. lia.
    + destruct ch; [|done]. destruct Hch as (i & Hi & Hne). exists i. split; [lia|done].
  - assert (Hlen : (k < length ns)%nat) by (rewrite (proj1 Hok'); lia).
    split; [by apply nodes_ok_insert|]. split; [|split].
    + intros i Hi. destruct (decide (i = k)) as [->|Hik].
      * by apply node_valid_update.
      * apply node_valid_insert; try done; try (unfold leftchild; lia). apply Hv. lia.
    + intros i Hi. rewrite rd_insert_ne by lia. apply Hsame. lia.
    + exists k. split; [lia|]. rewrite rd_insert_eq by done.
      rewrite <- (Hsame k) by lia. congruence.
Qed.

Lemma fsm_rebuild_page_spec p :
  nodes_ok (fp_nodes p) ->
  let r := fsm_rebuild_page BLCKSZ p in
  nodes_ok (fp_nodes (snd r)) /\ tree_valid (fp_nodes (snd r))
  /\ (forall i, (L <= i)%nat -> rd (fp_nodes (snd r)) i = rd (fp_nodes p) i)
  /\ fp_next_slot (snd r) = fp_next_slot p
  /\ (fst r = true <-> fp_nodes (snd r) <> fp_nodes p).
Proof.
  intros Hok. pose proof fsm_sizes as (HL & HN & H32 & _). intros r. subst r. unfold fsm_rebuild_page.
  match goal with |- context [for_down L ?b ?s0] =>
    assert (H : rebuild_inv (fp_nodes p) 0 (for_down L b s0)) end.
  { apply for_down_ind.
    - split_and!; simpl; try done. intros i Hi. lia.
    - intros k [ch ns] Hk Hinv. by apply rebuild_step. }
  destruct (for_down L _ _) as [changed nodes]. destruct H as (Hok' & Hv & Hleaf & Hch). simpl in *.
  split; [done|]. split; [intros i Hi; apply Hv; lia|].
  split; [intros i Hi; apply Hleaf; lia|]. split; [done|].
  destruct changed; [|naive_solver].
  destruct Hch as (i & _ & Hne). split; [|done]. intros _ E. by rewrite E in Hne.
Qed.

(** ** Updating a slot *)

Lemma parentof_child x : (0 < x)%nat ->
  (parentof x < x)%nat /\ (leftchild (parentof x) <= x <= S (leftchild (parentof x)))%nat.
Proof.
  intros Hx. unfold parentof, leftchild.
  pose proof (Nat.div_mod_eq (x - 1) 2). pose proof (Nat.mod_upper_bound (x - 1) 2). lia.
Qed.

Lemma parentof_nonleaf x : (0 < x < N)%nat -> (parentof x < L)%nat.
Proof.
  intros Hx. pose proof fsm_sizes as (HL & HN & H32 & _).
  pose proof (parentof_child x ltac:(lia)) as [_ H]. unfold leftchild in H. lia.
Qed.

(** In the loop the left child exists, so the value is the children's maximum. *)
Lemma propagate_step_eq ns k :
  (0 < k < N)%nat ->
  propagate_step BLCKSZ (ns, k) =
  let p := parentof k in
  if rd ns p =? children_max BLCKSZ ns p then Return ns
  else if (0 <? p)%nat then Next (<[p := children_max BLCKSZ ns p]> ns, p)
  else Return (<[p := children_max BLCKSZ ns p]> ns).
Proof.
  intros Hk. pose proof (parentof_child k ltac:(lia)) as [_ H].
  unfold propagate_step, children_max.
  by destruct (Nat.ltb_spec (leftchild (parentof k)) N); [|lia].
Qed.

Lemma propagate_spec ns x :
  nodes_ok ns -> (0 < x < N)%nat ->
  exists ns', while N (propagate_step BLCKSZ) (ns, x) = Some ns' /\ nodes_ok ns'
    /\ (forall i, (L <= i)%nat -> rd ns' i = rd ns i)
    /\ ((forall i, (i < L)%nat -> i <> parentof x -> node_valid ns i) -> tree_valid ns').
Proof.
  intros Hok Hx. pose proof fsm_sizes as (HL & HN & H32 & _).
  set (A := forall i, (i < L)%nat -> i <> parentof x -> node_valid ns i).
  apply (while_total
    (fun '(ns', k) => (0 < k < N)%nat /\ nodes_ok ns'
       /\ (forall i, (L <= i)%nat -> rd ns' i = rd ns i)
       /\ (A -> forall i, (i < L)%nat -> i <> parentof k -> node_valid ns' i))
    (fun ns' => nodes_ok ns' /\ (forall i, (L <= i)%nat -> rd ns' i = rd ns i)
       /\ (A -> tree_valid ns')) snd); [done|simpl; lia|].
  intros [ns' k] (Hk & Hok' & Hleaf & HA). rewrite propagate_step_eq by done. cbv zeta.
  pose proof (parentof_nonleaf k Hk) as HpL. pose proof (parentof_child k ltac:(lia)) as [Hpk _].
  set (p := parentof k) in *.
  assert (Hlen : (p < length ns')%nat) by (rewrite (proj1 Hok'); lia).
  destruct (Z.eqb_spec (rd ns' p) (children_max BLCKSZ ns' p)) as [E|E].
  - split; [done|]. split; [done|]. intros HA' i Hi.
    destruct (decide (i = p)) as [->|Hne]; [done|by apply HA].
  - pose proof (children_max_u8 ns' p Hok') as Hu.
    pose proof (nodes_ok_insert ns' p _ Hok' Hu) as Hok''.
    pose proof (node_valid_update ns' p Hok' Hlen) as Hvp.
    set (ns'' := <[p := children_max BLCKSZ ns' p]> ns') in *.
    assert (Hleaf' : forall i, (L <= i)%nat -> rd ns'' i = rd ns i)
      by (intros i Hi; unfold ns''; rewrite rd_insert_ne by lia; by apply Hleaf).
    assert (Hv : A -> forall i, (i < L)%nat -> p = 0%nat \/ i <> parentof p -> node_valid ns'' i).
    { intros HA' i Hi Hne. destruct (decide (i = p)) as [->|Hip]; [done|].
      destruct (decide (p = 0%nat)) as [E0|Hp0].
      - apply node_valid_insert; try done; try (unfold leftchild; lia). by apply HA.
      - pose proof (parentof_child p ltac:(lia)) as [_ Hc]. unfold leftchild in Hc.
        apply node_valid_insert; try done; try (unfold leftchild; lia). by apply HA. }
    destruct (Nat.ltb_spec 0 p) as [Hp0|Hp0].
    + split_and!; [lia|lia|done|done|intros; apply Hv; auto|simpl; lia].
    + split_and!; [done|done|]. intros HA' i Hi. apply Hv; [done|done|left; lia].
Qed.

(** ** The tree

    [node h j] is the [j]th node of height [h] from the left, and covers the
    leaf positions from [j * 2^h] to [(j + 1) * 2^h - 1]; positions beyond the
    last slot read as 0. *)
Definition node (h j : nat) : nat := 2 ^ (D - h) - 1 + j.

Definition leaf (nodes : list Z) (s : nat) : Z := rd nodes (L + s).

Lemma pow_half h : (S h <= D)%nat -> (2 ^ (D - h) = 2 * 2 ^ (D - S h))%nat.
Proof. intros H. replace (D - h)%nat with (S (D - S h)) by lia. apply Nat.pow_succ_r'. Qed.

Lemma pow_pos h : (0 < 2 ^ h)%nat.
Proof. apply Nat.neq_0_lt_0, Nat.pow_nonzero. done. Qed.

Lemma node_leaf j : node 0 j = (L + j)%nat.
Proof. unfold node. rewrite Nat.sub_0_r. by rewrite (proj1 fsm_sizes). Qed.

Lemma node_left h j : (S h <= D)%nat -> leftchild (node (S h) j) = node h (2 * j).
Proof.
  intros H. unfold leftchild, node. rewrite (pow_half h H).
  pose proof (pow_pos (D - S h)). lia.
Qed.

Lemma node_right h j : (S h <= D)%nat -> S (leftchild (node (S h) j)) = node h (2 * j + 1).
Proof. intros H. rewrite node_left by done. unfold node. lia. Qed.

Lemma node_nonleaf h j : (S h <= D)%nat -> (j < 2 ^ (D - S h))%nat -> (node (S h) j < L)%nat.
Proof.
  intros H Hj. rewrite (proj1 fsm_sizes). unfold node.
  pose proof (Nat.pow_le_mono_r 2 (D - h) D ltac:(lia) ltac:(lia)).
  rewrite (pow_half h H) in *. lia.
Qed.

(** The test for the right edge of a level. *)
Lemma node_succ_pow2 h j :
  (S h <= D)%nat -> (j < 2 ^ (D - h))%nat ->
  (Z.land (Z.of_nat (S (node h j)) + 1) (Z.of_nat (S (node h j))) =? 0) =
  bool_decide (S j = 2 ^ (D - h))%nat.
Proof.
  intros Hh Hj. set (n := Z.of_nat (S (node h j)) + 1).
  replace (Z.of_nat (S (node h j))) with (n - 1) by lia.
  assert (Ha : Z.of_nat (2 ^ (D - h)) = 2 ^ Z.of_nat (D - h)) by apply (Nat2Z.inj_pow 2).
  assert (Hn : n = 2 ^ Z.of_nat (D - h) + Z.of_nat j + 1)
    by (rewrite <- Ha; unfold n, node; pose proof (pow_pos (D - h)); lia).
  assert (Hp : 2 ^ (Z.of_nat (D - h) + 1) = 2 * 2 ^ Z.of_nat (D - h))
    by (rewrite Z.pow_add_r by lia; lia).
  pose proof (land_pred_pow2 n ltac:(lia)) as Hl.
  case_bool_decide as Hr.
  - apply Z.eqb_eq, Hl.
    replace n with (2 ^ (Z.of_nat (D - h) + 1)) by lia. by rewrite Z.log2_pow2 by lia.
  - apply Z.eqb_neq. rewrite Hl. rewrite (Z.log2_unique n (Z.of_nat (D - h))); lia.
Qed.

(** The next node of the climb. *)
Lemma node_climb h j :
  (S h <= D)%nat -> (j < 2 ^ (D - h))%nat ->
  parentof (rightneighbor (node h j)) =
  node (S h) (if decide (S j = 2 ^ (D - h))%nat then 0 else (S j) / 2)%nat.
Proof.
  intros Hh Hj. pose proof (pow_half h Hh) as E. pose proof (pow_pos (D - S h)) as Hpos.
  unfold rightneighbor. rewrite node_succ_pow2 by done.
  assert (Hdiv : forall k, (k < 2 * 2 ^ (D - S h))%nat ->
    parentof (2 * 2 ^ (D - S h) + k) = (2 ^ (D - S h) - 1 + S k / 2)%nat).
  { intros k Hk. unfold parentof.
    replace (2 * 2 ^ (D - S h) + k - 1)%nat with (S k + (2 ^ (D - S h) - 1) * 2)%nat by lia.
    rewrite Nat.div_add by done. lia. }
  destruct (decide (S j = 2 ^ (D - h))%nat) as [Hr|Hr].
  - rewrite bool_decide_eq_true_2 by done.
    replace (S (node h j)) with ((2 ^ (D - h) - 1) * 2 + 1)%nat by (unfold node; lia).
    unfold parentof at 2. rewrite Nat.add_sub, Nat.div_mul by done.
    unfold parentof, node.
    replace (2 ^ (D - h) - 1 - 1)%nat with ((2 ^ (D - S h) - 1) * 2)%nat by lia.
    rewrite Nat.div_mul by done. lia.
  - rewrite bool_decide_eq_false_2 by done.
    replace (S (node h j)) with (2 * 2 ^ (D - S h) + j)%nat by (unfold node; lia).
    apply Hdiv. lia.
Qed.

(** In a valid tree a node has enough space exactly when a leaf below it has. *)
Lemma node_suitable ns m h j :
  nodes_ok ns -> tree_valid ns -> 1 <= m -> (h <= D)%nat -> (j < 2 ^ (D - h))%nat ->
  m <= rd ns (node h j) <->
  exists s, (j * 2 ^ h <= s < (j + 1) * 2 ^ h)%nat /\ m <= leaf ns s.
Proof.
  intros Hok Hv Hm. revert j; induction h as [|h IH]; intros j Hh Hj.
  - rewrite node_leaf. simpl. split.
    + intros H. exists j. split; [lia|done].
    + intros (s & Hs & H). by replace j with s by lia.
  - assert (Hn : rd ns (node (S h) j) = Z.max (rd ns (node h (2 * j))) (rd ns (node h (2 * j + 1)))).
    { rewrite (Hv (node (S h) j)) by (by apply node_nonleaf).
      rewrite children_max_eq by done. by rewrite node_right, node_left by done. }
    rewrite Hn. pose proof (pow_half h Hh) as E.
    pose proof (IH (2 * j)%nat ltac:(lia) ltac:(lia)) as I1.
    pose proof (IH (2 * j + 1)%nat ltac:(lia) ltac:(lia)) as I2.
    rewrite Nat.pow_succ_r'. rewrite Z.max_le_iff, I1, I2. split.
    + intros [(s & Hs & H)|(s & Hs & H)]; exists s; (split; [lia|done]).
    + intros (s & Hs & H).
      destruct (decide (s < (2 * j + 1) * 2 ^ h)%nat); [left|right]; exists s; (split; [lia|done]).
Qed.

Lemma leaf_beyond ns s : nodes_ok ns -> (2 ^ D <= s)%nat -> leaf ns s = 0.
Proof.
  intros Hok Hs. pose proof fsm_sizes as (HL & HN & H32 & _).
  apply rd_ge. rewrite (proj1 Hok). lia.
Qed.

Lemma root_suitable ns m :
  nodes_ok ns -> tree_valid ns -> 1 <= m ->
  m <= rd ns 0 <-> exists s, m <= leaf ns s.
Proof.
  intros Hok Hv Hm.
  pose proof (node_suitable ns m D 0 Hok Hv Hm ltac:(lia)) as H.
  unfold node in H at 1. rewrite Nat.sub_diag in H. simpl Nat.add in H. simpl Nat.sub in H.
  rewrite H by (simpl; lia). split; [intros (s & _ & Hs); by exists s|].
  intros (s & Hs). exists s. split; [|done]. destruct (decide (s < 2 ^ D)%nat); [lia|].
  rewrite leaf_beyond in Hs by (done || lia). lia.
Qed.

(** Where enough space is asked for, a child has it only if it exists. *)
Lemma child_test ns m c :
  nodes_ok ns -> 1 <= m -> ((c <? N)%nat && (m <=? rd ns c)) = (m <=? rd ns c).
Proof.
  intros Hok Hm. destruct (Nat.ltb_spec c N) as [|Hc]; [done|]. simpl.
  rewrite rd_ge by (rewrite (proj1 Hok); lia). symmetry. apply Z.leb_gt. lia.
Qed.

(** The descent reaches the leftmost leaf with enough space. *)
Lemma descend_leftmost ns m h j fuel :
  nodes_ok ns -> tree_valid ns -> 1 <= m -> (h <= D)%nat -> (j < 2 ^ (D - h))%nat ->
  m <= rd ns (node h j) -> (h < fuel)%nat ->
  exists s, while fuel (descend_step BLCKSZ ns m) (node h j) = Some (Some (L + s)%nat)
    /\ (j * 2 ^ h <= s < (j + 1) * 2 ^ h)%nat /\ m <= leaf ns s
    /\ forall s', (j * 2 ^ h <= s' < s)%nat -> leaf ns s' < m.
Proof.
  intros Hok Hv Hm. revert j fuel; induction h as [|h IH]; intros j fuel Hh Hj Hge Hf.
  - destruct fuel as [|fuel]; [lia|]. rewrite node_leaf in *. simpl. unfold descend_step.
    destruct (Nat.ltb_spec (L + j) L); [lia|]. exists j.
    split; [done|]. split; [lia|]. split; [done|]. intros s' Hs'. lia.
  - destruct fuel as [|fuel]; [lia|]. cbn [while]. unfold descend_step at 1.
    pose proof (node_nonleaf h j Hh Hj) as HnL.
    destruct (Nat.ltb_spec (node (S h) j) L); [|lia].
    pose proof (pow_half h Hh) as E. rewrite Nat.pow_succ_r'.
    rewrite !child_test, node_right, node_left by done.
    destruct (Z.leb_spec m (rd ns (node h (2 * j)))) as [Hl|Hl].
    + destruct (IH (2 * j)%nat fuel) as (s & Ew & Hs & Hms & Hfirst); [lia|lia|done|lia|].
      exists s. split; [done|]. split; [lia|]. split; [done|].
      intros s' Hs'. apply Hfirst. lia.
    + destruct (Z.leb_spec m (rd ns (node h (2 * j + 1)))) as [Hr|Hr].
      * destruct (IH (2 * j + 1)%nat fuel) as (s & Ew & Hs & Hms & Hfirst); [lia|lia|done|lia|].
        exists s. split; [done|]. split; [lia|]. split; [done|].
        intros s' Hs'. destruct (decide (s' < (2 * j + 1) * 2 ^ h)%nat); [|apply Hfirst; lia].
        apply Z.nle_gt. intros Hle.
        apply (proj2 (Z.nle_gt _ _)) in Hl. apply Hl.
        apply node_suitable; try done; try lia. exists s'. split; [lia|done].
      * exfalso. rewrite (Hv (node (S h) j)), children_max_eq, node_right, node_left in Hge by done.
        lia.
Qed.

(** What the climb has already excluded, started at slot [t]: everything from
    [t] to the left edge of the current node, or, after wrapping around, every
    slot from [t] on. *)
Definition excluded (ns : list Z) (m : Z) (t h j : nat) : Prop :=
  ((t <= j * 2 ^ h)%nat /\ forall s, (t <= s < j * 2 ^ h)%nat -> leaf ns s < m)
  \/ (j = 0%nat /\ forall s, (t <= s)%nat -> leaf ns s < m).

Lemma excluded_step ns m t h j :
  nodes_ok ns -> tree_valid ns -> 1 <= m -> (S h <= D)%nat -> (j < 2 ^ (D - h))%nat ->
  rd ns (node h j) < m -> excluded ns m t h j ->
  excluded ns m t (S h) (if decide (S j = 2 ^ (D - h))%nat then 0 else (S j) / 2)%nat.
Proof.
  intros Hok Hv Hm Hh Hj Hlt Hex.
  assert (Hcov : forall s, (j * 2 ^ h <= s < (j + 1) * 2 ^ h)%nat -> leaf ns s < m).
  { intros s Hs. apply Z.nle_gt. intros Hle. apply (proj2 (Z.nle_gt _ _)) in Hlt. apply Hlt.
    apply node_suitable; try done; try lia. by exists s. }
  pose proof (pow_half h Hh) as E. pose proof (pow_pos h). unfold excluded.
  rewrite Nat.pow_succ_r'.
  destruct (decide (S j = 2 ^ (D - h))%nat) as [Hr|Hr].
  - right. split; [done|]. intros s Hs.
    destruct (decide (2 ^ D <= s)%nat) as [Hb|Hb]; [rewrite leaf_beyond by done; lia|].
    destruct Hex as [[Ht Hex]|[-> Hex]]; [|by apply Hex].
    destruct (decide (s < j * 2 ^ h)%nat); [apply Hex; lia|]. apply Hcov. split; [lia|].
    replace (j + 1)%nat with (2 ^ (D - h))%nat by lia.
    rewrite <- Nat.pow_add_r. by replace (D - h + h)%nat with D by lia; lia.
  - pose proof (Nat.div_mod_eq (S j) 2) as Hd. pose proof (Nat.mod_upper_bound (S j) 2 ltac:(lia)).
    set (q := (S j / 2)%nat) in *.
    destruct Hex as [[Ht Hex]|[-> Hex]].
    + left. assert (Hq : (q * (2 * 2 ^ h) = j * 2 ^ h \/ q * (2 * 2 ^ h) = (j + 1) * 2 ^ h)%nat).
      { destruct (decide (S j mod 2 = 0)%nat); [right|left];
          rewrite Nat.mul_assoc; f_equal; lia. }
      split; [destruct Hq; lia|]. intros s Hs.
      destruct (decide (s < j * 2 ^ h)%nat); [apply Hex; lia|]. apply Hcov. lia.
    + right. split; [|done]. unfold q. done.
Qed.

Lemma climb_first ns m t h j fuel :
  nodes_ok ns -> tree_valid ns -> 1 <= m -> m <= rd ns 0 ->
  (h <= D)%nat -> (j < 2 ^ (D - h))%nat -> excluded ns m t h j -> (D - h < fuel)%nat ->
  exists h' j', while fuel (climb_step ns m) (node h j) = Some (node h' j')
    /\ (h' <= D)%nat /\ (j' < 2 ^ (D - h'))%nat /\ m <= rd ns (node h' j')
    /\ excluded ns m t h' j'.
Proof.
  intros Hok Hv Hm Hroot. revert h j; induction fuel as [|fuel IH]; intros h j Hh Hj Hex Hf; [lia|].
  cbn [while]. unfold climb_step at 1.
  destruct (Nat.ltb_spec 0 (node h j)) as [Hpos|H0].
  - destruct (Z.leb_spec m (rd ns (node h j))) as [Hge|Hlt]; [by exists h, j|].
    assert (Hh' : (S h <= D)%nat).
    { destruct (decide (h = D)) as [->|]; [|lia].
      unfold node in Hpos. rewrite Nat.sub_diag in Hpos, Hj. simpl in *. lia. }
    rewrite node_climb by done. apply IH; [done| |by apply excluded_step|lia].
    pose proof (pow_half h Hh') as E. pose proof (pow_pos (D - S h)).
    destruct (decide _); [lia|]. apply Nat.Div0.div_lt_upper_bound. lia.
  - exists h, j. split; [done|]. split; [done|]. split; [done|].
    split; [by replace (node h j) with 0%nat by lia|done].
Qed.

(** ** Searching any page *)

Lemma climb_decreases x : (0 < x)%nat -> (parentof (rightneighbor x) < x)%nat.
Proof.
  intros Hx. assert (Hr : (rightneighbor x <= S x)%nat).
  { unfold rightneighbor. case_match; [|done].
    pose proof (parentof_child (S x) ltac:(lia)). lia. }
  unfold parentof. apply Nat.Div0.div_lt_upper_bound. lia.
Qed.

Lemma climb_total ns m t :
  nodes_ok ns -> (0 < t < N)%nat ->
  exists x, while (S N) (climb_step ns m) t = Some x /\ (x < N)%nat
    /\ (x = 0%nat \/ m <= rd ns x) /\ (m <= 0 -> x = t).
Proof.
  intros Hok Ht.
  apply (while_total (fun x => (x < N)%nat /\ (m <= 0 -> x = t))
    (fun x => (x < N)%nat /\ (x = 0%nat \/ m <= rd ns x) /\ (m <= 0 -> x = t)) id);
    [lia|simpl; lia|].
  intros x [Hx Hxt]. unfold climb_step.
  destruct (Nat.ltb_spec 0 x) as [Hpos|H0]; [|split_and!; [done|left; lia|done]].
  destruct (Z.leb_spec m (rd ns x)) as [Hge|Hlt]; [split_and!; [done|by right|done]|].
  pose proof (climb_decreases x Hpos). pose proof (nodes_ok_nonneg ns x Hok).
  split; [split; [lia|lia]|done].
Qed.

Lemma descend_total ns m x :
  nodes_ok ns -> (x < N)%nat -> m <= rd ns x -> (1 <= m \/ (L <= x)%nat) ->
  exists r, while (S N) (descend_step BLCKSZ ns m) x = Some r
    /\ match r with
       | Some y => (L <= y < N)%nat /\ m <= rd ns y
       | None => ~ tree_valid ns
       end.
Proof.
  intros Hok Hx Hm Hcase.
  apply (while_total
    (fun x => (x < N)%nat /\ m <= rd ns x /\ (1 <= m \/ (L <= x)%nat))
    (fun r => match r with
       | Some y => (L <= y < N)%nat /\ m <= rd ns y
       | None => ~ tree_valid ns
       end) (fun x => N - x)%nat); [done|lia|].
  clear x Hx Hm Hcase. intros x (Hx & Hm & Hcase). unfold descend_step.
  destruct (Nat.ltb_spec x L) as [HxL|HxL]; [|done].
  assert (H1 : 1 <= m) by (destruct Hcase; lia || done).
  assert (Hc : (x < leftchild x)%nat) by (unfold leftchild; lia).
  rewrite !child_test by done.
  destruct (Z.leb_spec m (rd ns (leftchild x))) as [Hl|Hl];
    [|destruct (Z.leb_spec m (rd ns (S (leftchild x)))) as [Hr|Hr]].
  - destruct (decide (leftchild x < N)%nat); [split_and!; [done|done|by left|lia]|].
    rewrite rd_ge in Hl by (rewrite (proj1 Hok); lia). lia.
  - destruct (decide (S (leftchild x) < N)%nat); [split_and!; [done|done|by left|lia]|].
    rewrite rd_ge in Hr by (rewrite (proj1 Hok); lia). lia.
  - intros Hv. specialize (Hv x HxL). unfold node_valid in Hv.
    rewrite children_max_eq in Hv by done. lia.
Qed.

(** The slot a search starts from. *)
Definition start_slot (p : FSMPage) : nat :=
  if (fp_next_slot p <? 0) || (Z.of_nat (LeafNodesPerPage BLCKSZ) <=? fp_next_slot p)
  then 0%nat else Z.to_nat (fp_next_slot p).

Lemma start_slot_lt p : (start_slot p < LeafNodesPerPage BLCKSZ)%nat.
Proof.
  pose proof fsm_sizes as (HL & HN & H32 & _). unfold start_slot, LeafNodesPerPage.
  destruct (Z.ltb_spec (fp_next_slot p) 0); simpl; [lia|].
  destruct (Z.leb_spec (Z.of_nat (N - L)) (fp_next_slot p)); lia.
Qed.

Lemma search_target p :
  (Z.to_nat (if (fp_next_slot p <? 0)%Z || (Z.of_nat (LeafNodesPerPage BLCKSZ) <=? fp_next_slot p)%Z
             then 0%Z else fp_next_slot p) + L)%nat = (L + start_slot p)%nat.
Proof. unfold start_slot. destruct (_ || _); simpl; lia. Qed.

Lemma slot_u16 y : (L <= y < N)%nat ->
  uwrap 16 (Z.of_nat y - Z.of_nat L) = Z.of_nat (y - L)%nat.
Proof.
  intros Hy. pose proof fsm_sizes as (_ & _ & _ & HN). rewrite uwrap_small; [lia|].
  unfold in_u. change (2 ^ 16) with 65536. lia.
Qed.

(** A slot number of the page with at least [m] available. *)
Definition good_slot (p : FSMPage) (m slot : Z) : Prop :=
  0 <= slot < Z.of_nat (LeafNodesPerPage BLCKSZ)
  /\ m <= fsm_get_avail BLCKSZ p (Z.to_nat slot).

Lemma search_round_spec others m adv st :
  nodes_ok (fp_nodes (s_page st)) ->
  match search_round BLCKSZ others m adv st with
  | Return (Ok (slot, p', ev)) =>
      ev = s_events st /\ fp_nodes p' = fp_nodes (s_page st)
      /\ ((slot = -1 /\ rd (fp_nodes p') 0 < m /\ p' = s_page st)
          \/ (good_slot p' m slot /\ fp_next_slot p' = slot + (if adv then 1 else 0)))
  | Return (Err _) => False
  | Next st' =>
      ~ tree_valid (fp_nodes (s_page st)) /\ s_exclusive st' = true
      /\ let p := if s_exclusive st then s_page st else others (s_page st) in
         s_page st' = snd (fsm_rebuild_page BLCKSZ p)
  end.
Proof.
  intros Hok. unfold search_round.
  destruct (Z.ltb_spec (rd (fp_nodes (s_page st)) 0) m) as [Hlt|Hroot].
  { split; [done|]. split; [done|]. left. done. }
  rewrite search_target. pose proof (start_slot_lt (s_page st)) as Ht.
  pose proof fsm_sizes as (HL & HN & H32 & _). unfold LeafNodesPerPage in Ht.
  set (t := start_slot (s_page st)) in *. set (ns := fp_nodes (s_page st)) in *.
  destruct (climb_total ns m (L + t)) as (x & -> & Hx & Hxm & Hxt); [done|lia|].
  assert (Hmx : m <= rd ns x) by (destruct Hxm as [->|]; done).
  destruct (descend_total ns m x) as (r & -> & Hr); [done|done|done| |].
  { destruct (decide (1 <= m)); [by left|right]. rewrite Hxt by lia. lia. }
  destruct r as [y|].
  - destruct Hr as [Hy Hmy]. rewrite slot_u16 by done.
    split; [done|]. split; [done|]. right. split; [|done].
    unfold good_slot, fsm_get_avail, LeafNodesPerPage. simpl. split; [lia|].
    rewrite Nat2Z.id. by replace (L + (y - L))%nat with y by lia.
  - by destruct (s_exclusive st).
Qed.

Lemma fsm_search_avail_spec others p m adv excl :
  nodes_ok (fp_nodes p) -> (forall q, nodes_ok (fp_nodes q) -> nodes_ok (fp_nodes (others q))) ->
  exists slot p' ev, fsm_search_avail BLCKSZ others p m adv excl = Ok (slot, p', ev)
    /\ nodes_ok (fp_nodes p')
    /\ ((slot = -1 /\ fsm_get_max_avail p' < m)
        \/ (good_slot p' m slot /\ fp_next_slot p' = slot + (if adv then 1 else 0)))
    /\ (fp_nodes p' = fp_nodes p
        \/ (~ tree_valid (fp_nodes p) /\ tree_valid (fp_nodes p'))).
Proof.
  intros Hok Hoth. unfold fsm_search_avail. set (st0 := mk_search p excl []).
  pose proof (search_round_spec others m adv st0 Hok) as H0. cbn [while].
  destruct (search_round BLCKSZ others m adv st0) as [st1|[[[slot p'] ev]|e]]; [| |done].
  - destruct H0 as (Hbad & _ & Hp1). simpl in Hp1.
    set (q := if excl then p else others p) in *.
    assert (Hq : nodes_ok (fp_nodes q)) by (unfold q; destruct excl; auto).
    destruct (fsm_rebuild_page_spec q Hq) as (Hok1 & Hv1 & _). rewrite <- Hp1 in Hok1, Hv1.
    pose proof (search_round_spec others m adv st1 Hok1) as H1.
    destruct (search_round BLCKSZ others m adv st1) as [st2|[[[slot p'] ev]|e]];
      [by destruct H1| |done].
    destruct H1 as (_ & Hns & Hres). exists slot, p', ev. split; [done|].
    rewrite Hns. split; [done|]. split; [|right; done].
    destruct Hres as [(-> & Hlt & ->)|Hg]; [by left|by right].
  - destruct H0 as (-> & Hns & Hres). exists slot, p', []. split; [done|].
    rewrite Hns. split; [done|]. split; [|by left].
    destruct Hres as [(-> & Hlt & ->)|Hg]; [by left|by right].
Qed.

(** [s] is the first slot with at least [m], from slot [t] on and around. *)
Definition first_suitable (p : FSMPage) (m : Z) (t s : nat) : Prop :=
  (s < LeafNodesPerPage BLCKSZ)%nat /\ m <= fsm_get_avail BLCKSZ p s
  /\ ((t <= s)%nat /\ (forall s', (t <= s' < s)%nat -> fsm_get_avail BLCKSZ p s' < m)
      \/ (s < t)%nat
         /\ (forall s', (t <= s' < LeafNodesPerPage BLCKSZ)%nat -> fsm_get_avail BLCKSZ p s' < m)
         /\ (forall s', (s' < s)%nat -> fsm_get_avail BLCKSZ p s' < m)).

Lemma excluded_first p m t h j s :
  nodes_ok (fp_nodes p) -> 1 <= m -> excluded (fp_nodes p) m t h j ->
  (j * 2 ^ h <= s < (j + 1) * 2 ^ h)%nat -> m <= leaf (fp_nodes p) s ->
  (forall s', (j * 2 ^ h <= s' < s)%nat -> leaf (fp_nodes p) s' < m) ->
  first_suitable p m t s.
Proof.
  intros Hok Hm Hex Hs Hms Hfirst. unfold first_suitable.
  change (fsm_get_avail BLCKSZ p) with (leaf (fp_nodes p)). split; [|split; [done|]].
  - unfold LeafNodesPerPage. pose proof fsm_sizes as (HL & HN & H32 & _).
    destruct (decide (s < N - L)%nat) as [|Hb]; [done|].
    unfold leaf in Hms. rewrite rd_ge in Hms by (rewrite (proj1 Hok); lia). lia.
  - destruct Hex as [[Ht Hex]|[-> Hex]].
    + left. split; [lia|]. intros s' Hs'.
      destruct (decide (s' < j * 2 ^ h)%nat); [apply Hex; lia|apply Hfirst; lia].
    + right. split; [|split].
      * destruct (decide (s < t)%nat) as [|Hge]; [done|]. specialize (Hex s ltac:(lia)). lia.
      * intros s' Hs'. apply Hex. lia.
      * intros s' Hs'. apply Hfirst. lia.
Qed.

Lemma fsm_search_first others p m adv excl :
  nodes_ok (fp_nodes p) -> tree_valid (fp_nodes p) -> 0 <= m ->
  m <= rd (fp_nodes p) 0 ->
  exists s, fsm_search_avail BLCKSZ others p m adv excl =
      Ok (Z.of_nat s, mk_page (Z.of_nat s + (if adv then 1 else 0)) (fp_nodes p), [])
    /\ first_suitable p m (start_slot p) s.
Proof.
  intros Hok Hv Hm Hroot. unfold fsm_search_avail. cbn [while].
  unfold search_round; cbn [s_page s_events].
  destruct (Z.ltb_spec (rd (fp_nodes p) 0) m) as [|_]; [lia|].
  rewrite search_target. pose proof (start_slot_lt p) as Ht.
  pose proof fsm_sizes as (HL & HN & H32 & _). unfold LeafNodesPerPage in Ht.
  set (t := start_slot p) in *. set (ns := fp_nodes p) in *.
  destruct (decide (m = 0)) as [->|Hm0].
  - exists t. pose proof (nodes_ok_nonneg ns (L + t) Hok).
    cbn [while]. unfold climb_step, descend_step.
    destruct (Nat.ltb_spec 0 (L + t)); [|lia]. destruct (Z.leb_spec 0 (rd ns (L + t))); [|lia].
    destruct (Nat.ltb_spec (L + t) L); [lia|]. rewrite slot_u16 by lia.
    replace (L + t - L)%nat with t by lia. split; [done|].
    split; [unfold LeafNodesPerPage; lia|]. split; [unfold fsm_get_avail; fold ns; lia|].
    left. split; [done|]. intros s' Hs'. lia.
  - assert (HDN : (D < N)%nat) by (pose proof (Nat.pow_gt_lin_r 2 D ltac:(lia)); lia).
    destruct (climb_first ns m t 0 t (S N)) as (h & j & Ec & Hh & Hj & Hge & Hex);
      try done; try lia.
    { rewrite Nat.sub_0_r. lia. }
    { left. simpl. split; [lia|]. intros s Hs. lia. }
    rewrite node_leaf in Ec. rewrite Ec.
    destruct (descend_leftmost ns m h j (S N)) as (s & -> & Hs & Hms & Hfirst);
      try done; try lia.
    assert (Hfs : first_suitable p m t s) by (apply (excluded_first p m t h j s); done || lia).
    exists s. split; [|done]. destruct Hfs as (Hlt & _). unfold LeafNodesPerPage in Hlt.
    rewrite slot_u16 by lia. by replace (L + s - L)%nat with s by lia.
Qed.

Lemma fsm_search_none others p m adv excl :
  rd (fp_nodes p) 0 < m -> fsm_search_avail BLCKSZ others p m adv excl = Ok (-1, p, []).
Proof.
  intros Hlt. unfold fsm_search_avail. cbn [while]. unfold search_round; cbn [s_page s_events].
  by destruct (Z.ltb_spec (rd (fp_nodes p) 0) m); [|lia].
Qed.

(** ** Setting and truncating *)

Lemma set_leaf_valid ns slot v :
  nodes_ok ns -> in_u 8 v -> tree_valid ns -> (L + slot < N)%nat ->
  forall i, (i < L)%nat -> i <> parentof (L + slot) -> node_valid (<[(L + slot)%nat := v]> ns) i.
Proof.
  intros Hok Hv Ht Hs i Hi Hne. pose proof fsm_sizes as (HL & HN & H32 & _).
  pose proof (parentof_child (L + slot) ltac:(lia)) as [_ Hc]. unfold leftchild in Hc.
  apply node_valid_insert; try done; try (unfold leftchild; lia). by apply Ht.
Qed.

Lemma leaf_le_root ns s : nodes_ok ns -> tree_valid ns -> leaf ns s <= rd ns 0.
Proof.
  intros Hok Hv. pose proof (nodes_ok_nonneg ns 0 Hok).
  destruct (decide (1 <= leaf ns s)); [|lia].
  apply root_suitable; try done. by exists s.
Qed.

Lemma fsm_set_avail_spec p slot v :
  nodes_ok (fp_nodes p) -> in_u 8 v -> (slot < LeafNodesPerPage BLCKSZ)%nat ->
  exists changed p', fsm_set_avail BLCKSZ p slot v = Ok (changed, p')
    /\ nodes_ok (fp_nodes p') /\ fp_next_slot p' = fp_next_slot p
    /\ (forall s, fsm_get_avail BLCKSZ p' s = if decide (s = slot) then v else fsm_get_avail BLCKSZ p s)
    /\ v <= fsm_get_max_avail p'
    /\ (tree_valid (fp_nodes p) ->
        tree_valid (fp_nodes p') /\ (changed = true <-> fsm_get_avail BLCKSZ p slot <> v)).
Proof.
  intros Hok Hv Hs. pose proof fsm_sizes as (HL & HN & H32 & _).
  unfold LeafNodesPerPage in Hs. unfold fsm_set_avail.
  set (ns := fp_nodes p). set (x := (L + slot)%nat).
  assert (Hx : (x < length ns)%nat) by (unfold ns; rewrite (proj1 Hok); lia).
  assert (Hget : forall ns', (forall i, (L <= i)%nat -> rd ns' i = rd (<[x := v]> ns) i) ->
    forall s, rd ns' (L + s) = if decide (s = slot) then v else rd ns (L + s)).
  { intros ns' H s. rewrite H by lia. rewrite rd_insert by done. unfold x.
    repeat case_decide; done || lia. }
  assert (Hflag : tree_valid ns -> (rd ns x =? v) && (v <=? rd ns 0) = (rd ns x =? v)).
  { intros Ht. destruct (Z.eqb_spec (rd ns x) v) as [<-|]; [|done]. simpl.
    apply Z.leb_le. by apply (leaf_le_root ns slot). }
  destruct ((rd ns x =? v) && (v <=? rd ns 0)) eqn:Econd.
  { apply andb_true_iff in Econd as [E1 E2]. apply Z.eqb_eq in E1. apply Z.leb_le in E2.
    exists false, p. do 3 (split; [done|]). split; [|split; [done|]].
    - intros s. case_decide; [by subst|done].
    - intros Ht. split; [done|]. split; [done|]. intros H. by destruct H. }
  destruct (propagate_spec (<[x := v]> ns) x) as (ns1 & -> & Hok1 & Hleaf1 & Hv1);
    [by apply nodes_ok_insert|unfold x; lia|]. simpl.
  assert (Hval : tree_valid ns -> tree_valid ns1)
    by (intros Ht; apply Hv1, set_leaf_valid; done || lia).
  assert (Hch : tree_valid ns -> true = true <-> rd ns x <> v)
    by (intros Ht; specialize (Hflag Ht); symmetry in Hflag; by apply Z.eqb_neq in Hflag).
  destruct (Z.gtb_spec v (rd ns1 0)) as [Hgt|Hle].
  - destruct (fsm_rebuild_page_spec (set_nodes ns1 p) Hok1) as (Hok2 & Hv2 & Hleaf2 & Hn2 & _).
    eexists true, _. split; [done|]. split; [done|]. split; [done|].
    assert (Hg : forall s, fsm_get_avail BLCKSZ
      (snd (fsm_rebuild_page BLCKSZ (set_nodes ns1 p))) s =
      if decide (s = slot) then v else rd ns (L + s)).
    { apply Hget. intros i Hi. rewrite Hleaf2 by done. by apply Hleaf1. }
    split; [exact Hg|]. split; [|intros Ht; by split; [|apply Hch]].
    specialize (Hg slot). rewrite decide_True in Hg by done. rewrite <- Hg at 1.
    by apply (leaf_le_root _ slot).
  - exists true, (set_nodes ns1 p). do 3 (split; [done|]). split; [by apply Hget|].
    split; [done|]. intros Ht. split; [by apply Hval|by apply Hch].
Qed.

Lemma truncate_loop ns n :
  nodes_ok ns -> (n <= LeafNodesPerPage BLCKSZ)%nat ->
  let r := for_up (LeafNodesPerPage BLCKSZ - n) (L + n)
    (fun i '(changed, nodes) =>
       let changed := if negb (rd nodes i =? 0) then true else changed in
       (changed, <[i := 0]> nodes)) (false, ns) in
  nodes_ok (snd r)
  /\ (forall i, rd (snd r) i = if decide (L + n <= i)%nat then 0 else rd ns i)
  /\ (fst r = true <-> snd r <> ns).
Proof.
  intros Hok Hn r. pose proof fsm_sizes as (HL & HN & H32 & _). unfold LeafNodesPerPage in *.
  assert (H : (fun k (s : bool * list Z) => nodes_ok (snd s)
     /\ (forall i, rd (snd s) i = if decide (L + n <= i < k)%nat then 0 else rd ns i)
     /\ (if fst s then exists i, (L + n <= i < k)%nat /\ rd ns i <> 0
         else snd s = ns))
    (L + n + (N - L - n))%nat r).
  { apply for_up_ind.
    - split_and!; try done. intros i. by rewrite decide_False by lia.
    - intros k [ch ns'] Hk (Hok' & Hrd & Hch). simpl in *.
      assert (Hlen : (k < length ns')%nat) by (rewrite (proj1 Hok'); lia).
      assert (Hrd' : rd ns' k = rd ns k) by (rewrite Hrd; by rewrite decide_False by lia).
      split; [by apply nodes_ok_insert|]. split.
      + intros i. rewrite rd_insert by done. rewrite Hrd. repeat case_decide; done || lia.
      + destruct (Z.eqb_spec (rd ns' k) 0) as [E|E]; simpl.
        * destruct ch.
          -- destruct Hch as (i & Hi & Hne). exists i. split; [lia|done].
          -- subst ns'. rewrite <- E. by rewrite list_insert_id by (by apply rd_lookup).
        * exists k. split; [lia|congruence]. }
  destruct H as (Hok' & Hrd & Hch). split; [done|]. split.
  - intros i. rewrite Hrd. repeat case_decide; try done; try lia.
    apply rd_ge. rewrite (proj1 Hok). lia.
  - destruct (fst r); [|naive_solver]. split; [|done]. intros _ E.
    destruct Hch as (i & Hi & Hne). specialize (Hrd i). rewrite E, decide_True in Hrd by lia. done.
Qed.

Lemma fsm_truncate_avail_spec p n :
  nodes_ok (fp_nodes p) -> (n <= LeafNodesPerPage BLCKSZ)%nat ->
  let r := fsm_truncate_avail BLCKSZ p n in
  nodes_ok (fp_nodes (snd r)) /\ fp_next_slot (snd r) = fp_next_slot p
  /\ (forall s, fsm_get_avail BLCKSZ (snd r) s
                = if decide (n <= s)%nat then 0 else fsm_get_avail BLCKSZ p s)
  /\ (fst r = true <-> exists s, (n <= s)%nat /\ fsm_get_avail BLCKSZ p s <> 0)
  /\ (tree_valid (fp_nodes p) \/ fst r = true -> tree_valid (fp_nodes (snd r))).
Proof.
  intros Hok Hn r. subst r. unfold fsm_truncate_avail.
  destruct (truncate_loop (fp_nodes p) n Hok Hn) as (Hok1 & Hrd & Hch).
  destruct (for_up _ _ _ _) as [changed ns]. simpl in *.
  assert (Hflag : changed = true <-> exists s, (n <= s)%nat /\ fsm_get_avail BLCKSZ p s <> 0).
  { rewrite Hch. split.
    - intros Hne. destruct (decide (Exists (fun i => rd ns i <> rd (fp_nodes p) i)
        (seq 0 (length ns)))) as [He|He].
      + apply Exists_exists in He as (i & _ & Hi). rewrite Hrd in Hi.
        case_decide; [|done]. exists (i - L)%nat. split; [lia|]. unfold fsm_get_avail.
        replace (L + (i - L))%nat with i by lia. congruence.
      + destruct Hne. apply rd_ext; [by rewrite (proj1 Hok1), (proj1 Hok)|].
        intros i Hi. destruct (decide (rd ns i = rd (fp_nodes p) i)) as [|Hd]; [done|].
        destruct He. apply Exists_exists. exists i. split; [apply elem_of_seq; lia|done].
    - intros (s & Hs & Hne) E. specialize (Hrd (L + s)%nat).
      rewrite E, decide_True in Hrd by lia. done. }
  assert (Hleaf : forall s, rd ns (L + s) = if decide (n <= s)%nat then 0 else rd (fp_nodes p) (L + s)).
  { intros s. rewrite Hrd. repeat case_decide; done || lia. }
  destruct changed; simpl.
  - destruct (fsm_rebuild_page_spec (set_nodes ns p) Hok1) as (Hok2 & Hv2 & Hleaf2 & Hn2 & _).
    split; [done|]. split; [done|]. split; [|by split].
    intros s. unfold fsm_get_avail. rewrite Hleaf2 by lia. apply Hleaf.
  - split; [done|]. split; [done|]. split; [exact Hleaf|]. split; [done|].
    intros [Hv|]; [|done]. destruct (decide (ns = fp_nodes p)) as [->|Hne]; [done|].
    exfalso. by apply Hch in Hne.
Qed.
End fsm_props.

(** The page of a new FSM block, all zeroes, at the smallest block size the
    layout admits. *)
Definition zero_page : FSMPage := mk_page 0 (replicate 36 0).

Lemma zero_page_ok : nodes_ok 64 (fp_nodes zero_page) /\ tree_valid 64 (fp_nodes zero_page).
Proof.
  split; [split; [done|apply Forall_replicate; unfold in_u; lia]|].
  intros i Hi. change (NonLeafNodesPerPage 64) with 31%nat in Hi.
  unfold node_valid, children_max, zero_page; cbn [fp_nodes].
  rewrite !rd_replicate. repeat case_match; done.
Qed.

(** setting a slot.  On any page, sound or torn, [fsm_set_avail] returns,
    gives the slot its value, leaves every other slot and the hint alone, and
    leaves a root that promises at least the value.  On a page whose upper nodes
    are the maxima of their children it keeps them so, and reports a change
    exactly when the slot had another value. *)
Theorem fsm_set_avail_correct (D : nat) (p : FSMPage) (slot : nat) (value : Z)
    (HD : (5 <= D <= 14)%nat) (BLCKSZ : nat) (HB : BLCKSZ = (2 ^ (D + 1))%nat)
    (Hok : nodes_ok BLCKSZ (fp_nodes p)) (Hv : in_u 8 value)
    (Hs : (slot < LeafNodesPerPage BLCKSZ)%nat) :
  exists changed p', fsm_set_avail BLCKSZ p slot value = Ok (changed, p')
    /\ nodes_ok BLCKSZ (fp_nodes p') /\ fp_next_slot p' = fp_next_slot p
    /\ (forall s, fsm_get_avail BLCKSZ p' s =
                  if decide (s = slot) then value else fsm_get_avail BLCKSZ p s)
    /\ value <= fsm_get_max_avail p'
    /\ (tree_valid BLCKSZ (fp_nodes p) ->
        tree_valid BLCKSZ (fp_nodes p')
        /\ (changed = true <-> fsm_get_avail BLCKSZ p slot <> value)).
Proof. by apply (fsm_set_avail_spec D). Qed.

Lemma fsm_set_avail_correct_witness :
  exists changed p', fsm_set_avail 64 zero_page 2 9 = Ok (changed, p')
    /\ 9 <= fsm_get_max_avail p'.
Proof.
  destruct (fsm_set_avail_correct 5 zero_page 2 9 ltac:(lia) 64 eq_refl)
    as (c & p' & E & _ & _ & _ & H & _).
  - apply zero_page_ok.
  - unfold in_u; lia.
  - vm_compute. lia.
  - by exists c, p'.
Defined.

(** Rebuilding and truncating.  [fsm_rebuild_page] makes every upper node
    of any page the maximum of its children, changes no slot, and reports
    whether it changed anything; the root of such a page is the largest value of
    any slot.  [fsm_truncate_avail] zeroes the slots from [nslots] on and no
    other, reports whether one of them was not zero, and leaves a valid tree. *)
Theorem fsm_rebuild_truncate (D : nat) (p : FSMPage) (nslots : nat)
    (HD : (5 <= D <= 14)%nat) (BLCKSZ : nat) (HB : BLCKSZ = (2 ^ (D + 1))%nat)
    (Hok : nodes_ok BLCKSZ (fp_nodes p)) (Hn : (nslots <= LeafNodesPerPage BLCKSZ)%nat) :
  (let r := fsm_rebuild_page BLCKSZ p in
   tree_valid BLCKSZ (fp_nodes (snd r))
   /\ (forall s, fsm_get_avail BLCKSZ (snd r) s = fsm_get_avail BLCKSZ p s)
   /\ fp_next_slot (snd r) = fp_next_slot p
   /\ (fst r = true <-> fp_nodes (snd r) <> fp_nodes p))
  /\ (let r := fsm_truncate_avail BLCKSZ p nslots in
      fp_next_slot (snd r) = fp_next_slot p
      /\ (forall s, fsm_get_avail BLCKSZ (snd r) s =
                    if decide (nslots <= s)%nat then 0 else fsm_get_avail BLCKSZ p s)
      /\ (fst r = true <-> exists s, (nslots <= s)%nat /\ fsm_get_avail BLCKSZ p s <> 0)
      /\ (tree_valid BLCKSZ (fp_nodes p) -> tree_valid BLCKSZ (fp_nodes (snd r))))
  /\ (tree_valid BLCKSZ (fp_nodes p) ->
      (forall s, fsm_get_avail BLCKSZ p s <= fsm_get_max_avail p)
      /\ exists s, fsm_get_avail BLCKSZ p s = fsm_get_max_avail p).
Proof.
  split; [|split].
  - destruct (fsm_rebuild_page_spec D BLCKSZ HD HB p Hok) as (_ & Hv & Hl & Hrest).
    split; [done|]. split; [|done]. intros s. apply Hl. lia.
  - destruct (fsm_truncate_avail_spec D BLCKSZ HD HB p nslots Hok Hn) as (_ & H1 & H2 & H3 & H4).
    split; [done|]. split; [done|]. split; [done|]. intros Ht. apply H4. by left.
  - intros Ht. split; [intros s; by apply (leaf_le_root D)|].
    pose proof (nodes_ok_nonneg D BLCKSZ HD HB (fp_nodes p) 0 Hok) as H0.
    destruct (decide (1 <= rd (fp_nodes p) 0)) as [H1|H1].
    + destruct (proj1 (root_suitable D BLCKSZ HD HB (fp_nodes p) _ Hok Ht H1)) as [s Hs]; [lia|].
      exists s. pose proof (leaf_le_root D BLCKSZ HD HB _ s Hok Ht).
      unfold leaf in *. unfold fsm_get_avail, fsm_get_max_avail. lia.
    + exists 0%nat. pose proof (leaf_le_root D BLCKSZ HD HB _ 0 Hok Ht).
      pose proof (nodes_ok_nonneg D BLCKSZ HD HB (fp_nodes p) (NonLeafNodesPerPage BLCKSZ + 0) Hok).
      unfold leaf in *. unfold fsm_get_avail, fsm_get_max_avail. lia.
Qed.

Lemma fsm_rebuild_truncate_witness :
  tree_valid 64 (fp_nodes (snd (fsm_rebuild_page 64 zero_page))).
Proof.
  destruct (fsm_rebuild_truncate 5 zero_page 0 ltac:(lia) 64 eq_refl) as [[H _] _];
    [apply zero_page_ok|vm_compute; lia|exact H].
Defined.

(** C40: searching any page.  Whatever the upper nodes of the page hold, and
    whatever other backends make of it while the lock is given up, a search
    ends, after at most one repair; it returns either a slot of the page that
    does have the space, with the hint moved to it or past it, or -1 with a root
    below the request; the nodes are as before, or a torn page has been made
    valid. *)
Theorem fsm_search_any_page (D : nat) (others : FSMPage -> FSMPage) (p : FSMPage) (minvalue : Z)
    (advancenext exclusive : bool)
    (HD : (5 <= D <= 14)%nat) (BLCKSZ : nat) (HB : BLCKSZ = (2 ^ (D + 1))%nat)
    (Hok : nodes_ok BLCKSZ (fp_nodes p))
    (Hoth : forall q, nodes_ok BLCKSZ (fp_nodes q) -> nodes_ok BLCKSZ (fp_nodes (others q))) :
  exists slot p' ev,
    fsm_search_avail BLCKSZ others p minvalue advancenext exclusive = Ok (slot, p', ev)
    /\ nodes_ok BLCKSZ (fp_nodes p')
    /\ ((slot = -1 /\ fsm_get_max_avail p' < minvalue)
        \/ (0 <= slot < Z.of_nat (LeafNodesPerPage BLCKSZ)
            /\ minvalue <= fsm_get_avail BLCKSZ p' (Z.to_nat slot)
            /\ fp_next_slot p' = slot + (if advancenext then 1 else 0)))
    /\ (fp_nodes p' = fp_nodes p
        \/ (~ tree_valid BLCKSZ (fp_nodes p) /\ tree_valid BLCKSZ (fp_nodes p'))).
Proof.
  destruct (fsm_search_avail_spec D BLCKSZ HD HB others p minvalue advancenext exclusive Hok Hoth)
    as (slot & p' & ev & E & H1 & H2 & H3).
  exists slot, p', ev. do 2 (split; [done|]). split; [|done].
  destruct H2 as [|[[? ?] ?]]; [by left|by right].
Qed.

(** A torn page: the root promises 5, no slot has it. *)
Lemma fsm_search_any_page_witness :
  exists slot p' ev,
    fsm_search_avail 64 id (mk_page 3 (5 :: replicate 35 0)) 2 false false = Ok (slot, p', ev)
    /\ slot = -1 /\ ev = [LockUnlock; LockExclusive; MarkDirtyHint].
Proof.
  destruct (fsm_search_any_page 5 id (mk_page 3 (5 :: replicate 35 0)) 2 false false
    ltac:(lia) 64 eq_refl) as (slot & p' & ev & E & _).
  - split; [done|]. constructor; [unfold in_u; lia|].
    apply Forall_replicate. unfold in_u; lia.
  - done.
  - exists slot, p', ev. split; [done|]. vm_compute in E. by injection E as <- _ <-.
Defined.

(** Searching a valid page.  When no slot has the space the search returns
    -1 and changes nothing; otherwise it returns the first slot that has it, from
    the hint (or slot 0 where the hint is out of range) to the right and around,
    without any repair or lock change, and only the hint moves. *)
Theorem fsm_search_avail_first (D : nat) (others : FSMPage -> FSMPage) (p : FSMPage)
    (minvalue : Z) (advancenext exclusive : bool)
    (HD : (5 <= D <= 14)%nat) (BLCKSZ : nat) (HB : BLCKSZ = (2 ^ (D + 1))%nat)
    (Hok : nodes_ok BLCKSZ (fp_nodes p)) (Ht : tree_valid BLCKSZ (fp_nodes p))
    (Hm : 0 <= minvalue) :
  ((forall s, (s < LeafNodesPerPage BLCKSZ)%nat -> fsm_get_avail BLCKSZ p s < minvalue) ->
   fsm_search_avail BLCKSZ others p minvalue advancenext exclusive = Ok (-1, p, []))
  /\ ((exists s, (s < LeafNodesPerPage BLCKSZ)%nat /\ minvalue <= fsm_get_avail BLCKSZ p s) ->
      exists s, fsm_search_avail BLCKSZ others p minvalue advancenext exclusive =
          Ok (Z.of_nat s, mk_page (Z.of_nat s + (if advancenext then 1 else 0)) (fp_nodes p), [])
        /\ first_suitable BLCKSZ p minvalue (start_slot BLCKSZ p) s).
Proof.
  split.
  - intros Hnone. apply (fsm_search_none D); [done|done|]. apply Z.nle_gt. intros Hle.
    destruct (fsm_search_first D BLCKSZ HD HB others p minvalue advancenext exclusive Hok Ht Hm Hle)
      as (s & _ & Hlt & Hge & _). specialize (Hnone s Hlt). lia.
  - intros (s & Hs & Hge). apply (fsm_search_first D); try done.
    etransitivity; [exact Hge|]. by apply (leaf_le_root D).
Qed.

Lemma fsm_search_avail_first_witness :
  fsm_search_avail 64 id zero_page 4 true true = Ok (-1, zero_page, []).
Proof.
  apply (fsm_search_avail_first 5 id zero_page 4 true true ltac:(lia) 64 eq_refl);
    [apply zero_page_ok|apply zero_page_ok|lia|].
  intros s Hs. unfold fsm_get_avail, zero_page. cbn [fp_nodes]. rewrite rd_replicate.
  case_match; lia.
Defined.
