(* ===== verification/Transam.v ===== *)
(** Transaction identifiers and their outcomes: include/access/transam.h and
    backend/access/transam/transam.c, with the parent chain of subtrans.c.

    A TransactionId is a 32-bit unsigned integer that wraps around; the commit
    log (clog.c), the parent links (pg_subtrans) and [TransactionXmin] are the
    fields of [xact_log].  The one-entry cache of [TransactionLogFetch], static
    variables in the code, is explicit state. *)

From S2P Require Import Prelude.
Local Open Scope Z_scope.

(** ** Identifiers *)

Definition InvalidTransactionId : Z := 0.
Definition BootstrapTransactionId : Z := 1.
Definition FrozenTransactionId : Z := 2.
Definition FirstNormalTransactionId : Z := 3.

Definition TransactionIdIsValid (xid : Z) : bool := negb (xid =? InvalidTransactionId).
Definition TransactionIdIsNormal (xid : Z) : bool := FirstNormalTransactionId <=? xid.
Definition TransactionIdEquals (id1 id2 : Z) : bool := id1 =? id2.

(** [(int32) (id1 - id2)] *)
Definition xid_diff (id1 id2 : Z) : Z := swrap 32 (uwrap 32 (id1 - id2)).

Definition TransactionIdPrecedes (id1 id2 : Z) : bool :=
  if negb (TransactionIdIsNormal id1) || negb (TransactionIdIsNormal id2)
  then id1 <? id2
  else
    let diff := xid_diff id1 id2 in
    diff <? 0.

Definition TransactionIdPrecedesOrEquals (id1 id2 : Z) : bool :=
  if negb (TransactionIdIsNormal id1) || negb (TransactionIdIsNormal id2)
  then id1 <=? id2
  else
    let diff := xid_diff id1 id2 in
    diff <=? 0.

Definition TransactionIdFollows (id1 id2 : Z) : bool :=
  if negb (TransactionIdIsNormal id1) || negb (TransactionIdIsNormal id2)
  then id1 >? id2
  else
    let diff := xid_diff id1 id2 in
    diff >? 0.

Definition TransactionIdFollowsOrEquals (id1 id2 : Z) : bool :=
  if negb (TransactionIdIsNormal id1) || negb (TransactionIdIsNormal id2)
  then id1 >=? id2
  else
    let diff := xid_diff id1 id2 in
    diff >=? 0.

(** A FullTransactionId has the epoch in its high word. *)
Definition XidFromFullTransactionId (x : Z) : Z := uwrap 32 x.
Definition FullTransactionIdFromEpochAndXid (epoch xid : Z) : Z := Z.lor (Z.shiftl epoch 32) xid.

Definition TransactionIdAdvance (xid : Z) : Z :=
  let dest := uwrap 32 (xid + 1) in
  if dest <? FirstNormalTransactionId then FirstNormalTransactionId else dest.

(** [while (--nxids >= 0)]: from the last element down. *)
Definition TransactionIdLatest (mainxid : Z) (xids : list Z) : Z :=
  for_down (length xids)
    (fun i result => if TransactionIdPrecedes result (rd xids i) then rd xids i else result)
    mainxid.

(** ** Outcomes *)

Inductive XidStatus : Set :=
| TRANSACTION_STATUS_IN_PROGRESS
| TRANSACTION_STATUS_COMMITTED
| TRANSACTION_STATUS_ABORTED
| TRANSACTION_STATUS_SUB_COMMITTED.

#[global] Instance XidStatus_eq_dec : EqDecision XidStatus.
Proof. solve_decision. Defined.

(** What the commit log and pg_subtrans hold. *)
Record xact_log : Type := mk_log {
  TransactionIdGetStatus : Z -> XidStatus;
  commit_lsn : Z -> Z;
  SubTransGetParent : Z -> Z;
  TransactionXmin : Z
}.

(** [cachedFetchXid], [cachedFetchXidStatus], [cachedCommitLSN]. *)
Record xact_cache : Set := mk_cache {
  cachedFetchXid : Z;
  cachedFetchXidStatus : XidStatus;
  cachedCommitLSN : Z
}.

(** Static storage starts out as zeroes. *)
Definition initial_cache : xact_cache :=
  mk_cache InvalidTransactionId TRANSACTION_STATUS_IN_PROGRESS 0.

Section log.
Context (log : xact_log).

Definition TransactionLogFetch (cache : xact_cache) (transactionId : Z)
  : XidStatus * xact_cache :=
  if TransactionIdEquals transactionId (cachedFetchXid cache)
  then (cachedFetchXidStatus cache, cache)
  else if negb (TransactionIdIsNormal transactionId) then
    if TransactionIdEquals transactionId BootstrapTransactionId
    then (TRANSACTION_STATUS_COMMITTED, cache)
    else if TransactionIdEquals transactionId FrozenTransactionId
    then (TRANSACTION_STATUS_COMMITTED, cache)
    else (TRANSACTION_STATUS_ABORTED, cache)
  else
    let xidstatus := TransactionIdGetStatus log transactionId in
    let xidlsn := commit_lsn log transactionId in
    match xidstatus with
    | TRANSACTION_STATUS_IN_PROGRESS | TRANSACTION_STATUS_SUB_COMMITTED => (xidstatus, cache)
    | _ => (xidstatus, mk_cache transactionId xidstatus xidlsn)
    end.

(** The recursion climbs the parent chain; [None] when the fuel runs out. *)
Fixpoint TransactionIdDidCommit (fuel : nat) (cache : xact_cache) (transactionId : Z)
  : option (bool * xact_cache) :=
  match fuel with
  | O => None
  | S fuel =>
      let '(xidstatus, cache) := TransactionLogFetch cache transactionId in
      match xidstatus with
      | TRANSACTION_STATUS_COMMITTED => Some (true, cache)
      | TRANSACTION_STATUS_SUB_COMMITTED =>
          if TransactionIdPrecedes transactionId (TransactionXmin log) then Some (false, cache)
          else
            let parentXid := SubTransGetParent log transactionId in
            if negb (TransactionIdIsValid parentXid) then Some (false, cache)
            else TransactionIdDidCommit fuel cache parentXid
      | _ => Some (false, cache)
      end
  end.

Fixpoint TransactionIdDidAbort (fuel : nat) (cache : xact_cache) (transactionId : Z)
  : option (bool * xact_cache) :=
  match fuel with
  | O => None
  | S fuel =>
      let '(xidstatus, cache) := TransactionLogFetch cache transactionId in
      match xidstatus with
      | TRANSACTION_STATUS_ABORTED => Some (true, cache)
      | TRANSACTION_STATUS_SUB_COMMITTED =>
          if TransactionIdPrecedes transactionId (TransactionXmin log) then Some (true, cache)
          else
            let parentXid := SubTransGetParent log transactionId in
            if negb (TransactionIdIsValid parentXid) then Some (true, cache)
            else TransactionIdDidAbort fuel cache parentXid
      | _ => Some (false, cache)
      end
  end.

Definition TransactionIdGetCommitLSN (cache : xact_cache) (xid : Z) : Z :=
  if TransactionIdEquals xid (cachedFetchXid cache) then cachedCommitLSN cache
  else if negb (TransactionIdIsNormal xid) then 0
  else commit_lsn log xid.

(** One round of the loop of [SubTransGetTopmostTransaction] of subtrans.c on
    (parentXid, previousXid). *)
Definition topmost_step (s : Z * Z) : flow (Z * Z) (res Z) :=
  let '(parentXid, previousXid) := s in
  if TransactionIdIsValid parentXid then
    let previousXid := parentXid in
    if TransactionIdPrecedes parentXid (TransactionXmin log) then Return (Ok previousXid)
    else
      let parentXid := SubTransGetParent log parentXid in
      if negb (TransactionIdPrecedes parentXid previousXid)
      then Return (Err "pg_subtrans contains invalid entry")
      else Next (parentXid, previousXid)
  else Return (Ok previousXid).

Definition SubTransGetTopmostTransaction (fuel : nat) (xid : Z) : res Z :=
  match while fuel topmost_step (xid, xid) with
  | Some r => r
  | None => Err out_of_fuel
  end.
End log.
