(* ===== verification/TransamProps.v ===== *)
(** Properties of transaction identifiers and of transaction outcomes. *)

From S2P Require Import Prelude Transam.
Local Open Scope Z_scope.

(** ** Order *)

Lemma swrap_small w x : 0 < w -> in_s w x -> swrap w (uwrap w x) = x.
Proof.
  intros Hw [H1 H2]. unfold swrap, uwrap.
  assert (E : 2 ^ w = 2 * 2 ^ (w - 1))
    by (rewrite <- Z.pow_succ_r by lia; f_equal; lia).
  rewrite Z.add_mod_idemp_l by lia. rewrite Z.mod_small; lia.
Qed.

(** Two full identifiers less than 2^31 apart, seen through their low words. *)
Lemma xid_diff_full a b :
  Z.abs (a - b) < 2 ^ 31 ->
  xid_diff (XidFromFullTransactionId a) (XidFromFullTransactionId b) = a - b.
Proof.
  intros H. unfold xid_diff, XidFromFullTransactionId.
  replace (uwrap 32 (uwrap 32 a - uwrap 32 b)) with (uwrap 32 (a - b)).
  - apply swrap_small; [lia|]. unfold in_s. simpl Z.sub. lia.
  - unfold uwrap. by rewrite <- Zminus_mod.
Qed.

Definition normal_full (a : Z) : Prop :=
  TransactionIdIsNormal (XidFromFullTransactionId a) = true.

Lemma precedes_full a b :
  normal_full a -> normal_full b -> Z.abs (a - b) < 2 ^ 31 ->
  TransactionIdPrecedes (XidFromFullTransactionId a) (XidFromFullTransactionId b) = (a <? b).
Proof.
  intros Ha Hb H. unfold TransactionIdPrecedes. rewrite Ha, Hb. simpl.
  rewrite xid_diff_full by done. destruct (Z.ltb_spec (a - b) 0), (Z.ltb_spec a b); done || lia.
Qed.

Lemma precedes_trans a b c :
  normal_full a -> normal_full b -> normal_full c ->
  Z.abs (a - b) < 2 ^ 31 -> Z.abs (b - c) < 2 ^ 31 -> Z.abs (a - c) < 2 ^ 31 ->
  TransactionIdPrecedes (XidFromFullTransactionId a) (XidFromFullTransactionId b) = true ->
  b <= c ->
  TransactionIdPrecedes (XidFromFullTransactionId a) (XidFromFullTransactionId c) = true.
Proof. intros. rewrite precedes_full in * by done. lia. Qed.

(** C34: the 32-bit comparisons are the 64-bit order.  On normal identifiers
    whose full (epoch-extended) values are less than 2^31 apart, the four
    modulo-2^32 comparisons decide the order of the full values, across
    wraparound; a permanent identifier precedes every normal one; and advancing
    gives a normal identifier that follows the old one. *)
Theorem xid_order_full (a b p : Z)
    (Ha : normal_full a) (Hb : normal_full b) (Hd : Z.abs (a - b) < 2 ^ 31)
    (Hp : 0 <= p < FirstNormalTransactionId) :
  let x := XidFromFullTransactionId a in
  let y := XidFromFullTransactionId b in
  TransactionIdPrecedes x y = (a <? b)
  /\ TransactionIdPrecedesOrEquals x y = (a <=? b)
  /\ TransactionIdFollows x y = (b <? a)
  /\ TransactionIdFollowsOrEquals x y = (b <=? a)
  /\ TransactionIdPrecedes p x = true /\ TransactionIdFollows x p = true
  /\ TransactionIdPrecedes x (TransactionIdAdvance x) = true
  /\ TransactionIdIsNormal (TransactionIdAdvance x) = true.
Proof.
  intros x y. subst x y.
  assert (Hpn : TransactionIdIsNormal p = false) by (apply Z.leb_gt; lia).
  pose proof Ha as Ha'. unfold normal_full, TransactionIdIsNormal in Ha'. apply Z.leb_le in Ha'.
  unfold FirstNormalTransactionId in *.
  pose proof (uwrap_range 32 a ltac:(lia)) as Hr. fold (XidFromFullTransactionId a) in Hr.
  split; [by apply precedes_full|].
  unfold TransactionIdPrecedesOrEquals, TransactionIdFollows, TransactionIdFollowsOrEquals.
  rewrite Ha, Hb, Hpn. cbn [negb orb]. rewrite xid_diff_full by done.
  split; [destruct (Z.leb_spec (a - b) 0), (Z.leb_spec a b); done || lia|].
  split; [destruct (Z.gtb_spec (a - b) 0), (Z.ltb_spec b a); done || lia|].
  split; [destruct (Z.geb_spec (a - b) 0), (Z.leb_spec b a); done || lia|].
  split; [unfold TransactionIdPrecedes; rewrite Hpn; simpl; apply Z.ltb_lt; lia|].
  split; [apply Z.gtb_lt; lia|].
  set (x := XidFromFullTransactionId a) in *. unfold in_u in Hr.
  assert (Hadv : TransactionIdIsNormal (TransactionIdAdvance x) = true).
  { unfold TransactionIdAdvance, TransactionIdIsNormal, FirstNormalTransactionId.
    destruct (Z.ltb_spec (uwrap 32 (x + 1)) 3); [done|]. by apply Z.leb_le. }
  split; [|done]. unfold TransactionIdPrecedes. rewrite Hadv.
  replace (TransactionIdIsNormal x) with true by (symmetry; exact Ha). cbn [negb orb].
  unfold TransactionIdAdvance, xid_diff. change (2 ^ 32) with 4294967296 in *.
  destruct (decide (x = 4294967295)) as [->|Hne]; [by vm_compute|].
  assert (Hw : uwrap 32 (x + 1) = x + 1)
    by (apply uwrap_small; unfold in_u; change (2 ^ 32) with 4294967296; lia).
  rewrite Hw. unfold FirstNormalTransactionId.
  destruct (Z.ltb_spec (x + 1) 3) as [|_]; [lia|].
  replace (x - (x + 1)) with (-1) by lia. by vm_compute.
Qed.

(** Identifiers on the two sides of the wraparound. *)
Lemma xid_order_full_witness :
  TransactionIdPrecedes (XidFromFullTransactionId (2 ^ 32 - 1))
    (XidFromFullTransactionId (2 ^ 32 + 5)) = true.
Proof.
  destruct (xid_order_full (2 ^ 32 - 1) (2 ^ 32 + 5) 1 eq_refl eq_refl) as [H _];
    [vm_compute; done|vm_compute; split; done|by rewrite H].
Defined.

(** ** The latest of a set *)

Definition full_max (l : list Z) (m : Z) : Z := foldr Z.max m l.

(** [TransactionIdLatest] returns the newest identifier: given the full
    values of the main transaction and its children, all within 2^31 of one
    another, it returns the low word of the largest. *)
Theorem TransactionIdLatest_max (main : Z) (subs : list Z)
    (Hn : Forall normal_full (main :: subs))
    (Hw : forall a b, a ∈ main :: subs -> b ∈ main :: subs -> Z.abs (a - b) < 2 ^ 31) :
  TransactionIdLatest (XidFromFullTransactionId main) (XidFromFullTransactionId <$> subs)
  = XidFromFullTransactionId (full_max subs main).
Proof.
  unfold TransactionIdLatest, full_max. rewrite length_fmap.
  assert (H : forall k, (k <= length subs)%nat -> forall m, m ∈ main :: subs ->
    for_down k (fun i result =>
      if TransactionIdPrecedes result (rd (XidFromFullTransactionId <$> subs) i)
      then rd (XidFromFullTransactionId <$> subs) i else result) (XidFromFullTransactionId m)
    = XidFromFullTransactionId (foldr Z.max m (take k subs))).
  { rewrite Forall_forall in Hn.
    induction k as [|k IH]; intros Hk m Hm; [done|]. simpl for_down.
    destruct (lookup_lt_is_Some_2 subs k) as [x Hx]; [lia|].
    replace (rd (XidFromFullTransactionId <$> subs) k) with (XidFromFullTransactionId x)
      by (unfold rd; by rewrite list_lookup_fmap, Hx).
    assert (Hxin : x ∈ main :: subs) by (right; by eapply list_elem_of_lookup_2).
    rewrite precedes_full by auto.
    rewrite (take_S_r _ _ _ Hx), foldr_app. simpl.
    destruct (Z.ltb_spec m x).
    - rewrite IH by (done || lia). by rewrite Z.max_l by lia.
    - rewrite IH by (done || lia). by rewrite Z.max_r by lia. }
  rewrite H by (done || by left). by rewrite take_ge.
Qed.

Lemma TransactionIdLatest_max_witness :
  TransactionIdLatest (XidFromFullTransactionId 100) (XidFromFullTransactionId <$> [102; 101])
  = 102.
Proof.
  rewrite (TransactionIdLatest_max 100 [102; 101]); [done|by repeat constructor|].
  intros a b Ha Hb. change (2 ^ 31) with 2147483648.
  rewrite !elem_of_cons, elem_of_nil in Ha, Hb. lia.
Defined.

(** ** Outcomes *)

(** Transactions that committed or aborted stay so; others may change. *)
Definition finished (status : XidStatus) : Prop := status = TRANSACTION_STATUS_COMMITTED \/ status = TRANSACTION_STATUS_ABORTED.

Definition log_later (log log' : xact_log) : Prop :=
  forall x, finished (TransactionIdGetStatus log x) -> TransactionIdGetStatus log' x = TransactionIdGetStatus log x.

#[export] Instance log_later_preorder : PreOrder log_later.
Proof. split; [by intros log x|]. intros l1 l2 l3 H1 H2 x Hx. rewrite <- (H1 x Hx) in Hx |- *. by apply H2. Qed.

Section outcomes.
Context (log : xact_log).

(** The status of a transaction as the log records it, permanent identifiers
    included. *)
Definition log_status (xid : Z) : XidStatus :=
  if TransactionIdIsNormal xid then TransactionIdGetStatus log xid
  else if (xid =? BootstrapTransactionId) || (xid =? FrozenTransactionId)
  then TRANSACTION_STATUS_COMMITTED else TRANSACTION_STATUS_ABORTED.

(** A subcommitted transaction shares the outcome of its parent; where the
    parent link is gone it must have aborted in a crash. *)
Definition orphan (xid : Z) : bool :=
  TransactionIdPrecedes xid (TransactionXmin log)
  || negb (TransactionIdIsValid (SubTransGetParent log xid)).

Inductive commits : Z -> Prop :=
| commits_self x : log_status x = TRANSACTION_STATUS_COMMITTED -> commits x
| commits_parent x : log_status x = TRANSACTION_STATUS_SUB_COMMITTED -> orphan x = false ->
    commits (SubTransGetParent log x) -> commits x.

Inductive aborts : Z -> Prop :=
| aborts_self x : log_status x = TRANSACTION_STATUS_ABORTED -> aborts x
| aborts_orphan x : log_status x = TRANSACTION_STATUS_SUB_COMMITTED -> orphan x = true -> aborts x
| aborts_parent x : log_status x = TRANSACTION_STATUS_SUB_COMMITTED -> orphan x = false ->
    aborts (SubTransGetParent log x) -> aborts x.

Lemma commits_not_aborts x : commits x -> ~ aborts x.
Proof.
  induction 1 as [x Hx|x Hx Ho _ IH]; inversion 1; subst; congruence.
Qed.

(** The cache holds nothing, or what an earlier state of the log had for a transaction that
    was finished. *)
Definition cache_ok (c : xact_cache) : Prop :=
  cachedFetchXid c = InvalidTransactionId
  \/ exists earlier, log_later earlier log
      /\ TransactionIdIsNormal (cachedFetchXid c) = true
      /\ finished (TransactionIdGetStatus earlier (cachedFetchXid c))
      /\ cachedFetchXidStatus c = TransactionIdGetStatus earlier (cachedFetchXid c)
      /\ cachedCommitLSN c = commit_lsn earlier (cachedFetchXid c).

Lemma TransactionLogFetch_spec c x :
  cache_ok c -> TransactionIdIsValid x = true ->
  exists c', TransactionLogFetch log c x = (log_status x, c') /\ cache_ok c'.
Proof.
  intros Hc Hx. pose proof Hc as Hc0.
  unfold TransactionLogFetch, log_status, TransactionIdEquals.
  destruct (Z.eqb_spec x (cachedFetchXid c)) as [E|E].
  - destruct Hc as [H0|(earlier & Hl & Hn & Hf & Hs & _)].
    + rewrite <- E in H0. unfold TransactionIdIsValid in Hx. by rewrite H0 in Hx.
    + exists c. rewrite <- E in Hn, Hf, Hs. by rewrite Hn, Hs, (Hl x Hf).
  - destruct (TransactionIdIsNormal x) eqn:Hn; simpl.
    + destruct (TransactionIdGetStatus log x) eqn:Es; eexists; (split; [done|]); try done;
        right; exists log; unfold finished; simpl; rewrite Hn, Es; split_and!; try done; auto.
    + destruct (x =? BootstrapTransactionId), (x =? FrozenTransactionId); simpl; by exists c.
Qed.

(** Parents are assigned first, so the chain of parents ends. *)
Context (rank : Z -> nat).
Hypothesis parent_rank : forall x,
  TransactionIdIsValid (SubTransGetParent log x) = true ->
  (rank (SubTransGetParent log x) < rank x)%nat.

Lemma TransactionIdDidCommit_spec fuel c x :
  cache_ok c -> TransactionIdIsValid x = true -> (rank x < fuel)%nat ->
  exists b c', TransactionIdDidCommit log fuel c x = Some (b, c') /\ cache_ok c'
    /\ (b = true <-> commits x).
Proof.
  revert c x; induction fuel as [|fuel IH]; intros c x Hc Hx Hf; [lia|]. simpl.
  destruct (TransactionLogFetch_spec c x Hc Hx) as (c' & -> & Hc').
  destruct (log_status x) eqn:Es.
  - exists false, c'. split; [done|]. split; [done|]. split; [done|]. inversion 1; congruence.
  - exists true, c'. split; [done|]. split; [done|]. split; [|done]. intros _. by constructor.
  - exists false, c'. split; [done|]. split; [done|]. split; [done|]. inversion 1; congruence.
  - assert (Ho : orphan x = true -> (false = true <-> commits x))
      by (intros Ho; split; [done|]; inversion 1; congruence).
    unfold orphan in Ho. destruct (TransactionIdPrecedes x (TransactionXmin log)) eqn:Ep.
    { exists false, c'. split; [done|]. split; [done|]. by apply Ho. }
    destruct (TransactionIdIsValid (SubTransGetParent log x)) eqn:Ev; simpl in *.
    + destruct (IH c' (SubTransGetParent log x) Hc' Ev) as (b & c'' & E & Hc'' & Hb).
      { specialize (parent_rank x Ev). lia. }
      exists b, c''. split; [done|]. split; [done|]. rewrite Hb. split.
      * intros H. apply commits_parent; [done| |done]. unfold orphan. by rewrite Ep, Ev.
      * inversion 1; [congruence|done].
    + exists false, c'. split; [done|]. split; [done|]. by apply Ho.
Qed.

Lemma TransactionIdDidAbort_spec fuel c x :
  cache_ok c -> TransactionIdIsValid x = true -> (rank x < fuel)%nat ->
  exists b c', TransactionIdDidAbort log fuel c x = Some (b, c') /\ cache_ok c'
    /\ (b = true <-> aborts x).
Proof.
  revert c x; induction fuel as [|fuel IH]; intros c x Hc Hx Hf; [lia|]. simpl.
  destruct (TransactionLogFetch_spec c x Hc Hx) as (c' & -> & Hc').
  destruct (log_status x) eqn:Es.
  - exists false, c'. split; [done|]. split; [done|]. split; [done|]. inversion 1; congruence.
  - exists false, c'. split; [done|]. split; [done|]. split; [done|]. inversion 1; congruence.
  - exists true, c'. split; [done|]. split; [done|]. split; [|done]. intros _. by constructor.
  - assert (Ho : orphan x = true -> (true = true <-> aborts x))
      by (intros Ho; split; [|done]; intros _; by apply aborts_orphan).
    unfold orphan in Ho. destruct (TransactionIdPrecedes x (TransactionXmin log)) eqn:Ep.
    { exists true, c'. split; [done|]. split; [done|]. by apply Ho. }
    destruct (TransactionIdIsValid (SubTransGetParent log x)) eqn:Ev; simpl in *.
    + destruct (IH c' (SubTransGetParent log x) Hc' Ev) as (b & c'' & E & Hc'' & Hb).
      { specialize (parent_rank x Ev). lia. }
      assert (Hox : orphan x = false) by (unfold orphan; by rewrite Ep, Ev).
      exists b, c''. split; [done|]. split; [done|]. rewrite Hb. split.
      * intros H. by apply aborts_parent.
      * inversion 1; congruence || done.
    + exists true, c'. split; [done|]. split; [done|]. by apply Ho.
Qed.
End outcomes.

(** What is cached outlives changes of the log. *)
Lemma cache_later log log' c : log_later log log' -> cache_ok log c -> cache_ok log' c.
Proof. intros Hl [H|(earlier & He & H)]; [by left|right]. exists earlier. split; [by transitivity log|done]. Qed.

(** C35: transaction outcomes.  Whatever has been cached before, from this or an earlier state
    of the log, asking for the outcome of a valid transaction ends, with as many rounds as its
    chain of parents is long; the commit test says yes exactly when the transaction, or the
    first ancestor that is not merely subcommitted, is recorded committed, the abort test
    exactly when that ancestor is recorded aborted or its link is lost; never both.  What is
    cached meanwhile is the status of a finished transaction, so that the cache answers
    rightly for every later state of the log, in which unfinished and subcommitted
    transactions may have changed; the LSN told is that of this or an earlier state. *)
Theorem xact_outcome_correct (log : xact_log) (rank : Z -> nat)
    (Hrank : forall x, TransactionIdIsValid (SubTransGetParent log x) = true ->
             (rank (SubTransGetParent log x) < rank x)%nat)
    (cache : xact_cache) (xid : Z) (fuel : nat)
    (Hc : cache_ok log cache) (Hx : TransactionIdIsValid xid = true)
    (Hf : (rank xid < fuel)%nat) :
  (exists b c', TransactionIdDidCommit log fuel cache xid = Some (b, c')
     /\ (b = true <-> commits log xid) /\ forall log', log_later log log' -> cache_ok log' c')
  /\ (exists b c', TransactionIdDidAbort log fuel cache xid = Some (b, c')
     /\ (b = true <-> aborts log xid) /\ forall log', log_later log log' -> cache_ok log' c')
  /\ ~ (commits log xid /\ aborts log xid)
  /\ (TransactionIdIsNormal xid = true ->
      exists earlier, log_later earlier log /\ TransactionIdGetCommitLSN log cache xid = commit_lsn earlier xid).
Proof.
  split_and!.
  - destruct (TransactionIdDidCommit_spec log rank Hrank fuel cache xid Hc Hx Hf) as (b & c' & E & Hc' & Hb).
    exists b, c'. split_and!; [done|done|]. intros log' Hl. by eapply cache_later.
  - destruct (TransactionIdDidAbort_spec log rank Hrank fuel cache xid Hc Hx Hf) as (b & c' & E & Hc' & Hb).
    exists b, c'. split_and!; [done|done|]. intros log' Hl. by eapply cache_later.
  - intros [H1 H2]. by apply (commits_not_aborts log xid H1).
  - intros Hn. unfold TransactionIdGetCommitLSN, TransactionIdEquals. rewrite Hn. simpl.
    destruct (Z.eqb_spec xid (cachedFetchXid cache)) as [E|E]; [|by exists log].
    destruct Hc as [H0|(earlier & Hl & _ & _ & _ & Hl')].
    + unfold TransactionIdIsValid in Hx. by rewrite E, H0 in Hx.
    + exists earlier. by rewrite Hl', E.
Qed.

(** Transaction 12 is a subcommitted child of the committed transaction 10. *)
Definition example_log : xact_log :=
  mk_log (fun x => if x =? 12 then TRANSACTION_STATUS_SUB_COMMITTED
                   else if x =? 10 then TRANSACTION_STATUS_COMMITTED
                   else TRANSACTION_STATUS_IN_PROGRESS)
    (fun _ => 0) (fun x => if x =? 12 then 10 else 0) 5.

Lemma xact_outcome_correct_witness :
  exists b c', TransactionIdDidCommit example_log 20 initial_cache 12 = Some (b, c') /\ b = true.
Proof.
  destruct (xact_outcome_correct example_log Z.to_nat) with
    (cache := initial_cache) (xid := 12) (fuel := 20%nat)
    as ((b & c' & E & Hb & _) & _).
  - intros x. simpl. unfold TransactionIdIsValid, InvalidTransactionId.
    destruct (Z.eqb_spec x 12); simpl; [lia|done].
  - by left.
  - done.
  - simpl. lia.
  - exists b, c'. split; [done|]. apply Hb.
    apply commits_parent; [done|done|]. by apply commits_self.
Defined.

(** The invalid identifier is answered from the empty cache, whose key is the
    invalid identifier itself: before any lookup it has neither committed nor
    aborted, after one it has aborted. *)
Lemma invalid_xid_depends_on_cache (log : xact_log) (fuel : nat) (x : Z) :
  TransactionIdIsNormal x = true ->
  option_map fst (TransactionIdDidAbort log (S fuel) initial_cache InvalidTransactionId) = Some false
  /\ option_map fst (TransactionIdDidAbort log (S fuel)
       (mk_cache x TRANSACTION_STATUS_COMMITTED 0) InvalidTransactionId) = Some true.
Proof.
  intros Hx. split; [done|]. simpl. unfold TransactionLogFetch, TransactionIdEquals.
  simpl cachedFetchXid. destruct (Z.eqb_spec InvalidTransactionId x) as [<-|]; done.
Qed.

(** ** Topmost parents *)

Section topmost.
Context (log : xact_log).

(** [y] is [x] or an ancestor of it, through links that can be consulted and
    that lead back in time. *)
Inductive ancestor : Z -> Z -> Prop :=
| ancestor_self x : ancestor x x
| ancestor_parent x y :
    orphan log x = false -> TransactionIdPrecedes (SubTransGetParent log x) x = true ->
    ancestor (SubTransGetParent log x) y -> ancestor x y.

(** The end of the search: the last ancestor, or a corrupt link. *)
Definition topmost_result (x : Z) (r : res Z) : Prop :=
  match r with
  | Ok top => ancestor x top /\ orphan log top = true
  | Err e =>
      e = "pg_subtrans contains invalid entry"%string
      /\ exists y, ancestor x y /\ orphan log y = false
           /\ TransactionIdPrecedes (SubTransGetParent log y) y = false
  end.

Context (rank : Z -> nat).
Hypothesis parent_rank : forall x,
  TransactionIdIsValid (SubTransGetParent log x) = true ->
  (rank (SubTransGetParent log x) < rank x)%nat.
Hypothesis parent_xid : forall x, 0 <= SubTransGetParent log x.

Lemma topmost_loop fuel x prev :
  0 < x -> (rank x + 1 < fuel)%nat ->
  exists r, while fuel (topmost_step log) (x, prev) = Some r /\ topmost_result x r.
Proof.
  revert x prev; induction fuel as [|fuel IH]; intros x prev Hx Hf; [lia|].
  assert (Hv : TransactionIdIsValid x = true) by (apply negb_true_iff, Z.eqb_neq; unfold InvalidTransactionId; lia).
  simpl. rewrite Hv.
  destruct (TransactionIdPrecedes x (TransactionXmin log)) eqn:Ep.
  { exists (Ok x). split; [done|]. split; [constructor|]. unfold orphan. by rewrite Ep. }
  destruct (TransactionIdPrecedes (SubTransGetParent log x) x) eqn:Epp; simpl.
  - destruct (TransactionIdIsValid (SubTransGetParent log x)) eqn:Ev.
    + assert (Ho : orphan log x = false) by (unfold orphan; by rewrite Ep, Ev).
      destruct (IH (SubTransGetParent log x) x) as (r & Er & Hr).
      * apply negb_true_iff, Z.eqb_neq in Ev. unfold InvalidTransactionId in Ev.
        specialize (parent_xid x). lia.
      * specialize (parent_rank x Ev). lia.
      * exists r. split; [done|]. destruct r as [top|e]; simpl in *.
        -- destruct Hr as [H1 H2]. split; [|done]. apply ancestor_parent; done.
        -- destruct Hr as (He & y & Hy & Hy'). split; [done|]. exists y.
           split; [by apply ancestor_parent|done].
    + exists (Ok x). destruct fuel as [|fuel]; [lia|]. simpl. rewrite Ev. split; [done|].
      split; [constructor|]. unfold orphan. rewrite Ep, Ev. done.
  - exists (Err "pg_subtrans contains invalid entry"). split; [done|]. split; [done|].
    exists x. split; [constructor|]. split; [|done].
    unfold orphan. rewrite Ep. apply negb_false_iff, negb_true_iff, Z.eqb_neq.
    intros E. unfold TransactionIdPrecedes in Epp. rewrite E in Epp. simpl in Epp.
    apply Z.ltb_ge in Epp. unfold InvalidTransactionId in Epp. lia.
Qed.
End topmost.

(** The climb to the topmost parent ends, with as many rounds as the chain
    of parents is long and one more.  It returns an ancestor of the transaction
    that is before the horizon or has no parent, or reports a link that does not
    lead back in time; and never the latter when there is no such link. *)
Theorem subtrans_topmost (log : xact_log) (rank : Z -> nat)
    (Hrank : forall x, TransactionIdIsValid (SubTransGetParent log x) = true ->
             (rank (SubTransGetParent log x) < rank x)%nat)
    (Hxid : forall x, 0 <= SubTransGetParent log x)
    (xid : Z) (fuel : nat) (Hx : 0 < xid) (Hf : (rank xid + 1 < fuel)%nat) :
  topmost_result log xid (SubTransGetTopmostTransaction log fuel xid)
  /\ ((forall y, orphan log y = false -> TransactionIdPrecedes (SubTransGetParent log y) y = true) ->
      exists top, SubTransGetTopmostTransaction log fuel xid = Ok top
        /\ ancestor log xid top /\ orphan log top = true).
Proof.
  destruct (topmost_loop log rank Hrank Hxid fuel xid xid Hx Hf) as (r & Er & Hr).
  unfold SubTransGetTopmostTransaction. rewrite Er. split; [done|].
  intros Hok. destruct r as [top|e]; [by exists top|].
  destruct Hr as (_ & y & _ & Ho & Hp). rewrite Hok in Hp by done. done.
Qed.

Lemma subtrans_topmost_witness :
  exists top, SubTransGetTopmostTransaction example_log 20 12 = Ok top /\ top = 10.
Proof.
  destruct (subtrans_topmost example_log Z.to_nat) with (xid := 12) (fuel := 20%nat) as [_ H].
  - intros x. simpl. destruct (Z.eqb_spec x 12) as [->|_]; [intros _; lia|done].
  - intros x. simpl. by destruct (x =? 12).
  - lia.
  - lia.
  - destruct H as (top & E & _); [|exists top; split; [exact E|by injection E as <-]].
    intros y. unfold orphan. simpl. destruct (Z.eqb_spec y 12) as [->|_]; [done|].
    by rewrite orb_true_r.
Defined.
