(* ===== verification/HeapVisibility.v ===== *)
(** Tuple visibility: backend/access/heap/heapam_visibility.c, with
    [XidInMVCCSnapshot] of snapmgr.c, [MultiXactIdGetUpdateXid] of heapam.c,
    [MultiXactIdIsRunning] of multixact.c, the
    command-id accessors of combocid.c and the infomask macros of
    include/access/htup_details.h.

    The visibility routines read a tuple header and set hint bits in it on the
    way, with early returns everywhere.  They are written in a small language of
    statements over the state they change: a statement either returns a result
    or falls through.  What they ask the rest of the system (which transactions
    are the caller's own, in progress or committed, the members of a multixact,
    the combo command ids) is the record [xact_env], the state of the transaction
    system at the time of the call. *)

From S2P Require Import Prelude Transam.
Local Open Scope Z_scope.

(** ** Tuple headers *)

Definition HEAP_XMAX_KEYSHR_LOCK : Z := 0x0010.
Definition HEAP_COMBOCID : Z := 0x0020.
Definition HEAP_XMAX_EXCL_LOCK : Z := 0x0040.
Definition HEAP_XMAX_LOCK_ONLY : Z := 0x0080.
Definition HEAP_XMAX_SHR_LOCK : Z := Z.lor HEAP_XMAX_EXCL_LOCK HEAP_XMAX_KEYSHR_LOCK.
Definition HEAP_LOCK_MASK : Z :=
  Z.lor (Z.lor HEAP_XMAX_SHR_LOCK HEAP_XMAX_EXCL_LOCK) HEAP_XMAX_KEYSHR_LOCK.
Definition HEAP_XMIN_COMMITTED : Z := 0x0100.
Definition HEAP_XMIN_INVALID : Z := 0x0200.
Definition HEAP_XMIN_FROZEN : Z := Z.lor HEAP_XMIN_COMMITTED HEAP_XMIN_INVALID.
Definition HEAP_XMAX_COMMITTED : Z := 0x0400.
Definition HEAP_XMAX_INVALID : Z := 0x0800.
Definition HEAP_XMAX_IS_MULTI : Z := 0x1000.
Definition HEAP_MOVED_OFF : Z := 0x4000.
Definition HEAP_MOVED_IN : Z := 0x8000.
Definition HEAP_MOVED : Z := Z.lor HEAP_MOVED_OFF HEAP_MOVED_IN.

(** [(infomask & f)] as a condition. *)
Definition has (f infomask : Z) : bool := negb (Z.land infomask f =? 0).

Definition HEAP_XMAX_IS_LOCKED_ONLY (infomask : Z) : bool :=
  has HEAP_XMAX_LOCK_ONLY infomask
  || (Z.land infomask (Z.lor HEAP_XMAX_IS_MULTI HEAP_LOCK_MASK) =? HEAP_XMAX_EXCL_LOCK).

Definition HEAP_LOCKED_UPGRADED (infomask : Z) : bool :=
  has HEAP_XMAX_IS_MULTI infomask && has HEAP_XMAX_LOCK_ONLY infomask
  && (Z.land infomask (Z.lor HEAP_XMAX_EXCL_LOCK HEAP_XMAX_KEYSHR_LOCK) =? 0).

(** A TID: block number and offset number. *)
Record ItemPointer : Set := mk_tid { ip_blkid : Z; ip_posid : Z }.

Definition ItemPointerEquals (p1 p2 : ItemPointer) : bool :=
  (ip_blkid p1 =? ip_blkid p2) && (ip_posid p1 =? ip_posid p2).

Definition SpecTokenOffsetNumber : Z := 0xfffe.

(** [t_field3] is the command id, or the xid of an old VACUUM FULL. *)
Record HeapTupleHeader : Set := mk_tuple {
  t_xmin : Z;
  t_xmax : Z;
  t_field3 : Z;
  t_ctid : ItemPointer;
  t_infomask : Z
}.

Definition set_infomask (m : Z) (t : HeapTupleHeader) : HeapTupleHeader :=
  mk_tuple (t_xmin t) (t_xmax t) (t_field3 t) (t_ctid t) m.

Definition HeapTupleHeaderXminCommitted (t : HeapTupleHeader) : bool :=
  has HEAP_XMIN_COMMITTED (t_infomask t).
Definition HeapTupleHeaderXminInvalid (t : HeapTupleHeader) : bool :=
  Z.land (t_infomask t) (Z.lor HEAP_XMIN_COMMITTED HEAP_XMIN_INVALID) =? HEAP_XMIN_INVALID.
Definition HeapTupleHeaderXminFrozen (t : HeapTupleHeader) : bool :=
  Z.land (t_infomask t) HEAP_XMIN_FROZEN =? HEAP_XMIN_FROZEN.
Definition HeapTupleHeaderGetXmin (t : HeapTupleHeader) : Z :=
  if HeapTupleHeaderXminFrozen t then FrozenTransactionId else t_xmin t.
Definition HeapTupleHeaderGetXvac (t : HeapTupleHeader) : Z :=
  if has HEAP_MOVED (t_infomask t) then t_field3 t else InvalidTransactionId.
Definition HeapTupleHeaderGetRawCommandId (t : HeapTupleHeader) : Z := t_field3 t.
Definition HeapTupleHeaderIsSpeculative (t : HeapTupleHeader) : bool :=
  ip_posid (t_ctid t) =? SpecTokenOffsetNumber.
Definition HeapTupleHeaderGetSpeculativeToken (t : HeapTupleHeader) : Z := ip_blkid (t_ctid t).

(** ** Snapshots *)

Inductive SnapshotType : Set :=
| SNAPSHOT_MVCC | SNAPSHOT_SELF | SNAPSHOT_ANY | SNAPSHOT_TOAST | SNAPSHOT_DIRTY
| SNAPSHOT_HISTORIC_MVCC | SNAPSHOT_NON_VACUUMABLE.

Record Snapshot : Set := mk_snapshot {
  snapshot_type : SnapshotType;
  s_xmin : Z;
  s_xmax : Z;
  s_xip : list Z;
  s_subxip : list Z;
  suboverflowed : bool;
  takenDuringRecovery : bool;
  curcid : Z;
  speculativeToken : Z
}.

(** ** The transaction system *)

Record xact_env : Type := mk_env {
  (* TransactionIdIsCurrentTransactionId, xact.c *)
  IsCurrent : Z -> bool;
  (* TransactionIdIsInProgress, procarray.c *)
  IsInProgress : Z -> bool;
  (* TransactionIdDidCommit, transam.c *)
  DidCommit : Z -> bool;
  (* SubTransGetTopmostTransaction, subtrans.c *)
  Topmost : Z -> Z;
  (* GetMultiXactIdMembers(multi, _, false, isLockOnly), multixact.c: members,
     with ISUPDATE_from_mxstatus *)
  Members : bool -> Z -> list (Z * bool);
  (* GetRealCmin and GetRealCmax, combocid.c *)
  RealCmin : Z -> Z;
  RealCmax : Z -> Z;
  (* the commit record of the xid is not flushed, and the buffer's page is
     permanent and older than it *)
  CommitUnflushed : Z -> bool;
  (* GlobalVisTestIsRemovableXid, procarray.c, on the snapshot's horizon *)
  IsRemovable : Z -> bool;
  (* ResolveCminCmaxDuringDecoding, reorderbuffer.c *)
  ResolveCids : HeapTupleHeader -> option (Z * Z)
}.

(** [pg_lfind32]: linear search; [bsearch] on a sorted array. *)
Definition pg_lfind32 (key : Z) (base : list Z) : bool :=
  after (for_up_ret (length base) 0
           (fun i s => if key =? rd base i then Return true else Next s) tt)
    (fun _ => false).

Definition TransactionIdInArray (xid : Z) (xip : list Z) : bool :=
  (0 <? length xip)%nat && existsb (Z.eqb xid) xip.

(** ** Statements *)

(** What a routine changes: the tuple header on the page, whether the buffer has
    been marked dirty, and the output fields of a dirty snapshot. *)
Record vstate : Set := mk_vstate {
  v_tuple : HeapTupleHeader;
  v_dirty : bool;
  v_xmin : Z;
  v_xmax : Z;
  v_token : Z
}.

Definition stmt (R : Type) : Type := vstate -> option R * vstate.

Definition skip {R} : stmt R := fun s => (None, s).
Definition ret {R} (r : R) : stmt R := fun s => (Some r, s).
Definition seqs {R} (p q : stmt R) : stmt R :=
  fun s => match p s with (Some r, s') => (Some r, s') | (None, s') => q s' end.
Definition ifs {R} (c : HeapTupleHeader -> bool) (p q : stmt R) : stmt R :=
  fun s => if c (v_tuple s) then p s else q s.
Definition whens {R} (c : HeapTupleHeader -> bool) (p : stmt R) : stmt R := ifs c p skip.

Notation "p ;; q" := (seqs p q) (at level 100, q at level 200, right associativity) : pg_scope.
Local Open Scope pg_scope.

Section visibility.
Context (env : xact_env).

Definition XidInMVCCSnapshot (xid : Z) (snapshot : Snapshot) : bool :=
  if TransactionIdPrecedes xid (s_xmin snapshot) then false
  else if TransactionIdFollowsOrEquals xid (s_xmax snapshot) then true
  else if negb (takenDuringRecovery snapshot) then
    if negb (suboverflowed snapshot) then
      if pg_lfind32 xid (s_subxip snapshot) then true
      else if pg_lfind32 xid (s_xip snapshot) then true
      else false
    else
      let xid := Topmost env xid in
      if TransactionIdPrecedes xid (s_xmin snapshot) then false
      else if pg_lfind32 xid (s_xip snapshot) then true
      else false
  else
    if suboverflowed snapshot then
      let xid := Topmost env xid in
      if TransactionIdPrecedes xid (s_xmin snapshot) then false
      else if pg_lfind32 xid (s_subxip snapshot) then true
      else false
    else if pg_lfind32 xid (s_subxip snapshot) then true
    else false.

(** The first updating member, if there is one. *)
Definition MultiXactIdGetUpdateXid (xmax : Z) : Z :=
  let members := Members env false xmax in
  after (for_up_ret (length members) 0
           (fun i (_ : unit) =>
              match members !! i with
              | Some (xid, true) => Return xid
              | _ => Next tt
              end) tt)
    (fun _ => InvalidTransactionId).

Definition MultiXactIdIsRunning (multi : Z) (isLockOnly : bool) : bool :=
  let members := Members env isLockOnly multi in
  let any (p : Z -> bool) (rest : bool) :=
    after (for_up_ret (length members) 0
             (fun i (_ : unit) =>
                match members !! i with
                | Some m => if p (fst m) then Return true else Next tt
                | None => Next tt
                end) tt)
      (fun _ => rest) in
  any (IsCurrent env) (any (IsInProgress env) false).

Definition HeapTupleGetUpdateXid (t : HeapTupleHeader) : Z := MultiXactIdGetUpdateXid (t_xmax t).

Definition HeapTupleHeaderGetUpdateXid (t : HeapTupleHeader) : Z :=
  if negb (has HEAP_XMAX_INVALID (t_infomask t)) && has HEAP_XMAX_IS_MULTI (t_infomask t)
     && negb (has HEAP_XMAX_LOCK_ONLY (t_infomask t))
  then HeapTupleGetUpdateXid t else t_xmax t.

Definition HeapTupleHeaderGetCmin (t : HeapTupleHeader) : Z :=
  let cid := HeapTupleHeaderGetRawCommandId t in
  if has HEAP_COMBOCID (t_infomask t) then RealCmin env cid else cid.

Definition HeapTupleHeaderGetCmax (t : HeapTupleHeader) : Z :=
  let cid := HeapTupleHeaderGetRawCommandId t in
  if has HEAP_COMBOCID (t_infomask t) then RealCmax env cid else cid.

(** Conditions on the header. *)
Definition no (c : HeapTupleHeader -> bool) : HeapTupleHeader -> bool := fun t => negb (c t).
Definition flag (f : Z) : HeapTupleHeader -> bool := fun t => has f (t_infomask t).
Definition locked_only : HeapTupleHeader -> bool :=
  fun t => HEAP_XMAX_IS_LOCKED_ONLY (t_infomask t).
Definition cur (x : HeapTupleHeader -> Z) : HeapTupleHeader -> bool := fun t => IsCurrent env (x t).
Definition inprog (x : HeapTupleHeader -> Z) : HeapTupleHeader -> bool :=
  fun t => IsInProgress env (x t).
Definition did (x : HeapTupleHeader -> Z) : HeapTupleHeader -> bool := fun t => DidCommit env (x t).
Definition running (lockonly : bool) : HeapTupleHeader -> bool :=
  fun t => MultiXactIdIsRunning (t_xmax t) lockonly.
Definition valid (x : HeapTupleHeader -> Z) : HeapTupleHeader -> bool :=
  fun t => TransactionIdIsValid (x t).

(** [SetHintBits(tuple, buffer, infomask, xid)] *)
Definition SetHintBits {R} (infomask : Z) (xid : HeapTupleHeader -> Z) : stmt R :=
  fun s =>
    let t := v_tuple s in
    if TransactionIdIsValid (xid t) && CommitUnflushed env (xid t) then (None, s)
    else (None, mk_vstate (set_infomask (Z.lor (t_infomask t) infomask) t) true
                  (v_xmin s) (v_xmax s) (v_token s)).

(** The routine for other modules. *)
Definition HeapTupleSetHintBits {R} (infomask : Z) (xid : HeapTupleHeader -> Z) : stmt R :=
  SetHintBits infomask xid.

Definition InvalidXid : HeapTupleHeader -> Z := fun _ => InvalidTransactionId.
(** The treatment of tuples moved by a pre-9.0 VACUUM FULL, common to the
    routines: [going] is the routine's test that a transaction is still running,
    [invisible] its answer for an unborn tuple. *)
Definition moved_off {R} (going : (HeapTupleHeader -> Z) -> HeapTupleHeader -> bool)
    (invisible : R) : stmt R :=
  whens (cur HeapTupleHeaderGetXvac) (ret invisible) ;;
  whens (no (going HeapTupleHeaderGetXvac))
    (whens (did HeapTupleHeaderGetXvac) (SetHintBits HEAP_XMIN_INVALID InvalidXid ;; ret invisible) ;;
     SetHintBits HEAP_XMIN_COMMITTED InvalidXid).

Definition moved_in {R} (going : (HeapTupleHeader -> Z) -> HeapTupleHeader -> bool)
    (invisible : R) : stmt R :=
  whens (no (cur HeapTupleHeaderGetXvac))
    (whens (going HeapTupleHeaderGetXvac) (ret invisible) ;;
     ifs (did HeapTupleHeaderGetXvac)
       (SetHintBits HEAP_XMIN_COMMITTED InvalidXid)
       (SetHintBits HEAP_XMIN_INVALID InvalidXid ;; ret invisible)).

(** ** SnapshotSelf *)
(** First part: has the insertion happened? *)
Definition self_xmin : stmt bool :=
  whens (no HeapTupleHeaderXminCommitted)
    (whens HeapTupleHeaderXminInvalid (ret false) ;;
     ifs (flag HEAP_MOVED_OFF) (moved_off inprog false)
     (ifs (flag HEAP_MOVED_IN) (moved_in inprog false)
     (ifs (cur t_xmin)
       (whens (flag HEAP_XMAX_INVALID) (ret true) ;;
        whens locked_only (ret true) ;;
        whens (flag HEAP_XMAX_IS_MULTI)
          (ifs (no (cur HeapTupleGetUpdateXid)) (ret true) (ret false)) ;;
        whens (no (cur t_xmax)) (SetHintBits HEAP_XMAX_INVALID InvalidXid ;; ret true) ;;
        ret false)
     (ifs (inprog t_xmin) (ret false)
     (ifs (did t_xmin) (SetHintBits HEAP_XMIN_COMMITTED t_xmin)
       (SetHintBits HEAP_XMIN_INVALID InvalidXid ;; ret false)))))).

(** Second part: by here the inserting transaction has committed. *)
Definition self_xmax : stmt bool :=
  whens (flag HEAP_XMAX_INVALID) (ret true) ;;
  whens (flag HEAP_XMAX_COMMITTED)
    (whens locked_only (ret true) ;; ret false) ;;
  whens (flag HEAP_XMAX_IS_MULTI)
    (whens locked_only (ret true) ;;
     whens (cur HeapTupleGetUpdateXid) (ret false) ;;
     whens (inprog HeapTupleGetUpdateXid) (ret true) ;;
     whens (did HeapTupleGetUpdateXid) (ret false) ;;
     ret true) ;;
  whens (cur t_xmax) (whens locked_only (ret true) ;; ret false) ;;
  whens (inprog t_xmax) (ret true) ;;
  whens (no (did t_xmax)) (SetHintBits HEAP_XMAX_INVALID InvalidXid ;; ret true) ;;
  whens locked_only (SetHintBits HEAP_XMAX_INVALID InvalidXid ;; ret true) ;;
  SetHintBits HEAP_XMAX_COMMITTED t_xmax ;;
  ret false.

Definition HeapTupleSatisfiesSelf : stmt bool :=
  self_xmin ;;
  self_xmax.

Definition HeapTupleSatisfiesAny : stmt bool := ret true.

Definition HeapTupleSatisfiesToast : stmt bool :=
  whens (no HeapTupleHeaderXminCommitted)
    (whens HeapTupleHeaderXminInvalid (ret false) ;;
     ifs (flag HEAP_MOVED_OFF) (moved_off inprog false)
     (ifs (flag HEAP_MOVED_IN) (moved_in inprog false)
     (whens (no (valid HeapTupleHeaderGetXmin)) (ret false)))) ;;
  ret true.

(** ** HeapTupleSatisfiesUpdate *)

Inductive TM_Result : Set :=
| TM_Ok | TM_Invisible | TM_SelfModified | TM_Updated | TM_Deleted | TM_BeingModified
| TM_WouldBlock.

(** [t_self] is the tuple's own TID. *)
Definition updated_or_deleted (t_self : ItemPointer) : stmt TM_Result :=
  ifs (fun t => negb (ItemPointerEquals t_self (t_ctid t))) (ret TM_Updated) (ret TM_Deleted).

Definition self_or_invisible (curcid : Z) : stmt TM_Result :=
  ifs (fun t => HeapTupleHeaderGetCmax t >=? curcid) (ret TM_SelfModified) (ret TM_Invisible).

(** First part: has the insertion happened? *)
Definition update_xmin (curcid : Z) : stmt TM_Result :=
  whens (no HeapTupleHeaderXminCommitted)
    (whens HeapTupleHeaderXminInvalid (ret TM_Invisible) ;;
     ifs (flag HEAP_MOVED_OFF) (moved_off inprog TM_Invisible)
     (ifs (flag HEAP_MOVED_IN) (moved_in inprog TM_Invisible)
     (ifs (cur t_xmin)
       (whens (fun t => HeapTupleHeaderGetCmin t >=? curcid) (ret TM_Invisible) ;;
        whens (flag HEAP_XMAX_INVALID) (ret TM_Ok) ;;
        whens locked_only
          (whens (flag HEAP_XMAX_IS_MULTI)
             (ifs (running true) (ret TM_BeingModified) (ret TM_Ok)) ;;
           whens (no (inprog t_xmax)) (ret TM_Ok) ;;
           ret TM_BeingModified) ;;
        whens (flag HEAP_XMAX_IS_MULTI)
          (ifs (no (cur HeapTupleGetUpdateXid))
             (whens (running false) (ret TM_BeingModified) ;; ret TM_Ok)
             (self_or_invisible curcid)) ;;
        whens (no (cur t_xmax)) (SetHintBits HEAP_XMAX_INVALID InvalidXid ;; ret TM_Ok) ;;
        self_or_invisible curcid)
     (ifs (inprog t_xmin) (ret TM_Invisible)
     (ifs (did t_xmin) (SetHintBits HEAP_XMIN_COMMITTED t_xmin)
       (SetHintBits HEAP_XMIN_INVALID InvalidXid ;; ret TM_Invisible)))))).

(** Second part: by here the inserting transaction has committed. *)
Definition update_xmax (t_self : ItemPointer) (curcid : Z) : stmt TM_Result :=
  whens (flag HEAP_XMAX_INVALID) (ret TM_Ok) ;;
  whens (flag HEAP_XMAX_COMMITTED)
    (whens locked_only (ret TM_Ok) ;; updated_or_deleted t_self) ;;
  whens (flag HEAP_XMAX_IS_MULTI)
    (whens (fun t => HEAP_LOCKED_UPGRADED (t_infomask t)) (ret TM_Ok) ;;
     whens locked_only
       (whens (running true) (ret TM_BeingModified) ;;
        SetHintBits HEAP_XMAX_INVALID InvalidXid ;; ret TM_Ok) ;;
     whens (no (valid HeapTupleGetUpdateXid)) (whens (running false) (ret TM_BeingModified)) ;;
     whens (cur HeapTupleGetUpdateXid) (self_or_invisible curcid) ;;
     whens (running false) (ret TM_BeingModified) ;;
     whens (did HeapTupleGetUpdateXid) (updated_or_deleted t_self) ;;
     ifs (no (running false))
       (SetHintBits HEAP_XMAX_INVALID InvalidXid ;; ret TM_Ok)
       (ret TM_BeingModified)) ;;
  whens (cur t_xmax)
    (whens locked_only (ret TM_BeingModified) ;; self_or_invisible curcid) ;;
  whens (inprog t_xmax) (ret TM_BeingModified) ;;
  whens (no (did t_xmax)) (SetHintBits HEAP_XMAX_INVALID InvalidXid ;; ret TM_Ok) ;;
  whens locked_only (SetHintBits HEAP_XMAX_INVALID InvalidXid ;; ret TM_Ok) ;;
  SetHintBits HEAP_XMAX_COMMITTED t_xmax ;;
  updated_or_deleted t_self.

Definition HeapTupleSatisfiesUpdate (t_self : ItemPointer) (curcid : Z) : stmt TM_Result :=
  update_xmin curcid ;;
  update_xmax t_self curcid.

(** ** SnapshotDirty *)

(** Stores into the caller's snapshot. *)
Definition snap_xmin {R} (x : HeapTupleHeader -> Z) : stmt R :=
  fun s => (None, mk_vstate (v_tuple s) (v_dirty s) (x (v_tuple s)) (v_xmax s) (v_token s)).
Definition snap_xmax {R} (x : HeapTupleHeader -> Z) : stmt R :=
  fun s => (None, mk_vstate (v_tuple s) (v_dirty s) (v_xmin s) (x (v_tuple s)) (v_token s)).
Definition snap_token {R} (x : HeapTupleHeader -> Z) : stmt R :=
  fun s => (None, mk_vstate (v_tuple s) (v_dirty s) (v_xmin s) (v_xmax s) (x (v_tuple s))).

(** First part: has the insertion happened? *)
Definition dirty_xmin : stmt bool :=
  whens (no HeapTupleHeaderXminCommitted)
    (whens HeapTupleHeaderXminInvalid (ret false) ;;
     ifs (flag HEAP_MOVED_OFF) (moved_off inprog false)
     (ifs (flag HEAP_MOVED_IN) (moved_in inprog false)
     (ifs (cur t_xmin)
       (whens (flag HEAP_XMAX_INVALID) (ret true) ;;
        whens locked_only (ret true) ;;
        whens (flag HEAP_XMAX_IS_MULTI)
          (ifs (no (cur HeapTupleGetUpdateXid)) (ret true) (ret false)) ;;
        whens (no (cur t_xmax)) (SetHintBits HEAP_XMAX_INVALID InvalidXid ;; ret true) ;;
        ret false)
     (ifs (inprog t_xmin)
       (whens HeapTupleHeaderIsSpeculative (snap_token HeapTupleHeaderGetSpeculativeToken) ;;
        snap_xmin t_xmin ;;
        ret true)
     (ifs (did t_xmin) (SetHintBits HEAP_XMIN_COMMITTED t_xmin)
       (SetHintBits HEAP_XMIN_INVALID InvalidXid ;; ret false)))))).

(** Second part: by here the inserting transaction has committed. *)
Definition dirty_xmax : stmt bool :=
  whens (flag HEAP_XMAX_INVALID) (ret true) ;;
  whens (flag HEAP_XMAX_COMMITTED)
    (whens locked_only (ret true) ;; ret false) ;;
  whens (flag HEAP_XMAX_IS_MULTI)
    (whens locked_only (ret true) ;;
     whens (cur HeapTupleGetUpdateXid) (ret false) ;;
     whens (inprog HeapTupleGetUpdateXid) (snap_xmax HeapTupleGetUpdateXid ;; ret true) ;;
     whens (did HeapTupleGetUpdateXid) (ret false) ;;
     ret true) ;;
  whens (cur t_xmax) (whens locked_only (ret true) ;; ret false) ;;
  whens (inprog t_xmax)
    (whens (no locked_only) (snap_xmax t_xmax) ;; ret true) ;;
  whens (no (did t_xmax)) (SetHintBits HEAP_XMAX_INVALID InvalidXid ;; ret true) ;;
  whens locked_only (SetHintBits HEAP_XMAX_INVALID InvalidXid ;; ret true) ;;
  SetHintBits HEAP_XMAX_COMMITTED t_xmax ;;
  ret false.

Definition HeapTupleSatisfiesDirty : stmt bool :=
  snap_xmax InvalidXid ;; snap_xmin InvalidXid ;; snap_token (fun _ => 0) ;;
  dirty_xmin ;;
  dirty_xmax.

(** ** SnapshotMVCC *)
(** First part: does the snapshot see the insertion? *)
Definition mvcc_xmin (snapshot : Snapshot) : stmt bool :=
  let insnap x := fun t => XidInMVCCSnapshot (x t) snapshot in
  let cmin_ge := fun t => HeapTupleHeaderGetCmin t >=? curcid snapshot in
  let cmax_ge := fun t => HeapTupleHeaderGetCmax t >=? curcid snapshot in
  ifs (no HeapTupleHeaderXminCommitted)
    (whens HeapTupleHeaderXminInvalid (ret false) ;;
     ifs (flag HEAP_MOVED_OFF) (moved_off insnap false)
     (ifs (flag HEAP_MOVED_IN) (moved_in insnap false)
     (ifs (cur t_xmin)
       (whens cmin_ge (ret false) ;;
        whens (flag HEAP_XMAX_INVALID) (ret true) ;;
        whens locked_only (ret true) ;;
        whens (flag HEAP_XMAX_IS_MULTI)
          (ifs (no (cur HeapTupleGetUpdateXid)) (ret true)
          (ifs cmax_ge (ret true) (ret false))) ;;
        whens (no (cur t_xmax)) (SetHintBits HEAP_XMAX_INVALID InvalidXid ;; ret true) ;;
        ifs cmax_ge (ret true) (ret false))
     (ifs (insnap t_xmin) (ret false)
     (ifs (did t_xmin) (SetHintBits HEAP_XMIN_COMMITTED t_xmin)
       (SetHintBits HEAP_XMIN_INVALID InvalidXid ;; ret false))))))
    (whens (fun t => negb (HeapTupleHeaderXminFrozen t) && insnap t_xmin t) (ret false)).

(** Second part: by here it does; does it see a deletion? *)
Definition mvcc_xmax (snapshot : Snapshot) : stmt bool :=
  let insnap x := fun t => XidInMVCCSnapshot (x t) snapshot in
  let cmax_ge := fun t => HeapTupleHeaderGetCmax t >=? curcid snapshot in
  whens (flag HEAP_XMAX_INVALID) (ret true) ;;
  whens locked_only (ret true) ;;
  whens (flag HEAP_XMAX_IS_MULTI)
    (whens (cur HeapTupleGetUpdateXid) (ifs cmax_ge (ret true) (ret false)) ;;
     whens (insnap HeapTupleGetUpdateXid) (ret true) ;;
     whens (did HeapTupleGetUpdateXid) (ret false) ;;
     ret true) ;;
  ifs (no (flag HEAP_XMAX_COMMITTED))
    (whens (cur t_xmax) (ifs cmax_ge (ret true) (ret false)) ;;
     whens (insnap t_xmax) (ret true) ;;
     whens (no (did t_xmax)) (SetHintBits HEAP_XMAX_INVALID InvalidXid ;; ret true) ;;
     SetHintBits HEAP_XMAX_COMMITTED t_xmax)
    (whens (insnap t_xmax) (ret true)) ;;
  ret false.

Definition HeapTupleSatisfiesMVCC (snapshot : Snapshot) : stmt bool :=
  mvcc_xmin snapshot ;;
  mvcc_xmax snapshot.

(** ** Vacuum *)

Inductive HTSV_Result : Set :=
| HEAPTUPLE_DEAD | HEAPTUPLE_LIVE | HEAPTUPLE_RECENTLY_DEAD
| HEAPTUPLE_INSERT_IN_PROGRESS | HEAPTUPLE_DELETE_IN_PROGRESS.

Definition HeapTupleHeaderIsOnlyLocked (t : HeapTupleHeader) : bool :=
  if has HEAP_XMAX_INVALID (t_infomask t) then true
  else if has HEAP_XMAX_LOCK_ONLY (t_infomask t) then true
  else if negb (TransactionIdIsValid (t_xmax t)) then true
  else if negb (has HEAP_XMAX_IS_MULTI (t_infomask t)) then false
  else
    let xmax := HeapTupleGetUpdateXid t in
    if IsCurrent env xmax then false
    else if IsInProgress env xmax then false
    else if DidCommit env xmax then false
    else true.

(** Results come with [*dead_after]. *)
Definition out (r : HTSV_Result) : stmt (HTSV_Result * Z) := ret (r, InvalidTransactionId).
Definition dead_after (x : HeapTupleHeader -> Z) : stmt (HTSV_Result * Z) :=
  fun s => (Some (HEAPTUPLE_RECENTLY_DEAD, x (v_tuple s)), s).

(** First part: has the insertion happened? *)
Definition vacuum_xmin : stmt (HTSV_Result * Z) :=
  whens (no HeapTupleHeaderXminCommitted)
    (ifs HeapTupleHeaderXminInvalid (out HEAPTUPLE_DEAD)
     (ifs (flag HEAP_MOVED_OFF)
       (whens (cur HeapTupleHeaderGetXvac) (out HEAPTUPLE_DELETE_IN_PROGRESS) ;;
        whens (inprog HeapTupleHeaderGetXvac) (out HEAPTUPLE_DELETE_IN_PROGRESS) ;;
        whens (did HeapTupleHeaderGetXvac) (SetHintBits HEAP_XMIN_INVALID InvalidXid ;; out HEAPTUPLE_DEAD) ;;
        SetHintBits HEAP_XMIN_COMMITTED InvalidXid)
     (ifs (flag HEAP_MOVED_IN)
       (whens (cur HeapTupleHeaderGetXvac) (out HEAPTUPLE_INSERT_IN_PROGRESS) ;;
        whens (inprog HeapTupleHeaderGetXvac) (out HEAPTUPLE_INSERT_IN_PROGRESS) ;;
        ifs (did HeapTupleHeaderGetXvac) (SetHintBits HEAP_XMIN_COMMITTED InvalidXid)
          (SetHintBits HEAP_XMIN_INVALID InvalidXid ;; out HEAPTUPLE_DEAD))
     (ifs (cur t_xmin)
       (whens (flag HEAP_XMAX_INVALID) (out HEAPTUPLE_INSERT_IN_PROGRESS) ;;
        whens (fun t => locked_only t || HeapTupleHeaderIsOnlyLocked t)
          (out HEAPTUPLE_INSERT_IN_PROGRESS) ;;
        whens (cur (HeapTupleHeaderGetUpdateXid)) (out HEAPTUPLE_DELETE_IN_PROGRESS) ;;
        out HEAPTUPLE_INSERT_IN_PROGRESS)
     (ifs (inprog t_xmin) (out HEAPTUPLE_INSERT_IN_PROGRESS)
     (ifs (did t_xmin) (SetHintBits HEAP_XMIN_COMMITTED t_xmin)
       (SetHintBits HEAP_XMIN_INVALID InvalidXid ;; out HEAPTUPLE_DEAD))))))).

(** Second part: the inserter has committed; is the tuple deleted? *)
Definition vacuum_xmax : stmt (HTSV_Result * Z) :=
  whens (flag HEAP_XMAX_INVALID) (out HEAPTUPLE_LIVE) ;;
  whens locked_only
    (whens (no (flag HEAP_XMAX_COMMITTED))
       (ifs (flag HEAP_XMAX_IS_MULTI)
          (whens (fun t => negb (HEAP_LOCKED_UPGRADED (t_infomask t)) && running true t)
             (out HEAPTUPLE_LIVE) ;;
           SetHintBits HEAP_XMAX_INVALID InvalidXid)
          (whens (inprog t_xmax) (out HEAPTUPLE_LIVE) ;;
           SetHintBits HEAP_XMAX_INVALID InvalidXid)) ;;
     out HEAPTUPLE_LIVE) ;;
  whens (flag HEAP_XMAX_IS_MULTI)
    (ifs (inprog HeapTupleGetUpdateXid) (out HEAPTUPLE_DELETE_IN_PROGRESS)
     (ifs (did HeapTupleGetUpdateXid) (dead_after HeapTupleGetUpdateXid)
     (whens (no (running false)) (SetHintBits HEAP_XMAX_INVALID InvalidXid))) ;;
     out HEAPTUPLE_LIVE) ;;
  whens (no (flag HEAP_XMAX_COMMITTED))
    (ifs (inprog t_xmax) (out HEAPTUPLE_DELETE_IN_PROGRESS)
     (ifs (did t_xmax) (SetHintBits HEAP_XMAX_COMMITTED t_xmax)
       (SetHintBits HEAP_XMAX_INVALID InvalidXid ;; out HEAPTUPLE_LIVE))) ;;
  dead_after t_xmax.

Definition HeapTupleSatisfiesVacuumHorizon : stmt (HTSV_Result * Z) :=
  vacuum_xmin ;;
  vacuum_xmax.

(** The result of a routine that has run to its end; [d] is never reached. *)
Definition result {R} (d : R) (r : option R * vstate) : R := default d (fst r).

Definition HeapTupleSatisfiesVacuum (OldestXmin : Z) (s : vstate) : HTSV_Result * vstate :=
  let r := HeapTupleSatisfiesVacuumHorizon s in
  let '(res, dead_after) := result (HEAPTUPLE_LIVE, InvalidTransactionId) r in
  match res with
  | HEAPTUPLE_RECENTLY_DEAD =>
      if TransactionIdPrecedes dead_after OldestXmin then (HEAPTUPLE_DEAD, snd r)
      else (HEAPTUPLE_RECENTLY_DEAD, snd r)
  | _ => (res, snd r)
  end.

Definition HeapTupleSatisfiesNonVacuumable (s : vstate) : bool * vstate :=
  let r := HeapTupleSatisfiesVacuumHorizon s in
  let '(res, dead_after) := result (HEAPTUPLE_LIVE, InvalidTransactionId) r in
  match res with
  | HEAPTUPLE_RECENTLY_DEAD => (negb (IsRemovable env dead_after), snd r)
  | HEAPTUPLE_DEAD => (false, snd r)
  | _ => (true, snd r)
  end.

Definition HeapTupleIsSurelyDead (t : HeapTupleHeader) : bool :=
  if negb (HeapTupleHeaderXminCommitted t) then HeapTupleHeaderXminInvalid t
  else if has HEAP_XMAX_INVALID (t_infomask t) then false
  else if HEAP_XMAX_IS_LOCKED_ONLY (t_infomask t) then false
  else if has HEAP_XMAX_IS_MULTI (t_infomask t) then false
  else if negb (has HEAP_XMAX_COMMITTED (t_infomask t)) then false
  else IsRemovable env (t_xmax t).

(** ** Historic snapshots (logical decoding) *)
Definition InvalidCommandId : Z := 0xffffffff.

Definition HeapTupleSatisfiesHistoricMVCC (snapshot : Snapshot) (t : HeapTupleHeader) : bool :=
  let xmin := HeapTupleHeaderGetXmin t in
  let xmax := t_xmax t in
  let xmin_visible :=
    if HeapTupleHeaderXminInvalid t then false
    else if TransactionIdInArray xmin (s_subxip snapshot) then
      match ResolveCids env t with
      | None => false
      | Some (cmin, _) => negb (cmin >=? curcid snapshot)
      end
    else if TransactionIdPrecedes xmin (s_xmin snapshot) then
      negb (negb (HeapTupleHeaderXminCommitted t) && negb (DidCommit env xmin))
    else if TransactionIdFollowsOrEquals xmin (s_xmax snapshot) then false
    else TransactionIdInArray xmin (s_xip snapshot) in
  if negb xmin_visible then false
  else if has HEAP_XMAX_INVALID (t_infomask t) then true
  else if HEAP_XMAX_IS_LOCKED_ONLY (t_infomask t) then true
  else
    let xmax := if has HEAP_XMAX_IS_MULTI (t_infomask t) then HeapTupleGetUpdateXid t
                else xmax in
    if TransactionIdInArray xmax (s_subxip snapshot) then
      match ResolveCids env t with
      | None => true
      | Some (_, cmax) =>
          if cmax =? InvalidCommandId then true else cmax >=? curcid snapshot
      end
    else if TransactionIdPrecedes xmax (s_xmin snapshot) then
      if has HEAP_XMAX_COMMITTED (t_infomask t) then false else negb (DidCommit env xmax)
    else if TransactionIdFollowsOrEquals xmax (s_xmax snapshot) then true
    else negb (TransactionIdInArray xmax (s_xip snapshot)).

(** ** Dispatch *)
Definition of_stmt (p : stmt bool) (s : vstate) : bool * vstate :=
  let r := p s in (result false r, snd r).

Definition HeapTupleSatisfiesVisibility (snapshot : Snapshot) (s : vstate) : bool * vstate :=
  match snapshot_type snapshot with
  | SNAPSHOT_MVCC => of_stmt (HeapTupleSatisfiesMVCC snapshot) s
  | SNAPSHOT_SELF => of_stmt HeapTupleSatisfiesSelf s
  | SNAPSHOT_ANY => of_stmt HeapTupleSatisfiesAny s
  | SNAPSHOT_TOAST => of_stmt HeapTupleSatisfiesToast s
  | SNAPSHOT_DIRTY => of_stmt HeapTupleSatisfiesDirty s
  | SNAPSHOT_HISTORIC_MVCC => (HeapTupleSatisfiesHistoricMVCC snapshot (v_tuple s), s)
  | SNAPSHOT_NON_VACUUMABLE => HeapTupleSatisfiesNonVacuumable s
  end.
End visibility.

Arguments seqs {R} _ _ _ /.
Arguments ifs {R} _ _ _ _ /.
Arguments whens {R} _ _ _ /.
Arguments ret {R} _ _ /.
Arguments skip {R} _ /.
