(* ===== verification/VisibilityRules.v ===== *)
(** How the visibility routines are verified: the infomask bits and the frame
    property that only hint bits change; the state of the transaction system and
    what it means for the hint bits of a tuple to be true; the answers the
    routines should give, none of which looks at a hint bit; and the rules and
    tactics of their symbolic execution. *)

From S2P Require Import Prelude Transam TransamProps HeapVisibility.
Local Open Scope Z_scope.
Local Open Scope pg_scope.

(** ** Infomask bits *)

Lemma has_lor f m h : has f (Z.lor m h) = has f m || has f h.
Proof.
  unfold has. rewrite Z.land_lor_distr_l.
  destruct (Z.eqb_spec (Z.land m f) 0) as [E1|E1], (Z.eqb_spec (Z.land h f) 0) as [E2|E2]; simpl.
  - by rewrite E1, E2.
  - apply negb_true_iff, Z.eqb_neq. rewrite Z.lor_eq_0_iff. tauto.
  - apply negb_true_iff, Z.eqb_neq. rewrite Z.lor_eq_0_iff. tauto.
  - apply negb_true_iff, Z.eqb_neq. rewrite Z.lor_eq_0_iff. tauto.
Qed.

Lemma land_lor_disjoint m h f : Z.land h f = 0 -> Z.land (Z.lor m h) f = Z.land m f.
Proof. intros E. rewrite Z.land_lor_distr_l, E. apply Z.lor_0_r. Qed.

(** A single bit. *)
Lemma has_bit k m : 0 <= k -> has (2 ^ k) m = Z.testbit m k.
Proof.
  intros Hk. unfold has. destruct (Z.testbit m k) eqn:E.
  - apply negb_true_iff, Z.eqb_neq. intros H.
    assert (Z.testbit (Z.land m (2 ^ k)) k = false) by (by rewrite H, Z.testbit_0_l).
    rewrite Z.land_spec, E, Z.pow2_bits_true in * by done. done.
  - apply negb_false_iff, Z.eqb_eq, Z.bits_inj'. intros i Hi.
    rewrite Z.land_spec, Z.testbit_0_l. destruct (decide (i = k)) as [->|Hne].
    + by rewrite E.
    + rewrite Z.pow2_bits_false by lia. by rewrite andb_false_r.
Qed.

(** Evaluate the tests of one constant against another. *)
Ltac has_consts :=
  repeat match goal with
  | |- context [has ?a ?b] =>
      let v := eval vm_compute in (has a b) in
      match v with true => idtac | false => idtac end;
      change (has a b) with v
  end.

(** Two bits: the masks of the xmin macros. *)
Lemma xmin_bits m :
  (Z.land m HEAP_XMIN_FROZEN =? HEAP_XMIN_INVALID)
    = negb (has HEAP_XMIN_COMMITTED m) && has HEAP_XMIN_INVALID m
  /\ (Z.land m HEAP_XMIN_FROZEN =? HEAP_XMIN_FROZEN)
    = has HEAP_XMIN_COMMITTED m && has HEAP_XMIN_INVALID m.
Proof.
  change HEAP_XMIN_COMMITTED with (2 ^ 8). change HEAP_XMIN_INVALID with (2 ^ 9).
  change HEAP_XMIN_FROZEN with (Z.lor (2 ^ 8) (2 ^ 9)).
  rewrite !has_bit by lia.
  assert (Hb : forall y, Z.land m (Z.lor (2 ^ 8) (2 ^ 9)) = y <->
    forall i, 0 <= i -> (Z.testbit m i && ((i =? 8) || (i =? 9))) = Z.testbit y i).
  { intros y. split.
    - intros <- i Hi. rewrite Z.land_spec, Z.lor_spec, !Z.pow2_bits_eqb by lia.
      by rewrite (Z.eqb_sym 8), (Z.eqb_sym 9).
    - intros H. apply Z.bits_inj'. intros i Hi. rewrite <- H by done.
      rewrite Z.land_spec, Z.lor_spec, !Z.pow2_bits_eqb by lia.
      by rewrite (Z.eqb_sym 8), (Z.eqb_sym 9). }
  split; apply eq_bool_prop_intro; rewrite !Is_true_true, Z.eqb_eq, Hb, andb_true_iff,
    ?negb_true_iff; split.
  - intros H. pose proof (H 8 ltac:(lia)) as H8. pose proof (H 9 ltac:(lia)) as H9.
    rewrite !Z.pow2_bits_eqb in H8, H9 by lia.
    cbn -[Z.testbit] in H8, H9. rewrite andb_true_r in H8, H9. by rewrite H8, H9.
  - intros [H8 H9] i Hi. rewrite Z.pow2_bits_eqb by lia.
    destruct (Z.eqb_spec i 8) as [->|N8]; [by rewrite H8|].
    destruct (Z.eqb_spec i 9) as [->|N9]; [by rewrite H9|].
    rewrite andb_false_r. symmetry. apply Z.eqb_neq. lia.
  - intros H. pose proof (H 8 ltac:(lia)) as H8. pose proof (H 9 ltac:(lia)) as H9.
    rewrite !Z.lor_spec, !Z.pow2_bits_eqb in H8, H9 by lia.
    cbn -[Z.testbit] in H8, H9. rewrite andb_true_r in H8, H9. by rewrite H8, H9.
  - intros [H8 H9] i Hi. rewrite Z.lor_spec, !Z.pow2_bits_eqb by lia.
    destruct (Z.eqb_spec i 8) as [->|N8]; [by rewrite H8|].
    destruct (Z.eqb_spec i 9) as [->|N9]; [by rewrite H9|].
    rewrite andb_false_r. symmetry. apply orb_false_iff. split; apply Z.eqb_neq; lia.
Qed.

Lemma XminInvalid_eq t :
  HeapTupleHeaderXminInvalid t
  = negb (HeapTupleHeaderXminCommitted t) && has HEAP_XMIN_INVALID (t_infomask t).
Proof. apply xmin_bits. Qed.

Lemma XminFrozen_eq t :
  HeapTupleHeaderXminFrozen t
  = HeapTupleHeaderXminCommitted t && has HEAP_XMIN_INVALID (t_infomask t).
Proof. apply xmin_bits. Qed.

(** ** Only hint bits change *)

Definition HINT_BITS : Z := 0x0f00.

(** [t'] is [t] with some hint bits added. *)
Definition hint_ext (t t' : HeapTupleHeader) : Prop :=
  exists h, Z.ldiff h HINT_BITS = 0 /\ t' = set_infomask (Z.lor (t_infomask t) h) t.

Lemma hint_ext_refl t : hint_ext t t.
Proof. exists 0. split; [done|]. rewrite Z.lor_0_r. by destruct t. Qed.

Lemma hint_ext_trans t1 t2 t3 : hint_ext t1 t2 -> hint_ext t2 t3 -> hint_ext t1 t3.
Proof.
  intros (h & Hh & ->) (h' & Hh' & ->). exists (Z.lor h h'). split.
  - apply Z.bits_inj'. intros i Hi.
    apply (f_equal (fun z => Z.testbit z i)) in Hh, Hh'.
    rewrite Z.ldiff_spec, Z.lor_spec in *. rewrite Z.testbit_0_l in *.
    destruct (Z.testbit h i), (Z.testbit h' i), (Z.testbit HINT_BITS i); done.
  - simpl. unfold set_infomask; simpl. by rewrite Z.lor_assoc.
Qed.

Section frame.
Context (env : xact_env).

(** A statement that only adds hint bits to the tuple. *)
Definition frames {R} (p : stmt R) : Prop :=
  forall s, hint_ext (v_tuple s) (v_tuple (snd (p s))).

Lemma frames_ret {R} (r : R) : frames (ret r).
Proof. intros s. apply hint_ext_refl. Qed.

Lemma frames_skip {R} : frames (@skip R).
Proof. intros s. apply hint_ext_refl. Qed.

Lemma frames_seqs {R} (p q : stmt R) : frames p -> frames q -> frames (p ;; q).
Proof.
  intros Hp Hq s. specialize (Hp s). unfold seqs.
  destruct (p s) as [[r|] s']; simpl in *; [done|].
  eapply hint_ext_trans; [exact Hp|apply Hq].
Qed.

Lemma frames_ifs {R} c (p q : stmt R) : frames p -> frames q -> frames (ifs c p q).
Proof. intros Hp Hq s. unfold ifs. destruct (c _); auto. Qed.

Lemma frames_whens {R} c (p : stmt R) : frames p -> frames (whens c p).
Proof. intros Hp. apply frames_ifs; [done|apply frames_skip]. Qed.

Lemma frames_SetHintBits {R} f x :
  Z.ldiff f HINT_BITS = 0 -> frames (@SetHintBits env R f x).
Proof.
  intros Hf s. unfold SetHintBits. case_match; simpl; [apply hint_ext_refl|]. by exists f.
Qed.

Lemma frames_snap {R} (x : HeapTupleHeader -> Z) :
  frames (@snap_xmin R x) /\ frames (@snap_xmax R x) /\ frames (@snap_token R x).
Proof. repeat split; intros s; apply hint_ext_refl. Qed.

Ltac frame :=
  repeat first
    [ apply frames_ret | apply frames_skip | apply frames_seqs | apply frames_whens
    | apply frames_ifs | apply frames_SetHintBits; reflexivity
    | apply frames_snap ].

Lemma routines_frame (self : ItemPointer) (cid : Z) (snap : Snapshot) :
  frames (HeapTupleSatisfiesSelf env) /\ frames (HeapTupleSatisfiesToast env)
  /\ frames (HeapTupleSatisfiesUpdate env self cid) /\ frames (HeapTupleSatisfiesDirty env)
  /\ frames (HeapTupleSatisfiesMVCC env snap) /\ frames (HeapTupleSatisfiesVacuumHorizon env).
Proof.
  unfold HeapTupleSatisfiesSelf, HeapTupleSatisfiesToast, HeapTupleSatisfiesUpdate,
    HeapTupleSatisfiesDirty, HeapTupleSatisfiesMVCC, HeapTupleSatisfiesVacuumHorizon,
    self_xmin, self_xmax, update_xmin, update_xmax, dirty_xmin, dirty_xmax, mvcc_xmin,
    mvcc_xmax, vacuum_xmin, vacuum_xmax, out,
    moved_off, moved_in, updated_or_deleted, self_or_invisible.
  split_and!; frame; intros s; apply hint_ext_refl.
Qed.
End frame.

(** ** The state of the transaction system

    Each transaction is the caller's own, another one's still running, committed
    or aborted; [env_ok] says that the questions the routines ask are answered
    accordingly.  The invalid identifier counts as aborted. *)
Inductive xstat : Set := Mine | Running | Committed | Aborted.

#[global] Instance xstat_eq_dec : EqDecision xstat.
Proof. solve_decision. Defined.

Class env_ok (env : xact_env) (st : Z -> xstat) : Prop := {
  env_current x : IsCurrent env x = match st x with Mine => true | _ => false end;
  env_inprogress x :
    IsInProgress env x = match st x with Mine | Running => true | _ => false end;
  env_commit x : DidCommit env x = match st x with Committed => true | _ => false end;
  env_invalid : st InvalidTransactionId = Aborted;
  (* the invalid multixact has no members *)
  env_no_members : Members env false InvalidTransactionId = []
}.

(** A snapshot of this state treats every running transaction as running. *)
Definition snapshot_ok (env : xact_env) (st : Z -> xstat) (snap : Snapshot) : Prop :=
  forall x, st x = Running -> XidInMVCCSnapshot env x snap = true.

Section specification.
Context (env : xact_env) (st : Z -> xstat).
Implicit Types t : HeapTupleHeader.

(** The transaction that deleted or updated the tuple, whatever became of it; a
    locker has not. *)
Definition deleter t : option Z :=
  if HEAP_XMAX_IS_LOCKED_ONLY (t_infomask t) then None
  else Some (if has HEAP_XMAX_IS_MULTI (t_infomask t) then HeapTupleGetUpdateXid env t
             else t_xmax t).

Definition unmoved t : Prop := has HEAP_MOVED (t_infomask t) = false.

(** The hint bits of a tuple say nothing false. *)
Record hints_true t : Prop := {
  ht_xmin_committed : HeapTupleHeaderXminCommitted t = true ->
    has HEAP_XMIN_INVALID (t_infomask t) = false -> st (t_xmin t) = Committed;
  ht_xmin_invalid : HeapTupleHeaderXminCommitted t = false ->
    has HEAP_XMIN_INVALID (t_infomask t) = true -> st (t_xmin t) = Aborted;
  ht_xmax_committed : has HEAP_XMAX_COMMITTED (t_infomask t) = true ->
    forall x, deleter t = Some x ->
      has HEAP_XMAX_IS_MULTI (t_infomask t) = false /\ st x = Committed;
  ht_xmax_invalid : has HEAP_XMAX_INVALID (t_infomask t) = true ->
    forall x, deleter t = Some x -> st x = Aborted
}.

(** Only the inserter can have deleted a tuple that is not committed yet. *)
Definition own_deleter t : Prop :=
  HeapTupleHeaderXminFrozen t = false -> st (t_xmin t) = Mine ->
  forall x, deleter t = Some x -> st x = Mine \/ st x = Aborted.

(** ** Adding a true hint bit *)

Inductive is_hint : Z -> Prop :=
| hint_xmin_committed : is_hint HEAP_XMIN_COMMITTED
| hint_xmin_invalid : is_hint HEAP_XMIN_INVALID
| hint_xmax_committed : is_hint HEAP_XMAX_COMMITTED
| hint_xmax_invalid : is_hint HEAP_XMAX_INVALID.

(** When a hint may be set. *)
Definition hint_true (f : Z) t : Prop :=
  (f = HEAP_XMIN_COMMITTED ->
     has HEAP_XMIN_INVALID (t_infomask t) = false /\ st (t_xmin t) = Committed)
  /\ (f = HEAP_XMIN_INVALID ->
     HeapTupleHeaderXminCommitted t = false /\ st (t_xmin t) = Aborted)
  /\ (f = HEAP_XMAX_COMMITTED ->
     has HEAP_XMAX_IS_MULTI (t_infomask t) = false /\ st (t_xmax t) = Committed)
  /\ (f = HEAP_XMAX_INVALID -> forall x, deleter t = Some x -> st x = Aborted).

(** ** Running a routine

    [outcome t P r]: the routine, called on the tuple [t], has returned, its
    result and final state satisfy [P], the tuple's hint bits are still true, and
    it is frozen just if it was before. *)
Definition outcome {R} t (P : R -> vstate -> Prop) (r : option R * vstate) : Prop :=
  match r with
  | (Some x, s') =>
      P x s' /\ hints_true (v_tuple s')
      /\ HeapTupleHeaderXminFrozen (v_tuple s') = HeapTupleHeaderXminFrozen t
  | (None, _) => False
  end.

(** What an MVCC snapshot should see.  Neither function looks at a hint bit. *)
Definition inserted (snap : Snapshot) t : bool :=
  HeapTupleHeaderXminFrozen t
  || match st (t_xmin t) with
     | Mine => HeapTupleHeaderGetCmin env t <? curcid snap
     | Committed => negb (XidInMVCCSnapshot env (t_xmin t) snap)
     | _ => false
     end.

Definition deleted (snap : Snapshot) t : bool :=
  match deleter t with
  | None => false
  | Some x =>
      match st x with
      | Mine => HeapTupleHeaderGetCmax env t <? curcid snap
      | Committed => negb (XidInMVCCSnapshot env x snap)
      | _ => false
      end
  end.

Definition visible (snap : Snapshot) t : bool := inserted snap t && negb (deleted snap t).

(** ** The state of a tuple now, without a snapshot *)

(** The inserter, a frozen one counting as committed. *)
Definition inserter_state t : xstat :=
  if HeapTupleHeaderXminFrozen t then Committed else st (t_xmin t).

(** The deleter; none counts as aborted. *)
Definition deleter_state t : xstat :=
  match deleter t with None => Aborted | Some x => st x end.

(** [HeapTupleSatisfiesSelf]: inserted, by whomever it is final or by ourselves,
    and not deleted likewise. *)
Definition visible_now t : bool :=
  match inserter_state t with
  | Mine | Committed =>
      match deleter_state t with Mine | Committed => false | _ => true end
  | _ => false
  end.

(** [HeapTupleSatisfiesDirty]: in-progress insertions count, too. *)
Definition visible_dirty t : bool :=
  match inserter_state t with
  | Aborted => false
  | Running => true
  | _ => match deleter_state t with Mine | Committed => false | _ => true end
  end.

(** [HeapTupleSatisfiesVacuumHorizon] *)
Definition vacuum_state t : HTSV_Result * Z :=
  match inserter_state t with
  | Aborted => (HEAPTUPLE_DEAD, InvalidTransactionId)
  | Running => (HEAPTUPLE_INSERT_IN_PROGRESS, InvalidTransactionId)
  | Mine =>
      match deleter_state t with
      | Mine => (HEAPTUPLE_DELETE_IN_PROGRESS, InvalidTransactionId)
      | _ => (HEAPTUPLE_INSERT_IN_PROGRESS, InvalidTransactionId)
      end
  | Committed =>
      match deleter_state t with
      | Aborted => (HEAPTUPLE_LIVE, InvalidTransactionId)
      | Committed => (HEAPTUPLE_RECENTLY_DEAD, default InvalidTransactionId (deleter t))
      | _ => (HEAPTUPLE_DELETE_IN_PROGRESS, InvalidTransactionId)
      end
  end.

(** What the second part of the vacuum test answers. *)
Definition vacuum_deleted t : HTSV_Result * Z :=
  match deleter_state t with
  | Aborted => (HEAPTUPLE_LIVE, InvalidTransactionId)
  | Committed => (HEAPTUPLE_RECENTLY_DEAD, default InvalidTransactionId (deleter t))
  | _ => (HEAPTUPLE_DELETE_IN_PROGRESS, InvalidTransactionId)
  end.

(** ** Dirty snapshots *)

(** What [HeapTupleSatisfiesDirty] leaves in the caller's snapshot: the running
    inserter with its speculative token, or the running deleter. *)
Definition dirty_outputs t (s' : vstate) : Prop :=
  v_xmin s' = match inserter_state t with Running => t_xmin t | _ => InvalidTransactionId end
  /\ v_token s' = match inserter_state t with
                  | Running => if HeapTupleHeaderIsSpeculative t
                               then HeapTupleHeaderGetSpeculativeToken t else 0
                  | _ => 0
                  end
  /\ v_xmax s' = match inserter_state t, deleter_state t with
                 | Committed, Running => default InvalidTransactionId (deleter t)
                 | _, _ => InvalidTransactionId
                 end.
End specification.

Section rules.
Context {env : xact_env} {st : Z -> xstat} {HE : env_ok env st}.
Implicit Types t : HeapTupleHeader.

(** A hint bit leaves everything but itself as it was. *)
Lemma hint_moved f t : Z.land f HEAP_MOVED = 0 ->
  has HEAP_MOVED (Z.lor (t_infomask t) f) = has HEAP_MOVED (t_infomask t).
Proof. intros E. unfold has. by rewrite land_lor_disjoint. Qed.

Lemma hint_locked_only m f :
  Z.land f (Z.lor HEAP_XMAX_LOCK_ONLY (Z.lor HEAP_XMAX_IS_MULTI HEAP_LOCK_MASK)) = 0 ->
  HEAP_XMAX_IS_LOCKED_ONLY (Z.lor m f) = HEAP_XMAX_IS_LOCKED_ONLY m.
Proof.
  rewrite Z.land_lor_distr_r, Z.lor_eq_0_iff. intros [E1 E2].
  unfold HEAP_XMAX_IS_LOCKED_ONLY, has. by rewrite !land_lor_disjoint.
Qed.

Lemma moved_off_in m :
  has HEAP_MOVED m = false -> has HEAP_MOVED_OFF m = false /\ has HEAP_MOVED_IN m = false.
Proof.
  unfold has, HEAP_MOVED. rewrite Z.land_lor_distr_r. intros E.
  apply negb_false_iff, Z.eqb_eq, Z.lor_eq_0_iff in E as [-> ->]. done.
Qed.

Lemma hint_lock f m : is_hint f -> HEAP_XMAX_IS_LOCKED_ONLY (Z.lor m f) = HEAP_XMAX_IS_LOCKED_ONLY m.
Proof. intros []; by apply hint_locked_only. Qed.

Lemma hint_multi f m : is_hint f -> has HEAP_XMAX_IS_MULTI (Z.lor m f) = has HEAP_XMAX_IS_MULTI m.
Proof. intros []; rewrite has_lor; apply orb_false_r. Qed.

Lemma hint_combocid f m : is_hint f -> has HEAP_COMBOCID (Z.lor m f) = has HEAP_COMBOCID m.
Proof. intros []; rewrite has_lor; apply orb_false_r. Qed.

Lemma hint_deleter f t : is_hint f -> deleter env (set_infomask (Z.lor (t_infomask t) f) t) = deleter env t.
Proof. intros Hf. unfold deleter; simpl. by rewrite hint_lock, hint_multi. Qed.

Lemma hints_true_add f t :
  is_hint f -> hints_true env st t -> hint_true env st f t ->
  hints_true env st (set_infomask (Z.lor (t_infomask t) f) t).
Proof.
  intros Hf [H1 H2 H3 H4] (C1 & C2 & C3 & C4).
  assert (Hd := hint_deleter f t Hf).
  unfold HeapTupleHeaderXminCommitted in *.
  split; simpl; unfold HeapTupleHeaderXminCommitted; simpl;
    rewrite ?Hd, ?hint_multi, ?has_lor by done; destruct Hf; has_consts;
    rewrite ?orb_true_r, ?orb_false_r; try assumption; try done.
  - intros _ _. by apply C1.
  - intros _ _. by apply C2.
  - intros _ x Ex. destruct (C3 eq_refl) as [Em Es]. split; [done|].
    unfold deleter in Ex. rewrite Em in Ex. by destruct (HEAP_XMAX_IS_LOCKED_ONLY _);
      simplify_eq.
  - intros _. by apply C4.
Qed.

Lemma outcome_ret {R} t (P : R -> vstate -> Prop) r s :
  P r s -> hints_true env st (v_tuple s) ->
  HeapTupleHeaderXminFrozen (v_tuple s) = HeapTupleHeaderXminFrozen t ->
  outcome env st t P (ret r s).
Proof. done. Qed.

Lemma outcome_ifs {R} t (P : R -> vstate -> Prop) c (p q : stmt R) s :
  (c (v_tuple s) = true -> outcome env st t P (p s)) -> (c (v_tuple s) = false -> outcome env st t P (q s)) ->
  outcome env st t P (ifs c p q s).
Proof. unfold ifs. destruct (c (v_tuple s)); auto. Qed.

Lemma seqs_assoc {R} (p q r : stmt R) s : ((p ;; q) ;; r) s = (p ;; q ;; r) s.
Proof. unfold seqs. by destruct (p s) as [[?|] ?]. Qed.

Lemma seqs_ret {R} (x : R) (q : stmt R) s : (ret x ;; q) s = ret x s.
Proof. done. Qed.

Lemma seqs_skip {R} (q : stmt R) s : (skip ;; q) s = q s.
Proof. done. Qed.

Lemma seqs_ifs {R} c (p1 p2 q : stmt R) s :
  (ifs c p1 p2 ;; q) s = ifs c (p1 ;; q) (p2 ;; q) s.
Proof. unfold seqs, ifs. by destruct (c (v_tuple s)). Qed.

(** A true hint neither freezes nor thaws. *)
Lemma hint_frozen f t :
  is_hint f -> hint_true env st f t ->
  HeapTupleHeaderXminFrozen (set_infomask (Z.lor (t_infomask t) f) t)
  = HeapTupleHeaderXminFrozen t.
Proof.
  intros Hf (C1 & C2 & _). unfold HeapTupleHeaderXminCommitted in *.
  rewrite !XminFrozen_eq. unfold HeapTupleHeaderXminCommitted. simpl. rewrite !has_lor.
  destruct Hf; has_consts; rewrite ?orb_false_r; [|..|done|done].
  - destruct (C1 eq_refl) as [-> _]. by rewrite !andb_false_r.
  - destruct (C2 eq_refl) as [-> _]. done.
Qed.

(** A hint that may be set, set or not: what follows runs on a tuple that
    differs in that bit only. *)
Lemma outcome_hint {R} t (P : R -> vstate -> Prop) f x (q : stmt R) s :
  is_hint f -> hints_true env st (v_tuple s) -> hint_true env st f (v_tuple s) ->
  (forall s', hints_true env st (v_tuple s') ->
     (v_tuple s' = v_tuple s \/
      v_tuple s' = set_infomask (Z.lor (t_infomask (v_tuple s)) f) (v_tuple s)) ->
     (v_xmin s' = v_xmin s /\ v_xmax s' = v_xmax s /\ v_token s' = v_token s) ->
     HeapTupleHeaderXminFrozen (v_tuple s') = HeapTupleHeaderXminFrozen (v_tuple s) ->
     outcome env st t P (q s')) ->
  outcome env st t P ((SetHintBits env f x ;; q) s).
Proof.
  intros Hf Ht Hc Hq. unfold seqs, SetHintBits. destruct (_ && _).
  - apply Hq; auto.
  - apply Hq; simpl; [by apply hints_true_add|by right|done|by apply hint_frozen].
Qed.

(** The facts about one tuple that decide every path. *)
Lemma tuple_facts t :
  hints_true env st t ->
  (HEAP_XMAX_IS_LOCKED_ONLY (t_infomask t) = false ->
     has HEAP_XMAX_INVALID (t_infomask t) = true ->
     (if has HEAP_XMAX_IS_MULTI (t_infomask t) then st (HeapTupleGetUpdateXid env t)
      else st (t_xmax t)) = Aborted)
  /\ (HEAP_XMAX_IS_LOCKED_ONLY (t_infomask t) = false ->
     has HEAP_XMAX_COMMITTED (t_infomask t) = true ->
     has HEAP_XMAX_IS_MULTI (t_infomask t) = false /\ st (t_xmax t) = Committed).
Proof.
  intros [_ _ H3 H4]. unfold deleter in *.
  split; intros El Eh; rewrite El in *.
  - rewrite <- (H4 Eh _ eq_refl). by destruct (has HEAP_XMAX_IS_MULTI _).
  - destruct (H3 Eh _ eq_refl) as [Em Es]. by rewrite Em in Es.
Qed.

Lemma hint_deleted snap f t :
  is_hint f -> deleted env st snap (set_infomask (Z.lor (t_infomask t) f) t) = deleted env st snap t.
Proof.
  intros Hf. unfold deleted. rewrite hint_deleter by done.
  unfold HeapTupleHeaderGetCmax; simpl. by rewrite hint_combocid.
Qed.

Lemma outcome_mono {R} t t' (P Q : R -> vstate -> Prop) r :
  HeapTupleHeaderXminFrozen t = HeapTupleHeaderXminFrozen t' ->
  (forall x s, P x s -> Q x s) -> outcome env st t P r -> outcome env st t' Q r.
Proof.
  intros E H. destruct r as [[x|] s]; simpl; [|done]. rewrite E. intros (HP & Ht & Ef). auto.
Qed.

(** The facts about the xmin side. *)
Lemma xmin_facts t :
  hints_true env st t -> unmoved t -> own_deleter env st t ->
  (has HEAP_XMIN_COMMITTED (t_infomask t) = true ->
     has HEAP_XMIN_INVALID (t_infomask t) = false -> st (t_xmin t) = Committed)
  /\ (has HEAP_XMIN_COMMITTED (t_infomask t) = false ->
     has HEAP_XMIN_INVALID (t_infomask t) = true -> st (t_xmin t) = Aborted)
  /\ has HEAP_MOVED_OFF (t_infomask t) = false /\ has HEAP_MOVED_IN (t_infomask t) = false
  /\ (has HEAP_XMIN_COMMITTED (t_infomask t) && has HEAP_XMIN_INVALID (t_infomask t) = false ->
     st (t_xmin t) = Mine -> HEAP_XMAX_IS_LOCKED_ONLY (t_infomask t) = false ->
     (if has HEAP_XMAX_IS_MULTI (t_infomask t) then st (HeapTupleGetUpdateXid env t)
      else st (t_xmax t)) = Mine
     \/ (if has HEAP_XMAX_IS_MULTI (t_infomask t) then st (HeapTupleGetUpdateXid env t)
      else st (t_xmax t)) = Aborted).
Proof.
  intros Ht Hu Ho. destruct (moved_off_in _ Hu) as [M1 M2].
  split; [apply Ht|]. split; [apply Ht|]. split; [done|]. split; [done|].
  intros Ef Em El. unfold own_deleter, deleter in Ho. rewrite XminFrozen_eq in Ho.
  rewrite El in Ho. specialize (Ho Ef Em _ eq_refl).
  by destruct (has HEAP_XMAX_IS_MULTI _).
Qed.

Lemma hint_deleter_state f t :
  is_hint f -> deleter_state env st (set_infomask (Z.lor (t_infomask t) f) t) = deleter_state env st t.
Proof. intros Hf. unfold deleter_state. by rewrite hint_deleter. Qed.

(** Without the invalid bit and the lock, only an aborted updater is left. *)
Lemma only_locked_state t :
  HEAP_XMAX_IS_LOCKED_ONLY (t_infomask t) = false ->
  has HEAP_XMAX_INVALID (t_infomask t) = false ->
  (HeapTupleHeaderIsOnlyLocked env t = true ->
   (if has HEAP_XMAX_IS_MULTI (t_infomask t) then st (HeapTupleGetUpdateXid env t)
    else st (t_xmax t)) = Aborted)
  /\ st (HeapTupleHeaderGetUpdateXid env t) =
     (if has HEAP_XMAX_IS_MULTI (t_infomask t) then st (HeapTupleGetUpdateXid env t)
      else st (t_xmax t)).
Proof.
  intros El Ei.
  assert (Elo : has HEAP_XMAX_LOCK_ONLY (t_infomask t) = false)
    by (unfold HEAP_XMAX_IS_LOCKED_ONLY in El; by apply orb_false_iff in El as [-> _]).
  unfold HeapTupleHeaderIsOnlyLocked, HeapTupleHeaderGetUpdateXid.
  rewrite Ei, Elo. simpl. rewrite andb_true_r. split; [|by destruct (has HEAP_XMAX_IS_MULTI _)].
  unfold TransactionIdIsValid.
  destruct (Z.eqb_spec (t_xmax t) InvalidTransactionId) as [E0|_]; simpl.
  - intros _. unfold HeapTupleGetUpdateXid. rewrite E0.
    destruct (has HEAP_XMAX_IS_MULTI _); [|apply env_invalid].
    unfold MultiXactIdGetUpdateXid. rewrite env_no_members. apply env_invalid.
  - destruct (has HEAP_XMAX_IS_MULTI _); simpl; [|done].
    rewrite env_current, env_inprogress, env_commit.
    by destruct (st (HeapTupleGetUpdateXid env t)).
Qed.

Lemma outcome_dead_after t (P : HTSV_Result * Z -> vstate -> Prop) x s :
  P (HEAPTUPLE_RECENTLY_DEAD, x (v_tuple s)) s -> hints_true env st (v_tuple s) ->
  HeapTupleHeaderXminFrozen (v_tuple s) = HeapTupleHeaderXminFrozen t ->
  outcome env st t P (dead_after x s).
Proof. done. Qed.

Lemma seqs_dead_after x (q : stmt (HTSV_Result * Z)) s : (dead_after x ;; q) s = dead_after x s.
Proof. done. Qed.

Lemma seqs_snap_xmin {R} x (q : stmt R) s :
  (snap_xmin x ;; q) s
  = q (mk_vstate (v_tuple s) (v_dirty s) (x (v_tuple s)) (v_xmax s) (v_token s)).
Proof. done. Qed.

Lemma seqs_snap_xmax {R} x (q : stmt R) s :
  (snap_xmax x ;; q) s
  = q (mk_vstate (v_tuple s) (v_dirty s) (v_xmin s) (x (v_tuple s)) (v_token s)).
Proof. done. Qed.

Lemma seqs_snap_token {R} x (q : stmt R) s :
  (snap_token x ;; q) s
  = q (mk_vstate (v_tuple s) (v_dirty s) (v_xmin s) (v_xmax s) (x (v_tuple s))).
Proof. done. Qed.

(** The commit hint of an unfrozen tuple does not freeze it. *)
Lemma hint_inserter_state t :
  has HEAP_XMIN_INVALID (t_infomask t) = false ->
  inserter_state st (set_infomask (Z.lor (t_infomask t) HEAP_XMIN_COMMITTED) t) = inserter_state st t.
Proof.
  intros E. unfold inserter_state. rewrite !XminFrozen_eq. simpl.
  rewrite has_lor, E. has_consts. by rewrite !andb_false_r.
Qed.
End rules.

(** ** Tactics *)

(** Symbolic execution: open the first statement, split on its condition. *)
Ltac vis :=
  repeat first
    [ rewrite seqs_assoc | rewrite seqs_ret | rewrite seqs_skip | rewrite seqs_ifs
    | unfold whens at 1
    | match goal with |- outcome _ _ _ _ (ifs _ _ _ _) => apply outcome_ifs; intros ? end ].

(** Close a path: the conditions met on it, the true hints and the state of the
    transactions involved give the result.  The tests are first made variables,
    so that only booleans and states are left to analyse. *)
Ltac spec_refl :=
  repeat match goal with
  | H : ?a = ?a -> _ |- _ => specialize (H eq_refl)
  | H : _ /\ _ |- _ => destruct H
  | H : _ \/ _ |- _ => destruct H
  end.

Ltac crush :=
  repeat (simplify_eq/=; spec_refl;
    match goal with
    | |- context [match ?x with _ => _ end] => is_var x; destruct x
    | H : context [match ?x with _ => _ end] |- _ => is_var x; destruct x
    | H : ?x = _ -> _ |- _ => is_var x; destruct x
    end);
  simplify_eq/=; spec_refl; try congruence; auto.

Ltac path_in env st t :=
  unfold flag, no, cur, inprog, did, running, valid, locked_only, negb in *;
  rewrite ?env_current, ?env_inprogress, ?env_commit in *;
  rewrite ?Z.geb_leb, ?Z.ltb_antisym, ?XminInvalid_eq, ?XminFrozen_eq in *;
  unfold HeapTupleHeaderXminCommitted in *;
  repeat match goal with
  | H : hints_true _ _ _ |- _ => clear H
  | H : snapshot_ok _ _ _ |- _ => clear H
  | H : unmoved _ |- _ => clear H
  end;
  repeat match goal with H : ?P |- _ => match P with context [t] => revert H end end;
  destruct (HEAP_XMAX_IS_LOCKED_ONLY (t_infomask t)),
    (has HEAP_XMAX_IS_MULTI (t_infomask t)); cbv iota;
  repeat match goal with
  | |- context [HEAP_XMAX_IS_LOCKED_ONLY ?m] => generalize (HEAP_XMAX_IS_LOCKED_ONLY m)
  | |- context [has ?f ?m] => generalize (has f m)
  | |- context [st ?x] => generalize (st x)
  | |- context [XidInMVCCSnapshot env ?x ?y] => generalize (XidInMVCCSnapshot env x y)
  | |- context [?x <=? ?y] => generalize (x <=? y)
  | |- context [MultiXactIdIsRunning env ?x ?y] => generalize (MultiXactIdIsRunning env x y)
  | |- context [TransactionIdIsValid ?x] => generalize (TransactionIdIsValid x)
  | |- context [ItemPointerEquals ?x ?y] => generalize (ItemPointerEquals x y)
  | |- context [HEAP_LOCKED_UPGRADED ?x] => generalize (HEAP_LOCKED_UPGRADED x)
  | |- context [HeapTupleHeaderIsOnlyLocked env ?x] => generalize (HeapTupleHeaderIsOnlyLocked env x)
  end;
  intros; crush.

Ltac some_deleter :=
  match goal with
  | E : (if ?b then None else Some _) = Some _ |- _ =>
      destruct b eqn:?; [discriminate E|injection E as <-]
  end.

Ltac path t := match goal with HE : env_ok ?env ?st |- _ => path_in env st t end.

(** [ret]: the result is right; [SetHintBits]: the hint is true. *)
Ltac vret t :=
  apply outcome_ret;
  [unfold visible, inserted, deleted, deleter; path t|assumption|assumption || reflexivity].
Ltac vhint t :=
  apply outcome_hint; [once constructor|assumption
    |unfold hint_true, deleter; split_and!; intros E; try discriminate E;
     clear E; try (intros ? ?; some_deleter); split_and?; path t
    |intros ? ? ? ? ?; rewrite ?seqs_ret].

Ltac vnow t :=
  apply outcome_ret;
  [unfold visible_now, visible_dirty, vacuum_state, inserter_state, deleter_state, deleter; path t
  |assumption|assumption || reflexivity].

Ltac vvac t :=
  rewrite ?seqs_dead_after; first [apply outcome_dead_after | apply outcome_ret];
  [unfold vacuum_state, vacuum_deleted, inserter_state, deleter_state, deleter; path t
  |assumption|assumption || reflexivity].

Ltac vdirty t :=
  rewrite ?seqs_snap_token, ?seqs_snap_xmin, ?seqs_snap_xmax, ?seqs_ret;
  apply outcome_ret; [|assumption|assumption || reflexivity];
  unfold dirty_outputs; cbn [v_tuple v_xmin v_xmax v_token];
  repeat match goal with
  | H : v_xmin ?s' = _ |- context [v_xmin ?s'] => rewrite H
  | H : v_xmax ?s' = _ |- context [v_xmax ?s'] => rewrite H
  | H : v_token ?s' = _ |- context [v_token ?s'] => rewrite H
  | H : v_xmin ?s' = _ /\ _ |- _ => destruct H as (? & ? & ?)
  | H : HeapTupleHeaderIsSpeculative ?t' = _ |- context [HeapTupleHeaderIsSpeculative ?t'] => rewrite H
  end;
  split_and!; unfold visible_dirty, inserter_state, deleter_state, deleter; path t.
