(* ===== verification/HeapVisibilityProps.v ===== *)
(** The answers of the visibility routines: each gives the answer its snapshot type calls for,
    whatever hint bits are set, and leaves the hint bits true; the update test. *)

From S2P Require Import Prelude Transam TransamProps HeapVisibility VisibilityRules.
Local Open Scope Z_scope.
Local Open Scope pg_scope.

Section answers.
Context {env : xact_env} {st : Z -> xstat} {HE : env_ok env st}.
Implicit Types t : HeapTupleHeader.

Lemma mvcc_xmax_spec snap s :
  hints_true env st (v_tuple s) -> snapshot_ok env st snap ->
  outcome env st (v_tuple s) (fun b _ => b = negb (deleted env st snap (v_tuple s))) (mvcc_xmax env snap s).
Proof.
  intros Ht Hs. unfold mvcc_xmax. vis.
  all: destruct (tuple_facts (v_tuple s) Ht) as [F1 F2].
  all: pose proof (Hs (t_xmax (v_tuple s))) as S1.
  all: pose proof (Hs (HeapTupleGetUpdateXid env (v_tuple s))) as S2.
  all: try vret (v_tuple s).
  all: vhint (v_tuple s); vret (v_tuple s).
Qed.

Lemma mvcc_rest snap f t s' :
  is_hint f -> hints_true env st (v_tuple s') -> snapshot_ok env st snap ->
  v_tuple s' = t \/ v_tuple s' = set_infomask (Z.lor (t_infomask t) f) t ->
  HeapTupleHeaderXminFrozen (v_tuple s') = HeapTupleHeaderXminFrozen t ->
  inserted env st snap t = true ->
  outcome env st t (fun b _ => b = visible env st snap t) (mvcc_xmax env snap s').
Proof.
  intros Hf Ht Hs Et Ef Hi. eapply outcome_mono; [exact Ef| |by apply mvcc_xmax_spec].
  intros b ? ->. unfold visible. rewrite Hi. simpl. f_equal.
  destruct Et as [->| ->]; [done|by apply hint_deleted].
Qed.

Lemma mvcc_spec snap s :
  hints_true env st (v_tuple s) -> unmoved (v_tuple s) -> own_deleter env st (v_tuple s) ->
  snapshot_ok env st snap ->
  outcome env st (v_tuple s) (fun b _ => b = visible env st snap (v_tuple s)) (HeapTupleSatisfiesMVCC env snap s).
Proof.
  intros Ht Hu Ho Hs. unfold HeapTupleSatisfiesMVCC, mvcc_xmin. vis.
  all: destruct (tuple_facts (v_tuple s) Ht) as [F1 F2].
  all: destruct (xmin_facts (v_tuple s) Ht Hu Ho) as (X1 & X2 & M1 & M2 & O1).
  all: pose proof (Hs (t_xmin (v_tuple s))) as S0.
  all: try (unfold flag in *; congruence).
  all: try vret (v_tuple s).
  - vhint (v_tuple s). vret (v_tuple s).
  - vhint (v_tuple s). apply (mvcc_rest _ HEAP_XMIN_COMMITTED); [constructor|done|done|done|done|].
    unfold inserted. path (v_tuple s).
  - vhint (v_tuple s). vret (v_tuple s).
  - apply (mvcc_rest _ HEAP_XMIN_COMMITTED); [constructor|done|done|by left|done|].
    unfold inserted. path (v_tuple s).
Qed.

Lemma self_xmax_spec s :
  hints_true env st (v_tuple s) ->
  outcome env st (v_tuple s) (fun b _ => b = match deleter_state env st (v_tuple s) with Mine | Committed => false | _ => true end)
    (self_xmax env s).
Proof.
  intros Ht. unfold self_xmax. vis.
  all: destruct (tuple_facts (v_tuple s) Ht) as [F1 F2].
  all: try vnow (v_tuple s).
  all: vhint (v_tuple s); vnow (v_tuple s).
Qed.

Lemma self_spec s :
  hints_true env st (v_tuple s) -> unmoved (v_tuple s) -> own_deleter env st (v_tuple s) ->
  outcome env st (v_tuple s) (fun b _ => b = visible_now env st (v_tuple s)) (HeapTupleSatisfiesSelf env s).
Proof.
  intros Ht Hu Ho. unfold HeapTupleSatisfiesSelf, self_xmin.
  assert (Hrest : forall s', hints_true env st (v_tuple s') ->
    v_tuple s' = v_tuple s \/
    v_tuple s' = set_infomask (Z.lor (t_infomask (v_tuple s)) HEAP_XMIN_COMMITTED) (v_tuple s) ->
    HeapTupleHeaderXminFrozen (v_tuple s') = HeapTupleHeaderXminFrozen (v_tuple s) ->
    inserter_state st (v_tuple s) = Committed ->
    outcome env st (v_tuple s) (fun b _ => b = visible_now env st (v_tuple s)) (self_xmax env s')).
  { intros s' Ht' Et Ef Hi. eapply outcome_mono; [exact Ef| |by apply self_xmax_spec].
    intros b ? ->. unfold visible_now. rewrite Hi.
    destruct Et as [->| ->]; [done|]. by rewrite hint_deleter_state by constructor. }
  vis.
  all: destruct (tuple_facts (v_tuple s) Ht) as [F1 F2].
  all: destruct (xmin_facts (v_tuple s) Ht Hu Ho) as (X1 & X2 & M1 & M2 & O1).
  all: try (unfold flag in *; congruence).
  all: try vnow (v_tuple s).
  - vhint (v_tuple s). vnow (v_tuple s).
  - vhint (v_tuple s). apply Hrest; [done|done|done|].
    clear Hrest. unfold inserter_state. path (v_tuple s).
  - vhint (v_tuple s). vnow (v_tuple s).
  - apply Hrest; [done|by left|done|].
    clear Hrest. unfold inserter_state. path (v_tuple s).
Qed.

Lemma vacuum_xmax_spec s :
  hints_true env st (v_tuple s) ->
  outcome env st (v_tuple s) (fun r _ => r = vacuum_deleted env st (v_tuple s)) (vacuum_xmax env s).
Proof.
  intros Ht. unfold vacuum_xmax, out. vis.
  all: destruct (tuple_facts (v_tuple s) Ht) as [F1 F2].
  all: try vvac (v_tuple s).
  1-3, 5: vhint (v_tuple s); vvac (v_tuple s).
  vhint (v_tuple s).
  match goal with H : v_tuple ?s' = _ \/ _ |- _ =>
    assert (Ex : t_xmax (v_tuple s') = t_xmax (v_tuple s)) by (destruct H as [->| ->]; done);
    clear H end.
  apply outcome_dead_after; [rewrite Ex; clear Ex|assumption|assumption].
  unfold vacuum_deleted, deleter_state, deleter. path (v_tuple s).
Qed.

Lemma vacuum_spec s :
  hints_true env st (v_tuple s) -> unmoved (v_tuple s) -> own_deleter env st (v_tuple s) ->
  outcome env st (v_tuple s) (fun r _ => r = vacuum_state env st (v_tuple s)) (HeapTupleSatisfiesVacuumHorizon env s).
Proof.
  intros Ht Hu Ho. unfold HeapTupleSatisfiesVacuumHorizon, vacuum_xmin, out.
  assert (Hrest : forall s', hints_true env st (v_tuple s') ->
    v_tuple s' = v_tuple s \/
    v_tuple s' = set_infomask (Z.lor (t_infomask (v_tuple s)) HEAP_XMIN_COMMITTED) (v_tuple s) ->
    HeapTupleHeaderXminFrozen (v_tuple s') = HeapTupleHeaderXminFrozen (v_tuple s) ->
    inserter_state st (v_tuple s) = Committed ->
    outcome env st (v_tuple s) (fun r _ => r = vacuum_state env st (v_tuple s)) (vacuum_xmax env s')).
  { intros s' Ht' Et Ef Hi. eapply outcome_mono; [exact Ef| |by apply vacuum_xmax_spec].
    intros b ? ->. unfold vacuum_state, vacuum_deleted. rewrite Hi.
    destruct Et as [->| ->]; [done|]. by rewrite hint_deleter_state, hint_deleter by constructor. }
  vis.
  all: destruct (tuple_facts (v_tuple s) Ht) as [F1 F2].
  all: destruct (xmin_facts (v_tuple s) Ht Hu Ho) as (X1 & X2 & M1 & M2 & O1).
  all: try (unfold flag in *; congruence).
  all: pose proof (only_locked_state (v_tuple s)) as L1.
  all: try vvac (v_tuple s).
  - vhint (v_tuple s). apply Hrest; [done|done|done|].
    clear Hrest. unfold inserter_state. path (v_tuple s).
  - vhint (v_tuple s). vvac (v_tuple s).
  - apply Hrest; [done|by left|done|].
    clear Hrest. unfold inserter_state. path (v_tuple s).
Qed.

Lemma dirty_xmax_spec s :
  hints_true env st (v_tuple s) -> v_xmin s = 0 -> v_xmax s = 0 -> v_token s = 0 ->
  inserter_state st (v_tuple s) = Committed ->
  outcome env st (v_tuple s) (fun b s' => b = visible_dirty env st (v_tuple s) /\ dirty_outputs env st (v_tuple s) s')
    (dirty_xmax env s).
Proof.
  intros Ht E1 E2 E3 Hi. unfold dirty_xmax. unfold visible_dirty, dirty_outputs. rewrite Hi.
  vis.
  all: destruct (tuple_facts (v_tuple s) Ht) as [F1 F2]; clear Hi.
  all: try vdirty (v_tuple s).
  all: vhint (v_tuple s); vdirty (v_tuple s).
Qed.

Lemma dirty_hinted s t' :
  v_tuple s = t' \/ (v_tuple s = set_infomask (Z.lor (t_infomask t') HEAP_XMIN_COMMITTED) t'
                     /\ has HEAP_XMIN_INVALID (t_infomask t') = false) ->
  inserter_state st (v_tuple s) = inserter_state st t' /\ deleter_state env st (v_tuple s) = deleter_state env st t'
  /\ deleter env (v_tuple s) = deleter env t' /\ t_xmin (v_tuple s) = t_xmin t'
  /\ t_ctid (v_tuple s) = t_ctid t'.
Proof.
  intros [->|[-> E]]; [done|].
  rewrite hint_inserter_state, hint_deleter_state, hint_deleter by (done || constructor). done.
Qed.

Lemma dirty_rest s t :
  hints_true env st (v_tuple s) -> v_xmin s = 0 -> v_xmax s = 0 -> v_token s = 0 ->
  inserter_state st t = Committed ->
  v_tuple s = t \/ (v_tuple s = set_infomask (Z.lor (t_infomask t) HEAP_XMIN_COMMITTED) t
                     /\ has HEAP_XMIN_INVALID (t_infomask t) = false) ->
  HeapTupleHeaderXminFrozen (v_tuple s) = HeapTupleHeaderXminFrozen t ->
  outcome env st t (fun b s' => b = visible_dirty env st t /\ dirty_outputs env st t s') (dirty_xmax env s).
Proof.
  intros Ht E1 E2 E3 Hi Et Ef. destruct (dirty_hinted s t Et) as (H1 & H2 & H3 & H4 & H5).
  eapply outcome_mono; [exact Ef| |apply dirty_xmax_spec; congruence].
  intros b s' (-> & Ho). unfold visible_dirty, dirty_outputs, HeapTupleHeaderIsSpeculative,
    HeapTupleHeaderGetSpeculativeToken in *.
  by rewrite H1, H2, H3, H4, H5 in *.
Qed.

Lemma dirty_spec s :
  hints_true env st (v_tuple s) -> unmoved (v_tuple s) -> own_deleter env st (v_tuple s) ->
  outcome env st (v_tuple s) (fun b s' => b = visible_dirty env st (v_tuple s) /\ dirty_outputs env st (v_tuple s) s')
    (HeapTupleSatisfiesDirty env s).
Proof.
  intros Ht Hu Ho. unfold HeapTupleSatisfiesDirty, dirty_xmin.
  rewrite seqs_snap_xmax, seqs_snap_xmin, seqs_snap_token. cbn [v_tuple v_dirty v_xmin v_xmax v_token].
  set (t := v_tuple s) in *. clearbody t.
  match goal with |- outcome _ _ _ _ (_ ?s0) => set (s0' := s0) end.
  assert (E1 : v_xmin s0' = 0) by done. assert (E2 : v_xmax s0' = 0) by done.
  assert (E3 : v_token s0' = 0) by done. assert (Et : v_tuple s0' = t) by done.
  clearbody s0'. subst t. vis.
  all: destruct (tuple_facts (v_tuple s0') Ht) as [F1 F2].
  all: destruct (xmin_facts (v_tuple s0') Ht Hu Ho) as (X1 & X2 & M1 & M2 & O1).
  all: try (unfold flag in *; congruence).
  all: try vdirty (v_tuple s0').
  - vhint (v_tuple s0'). vdirty (v_tuple s0').
  - vhint (v_tuple s0'). apply dirty_rest; try (destruct_and?; congruence).
    + unfold inserter_state. path (v_tuple s0').
    + match goal with H : _ \/ _ |- _ => destruct H as [E|E]; [by left|right; split; [exact E|]] end.
      path (v_tuple s0').
  - vhint (v_tuple s0'). vdirty (v_tuple s0').
  - apply dirty_rest; try done; [|by left].
    unfold inserter_state. path (v_tuple s0').
Qed.
End answers.

(** * The answers of [HeapTupleSatisfiesUpdate], with the members of multixacts *)

Section update_specification.
Context (env : xact_env) (st : Z -> xstat).
Implicit Types t : HeapTupleHeader.

(** A member of the multixact, or the locker, in xmax is still running.  Bits that say that
    xmax is over, and multixacts from before an upgrade, are believed, except ([own]) for a
    tuple of the own transaction, which can only be believed to have no xmax. *)
Definition lockers_running (own : bool) t : bool :=
  let m := t_infomask t in
  negb (has HEAP_XMAX_INVALID m)
  && (own || negb (has HEAP_XMAX_COMMITTED m))
  && (if has HEAP_XMAX_IS_MULTI m
      then (own || negb (HEAP_LOCKED_UPGRADED m)) && MultiXactIdIsRunning env (t_xmax t) (HEAP_XMAX_IS_LOCKED_ONLY m)
      else HEAP_XMAX_IS_LOCKED_ONLY m && match st (t_xmax t) with Mine | Running => true | _ => false end).

(** The answer for a tuple whose insertion is visible, by what became of its deleter: an own
    deletion and one that is going on are reported as such; otherwise lockers that are
    running are reported, and only then the final answer is given. *)
Definition modified (own : bool) (self : ItemPointer) (cid : Z) t : TM_Result :=
  match deleter_state env st t with
  | Mine => if HeapTupleHeaderGetCmax env t >=? cid then TM_SelfModified else TM_Invisible
  | Running => TM_BeingModified
  | Committed =>
      if lockers_running own t then TM_BeingModified
      else if ItemPointerEquals self (t_ctid t) then TM_Deleted else TM_Updated
  | Aborted => if lockers_running own t then TM_BeingModified else TM_Ok
  end.

Definition updatable (self : ItemPointer) (cid : Z) t : TM_Result :=
  match inserter_state st t with
  | Running | Aborted => TM_Invisible
  | Mine => if HeapTupleHeaderGetCmin env t >=? cid then TM_Invisible else modified true self cid t
  | Committed => modified false self cid t
  end.
End update_specification.

Section update.
Context {env : xact_env} {st : Z -> xstat} {HE : env_ok env st}.
Implicit Types t : HeapTupleHeader.

(** ** Members of multixacts *)

Lemma update_xid_member m :
  MultiXactIdGetUpdateXid env m = InvalidTransactionId
  \/ (MultiXactIdGetUpdateXid env m, true) ∈ Members env false m.
Proof.
  unfold MultiXactIdGetUpdateXid, after.
  pose proof (for_up_ret_ind (fun _ (_ : unit) => True)
    (fun x => (x, true) ∈ Members env false m)
    (fun i _ => match Members env false m !! i with Some (x, true) => Return x | _ => Next tt end)
    (length (Members env false m)) 0 tt) as H.
  destruct (for_up_ret _ _ _ _); [by left|right].
  apply H; [done|]. intros i ? _ _.
  destruct (Members env false m !! i) as [[x []]|] eqn:E; try done.
  by eapply list_elem_of_lookup_2.
Qed.

(** A multixact is running when one of its members is. *)
Lemma MultiXactIdIsRunning_spec m lock :
  MultiXactIdIsRunning env m lock = true <->
  exists x b, (x, b) ∈ Members env lock m /\ (st x = Mine \/ st x = Running).
Proof.
  unfold MultiXactIdIsRunning. cbv zeta.
  rewrite !(for_up_ret_array (fun m => IsCurrent env (fst m))),
    !(for_up_ret_array (fun m => IsInProgress env (fst m))).
  assert (Hex : forall p : Z -> bool,
    existsb (fun m => p (fst m)) (Members env lock m) = true <->
    exists x b, (x, b) ∈ Members env lock m /\ p x = true).
  { intros p. rewrite existsb_exists. split.
    - intros ([x b] & Hx & Hp). exists x, b. by rewrite list_elem_of_In.
    - intros (x & b & Hx & Hp). exists (x, b). by rewrite <- list_elem_of_In. }
  split.
  - intros H.
    assert (exists x b, (x, b) ∈ Members env lock m /\ IsInProgress env x = true) as (x & b & Hx & Hp).
    { destruct (existsb (fun m => IsCurrent env (fst m)) _) eqn:E.
      - apply (Hex (IsCurrent env)) in E as (x & b & Hx & Hp). exists x, b. split; [done|].
        rewrite env_current in Hp. rewrite env_inprogress. by destruct (st x).
      - simpl in H. apply (Hex (IsInProgress env)).
        by destruct (existsb (fun m => IsInProgress env (fst m)) _). }
    exists x, b. split; [done|]. rewrite env_inprogress in Hp.
    destruct (st x); try done; auto.
  - intros (x & b & Hx & Hs).
    assert (existsb (fun m => IsInProgress env (fst m)) (Members env lock m) = true) as ->.
    { apply Hex. exists x, b. split; [done|]. rewrite env_inprogress.
      by destruct Hs as [-> | ->]. }
    by destruct (existsb _ _).
Qed.

(** A running updater keeps its multixact running. *)
Lemma updater_running t :
  st (HeapTupleGetUpdateXid env t) = Mine \/ st (HeapTupleGetUpdateXid env t) = Running ->
  MultiXactIdIsRunning env (t_xmax t) false = true.
Proof.
  unfold HeapTupleGetUpdateXid. intros Hs. apply MultiXactIdIsRunning_spec.
  destruct (update_xid_member (t_xmax t)) as [E|E].
  - rewrite E, env_invalid in Hs. naive_solver.
  - eauto.
Qed.

Lemma invalid_updater t :
  TransactionIdIsValid (HeapTupleGetUpdateXid env t) = false ->
  st (HeapTupleGetUpdateXid env t) = Aborted.
Proof.
  unfold TransactionIdIsValid. intros E. apply negb_false_iff, Z.eqb_eq in E.
  rewrite E. apply env_invalid.
Qed.

(** ** Updates *)

Lemma upgraded_locked m : HEAP_LOCKED_UPGRADED m = true -> HEAP_XMAX_IS_LOCKED_ONLY m = true.
Proof.
  unfold HEAP_LOCKED_UPGRADED, HEAP_XMAX_IS_LOCKED_ONLY.
  by destruct (has HEAP_XMAX_IS_MULTI m), (has HEAP_XMAX_LOCK_ONLY m).
Qed.

Ltac vupd t :=
  apply outcome_ret;
  [unfold updatable, modified, lockers_running, inserter_state, deleter_state, deleter; path t
  |assumption|assumption || reflexivity].

Lemma update_xmax_spec self cid s :
  hints_true env st (v_tuple s) ->
  outcome env st (v_tuple s) (fun r _ => r = modified env st false self cid (v_tuple s)) (update_xmax env self cid s).
Proof.
  intros Ht. unfold update_xmax, updated_or_deleted, self_or_invisible. vis.
  all: destruct (tuple_facts (v_tuple s) Ht) as [F1 F2].
  all: pose proof (upgraded_locked (t_infomask (v_tuple s))) as U.
  all: pose proof (fun H => updater_running (v_tuple s) (or_introl H)) as R1.
  all: pose proof (fun H => updater_running (v_tuple s) (or_intror H)) as R3.
  all: pose proof (invalid_updater (v_tuple s)) as R2.
  all: try vupd (v_tuple s).
  1-5: vhint (v_tuple s); vupd (v_tuple s).
  vhint (v_tuple s). vis.
  all: match goal with H : v_tuple ?s' = _ \/ _ |- _ =>
    assert (Ex : t_ctid (v_tuple s') = t_ctid (v_tuple s)) by (destruct H as [->| ->]; done);
    clear H; rewrite Ex in * end.
  all: vupd (v_tuple s).
Qed.

(** The hint for the inserter plays no part in the answer. *)
Lemma hint_modified own self cid t :
  modified env st own self cid (set_infomask (Z.lor (t_infomask t) HEAP_XMIN_COMMITTED) t) = modified env st own self cid t.
Proof.
  assert (Hf : is_hint HEAP_XMIN_COMMITTED) by constructor. unfold modified, lockers_running, HeapTupleHeaderGetCmax, HEAP_LOCKED_UPGRADED.
  rewrite hint_deleter_state by done. simpl. rewrite hint_combocid, hint_multi, hint_lock, !has_lor by done. has_consts.
  rewrite Z.land_lor_distr_l. change (Z.land HEAP_XMIN_COMMITTED (Z.lor HEAP_XMAX_EXCL_LOCK HEAP_XMAX_KEYSHR_LOCK)) with 0. by rewrite Z.lor_0_r, !orb_false_r.
Qed.

Lemma update_spec self cid s :
  hints_true env st (v_tuple s) -> unmoved (v_tuple s) -> own_deleter env st (v_tuple s) ->
  outcome env st (v_tuple s) (fun r _ => r = updatable env st self cid (v_tuple s))
    (HeapTupleSatisfiesUpdate env self cid s).
Proof.
  intros Ht Hu Ho. unfold HeapTupleSatisfiesUpdate, update_xmin, self_or_invisible.
  assert (Hrest : forall s', hints_true env st (v_tuple s') ->
    v_tuple s' = v_tuple s \/
    v_tuple s' = set_infomask (Z.lor (t_infomask (v_tuple s)) HEAP_XMIN_COMMITTED) (v_tuple s) ->
    HeapTupleHeaderXminFrozen (v_tuple s') = HeapTupleHeaderXminFrozen (v_tuple s) ->
    inserter_state st (v_tuple s) = Committed ->
    outcome env st (v_tuple s) (fun r _ => r = updatable env st self cid (v_tuple s))
      (update_xmax env self cid s')).
  { intros s' Ht' Et Ef Hi. eapply outcome_mono; [exact Ef| |by apply update_xmax_spec].
    intros r ? ->. unfold updatable. rewrite Hi.
    destruct Et as [-> | ->]; [done|by rewrite hint_modified]. }
  vis.
  all: destruct (tuple_facts (v_tuple s) Ht) as [F1 F2].
  all: destruct (xmin_facts (v_tuple s) Ht Hu Ho) as (X1 & X2 & M1 & M2 & O1).
  all: try (unfold flag in *; congruence).
  all: pose proof (fun H => updater_running (v_tuple s) (or_intror H)) as R3.
  all: try vupd (v_tuple s).
  - vhint (v_tuple s). vupd (v_tuple s).
  - vhint (v_tuple s). apply Hrest; [done|done|done|].
    clear Hrest. unfold inserter_state. path (v_tuple s).
  - vhint (v_tuple s). vupd (v_tuple s).
  - apply Hrest; [done|by left|done|].
    clear Hrest. unfold inserter_state. path (v_tuple s).
Qed.
End update.
