(* ===== verification/Mvcc.v ===== *)
(** What the visibility routines guarantee: the answers of each routine, that a
    snapshot keeps giving the same answers, and that vacuum removes only what no
    snapshot can see. *)

From S2P Require Import Prelude Transam TransamProps HeapVisibility VisibilityRules.
From S2P Require Import HeapVisibilityProps.
Local Open Scope Z_scope.
Local Open Scope pg_scope.

(** ** What added hint bits leave alone *)

Lemma hint_ext_disjoint h f : Z.ldiff h HINT_BITS = 0 -> Z.land HINT_BITS f = 0 -> Z.land h f = 0.
Proof.
  intros H1 H2. apply Z.bits_inj'. intros i Hi.
  apply (f_equal (fun z => Z.testbit z i)) in H1, H2.
  rewrite Z.ldiff_spec, Z.land_spec, Z.testbit_0_l in *.
  destruct (Z.testbit h i), (Z.testbit f i), (Z.testbit HINT_BITS i); done.
Qed.

Lemma hint_ext_same env t t' :
  hint_ext t t' ->
  t_xmin t' = t_xmin t /\ deleter env t' = deleter env t
  /\ HeapTupleHeaderGetCmin env t' = HeapTupleHeaderGetCmin env t
  /\ HeapTupleHeaderGetCmax env t' = HeapTupleHeaderGetCmax env t
  /\ (unmoved t -> unmoved t').
Proof.
  intros (h & Hh & ->). pose proof (hint_ext_disjoint h) as D.
  assert (Hhas : forall f, Z.land HINT_BITS f = 0 -> has f (Z.lor (t_infomask t) h) = has f (t_infomask t)).
  { intros f Hf. unfold has. by rewrite land_lor_disjoint by auto. }
  unfold deleter, HeapTupleHeaderGetCmin, HeapTupleHeaderGetCmax, unmoved; simpl.
  rewrite hint_locked_only by auto. by rewrite !Hhas.
Qed.

(** ** Every routine returns *)

Section returns.
Context (env : xact_env).

Definition returns {R} (p : stmt R) : Prop := forall s, exists r, fst (p s) = Some r.

Lemma returns_seqs {R} (p q : stmt R) : returns q -> returns (p ;; q).
Proof. intros Hq s. unfold seqs. destruct (p s) as [[r|] s']; [by exists r|apply Hq]. Qed.

Lemma returns_ifs {R} c (p q : stmt R) : returns p -> returns q -> returns (ifs c p q).
Proof. intros Hp Hq s. unfold ifs. destruct (c _); auto. Qed.

Lemma returns_ret {R} (r : R) : returns (ret r).
Proof. intros s. by exists r. Qed.

Lemma returns_dead_after x : returns (dead_after x).
Proof. intros s. by eexists. Qed.

Lemma routines_return (self : ItemPointer) (cid : Z) (snap : Snapshot) :
  returns (HeapTupleSatisfiesSelf env) /\ returns (HeapTupleSatisfiesToast env)
  /\ returns (HeapTupleSatisfiesUpdate env self cid) /\ returns (HeapTupleSatisfiesDirty env)
  /\ returns (HeapTupleSatisfiesMVCC env snap) /\ returns (HeapTupleSatisfiesVacuumHorizon env).
Proof.
  unfold HeapTupleSatisfiesSelf, HeapTupleSatisfiesToast, HeapTupleSatisfiesUpdate,
    HeapTupleSatisfiesDirty, HeapTupleSatisfiesMVCC, HeapTupleSatisfiesVacuumHorizon,
    self_xmax, update_xmax, dirty_xmax, mvcc_xmax, vacuum_xmax, updated_or_deleted.
  split_and!; repeat first [apply returns_ret | apply returns_dead_after | apply returns_ifs
    | apply returns_seqs].
Qed.
End returns.

(** The routines answer on every tuple and every state of the transaction
    system, and change nothing in the tuple but hint bits, which they only add:
    the sharing of the page with concurrent readers relies on it. *)
Theorem visibility_only_hints env (self : ItemPointer) (cid oldest : Z) (snap : Snapshot) s :
  (exists r s', HeapTupleSatisfiesUpdate env self cid s = (Some r, s')
     /\ hint_ext (v_tuple s) (v_tuple s'))
  /\ (exists r s', HeapTupleSatisfiesMVCC env snap s = (Some r, s')
     /\ hint_ext (v_tuple s) (v_tuple s'))
  /\ (exists r s', HeapTupleSatisfiesDirty env s = (Some r, s')
     /\ hint_ext (v_tuple s) (v_tuple s'))
  /\ (exists r s', HeapTupleSatisfiesVacuumHorizon env s = (Some r, s')
     /\ hint_ext (v_tuple s) (v_tuple s'))
  /\ hint_ext (v_tuple s) (v_tuple (snd (HeapTupleSatisfiesVacuum env oldest s)))
  /\ hint_ext (v_tuple s) (v_tuple (snd (HeapTupleSatisfiesVisibility env snap s))).
Proof.
  destruct (routines_frame env self cid snap) as (F1 & F2 & F3 & F4 & F5 & F6).
  destruct (routines_return env self cid snap) as (R1 & R2 & R3 & R4 & R5 & R6).
  assert (H : forall R (p : stmt R), frames p -> returns p ->
    exists r s', p s = (Some r, s') /\ hint_ext (v_tuple s) (v_tuple s')).
  { intros R p F Rp. destruct (Rp s) as [r Er]. specialize (F s).
    destruct (p s) as [o s']; simpl in *. subst o. by exists r, s'. }
  split_and!; auto.
  - unfold HeapTupleSatisfiesVacuum. destruct (result _ _) as [[] ?]; try case_match; apply F6.
  - unfold HeapTupleSatisfiesVisibility, of_stmt, HeapTupleSatisfiesNonVacuumable.
    destruct (snapshot_type snap); simpl; try apply hint_ext_refl; auto.
    destruct (result _ _) as [[] ?]; simpl; apply F6.
Qed.

(** ** Answers *)

Lemma outcome_inv {R env st} t (P : R -> vstate -> Prop) r :
  outcome env st t P r ->
  exists x s', r = (Some x, s') /\ P x s' /\ hints_true env st (v_tuple s')
    /\ HeapTupleHeaderXminFrozen (v_tuple s') = HeapTupleHeaderXminFrozen t.
Proof. destruct r as [[x|] s']; [|done]. intros (HP & Ht & Ef). by exists x, s'. Qed.

(** A tuple as the system leaves it: hint bits that are true, not moved by an old
    VACUUM FULL, and deleted by nobody but its inserter while that is running. *)
Record sound (env : xact_env) (st : Z -> xstat) (t : HeapTupleHeader) : Prop := {
  sound_hints : hints_true env st t;
  sound_unmoved : unmoved t;
  sound_deleter : own_deleter env st t
}.

Lemma sound_ext env st t t' :
  sound env st t -> hint_ext t t' -> hints_true env st t' ->
  HeapTupleHeaderXminFrozen t' = HeapTupleHeaderXminFrozen t ->
  sound env st t'.
Proof.
  intros [_ Hu Ho] He Ht Ef. destruct (hint_ext_same env t t' He) as (E1 & E2 & _ & _ & E5).
  split; [done|auto|]. unfold own_deleter in *. by rewrite E1, E2, Ef.
Qed.

Lemma visible_ext env st snap t t' :
  hint_ext t t' -> HeapTupleHeaderXminFrozen t' = HeapTupleHeaderXminFrozen t ->
  visible env st snap t' = visible env st snap t.
Proof.
  intros He Ef. destruct (hint_ext_same env t t' He) as (E1 & E2 & E3 & E4 & _).
  unfold visible, inserted, deleted. by rewrite E1, E2, E3, E4, Ef.
Qed.

Lemma mvcc_run env st {HE : env_ok env st} snap s :
  sound env st (v_tuple s) -> snapshot_ok env st snap ->
  exists s', HeapTupleSatisfiesMVCC env snap s = (Some (visible env st snap (v_tuple s)), s')
    /\ sound env st (v_tuple s') /\ hint_ext (v_tuple s) (v_tuple s')
    /\ HeapTupleHeaderXminFrozen (v_tuple s') = HeapTupleHeaderXminFrozen (v_tuple s).
Proof.
  intros HS Hs. pose proof (mvcc_spec snap s) as H.
  apply outcome_inv in H as (x & s' & E & -> & Ht & Ef); try apply HS; [|done].
  assert (He : hint_ext (v_tuple s) (v_tuple s')).
  { destruct (routines_frame env (mk_tid 0 0) 0 snap) as (_ & _ & _ & _ & F & _).
    specialize (F s). by rewrite E in F. }
  exists s'. split; [done|]. split; [by eapply sound_ext|done].
Qed.

(** C1: an MVCC snapshot sees a tuple just if it sees its insertion (frozen, by
    an earlier command of the own transaction, or by a transaction that has
    committed and was not running when the snapshot was taken) and not likewise a
    deletion, whatever hint bits the tuple carries.  The hint bits the test leaves
    behind are true, and the tuple stays sound. *)
Theorem mvcc_visibility env st {HE : env_ok env st} snap s :
  sound env st (v_tuple s) -> snapshot_ok env st snap ->
  exists s', HeapTupleSatisfiesMVCC env snap s = (Some (visible env st snap (v_tuple s)), s')
    /\ sound env st (v_tuple s')
    /\ visible env st snap (v_tuple s') = visible env st snap (v_tuple s).
Proof.
  intros HS Hs. destruct (mvcc_run env st snap s HS Hs) as (s' & E & HS' & He & Ef).
  exists s'. split; [done|]. split; [done|by apply visible_ext].
Qed.

(** The routines without an MVCC snapshot.  [HeapTupleSatisfiesSelf] sees
    what is inserted by now and not deleted; [HeapTupleSatisfiesDirty] also sees
    running insertions, and tells the caller exactly whom it would have to wait
    for; [HeapTupleSatisfiesVacuumHorizon] classifies by the states of inserter
    and deleter, and returns the deleter of a dead tuple. *)
Theorem visibility_now env st {HE : env_ok env st} s :
  sound env st (v_tuple s) ->
  (exists s', HeapTupleSatisfiesSelf env s = (Some (visible_now env st (v_tuple s)), s')
     /\ hints_true env st (v_tuple s'))
  /\ (exists s', HeapTupleSatisfiesDirty env s = (Some (visible_dirty env st (v_tuple s)), s')
     /\ dirty_outputs env st (v_tuple s) s' /\ hints_true env st (v_tuple s'))
  /\ (exists s', HeapTupleSatisfiesVacuumHorizon env s = (Some (vacuum_state env st (v_tuple s)), s')
     /\ hints_true env st (v_tuple s')).
Proof.
  intros [Ht Hu Ho]. split_and!.
  - destruct (outcome_inv _ _ _ (self_spec s Ht Hu Ho)) as (x & s' & E & -> & H & _).
    by exists s'.
  - destruct (outcome_inv _ _ _ (dirty_spec s Ht Hu Ho)) as (x & s' & E & [-> Hd] & H & _).
    by exists s'.
  - destruct (outcome_inv _ _ _ (vacuum_spec s Ht Hu Ho)) as (x & s' & E & -> & H & _).
    by exists s'.
Qed.

(** C8: The answer of [HeapTupleSatisfiesUpdate] is exactly the one that the states of
    inserter and deleter and the lockers call for.  A command may modify a tuple only when
    its insertion is visible to it, nobody's modification stands or is going on, and no
    locker that xmax still names is running; lockers that are running are reported instead
    of a final answer; the hint bits left are true. *)
Theorem update_verdict env st {HE : env_ok env st} self cid s :
  sound env st (v_tuple s) ->
  exists s', HeapTupleSatisfiesUpdate env self cid s = (Some (updatable env st self cid (v_tuple s)), s')
    /\ hints_true env st (v_tuple s')
    /\ (updatable env st self cid (v_tuple s) = TM_Ok -> deleter_state env st (v_tuple s) = Aborted
          /\ (inserter_state st (v_tuple s) = Committed /\ lockers_running env st false (v_tuple s) = false
              \/ inserter_state st (v_tuple s) = Mine /\ lockers_running env st true (v_tuple s) = false)).
Proof.
  intros [Ht Hu Ho].
  destruct (outcome_inv _ _ _ (update_spec self cid s Ht Hu Ho)) as (r & s' & E & -> & H & _).
  exists s'. split; [done|]. split; [done|].
  unfold updatable, modified. repeat case_match; intros; simplify_eq; auto.
Qed.

(** ** Snapshots *)

Lemma pg_lfind32_spec key base : pg_lfind32 key base = bool_decide (key ∈ base).
Proof.
  unfold pg_lfind32. rewrite for_up_ret_search. unfold after.
  assert (H : existsb (fun i => key =? rd base i) (seq 0 (length base)) = bool_decide (key ∈ base)).
  { apply eq_bool_prop_intro. rewrite Is_true_true, bool_decide_spec, existsb_exists. split.
    - intros (i & Hi & E). apply Z.eqb_eq in E. subst key. apply in_seq in Hi.
      eapply list_elem_of_lookup_2, rd_lookup. lia.
    - intros (i & Hi)%list_elem_of_lookup. exists i. pose proof (lookup_lt_Some _ _ _ Hi).
      split; [apply in_seq; lia|]. rewrite (rd_lookup base i) in Hi by done.
      apply Z.eqb_eq. congruence. }
  rewrite H. by destruct (bool_decide _).
Qed.

(** ** Time passes *)

(** Outcomes are final, and known to every backend. *)
Definition outcomes_final (st st' : Z -> xstat) : Prop :=
  forall x, (st x = Committed -> st' x = Committed) /\ (st x = Aborted -> st' x = Aborted).

(** The members of a multixact and the meaning of a combo command id are fixed
    when they are made. *)
Definition same_members (env env' : xact_env) : Prop :=
  forall b m, Members env' b m = Members env b m.

Lemma same_deleter env env' t : same_members env env' -> deleter env' t = deleter env t.
Proof.
  intros H. unfold deleter, HeapTupleGetUpdateXid, MultiXactIdGetUpdateXid. by rewrite H.
Qed.

Lemma hints_true_later env st env' st' t :
  outcomes_final st st' -> same_members env env' ->
  hints_true env st t -> hints_true env' st' t.
Proof.
  intros Hf Hm [H1 H2 H3 H4]. split; rewrite ?(same_deleter env env') by done.
  - intros; by apply Hf, H1.
  - intros; by apply Hf, H2.
  - intros Hc x Hx. destruct (H3 Hc x Hx) as [? ?]. split; [done|by apply Hf].
  - intros Hc x Hx. by apply Hf, H4.
Qed.

(** A later moment of the same transaction. *)
Record later (env : xact_env) (st : Z -> xstat) (env' : xact_env) (st' : Z -> xstat) : Prop := {
  later_final : outcomes_final st st';
  later_mine x : st' x = Mine <-> st x = Mine;
  later_members : same_members env env';
  later_top x : Topmost env' x = Topmost env x;
  later_cmin c : RealCmin env' c = RealCmin env c;
  later_cmax c : RealCmax env' c = RealCmax env c
}.

Lemma later_snapshot env st env' st' x snap :
  later env st env' st' -> XidInMVCCSnapshot env' x snap = XidInMVCCSnapshot env x snap.
Proof. intros H. unfold XidInMVCCSnapshot. by rewrite (later_top _ _ _ _ H). Qed.

Lemma later_running env st env' st' x : later env st env' st' -> st' x = Running -> st x = Running.
Proof.
  intros H Hx. pose proof (later_mine _ _ _ _ H x). destruct (later_final _ _ _ _ H x).
  destruct (st x); naive_solver congruence.
Qed.

Lemma visible_later env st env' st' snap t :
  later env st env' st' -> snapshot_ok env st snap ->
  visible env' st' snap t = visible env st snap t.
Proof.
  intros HL Hs. unfold visible, inserted, deleted, HeapTupleHeaderGetCmin, HeapTupleHeaderGetCmax.
  rewrite (same_deleter env env') by apply HL.
  rewrite (later_cmin _ _ _ _ HL), (later_cmax _ _ _ _ HL).
  assert (Hx : forall x (b : bool),
    match st' x with Mine => b | Committed => negb (XidInMVCCSnapshot env' x snap) | _ => false end
    = match st x with Mine => b | Committed => negb (XidInMVCCSnapshot env x snap) | _ => false end).
  { intros x b. rewrite (later_snapshot _ _ _ _ _ _ HL).
    pose proof (later_mine _ _ _ _ HL x). destruct (later_final _ _ _ _ HL x) as [Hc Ha].
    specialize (Hs x). destruct (st x) eqn:E.
    - by rewrite (proj2 H).
    - rewrite Hs by done. destruct (st' x); [|done..]. by discriminate (proj1 H eq_refl).
    - by rewrite Hc.
    - by rewrite Ha. }
  rewrite Hx. f_equal. f_equal. by destruct (deleter env t) as [x|].
Qed.

(** C7: reads are repeatable.  A snapshot that has judged a tuple judges it the
    same at any later moment of its transaction, though transactions have ended
    in the meantime and the first reading may have left hint bits. *)
Theorem mvcc_repeatable env st {HE : env_ok env st} env' st' {HE' : env_ok env' st'} snap s s' v :
  sound env st (v_tuple s) -> snapshot_ok env st snap -> later env st env' st' ->
  HeapTupleSatisfiesMVCC env snap s = (Some v, s') ->
  forall s2, v_tuple s2 = v_tuple s' -> fst (HeapTupleSatisfiesMVCC env' snap s2) = Some v.
Proof.
  intros HS Hs HL E s2 Et.
  destruct (mvcc_run env st snap s HS Hs) as (s1 & E1 & [Ht Hu Hd] & He & Ef).
  rewrite E in E1. injection E1 as -> ->.
  assert (Hs' : snapshot_ok env' st' snap).
  { intros y Hy. rewrite (later_snapshot _ _ _ _ _ _ HL). by eapply Hs, later_running. }
  assert (Hd' : own_deleter env' st' (v_tuple s1)).
  { intros Hfr Hm y Hy. rewrite (same_deleter env env') in Hy by apply HL.
    apply (later_mine _ _ _ _ HL) in Hm. destruct (Hd Hfr Hm y Hy) as [Hy'|Hy'].
    - left. by apply (later_mine _ _ _ _ HL).
    - right. by apply (later_final _ _ _ _ HL). }
  pose proof (mvcc_spec snap s2) as H2. rewrite Et in H2.
  apply outcome_inv in H2 as (x & s3 & -> & -> & _); [|by eapply hints_true_later; [apply HL..|]|done..].
  simpl. f_equal. rewrite (visible_later env st) by done. by apply visible_ext.
Qed.

(** ** Vacuum *)

(** The identifiers in use span less than half the number space, so that each
    stands for one 64-bit identifier, and the horizon is not after the
    snapshot's xmin. *)
Definition horizon_before (x OldestXmin : Z) (snap : Snapshot) : Prop :=
  exists fx fo fs,
    x = XidFromFullTransactionId fx /\ OldestXmin = XidFromFullTransactionId fo
    /\ s_xmin snap = XidFromFullTransactionId fs
    /\ normal_full fx /\ normal_full fo /\ normal_full fs
    /\ Z.abs (fx - fo) < 2 ^ 31 /\ Z.abs (fo - fs) < 2 ^ 31 /\ Z.abs (fx - fs) < 2 ^ 31
    /\ fo <= fs.

Lemma horizon_precedes x OldestXmin snap :
  horizon_before x OldestXmin snap -> TransactionIdPrecedes x OldestXmin = true ->
  TransactionIdPrecedes x (s_xmin snap) = true.
Proof.
  intros (fx & fo & fs & -> & -> & -> & N1 & N2 & N3 & D1 & D2 & D3 & Hle) Hp.
  rewrite precedes_full in * by done. lia.
Qed.

Lemma vacuum_dead env st {HE : env_ok env st} OldestXmin s s1 :
  sound env st (v_tuple s) ->
  HeapTupleSatisfiesVacuum env OldestXmin s = (HEAPTUPLE_DEAD, s1) ->
  sound env st (v_tuple s1)
  /\ HeapTupleHeaderXminFrozen (v_tuple s1) = HeapTupleHeaderXminFrozen (v_tuple s)
  /\ hint_ext (v_tuple s) (v_tuple s1)
  /\ (inserter_state st (v_tuple s) = Aborted
      \/ (inserter_state st (v_tuple s) = Committed
          /\ exists x, deleter env (v_tuple s) = Some x /\ st x = Committed
             /\ TransactionIdPrecedes x OldestXmin = true)).
Proof.
  intros HS E.
  pose proof (vacuum_spec s (sound_hints _ _ _ HS) (sound_unmoved _ _ _ HS)
    (sound_deleter _ _ _ HS)) as Ho.
  apply outcome_inv in Ho as (x & s' & E1 & -> & Ht & Ef).
  assert (He : hint_ext (v_tuple s) (v_tuple s')).
  { destruct (routines_frame env (mk_tid 0 0) 0 (mk_snapshot SNAPSHOT_ANY 0 0 [] [] false false 0 0))
      as (_ & _ & _ & _ & _ & F). specialize (F s). by rewrite E1 in F. }
  unfold HeapTupleSatisfiesVacuum in E. rewrite E1 in E. simpl in E.
  assert (s1 = s') as ->.
  { destruct (vacuum_state _ _ _) as [[] z]; simpl in E;
      try destruct (TransactionIdPrecedes z OldestXmin); congruence. }
  split; [by eapply sound_ext|]. split; [done|]. split; [done|].
  unfold vacuum_state, deleter_state in E.
  destruct (inserter_state st (v_tuple s)); [| |right|by left].
  - by destruct (deleter env _) as [x|]; [destruct (st x)|].
  - done.
  - split; [done|]. destruct (deleter env _) as [x|]; [|done]. exists x. split; [done|].
    destruct (st x); try done. simpl in E. by destruct (TransactionIdPrecedes x OldestXmin).
Qed.

(** C5: vacuum is safe.  A tuple that [HeapTupleSatisfiesVacuum] calls dead is
    invisible to every MVCC snapshot of every backend, now or later, whose xmin
    the horizon respects. *)
Theorem vacuum_dead_invisible env st {HE : env_ok env st} env' st' {HE' : env_ok env' st'}
    OldestXmin snap s s1 :
  sound env st (v_tuple s) ->
  HeapTupleSatisfiesVacuum env OldestXmin s = (HEAPTUPLE_DEAD, s1) ->
  outcomes_final st st' -> same_members env env' -> snapshot_ok env' st' snap ->
  (forall x, deleter env (v_tuple s) = Some x -> st x = Committed -> horizon_before x OldestXmin snap) ->
  forall s2, v_tuple s2 = v_tuple s1 -> fst (HeapTupleSatisfiesMVCC env' snap s2) = Some false.
Proof.
  intros HS E Hf Hm Hs Hw s2 Et.
  destruct (vacuum_dead env st OldestXmin s s1 HS E) as ([Ht Hu Ho] & Ef & He & Hdead).
  destruct (hint_ext_same env _ _ He) as (Ex & Ed & _).
  assert (Hnm : HeapTupleHeaderXminFrozen (v_tuple s1) = false -> st' (t_xmin (v_tuple s1)) <> Mine).
  { rewrite Ef, Ex. intros Hfr. unfold inserter_state in Hdead. rewrite Hfr in Hdead.
    destruct Hdead as [Ha|[Hc _]]; [apply Hf in Ha|apply Hf in Hc]; congruence. }
  pose proof (mvcc_spec snap s2) as H2. rewrite Et in H2.
  apply outcome_inv in H2 as (v & s3 & -> & -> & _);
    [|by eapply hints_true_later|done|by intros Hfr ?; destruct (Hnm Hfr)|done].
  simpl. f_equal. unfold visible, inserted, deleted. rewrite (same_deleter env env'), Ex, Ed, Ef by done.
  unfold inserter_state in Hdead. destruct Hdead as [Ha|[_ (x & Hx & Hc & Hp)]].
  - destruct (HeapTupleHeaderXminFrozen (v_tuple s)); [done|]. apply Hf in Ha. by rewrite Ha.
  - rewrite Hx, (proj1 (Hf x) Hc). specialize (Hw x Hx Hc).
    unfold XidInMVCCSnapshot at 2. rewrite (horizon_precedes _ _ _ Hw Hp).
    apply andb_false_r.
Qed.

(** The shortcut [HeapTupleIsSurelyDead], which looks only at hint bits, is
    sound: what it calls dead, the full test calls vacuumable.  And a tuple is
    vacuumable exactly if its insertion failed or it is deleted by a transaction
    that the horizon lets go. *)
Theorem surely_dead_vacuumable env st {HE : env_ok env st} s :
  sound env st (v_tuple s) ->
  (HeapTupleIsSurelyDead env (v_tuple s) = true -> fst (HeapTupleSatisfiesNonVacuumable env s) = false)
  /\ (fst (HeapTupleSatisfiesNonVacuumable env s) = false <->
      inserter_state st (v_tuple s) = Aborted
      \/ (inserter_state st (v_tuple s) = Committed
          /\ exists x, deleter env (v_tuple s) = Some x /\ st x = Committed
             /\ IsRemovable env x = true)).
Proof.
  intros HS.
  assert (Hiff : fst (HeapTupleSatisfiesNonVacuumable env s) = false <->
      inserter_state st (v_tuple s) = Aborted
      \/ (inserter_state st (v_tuple s) = Committed
          /\ exists x, deleter env (v_tuple s) = Some x /\ st x = Committed
             /\ IsRemovable env x = true)).
  { pose proof (vacuum_spec s (sound_hints _ _ _ HS) (sound_unmoved _ _ _ HS)
      (sound_deleter _ _ _ HS)) as Ho.
    apply outcome_inv in Ho as (x & s' & E1 & -> & _ & _).
    unfold HeapTupleSatisfiesNonVacuumable. rewrite E1. simpl.
    unfold vacuum_state, deleter_state.
    destruct (inserter_state st (v_tuple s)), (deleter env (v_tuple s)) as [x|] eqn:Ed;
      try destruct (st x) eqn:Ex; simpl; rewrite ?negb_false_iff.
    all: split; [intros Hr; try discriminate Hr; eauto 10
      |intros [?|(? & y & Ey & Es & Hr)]; simplify_eq; congruence]. }
  split; [|exact Hiff]. rewrite Hiff. destruct HS as [[H1 H2 H3 H4] _ _].
  unfold HeapTupleIsSurelyDead, inserter_state. rewrite XminInvalid_eq, XminFrozen_eq.
  destruct (HeapTupleHeaderXminCommitted (v_tuple s)) eqn:Ec; simpl.
  - unfold deleter in *.
    destruct (has HEAP_XMAX_INVALID _), (HEAP_XMAX_IS_LOCKED_ONLY _), (has HEAP_XMAX_IS_MULTI _),
      (has HEAP_XMAX_COMMITTED _); simpl; try done.
    intros Hr. right. destruct (H3 eq_refl _ eq_refl) as [_ Hc]. split; [|by eauto].
    destruct (has HEAP_XMIN_INVALID _); [done|by apply H1].
  - intros Hi. left. by apply H2.
Qed.

(** ** An example

    Transaction 100 is the reader's, 101 is running elsewhere, 50 and 60 have
    committed; multixact 7 is a lock of 101 on a tuple that 60 updated. *)
Module Sample.

Definition states (fate : xstat) (x : Z) : xstat :=
  if x =? 100 then Mine else if x =? 101 then fate
  else if (x =? 50) || (x =? 60) then Committed else Aborted.

Definition env_of (st : Z -> xstat) : xact_env :=
  mk_env (fun x => bool_decide (st x = Mine))
    (fun x => bool_decide (st x = Mine \/ st x = Running))
    (fun x => bool_decide (st x = Committed))
    (fun x => x)
    (fun _ m => if m =? 7 then [(101, false); (60, true)] else [])
    (fun c => c) (fun c => c) (fun _ => false) (fun x => x <? 70) (fun _ => None).

#[global] Instance env_of_ok fate : env_ok (env_of (states fate)) (states fate).
Proof.
  split; [| | |done|done]; intros x; simpl; destruct (states fate x);
    case_bool_decide; naive_solver.
Qed.

Definition reader : xact_env := env_of (states Running).
Definition snap : Snapshot := mk_snapshot SNAPSHOT_MVCC 100 102 [101] [] false false 5 0.

Definition call (t : HeapTupleHeader) : vstate := mk_vstate t false 0 0 0.

(** Inserted by 50; deleted by the running 101, or by the committed 60. *)
Definition being_deleted : HeapTupleHeader := mk_tuple 50 101 0 (mk_tid 3 4) 0.
Definition dead : HeapTupleHeader := mk_tuple 50 60 0 (mk_tid 3 4) 0.
Definition hinted_dead : HeapTupleHeader :=
  mk_tuple 50 60 0 (mk_tid 3 4) (Z.lor HEAP_XMIN_COMMITTED HEAP_XMAX_COMMITTED).
(** Updated by 60, with 101 holding a lock. *)
Definition multi : HeapTupleHeader := mk_tuple 50 7 0 (mk_tid 3 5) HEAP_XMAX_IS_MULTI.

Lemma snap_ok : snapshot_ok reader (states Running) snap.
Proof.
  intros x. unfold states. destruct (x =? 100); [done|].
  destruct (Z.eqb_spec x 101) as [->|_]; [done|]. by destruct (_ || _).
Qed.

Ltac example_sound :=
  split; [split| |]; vm_compute; intros; simplify_eq; done.

Lemma examples_sound fate :
  sound (env_of (states fate)) (states fate) being_deleted
  /\ sound (env_of (states fate)) (states fate) dead
  /\ sound (env_of (states fate)) (states fate) hinted_dead
  /\ sound (env_of (states fate)) (states fate) multi.
Proof. split_and!; example_sound. Qed.

Lemma states_later : later reader (states Running) (env_of (states Committed)) (states Committed).
Proof.
  split; [| |by intros b m|done..].
  - intros x. unfold states. destruct (x =? 100); [done|]. by destruct (x =? 101).
  - intros x. unfold states. destruct (x =? 100); [done|]. by destruct (x =? 101).
Qed.
End Sample.
Import Sample.

Lemma mvcc_visibility_witness :
  (exists s', HeapTupleSatisfiesMVCC reader snap (call being_deleted) = (Some true, s'))
  /\ (exists s', HeapTupleSatisfiesMVCC reader snap (call dead) = (Some false, s'))
  /\ (exists s', HeapTupleSatisfiesMVCC reader snap (call multi) = (Some false, s')).
Proof.
  split_and!.
  - destruct (mvcc_visibility reader (states Running) snap (call being_deleted)) as (s' & E & _);
      [apply examples_sound|apply snap_ok|]. by exists s'.
  - destruct (mvcc_visibility reader (states Running) snap (call dead)) as (s' & E & _);
      [apply examples_sound|apply snap_ok|]. by exists s'.
  - destruct (mvcc_visibility reader (states Running) snap (call multi)) as (s' & E & _);
      [apply examples_sound|apply snap_ok|]. by exists s'.
Defined.

Lemma mvcc_repeatable_witness :
  fst (HeapTupleSatisfiesMVCC (env_of (states Committed)) snap
         (call (v_tuple (snd (HeapTupleSatisfiesMVCC reader snap (call being_deleted))))))
  = Some true.
Proof.
  apply (mvcc_repeatable reader (states Running) (env_of (states Committed)) (states Committed)
    snap (call being_deleted) (snd (HeapTupleSatisfiesMVCC reader snap (call being_deleted))));
    [apply examples_sound|apply snap_ok|apply states_later|reflexivity|reflexivity].
Defined.

Lemma vacuum_dead_invisible_witness :
  fst (HeapTupleSatisfiesMVCC (env_of (states Committed)) snap
         (call (v_tuple (snd (HeapTupleSatisfiesVacuum reader 90 (call dead))))))
  = Some false.
Proof.
  apply (vacuum_dead_invisible reader (states Running) (env_of (states Committed)) (states Committed)
    90 snap (call dead) (snd (HeapTupleSatisfiesVacuum reader 90 (call dead))));
    [apply examples_sound|reflexivity|apply states_later|apply states_later| | |reflexivity].
  - intros x. unfold states. destruct (x =? 100); [done|]. destruct (x =? 101); [done|].
    by destruct (_ || _).
  - intros x Hx _. vm_compute in Hx. injection Hx as <-. exists 60, 90, 100.
    split_and!; reflexivity || lia.
Defined.

Lemma surely_dead_vacuumable_witness :
  fst (HeapTupleSatisfiesNonVacuumable reader (call hinted_dead)) = false.
Proof.
  destruct (surely_dead_vacuumable reader (states Running) (call hinted_dead)) as [H _];
    [apply examples_sound|]. apply H. reflexivity.
Defined.

Lemma visibility_now_witness :
  (exists s', HeapTupleSatisfiesSelf reader (call dead) = (Some false, s'))
  /\ (exists s', HeapTupleSatisfiesDirty reader (call being_deleted) = (Some true, s')
      /\ v_xmax s' = 101)
  /\ (exists s', HeapTupleSatisfiesVacuumHorizon reader (call multi)
       = (Some (HEAPTUPLE_RECENTLY_DEAD, 60), s')).
Proof.
  split_and!.
  - destruct (visibility_now reader (states Running) (call dead)) as ((s' & E & _) & _);
      [apply examples_sound|]. by exists s'.
  - destruct (visibility_now reader (states Running) (call being_deleted))
      as (_ & (s' & E & (_ & _ & Hx) & _) & _); [apply examples_sound|]. by exists s'.
  - destruct (visibility_now reader (states Running) (call multi)) as (_ & _ & (s' & E & _));
      [apply examples_sound|]. by exists s'.
Defined.

Lemma update_verdict_witness :
  exists s', HeapTupleSatisfiesUpdate reader (mk_tid 3 4) 5 (call being_deleted) = (Some TM_BeingModified, s').
Proof.
  destruct (update_verdict reader (states Running) (mk_tid 3 4) 5 (call being_deleted))
    as (s' & E & _); [apply examples_sound|]. by exists s'.
Defined.
