(* ===== verification/Snapshots.v ===== *)
(** The process array and the snapshots made from it: [GetSnapshotData],
    [GetSnapshotDataReuse], [KnownAssignedXidsGetAndSetXmin],
    [ProcArrayEndTransactionInternal], [XidCacheRemoveRunningXids] and
    [MaintainLatestCompletedXid] of procarray.c, [GetNewTransactionId] of varsup.c and
    [SubTransSetParent] of subtrans.c, as steps of a state machine, and what
    [XidInMVCCSnapshot] says of a snapshot that they made.

    Each operation is one step: [GetNewTransactionId] holds XidGenLock, the other ones
    ProcArrayLock, and what the former stores while a snapshot is taken is not below the
    snapshot's xmax.  An entry of the array and the copy of it in the PGPROC structure are
    one here; the code keeps them equal. *)

From S2P Require Import Prelude Transam TransamProps HeapVisibility VisibilityRules Mvcc.
Local Open Scope Z_scope.
Local Open Scope pg_scope.

(** ** Data *)

Definition PGPROC_MAX_CACHED_SUBXIDS : nat := 64.
Definition PROC_IN_VACUUM : Z := 0x02.
Definition PROC_IN_SAFE_IC : Z := 0x04.
Definition PROC_VACUUM_FOR_WRAPAROUND : Z := 0x08.
Definition PROC_IN_LOGICAL_DECODING : Z := 0x10.
Definition PROC_VACUUM_STATE_MASK : Z :=
  Z.lor PROC_IN_VACUUM (Z.lor PROC_IN_SAFE_IC PROC_VACUUM_FOR_WRAPAROUND).

(** An entry of the array. [p_subxids] are the first [subxidStatus.count] elements of the
    cache. [p_top] and [p_children] are not in shared memory: they are the full
    identifiers of the transaction and of its subtransactions that have not been aborted,
    as the backend itself knows them (XactTopFullTransactionId and childXids, xact.c). *)
Record PGPROC : Type := mk_proc {
  p_xid : Z;
  p_xmin : Z;
  p_flags : Z;
  p_subxids : list Z;
  p_overflowed : bool;
  p_top : Z;
  p_children : list Z
}.

(** [SubTrans] is what pg_subtrans holds for an identifier; [parent_of] is the same by full
    identifiers, which are not stored. *)
Record shared : Type := mk_shared {
  procs : list PGPROC;
  nextXid : Z;
  latestCompletedXid : Z;
  xactCompletionCount : Z;
  oldestXid : Z;
  xidVacLimit : Z;
  xidStopLimit : Z;
  SubTrans : Z -> Z;
  parent_of : Z -> Z;
  recovery : bool;
  KnownAssignedXids : list (Z * bool);
  lastOverflowedXid : Z;
  replication_slot_xmin : Z;
  replication_slot_catalog_xmin : Z
}.

Definition set_procs (l : list PGPROC) (s : shared) : shared :=
  mk_shared l (nextXid s) (latestCompletedXid s) (xactCompletionCount s) (oldestXid s) (xidVacLimit s) (xidStopLimit s)
    (SubTrans s) (parent_of s) (recovery s) (KnownAssignedXids s) (lastOverflowedXid s) (replication_slot_xmin s)
    (replication_slot_catalog_xmin s).
Definition set_next (x : Z) (s : shared) : shared :=
  mk_shared (procs s) x (latestCompletedXid s) (xactCompletionCount s) (oldestXid s) (xidVacLimit s) (xidStopLimit s)
    (SubTrans s) (parent_of s) (recovery s) (KnownAssignedXids s) (lastOverflowedXid s) (replication_slot_xmin s)
    (replication_slot_catalog_xmin s).
Definition set_completed (latest count : Z) (s : shared) : shared :=
  mk_shared (procs s) (nextXid s) latest count (oldestXid s) (xidVacLimit s) (xidStopLimit s)
    (SubTrans s) (parent_of s) (recovery s) (KnownAssignedXids s) (lastOverflowedXid s) (replication_slot_xmin s)
    (replication_slot_catalog_xmin s).
Definition set_subtrans (f g : Z -> Z) (s : shared) : shared :=
  mk_shared (procs s) (nextXid s) (latestCompletedXid s) (xactCompletionCount s) (oldestXid s) (xidVacLimit s) (xidStopLimit s)
    f g (recovery s) (KnownAssignedXids s) (lastOverflowedXid s) (replication_slot_xmin s)
    (replication_slot_catalog_xmin s).

(** A function changed at one place. *)
Definition at_key (k v : Z) (f : Z -> Z) : Z -> Z := fun x => if x =? k then v else f x.

(** ** Transactions begin *)

(** [while (XidFromFullTransactionId( *dest) < FirstNormalTransactionId)]; there are three
    special identifiers. *)
Definition skip_special : Z -> Z :=
  Nat.iter 3 (fun x => if XidFromFullTransactionId x <? FirstNormalTransactionId then x + 1 else x).
Definition FullTransactionIdAdvance (dest : Z) : Z :=
  let dest := dest + 1 in
  if dest <? FirstNormalTransactionId then dest else skip_special dest.

(** What [GetNewTransactionId] stores in the entry of its backend. *)
Definition advertise (isSubXact : bool) (full_xid : Z) (p : PGPROC) : PGPROC :=
  let xid := XidFromFullTransactionId full_xid in
  if negb isSubXact then
    mk_proc xid (p_xmin p) (p_flags p) (p_subxids p) (p_overflowed p) full_xid (p_children p)
  else if (length (p_subxids p) <? PGPROC_MAX_CACHED_SUBXIDS)%nat then
    mk_proc (p_xid p) (p_xmin p) (p_flags p) (p_subxids p ++ [xid]) (p_overflowed p) (p_top p) (p_children p ++ [full_xid])
  else
    mk_proc (p_xid p) (p_xmin p) (p_flags p) (p_subxids p) true (p_top p) (p_children p ++ [full_xid]).

(** The new page of pg_subtrans is all zeroes ([ExtendSUBTRANS]), so is the entry of a new
    identifier.  [under_postmaster] is [IsUnderPostmaster]; the signals and warnings of the
    branch are not part of the state.  The code releases XidGenLock for them and then reads
    nextXid again without another test: that is a step with [under_postmaster] false.  The
    backend is neither in a parallel operation nor in bootstrap mode. *)
Definition GetNewTransactionId (under_postmaster : bool) (me : nat) (isSubXact : bool) (s : shared) : res (Z * shared) :=
  if recovery s then Err "cannot assign TransactionIds during recovery" else
  let full_xid := nextXid s in
  let xid := XidFromFullTransactionId full_xid in
  if TransactionIdFollowsOrEquals xid (xidVacLimit s) && under_postmaster
     && TransactionIdFollowsOrEquals xid (xidStopLimit s)
  then Err "database is not accepting commands to avoid wraparound data loss"
  else
    let s := set_subtrans (at_key xid 0 (SubTrans s)) (at_key full_xid 0 (parent_of s)) s in
    let s := set_next (FullTransactionIdAdvance (nextXid s)) s in
    Ok (full_xid, set_procs (alter (advertise isSubXact full_xid) me (procs s)) s).

Definition SubTransSetParent (full_xid parent : Z) (s : shared) : shared :=
  set_subtrans (at_key (XidFromFullTransactionId full_xid) (XidFromFullTransactionId parent) (SubTrans s))
    (at_key full_xid parent (parent_of s)) s.

(** ** Transactions end *)

Definition FullXidRelativeTo (rel xid : Z) : Z := rel + xid_diff xid (XidFromFullTransactionId rel).

Definition MaintainLatestCompletedXid (latestXid : Z) (s : shared) : shared :=
  let cur_latest := latestCompletedXid s in
  if TransactionIdPrecedes (XidFromFullTransactionId cur_latest) latestXid
  then set_completed (FullXidRelativeTo cur_latest latestXid) (xactCompletionCount s) s
  else s.

Definition count_completion (s : shared) : shared := set_completed (latestCompletedXid s) (xactCompletionCount s + 1) s.

(** [for (j = count - 1; j >= 0; j--) if (xids[j] == anxid)] *)
Fixpoint search_back (anxid : Z) (xids : list Z) (j : nat) : option nat :=
  match j with
  | O => None
  | S j => if rd xids j =? anxid then Some j else search_back anxid xids j
  end.

(** The last element takes the place of the one removed; a warning says that it was not
    found. *)
Definition remove_cached (anxid : Z) (xids : list Z) : list Z :=
  match search_back anxid xids (length xids) with
  | Some j => take (length xids - 1) (<[j := rd xids (length xids - 1)]> xids)
  | None => xids
  end.

Definition XidCacheRemoveRunningXids (me : nat) (xid : Z) (xids : list Z) (latestXid : Z) (s : shared) : shared :=
  let remove p :=
    let cache := for_down (length xids) (fun i cache => remove_cached (rd xids i) cache) (p_subxids p) in
    let cache := remove_cached xid cache in
    mk_proc (p_xid p) (p_xmin p) (p_flags p) cache (p_overflowed p) (p_top p)
      (filter (fun c => XidFromFullTransactionId c ∉ xid :: xids) (p_children p)) in
  let s := set_procs (alter remove me (procs s)) s in
  count_completion (MaintainLatestCompletedXid latestXid s).

Definition ProcArrayEndTransactionInternal (me : nat) (latestXid : Z) (s : shared) : shared :=
  let clear p :=
    let flags := if negb (Z.land (p_flags p) PROC_VACUUM_STATE_MASK =? 0)
                 then Z.land (p_flags p) (Z.lnot PROC_VACUUM_STATE_MASK) else p_flags p in
    mk_proc InvalidTransactionId InvalidTransactionId flags [] false 0 [] in
  let s := set_procs (alter clear me (procs s)) s in
  count_completion (MaintainLatestCompletedXid latestXid s).

(** ** Snapshots *)

(** [GlobalVisState]: the two horizons. *)
Record GlobalVisState : Set := mk_vis { definitely_needed : Z; maybe_needed : Z }.

(** The variables of the backend that a snapshot changes. *)
Record backend : Type := mk_backend {
  b_TransactionXmin : Z;
  RecentXmin : Z;
  GlobalVisSharedRels : GlobalVisState;
  GlobalVisCatalogRels : GlobalVisState;
  GlobalVisDataRels : GlobalVisState;
  GlobalVisTempRels : GlobalVisState;
  currentCommandId : Z
}.

(** A snapshot and the count of completed transactions when its contents were made. *)
Record SnapshotData : Type := mk_snapdata { contents : Snapshot; snapXactCompletionCount : Z }.

Definition TransactionIdOlder (a b : Z) : Z :=
  if negb (TransactionIdIsValid a) then b
  else if negb (TransactionIdIsValid b) then a
  else if TransactionIdPrecedes a b then a else b.

Definition FullTransactionIdNewer (a b : Z) : Z :=
  if XidFromFullTransactionId a =? 0 then b
  else if XidFromFullTransactionId b =? 0 then a
  else if b <? a then a else b.

(** The variables of the loops. *)
Record collecting : Type := mk_collecting {
  c_xmin : Z;
  c_xip : list Z;
  c_subxip : list Z;
  c_overflowed : bool
}.

(** The body of the loop over the array. *)
Definition collect_proc (mypgxactoff : nat) (xmax : Z) (pgxactoff : nat) (p : PGPROC) (c : collecting) : collecting :=
  let xid := p_xid p in
  if xid =? InvalidTransactionId then c
  else if (pgxactoff =? mypgxactoff)%nat then c
  else if negb (xid_diff xid xmax <? 0) then c
  else if negb (Z.land (p_flags p) (Z.lor PROC_IN_LOGICAL_DECODING PROC_IN_VACUUM) =? 0) then c
  else
    let xmin := if xid_diff xid (c_xmin c) <? 0 then xid else c_xmin c in
    let xip := c_xip c ++ [xid] in
    if negb (c_overflowed c) then
      if p_overflowed p then mk_collecting xmin xip (c_subxip c) true
      else mk_collecting xmin xip (c_subxip c ++ p_subxids p) false
    else mk_collecting xmin xip (c_subxip c) true.

Fixpoint collect_procs (mypgxactoff : nat) (xmax : Z) (pgxactoff : nat) (l : list PGPROC) (c : collecting) : collecting :=
  match l with
  | [] => c
  | p :: l => collect_procs mypgxactoff xmax (S pgxactoff) l (collect_proc mypgxactoff xmax pgxactoff p c)
  end.

(** The part of the array from tail to head, with KnownAssignedXidsValid. *)
Fixpoint KnownAssignedXidsGetAndSetXmin (known : list (Z * bool)) (xmax xmin : Z) (xarray : list Z) : list Z * Z :=
  match known with
  | [] => (xarray, xmin)
  | (_, false) :: known => KnownAssignedXidsGetAndSetXmin known xmax xmin xarray
  | (knownXid, true) :: known =>
      let xmin := if (length xarray =? 0)%nat && TransactionIdPrecedes knownXid xmin then knownXid else xmin in
      if TransactionIdIsValid xmax && TransactionIdFollowsOrEquals knownXid xmax then (xarray, xmin)
      else KnownAssignedXidsGetAndSetXmin known xmax xmin (xarray ++ [knownXid])
  end.

(** [if (!TransactionIdIsValid(MyProc->xmin)) MyProc->xmin = TransactionXmin = xmin] *)
Definition publish_xmin (me : nat) (xmin : Z) (s : shared) (TransactionXmin : Z) : shared * Z :=
  if negb (TransactionIdIsValid (from_option p_xmin InvalidTransactionId (procs s !! me))) then
    (set_procs (alter (fun p => mk_proc (p_xid p) xmin (p_flags p) (p_subxids p) (p_overflowed p) (p_top p) (p_children p))
                  me (procs s)) s, xmin)
  else (s, TransactionXmin).

Definition GetSnapshotDataReuse (me : nat) (snapshot : SnapshotData) (s : shared) (b : backend)
  : option (SnapshotData * shared * backend) :=
  if snapXactCompletionCount snapshot =? 0 then None
  else if negb (xactCompletionCount s =? snapXactCompletionCount snapshot) then None
  else
    let snap := contents snapshot in
    let '(s, txmin) := publish_xmin me (s_xmin snap) s (b_TransactionXmin b) in
    Some (mk_snapdata (mk_snapshot (snapshot_type snap) (s_xmin snap) (s_xmax snap) (s_xip snap) (s_subxip snap)
            (suboverflowed snap) (takenDuringRecovery snap) (currentCommandId b) (speculativeToken snap))
            (snapXactCompletionCount snapshot),
          s,
          mk_backend txmin (s_xmin snap) (GlobalVisSharedRels b) (GlobalVisCatalogRels b) (GlobalVisDataRels b)
            (GlobalVisTempRels b) (currentCommandId b)).

(** The contents of a new snapshot: the part of the function under ProcArrayLock. *)
Definition collect_xids (me : nat) (s : shared) : Z * collecting :=
  let myxid := from_option p_xid InvalidTransactionId (procs s !! me) in
  let xmax := TransactionIdAdvance (XidFromFullTransactionId (latestCompletedXid s)) in
  let xmin := if TransactionIdIsNormal myxid && (xid_diff myxid xmax <? 0) then myxid else xmax in
  (xmax,
   if negb (recovery s) then collect_procs me xmax 0 (procs s) (mk_collecting xmin [] [] false)
   else
     let '(subxip, xmin) := KnownAssignedXidsGetAndSetXmin (KnownAssignedXids s) xmax xmin [] in
     mk_collecting xmin [] subxip (TransactionIdPrecedesOrEquals xmin (lastOverflowedXid s))).

(** The rest: the horizons of the backend, and the snapshot itself. *)
Definition GetSnapshotData (me : nat) (snapshot : SnapshotData) (s : shared) (b : backend)
  : SnapshotData * shared * backend :=
  match GetSnapshotDataReuse me snapshot s b with
  | Some r => r
  | None =>
      let latest_completed := latestCompletedXid s in
      let myxid := from_option p_xid InvalidTransactionId (procs s !! me) in
      let '(xmax, c) := collect_xids me s in
      let xmin := c_xmin c in
      let '(s', txmin) := publish_xmin me xmin s (b_TransactionXmin b) in
      let oldestfxid := FullXidRelativeTo latest_completed (oldestXid s) in
      let def_vis_xid_data := TransactionIdOlder xmin (replication_slot_xmin s) in
      let def_vis_xid := TransactionIdOlder (replication_slot_catalog_xmin s) def_vis_xid_data in
      let def_vis_fxid := FullXidRelativeTo latest_completed def_vis_xid in
      let def_vis_fxid_data := FullXidRelativeTo latest_completed def_vis_xid_data in
      let update fxid v := mk_vis (FullTransactionIdNewer fxid (definitely_needed v))
                             (FullTransactionIdNewer (maybe_needed v) oldestfxid) in
      let temp := if TransactionIdIsNormal myxid then FullXidRelativeTo latest_completed myxid
                  else FullTransactionIdAdvance latest_completed in
      let snap := contents snapshot in
      (mk_snapdata (mk_snapshot (snapshot_type snap) xmin xmax (c_xip c) (c_subxip c) (c_overflowed c) (recovery s)
         (currentCommandId b) (speculativeToken snap)) (xactCompletionCount s),
       s',
       mk_backend txmin xmin (update def_vis_fxid (GlobalVisSharedRels b)) (update def_vis_fxid (GlobalVisCatalogRels b))
         (update def_vis_fxid_data (GlobalVisDataRels b)) (mk_vis temp temp) (currentCommandId b))
  end.

(** ** The machine *)

(** A transaction or subtransaction of a backend that has not ended. *)
Definition runs_in (p : PGPROC) (X : Z) : Prop := p_top p <> 0 /\ X ∈ p_top p :: p_children p.
Definition live (s : shared) (X : Z) : Prop := exists p, p ∈ procs s /\ runs_in p X.

(** Identifiers are only given out while all that matters is less than half the range of
    32-bit identifiers behind: this is what xidStopLimit is set for. *)
Definition headroom (s : shared) (next : Z) : Prop :=
  next - 2 ^ 31 < latestCompletedXid s /\ forall X, live s X -> next - 2 ^ 31 < X.

(** What a backend does: begin a transaction; begin a subtransaction of one that it has;
    abort some; end the transaction, reporting its latest identifier; change its flags while
    it has no identifier; take a snapshot. *)
Inductive xact_step : shared -> shared -> Prop :=
| begin_xact s me p up X s' : procs s !! me = Some p -> p_top p = 0 ->
    GetNewTransactionId up me false s = Ok (X, s') -> headroom s (nextXid s') -> xact_step s s'
| begin_subxact s me p up parent X s' : procs s !! me = Some p -> runs_in p parent ->
    GetNewTransactionId up me true s = Ok (X, s') -> headroom s (nextXid s') ->
    xact_step s (SubTransSetParent X parent s')
| abort_subxacts s me p X subs : procs s !! me = Some p -> X :: subs ⊆ p_children p ->
    xact_step s (XidCacheRemoveRunningXids me (XidFromFullTransactionId X) (XidFromFullTransactionId <$> subs)
      (TransactionIdLatest (XidFromFullTransactionId X) (XidFromFullTransactionId <$> subs)) s)
| end_xact s me p : procs s !! me = Some p -> p_top p <> 0 ->
    xact_step s (ProcArrayEndTransactionInternal me
      (TransactionIdLatest (p_xid p) (XidFromFullTransactionId <$> p_children p)) s)
| set_flags s me p flags : procs s !! me = Some p -> p_top p = 0 ->
    xact_step s (set_procs (<[me := mk_proc (p_xid p) (p_xmin p) flags (p_subxids p) (p_overflowed p) (p_top p) (p_children p)]>
                              (procs s)) s)
| take_snapshot s me b snapshot snapshot' s' b' : GetSnapshotData me snapshot s b = (snapshot', s', b') -> xact_step s s'.

(** Just after startup: nothing runs, and pg_subtrans has been zeroed. *)
Record started (s : shared) : Prop := {
  st_next : FirstNormalTransactionId <= nextXid s /\ normal_full (nextXid s);
  st_latest : normal_full (latestCompletedXid s) /\ FullTransactionIdAdvance (latestCompletedXid s) = nextXid s
              /\ FirstNormalTransactionId <= latestCompletedXid s;
  st_idle : Forall (fun p => p_xid p = 0 /\ p_subxids p = [] /\ p_overflowed p = false /\ p_top p = 0 /\ p_children p = []) (procs s);
  st_subtrans : (forall x, SubTrans s x = 0) /\ (forall X, parent_of s X = 0);
  st_primary : recovery s = false
}.

Definition reachable (s : shared) : Prop := exists s0, started s0 /\ rtc xact_step s0 s.

(** The transaction to which a subtransaction belongs. *)
Inductive belongs (f : Z -> Z) : Z -> Z -> Prop :=
| belongs_top X : f X = 0 -> belongs f X X
| belongs_sub X T : f X <> 0 -> normal_full (f X) -> f X < X -> belongs f (f X) T -> belongs f X T.

(** ** Identifiers *)

Local Notation xid32 := XidFromFullTransactionId.

Lemma xid32_range X : 0 <= xid32 X < 2 ^ 32.
Proof. unfold XidFromFullTransactionId, uwrap. apply Z.mod_pos_bound. lia. Qed.

Lemma xid32_inj X Y : Z.abs (X - Y) < 2 ^ 32 -> xid32 X = xid32 Y -> X = Y.
Proof.
  intros Hd E. unfold XidFromFullTransactionId, uwrap in E. pose proof (Z.div_mod X (2 ^ 32)). pose proof (Z.div_mod Y (2 ^ 32)). nia.
Qed.

Lemma normal_xid_valid X : normal_full X -> xid32 X <> 0.
Proof. unfold normal_full, TransactionIdIsNormal, FirstNormalTransactionId. rewrite Z.leb_le. lia. Qed.

Lemma normal_nonzero X : normal_full X -> X <> 0.
Proof. by intros H ->. Qed.

Lemma follows_full X Y : normal_full X -> normal_full Y -> Z.abs (X - Y) < 2 ^ 31 ->
  TransactionIdFollowsOrEquals (xid32 X) (xid32 Y) = (Y <=? X).
Proof.
  intros Hx Hy Hd. unfold TransactionIdFollowsOrEquals. rewrite Hx, Hy. simpl. rewrite xid_diff_full by done.
  rewrite Z.geb_leb. destruct (Z.leb_spec 0 (X - Y)), (Z.leb_spec Y X); lia || done.
Qed.

Lemma xid32_at q r : 0 <= r < 2 ^ 32 -> xid32 (2 ^ 32 * q + r) = r.
Proof.
  intros Hr. unfold XidFromFullTransactionId, uwrap. rewrite Z.add_comm, Z.mul_comm, Z.mod_add by lia. by apply Z.mod_small.
Qed.

(** The next identifier that is not special. *)
Lemma advance_full X : FirstNormalTransactionId <= X ->
  exists q r, 0 <= r < 2 ^ 32 /\ X + 1 = 2 ^ 32 * q + r /\ FullTransactionIdAdvance X = 2 ^ 32 * q + Z.max r 3.
Proof.
  unfold FirstNormalTransactionId. intros H3. exists ((X + 1) / 2 ^ 32), ((X + 1) mod 2 ^ 32).
  pose proof (Z.mod_pos_bound (X + 1) (2 ^ 32) ltac:(lia)) as Hr. pose proof (Z.div_mod (X + 1) (2 ^ 32) ltac:(lia)) as E.
  split; [done|]. split; [done|]. unfold FullTransactionIdAdvance, skip_special, FirstNormalTransactionId.
  destruct (Z.ltb_spec (X + 1) 3); [lia|]. set (q := (X + 1) / 2 ^ 32) in *. set (r := (X + 1) mod 2 ^ 32) in *.
  clearbody q r. rewrite E. cbv [Nat.iter nat_rect].
  assert (Hstep : forall k, 0 <= k < 2 ^ 32 ->
    (if xid32 (2 ^ 32 * q + k) <? 3 then 2 ^ 32 * q + k + 1 else 2 ^ 32 * q + k) = 2 ^ 32 * q + (if k <? 3 then k + 1 else k)).
  { intros k Hk. rewrite xid32_at by done. destruct (k <? 3); lia. }
  rewrite !Hstep; (repeat case_match; lia).
Qed.

Lemma advance_spec X : FirstNormalTransactionId <= X ->
  let A := FullTransactionIdAdvance X in
  X < A <= X + 4 /\ normal_full A /\ (forall Y, X < Y < A -> ~ normal_full Y)
  /\ (normal_full X -> TransactionIdAdvance (xid32 X) = xid32 A).
Proof.
  intros H3 A. destruct (advance_full X H3) as (q & r & Hr & E & EA). fold A in EA. rewrite EA.
  split; [lia|]. split; [|split].
  - unfold normal_full. rewrite xid32_at by lia. apply Z.leb_le. unfold FirstNormalTransactionId. lia.
  - intros Y HY HN. assert (EY : Y = 2 ^ 32 * q + (Y - 2 ^ 32 * q)) by lia. rewrite EY in HN. unfold normal_full in HN.
    rewrite xid32_at in HN by lia. apply Z.leb_le in HN. unfold FirstNormalTransactionId in HN. lia.
  - intros HX. rewrite xid32_at by lia. unfold TransactionIdAdvance, FirstNormalTransactionId.
    assert (Eu : uwrap 32 (xid32 X + 1) = r).
    { rewrite <- (xid32_at q r Hr), <- E. unfold XidFromFullTransactionId, uwrap. by rewrite Z.add_mod_idemp_l by lia. }
    rewrite Eu. destruct (Z.ltb_spec r 3); lia.
Qed.

(** ** The invariant *)

(** An entry of the array, identifiers below [next]. *)
Definition recent (next X : Z) : Prop := normal_full X /\ next - 2 ^ 31 < X < next.

Record busy (f : Z -> Z) (next : Z) (p : PGPROC) : Prop := {
  bp_xid : p_xid p = xid32 (p_top p);
  bp_top : f (p_top p) = 0;
  bp_recent : Forall (recent next) (p_top p :: p_children p);
  bp_children : Forall (fun c => p_top p < c /\ belongs f c (p_top p)) (p_children p);
  bp_nodup : NoDup (p_subxids p);
  bp_cached x : x ∈ p_subxids p -> exists c, c ∈ p_children p /\ x = xid32 c;
  bp_complete c : p_overflowed p = false -> c ∈ p_children p -> xid32 c ∈ p_subxids p
}.

Definition idle (p : PGPROC) : Prop :=
  p_xid p = 0 /\ p_subxids p = [] /\ p_overflowed p = false /\ p_top p = 0 /\ p_children p = [].

Definition proc_ok (f : Z -> Z) (next : Z) (p : PGPROC) : Prop := if decide (p_top p = 0) then idle p else busy f next p.

(** pg_subtrans holds the parents of recent identifiers. *)
Definition tree_ok (s : shared) : Prop :=
  forall X, recent (nextXid s) X ->
    if decide (parent_of s X = 0) then SubTrans s (xid32 X) = 0
    else SubTrans s (xid32 X) = xid32 (parent_of s X) /\ normal_full (parent_of s X) /\ parent_of s X < X.

Record inv (s : shared) : Prop := {
  i_next : FirstNormalTransactionId <= nextXid s /\ normal_full (nextXid s);
  i_latest : recent (nextXid s) (latestCompletedXid s) /\ FirstNormalTransactionId <= latestCompletedXid s;
  i_procs : Forall (proc_ok (parent_of s) (nextXid s)) (procs s);
  i_done X : normal_full X -> X < nextXid s -> ~ live s X -> X <= latestCompletedXid s;
  i_tree : tree_ok s;
  i_primary : recovery s = false
}.

Lemma belongs_agree f g X T : (forall Y, Y <= X -> g Y = f Y) -> belongs f X T -> belongs g X T.
Proof.
  intros Hfg H. induction H as [X H|X T H1 H2 H3 _ IH]; [constructor; by rewrite Hfg|].
  assert (E : g X = f X) by (by apply Hfg). apply belongs_sub; rewrite E; [done..|]. apply IH. intros Y HY. apply Hfg. lia.
Qed.

Lemma runs_recent f next p X : proc_ok f next p -> runs_in p X -> recent next X /\ busy f next p.
Proof.
  intros Hp [H1 H2]. unfold proc_ok in Hp. rewrite decide_False in Hp by done. split; [|done].
  eapply Forall_forall; [|exact H2]. apply Hp.
Qed.

Lemma live_recent s X : inv s -> live s X -> recent (nextXid s) X.
Proof. intros H (p & Hp & Hr). destruct (runs_recent _ _ p X (proj1 (Forall_forall _ _) (i_procs _ H) p Hp) Hr). done. Qed.

Lemma started_inv s : started s -> inv s.
Proof.
  intros [(N1 & N2) (L1 & L2 & L3) Hi [T1 T2] Hr]. destruct (advance_spec (latestCompletedXid s) L3) as (A1 & A2 & A3 & _). rewrite L2 in *.
  split; [done| | | | |done].
  - split; [split; [done|lia]|done].
  - eapply Forall_impl; [exact Hi|]. intros p Hp. unfold proc_ok. rewrite decide_True; [done|apply Hp].
  - intros X HX Hlt _. apply Z.nlt_ge. intros Hgt. by apply (A3 X).
  - intros X _. by rewrite decide_True by done.
Qed.

Lemma elem_of_alter {A} (f : A -> A) i (l : list A) x :
  x ∈ alter f i l -> (exists y, l !! i = Some y /\ x = f y) \/ (exists j, j <> i /\ l !! j = Some x).
Proof.
  intros (j & Hj)%list_elem_of_lookup. destruct (decide (j = i)) as [->|Hne].
  - rewrite list_lookup_alter_eq in Hj. destruct (l !! i) as [y|] eqn:E; [|done]. injection Hj as <-. left. by exists y.
  - rewrite list_lookup_alter_ne in Hj by done. right. by exists j.
Qed.

Lemma alter_elem {A} (f : A -> A) i (l : list A) y : l !! i = Some y -> f y ∈ alter f i l.
Proof. intros H. apply list_elem_of_lookup. exists i. by rewrite list_lookup_alter_eq, H. Qed.

Lemma alter_other {A} (f : A -> A) i j (l : list A) y : j <> i -> l !! j = Some y -> y ∈ alter f i l.
Proof. intros Hne H. apply list_elem_of_lookup. exists j. by rewrite list_lookup_alter_ne. Qed.

(** An entry stays good while the counter grows and other links are made. *)
Lemma proc_ok_grows f g next next' p : (forall Y, Y < next -> g Y = f Y) -> next <= next' ->
  (forall X, runs_in p X -> next' - 2 ^ 31 < X) -> proc_ok f next p -> proc_ok g next' p.
Proof.
  intros Hfg Hn Hw. unfold proc_ok. destruct (decide _) as [|Hne]; [done|]. intros [H1 H2 H3 H4 H5 H6 H7].
  assert (Hr : forall X, X ∈ p_top p :: p_children p -> X < next) by (intros X HX; eapply Forall_forall in H3; [|exact HX]; apply H3).
  split; [done| | | |done..].
  - rewrite Hfg; [done|]. apply Hr. by left.
  - apply Forall_forall. intros X HX. eapply Forall_forall in H3; [|exact HX]. destruct H3 as [? ?]. split; [done|].
    specialize (Hw X (conj Hne HX)). lia.
  - apply Forall_forall. intros X HX. pose proof (Hr X ltac:(by right)). eapply Forall_forall in H4; [|exact HX]. destruct H4 as [? Hb].
    split; [done|]. eapply belongs_agree; [|exact Hb]. intros Y HY. apply Hfg. lia.
Qed.

(** ** Transactions that begin *)

Lemma begin_inv s s' me p h par : inv s -> procs s !! me = Some p -> nextXid s' = FullTransactionIdAdvance (nextXid s) ->
  latestCompletedXid s' = latestCompletedXid s -> recovery s' = recovery s -> headroom s (nextXid s') ->
  procs s' = alter h me (procs s) ->
  (forall Y, parent_of s' Y = if Y =? nextXid s then par else parent_of s Y) ->
  (forall x, SubTrans s' x = if x =? xid32 (nextXid s) then (if decide (par = 0) then 0 else xid32 par) else SubTrans s x) ->
  par = 0 \/ normal_full par /\ par < nextXid s ->
  proc_ok (parent_of s') (nextXid s') (h p) -> runs_in (h p) (nextXid s) -> (forall Y, runs_in p Y -> runs_in (h p) Y) ->
  inv s'.
Proof.
  intros Hs Hp En El Er [Hr1 Hr2] Ep Ef Et Hpar Hq Hnew Hold. destruct (i_next _ Hs) as [N1 N2].
  destruct (advance_spec (nextXid s) N1) as (A1 & A2 & A3 & _). rewrite <- En in *.
  assert (Hlive : forall Y, live s Y -> live s' Y).
  { intros Y (q & (j & Hj)%list_elem_of_lookup & HY). destruct (decide (j = me)) as [->|Hne].
    - exists (h p). rewrite Ep. split; [by apply alter_elem|]. apply Hold. congruence.
    - exists q. rewrite Ep. split; [by eapply alter_other|done]. }
  split.
  - split; [lia|done].
  - rewrite El. destruct (i_latest _ Hs) as [[L1 L2] L3]. split; [split; [done|lia]|done].
  - apply Forall_forall. intros q Hin. rewrite Ep in Hin. apply elem_of_alter in Hin as [(y & Hy & ->)|(j & Hne & Hj)].
    + replace y with p by congruence. done.
    + assert (Hjin : q ∈ procs s) by (by eapply list_elem_of_lookup_2).
      apply (proc_ok_grows (parent_of s) _ (nextXid s)); [|lia| |].
      * intros Y HY. rewrite Ef. by destruct (Z.eqb_spec Y (nextXid s)); [lia|].
      * intros X HX. apply Hr2. by exists q.
      * pose proof (i_procs _ Hs) as Hps. rewrite Forall_forall in Hps. by apply Hps.
  - intros Y HY Hlt Hno. rewrite El. destruct (decide (Y < nextXid s)); [apply (i_done _ Hs); [done..|]; intros HL; by apply Hno, Hlive|].
    destruct (decide (Y = nextXid s)) as [->|]; [|destruct (A3 Y); [lia|done]].
    destruct Hno. exists (h p). rewrite Ep. split; [by apply alter_elem|done].
  - intros Y [HY1 HY2]. rewrite Ef, Et. destruct (Z.eqb_spec Y (nextXid s)) as [->|HYne].
    + rewrite Z.eqb_refl. destruct (decide (par = 0)); [done|]. destruct Hpar as [|[? ?]]; done.
    + assert (HYs : recent (nextXid s) Y).
      { split; [done|]. destruct (decide (Y < nextXid s)); [lia|]. destruct (A3 Y); [lia|done]. }
      destruct (Z.eqb_spec (xid32 Y) (xid32 (nextXid s))) as [E|_]; [apply xid32_inj in E; [done|destruct HYs; lia]|].
      by apply (i_tree _ Hs).
  - rewrite Er. apply Hs.
Qed.

Lemma begin_xact_inv s me p up X s' : inv s -> procs s !! me = Some p -> p_top p = 0 ->
  GetNewTransactionId up me false s = Ok (X, s') -> headroom s (nextXid s') -> inv s'.
Proof.
  intros Hs Hp Ht E Hr. unfold GetNewTransactionId in E. destruct (recovery s); [done|]. destruct (_ && _ && _); [done|]. injection E as EX Es.
  assert (Hi : idle p).
  { pose proof (i_procs _ Hs) as Hps. rewrite Forall_forall in Hps. specialize (Hps p ltac:(by eapply list_elem_of_lookup_2)).
    unfold proc_ok in Hps. by rewrite decide_True in Hps. }
  destruct Hi as (H1 & H2 & H3 & _ & H4). destruct (i_next _ Hs) as [N1 N2].
  destruct (advance_spec (nextXid s) N1) as (A1 & A2 & A3 & _).
  assert (Hx : nextXid s <> 0) by (by apply normal_nonzero).
  apply (begin_inv s s' me p (advertise false (nextXid s)) 0); subst s'; cbn; try done; [by left| | |].
  - unfold proc_ok, advertise. cbn. rewrite decide_False by done. split; cbn; rewrite ?H2, ?H4; [done| | |constructor|constructor|set_solver|set_solver].
    + unfold at_key. by rewrite Z.eqb_refl.
    + constructor; [|constructor]. split; [done|lia].
  - split; cbn; [done|by left].
  - intros Y [? _]. done.
Qed.

Lemma begin_subxact_inv s me p up par X s' : inv s -> procs s !! me = Some p -> runs_in p par ->
  GetNewTransactionId up me true s = Ok (X, s') -> headroom s (nextXid s') -> inv (SubTransSetParent X par s').
Proof.
  intros Hs Hp Hrun E Hr. unfold GetNewTransactionId in E. destruct (recovery s); [done|]. destruct (_ && _ && _); [done|]. injection E as EX Es.
  pose proof (i_procs _ Hs) as Hps. rewrite Forall_forall in Hps. specialize (Hps p ltac:(by eapply list_elem_of_lookup_2)).
  destruct (runs_recent _ _ _ _ Hps Hrun) as [[P1 P2] Hb]. destruct (i_next _ Hs) as [N1 N2].
  destruct (advance_spec (nextXid s) N1) as (A1 & A2 & A3 & _). destruct Hrun as [Ht Hpar]. destruct Hr as [Hr1 Hr2].
  assert (Hw : forall Y, Y ∈ p_top p :: p_children p -> nextXid s' - 2 ^ 31 < Y).
  { intros Y HY. apply Hr2. exists p. split; [by eapply list_elem_of_lookup_2|done]. }
  assert (Hp0 : par <> 0) by (by apply normal_nonzero). set (g := parent_of (SubTransSetParent X par s')).
  assert (Hg : forall Y, g Y = if Y =? nextXid s then par else parent_of s Y).
  { intros Y. unfold g. subst s' X. cbn. unfold at_key. by destruct (Y =? nextXid s). }
  assert (Hsame : forall Y, Y < nextXid s -> g Y = parent_of s Y) by (intros Y HY; rewrite Hg; by destruct (Z.eqb_spec Y (nextXid s)); [lia|]).
  assert (En : nextXid s' = FullTransactionIdAdvance (nextXid s)) by (by subst s').
  assert (HX : proc_ok g (nextXid s') (advertise true (nextXid s) p)).
  { assert (Hold : proc_ok g (nextXid s') p).
    { apply (proc_ok_grows (parent_of s) _ (nextXid s)); [done|lia| |done]. intros Y [_ HY]. by apply Hw. }
    unfold proc_ok in Hold. rewrite decide_False in Hold by done. destruct Hold as [B1 B2 B3 B4 B5 B6 B7].
    assert (Hbel : belongs g (nextXid s) (p_top p)).
    { apply belongs_sub; rewrite Hg, Z.eqb_refl; [done..|lia|]. apply elem_of_cons in Hpar as [->|Hc]; [by constructor|].
      eapply Forall_forall in B4; [|exact Hc]. apply B4. }
    assert (Hfresh : xid32 (nextXid s) ∉ p_subxids p).
    { intros (c & Hc & Ec)%B6. pose proof (bp_recent _ _ _ Hb) as Hre. eapply Forall_forall in Hre; [|right; exact Hc].
      destruct Hre as [_ ?]. apply xid32_inj in Ec; [lia|]. lia. }
    assert (Hch : Forall (fun c => p_top p < c /\ belongs g c (p_top p)) (p_children p ++ [nextXid s])).
    { apply Forall_app. split; [done|]. constructor; [|constructor]. split; [|done].
      pose proof (bp_recent _ _ _ Hb) as Hre. apply Forall_cons_1 in Hre as [[_ ?] _]. lia. }
    assert (Hre : Forall (recent (nextXid s')) (p_top p :: p_children p ++ [nextXid s])).
    { rewrite app_comm_cons. apply Forall_app. split; [done|]. constructor; [|constructor]. split; [done|lia]. }
    unfold proc_ok, advertise. cbn [negb]. destruct (_ <? _)%nat; cbn; rewrite decide_False by done; split; cbn; try done.
    - apply NoDup_app. split; [done|]. split; [|apply NoDup_singleton]. intros x Hx Hx2. apply list_elem_of_singleton in Hx2 as ->. done.
    - intros x [Hx|Hx]%elem_of_app; [destruct (B6 x Hx) as (c & ? & ?); exists c; split; [set_solver|done]|].
      apply list_elem_of_singleton in Hx as ->. exists (nextXid s). split; [set_solver|done].
    - intros c Ho [Hc|Hc]%elem_of_app; apply elem_of_app; [left; by apply B7|right; set_solver].
    - intros x Hx. destruct (B6 x Hx) as (c & ? & ?). exists c. split; [set_solver|done]. }
  assert (Hkeep : forall Y, Y ∈ p_top p :: p_children p -> runs_in (advertise true (nextXid s) p) Y).
  { intros Y HY. unfold advertise. cbn [negb]. destruct (_ <? _)%nat; (split; cbn; [done|set_solver]). }
  apply (begin_inv s _ me p (advertise true (nextXid s)) par);
    [done|done|by subst s'|by subst s'|by subst s'|by subst s'|by subst s'|exact Hg| |right; split; [done|lia]|exact HX| |].
  - intros x. subst s' X. cbn. unfold at_key. rewrite decide_False by done. by destruct (x =? _).
  - unfold advertise. cbn [negb]. destruct (_ <? _)%nat; (split; cbn; [done|set_solver]).
  - intros Y [_ HY]. by apply Hkeep.
Qed.

(** ** Transactions that end *)

Lemma maintain_spec M s : normal_full M -> normal_full (latestCompletedXid s) -> Z.abs (latestCompletedXid s - M) < 2 ^ 31 ->
  MaintainLatestCompletedXid (xid32 M) s = set_completed (Z.max (latestCompletedXid s) M) (xactCompletionCount s) s.
Proof.
  intros HM HL Hd. unfold MaintainLatestCompletedXid. rewrite precedes_full by done. destruct (Z.ltb_spec (latestCompletedXid s) M).
  - unfold FullXidRelativeTo. rewrite xid_diff_full by lia. f_equal. lia.
  - rewrite Z.max_l by lia. by destruct s.
Qed.

Lemma end_inv s s' me p h M : inv s -> procs s !! me = Some p -> recent (nextXid s) M ->
  nextXid s' = nextXid s -> latestCompletedXid s' = Z.max (latestCompletedXid s) M -> recovery s' = recovery s ->
  parent_of s' = parent_of s -> SubTrans s' = SubTrans s -> procs s' = alter h me (procs s) ->
  proc_ok (parent_of s) (nextXid s) (h p) -> (forall Y, runs_in p Y -> runs_in (h p) Y \/ Y <= M) -> inv s'.
Proof.
  intros Hs Hp HM En El Er Ef Et Ep Hq Hend. destruct (i_latest _ Hs) as [HL L3]. split; rewrite ?En, ?El, ?Ef; [apply Hs| | | |..].
  - split; [|lia]. by destruct (Z.max_spec (latestCompletedXid s) M) as [[_ ->]|[_ ->]].
  - apply Forall_forall. intros q Hin. rewrite Ep in Hin. pose proof (i_procs _ Hs) as Hps. rewrite Forall_forall in Hps.
    apply elem_of_alter in Hin as [(y & Hy & ->)|(j & Hne & Hj)]; [by replace y with p by congruence|].
    apply Hps. by eapply list_elem_of_lookup_2.
  - intros X HX Hlt Hno. destruct (decide (X <= latestCompletedXid s)) as [|Hgt]; [lia|].
    assert (HLX : ~ ~ live s X) by (intros HL'; apply Hgt, (i_done _ Hs); done).
    apply dec_stable. intros Hx. apply HLX. intros (q & (j & Hj)%list_elem_of_lookup & Hr).
    destruct (decide (j = me)) as [->|Hne].
    + replace q with p in Hr by congruence. destruct (Hend X Hr) as [Hr'|]; [|lia]. apply Hno. exists (h p). rewrite Ep.
      split; [by apply alter_elem|done].
    + apply Hno. exists q. rewrite Ep. split; [by eapply alter_other|done].
  - intros X HX. rewrite En in HX. rewrite Ef, Et. by apply (i_tree _ Hs).
  - rewrite Er. apply Hs.
Qed.

(** The latest identifier of a transaction. *)
Lemma latest_full next X subs : Forall (recent next) (X :: subs) ->
  TransactionIdLatest (xid32 X) (xid32 <$> subs) = xid32 (full_max subs X) /\ recent next (full_max subs X)
  /\ forall Y, Y ∈ X :: subs -> Y <= full_max subs X.
Proof.
  intros H. split; [|split].
  - apply TransactionIdLatest_max; [eapply Forall_impl; [exact H|]; by intros ? []|].
    rewrite Forall_forall in H. intros a b Ha Hb. destruct (H a Ha) as [_ ?], (H b Hb) as [_ ?]. lia.
  - apply Forall_cons_1 in H as [HX H]. unfold full_max. induction H as [|Y l HY _ IH]; simpl; [done|].
    by destruct (Z.max_spec Y (foldr Z.max X l)) as [[_ ->]|[_ ->]].
  - clear H. intros Y HY. unfold full_max. induction subs as [|Z l IH]; simpl; [set_solver by lia|].
    apply elem_of_cons in HY as [->|[->|HY]%elem_of_cons]; [|lia|]; (etrans; [apply IH; set_solver|lia]).
Qed.

Lemma end_xact_inv s me p : inv s -> procs s !! me = Some p -> p_top p <> 0 ->
  inv (ProcArrayEndTransactionInternal me (TransactionIdLatest (p_xid p) (xid32 <$> p_children p)) s).
Proof.
  intros Hs Hp Ht. pose proof (i_procs _ Hs) as Hps. rewrite Forall_forall in Hps.
  specialize (Hps p ltac:(by eapply list_elem_of_lookup_2)). unfold proc_ok in Hps. rewrite decide_False in Hps by done.
  rewrite (bp_xid _ _ _ Hps). destruct (latest_full _ _ _ (bp_recent _ _ _ Hps)) as (-> & [M1 M2] & Hmax).
  set (M := full_max _ _) in *. destruct (i_latest _ Hs) as [[L1 L2] _]. unfold ProcArrayEndTransactionInternal.
  rewrite maintain_spec by (done || (cbn; lia)).
  eapply (end_inv s _ me p _ M Hs Hp); [by split|reflexivity..| |].
  - unfold proc_ok. cbn. rewrite decide_True by done. done.
  - intros Y [_ HY]. right. by apply Hmax.
Qed.

(** *** The cache of subtransactions *)

Lemma search_back_spec x l j : (j <= length l)%nat ->
  match search_back x l j with
  | Some k => (k < length l)%nat /\ l !! k = Some x
  | None => forall k, (k < j)%nat -> l !! k <> Some x
  end.
Proof.
  induction j as [|j IH]; intros Hj; simpl; [lia|]. destruct (Z.eqb_spec (rd l j) x) as [E|E].
  - split; [lia|]. rewrite rd_lookup by lia. by f_equal.
  - specialize (IH ltac:(lia)). destruct (search_back x l j); [done|]. intros k Hk Hl.
    destruct (decide (k = j)) as [->|]; [|by apply (IH k); [lia|]]. rewrite rd_lookup in Hl by lia. congruence.
Qed.

Lemma remove_cached_perm x l : if decide (x ∈ l) then x :: remove_cached x l ≡ₚ l else remove_cached x l = l.
Proof.
  unfold remove_cached. pose proof (search_back_spec x l (length l) ltac:(lia)) as Hs. destruct (search_back x l (length l)) as [j|].
  - destruct Hs as [Hj Hx]. rewrite decide_True by (by eapply list_elem_of_lookup_2).
    destruct l as [|z l _] using rev_ind; [done|]. rewrite length_app in *. simpl in *.
    replace (length l + 1 - 1)%nat with (length l) by lia. rewrite rd_app_r, Nat.sub_diag by lia. change (rd [z] 0) with z.
    destruct (decide (j = length l)) as [->|Hne].
    + rewrite lookup_app_r, Nat.sub_diag in Hx by lia. injection Hx as ->. rewrite insert_app_r_alt, take_app_length by lia.
      solve_Permutation.
    + rewrite lookup_app_l in Hx by lia. rewrite insert_app_l, take_app_le, take_ge by (rewrite ?length_insert; lia).
      rewrite insert_take_drop by lia. rewrite <- (take_drop_middle l j x Hx) at 3. solve_Permutation.
  - rewrite decide_False; [done|]. intros (k & Hk)%list_elem_of_lookup. apply (Hs k); [by eapply lookup_lt_Some|done].
Qed.

Lemma remove_cached_spec x l : NoDup l -> NoDup (remove_cached x l) /\ forall y, y ∈ remove_cached x l <-> y ∈ l /\ y <> x.
Proof.
  intros Hn. pose proof (remove_cached_perm x l) as H. destruct (decide (x ∈ l)) as [Hx|Hx].
  - rewrite <- H in Hn. apply NoDup_cons in Hn as [Hn1 Hn2]. split; [done|]. intros y. assert (Hy : y ∈ x :: remove_cached x l <-> y ∈ l) by (by rewrite H). rewrite <- Hy, elem_of_cons.
    split; [|by intros [[|] ?]]. intros Hin. split; [by right|]. by intros ->.
  - rewrite H. split; [done|]. intros y. split; [|by intros []]. intros Hy. split; [done|]. by intros ->.
Qed.

Lemma remove_all_spec xs l n : NoDup l -> (n <= length xs)%nat ->
  let l' := for_down n (fun i cache => remove_cached (rd xs i) cache) l in
  NoDup l' /\ forall y, y ∈ l' <-> y ∈ l /\ y ∉ take n xs.
Proof.
  revert l. induction n as [|n IH]; intros l Hn Hle; simpl; [split; [done|]; set_solver|].
  destruct (remove_cached_spec (rd xs n) l Hn) as [H1 H2]. destruct (IH _ H1 ltac:(lia)) as [H3 H4]. split; [done|].
  intros y. rewrite H4, H2, (take_S_r xs n (rd xs n)) by (by apply rd_lookup). set_solver.
Qed.

Lemma abort_subxacts_inv s me p X subs : inv s -> procs s !! me = Some p -> X :: subs ⊆ p_children p ->
  inv (XidCacheRemoveRunningXids me (xid32 X) (xid32 <$> subs) (TransactionIdLatest (xid32 X) (xid32 <$> subs)) s).
Proof.
  intros Hs Hp Hsub. pose proof (i_procs _ Hs) as Hps. rewrite Forall_forall in Hps.
  specialize (Hps p ltac:(by eapply list_elem_of_lookup_2)).
  assert (Ht : p_top p <> 0).
  { intros E. unfold proc_ok in Hps. rewrite decide_True in Hps by done. destruct Hps as (_ & _ & _ & _ & E'). rewrite E' in Hsub. set_solver. }
  pose proof Hps as Hb. unfold proc_ok in Hb. rewrite decide_False in Hb by done. destruct Hb as [B1 B2 B3 B4 B5 B6 B7].
  assert (Hrec : Forall (recent (nextXid s)) (X :: subs)).
  { rewrite Forall_forall in B3 |- *. intros Y HY. apply B3. right. by apply Hsub. }
  destruct (latest_full _ _ _ Hrec) as (-> & [M1 M2] & Hmax). set (M := full_max _ _) in *. destruct (i_latest _ Hs) as [[L1 L2] _].
  unfold XidCacheRemoveRunningXids. rewrite maintain_spec by (done || (cbn; lia)).
  eapply (end_inv s _ me p _ M Hs Hp); [by split|reflexivity..| |].
  - destruct (remove_all_spec (xid32 <$> subs) (p_subxids p) (length (xid32 <$> subs)) B5 ltac:(done)) as [R1 R2].
    rewrite firstn_all in R2. set (l1 := for_down _ _ _) in *. destruct (remove_cached_spec (xid32 X) l1 R1) as [R3 R4].
    unfold proc_ok. cbn. rewrite decide_False by done. split; cbn; [done|done| | |done| |].
    + apply Forall_cons_1 in B3 as [B3 B3']. constructor; [done|]. rewrite Forall_forall in B3' |- *. intros c Hc.
      apply B3'. by apply list_elem_of_filter in Hc as [_ ?].
    + rewrite Forall_forall in B4 |- *. intros c Hc. apply B4. by apply list_elem_of_filter in Hc as [_ ?].
    + intros x Hx. apply R4 in Hx as [Hx Hx1]. apply R2 in Hx as [Hx Hx2]. destruct (B6 x Hx) as (c & Hc & ->). exists c.
      split; [|done]. apply list_elem_of_filter. split; [set_solver|done].
    + intros c Ho Hc. apply list_elem_of_filter in Hc as [Hc1 Hc2]. apply R4. split; [apply R2; split; [by apply B7|]|]; set_solver.
  - intros Y [_ HY]. destruct (decide (xid32 Y ∈ xid32 X :: (xid32 <$> subs))) as [Hin|Hin].
    + right. change (xid32 X :: (xid32 <$> subs)) with (xid32 <$> (X :: subs)) in Hin. apply list_elem_of_fmap in Hin as (Z & EZ & HZ).
      replace Y with Z; [by apply Hmax|]. rewrite Forall_forall in Hrec, B3. destruct (Hrec Z HZ) as [_ ?], (B3 Y HY) as [_ ?].
      symmetry. apply xid32_inj; [lia|done].
    + left. split; [done|]. cbn. apply elem_of_cons in HY as [->|HY]; [by left|right]. apply list_elem_of_filter. done.
Qed.

(** ** Other steps *)

Lemma flags_inv s me p flags : inv s -> procs s !! me = Some p -> p_top p = 0 ->
  inv (set_procs (<[me := mk_proc (p_xid p) (p_xmin p) flags (p_subxids p) (p_overflowed p) (p_top p) (p_children p)]> (procs s)) s).
Proof.
  intros Hs Hp Ht. set (q := mk_proc _ _ _ _ _ _ _). pose proof (i_procs _ Hs) as Hps.
  assert (Hq : proc_ok (parent_of s) (nextXid s) q).
  { rewrite Forall_forall in Hps. specialize (Hps p ltac:(by eapply list_elem_of_lookup_2)). unfold proc_ok in *. cbn.
    by rewrite decide_True in Hps |- * by done. }
  destruct (decide (procs s = [])) as [E0|_]; [by rewrite E0 in Hp|].
  split; cbn; try apply Hs; [by apply Forall_insert|].
  intros X HX Hlt Hno. apply (i_done _ Hs); [done..|]. intros (r & (j & Hj)%list_elem_of_lookup & Hr). apply Hno.
  destruct (decide (j = me)) as [->|Hne]; [replace r with p in Hr by congruence; by destruct Hr|].
  exists r. split; [|done]. cbn. apply list_elem_of_lookup. exists j. by rewrite list_lookup_insert_ne.
Qed.

(** Only the published xmin of an entry changes. *)
Lemma publish_inv s me xmin txmin s' txmin' : publish_xmin me xmin s txmin = (s', txmin') -> inv s ->
  inv s' /\ nextXid s' = nextXid s /\ latestCompletedXid s' = latestCompletedXid s /\ parent_of s' = parent_of s
  /\ xactCompletionCount s' = xactCompletionCount s.
Proof.
  unfold publish_xmin. destruct (negb _); [|by intros [= <- <-]]. intros [= <- <-] Hs. split; [|done].
  set (h := fun p => mk_proc _ _ _ _ _ _ _). assert (Hh : forall p, proc_ok (parent_of s) (nextXid s) (h p) <-> proc_ok (parent_of s) (nextXid s) p).
  { intros p. unfold proc_ok. cbn. destruct (decide _); [done|]. split; intros []; by split. }
  pose proof (i_procs _ Hs) as Hps. split; cbn; try apply Hs.
  - rewrite Forall_forall in Hps |- *. intros q [(y & Hy & ->)|(j & _ & Hj)]%elem_of_alter; [apply Hh|]; apply Hps; by eapply list_elem_of_lookup_2.
  - intros X HX Hlt Hno. apply (i_done _ Hs); [done..|]. intros (r & (j & Hj)%list_elem_of_lookup & Hr). apply Hno.
    destruct (decide (j = me)) as [->|Hne]; [exists (h r)|exists r]; (split; [|done]); cbn; [by apply alter_elem|by eapply alter_other].
Qed.

Lemma snapshot_step_inv me snapshot s b snapshot' s' b' : GetSnapshotData me snapshot s b = (snapshot', s', b') -> inv s ->
  inv s' /\ nextXid s' = nextXid s /\ latestCompletedXid s' = latestCompletedXid s /\ parent_of s' = parent_of s
  /\ xactCompletionCount s' = xactCompletionCount s.
Proof.
  unfold GetSnapshotData, GetSnapshotDataReuse. intros E Hs.
  destruct (_ =? 0); [|destruct (negb _)];
    repeat match type of E with context [let '(_, _) := ?x in _] => let H := fresh "E" in destruct x eqn:H end;
    simplify_eq; by eapply publish_inv.
Qed.

Lemma xact_step_inv s s' : inv s -> xact_step s s' -> inv s'.
Proof.
  intros Hs Hst. destruct Hst.
  - by eapply begin_xact_inv.
  - by eapply begin_subxact_inv.
  - by eapply abort_subxacts_inv.
  - by eapply end_xact_inv.
  - by apply flags_inv.
  - by eapply snapshot_step_inv.
Qed.

Lemma reachable_inv s : reachable s -> inv s.
Proof. intros (s0 & H0 & Hr). apply started_inv in H0. induction Hr; eauto using xact_step_inv. Qed.

(** ** What a snapshot holds *)

Definition counted (p : PGPROC) : Prop := Z.land (p_flags p) (Z.lor PROC_IN_LOGICAL_DECODING PROC_IN_VACUUM) = 0.

#[global] Instance counted_dec p : Decision (counted p).
Proof. unfold counted. apply _. Defined.

(** The entries that the loop takes: with a transaction before xmax. *)
Fixpoint included (me : nat) (xmax : Z) (off : nat) (l : list PGPROC) : list PGPROC :=
  match l with
  | [] => []
  | p :: l => if decide (p_top p <> 0 /\ off <> me /\ p_top p < xmax /\ counted p)
              then p :: included me xmax (S off) l else included me xmax (S off) l
  end.

Lemma included_elem me xmax off l p :
  p ∈ included me xmax off l <-> exists j, l !! j = Some p /\ p_top p <> 0 /\ (off + j)%nat <> me /\ p_top p < xmax /\ counted p.
Proof.
  revert off. induction l as [|q l IH]; intros off; simpl; [split; [by intros ?%elem_of_nil|by intros (j & ? & _)]|].
  assert (Hrec : p ∈ included me xmax (S off) l <->
    exists j, (q :: l) !! S j = Some p /\ p_top p <> 0 /\ (off + S j)%nat <> me /\ p_top p < xmax /\ counted p).
  { rewrite IH. split; intros (j & H1 & H2 & H3 & H4); exists j; (split; [done|split; [done|split; [lia|done]]]). }
  destruct (decide _) as [Hq|Hq]; rewrite ?elem_of_cons, Hrec.
  - split.
    + intros [->|(j & H)]; [exists 0%nat; split; [done|]; rewrite Nat.add_0_r; tauto|by exists (S j)].
    + intros ([|j] & H1 & H); [left; by injection H1|right; by exists j].
  - split; [intros (j & H); by exists (S j)|]. intros ([|j] & H1 & H); [|by exists j].
    injection H1 as ->. rewrite Nat.add_0_r in H. tauto.
Qed.

Definition near_next (next X : Z) : Prop := normal_full X /\ next - 2 ^ 31 < X <= next.

Lemma collect_procs_spec me next xmax off l c m :
  Forall (fun p => p_top p = 0 /\ p_xid p = 0 \/ p_top p <> 0 /\ p_xid p = xid32 (p_top p) /\ near_next next (p_top p)) l ->
  near_next next xmax -> near_next next m -> c_xmin c = xid32 m ->
  let r := collect_procs me (xid32 xmax) off l c in let inc := included me xmax off l in
  exists m', c_xmin r = xid32 m' /\ near_next next m' /\ m' <= m /\ Forall (fun p => m' <= p_top p) inc
    /\ (m' = m \/ exists p, p ∈ inc /\ m' = p_top p)
    /\ c_xip r = c_xip c ++ map p_xid inc /\ c_overflowed r = c_overflowed c || existsb p_overflowed inc
    /\ (c_overflowed r = false -> c_subxip r = c_subxip c ++ concat (map p_subxids inc)).
Proof.
  intros Hl Hx. revert off c m. induction l as [|p l IH]; intros off c m Hm Ec; simpl.
  { exists m. rewrite !app_nil_r, orb_false_r. split; [done|]. split; [done|]. split; [lia|]. split; [constructor|]. split; [by left|done]. }
  apply Forall_cons_1 in Hl as [Hp Hl]. specialize (IH Hl). unfold collect_proc.
  destruct Hp as [[Ht E]|(Ht & E & Hn)].
  { rewrite E. simpl. rewrite decide_False by tauto. by apply IH. }
  rewrite E. destruct Hn as [Hn1 Hn2]. pose proof (normal_xid_valid _ Hn1) as Hv. destruct Hx as [Hx1 Hx2], Hm as [Hm1 Hm2].
  destruct (Z.eqb_spec (xid32 (p_top p)) InvalidTransactionId) as [|_]; [done|].
  destruct (Nat.eqb_spec off me) as [->|Hne]; [rewrite decide_False by tauto; by apply IH|].
  rewrite xid_diff_full by lia. destruct (Z.ltb_spec (p_top p - xmax) 0) as [Hlt|]; [|rewrite decide_False by lia; by apply IH].
  cbn [negb]. destruct (Z.eqb_spec (Z.land (p_flags p) (Z.lor PROC_IN_LOGICAL_DECODING PROC_IN_VACUUM)) 0) as [Hc|Hc];
    cbn [negb]; [|rewrite decide_False by (unfold counted; tauto); by apply IH].
  rewrite decide_True by (split; [done|]; split; [done|]; split; [lia|done]).
  rewrite Ec, xid_diff_full by lia. set (m1 := Z.min (p_top p) m).
  assert (Hm' : near_next next m1) by (unfold m1; destruct (Z.min_spec (p_top p) m) as [[_ ->]|[_ ->]]; (split; [done|lia])).
  replace (if p_top p - m <? 0 then xid32 (p_top p) else xid32 m) with (xid32 m1)
    by (unfold m1; destruct (Z.ltb_spec (p_top p - m) 0); f_equal; lia).
  set (c1 := if negb (c_overflowed c) then _ else _).
  assert (Hc1 : c_xmin c1 = xid32 m1 /\ c_xip c1 = c_xip c ++ [xid32 (p_top p)] /\ c_overflowed c1 = c_overflowed c || p_overflowed p
    /\ (c_overflowed c1 = false -> c_subxip c1 = c_subxip c ++ p_subxids p)).
  { unfold c1. destruct (c_overflowed c); cbn [negb]; [done|]. by destruct (p_overflowed p). }
  destruct Hc1 as (C1 & C2 & C3 & C4). destruct (IH (S off) c1 m1 Hm' C1) as (m' & R1 & R2 & R3 & R4 & R5 & R6 & R7 & R8).
  exists m'. rewrite R7, C3. split; [done|]. split; [done|]. split; [lia|]. split; [constructor; [lia|done]|]. split; [|split; [|split]].
  - destruct R5 as [->|(q & Hq & ->)]; [|right; exists q; split; [by right|done]].
    unfold m1. destruct (Z.min_spec (p_top p) m) as [[_ ->]|[_ ->]]; [right; exists p; split; [by left|done]|by left].
  - rewrite R6, C2, <- app_assoc. simpl. by rewrite E.
  - simpl. by rewrite orb_assoc.
  - intros Ho. assert (Hr : c_overflowed (collect_procs me (xid32 xmax) (S off) l c1) = false) by (by rewrite R7, C3).
    rewrite R8 by done. rewrite R7, C3 in Hr. rewrite C4, <- app_assoc; [done|]. rewrite C3. by apply orb_false_iff in Hr as [? _].
Qed.

(** The contents of a new snapshot in terms of full identifiers. *)
Lemma collect_xids_spec me s : inv s ->
  let xmax := FullTransactionIdAdvance (latestCompletedXid s) in let inc := included me xmax 0 (procs s) in
  exists m c, collect_xids me s = (xid32 xmax, c) /\ near_next (nextXid s) xmax /\ near_next (nextXid s) m /\ m <= xmax
    /\ latestCompletedXid s < xmax /\ (m = xmax \/ live s m) /\ c_xmin c = xid32 m /\ (forall p, p ∈ inc -> m <= p_top p)
    /\ c_xip c = map p_xid inc /\ c_overflowed c = existsb p_overflowed inc
    /\ (c_overflowed c = false -> c_subxip c = concat (map p_subxids inc)).
Proof.
  intros Hs xmax inc. destruct (i_latest _ Hs) as [[L1 L2] L3], (i_next _ Hs) as [N1 N2].
  destruct (advance_spec (latestCompletedXid s) L3) as (A1 & A2 & A3 & A4). fold xmax in A1, A2, A3, A4.
  assert (Hx : near_next (nextXid s) xmax).
  { split; [done|]. split; [lia|]. apply Z.nlt_ge. intros Hlt. apply (A3 (nextXid s)); [lia|done]. }
  pose proof (i_procs _ Hs) as Hps. rewrite Forall_forall in Hps.
  assert (Hall : Forall (fun p => p_top p = 0 /\ p_xid p = 0
    \/ p_top p <> 0 /\ p_xid p = xid32 (p_top p) /\ near_next (nextXid s) (p_top p)) (procs s)).
  { apply Forall_forall. intros p Hp. specialize (Hps p Hp). unfold proc_ok in Hps. destruct (decide _) as [E|E]; [left; split; [done|apply Hps]|right].
    split; [done|]. split; [apply Hps|]. pose proof (bp_recent _ _ _ Hps) as Hr. apply Forall_cons_1 in Hr as [[? ?] _]. split; [done|lia]. }
  assert (Hm : exists m, near_next (nextXid s) m /\ m <= xmax /\ (m = xmax \/ live s m)
    /\ (let myxid := from_option p_xid InvalidTransactionId (procs s !! me) in
        if TransactionIdIsNormal myxid && (xid_diff myxid (xid32 xmax) <? 0) then myxid else xid32 xmax) = xid32 m).
  { destruct (procs s !! me) as [p|] eqn:Ep; cbn [from_option]; [|exists xmax; split; [done|]; split; [lia|]; split; [by left|done]].
    assert (Hin : p ∈ procs s) by (by eapply list_elem_of_lookup_2). rewrite Forall_forall in Hall.
    destruct (Hall p Hin) as [[_ ->]|(Ht & -> & Hn1 & Hn2)]; [exists xmax; split; [done|]; split; [lia|]; split; [by left|done]|].
    rewrite Hn1. destruct Hx as [Hx1 Hx2]. rewrite xid_diff_full by lia. simpl. destruct (Z.ltb_spec (p_top p - xmax) 0).
    - exists (p_top p). split; [by split|]. split; [lia|]. split; [right|done]. exists p. split; [done|]. split; [done|by left].
    - exists xmax. split; [by split|]. split; [lia|]. by split; [left|]. }
  destruct Hm as (m & M1 & M2 & M3 & M4). unfold collect_xids. rewrite A4 by done. cbv zeta in M4. rewrite M4, (i_primary _ Hs). cbn [negb].
  destruct (collect_procs_spec me (nextXid s) xmax 0 (procs s) (mk_collecting (xid32 m) [] [] false) m Hall Hx M1 eq_refl)
    as (m' & R1 & R2 & R3 & R4 & R5 & R6 & R7 & R8). fold inc in R4, R5, R6, R7, R8. rewrite Forall_forall in R4.
  eexists m', _. split; [reflexivity|]. split; [done|]. split; [done|]. split; [lia|]. split; [lia|]. split; [|by repeat (split; [done|])].
  destruct R5 as [->|(p & Hp & ->)]; [done|right]. apply included_elem in Hp as (j & Hj & Ht & _). exists p.
  split; [by eapply list_elem_of_lookup_2|]. split; [done|by left].
Qed.

(** ** While no transaction ends *)

(** What runs in another backend and is not left out of snapshots. *)
Definition seen_running (s : shared) (me : nat) (X : Z) : Prop :=
  exists j p, j <> me /\ procs s !! j = Some p /\ counted p /\ runs_in p X.

(** A later state after which only transactions have begun. *)
Record only_begun (me : nat) (s s' : shared) : Prop := {
  ob_next : nextXid s <= nextXid s';
  ob_latest : latestCompletedXid s' = latestCompletedXid s;
  ob_live X : live s X -> live s' X;
  ob_seen X : X < nextXid s -> seen_running s' me X <-> seen_running s me X;
  ob_parent X : X < nextXid s -> parent_of s' X = parent_of s X
}.

Lemma seen_live s me X : seen_running s me X -> live s X.
Proof. intros (j & p & _ & Hj & _ & Hr). exists p. split; [by eapply list_elem_of_lookup_2|done]. Qed.

#[export] Instance only_begun_preorder me : PreOrder (only_begun me).
Proof.
  split; [by intros s|]. intros s1 s2 s3 [A1 A2 A3 A4 A5] [B1 B2 B3 B4 B5]. split; [lia|congruence|by auto| |].
  - intros X HX. rewrite B4, A4 by lia. done.
  - intros X HX. rewrite B5, A5 by lia. done.
Qed.

Lemma only_begun_alter me s s' i h : nextXid s <= nextXid s' -> latestCompletedXid s' = latestCompletedXid s ->
  procs s' = alter h i (procs s) -> (forall X, X < nextXid s -> parent_of s' X = parent_of s X) -> inv s ->
  (forall p X, procs s !! i = Some p -> X < nextXid s ->
     (runs_in p X -> runs_in (h p) X) /\ (runs_in (h p) X /\ counted (h p) <-> runs_in p X /\ counted p)) ->
  only_begun me s s'.
Proof.
  intros En El Ep Ef Hs Hh. split; [done|done| | |done].
  - intros X HX. pose proof (live_recent s X Hs HX) as [_ Hlt]. destruct HX as (p & (j & Hj)%list_elem_of_lookup & Hr).
    destruct (decide (j = i)) as [->|Hne]; [exists (h p)|exists p]; rewrite Ep; (split; [by apply alter_elem || by eapply alter_other|]); [|done].
    destruct (Hh p X Hj ltac:(lia)) as [H _]. by apply H.
  - intros X HX. split; intros (j & p & Hj & Hp & Hc & Hr).
    + rewrite Ep in Hp. destruct (decide (j = i)) as [->|Hne].
      * rewrite list_lookup_alter_eq in Hp. destruct (procs s !! i) as [q|] eqn:Eq; [|done]. injection Hp as <-.
        destruct (proj1 (proj2 (Hh q X eq_refl HX)) (conj Hr Hc)) as [Hr' Hc']. by exists i, q.
      * rewrite list_lookup_alter_ne in Hp by done. by exists j, p.
    + destruct (decide (j = i)) as [->|Hne].
      * destruct (proj2 (proj2 (Hh p X Hp HX)) (conj Hr Hc)) as [Hr' Hc']. exists i, (h p). split; [done|]. split; [|done].
        by rewrite Ep, list_lookup_alter_eq, Hp.
      * exists j, p. split; [done|]. split; [|done]. by rewrite Ep, list_lookup_alter_ne.
Qed.

Lemma begin_only me s i isub p up X s' : inv s -> procs s !! i = Some p -> (isub = false -> p_top p = 0) -> (isub = true -> p_top p <> 0) ->
  GetNewTransactionId up i isub s = Ok (X, s') ->
  X = nextXid s /\ xactCompletionCount s' = xactCompletionCount s /\ only_begun me s s'.
Proof.
  intros Hs Hp H0 H1 E. unfold GetNewTransactionId in E. destruct (recovery s); [done|]. destruct (_ && _ && _); [done|]. injection E as <- <-. split; [done|]. split; [done|].
  destruct (i_next _ Hs) as [N1 _]. destruct (advance_spec (nextXid s) N1) as ((A1 & _) & _).
  apply (only_begun_alter me s _ i (advertise isub (nextXid s))); try done; cbn; [lia| |].
  - intros Y HY. unfold at_key. by destruct (Z.eqb_spec Y (nextXid s)); [lia|].
  - intros q Y Hq HY. replace q with p by congruence. unfold advertise, runs_in, counted. destruct isub; cbn [negb].
    + specialize (H1 eq_refl). destruct (_ <? _)%nat; cbn; rewrite !elem_of_cons, elem_of_app, list_elem_of_singleton;
        (split; [tauto|]; split; [|tauto]); intros [[_ [?|[?|?]]] ?]; (tauto || lia).
    + specialize (H0 eq_refl). cbn. rewrite !elem_of_cons. split; [by intros [? _]|]. split; [|by intros [[? _] _]].
      intros [[_ [?|Hc]] _]; [lia|]. pose proof (i_procs _ Hs) as Hps. rewrite Forall_forall in Hps.
      specialize (Hps p ltac:(by eapply list_elem_of_lookup_2)). unfold proc_ok in Hps. rewrite decide_True in Hps by done.
      destruct Hps as (_ & _ & _ & _ & Ec). rewrite Ec in Hc. by apply elem_of_nil in Hc.
Qed.

Lemma parent_only me s s' X par : only_begun me s s' -> X = nextXid s -> only_begun me s (SubTransSetParent X par s').
Proof.
  intros [O1 O2 O3 O4 O5] ->. split; cbn; try done. intros Y HY. unfold at_key. destruct (Z.eqb_spec Y (nextXid s)); [lia|]. by apply O5.
Qed.

Lemma publish_only me i xmin s txmin s' txmin' : inv s -> publish_xmin i xmin s txmin = (s', txmin') -> only_begun me s s'.
Proof.
  intros Hs. unfold publish_xmin. destruct (negb _); intros [= <- <-]; [|reflexivity].
  by eapply only_begun_alter; [|reflexivity|reflexivity|..].
Qed.

Lemma snapshot_only me i snapshot s b snapshot' s' b' : inv s -> GetSnapshotData i snapshot s b = (snapshot', s', b') -> only_begun me s s'.
Proof.
  unfold GetSnapshotData, GetSnapshotDataReuse. intros Hs E.
  destruct (_ =? 0); [|destruct (negb _)];
    repeat match type of E with context [let '(_, _) := ?x in _] => let H := fresh "E" in destruct x eqn:H end;
    simplify_eq; by eapply publish_only.
Qed.

Lemma flags_only me s i p flags : inv s -> procs s !! i = Some p -> p_top p = 0 ->
  only_begun me s (set_procs (<[i := mk_proc (p_xid p) (p_xmin p) flags (p_subxids p) (p_overflowed p) (p_top p) (p_children p)]> (procs s)) s).
Proof.
  intros Hs Hp Ht. set (q := mk_proc _ _ _ _ _ _ _).
  assert (E : <[i := q]> (procs s) = alter (fun _ => q) i (procs s)).
  { apply list_eq. intros j. destruct (decide (j = i)) as [->|]; [|by rewrite list_lookup_insert_ne, list_lookup_alter_ne].
    rewrite list_lookup_insert_eq, list_lookup_alter_eq, Hp by (by eapply lookup_lt_Some). done. }
  rewrite E. eapply only_begun_alter; [reflexivity..|done|done|]. intros r X Hr _. replace r with p by congruence. unfold runs_in. cbn. tauto.
Qed.

(** The count of completed transactions tells whether one has ended. *)
Lemma step_counted me s s' : inv s -> xact_step s s' ->
  xactCompletionCount s' = xactCompletionCount s + 1 \/ xactCompletionCount s' = xactCompletionCount s /\ only_begun me s s'.
Proof.
  intros Hs Hst. destruct Hst as [s i p up X s' Hp Ht E _|s i p up par X s' Hp Hr E _|s i p X subs Hp _|s i p Hp _|s i p flags Hp Ht|s i b o n s' b' E].
  - right. by destruct (begin_only me s i false p up X s' Hs Hp ltac:(done) ltac:(done) E) as (_ & ? & ?).
  - right. destruct (begin_only me s i true p up X s' Hs Hp ltac:(done) ltac:(intros _; apply Hr) E) as (-> & ? & ?). split; [done|].
    by apply parent_only.
  - left. unfold XidCacheRemoveRunningXids, MaintainLatestCompletedXid. by case_match.
  - left. unfold ProcArrayEndTransactionInternal, MaintainLatestCompletedXid. by case_match.
  - right. split; [done|]. by apply flags_only.
  - right. destruct (snapshot_step_inv _ _ _ _ _ _ _ E Hs) as (_ & _ & _ & _ & ?). split; [done|]. by eapply snapshot_only.
Qed.

Lemma steps_counted me s s' : inv s -> rtc xact_step s s' ->
  inv s' /\ xactCompletionCount s <= xactCompletionCount s' /\ (xactCompletionCount s' = xactCompletionCount s -> only_begun me s s').
Proof.
  intros Hs Hr. induction Hr as [s|s1 s2 s3 Hst _ IH]; [split; [done|]; split; [lia|reflexivity]|].
  destruct (IH (xact_step_inv _ _ Hs Hst)) as (H1 & H2 & H3). split; [done|].
  destruct (step_counted me _ _ Hs Hst) as [E|[E Ho]]; (split; [lia|]); intros E'; [lia|]. etrans; [exact Ho|]. apply H3. lia.
Qed.

(** ** Parents *)

(** The climb ends at the transaction itself or before [TransactionXmin]. *)
Lemma climb s log TX X T prev : inv s -> SubTransGetParent log = SubTrans s -> TransactionXmin log = xid32 TX ->
  near_next (nextXid s) TX -> belongs (parent_of s) X T -> recent (nextXid s) X -> nextXid s - 2 ^ 31 < T ->
  exists fuel A, while fuel (topmost_step log) (xid32 X, prev) = Some (Ok (xid32 A)) /\ T <= A <= X /\ normal_full A
    /\ (A = T \/ A < TX).
Proof.
  intros Hs Ep Ex [TX1 TX2] Hb. revert prev. induction Hb as [X H0|X T H0 Hn Hlt Hb IH]; intros prev [HX1 HX2] HT.
  all: pose proof (normal_xid_valid _ HX1) as Hv; pose proof (i_tree _ Hs X (conj HX1 HX2)) as Htree.
  all: assert (Hval : TransactionIdIsValid (xid32 X) = true) by (unfold TransactionIdIsValid, InvalidTransactionId; by destruct (Z.eqb_spec (xid32 X) 0)).
  - rewrite decide_True in Htree by done. exists 2%nat, X. split; [|split; [lia|split; [done|by left]]].
    cbn [while]. unfold topmost_step at 1. rewrite Hval, Ex, precedes_full by (done || lia). destruct (X <? TX); [done|].
    rewrite Ep, Htree. unfold TransactionIdPrecedes. cbn [TransactionIdIsNormal negb orb]. pose proof (xid32_range X).
    change (negb (TransactionIdIsNormal 0)) with true. cbn [orb]. by destruct (Z.ltb_spec 0 (xid32 X)); [|lia].
  - rewrite decide_False in Htree by done. destruct Htree as [Htree _].
    assert (HTP : T <= parent_of s X) by (clear - Hb; induction Hb; lia).
    destruct (decide (X < TX)) as [Hbefore|Hafter].
    + exists 1%nat, X. split; [|split; [lia|split; [done|by right]]].
      cbn [while]. unfold topmost_step at 1. rewrite Hval, Ex, precedes_full by (done || lia). by destruct (Z.ltb_spec X TX); [|lia].
    + destruct (IH (xid32 X) ltac:(split; [done|lia]) HT) as (fuel & A & E & HA & HAn & HAT).
      exists (S fuel), A. split; [|split; [lia|done]]. cbn [while]. unfold topmost_step at 1.
      rewrite Hval, Ex, precedes_full by (done || lia). destruct (Z.ltb_spec X TX); [lia|]. rewrite Ep, Htree, precedes_full by (done || lia).
      destruct (Z.ltb_spec (parent_of s X) X); [|lia]. exact E.
Qed.

(** ** What is in a snapshot *)

(** The contents were collected in state [s]. *)
Definition collected_at (me : nat) (s : shared) (snap : Snapshot) : Prop :=
  collect_xids me s = (s_xmax snap, mk_collecting (s_xmin snap) (s_xip snap) (s_subxip snap) (suboverflowed snap))
  /\ takenDuringRecovery snap = false.

Lemma xid_in_window env X m xmax snap : s_xmin snap = xid32 m -> s_xmax snap = xid32 xmax -> takenDuringRecovery snap = false ->
  normal_full X -> normal_full m -> normal_full xmax -> Z.abs (X - m) < 2 ^ 31 -> Z.abs (X - xmax) < 2 ^ 31 ->
  XidInMVCCSnapshot env (xid32 X) snap
  = if X <? m then false else if xmax <=? X then true
    else if suboverflowed snap then negb (TransactionIdPrecedes (Topmost env (xid32 X)) (xid32 m)) && bool_decide (Topmost env (xid32 X) ∈ s_xip snap)
    else bool_decide (xid32 X ∈ s_subxip snap) || bool_decide (xid32 X ∈ s_xip snap).
Proof.
  intros E1 E2 E3 HX Hm Hx D1 D2. unfold XidInMVCCSnapshot. rewrite E1, E2, E3, precedes_full, follows_full, !pg_lfind32_spec by done.
  destruct (X <? m); [done|]. destruct (xmax <=? X); [done|]. destruct (suboverflowed snap); cbn [negb].
  - destruct (TransactionIdPrecedes _ _); [done|]. simpl. by destruct (bool_decide _).
  - by destruct (bool_decide (_ ∈ s_subxip snap)), (bool_decide (_ ∈ s_xip snap)).
Qed.

Section membership.
Context (me : nat) (s s2 : shared) (snap : Snapshot) (env : xact_env) (log : xact_log) (TX : Z).
Hypothesis Hs : inv s.
Hypothesis Hs2 : inv s2.
Hypothesis Hob : only_begun me s s2.
Hypothesis Hsnap : collected_at me s snap.
(** [SubTransGetTopmostTransaction] looks up pg_subtrans as it is now, down to
    [TransactionXmin], which is not after the xmin of the snapshot. *)
Hypothesis Hparent : SubTransGetParent log = SubTrans s2.
Hypothesis Hxmin : TransactionXmin log = xid32 TX.
Hypothesis HTX : near_next (nextXid s2) TX.
Hypothesis Hbefore : TransactionIdPrecedesOrEquals (xid32 TX) (s_xmin snap) = true.
Hypothesis Htop : forall fuel x y, SubTransGetTopmostTransaction log fuel x = Ok y -> Topmost env x = y.

Lemma topmost_env X T : belongs (parent_of s2) X T -> recent (nextXid s2) X -> nextXid s2 - 2 ^ 31 < T ->
  exists A, Topmost env (xid32 X) = xid32 A /\ T <= A <= X /\ normal_full A /\ (A = T \/ A < TX).
Proof.
  intros Hb HX HT. destruct (climb s2 log TX X T (xid32 X) Hs2 Hparent Hxmin HTX Hb HX HT) as (fuel & A & E & HA).
  exists A. split; [|done]. apply (Htop fuel). unfold SubTransGetTopmostTransaction. by rewrite E.
Qed.

Definition inc : list PGPROC := included me (FullTransactionIdAdvance (latestCompletedXid s)) 0 (procs s).

Lemma inc_seen p X : p ∈ inc -> runs_in p X -> seen_running s me X /\ recent (nextXid s) X /\ busy (parent_of s) (nextXid s) p.
Proof.
  intros (j & Hj & Ht & Hne & _ & Hc)%included_elem Hr. pose proof (i_procs _ Hs) as Hps. rewrite Forall_forall in Hps.
  destruct (runs_recent _ _ _ _ (Hps p ltac:(by eapply list_elem_of_lookup_2)) Hr) as [? ?]. split; [by exists j, p|done].
Qed.

(** The window in which all comparisons are right. *)
Lemma bounds : exists m xmax, s_xmin snap = xid32 m /\ s_xmax snap = xid32 xmax /\ near_next (nextXid s) m /\ near_next (nextXid s) xmax
  /\ m <= xmax /\ latestCompletedXid s < xmax /\ TX <= m /\ nextXid s2 - 2 ^ 31 < m /\ (forall p, p ∈ inc -> m <= p_top p)
  /\ (forall X, headroom s2 X -> nextXid s2 - 2 ^ 31 < X -> Z.abs (X - m) < 2 ^ 31 /\ Z.abs (X - xmax) < 2 ^ 31)
  /\ xmax = FullTransactionIdAdvance (latestCompletedXid s) /\ s_xip snap = map p_xid inc
  /\ suboverflowed snap = existsb p_overflowed inc /\ (suboverflowed snap = false -> s_subxip snap = concat (map p_subxids inc)).
Proof.
  destruct (collect_xids_spec me s Hs) as (m & c & E & [X1 X2] & [M1 M2] & Hle & Hlt & Hm & C1 & C2 & C3 & C4 & C5).
  destruct Hsnap as [Ec _]. rewrite E in Ec. injection Ec as Ex Ec. subst c. cbn in C1, C3, C4, C5. fold inc in C2, C3, C4, C5.
  destruct (i_latest _ Hs2) as [[L1 L2] _]. pose proof (ob_latest _ _ _ Hob) as El. pose proof (ob_next _ _ _ Hob) as En.
  set (xmax := FullTransactionIdAdvance _) in *. assert (Hm2 : nextXid s2 - 2 ^ 31 < m).
  { destruct Hm as [->|Hm]; [lia|]. apply (live_recent s2 m Hs2). by apply (ob_live _ _ _ Hob). }
  exists m, xmax. split; [done|]. split; [done|]. split; [done|]. split; [done|]. split; [done|]. split; [done|]. split; [|split; [done|split; [done|split]]]; [| |split; [done|split; [done|split; [done|exact C5]]]].
  - destruct HTX as [T1 T2]. rewrite C1 in Hbefore. unfold TransactionIdPrecedesOrEquals in Hbefore. rewrite T1, M1 in Hbefore. cbn [negb orb] in Hbefore.
    rewrite xid_diff_full in Hbefore by lia. apply Z.leb_le in Hbefore. lia.
  - intros X [HX1 HX2] HX. assert (Hup : X < m + 2 ^ 31).
    { destruct Hm as [->|Hm]; [lia|]. pose proof (HX2 m ltac:(by apply (ob_live _ _ _ Hob))). lia. }
    lia.
Qed.

Lemma live_headroom X : live s2 X -> headroom s2 X /\ nextXid s2 - 2 ^ 31 < X /\ normal_full X.
Proof.
  intros HX. destruct (live_recent s2 X Hs2 HX) as [? ?]. destruct (i_latest _ Hs2) as [[_ ?] _]. split; [|split; [lia|done]]. split; [lia|].
  intros Y HY. destruct (live_recent s2 Y Hs2 HY). lia.
Qed.

Lemma future_in X : normal_full X -> nextXid s2 <= X -> headroom s2 X -> XidInMVCCSnapshot env (xid32 X) snap = true.
Proof.
  intros HX Hge Hh. destruct bounds as (m & xmax & E1 & E2 & [M1 M2] & [X1 X2] & Hle & _ & _ & _ & _ & Hd & _).
  destruct (Hd X Hh ltac:(lia)) as [D1 D2]. rewrite (xid_in_window env X m xmax) by (done || apply Hsnap). pose proof (ob_next _ _ _ Hob).
  destruct (Z.ltb_spec X m); [lia|]. by destruct (Z.leb_spec xmax X); [|lia].
Qed.

Lemma running_in X : seen_running s2 me X -> XidInMVCCSnapshot env (xid32 X) snap = true.
Proof.
  intros Hseen. destruct (live_headroom X (seen_live _ _ _ Hseen)) as (Hh & Hlo & HX).
  destruct bounds as (m & xmax & E1 & E2 & [M1 M2] & [X1 X2] & Hle & Hlt & HTm & Hm2 & Hmin & Hd & Ex & C3 & C4 & C5).
  destruct (Hd X Hh Hlo) as [D1 D2]. rewrite (xid_in_window env X m xmax) by (done || apply Hsnap).
  destruct (Z.leb_spec xmax X) as [|HXx]; [by destruct (Z.ltb_spec X m); [lia|]|].
  assert (Hseen0 : seen_running s me X) by (apply (ob_seen _ _ _ Hob); [lia|done]).
  destruct Hseen0 as (j & p & Hj & Hp & Hc & Hr). pose proof (i_procs _ Hs) as Hps. rewrite Forall_forall in Hps.
  destruct (runs_recent _ _ _ _ (Hps p ltac:(by eapply list_elem_of_lookup_2)) Hr) as [[_ HXn] [B1 B2 B3 B4 B5 B6 B7]].
  assert (HT : p_top p <= X).
  { destruct Hr as [_ [->|Hch]%elem_of_cons]; [lia|]. eapply Forall_forall in B4; [|exact Hch]. lia. }
  assert (Hin : p ∈ inc) by (apply included_elem; exists j; rewrite <- Ex; split; [done|]; split; [apply Hr|]; split; [done|]; split; [lia|done]).
  pose proof (Hmin p Hin) as Hmp. destruct (Z.ltb_spec X m); [lia|]. destruct (suboverflowed snap) eqn:Eo.
  - assert (Hb : belongs (parent_of s2) X (p_top p)).
    { eapply belongs_agree; [intros Y HY; apply (ob_parent _ _ _ Hob); lia|].
      destruct Hr as [_ [->|Hch]%elem_of_cons]; [by constructor|]. eapply Forall_forall in B4; [|exact Hch]. apply B4. }
    pose proof (live_recent s2 X Hs2 (seen_live _ _ _ Hseen)) as HX2. destruct (topmost_env X (p_top p) Hb HX2 ltac:(lia)) as (A & -> & HA & HAn & [->|]); [|lia].
    rewrite precedes_full by (done || lia). destruct (Z.ltb_spec (p_top p) m); [lia|]. apply bool_decide_eq_true. rewrite C3. apply list_elem_of_fmap.
    exists p. by rewrite B1.
  - rewrite orb_true_iff, !bool_decide_eq_true, C5, C3 by done. destruct Hr as [_ [->|Hch]%elem_of_cons].
    + right. apply list_elem_of_fmap. exists p. by rewrite B1.
    + left. apply list_elem_of_In, in_concat. exists (p_subxids p). split; [apply list_elem_of_In, list_elem_of_fmap; by exists p|].
      apply list_elem_of_In, B7; [|done]. rewrite C4 in Eo. apply not_true_is_false. intros Hov. enough (existsb p_overflowed inc = true) by congruence.
      apply existsb_exists. exists p. split; [by apply list_elem_of_In|done].
Qed.

Lemma finished_out X T : recent (nextXid s2) X -> ~ live s2 X -> belongs (parent_of s2) X T -> nextXid s2 - 2 ^ 31 < T ->
  ~ seen_running s2 me T -> XidInMVCCSnapshot env (xid32 X) snap = false.
Proof.
  intros [HX1 HX2] Hno Hb HTw HT. destruct (i_latest _ Hs2) as [[_ L2] _].
  assert (Hh : headroom s2 X) by (split; [lia|]; intros Y HY; destruct (live_recent s2 Y Hs2 HY); lia).
  destruct bounds as (m & xmax & E1 & E2 & [M1 M2] & [X1 X2] & Hle & Hlt & HTm & Hm2 & Hmin & Hd & Ex & C3 & C4 & C5).
  destruct (Hd X Hh ltac:(lia)) as [D1 D2]. rewrite (xid_in_window env X m xmax) by (done || apply Hsnap).
  destruct (Z.ltb_spec X m); [done|]. pose proof (i_done _ Hs2 X HX1 ltac:(lia) Hno) as Hfin. rewrite (ob_latest _ _ _ Hob) in Hfin.
  destruct (Z.leb_spec xmax X); [lia|]. assert (Hback : forall p Y, p ∈ inc -> runs_in p Y -> xid32 Y = xid32 X -> False).
  { intros p Y Hp HY E. destruct (inc_seen p Y Hp HY) as (Hseen & [_ HYn] & _). apply Hno. apply (ob_live _ _ _ Hob).
    replace X with Y by (apply xid32_inj; [lia|done]). by apply (seen_live _ me). }
  destruct (suboverflowed snap) eqn:Eo.
  - destruct (topmost_env X T Hb (conj HX1 HX2) HTw) as (A & -> & HA & HAn & HAT). rewrite precedes_full by (done || lia).
    destruct (Z.ltb_spec A m) as [|HAm]; [done|]. destruct HAT as [->|]; [|lia]. apply bool_decide_eq_false. rewrite C3. intros (p & E & Hp)%list_elem_of_fmap.
    pose proof (proj1 (included_elem _ _ _ _ _) Hp) as (j & _ & Ht & _). assert (Hr : runs_in p (p_top p)) by (split; [done|by left]).
    destruct (inc_seen p (p_top p) Hp Hr) as (Hseen & [_ HTn] & [B1 _ _ _ _ _ _]). rewrite B1 in E. apply HT.
    apply xid32_inj in E; [|lia]. rewrite E. apply (ob_seen _ _ _ Hob); [lia|done].
  - apply orb_false_iff. rewrite !bool_decide_eq_false, C5, C3 by done. split.
    + intros (l & Hl & Hin)%list_elem_of_In%in_concat. apply list_elem_of_In, list_elem_of_fmap in Hl as (p & -> & Hp).
      pose proof (proj1 (included_elem _ _ _ _ _) Hp) as (j & _ & Ht & _). assert (Hr : runs_in p (p_top p)) by (split; [done|by left]).
      destruct (inc_seen p _ Hp Hr) as (_ & _ & [_ _ _ _ _ B6 _]). apply list_elem_of_In in Hin. destruct (B6 _ Hin) as (c & Hc & E).
      apply (Hback p c Hp); [split; [done|by right]|done].
    + intros (p & E & Hp)%list_elem_of_fmap. pose proof (proj1 (included_elem _ _ _ _ _) Hp) as (j & _ & Ht & _).
      assert (Hr : runs_in p (p_top p)) by (split; [done|by left]). destruct (inc_seen p _ Hp Hr) as (_ & _ & [B1 _ _ _ _ _ _]).
      apply (Hback p (p_top p) Hp Hr). by rewrite E, B1.
Qed.
End membership.

(** ** Snapshots over time *)

(** A snapshot structure that has not been used, or that was filled in an earlier state. *)
Inductive made (me : nat) : shared -> SnapshotData -> Prop :=
| made_never s snap : snapXactCompletionCount snap = 0 -> made me s snap
| made_before s0 old b0 snap s1 b1 s : reachable s0 -> made me s0 old -> GetSnapshotData me old s0 b0 = (snap, s1, b1) ->
    rtc xact_step s1 s -> made me s snap.

(** A new snapshot has what was collected now, a reused one what it had. *)
Lemma snapshot_contents me old s b snap s' b' : inv s -> GetSnapshotData me old s b = (snap, s', b') ->
  (collected_at me s (contents snap) /\ snapXactCompletionCount snap = xactCompletionCount s
   \/ (forall s0, collected_at me s0 (contents old) -> collected_at me s0 (contents snap))
      /\ snapXactCompletionCount old <> 0 /\ snapXactCompletionCount old = xactCompletionCount s
      /\ snapXactCompletionCount snap = xactCompletionCount s)
  /\ (b_TransactionXmin b' = s_xmin (contents snap)
      \/ b_TransactionXmin b' = b_TransactionXmin b
         /\ exists p, procs s !! me = Some p /\ TransactionIdIsValid (p_xmin p) = true).
Proof.
  unfold GetSnapshotData, GetSnapshotDataReuse. intros Hs E.
  assert (Hpub : forall xmin s1 tx, publish_xmin me xmin s (b_TransactionXmin b) = (s1, tx) ->
    tx = xmin \/ tx = b_TransactionXmin b /\ exists p, procs s !! me = Some p /\ TransactionIdIsValid (p_xmin p) = true).
  { intros xmin s1 tx. unfold publish_xmin. destruct (procs s !! me) as [p|]; cbn [from_option]; [|cbn; intros [= _ <-]; by left].
    destruct (TransactionIdIsValid (p_xmin p)) eqn:Ev; cbn [negb]; intros [= _ <-]; [right|by left]. split; [done|]. by exists p. }
  destruct (snapXactCompletionCount old =? 0) eqn:E0; [|destruct (negb _) eqn:E1]; cbv iota in E.
  1, 2: destruct (collect_xids me s) as [xmax c] eqn:Ec; destruct (publish_xmin me (c_xmin c) s (b_TransactionXmin b)) as [s1 tx] eqn:Ep;
    injection E as <- <- <-; cbn; (split; [left|by eapply Hpub]); (split; [|done]); unfold collected_at; cbn; rewrite Ec;
    (split; [by destruct c|apply Hs]).
  destruct (publish_xmin me _ s (b_TransactionXmin b)) as [s1 tx] eqn:Ep. injection E as <- <- <-. cbn. split; [right|by eapply Hpub].
  apply Z.eqb_neq in E0. apply negb_false_iff, Z.eqb_eq in E1. done.
Qed.

Lemma made_collected me s snap : made me s snap -> inv s -> snapXactCompletionCount snap <> 0 ->
  exists s0, inv s0 /\ collected_at me s0 (contents snap)
    /\ (xactCompletionCount s = snapXactCompletionCount snap -> only_begun me s0 s).
Proof.
  intros Hm. induction Hm as [s snap E|s0 old b0 snap s1 b1 s Hr _ IH E Hst]; intros Hs Hne; [done|].
  apply reachable_inv in Hr. destruct (snapshot_step_inv _ _ _ _ _ _ _ E Hr) as (H1 & _ & _ & _ & E1).
  destruct (steps_counted me s1 s H1 Hst) as (_ & _ & Hob). pose proof (snapshot_only me _ _ _ _ _ _ _ Hr E) as Hob1.
  destruct (snapshot_contents _ _ _ _ _ _ _ Hr E) as [[[Hc Ec]|(Hc & Hn & Eo & Ec)] _].
  - exists s0. split; [done|]. split; [done|]. intros Ecount. etrans; [exact Hob1|]. apply Hob. congruence.
  - destruct (IH Hr Hn) as (s' & Hs' & Hc' & Hob'). exists s'. split; [done|]. split; [by apply Hc|]. intros Ecount.
    etrans; [by apply Hob'|]. etrans; [exact Hob1|]. apply Hob. congruence.
Qed.

Lemma xmin_near me s0 s snap : inv s0 -> inv s -> only_begun me s0 s -> collected_at me s0 snap ->
  exists m, s_xmin snap = xid32 m /\ near_next (nextXid s) m.
Proof.
  intros Hs0 Hs Hob [Ec _]. destruct (collect_xids_spec me s0 Hs0) as (m & c & E & _ & [M1 M2] & _ & Hlt & Hm & C1 & _).
  rewrite E in Ec. injection Ec as _ ->. exists m. split; [done|]. split; [done|]. pose proof (ob_next _ _ _ Hob).
  destruct Hm as [->|Hm]; [|destruct (live_recent s m Hs (ob_live _ _ _ Hob m Hm)); lia].
  destruct (i_latest _ Hs) as [[_ ?] _]. rewrite (ob_latest _ _ _ Hob) in *. lia.
Qed.

(** pg_subtrans as a visibility test finds it. *)
Definition finds_parents (env : xact_env) (s : shared) (xmin : Z) : Prop :=
  exists log, SubTransGetParent log = SubTrans s /\ TransactionXmin log = xmin
    /\ forall fuel x y, SubTransGetTopmostTransaction log fuel x = Ok y -> Topmost env x = y.

(** A backend that has published an xmin before keeps it as TransactionXmin, and it is not
    after the xmin of a new snapshot: what the code asserts at the end. *)
Definition xmin_kept (me : nat) (s : shared) (b : backend) (snap : Snapshot) : Prop :=
  forall p, procs s !! me = Some p -> TransactionIdIsValid (p_xmin p) = true ->
    exists TX, b_TransactionXmin b = xid32 TX /\ near_next (nextXid s) TX
      /\ TransactionIdPrecedesOrEquals (xid32 TX) (s_xmin snap) = true.


(** ** A run *)

(** Three backends, at the end of the first four billion identifiers. *)
Module Run.
Inductive command : Set :=
| Begin (i : nat)
| BeginSub (i : nat)
| End_ (i : nat).

Definition has_headroom (s : shared) (next : Z) : bool :=
  (next - 2 ^ 31 <? latestCompletedXid s)
  && forallb (fun p => (p_top p =? 0) || forallb (fun X => next - 2 ^ 31 <? X) (p_top p :: p_children p)) (procs s).

(** Subtransactions are children of the transaction itself here. *)
Definition perform (c : command) (s : shared) : option shared :=
  match c with
  | Begin i =>
      match procs s !! i, GetNewTransactionId true i false s with
      | Some p, Ok (_, s') => if (p_top p =? 0) && has_headroom s (nextXid s') then Some s' else None
      | _, _ => None
      end
  | BeginSub i =>
      match procs s !! i, GetNewTransactionId true i true s with
      | Some p, Ok (X, s') =>
          if negb (p_top p =? 0) && has_headroom s (nextXid s') then Some (SubTransSetParent X (p_top p) s') else None
      | _, _ => None
      end
  | End_ i =>
      match procs s !! i with
      | Some p => if negb (p_top p =? 0)
                  then Some (ProcArrayEndTransactionInternal i (TransactionIdLatest (p_xid p) (xid32 <$> p_children p)) s) else None
      | None => None
      end
  end.

Definition run (l : list command) (s : shared) : option shared :=
  foldl (fun r c => match r with Some s => perform c s | None => None end) (Some s) l.

Lemma has_headroom_spec s next : has_headroom s next = true -> headroom s next.
Proof.
  unfold has_headroom. rewrite andb_true_iff, Z.ltb_lt, forallb_forall. intros [H1 H2]. split; [done|].
  intros X (p & Hp & Ht & HX). specialize (H2 p ltac:(by apply list_elem_of_In)). rewrite orb_true_iff, Z.eqb_eq, forallb_forall in H2.
  destruct H2 as [|H2]; [done|]. apply Z.ltb_lt, H2. by apply list_elem_of_In.
Qed.

Lemma perform_step c s s' : perform c s = Some s' -> xact_step s s'.
Proof.
  destruct c as [i|i|i]; simpl; intros E; repeat case_match; simplify_eq.
  - rewrite andb_true_iff, Z.eqb_eq in *. destruct_and!. eapply begin_xact; eauto using has_headroom_spec.
  - rewrite andb_true_iff, negb_true_iff, Z.eqb_neq in *. destruct_and!. eapply begin_subxact; eauto using has_headroom_spec.
    split; [done|by left].
  - rewrite negb_true_iff, Z.eqb_neq in *. by apply end_xact.
Qed.

Lemma run_steps l s s' : run l s = Some s' -> rtc xact_step s s'.
Proof.
  revert s s'. induction l as [|c l IH] using rev_ind; intros s s' E; [injection E as <-; apply rtc_refl|].
  unfold run in E. rewrite foldl_app in E. simpl in E. fold (run l s) in E. destruct (run l s) as [s1|] eqn:E1; [|done].
  eapply rtc_r; [by apply IH|by eapply perform_step].
Qed.

Definition nobody : PGPROC := mk_proc 0 0 0 [] false 0 [].
Definition start : shared :=
  mk_shared [nobody; nobody; nobody] (2 ^ 32 - 1) (2 ^ 32 - 2) 1 3 (2 ^ 30) (2 ^ 30 + 5) (fun _ => 0) (fun _ => 0) false [] 0 0 0.

(** Backend 1 begins a transaction and 65 subtransactions, one more than fit; backend 2
    begins and ends one. *)
Definition busy_state : shared :=
  default start (run (Begin 1 :: replicate 65 (BeginSub 1) ++ [Begin 2; End_ 2]) start).

Definition fresh_backend : backend := mk_backend 0 0 (mk_vis 0 0) (mk_vis 0 0) (mk_vis 0 0) (mk_vis 0 0) 7.
Definition unused : SnapshotData := mk_snapdata (mk_snapshot SNAPSHOT_MVCC 0 0 [] [] false false 0 0) 0.

Definition first_taken : SnapshotData * shared * backend := GetSnapshotData 0 unused busy_state fresh_backend.
Definition second_taken : SnapshotData * shared * backend :=
  GetSnapshotData 0 (fst (fst first_taken)) (snd (fst first_taken)) (snd first_taken).

Lemma start_ok : started start.
Proof.
  split; [split; [vm_compute; discriminate|reflexivity]|split; [reflexivity|split; [reflexivity|vm_compute; discriminate]]| |done|done].
  by repeat constructor.
Qed.

Lemma busy_reached : rtc xact_step start busy_state.
Proof.
  unfold busy_state. destruct (run _ start) as [s|] eqn:E; [by eapply run_steps|]. exfalso.
  assert (H : bool_decide (is_Some (run (Begin 1 :: replicate 65 (BeginSub 1) ++ [Begin 2; End_ 2]) start)) = true) by (vm_compute; reflexivity).
  rewrite E in H. by apply bool_decide_eq_true in H as [? ?].
Qed.

(** The answers of pg_subtrans. *)
Definition topmost (x : Z) : Z :=
  if SubTrans busy_state x =? 0 then x else if TransactionIdPrecedes x (2 ^ 32 - 1) then x else 2 ^ 32 - 1.
Definition reader : xact_env :=
  mk_env (fun _ => false) (fun _ => false) (fun _ => false) topmost (fun _ _ => []) id id (fun _ => false) (fun _ => false) (fun _ => None).

Lemma subtrans_two x : SubTrans busy_state x = 0 \/ SubTrans busy_state x = 2 ^ 32 - 1.
Proof.
  vm_compute.
  repeat (match goal with |- context [if ?b then _ else _] => destruct b; [(left; reflexivity) || (right; reflexivity)|] end).
  left; reflexivity.
Qed.

Lemma subtrans_top : SubTrans busy_state (2 ^ 32 - 1) = 0.
Proof. vm_compute. reflexivity. Qed.

(** A pg_subtrans in which all parents are the same transaction. *)
Lemma two_levels f P fuel x y : (forall x, f x = 0 \/ f x = P) -> f P = 0 -> normal_full P -> P = xid32 P ->
  SubTransGetTopmostTransaction (mk_log (fun _ => TRANSACTION_STATUS_IN_PROGRESS) (fun _ => 0) f P) fuel x = Ok y ->
  y = if f x =? 0 then x else if TransactionIdPrecedes x P then x else P.
Proof.
  intros Hf HP Hn HPx. assert (Hself : TransactionIdPrecedes P P = false) by (rewrite HPx; rewrite precedes_full by (done || lia); apply Z.ltb_irrefl).
  assert (HPv : TransactionIdIsValid P = true).
  { unfold TransactionIdIsValid, InvalidTransactionId. destruct (Z.eqb_spec P 0) as [->|]; done. }
  assert (Hz : TransactionIdPrecedes 0 P = true).
  { unfold TransactionIdPrecedes. cbn. unfold TransactionIdIsValid, InvalidTransactionId in HPv. rewrite negb_true_iff, Z.eqb_neq in HPv.
    pose proof (xid32_range P). apply Z.ltb_lt. lia. }
  unfold SubTransGetTopmostTransaction. destruct fuel as [|fuel]; [done|]. cbn [while]. unfold topmost_step at 1. cbn [TransactionXmin SubTransGetParent].
  destruct (TransactionIdIsValid x) eqn:Ev.
  2: { intros [= <-]. apply negb_false_iff, Z.eqb_eq in Ev as ->. unfold InvalidTransactionId. rewrite Hz. by destruct (_ =? 0). }
  destruct (TransactionIdPrecedes x P) eqn:Ep; [intros [= <-]; by destruct (_ =? 0)|].
  destruct (negb (TransactionIdPrecedes (f x) x)) eqn:En; [done|]. destruct (Hf x) as [E|E]; rewrite E.
  - destruct fuel as [|fuel]; [done|]. intros [= <-]. done.
  - destruct (Z.eqb_spec P 0) as [->|_]; [done|]. destruct fuel as [|fuel]; [done|]. cbn [while]. unfold topmost_step at 1.
    cbn [TransactionXmin SubTransGetParent]. rewrite HPv, Hself, HP, Hz. destruct fuel as [|fuel]; [done|]. intros [= <-]. done.
Qed.

Lemma reader_finds s : SubTrans s = SubTrans busy_state -> finds_parents reader s (2 ^ 32 - 1).
Proof.
  intros Es. exists (mk_log (fun _ => TRANSACTION_STATUS_IN_PROGRESS) (fun _ => 0) (SubTrans busy_state) (2 ^ 32 - 1)).
  split; [symmetry; exact Es|split; [reflexivity|]]. intros fuel x y E. symmetry.
  refine (two_levels _ _ fuel x y subtrans_two subtrans_top _ _ E); reflexivity.
Qed.

Definition state1 : shared := snd (fst first_taken).

Lemma first_made : GetSnapshotData 0 unused busy_state fresh_backend = (fst (fst first_taken), state1, snd first_taken).
Proof. unfold state1, first_taken. by destruct (GetSnapshotData _ _ _ _) as [[? ?] ?]. Qed.

Lemma second_made :
  GetSnapshotData 0 (fst (fst first_taken)) state1 (snd first_taken) = (fst (fst second_taken), snd (fst second_taken), snd second_taken).
Proof. unfold second_taken, state1. by destruct (GetSnapshotData 0 (fst (fst first_taken)) _ _) as [[? ?] ?]. Qed.

Lemma state1_reachable : reachable busy_state /\ reachable state1.
Proof.
  assert (H0 : reachable busy_state) by (exists start; split; [exact start_ok|exact busy_reached]). split; [done|].
  destruct H0 as (s0 & Hst & Hrtc). exists s0. split; [done|]. eapply rtc_r; [exact Hrtc|]. eapply take_snapshot. exact first_made.
Qed.

Lemma state1_subtrans : SubTrans state1 = SubTrans busy_state.
Proof. vm_compute. reflexivity. Qed.

Lemma live_listed s X : live s X -> existsb (fun p => negb (p_top p =? 0) && bool_decide (X ∈ p_top p :: p_children p)) (procs s) = true.
Proof.
  intros (p & Hp & Ht & HX). apply existsb_exists. exists p. split; [by apply list_elem_of_In|].
  rewrite andb_true_iff, negb_true_iff, Z.eqb_neq, bool_decide_eq_true. done.
Qed.

Lemma state1_kept : xmin_kept 0 state1 (snd first_taken) (contents (fst (fst second_taken))).
Proof.
  intros p _ _. exists (2 ^ 32 - 1). split; [vm_compute; reflexivity|]. split; [|vm_compute; reflexivity].
  split; [reflexivity|]. split; vm_compute; [reflexivity|discriminate].
Qed.

Lemma state1_seen : seen_running state1 0 (2 ^ 32 + 67).
Proof.
  exists 1%nat, (default nobody (procs state1 !! 1%nat)). split; [done|]. split; [vm_compute; reflexivity|].
  split; [vm_compute; reflexivity|]. split; [vm_compute; discriminate|]. apply (bool_decide_unpack _). vm_compute. exact I.
Qed.
End Run.

