(* ===== verification/Clog.v ===== *)
(** The commit log: backend/access/transam/clog.c, with the commit and abort
    entry points of transam.c.

    Two bits per transaction, four transactions to a byte, with one LSN for each
    group of 32 transactions.  The SLRU buffers under the log (slru.c) are taken
    for what they implement, an array of pages: a log is a function from page
    numbers to pages.  Each page is changed under XactSLRULock held exclusively,
    so that the call of [TransactionIdSetPageStatusInternal] is the unit of
    atomicity; the operations on a transaction tree are the list of these page
    updates, in the order in which they are made.  [char] is taken as unsigned;
    the shifts are followed by a mask that removes the difference. *)

From S2P Require Import Prelude Transam.
Local Open Scope Z_scope.

Section clog.
Context (BLCKSZ : Z).

Definition CLOG_BITS_PER_XACT : Z := 2.
Definition CLOG_XACTS_PER_BYTE : Z := 4.
Definition CLOG_XACTS_PER_PAGE : Z := BLCKSZ * CLOG_XACTS_PER_BYTE.
Definition CLOG_XACT_BITMASK : Z := Z.shiftl 1 CLOG_BITS_PER_XACT - 1.

Definition TransactionIdToPage (xid : Z) : Z := xid / CLOG_XACTS_PER_PAGE.
Definition TransactionIdToPgIndex (xid : Z) : Z := xid mod CLOG_XACTS_PER_PAGE.
Definition TransactionIdToByte (xid : Z) : Z := TransactionIdToPgIndex xid / CLOG_XACTS_PER_BYTE.
Definition TransactionIdToBIndex (xid : Z) : Z := xid mod CLOG_XACTS_PER_BYTE.

Definition CLOG_XACTS_PER_LSN_GROUP : Z := 32.
Definition CLOG_LSNS_PER_PAGE : Z := CLOG_XACTS_PER_PAGE / CLOG_XACTS_PER_LSN_GROUP.
(** The index within the page's own part of [group_lsn]. *)
Definition GetLSNIndex (xid : Z) : Z :=
  (xid mod CLOG_XACTS_PER_PAGE) / CLOG_XACTS_PER_LSN_GROUP.

Definition status_code (s : XidStatus) : Z :=
  match s with
  | TRANSACTION_STATUS_IN_PROGRESS => 0x00
  | TRANSACTION_STATUS_COMMITTED => 0x01
  | TRANSACTION_STATUS_ABORTED => 0x02
  | TRANSACTION_STATUS_SUB_COMMITTED => 0x03
  end.

Definition status_of_code (c : Z) : XidStatus :=
  if c =? 0x00 then TRANSACTION_STATUS_IN_PROGRESS
  else if c =? 0x01 then TRANSACTION_STATUS_COMMITTED
  else if c =? 0x02 then TRANSACTION_STATUS_ABORTED
  else TRANSACTION_STATUS_SUB_COMMITTED.

Record clog_page : Set := mk_page {
  page_buffer : list Z;
  group_lsn : list Z;
  page_dirty : bool
}.

Definition clog : Type := Z -> clog_page.
Definition set_page (pageno : Z) (page : clog_page) (c : clog) : clog :=
  fun n => if n =? pageno then page else c n.

Definition InvalidXLogRecPtr : Z := 0.

(** ** One transaction *)

Definition TransactionIdSetStatusBit (InRecovery : bool) (xid : Z) (status : XidStatus) (lsn : Z)
    (page : clog_page) : clog_page :=
  let byteno := Z.to_nat (TransactionIdToByte xid) in
  let bshift := TransactionIdToBIndex xid * CLOG_BITS_PER_XACT in
  let curval := Z.land (Z.shiftr (rd (page_buffer page) byteno) bshift) CLOG_XACT_BITMASK in
  if InRecovery && bool_decide (status = TRANSACTION_STATUS_SUB_COMMITTED)
     && (curval =? status_code TRANSACTION_STATUS_COMMITTED)
  then page
  else
    let byteval := rd (page_buffer page) byteno in
    let byteval :=
      uwrap 8 (Z.land byteval (Z.lnot (Z.shiftl (Z.shiftl 1 CLOG_BITS_PER_XACT - 1) bshift))) in
    let byteval := uwrap 8 (Z.lor byteval (Z.shiftl (status_code status) bshift)) in
    let buffer := <[byteno := byteval]> (page_buffer page) in
    let lsns :=
      if negb (lsn =? InvalidXLogRecPtr) then
        let lsnindex := Z.to_nat (GetLSNIndex xid) in
        if rd (group_lsn page) lsnindex <? lsn then <[lsnindex := lsn]> (group_lsn page)
        else group_lsn page
      else group_lsn page in
    mk_page buffer lsns (page_dirty page).

Definition clog_get_status (c : clog) (xid : Z) : XidStatus * Z :=
  let page := c (TransactionIdToPage xid) in
  let byteno := Z.to_nat (TransactionIdToByte xid) in
  let bshift := TransactionIdToBIndex xid * CLOG_BITS_PER_XACT in
  let status := Z.land (Z.shiftr (rd (page_buffer page) byteno) bshift) CLOG_XACT_BITMASK in
  (status_of_code status, rd (group_lsn page) (Z.to_nat (GetLSNIndex xid))).

(** ** One page *)

Definition set_bits (InRecovery : bool) (subxids : list Z) (status : XidStatus) (lsn : Z)
    (page : clog_page) : clog_page :=
  for_up (length subxids) 0
    (fun i p => TransactionIdSetStatusBit InRecovery (rd subxids i) status lsn p) page.

Definition TransactionIdSetPageStatusInternal (InRecovery : bool) (xid : Z) (subxids : list Z)
    (status : XidStatus) (lsn pageno : Z) (c : clog) : clog :=
  let page := c pageno in
  let page :=
    if TransactionIdIsValid xid then
      let page :=
        if bool_decide (status = TRANSACTION_STATUS_COMMITTED)
        then set_bits InRecovery subxids TRANSACTION_STATUS_SUB_COMMITTED lsn page
        else page in
      TransactionIdSetStatusBit InRecovery xid status lsn page
    else page in
  let page := set_bits InRecovery subxids status lsn page in
  set_page pageno (mk_page (page_buffer page) (group_lsn page) true) c.

(** ** A transaction tree *)

(** The arguments of [TransactionIdSetPageStatus]. *)
Record page_update : Set := mk_update {
  up_xid : Z;
  up_subxids : list Z;
  up_status : XidStatus;
  up_lsn : Z;
  up_pageno : Z
}.

(** The update under the lock, at the end of the function; [set_status_of_page] below is the whole
    of it, with the way through the leader of a group, and does the same. *)
Definition TransactionIdSetPageStatus (InRecovery : bool) (u : page_update) (c : clog) : clog :=
  TransactionIdSetPageStatusInternal InRecovery (up_xid u) (up_subxids u) (up_status u)
    (up_lsn u) (up_pageno u) c.

(** What a backend advertises in shared memory: its identifier and the cached ones of its
    subtransactions. *)
Record advertised : Set := mk_advertised { my_xid : Z; my_subxids : list Z }.

Definition THRESHOLD_SUBTRANS_CLOG_OPT : nat := 5.

(** What the leader of a group does for a member ([TransactionGroupUpdateXidStatus]): the
    identifiers of subtransactions are those the member advertises. *)
Definition group_member_update (InRecovery : bool) (my : advertised) (u : page_update) (c : clog) : clog :=
  TransactionIdSetPageStatusInternal InRecovery (up_xid u) (my_subxids my) (up_status u) (up_lsn u) (up_pageno u) c.

(** [got_lock] and [group_done] are the answers of [LWLockConditionalAcquire] and of
    [TransactionGroupUpdateXidStatus], which depend on other backends. *)
Definition set_status_of_page (InRecovery all_xact_same_page got_lock group_done : bool) (my : advertised) (u : page_update)
    (c : clog) : clog :=
  let nsubxids := length (up_subxids u) in
  if all_xact_same_page && (up_xid u =? my_xid my) && (nsubxids <=? THRESHOLD_SUBTRANS_CLOG_OPT)%nat
     && (nsubxids =? length (my_subxids my))%nat
     && ((nsubxids =? 0)%nat || bool_decide (up_subxids u = take nsubxids (my_subxids my)))
  then
    if got_lock then TransactionIdSetPageStatus InRecovery u c
    else if group_done then group_member_update InRecovery my u c
    else TransactionIdSetPageStatus InRecovery u c
  else TransactionIdSetPageStatus InRecovery u c.

(** The inner [do ... while] loop of [set_status_by_pages], on
    (i, num_on_page, nextpageno). *)
Definition page_run_step (subxids : list Z) (pageno : Z) (s : nat * nat * Z)
  : flow (nat * nat * Z) (nat * nat * Z) :=
  let '(i, num_on_page, _) := s in
  let nextpageno := TransactionIdToPage (rd subxids i) in
  if negb (nextpageno =? pageno) then Return (i, num_on_page, nextpageno)
  else
    let num_on_page := S num_on_page in
    let i := S i in
    if (i <? length subxids)%nat then Next (i, num_on_page, nextpageno)
    else Return (i, num_on_page, nextpageno).

(** A round of its outer loop, on (i, offset, pageno) and the updates so far. *)
Definition by_pages_step (subxids : list Z) (status : XidStatus) (lsn : Z)
    (s : nat * nat * Z * list page_update)
  : flow (nat * nat * Z * list page_update) (res (list page_update)) :=
  let '(i, offset, pageno, ups) := s in
  if (i <? length subxids)%nat then
    match while (S (length subxids)) (page_run_step subxids pageno) (i, 0%nat, pageno) with
    | Some (i, num_on_page, nextpageno) =>
        let u := mk_update InvalidTransactionId (take num_on_page (drop offset subxids))
                   status lsn pageno in
        Next (i, i, nextpageno, ups ++ [u])
    | None => Return (Err out_of_fuel)
    end
  else Return (Ok ups).

Definition set_status_by_pages (subxids : list Z) (status : XidStatus) (lsn : Z)
  : res (list page_update) :=
  let pageno := TransactionIdToPage (rd subxids 0) in
  match while (S (length subxids)) (by_pages_step subxids status lsn) (0%nat, 0%nat, pageno, []) with
  | Some r => r
  | None => Err out_of_fuel
  end.

Definition TransactionIdSetTreeStatus (xid : Z) (subxids : list Z) (status : XidStatus) (lsn : Z)
  : res (list page_update) :=
  let pageno := TransactionIdToPage xid in
  let i := after (for_up_ret (length subxids) 0
                    (fun i s => if negb (TransactionIdToPage (rd subxids i) =? pageno)
                                then Return i else Next s) tt)
             (fun _ => length subxids) in
  if (i =? length subxids)%nat
  then Ok [mk_update xid subxids status lsn pageno]
  else
    let nsubxids_on_first_page := i in
    let rest := drop nsubxids_on_first_page subxids in
    let main := mk_update xid (take nsubxids_on_first_page subxids) status lsn pageno in
    match status with
    | TRANSACTION_STATUS_COMMITTED =>
        match set_status_by_pages rest TRANSACTION_STATUS_SUB_COMMITTED lsn,
              set_status_by_pages rest status lsn with
        | Ok first, Ok last => Ok (first ++ [main] ++ last)
        | Err e, _ | _, Err e => Err e
        end
    | _ =>
        match set_status_by_pages rest status lsn with
        | Ok last => Ok (main :: last)
        | Err e => Err e
        end
    end.

(** The entry points of transam.c. *)
Definition TransactionIdCommitTree (xid : Z) (xids : list Z) : res (list page_update) :=
  TransactionIdSetTreeStatus xid xids TRANSACTION_STATUS_COMMITTED InvalidXLogRecPtr.
Definition TransactionIdAsyncCommitTree (xid : Z) (xids : list Z) (lsn : Z)
  : res (list page_update) :=
  TransactionIdSetTreeStatus xid xids TRANSACTION_STATUS_COMMITTED lsn.
Definition TransactionIdAbortTree (xid : Z) (xids : list Z) : res (list page_update) :=
  TransactionIdSetTreeStatus xid xids TRANSACTION_STATUS_ABORTED InvalidXLogRecPtr.

(** ** Group updates *)

(** What [TransactionGroupUpdateXidStatus] keeps in a PGPROC; the subtransactions
    are those advertised in its cache.  [None] is INVALID_PGPROCNO. *)
Record group_proc : Set := mk_proc {
  clogGroupMember : bool;
  clogGroupUpdate : page_update;
  clogGroupNext : option nat
}.

Record group_state : Set := mk_group {
  allProcs : list group_proc;
  clogGroupFirst : option nat
}.

(** A process tries to add itself to the list; [false] when the list is for
    another page.  A round that loses the race for the list head is repeated, so
    that the round that counts is this. *)
Definition group_join (me : nat) (u : page_update) (g : group_state) : bool * group_state :=
  let nextidx := clogGroupFirst g in
  let other :=
    match nextidx with
    | Some n =>
        match allProcs g !! n with
        | Some p => negb (up_pageno (clogGroupUpdate p) =? up_pageno u)
        | None => false
        end
    | None => false
    end in
  if other then (false, mk_group (<[me := mk_proc false u None]> (allProcs g)) (clogGroupFirst g))
  else (true, mk_group (<[me := mk_proc true u nextidx]> (allProcs g)) (Some me)).

(** The leader's loop over the list it has taken, under one lock. *)
Fixpoint group_apply (fuel : nat) (InRecovery : bool) (procs : list group_proc)
    (nextidx : option nat) (c : clog) : option clog :=
  match nextidx with
  | None => Some c
  | Some n =>
      match fuel, procs !! n with
      | S fuel, Some p =>
          group_apply fuel InRecovery procs (clogGroupNext p)
            (TransactionIdSetPageStatus InRecovery (clogGroupUpdate p) c)
      | _, _ => None
      end
  end.

(** The leader wakes up everybody. *)
Fixpoint group_wake (fuel : nat) (procs : list group_proc) (wakeidx : option nat)
  : option (list group_proc) :=
  match wakeidx with
  | None => Some procs
  | Some n =>
      match fuel, procs !! n with
      | S fuel, Some p =>
          group_wake fuel (<[n := mk_proc false (clogGroupUpdate p) None]> procs) (clogGroupNext p)
      | _, _ => None
      end
  end.

Definition group_lead (fuel : nat) (InRecovery : bool) (g : group_state) (c : clog)
  : option (group_state * clog) :=
  let nextidx := clogGroupFirst g in
  match group_apply fuel InRecovery (allProcs g) nextidx c,
        group_wake fuel (allProcs g) nextidx with
  | Some c, Some procs => Some (mk_group procs None, c)
  | _, _ => None
  end.

(** ** Pages *)

Definition ZeroCLOGPage (pageno : Z) (c : clog) : clog :=
  set_page pageno (mk_page (replicate (Z.to_nat BLCKSZ) 0)
                     (replicate (Z.to_nat CLOG_LSNS_PER_PAGE) 0) true) c.

Definition ExtendCLOG (newestXact : Z) (c : clog) : clog :=
  if negb (TransactionIdToPgIndex newestXact =? 0)
     && negb (TransactionIdEquals newestXact FirstNormalTransactionId)
  then c
  else ZeroCLOGPage (TransactionIdToPage newestXact) c.

Definition TrimCLOG (nextXid : Z) (c : clog) : clog :=
  let xid := XidFromFullTransactionId nextXid in
  let pageno := TransactionIdToPage xid in
  if negb (TransactionIdToPgIndex xid =? 0) then
    let byteno := Z.to_nat (TransactionIdToByte xid) in
    let bshift := TransactionIdToBIndex xid * CLOG_BITS_PER_XACT in
    let page := c pageno in
    let buffer := <[byteno := Z.land (rd (page_buffer page) byteno) (Z.shiftl 1 bshift - 1)]>
                    (page_buffer page) in
    let buffer := take (S byteno) buffer
                  ++ replicate (Z.to_nat BLCKSZ - byteno - 1) 0 in
    set_page pageno (mk_page buffer (group_lsn page) true) c
  else c.

Definition CLOGPagePrecedes (page1 page2 : Z) : bool :=
  let xid1 := uwrap 32 (uwrap 32 (page1 * CLOG_XACTS_PER_PAGE) + FirstNormalTransactionId + 1) in
  let xid2 := uwrap 32 (uwrap 32 (page2 * CLOG_XACTS_PER_PAGE) + FirstNormalTransactionId + 1) in
  TransactionIdPrecedes xid1 xid2
  && TransactionIdPrecedes xid1 (uwrap 32 (xid2 + CLOG_XACTS_PER_PAGE - 1)).
End clog.
