(* ===== verification/ClogProps.v ===== *)
(** Properties of the commit log: what is written is read back and nothing else
    changes, and a commit of a transaction with its subtransactions is atomic for
    everybody who asks transam.c, between any two of its page updates. *)

From S2P Require Import Prelude Transam TransamProps Clog.
Local Open Scope Z_scope.

(** ** Two bits of a byte *)

Definition bits_at (b i : Z) : Z := Z.land (Z.shiftr b (i * CLOG_BITS_PER_XACT)) CLOG_XACT_BITMASK.
Definition put_bits (b i s : Z) : Z :=
  uwrap 8 (Z.lor (uwrap 8 (Z.land b (Z.lnot (Z.shiftl (Z.shiftl 1 CLOG_BITS_PER_XACT - 1) (i * CLOG_BITS_PER_XACT)))))
             (Z.shiftl s (i * CLOG_BITS_PER_XACT))).

Lemma bits_at_testbit b i k :
  0 <= i -> 0 <= k -> Z.testbit (bits_at b i) k = (k <? 2) && Z.testbit b (i * 2 + k).
Proof.
  intros Hi Hk. unfold bits_at, CLOG_XACT_BITMASK.
  change (Z.shiftl 1 CLOG_BITS_PER_XACT - 1) with (Z.ones 2). unfold CLOG_BITS_PER_XACT.
  rewrite Z.land_spec, Z.shiftr_spec, Z.testbit_ones_nonneg, andb_comm by lia.
  by rewrite (Z.add_comm k).
Qed.

Lemma put_bits_testbit b i s k :
  0 <= i < 4 -> 0 <= s < 4 -> 0 <= k < 8 ->
  Z.testbit (put_bits b i s) k
  = if (i * 2 <=? k) && (k <? i * 2 + 2) then Z.testbit s (k - i * 2) else Z.testbit b k.
Proof.
  intros Hi Hs Hk. unfold put_bits.
  change (Z.shiftl 1 CLOG_BITS_PER_XACT - 1) with (Z.ones 2). unfold CLOG_BITS_PER_XACT.
  rewrite uwrap_testbit, Z.lor_spec, uwrap_testbit, Z.land_spec, Z.lnot_spec, !Z.shiftl_spec by lia.
  rewrite !bool_decide_eq_true_2 by lia. cbn [andb].
  destruct (Z.leb_spec (i * 2) k); simpl.
  - rewrite Z.testbit_ones_nonneg by lia.
    destruct (Z.ltb_spec (k - i * 2) 2), (Z.ltb_spec k (i * 2 + 2)); try lia; simpl.
    + by rewrite andb_false_r.
    + rewrite andb_true_r. rewrite (in_u_testbit_high 2 s); [by rewrite orb_false_r|done|lia].
  - rewrite !(Z.testbit_neg_r _ (k - i * 2)) by lia. by rewrite andb_true_r, orb_false_r.
Qed.

Lemma put_bits_spec b i s :
  in_u 8 b -> 0 <= i < 4 -> 0 <= s < 4 ->
  in_u 8 (put_bits b i s)
  /\ forall j, 0 <= j < 4 -> bits_at (put_bits b i s) j = if j =? i then s else bits_at b j.
Proof.
  intros Hb Hi Hs. split; [by apply uwrap_range|].
  intros j Hj. apply Z.bits_inj'. intros k Hk.
  rewrite bits_at_testbit by lia.
  destruct (Z.ltb_spec k 2) as [Hk2|Hk2]; simpl.
  - rewrite put_bits_testbit by lia.
    destruct (Z.leb_spec (i * 2) (j * 2 + k)), (Z.ltb_spec (j * 2 + k) (i * 2 + 2)),
      (Z.eqb_spec j i); try lia; simpl; subst; rewrite ?bits_at_testbit by lia;
      try (destruct (Z.ltb_spec k 2); [done|lia]).
    f_equal. lia.
  - destruct (Z.eqb_spec j i).
    + symmetry. apply (in_u_testbit_high 2); [unfold in_u; lia|lia].
    + rewrite bits_at_testbit by lia. by destruct (Z.ltb_spec k 2); [lia|].
Qed.

Lemma status_code_range s : 0 <= status_code s < 4.
Proof. destruct s; simpl; lia. Qed.

Lemma status_of_code_spec s : status_of_code (status_code s) = s.
Proof. by destruct s. Qed.

Section props.
Context (BLCKSZ : Z).
Hypothesis BLCKSZ_pos : 0 < BLCKSZ.

(** ** Addresses *)

Lemma to_byte_range x :
  0 <= TransactionIdToByte BLCKSZ x < BLCKSZ /\ 0 <= TransactionIdToBIndex x < 4.
Proof.
  unfold TransactionIdToByte, TransactionIdToPgIndex, CLOG_XACTS_PER_PAGE, CLOG_XACTS_PER_BYTE,
    TransactionIdToBIndex, CLOG_XACTS_PER_BYTE.
  pose proof (Z.mod_pos_bound x (BLCKSZ * 4) ltac:(lia)).
  pose proof (Z.mod_pos_bound x 4 ltac:(lia)).
  split; [|lia]. split; [apply Z.div_pos; lia|]. apply Z.div_lt_upper_bound; lia.
Qed.

(** A transaction is found by page, byte and index. *)
Lemma address_inj x y :
  TransactionIdToPage BLCKSZ x = TransactionIdToPage BLCKSZ y ->
  TransactionIdToByte BLCKSZ x = TransactionIdToByte BLCKSZ y ->
  TransactionIdToBIndex x = TransactionIdToBIndex y -> x = y.
Proof.
  unfold TransactionIdToPage, TransactionIdToByte, TransactionIdToBIndex, TransactionIdToPgIndex,
    CLOG_XACTS_PER_PAGE, CLOG_XACTS_PER_BYTE.
  intros Hp Hb Hi.
  assert (Hm : forall z, (z mod (BLCKSZ * 4)) mod 4 = z mod 4).
  { intros z. apply Z.mod_mod_divide. by exists BLCKSZ. }
  rewrite (Z.div_mod x (BLCKSZ * 4)), (Z.div_mod y (BLCKSZ * 4)), Hp by lia. f_equal.
  rewrite (Z.div_mod (x mod (BLCKSZ * 4)) 4), (Z.div_mod (y mod (BLCKSZ * 4)) 4) by lia.
  by rewrite !Hm, Hb, Hi.
Qed.

(** ** Pages *)

Record page_ok (p : clog_page) : Prop := {
  ok_length : length (page_buffer p) = Z.to_nat BLCKSZ;
  ok_bytes : Forall (in_u 8) (page_buffer p);
  ok_lsns : length (group_lsn p) = Z.to_nat (CLOG_LSNS_PER_PAGE BLCKSZ)
}.

Definition page_status (p : clog_page) (x : Z) : XidStatus :=
  status_of_code (bits_at (rd (page_buffer p) (Z.to_nat (TransactionIdToByte BLCKSZ x)))
                    (TransactionIdToBIndex x)).

(** In recovery, a committed subtransaction is not demoted. *)
Definition overwrite (InRecovery : bool) (s old : XidStatus) : XidStatus :=
  if InRecovery && bool_decide (s = TRANSACTION_STATUS_SUB_COMMITTED)
     && bool_decide (old = TRANSACTION_STATUS_COMMITTED)
  then old else s.

Lemma page_byte p x : page_ok p ->
  in_u 8 (rd (page_buffer p) (Z.to_nat (TransactionIdToByte BLCKSZ x))).
Proof.
  intros [Hl Hb _]. destruct (to_byte_range x) as [H _].
  eapply Forall_lookup_1; [exact Hb|]. apply rd_lookup. lia.
Qed.

Lemma bits_at_range b i : 0 <= bits_at b i < 4.
Proof.
  unfold bits_at, CLOG_XACT_BITMASK. change (Z.shiftl 1 CLOG_BITS_PER_XACT - 1) with (Z.ones 2).
  rewrite Z.land_ones by lia. apply Z.mod_pos_bound. done.
Qed.

Lemma bits_committed b i :
  (bits_at b i =? status_code TRANSACTION_STATUS_COMMITTED)
  = bool_decide (status_of_code (bits_at b i) = TRANSACTION_STATUS_COMMITTED).
Proof.
  pose proof (bits_at_range b i).
  assert (bits_at b i = 0 \/ bits_at b i = 1 \/ bits_at b i = 2 \/ bits_at b i = 3) as HC by lia.
  by destruct HC as [-> | [-> | [-> | ->]]].
Qed.

Lemma set_bit_page InRecovery x s lsn p :
  page_ok p ->
  page_ok (TransactionIdSetStatusBit BLCKSZ InRecovery x s lsn p)
  /\ forall y, TransactionIdToPage BLCKSZ y = TransactionIdToPage BLCKSZ x ->
     page_status (TransactionIdSetStatusBit BLCKSZ InRecovery x s lsn p) y
     = if decide (y = x) then overwrite InRecovery s (page_status p x) else page_status p y.
Proof.
  intros Hp. pose proof (page_byte p x Hp) as Hx. destruct (to_byte_range x) as [Rx Ri].
  unfold TransactionIdSetStatusBit. fold (bits_at (rd (page_buffer p)
    (Z.to_nat (TransactionIdToByte BLCKSZ x))) (TransactionIdToBIndex x)).
  rewrite bits_committed. fold (page_status p x).
  unfold overwrite. destruct (InRecovery && _ && _) eqn:E.
  { split; [done|]. intros y _. by destruct (decide (y = x)) as [->|]. }
  destruct Hp as [Hl Hb Hn].
  pose proof (put_bits_spec _ _ (status_code s) Hx Ri (status_code_range s)) as [Hr Hj].
  unfold put_bits in Hr, Hj.
  split.
  - split; simpl.
    + by rewrite length_insert.
    + by apply Forall_insert.
    + by repeat case_match; rewrite ?length_insert.
  - intros y Hy. unfold page_status at 1. simpl. destruct (to_byte_range y) as [Ry Riy].
    destruct (decide (TransactionIdToByte BLCKSZ y = TransactionIdToByte BLCKSZ x)) as [Ey|Ey].
    + rewrite Ey, rd_insert_eq by lia. rewrite Hj by done.
      destruct (Z.eqb_spec (TransactionIdToBIndex y) (TransactionIdToBIndex x)) as [Ei|Ei].
      * rewrite decide_True by (by apply address_inj). apply status_of_code_spec.
      * rewrite decide_False by congruence. unfold page_status. by rewrite Ey.
    + rewrite rd_insert_ne by lia. rewrite decide_False by congruence. done.
Qed.

Lemma set_bits_page InRecovery xs s lsn p pageno :
  page_ok p -> Forall (fun x => TransactionIdToPage BLCKSZ x = pageno) xs ->
  page_ok (set_bits BLCKSZ InRecovery xs s lsn p)
  /\ forall y, TransactionIdToPage BLCKSZ y = pageno ->
     page_status (set_bits BLCKSZ InRecovery xs s lsn p) y
     = if decide (y ∈ xs) then overwrite InRecovery s (page_status p y) else page_status p y.
Proof.
  intros Hp Hx. unfold set_bits.
  pose proof (for_up_ind (fun k q => page_ok q /\ forall y, TransactionIdToPage BLCKSZ y = pageno ->
     page_status q y
     = if decide (y ∈ take k xs) then overwrite InRecovery s (page_status p y) else page_status p y)
    (fun i p => TransactionIdSetStatusBit BLCKSZ InRecovery (rd xs i) s lsn p)
    (length xs) 0 p) as H.
  cbn beta in H. rewrite Nat.add_0_l, (take_ge xs (length xs)) in H by lia. apply H; clear H.
  - split; [done|]. intros y _. rewrite decide_False; [done|]. apply not_elem_of_nil.
  - intros k q Hk [Hq IH]. destruct (set_bit_page InRecovery (rd xs k) s lsn q Hq) as [Hok Hst].
    split; [done|]. intros y Hy.
    assert (Hxk : xs !! k = Some (rd xs k)) by (apply rd_lookup; lia).
    assert (Hpk : TransactionIdToPage BLCKSZ (rd xs k) = pageno)
      by (eapply Forall_lookup_1 in Hx; [exact Hx|done]).
    rewrite Hst by congruence. rewrite (take_S_r _ _ _ Hxk).
    destruct (decide (y = rd xs k)) as [->|Hne].
    + rewrite IH by done. rewrite (decide_True (P := _ ∈ take k xs ++ _)) by set_solver.
      destruct (decide (rd xs k ∈ take k xs)); [|done].
      unfold overwrite. by destruct InRecovery, s, (page_status p (rd xs k)).
    + rewrite IH by done. by repeat case_decide; set_solver.
Qed.

(** ** Updates of the log *)

Definition clog_ok (c : clog) : Prop := forall n, page_ok (c n).
Definition status_of (c : clog) (x : Z) : XidStatus := fst (clog_get_status BLCKSZ c x).

Lemma status_of_page c x : status_of c x = page_status (c (TransactionIdToPage BLCKSZ x)) x.
Proof. done. Qed.

(** All the transactions of an update are on its page. *)
Definition on_page (u : page_update) : Prop :=
  (TransactionIdIsValid (up_xid u) = true -> TransactionIdToPage BLCKSZ (up_xid u) = up_pageno u)
  /\ Forall (fun x => TransactionIdToPage BLCKSZ x = up_pageno u) (up_subxids u).

Definition touched (u : page_update) (y : Z) : Prop :=
  y ∈ up_subxids u \/ (TransactionIdIsValid (up_xid u) = true /\ y = up_xid u).

#[global] Instance touched_dec u y : Decision (touched u y).
Proof. unfold touched. apply _. Defined.

(** The page after the main transaction is marked: what will be written over the
    subtransactions is the same as without the first pass over them. *)
Lemma main_page_status InRecovery u p0 :
  page_ok p0 -> on_page u ->
  let p1 :=
    if TransactionIdIsValid (up_xid u)
    then TransactionIdSetStatusBit BLCKSZ InRecovery (up_xid u) (up_status u) (up_lsn u)
           (if bool_decide (up_status u = TRANSACTION_STATUS_COMMITTED)
            then set_bits BLCKSZ InRecovery (up_subxids u) TRANSACTION_STATUS_SUB_COMMITTED (up_lsn u) p0
            else p0)
    else p0 in
  page_ok p1 /\ forall y, TransactionIdToPage BLCKSZ y = up_pageno u ->
    overwrite InRecovery (up_status u) (page_status p1 y)
      = overwrite InRecovery (up_status u) (page_status p0 y)
    /\ (y ∉ up_subxids u -> page_status p1 y =
        if decide (TransactionIdIsValid (up_xid u) = true /\ y = up_xid u)
        then overwrite InRecovery (up_status u) (page_status p0 y) else page_status p0 y).
Proof.
  intros H0 [Hx Hs] p1. subst p1. destruct (TransactionIdIsValid (up_xid u)) eqn:Ev.
  2: { split; [done|]. intros y _. split; [done|]. intros _. by rewrite decide_False by naive_solver. }
  set (p2 := if bool_decide _ then _ else p0).
  assert (H2 : page_ok p2 /\ forall y, TransactionIdToPage BLCKSZ y = up_pageno u ->
    overwrite InRecovery (up_status u) (page_status p2 y)
      = overwrite InRecovery (up_status u) (page_status p0 y)
    /\ (y ∉ up_subxids u -> page_status p2 y = page_status p0 y)).
  { subst p2. case_bool_decide as Es; [|done].
    destruct (set_bits_page InRecovery (up_subxids u) TRANSACTION_STATUS_SUB_COMMITTED (up_lsn u)
      p0 (up_pageno u) H0 Hs) as [Hok Hst].
    split; [done|]. intros y Hy. rewrite Hst by done. rewrite Es.
    split; [|by intros; rewrite decide_False].
    unfold overwrite. rewrite !andb_false_r. done. }
  destruct H2 as [Hok2 Hst2].
  destruct (set_bit_page InRecovery (up_xid u) (up_status u) (up_lsn u) p2 Hok2) as [Hok Hst].
  specialize (Hx eq_refl). split; [done|]. intros y Hy. destruct (Hst2 y Hy) as [Ho Hn].
  rewrite Hst by congruence. destruct (decide (y = up_xid u)) as [->|Hne].
  - rewrite Ho. split.
    + unfold overwrite. by destruct InRecovery, (up_status u), (page_status p0 (up_xid u)).
    + intros _. by rewrite decide_True.
  - split; [done|]. intros Hni. rewrite decide_False by naive_solver. auto.
Qed.

Lemma set_page_status InRecovery u c :
  clog_ok c -> on_page u ->
  clog_ok (TransactionIdSetPageStatus BLCKSZ InRecovery u c)
  /\ forall y, status_of (TransactionIdSetPageStatus BLCKSZ InRecovery u c) y
     = if decide (touched u y) then overwrite InRecovery (up_status u) (status_of c y)
       else status_of c y.
Proof.
  intros Hc Hp. unfold TransactionIdSetPageStatus, TransactionIdSetPageStatusInternal.
  destruct (main_page_status InRecovery u _ (Hc (up_pageno u)) Hp) as [Hok1 Hst1].
  destruct Hp as [Hx Hs].
  set (p1 := if TransactionIdIsValid (up_xid u) then _ else c (up_pageno u)) in *. clearbody p1.
  destruct (set_bits_page InRecovery (up_subxids u) (up_status u) (up_lsn u) p1 (up_pageno u)
    Hok1 Hs) as [Hok Hst].
  split.
  - intros n. unfold set_page. destruct (n =? up_pageno u); [|done].
    destruct Hok. by split.
  - intros y. rewrite !status_of_page. unfold set_page.
    destruct (Z.eqb_spec (TransactionIdToPage BLCKSZ y) (up_pageno u)) as [Ey|Ey].
    + rewrite Ey. destruct (Hst1 y Ey) as [Ho Hn].
      change (page_status (mk_page (page_buffer ?p) (group_lsn ?p) true) ?y) with (page_status p y).
      rewrite Hst by done. unfold touched.
      destruct (decide (y ∈ up_subxids u)) as [Hi|Hi].
      * by rewrite decide_True by auto.
      * rewrite Hn by done. by repeat case_decide; naive_solver.
    + rewrite decide_False; [done|]. intros [Hi|[Hv ->]]; [|by apply Ey, Hx].
      rewrite Forall_forall in Hs. by apply Ey, Hs.
Qed.

(** ** Page by page *)

(** Updates that set some subtransactions to one status, each on its page. *)
Definition sub_updates (status : XidStatus) (lsn : Z) (ups : list page_update) : Prop :=
  Forall (fun u => up_xid u = InvalidTransactionId /\ up_status u = status /\ up_lsn u = lsn
                   /\ on_page u) ups.

Definition updated (ups : list page_update) : list Z := concat (up_subxids <$> ups).

(** The inner loop takes the longest run of transactions on the page. *)
Lemma page_run_spec xs pageno i0 :
  (i0 < length xs)%nat -> TransactionIdToPage BLCKSZ (rd xs i0) = pageno ->
  exists num next,
    while (S (length xs)) (page_run_step BLCKSZ xs pageno) (i0, 0%nat, pageno)
    = Some ((i0 + num)%nat, num, next)
    /\ (0 < num)%nat /\ (i0 + num <= length xs)%nat
    /\ (forall k, (i0 <= k < i0 + num)%nat -> TransactionIdToPage BLCKSZ (rd xs k) = pageno)
    /\ ((i0 + num < length xs)%nat -> next = TransactionIdToPage BLCKSZ (rd xs (i0 + num))).
Proof.
  intros Hi Hp.
  destruct (while_total
    (fun '(i, num, _) => i = (i0 + num)%nat /\ (i < length xs)%nat
       /\ (forall k, (i0 <= k < i)%nat -> TransactionIdToPage BLCKSZ (rd xs k) = pageno))
    (fun '(i, num, next) => i = (i0 + num)%nat /\ (0 < num)%nat /\ (i <= length xs)%nat
       /\ (forall k, (i0 <= k < i)%nat -> TransactionIdToPage BLCKSZ (rd xs k) = pageno)
       /\ ((i < length xs)%nat -> next = TransactionIdToPage BLCKSZ (rd xs i)))
    (fun '(i, _, _) => (length xs - i)%nat)
    (page_run_step BLCKSZ xs pageno) (S (length xs)) (i0, 0%nat, pageno))
    as ([[i num] next] & E & -> & H1 & H2 & H3 & H4).
  - split; [lia|]. split; [done|]. intros k Hk. lia.
  - simpl. lia.
  - intros [[i num] next] (-> & Hlt & Hall). unfold page_run_step.
    destruct (Z.eqb_spec (TransactionIdToPage BLCKSZ (rd xs (i0 + num))) pageno) as [E|E]; simpl.
    + assert (Hall' : forall k, (i0 <= k < S (i0 + num))%nat -> TransactionIdToPage BLCKSZ (rd xs k) = pageno).
      { intros k Hk. destruct (decide (k = (i0 + num)%nat)) as [->|]; [done|]. apply Hall. lia. }
      destruct (Nat.ltb_spec (S (i0 + num)) (length xs)).
      * split; [|lia]. split; [lia|]. done.
      * split; [lia|]. split; [lia|]. split; [lia|]. split; [done|]. lia.
    + split; [done|]. split; [|split; [lia|done]].
      destruct num; [|lia]. rewrite Nat.add_0_r in E. congruence.
  - exists num, next. done.
Qed.

Lemma set_status_by_pages_spec xs status lsn :
  exists ups, set_status_by_pages BLCKSZ xs status lsn = Ok ups
    /\ updated ups = xs /\ sub_updates status lsn ups.
Proof.
  unfold set_status_by_pages.
  destruct (while_total
    (fun '(i, offset, pageno, ups) => i = offset /\ (i <= length xs)%nat
       /\ ((i < length xs)%nat -> pageno = TransactionIdToPage BLCKSZ (rd xs i))
       /\ updated ups = take i xs /\ sub_updates status lsn ups)
    (fun r => exists ups, r = Ok ups /\ updated ups = xs /\ sub_updates status lsn ups)
    (fun '(i, _, _, _) => (length xs - i)%nat)
    (by_pages_step BLCKSZ xs status lsn) (S (length xs))
    (0%nat, 0%nat, TransactionIdToPage BLCKSZ (rd xs 0), [])) as (r & -> & H).
  - split; [done|]. split; [lia|]. split; [done|]. split; [done|]. apply Forall_nil_2.
  - simpl. lia.
  - intros [[[i offset] pageno] ups] (<- & Hle & Hp & Hu & Hs). unfold by_pages_step.
    destruct (Nat.ltb_spec i (length xs)) as [Hlt|Hge].
    + destruct (page_run_spec xs pageno i Hlt (eq_sym (Hp Hlt)))
        as (num & next & -> & Hnum & Hn & Hall & Hnext).
      split; [|lia]. split; [done|]. split; [done|]. split; [done|]. split.
      * unfold updated in *. rewrite fmap_app, concat_app, Hu. simpl. rewrite app_nil_r.
        by rewrite take_take_drop.
      * apply Forall_app_2; [done|]. apply Forall_singleton. simpl. split_and!; try done.
        split; [done|]. simpl. apply Forall_lookup_2. intros k x Hk.
        apply lookup_take_Some in Hk as [Hk Hlk]. rewrite lookup_drop in Hk.
        rewrite <- (Hall (i + k)%nat) by lia. unfold rd. by rewrite Hk.
    + exists ups. split; [done|]. split; [|done]. by rewrite Hu, take_ge.
  - done.
Qed.

(** ** The whole tree *)

(** The updates of [TransactionIdSetTreeStatus]: first, for a commit, the
    subtransactions on other pages, as subcommitted; then the page of the main
    transaction; last the other pages again. *)
Lemma set_tree_status_spec xid xs status lsn :
  TransactionIdIsValid xid = true ->
  exists first main last,
    TransactionIdSetTreeStatus BLCKSZ xid xs status lsn = Ok (first ++ [main] ++ last)
    /\ up_xid main = xid /\ up_status main = status /\ up_lsn main = lsn /\ on_page main
    /\ xs = up_subxids main ++ updated last
    /\ sub_updates TRANSACTION_STATUS_SUB_COMMITTED lsn first /\ sub_updates status lsn last
    /\ updated first = match status with TRANSACTION_STATUS_COMMITTED => updated last | _ => [] end.
Proof.
  intros Hv. unfold TransactionIdSetTreeStatus.
  set (pageno := TransactionIdToPage BLCKSZ xid).
  set (n := after _ _).
  assert (Hn : (n <= length xs)%nat
    /\ Forall (fun x => TransactionIdToPage BLCKSZ x = pageno) (take n xs)).
  { subst n. pose proof (for_up_ret_ind
      (fun k (_ : unit) => Forall (fun x => TransactionIdToPage BLCKSZ x = pageno) (take k xs))
      (fun k => (k <= length xs)%nat
         /\ Forall (fun x => TransactionIdToPage BLCKSZ x = pageno) (take k xs))
      (fun i s => if negb (TransactionIdToPage BLCKSZ (rd xs i) =? pageno) then Return i else Next s)
      (length xs) 0 tt) as H.
    ospecialize* H; [apply Forall_nil_2| |by destruct (for_up_ret _ _ _ _)].
    intros k [] Hk Hall.
    destruct (Z.eqb_spec (TransactionIdToPage BLCKSZ (rd xs k)) pageno) as [E|E]; simpl.
    - rewrite (take_S_r xs k (rd xs k)) by (apply rd_lookup; lia).
      apply Forall_app_2; [done|by apply Forall_singleton].
    - split; [lia|done]. }
  destruct Hn as [Hn Hpg]. clearbody n.
  destruct (Nat.eqb_spec n (length xs)) as [->|Hne].
  - rewrite take_ge in Hpg by done.
    exists [], (mk_update xid xs status lsn pageno), []. simpl.
    split_and!; try done; try apply Forall_nil_2; [by rewrite app_nil_r|by destruct status].
  - destruct (set_status_by_pages_spec (drop n xs) TRANSACTION_STATUS_SUB_COMMITTED lsn)
      as (first & E1 & U1 & S1).
    destruct (set_status_by_pages_spec (drop n xs) status lsn) as (last & E2 & U2 & S2).
    set (main := mk_update xid (take n xs) status lsn pageno).
    assert (Hx : xs = up_subxids main ++ updated last) by (rewrite U2; symmetry; apply take_drop).
    destruct status; [rewrite E2|rewrite E1, E2|rewrite E2|rewrite E2].
    2: { exists first, main, last. split_and!; try done. by rewrite U1, U2. }
    all: exists [], main, last; by split_and!; try apply Forall_nil_2.
Qed.

(** ** Sequences of updates *)

Definition run (ups : list page_update) (c : clog) : clog :=
  foldl (fun c u => TransactionIdSetPageStatus BLCKSZ false u c) c ups.

Lemma run_sub_updates status lsn ups c :
  clog_ok c -> sub_updates status lsn ups ->
  clog_ok (run ups c)
  /\ forall y, status_of (run ups c) y = if decide (y ∈ updated ups) then status else status_of c y.
Proof.
  intros Hc Hs. revert c Hc. induction Hs as [|u ups (Hx & Hu & _ & Hp) _ IH]; intros c Hc.
  - split; [done|]. intros y. by rewrite decide_False by (apply not_elem_of_nil).
  - destruct (set_page_status false u c Hc Hp) as [Hok Hst].
    change (run (u :: ups) c) with (run ups (TransactionIdSetPageStatus BLCKSZ false u c)).
    destruct (IH _ Hok) as [Hok' Hst']. split; [done|]. intros y. rewrite Hst', Hst.
    change (updated (u :: ups)) with (up_subxids u ++ updated ups).
    assert (Ht : touched u y <-> y ∈ up_subxids u).
    { unfold touched. rewrite Hx. naive_solver. }
    destruct (decide (y ∈ updated ups)) as [Hi|Hi]; [by rewrite decide_True by set_solver|].
    destruct (decide (touched u y)) as [Hj|Hj]; rewrite Ht in Hj.
    + rewrite decide_True by set_solver. by rewrite Hu.
    + by rewrite decide_False by set_solver.
Qed.

(** The state after the page of the main transaction has been written. *)
Lemma run_main first main c :
  clog_ok c -> sub_updates TRANSACTION_STATUS_SUB_COMMITTED (up_lsn main) first -> on_page main ->
  TransactionIdIsValid (up_xid main) = true ->
  clog_ok (run (first ++ [main]) c)
  /\ forall y, status_of (run (first ++ [main]) c) y
     = if decide (y = up_xid main \/ y ∈ up_subxids main) then up_status main
       else if decide (y ∈ updated first) then TRANSACTION_STATUS_SUB_COMMITTED else status_of c y.
Proof.
  intros Hc Hs Hp Hv. destruct (run_sub_updates _ _ first c Hc Hs) as [Hok Hst].
  destruct (set_page_status false main (run first c) Hok Hp) as [Hok' Hst'].
  unfold run in *. rewrite foldl_app. simpl. split; [done|]. intros y. rewrite Hst', Hst.
  unfold touched, overwrite. simpl.
  destruct (decide (y = up_xid main \/ y ∈ up_subxids main)) as [H|H].
  - rewrite decide_True; [done|]. unfold touched. naive_solver.
  - rewrite decide_False; [done|]. unfold touched. naive_solver.
Qed.
(** ** Log sequence numbers *)

Definition page_lsn (p : clog_page) (x : Z) : Z :=
  rd (group_lsn p) (Z.to_nat (GetLSNIndex BLCKSZ x)).

(** The LSNs of a page do not go back, and those of [xs] reach [lsn]. *)
Definition lsns_raised (xs : list Z) (lsn : Z) (p q : clog_page) : Prop :=
  (forall i, rd (group_lsn p) i <= rd (group_lsn q) i) /\ Forall (fun x => lsn <= page_lsn q x) xs.

Hypothesis BLCKSZ_lsn : (8 | BLCKSZ).

Lemma lsn_index_range x : 0 <= GetLSNIndex BLCKSZ x < CLOG_LSNS_PER_PAGE BLCKSZ.
Proof.
  destruct BLCKSZ_lsn as [k Hk].
  unfold GetLSNIndex, CLOG_LSNS_PER_PAGE, CLOG_XACTS_PER_PAGE, CLOG_XACTS_PER_BYTE,
    CLOG_XACTS_PER_LSN_GROUP. subst BLCKSZ.
  replace (k * 8 * 4) with (k * 32) by lia. rewrite Z.div_mul by lia.
  pose proof (Z.mod_pos_bound x (k * 32) ltac:(lia)).
  split; [apply Z.div_pos; lia|]. apply Z.div_lt_upper_bound; lia.
Qed.

Lemma lsns_raised_trans xs ys lsn p q r :
  lsns_raised xs lsn p q -> lsns_raised ys lsn q r -> lsns_raised (xs ++ ys) lsn p r.
Proof.
  intros [H1 H2] [H3 H4]. split.
  - intros i. specialize (H1 i). specialize (H3 i). lia.
  - apply Forall_app_2; [|done]. eapply Forall_impl; [exact H2|]. intros x Hx. unfold page_lsn in *.
    specialize (H3 (Z.to_nat (GetLSNIndex BLCKSZ x))). lia.
Qed.

Lemma set_bit_lsn x s lsn p :
  0 < lsn -> page_ok p ->
  lsns_raised [x] lsn p (TransactionIdSetStatusBit BLCKSZ false x s lsn p).
Proof.
  intros Hlsn [_ _ Hl]. pose proof (lsn_index_range x) as Hx.
  unfold TransactionIdSetStatusBit, lsns_raised, page_lsn. simpl.
  destruct (Z.eqb_spec lsn InvalidXLogRecPtr) as [->|_]; [done|]. simpl. rewrite Forall_singleton.
  destruct (Z.ltb_spec (rd (group_lsn p) (Z.to_nat (GetLSNIndex BLCKSZ x))) lsn).
  - rewrite rd_insert_eq by lia. split; [|done]. intros i. rewrite rd_insert by lia.
    case_decide; subst; lia.
  - by split.
Qed.

Lemma set_bits_lsn xs s lsn p pageno :
  0 < lsn -> page_ok p -> Forall (fun x => TransactionIdToPage BLCKSZ x = pageno) xs ->
  lsns_raised xs lsn p (set_bits BLCKSZ false xs s lsn p).
Proof.
  intros Hlsn Hp Hx. unfold set_bits.
  pose proof (for_up_ind (fun k q => page_ok q /\ lsns_raised (take k xs) lsn p q)
    (fun i p => TransactionIdSetStatusBit BLCKSZ false (rd xs i) s lsn p) (length xs) 0 p) as H.
  cbn beta in H. rewrite Nat.add_0_l, (take_ge xs (length xs)) in H by lia. apply H; clear H.
  - split; [done|]. split; [done|apply Forall_nil_2].
  - intros k q Hk [Hq IH]. split; [by apply set_bit_page|].
    rewrite (take_S_r xs k (rd xs k)) by (apply rd_lookup; lia).
    eapply lsns_raised_trans; [exact IH|by apply set_bit_lsn].
Qed.

Lemma set_page_lsn u c :
  0 < up_lsn u -> clog_ok c -> on_page u ->
  (forall x, snd (clog_get_status BLCKSZ c x)
     <= snd (clog_get_status BLCKSZ (TransactionIdSetPageStatus BLCKSZ false u c) x))
  /\ forall x, touched u x ->
     up_lsn u <= snd (clog_get_status BLCKSZ (TransactionIdSetPageStatus BLCKSZ false u c) x).
Proof.
  intros Hlsn Hc [Hx Hs]. unfold TransactionIdSetPageStatus, TransactionIdSetPageStatusInternal.
  set (p0 := c (up_pageno u)). pose proof (Hc (up_pageno u)) as H0. fold p0 in H0.
  set (p1 := if TransactionIdIsValid (up_xid u) then _ else p0).
  set (mine := if TransactionIdIsValid (up_xid u) then [up_xid u] else []).
  assert (H1 : page_ok p1 /\ lsns_raised mine (up_lsn u) p0 p1).
  { subst p1 mine. destruct (TransactionIdIsValid (up_xid u)); [|by split; [done|split; [done|apply Forall_nil_2]]].
    destruct (bool_decide _).
    - pose proof (set_bits_page false (up_subxids u) TRANSACTION_STATUS_SUB_COMMITTED (up_lsn u)
        p0 (up_pageno u) H0 Hs) as [Hok _].
      split; [by apply set_bit_page|].
      pose proof (set_bits_lsn _ TRANSACTION_STATUS_SUB_COMMITTED _ _ _ Hlsn H0 Hs) as [Hm _].
      pose proof (set_bit_lsn (up_xid u) (up_status u) (up_lsn u) _ Hlsn Hok) as Hb.
      destruct Hb as [Hb1 Hb2]. split; [|done]. intros i. etrans; [apply Hm|apply Hb1].
    - split; [by apply set_bit_page|by apply set_bit_lsn]. }
  destruct H1 as [Hok1 Hr1].
  pose proof (lsns_raised_trans _ _ _ _ _ _ Hr1
    (set_bits_lsn _ (up_status u) _ _ _ Hlsn Hok1 Hs)) as [Hm Hall].
  unfold clog_get_status, set_page; simpl. split.
  - intros x. destruct (Z.eqb_spec (TransactionIdToPage BLCKSZ x) (up_pageno u)) as [->|_]; [|done].
    apply Hm.
  - intros x Ht. rewrite Forall_forall in Hall. rewrite Forall_forall in Hs.
    assert (Hpg : TransactionIdToPage BLCKSZ x = up_pageno u)
      by (destruct Ht as [Hi|[Hv ->]]; auto).
    rewrite Hpg, Z.eqb_refl. apply Hall. subst mine. destruct Ht as [Hi|[Hv ->]]; [set_solver|].
    rewrite Hv. set_solver.
Qed.

Lemma run_lsn lsn ups c :
  0 < lsn -> clog_ok c -> Forall (fun u => on_page u /\ up_lsn u = lsn) ups ->
  (forall y, snd (clog_get_status BLCKSZ c y) <= snd (clog_get_status BLCKSZ (run ups c) y))
  /\ forall u y, u ∈ ups -> touched u y -> lsn <= snd (clog_get_status BLCKSZ (run ups c) y).
Proof.
  intros Hlsn Hc Hs. revert c Hc. induction Hs as [|u ups [Hp Hl] _ IH]; intros c Hc.
  - split; [done|]. by intros u y ?%not_elem_of_nil.
  - destruct (set_page_status false u c Hc Hp) as [Hok _].
    destruct (set_page_lsn u c) as [Hm Ht]; [lia|done|done|].
    destruct (IH _ Hok) as [Hm' Ht'].
    change (run (u :: ups) c) with (run ups (TransactionIdSetPageStatus BLCKSZ false u c)).
    split.
    + intros y. specialize (Hm y). specialize (Hm' y). lia.
    + intros v y [->|Hv]%elem_of_cons Hy; [|by eapply Ht'].
      specialize (Ht y Hy). specialize (Hm' y). lia.
Qed.

Lemma sub_updates_lsn status lsn ups :
  sub_updates status lsn ups -> Forall (fun u => on_page u /\ up_lsn u = lsn) ups.
Proof. intros H. eapply Forall_impl; [exact H|]. intros u (_ & _ & -> & ?). done. Qed.

Lemma touched_updated status lsn ups y :
  sub_updates status lsn ups -> y ∈ updated ups -> exists u, u ∈ ups /\ touched u y.
Proof.
  unfold updated. rewrite list_elem_of_In, in_concat. setoid_rewrite <- list_elem_of_In.
  intros _ (ys & (u & -> & Hu)%list_elem_of_fmap & Hy). exists u. split; [done|by left].
Qed.

End props.

(** C10: what is written to the commit log is read back.  Setting the status of a
    transaction and its subtransactions, which may be spread over any pages, ends;
    then each of them reads as that status, every other transaction of the log as
    before, and the recorded LSNs cover the given one and have not gone back. *)
Theorem clog_tree_status (BLCKSZ : Z) (c : clog) (xid : Z) (xs : list Z) (status : XidStatus) (lsn : Z)
    (HB : 0 < BLCKSZ) (HL : (8 | BLCKSZ)) (Hc : clog_ok BLCKSZ c)
    (Hv : TransactionIdIsValid xid = true) (Hlsn : 0 <= lsn) :
  exists ups, TransactionIdSetTreeStatus BLCKSZ xid xs status lsn = Ok ups
    /\ clog_ok BLCKSZ (run BLCKSZ ups c)
    /\ (forall y, fst (clog_get_status BLCKSZ (run BLCKSZ ups c) y)
         = if decide (y ∈ xid :: xs) then status else fst (clog_get_status BLCKSZ c y))
    /\ (0 < lsn -> forall y, y ∈ xid :: xs ->
         lsn <= snd (clog_get_status BLCKSZ (run BLCKSZ ups c) y))
    /\ (0 < lsn -> forall y, snd (clog_get_status BLCKSZ c y)
         <= snd (clog_get_status BLCKSZ (run BLCKSZ ups c) y)).
Proof.
  destruct (set_tree_status_spec BLCKSZ xid xs status lsn Hv)
    as (first & main & last & E & Ex & Es & El & Hp & Hxs & Hf & Hl & Hu).
  exists (first ++ [main] ++ last). split; [done|].
  rewrite <- El in Hf. rewrite <- Ex in Hv.
  destruct (run_main BLCKSZ HB first main c Hc Hf Hp Hv) as [Hok Hst].
  destruct (run_sub_updates BLCKSZ HB _ _ last _ Hok Hl) as [Hok' Hst'].
  rewrite app_assoc. unfold run in *. rewrite foldl_app.
  split; [done|]. split; [|rewrite <- foldl_app].
  - intros y. fold (status_of BLCKSZ (foldl (fun c u => TransactionIdSetPageStatus BLCKSZ false u c)
      (foldl (fun c u => TransactionIdSetPageStatus BLCKSZ false u c) c (first ++ [main])) last) y).
    rewrite Hst', Hst, Ex, Es.
    assert (Hin : y ∈ xid :: xs <-> (y = xid \/ y ∈ up_subxids main) \/ y ∈ updated last)
      by (rewrite Hxs, elem_of_cons, elem_of_app; tauto).
    destruct (decide (y ∈ updated last)) as [Hi|Hi]; [by rewrite decide_True by tauto|].
    destruct (decide (y = xid \/ y ∈ up_subxids main)) as [Hj|Hj]; [by rewrite decide_True by tauto|].
    rewrite (decide_False (P := y ∈ xid :: xs)) by tauto.
    rewrite decide_False; [done|]. rewrite Hu. destruct status; (done || apply not_elem_of_nil).
  - assert (Hall : Forall (fun u => on_page BLCKSZ u /\ up_lsn u = lsn) ((first ++ [main]) ++ last)).
    { apply Forall_app_2; [apply Forall_app_2|]; [|by apply Forall_singleton|].
      - rewrite <- El. by eapply sub_updates_lsn.
      - by eapply sub_updates_lsn. }
    split; [|intros Hpos y; by apply (run_lsn BLCKSZ HB HL lsn)].
    intros Hpos y Hy. destruct (run_lsn BLCKSZ HB HL lsn _ c Hpos Hc Hall) as [_ Ht].
    assert (exists u, u ∈ (first ++ [main]) ++ last /\ touched u y) as (u & Hu1 & Hu2); [|by eapply Ht].
    rewrite Hxs in Hy. apply elem_of_cons in Hy as [->|[Hy|Hy]%elem_of_app].
    + exists main. split; [set_solver|]. right. by split.
    + exists main. split; [set_solver|]. by left.
    + destruct (touched_updated _ _ _ _ _ Hl Hy) as (u & ? & ?). exists u. set_solver.
Qed.

(** ** Atomicity *)

(** The log that transam.c sees, with the parent links of pg_subtrans. *)
Definition log_at (BLCKSZ : Z) (c : clog) (parent : Z -> Z) (xmin : Z) : xact_log :=
  mk_log (fun x => fst (clog_get_status BLCKSZ c x)) (fun x => snd (clog_get_status BLCKSZ c x))
    parent xmin.

(** A transaction tree in progress: every subtransaction's parent is in it, and
    can be looked up. *)
Record live_tree (parent : Z -> Z) (xmin xid : Z) (xs : list Z) : Prop := {
  tree_normal x : x ∈ xid :: xs -> TransactionIdIsNormal x = true;
  tree_parent x : x ∈ xs -> parent x ∈ xid :: xs;
  tree_recent x : x ∈ xs -> TransactionIdPrecedes x xmin = false;
  tree_main : xid ∉ xs
}.

Section atomic.
Context (BLCKSZ : Z) (parent : Z -> Z) (xmin xid : Z) (xs : list Z).
Context (tree : live_tree parent xmin xid xs).

Lemma normal_valid x : TransactionIdIsNormal x = true -> TransactionIdIsValid x = true.
Proof.
  unfold TransactionIdIsNormal, TransactionIdIsValid, FirstNormalTransactionId, InvalidTransactionId.
  intros H%Z.leb_le. apply negb_true_iff, Z.eqb_neq. lia.
Qed.

Lemma log_status_tree c x :
  x ∈ xid :: xs -> log_status (log_at BLCKSZ c parent xmin) x = status_of BLCKSZ c x.
Proof. intros Hx. unfold log_status. by rewrite (tree_normal _ _ _ _ tree) by done. Qed.

(** Before the main transaction is marked, none of the tree has committed. *)
Lemma none_committed c :
  status_of BLCKSZ c xid = TRANSACTION_STATUS_IN_PROGRESS ->
  (forall x, x ∈ xs -> status_of BLCKSZ c x = TRANSACTION_STATUS_IN_PROGRESS
     \/ status_of BLCKSZ c x = TRANSACTION_STATUS_SUB_COMMITTED) ->
  forall x, x ∈ xid :: xs -> ~ commits (log_at BLCKSZ c parent xmin) x.
Proof.
  intros Hm Hs x Hx Hcom. induction Hcom as [x Hst|x Hst Ho Hp IH].
  - rewrite log_status_tree in Hst by done.
    apply elem_of_cons in Hx as [->|Hx]; [congruence|]. destruct (Hs x Hx); congruence.
  - apply IH. rewrite log_status_tree in Hst by done.
    apply elem_of_cons in Hx as [->|Hx]; [congruence|by apply tree].
Qed.

(** Afterwards, all of it has. *)
Lemma all_committed (rank : Z -> nat) c :
  (forall x, x ∈ xs -> (rank (parent x) < rank x)%nat) ->
  status_of BLCKSZ c xid = TRANSACTION_STATUS_COMMITTED ->
  (forall x, x ∈ xs -> status_of BLCKSZ c x = TRANSACTION_STATUS_COMMITTED
     \/ status_of BLCKSZ c x = TRANSACTION_STATUS_SUB_COMMITTED) ->
  forall x, x ∈ xid :: xs -> commits (log_at BLCKSZ c parent xmin) x.
Proof.
  intros Hr Hm Hs x.
  induction x as [x IH] using (well_founded_induction (well_founded_ltof _ rank)). intros Hx.
  pose proof (log_status_tree c x Hx) as Hst.
  apply elem_of_cons in Hx as [->|Hx]; [apply commits_self; congruence|].
  destruct (Hs x Hx) as [E|E]; [apply commits_self; congruence|].
  apply commits_parent; [congruence| |apply IH; [by apply Hr|by apply tree]].
  unfold orphan. simpl. rewrite (tree_recent _ _ _ _ tree) by done. simpl.
  apply negb_false_iff, normal_valid, tree. by apply tree.
Qed.

(** The log after some of the first updates, and after the main one and some of
    the last. *)
Lemma before_main (c : clog) lsn first n :
  0 < BLCKSZ -> clog_ok BLCKSZ c ->
  (forall x, x ∈ xid :: xs -> status_of BLCKSZ c x = TRANSACTION_STATUS_IN_PROGRESS) ->
  sub_updates BLCKSZ TRANSACTION_STATUS_SUB_COMMITTED lsn first -> updated first ⊆ xs ->
  forall x, x ∈ xid :: xs -> ~ commits (log_at BLCKSZ (run BLCKSZ (take n first) c) parent xmin) x.
Proof.
  intros HB Hc Hrun Hf Hsub.
  assert (Hf' : sub_updates BLCKSZ TRANSACTION_STATUS_SUB_COMMITTED lsn (take n first))
    by (by apply Forall_take).
  destruct (run_sub_updates BLCKSZ HB _ _ _ _ Hc Hf') as [_ Hst'].
  apply none_committed.
  - rewrite Hst'. rewrite decide_False; [apply Hrun, list_elem_of_here|].
    intros Hi. apply (tree_main _ _ _ _ tree), Hsub.
    unfold updated in *. rewrite <- (take_drop n first), fmap_app, concat_app.
    apply elem_of_app. by left.
  - intros y Hy. rewrite Hst'. case_decide; [by right|left]. by apply Hrun, list_elem_of_further.
Qed.

Lemma after_main (rank : Z -> nat) (c : clog) first main last n :
  0 < BLCKSZ -> clog_ok BLCKSZ c ->
  (forall x, x ∈ xs -> (rank (parent x) < rank x)%nat) ->
  up_xid main = xid -> up_status main = TRANSACTION_STATUS_COMMITTED -> on_page BLCKSZ main ->
  sub_updates BLCKSZ TRANSACTION_STATUS_SUB_COMMITTED (up_lsn main) first ->
  sub_updates BLCKSZ TRANSACTION_STATUS_COMMITTED (up_lsn main) last ->
  xs = up_subxids main ++ updated last -> updated first = updated last ->
  forall x, x ∈ xid :: xs ->
    commits (log_at BLCKSZ (run BLCKSZ ((first ++ [main]) ++ take n last) c) parent xmin) x.
Proof.
  intros HB Hc Hr Ex Es Hp Hf Hl Hxs Hu.
  assert (Hv : TransactionIdIsValid (up_xid main) = true)
    by (rewrite Ex; apply normal_valid, tree, list_elem_of_here).
  destruct (run_main BLCKSZ HB first main c Hc Hf Hp Hv) as [Hok Hst].
  assert (Hl' : sub_updates BLCKSZ TRANSACTION_STATUS_COMMITTED (up_lsn main) (take n last))
    by (by apply Forall_take).
  destruct (run_sub_updates BLCKSZ HB _ _ _ _ Hok Hl') as [_ Hst'].
  unfold run in *. rewrite foldl_app.
  apply (all_committed rank); [done| |].
  - rewrite Hst', Hst, Ex, Es. by repeat case_decide; naive_solver.
  - intros y Hy. rewrite Hst', Hst, Ex, Es, Hu. rewrite Hxs in Hy. apply elem_of_app in Hy.
    destruct (decide (y ∈ updated last)); repeat case_decide; naive_solver.
Qed.
End atomic.

(** The leader of a group sets what the member would have set itself. *)
Lemma group_update_same BLCKSZ InRecovery same lock group my u c :
  set_status_of_page BLCKSZ InRecovery same lock group my u c = TransactionIdSetPageStatus BLCKSZ InRecovery u c.
Proof.
  unfold set_status_of_page. destruct (_ && _) eqn:E; [|done]. destruct lock, group; try done.
  rewrite !andb_true_iff, orb_true_iff, bool_decide_eq_true, !Nat.eqb_eq in E. destruct E as ((_ & El) & Es).
  unfold group_member_update, TransactionIdSetPageStatus. do 2 f_equal.
  destruct Es as [E0|Es]; [|rewrite take_ge in Es by lia; done]. rewrite E0 in El. by destruct (up_subxids u), (my_subxids my).
Qed.

(** C4: a commit is atomic.  Between any two page updates of
    [TransactionIdCommitTree] (or of the asynchronous variant), anyone who asks
    whether the main transaction or one of its subtransactions has committed, with
    whatever it has cached, gets the same answer for all of them: no before the
    page of the main transaction is written, and yes from then on. *)
Theorem clog_commit_atomic (BLCKSZ : Z) (c : clog) (parent : Z -> Z) (xmin xid : Z) (xs : list Z)
    (lsn : Z) (rank : Z -> nat)
    (HB : 0 < BLCKSZ) (Hc : clog_ok BLCKSZ c) (Htree : live_tree parent xmin xid xs)
    (Hrank : forall x, TransactionIdIsValid (parent x) = true -> (rank (parent x) < rank x)%nat)
    (Hrun : forall x, x ∈ xid :: xs -> fst (clog_get_status BLCKSZ c x) = TRANSACTION_STATUS_IN_PROGRESS) :
  exists ups k, TransactionIdAsyncCommitTree BLCKSZ xid xs lsn = Ok ups /\ (k < length ups)%nat
    /\ forall n cache x fuel, x ∈ xid :: xs -> (rank x < fuel)%nat ->
       let log := log_at BLCKSZ (run BLCKSZ (take n ups) c) parent xmin in
       cache_ok log cache ->
       exists cache', TransactionIdDidCommit log fuel cache x = Some (bool_decide (k < n)%nat, cache').
Proof.
  assert (Hv : TransactionIdIsValid xid = true) by (apply normal_valid, Htree; set_solver).
  destruct (set_tree_status_spec BLCKSZ xid xs TRANSACTION_STATUS_COMMITTED lsn Hv)
    as (first & main & last & E & Ex & Es & El & Hp & Hxs & Hf & Hl & Hu).
  exists (first ++ [main] ++ last), (length first). split; [done|].
  split; [rewrite !length_app; simpl; lia|].
  intros n cache x fuel Hx Hfuel log Hcache.
  destruct (TransactionIdDidCommit_spec log rank Hrank fuel cache x Hcache) as (b & c' & -> & _ & Hb);
    [by apply normal_valid, Htree|done|].
  exists c'. f_equal. f_equal. apply eq_bool_prop_intro. rewrite Is_true_true, Hb, bool_decide_spec.
  subst log. clear Hcache Hb. subst lsn.
  destruct (decide (length first < n)%nat) as [Hn|Hn].
  - split; [done|]. intros _. rewrite app_assoc, take_app_ge by (rewrite length_app; simpl; lia).
    apply (after_main BLCKSZ parent xmin xid xs Htree rank); try done.
    intros y Hy. apply Hrank, normal_valid, Htree. by apply Htree.
  - split; [|done]. intros Hcom. exfalso. revert Hcom. rewrite take_app_le by lia.
    apply (before_main BLCKSZ parent xmin xid xs Htree c (up_lsn main)); try done.
    rewrite Hu, Hxs. intros z Hz. apply elem_of_app. by right.
Qed.

(** ** Pages *)

Section pages.
Context (BLCKSZ : Z).
Hypothesis BLCKSZ_pos : 0 < BLCKSZ.

Lemma zero_status x n lsns d :
  page_status BLCKSZ (mk_page (replicate n 0) lsns d) x = TRANSACTION_STATUS_IN_PROGRESS.
Proof.
  unfold page_status. simpl. rewrite rd_replicate. case_decide; unfold bits_at;
    by rewrite Z.shiftr_0_l, Z.land_0_l.
Qed.

Lemma zero_clog_page_ok c n : clog_ok BLCKSZ c -> clog_ok BLCKSZ (ZeroCLOGPage BLCKSZ n c).
Proof.
  intros Hc m. unfold ZeroCLOGPage, set_page. destruct (m =? n); [|done].
  split; simpl; rewrite ?length_replicate; try done. apply Forall_replicate. done.
Qed.

(** Where a transaction is on its page, by its distance from the page's first. *)
Lemma address_order x y :
  TransactionIdToPage BLCKSZ y = TransactionIdToPage BLCKSZ x ->
  (TransactionIdToByte BLCKSZ y < TransactionIdToByte BLCKSZ x -> y < x)
  /\ (TransactionIdToByte BLCKSZ x < TransactionIdToByte BLCKSZ y -> x < y)
  /\ (TransactionIdToByte BLCKSZ y = TransactionIdToByte BLCKSZ x ->
      (y < x <-> TransactionIdToBIndex y < TransactionIdToBIndex x)).
Proof.
  unfold TransactionIdToPage, TransactionIdToByte, TransactionIdToBIndex, TransactionIdToPgIndex,
    CLOG_XACTS_PER_PAGE, CLOG_XACTS_PER_BYTE. intros Hp.
  assert (Hm : forall z, (z mod (BLCKSZ * 4)) mod 4 = z mod 4)
    by (intros z; apply Z.mod_mod_divide; by exists BLCKSZ).
  pose proof (Z.div_mod x (BLCKSZ * 4) ltac:(lia)). pose proof (Z.div_mod y (BLCKSZ * 4) ltac:(lia)).
  pose proof (Z.div_mod (x mod (BLCKSZ * 4)) 4 ltac:(lia)) as Hx.
  pose proof (Z.div_mod (y mod (BLCKSZ * 4)) 4 ltac:(lia)) as Hy.
  pose proof (Z.mod_pos_bound (x mod (BLCKSZ * 4)) 4 ltac:(lia)).
  pose proof (Z.mod_pos_bound (y mod (BLCKSZ * 4)) 4 ltac:(lia)).
  rewrite !Hm in *. rewrite Hp in *. lia.
Qed.

Lemma trim_byte b i j :
  in_u 8 b -> 0 <= i < 4 -> 0 <= j < 4 ->
  bits_at (Z.land b (Z.shiftl 1 (i * CLOG_BITS_PER_XACT) - 1)) j = if j <? i then bits_at b j else 0.
Proof.
  intros Hb Hi Hj. unfold CLOG_BITS_PER_XACT. rewrite Z.shiftl_1_l, Z.sub_1_r, <- Z.ones_equiv.
  apply Z.bits_inj'. intros k Hk. rewrite bits_at_testbit, Z.land_spec, Z.testbit_ones_nonneg by lia.
  destruct (Z.ltb_spec j i).
  - rewrite bits_at_testbit by lia. destruct (Z.ltb_spec k 2); [|done].
    destruct (Z.ltb_spec (j * 2 + k) (i * 2)); [|lia]. by rewrite andb_true_r.
  - rewrite Z.testbit_0_l. destruct (Z.ltb_spec (j * 2 + k) (i * 2)); [lia|].
    by rewrite !andb_false_r.
Qed.

Lemma trim_status nextXid c y :
  clog_ok BLCKSZ c ->
  let x := XidFromFullTransactionId nextXid in
  TransactionIdToPage BLCKSZ y = TransactionIdToPage BLCKSZ x -> TransactionIdToPgIndex BLCKSZ x <> 0 ->
  status_of BLCKSZ (TrimCLOG BLCKSZ nextXid c) y
  = if y <? x then status_of BLCKSZ c y else TRANSACTION_STATUS_IN_PROGRESS.
Proof.
  intros Hc x Hp Hi. unfold TrimCLOG. fold x.
  destruct (Z.eqb_spec (TransactionIdToPgIndex BLCKSZ x) 0); [done|]. simpl.
  rewrite !status_of_page, Hp. unfold set_page. rewrite Z.eqb_refl.
  destruct (Hc (TransactionIdToPage BLCKSZ x)) as [Hl Hb _].
  pose proof (page_byte BLCKSZ BLCKSZ_pos _ x (Hc (TransactionIdToPage BLCKSZ x))) as Hbx.
  destruct (to_byte_range BLCKSZ BLCKSZ_pos x) as [Rx Rxi], (to_byte_range BLCKSZ BLCKSZ_pos y) as [Ry Ryi].
  destruct (address_order x y Hp) as (O1 & O2 & O3).
  unfold page_status at 1. simpl.
  set (bx := Z.to_nat (TransactionIdToByte BLCKSZ x)). set (by_ := Z.to_nat (TransactionIdToByte BLCKSZ y)).
  destruct (Z.lt_trichotomy (TransactionIdToByte BLCKSZ y) (TransactionIdToByte BLCKSZ x)) as [E|[E|E]].
  - destruct (Z.ltb_spec y x); [|lia].
    rewrite rd_app_l by (rewrite length_take, length_insert; lia).
    rewrite rd_take, rd_insert_ne by lia. done.
  - assert (Eb : by_ = bx) by (unfold by_, bx; by rewrite E). rewrite Eb.
    rewrite rd_app_l by (rewrite length_take, length_insert; lia).
    rewrite rd_take, rd_insert_eq by lia. rewrite trim_byte by done.
    unfold page_status. fold by_. rewrite Eb.
    destruct (Z.ltb_spec y x), (Z.ltb_spec (TransactionIdToBIndex y) (TransactionIdToBIndex x));
      done || lia.
  - destruct (Z.ltb_spec y x); [lia|].
    rewrite rd_app_r by (rewrite length_take, length_insert; lia).
    rewrite rd_replicate. unfold bits_at. case_decide; by rewrite Z.shiftr_0_l, Z.land_0_l.
Qed.

(** Page numbers wrap around with the identifiers they are made of. *)
Lemma page_xid q r :
  (8 | BLCKSZ) -> (CLOG_XACTS_PER_PAGE BLCKSZ | 2 ^ 32) -> 3 <= r < CLOG_XACTS_PER_PAGE BLCKSZ ->
  let m := 2 ^ 32 / CLOG_XACTS_PER_PAGE BLCKSZ in
  uwrap 32 (uwrap 32 ((q mod m) * CLOG_XACTS_PER_PAGE BLCKSZ) + r)
  = XidFromFullTransactionId (q * CLOG_XACTS_PER_PAGE BLCKSZ + r)
  /\ normal_full (q * CLOG_XACTS_PER_PAGE BLCKSZ + r).
Proof.
  intros _ [m Hm] Hr m'. subst m'. set (X := CLOG_XACTS_PER_PAGE BLCKSZ) in *.
  assert (Hm0 : 0 < m) by nia.
  rewrite Hm, Z.div_mul by lia.
  assert (Eq : (q mod m) * X = (q * X) mod (m * X)) by (by rewrite Z.mul_mod_distr_r by lia).
  assert (Hb : 0 <= (q mod m) * X <= m * X - X).
  { pose proof (Z.mod_pos_bound q m Hm0). nia. }
  unfold normal_full, TransactionIdIsNormal, XidFromFullTransactionId, uwrap. rewrite Hm.
  rewrite (Z.mod_small ((q mod m) * X)) by lia.
  assert (E : (q * X + r) mod (m * X) = (q mod m) * X + r).
  { rewrite <- Z.add_mod_idemp_l, <- Eq by lia. apply Z.mod_small. lia. }
  rewrite E. split; [apply Z.mod_small; lia|]. apply Z.leb_le. unfold FirstNormalTransactionId. lia.
Qed.

Lemma page_precedes p1 p2 :
  (8 | BLCKSZ) -> (CLOG_XACTS_PER_PAGE BLCKSZ | 2 ^ 32) ->
  (Z.abs (p1 - p2) + 1) * CLOG_XACTS_PER_PAGE BLCKSZ < 2 ^ 31 ->
  let m := 2 ^ 32 / CLOG_XACTS_PER_PAGE BLCKSZ in
  CLOGPagePrecedes BLCKSZ (p1 mod m) (p2 mod m) = (p1 <? p2).
Proof.
  intros H8 H32 Hw m. unfold CLOGPagePrecedes.
  assert (HX : 32 <= CLOG_XACTS_PER_PAGE BLCKSZ).
  { destruct H8 as [k ->]. unfold CLOG_XACTS_PER_PAGE, CLOG_XACTS_PER_BYTE in *. lia. }
  destruct (page_xid p1 4 H8 H32 ltac:(lia)) as [E1 N1].
  destruct (page_xid p2 4 H8 H32 ltac:(lia)) as [E2 N2].
  destruct (page_xid (p2 + 1) 3 H8 H32 ltac:(lia)) as [_ N3].
  fold m in E1, E2. change FirstNormalTransactionId with 3. rewrite <- !Z.add_assoc.
  change (3 + 1) with 4. rewrite E1, E2.
  set (X := CLOG_XACTS_PER_PAGE BLCKSZ) in *.
  assert (E3 : uwrap 32 (XidFromFullTransactionId (p2 * X + 4) + (X - 1))
    = XidFromFullTransactionId ((p2 + 1) * X + 3)).
  { unfold XidFromFullTransactionId, uwrap. rewrite Z.add_mod_idemp_l by done. f_equal. lia. }
  replace (XidFromFullTransactionId (p2 * X + 4) + X - 1)
    with (XidFromFullTransactionId (p2 * X + 4) + (X - 1)) by lia.
  rewrite E3, !precedes_full by (done || nia).
  destruct (Z.ltb_spec (p1 * X + 4) (p2 * X + 4)), (Z.ltb_spec (p1 * X + 4) ((p2 + 1) * X + 3)),
    (Z.ltb_spec p1 p2); done || nia.
Qed.
End pages.

(** Pages of the log.  A new page is added with all its transactions in
    progress, and only when the first transaction of the page starts; a crash leaves
    no trace of transactions that have not been assigned; and the comparison by
    which old pages are removed is the order of the 64-bit page numbers, across
    wraparound, so that a page is never taken for an old one because of it. *)
Theorem clog_pages (BLCKSZ : Z) (c : clog) (newest next p1 p2 : Z)
    (HB : 0 < BLCKSZ) (HB8 : (8 | BLCKSZ)) (H32 : (CLOG_XACTS_PER_PAGE BLCKSZ | 2 ^ 32))
    (Hc : clog_ok BLCKSZ c)
    (Hw : (Z.abs (p1 - p2) + 1) * CLOG_XACTS_PER_PAGE BLCKSZ < 2 ^ 31) :
  (clog_ok BLCKSZ (ExtendCLOG BLCKSZ newest c)
   /\ ((TransactionIdToPgIndex BLCKSZ newest = 0 \/ newest = FirstNormalTransactionId) ->
       forall y, fst (clog_get_status BLCKSZ (ExtendCLOG BLCKSZ newest c) y)
         = if TransactionIdToPage BLCKSZ y =? TransactionIdToPage BLCKSZ newest
           then TRANSACTION_STATUS_IN_PROGRESS else fst (clog_get_status BLCKSZ c y))
   /\ (TransactionIdToPgIndex BLCKSZ newest <> 0 -> newest <> FirstNormalTransactionId ->
       ExtendCLOG BLCKSZ newest c = c))
  /\ (let x := XidFromFullTransactionId next in
      TransactionIdToPgIndex BLCKSZ x <> 0 ->
      forall y, TransactionIdToPage BLCKSZ y = TransactionIdToPage BLCKSZ x ->
      fst (clog_get_status BLCKSZ (TrimCLOG BLCKSZ next c) y)
      = if y <? x then fst (clog_get_status BLCKSZ c y) else TRANSACTION_STATUS_IN_PROGRESS)
  /\ CLOGPagePrecedes BLCKSZ (p1 mod (2 ^ 32 / CLOG_XACTS_PER_PAGE BLCKSZ))
       (p2 mod (2 ^ 32 / CLOG_XACTS_PER_PAGE BLCKSZ)) = (p1 <? p2).
Proof.
  split; [|split].
  - unfold ExtendCLOG, TransactionIdEquals.
    destruct (Z.eqb_spec (TransactionIdToPgIndex BLCKSZ newest) 0) as [E|E],
      (Z.eqb_spec newest FirstNormalTransactionId) as [F|F]; simpl;
      (split; [by try apply zero_clog_page_ok|]); (split; [|by intros]).
    4: by intros [?|?].
    all: intros _ y; unfold clog_get_status, ZeroCLOGPage, set_page;
      destruct (Z.eqb_spec (TransactionIdToPage BLCKSZ y) (TransactionIdToPage BLCKSZ newest));
      [apply (zero_status BLCKSZ y)|done].
  - intros x Hi y Hy. by apply (trim_status BLCKSZ HB next c y Hc).
  - by apply page_precedes.
Qed.

(** ** Groups *)

(** The processes of a group, in the order of its list. *)
Fixpoint group_list (procs : list group_proc) (next : option nat) (l : list nat) : Prop :=
  match l with
  | [] => next = None
  | n :: l' =>
      next = Some n /\ exists p, procs !! n = Some p /\ group_list procs (clogGroupNext p) l'
  end.

Definition group_updates (procs : list group_proc) (l : list nat) : list page_update :=
  omap (fun n => clogGroupUpdate <$> procs !! n) l.

Lemma group_updates_cons procs n p l :
  procs !! n = Some p -> group_updates procs (n :: l) = clogGroupUpdate p :: group_updates procs l.
Proof. intros Hp. unfold group_updates. cbn. by rewrite Hp. Qed.

Lemma group_list_insert procs me q next l :
  me ∉ l -> group_list procs next l -> group_list (<[me := q]> procs) next l.
Proof.
  revert next; induction l as [|n l IH]; intros next Hn; simpl; [done|].
  apply not_elem_of_cons in Hn as [Hne Hn]. intros (-> & p & Hp & Hl).
  split; [done|]. exists p. rewrite list_lookup_insert_ne by done. auto.
Qed.

(** Joining a group adds the process in front. *)
Lemma group_join_spec me u g l g' :
  (me < length (allProcs g))%nat -> me ∉ l -> group_list (allProcs g) (clogGroupFirst g) l ->
  group_join me u g = (true, g') ->
  group_list (allProcs g') (clogGroupFirst g') (me :: l)
  /\ exists p, allProcs g' !! me = Some p /\ clogGroupUpdate p = u /\ clogGroupMember p = true.
Proof.
  intros Hme Hn Hl. unfold group_join. destruct (match _ with Some _ => _ | None => _ end); [done|].
  intros [= <-]. simpl. rewrite list_lookup_insert_eq by done.
  split; [|by eexists]. split; [done|]. eexists. split; [done|]. by apply group_list_insert.
Qed.

(** The leader makes every update of its group once, in the order of the list,
    with the same effect as if each member had made its own, and releases them
    all. *)
Lemma group_lead_spec BLCKSZ g c l fuel :
  group_list (allProcs g) (clogGroupFirst g) l -> NoDup l -> (length l <= fuel)%nat ->
  exists procs', group_lead BLCKSZ fuel false g c
      = Some (mk_group procs' None, run BLCKSZ (group_updates (allProcs g) l) c)
    /\ forall n, n ∈ l -> exists p, procs' !! n = Some p /\ clogGroupMember p = false
         /\ clogGroupNext p = None.
Proof.
  intros Hl Hnd Hf. unfold group_lead.
  assert (Ha : group_apply BLCKSZ fuel false (allProcs g) (clogGroupFirst g) c
    = Some (run BLCKSZ (group_updates (allProcs g) l) c)).
  { clear Hnd. revert fuel c Hf Hl. generalize (clogGroupFirst g).
    induction l as [|n l IH]; intros next fuel c Hf.
    - intros ->. by destruct fuel.
    - simpl in Hf. intros (-> & p & Hp & Hl). destruct fuel as [|fuel]; [lia|].
      rewrite (group_updates_cons _ n p) by done. simpl. rewrite Hp. apply IH; [lia|done]. }
  rewrite Ha. clear Ha.
  assert (Hw : forall procs next fuel l, group_list procs next l -> NoDup l -> (length l <= fuel)%nat ->
    exists procs', group_wake fuel procs next = Some procs'
      /\ (forall n, n ∉ l -> procs' !! n = procs !! n)
      /\ forall n, n ∈ l -> exists p, procs' !! n = Some p /\ clogGroupMember p = false
           /\ clogGroupNext p = None).
  { clear. intros procs next fuel l. revert procs next fuel.
    induction l as [|n l IH]; intros procs next fuel Hl Hnd Hf; simpl in *.
    - subst next. exists procs. split; [by destruct fuel|]. split; [done|].
      by intros n ?%not_elem_of_nil.
    - destruct Hl as (-> & p & Hp & Hl). destruct fuel as [|fuel]; [lia|].
      apply NoDup_cons in Hnd as [Hn Hnd].
      destruct (IH (<[n := mk_proc false (clogGroupUpdate p) None]> procs) (clogGroupNext p) fuel)
        as (procs' & E & Ho & Hi); [by apply group_list_insert|done|lia|].
      exists procs'. simpl. rewrite Hp. split; [done|]. split.
      + intros m [Hne Hm]%not_elem_of_cons. rewrite Ho by done. by rewrite list_lookup_insert_ne.
      + intros m [->|Hm]%elem_of_cons; [|by apply Hi].
        rewrite Ho by done. rewrite list_lookup_insert_eq by (by eapply lookup_lt_Some). by eexists. }
  destruct (Hw _ _ fuel l Hl Hnd Hf) as (procs' & -> & _ & Hi). by exists procs'.
Qed.

(** ** Examples *)

(** Pages of 8 bytes, 32 transactions each: the tree of 100 spans three pages. *)
Definition empty_log : clog := fun _ => mk_page (replicate 8 0) [0] false.

Lemma empty_log_ok : clog_ok 8 empty_log.
Proof. intros n. split; [done| |done]. by repeat constructor. Qed.

Definition tree_of (x : Z) : Z := if x =? 101 then 100 else if x =? 200 then 101 else if x =? 300 then 100 else 0.

Lemma clog_tree_status_witness :
  exists ups, TransactionIdSetTreeStatus 8 100 [101; 200; 300] TRANSACTION_STATUS_COMMITTED 77 = Ok ups
    /\ fst (clog_get_status 8 (run 8 ups empty_log) 200) = TRANSACTION_STATUS_COMMITTED
    /\ fst (clog_get_status 8 (run 8 ups empty_log) 201) = TRANSACTION_STATUS_IN_PROGRESS
    /\ 77 <= snd (clog_get_status 8 (run 8 ups empty_log) 300).
Proof.
  destruct (clog_tree_status 8 empty_log 100 [101; 200; 300] TRANSACTION_STATUS_COMMITTED 77)
    as (ups & E & _ & Hs & Hl & _);
    [lia|by exists 1|apply empty_log_ok|reflexivity|lia|].
  exists ups. rewrite !Hs. split; [done|]. split; [done|]. split; [done|]. apply Hl; [lia|set_solver].
Defined.

Lemma clog_commit_atomic_witness :
  exists ups k, TransactionIdAsyncCommitTree 8 100 [101; 200; 300] 0 = Ok ups /\ (k < length ups)%nat
    /\ exists cache', TransactionIdDidCommit (log_at 8 (run 8 (take k ups) empty_log) tree_of 90) 301
         initial_cache 300 = Some (false, cache').
Proof.
  destruct (clog_commit_atomic 8 empty_log tree_of 90 100 [101; 200; 300] 0 Z.to_nat)
    as (ups & k & E & Hk & H).
  - lia.
  - apply empty_log_ok.
  - split.
    + intros x Hx. repeat (apply elem_of_cons in Hx as [->|Hx]; [reflexivity|]).
      by apply not_elem_of_nil in Hx.
    + intros x Hx. repeat (apply elem_of_cons in Hx as [->|Hx]; [vm_compute; set_solver|]).
      by apply not_elem_of_nil in Hx.
    + intros x Hx. repeat (apply elem_of_cons in Hx as [->|Hx]; [reflexivity|]).
      by apply not_elem_of_nil in Hx.
    + set_solver.
  - intros x. unfold tree_of. destruct (Z.eqb_spec x 101) as [->|_]; [intros _; lia|].
    destruct (Z.eqb_spec x 200) as [->|_]; [intros _; lia|].
    destruct (Z.eqb_spec x 300) as [->|_]; [intros _; lia|]. discriminate.
  - intros x Hx. repeat (apply elem_of_cons in Hx as [->|Hx]; [reflexivity|]).
    by apply not_elem_of_nil in Hx.
  - exists ups, k. split; [done|]. split; [done|].
    destruct (H k initial_cache 300 301%nat) as [cache' Hc]; [set_solver|lia|by left|].
    exists cache'. rewrite bool_decide_eq_false_2 in Hc by lia. done.
Defined.

Lemma clog_pages_witness :
  CLOGPagePrecedes 8 134217727 0 = true
  /\ fst (clog_get_status 8 (TrimCLOG 8 70 empty_log) 71) = TRANSACTION_STATUS_IN_PROGRESS.
Proof.
  destruct (clog_pages 8 empty_log 64 70 134217727 134217728) as (_ & Ht & Hp);
    [lia|by exists 1|by exists 134217728|apply empty_log_ok|by vm_compute|].
  split; [exact Hp|]. rewrite Ht; [done|done|reflexivity].
Defined.
