(* ===== verification/Numutils.v ===== *)
(** Integers as text: backend/utils/adt/numutils.c.

    A C string is the list of its characters; a pointer into it is the rest of the
    string from there on, and the terminating zero is the end of the list.  The
    three parsers for int16, int32 and int64 are the same code at three widths;
    the width is an argument.  Buffers that numbers are printed into are lists
    of characters that are written in place.  Signed overflow wraps, as the
    build's -fwrapv demands, and the character classes are those of the C locale. *)

From S2P Require Import Prelude BitUtils.
Local Open Scope Z_scope.

(** ** Characters *)

Fixpoint codes (s : string) : list Z :=
  match s with
  | EmptyString => []
  | String c s => Z.of_N (Ascii.N_of_ascii c) :: codes s
  end.

Definition isspace (c : Z) : bool := (c =? 32) || ((9 <=? c) && (c <=? 13)).
Definition isdigit (c : Z) : bool := (48 <=? c) && (c <=? 57).
Definition isxdigit (c : Z) : bool :=
  isdigit c || ((65 <=? c) && (c <=? 70)) || ((97 <=? c) && (c <=? 102)).

Definition hexlookup : list Z :=
  replicate 48 (-1) ++ [0; 1; 2; 3; 4; 5; 6; 7; 8; 9] ++ replicate 7 (-1)
  ++ [10; 11; 12; 13; 14; 15] ++ replicate 26 (-1) ++ [10; 11; 12; 13; 14; 15]
  ++ replicate 25 (-1).

(** [*ptr] *)
Definition deref (ptr : list Z) : Z := default 0 (head ptr).

(** ** Input *)

Inductive parsed : Set :=
| Value (n : Z)
| out_of_range
| invalid_syntax.

(** PG_INT16_MIN, PG_INT32_MIN, PG_INT64_MIN and the maxima *)
Definition INT_MIN (w : Z) : Z := - 2 ^ (w - 1).
Definition INT_MAX (w : Z) : Z := 2 ^ (w - 1) - 1.

(** [-(PG_INTw_MIN / base)] *)
Definition overflow_limit (w base : Z) : Z := - (Z.quot (INT_MIN w) base).

(** What both paths do with the digits read. *)
Definition signed_result (w : Z) (neg : bool) (tmp : Z) : parsed :=
  if neg then
    if uwrap w (- (INT_MIN w + 1)) + 1 <? tmp then out_of_range
    else Value (swrap w (- swrap w tmp))
  else if INT_MAX w <? tmp then out_of_range
  else Value (swrap w tmp).

(** The digits of the fast path: [None] is the jump to out_of_range. *)
Fixpoint fast_digits (w tmp : Z) (ptr : list Z) : option (Z * list Z) :=
  match ptr with
  | [] => Some (tmp, ptr)
  | c :: p =>
      let digit := uwrap 8 (c - 48) in
      if 10 <=? digit then Some (tmp, ptr)
      else if overflow_limit w 10 <? tmp then None
      else fast_digits w (uwrap w (tmp * 10 + digit)) p
  end.

(** The fast path: [None] is the jump to slow. *)
Definition strtoint_fast (w : Z) (s : list Z) : option parsed :=
  let '(neg, ptr) := if deref s =? 45 then (true, tail s) else (false, s) in
  let digit := uwrap 8 (deref ptr - 48) in
  if digit <? 10 then
    match fast_digits w digit (tail ptr) with
    | None => Some out_of_range
    | Some (tmp, ptr) =>
        if negb (deref ptr =? 0) then None else Some (signed_result w neg tmp)
    end
  else None.

Fixpoint skip_spaces (ptr : list Z) : list Z :=
  match ptr with
  | c :: p => if isspace c then skip_spaces p else ptr
  | [] => []
  end.

(** The digits of the slow path in one base; the value of the digit is [val], and
    [lead] says whether an underscore may come first.  [inl] is a jump to an
    error. *)
Fixpoint slow_digits (w base : Z) (isdig : Z -> bool) (val : Z -> Z) (lead : bool)
    (tmp : Z) (ptr : list Z) : parsed + (Z * list Z) :=
  match ptr with
  | [] => inr (tmp, ptr)
  | c :: p =>
      if isdig c then
        if overflow_limit w base <? tmp then inl out_of_range
        else slow_digits w base isdig val true (uwrap w (tmp * base + val c)) p
      else if c =? 95 then
        if negb lead then inl invalid_syntax
        else if (deref p =? 0) || negb (isdig (deref p)) then inl invalid_syntax
        else slow_digits w base isdig val true tmp p
      else inr (tmp, ptr)
  end.

Definition isodigit (c : Z) : bool := (48 <=? c) && (c <=? 55).
Definition isbdigit (c : Z) : bool := (48 <=? c) && (c <=? 49).
Definition hexval (c : Z) : Z := rd hexlookup (Z.to_nat c).
Definition decval (c : Z) : Z := c - 48.

(** [ptr[0] == '0' && (ptr[1] == l || ptr[1] == u)] *)
Definition has_prefix (l u : Z) (ptr : list Z) : bool :=
  (deref ptr =? 48) && ((deref (tail ptr) =? l) || (deref (tail ptr) =? u)).

Definition strtoint_slow (w : Z) (neg : bool) (s : list Z) : parsed :=
  let ptr := skip_spaces s in
  let '(neg, ptr) :=
    if deref ptr =? 45 then (true, tail ptr)
    else if deref ptr =? 43 then (neg, tail ptr) else (neg, ptr) in
  let '(firstdigit, digits) :=
    if has_prefix 120 88 ptr then
      let p := drop 2 ptr in (p, slow_digits w 16 isxdigit hexval true 0 p)
    else if has_prefix 111 79 ptr then
      let p := drop 2 ptr in (p, slow_digits w 8 isodigit decval true 0 p)
    else if has_prefix 98 66 ptr then
      let p := drop 2 ptr in (p, slow_digits w 2 isbdigit decval true 0 p)
    else (ptr, slow_digits w 10 isdigit decval false 0 ptr) in
  match digits with
  | inl e => e
  | inr (tmp, ptr) =>
      if (length ptr =? length firstdigit)%nat then invalid_syntax
      else
        let ptr := skip_spaces ptr in
        if negb (deref ptr =? 0) then invalid_syntax
        else signed_result w neg tmp
  end.

(** [neg] keeps the value the fast path has given it. *)
Definition pg_strtoint_safe (w : Z) (s : list Z) : parsed :=
  match strtoint_fast w s with
  | Some r => r
  | None => strtoint_slow w (deref s =? 45) s
  end.

Definition pg_strtoint16_safe : list Z -> parsed := pg_strtoint_safe 16.
Definition pg_strtoint32_safe : list Z -> parsed := pg_strtoint_safe 32.
Definition pg_strtoint64_safe : list Z -> parsed := pg_strtoint_safe 64.

(** The variants without an error context throw. *)
Definition strtoint_throw (typname : string) (r : parsed) : res Z :=
  match r with
  | Value n => Ok n
  | out_of_range => Err ("value is out of range for type " +:+ typname)
  | invalid_syntax => Err ("invalid input syntax for type " +:+ typname)
  end.
Definition pg_strtoint16 (s : list Z) : res Z := strtoint_throw "smallint" (pg_strtoint16_safe s).
Definition pg_strtoint32 (s : list Z) : res Z := strtoint_throw "integer" (pg_strtoint32_safe s).
Definition pg_strtoint64 (s : list Z) : res Z := strtoint_throw "bigint" (pg_strtoint64_safe s).

(** ** Output *)

Definition DIGIT_TABLE : list Z := codes
  "00010203040506070809101112131415161718192021222324252627282930313233343536373839404142434445464748495051525354555657585960616263646566676869707172737475767778798081828384858687888990919293949596979899".

Definition decimalLength32 (v : Z) : Z :=
  let PowersOfTen := [1; 10; 100; 1000; 10000; 100000; 1000000; 10000000; 100000000; 1000000000] in
  let t := (pg_leftmost_one_pos32 v + 1) * 1233 / 4096 in
  t + Z.b2z (rd PowersOfTen (Z.to_nat t) <=? v).

Definition decimalLength64 (v : Z) : Z :=
  let PowersOfTen :=
    [1; 10; 100; 1000; 10000; 100000; 1000000; 10000000; 100000000; 1000000000;
     10000000000; 100000000000; 1000000000000; 10000000000000; 100000000000000;
     1000000000000000; 10000000000000000; 100000000000000000; 1000000000000000000;
     10000000000000000000] in
  let t := (pg_leftmost_one_pos64 v + 1) * 1233 / 4096 in
  t + Z.b2z (rd PowersOfTen (Z.to_nat t) <=? v).

(** [memcpy(pos - k, DIGIT_TABLE + c, 2)] *)
Definition put_digits (a : list Z) (pos k c : Z) : list Z :=
  let at_ := Z.to_nat (pos - k) in
  <[S at_ := rd DIGIT_TABLE (Z.to_nat (c + 1))]>
    (<[at_ := rd DIGIT_TABLE (Z.to_nat c)]> a).

(** The [while] loop of [pg_ultoa_n], one round on (value, i, a). *)
Definition ultoa_step (olength : Z) (s : Z * Z * list Z)
  : flow (Z * Z * list Z) (Z * Z * list Z) :=
  let '(value, i, a) := s in
  if 10000 <=? value then
    let c := value - 10000 * (value / 10000) in
    let c0 := Z.shiftl (c mod 100) 1 in
    let c1 := Z.shiftl (c / 100) 1 in
    let pos := olength - i in
    let value := value / 10000 in
    let a := put_digits a pos 2 c0 in
    let a := put_digits a pos 4 c1 in
    Next (value, i + 4, a)
  else Return (value, i, a).

(** The last digits, common to both printers. *)
Definition last_digits (olength value i : Z) (a : list Z) : list Z :=
  let '(value, i, a) :=
    if 100 <=? value then
      let c := Z.shiftl (value mod 100) 1 in
      let pos := olength - i in
      (value / 100, i + 2, put_digits a pos 2 c)
    else (value, i, a) in
  if 10 <=? value then
    let c := Z.shiftl value 1 in
    let pos := olength - i in
    put_digits a pos 2 c
  else <[0%nat := 48 + value]> a.

(** The buffer and the number of characters; [None] when the loop is cut off. *)
Definition pg_ultoa_n (value : Z) (a : list Z) : option (list Z * Z) :=
  if value =? 0 then Some (<[0%nat := 48]> a, 1)
  else
    let olength := decimalLength32 value in
    match while 4 (ultoa_step olength) (value, 0, a) with
    | Some (value, i, a) => Some (last_digits olength value i a, olength)
    | None => None
    end.

(** The [while] loop of [pg_ulltoa_n], one round. *)
Definition ulltoa_step (olength : Z) (s : Z * Z * list Z)
  : flow (Z * Z * list Z) (Z * Z * list Z) :=
  let '(value, i, a) := s in
  if 100000000 <=? value then
    let q := value / 100000000 in
    let value3 := uwrap 32 (value - 100000000 * q) in
    let c := value3 mod 10000 in
    let d := value3 / 10000 in
    let c0 := Z.shiftl (c mod 100) 1 in
    let c1 := Z.shiftl (c / 100) 1 in
    let d0 := Z.shiftl (d mod 100) 1 in
    let d1 := Z.shiftl (d / 100) 1 in
    let pos := olength - i in
    let value := q in
    let a := put_digits a pos 2 c0 in
    let a := put_digits a pos 4 c1 in
    let a := put_digits a pos 6 d0 in
    let a := put_digits a pos 8 d1 in
    Next (value, i + 8, a)
  else Return (value, i, a).

Definition pg_ulltoa_n (value : Z) (a : list Z) : option (list Z * Z) :=
  if value =? 0 then Some (<[0%nat := 48]> a, 1)
  else
    let olength := decimalLength64 value in
    match while 4 (ulltoa_step olength) (value, 0, a) with
    | Some (value, i, a) =>
        let value2 := uwrap 32 value in
        let '(value2, i, a) :=
          if 10000 <=? value2 then
            let c := value2 - 10000 * (value2 / 10000) in
            let c0 := Z.shiftl (c mod 100) 1 in
            let c1 := Z.shiftl (c / 100) 1 in
            let pos := olength - i in
            (value2 / 10000, i + 4, put_digits (put_digits a pos 2 c0) pos 4 c1)
          else (value2, i, a) in
        Some (last_digits olength value2 i a, olength)
    | None => None
    end.

(** [a + len] is a buffer of its own; the sign is in front of it. *)
Definition with_sign (w : Z) (print : Z -> list Z -> option (list Z * Z)) (value : Z)
    (a : list Z) : option (list Z * Z) :=
  let uvalue := uwrap w value in
  let '(uvalue, len, a) :=
    if value <? 0 then (uwrap w (0 - uvalue), 1, <[0%nat := 45]> a) else (uvalue, 0, a) in
  match print uvalue (drop (Z.to_nat len) a) with
  | Some (b, n) =>
      let a := take (Z.to_nat len) a ++ b in
      let len := len + n in
      Some (<[Z.to_nat len := 0]> a, len)
  | None => None
  end.

Definition pg_ltoa (value : Z) (a : list Z) : option (list Z * Z) := with_sign 32 pg_ultoa_n value a.
Definition pg_lltoa (value : Z) (a : list Z) : option (list Z * Z) := with_sign 64 pg_ulltoa_n value a.
Definition pg_itoa (i : Z) (a : list Z) : option (list Z * Z) := pg_ltoa i a.

(** These return the position after the text. *)
Definition pg_ultostr_zeropad (str : list Z) (value minwidth : Z) : option (list Z * Z) :=
  if (value <? 100) && (minwidth =? 2)
  then Some (put_digits str 2 2 (value * 2), 2)
  else
    match pg_ultoa_n value str with
    | Some (str, len) =>
        if minwidth <=? len then Some (str, len)
        else
          let digits := take (Z.to_nat len) str in
          let str := replicate (Z.to_nat (minwidth - len)) 48 ++ digits
                     ++ drop (Z.to_nat minwidth) str in
          Some (str, minwidth)
    | None => None
    end.

Definition pg_ultostr (str : list Z) (value : Z) : option (list Z * Z) := pg_ultoa_n value str.
