(* ===== verification/NumutilsProps.v ===== *)
(** Correctness of integer input: the parsers accept exactly the integer literals
    of their range, and the fast path agrees with the general one. *)

From S2P Require Import Prelude BitUtils Numutils.
Local Open Scope Z_scope.

(** ** Literals *)

(** [numeral acc l v]: reading [l] after digits of value [acc] gives [v]; single
    underscores may separate digits, and come first where [lead] allows it. *)
Inductive numeral (base : Z) (isdig : Z -> bool) (val : Z -> Z) : bool -> Z -> list Z -> Z -> Prop :=
| numeral_end lead acc : numeral base isdig val lead acc [] acc
| numeral_digit lead acc c l v :
    isdig c = true -> numeral base isdig val true (acc * base + val c) l v ->
    numeral base isdig val lead acc (c :: l) v
| numeral_sep acc c l v :
    isdig c = true -> numeral base isdig val true (acc * base + val c) l v ->
    numeral base isdig val true acc (95 :: c :: l) v.

Inductive radix : list Z -> Z -> (Z -> bool) -> (Z -> Z) -> bool -> Prop :=
| radix_hex x : x = 120 \/ x = 88 -> radix [48; x] 16 isxdigit hexval true
| radix_oct o : o = 111 \/ o = 79 -> radix [48; o] 8 isodigit decval true
| radix_bin b : b = 98 \/ b = 66 -> radix [48; b] 2 isbdigit decval true
| radix_dec : radix [] 10 isdigit decval false.

Inductive sign : list Z -> Z -> Prop :=
| sign_none : sign [] 1
| sign_plus : sign [43] 1
| sign_minus : sign [45] (-1).

Definition spaces (l : list Z) : Prop := Forall (fun c => isspace c = true) l.

(** The integer literals that PostgreSQL accepts, with their values. *)
Inductive literal : list Z -> Z -> Prop :=
| literal_intro ws1 sg sgn pre base isdig val lead body v ws2 :
    spaces ws1 -> sign sg sgn -> radix pre base isdig val lead ->
    body <> [] -> numeral base isdig val lead 0 body v -> spaces ws2 ->
    literal (ws1 ++ sg ++ pre ++ body ++ ws2) (sgn * v).

(** ** Digits *)

(** What the bases have in common. *)
Record digit_ok (base : Z) (isdig : Z -> bool) (val : Z -> Z) : Prop := {
  digit_val c : isdig c = true -> 0 <= val c < base;
  digit_xdigit c : isdig c = true -> isxdigit c = true
}.

Lemma isxdigit_range c : isxdigit c = true -> 48 <= c <= 57 \/ 65 <= c <= 70 \/ 97 <= c <= 102.
Proof. unfold isxdigit, isdigit. rewrite !orb_true_iff, !andb_true_iff. lia. Qed.

Lemma isspace_range c : isspace c = true -> c = 32 \/ 9 <= c <= 13.
Proof. unfold isspace. rewrite orb_true_iff, andb_true_iff. lia. Qed.

Lemma hexval_range c : isxdigit c = true -> 0 <= hexval c < 16.
Proof.
  intros H%isxdigit_range.
  assert (Hc : forall k, 48 <= k <= 102 -> (48 <= k <= 57 \/ 65 <= k <= 70 \/ 97 <= k <= 102) ->
    0 <= hexval k < 16); [|apply Hc; lia].
  intros k Hk. assert (Hall : Forall (fun k => (48 <= k <= 57 \/ 65 <= k <= 70 \/ 97 <= k <= 102) ->
    0 <= hexval k < 16) (seqZ 48 55)).
  { repeat (apply Forall_cons; split; [vm_compute; intuition (discriminate || congruence)|]). apply Forall_nil_2. }
  rewrite Forall_forall in Hall. apply Hall, elem_of_seqZ. lia.
Qed.

Lemma radix_ok pre base isdig val lead : radix pre base isdig val lead -> digit_ok base isdig val.
Proof.
  intros []; split; intros c.
  - apply hexval_range.
  - done.
  - unfold isodigit, decval. rewrite andb_true_iff. lia.
  - unfold isodigit, isxdigit, isdigit. rewrite !orb_true_iff, !andb_true_iff. lia.
  - unfold isbdigit, decval. rewrite andb_true_iff. lia.
  - unfold isbdigit, isxdigit, isdigit. rewrite !orb_true_iff, !andb_true_iff. lia.
  - unfold isdigit, decval. rewrite andb_true_iff. lia.
  - unfold isxdigit. by intros ->.
Qed.

Lemma radix_base pre base isdig val lead :
  radix pre base isdig val lead -> base = 2 \/ base = 8 \/ base = 10 \/ base = 16.
Proof. intros []; auto. Qed.

Section parse.
Context (w : Z).
Hypothesis width : 8 <= w.

Lemma half : 2 ^ w = 2 * 2 ^ (w - 1) /\ 128 <= 2 ^ (w - 1).
Proof.
  split; [rewrite <- Z.pow_succ_r by lia; f_equal; lia|].
  change 128 with (2 ^ 7). apply Z.pow_le_mono_r; lia.
Qed.

(** The test before each digit refuses exactly what could not stay in range. *)
Lemma overflow_limit_spec base :
  0 < base -> overflow_limit w base * base <= 2 ^ (w - 1) < (overflow_limit w base + 1) * base.
Proof.
  intros Hb. unfold overflow_limit, INT_MIN. destruct half as [_ Hh].
  rewrite Z.quot_opp_l, Z.opp_involutive, Z.quot_div_nonneg by lia.
  pose proof (Z.div_mod (2 ^ (w - 1)) base ltac:(lia)).
  pose proof (Z.mod_pos_bound (2 ^ (w - 1)) base ltac:(lia)). nia.
Qed.

Section digits.
Context (base : Z) (isdig : Z -> bool) (val : Z -> Z).
Hypothesis digits : digit_ok base isdig val.
Hypothesis base_range : 2 <= base <= 16.

Lemma isdig_not_sep c : isdig c = true -> c <> 95 /\ c <> 0 /\ isspace c = false.
Proof.
  intros H. pose proof (isxdigit_range _ (digit_xdigit _ _ _ digits c H)) as Hr.
  split; [lia|]. split; [lia|]. unfold isspace. apply orb_false_iff.
  split; [apply Z.eqb_neq; lia|]. apply andb_false_iff. rewrite !Z.leb_gt. lia.
Qed.

Lemma digit_step tmp c :
  0 <= tmp -> isdig c = true ->
  if overflow_limit w base <? tmp then 2 ^ (w - 1) < tmp * base + val c
  else 0 <= tmp * base + val c < 2 ^ w.
Proof.
  intros Ht Hc. pose proof (overflow_limit_spec base ltac:(lia)) as [L1 L2].
  pose proof (digit_val _ _ _ digits c Hc). destruct half as [Hh Hh'].
  destruct (Z.ltb_spec (overflow_limit w base) tmp); nia.
Qed.

(** Values only grow. *)
Lemma numeral_mono lead acc l v : 0 <= acc -> numeral base isdig val lead acc l v -> acc <= v.
Proof.
  intros Ha H. revert Ha. induction H as [|lead acc c l v Hc _ IH|acc c l v Hc _ IH]; intros Ha; [done|..].
  all: pose proof (digit_val _ _ _ digits c Hc); specialize (IH ltac:(nia)); nia.
Qed.

(** Where the digits end. *)
Definition stop (ptr : list Z) : Prop := isdig (deref ptr) = false /\ deref ptr <> 95.

(** The scanner reads all of a numeral, or finds that it is too large. *)
Lemma slow_digits_complete lead tmp l v rest :
  0 <= tmp < 2 ^ w -> numeral base isdig val lead tmp l v -> stop rest ->
  (slow_digits w base isdig val lead tmp (l ++ rest) = inr (v, rest) /\ v < 2 ^ w)
  \/ (slow_digits w base isdig val lead tmp (l ++ rest) = inl out_of_range /\ 2 ^ (w - 1) < v).
Proof.
  intros Ht H [Hs1 Hs2].
  assert (Hdig : forall lead tmp c l v, 0 <= tmp < 2 ^ w -> isdig c = true ->
    numeral base isdig val true (tmp * base + val c) l v ->
    (0 <= tmp * base + val c < 2 ^ w ->
     (slow_digits w base isdig val true (tmp * base + val c) (l ++ rest) = inr (v, rest) /\ v < 2 ^ w)
     \/ (slow_digits w base isdig val true (tmp * base + val c) (l ++ rest) = inl out_of_range
         /\ 2 ^ (w - 1) < v)) ->
    (slow_digits w base isdig val lead tmp ((c :: l) ++ rest) = inr (v, rest) /\ v < 2 ^ w)
    \/ (slow_digits w base isdig val lead tmp ((c :: l) ++ rest) = inl out_of_range /\ 2 ^ (w - 1) < v)).
  { clear lead tmp l v Ht H. intros lead tmp c l v Ht Hc Hn IH. simpl. rewrite Hc.
    pose proof (digit_step tmp c (proj1 Ht) Hc) as Hst.
    destruct (Z.ltb_spec (overflow_limit w base) tmp) as [Hl|Hl].
    - right. split; [done|]. destruct half as [_ Hh]. apply numeral_mono in Hn; lia.
    - rewrite uwrap_small by done. by apply IH. }
  revert Ht. induction H as [lead tmp|lead tmp c l v Hc Hn IH|tmp c l v Hc Hn IH]; intros Ht.
  - left. split; [|lia]. destruct rest as [|c rest]; [done|].
    change (deref (c :: rest)) with c in *. simpl. rewrite Hs1. by destruct (Z.eqb_spec c 95).
  - by apply Hdig.
  - destruct (isdig_not_sep c Hc) as (N1 & N2 & _).
    change ((95 :: c :: l) ++ rest) with (95 :: ((c :: l) ++ rest)). cbn [slow_digits].
    assert (Es : isdig 95 = false).
    { destruct (isdig 95) eqn:E; [|done]. by destruct (isdig_not_sep 95 E). }
    rewrite Es. cbn [Z.eqb Pos.eqb negb]. change (deref ((c :: l) ++ rest)) with c.
    rewrite Hc. destruct (Z.eqb_spec c 0); [done|]. cbn [negb orb]. by apply Hdig.
Qed.

(** What the scanner has read is a numeral, and it stops only where that ends. *)
Lemma slow_digits_sound lead tmp ptr v rest :
  isdig 0 = false -> 0 <= tmp < 2 ^ w -> slow_digits w base isdig val lead tmp ptr = inr (v, rest) ->
  exists l, ptr = l ++ rest /\ numeral base isdig val lead tmp l v /\ 0 <= v < 2 ^ w /\ stop rest.
Proof.
  intros H0. revert lead tmp. induction ptr as [|c ptr IH]; intros lead tmp Ht E.
  - simpl in E. simplify_eq. exists []. split; [done|]. split; [constructor|done].
  - cbn [slow_digits] in E. destruct (isdig c) eqn:Hc.
    + pose proof (digit_step tmp c (proj1 Ht) Hc) as Hst.
      destruct (Z.ltb_spec (overflow_limit w base) tmp); [done|].
      rewrite uwrap_small in E by done.
      destruct (IH true _ Hst E) as (l & -> & Hn & Hv).
      exists (c :: l). split; [done|]. split; [by constructor|done].
    + destruct (Z.eqb_spec c 95) as [->|Hne].
      2: { simplify_eq. exists []. split; [done|]. split; [constructor|done]. }
      destruct lead; [|done]. cbn [negb] in E.
      destruct (_ || _) eqn:Ed in E; [done|]. apply orb_false_iff in Ed as [_ Ed].
      apply negb_false_iff in Ed.
      destruct (IH true tmp Ht E) as (l & -> & Hn & Hv & Hs1 & Hs2).
      destruct l as [|d l]; [simpl in Ed; congruence|]. change (deref ((d :: l) ++ rest)) with d in Ed.
      exists (95 :: d :: l). split; [done|]. split; [|done]. inversion Hn; subst; [by constructor|].
      by destruct (isdig_not_sep 95 Ed).
Qed.
End digits.

(** ** The whole text *)

Definition in_range (n : Z) : bool := (INT_MIN w <=? n) && (n <=? INT_MAX w).

Definition answer (n : Z) : parsed := if in_range n then Value n else out_of_range.

Lemma swrap_id x : - 2 ^ (w - 1) <= x < 2 ^ (w - 1) -> swrap w x = x.
Proof. intros H. destruct half as [Hh _]. unfold swrap. rewrite Z.mod_small; lia. Qed.

Lemma signed_result_spec (neg : bool) v :
  0 <= v < 2 ^ w -> signed_result w neg v = answer (if neg then -1 * v else 1 * v).
Proof.
  intros Hv. destruct half as [Hh Hh'].
  unfold signed_result, answer, in_range, INT_MIN, INT_MAX. destruct neg.
  - rewrite (uwrap_small w (- (- 2 ^ (w - 1) + 1))) by (unfold in_u; lia).
    destruct (Z.ltb_spec (- (- 2 ^ (w - 1) + 1) + 1) v), (Z.leb_spec (- 2 ^ (w - 1)) (-1 * v)),
      (Z.leb_spec (-1 * v) (2 ^ (w - 1) - 1)); simpl; try lia; try done.
    f_equal. destruct (decide (v = 2 ^ (w - 1))) as [->|Hne].
    + assert (E : swrap w (2 ^ (w - 1)) = - 2 ^ (w - 1)).
      { unfold swrap. replace (2 ^ (w - 1) + 2 ^ (w - 1)) with (1 * 2 ^ w) by lia.
        rewrite Z.mod_mul; lia. }
      rewrite E, Z.opp_involutive, E. lia.
    + rewrite (swrap_id v), swrap_id; lia.
  - destruct (Z.ltb_spec (2 ^ (w - 1) - 1) v), (Z.leb_spec (- 2 ^ (w - 1)) (1 * v)),
      (Z.leb_spec (1 * v) (2 ^ (w - 1) - 1)); simpl; try lia; try done.
    f_equal. rewrite swrap_id; lia.
Qed.

Lemma skip_spaces_spec ws t :
  spaces ws -> isspace (deref t) = false -> skip_spaces (ws ++ t) = t.
Proof.
  intros Hs Ht. induction Hs as [|c ws Hc _ IH]; simpl.
  - destruct t as [|c t]; [done|]. change (deref (c :: t)) with c in Ht. simpl. by rewrite Ht.
  - by rewrite Hc.
Qed.

Lemma skip_spaces_split s :
  exists ws, s = ws ++ skip_spaces s /\ spaces ws /\ isspace (deref (skip_spaces s)) = false.
Proof.
  induction s as [|c s IH]; simpl; [exists []; split; [done|split; [constructor|done]]|].
  destruct (isspace c) eqn:E.
  - destruct IH as (ws & Es & Hs & Hd). exists (c :: ws). simpl. rewrite <- Es.
    split; [done|]. split; [by constructor|done].
  - exists []. split; [done|]. split; [constructor|done].
Qed.

Lemma deref_app l r : l <> [] -> deref (l ++ r) = deref l.
Proof. by destruct l. Qed.

Lemma numeral_first base isdig val lead acc l v :
  numeral base isdig val lead acc l v -> l <> [] ->
  isdig (deref l) = true \/ (lead = true /\ deref l = 95).
Proof. intros H Hl. destruct H as [|? ? c l v Hc _|acc c l v _ _]; [done|by left|by right]. Qed.

Lemma spaces_stop base isdig val ws : digit_ok base isdig val -> spaces ws -> stop isdig ws.
Proof.
  intros Hd Hs. destruct Hs as [|c ws Hc _].
  - split; [|done]. destruct (isdig (deref [])) eqn:E; [|done].
    destruct (isdig_not_sep base isdig val Hd _ E) as (_ & N & _). by destruct N.
  - split; change (deref (c :: ws)) with c.
    + destruct (isdig c) eqn:E; [|done]. destruct (isdig_not_sep base isdig val Hd _ E) as (_ & _ & N). congruence.
    + apply isspace_range in Hc. lia.
Qed.

(** Decimal numerals are not taken for prefixed ones. *)
Lemma decimal_no_prefix l u body v ws :
  spaces ws -> body <> [] -> numeral 10 isdigit decval false 0 body v -> 97 < l -> 65 < u < 95 ->
  has_prefix l u (body ++ ws) = false.
Proof.
  intros Hs Hb Hn Hl Hu. destruct body as [|c body]; [done|].
  unfold has_prefix. simpl tail. apply andb_false_iff. right.
  assert (Hd : isdigit (deref (body ++ ws)) = true \/ deref (body ++ ws) = 95
    \/ isspace (deref (body ++ ws)) = true \/ deref (body ++ ws) = 0).
  { inversion Hn as [|? ? ? ? ? Hc Hn'|]; subst. destruct body as [|d body].
    - simpl. destruct Hs as [|x ws Hx _]; [by right; right; right|by right; right; left].
    - destruct (numeral_first _ _ _ _ _ _ _ Hn' ltac:(done)) as [H|[_ H]]; auto. }
  unfold isdigit in Hd. rewrite andb_true_iff in Hd.
  assert (Hr : deref (body ++ ws) <= 57 \/ deref (body ++ ws) = 95).
  { destruct Hd as [?|[?|[H%isspace_range|?]]]; lia. }
  apply orb_false_iff. rewrite !Z.eqb_neq. lia.
Qed.

Lemma slow_tail base isdig val lead neg body v ws :
  digit_ok base isdig val -> 2 <= base <= 16 ->
  body <> [] -> numeral base isdig val lead 0 body v -> spaces ws ->
  match slow_digits w base isdig val lead 0 (body ++ ws) with
  | inl e => e
  | inr (tmp, ptr) =>
      if (length ptr =? length (body ++ ws))%nat then invalid_syntax
      else
        let ptr := skip_spaces ptr in
        if negb (deref ptr =? 0) then invalid_syntax
        else signed_result w neg tmp
  end = answer (if neg then -1 * v else 1 * v).
Proof.
  intros Hd Hbase Hb Hn Hs. destruct half as [Hh Hh'].
  pose proof (numeral_mono base isdig val Hd Hbase _ _ _ _ (Z.le_refl 0) Hn) as Hv.
  destruct (slow_digits_complete base isdig val Hd Hbase lead 0 body v ws) as [[-> Hlt]|[-> Hgt]];
    [lia|done|by eapply spaces_stop|..].
  - rewrite length_app. destruct (Nat.eqb_spec (length ws) (length body + length ws)) as [E|_].
    { destruct body; [done|]. simpl in E. lia. }
    rewrite <- (app_nil_r ws), (skip_spaces_spec ws []) by done. simpl. apply signed_result_spec. lia.
  - unfold answer, in_range, INT_MIN, INT_MAX. destruct neg.
    + destruct (Z.leb_spec (- 2 ^ (w - 1)) (-1 * v)); [lia|done].
    + destruct (Z.leb_spec (1 * v) (2 ^ (w - 1) - 1)); [lia|by rewrite andb_false_r].
Qed.

(** The part after the sign starts with a digit. *)
Lemma unsigned_first pre base isdig val lead body v ws :
  radix pre base isdig val lead -> body <> [] -> numeral base isdig val lead 0 body v ->
  48 <= deref (pre ++ body ++ ws) <= 57.
Proof.
  intros Hr Hb Hn. destruct Hr; try (unfold deref; simpl; lia).
  simpl. rewrite deref_app by done.
  destruct (numeral_first _ _ _ _ _ _ _ Hn Hb) as [H|[? _]]; [|done].
  unfold isdigit in H. rewrite andb_true_iff in H. lia.
Qed.

Lemma not_space c : 33 <= c -> isspace c = false.
Proof. intros H. unfold isspace. apply orb_false_iff. rewrite andb_false_iff, Z.eqb_neq, !Z.leb_gt. lia. Qed.

Lemma strtoint_slow_complete s n :
  literal s n -> strtoint_slow w (deref s =? 45) s = answer n.
Proof.
  intros [ws1 sg sgn pre base isdig val lead body v ws2 Hs1 Hsg Hr Hb Hn Hs2].
  pose proof (unsigned_first _ _ _ _ _ _ _ ws2 Hr Hb Hn) as Hf.
  assert (Hbase : 2 <= base <= 16) by (destruct (radix_base _ _ _ _ _ Hr) as [?|[?|[?|?]]]; lia).
  set (t := pre ++ body ++ ws2) in *.
  assert (Hsp : isspace (deref (sg ++ t)) = false).
  { destruct Hsg; [|done|done]. apply not_space. simpl. lia. }
  assert (Hneg : (deref (ws1 ++ sg ++ t) =? 45) = true -> sgn = -1).
  { intros H%Z.eqb_eq. destruct Hs1 as [|c ws1 Hc _].
    - destruct Hsg; [|done|done]. simpl in H. lia.
    - change (deref ((c :: ws1) ++ sg ++ t)) with c in H. apply isspace_range in Hc. lia. }
  generalize (deref (ws1 ++ sg ++ t) =? 45) as neg0, Hneg. clear Hneg. intros neg0 Hneg.
  unfold strtoint_slow. rewrite skip_spaces_spec by done.
  assert (Hsign : (if deref (sg ++ t) =? 45 then (true, tail (sg ++ t))
                   else if deref (sg ++ t) =? 43 then (neg0, tail (sg ++ t)) else (neg0, sg ++ t))
                  = (bool_decide (sgn = -1), t)).
  { destruct Hsg; simpl.
    - destruct (Z.eqb_spec (deref t) 45), (Z.eqb_spec (deref t) 43); try lia.
      destruct neg0; [by specialize (Hneg eq_refl)|done].
    - destruct neg0; [by specialize (Hneg eq_refl)|done].
    - done. }
  rewrite Hsign. clear Hsign Hneg neg0 Hsp.
  assert (Ha : sgn * v = if bool_decide (sgn = -1) then -1 * v else 1 * v) by (by destruct Hsg).
  rewrite Ha. generalize (bool_decide (sgn = -1)) as neg. intros neg. subst t. clear Hf.
  pose proof (radix_ok _ _ _ _ _ Hr) as Hd.
  pose proof (slow_tail base isdig val lead neg body v ws2 Hd Hbase Hb Hn Hs2) as Ht.
  destruct Hr as [x [-> | ->]|x [-> | ->]|x [-> | ->]|]; try exact Ht.
  rewrite !app_nil_l. rewrite !(decimal_no_prefix _ _ body v ws2) by (done || lia). exact Ht.
Qed.

Lemma take_prefix l u p : has_prefix l u p = true -> 0 < l -> 0 < u ->
  exists x q, p = 48 :: x :: q /\ (x = l \/ x = u).
Proof.
  unfold has_prefix. rewrite andb_true_iff, orb_true_iff, !Z.eqb_eq. intros [H1 H2] Hl Hu.
  destruct p as [|c [|x q]]; try (unfold deref in *; simpl in *; lia).
  exists x, q. unfold deref in *. simpl in *. by subst c.
Qed.

Definition no_nul (s : list Z) : Prop := Forall (fun c => c <> 0) s.

Lemma slow_tail_sound base isdig val lead neg q n :
  digit_ok base isdig val -> 2 <= base <= 16 -> isdig 0 = false -> no_nul q ->
  match slow_digits w base isdig val lead 0 q with
  | inl e => e
  | inr (tmp, ptr) =>
      if (length ptr =? length q)%nat then invalid_syntax
      else
        let ptr := skip_spaces ptr in
        if negb (deref ptr =? 0) then invalid_syntax
        else signed_result w neg tmp
  end = Value n ->
  exists body v ws, q = body ++ ws /\ body <> [] /\ numeral base isdig val lead 0 body v
    /\ spaces ws /\ answer (if neg then -1 * v else 1 * v) = Value n.
Proof.
  intros Hd Hbase H0 Hz H. destruct half as [Hh Hh'].
  destruct (slow_digits w base isdig val lead 0 q) as [e|[v rest]] eqn:E.
  { subst e. exfalso. revert E. clear. revert lead. generalize 0 as tmp.
    induction q as [|c q IH]; intros tmp lead; simpl; [done|].
    repeat case_match; try done; try apply IH. }
  destruct (slow_digits_sound base isdig val Hd Hbase lead 0 q v rest H0 ltac:(lia) E)
    as (body & -> & Hn & Hv & _).
  destruct (Nat.eqb_spec (length rest) (length (body ++ rest))) as [El|El]; [done|].
  simpl in H. destruct (Z.eqb_spec (deref (skip_spaces rest)) 0) as [Ez|Ez]; [|done]. simpl in H.
  rewrite signed_result_spec in H by done.
  destruct (skip_spaces_split rest) as (ws & Er & Hs & _).
  assert (Enil : skip_spaces rest = []).
  { destruct (skip_spaces rest) as [|c r]; [done|]. exfalso.
    rewrite Er in Hz. apply Forall_app in Hz as [_ Hz]. apply Forall_app in Hz as [_ Hz].
    by apply Forall_cons_1 in Hz as [? _]. }
  exists body, v, ws. rewrite Er, Enil, app_nil_r. split_and!; try done.
  intros ->. done.
Qed.

Lemma split_sign s ws1 p :
  s = ws1 ++ p -> spaces ws1 -> no_nul p ->
  exists sg sgn t, sign sg sgn /\ p = sg ++ t /\ no_nul t
    /\ (if deref p =? 45 then (true, tail p)
        else if deref p =? 43 then (deref s =? 45, tail p) else (deref s =? 45, p))
       = (bool_decide (sgn = -1), t).
Proof.
  intros Es Hs1 Hpz.
  assert (Hneg : (deref p =? 45) = false -> (deref s =? 45) = false).
  { intros Hp. rewrite Es. destruct ws1 as [|c ws1]; [done|]. change (deref ((c :: ws1) ++ p)) with c.
    apply Z.eqb_neq. apply Forall_cons_1 in Hs1 as [Hc%isspace_range _]. lia. }
  destruct (Z.eqb_spec (deref p) 45) as [E|E].
  - destruct p as [|c p]; [done|]. change (deref (c :: p)) with c in E. subst c.
    apply Forall_cons_1 in Hpz as [_ Hpz]. exists [45], (-1), p. by split_and!; try constructor.
  - rewrite Hneg by done. destruct (Z.eqb_spec (deref p) 43) as [E'|E'].
    + destruct p as [|c p]; [done|]. change (deref (c :: p)) with c in E'. subst c.
      apply Forall_cons_1 in Hpz as [_ Hpz]. exists [43], 1, p. by split_and!; try constructor.
    + exists [], 1, p. by split_and!; try constructor.
Qed.

Lemma strtoint_slow_sound s n :
  no_nul s -> strtoint_slow w (deref s =? 45) s = Value n -> literal s n /\ in_range n = true.
Proof.
  intros Hz H. destruct (skip_spaces_split s) as (ws1 & Es & Hs1 & Hsp).
  unfold strtoint_slow in H. set (p := skip_spaces s) in *.
  assert (Hpz : no_nul p) by (rewrite Es in Hz; by apply Forall_app in Hz as [_ Hz]).
  destruct (split_sign s ws1 p Es Hs1 Hpz) as (sg & sgn & t & Hsg & Ep & Htz & Hsign).
  rewrite Hsign in H.
  assert (Hgo : forall pre base isdig val lead q,
    radix pre base isdig val lead -> t = pre ++ q -> isdig 0 = false ->
    match slow_digits w base isdig val lead 0 q with
    | inl e => e
    | inr (tmp, ptr) =>
        if (length ptr =? length q)%nat then invalid_syntax
        else
          let ptr := skip_spaces ptr in
          if negb (deref ptr =? 0) then invalid_syntax
          else signed_result w (bool_decide (sgn = -1)) tmp
    end = Value n -> literal s n /\ in_range n = true).
  { intros pre base isdig val lead q Hr Et H0 Hq.
    assert (Hbase : 2 <= base <= 16) by (destruct (radix_base _ _ _ _ _ Hr) as [?|[?|[?|?]]]; lia).
    apply slow_tail_sound in Hq as (body & v & ws & Eq & Hb & Hn & Hs2 & Ha);
      [|by eapply radix_ok|done|done|rewrite Et in Htz; by apply Forall_app in Htz as [_ ?]].
    unfold answer in Ha. destruct (in_range _) eqn:Er in Ha; [|done]. injection Ha as <-.
    split; [|done]. rewrite Es, Ep, Et, Eq.
    replace (if bool_decide (sgn = -1) then -1 * v else 1 * v) with (sgn * v) by (by destruct Hsg).
    by econstructor. }
  destruct (has_prefix 120 88 t) eqn:E1.
  { destruct (take_prefix 120 88 t E1) as (x & q & -> & Hx); [lia..|].
    by apply (Hgo [48; x] 16 isxdigit hexval true q); [constructor|..]. }
  destruct (has_prefix 111 79 t) eqn:E2.
  { destruct (take_prefix 111 79 t E2) as (x & q & -> & Hx); [lia..|].
    by apply (Hgo [48; x] 8 isodigit decval true q); [constructor|..]. }
  destruct (has_prefix 98 66 t) eqn:E3.
  { destruct (take_prefix 98 66 t E3) as (x & q & -> & Hx); [lia..|].
    by apply (Hgo [48; x] 2 isbdigit decval true q); [constructor|..]. }
  by apply (Hgo [] 10 isdigit decval false t); [constructor|..].
Qed.

(** ** The fast path *)

Definition bytes (s : list Z) : Prop := Forall (fun c => 0 < c < 256) s.

Lemma bytes_no_nul s : bytes s -> no_nul s.
Proof. intros H. eapply Forall_impl; [exact H|]. simpl. lia. Qed.

Lemma fast_digit c : 0 <= c < 256 -> (uwrap 8 (c - 48) <? 10) = isdigit c
  /\ (isdigit c = true -> uwrap 8 (c - 48) = decval c).
Proof.
  intros Hc. unfold isdigit, decval, uwrap. change (2 ^ 8) with 256.
  destruct (Z.leb_spec 48 c).
  - rewrite Z.mod_small by lia. split; [|done].
    destruct (Z.ltb_spec (c - 48) 10), (Z.leb_spec c 57); done || lia.
  - split; [|done]. replace ((c - 48) mod 256) with (c + 208); [apply Z.ltb_ge; lia|].
    apply (Z.mod_unique_pos _ _ (-1)); lia.
Qed.

Lemma fast_digits_slow tmp p :
  bytes p ->
  match fast_digits w tmp p with
  | None => forall lead, slow_digits w 10 isdigit decval lead tmp p = inl out_of_range
  | Some (t, []) => forall lead, slow_digits w 10 isdigit decval lead tmp p = inr (t, [])
  | Some (_, c :: _) => c <> 0
  end.
Proof.
  intros Hp. revert tmp. induction Hp as [|c p Hc Hp IH]; intros tmp; simpl; [done|].
  destruct (fast_digit c ltac:(lia)) as [Hd Hv].
  rewrite Z.leb_antisym, Hd. destruct (isdigit c); [|simpl; lia]. cbn [negb].
  rewrite Hv by done. destruct (overflow_limit w 10 <? tmp); [done|].
  specialize (IH (uwrap w (tmp * 10 + decval c))).
  destruct (fast_digits w _ p) as [[t [|x q]]|]; auto.
Qed.

Lemma fast_no_prefix l u tmp c p :
  bytes p -> 97 < l -> 65 < u < 95 ->
  fast_digits w tmp p = None \/ (exists t, fast_digits w tmp p = Some (t, [])) ->
  has_prefix l u (c :: p) = false.
Proof.
  intros Hp Hl Hu Hcase. unfold has_prefix. apply andb_false_iff. right. simpl tail.
  destruct p as [|d p]; [apply orb_false_iff; rewrite !Z.eqb_neq; unfold deref; simpl; lia|].
  change (deref (d :: p)) with d. apply Forall_cons_1 in Hp as [Hdr _].
  destruct (fast_digit d ltac:(lia)) as [Hdd _].
  simpl in Hcase. rewrite Z.leb_antisym, Hdd in Hcase. destruct (isdigit d) eqn:Edd.
  - unfold isdigit in Edd. rewrite andb_true_iff in Edd. apply orb_false_iff. rewrite !Z.eqb_neq. lia.
  - simpl in Hcase. naive_solver.
Qed.

(** The fast path answers only what the slow path would. *)
Lemma strtoint_fast_slow s r :
  bytes s -> strtoint_fast w s = Some r -> strtoint_slow w (deref s =? 45) s = r.
Proof.
  intros Hs H. unfold strtoint_fast in H.
  set (neg := deref s =? 45) in *.
  set (t := if neg then tail s else s).
  replace (if neg then (true, tail s) else (false, s)) with (neg, t) in H
    by (subst t; by destruct neg).
  assert (Ht : bytes t).
  { subst t. destruct neg; [|done]. destruct s; [done|]. by apply Forall_cons_1 in Hs as [_ ?]. }
  destruct t as [|c p] eqn:Et; [done|]. change (deref (c :: p)) with c in H. simpl tail in H.
  apply Forall_cons_1 in Ht as [Hc Hp]. destruct (fast_digit c ltac:(lia)) as [Hd Hv].
  rewrite Hd in H. destruct (isdigit c) eqn:Ec; [|done]. rewrite Hv in H by done.
  assert (Hcr : 48 <= c <= 57) by (unfold isdigit in Ec; rewrite andb_true_iff in Ec; lia).
  assert (Hss : skip_spaces s = s).
  { subst t. destruct s as [|d s]; [done|]. simpl. destruct (isspace d) eqn:Ed; [|done].
    apply isspace_range in Ed. subst neg. change (deref (d :: s)) with d in *.
    destruct (Z.eqb_spec d 45); [lia|]. injection Et as -> ->. lia. }
  unfold strtoint_slow. rewrite Hss.
  assert (Hsg : (if neg then (true, tail s)
    else if deref s =? 43 then (neg, tail s) else (neg, s)) = (neg, c :: p)).
  { subst t. destruct neg; [by rewrite Et|]. rewrite Et. change (deref (c :: p)) with c.
    by destruct (Z.eqb_spec c 43); [lia|]. }
  fold neg. rewrite Hsg. clear Hsg.
  pose proof (fast_digits_slow (decval c) p Hp) as Hf.
  assert (Hstep : slow_digits w 10 isdigit decval false 0 (c :: p)
    = slow_digits w 10 isdigit decval true (decval c) p).
  { simpl. rewrite Ec. pose proof (overflow_limit_spec 10 ltac:(lia)).
    destruct (Z.ltb_spec (overflow_limit w 10) 0); [lia|].
    rewrite uwrap_small; [done|]. destruct half. unfold in_u, decval. lia. }
  destruct (fast_digits w (decval c) p) as [[v [|d q]]|] eqn:Ef.
  - simpl in H. injection H as <-. rewrite !(fast_no_prefix _ _ (decval c)) by (done || lia || eauto). by rewrite Hstep, Hf.
  - change (deref (d :: q)) with d in H. by destruct (Z.eqb_spec d 0).
  - injection H as <-. rewrite !(fast_no_prefix _ _ (decval c)) by (done || lia || eauto). by rewrite Hstep, Hf.
Qed.
End parse.

Lemma pg_strtoint_slow w s :
  8 <= w -> bytes s -> pg_strtoint_safe w s = strtoint_slow w (deref s =? 45) s.
Proof.
  intros Hw Hs. unfold pg_strtoint_safe. destruct (strtoint_fast w s) as [r|] eqn:E; [|done].
  symmetry. by apply strtoint_fast_slow.
Qed.

Lemma in_range_spec w n : in_range w n = true <-> INT_MIN w <= n <= INT_MAX w.
Proof. unfold in_range. rewrite andb_true_iff, !Z.leb_le. done. Qed.

(** C13: integer input.  The parsers for smallint, integer and bigint return a
    value exactly on the literals whose value is in the range of the type, and
    that value: decimal, hexadecimal, octal or binary, signed or not, with white space
    around, and with single underscores between digits and also right after the prefix
    of the base, where the comments of the parsers do not allow one.  A literal out of range is
    reported as such.  The fast path for plain decimal numbers never gives an
    answer that the general path does not. *)
Theorem strtoint_accepts (w : Z) (s : list Z)
    (Hw : w = 16 \/ w = 32 \/ w = 64) (Hs : bytes s) :
  (forall n, pg_strtoint_safe w s = Value n <-> literal s n /\ INT_MIN w <= n <= INT_MAX w)
  /\ (forall n, literal s n -> ~ (INT_MIN w <= n <= INT_MAX w) -> pg_strtoint_safe w s = out_of_range)
  /\ (forall r, strtoint_fast w s = Some r -> strtoint_slow w (deref s =? 45) s = r).
Proof.
  assert (Hw8 : 8 <= w) by lia. rewrite pg_strtoint_slow by done.
  split; [|split].
  - intros n. rewrite <- in_range_spec. split.
    + apply strtoint_slow_sound; [done|by apply bytes_no_nul].
    + intros [Hl Hr]. rewrite (strtoint_slow_complete w Hw8 s n Hl). unfold answer. by rewrite Hr.
  - intros n Hl Hr. rewrite (strtoint_slow_complete w Hw8 s n Hl). unfold answer.
    destruct (in_range w n) eqn:E; [|done]. by apply in_range_spec in E.
  - intros r. by apply strtoint_fast_slow.
Qed.

Lemma strtoint_accepts_witness :
  pg_strtoint32_safe (codes " -0x7fff_ffff ") = Value (-2147483647).
Proof.
  destruct (strtoint_accepts 32 (codes " -0x7fff_ffff ")) as [H _];
    [by right; left|by repeat (constructor; [vm_compute; done|])|].
  apply H. split; [|vm_compute; done].
  apply (literal_intro [32] [45] (-1) [48; 120] 16 isxdigit hexval true
    (codes "7fff_ffff") 2147483647 [32]); try by repeat constructor.
Defined.
