(* ===== verification/NumutilsOutput.v ===== *)
(** Correctness of integer output: the printers write the shortest decimal text
    of every integer, inside the buffer their callers must provide, and the
    parsers read the same integer back. *)

From S2P Require Import Prelude BitUtils Numutils NumutilsProps.
Local Open Scope Z_scope.

(** ** Decimal text *)

(** The last [k] decimal digits of [v], zeros included. *)
Fixpoint digs (k : nat) (v : Z) : list Z :=
  match k with
  | O => []
  | S k => digs k (v / 10) ++ [48 + v mod 10]
  end.

(** The reference: the text of an integer, from the number of digits it needs. *)
Fixpoint ndigits (fuel : nat) (v : Z) : nat :=
  match fuel with
  | O => 1
  | S fuel => if v <? 10 then 1 else S (ndigits fuel (v / 10))
  end.
Definition decimal (v : Z) : list Z :=
  let u := Z.abs v in
  (if v <? 0 then [45] else []) ++ digs (ndigits 64 u) u.

Lemma length_digs k v : length (digs k v) = k.
Proof. revert v; induction k as [|k IH]; intros v; simpl; [done|]. rewrite length_app, IH. simpl. lia. Qed.

Lemma digs_add j i v : digs (j + i) v = digs j (v / 10 ^ Z.of_nat i) ++ digs i v.
Proof.
  revert v; induction i as [|i IH]; intros v.
  - by rewrite Nat.add_0_r, app_nil_r, Z.div_1_r.
  - rewrite Nat.add_succ_r. simpl digs at 1. rewrite IH, <- app_assoc. simpl digs at 3.
    rewrite Nat2Z.inj_succ, Z.pow_succ_r by lia. by rewrite Z.div_div by lia.
Qed.

(** Only the last digits count. *)
Lemma digs_mod k v : digs k (v mod 10 ^ Z.of_nat k) = digs k v.
Proof.
  revert v; induction k as [|k IH]; intros v; [done|]. simpl digs.
  rewrite Nat2Z.inj_succ, Z.pow_succ_r by lia.
  pose proof (Z.pow_pos_nonneg 10 (Z.of_nat k) ltac:(lia) ltac:(lia)) as Hp.
  rewrite Z.rem_mul_r by lia.
  replace ((v mod 10 + 10 * ((v / 10) mod 10 ^ Z.of_nat k)) / 10) with ((v / 10) mod 10 ^ Z.of_nat k)
    by (rewrite Z.mul_comm, Z.div_add, (Z.div_small (v mod 10)) by
          (try apply Z.mod_pos_bound; lia); lia).
  rewrite IH. do 2 f_equal. rewrite Z.mul_comm, Z.mod_add, Z.mod_mod by lia. done.
Qed.

Lemma digs_digits k v : Forall (fun c => 48 <= c <= 57) (digs k v).
Proof.
  revert v; induction k as [|k IH]; intros v; simpl; [constructor|].
  apply Forall_app. split; [apply IH|]. repeat constructor; pose proof (Z.mod_pos_bound v 10); lia.
Qed.

Lemma ndigits_pos fuel v : 1 <= Z.of_nat (ndigits fuel v).
Proof. destruct fuel; simpl; [lia|]. destruct (v <? 10); lia. Qed.

Lemma ndigits_spec fuel v :
  0 <= v < 10 ^ (Z.of_nat fuel + 1) ->
  (v < 10 -> ndigits fuel v = 1%nat)
  /\ (0 < v -> 10 ^ (Z.of_nat (ndigits fuel v) - 1) <= v < 10 ^ Z.of_nat (ndigits fuel v)).
Proof.
  revert v; induction fuel as [|fuel IH]; intros v Hv.
  - simpl in *. split; [done|]. intros. change (10 ^ (1 - 1)) with 1. lia.
  - simpl. destruct (Z.ltb_spec v 10); [split; [done|]; intros; change (10 ^ (Z.of_nat 1 - 1)) with 1; simpl; lia|].
    split; [lia|]. intros _.
    assert (Hq : 0 <= v / 10 < 10 ^ (Z.of_nat fuel + 1)).
    { split; [apply Z.div_pos; lia|]. apply Z.div_lt_upper_bound; [lia|].
      rewrite <- Z.pow_succ_r by lia. replace (Z.succ (Z.of_nat fuel + 1)) with (Z.of_nat (S fuel) + 1) by lia. lia. }
    assert (1 <= v / 10) by (apply Z.div_le_lower_bound; lia).
    destruct (IH _ Hq) as [_ IH2]. specialize (IH2 ltac:(lia)).
    set (m := Z.of_nat (ndigits fuel (v / 10))) in *.
    assert (Hm : 1 <= m) by apply ndigits_pos.
    replace (Z.of_nat (S (ndigits fuel (v / 10)))) with (Z.succ m) by lia.
    replace (Z.succ m - 1) with (Z.succ (m - 1)) by lia. rewrite !Z.pow_succ_r by lia.
    pose proof (Z.div_mod v 10). pose proof (Z.mod_pos_bound v 10). lia.
Qed.

(** The number of digits is determined by the powers of ten around the number. *)
Lemma digits_unique v m n :
  10 ^ (m - 1) <= v < 10 ^ m -> 10 ^ (n - 1) <= v < 10 ^ n -> 1 <= m -> 1 <= n -> m = n.
Proof.
  intros Hm Hn H1 H2. destruct (Z.lt_trichotomy m n) as [H|[H|H]]; [|done|].
  - pose proof (Z.pow_le_mono_r 10 m (n - 1) ltac:(lia) ltac:(lia)). lia.
  - pose proof (Z.pow_le_mono_r 10 n (m - 1) ltac:(lia) ltac:(lia)). lia.
Qed.

(** ** The number of digits *)

(** The estimate from the leading bit is one short at most. *)
Definition length_ok (tbl : list Z) (k : Z) : bool :=
  let t := (k + 1) * 1233 / 4096 in
  (0 <=? t) && (t <? Z.of_nat (length tbl)) && (rd tbl (Z.to_nat t) =? 10 ^ t)
  && (2 ^ (k + 1) <=? 10 ^ (t + 1)) && ((t =? 0) || (10 ^ (t - 1) <=? 2 ^ k)).

Lemma length_estimate tbl bits len v :
  Z.of_nat (length tbl) = len -> forallb (length_ok tbl) (seqZ 0 bits) = true -> 0 < v < 2 ^ bits ->
  let t := (Z.log2 v + 1) * 1233 / 4096 in
  let n := t + Z.b2z (rd tbl (Z.to_nat t) <=? v) in
  1 <= n <= len /\ 10 ^ (n - 1) <= v < 10 ^ n.
Proof.
  intros <- Hall Hv t n. pose proof (Z.log2_spec v ltac:(lia)) as Hl.
  assert (Hk : 0 <= Z.log2 v < bits) by (split; [apply Z.log2_nonneg|apply Z.log2_lt_pow2; lia]).
  assert (H : length_ok tbl (Z.log2 v) = true).
  { rewrite forallb_forall in Hall. apply Hall, list_elem_of_In, elem_of_seqZ. lia. }
  unfold length_ok in H. fold t in H. rewrite !andb_true_iff, orb_true_iff, !Z.leb_le, Z.ltb_lt, !Z.eqb_eq in H.
  destruct H as [[[[H1 H2] H3] H4] H5]. rewrite Z.add_1_r in H4. subst n. rewrite H3.
  destruct (Z.leb_spec (10 ^ t) v) as [Hle|Hgt]; simpl Z.b2z.
  - replace (t + 1 - 1) with t by lia. lia.
  - assert (t <> 0) by (intros E; rewrite E in Hgt; simpl in Hgt; lia).
    rewrite Z.add_0_r. destruct H5; lia.
Qed.

Lemma decimalLength32_spec v :
  0 < v < 2 ^ 32 -> 1 <= decimalLength32 v <= 10 /\ 10 ^ (decimalLength32 v - 1) <= v < 10 ^ decimalLength32 v.
Proof.
  intros Hv. unfold decimalLength32. rewrite pg_leftmost_one_pos32_log2 by done.
  eapply (length_estimate _ 32 10); [reflexivity|vm_compute; reflexivity|done].
Qed.

Lemma decimalLength64_spec v :
  0 < v < 2 ^ 64 -> 1 <= decimalLength64 v <= 20 /\ 10 ^ (decimalLength64 v - 1) <= v < 10 ^ decimalLength64 v.
Proof.
  intros Hv. unfold decimalLength64. rewrite pg_leftmost_one_pos64_log2 by done.
  eapply (length_estimate _ 64 20); [reflexivity|vm_compute; reflexivity|done].
Qed.

(** ** The buffer *)

Lemma digit_table x :
  0 <= x < 100 ->
  [rd DIGIT_TABLE (Z.to_nat (Z.shiftl x 1)); rd DIGIT_TABLE (Z.to_nat (Z.shiftl x 1 + 1))] = digs 2 x.
Proof.
  intros Hx. assert (H : Forall (fun x =>
    [rd DIGIT_TABLE (Z.to_nat (Z.shiftl x 1)); rd DIGIT_TABLE (Z.to_nat (Z.shiftl x 1 + 1))] = digs 2 x) (seqZ 0 100)).
  { repeat (apply Forall_cons; split; [vm_compute; reflexivity|]). apply Forall_nil_2. }
  rewrite Forall_forall in H. apply H, elem_of_seqZ. lia.
Qed.

Lemma put_digits_spec a pos k x p :
  0 <= x < 100 -> pos - k = Z.of_nat p -> (p + 2 <= length a)%nat ->
  put_digits a pos k (Z.shiftl x 1) = splice a p (digs 2 x).
Proof.
  intros Hx Hp Hl. unfold put_digits. rewrite Hp, Nat2Z.id, splice_after by done.
  by rewrite digit_table.
Qed.

(** ** Printing *)

Section printing.
Context (v0 : Z) (a0 : list Z).

(** [j] digits are written, from the end, and [m] are left. *)
Record printing (m j : nat) (value : Z) (a : list Z) : Prop := {
  print_left : (1 <= m)%nat;
  print_room : (m + j <= length a0)%nat;
  print_value : value = v0 / 10 ^ Z.of_nat j;
  print_range : 10 ^ (Z.of_nat m - 1) <= value < 10 ^ Z.of_nat m;
  print_buffer : a = splice a0 m (digs j v0)
}.

Lemma printing_length m j value a : printing m j value a -> length a = length a0.
Proof. intros [? ? ? ? ->]. apply length_splice. rewrite length_digs. lia. Qed.

Lemma printing_left m j value a k : printing m j value a -> 10 ^ Z.of_nat k <= value -> (k < m)%nat.
Proof.
  intros [? ? ? Hr ?] Hk. destruct (decide (k < m)%nat); [done|].
  pose proof (Z.pow_le_mono_r 10 (Z.of_nat m) (Z.of_nat k) ltac:(lia) ltac:(lia)). lia.
Qed.

(** A pair of digits more. *)
Lemma print_two m j value a pos k x :
  printing m j value a -> 100 <= value -> pos - k = Z.of_nat m - 2 -> x = value mod 100 ->
  printing (m - 2) (j + 2) (value / 100) (put_digits a pos k (Z.shiftl x 1)).
Proof.
  intros Hp H100 Hpos ->. pose proof (printing_left _ _ _ _ 2 Hp H100) as Hm.
  pose proof (printing_length _ _ _ _ Hp) as Hl. destruct Hp as [_ Hroom Hv Hr Ha].
  rewrite (put_digits_spec _ _ _ _ (m - 2)); [|apply Z.mod_pos_bound; lia|lia|lia].
  split; [lia|lia|..].
  - rewrite Hv, Nat2Z.inj_add, Z.pow_add_r, Z.div_div by lia. done.
  - replace (Z.of_nat (m - 2)) with (Z.of_nat m - 2) by lia.
    assert (E : forall e, 2 <= e -> 10 ^ e = 100 * 10 ^ (e - 2))
      by (intros e He; change 100 with (10 ^ 2); rewrite <- Z.pow_add_r by lia; f_equal; lia).
    rewrite (E (Z.of_nat m - 1)), (E (Z.of_nat m)) in Hr by lia.
    replace (Z.of_nat m - 2 - 1) with (Z.of_nat m - 1 - 2) by lia.
    split; [apply Z.div_le_lower_bound; lia|apply Z.div_lt_upper_bound; lia].
  - rewrite Ha. change (100) with (10 ^ Z.of_nat 2) at 1. rewrite digs_mod.
    replace m with (m - 2 + length (digs 2 value))%nat at 1 by (rewrite length_digs; lia).
    rewrite splice_before by (rewrite !length_digs; lia).
    rewrite Nat.add_comm, (digs_add 2 j v0), Hv. done.
Qed.

(** Four digits, as the two printers write them. *)
Lemma print_four m j value a pos k :
  printing m j value a -> 10000 <= value -> pos - k = Z.of_nat m - 2 ->
  printing (m - 4) (j + 4) (value / 10000)
    (put_digits (put_digits a pos k (Z.shiftl (value mod 10000 mod 100) 1))
       pos (k + 2) (Z.shiftl (value mod 10000 / 100) 1)).
Proof.
  intros Hp Hv Hpos. pose proof (printing_left _ _ _ _ 4 Hp Hv).
  assert (E1 : value mod 10000 mod 100 = value mod 100).
  { change 10000 with (100 * 100). rewrite Z.rem_mul_r, Z.mul_comm, Z.mod_add, Z.mod_mod by lia. done. }
  assert (E2 : value mod 10000 / 100 = (value / 100) mod 100).
  { change 10000 with (100 * 100). rewrite Z.rem_mul_r, Z.mul_comm, Z.div_add by lia.
    rewrite (Z.div_small (value mod 100)); [lia|apply Z.mod_pos_bound; lia]. }
  assert (H1 : printing (m - 2) (j + 2) (value / 100)
    (put_digits a pos k (Z.shiftl (value mod 10000 mod 100) 1))) by (apply print_two; lia || done).
  assert (100 <= value / 100) by (apply Z.div_le_lower_bound; lia).
  apply (print_two _ _ _ _ pos (k + 2) (value mod 10000 / 100)) in H1; [|done|lia|done].
  replace (m - 4)%nat with (m - 2 - 2)%nat by lia. replace (j + 4)%nat with (j + 2 + 2)%nat by lia.
  by replace (value / 10000) with (value / 100 / 100) by (rewrite Z.div_div by lia; done).
Qed.

(** Eight digits, as the 64-bit printer writes them. *)
Lemma print_eight m j value a n :
  printing m j value a -> 100000000 <= value -> n = Z.of_nat (m + j) ->
  let value3 := uwrap 32 (value - 100000000 * (value / 100000000)) in
  let pos := n - Z.of_nat j in
  printing (m - 8) (j + 8) (value / 100000000)
    (put_digits
       (put_digits
          (put_digits (put_digits a pos 2 (Z.shiftl (value3 mod 10000 mod 100) 1))
             pos 4 (Z.shiftl (value3 mod 10000 / 100) 1))
          pos 6 (Z.shiftl (value3 / 10000 mod 100) 1))
       pos 8 (Z.shiftl (value3 / 10000 / 100) 1)).
Proof.
  intros Hp Hv -> value3 pos. pose proof (printing_left _ _ _ _ 8 Hp Hv).
  assert (E3 : value3 = value mod 100000000).
  { subst value3. rewrite <- Z.mod_eq by lia. apply uwrap_small.
    pose proof (Z.mod_pos_bound value 100000000). unfold in_u. lia. }
  assert (Ec : value3 mod 10000 = value mod 10000).
  { rewrite E3. change 100000000 with (10000 * 10000).
    rewrite Z.rem_mul_r, Z.mul_comm, Z.mod_add, Z.mod_mod by lia. done. }
  assert (Ed : value3 / 10000 = (value / 10000) mod 10000).
  { rewrite E3. change 100000000 with (10000 * 10000). rewrite Z.rem_mul_r, Z.mul_comm, Z.div_add by lia.
    rewrite (Z.div_small (value mod 10000)); [lia|apply Z.mod_pos_bound; lia]. }
  rewrite Ec, Ed. clearbody value3. clear E3 Ec Ed.
  pose proof (print_four m j value a pos 2 Hp ltac:(lia) ltac:(lia)) as H1. change (2 + 2) with 4 in H1.
  assert (10000 <= value / 10000) by (apply Z.div_le_lower_bound; lia).
  apply (print_four _ _ _ _ pos 6) in H1; [|done|lia]. change (6 + 2) with 8 in H1.
  replace (m - 8)%nat with (m - 4 - 4)%nat by lia. replace (j + 8)%nat with (j + 4 + 4)%nat by lia.
  by replace (value / 100000000) with (value / 10000 / 10000) by (rewrite Z.div_div by lia; done).
Qed.

(** The last digits complete the text. *)
Lemma last_digits_spec m j value a :
  printing m j value a -> value < 10000 ->
  last_digits (Z.of_nat (m + j)) value (Z.of_nat j) a = splice a0 0 (digs (m + j) v0).
Proof.
  intros Hp Hlt. unfold last_digits.
  set (s := if 100 <=? value then _ else _).
  assert (exists m' j' value' a', s = (value', Z.of_nat j', a') /\ printing m' j' value' a'
    /\ value' < 100 /\ (m' + j' = m + j)%nat) as (m' & j' & v' & a' & -> & Hp' & Hlt' & <-).
  { subst s. destruct (Z.leb_spec 100 value).
    - exists (m - 2)%nat, (j + 2)%nat, (value / 100), (put_digits a (Z.of_nat (m + j) - Z.of_nat j) 2 (Z.shiftl (value mod 100) 1)).
      pose proof (printing_left _ _ _ _ 2 Hp ltac:(done)).
      split; [do 2 f_equal; lia|]. split; [apply print_two; lia || done|].
      split; [apply Z.div_lt_upper_bound; lia|lia].
    - by exists m, j, value, a. }
  clear Hp Hlt m j value a.
  pose proof (printing_length _ _ _ _ Hp') as Hl. pose proof Hp' as [Hm Hroom Hv Hr Ha].
  assert (Hx : forall x k, digs k v' = x -> length x = k -> (k = m')%nat -> splice a' 0 x = splice a0 0 (digs (m' + j') v0)).
  { intros x k <- Hlx ->. rewrite Ha. replace m' with (0 + length (digs m' v'))%nat at 1 by (rewrite length_digs; lia).
    rewrite splice_before by (rewrite !length_digs; lia). by rewrite digs_add, <- Hv. }
  destruct (Z.leb_spec 10 v') as [H10|H10].
  - assert (m' = 2%nat) as E.
    { pose proof (printing_left _ _ _ _ 1 Hp' H10). destruct (decide (3 <= m')%nat); [|lia].
      pose proof (Z.pow_le_mono_r 10 2 (Z.of_nat m' - 1) ltac:(lia) ltac:(lia)). lia. }
    assert (0 <= v') by lia.
    rewrite (put_digits_spec _ _ _ _ 0) by lia. by apply (Hx _ 2%nat).
  - assert (m' = 1%nat) as E.
    { destruct (decide (2 <= m')%nat); [|lia].
      pose proof (Z.pow_le_mono_r 10 1 (Z.of_nat m' - 1) ltac:(lia) ltac:(lia)). lia. }
    rewrite splice_insert by lia. apply (Hx _ 1%nat); [|done|done].
    rewrite E in Hr. simpl in Hr. simpl. by rewrite Z.mod_small by lia.
Qed.
End printing.

Lemma print_start v n a :
  1 <= n -> 10 ^ (n - 1) <= v < 10 ^ n -> n <= Z.of_nat (length a) -> printing v a (Z.to_nat n) 0 v a.
Proof.
  intros Hn Hv Hl. split; [lia|lia|by rewrite Z.div_1_r|by rewrite Z2Nat.id by lia|].
  unfold splice. simpl. by rewrite Nat.add_0_r, take_drop.
Qed.

(** The text of an unsigned number at the start of the buffer. *)
Lemma unsigned_text v n a :
  0 < v < 2 ^ 64 -> 1 <= n -> 10 ^ (n - 1) <= v < 10 ^ n ->
  splice a 0 (digs (Z.to_nat n) v) = decimal v ++ drop (length (decimal v)) a /\ n = Z.of_nat (length (decimal v)).
Proof.
  intros Hv Hn Hr. unfold decimal. rewrite Z.abs_eq by lia.
  destruct (Z.ltb_spec v 0); [lia|]. rewrite app_nil_l.
  assert (Hlt : v < 10 ^ (Z.of_nat 64 + 1))
    by (apply (Z.lt_trans _ (2 ^ 64)); [lia|vm_compute; reflexivity]).
  destruct (ndigits_spec 64 v (conj (Z.lt_le_incl _ _ (proj1 Hv)) Hlt)) as [_ Hd]. clear Hlt. specialize (Hd ltac:(lia)).
  pose proof (ndigits_pos 64 v).
  assert (n = Z.of_nat (ndigits 64 v)) as E by (eapply digits_unique; eauto).
  rewrite length_digs. split; [|done]. rewrite E, Nat2Z.id. unfold splice. by rewrite length_digs.
Qed.

Lemma zero_text a : (1 <= length a)%nat -> <[0%nat := 48]> a = decimal 0 ++ drop (length (decimal 0)) a.
Proof. intros H. destruct a as [|x a]; [simpl in H; lia|]. done. Qed.

Lemma pg_ultoa_n_spec v a :
  0 <= v < 2 ^ 32 -> (length (decimal v) <= length a)%nat ->
  pg_ultoa_n v a = Some (decimal v ++ drop (length (decimal v)) a, Z.of_nat (length (decimal v))).
Proof.
  intros Hv Hl. unfold pg_ultoa_n. destruct (Z.eqb_spec v 0) as [->|H0].
  { by rewrite zero_text. }
  destruct (decimalLength32_spec v ltac:(lia)) as [Hn Hr]. set (n := decimalLength32 v) in *.
  destruct (unsigned_text v n a) as [<- Hlen]; [lia|lia|done|]. rewrite <- Hlen.
  edestruct (while_total
    (fun s : Z * Z * list Z => let '(value, i, b) := s in
       exists m j, i = Z.of_nat j /\ n = Z.of_nat (m + j) /\ printing v a m j value b)
    (fun s : Z * Z * list Z => let '(value, i, b) := s in last_digits n value i b = splice a 0 (digs (Z.to_nat n) v))
    (fun s : Z * Z * list Z => let '(value, i, b) := s in Z.to_nat ((n - i) / 4))
    (ultoa_step n) 4 (v, 0, a)) as ([[value i] b] & -> & Hq).
  - exists (Z.to_nat n), 0%nat. split; [done|]. split; [lia|]. apply print_start; lia || done.
  - Z.to_euclidean_division_equations. lia.
  - intros [[value i] b] (m & j & -> & En & Hp). cbv beta iota zeta delta [ultoa_step].
    destruct (Z.leb_spec 10000 value) as [Hle|Hgt].
    + pose proof (printing_left _ _ _ _ _ _ 4 Hp Hle).
      rewrite <- Z.mod_eq by lia. split.
      * exists (m - 4)%nat, (j + 4)%nat. split; [lia|]. split; [lia|].
        apply (print_four v a m j value b _ 2); lia || done.
      * clear -En H. Z.to_euclidean_division_equations. lia.
    + rewrite En, Nat2Z.id. by apply last_digits_spec.
  - by rewrite Hq.
Qed.

Lemma pg_ulltoa_n_spec v a :
  0 <= v < 2 ^ 64 -> (length (decimal v) <= length a)%nat ->
  pg_ulltoa_n v a = Some (decimal v ++ drop (length (decimal v)) a, Z.of_nat (length (decimal v))).
Proof.
  intros Hv Hl. unfold pg_ulltoa_n. destruct (Z.eqb_spec v 0) as [->|H0].
  { by rewrite zero_text. }
  destruct (decimalLength64_spec v ltac:(lia)) as [Hn Hr]. set (n := decimalLength64 v) in *.
  destruct (unsigned_text v n a) as [<- Hlen]; [lia|lia|done|]. rewrite <- Hlen.
  edestruct (while_total
    (fun s : Z * Z * list Z => let '(value, i, b) := s in
       exists m j, i = Z.of_nat j /\ n = Z.of_nat (m + j) /\ printing v a m j value b)
    (fun s : Z * Z * list Z => let '(value, i, b) := s in
       value < 100000000 /\ exists m j, i = Z.of_nat j /\ n = Z.of_nat (m + j) /\ printing v a m j value b)
    (fun s : Z * Z * list Z => let '(value, i, b) := s in Z.to_nat ((n - i) / 8))
    (ulltoa_step n) 4 (v, 0, a)) as ([[value i] b] & -> & Hlt & m & j & -> & En & Hp).
  - exists (Z.to_nat n), 0%nat. split; [done|]. split; [lia|]. apply print_start; lia || done.
  - Z.to_euclidean_division_equations. lia.
  - intros [[value i] b] (m & j & -> & En & Hp). cbv beta iota zeta delta [ulltoa_step].
    destruct (Z.leb_spec 100000000 value) as [Hle|Hgt]; [|by eauto 10].
    pose proof (printing_left _ _ _ _ _ _ 8 Hp Hle). split.
    + exists (m - 8)%nat, (j + 8)%nat. split; [lia|]. split; [lia|]. by apply print_eight.
    + clear -En H. Z.to_euclidean_division_equations. lia.
  - assert (Hu : uwrap 32 value = value).
    { apply uwrap_small. destruct Hp as [_ _ _ ? _].
      pose proof (Z.pow_pos_nonneg 10 (Z.of_nat m - 1)). unfold in_u. lia. }
    rewrite Hu.
    destruct (Z.leb_spec 10000 value) as [Hle|Hgt].
    + pose proof (printing_left _ _ _ _ _ _ 4 Hp Hle). rewrite <- Z.mod_eq by lia.
      assert (Hf := print_four v a m j value b (n - Z.of_nat j) 2 Hp Hle ltac:(lia)).
      apply last_digits_spec in Hf; [|apply Z.div_lt_upper_bound; lia].
      replace (m - 4 + (j + 4))%nat with (m + j)%nat in Hf by lia.
      change (2 + 2) with 4 in Hf.
      rewrite En, Nat2Z.id in *. replace (Z.of_nat j + 4) with (Z.of_nat (j + 4)) by lia. by rewrite Hf.
    + rewrite En, Nat2Z.id. by rewrite (last_digits_spec v a).
Qed.

(** ** Signs, lengths and reading back *)

Lemma ndigits_le v k : (1 <= k)%nat -> 0 <= v < 10 ^ Z.of_nat k -> v < 2 ^ 64 -> (ndigits 64 v <= k)%nat.
Proof.
  intros Hk Hv H64. destruct (decide (v = 0)) as [->|H0]; [done|].
  assert (Hlt : v < 10 ^ (Z.of_nat 64 + 1))
    by (apply (Z.lt_trans _ (2 ^ 64)); [lia|vm_compute; reflexivity]).
  destruct (ndigits_spec 64 v (conj (proj1 Hv) Hlt)) as [_ Hd]. clear Hlt. specialize (Hd ltac:(lia)).
  set (m := ndigits 64 v) in *. clearbody m. destruct (decide (m <= k)%nat); [done|].
  pose proof (Z.pow_le_mono_r 10 (Z.of_nat k) (Z.of_nat m - 1) ltac:(lia) ltac:(lia)). lia.
Qed.

Lemma length_decimal v k :
  (1 <= k)%nat -> Z.abs v < 10 ^ Z.of_nat k -> Z.abs v < 2 ^ 64 ->
  (length (decimal v) <= k + if (v <? 0)%Z then 1 else 0)%nat.
Proof.
  intros Hk Hv H64. unfold decimal. rewrite length_app, length_digs.
  pose proof (ndigits_le (Z.abs v) k Hk ltac:(lia) H64). destruct (v <? 0); simpl length; lia.
Qed.

Lemma decimal_neg v : v < 0 -> decimal v = 45 :: decimal (- v).
Proof.
  intros Hv. unfold decimal. destruct (Z.ltb_spec v 0); [|lia]. destruct (Z.ltb_spec (- v) 0); [lia|].
  by rewrite Z.abs_opp.
Qed.

(** A text, the terminating zero and the rest of the buffer. *)
Definition printed (v : Z) (a : list Z) : option (list Z * Z) :=
  let l := decimal v in Some (l ++ 0 :: drop (S (length l)) a, Z.of_nat (length l)).

Lemma insert_after (l a : list Z) n :
  length l = n -> (n < length a)%nat -> <[n := 0]> (l ++ drop n a) = l ++ 0 :: drop (S n) a.
Proof.
  intros Hl Ha. subst n. destruct (drop (length l) a) as [|x r] eqn:E.
  { apply (f_equal length) in E. rewrite length_drop in E. simpl in E. lia. }
  replace (length l) with (length l + 0)%nat at 1 by lia. rewrite insert_app_r. simpl. do 2 f_equal.
  replace (S (length l)) with (length l + 1)%nat by lia. by rewrite <- drop_drop, E.
Qed.

Lemma with_sign_spec w print v a :
  1 <= w <= 64 -> INT_MIN w <= v <= INT_MAX w -> (length (decimal v) < length a)%nat ->
  (forall u b, 0 <= u < 2 ^ w -> (length (decimal u) <= length b)%nat ->
     print u b = Some (decimal u ++ drop (length (decimal u)) b, Z.of_nat (length (decimal u)))) ->
  with_sign w print v a = printed v a.
Proof.
  intros Hw Hv Hl Hprint. unfold with_sign, printed, INT_MIN, INT_MAX in *.
  assert (Hpow : 2 ^ w = 2 * 2 ^ (w - 1)) by (rewrite <- Z.pow_succ_r by lia; f_equal; lia).
  destruct (Z.ltb_spec v 0) as [Hneg|Hpos].
  - assert (Hu : uwrap w (0 - uwrap w v) = - v).
    { unfold uwrap. rewrite Zminus_mod_idemp_r, Z.sub_0_l. apply Z.mod_small. lia. }
    rewrite Hu. rewrite decimal_neg in * by done. destruct a as [|x a]; [simpl in Hl; lia|].
    simpl in Hl |- *. rewrite drop_0, Hprint by lia. f_equal. f_equal; [|lia].
    replace (Z.to_nat (1 + Z.of_nat (length (decimal (- v))))) with (S (length (decimal (- v)))) by lia.
    simpl. f_equal. rewrite insert_after by lia. done.
  - assert (Hu : uwrap w v = v) by (apply uwrap_small; unfold in_u; lia).
    rewrite Hu. change (Z.to_nat 0) with 0%nat. rewrite drop_0, Hprint by lia.
    rewrite take_0, app_nil_l, Z.add_0_l, Nat2Z.id.
    by rewrite insert_after by lia.
Qed.

Lemma numeral_digs k v lead acc :
  0 <= v -> numeral 10 isdigit decval lead acc (digs k v) (acc * 10 ^ Z.of_nat k + v mod 10 ^ Z.of_nat k).
Proof.
  intros Hv.
  assert (Happ : forall l lead acc u c, numeral 10 isdigit decval lead acc l u -> isdigit c = true ->
    numeral 10 isdigit decval lead acc (l ++ [c]) (u * 10 + decval c)).
  { intros l ld ac u c H Hc. induction H; simpl; constructor; try done; constructor. }
  revert v Hv; induction k as [|k IH]; intros v Hv.
  - simpl. rewrite Z.mod_1_r, Z.mul_1_r, Z.add_0_r. constructor.
  - specialize (IH (v / 10) ltac:(apply Z.div_pos; lia)).
    pose proof (Z.mod_pos_bound v 10 ltac:(lia)).
    apply (Happ _ _ _ _ (48 + v mod 10)) in IH; [|unfold isdigit; apply andb_true_iff; lia].
    simpl digs. unfold decval in IH. rewrite Nat2Z.inj_succ, Z.pow_succ_r, Z.rem_mul_r by
      (try apply Z.pow_nonzero; lia).
    set (p := 10 ^ Z.of_nat k) in *. set (q := v / 10 mod p) in *.
    by replace (acc * (10 * p) + (v mod 10 + 10 * q)) with ((acc * p + q) * 10 + (48 + v mod 10 - 48)) by lia.
Qed.

Lemma decimal_literal v : Z.abs v < 2 ^ 64 -> literal (decimal v) v.
Proof.
  intros Hv. set (u := Z.abs v). set (k := ndigits 64 u).
  assert (Hk : u mod 10 ^ Z.of_nat k = u).
  { apply Z.mod_small. subst k. destruct (decide (u = 0)) as [->|]; [done|].
    assert (Hlt : u < 10 ^ (Z.of_nat 64 + 1))
      by (apply (Z.lt_trans _ (2 ^ 64)); [lia|vm_compute; reflexivity]).
    destruct (ndigits_spec 64 u (conj (Z.abs_nonneg v) Hlt)) as [_ Hd]. clear Hlt.
    specialize (Hd ltac:(lia)). lia. }
  assert (Hbody : digs k u <> []).
  { intros E. apply (f_equal length) in E. rewrite length_digs in E. pose proof (ndigits_pos 64 u). simpl in E. lia. }
  pose proof (numeral_digs k u false 0 (Z.abs_nonneg v)) as Hnum. rewrite Z.mul_0_l, Z.add_0_l, Hk in Hnum.
  unfold decimal. fold u k.
  assert (Hgen : forall sg sgn, sign sg sgn -> literal (sg ++ digs k u) (sgn * u)).
  { intros sg sgn Hs. rewrite <- (app_nil_r (digs k u)).
    apply (literal_intro [] sg sgn [] 10 isdigit decval false (digs k u) u []); try done; constructor. }
  destruct (Z.ltb_spec v 0).
  - assert (Ev : v = -1 * u) by lia. rewrite Ev at 1. apply Hgen. constructor.
  - assert (Ev : v = 1 * u) by lia. rewrite Ev at 1. apply Hgen. constructor.
Qed.

Lemma decimal_read w v :
  8 <= w <= 64 -> INT_MIN w <= v <= INT_MAX w -> pg_strtoint_safe w (decimal v) = Value v.
Proof.
  intros Hw Hv.
  assert (H64 : 2 ^ (w - 1) <= 2 ^ 63) by (apply Z.pow_le_mono_r; lia).
  assert (Habs : Z.abs v < 2 ^ 64) by (unfold INT_MIN, INT_MAX in Hv; lia).
  rewrite pg_strtoint_slow; [|lia|].
  - rewrite (strtoint_slow_complete w ltac:(lia) _ v) by by apply decimal_literal.
    unfold answer. by rewrite (proj2 (in_range_spec w v) Hv).
  - unfold decimal, bytes. apply Forall_app. split; [destruct (v <? 0); by repeat constructor|].
    eapply Forall_impl; [apply digs_digits|]. simpl. lia.
Qed.

(** ** Zero padding *)

Lemma decimal_length32 v : 0 < v < 2 ^ 32 -> Z.of_nat (length (decimal v)) = decimalLength32 v.
Proof.
  intros Hv. destruct (decimalLength32_spec v Hv) as [Hn Hr].
  by destruct (unsigned_text v (decimalLength32 v) []) as [_ <-]; [lia|lia|done|].
Qed.

Lemma decimal_length64 v : 0 < v < 2 ^ 64 -> Z.of_nat (length (decimal v)) = decimalLength64 v.
Proof.
  intros Hv. destruct (decimalLength64_spec v Hv) as [Hn Hr].
  by destruct (unsigned_text v (decimalLength64 v) []) as [_ <-]; [lia|lia|done|].
Qed.

(** Two digits are two digits, padded or not. *)
Lemma two_digits v :
  0 <= v < 100 -> replicate (2 - length (decimal v)) 48 ++ decimal v = digs 2 v.
Proof.
  intros Hv. assert (H : Forall (fun v =>
    replicate (2 - length (decimal v)) 48 ++ decimal v = digs 2 v) (seqZ 0 100)).
  { repeat (apply Forall_cons; split; [vm_compute; reflexivity|]). apply Forall_nil_2. }
  rewrite Forall_forall in H. apply H, elem_of_seqZ. lia.
Qed.

Lemma zeropad_spec v minwidth str :
  0 <= v < 2 ^ 32 -> 0 < minwidth ->
  (length (decimal v) <= length str)%nat -> minwidth <= Z.of_nat (length str) ->
  let l := replicate (Z.to_nat minwidth - length (decimal v)) 48 ++ decimal v in
  pg_ultostr_zeropad str v minwidth = Some (l ++ drop (length l) str, Z.of_nat (length l)).
Proof.
  intros Hv Hm Hl Hw l. unfold pg_ultostr_zeropad.
  destruct (Z.ltb_spec v 100) as [H100|H100], (Z.eqb_spec minwidth 2) as [E2|E2]; simpl andb; cbv iota.
  { subst l. rewrite E2. change (Z.to_nat 2) with 2%nat. rewrite two_digits, length_digs by lia.
    replace (v * 2) with (Z.shiftl v 1) by (rewrite Z.shiftl_mul_pow2; lia).
    rewrite (put_digits_spec _ _ _ _ 0) by lia. unfold splice. by rewrite length_digs. }
  all: rewrite pg_ultoa_n_spec by done; subst l; destruct (Z.leb_spec minwidth (Z.of_nat (length (decimal v)))).
  all: try (replace (Z.to_nat minwidth - length (decimal v))%nat with 0%nat by lia; by rewrite app_nil_l).
  all: rewrite Nat2Z.id, take_app_length, drop_app_ge, drop_drop by lia.
  all: rewrite length_app, length_replicate, <- app_assoc; f_equal; f_equal; [f_equal; [f_equal; lia|f_equal; f_equal; lia]|lia].
Qed.

(** C12: integers survive printing and reading.  In buffers of the sizes the
    printers ask for (7, 12 and 21 characters), every smallint, integer and bigint
    is printed as its sign and its digits without leading zeros, followed by the
    terminating zero, with nothing after it touched; the length returned is that
    of the text; and the parser of the type reads the text back to the same
    integer. *)
Theorem int_text_roundtrip (v : Z) (a : list Z) :
  (INT_MIN 16 <= v <= INT_MAX 16 -> (7 <= length a)%nat ->
     pg_itoa v a = printed v a /\ pg_strtoint16_safe (decimal v) = Value v)
  /\ (INT_MIN 32 <= v <= INT_MAX 32 -> (12 <= length a)%nat ->
     pg_ltoa v a = printed v a /\ pg_strtoint32_safe (decimal v) = Value v)
  /\ (INT_MIN 64 <= v <= INT_MAX 64 -> (21 <= length a)%nat ->
     pg_lltoa v a = printed v a /\ pg_strtoint64_safe (decimal v) = Value v).
Proof.
  assert (Hlen : forall k, (1 <= k)%nat -> Z.abs v < 10 ^ Z.of_nat k -> Z.abs v < 2 ^ 64 ->
    (length (decimal v) <= S k)%nat).
  { intros k Hk H1 H2. pose proof (length_decimal v k Hk H1 H2). destruct (v <? 0); lia. }
  assert (H32 : INT_MIN 32 <= v <= INT_MAX 32 -> (length (decimal v) < length a)%nat -> pg_ltoa v a = printed v a)
    by (intros; apply with_sign_spec; [lia|done|done|exact pg_ultoa_n_spec]).
  unfold INT_MIN, INT_MAX in *. simpl Z.sub in *.
  split; [|split]; intros Hv Ha; (split; [|apply decimal_read; [lia|done]]).
  - apply H32; [lia|]. pose proof (Hlen 5%nat ltac:(lia) ltac:(lia) ltac:(lia)). lia.
  - apply H32; [lia|]. pose proof (Hlen 10%nat ltac:(lia) ltac:(lia) ltac:(lia)). lia.
  - apply with_sign_spec; [lia|done| |exact pg_ulltoa_n_spec].
    pose proof (Hlen 19%nat ltac:(lia) ltac:(lia) ltac:(lia)). lia.
Qed.

Lemma int_text_roundtrip_witness :
  pg_strtoint64_safe (codes "-9223372036854775808") = Value (INT_MIN 64)
  /\ pg_lltoa (INT_MIN 64) (replicate 21 1) = Some (codes "-9223372036854775808" ++ [0], 20).
Proof.
  destruct (int_text_roundtrip (INT_MIN 64) (replicate 21 1)) as (_ & _ & H).
  destruct H as [Hp Hr]; [vm_compute; split; discriminate|vm_compute; repeat constructor|].
  split; [exact Hr|rewrite Hp; reflexivity].
Defined.

(** Bounds of unsigned output.  The number of digits is computed exactly from
    the position of the leading bit and one comparison: it is at most 10 for 32-bit
    and 20 for 64-bit numbers, and buffers of that size are never overrun.  Zero
    padding fills up to the width asked for, and never cuts the number. *)
Theorem unsigned_output_bounds (v : Z) (a : list Z) (Hv : 0 < v < 2 ^ 64) :
  (decimalLength64 v <= 20 /\ 10 ^ (decimalLength64 v - 1) <= v < 10 ^ decimalLength64 v)
  /\ ((20 <= length a)%nat ->
      pg_ulltoa_n v a = Some (decimal v ++ drop (length (decimal v)) a, decimalLength64 v))
  /\ (v < 2 ^ 32 ->
      decimalLength32 v = decimalLength64 v /\ decimalLength32 v <= 10
      /\ ((10 <= length a)%nat ->
          pg_ultoa_n v a = Some (decimal v ++ drop (length (decimal v)) a, decimalLength32 v)
          /\ forall minwidth, 0 < minwidth <= Z.of_nat (length a) ->
               let l := replicate (Z.to_nat (minwidth - decimalLength32 v)) 48 ++ decimal v in
               pg_ultostr_zeropad a v minwidth
               = Some (l ++ drop (length l) a, Z.max minwidth (decimalLength32 v)))).
Proof.
  pose proof (decimalLength64_spec v Hv) as [H1 H2]. pose proof (decimal_length64 v Hv) as El.
  split; [lia|]. split; [intros Ha; rewrite <- El; apply pg_ulltoa_n_spec; lia|].
  intros H32. pose proof (decimalLength32_spec v ltac:(lia)) as [H3 H4].
  pose proof (decimal_length32 v ltac:(lia)) as El'.
  split; [lia|]. split; [lia|]. intros Ha. split; [rewrite <- El'; apply pg_ultoa_n_spec; lia|].
  intros minwidth Hm l. pose proof (zeropad_spec v minwidth a ltac:(lia) ltac:(lia) ltac:(lia) ltac:(lia)) as Hz.
  cbv zeta in Hz. rewrite Hz. subst l.
  replace (Z.to_nat (minwidth - decimalLength32 v)) with (Z.to_nat minwidth - length (decimal v))%nat by lia.
  do 2 f_equal. rewrite length_app, length_replicate. lia.
Qed.

Lemma unsigned_output_bounds_witness :
  pg_ultostr_zeropad (replicate 12 1) 4294967295 12 = Some (codes "004294967295", 12).
Proof.
  destruct (unsigned_output_bounds 4294967295 (replicate 12 1)) as (_ & _ & H); [vm_compute; done|].
  destruct H as (_ & _ & H); [vm_compute; done|]. destruct H as [_ H]; [vm_compute; repeat constructor|].
  rewrite H by (vm_compute; split; [reflexivity|discriminate]). reflexivity.
Defined.
