(* ===== verification/LWLock.v ===== *)
(** Lightweight locks: backend/storage/lmgr/lwlock.c and include/storage/lwlock.h.

    One lock, shared by processes that run the code of lwlock.c on it.  The state
    of the system is the lock word, the wait queue, the variable protected by the
    lock and, for each process, what its PGPROC holds and the point [pc] of the
    code that it is at, with its local variables.  [run] executes one process up
    to and including its next access to shared memory: each atomic operation and
    each semaphore operation is a step of its own, and so is each block of plain
    accesses to what the lock's own spin lock (LW_FLAG_LOCKED) protects.  Steps of
    different processes interleave in any order. *)

From S2P Require Import Prelude.
Local Open Scope Z_scope.

(** ** The lock word *)

Definition LW_FLAG_HAS_WAITERS : Z := Z.shiftl 1 30.
Definition LW_FLAG_RELEASE_OK : Z := Z.shiftl 1 29.
Definition LW_FLAG_LOCKED : Z := Z.shiftl 1 28.
Definition LW_VAL_EXCLUSIVE : Z := Z.shiftl 1 24.
Definition LW_VAL_SHARED : Z := 1.
Definition LW_LOCK_MASK : Z := Z.shiftl 1 25 - 1.
Definition MAX_BACKENDS : Z := 0x3FFFF.
Definition MAX_SIMUL_LWLOCKS : nat := 200.

Inductive LWLockMode : Set := LW_EXCLUSIVE | LW_SHARED | LW_WAIT_UNTIL_FREE.
Inductive LWLockWaitState : Set := LW_WS_NOT_WAITING | LW_WS_WAITING | LW_WS_PENDING_WAKEUP.

#[export] Instance LWLockMode_eq_dec : EqDecision LWLockMode.
Proof. solve_decision. Defined.
#[export] Instance LWLockWaitState_eq_dec : EqDecision LWLockWaitState.
Proof. solve_decision. Defined.

(** [state & flag] as a condition *)
Definition has (state flag : Z) : bool := negb (Z.land state flag =? 0).
Definition clear (state flag : Z) : Z := Z.land state (unot 32 flag).

(** The amount a mode adds to the word. *)
Definition lock_val (mode : LWLockMode) : Z :=
  match mode with LW_EXCLUSIVE => LW_VAL_EXCLUSIVE | _ => LW_VAL_SHARED end.

(** One round of [LWLockAttemptLock]: whether the lock is free for the mode, and
    the word wanted. *)
Definition attempt (mode : LWLockMode) (old_state : Z) : bool * Z :=
  let lock_free :=
    match mode with
    | LW_EXCLUSIVE => Z.land old_state LW_LOCK_MASK =? 0
    | _ => Z.land old_state LW_VAL_EXCLUSIVE =? 0
    end in
  (lock_free, if lock_free then uwrap 32 (old_state + lock_val mode) else old_state).

(** ** Processes *)

(** The calls that may have to wait. *)
Inductive call : Set :=
| Acquire (mode : LWLockMode)
| ConditionalAcquire (mode : LWLockMode)
| AcquireOrWait (mode : LWLockMode)
| WaitForVar (oldval : Z).

(** The local variables of such a call. *)
Record frame : Set := mk_frame { f_call : call; extraWaits : nat; result : bool }.

(** What a process does with the wait queue once it has locked it. *)
Inductive section : Set :=
| SQueue (fr : frame)
| SDequeue (fr : frame)
| SWakeup
| SVar (fr : frame) (second : bool)
| SUpdate (val : Z)
| SClear (val : Z).

Inductive pc : Set :=
| Idle
(* LWLockAttemptLock; the second one is that after queueing *)
| AttemptRead (fr : frame) (second : bool)
| AttemptCas (fr : frame) (second : bool) (old_state : Z)
(* LWLockWaitListLock: the test-and-set, and the reads while it spins *)
| ListLock (k : section) (spin : bool)
(* LWLockQueueSelf *)
| QueueTest (fr : frame)
| QueueFlag (fr : frame)
| QueuePush (fr : frame)
| QueueUnlock (fr : frame)
(* LWLockDequeueSelf *)
| DequeueDelete (fr : frame)
| DequeueCheck (fr : frame) (on_waitlist : bool)
| DequeueClear (fr : frame) (on_waitlist : bool)
| DequeueUnlock (fr : frame) (on_waitlist : bool)
| DequeueDone (fr : frame) (on_waitlist : bool)
| DequeueSleep (fr : frame) (extra : nat)
(* waiting on the semaphore, and what follows *)
| Sleep (fr : frame)
| Awakened (fr : frame)
| Finish (fr : frame) (acquired : bool)
(* LWLockConflictsWithVar and the rest of LWLockWaitForVar *)
| VarRead (fr : frame) (second : bool)
| VarValue (fr : frame) (second : bool)
| VarUnlock (fr : frame) (second : bool) (value : Z)
| VarReleaseOk (fr : frame)
(* LWLockUpdateVar, LWLockReleaseClearVar *)
| UpdateScan (val : Z)
| UpdateUnlock (wakeup : list nat)
| ClearSet (val : Z)
| ClearUnlock
(* LWLockRelease and LWLockWakeup *)
| ReleaseSub (mode : LWLockMode)
| WakeScan
| WakeRead (wakeup : list nat) (new_release_ok : bool)
| WakeCas (wakeup : list nat) (new_release_ok : bool) (old_state : Z)
| WakeSet (wakeup : list nat)
| WakePost (w : nat) (wakeup : list nat)
(* elog(PANIC) *)
| Panic.

(** The part of PGPROC that locks use, and the locks held; the lock under study is
    the lock number 0. *)
Record proc : Set := mk_proc {
  p_pc : pc;
  lwWaiting : LWLockWaitState;
  lwWaitMode : LWLockMode;
  sem : nat;
  held_lwlocks : list (nat * LWLockMode);
  retval : bool;
  newval : Z
}.

Definition set_pc (a : pc) (p : proc) : proc :=
  mk_proc a (lwWaiting p) (lwWaitMode p) (sem p) (held_lwlocks p) (retval p) (newval p).
Definition set_waiting (w : LWLockWaitState) (p : proc) : proc :=
  mk_proc (p_pc p) w (lwWaitMode p) (sem p) (held_lwlocks p) (retval p) (newval p).
Definition set_sem (n : nat) (p : proc) : proc :=
  mk_proc (p_pc p) (lwWaiting p) (lwWaitMode p) n (held_lwlocks p) (retval p) (newval p).
Definition set_held (h : list (nat * LWLockMode)) (p : proc) : proc :=
  mk_proc (p_pc p) (lwWaiting p) (lwWaitMode p) (sem p) h (retval p) (newval p).

(** The state of the system. *)
Record sys : Type := mk_sys {
  state : Z;
  waiters : list nat;
  var : Z;
  procs : nat -> proc
}.

Definition upd (f : nat -> proc) (i : nat) (p : proc) : nat -> proc :=
  fun j => if decide (j = i) then p else f j.

Definition with_state (x : Z) (s : sys) : sys := mk_sys x (waiters s) (var s) (procs s).
Definition with_waiters (l : list nat) (s : sys) : sys := mk_sys (state s) l (var s) (procs s).
Definition with_var (v : Z) (s : sys) : sys := mk_sys (state s) (waiters s) v (procs s).
Definition with_proc (i : nat) (p : proc) (s : sys) : sys :=
  mk_sys (state s) (waiters s) (var s) (upd (procs s) i p).
Definition goto (me : nat) (a : pc) (s : sys) : sys := with_proc me (set_pc a (procs s me)) s.

(** LWLockInitialize *)
Definition LWLockInitialize (v : Z) : sys :=
  mk_sys LW_FLAG_RELEASE_OK [] v
    (fun _ => mk_proc Idle LW_WS_NOT_WAITING LW_EXCLUSIVE 0 [] false 0).

(** ** The locks held *)

Definition LWLockHeldByMe (lock : nat) (held : list (nat * LWLockMode)) : bool :=
  existsb (fun h => fst h =? lock)%nat held.
Definition LWLockHeldByMeInMode (lock : nat) (mode : LWLockMode) (held : list (nat * LWLockMode)) : bool :=
  existsb (fun h => (fst h =? lock)%nat && bool_decide (snd h = mode)) held.

(** The search of [LWLockRelease] from the end of the array, and the removal. *)
Fixpoint last_held (lock : nat) (held : list (nat * LWLockMode)) : option (LWLockMode * list (nat * LWLockMode)) :=
  match held with
  | [] => None
  | h :: held' =>
      match last_held lock held' with
      | Some (mode, rest) => Some (mode, h :: rest)
      | None => if (fst h =? lock)%nat then Some (snd h, held') else None
      end
  end.

(** ** The code *)

Definition call_mode (c : call) : LWLockMode :=
  match c with
  | Acquire mode | ConditionalAcquire mode | AcquireOrWait mode => mode
  | WaitForVar _ => LW_WAIT_UNTIL_FREE
  end.

(** The mode a call queues itself with. *)
Definition wait_mode (c : call) : LWLockMode :=
  match c with Acquire mode => mode | _ => LW_WAIT_UNTIL_FREE end.

(** Where each section of the wait queue begins. *)
Definition enter (k : section) : pc :=
  match k with
  | SQueue fr => QueueFlag fr
  | SDequeue fr => DequeueDelete fr
  | SWakeup => WakeScan
  | SVar fr second => VarValue fr second
  | SUpdate val => UpdateScan val
  | SClear val => ClearSet val
  end.

(** The loop of [LWLockWakeup] over the wait queue: who is taken off, who stays, and
    new_release_ok. *)
Fixpoint wakeup_scan (mode_of : nat -> LWLockMode) (wokeup_somebody : bool) (l : list nat)
  : list nat * list nat * bool :=
  match l with
  | [] => ([], [], true)
  | w :: l' =>
      if wokeup_somebody && bool_decide (mode_of w = LW_EXCLUSIVE) then
        let '(wk, rest, ok) := wakeup_scan mode_of wokeup_somebody l' in (wk, w :: rest, ok)
      else
        let until_free := bool_decide (mode_of w = LW_WAIT_UNTIL_FREE) in
        if bool_decide (mode_of w = LW_EXCLUSIVE) then ([w], l', false)
        else
          let '(wk, rest, ok) := wakeup_scan mode_of (wokeup_somebody || negb until_free) l' in
          (w :: wk, rest, until_free && ok)
  end.

(** The loop of [LWLockUpdateVar]. *)
Fixpoint update_scan (mode_of : nat -> LWLockMode) (l : list nat) : list nat * list nat :=
  match l with
  | [] => ([], [])
  | w :: l' =>
      if negb (bool_decide (mode_of w = LW_WAIT_UNTIL_FREE)) then ([], l)
      else let '(wk, rest) := update_scan mode_of l' in (w :: wk, rest)
  end.

(** [lwWaiting = LW_WS_PENDING_WAKEUP] for those taken off. *)
Definition mark_pending (wk : list nat) (f : nat -> proc) : nat -> proc :=
  fun i => if decide (i ∈ wk) then set_waiting LW_WS_PENDING_WAKEUP (f i) else f i.

(** Where a call goes on after its attempt to take the lock. *)
Definition after_attempt (fr : frame) (second mustwait : bool) : pc :=
  if negb mustwait then (if second then ListLock (SDequeue fr) false else Finish fr true)
  else if second then Sleep fr
  else
    match f_call fr with
    | ConditionalAcquire _ => Finish fr false
    | _ => QueueTest fr
    end.

(** Where [LWLockWaitForVar] goes on after [LWLockConflictsWithVar]. *)
Definition after_var (fr : frame) (second mustwait : bool) : pc :=
  if negb mustwait then (if second then ListLock (SDequeue fr) false else Finish fr false)
  else if second then Sleep fr
  else QueueTest fr.

Definition with_result (r : bool) (fr : frame) : frame :=
  mk_frame (f_call fr) (extraWaits fr) r.
Definition one_more_wait (fr : frame) : frame :=
  mk_frame (f_call fr) (S (extraWaits fr)) (result fr).

(** Where a call goes on when it has been woken. *)
Definition after_sleep (fr : frame) : pc :=
  match f_call fr with
  | Acquire _ => Awakened fr
  | WaitForVar _ => VarRead fr false
  | _ => Finish fr false
  end.

(** Whether a call that has taken itself off the queue has the lock. *)
Definition dequeued (fr : frame) : pc :=
  Finish fr (match f_call fr with WaitForVar _ => false | _ => true end).

Definition desired_after_wakeup (wakeup : list nat) (new_release_ok : bool) (old_state : Z) : Z :=
  let desired_state := old_state in
  let desired_state :=
    if new_release_ok then Z.lor desired_state LW_FLAG_RELEASE_OK
    else clear desired_state LW_FLAG_RELEASE_OK in
  let desired_state :=
    match wakeup with [] => clear desired_state LW_FLAG_HAS_WAITERS | _ => desired_state end in
  clear desired_state LW_FLAG_LOCKED.

(** The test of [LWLockRelease] on the word after the subtraction. *)
Definition check_waiters (oldstate : Z) : bool :=
  let both := Z.lor LW_FLAG_HAS_WAITERS LW_FLAG_RELEASE_OK in
  (Z.land oldstate both =? both) && (Z.land oldstate LW_LOCK_MASK =? 0).

(** [LWLockRelease] up to its atomic operation. *)
Definition release_held (me : nat) (s : sys) : res sys :=
  match last_held 0 (held_lwlocks (procs s me)) with
  | None => Err "lock is not held"
  | Some (mode, rest) =>
      Ok (with_proc me (set_pc (ReleaseSub mode) (set_held rest (procs s me))) s)
  end.

(** [LWLockWaitListUnlock] *)
Definition LWLockWaitListUnlock (s : sys) : sys := with_state (clear (state s) LW_FLAG_LOCKED) s.

(** *** The functions, each at the places that belong to it *)

(** One round of [LWLockAttemptLock]. *)
Definition LWLockAttemptLock (me : nat) (a : pc) (s : sys) : option sys :=
  match a with
  | AttemptRead fr second => Some (goto me (AttemptCas fr second (state s)) s)
  | AttemptCas fr second old_state =>
      let '(lock_free, desired_state) := attempt (call_mode (f_call fr)) old_state in
      if state s =? old_state
      then Some (goto me (after_attempt fr second (negb lock_free)) (with_state desired_state s))
      else Some (goto me (AttemptCas fr second (state s)) s)
  | _ => None
  end.

(** The spin lock of the wait queue. *)
Definition LWLockWaitListLock (me : nat) (a : pc) (s : sys) : option sys :=
  match a with
  | ListLock k spin =>
      if spin then
        if has (state s) LW_FLAG_LOCKED then Some s else Some (goto me (ListLock k false) s)
      else
        let s' := with_state (Z.lor (state s) LW_FLAG_LOCKED) s in
        if has (state s) LW_FLAG_LOCKED then Some (goto me (ListLock k true) s')
        else Some (goto me (enter k) s')
  | _ => None
  end.

(** A process that waits has a PGPROC; that there is none ([MyProc == NULL], another PANIC)
    is not a state of the model. *)
Definition LWLockQueueSelf (me : nat) (a : pc) (s : sys) : option sys :=
  let p := procs s me in
  match a with
  | QueueTest fr =>
      if negb (bool_decide (lwWaiting p = LW_WS_NOT_WAITING)) then Some (goto me Panic s)
      else Some (goto me (ListLock (SQueue fr) false) s)
  | QueueFlag fr =>
      Some (goto me (QueuePush fr) (with_state (Z.lor (state s) LW_FLAG_HAS_WAITERS) s))
  | QueuePush fr =>
      let mode := wait_mode (f_call fr) in
      let p := mk_proc (QueueUnlock fr) LW_WS_WAITING mode (sem p) (held_lwlocks p) (retval p) (newval p) in
      let l := if bool_decide (mode = LW_WAIT_UNTIL_FREE) then me :: waiters s else waiters s ++ [me] in
      Some (with_proc me p (with_waiters l s))
  | QueueUnlock fr =>
      let next := match f_call fr with WaitForVar _ => VarReleaseOk fr | _ => AttemptRead fr true end in
      Some (goto me next (LWLockWaitListUnlock s))
  | _ => None
  end.

Definition LWLockDequeueSelf (me : nat) (a : pc) (s : sys) : option sys :=
  let p := procs s me in
  match a with
  | DequeueDelete fr =>
      let on_waitlist := bool_decide (lwWaiting p = LW_WS_WAITING) in
      let l := if on_waitlist then filter (fun i => i <> me) (waiters s) else waiters s in
      Some (goto me (DequeueCheck fr on_waitlist) (with_waiters l s))
  | DequeueCheck fr on_waitlist =>
      if match waiters s with [] => has (state s) LW_FLAG_HAS_WAITERS | _ => false end
      then Some (goto me (DequeueClear fr on_waitlist) s)
      else Some (goto me (DequeueUnlock fr on_waitlist) s)
  | DequeueClear fr on_waitlist =>
      Some (goto me (DequeueUnlock fr on_waitlist) (with_state (clear (state s) LW_FLAG_HAS_WAITERS) s))
  | DequeueUnlock fr on_waitlist =>
      Some (goto me (DequeueDone fr on_waitlist) (LWLockWaitListUnlock s))
  | DequeueDone fr on_waitlist =>
      if on_waitlist
      then Some (with_proc me (set_pc (dequeued fr) (set_waiting LW_WS_NOT_WAITING p)) s)
      else Some (goto me (DequeueSleep fr 0) (with_state (Z.lor (state s) LW_FLAG_RELEASE_OK) s))
  | DequeueSleep fr extra =>
      match sem p with
      | O => None
      | S n =>
          if bool_decide (lwWaiting p = LW_WS_NOT_WAITING)
          then Some (with_proc me (set_pc (dequeued fr) (set_sem (n + extra) p)) s)
          else Some (with_proc me (set_pc (DequeueSleep fr (S extra)) (set_sem n p)) s)
      end
  | _ => None
  end.

(** The sleep on the semaphore, common to the calls that wait, and what they do
    afterwards. *)
Definition LWLockWait (me : nat) (a : pc) (s : sys) : option sys :=
  let p := procs s me in
  match a with
  | Sleep fr =>
      match sem p with
      | O => None
      | S n =>
          if bool_decide (lwWaiting p = LW_WS_NOT_WAITING)
          then Some (with_proc me (set_pc (after_sleep fr) (set_sem n p)) s)
          else Some (with_proc me (set_pc (Sleep (one_more_wait fr)) (set_sem n p)) s)
      end
  | Awakened fr =>
      Some (goto me (AttemptRead (with_result false fr) false)
        (with_state (Z.lor (state s) LW_FLAG_RELEASE_OK) s))
  | Finish fr acquired =>
      let held := if acquired then held_lwlocks p ++ [(0%nat, call_mode (f_call fr))] else held_lwlocks p in
      let ret := match f_call fr with Acquire _ | WaitForVar _ => result fr | _ => acquired end in
      Some (with_proc me
        (mk_proc Idle (lwWaiting p) (lwWaitMode p) (sem p + extraWaits fr) held ret (newval p)) s)
  | _ => None
  end.

Definition LWLockConflictsWithVar (me : nat) (a : pc) (s : sys) : option sys :=
  let p := procs s me in
  match a with
  | VarRead fr second =>
      if has (state s) LW_VAL_EXCLUSIVE
      then Some (goto me (ListLock (SVar (with_result false fr) second) false) s)
      else Some (goto me (after_var (with_result true fr) second false) s)
  | VarValue fr second => Some (goto me (VarUnlock fr second (var s)) s)
  | VarUnlock fr second value =>
      let s' := LWLockWaitListUnlock s in
      if match f_call fr with WaitForVar oldval => negb (value =? oldval) | _ => false end
      then
        let p := mk_proc (after_var fr second false) (lwWaiting p) (lwWaitMode p) (sem p)
                   (held_lwlocks p) (retval p) value in
        Some (with_proc me p s')
      else Some (goto me (after_var fr second true) s')
  | _ => None
  end.

Definition LWLockUpdateVar (me : nat) (a : pc) (s : sys) : option sys :=
  match a with
  | UpdateScan val =>
      let '(wk, rest) := update_scan (fun i => lwWaitMode (procs s i)) (waiters s) in
      Some (goto me (UpdateUnlock wk) (mk_sys (state s) rest val (mark_pending wk (procs s))))
  | UpdateUnlock wk => Some (goto me (WakeSet wk) (LWLockWaitListUnlock s))
  | _ => None
  end.

Definition LWLockReleaseClearVar (me : nat) (a : pc) (s : sys) : option sys :=
  match a with
  | ClearSet val => Some (goto me ClearUnlock (with_var val s))
  | ClearUnlock =>
      let s' := LWLockWaitListUnlock s in
      match release_held me s' with Ok s'' => Some s'' | Err _ => Some (goto me Idle s') end
  | _ => None
  end.

(** The atomic operation of [LWLockRelease]. *)
Definition LWLockRelease (me : nat) (a : pc) (s : sys) : option sys :=
  match a with
  | ReleaseSub mode =>
      let oldstate := uwrap 32 (state s - lock_val mode) in
      let next := if check_waiters oldstate then ListLock SWakeup false else Idle in
      Some (goto me next (with_state oldstate s))
  | _ => None
  end.

Definition LWLockWakeup (me : nat) (a : pc) (s : sys) : option sys :=
  match a with
  | WakeScan =>
      let '(wk, rest, ok) := wakeup_scan (fun i => lwWaitMode (procs s i)) false (waiters s) in
      Some (goto me (WakeRead wk ok) (mk_sys (state s) rest (var s) (mark_pending wk (procs s))))
  | WakeRead wk ok => Some (goto me (WakeCas wk ok (state s)) s)
  | WakeCas wk ok old_state =>
      if state s =? old_state
      then Some (goto me (WakeSet wk) (with_state (desired_after_wakeup wk ok old_state) s))
      else Some (goto me (WakeCas wk ok (state s)) s)
  | WakeSet [] => Some (goto me Idle s)
  | WakeSet (w :: wk) =>
      let s' := with_proc w (set_waiting LW_WS_NOT_WAITING (procs s w)) s in
      Some (goto me (WakePost w wk) s')
  | WakePost w wk =>
      let s' := with_proc w (set_sem (S (sem (procs s w))) (procs s w)) s in
      Some (goto me (WakeSet wk) s')
  | _ => None
  end.

(** The flag that [LWLockWaitForVar] sets once it is queued. *)
Definition LWLockWaitForVar (me : nat) (fr : frame) (s : sys) : sys :=
  goto me (VarRead fr true) (with_state (Z.lor (state s) LW_FLAG_RELEASE_OK) s).

(** One step of a process; [None] if it is not running, or sleeps on its
    semaphore. *)
Definition run (me : nat) (s : sys) : option sys :=
  let a := p_pc (procs s me) in
  match a with
  | Idle | Panic => None
  | AttemptRead _ _ | AttemptCas _ _ _ => LWLockAttemptLock me a s
  | ListLock _ _ => LWLockWaitListLock me a s
  | QueueTest _ | QueueFlag _ | QueuePush _ | QueueUnlock _ => LWLockQueueSelf me a s
  | DequeueDelete _ | DequeueCheck _ _ | DequeueClear _ _ | DequeueUnlock _ _ | DequeueDone _ _
  | DequeueSleep _ _ => LWLockDequeueSelf me a s
  | Sleep _ | Awakened _ | Finish _ _ => LWLockWait me a s
  | VarRead _ _ | VarValue _ _ | VarUnlock _ _ _ => LWLockConflictsWithVar me a s
  | UpdateScan _ | UpdateUnlock _ => LWLockUpdateVar me a s
  | ClearSet _ | ClearUnlock => LWLockReleaseClearVar me a s
  | ReleaseSub _ => LWLockRelease me a s
  | WakeScan | WakeRead _ _ | WakeCas _ _ _ | WakeSet _ | WakePost _ _ => LWLockWakeup me a s
  | VarReleaseOk fr => Some (LWLockWaitForVar me fr s)
  end.

(** ** Calls *)

Inductive request : Set :=
| Call (c : call)
| Release
| UpdateVar (val : Z)
| ReleaseClearVar (val : Z).

(** The beginning of each function, up to its first access to shared memory. *)
Definition begin_acquire (me : nat) (c : call) (result : bool) (s : sys) : res sys :=
  if (MAX_SIMUL_LWLOCKS <=? length (held_lwlocks (procs s me)))%nat then Err "too many LWLocks taken"
  else Ok (goto me (AttemptRead (mk_frame c 0 result) false) s).

Definition LWLockAcquire (me : nat) (mode : LWLockMode) : sys -> res sys := begin_acquire me (Acquire mode) true.
Definition LWLockConditionalAcquire (me : nat) (mode : LWLockMode) : sys -> res sys :=
  begin_acquire me (ConditionalAcquire mode) false.
Definition LWLockAcquireOrWait (me : nat) (mode : LWLockMode) : sys -> res sys :=
  begin_acquire me (AcquireOrWait mode) false.

Definition start (me : nat) (r : request) (s : sys) : res sys :=
  match r with
  | Call (WaitForVar oldval) =>
      Ok (goto me (VarRead (mk_frame (WaitForVar oldval) 0 false) false) s)
  | Call (Acquire mode) => LWLockAcquire me mode s
  | Call (ConditionalAcquire mode) => LWLockConditionalAcquire me mode s
  | Call (AcquireOrWait mode) => LWLockAcquireOrWait me mode s
  | Release => release_held me s
  | UpdateVar val => Ok (goto me (ListLock (SUpdate val) false) s)
  | ReleaseClearVar val => Ok (goto me (ListLock (SClear val) false) s)
  end.
