(* ===== verification/LWLockInv.v ===== *)
(** The invariant of a lightweight lock: how the lock word, the wait queue and the
    places of the processes in the code belong together. *)

From S2P Require Import Prelude LWLock.
Local Open Scope Z_scope.

(** ** Steps of the system *)

Definition call_ok (c : call) : Prop := match c with WaitForVar _ => True | c => call_mode c <> LW_WAIT_UNTIL_FREE end.

(** What the callers must respect: a process does not ask for a lock it holds, and
    changes the variable of a lock only while holding it exclusively. *)
Definition request_ok (r : request) (p : proc) : Prop :=
  match r with
  | Call c => call_ok c /\ LWLockHeldByMe 0 (held_lwlocks p) = false
  | Release => True
  | UpdateVar _ | ReleaseClearVar _ => LWLockHeldByMeInMode 0 LW_EXCLUSIVE (held_lwlocks p) = true
  end.

Definition lock0 (h : list (nat * LWLockMode)) : list (nat * LWLockMode) := filter (fun x => fst x = 0%nat) h.

Inductive step (n : nat) : sys -> sys -> Prop :=
| step_run me s s' : (me < n)%nat -> run me s = Some s' -> step n s s'
| step_start me r s s' :
    (me < n)%nat -> p_pc (procs s me) = Idle -> request_ok r (procs s me) ->
    start me r s = Ok s' -> step n s s'
(* semaphores are also posted for other reasons *)
| step_post me s :
    (me < n)%nat -> step n s (with_proc me (set_sem (S (sem (procs s me))) (procs s me)) s)
(* outside of this lock's code a process uses its semaphore and other locks *)
| step_env me k h s :
    (me < n)%nat -> p_pc (procs s me) = Idle -> lock0 h = lock0 (held_lwlocks (procs s me)) ->
    step n s (with_proc me (set_held h (set_sem k (procs s me))) s).

Inductive reachable (n : nat) (v : Z) : sys -> Prop :=
| reachable_init : reachable n v (LWLockInitialize v)
| reachable_step s s' : reachable n v s -> step n s s' -> reachable n v s'.

(** ** The lock word *)

(** The word with its flags, whether the queue is locked, and the number of
    exclusive and of shared holders. *)
Definition enc (hw ro : bool) (lk ex sh : Z) : Z :=
  Z.b2z hw * 2 ^ 30 + Z.b2z ro * 2 ^ 29 + lk * 2 ^ 28 + ex * 2 ^ 24 + sh.

Definition bit01 (x : Z) : Prop := x = 0 \/ x = 1.

(** Bit operations on the flags and on the count of shared holders do not mix. *)
Lemma split_testbit c x i :
  0 <= x < 2 ^ 24 -> 0 <= i ->
  Z.testbit (c * 2 ^ 24 + x) i = if i <? 24 then Z.testbit x i else Z.testbit c (i - 24).
Proof.
  intros Hx Hi. destruct (Z.ltb_spec i 24).
  - rewrite <- (Z.mod_pow2_bits_low _ 24) by lia.
    by rewrite Z.add_comm, Z.mod_add, Z.mod_small by lia.
  - replace i with (i - 24 + 24) at 1 by lia. rewrite <- Z.div_pow2_bits by lia.
    by rewrite Z.div_add_l, Z.div_small, Z.add_0_r by lia.
Qed.

Lemma split_op (op : Z -> Z -> Z) (f : bool -> bool -> bool) c m x y :
  (forall a b i, 0 <= i -> Z.testbit (op a b) i = f (Z.testbit a i) (Z.testbit b i)) ->
  0 <= x < 2 ^ 24 -> 0 <= y < 2 ^ 24 -> 0 <= op x y < 2 ^ 24 ->
  op (c * 2 ^ 24 + x) (m * 2 ^ 24 + y) = op c m * 2 ^ 24 + op x y.
Proof.
  intros Hop Hx Hy Hxy. apply Z.bits_inj'. intros i Hi. rewrite Hop, !split_testbit by done.
  destruct (Z.ltb_spec i 24); rewrite Hop by lia; done.
Qed.

Lemma split_land c m x y :
  0 <= x < 2 ^ 24 -> 0 <= y < 2 ^ 24 ->
  Z.land (c * 2 ^ 24 + x) (m * 2 ^ 24 + y) = Z.land c m * 2 ^ 24 + Z.land x y.
Proof.
  intros Hx Hy. apply (split_op _ andb); try done.
  - intros. apply Z.land_spec.
  - apply (land_range 24); [lia|done|lia].
Qed.

Lemma split_lor c m x y :
  0 <= x < 2 ^ 24 -> 0 <= y < 2 ^ 24 ->
  Z.lor (c * 2 ^ 24 + x) (m * 2 ^ 24 + y) = Z.lor c m * 2 ^ 24 + Z.lor x y.
Proof.
  intros Hx Hy. apply (split_op _ orb); try done.
  - intros. apply Z.lor_spec.
  - by apply (lor_range 24).
Qed.

Definition enc_high (hw ro : bool) (lk ex : Z) : Z := Z.b2z hw * 64 + Z.b2z ro * 32 + lk * 16 + ex.

Lemma enc_split hw ro lk ex sh : enc hw ro lk ex sh = enc_high hw ro lk ex * 2 ^ 24 + sh.
Proof. unfold enc, enc_high. lia. Qed.

Section word.
Context (hw ro : bool) (lk ex sh : Z).
Hypothesis Hlk : bit01 lk.
Hypothesis Hex : bit01 ex.
Hypothesis Hsh : 0 <= sh < 2 ^ 24.

Local Ltac by_flags := destruct Hlk as [-> | ->], Hex as [-> | ->], hw, ro; reflexivity.

(** The masks, split the same way. *)
Lemma land_enc_high m : Z.land (enc hw ro lk ex sh) (m * 2 ^ 24 + 0) = Z.land (enc_high hw ro lk ex) m * 2 ^ 24.
Proof. rewrite enc_split, split_land by lia. rewrite Z.land_0_r. lia. Qed.
Lemma land_enc_all m :
  Z.land (enc hw ro lk ex sh) (m * 2 ^ 24 + (2 ^ 24 - 1)) = Z.land (enc_high hw ro lk ex) m * 2 ^ 24 + sh.
Proof.
  rewrite enc_split, split_land by lia. f_equal.
  change (2 ^ 24 - 1) with (Z.ones 24). rewrite Z.land_ones by lia. apply Z.mod_small. lia.
Qed.
Lemma lor_enc_high m : Z.lor (enc hw ro lk ex sh) (m * 2 ^ 24 + 0) = Z.lor (enc_high hw ro lk ex) m * 2 ^ 24 + sh.
Proof. rewrite enc_split, split_lor by lia. by rewrite Z.lor_0_r. Qed.

Lemma enc_locked : has (enc hw ro lk ex sh) LW_FLAG_LOCKED = (lk =? 1).
Proof.
  unfold has. change LW_FLAG_LOCKED with (16 * 2 ^ 24 + 0). rewrite land_enc_high.
  by_flags.
Qed.
Lemma enc_has_waiters : has (enc hw ro lk ex sh) LW_FLAG_HAS_WAITERS = hw.
Proof.
  unfold has. change LW_FLAG_HAS_WAITERS with (64 * 2 ^ 24 + 0). rewrite land_enc_high.
  by_flags.
Qed.
Lemma enc_exclusive : has (enc hw ro lk ex sh) LW_VAL_EXCLUSIVE = (ex =? 1).
Proof.
  unfold has. change LW_VAL_EXCLUSIVE with (1 * 2 ^ 24 + 0). rewrite land_enc_high.
  by_flags.
Qed.
Lemma enc_mask : Z.land (enc hw ro lk ex sh) LW_LOCK_MASK = ex * 2 ^ 24 + sh.
Proof.
  change LW_LOCK_MASK with (1 * 2 ^ 24 + (2 ^ 24 - 1)). rewrite land_enc_all. f_equal.
  by_flags.
Qed.
Lemma enc_check : check_waiters (enc hw ro lk ex sh) = hw && ro && (ex =? 0) && (sh =? 0).
Proof.
  unfold check_waiters. rewrite enc_mask.
  change (Z.lor LW_FLAG_HAS_WAITERS LW_FLAG_RELEASE_OK) with (96 * 2 ^ 24 + 0) at 1. rewrite land_enc_high.
  destruct Hlk as [-> | ->], Hex as [-> | ->], hw, ro; try reflexivity; simpl andb;
    vm_compute (_ =? Z.lor _ _); simpl andb; apply eq_true_iff_eq; rewrite ?andb_true_iff, !Z.eqb_eq; lia.
Qed.

Lemma enc_set_locked : Z.lor (enc hw ro lk ex sh) LW_FLAG_LOCKED = enc hw ro 1 ex sh.
Proof.
  change LW_FLAG_LOCKED with (16 * 2 ^ 24 + 0). rewrite lor_enc_high, enc_split. do 2 f_equal.
  by_flags.
Qed.
Lemma enc_set_waiters : Z.lor (enc hw ro lk ex sh) LW_FLAG_HAS_WAITERS = enc true ro lk ex sh.
Proof.
  change LW_FLAG_HAS_WAITERS with (64 * 2 ^ 24 + 0). rewrite lor_enc_high, enc_split. do 2 f_equal.
  by_flags.
Qed.
Lemma enc_set_release_ok : Z.lor (enc hw ro lk ex sh) LW_FLAG_RELEASE_OK = enc hw true lk ex sh.
Proof.
  change LW_FLAG_RELEASE_OK with (32 * 2 ^ 24 + 0). rewrite lor_enc_high, enc_split. do 2 f_equal.
  by_flags.
Qed.
Lemma enc_clear_locked : clear (enc hw ro lk ex sh) LW_FLAG_LOCKED = enc hw ro 0 ex sh.
Proof.
  unfold clear. change (unot 32 LW_FLAG_LOCKED) with (239 * 2 ^ 24 + (2 ^ 24 - 1)).
  rewrite land_enc_all, enc_split. do 2 f_equal. by_flags.
Qed.
Lemma enc_clear_waiters : clear (enc hw ro lk ex sh) LW_FLAG_HAS_WAITERS = enc false ro lk ex sh.
Proof.
  unfold clear. change (unot 32 LW_FLAG_HAS_WAITERS) with (191 * 2 ^ 24 + (2 ^ 24 - 1)).
  rewrite land_enc_all, enc_split. do 2 f_equal. by_flags.
Qed.
Lemma enc_clear_release_ok : clear (enc hw ro lk ex sh) LW_FLAG_RELEASE_OK = enc hw false lk ex sh.
Proof.
  unfold clear. change (unot 32 LW_FLAG_RELEASE_OK) with (223 * 2 ^ 24 + (2 ^ 24 - 1)).
  rewrite land_enc_all, enc_split. do 2 f_equal. by_flags.
Qed.
Lemma enc_range : in_u 32 (enc hw ro lk ex sh).
Proof. unfold in_u, enc. destruct Hlk as [-> | ->], Hex as [-> | ->], hw, ro; simpl Z.b2z; lia. Qed.
End word.

(** ** Where a process is *)

(** The call a process is in. *)
Definition pc_frame (a : pc) : option frame :=
  match a with
  | AttemptRead fr _ | AttemptCas fr _ _ | QueueTest fr | QueueFlag fr | QueuePush fr | QueueUnlock fr
  | DequeueDelete fr | DequeueCheck fr _ | DequeueClear fr _ | DequeueUnlock fr _ | DequeueDone fr _
  | DequeueSleep fr _ | Sleep fr | Awakened fr | Finish fr _ | VarRead fr _ | VarValue fr _
  | VarUnlock fr _ _ | VarReleaseOk fr => Some fr
  | ListLock (SQueue fr) _ | ListLock (SDequeue fr) _ | ListLock (SVar fr _) _ => Some fr
  | _ => None
  end.

Definition is_var (fr : frame) : bool := match f_call fr with WaitForVar _ => true | _ => false end.
Definition is_acquire (fr : frame) : bool := match f_call fr with Acquire _ => true | _ => false end.
Definition is_conditional (fr : frame) : bool := match f_call fr with ConditionalAcquire _ => true | _ => false end.

(** Whether the frame fits the place. *)
Definition pc_fits (a : pc) : Prop :=
  match a with
  | AttemptRead fr second | AttemptCas fr second _ => is_var fr = false /\ (second = true -> is_conditional fr = false)
  | QueueTest fr | QueueFlag fr | QueuePush fr | QueueUnlock fr | DequeueDelete fr | DequeueCheck fr _
  | DequeueClear fr _ | DequeueUnlock fr _ | DequeueDone fr _ | DequeueSleep fr _ | Sleep fr
  | ListLock (SQueue fr) _ | ListLock (SDequeue fr) _ => is_conditional fr = false
  | Awakened fr => is_acquire fr = true
  | VarRead fr _ | VarValue fr _ | VarUnlock fr _ _ | VarReleaseOk fr | ListLock (SVar fr _) _ => is_var fr = true
  | Finish fr true => is_var fr = false
  | Panic => False
  | _ => True
  end.

(** The part of the code that runs with the wait queue locked. *)
Definition pc_inlist (a : pc) : bool :=
  match a with
  | QueueFlag _ | QueuePush _ | QueueUnlock _ | DequeueDelete _ | DequeueCheck _ _ | DequeueClear _ _
  | DequeueUnlock _ _ | VarValue _ _ | VarUnlock _ _ _ | UpdateScan _ | UpdateUnlock _
  | ClearSet _ | ClearUnlock | WakeScan | WakeRead _ _ | WakeCas _ _ _ => true
  | _ => false
  end.

(** Those who have the lock: besides those that have recorded it, those between
    the atomic operation and the record. *)
Definition pc_owns (a : pc) : option LWLockMode :=
  match a with
  | ListLock (SDequeue fr) _ | DequeueDelete fr | DequeueCheck fr _ | DequeueClear fr _
  | DequeueUnlock fr _ | DequeueDone fr _ | DequeueSleep fr _ =>
      if is_var fr then None else Some (call_mode (f_call fr))
  | Finish fr true => Some (call_mode (f_call fr))
  | ReleaseSub mode => Some mode
  | _ => None
  end.
Definition owns (p : proc) : option LWLockMode :=
  match pc_owns (p_pc p) with
  | Some mode => Some mode
  | None => match lock0 (held_lwlocks p) with [] => None | h :: _ => Some (snd h) end
  end.

Definition inlist (p : proc) : bool := pc_inlist (p_pc p).
Definition excl (p : proc) : bool := match owns p with Some LW_EXCLUSIVE => true | _ => false end.
Definition shar (p : proc) : bool :=
  match owns p with Some LW_EXCLUSIVE | None => false | Some _ => true end.

(** Places outside of any call that leave the record of the lock alone. *)
Definition pc_holding (a : pc) : bool :=
  match a with
  | ListLock (SUpdate _) _ | UpdateScan _ | UpdateUnlock _
  | ListLock (SClear _) _ | ClearSet _ | ClearUnlock => true
  | _ => false
  end.
Definition pc_not_holding (a : pc) : bool :=
  match pc_frame a, a with
  | Some _, _ => true
  | None, (ReleaseSub _ | ListLock SWakeup _ | WakeScan | WakeRead _ _ | WakeCas _ _ _) => true
  | _, _ => false
  end.

(** How far a process is in waiting. *)
Inductive stage : Set :=
| Out
| Queued
| Off (on_waitlist : bool)
| Absorb
| Woken.

Definition pc_stage (a : pc) : stage :=
  match a with
  | QueueUnlock _ | AttemptRead _ true | AttemptCas _ true _ | ListLock (SDequeue _) _ | DequeueDelete _
  | Sleep _ | VarReleaseOk _ | VarRead _ true | ListLock (SVar _ true) _ | VarValue _ true
  | VarUnlock _ true _ => Queued
  | DequeueCheck _ on | DequeueClear _ on | DequeueUnlock _ on | DequeueDone _ on => Off on
  | DequeueSleep _ _ => Absorb
  | Awakened _ => Woken
  | _ => Out
  end.
Definition stage_of (p : proc) : stage := pc_stage (p_pc p).

(** What a process knows about itself. *)
Record local_ok (p : proc) : Prop := {
  loc_fits : pc_fits (p_pc p);
  loc_call : forall fr, pc_frame (p_pc p) = Some fr -> call_ok (f_call fr);
  loc_waiting :
    match stage_of p with
    | Out | Woken => lwWaiting p = LW_WS_NOT_WAITING
    | Queued => True
    | Off true => lwWaiting p = LW_WS_WAITING
    | Off false | Absorb => lwWaiting p <> LW_WS_WAITING
    end;
  loc_mode :
    stage_of p = Queued -> forall fr, pc_frame (p_pc p) = Some fr -> lwWaitMode p = wait_mode (f_call fr);
  loc_held : (length (lock0 (held_lwlocks p)) <= 1)%nat;
  loc_holding : pc_holding (p_pc p) = true -> lock0 (held_lwlocks p) = [(0%nat, LW_EXCLUSIVE)];
  loc_not_holding : pc_not_holding (p_pc p) = true -> lock0 (held_lwlocks p) = []
}.

(** A process on the wait queue. *)
Definition listed (p : proc) : Prop := lwWaiting p = LW_WS_WAITING /\ stage_of p = Queued.

(** The processes a process is going to wake. *)
Definition pc_wakes (a : pc) : list nat :=
  match a with
  | UpdateUnlock wk | WakeRead wk _ | WakeCas wk _ _ | WakeSet wk | WakePost _ wk => wk
  | _ => []
  end.
Definition wakes (p : proc) : list nat := pc_wakes (p_pc p).

(** A waiter that will ask for the lock again, or has it. *)
Definition retries (p : proc) : bool :=
  match pc_frame (p_pc p) with Some fr => is_acquire fr | None => false end.

(** A process that has been woken and is going to set LW_FLAG_RELEASE_OK. *)
Definition restorer (p : proc) : Prop :=
  retries p = true /\ lwWaiting p <> LW_WS_WAITING
  /\ match stage_of p with Queued | Off _ | Woken => True | _ => False end.

(** A process that will look at the lock, or at the queue. *)
Definition attempting (p : proc) : bool :=
  match p_pc p with
  | AttemptRead _ _ | AttemptCas _ _ _ => true
  | QueueTest fr | ListLock (SQueue fr) _ | QueueFlag fr | QueuePush fr | QueueUnlock fr => negb (is_var fr)
  | ListLock SWakeup _ | WakeScan => true
  | _ => false
  end.
Definition active (p : proc) : Prop := attempting p = true \/ restorer p.

(** A process on the queue that has seen the lock taken. *)
Definition pc_committed (a : pc) : bool :=
  match a with
  | Sleep _ | ListLock (SVar _ true) _ | VarValue _ true | VarUnlock _ true _ => true
  | _ => false
  end.
Definition committed (p : proc) : Prop := lwWaiting p = LW_WS_WAITING /\ pc_committed (p_pc p) = true.

(** Where a process that has been woken still has to wait for its semaphore, now or
    later. *)
Definition pc_owed (a : pc) : bool :=
  match pc_stage a with Queued | Off false | Absorb => true | _ => false end.

(** ** Counting *)

Fixpoint cnt (n : nat) (f : proc -> bool) (g : nat -> proc) : Z :=
  match n with
  | O => 0
  | S n => cnt n f g + Z.b2z (f (g n))
  end.

Lemma cnt_range n f g : 0 <= cnt n f g <= Z.of_nat n.
Proof. induction n as [|n IH]; simpl cnt; [lia|]. destruct (f (g n)); simpl Z.b2z; lia. Qed.

Lemma cnt_ext n f g g' : (forall i, (i < n)%nat -> f (g i) = f (g' i)) -> cnt n f g = cnt n f g'.
Proof.
  induction n as [|n IH]; intros H; simpl; [done|]. rewrite IH, (H n) by (intros; try apply H; lia). done.
Qed.

Lemma cnt_upd n f g i p :
  (i < n)%nat -> cnt n f (upd g i p) = cnt n f g - Z.b2z (f (g i)) + Z.b2z (f p).
Proof.
  induction n as [|n IH]; intros Hi; [lia|]. simpl. unfold upd at 2. destruct (decide (n = i)) as [->|].
  - rewrite (cnt_ext i f (upd g i p) g); [lia|]. intros j Hj. unfold upd. by destruct (decide (j = i)); [lia|].
  - rewrite IH by lia. lia.
Qed.

Lemma cnt_pos n f g : 0 < cnt n f g <-> exists i, (i < n)%nat /\ f (g i) = true.
Proof.
  induction n as [|n IH]; simpl.
  - split; [lia|]. intros (i & Hi & _). lia.
  - pose proof (cnt_range n f g). destruct (f (g n)) eqn:E; simpl Z.b2z.
    + split; [|lia]. intros _. exists n. split; [lia|done].
    + rewrite Z.add_0_r, IH. split; intros (i & Hi & Hf); exists i; (split; [|done]); [lia|].
      destruct (decide (i = n)) as [->|]; [congruence|lia].
Qed.

Lemma cnt_zero n f g i : cnt n f g = 0 -> (i < n)%nat -> f (g i) = false.
Proof.
  intros H Hi. destruct (f (g i)) eqn:E; [|done]. assert (0 < cnt n f g) by (apply cnt_pos; eauto). lia.
Qed.

Lemma cnt_le1 n f g i j :
  cnt n f g <= 1 -> (i < n)%nat -> (j < n)%nat -> f (g i) = true -> f (g j) = true -> i = j.
Proof.
  induction n as [|n IH]; intros H Hi Hj Ei Ej; [lia|]. simpl in H. pose proof (cnt_range n f g).
  assert (Hno : forall k, (k < n)%nat -> f (g k) = true -> f (g n) = true -> False).
  { intros k Hk Ek En. assert (0 < cnt n f g) by (apply cnt_pos; eauto). rewrite En in H. simpl in H. lia. }
  destruct (decide (i = n)) as [->|], (decide (j = n)) as [->|]; [done|exfalso..|].
  - apply (Hno j); [lia|done|done].
  - apply (Hno i); [lia|done|done].
  - apply IH; [|lia|lia|done|done]. destruct (f (g n)); simpl in H; lia.
Qed.

(** ** The invariant *)

Section inv.
Context (n : nat).
Hypothesis few : Z.of_nat n <= MAX_BACKENDS.

Record word_inv (hw ro : bool) (s : sys) : Prop := {
  word_enc : state s = enc hw ro (cnt n inlist (procs s)) (cnt n excl (procs s)) (cnt n shar (procs s));
  word_list : cnt n inlist (procs s) <= 1;
  word_excl : cnt n excl (procs s) <= 1;
  word_mutex : cnt n excl (procs s) = 1 -> cnt n shar (procs s) = 0
}.

Record queue_inv (hw : bool) (s : sys) : Prop := {
  queue_nodup : NoDup (waiters s);
  queue_listed : forall i, i ∈ waiters s <-> listed (procs s i);
  queue_flag : waiters s <> [] -> hw = true;
  queue_push : forall i fr, p_pc (procs s i) = QueuePush fr -> hw = true;
  queue_clear : forall i fr on, p_pc (procs s i) = DequeueClear fr on -> waiters s = [];
  queue_empty : forall i ok old,
    p_pc (procs s i) = WakeRead [] ok \/ p_pc (procs s i) = WakeCas [] ok old -> waiters s = []
}.

Record wake_inv (s : sys) : Prop := {
  wake_pending : forall i, lwWaiting (procs s i) = LW_WS_PENDING_WAKEUP <-> exists j, i ∈ wakes (procs s j);
  wake_nodup : forall j, NoDup (wakes (procs s j));
  wake_once : forall i j k, i ∈ wakes (procs s j) -> i ∈ wakes (procs s k) -> j = k;
  wake_post : forall i, pc_owed (p_pc (procs s i)) = true -> lwWaiting (procs s i) = LW_WS_NOT_WAITING ->
    (0 < sem (procs s i))%nat \/ exists j wk, p_pc (procs s j) = WakePost i wk
}.

Record duty_inv (ro : bool) (s : sys) : Prop := {
  duty_ok : ro = false -> exists r, restorer (procs s r);
  duty_wake : forall j wk old, p_pc (procs s j) = WakeRead wk false \/ p_pc (procs s j) = WakeCas wk false old ->
    exists r, r ∈ wk /\ retries (procs s r) = true /\ stage_of (procs s r) = Queued;
  duty_free : cnt n excl (procs s) = 0 -> cnt n shar (procs s) = 0 ->
    forall i, committed (procs s i) -> exists q, active (procs s q)
}.

Record lw_inv (hw ro : bool) (s : sys) : Prop := {
  inv_word : word_inv hw ro s;
  inv_local : forall i, local_ok (procs s i);
  inv_out : forall i, (n <= i)%nat -> p_pc (procs s i) = Idle;
  inv_queue : queue_inv hw s;
  inv_wake : wake_inv s;
  inv_duty : duty_inv ro s
}.

(** ** Steps of one process *)

Lemma upd_eq g i p : upd g i p i = p.
Proof. unfold upd. by destruct (decide (i = i)). Qed.
Lemma upd_ne g i j p : j <> i -> upd g i p j = g j.
Proof. intros H. unfold upd. by destruct (decide (j = i)). Qed.

Lemma inv_in hw ro s i : lw_inv hw ro s -> p_pc (procs s i) <> Idle -> (i < n)%nat.
Proof. intros Hi Hpc. destruct (decide (i < n)%nat); [done|]. destruct Hpc. apply (inv_out _ _ _ Hi). lia. Qed.

(** Only one process is at work on the wait queue. *)
Lemma inlist_unique hw ro s i j :
  lw_inv hw ro s -> inlist (procs s i) = true -> inlist (procs s j) = true -> i = j.
Proof.
  intros Hi Ei Ej. assert (Hn : forall k, inlist (procs s k) = true -> (k < n)%nat).
  { intros k Hk. apply (inv_in hw ro s k Hi). intros E. unfold inlist in Hk. by rewrite E in Hk. }
  eapply cnt_le1; eauto. apply (inv_word _ _ _ Hi).
Qed.

Lemma word_bounds hw ro s :
  word_inv hw ro s ->
  bit01 (cnt n inlist (procs s)) /\ bit01 (cnt n excl (procs s)) /\ 0 <= cnt n shar (procs s) < 2 ^ 24 - 1.
Proof.
  intros [_ H1 H2 _]. unfold bit01, MAX_BACKENDS in *.
  pose proof (cnt_range n inlist (procs s)). pose proof (cnt_range n excl (procs s)).
  pose proof (cnt_range n shar (procs s)). lia.
Qed.

(** The obligations of a step that changes the word, the queue and the process
    that makes it. *)
Record own_step (hw ro hw' ro' : bool) (s : sys) (me : nat) (p' : proc) (x : Z) (l' : list nat) : Prop := {
  own_word : let p := procs s me in
    x = enc hw' ro' (cnt n inlist (procs s) - Z.b2z (inlist p) + Z.b2z (inlist p'))
          (cnt n excl (procs s) - Z.b2z (excl p) + Z.b2z (excl p'))
          (cnt n shar (procs s) - Z.b2z (shar p) + Z.b2z (shar p'));
  own_list : inlist p' = true -> inlist (procs s me) = true \/ cnt n inlist (procs s) = 0;
  own_excl : excl p' = true -> excl (procs s me) = true \/ cnt n excl (procs s) = 0 /\ cnt n shar (procs s) = 0;
  own_shar : shar p' = true -> shar (procs s me) = true \/ cnt n excl (procs s) = 0;
  own_local : local_ok p';
  own_nodup : NoDup l';
  own_others : forall i, i <> me -> i ∈ l' <-> i ∈ waiters s;
  own_listed : me ∈ l' <-> listed p';
  own_flag : l' <> [] -> hw' = true;
  own_push : forall fr, p_pc p' = QueuePush fr -> hw' = true;
  own_unflag : hw' = hw \/ hw' = true \/ inlist (procs s me) = true;
  own_grow : waiters s = [] -> l' = [] \/ inlist (procs s me) = true;
  own_clear : forall fr on, p_pc p' = DequeueClear fr on -> l' = [];
  own_empty : forall ok old, p_pc p' = WakeRead [] ok \/ p_pc p' = WakeCas [] ok old -> l' = [];
  own_pending : lwWaiting p' = LW_WS_PENDING_WAKEUP <-> lwWaiting (procs s me) = LW_WS_PENDING_WAKEUP;
  own_wakes : wakes p' = wakes (procs s me);
  own_not_post : forall i wk, p_pc (procs s me) = WakePost i wk ->
    p_pc p' = WakePost i wk \/ (0 < sem (procs s i))%nat;
  own_post : pc_owed (p_pc p') = true -> lwWaiting p' = LW_WS_NOT_WAITING ->
    pc_owed (p_pc (procs s me)) = true /\ lwWaiting (procs s me) = LW_WS_NOT_WAITING
    /\ (sem (procs s me) <= sem p')%nat;
  own_ok : ro' = false ->
    (ro = false /\ (restorer (procs s me) -> restorer p')) \/ exists r, r <> me /\ restorer (procs s r);
  own_wake : forall wk old, p_pc p' = WakeRead wk false \/ p_pc p' = WakeCas wk false old ->
    exists old', p_pc (procs s me) = WakeRead wk false \/ p_pc (procs s me) = WakeCas wk false old';
  own_queued : retries (procs s me) = true -> stage_of (procs s me) = Queued ->
    (retries p' = true /\ stage_of p' = Queued) \/ inlist (procs s me) = true \/ lwWaiting (procs s me) <> LW_WS_PENDING_WAKEUP;
  own_free : excl p' = false -> shar p' = false ->
    (excl (procs s me) = false /\ shar (procs s me) = false
      /\ (committed p' -> committed (procs s me)) /\ (active (procs s me) -> active p'))
    \/ (l' = [] \/ active p' \/ exists q, q <> me /\ active (procs s q))
    \/ 0 < cnt n excl (procs s) - Z.b2z (excl (procs s me)) + cnt n shar (procs s) - Z.b2z (shar (procs s me))
}.

Section own.
Context (hw ro hw' ro' : bool) (s : sys) (me : nat) (p' : proc) (x : Z) (l' : list nat) (v : Z).
Hypothesis Hinv : lw_inv hw ro s.
Hypothesis Hme : (me < n)%nat.
Hypothesis Hown : own_step hw ro hw' ro' s me p' x l'.
Let s' : sys := mk_sys x l' v (upd (procs s) me p').

Lemma excl_shar p : excl p = true -> shar p = false.
Proof. unfold excl, shar. by destruct (owns p) as [[]|]. Qed.

Lemma cnt_has f : f (procs s me) = true -> 1 <= cnt n f (procs s).
Proof. intros H. assert (0 < cnt n f (procs s)) by (apply cnt_pos; eauto). lia. Qed.

Lemma owner_counts m : owns (procs s me) = Some m -> 0 < cnt n excl (procs s) + cnt n shar (procs s).
Proof.
  intros H. pose proof (cnt_range n excl (procs s)). pose proof (cnt_range n shar (procs s)).
  destruct (decide (m = LW_EXCLUSIVE)) as [->|Hm].
  - assert (1 <= cnt n excl (procs s)) by (apply cnt_has; unfold excl; by rewrite H). lia.
  - assert (1 <= cnt n shar (procs s)) by (apply cnt_has; unfold shar; rewrite H; by destruct m). lia.
Qed.

Lemma own_word_inv : word_inv hw' ro' s'.
Proof.
  destruct (inv_word _ _ _ Hinv) as [_ H1 H2 H3]. destruct Hown as [Hw Hl He Hs _ _ _ _ _ _ _ _ _ _ _ _ _ _ _ _ _ _].
  pose proof (cnt_has inlist) as C1. pose proof (cnt_has excl) as C2. pose proof (cnt_has shar) as C3.
  pose proof (excl_shar p') as D1. pose proof (excl_shar (procs s me)) as D2.
  pose proof (cnt_range n shar (procs s)). pose proof (cnt_range n excl (procs s)).
  split; cbn [procs state s']; rewrite ?cnt_upd by done; [exact Hw|..].
  - destruct (inlist p'), (inlist (procs s me)); simpl Z.b2z; lia.
  - destruct (excl p'), (excl (procs s me)); simpl Z.b2z; lia.
  - destruct (excl p'), (excl (procs s me)), (shar p'), (shar (procs s me)); simpl Z.b2z; intros HE; try lia;
      try (specialize (D1 eq_refl); done); try (specialize (D2 eq_refl); done);
      try (specialize (C2 eq_refl)); try (specialize (C3 eq_refl));
      try (destruct (He eq_refl) as [?|?]; [done|lia]);
      try (destruct (Hs eq_refl) as [?|?]; [done|lia]); lia.
Qed.

Lemma own_queue_inv : queue_inv hw' s'.
Proof.
  destruct (inv_queue _ _ _ Hinv) as [Q1 Q2 Q3 Q4 Q5 Q6]. destruct Hown as [_ _ _ _ _ O1 O2 O3 O4 O5 O6 O7 O8 O9 _ _ _ _ _ _ _ _].
  assert (Honly : forall i, i <> me -> inlist (procs s i) = true -> inlist (procs s me) = true -> False).
  { intros i Hi H1 H2. apply Hi. by eapply inlist_unique. }
  split; cbn [procs waiters s']; [done|..].
  - intros i. destruct (decide (i = me)) as [->|Hi]; [by rewrite upd_eq|]. rewrite upd_ne, O2 by done. apply Q2.
  - done.
  - intros i fr. destruct (decide (i = me)) as [->|Hi]; [rewrite upd_eq; apply O5|]. rewrite upd_ne by done.
    intros E. pose proof (Q4 _ _ E). destruct O6 as [->|[->|O6]]; [done|done|].
    exfalso. apply (Honly i Hi); [unfold inlist; by rewrite E|done].
  - intros i fr on. destruct (decide (i = me)) as [->|Hi]; [rewrite upd_eq; apply O8|]. rewrite upd_ne by done.
    intros E. destruct (O7 (Q5 _ _ _ E)) as [|O]; [done|].
    exfalso. apply (Honly i Hi); [unfold inlist; by rewrite E|done].
  - intros i ok old. destruct (decide (i = me)) as [->|Hi]; [rewrite upd_eq; apply O9|]. rewrite upd_ne by done.
    intros E. destruct (O7 (Q6 _ _ _ E)) as [|O]; [done|].
    exfalso. apply (Honly i Hi); [unfold inlist; by destruct E as [-> | ->]|done].
Qed.

Lemma own_wake_inv : wake_inv s'.
Proof.
  destruct (inv_wake _ _ _ Hinv) as [W1 W2 W3 W4]. destruct Hown as [_ _ _ _ _ _ _ _ _ _ _ _ _ _ O1 O2 O3 O4 _ _ _ _].
  assert (Hw : forall j, wakes (upd (procs s) me p' j) = wakes (procs s j)).
  { intros j. destruct (decide (j = me)) as [->|]; [by rewrite upd_eq|by rewrite upd_ne]. }
  split; cbn [procs s'].
  - intros i. trans (lwWaiting (procs s i) = LW_WS_PENDING_WAKEUP).
    + destruct (decide (i = me)) as [->|]; [by rewrite upd_eq|by rewrite upd_ne].
    + rewrite W1. split; intros [j Hj]; exists j; by rewrite ?Hw in *.
  - intros j. by rewrite Hw.
  - intros i j k. rewrite !Hw. apply W3.
  - intros i. assert (Hpost : (exists j wk, p_pc (procs s j) = WakePost i wk) ->
      (0 < sem (procs s i))%nat \/ exists j wk, p_pc (upd (procs s) me p' j) = WakePost i wk).
    { intros (j & wk & E). destruct (decide (j = me)) as [->|Hj].
      - destruct (O3 _ _ E) as [E'|?]; [right; exists me, wk; by rewrite upd_eq|by left].
      - right. exists j, wk. by rewrite upd_ne. }
    destruct (decide (i = me)) as [->|Hi].
    + rewrite upd_eq. intros H1 H2. destruct (O4 H1 H2) as (H3 & H4 & H5).
      destruct (W4 me H3 H4) as [?|[?|?]%Hpost]; [left; lia|left; lia|by right].
    + rewrite upd_ne by done. intros H1 H2. destruct (W4 i H1 H2) as [?|?%Hpost]; [by left|done].
Qed.

Lemma committed_listed p : committed p -> listed p.
Proof.
  intros [H1 H2]. split; [done|]. unfold stage_of, pc_committed in *.
  destruct (p_pc p); simpl in *; try done; repeat case_match; done.
Qed.

Lemma own_duty_inv : duty_inv ro' s'.
Proof.
  destruct (inv_duty _ _ _ Hinv) as [D1 D2 D3].
  pose proof (own_queue_inv) as HQ.
  destruct Hown as [_ _ _ _ _ _ _ _ _ _ _ _ _ _ _ _ _ _ O1 O2 O3 O4].
  assert (Hupd : forall (P : proc -> Prop) r, r <> me -> P (procs s r) -> P (upd (procs s) me p' r))
    by (intros P r Hr HP; by rewrite upd_ne).
  split; cbn [procs s'].
  - intros Hro. destruct (O1 Hro) as [[Hr H]|(r & Hr & H)]; [|exists r; by apply Hupd].
    destruct (D1 Hr) as [r Hr']. exists r. destruct (decide (r = me)) as [->|]; [rewrite upd_eq; auto|by apply Hupd].
  - intros j wk old Hj.
    assert (exists old', p_pc (procs s j) = WakeRead wk false \/ p_pc (procs s j) = WakeCas wk false old') as [old' Hj'].
    { destruct (decide (j = me)) as [->|]; [rewrite upd_eq in Hj; by eapply O2|].
      rewrite upd_ne in Hj by done. by exists old. }
    destruct (D2 j wk old' Hj') as (r & Hr & Hret & Hst). exists r. split; [done|].
    destruct (decide (r = me)) as [->|]; [rewrite upd_eq|by rewrite upd_ne].
    destruct (O3 Hret Hst) as [?|[Hin|Hnp]]; [done|exfalso..].
    + assert (j = me) as ->.
      { eapply inlist_unique; [exact Hinv| |exact Hin]. unfold inlist. by destruct Hj' as [-> | ->]. }
      unfold stage_of in Hst. by destruct Hj' as [E|E]; rewrite E in Hst.
    + apply Hnp, (inv_wake _ _ _ Hinv). exists j. unfold wakes. by destruct Hj' as [-> | ->].
  - rewrite !cnt_upd by done. intros HE HS i Hi.
    assert (Hbool : excl p' = false /\ shar p' = false).
    { pose proof (cnt_has excl). pose proof (cnt_has shar). pose proof (cnt_range n excl (procs s)). pose proof (cnt_range n shar (procs s)).
      destruct (excl p'), (shar p'), (excl (procs s me)), (shar (procs s me)); simpl Z.b2z in *; try done;
        try (specialize (H eq_refl)); try (specialize (H0 eq_refl)); lia. }
    destruct Hbool as [He Hs]. rewrite He in HE. rewrite Hs in HS.
    destruct (O4 He Hs) as [(E1 & E2 & H1 & H2)|[[El|[H|(q & Hq & H)]]|H]].
    + rewrite E1 in HE. rewrite E2 in HS. simpl Z.b2z in *.
      destruct (D3 ltac:(lia) ltac:(lia) i) as [q Hq].
      { destruct (decide (i = me)) as [->|]; [rewrite upd_eq in Hi; auto|by rewrite upd_ne in Hi]. }
      exists q. destruct (decide (q = me)) as [->|]; [rewrite upd_eq; auto|by apply Hupd].
    + apply committed_listed, (queue_listed _ _ HQ) in Hi. cbn [waiters s'] in Hi. rewrite El in Hi. by apply not_elem_of_nil in Hi.
    + exists me. by rewrite upd_eq.
    + exists q. by apply Hupd.
    + simpl Z.b2z in *. lia.
Qed.

Lemma own_step_inv : lw_inv hw' ro' s'.
Proof.
  split; [apply own_word_inv| | |apply own_queue_inv|apply own_wake_inv|apply own_duty_inv]; cbn [procs s']; intros i.
  - destruct (decide (i = me)) as [->|]; [rewrite upd_eq; apply Hown|]. rewrite upd_ne by done. apply (inv_local _ _ _ Hinv).
  - intros Hi. rewrite upd_ne by lia. by apply (inv_out _ _ _ Hinv).
Qed.
End own.
End inv.

(** ** Tactics for the steps *)

(** The step of a process in terms of the functions. *)
Ltac unfold_run H :=
  unfold run, LWLockAttemptLock, LWLockWaitListLock, LWLockQueueSelf, LWLockDequeueSelf, LWLockWait, LWLockConflictsWithVar, LWLockUpdateVar, LWLockReleaseClearVar, LWLockRelease, LWLockWakeup, LWLockWaitForVar, LWLockWaitListUnlock in H.

(** What is known of the process that makes the step, and of the word. *)
Ltac facts n few Hinv s me Epc :=
  let F := fresh "F" in
  pose proof (inv_local _ _ _ _ Hinv me) as F; destruct F as [F1 F2 F3 F4 F5 F6 F7];
  unfold stage_of in F3, F4; rewrite Epc in F1, F2, F3, F4, F6, F7; cbn in F1, F2, F3, F4, F6, F7;
  try specialize (F2 _ eq_refl); try specialize (F4 eq_refl _ eq_refl);
  assert (BL : pc_inlist (p_pc (procs s me)) = true -> 1 <= cnt n inlist (procs s)) by (apply (cnt_has n s me ltac:(done) inlist));
  assert (BO : forall m, owns (procs s me) = Some m -> 0 < cnt n excl (procs s) + cnt n shar (procs s))
    by (apply (owner_counts n s me); done);
  unfold owns in BO; rewrite Epc in BL, BO; cbn in BL, BO; try specialize (BO _ eq_refl);
  pose proof (word_bounds n few _ _ _ (inv_word _ _ _ _ Hinv)) as (B1 & B2 & B3);
  pose proof (inv_word _ _ _ _ Hinv) as [Wx Wl We Wm].

(** The numbers of holders become variables, so that unfolding leaves them alone. *)
Ltac counts :=
  match goal with
  | _ : lw_inv ?n _ _ ?s0 |- _ =>
      set (L := cnt n inlist (procs s0)) in *; set (E := cnt n excl (procs s0)) in *;
      set (S := cnt n shar (procs s0)) in *; clearbody L E S
  end.

(** The obligations that only depend on the two places. *)
Ltac places Epc :=
  unfold dequeued, after_sleep, after_attempt, after_var, excl, shar, owns, inlist, listed, wakes, active, attempting, committed, restorer, retries, stage_of;
  cbn [p_pc lwWaiting lwWaitMode sem held_lwlocks set_pc set_waiting set_sem set_held procs];
  rewrite ?Epc; cbn.

Ltac solve_place := first [done | tauto | intuition congruence].

Ltac word Wx :=
  rewrite ?Wx, ?enc_set_locked, ?enc_set_waiters, ?enc_set_release_ok, ?enc_clear_locked, ?enc_clear_waiters
    by (done || lia); f_equal; unfold bit01 in *; lia.

Ltac local Epc := solve [constructor; places Epc; try solve_place; try (intros; simplify_eq/=; solve_place)].

Ltac quiet Epc Wx :=
  constructor; counts; places Epc; try solve_place; try solve [word Wx]; try local Epc; try (left; lia).
