(* ===== verification/LWLockSteps.v ===== *)
(** Every step of lwlock.c keeps the invariant of the lock: the steps that leave the holders
    and the queue alone, those that take or release the lock, and those that change the queue. *)

From S2P Require Import Prelude LWLock LWLockInv.
Local Open Scope Z_scope.

Section steps.
Context (n : nat).
Hypothesis few : Z.of_nat n <= MAX_BACKENDS.

(** ** Steps that leave the holders and the queue alone *)

Record quiet_step (hw ro hw' ro' : bool) (s : sys) (me : nat) (p' : proc) (x : Z) : Prop := {
  q_owns : owns p' = owns (procs s me);
  q_word : x = enc hw' ro' (cnt n inlist (procs s) - Z.b2z (inlist (procs s me)) + Z.b2z (inlist p'))
                 (cnt n excl (procs s)) (cnt n shar (procs s));
  q_list : inlist p' = true -> inlist (procs s me) = true \/ cnt n inlist (procs s) = 0;
  q_local : local_ok p';
  q_listed : listed p' <-> listed (procs s me);
  q_flag : hw' = hw \/ hw' = true \/ inlist (procs s me) = true /\ waiters s = [];
  q_push : forall fr, p_pc p' = QueuePush fr -> hw' = true;
  q_clear : forall fr on, p_pc p' = DequeueClear fr on -> waiters s = [];
  q_empty : forall ok old, p_pc p' = WakeRead [] ok \/ p_pc p' = WakeCas [] ok old -> waiters s = [];
  q_pending : lwWaiting p' = LW_WS_PENDING_WAKEUP <-> lwWaiting (procs s me) = LW_WS_PENDING_WAKEUP;
  q_wakes : wakes p' = wakes (procs s me);
  q_not_post : forall i wk, p_pc (procs s me) = WakePost i wk ->
    p_pc p' = WakePost i wk \/ (0 < sem (procs s i))%nat;
  q_post : pc_owed (p_pc p') = true -> lwWaiting p' = LW_WS_NOT_WAITING ->
    pc_owed (p_pc (procs s me)) = true /\ lwWaiting (procs s me) = LW_WS_NOT_WAITING
    /\ (sem (procs s me) <= sem p')%nat;
  q_ok : ro' = false ->
    (ro = false /\ (restorer (procs s me) -> restorer p')) \/ exists r, r <> me /\ restorer (procs s r);
  q_wake : forall wk old, p_pc p' = WakeRead wk false \/ p_pc p' = WakeCas wk false old ->
    exists old', p_pc (procs s me) = WakeRead wk false \/ p_pc (procs s me) = WakeCas wk false old';
  q_queued : retries (procs s me) = true -> stage_of (procs s me) = Queued ->
    (retries p' = true /\ stage_of p' = Queued) \/ inlist (procs s me) = true
    \/ lwWaiting (procs s me) <> LW_WS_PENDING_WAKEUP;
  q_free : 0 < cnt n excl (procs s) + cnt n shar (procs s)
    \/ ((committed p' -> committed (procs s me)) /\ (active (procs s me) -> active p'))
}.

Lemma quiet_own hw ro hw' ro' s me p' x :
  lw_inv n hw ro s -> quiet_step hw ro hw' ro' s me p' x ->
  own_step n hw ro hw' ro' s me p' x (waiters s).
Proof.
  intros Hinv []. destruct (inv_queue _ _ _ _ Hinv) as [Q1 Q2 Q3 _ _ _].
  assert (He : excl p' = excl (procs s me)) by (unfold excl; by rewrite q_owns0).
  assert (Hs : shar p' = shar (procs s me)) by (unfold shar; by rewrite q_owns0).
  split; try done.
  - cbv zeta. rewrite He, Hs, q_word0. f_equal; lia.
  - rewrite He. tauto.
  - rewrite Hs. tauto.
  - rewrite Q2. by symmetry.
  - intros Hne. destruct q_flag0 as [->|[->|[_ ?]]]; [auto|done|done].
  - tauto.
  - tauto.
  - intros E1 E2. rewrite He in E1. rewrite Hs in E2. destruct q_free0 as [?|[? ?]]; [|tauto].
    right. right. rewrite E1, E2. simpl Z.b2z. lia.
Qed.

Lemma quiet_inv hw ro hw' ro' s me p' x v :
  lw_inv n hw ro s -> (me < n)%nat -> quiet_step hw ro hw' ro' s me p' x ->
  exists hw ro, lw_inv n hw ro (mk_sys x (waiters s) v (upd (procs s) me p')).
Proof. intros Hi Hme Hq. exists hw', ro'. eapply own_step_inv; [done|done|by apply quiet_own]. Qed.

(** ** The places, one by one *)

Definition kept (s' : sys) : Prop := exists hw ro, lw_inv n hw ro s'.

Lemma step_list_lock hw ro s me k spin s' :
  lw_inv n hw ro s -> (me < n)%nat -> p_pc (procs s me) = ListLock k spin -> run me s = Some s' -> kept s'.
Proof.
  intros Hinv Hme Epc Hrun. unfold_run Hrun. rewrite Epc in Hrun. facts n few Hinv s me Epc.
  replace (has (state s) LW_FLAG_LOCKED) with (cnt n inlist (procs s) =? 1) in Hrun
    by (by rewrite Wx, enc_locked by (done || lia)).
  destruct spin, (Z.eqb_spec (cnt n inlist (procs s)) 1) as [HL|HL]; simplify_eq/=; [by exists hw, ro|..];
    apply (quiet_inv hw ro hw ro s me); try done; destruct k as [| | |? []| |]; quiet Epc Wx.
Qed.

(** The steps of which [quiet] proves all. *)
Lemma step_plain hw ro s me s' :
  lw_inv n hw ro s -> (me < n)%nat ->
  match p_pc (procs s me) with
  | AttemptRead _ _ | QueueTest _ | QueueUnlock _ | DequeueUnlock _ _ | VarValue _ _ | ClearSet _ | UpdateUnlock _ => True
  | _ => False
  end -> run me s = Some s' -> kept s'.
Proof.
  intros Hinv Hme Hpc Hrun. unfold_run Hrun.
  destruct (p_pc (procs s me)) as [] eqn:Epc; try done; clear Hpc;
    try (destruct fr as [[] ew rs]); facts n few Hinv s me Epc; try done; try rewrite F3 in Hrun;
    injection Hrun as <-; apply (quiet_inv hw ro hw ro s me); try done; quiet Epc Wx.
Qed.

(** The steps that set LW_FLAG_RELEASE_OK. *)
Lemma step_release_ok hw ro s me s' :
  lw_inv n hw ro s -> (me < n)%nat ->
  match p_pc (procs s me) with
  | Awakened _ | VarReleaseOk _ | DequeueDone _ false => True
  | _ => False
  end -> run me s = Some s' -> kept s'.
Proof.
  intros Hinv Hme Hpc Hrun. unfold_run Hrun.
  destruct (p_pc (procs s me)) as [] eqn:Epc; try done;
    try (destruct fr as [[] ew rs]); try (destruct on_waitlist); try done; clear Hpc; facts n few Hinv s me Epc; try done;
    injection Hrun as <-; apply (quiet_inv hw ro hw true s me); try done; quiet Epc Wx.
Qed.

(** Leaving the wait queue for good. *)
Lemma step_dequeued hw ro s me fr s' :
  lw_inv n hw ro s -> (me < n)%nat -> p_pc (procs s me) = DequeueDone fr true -> run me s = Some s' -> kept s'.
Proof.
  intros Hinv Hme Epc Hrun. unfold_run Hrun. rewrite Epc in Hrun. destruct fr as [[] ew rs]; facts n few Hinv s me Epc; try done;
    injection Hrun as <-; apply (quiet_inv hw ro hw ro s me); try done; quiet Epc Wx.
Qed.

(** Waiting on the semaphore. *)
Lemma step_sleep hw ro s me s' :
  lw_inv n hw ro s -> (me < n)%nat ->
  match p_pc (procs s me) with Sleep _ | DequeueSleep _ _ => True | _ => False end -> run me s = Some s' -> kept s'.
Proof.
  intros Hinv Hme Hpc Hrun. unfold_run Hrun.
  destruct (p_pc (procs s me)) as [] eqn:Epc; try done; clear Hpc;
    destruct fr as [[] ew rs]; facts n few Hinv s me Epc; try done;
    (destruct (sem (procs s me)) as [|k] eqn:Ek; [done|]); case_bool_decide as Hw; injection Hrun as <-;
    apply (quiet_inv hw ro hw ro s me); try done; quiet Epc Wx.
Qed.

Lemma step_var hw ro s me s' :
  lw_inv n hw ro s -> (me < n)%nat ->
  match p_pc (procs s me) with
  | VarRead _ _ | VarUnlock _ _ _ => True
  | _ => False
  end -> run me s = Some s' -> kept s'.
Proof.
  intros Hinv Hme Hpc Hrun. unfold_run Hrun.
  destruct (p_pc (procs s me)) as [] eqn:Epc; try done; clear Hpc; destruct fr as [[] ew rs];
    destruct second; facts n few Hinv s me Epc; try done.
  1,2: replace (has (state s) LW_VAL_EXCLUSIVE) with (cnt n excl (procs s) =? 1) in Hrun
      by (by rewrite Wx, enc_exclusive by (done || lia));
    destruct (Z.eqb_spec (cnt n excl (procs s)) 1) as [HE|HE]; injection Hrun as <-;
      apply (quiet_inv hw ro hw ro s me); try done; quiet Epc Wx.
  all: cbn [f_call] in Hrun; destruct (negb _); injection Hrun as <-;
      apply (quiet_inv hw ro hw ro s me); try done; quiet Epc Wx.
Qed.

Lemma lock0_app h h' : lock0 (h ++ h') = lock0 h ++ lock0 h'.
Proof. apply filter_app. Qed.

Lemma step_finish hw ro s me fr acquired s' :
  lw_inv n hw ro s -> (me < n)%nat -> p_pc (procs s me) = Finish fr acquired -> run me s = Some s' -> kept s'.
Proof.
  intros Hinv Hme Epc Hrun. unfold_run Hrun. rewrite Epc in Hrun.
  destruct fr as [[] ew rs], acquired; facts n few Hinv s me Epc; try done;
    injection Hrun as <-; apply (quiet_inv hw ro hw ro s me); try done; specialize (F7 eq_refl).
  all: constructor; counts; places Epc; rewrite ?lock0_app, ?F7; cbn; try solve_place; try solve [word Wx].
  all: constructor; places Epc; rewrite ?lock0_app, ?F7; cbn; try solve_place; lia.
Qed.

(** The flag for waiters goes up before a process queues itself, and down when
    nobody is queued. *)
Lemma step_flag hw ro s me s' :
  lw_inv n hw ro s -> (me < n)%nat ->
  match p_pc (procs s me) with QueueFlag _ | DequeueCheck _ _ | DequeueClear _ _ => True | _ => False end ->
  run me s = Some s' -> kept s'.
Proof.
  intros Hinv Hme Hpc Hrun. unfold_run Hrun. pose proof (inv_queue _ _ _ _ Hinv) as HQ.
  destruct (p_pc (procs s me)) as [] eqn:Epc; try done; clear Hpc; destruct fr as [[] ew rs];
    try destruct on_waitlist; facts n few Hinv s me Epc; try done.
  1-3: injection Hrun as <-; apply (quiet_inv hw ro true ro s me); try done; quiet Epc Wx.
  1-6: assert (Hw : match waiters s with [] => has (state s) LW_FLAG_HAS_WAITERS | _ => false end = true -> waiters s = [])
    by (by destruct (waiters s)).
  1-6: destruct (match waiters s with [] => _ | _ => _ end);
    injection Hrun as <-; apply (quiet_inv hw ro hw ro s me); try done; quiet Epc Wx.
  all: pose proof (queue_clear _ _ HQ _ _ _ Epc);
    injection Hrun as <-; apply (quiet_inv hw ro false ro s me); try done; quiet Epc Wx.
Qed.

Lemma enc_desired wk ok hw ro lk ex sh :
  bit01 lk -> bit01 ex -> 0 <= sh < 2 ^ 24 ->
  desired_after_wakeup wk ok (enc hw ro lk ex sh) = enc (match wk with [] => false | _ => hw end) ok 0 ex sh.
Proof.
  intros H1 H2 H3. unfold desired_after_wakeup.
  destruct ok, wk; rewrite ?enc_set_release_ok, ?enc_clear_release_ok, ?enc_clear_waiters, ?enc_clear_locked by done; done.
Qed.

(** The end of the section that takes waiters off the queue. *)
Lemma step_wake_cas hw ro s me wk ok s' :
  lw_inv n hw ro s -> (me < n)%nat ->
  (p_pc (procs s me) = WakeRead wk ok \/ exists old, p_pc (procs s me) = WakeCas wk ok old) ->
  run me s = Some s' -> kept s'.
Proof.
  intros Hinv Hme Hpc Hrun. pose proof (queue_empty _ _ (inv_queue _ _ _ _ Hinv) me) as HQ.
  pose proof (duty_wake _ _ _ (inv_duty _ _ _ _ Hinv) me) as HD.
  assert (Hretry : p_pc (procs s me) = WakeRead wk ok \/ (exists old, p_pc (procs s me) = WakeCas wk ok old) ->
    forall old, exists hw ro, lw_inv n hw ro (goto me (WakeCas wk ok old) s)).
  { clear Hpc Hrun. intros [Epc|[old' Epc]] old; facts n few Hinv s me Epc; apply (quiet_inv hw ro hw ro s me); try done;
      quiet Epc Wx; rewrite Epc in HQ; intros; destruct_or!; simplify_eq;
      first [exists (state s); by left | eapply (HQ _ (state s)); by left | by eauto]. }
  unfold_run Hrun. destruct Hpc as [Epc|[old Epc]]; rewrite Epc in Hrun; [injection Hrun as <-; apply Hretry; by left|].
  destruct (Z.eqb_spec (state s) old) as [<-|]; [|injection Hrun as <-; apply Hretry; by eauto].
  injection Hrun as <-. facts n few Hinv s me Epc. clear Hretry.
  apply (quiet_inv hw ro (match wk with [] => false | _ => hw end) ok s me); try done. quiet Epc Wx.
  - rewrite Wx, enc_desired by (done || lia). f_equal. lia.
  - destruct wk; [|by left]. right. right. split; [done|]. eapply HQ. by right.
  - intros ->. right. destruct (HD wk (state s) ltac:(by right)) as (r & Hr & Hret & Hst).
    exists r. assert (Hp : lwWaiting (procs s r) = LW_WS_PENDING_WAKEUP).
    { apply (wake_pending _ (inv_wake _ _ _ _ Hinv)). exists me. unfold wakes. by rewrite Epc. }
    unfold stage_of in Hst. rewrite Hst. split; [|by rewrite Hp].
    intros ->. unfold stage_of in Hst. by rewrite Epc in Hst.
Qed.

(** The end of the update of the variable, and the release that follows. *)
Lemma last_held_lock0 h m :
  lock0 h = [(0%nat, m)] -> exists rest, last_held 0 h = Some (m, rest) /\ lock0 rest = [].
Proof.
  assert (Hnil : forall h, lock0 h = [] -> last_held 0 h = None).
  { clear. intros h. induction h as [|[k m] h IH]; intros H; [done|]. unfold lock0 in H. rewrite filter_cons in H.
    destruct (decide _) as [|Hk] in H; [done|]. simpl. rewrite IH by done. simpl in Hk. by destruct k. }
  induction h as [|[k m'] h IH]; intros H; [done|]. unfold lock0 in H. rewrite filter_cons in H.
  destruct (decide _) as [Hk|Hk] in H; simpl in Hk.
  - subst k. injection H as -> H. simpl. rewrite Hnil by done. simpl. eauto.
  - destruct (IH H) as (rest & E & Hr). exists ((k, m') :: rest). simpl. rewrite E. split; [done|].
    unfold lock0. rewrite filter_cons. by destruct (decide _).
Qed.

Lemma step_clear_unlock hw ro s me s' :
  lw_inv n hw ro s -> (me < n)%nat -> p_pc (procs s me) = ClearUnlock -> run me s = Some s' -> kept s'.
Proof.
  intros Hinv Hme Epc Hrun. unfold_run Hrun. rewrite Epc in Hrun. facts n few Hinv s me Epc.
  destruct (last_held_lock0 _ _ (F6 eq_refl)) as (rest & E1 & E2). unfold release_held in Hrun. simpl in Hrun.
  rewrite E1 in Hrun. injection Hrun as <-. specialize (F6 eq_refl).
  apply (quiet_inv hw ro hw ro s me); try done. constructor; counts; places Epc; rewrite ?F6; try solve_place; try solve [word Wx].
  constructor; places Epc; rewrite ?E2; cbn; try solve_place. lia.
Qed.
End steps.

(** * Steps that take or release the lock, or change the wait queue *)

Section steps.
Context (n : nat).
Hypothesis few : Z.of_nat n <= MAX_BACKENDS.

Lemma own_kept hw ro hw' ro' s me p' x l' v :
  lw_inv n hw ro s -> (me < n)%nat -> own_step n hw ro hw' ro' s me p' x l' ->
  kept n (mk_sys x l' v (upd (procs s) me p')).
Proof. intros Hi Hme Hq. exists hw', ro'. by eapply own_step_inv. Qed.

(** A step that does not touch the queue. *)
Lemma same_queue hw s me p :
  queue_inv hw s -> (listed p <-> listed (procs s me)) ->
  NoDup (waiters s) /\ (forall i, i <> me -> i ∈ waiters s <-> i ∈ waiters s) /\ (me ∈ waiters s <-> listed p).
Proof. intros [H1 H2 _ _ _ _] Hl. split; [done|]. split; [done|]. by rewrite H2. Qed.

(** What [LWLockAttemptLock] sees in the word. *)
Lemma attempt_spec hw ro lk ex sh mode :
  bit01 lk -> bit01 ex -> 0 <= sh < 2 ^ 24 - 1 ->
  let '(free, desired) := attempt mode (enc hw ro lk ex sh) in
  if free
  then ex = 0 /\ (mode = LW_EXCLUSIVE -> sh = 0) /\
    desired = enc hw ro lk (ex + Z.b2z (bool_decide (mode = LW_EXCLUSIVE)))
                (sh + Z.b2z (negb (bool_decide (mode = LW_EXCLUSIVE))))
  else 0 < ex + sh /\ desired = enc hw ro lk ex sh.
Proof.
  intros Hlk Hex Hsh. unfold attempt. rewrite enc_mask by (done || lia).
  assert (Hx : (Z.land (enc hw ro lk ex sh) LW_VAL_EXCLUSIVE =? 0) = (ex =? 0)).
  { pose proof (enc_exclusive hw ro lk ex sh Hlk Hex ltac:(lia)) as H. unfold has in H.
    destruct (Z.land _ _ =? 0), Hex as [-> | ->]; done. }
  assert (Hw : forall d, ex = 0 -> 0 <= d <= 2 ^ 24 -> uwrap 32 (enc hw ro lk ex sh + d) = enc hw ro lk ex sh + d).
  { intros d Hd. intros. apply uwrap_small. unfold in_u, enc. subst ex.
    destruct Hlk as [-> | ->], hw, ro; simpl Z.b2z; lia. }
  assert (Hbit : 0 <= ex) by (destruct Hex; lia).
  destruct mode; rewrite ?Hx; [destruct (Z.eqb_spec (ex * 2 ^ 24 + sh) 0)|destruct (Z.eqb_spec ex 0)..];
    simpl negb; simpl Z.b2z; (split; [lia|]); try (split; [done || lia|]); try done.
  all: rewrite Hw by first [lia | vm_compute; split; discriminate].
  all: change (lock_val LW_EXCLUSIVE) with 16777216; change (lock_val LW_SHARED) with 1;
    change (lock_val LW_WAIT_UNTIL_FREE) with 1; unfold enc; lia.
Qed.

(** The obligations about a queue that stays as it is. *)
Ltac queue_same HQ :=
  first [ by apply (queue_nodup _ _ HQ) | by rewrite (queue_listed _ _ HQ)
        | by apply (queue_flag _ _ HQ) | by auto ].

Ltac owner Epc HQ Wx :=
  constructor; counts; try queue_same HQ; places Epc; try solve_place; try solve [word Wx]; try local Epc.

Lemma step_attempt_busy hw ro s me fr second :
  lw_inv n hw ro s -> (me < n)%nat -> p_pc (procs s me) = AttemptCas fr second (state s) ->
  0 < cnt n excl (procs s) + cnt n shar (procs s) ->
  kept n (goto me (after_attempt fr second true) (with_state (state s) s)).
Proof.
  intros Hinv Hme Epc Hbusy.
  destruct fr as [[] ew rs], second; facts n few Hinv s me Epc; try (destruct_and!; done);
    apply (quiet_inv n hw ro hw ro s me); try done; quiet Epc Wx.
Qed.

Lemma step_attempt_take hw ro s me fr second :
  lw_inv n hw ro s -> (me < n)%nat -> p_pc (procs s me) = AttemptCas fr second (state s) ->
  let mode := call_mode (f_call fr) in
  cnt n excl (procs s) = 0 -> (mode = LW_EXCLUSIVE -> cnt n shar (procs s) = 0) ->
  kept n (goto me (after_attempt fr second false)
    (with_state (enc hw ro (cnt n inlist (procs s))
      (cnt n excl (procs s) + Z.b2z (bool_decide (mode = LW_EXCLUSIVE)))
      (cnt n shar (procs s) + Z.b2z (negb (bool_decide (mode = LW_EXCLUSIVE))))) s)).
Proof.
  intros Hinv Hme Epc mode Hx Hs. pose proof (inv_queue _ _ _ _ Hinv) as HQ. subst mode.
  destruct fr as [[] ew rs]; cbn [f_call call_mode] in *; try (exfalso; facts n few Hinv s me Epc; destruct_and!; done).
  all: destruct mode; simpl bool_decide; simpl negb; simpl Z.b2z; destruct second; facts n few Hinv s me Epc; try done; specialize (F7 eq_refl).
  all: apply (own_kept hw ro hw ro s me); try done; owner Epc HQ Wx.
  all: rewrite ?F7; cbn; try (f_equal; lia).
  all: rewrite (queue_listed _ _ HQ); unfold listed, stage_of; rewrite Epc; done.
Qed.

Lemma step_attempt_cas hw ro s me fr second old s' :
  lw_inv n hw ro s -> (me < n)%nat -> p_pc (procs s me) = AttemptCas fr second old -> run me s = Some s' -> kept n s'.
Proof.
  intros Hinv Hme Epc Hrun. unfold_run Hrun. rewrite Epc in Hrun.
  destruct (attempt _ old) as [free desired] eqn:Ea. destruct (Z.eqb_spec (state s) old) as [<-|].
  - pose proof (word_bounds n few _ _ _ (inv_word _ _ _ _ Hinv)) as (B1 & B2 & B3).
    pose proof (attempt_spec hw ro _ _ _ (call_mode (f_call fr)) B1 B2 B3) as Hspec.
    rewrite <- (word_enc _ _ _ _ (inv_word _ _ _ _ Hinv)), Ea in Hspec.
    destruct free; injection Hrun as <-.
    + destruct Hspec as (H1 & H2 & ->). by apply step_attempt_take.
    + destruct Hspec as [H1 ->]. by eapply step_attempt_busy.
  - injection Hrun as <-. facts n few Hinv s me Epc. apply (quiet_inv n hw ro hw ro s me); try done. quiet Epc Wx.
Qed.

(** ** Release *)

Lemma release_word hw ro lk ex sh mode :
  bit01 lk -> bit01 ex -> 0 <= sh < 2 ^ 24 - 1 ->
  (if bool_decide (mode = LW_EXCLUSIVE) then ex = 1 else 1 <= sh) ->
  uwrap 32 (enc hw ro lk ex sh - lock_val mode)
  = enc hw ro lk (ex - Z.b2z (bool_decide (mode = LW_EXCLUSIVE)))
      (sh - Z.b2z (negb (bool_decide (mode = LW_EXCLUSIVE)))).
Proof.
  intros Hlk Hex Hsh Hm.
  assert (Hin : in_u 32 (enc hw ro lk (ex - Z.b2z (bool_decide (mode = LW_EXCLUSIVE)))
      (sh - Z.b2z (negb (bool_decide (mode = LW_EXCLUSIVE)))))).
  { apply enc_range; [done|..]; unfold bit01 in *; destruct mode; simpl in *; lia. }
  rewrite <- (uwrap_small 32 _ Hin). f_equal. unfold enc.
  destruct mode; simpl bool_decide; simpl negb; simpl Z.b2z;
    change (lock_val LW_EXCLUSIVE) with 16777216; change (lock_val LW_SHARED) with 1;
    change (lock_val LW_WAIT_UNTIL_FREE) with 1; lia.
Qed.

Lemma step_release hw ro s me mode s' :
  lw_inv n hw ro s -> (me < n)%nat -> p_pc (procs s me) = ReleaseSub mode -> run me s = Some s' -> kept n s'.
Proof.
  intros Hinv Hme Epc Hrun. unfold_run Hrun. rewrite Epc in Hrun. injection Hrun as <-.
  pose proof (inv_queue _ _ _ _ Hinv) as HQ. pose proof (duty_ok _ _ _ (inv_duty _ _ _ _ Hinv)) as HD.
  facts n few Hinv s me Epc. specialize (F7 eq_refl).
  assert (Hm : if bool_decide (mode = LW_EXCLUSIVE) then cnt n excl (procs s) = 1 else 1 <= cnt n shar (procs s)).
  { case_bool_decide as Hm.
    - assert (1 <= cnt n excl (procs s)); [|lia]. apply (cnt_has n s me); [done|].
      unfold excl, owns. rewrite Epc. by subst mode.
    - apply (cnt_has n s me); [done|]. unfold shar, owns. rewrite Epc. by destruct mode. }
  rewrite Wx, release_word, enc_check by (done || unfold bit01 in *; case_bool_decide; simpl; lia).
  set (ex' := cnt n excl (procs s) - _). set (sh' := cnt n shar (procs s) - _).
  assert (Hfree : hw && ro && (ex' =? 0) && (sh' =? 0) = false ->
    0 < ex' + sh' \/ waiters s = [] \/ exists q, q <> me /\ active (procs s q)).
  { intros Echk. assert (0 <= ex' /\ 0 <= sh') as [? ?]
      by (subst ex' sh'; unfold bit01 in *; case_bool_decide; simpl Z.b2z; lia).
    destruct (Z.eqb_spec ex' 0), (Z.eqb_spec sh' 0); [|left; lia..]. right. destruct hw.
    - destruct ro; [done|]. destruct (HD eq_refl) as [q Hq]. right. exists q. split; [|by right].
      intros ->. destruct Hq as (_ & _ & Hq). unfold stage_of in Hq. by rewrite Epc in Hq.
    - left. destruct (waiters s) as [|w l] eqn:El; [done|]. pose proof (queue_flag _ _ HQ). by rewrite El in *; discriminate H1. }
  destruct (hw && ro && (ex' =? 0) && (sh' =? 0)) eqn:Echk; clear Echk; [clear Hfree|specialize (Hfree eq_refl)].
  all: apply (own_kept hw ro hw ro s me); try done; subst ex' sh'; destruct mode; simpl bool_decide in *; simpl negb in *;
    simpl Z.b2z in *; owner Epc HQ Wx.
  all: try (rewrite (queue_listed _ _ HQ); unfold listed, stage_of; rewrite Epc; done).
  all: rewrite ?F7; cbn; try (f_equal; lia); try done.
  all: intros _ _; right; destruct Hfree as [H|[H|H]]; [right; lia|left; by left|left; right; right; exact H].
Qed.

(** ** Queueing *)

Lemma step_push hw ro s me fr s' :
  lw_inv n hw ro s -> (me < n)%nat -> p_pc (procs s me) = QueuePush fr -> run me s = Some s' -> kept n s'.
Proof.
  intros Hinv Hme Epc Hrun. unfold_run Hrun. rewrite Epc in Hrun.
  pose proof (inv_queue _ _ _ _ Hinv) as HQ. pose proof (queue_push _ _ HQ _ _ Epc) as ->.
  assert (Hnot : me ∉ waiters s).
  { rewrite (queue_listed _ _ HQ). unfold listed, stage_of. rewrite Epc. by intros [_ ?]. }
  set (l' := if bool_decide (wait_mode (f_call fr) = LW_WAIT_UNTIL_FREE) then me :: waiters s else waiters s ++ [me]) in Hrun.
  assert (Hl : NoDup l' /\ (forall i, i <> me -> i ∈ l' <-> i ∈ waiters s) /\ me ∈ l').
  { pose proof (queue_nodup _ _ HQ) as Hnd. subst l'. case_bool_decide.
    - split; [by apply NoDup_cons|]. split; [|apply list_elem_of_here]. intros i Hi. rewrite elem_of_cons. tauto.
    - split; [apply NoDup_app; repeat split; [done| |apply NoDup_singleton]; by intros i Hi ->%list_elem_of_singleton|].
      split; [|apply elem_of_app; right; apply list_elem_of_here].
      intros i Hi. rewrite elem_of_app, list_elem_of_singleton. tauto. }
  clearbody l'. destruct Hl as (H1 & H2 & H3).
  destruct fr as [[] ew rs]; facts n few Hinv s me Epc; try done; injection Hrun as <-;
    apply (own_kept true ro true ro s me); try done; owner Epc HQ Wx.
Qed.

Lemma step_delete hw ro s me fr s' :
  lw_inv n hw ro s -> (me < n)%nat -> p_pc (procs s me) = DequeueDelete fr -> run me s = Some s' -> kept n s'.
Proof.
  intros Hinv Hme Epc Hrun. unfold_run Hrun. rewrite Epc in Hrun.
  pose proof (inv_queue _ _ _ _ Hinv) as HQ.
  assert (Hmem : me ∈ waiters s <-> lwWaiting (procs s me) = LW_WS_WAITING).
  { rewrite (queue_listed _ _ HQ). unfold listed, stage_of. rewrite Epc. simpl. tauto. }
  set (l' := if bool_decide _ then _ else _) in Hrun.
  assert (Hl : NoDup l' /\ (forall i, i <> me -> i ∈ l' <-> i ∈ waiters s) /\ (me ∉ l') /\ (l' <> [] -> hw = true)
    /\ (waiters s = [] -> l' = [])).
  { pose proof (queue_nodup _ _ HQ) as Hnd. pose proof (queue_flag _ _ HQ) as Hf. subst l'. case_bool_decide as Hw.
    - split; [by apply NoDup_filter|]. split; [intros i Hi; rewrite list_elem_of_filter; tauto|].
      split; [rewrite list_elem_of_filter; tauto|]. split; [|by intros ->].
      intros Hne. apply Hf. intros E. by rewrite E in Hne.
    - split; [done|]. split; [done|]. split; [tauto|]. split; [done|done]. }
  clearbody l'. destruct Hl as (H1 & H2 & H3 & H4 & H5).
  destruct fr as [[] ew rs]; facts n few Hinv s me Epc; try done; case_bool_decide; injection Hrun as <-;
    apply (own_kept hw ro hw ro s me); try done; owner Epc HQ Wx.
Qed.
End steps.
