(* ===== verification/LWLockWakeSteps.v ===== *)
(** The steps that change other processes: taking waiters off the queue and waking
    them. *)

From S2P Require Import Prelude LWLock LWLockInv LWLockSteps.
Local Open Scope Z_scope.

(** ** Scanning the queue *)

(** What a scan of the queue does: [wk] is taken off, [rest] stays. *)
Record scanned (l wk rest : list nat) : Prop := {
  scan_mem : forall i, i ∈ l <-> i ∈ wk \/ i ∈ rest;
  scan_nodup : NoDup l -> NoDup wk /\ NoDup rest;
  scan_disjoint : NoDup l -> forall i, i ∈ wk -> i ∈ rest -> False
}.

(** A part taken out of a list element by element. *)
Inductive split_of : list nat -> list nat -> list nat -> Prop :=
| split_nil : split_of [] [] []
| split_l x l a b : split_of l a b -> split_of (x :: l) (x :: a) b
| split_r x l a b : split_of l a b -> split_of (x :: l) a (x :: b).

Lemma split_of_mem l a b : split_of l a b -> forall i, i ∈ l <-> i ∈ a \/ i ∈ b.
Proof.
  induction 1 as [|x l a b _ IH|x l a b _ IH]; intros i; rewrite ?elem_of_cons, ?IH; [|tauto..].
  split; [by left|by intros []].
Qed.

Lemma split_of_scanned l a b : split_of l a b -> scanned l a b.
Proof.
  intros H. split; [by apply split_of_mem|..].
  - induction H as [|x l a b H IH|x l a b H IH]; intros Hnd; [done|..]; apply NoDup_cons in Hnd as [Hx Hnd];
      destruct (IH Hnd); rewrite (split_of_mem _ _ _ H) in Hx; (split; [|done]) || (split; [done|]);
      apply NoDup_cons; tauto.
  - induction H as [|x l a b H IH|x l a b H IH]; intros Hnd i; [by intros []%not_elem_of_nil|..];
      apply NoDup_cons in Hnd as [Hx Hnd]; rewrite (split_of_mem _ _ _ H) in Hx; rewrite elem_of_cons;
      specialize (IH Hnd i); intros; destruct_or!; subst; tauto.
Qed.

Lemma split_of_all l : split_of l [] l.
Proof. induction l; constructor; done. Qed.

Lemma wakeup_scan_split f woke l wk rest ok : wakeup_scan f woke l = (wk, rest, ok) -> split_of l wk rest.
Proof.
  revert woke wk rest ok. induction l as [|w l IH]; intros woke wk rest ok; simpl; [intros [= <- <- <-]; constructor|].
  destruct (woke && _) eqn:Ew.
  - destruct (wakeup_scan f woke l) as [[wk' rest'] ok'] eqn:E. intros [= <- <- <-]. constructor. by eapply IH.
  - case_bool_decide; [intros [= <- <- <-]; constructor; apply split_of_all|].
    destruct (wakeup_scan f _ l) as [[wk' rest'] ok'] eqn:E. intros [= <- <- <-]. constructor. by eapply IH.
Qed.

(** Somebody who wants the lock is woken, unless nobody of that kind is queued. *)
Lemma wakeup_scan_wants f woke l wk rest ok :
  wakeup_scan f woke l = (wk, rest, ok) ->
  (ok = false -> exists r, r ∈ wk /\ f r <> LW_WAIT_UNTIL_FREE)
  /\ (rest <> [] -> woke = true \/ exists r, r ∈ wk /\ f r <> LW_WAIT_UNTIL_FREE)
  /\ (woke = false -> wk = [] -> rest = []).
Proof.
  revert woke wk rest ok. induction l as [|w l IH]; intros woke wk rest ok; simpl; [by intros [= <- <- <-]|].
  destruct (woke && _) eqn:Ew.
  - apply andb_true_iff in Ew as [-> _].
    destruct (wakeup_scan f true l) as [[wk' rest'] ok'] eqn:E. intros [= <- <- <-].
    destruct (IH _ _ _ _ E) as (H1 & H2 & H3). split; [done|]. split; [by left|done].
  - case_bool_decide as Hx.
    { intros [= <- <- <-]. split; [intros _; exists w; rewrite Hx; split; [apply list_elem_of_here|done]|].
      split; [intros _; right; exists w; rewrite Hx; split; [apply list_elem_of_here|done]|done]. }
    destruct (wakeup_scan f _ l) as [[wk' rest'] ok'] eqn:E. intros [= <- <- <-].
    destruct (IH _ _ _ _ E) as (H1 & H2 & H3).
    assert (Hin : f w <> LW_WAIT_UNTIL_FREE -> exists r, r ∈ w :: wk' /\ f r <> LW_WAIT_UNTIL_FREE)
      by (exists w; split; [apply list_elem_of_here|done]).
    assert (Hmore : (exists r, r ∈ wk' /\ f r <> LW_WAIT_UNTIL_FREE) -> exists r, r ∈ w :: wk' /\ f r <> LW_WAIT_UNTIL_FREE)
      by (intros (r & Hr & Hf); exists r; split; [by apply list_elem_of_further|done]).
    case_bool_decide as Hu; simpl.
    + split; [auto|]. split; [|done]. intros Hr. destruct (H2 Hr) as [Hb|?]; [|auto]. rewrite orb_false_r in Hb. auto.
    + split; [auto|]. split; [auto|done].
Qed.

Lemma update_scan_split f l wk rest : update_scan f l = (wk, rest) -> split_of l wk rest.
Proof.
  revert wk rest. induction l as [|w l IH]; intros wk rest; simpl; [intros [= <- <-]; constructor|].
  destruct (negb _); [intros [= <- <-]; apply split_of_all|].
  destruct (update_scan f l) as [wk' rest'] eqn:E. intros [= <- <-]. constructor. by apply IH.
Qed.

Section steps.
Context (n : nat).
Hypothesis few : Z.of_nat n <= MAX_BACKENDS.

(** A queued process that does not only wait for the lock to be free asks for it
    again. *)
Lemma wants_retries p :
  local_ok p -> stage_of p = Queued -> lwWaitMode p <> LW_WAIT_UNTIL_FREE -> retries p = true.
Proof.
  intros Hl Hst Hm. pose proof (loc_mode _ Hl Hst) as Hmode. unfold retries, stage_of in *.
  destruct (pc_frame (p_pc p)) as [fr|] eqn:Ef.
  - rewrite (Hmode fr eq_refl) in Hm. unfold is_acquire. by destruct (f_call fr).
  - exfalso. destruct (p_pc p); try done; simpl in *; repeat case_match; done.
Qed.

Section scan.
Context (hw ro : bool) (s : sys) (me : nat) (a' : pc) (wk rest : list nat) (v : Z).
Hypothesis Hinv : lw_inv n hw ro s.
Hypothesis Hme : (me < n)%nat.
Hypothesis Hpc : p_pc (procs s me) = WakeScan /\ (exists ok, a' = WakeRead wk ok)
  \/ (exists val, p_pc (procs s me) = UpdateScan val) /\ a' = UpdateUnlock wk.
Hypothesis Hscan : scanned (waiters s) wk rest.
Hypothesis Hwants : (a' = WakeRead wk false \/ p_pc (procs s me) = WakeScan /\ rest <> []) ->
  exists r, r ∈ wk /\ lwWaitMode (procs s r) <> LW_WAIT_UNTIL_FREE.
Hypothesis Hempty : p_pc (procs s me) = WakeScan -> wk = [] -> rest = [].
Let procs' : nat -> proc := upd (mark_pending wk (procs s)) me (set_pc a' (procs s me)).
Let s' : sys := mk_sys (state s) rest v procs'.

Lemma scan_me :
  inlist (procs s me) = true /\ stage_of (procs s me) = Out /\ wakes (procs s me) = []
  /\ pc_inlist a' = true /\ pc_stage a' = Out /\ pc_wakes a' = wk /\ pc_owns a' = pc_owns (p_pc (procs s me))
  /\ pc_frame a' = None /\ pc_frame (p_pc (procs s me)) = None.
Proof.
  unfold inlist, stage_of, wakes. destruct Hpc as [[E [ok ->]]|[[val E] ->]]; rewrite E; done.
Qed.

Lemma scan_me_not i : i ∈ waiters s -> i <> me.
Proof.
  intros Hi ->. apply (queue_listed _ _ (inv_queue _ _ _ _ Hinv)) in Hi as [_ H].
  destruct scan_me as (_ & E & _). congruence.
Qed.

Lemma scan_taken i : i ∈ wk -> i ∈ waiters s /\ i <> me /\ procs' i = set_waiting LW_WS_PENDING_WAKEUP (procs s i)
  /\ listed (procs s i).
Proof.
  intros Hi. assert (Hw : i ∈ waiters s) by (apply (scan_mem _ _ _ Hscan); by left).
  pose proof (scan_me_not i Hw). split; [done|]. split; [done|].
  split; [|by apply (queue_listed _ _ (inv_queue _ _ _ _ Hinv))].
  unfold procs'. rewrite upd_ne by done. unfold mark_pending. by destruct (decide (i ∈ wk)).
Qed.

Lemma scan_other i : i ∉ wk -> i <> me -> procs' i = procs s i.
Proof. intros Hi Hne. unfold procs'. rewrite upd_ne by done. unfold mark_pending. by destruct (decide (i ∈ wk)). Qed.

(** Nobody else changes place. *)
Lemma scan_pc i : i <> me -> p_pc (procs' i) = p_pc (procs s i).
Proof.
  intros Hi. destruct (decide (i ∈ wk)) as [Hw|Hw]; [|by rewrite scan_other].
  by destruct (scan_taken i Hw) as (_ & _ & -> & _).
Qed.

Lemma scan_counts f :
  (f = inlist \/ f = excl \/ f = shar) -> cnt n f procs' = cnt n f (procs s).
Proof.
  intros Hf. apply cnt_ext. intros i _.
  destruct (decide (i ∈ wk)) as [Hw|Hw].
  { destruct (scan_taken i Hw) as (_ & _ & -> & _). destruct_or!; by subst f. }
  destruct (decide (i = me)) as [->|Hi]; [|by rewrite scan_other].
  unfold procs'. rewrite upd_eq. destruct scan_me as (E1 & _ & _ & E2 & _ & _ & E3 & _ & _).
  destruct_or!; subst f; unfold inlist, excl, shar, owns in *; cbn [p_pc set_pc held_lwlocks]; [congruence|by rewrite E3..].
Qed.

Lemma scan_inlist_other i : i <> me -> pc_inlist (p_pc (procs s i)) = true -> False.
Proof.
  intros Hi H. apply Hi. eapply inlist_unique; [exact Hinv|exact H|]. by destruct scan_me as (-> & _).
Qed.

Lemma scan_local i : local_ok (procs' i).
Proof.
  pose proof (inv_local _ _ _ _ Hinv) as Hl. destruct (decide (i ∈ wk)) as [Hw|Hw].
  { destruct (scan_taken i Hw) as (_ & _ & -> & _ & Hst). destruct (Hl i) as [L1 L2 L3 L4 L5 L6 L7].
    split; try done. unfold stage_of in *. cbn. by rewrite Hst. }
  destruct (decide (i = me)) as [->|Hi]; [|by rewrite scan_other].
  unfold procs'. rewrite upd_eq. destruct (Hl me) as [L1 L2 L3 L4 L5 L6 L7].
  unfold stage_of in *. destruct Hpc as [[E [ok ->]]|[[val E] ->]]; rewrite E in *; by split.
Qed.

Lemma scan_queue : queue_inv hw s'.
Proof.
  destruct (inv_queue _ _ _ _ Hinv) as [Q1 Q2 Q3 Q4 Q5 Q6]. destruct scan_me as (_ & E & _ & _ & E' & _).
  split; cbn [procs waiters s'].
  - by apply (scan_nodup _ _ _ Hscan).
  - intros i. destruct (decide (i = me)) as [->|Hi].
    + unfold procs'. rewrite upd_eq. unfold listed, stage_of. cbn. rewrite E'. split; [|by intros [_ ?]].
      intros H. exfalso. apply (scan_me_not me); [|done]. apply (scan_mem _ _ _ Hscan). by right.
    + destruct (decide (i ∈ wk)) as [Hw|Hw].
      * destruct (scan_taken i Hw) as (_ & _ & -> & _). split; [|by intros [? _]].
        intros Hr. exfalso. by eapply (scan_disjoint _ _ _ Hscan).
      * rewrite scan_other by done. rewrite <- Q2, (scan_mem _ _ _ Hscan). tauto.
  - intros Hr. apply Q3. intros Ew. destruct rest as [|x l]; [done|].
    assert (x ∈ waiters s) as Hx by (apply (scan_mem _ _ _ Hscan); right; apply list_elem_of_here).
    rewrite Ew in Hx. by apply not_elem_of_nil in Hx.
  - intros i fr. destruct (decide (i = me)) as [->|Hi].
    + unfold procs'. rewrite upd_eq. cbn. by destruct Hpc as [[_ [ok ->]]|[_ ->]].
    + rewrite scan_pc by done. apply Q4.
  - intros i fr on. destruct (decide (i = me)) as [->|Hi].
    + unfold procs'. rewrite upd_eq. cbn. by destruct Hpc as [[_ [ok ->]]|[_ ->]].
    + rewrite scan_pc by done. intros H. exfalso. apply (scan_inlist_other i Hi). by rewrite H.
  - intros i ok old. destruct (decide (i = me)) as [->|Hi].
    + unfold procs'. rewrite upd_eq. cbn. destruct Hpc as [[Hp [ok' ->]]|[_ ->]]; [|by intros [?|?]].
      intros [[= -> _]|?]; [by apply Hempty|done].
    + rewrite scan_pc by done. intros H. exfalso. apply (scan_inlist_other i Hi). by destruct H as [-> | ->].
Qed.

Lemma scan_wakes j : wakes (procs' j) = if decide (j = me) then wk else wakes (procs s j).
Proof.
  destruct scan_me as (_ & _ & _ & _ & _ & E & _). unfold wakes. destruct (decide (j = me)) as [->|Hj].
  - unfold procs'. by rewrite upd_eq.
  - by rewrite scan_pc.
Qed.

Lemma scan_fresh i j : i ∈ wk -> i ∈ wakes (procs s j) -> False.
Proof.
  intros Hi Hj. destruct (scan_taken i Hi) as (_ & _ & _ & Hw & _).
  assert (lwWaiting (procs s i) = LW_WS_PENDING_WAKEUP) by (apply (wake_pending _ (inv_wake _ _ _ _ Hinv)); eauto).
  congruence.
Qed.

Lemma scan_wake : wake_inv s'.
Proof.
  destruct (inv_wake _ _ _ _ Hinv) as [W1 W2 W3 W4]. destruct scan_me as (_ & Hst & Hwk & _ & Hst' & _).
  split; cbn [procs s'].
  - intros i. destruct (decide (i ∈ wk)) as [Hw|Hw].
    + destruct (scan_taken i Hw) as (_ & _ & -> & _). cbn. split; [|done]. intros _. exists me.
      rewrite scan_wakes. by destruct (decide (me = me)).
    + trans (lwWaiting (procs s i) = LW_WS_PENDING_WAKEUP).
      { destruct (decide (i = me)) as [->|Hi]; [unfold procs'; by rewrite upd_eq|by rewrite scan_other]. }
      rewrite W1. split; intros [j Hj]; exists j; rewrite scan_wakes in *; destruct (decide (j = me)) as [->|]; try done.
      rewrite Hwk in Hj. by apply not_elem_of_nil in Hj.
  - intros j. rewrite scan_wakes. destruct (decide (j = me)); [|done].
    by apply (scan_nodup _ _ _ Hscan), (queue_nodup _ _ (inv_queue _ _ _ _ Hinv)).
  - intros i j k. rewrite !scan_wakes. destruct (decide (j = me)) as [->|], (decide (k = me)) as [->|]; try done.
    + intros H1 H2. exfalso. by eapply scan_fresh.
    + intros H1 H2. exfalso. by eapply scan_fresh.
    + apply W3.
  - intros i. destruct (decide (i = me)) as [->|Hi].
    { unfold procs'. rewrite upd_eq. unfold pc_owed. cbn. by rewrite Hst'. }
    destruct (decide (i ∈ wk)) as [Hw|Hw]; [by destruct (scan_taken i Hw) as (_ & _ & -> & _)|].
    rewrite scan_other by done. intros H1 H2. destruct (W4 i H1 H2) as [?|(j & wk' & E)]; [by left|right].
    exists j, wk'. rewrite scan_pc; [done|]. intros ->. by destruct Hpc as [[E' _]|[[val E'] _]]; rewrite E' in E.
Qed.

Lemma scan_wanted r :
  r ∈ wk -> lwWaitMode (procs s r) <> LW_WAIT_UNTIL_FREE -> retries (procs' r) = true /\ stage_of (procs' r) = Queued
  /\ lwWaiting (procs' r) = LW_WS_PENDING_WAKEUP.
Proof.
  intros Hr Hm. destruct (scan_taken r Hr) as (_ & _ & -> & Hw & Hst). split; [|done].
  apply (wants_retries (procs s r)); [apply (inv_local _ _ _ _ Hinv)|done|done].
Qed.

Lemma scan_restorer r : restorer (procs s r) -> restorer (procs' r).
Proof.
  intros H. destruct (decide (r ∈ wk)) as [Hw|Hw].
  { destruct (scan_taken r Hw) as (_ & _ & _ & Hl & _). by destruct H as (_ & ? & _). }
  destruct (decide (r = me)) as [->|Hr]; [|by rewrite scan_other].
  destruct scan_me as (_ & E & _). destruct H as (_ & _ & H). by rewrite E in H.
Qed.

Lemma scan_duty : duty_inv n ro s'.
Proof.
  destruct (inv_duty _ _ _ _ Hinv) as [D1 D2 D3]. split; cbn [procs s'].
  - intros Hr. destruct (D1 Hr) as [r H]. exists r. by apply scan_restorer.
  - intros j wk' old. destruct (decide (j = me)) as [->|Hj].
    + unfold procs' at 1 2. rewrite upd_eq. cbn. intros H.
      assert (a' = WakeRead wk false /\ wk' = wk) as [Ha ->].
      { destruct Hpc as [[_ [ok ->]]|[_ ->]]; destruct H as [H|H]; simplify_eq; done. }
      destruct Hwants as (r & Hr & Hm); [by left|]. exists r. split; [done|].
      destruct (scan_wanted r Hr Hm) as (? & ? & _). done.
    + rewrite scan_pc by done. intros H. exfalso. apply (scan_inlist_other j Hj). by destruct H as [-> | ->].
  - rewrite !scan_counts by auto. intros He Hs i Hi.
    assert (Hi' : committed (procs s i)).
    { destruct (decide (i ∈ wk)) as [Hw|Hw]; [destruct (scan_taken i Hw) as (_ & _ & E & _); by rewrite E in Hi; destruct Hi|].
      destruct (decide (i = me)) as [->|Hne]; [|by rewrite scan_other in Hi].
      apply committed_listed in Hi as [_ Hi]. unfold stage_of, procs' in Hi. rewrite upd_eq in Hi. cbn in Hi.
      destruct scan_me as (_ & _ & _ & _ & E & _). by rewrite E in Hi. }
    destruct (D3 He Hs i Hi') as [q [Hq|Hq]]; [|exists q; right; by apply scan_restorer].
    destruct (decide (q = me)) as [->|Hne].
    + assert (Hp : p_pc (procs s me) = WakeScan).
      { destruct Hpc as [[E _]|[[val E] _]]; [done|]. unfold attempting in Hq. by rewrite E in Hq. }
      destruct Hwants as (r & Hr & Hm).
      { right. split; [done|]. intros Er. apply committed_listed in Hi. apply (queue_listed _ _ scan_queue) in Hi.
        cbn [waiters s'] in Hi. rewrite Er in Hi. by apply not_elem_of_nil in Hi. }
      exists r. right. destruct (scan_wanted r Hr Hm) as (H1 & H2 & H3). split; [done|]. by rewrite H2, H3.
    + exists q. left. unfold attempting in *. by rewrite scan_pc.
Qed.

Lemma scan_kept : kept n s'.
Proof.
  exists hw, ro. split; [|apply scan_local| |apply scan_queue|apply scan_wake|apply scan_duty].
  - destruct (inv_word _ _ _ _ Hinv) as [W1 W2 W3 W4]. split; cbn [procs state s']; rewrite ?scan_counts by auto; done.
  - intros i Hi. cbn [procs s']. rewrite scan_pc by lia. by apply (inv_out _ _ _ _ Hinv).
Qed.
End scan.

Lemma step_wake_scan hw ro s me s' :
  lw_inv n hw ro s -> (me < n)%nat -> p_pc (procs s me) = WakeScan -> run me s = Some s' -> kept n s'.
Proof.
  intros Hinv Hme Epc Hrun. unfold_run Hrun. rewrite Epc in Hrun.
  destruct (wakeup_scan _ false (waiters s)) as [[wk rest] ok] eqn:E. injection Hrun as <-.
  pose proof (split_of_scanned _ _ _ (wakeup_scan_split _ _ _ _ _ _ E)) as Hs.
  destruct (wakeup_scan_wants _ _ _ _ _ _ E) as (H1 & H2 & H3).
  assert (Hnot : me ∉ wk).
  { intros Hin. assert (Hl : me ∈ waiters s) by (apply (scan_mem _ _ _ Hs); by left).
    apply (queue_listed _ _ (inv_queue _ _ _ _ Hinv)) in Hl as [_ Hl]. unfold stage_of in Hl. by rewrite Epc in Hl. }
  unfold goto, with_proc. cbn [procs state waiters var].
  replace (mark_pending wk (procs s) me) with (procs s me)
    by (unfold mark_pending; by destruct (decide (me ∈ wk))).
  apply (scan_kept hw ro s me); try done; [left; eauto| |by intros; apply H3].
  intros [[= ->]|[_ Hr]]; [auto|]. by destruct (H2 Hr).
Qed.

Lemma step_update_scan hw ro s me val s' :
  lw_inv n hw ro s -> (me < n)%nat -> p_pc (procs s me) = UpdateScan val -> run me s = Some s' -> kept n s'.
Proof.
  intros Hinv Hme Epc Hrun. unfold_run Hrun. rewrite Epc in Hrun.
  destruct (update_scan _ (waiters s)) as [wk rest] eqn:E. injection Hrun as <-.
  pose proof (split_of_scanned _ _ _ (update_scan_split _ _ _ _ E)) as Hs.
  assert (Hnot : me ∉ wk).
  { intros Hin. assert (Hl : me ∈ waiters s) by (apply (scan_mem _ _ _ Hs); by left).
    apply (queue_listed _ _ (inv_queue _ _ _ _ Hinv)) in Hl as [_ Hl]. unfold stage_of in Hl. by rewrite Epc in Hl. }
  unfold goto, with_proc. cbn [procs state waiters var].
  replace (mark_pending wk (procs s) me) with (procs s me)
    by (unfold mark_pending; by destruct (decide (me ∈ wk))).
  apply (scan_kept hw ro s me); try done; [right; eauto| |by rewrite Epc].
  intros [?|[E' _]]; [done|congruence].
Qed.

(** ** Semaphores *)

(** Posting a semaphore disturbs nothing. *)
Lemma sem_kept hw ro s w :
  lw_inv n hw ro s -> lw_inv n hw ro (with_proc w (set_sem (S (sem (procs s w))) (procs s w)) s).
Proof.
  intros [[W1 W2 W3 W4] HL HO [Q1 Q2 Q3 Q4 Q5 Q6] [K1 K2 K3 K4] [D1 D2 D3]].
  set (g := upd (procs s) w (set_sem (S (sem (procs s w))) (procs s w))).
  assert (Hg : forall i, exists k, (sem (procs s i) <= k)%nat /\ g i = set_sem k (procs s i)).
  { intros i. unfold g. destruct (decide (i = w)) as [->|Hi]; [rewrite upd_eq|rewrite upd_ne by done].
    - exists (S (sem (procs s w))). split; [lia|done].
    - exists (sem (procs s i)). split; [lia|]. by destruct (procs s i). }
  assert (Hf : forall (A : Type) (f : proc -> A), (forall k p, f (set_sem k p) = f p) -> forall i, f (g i) = f (procs s i)).
  { intros A f H i. by destruct (Hg i) as (k & _ & ->). }
  assert (Hc : forall f, (forall k p, f (set_sem k p) = f p) -> cnt n f g = cnt n f (procs s))
    by (intros f H; apply cnt_ext; intros i _; by apply Hf).
  pose proof (Hf _ p_pc ltac:(done)) as Hpc. pose proof (Hf _ lwWaiting ltac:(done)) as Hw.
  pose proof (Hf _ stage_of ltac:(done)) as Hst. pose proof (Hf _ wakes ltac:(done)) as Hwk.
  pose proof (Hf _ retries ltac:(done)) as Hr. pose proof (Hf _ attempting ltac:(done)) as Ha.
  split.
  - split; cbn [state procs with_proc]; fold g; rewrite ?Hc by done; done.
  - intros i. cbn [procs with_proc]. fold g. destruct (Hg i) as (k & _ & ->). by destruct (HL i); split.
  - intros i Hi. cbn [procs with_proc]. fold g. rewrite Hpc. by apply HO.
  - split; cbn [waiters procs with_proc]; fold g; try done; intros i; rewrite ?Hpc; try done; [|by apply Q4|by apply Q5|by apply Q6].
    unfold listed. rewrite Hw, Hst. apply Q2.
  - split; cbn [procs with_proc]; fold g.
    + intros i. rewrite Hw, K1. split; intros [j Hj]; exists j; by rewrite Hwk in *.
    + intros j. by rewrite Hwk.
    + intros i j k. rewrite !Hwk. apply K3.
    + intros i. rewrite Hpc, Hw. intros H1 H2. destruct (K4 i H1 H2) as [?|(j & wk & E)].
      * left. destruct (Hg i) as (k & ? & ->). cbn. lia.
      * right. exists j, wk. by rewrite Hpc.
  - split; cbn [procs with_proc]; fold g.
    + intros H. destruct (D1 H) as [r Hd]. exists r. unfold restorer. by rewrite Hr, Hw, Hst.
    + intros j wk old. rewrite Hpc. intros H. destruct (D2 j wk old H) as (r & Hd). exists r. by rewrite Hr, Hst.
    + rewrite !Hc by done. intros H1 H2 i Hi. destruct (D3 H1 H2 i) as [q Hq].
      { unfold committed in *. by rewrite Hpc, Hw in Hi. }
      exists q. unfold active, restorer in *. by rewrite Ha, Hr, Hw, Hst.
Qed.

Lemma step_wake_post hw ro s me w wk s' :
  lw_inv n hw ro s -> (me < n)%nat -> p_pc (procs s me) = WakePost w wk -> run me s = Some s' -> kept n s'.
Proof.
  intros Hinv Hme Epc Hrun. unfold_run Hrun. rewrite Epc in Hrun. injection Hrun as <-.
  apply (sem_kept hw ro s w) in Hinv. set (s1 := with_proc w _ s) in *.
  assert (Epc1 : p_pc (procs s1 me) = WakePost w wk).
  { subst s1. cbn. destruct (decide (me = w)) as [->|]; [by rewrite upd_eq|by rewrite upd_ne]. }
  assert (Hs : (0 < sem (procs s1 w))%nat) by (subst s1; cbn; rewrite upd_eq; cbn; lia).
  clearbody s1. facts n few Hinv s1 me Epc1.
  apply (quiet_inv n hw ro hw ro s1 me); try done. quiet Epc1 Wx.
Qed.

(** ** Waking *)

Section wake.
Context (hw ro : bool) (s : sys) (me w : nat) (wk : list nat).
Hypothesis Hinv : lw_inv n hw ro s.
Hypothesis Hme : (me < n)%nat.
Hypothesis Epc : p_pc (procs s me) = WakeSet (w :: wk).
Let procs' : nat -> proc :=
  upd (upd (procs s) w (set_waiting LW_WS_NOT_WAITING (procs s w))) me (set_pc (WakePost w wk) (procs s me)).
Let s' : sys := mk_sys (state s) (waiters s) (var s) procs'.

Lemma wake_w : lwWaiting (procs s w) = LW_WS_PENDING_WAKEUP.
Proof.
  apply (wake_pending _ (inv_wake _ _ _ _ Hinv)). exists me. unfold wakes. rewrite Epc. apply list_elem_of_here.
Qed.

Lemma wake_ne : w <> me.
Proof.
  intros E. pose proof wake_w as Hw. rewrite E in Hw. pose proof (loc_waiting _ (inv_local _ _ _ _ Hinv me)) as Hl.
  unfold stage_of in Hl. rewrite Epc in Hl. cbn in Hl. congruence.
Qed.

Lemma wake_procs i :
  procs' i = if decide (i = me) then set_pc (WakePost w wk) (procs s me)
    else if decide (i = w) then set_waiting LW_WS_NOT_WAITING (procs s w) else procs s i.
Proof. reflexivity. Qed.

(** A projection that neither the places nor the flag change. *)
Lemma wake_same {A} (f : proc -> A) :
  f (set_pc (WakePost w wk) (procs s me)) = f (procs s me) ->
  f (set_waiting LW_WS_NOT_WAITING (procs s w)) = f (procs s w) -> forall i, f (procs' i) = f (procs s i).
Proof.
  intros H1 H2 i. rewrite wake_procs. destruct (decide (i = me)) as [->|]; [done|]. by destruct (decide (i = w)) as [->|].
Qed.

Lemma wake_counts f : (f = inlist \/ f = excl \/ f = shar) -> cnt n f procs' = cnt n f (procs s).
Proof.
  intros Hf. apply cnt_ext. intros i _. apply wake_same; destruct_or!; subst f; unfold inlist, excl, shar, owns;
    cbn [p_pc set_pc set_waiting held_lwlocks]; by rewrite ?Epc.
Qed.

Lemma wake_stage i : stage_of (procs' i) = stage_of (procs s i).
Proof. apply wake_same; unfold stage_of; cbn [p_pc set_pc set_waiting]; by rewrite ?Epc. Qed.
Lemma wake_retries i : retries (procs' i) = retries (procs s i).
Proof. apply wake_same; unfold retries; cbn [p_pc set_pc set_waiting]; by rewrite ?Epc. Qed.

Lemma wake_waiting i :
  lwWaiting (procs' i) = if decide (i = w) then LW_WS_NOT_WAITING else lwWaiting (procs s i).
Proof.
  rewrite wake_procs. pose proof wake_ne. destruct (decide (i = me)) as [->|].
  - destruct (decide (me = w)); [congruence|done].
  - by destruct (decide (i = w)).
Qed.

Lemma wake_is_waiting i : lwWaiting (procs' i) = LW_WS_WAITING <-> lwWaiting (procs s i) = LW_WS_WAITING.
Proof. rewrite wake_waiting. destruct (decide (i = w)) as [->|]; [by rewrite wake_w|done]. Qed.

Lemma wake_pc i : i <> me -> p_pc (procs' i) = p_pc (procs s i).
Proof. intros Hi. rewrite wake_procs. destruct (decide (i = me)); [done|]. by destruct (decide (i = w)) as [->|]. Qed.

Lemma wake_pc_me : p_pc (procs' me) = WakePost w wk.
Proof. unfold procs'. by rewrite upd_eq. Qed.

Lemma wake_restorer r : restorer (procs s r) -> restorer (procs' r).
Proof. unfold restorer. rewrite wake_retries, wake_stage, wake_is_waiting. done. Qed.

Lemma wake_lists j : wakes (procs' j) = if decide (j = me) then wk else wakes (procs s j).
Proof. unfold wakes. destruct (decide (j = me)) as [->|Hj]; [by rewrite wake_pc_me|by rewrite wake_pc]. Qed.

Lemma wake_kept_wake : wake_inv s'.
Proof.
  destruct (inv_wake _ _ _ _ Hinv) as [K1 K2 K3 K4].
  assert (Hwk : wakes (procs s me) = w :: wk) by (unfold wakes; by rewrite Epc).
  pose proof (K2 me) as Hnd. rewrite Hwk in Hnd. apply NoDup_cons in Hnd as [Hnw Hnd].
  split; cbn [procs s'].
  - intros i. rewrite wake_waiting. destruct (decide (i = w)) as [->|Hi].
    + split; [done|]. intros [j Hj]. exfalso. rewrite wake_lists in Hj. destruct (decide (j = me)); [done|].
      assert (j = me); [|done]. apply (K3 w); [done|]. rewrite Hwk. apply list_elem_of_here.
    + rewrite K1. split; intros [j Hj]; exists j; rewrite wake_lists in *; destruct (decide (j = me)) as [->|]; try done.
      * rewrite Hwk in Hj. by apply elem_of_cons in Hj as [?|?].
      * rewrite Hwk. by apply list_elem_of_further.
  - intros j. rewrite wake_lists. by destruct (decide (j = me)).
  - intros i j k. rewrite !wake_lists. intros Hj Hk. apply (K3 i).
    + destruct (decide (j = me)) as [->|]; [rewrite Hwk; by apply list_elem_of_further|done].
    + destruct (decide (k = me)) as [->|]; [rewrite Hwk; by apply list_elem_of_further|done].
  - intros i Ho Hn. destruct (decide (i = w)) as [->|Hi].
    { right. exists me, wk. apply wake_pc_me. }
    assert (Hpc : i <> me) by (intros ->; by rewrite wake_pc_me in Ho).
    rewrite wake_pc in Ho by done. rewrite wake_waiting in Hn. destruct (decide (i = w)); [done|].
    destruct (K4 i Ho Hn) as [?|(j & l & E)].
    + left. rewrite wake_procs. by destruct (decide (i = me)), (decide (i = w)).
    + right. exists j, l. rewrite wake_pc; [done|]. intros ->. congruence.
Qed.

Lemma wake_kept : kept n s'.
Proof.
  exists hw, ro. destruct (inv_queue _ _ _ _ Hinv) as [Q1 Q2 Q3 Q4 Q5 Q6]. destruct (inv_duty _ _ _ _ Hinv) as [D1 D2 D3].
  assert (Hne : forall i (P : pc -> Prop), ~ P (WakePost w wk) -> P (p_pc (procs' i)) -> P (p_pc (procs s i))).
  { intros i P H1 H2. destruct (decide (i = me)) as [->|]; [by rewrite wake_pc_me in H2|by rewrite wake_pc in H2]. }
  split; [| | | |apply wake_kept_wake|].
  - destruct (inv_word _ _ _ _ Hinv) as [W1 W2 W3 W4]. split; cbn [procs state s']; rewrite ?wake_counts by auto; done.
  - intros i. cbn [procs s']. rewrite wake_procs. destruct (inv_local _ _ _ _ Hinv i) as [L1 L2 L3 L4 L5 L6 L7].
    destruct (decide (i = me)) as [->|]; [unfold stage_of in *; rewrite Epc in *; by split|].
    destruct (decide (i = w)) as [->|]; [|done]. split; try done.
    unfold stage_of in *. cbn. rewrite wake_w in L3. destruct (pc_stage _) as [| |[]| |]; done.
  - intros i Hi. cbn [procs s']. rewrite wake_pc by lia. by apply (inv_out _ _ _ _ Hinv).
  - split; cbn [waiters procs s']; try done.
    + intros i. unfold listed. rewrite wake_is_waiting, wake_stage. apply Q2.
    + intros i fr H. by eapply Q4, (Hne i (fun a => a = _)).
    + intros i fr on H. by eapply Q5, (Hne i (fun a => a = _)).
    + intros i ok old H. eapply Q6, (Hne i (fun a => a = WakeRead [] ok \/ a = WakeCas [] ok old)); [|done]. by intros [?|?].
  - split; cbn [procs s'].
    + intros H. destruct (D1 H) as [r Hr]. exists r. by apply wake_restorer.
    + intros j l old H. destruct (D2 j l old) as (r & Hr).
      { apply (Hne j (fun a => a = WakeRead l false \/ a = WakeCas l false old)); [|done]. by intros [?|?]. }
      exists r. by rewrite wake_retries, wake_stage.
    + rewrite !wake_counts by auto. intros H1 H2 i [Hw Hc]. destruct (D3 H1 H2 i) as [q [Hq|Hq]].
      { split; [by apply wake_is_waiting|]. by apply (Hne i (fun a => pc_committed a = true)). }
      * exists q. left. unfold attempting in *. rewrite wake_pc; [done|]. intros ->. by rewrite Epc in Hq.
      * exists q. right. by apply wake_restorer.
Qed.
End wake.

Lemma step_wake_set hw ro s me l s' :
  lw_inv n hw ro s -> (me < n)%nat -> p_pc (procs s me) = WakeSet l -> run me s = Some s' -> kept n s'.
Proof.
  intros Hinv Hme Epc Hrun. unfold_run Hrun. rewrite Epc in Hrun. destruct l as [|w wk]; injection Hrun as <-.
  - facts n few Hinv s me Epc. apply (quiet_inv n hw ro hw ro s me); try done. quiet Epc Wx.
  - pose proof (wake_ne hw ro s me w wk Hinv Epc) as Hne. pose proof (wake_kept hw ro s me w wk Hinv Hme Epc) as Hk.
    unfold goto. cbn [procs with_proc]. rewrite upd_ne by done. exact Hk.
Qed.
End steps.
