(* ===== verification/LWLockProps.v ===== *)
(** Correctness of lightweight locks: mutual exclusion, the integrity of the wait
    queue, and that no wakeup is lost. *)

From S2P Require Import Prelude LWLock LWLockInv LWLockSteps LWLockWakeSteps.
Local Open Scope Z_scope.

(** ** The record of the lock *)

Lemma lock0_cons k m h : lock0 ((k, m) :: h) = if (k =? 0)%nat then (k, m) :: lock0 h else lock0 h.
Proof. unfold lock0. rewrite filter_cons. by destruct k. Qed.

Lemma lock0_held h : LWLockHeldByMe 0 h = false <-> lock0 h = [].
Proof.
  unfold LWLockHeldByMe. induction h as [|[k m] h IH]; [done|]. rewrite lock0_cons. simpl. by destruct (k =? 0)%nat.
Qed.

Lemma lock0_held_mode h m :
  (length (lock0 h) <= 1)%nat -> LWLockHeldByMeInMode 0 m h = true <-> lock0 h = [(0%nat, m)].
Proof.
  unfold LWLockHeldByMeInMode.
  assert (Hno : forall h, lock0 h = [] -> existsb (fun x => (fst x =? 0)%nat && bool_decide (snd x = m)) h = false).
  { clear. induction h as [|[k m'] h IH]; [done|]. rewrite lock0_cons. simpl. by destruct (k =? 0)%nat. }
  induction h as [|[k m'] h IH]; [done|]. rewrite lock0_cons. simpl. destruct (Nat.eqb_spec k 0) as [->|]; [|apply IH].
  simpl. intros Hl. assert (Hnil : lock0 h = []) by (destruct (lock0 h); [done|simpl in Hl; lia]).
  rewrite Hno, Hnil, orb_false_r by done. case_bool_decide; split; congruence.
Qed.

Lemma last_held_some h m rest : last_held 0 h = Some (m, rest) -> lock0 h <> [].
Proof.
  revert m rest. induction h as [|[k m'] h IH]; intros m rest; [done|]. rewrite lock0_cons. simpl.
  destruct (last_held 0 h) as [[m0 r0]|]; [|by destruct (k =? 0)%nat].
  intros _. destruct (k =? 0)%nat; [done|]. by eapply IH.
Qed.

Section props.
Context (n : nat).
Hypothesis few : Z.of_nat n <= MAX_BACKENDS.

(** ** The invariant holds in every reachable state *)

Lemma run_kept hw ro s me s' : lw_inv n hw ro s -> (me < n)%nat -> run me s = Some s' -> kept n s'.
Proof.
  intros Hinv Hme Hrun. destruct (p_pc (procs s me)) as [] eqn:Epc.
  all: try (eapply step_plain; [exact few|exact Hinv|exact Hme|by rewrite Epc|exact Hrun]).
  all: try (eapply step_flag; [exact few|exact Hinv|exact Hme|by rewrite Epc|exact Hrun]).
  all: try (eapply step_var; [exact few|exact Hinv|exact Hme|by rewrite Epc|exact Hrun]).
  all: try (eapply step_sleep; [exact few|exact Hinv|exact Hme|by rewrite Epc|exact Hrun]).
  all: try (eapply step_release_ok; [exact few|exact Hinv|exact Hme|by rewrite Epc|exact Hrun]).
  - unfold_run Hrun. by rewrite Epc in Hrun.
  - by eapply step_attempt_cas.
  - by eapply step_list_lock.
  - by eapply step_push.
  - by eapply step_delete.
  - destruct on_waitlist; [by eapply step_dequeued|].
    eapply step_release_ok; [exact few|exact Hinv|exact Hme|by rewrite Epc|exact Hrun].
  - by eapply step_finish.
  - by eapply step_update_scan.
  - by eapply step_clear_unlock.
  - by eapply step_release.
  - by eapply step_wake_scan.
  - eapply step_wake_cas; eauto.
  - eapply step_wake_cas; eauto.
  - by eapply step_wake_set.
  - by eapply step_wake_post.
  - unfold_run Hrun. by rewrite Epc in Hrun.
Qed.

Lemma release_kept hw ro s me s' :
  lw_inv n hw ro s -> (me < n)%nat -> p_pc (procs s me) = Idle -> release_held me s = Ok s' -> kept n s'.
Proof.
  intros Hinv Hme Epc Hrel. unfold release_held in Hrel. facts n few Hinv s me Epc.
  assert (Hh : exists m, lock0 (held_lwlocks (procs s me)) = [(0%nat, m)]).
  { destruct (last_held 0 (held_lwlocks (procs s me))) as [[m0 rest]|] eqn:El; [|done]. apply last_held_some in El.
    destruct (lock0 (held_lwlocks (procs s me))) as [|[k m] [|]] eqn:E; [done|exists m|simpl in F5; lia].
    assert (Hin : (k, m) ∈ lock0 (held_lwlocks (procs s me))) by (rewrite E; apply list_elem_of_here).
    apply list_elem_of_filter in Hin as [Hk _]. simpl in Hk. by subst k. }
  destruct Hh as [m Hh]. destruct (last_held_lock0 _ _ Hh) as (rest & E1 & E2). rewrite E1 in Hrel. injection Hrel as <-.
  apply (quiet_inv n hw ro hw ro s me); try done. constructor; counts; places Epc; rewrite ?Hh; try solve_place; try solve [word Wx].
  constructor; places Epc; rewrite ?E2; cbn; try solve_place. lia.
Qed.

Lemma start_kept hw ro s me r s' :
  lw_inv n hw ro s -> (me < n)%nat -> p_pc (procs s me) = Idle -> request_ok r (procs s me) ->
  start me r s = Ok s' -> kept n s'.
Proof.
  intros Hinv Hme Epc Hr Hs. unfold start, LWLockAcquire, LWLockConditionalAcquire, LWLockAcquireOrWait, begin_acquire in Hs.
  destruct r as [c| |val|val]; [|by eapply release_kept|..].
  - destruct Hr as [Hc Hh]. apply lock0_held in Hh.
    destruct c as [mode|mode|mode|oldval]; try (destruct (_ <=? _)%nat; [done|]); injection Hs as <-; facts n few Hinv s me Epc;
      apply (quiet_inv n hw ro hw ro s me); try done; constructor; counts; places Epc; rewrite ?Hh; try solve_place;
      try solve [word Wx]; constructor; places Epc; rewrite ?Hh; cbn; try solve_place; try lia;
      intros ? [= <-]; done.
  - injection Hs as <-. facts n few Hinv s me Epc. apply (lock0_held_mode _ _ F5) in Hr.
    apply (quiet_inv n hw ro hw ro s me); try done. quiet Epc Wx.
  - injection Hs as <-. facts n few Hinv s me Epc. apply (lock0_held_mode _ _ F5) in Hr.
    apply (quiet_inv n hw ro hw ro s me); try done. quiet Epc Wx.
Qed.

Lemma env_kept hw ro s me k h :
  lw_inv n hw ro s -> (me < n)%nat -> p_pc (procs s me) = Idle -> lock0 h = lock0 (held_lwlocks (procs s me)) ->
  kept n (with_proc me (set_held h (set_sem k (procs s me))) s).
Proof.
  intros Hinv Hme Epc Hh. facts n few Hinv s me Epc. apply (quiet_inv n hw ro hw ro s me); try done.
  constructor; counts; places Epc; rewrite ?Hh; try solve_place; try solve [word Wx].
  constructor; places Epc; rewrite ?Hh; cbn; solve_place.
Qed.

Lemma cnt_none f g : (forall i, f (g i) = false) -> cnt n f g = 0.
Proof.
  intros H. pose proof (cnt_range n f g). destruct (decide (0 < cnt n f g)) as [Hp|]; [|lia].
  apply cnt_pos in Hp as (i & _ & Hi). congruence.
Qed.

Lemma init_inv v : lw_inv n false true (LWLockInitialize v).
Proof.
  split; [| |done| | |].
  - split; cbn [LWLockInitialize procs state]; rewrite ?cnt_none by done; try lia. reflexivity.
  - intros i. by split; cbn; try lia.
  - split; cbn; try done; [apply NoDup_nil_2|].
    intros i. split; [by intros ?%not_elem_of_nil|]. by intros [? _].
  - split; cbn; try done.
    + intros i. split; [done|]. by intros [j ?%not_elem_of_nil].
    + intros j. apply NoDup_nil_2.
    + by intros i j k ?%not_elem_of_nil.
  - split; cbn; try done; [by intros j wk old [?|?]|]. by intros _ _ i [? _].
Qed.

Lemma reachable_kept v s : reachable n v s -> kept n s.
Proof.
  induction 1 as [|s s' _ [hw [ro IH]] Hstep]; [exists false, true; apply init_inv|].
  destruct Hstep as [me s s' Hme Hrun|me r s s' Hme Hpc Hr Hs|me s Hme|me k h s Hme Hpc Hh].
  - by eapply run_kept.
  - by eapply start_kept.
  - exists hw, ro. by apply sem_kept.
  - by eapply env_kept.
Qed.

(** ** Progress *)

(** A process that waits: it finds the wait queue locked, or its semaphore down. *)
Definition waits (s : sys) (j : nat) : Prop :=
  match p_pc (procs s j) with
  | ListLock _ _ => has (state s) LW_FLAG_LOCKED = true
  | Sleep _ | DequeueSleep _ _ => sem (procs s j) = 0%nat
  | _ => False
  end.

(** A process that is in the code and does not wait. *)
Definition moves (s : sys) (j : nat) : Prop := (j < n)%nat /\ ~ waits s j /\ exists s', run j s = Some s'.

Lemma run_enabled hw ro s j :
  lw_inv n hw ro s -> p_pc (procs s j) <> Idle -> ~ waits s j -> moves s j.
Proof.
  intros Hinv Hpc Hw. split; [by eapply inv_in|]. split; [done|].
  pose proof (loc_fits _ (inv_local _ _ _ _ Hinv j)) as Hf. unfold run, LWLockAttemptLock, LWLockWaitListLock, LWLockQueueSelf, LWLockDequeueSelf, LWLockWait,
    LWLockConflictsWithVar, LWLockUpdateVar, LWLockReleaseClearVar, LWLockRelease, LWLockWakeup, waits in *.
  destruct (p_pc (procs s j)) as [] eqn:Epc; try done; try (eexists; reflexivity);
    try (repeat case_match; try done; eexists; reflexivity).
Qed.

Lemma queue_mover hw ro s :
  lw_inv n hw ro s -> has (state s) LW_FLAG_LOCKED = true -> exists j, moves s j.
Proof.
  intros Hinv Hlk. pose proof (word_bounds n few _ _ _ (inv_word _ _ _ _ Hinv)) as (B1 & B2 & B3).
  rewrite (word_enc _ _ _ _ (inv_word _ _ _ _ Hinv)), enc_locked, Z.eqb_eq in Hlk by (done || lia).
  assert (0 < cnt n inlist (procs s)) as (j & Hj & Hin)%cnt_pos by lia.
  exists j. unfold inlist in Hin. eapply run_enabled; [exact Hinv|intros E; by rewrite E in Hin|].
  unfold waits. revert Hin. destruct (p_pc (procs s j)); intros ? Hf; simpl in *; done.
Qed.

(** Unless it is queued and not yet woken, a process in the code moves, or waits for
    one that does. *)
Lemma mover hw ro s q :
  lw_inv n hw ro s -> p_pc (procs s q) <> Idle ->
  (forall fr, p_pc (procs s q) = Sleep fr -> lwWaiting (procs s q) <> LW_WS_WAITING) -> exists j, moves s j.
Proof.
  intros Hinv Hpc Hsl.
  assert (Hwoken : pc_owed (p_pc (procs s q)) = true -> lwWaiting (procs s q) <> LW_WS_WAITING ->
    sem (procs s q) = 0%nat -> exists j, moves s j).
  { intros Ho Hw H0. destruct (lwWaiting (procs s q)) eqn:E; [|done|].
    - destruct (wake_post _ (inv_wake _ _ _ _ Hinv) q Ho E) as [?|(j & wk & Ej)]; [lia|].
      exists j. eapply run_enabled; [exact Hinv|congruence|unfold waits; rewrite Ej; intros ?; done].
    - apply (wake_pending _ (inv_wake _ _ _ _ Hinv)) in E as [j Hj]. exists j. unfold wakes in Hj.
      eapply run_enabled; [exact Hinv|intros E; rewrite E in Hj; by apply not_elem_of_nil in Hj|].
      unfold waits. revert Hj. destruct (p_pc (procs s j)); intros Hj Hf; simpl in *; try done; by apply not_elem_of_nil in Hj. }
  destruct (p_pc (procs s q)) as [] eqn:Epc; try done.
  all: try (exists q; eapply run_enabled; [exact Hinv|congruence|unfold waits; rewrite Epc; intros ?; done]).
  - destruct (has (state s) LW_FLAG_LOCKED) eqn:Elk; [by eapply queue_mover|].
    exists q. eapply run_enabled; [exact Hinv|congruence|unfold waits; rewrite Epc, Elk; intros ?; done].
  - destruct (decide (sem (procs s q) = 0%nat)) as [H0|H0].
    + apply Hwoken; [done| |done]. pose proof (loc_waiting _ (inv_local _ _ _ _ Hinv q)) as Hl.
      unfold stage_of in Hl. by rewrite Epc in Hl.
    + exists q. eapply run_enabled; [exact Hinv|congruence|unfold waits; rewrite Epc; intros ?; done].
  - destruct (decide (sem (procs s q) = 0%nat)) as [H0|H0]; [apply Hwoken; [done|by eapply Hsl|done]|].
    exists q. eapply run_enabled; [exact Hinv|congruence|unfold waits; rewrite Epc; intros ?; done].
Qed.

Lemma owner_mover hw ro s o m :
  lw_inv n hw ro s -> owns (procs s o) = Some m ->
  (p_pc (procs s o) = Idle -> LWLockHeldByMe 0 (held_lwlocks (procs s o)) = false) -> exists j, moves s j.
Proof.
  intros Hinv Ho Hidle. pose proof (inv_local _ _ _ _ Hinv o) as [L1 L2 L3 L4 L5 L6 L7].
  apply (mover hw ro s o Hinv).
  - intros E. specialize (Hidle E). apply lock0_held in Hidle. unfold owns in Ho. by rewrite E, Hidle in Ho.
  - intros fr E. unfold owns in Ho. rewrite E in Ho, L7. cbn in Ho. by rewrite L7 in Ho.
Qed.
End props.

(** ** Executions *)

Inductive event : Set := Run (i : nat) | Start (i : nat) (r : request).

Definition is_idle (p : proc) : bool := match p_pc p with Idle => true | _ => false end.
Definition request_okb (r : request) (p : proc) : bool :=
  match r with
  | Call (WaitForVar _) => negb (LWLockHeldByMe 0 (held_lwlocks p))
  | Call c => negb (bool_decide (call_mode c = LW_WAIT_UNTIL_FREE)) && negb (LWLockHeldByMe 0 (held_lwlocks p))
  | Release => true
  | UpdateVar _ | ReleaseClearVar _ => LWLockHeldByMeInMode 0 LW_EXCLUSIVE (held_lwlocks p)
  end.

(** What an event does to the system; nothing where it is not possible. *)
Definition happen (n : nat) (s : sys) (e : event) : sys :=
  match e with
  | Run i => if (i <? n)%nat then default s (run i s) else s
  | Start i r =>
      if (i <? n)%nat && is_idle (procs s i) && request_okb r (procs s i)
      then match start i r s with Ok s' => s' | Err _ => s end
      else s
  end.

Lemma request_okb_spec r p : request_okb r p = true -> request_ok r p.
Proof.
  destruct r as [[]| | |]; simpl; rewrite ?andb_true_iff, ?negb_true_iff; try done.
  all: intros [H1 H2]; split; [|done]; by case_bool_decide.
Qed.

Lemma happen_reachable n v es s : reachable n v s -> reachable n v (foldl (happen n) s es).
Proof.
  revert s. induction es as [|e es IH]; intros s Hs; [done|]. simpl. apply IH. destruct e as [i|i r]; simpl.
  - destruct (Nat.ltb_spec i n); [|done]. destruct (run i s) as [s'|] eqn:E; [|done].
    eapply reachable_step; [exact Hs|]. by eapply step_run.
  - destruct (_ && _) eqn:E; [|done]. rewrite !andb_true_iff, Nat.ltb_lt in E. destruct E as [[H1 H2] H3].
    destruct (start i r s) as [s'|] eqn:Es; [|done]. eapply reachable_step; [exact Hs|].
    eapply step_start; [done| |by apply request_okb_spec|exact Es]. unfold is_idle in H2. by destruct (p_pc (procs s i)).
Qed.

Lemma holder_owns p h : local_ok p -> lock0 (held_lwlocks p) = [h] -> owns p = Some (snd h).
Proof.
  intros [_ _ _ _ _ _ L] Hh. unfold owns. rewrite Hh in *.
  assert (Hn : pc_owns (p_pc p) = None); [|by rewrite Hn].
  destruct (p_pc p) as [| | |k| | | | | | | | | | | | | | | | | | | | | | | | | | | |] eqn:E; try done;
    try (by specialize (L eq_refl)); destruct k; try done; by specialize (L eq_refl).
Qed.

Lemma counted_owns p : excl p = true \/ shar p = true -> exists m, owns p = Some m.
Proof. unfold excl, shar. destruct (owns p) as [m|]; [eauto|by intros [?|?]]. Qed.

(** The holders exclude one another. *)
Lemma owners_exclude n hw ro s i j :
  lw_inv n hw ro s -> (i < n)%nat -> (j < n)%nat -> owns (procs s i) = Some LW_EXCLUSIVE -> i <> j ->
  owns (procs s j) = None.
Proof.
  intros Hinv Hi Hj Ho Hne. destruct (inv_word _ _ _ _ Hinv) as [_ _ We Wm].
  assert (Hx : excl (procs s i) = true) by (unfold excl; by rewrite Ho).
  assert (H1 : 1 <= cnt n excl (procs s)) by (by apply (cnt_has n s i)).
  destruct (owns (procs s j)) as [m|] eqn:E; [|done]. exfalso. destruct (decide (m = LW_EXCLUSIVE)) as [->|Hm].
  - apply Hne. eapply cnt_le1; eauto. unfold excl. by rewrite E.
  - assert (1 <= cnt n shar (procs s)); [|lia]. apply (cnt_has n s j); [done|]. unfold shar. rewrite E. by destruct m.
Qed.

(** ** The theorems *)

(** C2: mutual exclusion.  In every state that any number of processes up to
    MAX_BACKENDS can reach, in any interleaving, the lock bits of the word count
    the holders exactly, and while a process holds the lock exclusively nobody else
    holds it in any mode, nor is about to record that it does. *)
Theorem lwlock_mutual_exclusion (n : nat) (v : Z) (s : sys)
    (few : Z.of_nat n <= MAX_BACKENDS) (Hr : reachable n v s) :
  Z.land (state s) LW_LOCK_MASK = cnt n excl (procs s) * LW_VAL_EXCLUSIVE + cnt n shar (procs s)
  /\ forall i j, (i < n)%nat -> (j < n)%nat -> i <> j ->
       LWLockHeldByMeInMode 0 LW_EXCLUSIVE (held_lwlocks (procs s i)) = true ->
       owns (procs s j) = None /\ LWLockHeldByMe 0 (held_lwlocks (procs s j)) = false.
Proof.
  destruct (reachable_kept n few v s Hr) as (hw & ro & Hinv).
  pose proof (word_bounds n few _ _ _ (inv_word _ _ _ _ Hinv)) as (B1 & B2 & B3).
  pose proof (inv_local _ _ _ _ Hinv) as HL.
  split; [rewrite (word_enc _ _ _ _ (inv_word _ _ _ _ Hinv)); apply enc_mask; (done || lia)|].
  intros i j Hi Hj Hne Hh. apply (lock0_held_mode _ _ (loc_held _ (HL i))) in Hh.
  assert (Ho : owns (procs s j) = None) by (apply (owners_exclude n hw ro s i j); try done; by apply (holder_owns _ (0%nat, LW_EXCLUSIVE))).
  split; [done|]. apply lock0_held. pose proof (loc_held _ (HL j)) as Hl.
  destruct (lock0 (held_lwlocks (procs s j))) as [|h [|]] eqn:E; [done| |simpl in Hl; lia].
  by rewrite (holder_owns _ _ (HL j) E) in Ho.
Qed.

(** C6: the wait queue.  What the code asserts or takes for granted about the wait
    queue holds in every reachable state: nobody queues himself twice (so the PANIC
    is never reached), the queue has no duplicates and holds exactly processes that
    are marked as waiting, its flag is up while it is not empty, its spin lock is
    held by one process at most; a process taken off the queue is on the list of
    exactly one waker; the variable is changed only under the exclusive lock; and
    after a release nobody has the lock exclusively. *)
Theorem lwlock_queue_integrity (n : nat) (v : Z) (s : sys)
    (few : Z.of_nat n <= MAX_BACKENDS) (Hr : reachable n v s) :
  (forall i, p_pc (procs s i) <> Panic)
  /\ NoDup (waiters s)
  /\ (forall i, i ∈ waiters s -> lwWaiting (procs s i) = LW_WS_WAITING)
  /\ (waiters s <> [] -> has (state s) LW_FLAG_HAS_WAITERS = true)
  /\ (forall i, inlist (procs s i) = true ->
        has (state s) LW_FLAG_LOCKED = true /\ forall j, inlist (procs s j) = true -> j = i)
  /\ (forall i, lwWaiting (procs s i) = LW_WS_PENDING_WAKEUP ->
        exists j, i ∈ wakes (procs s j) /\ forall k, i ∈ wakes (procs s k) -> k = j)
  /\ (forall i val, p_pc (procs s i) = UpdateScan val -> has (state s) LW_VAL_EXCLUSIVE = true)
  /\ (forall i mode, p_pc (procs s i) = ReleaseSub mode ->
        has (uwrap 32 (state s - lock_val mode)) LW_VAL_EXCLUSIVE = false).
Proof.
  destruct (reachable_kept n few v s Hr) as (hw & ro & Hinv).
  pose proof (word_bounds n few _ _ _ (inv_word _ _ _ _ Hinv)) as (B1 & B2 & B3).
  destruct (inv_word _ _ _ _ Hinv) as [Wx Wl We Wm]. destruct (inv_queue _ _ _ _ Hinv) as [Q1 Q2 Q3 _ _ _].
  pose proof (inv_local _ _ _ _ Hinv) as HL. pose proof (inv_wake _ _ _ _ Hinv) as [K1 _ K3 _].
  assert (Hin : forall i, p_pc (procs s i) <> Idle -> (i < n)%nat) by (intros i; by apply (inv_in n hw ro)).
  split; [|split; [|split; [|split; [|split; [|split; [|split]]]]]].
  - intros i E. pose proof (loc_fits _ (HL i)) as Hf. by rewrite E in Hf.
  - done.
  - intros i Hi. by apply Q2 in Hi as [? _].
  - intros Hw. rewrite Wx, enc_has_waiters by (done || lia). auto.
  - intros i Hi. assert (Hlt : (i < n)%nat) by (apply Hin; intros E; unfold inlist in Hi; by rewrite E in Hi).
    split; [|intros j Hj; by apply (inlist_unique n hw ro s)].
    rewrite Wx, enc_locked, Z.eqb_eq by (done || lia). pose proof (cnt_has n s i Hlt inlist Hi). lia.
  - intros i Hi. apply K1 in Hi as [j Hj]. exists j. split; [done|]. intros k Hk. by apply (K3 i).
  - intros i val E. assert (Hlt : (i < n)%nat) by (apply Hin; congruence).
    pose proof (loc_holding _ (HL i)) as Hh. rewrite E in Hh. specialize (Hh eq_refl).
    rewrite Wx, enc_exclusive, Z.eqb_eq by (done || lia).
    assert (1 <= cnt n excl (procs s)); [|lia]. apply (cnt_has n s i Hlt). unfold excl.
    by rewrite (holder_owns _ _ (HL i) Hh).
  - intros i mode E. assert (Hlt : (i < n)%nat) by (apply Hin; congruence).
    assert (Cx : mode = LW_EXCLUSIVE -> cnt n excl (procs s) = 1 /\ cnt n shar (procs s) = 0).
    { intros ->. assert (1 <= cnt n excl (procs s)); [|lia]. apply (cnt_has n s i Hlt). unfold excl, owns. by rewrite E. }
    assert (Cs : mode <> LW_EXCLUSIVE -> 1 <= cnt n shar (procs s) /\ cnt n excl (procs s) = 0).
    { intros Hm. assert (1 <= cnt n shar (procs s)); [|unfold bit01 in *; lia].
      apply (cnt_has n s i Hlt). unfold shar, owns. rewrite E. by destruct mode. }
    rewrite Wx, release_word, enc_exclusive by
      (done || lia || (case_bool_decide as Hm; [destruct (Cx Hm)|destruct (Cs Hm)]; unfold bit01; simpl; lia)).
    apply Z.eqb_neq. case_bool_decide as Hm; [destruct (Cx Hm)|destruct (Cs Hm)]; simpl; lia.
Qed.

(** C3: no wakeup is lost.  As long as no process outside of the code of the lock
    holds it, the processes inside never all wait: some process that neither spins
    on the queue nor sleeps on its semaphore can make a step.  In particular a
    sleeping process whose lock has become free always has somebody at work who will
    wake it, take the lock, or make the next release wake it. *)
Theorem lwlock_no_lost_wakeup (n : nat) (v : Z) (s : sys) (i : nat)
    (few : Z.of_nat n <= MAX_BACKENDS) (Hr : reachable n v s)
    (Hin : p_pc (procs s i) <> Idle)
    (Hfree : forall j, p_pc (procs s j) = Idle -> LWLockHeldByMe 0 (held_lwlocks (procs s j)) = false) :
  exists j, moves n s j.
Proof.
  destruct (reachable_kept n few v s Hr) as (hw & ro & Hinv).
  destruct (decide (lwWaiting (procs s i) = LW_WS_WAITING /\ pc_committed (p_pc (procs s i)) = true)) as [Hc|Hc].
  - destruct (decide (0 < cnt n excl (procs s))) as [(o & Ho & Hx)%cnt_pos|Hx].
    { destruct (counted_owns (procs s o) (or_introl Hx)) as [m Hm]. apply (owner_mover n few hw ro s o m); auto. }
    destruct (decide (0 < cnt n shar (procs s))) as [(o & Ho & Hs)%cnt_pos|Hs].
    { destruct (counted_owns (procs s o) (or_intror Hs)) as [m Hm]. apply (owner_mover n few hw ro s o m); auto. }
    pose proof (cnt_range n excl (procs s)). pose proof (cnt_range n shar (procs s)).
    destruct (duty_free _ _ _ (inv_duty _ _ _ _ Hinv) ltac:(lia) ltac:(lia) i Hc) as [q Hq].
    apply (mover n few hw ro s q Hinv).
    + intros E. destruct Hq as [Hq|(Hq & _)]; unfold attempting, retries in Hq; by rewrite E in Hq.
    + intros fr E. destruct Hq as [Hq|(_ & ? & _)]; [unfold attempting in Hq; by rewrite E in Hq|done].
  - apply (mover n few hw ro s i Hinv); [done|]. intros fr E Hw. apply Hc. by rewrite E.
Qed.

(** ** Examples *)

Module Sample.
(** Process 0 takes the lock; process 1 wants it too and goes to sleep. *)
Definition contended : list event :=
  Start 0 (Call (Acquire LW_EXCLUSIVE)) :: replicate 3 (Run 0)
  ++ Start 1 (Call (Acquire LW_EXCLUSIVE)) :: replicate 9 (Run 1).
Definition before : sys := foldl (happen 2) (LWLockInitialize 0) contended.

(** Process 0 has released the lock, and has not woken anybody yet. *)
Definition after_release : sys := foldl (happen 2) before [Start 0 Release; Run 0].

Lemma before_reachable : reachable 2 0 before.
Proof. apply happen_reachable, reachable_init. Qed.
Lemma after_reachable : reachable 2 0 after_release.
Proof. apply happen_reachable, before_reachable. Qed.
End Sample.

Lemma lwlock_mutual_exclusion_witness :
  LWLockHeldByMeInMode 0 LW_EXCLUSIVE (held_lwlocks (procs Sample.before 0)) = true
  /\ owns (procs Sample.before 1) = None.
Proof.
  split; [vm_compute; reflexivity|].
  destruct (lwlock_mutual_exclusion 2 0 Sample.before) as [_ H];
    [vm_compute; discriminate|apply Sample.before_reachable|].
  apply (H 0%nat 1%nat); [lia|lia|lia|vm_compute; reflexivity].
Defined.

Lemma lwlock_queue_integrity_witness :
  waiters Sample.before = [1%nat] /\ has (state Sample.before) LW_FLAG_HAS_WAITERS = true.
Proof.
  split; [vm_compute; reflexivity|].
  destruct (lwlock_queue_integrity 2 0 Sample.before) as (_ & _ & _ & H & _);
    [vm_compute; discriminate|apply Sample.before_reachable|].
  apply H. by vm_compute.
Defined.

Lemma lwlock_no_lost_wakeup_witness :
  waits Sample.after_release 1 /\ exists j, moves 2 Sample.after_release j.
Proof.
  split; [vm_compute; reflexivity|].
  apply (lwlock_no_lost_wakeup 2 0 Sample.after_release 1);
    [vm_compute; discriminate|apply Sample.after_reachable|by vm_compute|].
  intros j _. destruct j as [|[|j]]; vm_compute; reflexivity.
Defined.
