(* ===== verification/Pglz.v ===== *)
(** The LZ compressor for column values: common/pg_lzcompress.c.

    Buffers are lists of bytes; a pointer into one is an index.  The history tables
    are the static arrays of the file, with whatever an earlier call has left in
    them; entry 0 is the end of every chain.  Bytes are read as signed where the
    code reads them through [char]. *)

From S2P Require Import Prelude.
Local Open Scope Z_scope.

Definition PGLZ_MAX_HISTORY_LISTS : nat := Z.to_nat 8192.
Definition PGLZ_HISTORY_SIZE : nat := Z.to_nat 4096.
Definition PGLZ_MAX_MATCH : nat := 273.
Definition PGLZ_MAX_OUTPUT (dlen : Z) : Z := dlen + 4.
Definition C_INT_MAX : Z := 2 ^ 31 - 1.

Record PGLZ_Strategy : Set := mk_strategy {
  min_input_size : Z;
  max_input_size : Z;
  min_comp_rate : Z;
  first_success_by : Z;
  match_size_good : Z;
  match_size_drop : Z
}.

Definition PGLZ_strategy_default : PGLZ_Strategy := mk_strategy 32 C_INT_MAX 25 1024 128 10.
Definition PGLZ_strategy_always : PGLZ_Strategy := mk_strategy 0 C_INT_MAX 0 C_INT_MAX 128 6.

(** ** The history *)

(** [next] and [prev] are pointers into the array; [None] is NULL. *)
Record PGLZ_HistEntry : Set := mk_entry {
  next : option nat;
  prev : option nat;
  hindex : nat;
  pos : nat
}.

Definition no_entry : PGLZ_HistEntry := mk_entry None None 0 0.
Definition entry (he : list PGLZ_HistEntry) (i : nat) : PGLZ_HistEntry := default no_entry (he !! i).
Definition set_next (n : option nat) (e : PGLZ_HistEntry) : PGLZ_HistEntry :=
  mk_entry n (prev e) (hindex e) (pos e).
Definition set_prev (p : option nat) (e : PGLZ_HistEntry) : PGLZ_HistEntry :=
  mk_entry (next e) p (hindex e) (pos e).

Record history : Set := mk_history {
  hist_start : list nat;
  hist_entries : list PGLZ_HistEntry;
  hist_next : nat;
  hist_recycle : bool
}.

Definition INVALID_ENTRY : nat := 0.

Definition schar (b : Z) : Z := swrap 8 b.

Definition pglz_hist_idx (source : list Z) (s e : nat) (mask : Z) : nat :=
  let at_ k := schar (rd source (s + k)) in
  let h :=
    if Z.of_nat e - Z.of_nat s <? 4 then at_ 0%nat
    else Z.lxor (Z.lxor (Z.lxor (Z.shiftl (at_ 0%nat) 6) (Z.shiftl (at_ 1%nat) 4))
                   (Z.shiftl (at_ 2%nat) 2)) (at_ 3%nat) in
  Z.to_nat (Z.land h mask).

Definition head_of (hs : list nat) (h : nat) : nat := default INVALID_ENTRY (hs !! h).

Definition pglz_hist_add (source : list Z) (s e : nat) (mask : Z) (hist : history) : history :=
  let hidx := pglz_hist_idx source s e mask in
  let hn := hist_next hist in
  let hs := hist_start hist in
  let he := hist_entries hist in
  let '(hs, he) :=
    if hist_recycle hist then
      let myhe := entry he hn in
      let '(hs, he) :=
        match prev myhe with
        | None => (<[hindex myhe := default INVALID_ENTRY (next myhe)]> hs, he)
        | Some p => (hs, <[p := set_next (next myhe) (entry he p)]> he)
        end in
      let myhe := entry he hn in
      match next myhe with
      | None => (hs, he)
      | Some k => (hs, <[k := set_prev (prev myhe) (entry he k)]> he)
      end
    else (hs, he) in
  let first := head_of hs hidx in
  let he := <[hn := mk_entry (Some first) None hidx s]> he in
  let he := <[first := set_prev (Some hn) (entry he first)]> he in
  let hs := <[hidx := hn]> hs in
  let hn := S hn in
  if (PGLZ_HISTORY_SIZE + 1 <=? hn)%nat
  then mk_history hs he 1 true
  else mk_history hs he hn (hist_recycle hist).

(** ** Output *)

Record output : Set := mk_output {
  dest : list Z;
  bp : nat;
  ctrlp : option nat;    (* [None] is the dummy *)
  ctrlb : Z;
  ctrl : Z
}.

(** [*ctrlp = ctrlb] *)
Definition put_ctrl (o : output) : list Z :=
  match ctrlp o with None => dest o | Some i => <[i := ctrlb o]> (dest o) end.

Definition pglz_out_ctrl (o : output) : output :=
  if Z.land (ctrl o) 0xff =? 0
  then mk_output (put_ctrl o) (S (bp o)) (Some (bp o)) 0 1
  else o.

Definition pglz_out_literal (byte : Z) (o : output) : output :=
  let o := pglz_out_ctrl o in
  mk_output (<[bp o := uwrap 8 byte]> (dest o)) (S (bp o)) (ctrlp o) (ctrlb o) (uwrap 8 (Z.shiftl (ctrl o) 1)).

(** The bytes of a tag. *)
Definition tag_bytes (len off : Z) : list Z :=
  if 17 <? len
  then [uwrap 8 (Z.lor (Z.shiftr (Z.land off 0xf00) 4) 0x0f); uwrap 8 (Z.land off 0xff); uwrap 8 (len - 18)]
  else [uwrap 8 (Z.lor (Z.shiftr (Z.land off 0xf00) 4) (len - 3)); uwrap 8 (Z.land off 0xff)].

Fixpoint put_bytes (l : list Z) (i : nat) (d : list Z) : list Z :=
  match l with
  | [] => d
  | x :: l => put_bytes l (S i) (<[i := x]> d)
  end.

Definition pglz_out_tag (len off : nat) (o : output) : output :=
  let o := pglz_out_ctrl o in
  let l := tag_bytes (Z.of_nat len) (Z.of_nat off) in
  mk_output (put_bytes l (bp o) (dest o)) (bp o + length l) (ctrlp o)
    (Z.lor (ctrlb o) (ctrl o)) (uwrap 8 (Z.shiftl (ctrl o) 1)).

(** ** Finding a match *)

(** [while (ip < end && *ip == *hp && thislen < PGLZ_MAX_MATCH)]: [room] is
    PGLZ_MAX_MATCH - thislen. *)
Fixpoint extend (source : list Z) (slen room ip hp thislen : nat) : nat :=
  match room with
  | O => thislen
  | S room =>
      if (ip <? slen)%nat && (rd source ip =? rd source hp)
      then extend source slen room (S ip) (S hp) (S thislen)
      else thislen
  end.

(** [memcmp(ip, hp, len) == 0] *)
Definition memeq (source : list Z) (ip hp len : nat) : bool :=
  forallb (fun k => rd source (ip + k) =? rd source (hp + k)) (seq 0 len).

Record finding : Set := mk_finding { hent : nat; f_len : nat; f_off : nat; good_match : Z }.

(** One round over the chain; [Return None] is a dereferenced null pointer. *)
Definition find_step (source : list Z) (slen input : nat) (he : list PGLZ_HistEntry) (good_drop : Z)
    (f : finding) : flow finding (option finding) :=
  if (hent f =? INVALID_ENTRY)%nat then Return (Some f)
  else
    let e := entry he (hent f) in
    let thisoff := Z.of_nat input - Z.of_nat (pos e) in
    if 0x0fff <=? thisoff then Return (Some f)
    else
      let len := f_len f in
      let thislen :=
        if (16 <=? len)%nat then
          if memeq source input (pos e) len
          then extend source slen (PGLZ_MAX_MATCH - len) (input + len) (pos e + len) len
          else 0%nat
        else extend source slen PGLZ_MAX_MATCH input (pos e) 0 in
      let '(len, off) := if (len <? thislen)%nat then (thislen, Z.to_nat thisoff) else (len, f_off f) in
      match next e with
      | None => Return None
      | Some hent =>
          if negb (hent =? INVALID_ENTRY)%nat then
            if good_match f <=? Z.of_nat len then Return (Some (mk_finding hent len off (good_match f)))
            else
              Next (mk_finding hent len off (good_match f - Z.quot (good_match f * good_drop) 100))
          else Next (mk_finding hent len off (good_match f))
      end.

(** [Some None] when there is no match; the chains are at most as long as the
    window. *)
Definition pglz_find_match (source : list Z) (slen input : nat) (hist : history) (good_match good_drop mask : Z)
  : option (option (nat * nat)) :=
  let hentno := head_of (hist_start hist) (pglz_hist_idx source input slen mask) in
  match while (S PGLZ_HISTORY_SIZE) (find_step source slen input (hist_entries hist) good_drop)
          (mk_finding hentno 0 0 good_match) with
  | Some (Some f) => if (2 <? f_len f)%nat then Some (Some (f_len f, f_off f)) else Some None
  | _ => None
  end.

(** ** Compression *)

Record compressing : Set := mk_compressing {
  c_out : output;
  c_hist : history;
  c_dp : nat;
  found_match : bool
}.

(** [while (match_len--) { pglz_hist_add(...); dp++; }] *)
Fixpoint add_all (source : list Z) (slen : nat) (mask : Z) (match_len dp : nat) (hist : history) : history :=
  match match_len with
  | O => hist
  | S k => add_all source slen mask k (S dp) (pglz_hist_add source dp slen mask hist)
  end.

(** What the calls of [pglz_compress] return: the value, the output buffer and the
    history; [None] is a crash. *)
Definition answer : Type := option (Z * list Z * history).

Definition compress_step (source : list Z) (slen : nat) (result_max first_success_by good_match good_drop mask : Z)
    (c : compressing) : flow compressing answer :=
  let o := c_out c in
  let dp := c_dp c in
  if (dp <? slen)%nat then
    if result_max <=? Z.of_nat (bp o) then Return (Some (-1, dest o, c_hist c))
    else if negb (found_match c) && (first_success_by <=? Z.of_nat (bp o)) then Return (Some (-1, dest o, c_hist c))
    else
      match pglz_find_match source slen dp (c_hist c) good_match good_drop mask with
      | None => Return None
      | Some (Some (match_len, match_off)) =>
          Next (mk_compressing (pglz_out_tag match_len match_off o)
                  (add_all source slen mask match_len dp (c_hist c)) (dp + match_len) true)
      | Some None =>
          Next (mk_compressing (pglz_out_literal (rd source dp) o)
                  (pglz_hist_add source dp slen mask (c_hist c)) (S dp) (found_match c))
      end
  else
    let d := put_ctrl o in
    let result_size := Z.of_nat (bp o) in
    if result_max <=? result_size then Return (Some (-1, d, c_hist c))
    else Return (Some (result_size, d, c_hist c)).

Definition clamp (lo hi x : Z) : Z := if hi <? x then hi else if x <? lo then lo else x.

Definition hash_size (slen : Z) : Z :=
  if slen <? 128 then 512
  else if slen <? 256 then 1024
  else if slen <? 512 then 2048
  else if slen <? 1024 then 4096
  else 8192.

Definition compute_result_max (slen need_rate : Z) : Z :=
  if C_INT_MAX / 100 <? slen then slen / 100 * (100 - need_rate)
  else slen * (100 - need_rate) / 100.

(** [memset(hist_start, 0, hashsz * sizeof(int16))] *)
Definition clear_lists (hashsz : Z) (hs : list nat) : list nat :=
  replicate (Z.to_nat hashsz) INVALID_ENTRY ++ drop (Z.to_nat hashsz) hs.

Definition pglz_compress (source : list Z) (dest : list Z) (strategy : option PGLZ_Strategy)
    (hs : list nat) (he : list PGLZ_HistEntry) : answer :=
  let slen := Z.of_nat (length source) in
  let strategy := default PGLZ_strategy_default strategy in
  if (match_size_good strategy <=? 0) || (slen <? min_input_size strategy) || (max_input_size strategy <? slen)
  then Some (-1, dest, mk_history hs he 1 false)
  else
    let good_match := clamp 17 (Z.of_nat PGLZ_MAX_MATCH) (match_size_good strategy) in
    let good_drop := clamp 0 100 (match_size_drop strategy) in
    let need_rate := clamp 0 99 (min_comp_rate strategy) in
    let result_max := compute_result_max slen need_rate in
    let hashsz := hash_size slen in
    let mask := hashsz - 1 in
    let hist := mk_history (clear_lists hashsz hs) he 1 false in
    match while (S (length source))
            (compress_step source (length source) result_max (first_success_by strategy) good_match good_drop mask)
            (mk_compressing (mk_output dest 0 None 0 0) hist 0 false) with
    | Some r => r
    | None => None
    end.

(** ** Decompression *)

(** The memory in front of the output buffer is a parameter: [front j] is the byte at
    [dest - 1 - j], so that the bytes from [dest - n] on are these. *)
Definition bytes_before (front : nat -> Z) (n : nat) : list Z := map front (rev (seq 0 n)).

(** [memcpy(dp, dp - off, n)], whose two areas do not overlap. The area it reads starts in
    front of the buffer when [off] exceeds [dp]. *)
Definition copy_within (front : nat -> Z) (dest : list Z) (dp off n : nat) : list Z :=
  take dp dest ++ take n (bytes_before front (off - dp) ++ drop (dp - off) dest) ++ drop (dp + n) dest.

(** The copy of a match; [fuel] is enough when it exceeds [len]. *)
Fixpoint copy_match (front : nat -> Z) (fuel : nat) (dest : list Z) (dp off len : nat) : option (list Z * nat) :=
  match fuel with
  | O => None
  | S fuel =>
      if (off <? len)%nat then
        let dest := copy_within front dest dp off off in
        copy_match front fuel dest (dp + off) (off + off) (len - off)
      else Some (copy_within front dest dp off len, (dp + len)%nat)
  end.

Inductive decompressed : Set :=
| Bytes (n : nat)       (* the number of bytes written *)
| Corrupt.              (* -1 *)

(** The items of one control byte: the rest of [for (ctrlc ...)], [k] rounds of it.
    [inl] leaves the function. *)
Fixpoint items (front : nat -> Z) (k : nat) (source : list Z) (srcend destend : nat) (ctrl : Z) (sp dp : nat) (dest : list Z)
  : option ((decompressed * list Z) + (nat * nat * list Z)) :=
  match k with
  | O => Some (inr (sp, dp, dest))
  | S k =>
      if (sp <? srcend)%nat && (dp <? destend)%nat then
        if negb (Z.land ctrl 1 =? 0) then
          let len := Z.land (rd source sp) 0x0f + 3 in
          let off := Z.lor (Z.shiftl (Z.land (rd source sp) 0xf0) 4) (rd source (S sp)) in
          let sp := (sp + 2)%nat in
          let '(len, sp) := if len =? 18 then (len + rd source sp, S sp) else (len, sp) in
          if (srcend <? sp)%nat || (off =? 0) then Some (inl (Corrupt, dest))
          else
            let len := Nat.min (Z.to_nat len) (destend - dp) in
            let off := Z.to_nat off in
            match copy_match front (S len) dest dp off len with
            | None => None
            | Some (dest, dp) => items front k source srcend destend (Z.shiftr ctrl 1) sp dp dest
            end
        else
          let dest := <[dp := rd source sp]> dest in
          items front k source srcend destend (Z.shiftr ctrl 1) (S sp) (S dp) dest
      else Some (inr (sp, dp, dest))
  end.

Definition decompress_step (front : nat -> Z) (source : list Z) (srcend destend : nat) (check_complete : bool)
    (s : nat * nat * list Z) : flow (nat * nat * list Z) (option (decompressed * list Z)) :=
  let '(sp, dp, dest) := s in
  if (sp <? srcend)%nat && (dp <? destend)%nat then
    let ctrl := rd source sp in
    match items front 8 source srcend destend ctrl (S sp) dp dest with
    | None => Return None
    | Some (inl r) => Return (Some r)
    | Some (inr s) => Next s
    end
  else if check_complete && (negb (dp =? destend)%nat || negb (sp =? srcend)%nat)
  then Return (Some (Corrupt, dest))
  else Return (Some (Bytes dp, dest)).

Definition pglz_decompress (front : nat -> Z) (source : list Z) (slen : nat) (dest : list Z) (rawsize : nat)
    (check_complete : bool)
  : option (decompressed * list Z) :=
  match while (S slen) (decompress_step front source slen rawsize check_complete) (0%nat, 0%nat, dest) with
  | Some r => r
  | None => None
  end.

Definition pglz_maximum_compressed_size (rawsize total_compressed_size : Z) : Z :=
  let compressed_size := (rawsize * 9 + 7) / 8 in
  let compressed_size := compressed_size + 2 in
  Z.min compressed_size total_compressed_size.
