(* ===== verification/PglzDecode.v ===== *)
(** The compressed format and its decompression: a stream of literals and tags,
    eight to a control byte, is decompressed to what the tokens stand for. *)

From S2P Require Import Prelude Pglz.
Local Open Scope Z_scope.

(** ** Tokens *)

Inductive token : Set :=
| Lit (b : Z)
| Tag (len off : nat).

(** The last [off] bytes of [out], repeated to [n] bytes. *)
Definition repeated (n off : nat) (out : list Z) : list Z :=
  map (fun i => rd out (length out - off + i mod off)) (seq 0 n).

Definition expand (out : list Z) (t : token) : list Z :=
  match t with
  | Lit b => out ++ [b]
  | Tag len off => out ++ repeated len off out
  end.
Definition expand_all (out : list Z) (l : list token) : list Z := foldl expand out l.

(** What the format can express, given the length of the output so far. *)
Definition token_ok (n : nat) (t : token) : Prop :=
  match t with
  | Lit b => in_u 8 b
  | Tag len off => (3 <= len <= PGLZ_MAX_MATCH /\ 1 <= off < 4095 /\ off <= n)%nat
  end.
Fixpoint tokens_ok (out : list Z) (l : list token) : Prop :=
  match l with
  | [] => True
  | t :: l => token_ok (length out) t /\ tokens_ok (expand out t) l
  end.

(** ** The format *)

Definition body (t : token) : list Z :=
  match t with Lit b => [b] | Tag len off => tag_bytes (Z.of_nat len) (Z.of_nat off) end.
Definition bodies (l : list token) : list Z := concat (map body l).

Definition is_tag (t : token) : bool := match t with Lit _ => false | Tag _ _ => true end.
Fixpoint bits (l : list token) : Z :=
  match l with
  | [] => 0
  | t :: l => Z.b2z (is_tag t) + 2 * bits l
  end.

(** A control byte and its items. *)
Definition group (l : list token) : list Z := bits l :: bodies l.
Definition stream (gs : list (list token)) : list Z := concat (map group gs).

(** Every control byte but the last has eight items. *)
Fixpoint groups_ok (gs : list (list token)) : Prop :=
  match gs with
  | [] => True
  | [g] => (1 <= length g <= 8)%nat
  | g :: gs => length g = 8%nat /\ groups_ok gs
  end.

(** The bytes of a tag give the tag back. *)
Definition tag_check (off k : Z) : bool :=
  let b0 := uwrap 8 (Z.lor (Z.shiftr (Z.land off 0xf00) 4) k) in
  let b1 := uwrap 8 (Z.land off 0xff) in
  (Z.land b0 0x0f =? k) && (Z.lor (Z.shiftl (Z.land b0 0xf0) 4) b1 =? off).

Lemma tag_check_all : forallb (fun off => forallb (tag_check off) (seqZ 0 16)) (seqZ 0 4096) = true.
Proof. vm_compute. reflexivity. Qed.

Lemma tag_check_ok off k : 0 <= off < 4096 -> 0 <= k < 16 -> tag_check off k = true.
Proof.
  intros Ho Hk. pose proof tag_check_all as H. rewrite forallb_forall in H.
  specialize (H off ltac:(apply list_elem_of_In, elem_of_seqZ; lia)). rewrite forallb_forall in H.
  apply H, list_elem_of_In, elem_of_seqZ. lia.
Qed.

Lemma tag_decode len off :
  3 <= len <= 273 -> 0 <= off < 4096 ->
  exists b0 b1, tag_bytes len off = b0 :: b1 :: (if 17 <? len then [len - 18] else [])
    /\ Z.land b0 0x0f + 3 = (if 17 <? len then 18 else len)
    /\ Z.lor (Z.shiftl (Z.land b0 0xf0) 4) b1 = off.
Proof.
  intros Hl Ho. unfold tag_bytes. destruct (Z.ltb_spec 17 len) as [H|H].
  - pose proof (tag_check_ok off 15 Ho ltac:(lia)) as Hc. unfold tag_check in Hc.
    rewrite andb_true_iff, !Z.eqb_eq in Hc. destruct Hc as [H1 H2].
    rewrite (uwrap_small 8 (len - 18)) by (unfold in_u; lia). do 2 eexists. split; [done|]. split; [|done].
    rewrite H1. done.
  - pose proof (tag_check_ok off (len - 3) Ho ltac:(lia)) as Hc. unfold tag_check in Hc.
    rewrite andb_true_iff, !Z.eqb_eq in Hc. destruct Hc as [H1 H2].
    do 2 eexists. split; [done|]. split; [|done]. rewrite H1. lia.
Qed.

(** ** Repetition *)

Lemma length_repeated n off out : length (repeated n off out) = n.
Proof. unfold repeated. by rewrite length_map, length_seq. Qed.

Lemma repeated_lookup n off out i :
  (i < n)%nat -> repeated n off out !! i = Some (rd out (length out - off + i mod off)).
Proof. intros Hi. unfold repeated. rewrite list_lookup_fmap, lookup_seq_lt by done. done. Qed.

(** A copy that does not reach into itself. *)
Lemma repeated_short n off out :
  (1 <= off <= length out)%nat -> (n <= off)%nat -> repeated n off out = take n (drop (length out - off) out).
Proof.
  intros Ho Hn. apply list_eq. intros i. destruct (decide (i < n)%nat) as [Hi|Hi].
  - rewrite repeated_lookup, lookup_take_lt, lookup_drop by done.
    rewrite rd_lookup by lia. rewrite Nat.mod_small by lia. done.
  - rewrite !lookup_ge_None_2; [done|rewrite length_take; lia|rewrite length_repeated; lia].
Qed.

(** After one period has been copied, the period may be taken twice as long. *)
Lemma repeated_double n off out :
  (1 <= off <= length out)%nat -> (off <= n)%nat ->
  repeated n off out
  = repeated off off out ++ repeated (n - off) (off + off) (out ++ repeated off off out).
Proof.
  intros Ho Hn. apply list_eq. intros i.
  destruct (decide (i < n)%nat) as [Hi|Hi]; [|rewrite !lookup_ge_None_2; [done|..]; rewrite ?length_app, !length_repeated; lia].
  rewrite repeated_lookup by done. destruct (decide (i < off)%nat) as [H|H].
  - rewrite lookup_app_l by (rewrite length_repeated; lia). by rewrite repeated_lookup.
  - rewrite lookup_app_r by (rewrite length_repeated; lia). rewrite length_repeated, repeated_lookup by lia.
    f_equal. set (j := (i - off)%nat). assert (E : (i mod off = j mod off)%nat).
    { replace i with (j + 1 * off)%nat by lia. by rewrite Nat.Div0.mod_add. }
    rewrite E, length_app, length_repeated.
    pose proof (Nat.mod_upper_bound j (off + off) ltac:(lia)) as Hb.
    assert (Em : (j mod off = (j mod (off + off)) mod off)%nat).
    { pose proof (Nat.div_mod_eq j (off + off)) as Hd.
      rewrite Hd at 1. rewrite Nat.add_comm.
      replace ((off + off) * (j / (off + off)))%nat with (2 * (j / (off + off)) * off)%nat by lia.
      by rewrite Nat.Div0.mod_add. }
    rewrite Em. set (m := (j mod (off + off))%nat) in *.
    destruct (decide (m < off)%nat) as [Hm|Hm].
    + rewrite rd_app_l by lia. rewrite (Nat.mod_small m off) by lia. f_equal. lia.
    + rewrite rd_app_r by lia. unfold rd at 2.
      rewrite repeated_lookup by lia. simpl. f_equal. f_equal.
      replace (length out + off - (off + off) + m - length out)%nat with (m - off)%nat by lia.
      rewrite (Nat.mod_small (m - off)) by lia. replace m with (m - off + 1 * off)%nat at 1 by lia.
      rewrite Nat.Div0.mod_add, Nat.mod_small by lia. done.
Qed.

(** ** The copy loop *)

Lemma copy_within_spec front out tl off n :
  (1 <= off <= length out)%nat -> (n <= off)%nat -> (n <= length tl)%nat ->
  copy_within front (out ++ tl) (length out) off n = (out ++ repeated n off out) ++ drop n tl.
Proof.
  intros Ho Hn Ht. unfold copy_within. rewrite take_app_length, <- app_assoc. f_equal.
  replace (off - length out)%nat with 0%nat by lia. simpl bytes_before. rewrite app_nil_l.
  rewrite drop_app_le by lia. rewrite take_app_le by (rewrite length_drop; lia).
  rewrite repeated_short by done. f_equal. by rewrite drop_app_add.
Qed.

Lemma copy_match_spec front fuel out tl off len :
  (1 <= off <= length out)%nat -> (len <= length tl)%nat -> (len < fuel)%nat ->
  copy_match front fuel (out ++ tl) (length out) off len
  = Some ((out ++ repeated len off out) ++ drop len tl, (length out + len)%nat).
Proof.
  revert out tl off len. induction fuel as [|fuel IH]; intros out tl off len Ho Ht Hf; [lia|]. simpl.
  destruct (Nat.ltb_spec off len) as [H|H].
  - rewrite copy_within_spec by lia.
    replace (length out + off)%nat with (length (out ++ repeated off off out))
      by (rewrite length_app, length_repeated; lia).
    rewrite IH; [|rewrite length_app, length_repeated; lia|rewrite length_drop; lia|lia].
    rewrite drop_drop. replace (off + (len - off))%nat with len by lia.
    rewrite (repeated_double len off out) by lia. rewrite <- !app_assoc. f_equal. f_equal.
    rewrite length_app, length_repeated. lia.
  - by rewrite copy_within_spec by lia.
Qed.

(** ** Decompression of a stream *)

Lemma expand_longer out t : token_ok (length out) t -> exists l, expand out t = out ++ l /\ (1 <= length l)%nat.
Proof.
  destruct t as [b|len off]; simpl; intros H.
  - by exists [b].
  - exists (repeated len off out). rewrite length_repeated. split; [done|lia].
Qed.

Lemma expand_all_app out l l' : expand_all out (l ++ l') = expand_all (expand_all out l) l'.
Proof. unfold expand_all. apply foldl_app. Qed.

Lemma tokens_ok_app out l l' : tokens_ok out (l ++ l') <-> tokens_ok out l /\ tokens_ok (expand_all out l) l'.
Proof. revert out. induction l as [|t l IH]; intros out; simpl; [tauto|]. rewrite IH. tauto. Qed.

Lemma expand_all_longer out l : tokens_ok out l -> (length out + length l <= length (expand_all out l))%nat.
Proof.
  revert out. induction l as [|t l IH]; intros out; simpl; [lia|]. intros [H1 H2].
  destruct (expand_longer out t H1) as (x & E & Hx). specialize (IH _ H2). unfold expand_all in *. simpl.
  rewrite E, length_app in IH. rewrite E. lia.
Qed.

Lemma body_length n t : token_ok n t -> (1 <= length (body t) <= 3)%nat.
Proof. destruct t as [b|len off]; simpl; [lia|]. unfold tag_bytes. intros _. destruct (_ <? _); simpl; lia. Qed.

(** The source holds [l] at [sp]. *)
Definition at_pos (source : list Z) (sp : nat) (l : list Z) : Prop := exists rest, drop sp source = l ++ rest.

Lemma at_pos_app source sp l l' :
  at_pos source sp (l ++ l') -> at_pos source sp l /\ at_pos source (sp + length l) l'.
Proof.
  intros [rest E]. split; [exists (l' ++ rest); by rewrite E, <- app_assoc|].
  exists rest. rewrite <- drop_drop, E, <- app_assoc. by rewrite drop_app_length.
Qed.

Lemma at_pos_rd source sp l i : at_pos source sp l -> (i < length l)%nat -> rd source (sp + i) = rd l i.
Proof.
  intros [rest E] Hi. unfold rd. rewrite <- lookup_drop, E. by rewrite lookup_app_l.
Qed.

Section items.
Context (front : nat -> Z) (source : list Z) (srcend destend : nat).

(** The bytes that a token adds, as far as there is room. *)
Lemma items_step k sp out tl t g :
  (sp + length (body t) <= srcend)%nat -> at_pos source sp (body t) -> token_ok (length out) t ->
  (length out < destend)%nat -> (destend <= length out + length tl)%nat ->
  let out' := take destend (expand out t) in
  items front (S k) source srcend destend (bits (t :: g)) sp (length out) (out ++ tl)
  = items front k source srcend destend (bits g) (sp + length (body t)) (length out')
      (out' ++ drop (length out' - length out) tl).
Proof.
  intros Hs Hat Hok Hd Htl out'. pose proof (body_length _ _ Hok) as Hb. cbn [items].
  destruct (Nat.ltb_spec sp srcend) as [_|?]; [|lia]. destruct (Nat.ltb_spec (length out) destend) as [_|?]; [|lia].
  simpl andb. cbv iota.
  assert (Hbit : Z.land (bits (t :: g)) 1 = Z.b2z (is_tag t)).
  { change 1 with (Z.ones 1). rewrite Z.land_ones by lia. simpl bits. rewrite Z.add_comm, Z.mul_comm, Z.add_comm.
    change (2 ^ 1) with 2. rewrite Z.mod_add by lia. by destruct (is_tag t). }
  assert (Hshift : Z.shiftr (bits (t :: g)) 1 = bits g).
  { rewrite Z.shiftr_div_pow2 by lia. simpl bits. change (2 ^ 1) with 2.
    rewrite Z.add_comm, Z.mul_comm, Z.div_add_l by lia. destruct (is_tag t); simpl Z.b2z; [change (1 / 2) with 0|change (0 / 2) with 0]; lia. }
  rewrite Hbit, Hshift. destruct t as [b|len off]; simpl is_tag; simpl Z.b2z; simpl negb; cbv iota.
  - pose proof (at_pos_rd _ _ _ 0%nat Hat ltac:(simpl; lia)) as Hr. rewrite Nat.add_0_r in Hr. rewrite Hr.
    subst out'. simpl expand. rewrite take_ge by (rewrite length_app; simpl; lia). rewrite length_app. simpl length.
    simpl body. simpl length. replace (length out + 1 - length out)%nat with 1%nat by lia.
    rewrite Nat.add_1_r, (Nat.add_1_r (length out)). f_equal.
    destruct tl as [|x tl]; [simpl in Htl; lia|]. replace (length out) with (length out + 0)%nat at 1 by lia.
    rewrite insert_app_r. simpl. by rewrite <- app_assoc.
  - simpl in Hok. unfold PGLZ_MAX_MATCH in Hok. destruct Hok as (Hlen & Hoff & Hon).
    destruct (tag_decode (Z.of_nat len) (Z.of_nat off) ltac:(lia) ltac:(lia)) as (b0 & b1 & Eb & E0 & E1).
    simpl body in *. rewrite Eb in Hat, Hs |- *.
    pose proof (at_pos_rd _ _ _ 0%nat Hat ltac:(simpl; lia)) as R0. rewrite Nat.add_0_r in R0.
    pose proof (at_pos_rd _ _ _ 1%nat Hat ltac:(simpl; lia)) as R1. rewrite Nat.add_1_r in R1.
    change (rd (b0 :: b1 :: _) 0) with b0 in R0. change (rd (b0 :: b1 :: _) 1) with b1 in R1.
    rewrite R0, R1, E0, E1.
    set (ext := if 17 <? Z.of_nat len then [Z.of_nat len - 18] else []) in *.
    set (next := if (if 17 <? Z.of_nat len then 18 else Z.of_nat len) =? 18 then _ else _).
    assert (En : next = (Z.of_nat len, (sp + length (b0 :: b1 :: ext))%nat)).
    { subst next ext. destruct (Z.ltb_spec 17 (Z.of_nat len)) as [H|H].
      - simpl Z.eqb. cbv iota. pose proof (at_pos_rd _ _ _ 2%nat Hat ltac:(simpl; lia)) as R2. rewrite R2.
        change (rd (b0 :: b1 :: [_]) 2) with (Z.of_nat len - 18). f_equal; [lia|simpl; lia].
      - destruct (Z.eqb_spec (Z.of_nat len) 18); [lia|]. done. }
    rewrite En. clear En next.
    destruct (Nat.ltb_spec srcend (sp + length (b0 :: b1 :: ext))) as [?|_]; [lia|].
    destruct (Z.eqb_spec (Z.of_nat off) 0) as [?|_]; [lia|]. simpl orb. cbv iota. rewrite !Nat2Z.id.
    set (m := Nat.min len (destend - length out)). rewrite copy_match_spec by lia.
    assert (Eo : out' = out ++ repeated m off out).
    { subst out'. simpl expand. rewrite take_app_ge by lia. f_equal. unfold repeated. subst m.
      rewrite firstn_map, take_seq. do 2 f_equal. lia. }
    rewrite Eo, length_app, length_repeated. f_equal. f_equal. f_equal. lia.
Qed.

Lemma items_done k ctrl sp dp d :
  dp = destend -> items front k source srcend destend ctrl sp dp d = Some (inr (sp, dp, d)).
Proof.
  intros ->. destruct k as [|k]; [done|]. cbn [items]. rewrite Nat.ltb_irrefl, andb_false_r. done.
Qed.

Lemma expand_all_prefix out l : tokens_ok out l -> exists l', expand_all out l = out ++ l'.
Proof.
  revert out. induction l as [|t l IH]; intros out H; [exists []; by rewrite app_nil_r|]. destruct H as [H1 H2].
  destruct (expand_longer out t H1) as (x & E & _). destruct (IH _ H2) as [l' E'].
  exists (x ++ l'). unfold expand_all in *. simpl. rewrite E', E. by rewrite app_assoc.
Qed.

(** Once there is enough output, the rest adds nothing. *)
Lemma take_expand_all out l :
  tokens_ok out l -> (destend <= length out)%nat -> take destend (expand_all out l) = take destend out.
Proof. intros Ho Hd. destruct (expand_all_prefix out l Ho) as [l' ->]. by rewrite take_app_le. Qed.

(** The bytes of the source that the items take until the output is complete. *)
Fixpoint consumed (out : list Z) (l : list token) : nat :=
  match l with
  | [] => 0
  | t :: l => if (length out <? destend)%nat then length (body t) + consumed (expand out t) l else 0
  end.

Lemma consumed_done out l : (destend <= length out)%nat -> consumed out l = 0%nat.
Proof. intros H. destruct l; [done|]. simpl. by destruct (Nat.ltb_spec (length out) destend); [lia|]. Qed.

Lemma consumed_full out l :
  tokens_ok out l -> (length (expand_all out l) <= destend)%nat -> consumed out l = length (bodies l).
Proof.
  revert out. induction l as [|t l IH]; intros out H Hd; [done|]. destruct H as [H1 H2].
  pose proof (expand_all_longer _ _ H2). destruct (expand_longer out t H1) as (x & E & Hx).
  change (expand_all out (t :: l)) with (expand_all (expand out t) l) in Hd.
  assert (length (expand out t) = (length out + length x)%nat) by (by rewrite E, length_app).
  simpl consumed. destruct (Nat.ltb_spec (length out) destend); [|lia].
  rewrite IH by done. unfold bodies. simpl. by rewrite length_app.
Qed.

Lemma items_group g k sp out tl :
  (length g <= k)%nat -> (length out <= destend <= length out + length tl)%nat -> tokens_ok out g ->
  at_pos source sp (take (consumed out g) (bodies g)) -> (sp + consumed out g <= srcend)%nat ->
  (length g = k \/ destend <= length (expand_all out g) \/ srcend <= sp + consumed out g)%nat ->
  let out' := take destend (expand_all out g) in
  items front k source srcend destend (bits g) sp (length out) (out ++ tl)
  = Some (inr ((sp + consumed out g)%nat, length out', out' ++ drop (length out' - length out) tl)).
Proof.
  revert k sp out tl. induction g as [|t g IH]; intros k sp out tl Hk Hd Hok Hat Hs Hend out'.
  - subst out'. simpl consumed in *. simpl expand_all in *. rewrite take_ge, Nat.sub_diag, Nat.add_0_r by lia. simpl drop.
    destruct k as [|k]; [done|]. cbn [items].
    destruct (Nat.ltb_spec sp srcend), (Nat.ltb_spec (length out) destend); try done. simpl in Hend. lia.
  - destruct (decide (length out = destend)) as [Hfull|Hne].
    + subst out'. rewrite take_expand_all, take_ge by (done || lia). rewrite consumed_done, Nat.sub_diag, Nat.add_0_r by lia.
      by apply items_done.
    + destruct k as [|k]; [simpl in Hk; lia|]. destruct Hok as [Hok1 Hok2].
      simpl consumed in *. destruct (Nat.ltb_spec (length out) destend) as [Hlt|]; [|lia].
      unfold bodies in Hat. simpl in Hat. rewrite take_app_add in Hat.
      apply at_pos_app in Hat as [Hat1 Hat2]. fold (bodies g) in Hat2.
      rewrite items_step by (done || lia). rewrite Nat.add_assoc in *.
      destruct (expand_longer out t Hok1) as (x & Ex & Hx).
      assert (Hlen : length (expand out t) = (length out + length x)%nat) by (by rewrite Ex, length_app).
      change (expand_all out (t :: g)) with (expand_all (expand out t) g) in *.
      destruct (decide (length (expand out t) <= destend)%nat) as [Hle|Hgt].
      * rewrite (take_ge (expand out t)) by done.
        rewrite IH; [|simpl in Hk; lia|rewrite length_drop; lia|done|done|lia|simpl in Hend; lia].
        subst out'. f_equal. f_equal. f_equal. rewrite drop_drop. f_equal. f_equal.
        pose proof (expand_all_longer _ _ Hok2). rewrite !length_take. lia.
      * rewrite (consumed_done (expand out t)) by lia. rewrite Nat.add_0_r.
        subst out'. rewrite take_expand_all by (done || lia).
        assert (El : length (take destend (expand out t)) = destend) by (rewrite length_take; lia).
        by rewrite items_done.
Qed.

Fixpoint gconsumed (out : list Z) (gs : list (list token)) : nat :=
  match gs with
  | [] => 0
  | g :: gs => if (length out <? destend)%nat then S (consumed out g + gconsumed (expand_all out g) gs) else 0
  end.

Lemma gconsumed_done out gs : (destend <= length out)%nat -> gconsumed out gs = 0%nat.
Proof. intros H. destruct gs; [done|]. simpl. by destruct (Nat.ltb_spec (length out) destend); [lia|]. Qed.

Lemma decompress_done check fuel sp out tl :
  length out = destend -> (check = true -> sp = srcend) -> (0 < fuel)%nat ->
  while fuel (decompress_step front source srcend destend check) (sp, length out, out ++ tl)
  = Some (Some (Bytes destend, out ++ tl)).
Proof.
  intros Hd Hc Hf. destruct fuel as [|fuel]; [lia|]. cbn [while decompress_step].
  rewrite Hd, Nat.ltb_irrefl, andb_false_r, Nat.eqb_refl.
  destruct check; simpl; [|done]. by rewrite Hc, Nat.eqb_refl.
Qed.

Lemma consumed_le out l : (consumed out l <= length (bodies l))%nat.
Proof.
  revert out. induction l as [|t l IH]; intros out; [done|]. unfold bodies. simpl.
  specialize (IH (expand out t)). unfold bodies in IH. rewrite length_app. destruct (_ <? _)%nat; lia.
Qed.

(** A control byte, its items as far as they are taken, and the next groups. *)
Lemma at_pos_group sp out g gs n :
  tokens_ok out g ->
  at_pos source sp (take (S (consumed out g + n)) (stream (g :: gs))) ->
  rd source sp = bits g /\ at_pos source (S sp) (take (consumed out g) (bodies g))
  /\ ((length (expand_all out g) <= destend)%nat -> at_pos source (S sp + length (bodies g)) (take n (stream gs))).
Proof.
  intros Hok Hat. change (take (S (consumed out g + n)) (stream (g :: gs)))
    with ([bits g] ++ take (consumed out g + n) (bodies g ++ stream gs)) in Hat.
  apply at_pos_app in Hat as [Hat1 Hat2]. simpl length in Hat2. rewrite Nat.add_1_r in Hat2. split; [|split].
  - pose proof (at_pos_rd _ _ _ 0%nat Hat1 ltac:(simpl; lia)) as Hr. by rewrite Nat.add_0_r in Hr.
  - destruct Hat2 as [rest E]. pose proof (consumed_le out g).
    exists (drop (consumed out g) (take (consumed out g + n) (bodies g ++ stream gs)) ++ rest).
    rewrite E, app_assoc. f_equal.
    assert (Et : take (consumed out g) (bodies g)
                 = take (consumed out g) (take (consumed out g + n) (bodies g ++ stream gs))).
    { rewrite take_take, Nat.min_l by lia. by rewrite take_app_le. }
    rewrite Et. by rewrite take_drop.
  - intros Hd. rewrite (consumed_full out g Hok Hd), take_app_add in Hat2. by apply at_pos_app in Hat2 as [_ ?].
Qed.

Lemma decompress_groups check gs fuel sp out tl :
  groups_ok gs -> (length out <= destend <= length out + length tl)%nat -> tokens_ok out (concat gs) ->
  at_pos source sp (take (gconsumed out gs) (stream gs)) -> (sp + gconsumed out gs <= srcend)%nat ->
  (destend <= length (expand_all out (concat gs)))%nat -> (gconsumed out gs < fuel)%nat ->
  (check = true -> sp + gconsumed out gs = srcend)%nat ->
  while fuel (decompress_step front source srcend destend check) (sp, length out, out ++ tl)
  = Some (Some (Bytes destend, take destend (expand_all out (concat gs)) ++ drop (destend - length out) tl)).
Proof.
  revert fuel sp out tl. induction gs as [|g gs IH]; intros fuel sp out tl Hg Hd Hok Hat Hs Hall Hf Hc.
  - simpl in *. assert (length out = destend) by lia. rewrite decompress_done by (done || lia || (intros Hx; specialize (Hc Hx); lia)).
    rewrite take_ge by lia. by replace (destend - length out)%nat with 0%nat by lia.
  - destruct (decide (length out = destend)) as [Hfull|Hne].
    + rewrite gconsumed_done, Nat.add_0_r in Hc by lia. rewrite decompress_done by (done || lia || (intros Hx; specialize (Hc Hx); lia)).
      rewrite take_expand_all, take_ge by (done || lia). by replace (destend - length out)%nat with 0%nat by lia.
    + destruct fuel as [|fuel]; [lia|]. cbn [concat] in *. rewrite expand_all_app in *. apply tokens_ok_app in Hok as [Hok1 Hok2].
      simpl gconsumed in *. destruct (Nat.ltb_spec (length out) destend) as [Hlt|]; [|lia].
      destruct (at_pos_group _ _ _ _ _ Hok1 Hat) as (Hctrl & Hat1 & Hat2).
      cbn [while decompress_step]. destruct (Nat.ltb_spec sp srcend) as [_|]; [|lia].
      destruct (Nat.ltb_spec (length out) destend) as [_|]; [|lia]. simpl andb. cbv iota.
      rewrite Hctrl.
      assert (H8 : (length g <= 8)%nat /\ (length g = 8%nat \/ destend <= length (expand_all out g))%nat).
      { destruct gs as [|g' gs]; simpl in Hg, Hall; [split; [lia|by right]|split; [lia|left; lia]]. }
      rewrite items_group by (done || lia || tauto).
      destruct (decide (length (expand_all out g) <= destend)%nat) as [Hle|Hgt].
      * rewrite (take_ge (expand_all out g)) by done. rewrite (consumed_full out g) in * by done.
        pose proof (expand_all_longer out g Hok1). rewrite IH.
        -- f_equal. f_equal. f_equal. f_equal. rewrite drop_drop. f_equal. lia.
        -- destruct gs as [|g' gs]; [done|]. by destruct Hg.
        -- rewrite length_drop. lia.
        -- done.
        -- by apply Hat2.
        -- lia.
        -- done.
        -- lia.
        -- intros Hx. specialize (Hc Hx). lia.
      * rewrite (gconsumed_done (expand_all out g)), Nat.add_0_r in * by lia.
        rewrite (take_expand_all (expand_all out g) (concat gs)) by (done || lia).
        assert (El : length (take destend (expand_all out g)) = destend) by (rewrite length_take; lia).
        rewrite decompress_done by (done || lia || (intros Hx; specialize (Hc Hx); lia)).
        by rewrite El.
Qed.

(** All of a stream is taken when all of its output is wanted. *)
Lemma gconsumed_full out gs :
  tokens_ok out (concat gs) -> (length (expand_all out (concat gs)) <= destend)%nat ->
  Forall (fun g => g <> []) gs -> gconsumed out gs = length (stream gs).
Proof.
  revert out. induction gs as [|g gs IH]; intros out Hok Hd Hne; [done|]. cbn [concat] in *.
  rewrite expand_all_app in Hd. apply tokens_ok_app in Hok as [Hok1 Hok2]. apply Forall_cons_1 in Hne as [Hg Hne].
  pose proof (expand_all_longer _ _ Hok1). pose proof (expand_all_longer _ _ Hok2).
  assert (1 <= length g)%nat by (destruct g; [done|simpl; lia]).
  simpl gconsumed. destruct (Nat.ltb_spec (length out) destend); [|lia].
  rewrite consumed_full by (done || lia). rewrite IH by done. unfold stream, group. simpl. by rewrite length_app.
Qed.
End items.

Lemma groups_nonempty gs : groups_ok gs -> Forall (fun g => g <> []) gs.
Proof.
  induction gs as [|g gs IH]; intros H; constructor.
  - intros ->. destruct gs; simpl in H; lia.
  - apply IH. destruct gs as [|g' gs]; [done|]. by destruct H.
Qed.

Lemma stream_length gs : (length gs <= length (stream gs))%nat.
Proof.
  induction gs as [|g gs IH]; [done|]. unfold stream, group in *. simpl. rewrite length_app. lia.
Qed.

(** A stream is decompressed to what its tokens stand for. *)
Lemma decompress_stream front gs memory dest check :
  groups_ok gs -> tokens_ok [] (concat gs) ->
  let out := expand_all [] (concat gs) in
  (length out <= length dest)%nat ->
  pglz_decompress front (stream gs ++ memory) (length (stream gs)) dest (length out) check
  = Some (Bytes (length out), out ++ drop (length out) dest).
Proof.
  intros Hg Hok out Hd. unfold pglz_decompress.
  pose proof (stream_length gs).
  assert (Ec : gconsumed (length out) [] gs = length (stream gs))
    by (apply gconsumed_full; [done|done|by apply groups_nonempty]).
  pose proof (decompress_groups front (stream gs ++ memory) (length (stream gs)) (length out) check gs
    (S (length (stream gs))) 0 [] dest Hg) as Hw.
  simpl length in Hw. simpl app in Hw. rewrite Hw; [|lia|done|rewrite Ec, take_ge by done; by exists memory|lia|done|lia|lia].
  f_equal. f_equal. rewrite take_ge by done. by rewrite Nat.sub_0_r.
Qed.
