(* ===== verification/PglzHistory.v ===== *)
(** The history of the compressor: doubly linked chains of earlier positions, newest
    first, in a ring of entries that are recycled.  Whatever the static arrays held
    before, a search only meets positions of the present input. *)

From S2P Require Import Prelude Pglz.
Local Open Scope Z_scope.

Lemma history_size : PGLZ_HISTORY_SIZE = Z.to_nat 4096.
Proof. reflexivity. Qed.
#[local] Opaque PGLZ_HISTORY_SIZE.

(** ** Chains *)

(** The chains through the entries in [L]: all positions are before [dp], and older
    along a chain; the two directions of the links, and the heads, agree. *)
Record links (L : nat -> Prop) (sz dp : nat) (hs : list nat) (he : list PGLZ_HistEntry) : Prop := {
  link_lists : (sz <= length hs)%nat;
  link_size : length he = S PGLZ_HISTORY_SIZE;
  link_range : forall i, L i -> (1 <= i <= PGLZ_HISTORY_SIZE)%nat;
  link_pos : forall i, L i -> (pos (entry he i) < dp)%nat;
  link_index : forall i, L i -> (hindex (entry he i) < sz)%nat;
  link_next : forall i, L i -> exists k, next (entry he i) = Some k /\
    (k = 0%nat \/ L k /\ prev (entry he k) = Some i /\ (pos (entry he k) < pos (entry he i))%nat
                  /\ hindex (entry he k) = hindex (entry he i));
  link_prev : forall i, L i ->
    match prev (entry he i) with
    | None => head_of hs (hindex (entry he i)) = i
    | Some p => L p /\ next (entry he p) = Some i
    end;
  link_head : forall h, (h < sz)%nat -> head_of hs h = 0%nat \/
    L (head_of hs h) /\ prev (entry he (head_of hs h)) = None /\ hindex (entry he (head_of hs h)) = h
}.

Lemma entry_insert he i x j :
  (i < length he)%nat -> entry (<[i := x]> he) j = if decide (j = i) then x else entry he j.
Proof.
  intros Hi. unfold entry. destruct (decide (j = i)) as [->|Hj].
  - by rewrite list_lookup_insert_eq.
  - by rewrite list_lookup_insert_ne.
Qed.

Lemma head_insert hs h x k :
  (h < length hs)%nat -> head_of (<[h := x]> hs) k = if decide (k = h) then x else head_of hs k.
Proof.
  intros Hh. unfold head_of. destruct (decide (k = h)) as [->|Hk].
  - by rewrite list_lookup_insert_eq.
  - by rewrite list_lookup_insert_ne.
Qed.

Lemma links_ext L L' sz dp hs he : (forall i, L i <-> L' i) -> links L sz dp hs he -> links L' sz dp hs he.
Proof.
  intros HL [H1 H2 H3 H4 H5 H6 H7 H8]. split; try done.
  - intros i Hi. by apply H3, HL.
  - intros i Hi. by apply H4, HL.
  - intros i Hi. by apply H5, HL.
  - intros i Hi. apply HL in Hi. destruct (H6 i Hi) as (k & E & [?|(? & ?)]); exists k; split; auto.
    right. split; [by apply HL|done].
  - intros i Hi. apply HL in Hi. specialize (H7 i Hi). destruct (prev _); [|done]. by rewrite <- HL.
  - intros h Hh. destruct (H8 h Hh) as [?|(? & ?)]; [by left|right]. by rewrite <- HL.
Qed.

(** Taking an entry out of its chain. *)
Definition unlink (hn : nat) (hs : list nat) (he : list PGLZ_HistEntry) : list nat * list PGLZ_HistEntry :=
  let myhe := entry he hn in
  let '(hs, he) :=
    match prev myhe with
    | None => (<[hindex myhe := default INVALID_ENTRY (next myhe)]> hs, he)
    | Some p => (hs, <[p := set_next (next myhe) (entry he p)]> he)
    end in
  let myhe := entry he hn in
  match next myhe with
  | None => (hs, he)
  | Some k => (hs, <[k := set_prev (prev myhe) (entry he k)]> he)
  end.

Section unlink.
Context (L : nat -> Prop) (sz dp hn : nat) (hs : list nat) (he : list PGLZ_HistEntry).
Hypothesis Hl : links L sz dp hs he.
Hypothesis Hn : L hn.

Lemma unlink_next : exists k, next (entry he hn) = Some k /\ k <> hn /\ (k <= PGLZ_HISTORY_SIZE)%nat /\
  (k = 0%nat \/ L k /\ prev (entry he k) = Some hn /\ (pos (entry he k) < pos (entry he hn))%nat
                /\ hindex (entry he k) = hindex (entry he hn)).
Proof.
  destruct (link_next _ _ _ _ _ Hl hn Hn) as (k & E & Hk). exists k. split; [done|].
  pose proof (link_range _ _ _ _ _ Hl hn Hn). destruct Hk as [->|(H1 & H2 & H3 & H4)].
  - split; [lia|]. split; [lia|by left].
  - split; [intros ->; lia|]. split; [by apply (link_range _ _ _ _ _ Hl)|by right].
Qed.

(** The entry before it in its chain is another one. *)
Lemma unlink_prev p : prev (entry he hn) = Some p ->
  L p /\ next (entry he p) = Some hn /\ (pos (entry he hn) < pos (entry he p))%nat /\ hindex (entry he p) = hindex (entry he hn).
Proof.
  intros E. pose proof (link_prev _ _ _ _ _ Hl hn Hn) as Hp. rewrite E in Hp. destruct Hp as [H1 H2].
  destruct (link_next _ _ _ _ _ Hl p H1) as (k & E' & Hk). pose proof (link_range _ _ _ _ _ Hl hn Hn).
  split; [done|]. split; [done|]. assert (k = hn) as -> by congruence.
  destruct Hk as [?|(_ & _ & H3 & H4)]; [lia|done].
Qed.

(** Each place of the result. *)
Lemma unlink_entries k :
  next (entry he hn) = Some k -> k <> hn ->
  (k <= PGLZ_HISTORY_SIZE)%nat ->
  let '(hs', he') := unlink hn hs he in
  length hs' = length hs /\ length he' = length he
  /\ (forall h, (h < sz)%nat -> head_of hs' h =
        if decide (prev (entry he hn) = None /\ h = hindex (entry he hn)) then k else head_of hs h)
  /\ (forall i, pos (entry he' i) = pos (entry he i) /\ hindex (entry he' i) = hindex (entry he i))
  /\ (forall i, next (entry he' i) = if decide (prev (entry he hn) = Some i) then Some k else next (entry he i))
  /\ (forall i, prev (entry he' i) = if decide (i = k) then prev (entry he hn) else prev (entry he i)).
Proof.
  intros Ek Hk Hks. pose proof (link_size _ _ _ _ _ Hl) as Hsz. pose proof (link_lists _ _ _ _ _ Hl) as Hls.
  pose proof (link_index _ _ _ _ _ Hl hn Hn) as Hix. unfold unlink. rewrite Ek.
  destruct (prev (entry he hn)) as [p|] eqn:Ep.
  - destruct (unlink_prev p Ep) as (Hp & Enp & Hpos & Hhx). pose proof (link_range _ _ _ _ _ Hl p Hp) as Hpr.
    assert (Hne : hn <> p) by (intros <-; lia).
    assert (Eh : entry (<[p := set_next (Some k) (entry he p)]> he) hn = entry he hn)
      by (rewrite entry_insert by lia; by destruct (decide (hn = p))).
    rewrite Eh, Ek, Ep.
    split; [done|]. split; [by rewrite !length_insert|]. split; [intros h Hh; by destruct (decide _) as [[? _]|]|].
    assert (Hlk : (k < length (<[p := set_next (Some k) (entry he p)]> he))%nat) by (rewrite length_insert; lia).
    split; [|split]; intros i; rewrite !entry_insert by (done || lia).
    + destruct (decide (i = k)) as [->|]; destruct (decide _) as [->|]; done.
    + destruct (decide (Some p = Some i)) as [[= ->]|Hpi].
      * destruct (decide (i = k)) as [->|]; [by destruct (decide (k = k))|by destruct (decide (i = i))].
      * assert (i <> p) by congruence. destruct (decide (i = k)) as [->|]; simpl.
        -- by destruct (decide (k = p)).
        -- by destruct (decide (i = p)).
    + destruct (decide (i = k)) as [->|]; [done|]. by destruct (decide (i = p)) as [->|].
  - rewrite Ek, Ep. split; [by rewrite length_insert|]. split; [by rewrite length_insert|].
    split; [|split; [|split]].
    + intros h Hh. rewrite head_insert by lia. simpl default.
      destruct (decide (h = _)) as [->|]; destruct (decide _) as [[_ ?]|Hd]; try done. by destruct Hd.
    + intros i. rewrite entry_insert by lia. by destruct (decide (i = k)) as [->|].
    + intros i. rewrite entry_insert by lia. destruct (decide (None = Some i)) as [?|_]; [done|].
      by destruct (decide (i = k)) as [->|].
    + intros i. rewrite entry_insert by lia. by destruct (decide (i = k)).
Qed.

Lemma unlink_links :
  let '(hs', he') := unlink hn hs he in links (fun i => L i /\ i <> hn) sz dp hs' he'.
Proof.
  destruct unlink_next as (k & Ek & Hkn & Hks & Hk).
  pose proof (unlink_entries k Ek Hkn Hks) as HE. destruct (unlink hn hs he) as [hs' he'].
  destruct HE as (E1 & E2 & Ehead & Epos & Enext & Eprev).
  pose proof (link_range _ _ _ _ _ Hl hn Hn) as Hnr.
  split.
  - rewrite E1. apply Hl.
  - rewrite E2. apply Hl.
  - intros i [Hi _]. by apply (link_range _ _ _ _ _ Hl).
  - intros i [Hi _]. destruct (Epos i) as [-> _]. by apply (link_pos _ _ _ _ _ Hl).
  - intros i [Hi _]. destruct (Epos i) as [_ ->]. by apply (link_index _ _ _ _ _ Hl).
  - intros i [Hi Hne]. rewrite Enext. destruct (Epos i) as [-> ->].
    destruct (decide (prev (entry he hn) = Some i)) as [Ep|Ep].
    + exists k. split; [done|]. destruct (unlink_prev i Ep) as (_ & _ & Hpos & Hhx).
      destruct Hk as [->|(H1 & H2 & H3 & H4)]; [by left|right]. destruct (Epos k) as [-> ->].
      rewrite Eprev. destruct (decide (k = k)); [|done]. split; [done|]. split; [done|]. split; [lia|congruence].
    + destruct (link_next _ _ _ _ _ Hl i Hi) as (k' & E' & Hk'). exists k'. split; [done|].
      destruct Hk' as [->|(H1 & H2 & H3 & H4)]; [by left|right]. destruct (Epos k') as [-> ->].
      assert (k' <> hn) by (intros ->; congruence). split; [done|]. split; [|done].
      rewrite Eprev. destruct (decide (k' = k)) as [->|]; [|done].
      exfalso. pose proof (link_range _ _ _ _ _ Hl k H1). destruct Hk as [?|(_ & H2' & _)]; [lia|]. congruence.
  - intros i [Hi Hne]. rewrite Eprev. destruct (Epos i) as [_ ->]. destruct (decide (i = k)) as [->|Hik].
    + pose proof (link_range _ _ _ _ _ Hl k Hi). destruct Hk as [?|(_ & H2 & H3 & H4)]; [lia|].
      destruct (prev (entry he hn)) as [p|] eqn:Ep.
      * destruct (unlink_prev p Ep) as (Hp & _ & Hpos & _). split; [split; [done|intros ->; lia]|].
        rewrite Enext. by destruct (decide _).
      * rewrite Ehead by (rewrite H4; by apply (link_index _ _ _ _ _ Hl)). destruct (decide _) as [_|Hd]; [done|].
        by destruct Hd.
    + pose proof (link_prev _ _ _ _ _ Hl i Hi) as Hp. destruct (prev (entry he i)) as [p'|] eqn:Ep'.
      * destruct Hp as [Hp' Enp]. assert (p' <> hn) by (intros ->; congruence). split; [done|].
        rewrite Enext. destruct (decide (prev (entry he hn) = Some p')) as [Ep|]; [|done].
        destruct (unlink_prev p' Ep) as (_ & E & _). congruence.
      * rewrite Ehead by (by apply (link_index _ _ _ _ _ Hl)). destruct (decide _) as [[Ep Eh]|]; [|done].
        pose proof (link_prev _ _ _ _ _ Hl hn Hn) as Hp2. rewrite Ep in Hp2. congruence.
  - intros h Hh. rewrite Ehead by done. destruct (decide _) as [[Ep ->]|Hd].
    + destruct Hk as [->|(H1 & H2 & H3 & H4)]; [by left|right]. destruct (Epos k) as [_ ->].
      rewrite Eprev. by destruct (decide (k = k)).
    + destruct (link_head _ _ _ _ _ Hl h Hh) as [?|(H1 & H2 & H3)]; [by left|right].
      set (x := head_of hs h) in *. destruct (Epos x) as [_ ->].
      assert (Hx : x <> hn) by (intros Ex; apply Hd; rewrite Ex in *; by subst h).
      split; [done|]. split; [|done]. rewrite Eprev. destruct (decide (x = k)) as [Exk|]; [|done].
      exfalso. rewrite Exk in *. pose proof (link_range _ _ _ _ _ Hl k H1). destruct Hk as [?|(_ & H2' & _)]; [lia|congruence].
Qed.
End unlink.

(** Putting an entry at the head of a chain. *)
Definition push (hidx s hn : nat) (hs : list nat) (he : list PGLZ_HistEntry) : list nat * list PGLZ_HistEntry :=
  let first := head_of hs hidx in
  let he := <[hn := mk_entry (Some first) None hidx s]> he in
  let he := <[first := set_prev (Some hn) (entry he first)]> he in
  (<[hidx := hn]> hs, he).

Section push.
Context (L : nat -> Prop) (sz dp hidx hn : nat) (hs : list nat) (he : list PGLZ_HistEntry).
Hypothesis Hl : links L sz dp hs he.
Hypothesis Hn : ~ L hn.
Hypothesis Hr : (1 <= hn <= PGLZ_HISTORY_SIZE)%nat.
Hypothesis Hx : (hidx < sz)%nat.

Lemma push_first : head_of hs hidx <> hn /\ (head_of hs hidx <= PGLZ_HISTORY_SIZE)%nat.
Proof.
  pose proof (link_head _ _ _ _ _ Hl hidx Hx) as Hf. set (first := head_of hs hidx) in *. split.
  - intros E. rewrite E in Hf. destruct Hf as [?|[? _]]; [lia|done].
  - destruct Hf as [->|[Hf _]]; [lia|by apply (link_range _ _ _ _ _ Hl)].
Qed.

(** Each place of the result. *)
Lemma push_entries :
  let '(hs', he') := push hidx dp hn hs he in
  length hs' = length hs /\ length he' = length he
  /\ (forall h, head_of hs' h = if decide (h = hidx) then hn else head_of hs h)
  /\ entry he' hn = mk_entry (Some (head_of hs hidx)) None hidx dp
  /\ (forall i, L i -> pos (entry he' i) = pos (entry he i) /\ hindex (entry he' i) = hindex (entry he i)
        /\ next (entry he' i) = next (entry he i)
        /\ prev (entry he' i) = if decide (i = head_of hs hidx) then Some hn else prev (entry he i)).
Proof.
  pose proof (link_size _ _ _ _ _ Hl) as Hsz. pose proof (link_lists _ _ _ _ _ Hl) as Hls.
  destruct push_first as [Hfn Hfs]. unfold push. set (first := head_of hs hidx) in *.
  assert (E2 : forall i, entry (<[first := set_prev (Some hn) (entry (<[hn := mk_entry (Some first) None hidx dp]> he) first)]>
                          (<[hn := mk_entry (Some first) None hidx dp]> he)) i
             = if decide (i = first) then set_prev (Some hn) (entry he first)
               else if decide (i = hn) then mk_entry (Some first) None hidx dp else entry he i).
  { intros i. rewrite entry_insert by (rewrite length_insert; lia). rewrite !entry_insert by lia.
    destruct (decide (first = hn)); [done|]. by destruct (decide (i = first)). }
  split; [apply length_insert|]. split; [by rewrite !length_insert|].
  split; [intros h; apply head_insert; lia|]. split.
  - rewrite E2. destruct (decide (hn = first)); [done|]. by destruct (decide (hn = hn)).
  - intros i Hi. rewrite E2. destruct (decide (i = first)) as [->|]; [done|]. by destruct (decide (i = hn)) as [->|].
Qed.

Lemma push_links :
  let '(hs', he') := push hidx dp hn hs he in links (fun i => L i \/ i = hn) sz (S dp) hs' he'.
Proof.
  pose proof push_entries as HE. destruct push_first as [Hfn Hfs].
  pose proof (link_head _ _ _ _ _ Hl hidx Hx) as Hf. destruct (push hidx dp hn hs he) as [hs' he'].
  destruct HE as (E1 & E2 & Ehead & Enew & Eold). set (first := head_of hs hidx) in *.
  assert (Hne : forall i, L i -> i <> hn) by (intros i Hi ->; done).
  split.
  - rewrite E1. apply Hl.
  - rewrite E2. apply Hl.
  - intros i [Hi| ->]; [by apply (link_range _ _ _ _ _ Hl)|done].
  - intros i [Hi| ->]; [|rewrite Enew; simpl; lia]. destruct (Eold i Hi) as [-> _].
    pose proof (link_pos _ _ _ _ _ Hl i Hi). lia.
  - intros i [Hi| ->]; [|by rewrite Enew]. destruct (Eold i Hi) as (_ & -> & _). by apply (link_index _ _ _ _ _ Hl).
  - intros i [Hi| ->].
    + destruct (Eold i Hi) as (-> & -> & -> & _). destruct (link_next _ _ _ _ _ Hl i Hi) as (k & E & Hk).
      exists k. split; [done|]. destruct Hk as [->|(H1 & H2 & H3)]; [by left|right].
      destruct (Eold k H1) as (-> & -> & _ & ->). split; [by left|]. split; [|done].
      destruct (decide (k = first)) as [->|]; [|done]. exfalso. pose proof (link_range _ _ _ _ _ Hl _ H1).
      destruct Hf as [?|(_ & ? & _)]; [lia|congruence].
    + rewrite Enew. exists first. split; [done|]. destruct Hf as [->|(H1 & H2 & H3)]; [by left|right].
      destruct (Eold first H1) as (-> & -> & _ & ->). destruct (decide (first = first)); [|done].
      split; [by left|]. split; [done|]. split; [|done]. by apply (link_pos _ _ _ _ _ Hl).
  - intros i [Hi| ->]; [|rewrite Enew; simpl; rewrite Ehead; by destruct (decide (hidx = hidx))].
    destruct (Eold i Hi) as (_ & -> & _ & ->). destruct (decide (i = first)) as [->|Hif].
    + split; [by right|]. by rewrite Enew.
    + pose proof (link_prev _ _ _ _ _ Hl i Hi) as Hp. destruct (prev (entry he i)) as [p|].
      * destruct Hp as [Hp E]. split; [by left|]. destruct (Eold p Hp) as (_ & _ & -> & _). done.
      * rewrite Ehead. destruct (decide _) as [Eh|]; [|done]. rewrite Eh in Hp. by destruct Hif.
  - intros h Hh. rewrite Ehead. destruct (decide (h = hidx)) as [->|Hd].
    + right. rewrite Enew. split; [by right|done].
    + destruct (link_head _ _ _ _ _ Hl h Hh) as [?|(H1 & H2 & H3)]; [by left|right].
      destruct (Eold _ H1) as (_ & -> & _ & ->). split; [by left|]. split; [|done].
      destruct (decide _) as [Eq|]; [|done]. exfalso. apply Hd. rewrite <- H3, Eq.
      rewrite Eq in H1. pose proof (link_range _ _ _ _ _ Hl _ H1). destruct Hf as [?|(_ & _ & ?)]; [lia|done].
Qed.
End push.

(** ** The ring *)

Definition live (hist : history) (i : nat) : Prop :=
  (1 <= i <= PGLZ_HISTORY_SIZE)%nat /\ (hist_recycle hist = true \/ (i < hist_next hist)%nat).

(** The history before position [dp] of the input, with [sz] lists in use. *)
Definition hist_ok (sz dp : nat) (hist : history) : Prop :=
  (1 <= hist_next hist <= PGLZ_HISTORY_SIZE)%nat
  /\ links (live hist) sz dp (hist_start hist) (hist_entries hist).

Lemma pglz_hist_idx_bound source s e k :
  0 <= k -> (pglz_hist_idx source s e (2 ^ k - 1) < Z.to_nat (2 ^ k))%nat.
Proof.
  intros Hk. unfold pglz_hist_idx. set (h := if _ <? 4 then _ else _).
  replace (2 ^ k - 1) with (Z.ones k) by (rewrite Z.ones_equiv; lia).
  rewrite Z.land_ones by done. pose proof (Z.mod_pos_bound h (2 ^ k) ltac:(by apply Z.pow_pos_nonneg)). lia.
Qed.

Lemma hist_add_push source s e mask hist :
  let hn := hist_next hist in
  let '(hs, he) := if hist_recycle hist then unlink hn (hist_start hist) (hist_entries hist)
                   else (hist_start hist, hist_entries hist) in
  let '(hs, he) := push (pglz_hist_idx source s e mask) s hn hs he in
  pglz_hist_add source s e mask hist
  = (if (PGLZ_HISTORY_SIZE + 1 <=? S hn)%nat then mk_history hs he 1 true
     else mk_history hs he (S hn) (hist_recycle hist)).
Proof.
  unfold pglz_hist_add, unlink, push. cbv zeta. destruct (hist_recycle hist); [|done].
  destruct (prev _); destruct (next _); done.
Qed.

Lemma hist_add_ok source s e mask sz hist :
  (pglz_hist_idx source s e mask < sz)%nat -> hist_ok sz s hist ->
  hist_ok sz (S s) (pglz_hist_add source s e mask hist).
Proof.
  intros Hx [Hn Hl]. pose proof (hist_add_push source s e mask hist) as HE. cbv zeta in HE.
  set (hn := hist_next hist) in *.
  assert (Hu : let '(hs, he) := if hist_recycle hist then unlink hn (hist_start hist) (hist_entries hist)
                                else (hist_start hist, hist_entries hist) in
               links (fun i => live hist i /\ i <> hn) sz s hs he).
  { destruct (hist_recycle hist) eqn:Er.
    - apply unlink_links; [done|]. split; [done|by left].
    - apply (links_ext (live hist)); [|done]. intros i. split; [|tauto]. intros Hi. split; [done|].
      destruct Hi as [_ [Hi|Hi]]; [congruence|fold hn in Hi; lia]. }
  destruct (if hist_recycle hist then _ else _) as [hs he].
  pose proof (push_links _ _ _ _ hn _ _ Hu ltac:(tauto) Hn Hx) as Hp.
  destruct (push _ _ _ _ _) as [hs' he']. rewrite HE.
  destruct (Nat.leb_spec (PGLZ_HISTORY_SIZE + 1) (S hn)) as [Hle|Hlt]; split; simpl; try lia;
    revert Hp; apply links_ext; intros i; unfold live; simpl; fold hn.
  - split; [|intros [Hi _]; destruct (decide (i = hn)); [tauto|left; split; [split; [done|]|done]]; right; lia].
    intros [[[Hi _] _]| ->]; split; (done || lia || tauto).
  - split.
    + intros [[[Hi Hj] _]| ->]; (split; [lia|]); [|right; lia]. destruct Hj; [by left|right; lia].
    + intros [Hi Hj]. destruct (decide (i = hn)); [tauto|left]. split; [|done]. split; [done|].
      destruct Hj; [by left|right; lia].
Qed.

Lemma add_all_ok source slen mask sz n dp hist :
  (forall s, (pglz_hist_idx source s slen mask < sz)%nat) -> hist_ok sz dp hist ->
  hist_ok sz (dp + n) (add_all source slen mask n dp hist).
Proof.
  intros Hx. revert dp hist. induction n as [|n IH]; intros dp hist Hh; simpl; [by rewrite Nat.add_0_r|].
  replace (dp + S n)%nat with (S dp + n)%nat by lia. apply IH, hist_add_ok; done.
Qed.

(** Whatever was in the arrays, the cleared lists are an empty history. *)
Lemma hist_start_ok hashsz hs he :
  length he = S PGLZ_HISTORY_SIZE ->
  hist_ok (Z.to_nat hashsz) 0 (mk_history (clear_lists hashsz hs) he 1 false).
Proof.
  intros He. assert (HH : (1 <= PGLZ_HISTORY_SIZE)%nat) by (rewrite history_size; lia).
  assert (Hno : forall i, ~ live (mk_history (clear_lists hashsz hs) he 1 false) i).
  { intros i [Hi [Hj|Hj]]; simpl in Hj; [done|lia]. }
  split; [done|]. split; simpl; try (intros i Hi; by destruct (Hno i)); try done.
  - unfold clear_lists. rewrite length_app, length_replicate. lia.
  - intros h Hh. left. unfold head_of, clear_lists. rewrite lookup_app_l by (by rewrite length_replicate).
    by rewrite lookup_replicate_2.
Qed.

(** ** The search *)

(** The input at [dp] repeats what is [off] bytes before it, for [len] bytes. *)
Definition match_at (source : list Z) (dp len off : nat) : Prop :=
  (1 <= off < 4095 /\ off <= dp /\ dp + len <= length source)%nat
  /\ forall i, (i < len)%nat -> rd source (dp + i) = rd source (dp - off + i).

Lemma extend_spec source slen room ip hp t :
  exists m, extend source slen room ip hp t = (t + m)%nat /\ (m <= room)%nat /\
    forall i, (i < m)%nat -> (ip + i < slen)%nat /\ rd source (ip + i) = rd source (hp + i).
Proof.
  revert ip hp t. induction room as [|room IH]; intros ip hp t; simpl.
  - exists 0%nat. rewrite Nat.add_0_r. split; [done|]. split; [done|lia].
  - destruct (Nat.ltb_spec ip slen) as [H1|H1]; simpl; [destruct (Z.eqb_spec (rd source ip) (rd source hp)) as [H2|H2]|].
    + destruct (IH (S ip) (S hp) (S t)) as (m & -> & Hm & Hi). exists (S m). split; [lia|]. split; [lia|].
      intros [|i] Hlt; [by rewrite !Nat.add_0_r|]. rewrite !Nat.add_succ_r. apply Hi. lia.
    + exists 0%nat. rewrite Nat.add_0_r. split; [done|]. split; [lia|lia].
    + exists 0%nat. rewrite Nat.add_0_r. split; [done|]. split; [lia|lia].
Qed.

Section search.
Context (source : list Z) (sz dp : nat) (hist : history) (good_drop mask : Z).
Hypothesis Hok : hist_ok sz dp hist.
Hypothesis Hdp : (dp < length source)%nat.

Definition searching (f : finding) : Prop :=
  (hent f = 0%nat \/ live hist (hent f)) /\ (f_len f <= PGLZ_MAX_MATCH)%nat
  /\ (0 < f_len f -> match_at source dp (f_len f) (f_off f))%nat.

Definition remaining (f : finding) : nat :=
  if decide (hent f = 0%nat) then 0%nat else S (pos (entry (hist_entries hist) (hent f)) - (dp - 4095)).

(** What a round makes of the best match so far. *)
Lemma match_step p len :
  (p < dp < p + 4095)%nat -> (len <= PGLZ_MAX_MATCH)%nat -> (dp + len <= length source)%nat ->
  let thislen :=
    if (16 <=? len)%nat then
      if memeq source dp p len
      then extend source (length source) (PGLZ_MAX_MATCH - len) (dp + len) (p + len) len
      else 0%nat
    else extend source (length source) PGLZ_MAX_MATCH dp p 0 in
  (thislen <= PGLZ_MAX_MATCH)%nat /\ ((0 < thislen)%nat -> match_at source dp thislen (dp - p)).
Proof.
  intros Hp Hl Hs thislen. subst thislen.
  assert (Hat : forall n, (dp + n <= length source)%nat ->
            (forall i, (i < n)%nat -> rd source (dp + i) = rd source (p + i)) -> match_at source dp n (dp - p)).
  { intros n Hn Hi. split; [lia|]. intros i Hlt. replace (dp - (dp - p) + i)%nat with (p + i)%nat by lia. by apply Hi. }
  destruct (16 <=? len)%nat.
  - destruct (memeq source dp p len) eqn:Em; [|split; lia].
    destruct (extend_spec source (length source) (PGLZ_MAX_MATCH - len) (dp + len) (p + len) len) as (m & -> & Hm & Hi).
    split; [lia|]. intros _. apply Hat.
    + destruct m as [|m]; [lia|]. destruct (Hi m ltac:(lia)). lia.
    + intros i Hlt. destruct (decide (i < len)%nat) as [Hil|Hil].
      * unfold memeq in Em. rewrite forallb_forall in Em. apply Z.eqb_eq, Em, in_seq. lia.
      * destruct (Hi (i - len)%nat ltac:(lia)) as [_ E].
        replace (dp + len + (i - len))%nat with (dp + i)%nat in E by lia.
        by replace (p + len + (i - len))%nat with (p + i)%nat in E by lia.
  - destruct (extend_spec source (length source) PGLZ_MAX_MATCH dp p 0) as (m & -> & Hm & Hi).
    simpl. split; [done|]. intros H0. apply Hat; [|intros i Hlt; by apply Hi].
    destruct (Hi (m - 1)%nat ltac:(lia)). lia.
Qed.

Lemma find_step_ok f : searching f ->
  match find_step source (length source) dp (hist_entries hist) good_drop f with
  | Next f' => searching f' /\ (remaining f' < remaining f)%nat
  | Return r => exists f', r = Some f' /\ (f_len f' <= PGLZ_MAX_MATCH)%nat
                  /\ ((0 < f_len f')%nat -> match_at source dp (f_len f') (f_off f'))
  end.
Proof.
  intros (Hh & Hl & Hm). unfold find_step. destruct (Nat.eqb_spec (hent f) INVALID_ENTRY) as [E0|E0]; [by exists f|].
  unfold INVALID_ENTRY in E0. destruct Hh as [?|Hlive]; [done|]. destruct Hok as [_ Hlinks].
  set (he := hist_entries hist) in *.
  pose proof (link_pos _ _ _ _ _ Hlinks _ Hlive) as Hpos. set (p := pos (entry he (hent f))) in *.
  destruct (Z.leb_spec 0x0fff (Z.of_nat dp - Z.of_nat p)) as [Hfar|Hnear]; [by exists f|].
  assert (Hs : (dp + f_len f <= length source)%nat).
  { destruct (f_len f) as [|n] eqn:En; [lia|]. destruct (Hm ltac:(lia)) as [? _]. lia. }
  pose proof (match_step p (f_len f) ltac:(lia) Hl Hs) as [Ht Htm]. cbv zeta in Ht, Htm.
  set (thislen := if (16 <=? f_len f)%nat then _ else _) in *.
  replace (Z.to_nat (Z.of_nat dp - Z.of_nat p)) with (dp - p)%nat by lia.
  assert (Hbest : exists len off,
            (if (f_len f <? thislen)%nat then (thislen, (dp - p)%nat) else (f_len f, f_off f)) = (len, off)
            /\ (len <= PGLZ_MAX_MATCH)%nat /\ ((0 < len)%nat -> match_at source dp len off)).
  { destruct (Nat.ltb_spec (f_len f) thislen); eauto. }
  destruct Hbest as (len & off & -> & Hlen & Hmat).
  destruct (link_next _ _ _ _ _ Hlinks _ Hlive) as (k & -> & Hk).
  assert (Hdec : (k = 0%nat \/ live hist k) /\ forall g, (remaining (mk_finding k len off g) < remaining f)%nat).
  { unfold remaining. simpl. destruct (decide (hent f = 0%nat)); [done|]. fold he. fold p.
    destruct Hk as [->|(H1 & _ & H3 & _)]; [split; [by left|intros; simpl; lia]|].
    split; [by right|]. intros _. destruct (decide (k = 0%nat)); [lia|]. unfold p in *. lia. }
  destruct Hdec as [Hk' Hdec].
  destruct (k =? INVALID_ENTRY)%nat; simpl; [by split|].
  destruct (good_match f <=? Z.of_nat len); [by eexists|by split].
Qed.

(** The search ends, and a match that it reports is one. *)
Lemma find_match_ok good_match :
  (pglz_hist_idx source dp (length source) mask < sz)%nat ->
  exists r, pglz_find_match source (length source) dp hist good_match good_drop mask = Some r /\
    match r with
    | None => True
    | Some (len, off) => (3 <= len <= PGLZ_MAX_MATCH)%nat /\ match_at source dp len off
    end.
Proof.
  intros Hx. unfold pglz_find_match. destruct Hok as [_ Hlinks].
  set (h := head_of _ _). pose proof (link_head _ _ _ _ _ Hlinks _ Hx) as Hh. fold h in Hh.
  destruct (while_total searching
    (fun r => exists f', r = Some f' /\ (f_len f' <= PGLZ_MAX_MATCH)%nat
                /\ ((0 < f_len f')%nat -> match_at source dp (f_len f') (f_off f'))) remaining
    (find_step source (length source) dp (hist_entries hist) good_drop) (S PGLZ_HISTORY_SIZE)
    (mk_finding h 0 0 good_match)) as (r & -> & f & -> & Hl & Hm).
  - split; [simpl; destruct Hh as [?|[? _]]; auto|]. simpl. lia.
  - unfold remaining. simpl. destruct (decide (h = 0%nat)); [lia|]. destruct Hh as [?|[Hh _]]; [done|].
    pose proof (link_pos _ _ _ _ _ Hlinks _ Hh). rewrite history_size. lia.
  - apply find_step_ok.
  - destruct (Nat.ltb_spec 2 (f_len f)); eexists; split; try done. split; [lia|]. apply Hm. lia.
Qed.
End search.
