(* ===== verification/PglzEncode.v ===== *)
(** The compressor writes the format: after every round the output buffer holds the
    stream of tokens that stand for the input read so far. *)

From S2P Require Import Prelude Pglz PglzDecode PglzHistory.
Local Open Scope Z_scope.

(** ** Control bits *)

Lemma bits_app l t : bits (l ++ [t]) = bits l + Z.b2z (is_tag t) * 2 ^ Z.of_nat (length l).
Proof.
  induction l as [|x l IH]; simpl bits; [simpl; lia|]. rewrite IH. simpl length.
  rewrite Nat2Z.inj_succ, Z.pow_succ_r by lia. lia.
Qed.

Lemma bits_range l : 0 <= bits l < 2 ^ Z.of_nat (length l).
Proof.
  induction l as [|x l IH]; [done|]. simpl length. rewrite Nat2Z.inj_succ, Z.pow_succ_r by lia.
  simpl bits. destruct (is_tag x); simpl Z.b2z; lia.
Qed.

Lemma lor_bit a n : 0 <= n -> 0 <= a < 2 ^ n -> Z.lor a (2 ^ n) = a + 2 ^ n.
Proof.
  intros Hn Ha. rewrite <- Z.lxor_lor, <- Z.add_nocarry_lxor; [done|..];
    apply Z.bits_inj'; intros i Hi; rewrite Z.land_spec, Z.pow2_bits_eqb, Z.bits_0 by done;
    destruct (Z.eqb_spec n i) as [<-|]; rewrite ?andb_false_r; try done;
    rewrite (in_u_testbit_high n a) by (done || unfold in_u; lia); done.
Qed.

(** ** Writing a token *)

Lemma put_bytes_app l a r :
  (length l <= length r)%nat -> put_bytes l (length a) (a ++ r) = a ++ l ++ drop (length l) r.
Proof.
  revert a r. induction l as [|x l IH]; intros a r Hl; [done|]. simpl in *. destruct r as [|y r]; [simpl in Hl; lia|].
  replace (<[length a := x]> (a ++ y :: r)) with ((a ++ [x]) ++ r).
  - replace (S (length a)) with (length (a ++ [x])) by (rewrite length_app; simpl; lia).
    rewrite IH by (simpl in Hl; lia). by rewrite <- app_assoc.
  - rewrite <- app_assoc. replace (length a) with (length a + 0)%nat by lia. by rewrite insert_app_r.
Qed.

(** What both forms of output do after the control byte has been made ready. *)
Definition emit (t : token) (o : output) : output :=
  let o := pglz_out_ctrl o in
  mk_output (put_bytes (body t) (bp o) (dest o)) (bp o + length (body t)) (ctrlp o)
    (if is_tag t then Z.lor (ctrlb o) (ctrl o) else ctrlb o) (uwrap 8 (Z.shiftl (ctrl o) 1)).

Lemma literal_emit b o : in_u 8 b -> pglz_out_literal b o = emit (Lit b) o.
Proof.
  intros Hb. unfold pglz_out_literal, emit. rewrite uwrap_small by done. simpl. by rewrite Nat.add_1_r.
Qed.
Lemma tag_emit len off o : pglz_out_tag len off o = emit (Tag len off) o.
Proof. done. Qed.

(** The buffer, of which [init] was the content, holds the groups [gs], all full, and
    the items of [g] behind the place of their control byte. *)
Record written (init : list Z) (gs : list (list token)) (g : list token) (o : output) : Prop := {
  w_full : Forall (fun g => length g = 8%nat) gs;
  w_items : (length g <= 8)%nat;
  w_ctrlp : ctrlp o = Some (length (stream gs));
  w_ctrlb : ctrlb o = bits g;
  w_ctrl : ctrl o = uwrap 8 (2 ^ Z.of_nat (length g));
  w_bp : bp o = (length (stream gs) + S (length (bodies g)))%nat;
  w_room : (bp o <= length init)%nat;
  w_dest : exists x, dest o = stream gs ++ [x] ++ bodies g ++ drop (bp o) init
}.

Lemma stream_app gs g : stream (gs ++ [g]) = stream gs ++ group g.
Proof. unfold stream. rewrite map_app, concat_app. simpl. by rewrite app_nil_r. Qed.

(** The control byte in its place completes the stream. *)
Lemma put_ctrl_written init gs g o :
  written init gs g o -> put_ctrl o = stream (gs ++ [g]) ++ drop (bp o) init /\ bp o = length (stream (gs ++ [g])).
Proof.
  intros [_ _ Hp Hb _ Hbp _ [x Hd]]. rewrite stream_app, length_app. unfold group. simpl length. split; [|done].
  unfold put_ctrl. rewrite Hp, Hd, Hb. replace (length (stream gs)) with (length (stream gs) + 0)%nat by lia.
  rewrite insert_app_r. simpl. by rewrite <- app_assoc.
Qed.

Lemma ctrl_full n : (n <= 8)%nat -> (Z.land (uwrap 8 (2 ^ Z.of_nat n)) 0xff =? 0) = bool_decide (n = 8%nat).
Proof. intros Hn. do 9 (destruct n as [|n]; [done|]). lia. Qed.

Lemma bodies_app l t : bodies (l ++ [t]) = bodies l ++ body t.
Proof. unfold bodies. rewrite map_app, concat_app. simpl. by rewrite app_nil_r. Qed.

(** The tokens that have been written. *)
Definition holding (init : list Z) (toks : list token) (o : output) : Prop :=
  (o = mk_output init 0 None 0 0 /\ toks = [])
  \/ (exists gs g, written init gs g o /\ g <> [] /\ toks = concat gs ++ g).

(** Making a control byte ready. *)
Lemma out_ctrl_written init toks o :
  holding init toks o -> (S (bp o) <= length init)%nat ->
  exists gs g, written init gs g (pglz_out_ctrl o) /\ (length g < 8)%nat /\ toks = concat gs ++ g
    /\ (bp (pglz_out_ctrl o) <= S (bp o))%nat.
Proof.
  intros [[-> ->]|(gs & g & Hw & _ & ->)] Hr.
  - simpl in Hr. exists [], []. destruct init as [|x init]; [simpl in Hr; lia|].
    split; [|split; [simpl; lia|done]]. split; simpl; try done; try lia. by exists x.
  - pose proof Hw as [Hf Hi Hp Hb Hc Hbp Hro Hd]. unfold pglz_out_ctrl. rewrite Hc, ctrl_full by done.
    case_bool_decide as H8; [|exists gs, g; split; [done|]; split; [lia|]; split; [done|lia]].
    exists (gs ++ [g]), []. destruct (put_ctrl_written _ _ _ _ Hw) as [Ep Eb]. simpl. rewrite app_nil_r, concat_app.
    simpl. rewrite app_nil_r. split; [|split; [lia|split; [done|lia]]]. split; simpl; try done.
    + apply Forall_app. split; [done|]. by constructor.
    + lia.
    + by rewrite Eb.
    + lia.
    + rewrite Ep. destruct (drop (bp o) init) as [|y l] eqn:Edr.
      { apply (f_equal length) in Edr. rewrite length_drop in Edr. simpl in Edr. lia. }
      exists y. f_equal. simpl. f_equal. replace (S (bp o)) with (bp o + 1)%nat by lia. by rewrite <- drop_drop, Edr.
Qed.

Lemma emit_written init gs g t o :
  written init gs g (pglz_out_ctrl o) -> (length g < 8)%nat ->
  (bp (pglz_out_ctrl o) + length (body t) <= length init)%nat ->
  written init gs (g ++ [t]) (emit t o).
Proof.
  intros [Hf Hi Hp Hb Hc Hbp Hro [x Hd]] Hg Hr. unfold emit. cbv zeta. set (o' := pglz_out_ctrl o) in *.
  assert (Hu : uwrap 8 (2 ^ Z.of_nat (length g)) = 2 ^ Z.of_nat (length g)).
  { apply uwrap_small. unfold in_u. split; [apply Z.pow_nonneg; lia|apply Z.pow_lt_mono_r; lia]. }
  rewrite Hu in Hc. split; simpl.
  - done.
  - rewrite length_app. simpl. lia.
  - done.
  - rewrite bits_app, Hb, Hc. destruct (is_tag t); simpl Z.b2z; [|lia].
    rewrite lor_bit by (lia || apply bits_range). lia.
  - rewrite Hc, length_app, Nat2Z.inj_add. simpl Z.of_nat. rewrite Z.shiftl_mul_pow2, Z.pow_add_r by lia. done.
  - rewrite bodies_app, length_app. lia.
  - done.
  - exists x. rewrite bodies_app, Hd, Hbp.
    replace (length (stream gs) + S (length (bodies g)))%nat with (length (stream gs ++ [x] ++ bodies g))
      by (rewrite !length_app; simpl; lia).
    replace (stream gs ++ [x] ++ bodies g ++ drop (length (stream gs ++ [x] ++ bodies g)) init)
      with ((stream gs ++ [x] ++ bodies g) ++ drop (length (stream gs ++ [x] ++ bodies g)) init)
      by (by rewrite <- !app_assoc).
    assert (length (stream gs ++ [x] ++ bodies g) = bp o') as E by (rewrite Hbp, !length_app; simpl; lia).
    rewrite put_bytes_app by (rewrite length_drop; lia).
    rewrite drop_drop, <- !app_assoc. done.
Qed.

Lemma emit_holding init toks t n o :
  holding init toks o -> token_ok n t -> (bp o + 4 <= length init)%nat ->
  holding init (toks ++ [t]) (emit t o) /\ (bp (emit t o) <= bp o + 4)%nat.
Proof.
  intros Hh Ht Hr. pose proof (body_length _ _ Ht) as Hb.
  destruct (out_ctrl_written init toks o Hh ltac:(lia)) as (gs & g & Hw & Hg & -> & Hbp). split.
  - right. exists gs, (g ++ [t]). split; [|split; [by destruct g|by rewrite app_assoc]].
    apply emit_written; [done|done|lia].
  - unfold emit. simpl. lia.
Qed.

(** Nothing is written behind the current position. *)
Lemma holding_frame init toks o n :
  holding init toks o -> (bp o <= n)%nat ->
  length (dest o) = length init /\ drop n (dest o) = drop n init
  /\ length (put_ctrl o) = length init /\ drop n (put_ctrl o) = drop n init.
Proof.
  intros Hh Hn. assert (length (dest o) = length init /\ drop n (dest o) = drop n init) as [H1 H2].
  { destruct Hh as [[-> _]|(gs & g & [_ _ _ _ _ Hbp Hro [x Hd]] & _)]; [done|].
    assert (Hl : length (stream gs ++ [x] ++ bodies g) = bp o) by (rewrite Hbp, !length_app; simpl; lia).
    assert (Hd' : dest o = (stream gs ++ [x] ++ bodies g) ++ drop (bp o) init) by (by rewrite Hd, <- !app_assoc).
    rewrite Hd'. split; [rewrite length_app, length_drop; lia|].
    rewrite drop_app_ge, drop_drop by lia. f_equal. lia. }
  split; [done|]. split; [done|]. unfold put_ctrl. destruct Hh as [[-> _]|(gs & g & [_ _ Hp _ _ Hbp _ _] & _)]; [done|].
  rewrite Hp, length_insert. split; [done|]. rewrite drop_insert_lt by lia. done.
Qed.

(** ** Matches are repetitions *)

Lemma match_repeats source dp len off i :
  match_at source dp len off -> (i < len)%nat -> rd source (dp + i) = rd source (dp - off + i mod off).
Proof.
  intros [Hb Hm]. induction i as [i IH] using lt_wf_ind. intros Hi.
  destruct (decide (i < off)%nat) as [H|H]; [rewrite Nat.mod_small by done; by apply Hm|].
  rewrite Hm by done. replace (dp - off + i)%nat with (dp + (i - off))%nat by lia.
  rewrite IH by lia. f_equal. f_equal. replace i with (i - off + 1 * off)%nat at 2 by lia. by rewrite Nat.Div0.mod_add.
Qed.

Lemma expand_match source dp len off :
  match_at source dp len off -> expand (take dp source) (Tag len off) = take (dp + len) source.
Proof.
  intros Hm. pose proof Hm as [Hb _]. simpl. rewrite <- (take_take_drop source dp len). f_equal.
  apply list_eq. intros i. destruct (decide (i < len)%nat) as [Hi|Hi].
  - rewrite repeated_lookup, lookup_take_lt, lookup_drop by done. rewrite rd_lookup by lia. f_equal.
    rewrite (match_repeats source dp len off i Hm Hi). rewrite length_take, Nat.min_l by lia.
    pose proof (Nat.mod_upper_bound i off ltac:(lia)). by rewrite rd_take by lia.
  - rewrite !lookup_ge_None_2; [done|rewrite length_take; lia|rewrite length_repeated; lia].
Qed.

Lemma expand_literal source dp :
  (dp < length source)%nat -> expand (take dp source) (Lit (rd source dp)) = take (S dp) source.
Proof. intros Hd. simpl. rewrite (take_S_r _ _ (rd source dp)); [done|]. by apply rd_lookup. Qed.

(** ** The loop *)

Section compress.
Context (source init : list Z) (result_max first_success_by good_match good_drop mask : Z) (sz : nat).
Hypothesis Hbytes : Forall (in_u 8) source.
Hypothesis Hinit : (length source + 4 <= length init)%nat.
Hypothesis Hmax : result_max <= Z.of_nat (length source).
Hypothesis Hidx : forall s, (pglz_hist_idx source s (length source) mask < sz)%nat.

(** The tokens written stand for the input that was read. *)
Definition progress (c : compressing) : Prop :=
  (c_dp c <= length source)%nat /\ hist_ok sz (c_dp c) (c_hist c)
  /\ (bp (c_out c) <= length source + 4)%nat
  /\ exists toks, holding init toks (c_out c) /\ tokens_ok [] toks /\ expand_all [] toks = take (c_dp c) source.

(** A result: the arrays keep their size, the buffer is touched in its first
    [PGLZ_MAX_OUTPUT] bytes only, and the bytes written are a stream for the input. *)
Definition good_answer (a : answer) : Prop :=
  exists r d hist, a = Some (r, d, hist)
    /\ length (hist_entries hist) = S PGLZ_HISTORY_SIZE
    /\ length d = length init /\ drop (length source + 4) d = drop (length source + 4) init
    /\ (r = -1 \/ r < result_max /\ exists gs, groups_ok gs /\ tokens_ok [] (concat gs)
          /\ expand_all [] (concat gs) = source /\ Z.of_nat (length (stream gs)) = r
          /\ take (Z.to_nat r) d = stream gs).

Lemma tokens_ok_snoc toks t dp :
  tokens_ok [] toks -> expand_all [] toks = take dp source -> (dp <= length source)%nat -> token_ok dp t ->
  tokens_ok [] (toks ++ [t]) /\ expand_all [] (toks ++ [t]) = expand (take dp source) t.
Proof.
  intros H1 H2 Hd Ht. rewrite tokens_ok_app, expand_all_app, H2. simpl. rewrite length_take, Nat.min_l by done. done.
Qed.

Lemma give_up_good c : progress c ->
  good_answer (Some (-1, dest (c_out c), c_hist c)) /\ good_answer (Some (-1, put_ctrl (c_out c), c_hist c)).
Proof.
  intros (Hd & [_ Hl] & Hb & toks & Hh & _). destruct (holding_frame _ _ _ (length source + 4) Hh Hb) as (? & ? & ? & ?).
  pose proof (link_size _ _ _ _ _ Hl). split; repeat eexists; eauto.
Qed.

(** Full groups and a last one. *)
Lemma groups_snoc gs g :
  Forall (fun g => length g = 8%nat) gs -> (1 <= length g <= 8)%nat -> groups_ok (gs ++ [g]).
Proof.
  intros Hf Hg. induction Hf as [|x gs Hx Hf IH]; [done|]. simpl.
  destruct (gs ++ [g]) eqn:E; [by destruct gs|]. done.
Qed.

Lemma finish_good c : progress c -> c_dp c = length source -> Z.of_nat (bp (c_out c)) < result_max ->
  good_answer (Some (Z.of_nat (bp (c_out c)), put_ctrl (c_out c), c_hist c)).
Proof.
  intros Hp Ed Hlt. destruct (give_up_good c Hp) as [_ (r & d & h & [= <- <- <-] & H1 & H2 & H3 & _)].
  destruct Hp as (_ & _ & Hb & toks & Hh & Hok & He).
  repeat eexists; eauto. right. split; [done|]. rewrite Ed, firstn_all in He.
  destruct Hh as [[-> ->]|(gs & g & Hw & Hg & ->)]; [simpl in He; subst source; simpl in *; lia|].
  pose proof Hw as [Hf Hi _ _ _ _ _ _]. destruct (put_ctrl_written _ _ _ _ Hw) as [Ep Eb].
  exists (gs ++ [g]). rewrite concat_app. simpl concat. rewrite app_nil_r.
  split; [apply groups_snoc; [done|]; destruct g; [done|simpl; simpl in Hi; lia]|].
  split; [done|]. split; [done|]. split; [by rewrite Eb|]. rewrite Ep, Nat2Z.id, Eb. by rewrite take_app_length.
Qed.

Lemma compress_step_ok c : progress c ->
  match compress_step source (length source) result_max first_success_by good_match good_drop mask c with
  | Next c' => progress c' /\ (length source - c_dp c' < length source - c_dp c)%nat
  | Return a => good_answer a
  end.
Proof.
  intros Hp. pose proof (give_up_good c Hp) as [Hg1 Hg2]. pose proof Hp as (Hd & Hh & Hb & toks & Ho & Hok & He).
  unfold compress_step. cbv zeta. destruct (Nat.ltb_spec (c_dp c) (length source)) as [Hlt|Hge].
  - destruct (Z.leb_spec result_max (Z.of_nat (bp (c_out c)))) as [?|Hr]; [done|].
    destruct (negb (found_match c) && _); [done|].
    destruct (find_match_ok source sz (c_dp c) (c_hist c) good_drop mask Hh Hlt good_match (Hidx _)) as (r & -> & Hm).
    destruct r as [[len off]|].
    + destruct Hm as [Hlen Hm]. pose proof Hm as [Hoff _].
      assert (Ht : token_ok (c_dp c) (Tag len off)) by (simpl; lia).
      destruct (emit_holding init toks _ _ (c_out c) Ho Ht ltac:(lia)) as [Ho' Hb'].
      destruct (tokens_ok_snoc toks (Tag len off) (c_dp c) Hok He Hd Ht) as [Hok' He'].
      split; [|simpl; lia]. rewrite tag_emit. unfold progress. cbn [c_dp c_out c_hist]. split; [lia|].
      split; [by apply add_all_ok|]. split; [lia|]. exists (toks ++ [Tag len off]). rewrite He'. rewrite expand_match by done. done.
    + assert (Hbyte : in_u 8 (rd source (c_dp c))) by (apply (Forall_lookup_1 _ _ _ _ Hbytes (rd_lookup _ _ Hlt))).
      destruct (emit_holding init toks (Lit (rd source (c_dp c))) (c_dp c) (c_out c) Ho Hbyte ltac:(lia)) as [Ho' Hb'].
      destruct (tokens_ok_snoc toks (Lit (rd source (c_dp c))) (c_dp c) Hok He Hd Hbyte) as [Hok' He'].
      split; [|simpl; lia]. rewrite literal_emit by done. unfold progress. cbn [c_dp c_out c_hist]. split; [lia|].
      split; [by apply hist_add_ok|]. split; [lia|]. exists (toks ++ [Lit (rd source (c_dp c))]). rewrite He'.
      rewrite expand_literal by done. done.
  - destruct (Z.leb_spec result_max (Z.of_nat (bp (c_out c)))) as [?|Hr]; [done|]. apply finish_good; [done|lia|done].
Qed.
End compress.
