(* ===== verification/PglzProps.v ===== *)
(** What the compressor guarantees: compression followed by decompression gives the
    input back, a prefix of the output needs a computable prefix of the compressed
    data only, and both directions stay inside their buffers. *)

From S2P Require Import Prelude Pglz PglzDecode PglzHistory PglzEncode.
Local Open Scope Z_scope.

(** ** Parameters of a call *)

Lemma result_max_rate slen rate :
  0 <= slen -> 0 <= rate <= 99 -> 100 * compute_result_max slen rate <= slen * (100 - rate).
Proof.
  intros Hs Hr. unfold compute_result_max. destruct (_ <? slen).
  - pose proof (Z.mul_div_le slen 100 ltac:(lia)). nia.
  - pose proof (Z.mul_div_le (slen * (100 - rate)) 100 ltac:(lia)). lia.
Qed.

Lemma clamp_range lo hi x : lo <= hi -> lo <= clamp lo hi x <= hi.
Proof. unfold clamp. intros H. destruct (Z.ltb_spec hi x); [lia|]. destruct (Z.ltb_spec x lo); lia. Qed.

Lemma hash_size_power slen : exists k, 0 <= k /\ hash_size slen = 2 ^ k.
Proof.
  unfold hash_size. destruct (slen <? 128); [by exists 9|]. destruct (slen <? 256); [by exists 10|].
  destruct (slen <? 512); [by exists 11|]. destruct (slen <? 1024); [by exists 12|]. by exists 13.
Qed.

(** The least saving that a strategy asks for, in percent. *)
Definition rate_of (strategy : option PGLZ_Strategy) : Z :=
  clamp 0 99 (min_comp_rate (default PGLZ_strategy_default strategy)).

Lemma compress_good source dest strategy hs he :
  Forall (in_u 8) source -> (length source + 4 <= length dest)%nat -> length he = S PGLZ_HISTORY_SIZE ->
  good_answer source dest (compute_result_max (Z.of_nat (length source)) (rate_of strategy))
    (pglz_compress source dest strategy hs he).
Proof.
  intros Hb Hd He. unfold pglz_compress. cbv zeta.
  destruct (_ || _); [repeat eexists; eauto|]. fold (rate_of strategy).
  set (mx := compute_result_max _ _). set (hashsz := hash_size _).
  set (step := compress_step _ _ _ _ _ _ _). set (start := mk_compressing _ _ _ _).
  assert (Hmax : mx <= Z.of_nat (length source)).
  { pose proof (clamp_range 0 99 (min_comp_rate (default PGLZ_strategy_default strategy)) ltac:(lia)).
    pose proof (result_max_rate (Z.of_nat (length source)) (rate_of strategy) ltac:(lia) ltac:(done)).
    subst mx. unfold rate_of in *. nia. }
  destruct (hash_size_power (Z.of_nat (length source))) as (k & Hk & Ek). fold hashsz in Ek.
  destruct (while_total (progress source dest (Z.to_nat hashsz)) (good_answer source dest mx)
    (fun c => length source - c_dp c)%nat step (S (length source)) start) as (r & -> & Hr).
  - split; [simpl; lia|]. split; [by apply hist_start_ok|]. split; [simpl; lia|].
    exists []. split; [by left|done].
  - simpl. lia.
  - intros c. apply compress_step_ok; try done. intros s. rewrite Ek. by apply pglz_hist_idx_bound.
  - done.
Qed.

(** ** Prefixes *)

(** The items that are needed for [r] more bytes are at most two bytes longer. *)
Lemma expand_grows out t : token_ok (length out) t ->
  (length (body t) <= length (expand out t) - length out /\ length out < length (expand out t))%nat.
Proof.
  destruct t as [b|len off]; simpl; rewrite length_app; [simpl; lia|]. rewrite length_repeated.
  intros (Hl & _). unfold tag_bytes. destruct (Z.ltb_spec 17 (Z.of_nat len)); simpl; lia.
Qed.

Lemma expand_all_grows out l : tokens_ok out l ->
  (length (bodies l) + length out <= length (expand_all out l))%nat.
Proof.
  revert out. induction l as [|t l IH]; intros out; [done|]. intros [H1 H2].
  specialize (IH _ H2). pose proof (expand_grows out t H1). unfold bodies, expand_all in *. simpl.
  rewrite length_app. lia.
Qed.

Lemma consumed_bound destend out l : tokens_ok out l -> (length out <= destend)%nat ->
  (consumed destend out l <= destend - length out + 2)%nat.
Proof.
  revert out. induction l as [|t l IH]; intros out Hok Hd; simpl; [lia|]. destruct Hok as [H1 H2].
  pose proof (expand_grows out t H1). pose proof (body_length _ _ H1).
  destruct (Nat.ltb_spec (length out) destend) as [Hlt|]; [|lia].
  destruct (decide (length (expand out t) <= destend)%nat) as [Hle|Hgt].
  - specialize (IH _ H2 Hle). lia.
  - rewrite consumed_done by lia. lia.
Qed.

Lemma gconsumed_bound destend gs out : groups_ok gs -> tokens_ok out (concat gs) -> (length out < destend)%nat ->
  (gconsumed destend out gs <= destend - length out + 2 + (destend - length out + 7) / 8)%nat.
Proof.
  revert out. induction gs as [|g gs IH]; intros out Hg Hok Hd; [simpl; lia|]. cbn [concat] in Hok.
  apply tokens_ok_app in Hok as [Hok1 Hok2]. cbn [gconsumed]. destruct (Nat.ltb_spec (length out) destend); [|lia].
  set (r := (destend - length out)%nat) in *.
  assert (Hq : (1 <= (r + 7) / 8)%nat) by (apply Nat.div_le_lower_bound; lia).
  pose proof (consumed_bound destend out g Hok1 ltac:(lia)) as Hc. fold r in Hc.
  destruct (decide (length (expand_all out g) < destend)%nat) as [Hlt|Hge]; [|rewrite gconsumed_done by lia; lia].
  pose proof (expand_all_grows _ _ Hok1) as Hgr. pose proof (expand_all_longer _ _ Hok1) as Hlong.
  rewrite consumed_full by (done || lia). destruct gs as [|g' gs]; [cbn [gconsumed]; lia|]. destruct Hg as [H8 Hg].
  specialize (IH _ Hg Hok2 Hlt).
  set (r' := (destend - length (expand_all out g))%nat) in *.
  assert ((r' + 7) / 8 + 1 <= (r + 7) / 8)%nat; [|lia].
  rewrite <- (Nat.div_add (r' + 7) 1 8) by lia. apply Nat.Div0.div_le_mono. lia.
Qed.

Lemma gconsumed_le destend gs out : (gconsumed destend out gs <= length (stream gs))%nat.
Proof.
  revert out. induction gs as [|g gs IH]; intros out; [done|]. specialize (IH (expand_all out g)).
  pose proof (consumed_le destend out g). unfold stream in *. simpl. rewrite length_app.
  destruct (_ <? _)%nat; lia.
Qed.

Lemma maximum_size_enough destend gs :
  groups_ok gs -> tokens_ok [] (concat gs) -> (destend <= length (expand_all [] (concat gs)))%nat ->
  Z.of_nat (gconsumed destend [] gs)
  <= pglz_maximum_compressed_size (Z.of_nat destend) (Z.of_nat (length (stream gs))).
Proof.
  intros Hg Hok Hd. unfold pglz_maximum_compressed_size. cbv zeta. apply Z.min_glb.
  - destruct (decide (destend = 0%nat)) as [->|Hne]; [by rewrite gconsumed_done|].
    pose proof (gconsumed_bound destend gs [] Hg Hok ltac:(simpl; lia)) as Hb. simpl length in Hb.
    rewrite Nat.sub_0_r in Hb. apply inj_le in Hb. rewrite !Nat2Z.inj_add, Nat2Z.inj_div in Hb.
    replace (Z.of_nat destend * 9 + 7) with (Z.of_nat destend * 8 + Z.of_nat (destend + 7)) by lia.
    rewrite Z.div_add_l by lia. simpl Z.of_nat in Hb. lia.
  - apply inj_le, gconsumed_le.
Qed.

Lemma decompress_prefix front gs n k memory dest :
  groups_ok gs -> tokens_ok [] (concat gs) -> (n <= length (expand_all [] (concat gs)))%nat ->
  (gconsumed n [] gs <= k)%nat -> (n <= length dest)%nat ->
  pglz_decompress front (take k (stream gs) ++ memory) k dest n false
  = Some (Bytes n, take n (expand_all [] (concat gs)) ++ drop n dest).
Proof.
  intros Hg Hok Hn Hk Hd. unfold pglz_decompress.
  pose proof (decompress_groups front (take k (stream gs) ++ memory) k n false gs (S k) 0 [] dest Hg) as Hw.
  simpl length in Hw. simpl app in Hw. rewrite Hw; [by rewrite Nat.sub_0_r|lia|done| |lia|done|lia|done].
  exists (drop (gconsumed n [] gs) (take k (stream gs)) ++ memory). rewrite drop_0, app_assoc. f_equal.
  replace (take (gconsumed n [] gs) (stream gs)) with (take (gconsumed n [] gs) (take k (stream gs)))
    by (rewrite take_take, Nat.min_l by lia; done).
  by rewrite take_drop.
Qed.

(** ** Arbitrary input *)

Section untrusted.
Context (source : list Z) (srcend destend : nat) (init : list Z).
Hypothesis Hbytes : Forall (in_u 8) source.

(** Of the buffer, only the part that is asked for has changed. *)
Definition framed (d : list Z) : Prop := length d = length init /\ drop destend d = drop destend init.

Lemma rd_byte i : in_u 8 (rd source i).
Proof.
  unfold rd. destruct (source !! i) as [x|] eqn:E; [by apply (Forall_lookup_1 _ _ _ _ Hbytes E)|done].
Qed.

Lemma length_bytes_before front n : length (bytes_before front n) = n.
Proof. unfold bytes_before. by rewrite length_map, length_rev, length_seq. Qed.

(** One copy changes the bytes it is meant to change, also when it reads in front of the
    buffer. *)
Lemma copy_within_framed front dp off n d :
  framed d -> (n <= off)%nat -> (dp + n <= destend)%nat -> (destend <= length init)%nat ->
  framed (copy_within front d dp off n).
Proof.
  intros [Hl Hd] Ho Hlen Hi. unfold copy_within.
  assert (Em : length (take n (bytes_before front (off - dp) ++ drop (dp - off) d)) = n).
  { rewrite length_take, length_app, length_bytes_before, length_drop. lia. }
  split.
  - rewrite !length_app, Em, length_take, length_drop. lia.
  - rewrite app_assoc, drop_app_ge by (rewrite length_app, Em, length_take; lia).
    rewrite length_app, Em, length_take, drop_drop, <- Hd. f_equal. lia.
Qed.

Lemma copy_match_framed front fuel dp off len d :
  framed d -> (1 <= off)%nat -> (dp + len <= destend)%nat -> (destend <= length init)%nat -> (len < fuel)%nat ->
  exists d', copy_match front fuel d dp off len = Some (d', (dp + len)%nat) /\ framed d'.
Proof.
  revert dp off len d. induction fuel as [|fuel IH]; intros dp off len d Hf Ho Hlen Hi Hfu; [lia|]. simpl.
  destruct (Nat.ltb_spec off len).
  - destruct (IH (dp + off) (off + off) (len - off) (copy_within front d dp off off))%nat as (d' & -> & Hf');
      [by apply copy_within_framed; [|lia..]|lia..|].
    exists d'. split; [|done]. do 2 f_equal. lia.
  - eexists. split; [done|]. by apply copy_within_framed; [|lia..].
Qed.

Lemma copy_match_end front fuel dp off len d :
  (1 <= off)%nat -> (len < fuel)%nat -> exists d', copy_match front fuel d dp off len = Some (d', (dp + len)%nat).
Proof.
  revert dp off len d. induction fuel as [|fuel IH]; intros dp off len d Ho Hfu; [lia|]. simpl.
  destruct (Nat.ltb_spec off len); [|by eexists].
  destruct (IH (dp + off) (off + off) (len - off) (copy_within front d dp off off))%nat as (d' & ->); [lia..|].
  exists d'. do 2 f_equal. lia.
Qed.

(** Two runs over the same compressed data take the same way, whatever bytes they copy. *)
Lemma items_safe front1 front2 k ctrl sp dp d1 d2 :
  framed d1 -> (dp <= destend)%nat -> (destend <= length init)%nat ->
  (exists d1' d2', items front1 k source srcend destend ctrl sp dp d1 = Some (inl (Corrupt, d1'))
     /\ items front2 k source srcend destend ctrl sp dp d2 = Some (inl (Corrupt, d2')) /\ framed d1')
  \/ (exists sp' dp' d1' d2', items front1 k source srcend destend ctrl sp dp d1 = Some (inr (sp', dp', d1'))
     /\ items front2 k source srcend destend ctrl sp dp d2 = Some (inr (sp', dp', d2'))
     /\ (sp <= sp')%nat /\ (dp' <= destend)%nat /\ framed d1').
Proof.
  revert ctrl sp dp d1 d2. induction k as [|k IH]; intros ctrl sp dp d1 d2 Hf Hdp Hi; cbn [items];
    [by right; exists sp, dp, d1, d2|].
  destruct (Nat.ltb_spec sp srcend) as [Hs|]; simpl andb; cbv iota; [|by right; exists sp, dp, d1, d2].
  destruct (Nat.ltb_spec dp destend) as [Hlt|]; [|by right; exists sp, dp, d1, d2].
  assert (Hgo : forall c sp' dp' e1 e2, framed e1 -> (sp <= sp')%nat -> (dp' <= destend)%nat ->
    (exists d1' d2', items front1 k source srcend destend c sp' dp' e1 = Some (inl (Corrupt, d1'))
       /\ items front2 k source srcend destend c sp' dp' e2 = Some (inl (Corrupt, d2')) /\ framed d1')
    \/ (exists sp'' dp'' d1' d2', items front1 k source srcend destend c sp' dp' e1 = Some (inr (sp'', dp'', d1'))
       /\ items front2 k source srcend destend c sp' dp' e2 = Some (inr (sp'', dp'', d2'))
       /\ (sp <= sp'')%nat /\ (dp'' <= destend)%nat /\ framed d1')).
  { intros c sp' dp' e1 e2 He Hsp Hd. destruct (IH c sp' dp' e1 e2 He Hd Hi)
      as [?|(sp'' & dp'' & d1' & d2' & ? & ? & ? & ? & ?)]; [by left|right].
    exists sp'', dp'', d1', d2'. repeat (split; [done|]). split; [lia|done]. }
  destruct (Z.land ctrl 1 =? 0); simpl negb; cbv iota.
  - apply Hgo; [|lia..]. destruct Hf as [Hl Hd]. split; [by rewrite length_insert|]. by rewrite drop_insert_lt.
  - set (off := Z.lor _ _). set (len0 := Z.land _ 0x0f + 3).
    destruct (if len0 =? 18 then _ else _) as [len sp'] eqn:El.
    assert (Hsp : (sp <= sp')%nat) by (destruct (len0 =? 18); injection El as <- <-; lia).
    destruct ((srcend <? sp')%nat || (off =? 0)) eqn:Ec; [by left; exists d1, d2|].
    rewrite orb_false_iff, Z.eqb_neq in Ec. destruct Ec as [_ Hoff].
    assert (0 <= off).
    { subst off. apply Z.lor_nonneg. split; [apply Z.shiftl_nonneg, Z.land_nonneg; right; lia|].
      destruct (rd_byte (S sp)). done. }
    set (n := Nat.min _ _).
    destruct (copy_match_framed front1 (S n) dp (Z.to_nat off) n d1 Hf) as (e1 & -> & Hf'); [lia..|].
    destruct (copy_match_end front2 (S n) dp (Z.to_nat off) n d2) as (e2 & ->); [lia..|].
    apply Hgo; [done|lia..].
Qed.

Lemma decompress_safe front1 front2 check fuel sp dp d1 d2 :
  framed d1 -> (dp <= destend)%nat -> (destend <= length init)%nat -> (srcend - sp < fuel)%nat ->
  exists e d1' d2', while fuel (decompress_step front1 source srcend destend check) (sp, dp, d1) = Some (Some (e, d1'))
    /\ while fuel (decompress_step front2 source srcend destend check) (sp, dp, d2) = Some (Some (e, d2'))
    /\ framed d1' /\ forall n, e = Bytes n -> (n <= destend)%nat /\ (check = true -> n = destend).
Proof.
  revert sp dp d1 d2. induction fuel as [|fuel IH]; intros sp dp d1 d2 Hf Hdp Hi Hfu; [lia|].
  cbn [while]. unfold decompress_step at 1 3.
  destruct (Nat.ltb_spec sp srcend) as [Hs|]; simpl andb; [destruct (Nat.ltb_spec dp destend) as [Hd|]|].
  1: { destruct (items_safe front1 front2 8 (rd source sp) (S sp) dp d1 d2 Hf Hdp Hi)
         as [(d1' & d2' & -> & -> & ?)|(sp' & dp' & d1' & d2' & -> & -> & ? & ? & ?)]; [by exists Corrupt, d1', d2'|].
       apply IH; [done|lia..]. }
  all: destruct check; simpl; [destruct (Nat.eqb_spec dp destend) as [->|Hne]; simpl; [destruct (_ =? _)%nat; simpl|]|].
  all: do 3 eexists; (split; [done|]); (split; [done|]); split; [done|]; intros n En; try done; injection En as <-; done.
Qed.
End untrusted.

(** What lies behind the compressed data does not matter, although the code may read
    two bytes of it before it rejects the data. *)
Lemma items_memory front k source m1 m2 destend ctrl sp dp d :
  items front k (source ++ m1) (length source) destend ctrl sp dp d
  = items front k (source ++ m2) (length source) destend ctrl sp dp d.
Proof.
  revert ctrl sp dp d. induction k as [|k IH]; intros ctrl sp dp d; cbn [items]; [done|].
  destruct (Nat.ltb_spec sp (length source)) as [Hs|]; simpl andb; [|done].
  destruct (dp <? destend)%nat; [|done]. rewrite !(rd_app_l source _ sp) by done.
  destruct (Z.land ctrl 1 =? 0); simpl negb; cbv iota; [apply IH|].
  destruct (decide (S sp < length source)%nat) as [H1|H1].
  - rewrite !(rd_app_l source _ (S sp)) by done. destruct (_ =? 18).
    + destruct (decide (sp + 2 < length source)%nat) as [H2|H2].
      * rewrite !(rd_app_l source _ (sp + 2)) by done. destruct (_ || _); [done|].
        destruct (copy_match _ _ _ _ _ _) as [[d' dp']|]; [apply IH|done].
      * destruct (Nat.ltb_spec (length source) (S (sp + 2))); [done|lia].
    + destruct (_ || _); [done|].
      destruct (copy_match _ _ _ _ _ _) as [[d' dp']|]; [apply IH|done].
  - destruct (_ =? 18).
    + destruct (Nat.ltb_spec (length source) (S (sp + 2))); [done|lia].
    + destruct (Nat.ltb_spec (length source) (sp + 2)); [done|lia].
Qed.

Lemma decompress_memory front source m1 m2 out rawsize check :
  pglz_decompress front (source ++ m1) (length source) out rawsize check
  = pglz_decompress front (source ++ m2) (length source) out rawsize check.
Proof.
  unfold pglz_decompress. generalize (0%nat, 0%nat, out) as s. generalize (S (length source)) as fuel.
  induction fuel as [|fuel IH]; intros [[sp dp] d]; [done|]. cbn [while].
  replace (decompress_step front (source ++ m1) (length source) rawsize check (sp, dp, d))
    with (decompress_step front (source ++ m2) (length source) rawsize check (sp, dp, d)).
  - destruct (decompress_step _ _ _ _ _ _); [apply IH|done].
  - unfold decompress_step. destruct (Nat.ltb_spec sp (length source)) as [Hs|]; simpl andb; [|done].
    rewrite !(rd_app_l source _ sp) by done. by rewrite (items_memory _ _ _ m1 m2).
Qed.

(** ** The theorems *)

Section theorems.
Context (source dest : list Z) (strategy : option PGLZ_Strategy) (hs : list nat) (he : list PGLZ_HistEntry).
Hypothesis Hbytes : Forall (in_u 8) source.
Hypothesis Hroom : (length source + 4 <= length dest)%nat.
Hypothesis Hentries : length he = S PGLZ_HISTORY_SIZE.

(** C24: Compression always returns, whatever an earlier call has left in the static
    arrays; it keeps inside [PGLZ_MAX_OUTPUT] bytes of the buffer, and a value that
    it does not refuse saves more than the strategy's least rate. *)
Theorem pglz_compress_bounds :
  exists r d hist, pglz_compress source dest strategy hs he = Some (r, d, hist)
    /\ length (hist_entries hist) = S PGLZ_HISTORY_SIZE
    /\ length d = length dest
    /\ (forall i, (Z.to_nat (PGLZ_MAX_OUTPUT (Z.of_nat (length source))) <= i)%nat -> d !! i = dest !! i)
    /\ (r = -1 \/ 0 < r /\ 100 * r < Z.of_nat (length source) * (100 - rate_of strategy)).
Proof.
  destruct (compress_good source dest strategy hs he Hbytes Hroom Hentries)
    as (r & d & hist & E & H1 & H2 & H3 & Hr).
  exists r, d, hist. split; [done|]. split; [done|]. split; [done|]. split.
  - intros i Hi. unfold PGLZ_MAX_OUTPUT in Hi. replace i with (length source + 4 + (i - (length source + 4)))%nat by lia.
    by rewrite <- !lookup_drop, H3.
  - destruct Hr as [?|(Hlt & gs & Hg & Hok & Eo & El & _)]; [by left|right].
    assert (0 < r).
    { destruct gs as [|g gs]; [simpl in *; subst source; simpl in *|unfold stream, group in El; simpl in El; lia].
      exfalso. revert Hlt. unfold compute_result_max. simpl. rewrite <- El. done. }
    split; [done|].
    pose proof (result_max_rate (Z.of_nat (length source)) (rate_of strategy) ltac:(lia) ltac:(apply clamp_range; lia)). lia.
Qed.

(** C11: A value that was compressed is decompressed to itself, with or without the
    final check. *)
Theorem pglz_roundtrip r d hist front memory out check :
  pglz_compress source dest strategy hs he = Some (r, d, hist) -> r <> -1 -> (length source <= length out)%nat ->
  pglz_decompress front (take (Z.to_nat r) d ++ memory) (Z.to_nat r) out (length source) check
  = Some (Bytes (length source), source ++ drop (length source) out).
Proof.
  intros E Hr Ho. destruct (compress_good source dest strategy hs he Hbytes Hroom Hentries)
    as (r' & d' & hist' & E' & _ & _ & _ & [?|(_ & gs & Hg & Hok & Eo & El & Et)]); [congruence|].
  assert (r' = r /\ d' = d) as [-> ->] by (split; congruence). rewrite Et.
  replace (Z.to_nat r) with (length (stream gs)) by lia.
  pose proof (decompress_stream front gs memory out check Hg Hok) as Hs. cbv zeta in Hs. rewrite Eo in Hs. by apply Hs.
Qed.

(** The first [n] bytes are decompressed from as many bytes as
    [pglz_maximum_compressed_size] says, whatever follows them in memory. *)
Theorem pglz_prefix r d hist front memory out n :
  pglz_compress source dest strategy hs he = Some (r, d, hist) -> r <> -1 ->
  (n <= length source)%nat -> (n <= length out)%nat ->
  let k := Z.to_nat (pglz_maximum_compressed_size (Z.of_nat n) r) in
  pglz_decompress front (take k d ++ memory) k out n false = Some (Bytes n, take n source ++ drop n out).
Proof.
  intros E Hr Hn Ho k. destruct (compress_good source dest strategy hs he Hbytes Hroom Hentries)
    as (r' & d' & hist' & E' & _ & _ & _ & [?|(_ & gs & Hg & Hok & Eo & El & Et)]); [congruence|].
  assert (r' = r /\ d' = d) as [-> ->] by (split; congruence).
  pose proof (maximum_size_enough n gs Hg Hok ltac:(by rewrite Eo)) as Hm. rewrite El in Hm.
  assert (Hkr : (k <= Z.to_nat r)%nat).
  { subst k. unfold pglz_maximum_compressed_size. cbv zeta. lia. }
  replace (take k d) with (take k (stream gs)) by (rewrite <- Et, take_take; f_equal; lia).
  rewrite decompress_prefix; [by rewrite Eo|done|done|by rewrite Eo|subst k; lia|done].
Qed.
End theorems.

(** C23: On any input, corrupt or not, decompression returns. Its answer follows from the
    compressed bytes, the size and the check alone; it reports at most the [rawsize] bytes
    asked for, exactly that many under the check; and it writes nothing outside them. The
    bytes written do not depend on what lies behind the compressed data. All this holds
    also when a corrupt tag makes the code copy from the memory in front of the buffer
    ([front]), which it does not refuse. *)
Theorem pglz_decompress_bounds source rawsize check :
  Forall (in_u 8) source ->
  exists e, (forall n, e = Bytes n -> (n <= rawsize)%nat /\ (check = true -> n = rawsize))
    /\ forall front memory out, (rawsize <= length out)%nat ->
       exists d, pglz_decompress front (source ++ memory) (length source) out rawsize check = Some (e, d)
         /\ pglz_decompress front source (length source) out rawsize check = Some (e, d)
         /\ length d = length out /\ (forall i, (rawsize <= i)%nat -> d !! i = out !! i).
Proof.
  intros Hb. set (none := replicate rawsize 0).
  destruct (decompress_safe source (length source) rawsize none Hb (fun _ => 0) (fun _ => 0) check
    (S (length source)) 0 0 none none) as (e & d0 & _ & E0 & _ & _ & Hn);
    [done|lia|subst none; rewrite length_replicate; lia|lia|].
  exists e. split; [done|]. intros front memory out Hr.
  destruct (decompress_safe source (length source) rawsize out Hb front (fun _ => 0) check
    (S (length source)) 0 0 out none) as (e' & d & d0' & E & E' & [Hl Hd] & _); [done|lia|done|lia|].
  rewrite E0 in E'. injection E' as <- <-.
  assert (Ed : pglz_decompress front source (length source) out rawsize check = Some (e, d))
    by (unfold pglz_decompress; by rewrite E).
  exists d. split; [|split; [done|split; [done|]]].
  - rewrite <- Ed. rewrite <- (app_nil_r source) at 3. rewrite (decompress_memory front source memory []).
    by rewrite app_nil_r.
  - intros i Hi. replace i with (rawsize + (i - rawsize))%nat by lia. by rewrite <- !lookup_drop, Hd.
Qed.

(** ** Examples *)

(** A repeating input, over arrays that still hold entries of another one. *)
Module Sample.
Definition source : list Z := map (fun i => 97 + Z.of_nat (i mod 5)) (seq 0 60) ++ [1; 2; 3].
Definition buffer : list Z := replicate 70 255.
Definition stale : list PGLZ_HistEntry :=
  replicate (S PGLZ_HISTORY_SIZE) (mk_entry (Some 7%nat) (Some 9%nat) 3 1000).
Definition front (j : nat) : Z := 200 + Z.of_nat j.
Definition lists : list nat := replicate PGLZ_MAX_HISTORY_LISTS 5%nat.
Definition compressed : list Z := [32; 97; 98; 99; 100; 101; 15; 5; 37; 1; 2; 0; 3].

Lemma source_bytes : Forall (in_u 8) source.
Proof. apply (bool_decide_unpack _). vm_compute. exact I. Qed.

Lemma room : (length source + 4 <= length buffer)%nat.
Proof. vm_compute. lia. Qed.
Lemma entries : length stale = S PGLZ_HISTORY_SIZE.
Proof. apply length_replicate. Qed.
Lemma fits n : (63 <= n)%nat -> (length source <= length (replicate n 0%Z))%nat.
Proof. rewrite length_replicate. intros H. exact H. Qed.
Lemma seven : (7 <= length source)%nat.
Proof. vm_compute. lia. Qed.

Lemma compress_result : exists hist,
  pglz_compress source buffer (Some PGLZ_strategy_always) lists stale = Some (13, compressed ++ replicate 57 255, hist).
Proof.
  assert (E : option_map fst (pglz_compress source buffer (Some PGLZ_strategy_always) lists stale)
              = Some (13, compressed ++ replicate 57 255)) by (vm_compute; reflexivity).
  destruct (pglz_compress _ _ _ _ _) as [[[r d] hist]|]; [|discriminate E]. exists hist. simpl option_map in E.
  injection E as -> ->. reflexivity.
Qed.

(** A corrupt tag that points in front of the output is followed there: three bytes that
    are not part of the value are returned as a part of it, and the check accepts them. *)
Lemma wild_read front :
  pglz_decompress front [1; 0; 5; 9] 4 (replicate 10 0) 4 true
  = Some (Bytes 4, [front 4%nat; front 3%nat; front 2%nat; 9; 0; 0; 0; 0; 0; 0]).
Proof. vm_compute. reflexivity. Qed.
End Sample.

Lemma pglz_compress_bounds_witness : exists r d hist,
  pglz_compress Sample.source Sample.buffer (Some PGLZ_strategy_always) Sample.lists Sample.stale = Some (r, d, hist)
  /\ length (hist_entries hist) = S PGLZ_HISTORY_SIZE.
Proof.
  destruct (pglz_compress_bounds Sample.source Sample.buffer (Some PGLZ_strategy_always) Sample.lists Sample.stale
    Sample.source_bytes Sample.room Sample.entries) as (r & d & hist & E & H1 & _).
  exists r, d, hist. split; [exact E|exact H1].
Defined.

Lemma pglz_roundtrip_witness :
  pglz_decompress Sample.front (take (Z.to_nat 13) (Sample.compressed ++ replicate 57 255) ++ [77; 88]) (Z.to_nat 13)
    (replicate 64 0) (length Sample.source) true
  = Some (Bytes (length Sample.source), Sample.source ++ drop (length Sample.source) (replicate 64 0)).
Proof.
  destruct Sample.compress_result as [hist E].
  exact (pglz_roundtrip _ _ _ _ _ Sample.source_bytes Sample.room Sample.entries _ _ _ Sample.front [77; 88] (replicate 64 0) true
    E ltac:(lia) (Sample.fits 64 ltac:(lia))).
Defined.

Lemma pglz_prefix_witness :
  pglz_decompress Sample.front (take (Z.to_nat (pglz_maximum_compressed_size (Z.of_nat 7) 13)) (Sample.compressed ++ replicate 57 255)
                   ++ [0; 0]) (Z.to_nat (pglz_maximum_compressed_size (Z.of_nat 7) 13)) (replicate 64 0) 7 false
  = Some (Bytes 7, take 7 Sample.source ++ drop 7 (replicate 64 0)).
Proof.
  destruct Sample.compress_result as [hist E].
  exact (pglz_prefix _ _ _ _ _ Sample.source_bytes Sample.room Sample.entries _ _ _ Sample.front [0; 0] (replicate 64 0) 7
    E ltac:(lia) Sample.seven ltac:(rewrite length_replicate; lia)).
Defined.

(** A tag that points one byte in front of the output, and a last one without its third
    byte. *)
Lemma pglz_decompress_bounds_witness : exists e d,
  pglz_decompress Sample.front [6; 65; 15; 2; 0; 240; 7; 99] 7 (replicate 30 0) 28 true = Some (e, d)
  /\ e = Corrupt /\ d !! 1%nat = Some 200 /\ d !! 28%nat = Some 0.
Proof.
  destruct (pglz_decompress_bounds [6; 65; 15; 2; 0; 240; 7] 28 true
    ltac:(apply (bool_decide_unpack _); vm_compute; exact I)) as (e & _ & H).
  destruct (H Sample.front [99] (replicate 30 0) ltac:(simpl; lia)) as (d & E & _ & _ & Hd).
  exists e, d. split; [done|]. rewrite (Hd 28%nat ltac:(lia)).
  vm_compute in E. by injection E as <- <-.
Defined.
