(* ===== verification/BufPage.v ===== *)
(** Slotted pages: backend/storage/page/bufpage.c, with the accessors of
    include/storage/bufpage.h, itemid.h and off.h.

    A page is its header, its line pointers and the bytes of its block.  Line
    pointers are numbered from 1, as offset numbers are; bytes by their offset in the
    block.  In memory both are the same block, line pointers below [pd_lower] and
    items above [pd_upper]; the theorems show that the code keeps them apart.  A copy
    that touches bytes outside a block is [Err out_of_bounds]. *)

From S2P Require Import Prelude.
Local Open Scope Z_scope.
Local Open Scope pg_scope.

(** BLCKSZ, chosen when the server is configured. *)
Class block_size : Set := BLCKSZ : Z.

(** ** Line pointers (itemid.h) *)

Record ItemIdData : Set := mk_lp { lp_off : Z; lp_flags : Z; lp_len : Z }.

Definition LP_UNUSED : Z := 0.
Definition LP_NORMAL : Z := 1.
Definition LP_REDIRECT : Z := 2.
Definition LP_DEAD : Z := 3.

Definition ItemIdIsUsed (lp : ItemIdData) : bool := negb (lp_flags lp =? LP_UNUSED).
Definition ItemIdHasStorage (lp : ItemIdData) : bool := negb (lp_len lp =? 0).
Definition ItemIdUnused : ItemIdData := mk_lp 0 LP_UNUSED 0.
Definition ItemIdNormal (off len : Z) : ItemIdData := mk_lp (uwrap 15 off) LP_NORMAL (uwrap 15 len).
Definition ItemIdRedirect (link : Z) : ItemIdData := mk_lp (uwrap 15 link) LP_REDIRECT 0.
Definition ItemIdDead : ItemIdData := mk_lp 0 LP_DEAD 0.
Definition ItemIdMarkDead (lp : ItemIdData) : ItemIdData := mk_lp (lp_off lp) LP_DEAD (lp_len lp).

(** [lp->lp_off = off] *)
Definition set_lp_off (off : Z) (lp : ItemIdData) : ItemIdData := mk_lp (uwrap 15 off) (lp_flags lp) (lp_len lp).

Definition sizeof_ItemIdData : Z := 4.

(** ** Pages (bufpage.h) *)

Record Page : Type := mk_page {
  pd_lsn : Z;
  pd_checksum : Z;
  pd_flags : Z;
  pd_lower : Z;
  pd_upper : Z;
  pd_special : Z;
  pd_pagesize_version : Z;
  pd_prune_xid : Z;
  pd_linp : Z -> ItemIdData;
  pd_data : Z -> Z
}.

Definition set_flags (x : Z) (p : Page) : Page :=
  mk_page (pd_lsn p) (pd_checksum p) x (pd_lower p) (pd_upper p) (pd_special p) (pd_pagesize_version p)
    (pd_prune_xid p) (pd_linp p) (pd_data p).
Definition set_lower (x : Z) (p : Page) : Page :=
  mk_page (pd_lsn p) (pd_checksum p) (pd_flags p) (uwrap 16 x) (pd_upper p) (pd_special p) (pd_pagesize_version p)
    (pd_prune_xid p) (pd_linp p) (pd_data p).
Definition set_upper (x : Z) (p : Page) : Page :=
  mk_page (pd_lsn p) (pd_checksum p) (pd_flags p) (pd_lower p) (uwrap 16 x) (pd_special p) (pd_pagesize_version p)
    (pd_prune_xid p) (pd_linp p) (pd_data p).
Definition set_linp (f : Z -> ItemIdData) (p : Page) : Page :=
  mk_page (pd_lsn p) (pd_checksum p) (pd_flags p) (pd_lower p) (pd_upper p) (pd_special p) (pd_pagesize_version p)
    (pd_prune_xid p) f (pd_data p).
Definition set_data (f : Z -> Z) (p : Page) : Page :=
  mk_page (pd_lsn p) (pd_checksum p) (pd_flags p) (pd_lower p) (pd_upper p) (pd_special p) (pd_pagesize_version p)
    (pd_prune_xid p) (pd_linp p) f.

Definition MAXALIGN (len : Z) : Z := Z.land (len + 7) (Z.lnot 7).

Definition PD_HAS_FREE_LINES : Z := 0x0001.
Definition PG_PAGE_LAYOUT_VERSION : Z := 4.
Definition SizeOfPageHeaderData : Z := 24.
Definition InvalidOffsetNumber : Z := 0.
Definition FirstOffsetNumber : Z := 1.
Definition PAI_OVERWRITE : Z := 1.
Definition PAI_IS_HEAP : Z := 2.

Definition PageIsEmpty (p : Page) : bool := pd_lower p <=? SizeOfPageHeaderData.
Definition PageIsNew (p : Page) : bool := pd_upper p =? 0.
Definition PageGetItemId (p : Page) (offsetNumber : Z) : ItemIdData := pd_linp p offsetNumber.
(** [*PageGetItemId(p, n) = lp] *)
Definition set_item (n : Z) (lp : ItemIdData) (p : Page) : Page :=
  set_linp (fun i => if i =? n then lp else pd_linp p i) p.
Definition PageGetPageSize (p : Page) : Z := Z.land (pd_pagesize_version p) 0xFF00.
Definition PageGetSpecialSize (p : Page) : Z := PageGetPageSize p - pd_special p.
Definition PageGetMaxOffsetNumber (p : Page) : Z :=
  if pd_lower p <=? SizeOfPageHeaderData then 0
  else (pd_lower p - SizeOfPageHeaderData) / sizeof_ItemIdData.
Definition PageHasFreeLinePointers (p : Page) : bool := negb (Z.land (pd_flags p) PD_HAS_FREE_LINES =? 0).
Definition PageSetHasFreeLinePointers (p : Page) : Page := set_flags (Z.lor (pd_flags p) PD_HAS_FREE_LINES) p.
Definition PageClearHasFreeLinePointers (p : Page) : Page :=
  set_flags (Z.land (pd_flags p) (unot 16 PD_HAS_FREE_LINES)) p.

(** [for (i = FirstOffsetNumber; i <= n; i++)] *)
Definition for_offsets {A} (n : Z) (body : Z -> A -> A) (a : A) : A :=
  foldl (fun a i => body i a) a (seqZ 1 n).

Section bufpage.
Context {bs : block_size}.

Definition MaxOffsetNumber : Z := BLCKSZ / sizeof_ItemIdData.
Definition OffsetNumberIsValid (n : Z) : bool := negb (n =? InvalidOffsetNumber) && (n <=? MaxOffsetNumber).
(** MAXALIGN(SizeofHeapTupleHeader) is 24, MAXALIGN(sizeof(IndexTupleData) + 1) is 16. *)
Definition MaxHeapTuplesPerPage : Z := (BLCKSZ - SizeOfPageHeaderData) / (24 + sizeof_ItemIdData).
Definition MaxIndexTuplesPerPage : Z := (BLCKSZ - SizeOfPageHeaderData) / (16 + sizeof_ItemIdData).

(** *** Copying bytes *)

Definition out_of_bounds : string := "access outside a buffer".

Definition in_block (off n : Z) : bool := (n =? 0) || ((0 <=? off) && (0 <=? n) && (off + n <=? BLCKSZ)).

(** [memmove(to + dst, from + src, n)] of two blocks, which may be the same one. *)
Definition copy_bytes (from : Z -> Z) (src : Z) (to : Z -> Z) (dst n : Z) : res (Z -> Z) :=
  if in_block src n && in_block dst n
  then Ok (fun i => if (dst <=? i) && (i <? dst + n) then from (src + (i - dst)) else to i)
  else Err out_of_bounds.

(** [memmove(page + dst, page + src, n)] *)
Definition move_data (p : Page) (dst src n : Z) : res Page :=
  d <-! copy_bytes (pd_data p) src (pd_data p) dst n ;; Ok (set_data d p).

(** [memcpy(page + dst, item, size)] *)
Definition put_item (p : Page) (dst : Z) (item : list Z) : res Page :=
  d <-! copy_bytes (fun i => rd item (Z.to_nat i)) 0 (pd_data p) dst (Z.of_nat (length item)) ;; Ok (set_data d p).

(** ** PageInit *)

Definition PageInit (pageSize specialSize : Z) : Page :=
  let specialSize := MAXALIGN specialSize in
  let p := mk_page 0 0 0 0 0 0 0 0 (fun _ => mk_lp 0 0 0) (fun _ => 0) in
  mk_page 0 0 0 SizeOfPageHeaderData (uwrap 16 (pageSize - specialSize)) (uwrap 16 (pageSize - specialSize))
    (uwrap 16 (Z.lor pageSize PG_PAGE_LAYOUT_VERSION)) 0 (pd_linp p) (pd_data p).

Definition PageGetTempPageCopy (p : Page) : Page := p.

Definition PageGetTempPageCopySpecial (p : Page) : res Page :=
  let temp := PageInit (PageGetPageSize p) (PageGetSpecialSize p) in
  d <-! copy_bytes (pd_data p) (pd_special p) (pd_data temp) (pd_special temp) (PageGetSpecialSize p) ;;
  Ok (set_data d temp).

(** [PageRestoreTempPage(tempPage, oldPage)]: the value of the old page. *)
Definition PageRestoreTempPage (tempPage oldPage : Page) : Page := tempPage.

(** ** PageAddItemExtended *)

(** The scan for a free line pointer: the first free one, or [limit]. *)
Definition find_free (p : Page) (limit : Z) : Z :=
  for_offsets (limit - 1)
    (fun i found =>
       if (found =? limit) && negb (ItemIdIsUsed (PageGetItemId p i)) && negb (ItemIdHasStorage (PageGetItemId p i))
       then i else found) limit.

(** Where the item goes: the page (a wrong hint is cleared), the offset number and
    [needshuffle]; or the reason to refuse it. *)
Definition choose_offset (p : Page) (offsetNumber flags : Z) : string + (Page * Z * bool) :=
  let limit := PageGetMaxOffsetNumber p + 1 in
  if OffsetNumberIsValid offsetNumber then
    if negb (Z.land flags PAI_OVERWRITE =? 0) then
      if offsetNumber <? limit then
        let itemId := PageGetItemId p offsetNumber in
        if ItemIdIsUsed itemId || ItemIdHasStorage itemId
        then inl "will not overwrite a used ItemId"%string
        else inr (p, offsetNumber, false)
      else inr (p, offsetNumber, false)
    else inr (p, offsetNumber, offsetNumber <? limit)
  else if PageHasFreeLinePointers p then
    let offsetNumber := find_free p limit in
    if limit <=? offsetNumber then inr (PageClearHasFreeLinePointers p, offsetNumber, false)
    else inr (p, offsetNumber, false)
  else inr (p, limit, false).

(** The offset number (0 when refused), the warning, and the page.  A page whose
    header makes no sense is a PANIC. *)
Definition PageAddItemExtended (p : Page) (item : list Z) (offsetNumber flags : Z) : res (Z * option string * Page) :=
  if (pd_lower p <? SizeOfPageHeaderData) || (pd_upper p <? pd_lower p) || (pd_special p <? pd_upper p)
     || (BLCKSZ <? pd_special p)
  then Err "corrupted page pointers"
  else
    let size := Z.of_nat (length item) in
    let limit := PageGetMaxOffsetNumber p + 1 in
    match choose_offset p offsetNumber flags with
    | inl warning => Ok (InvalidOffsetNumber, Some warning, p)
    | inr (p, offsetNumber, needshuffle) =>
        if limit <? offsetNumber then Ok (InvalidOffsetNumber, Some "specified item offset is too large"%string, p)
        else if negb (Z.land flags PAI_IS_HEAP =? 0) && (MaxHeapTuplesPerPage <? offsetNumber)
        then Ok (InvalidOffsetNumber, Some "can't put more than MaxHeapTuplesPerPage items in a heap page"%string, p)
        else
          let lower :=
            if (offsetNumber =? limit) || needshuffle then pd_lower p + sizeof_ItemIdData else pd_lower p in
          let alignedSize := MAXALIGN size in
          let upper := pd_upper p - alignedSize in
          if upper <? lower then Ok (InvalidOffsetNumber, None, p)
          else
            let p := if needshuffle
                     then set_linp (fun i => if (offsetNumber <? i) && (i <=? limit) then pd_linp p (i - 1)
                                             else pd_linp p i) p
                     else p in
            let p := set_item offsetNumber (ItemIdNormal upper size) p in
            p <-! put_item p upper item ;;
            Ok (offsetNumber, None, set_upper upper (set_lower lower p))
    end.

Definition PageAddItem (p : Page) (item : list Z) (offsetNumber : Z) (overwrite is_heap : bool) :=
  PageAddItemExtended p item offsetNumber
    (Z.lor (if overwrite then PAI_OVERWRITE else 0) (if is_heap then PAI_IS_HEAP else 0)).

(** ** Compaction *)

Record itemIdCompactData : Set := mk_compact { offsetindex : Z; itemoff : Z; alignedlen : Z }.

Definition item_end (c : itemIdCompactData) : Z := itemoff c + alignedlen c.

(** The [do ... while] that skips the items that are in place: [upper], [itemidptr]
    and the items that are left. *)
Fixpoint skip_placed (itemidptr : itemIdCompactData) (rest : list itemIdCompactData) (upper : Z)
  : Z * itemIdCompactData * list itemIdCompactData :=
  if negb (upper =? item_end itemidptr) then (upper, itemidptr, itemidptr :: rest)
  else
    let upper := upper - alignedlen itemidptr in
    match rest with
    | [] => (upper, itemidptr, [])
    | next :: rest => skip_placed next rest upper
    end.

Record compacting : Type := mk_compacting { c_page : Page; c_upper : Z; copy_tail : Z; copy_head : Z }.

(** Copying the items seen since the last gap: within the page, or from the scratch
    block. *)
Definition copy_pending (scratch : option (Z -> Z)) (c : compacting) : res Page :=
  let p := c_page c in
  let from := default (pd_data p) scratch in
  d <-! copy_bytes from (copy_head c) (pd_data p) (c_upper c) (copy_tail c - copy_head c) ;;
  Ok (set_data d p).

Definition compact_step (scratch : option (Z -> Z)) (c : compacting) (item : itemIdCompactData) : res compacting :=
  c <-! (if negb (copy_head c =? item_end item)
         then p <-! copy_pending scratch c ;;
              Ok (mk_compacting p (c_upper c) (item_end item) (copy_head c))
         else Ok c) ;;
  let upper := c_upper c - alignedlen item in
  let n := offsetindex item + 1 in
  let p := set_item n (set_lp_off upper (PageGetItemId (c_page c) n)) (c_page c) in
  Ok (mk_compacting p upper (copy_tail c) (itemoff item)).

Fixpoint compact_loop (scratch : option (Z -> Z)) (l : list itemIdCompactData) (c : compacting) : res compacting :=
  match l with
  | [] => Ok c
  | item :: l => c <-! compact_step scratch c item ;; compact_loop scratch l c
  end.

(** From the first item to move to the end of the function. *)
Definition compact_from (scratch : option (Z -> Z)) (p : Page) (s : Z * itemIdCompactData * list itemIdCompactData)
  : res Page :=
  let '(upper, itemidptr, l) := s in
  c <-! compact_loop scratch l (mk_compacting p upper (item_end itemidptr) (item_end itemidptr)) ;;
  p <-! copy_pending scratch c ;;
  Ok (set_upper (c_upper c) p).

(** The copies of single items into the scratch block. *)
Fixpoint save_items (p : Page) (l : list itemIdCompactData) (scratch : Z -> Z) : res (Z -> Z) :=
  match l with
  | [] => Ok scratch
  | item :: l =>
      scratch <-! copy_bytes (pd_data p) (itemoff item) scratch (itemoff item) (alignedlen item) ;;
      save_items p l scratch
  end.

(** [junk] is what the scratch block on the stack holds. *)
Definition compactify_tuples (junk : Z -> Z) (itemidbase : list itemIdCompactData) (p : Page) (presorted : bool)
  : res Page :=
  match itemidbase with
  | [] => Err "nitems > 0"
  | first :: rest =>
      if presorted then compact_from None p (skip_placed first rest (pd_special p))
      else if Z.of_nat (length itemidbase) <? PageGetMaxOffsetNumber p / 4 then
        scratch <-! save_items p itemidbase junk ;;
        compact_from (Some scratch) p (pd_special p, first, itemidbase)
      else
        let '(upper, itemidptr, l) := skip_placed first rest (pd_special p) in
        scratch <-! copy_bytes (pd_data p) (pd_upper p) junk (pd_upper p) (upper - pd_upper p) ;;
        compact_from (Some scratch) p (upper, itemidptr, l)
  end.

(** The test of the page header that the routines below share. *)
Definition header_corrupt (p : Page) : bool :=
  (pd_lower p <? SizeOfPageHeaderData) || (pd_upper p <? pd_lower p) || (pd_special p <? pd_upper p)
  || (BLCKSZ <? pd_special p) || negb (pd_special p =? MAXALIGN (pd_special p)).

(** ** PageRepairFragmentation *)

Record repair : Type := mk_repair {
  r_page : Page;
  itemidbase : list itemIdCompactData;
  last_offset : Z;
  presorted : bool;
  nunused : Z;
  totallen : Z;
  finalusedlp : Z
}.

Definition repair_item (i : Z) (r : res repair) : res repair :=
  r <-! r ;;
  let p := r_page r in
  let lp := PageGetItemId p i in
  if ItemIdIsUsed lp then
    if ItemIdHasStorage lp then
      if MaxHeapTuplesPerPage <=? Z.of_nat (length (itemidbase r)) then Err out_of_bounds
      else
        let off := lp_off lp in
        let sorted := off <? last_offset r in
        if (off <? pd_upper p) || (pd_special p <=? off) then Err "corrupted line pointer"
        else
          let len := MAXALIGN (lp_len lp) in
          Ok (mk_repair p (itemidbase r ++ [mk_compact (i - 1) off len])
                (if sorted then off else last_offset r) (presorted r && sorted)
                (nunused r) (totallen r + len) i)
    else Ok (mk_repair p (itemidbase r) (last_offset r) (presorted r) (nunused r) (totallen r) i)
  else Ok (mk_repair (set_item i ItemIdUnused p) (itemidbase r) (last_offset r) (presorted r)
             (nunused r + 1) (totallen r) (finalusedlp r)).

(** [itemidbase] and the scratch block are arrays of fixed size. Where the code would write
    past their end, which is undefined, the result is the error [out_of_bounds]. *)
Definition PageRepairFragmentation (junk : Z -> Z) (p : Page) : res Page :=
  if header_corrupt p then Err "corrupted page pointers"
  else
    let nline := PageGetMaxOffsetNumber p in
    r <-! for_offsets nline repair_item
            (Ok (mk_repair p [] (pd_special p) true 0 0 InvalidOffsetNumber)) ;;
    let p := r_page r in
    p <-! (if (length (itemidbase r) =? 0)%nat then Ok (set_upper (pd_special p) p)
           else if pd_special p - pd_lower p <? totallen r then Err "corrupted item lengths"
           else compactify_tuples junk (itemidbase r) p (presorted r)) ;;
    let '(p, nunused) :=
      if negb (finalusedlp r =? nline) then
        let nunusedend := nline - finalusedlp r in
        (set_lower (pd_lower p - sizeof_ItemIdData * nunusedend) p, nunused r - nunusedend)
      else (p, nunused r) in
    Ok (if 0 <? nunused then PageSetHasFreeLinePointers p else PageClearHasFreeLinePointers p).

(** ** PageTruncateLinePointerArray *)

(** [countdone], [sethint] and [nunusedend]; [Return] is [break]. *)
Definition truncate_item (p : Page) (k : nat) (s : bool * bool * Z) : flow (bool * bool * Z) (bool * bool * Z) :=
  let '(countdone, sethint, nunusedend) := s in
  let i := Z.of_nat (S k) in
  let lp := PageGetItemId p i in
  if negb countdone && (FirstOffsetNumber <? i) then
    if negb (ItemIdIsUsed lp) then Next (countdone, sethint, nunusedend + 1)
    else Next (true, sethint, nunusedend)
  else if negb (ItemIdIsUsed lp) then Return (countdone, true, nunusedend)
  else Next s.

(** The code asserts that some line pointer is unused; without one the page stays as it is
    but for the hint. *)
Definition PageTruncateLinePointerArray (p : Page) : Page :=
  let '(_, sethint, nunusedend) :=
    after (for_down_ret (Z.to_nat (PageGetMaxOffsetNumber p)) (truncate_item p) (false, false, 0)) id in
  let p := if 0 <? nunusedend then set_lower (pd_lower p - sizeof_ItemIdData * nunusedend) p else p in
  if sethint then PageSetHasFreeLinePointers p else PageClearHasFreeLinePointers p.

(** ** Free space *)

Definition PageGetFreeSpace (p : Page) : Z :=
  let space := pd_upper p - pd_lower p in
  if space <? sizeof_ItemIdData then 0 else space - sizeof_ItemIdData.

Definition PageGetFreeSpaceForMultipleTuples (p : Page) (ntups : Z) : Z :=
  let space := pd_upper p - pd_lower p in
  if space <? ntups * sizeof_ItemIdData then 0 else space - ntups * sizeof_ItemIdData.

Definition PageGetExactFreeSpace (p : Page) : Z :=
  let space := pd_upper p - pd_lower p in
  if space <? 0 then 0 else space.

Definition PageGetHeapFreeSpace (p : Page) : Z :=
  let space := PageGetFreeSpace p in
  if 0 <? space then
    let nline := PageGetMaxOffsetNumber p in
    if MaxHeapTuplesPerPage <=? nline then
      if PageHasFreeLinePointers p then
        if existsb (fun i => negb (ItemIdIsUsed (PageGetItemId p i))) (seqZ 1 nline) then space else 0
      else 0
    else space
  else space.

(** ** Index pages *)

Definition bad_item (p : Page) (offset size : Z) : bool :=
  (offset <? pd_upper p) || (pd_special p <? offset + size) || negb (offset =? MAXALIGN offset).

(** [ii->lp_off += delta] for the line pointers up to [nline] that [test] selects. *)
Definition adjust_items (nline delta : Z) (test : ItemIdData -> bool) (p : Page) : Page :=
  for_offsets nline
    (fun i p => let ii := PageGetItemId p i in
                if test ii then set_item i (set_lp_off (lp_off ii + delta) ii) p else p) p.

(** The line pointers behind the deleted one move up as a whole number of line pointers: the
    code moves the bytes up to pd_lower, which is the same on pages where pd_lower is aligned
    to line pointers, as it is on every valid one. That every item has storage is asserted. *)
Definition PageIndexTupleDelete (p : Page) (offnum : Z) : res Page :=
  if header_corrupt p then Err "corrupted page pointers"
  else
    let nline := PageGetMaxOffsetNumber p in
    if (offnum <=? 0) || (nline <? offnum) then Err "invalid index offnum"
    else
      let tup := PageGetItemId p offnum in
      let size := lp_len tup in
      let offset := lp_off tup in
      if bad_item p offset size then Err "corrupted line pointer"
      else
        let size := MAXALIGN size in
        let nbytes := pd_lower p - (SizeOfPageHeaderData + sizeof_ItemIdData * offnum) in
        let p := if 0 <? nbytes
                 then set_linp (fun i => if (offnum <=? i) && (i <? offnum + nbytes / sizeof_ItemIdData)
                                         then pd_linp p (i + 1) else pd_linp p i) p
                 else p in
        p <-! (if pd_upper p <? offset then move_data p (pd_upper p + size) (pd_upper p) (offset - pd_upper p)
               else Ok p) ;;
        let p := set_lower (pd_lower p - sizeof_ItemIdData) (set_upper (pd_upper p + size) p) in
        Ok (if PageIsEmpty p then p
            else adjust_items (nline - 1) size (fun ii => lp_off ii <=? offset) p).

Record multidel : Type := mk_multidel {
  m_items : list itemIdCompactData;
  newitemids : list ItemIdData;
  m_last : Z;
  m_presorted : bool;
  m_total : Z;
  nextitm : nat
}.

Definition multidel_item (p : Page) (itemnos : list Z) (offnum : Z) (m : res multidel) : res multidel :=
  m <-! m ;;
  let lp := PageGetItemId p offnum in
  let size := lp_len lp in
  let offset := lp_off lp in
  if bad_item p offset size then Err "corrupted line pointer"
  else if (nextitm m <? length itemnos)%nat && (offnum =? rd itemnos (nextitm m))
  then Ok (mk_multidel (m_items m) (newitemids m) (m_last m) (m_presorted m) (m_total m) (S (nextitm m)))
  else if MaxIndexTuplesPerPage <=? Z.of_nat (length (m_items m)) then Err out_of_bounds
  else
    let sorted := offset <? m_last m in
    let len := MAXALIGN size in
    Ok (mk_multidel (m_items m ++ [mk_compact (Z.of_nat (length (newitemids m))) offset len]) (newitemids m ++ [lp])
          (if sorted then offset else m_last m) (m_presorted m && sorted) (m_total m + len) (nextitm m)).

(** [while (--nitems >= 0) PageIndexTupleDelete(page, itemnos[nitems])] *)
Fixpoint delete_backwards (nitems : nat) (itemnos : list Z) (p : Page) : res Page :=
  match nitems with
  | O => Ok p
  | S k => p <-! PageIndexTupleDelete p (rd itemnos k) ;; delete_backwards k itemnos p
  end.

Definition PageIndexMultiDelete (junk : Z -> Z) (p : Page) (itemnos : list Z) : res Page :=
  if (length itemnos <=? 2)%nat then delete_backwards (length itemnos) itemnos p
  else if header_corrupt p then Err "corrupted page pointers"
  else
    let nline := PageGetMaxOffsetNumber p in
    m <-! for_offsets nline (multidel_item p itemnos) (Ok (mk_multidel [] [] (pd_special p) true 0 0)) ;;
    if negb (nextitm m =? length itemnos)%nat then Err "incorrect index offsets supplied"
    else if pd_special p - pd_lower p <? m_total m then Err "corrupted item lengths"
    else
      let nused := Z.of_nat (length (newitemids m)) in
      let p := set_linp (fun i => if (1 <=? i) && (i <=? nused)
                                  then default ItemIdUnused (newitemids m !! Z.to_nat (i - 1))
                                  else pd_linp p i) p in
      let p := set_lower (SizeOfPageHeaderData + nused * sizeof_ItemIdData) p in
      if 0 <? nused then compactify_tuples junk (m_items m) p (m_presorted m)
      else Ok (set_upper (pd_special p) p).

Definition PageIndexTupleDeleteNoCompact (p : Page) (offnum : Z) : res Page :=
  if header_corrupt p then Err "corrupted page pointers"
  else
    let nline := PageGetMaxOffsetNumber p in
    if (offnum <=? 0) || (nline <? offnum) then Err "invalid index offnum"
    else
      let tup := PageGetItemId p offnum in
      let size := lp_len tup in
      let offset := lp_off tup in
      if bad_item p offset size then Err "corrupted line pointer"
      else
        let size := MAXALIGN size in
        let '(p, nline) :=
          if offnum <? nline then (set_item offnum ItemIdUnused p, nline)
          else (set_lower (pd_lower p - sizeof_ItemIdData) p, nline - 1) in
        p <-! (if pd_upper p <? offset then move_data p (pd_upper p + size) (pd_upper p) (offset - pd_upper p)
               else Ok p) ;;
        let p := set_upper (pd_upper p + size) p in
        Ok (if PageIsEmpty p then p
            else adjust_items nline size (fun ii => ItemIdHasStorage ii && (lp_off ii <=? offset)) p).

Definition PageIndexTupleOverwrite (p : Page) (offnum : Z) (newtup : list Z) : res (bool * Page) :=
  if header_corrupt p then Err "corrupted page pointers"
  else
    let newsize := Z.of_nat (length newtup) in
    let itemcount := PageGetMaxOffsetNumber p in
    if (offnum <=? 0) || (itemcount <? offnum) then Err "invalid index offnum"
    else
      let tupid := PageGetItemId p offnum in
      let oldsize := lp_len tupid in
      let offset := lp_off tupid in
      if bad_item p offset oldsize then Err "corrupted line pointer"
      else
        let oldsize := MAXALIGN oldsize in
        let alignednewsize := MAXALIGN newsize in
        if oldsize + (pd_upper p - pd_lower p) <? alignednewsize then Ok (false, p)
        else
          let size_diff := oldsize - alignednewsize in
          p <-! (if negb (size_diff =? 0) then
                   p <-! move_data p (pd_upper p + size_diff) (pd_upper p) (offset - pd_upper p) ;;
                   let p := set_upper (pd_upper p + size_diff) p in
                   Ok (adjust_items itemcount size_diff (fun ii => ItemIdHasStorage ii && (lp_off ii <=? offset)) p)
                 else Ok p) ;;
          let tupid := mk_lp (uwrap 15 (offset + size_diff)) (lp_flags (PageGetItemId p offnum)) (uwrap 15 newsize) in
          let p := set_item offnum tupid p in
          p <-! put_item p (lp_off tupid) newtup ;;
          Ok (true, p).
End bufpage.
