(* ===== verification/BufPageSpec.v ===== *)
(** What a slotted page stands for: a sequence of slots, each free, a stub without
    storage, or an item with its bytes; and when a page is valid. *)

From S2P Require Import Prelude BufPage.
Local Open Scope Z_scope.
Local Open Scope pg_scope.

(** ** Alignment *)

Lemma MAXALIGN_div x : MAXALIGN x = (x + 7) / 8 * 8.
Proof.
  unfold MAXALIGN. change (Z.lnot 7) with (Z.lnot (Z.ones 3)). rewrite <- Z.ldiff_land, Z.ldiff_ones_r by lia.
  rewrite Z.shiftl_mul_pow2, Z.shiftr_div_pow2 by lia. done.
Qed.

Lemma MAXALIGN_spec x : x <= MAXALIGN x < x + 8 /\ (8 | MAXALIGN x).
Proof.
  rewrite MAXALIGN_div. split; [|apply Z.divide_factor_r].
  pose proof (Z.div_mod (x + 7) 8 ltac:(lia)). pose proof (Z.mod_pos_bound (x + 7) 8 ltac:(lia)). lia.
Qed.

Lemma MAXALIGN_aligned x : (8 | x) -> MAXALIGN x = x.
Proof. intros [k ->]. destruct (MAXALIGN_spec (k * 8)) as [? [m E]]. lia. Qed.

Lemma aligned_test x : (x =? MAXALIGN x) = true <-> (8 | x).
Proof.
  rewrite Z.eqb_eq. split; [intros ->; apply MAXALIGN_spec|]. intros H. by rewrite MAXALIGN_aligned.
Qed.

(** An aligned bound leaves room for the padding. *)
Lemma MAXALIGN_le x y : (8 | y) -> x <= y -> MAXALIGN x <= y.
Proof. intros [k ->] H. destruct (MAXALIGN_spec x) as [? [m E]]. lia. Qed.

Lemma MAXALIGN_pos x : 0 <= x -> 0 <= MAXALIGN x.
Proof. intros. pose proof (MAXALIGN_spec x). lia. Qed.

(** ** Slots *)

Inductive slot : Set :=
| Free
| Bare (flags off : Z)
| Stored (flags : Z) (bytes : list Z).

#[export] Instance slot_eq_dec : EqDecision slot.
Proof. solve_decision. Defined.

Definition content (d : Z -> Z) (off len : Z) : list Z := map d (seqZ off len).

Definition slot_of (d : Z -> Z) (lp : ItemIdData) : slot :=
  if negb (ItemIdIsUsed lp) then Free
  else if ItemIdHasStorage lp then Stored (lp_flags lp) (content d (lp_off lp) (lp_len lp))
  else Bare (lp_flags lp) (lp_off lp).

Notation nline := PageGetMaxOffsetNumber.

Definition slot_at (p : Page) (i : Z) : slot := slot_of (pd_data p) (pd_linp p i).
Definition slots (p : Page) : list slot := map (slot_at p) (seqZ 1 (nline p)).

Definition lp_end (lp : ItemIdData) : Z := lp_off lp + MAXALIGN (lp_len lp).
Definition stored (lp : ItemIdData) : Prop := lp_len lp <> 0.

(** A line pointer of a page with these bounds. *)
Definition lp_ok (upper special : Z) (lp : ItemIdData) : Prop :=
  in_u 15 (lp_off lp) /\ in_u 15 (lp_len lp) /\
  (stored lp -> lp_flags lp <> LP_UNUSED /\ upper <= lp_off lp /\ (8 | lp_off lp) /\ lp_end lp <= special).

Definition apart (a b : ItemIdData) : Prop := lp_end a <= lp_off b \/ lp_end b <= lp_off a.

(** ** Abstract pages

    The slots, the free space in the middle, the hint that a slot is free, and the
    space that slots and items share. *)

Record apage : Set := mk_apage {
  a_slots : list slot;
  a_free : Z;
  a_hint : bool;
  a_room : Z
}.

Definition abs (p : Page) : apage :=
  mk_apage (slots p) (pd_upper p - pd_lower p) (PageHasFreeLinePointers p) (pd_special p - SizeOfPageHeaderData).

Definition slot_size (s : slot) : Z :=
  match s with Stored _ bytes => MAXALIGN (Z.of_nat (length bytes)) | _ => 0 end.

(** BLCKSZ as configure allows it. *)
Class block_ok (bs : block_size) : Prop := {
  block_aligned : (8 | BLCKSZ);
  block_bounds : 64 <= BLCKSZ <= 2 ^ 15
}.

Record valid `{bs : block_size} (p : Page) : Prop := {
  v_lines : pd_lower p = 24 + 4 * nline p;
  v_nline : 0 <= nline p;
  v_free : pd_lower p <= pd_upper p;
  v_upper : pd_upper p <= pd_special p;
  v_special : pd_special p <= BLCKSZ;
  v_upper8 : (8 | pd_upper p);
  v_special8 : (8 | pd_special p);
  v_item : forall i, 1 <= i <= nline p -> lp_ok (pd_upper p) (pd_special p) (pd_linp p i);
  v_apart : forall i j, 1 <= i <= nline p -> 1 <= j <= nline p -> i <> j ->
    stored (pd_linp p i) -> stored (pd_linp p j) -> apart (pd_linp p i) (pd_linp p j)
}.

Lemma nline_of_lower p n : 0 <= n -> pd_lower p = 24 + 4 * n -> nline p = n.
Proof.
  intros Hn E. unfold PageGetMaxOffsetNumber, SizeOfPageHeaderData, sizeof_ItemIdData. rewrite E.
  destruct (Z.leb_spec (24 + 4 * n) 24); [lia|]. replace (24 + 4 * n - 24) with (n * 4) by lia. by rewrite Z.div_mul.
Qed.

Lemma length_slots p : 0 <= nline p -> Z.of_nat (length (slots p)) = nline p.
Proof. intros H. unfold slots. rewrite length_map, length_seqZ. lia. Qed.

Lemma slots_lookup p k :
  slots p !! k = if decide (Z.of_nat k < nline p) then Some (slot_at p (Z.of_nat k + 1)) else None.
Proof.
  unfold slots. destruct (decide _) as [H|H].
  - rewrite list_lookup_fmap, lookup_seqZ_lt by done. simpl. do 2 f_equal. lia.
  - rewrite list_lookup_fmap, lookup_seqZ_ge by lia. done.
Qed.

(** A page has the slots of a list when they agree one by one. *)
Lemma slots_eq p l :
  0 <= nline p -> Z.of_nat (length l) = nline p ->
  (forall i, 1 <= i <= nline p -> l !! Z.to_nat (i - 1) = Some (slot_at p i)) -> slots p = l.
Proof.
  intros Hn Hl H. apply list_eq. intros k. rewrite slots_lookup. destruct (decide _) as [Hk|Hk].
  - specialize (H (Z.of_nat k + 1) ltac:(lia)). replace (Z.to_nat (Z.of_nat k + 1 - 1)) with k in H by lia. by rewrite H.
  - rewrite lookup_ge_None_2; [done|lia].
Qed.

Lemma slots_get p i : 1 <= i <= nline p -> slots p !! Z.to_nat (i - 1) = Some (slot_at p i).
Proof.
  intros Hi. rewrite slots_lookup. destruct (decide _); [|lia]. do 2 f_equal. lia.
Qed.

Lemma content_ext d d' off off' len :
  (forall k, 0 <= k < len -> d (off + k) = d' (off' + k)) -> content d off len = content d' off' len.
Proof.
  intros H. unfold content. apply list_eq. intros k. rewrite !list_lookup_fmap.
  destruct (decide (Z.of_nat k < len)) as [Hk|Hk].
  - rewrite !lookup_seqZ_lt by done. simpl. f_equal. apply H. lia.
  - rewrite !lookup_seqZ_ge by lia. done.
Qed.

Lemma content_item d off item :
  (forall k, 0 <= k < Z.of_nat (length item) -> d (off + k) = rd item (Z.to_nat k)) ->
  content d off (Z.of_nat (length item)) = item.
Proof.
  intros H. unfold content. apply list_eq. intros k. rewrite list_lookup_fmap.
  destruct (decide (Z.of_nat k < Z.of_nat (length item))) as [Hk|Hk].
  - rewrite lookup_seqZ_lt by done. simpl. rewrite H by lia. rewrite Nat2Z.id. symmetry. apply rd_lookup. lia.
  - rewrite lookup_seqZ_ge, lookup_ge_None_2 by lia. done.
Qed.

(** A slot that was moved together with its bytes. *)
Lemma slot_moved d d' lp lp' :
  lp_flags lp' = lp_flags lp -> lp_len lp' = lp_len lp -> (lp_len lp = 0 -> lp_off lp' = lp_off lp) ->
  (forall k, 0 <= k < lp_len lp -> d' (lp_off lp' + k) = d (lp_off lp + k)) ->
  slot_of d' lp' = slot_of d lp.
Proof.
  intros Hf Hl Ho Hd. unfold slot_of, ItemIdIsUsed, ItemIdHasStorage. rewrite Hf, Hl.
  destruct (negb _); [done|]. destruct (Z.eqb_spec (lp_len lp) 0) as [E|E]; simpl.
  - by rewrite Ho.
  - f_equal. by apply content_ext.
Qed.

(** A slot whose bytes were left alone. *)
Lemma slot_kept d d' lp :
  (forall k, 0 <= k < lp_len lp -> d' (lp_off lp + k) = d (lp_off lp + k)) -> slot_of d' lp = slot_of d lp.
Proof. intros H. by apply slot_moved. Qed.

Lemma slot_normal d off item :
  0 < Z.of_nat (length item) < 2 ^ 15 -> in_u 15 off ->
  (forall k, 0 <= k < Z.of_nat (length item) -> d (off + k) = rd item (Z.to_nat k)) ->
  slot_of d (ItemIdNormal off (Z.of_nat (length item))) = Stored LP_NORMAL item.
Proof.
  intros Hl Ho Hd. unfold slot_of, ItemIdNormal. rewrite !uwrap_small by (done || (unfold in_u; lia)). simpl.
  unfold ItemIdHasStorage. simpl. destruct (Z.eqb_spec (Z.of_nat (length item)) 0); [lia|]. simpl. f_equal.
  by apply content_item.
Qed.

Lemma slot_free_iff d lp : slot_of d lp = Free <-> ItemIdIsUsed lp = false.
Proof.
  unfold slot_of. destruct (ItemIdIsUsed lp); simpl; [|done]. destruct (ItemIdHasStorage lp); done.
Qed.

(** ** The hint *)

Lemma hint_set p : PageHasFreeLinePointers (PageSetHasFreeLinePointers p) = true.
Proof.
  unfold PageHasFreeLinePointers, PageSetHasFreeLinePointers, PD_HAS_FREE_LINES. simpl.
  destruct (Z.eqb_spec (Z.land (Z.lor (pd_flags p) 1) 1) 0) as [E|]; [|done].
  apply (f_equal (fun x => Z.testbit x 0)) in E. rewrite Z.land_spec, Z.lor_spec, orb_true_r in E. done.
Qed.

Lemma hint_clear p : PageHasFreeLinePointers (PageClearHasFreeLinePointers p) = false.
Proof.
  unfold PageHasFreeLinePointers, PageClearHasFreeLinePointers, PD_HAS_FREE_LINES. simpl.
  rewrite <- Z.land_assoc. change (Z.land (unot 16 1) 1) with 0. by rewrite Z.land_0_r.
Qed.

(** ** Copies *)

Section copies.
Context {bs : block_size} {Hb : block_ok bs}.

Lemma in_block_iff off n : in_block off n = true <-> n = 0 \/ (0 <= off /\ 0 <= n /\ off + n <= BLCKSZ).
Proof. unfold in_block. rewrite orb_true_iff, !andb_true_iff, Z.eqb_eq, !Z.leb_le. tauto. Qed.

Lemma copy_bytes_ok from src to dst n :
  0 <= src -> 0 <= dst -> 0 <= n -> src + n <= BLCKSZ -> dst + n <= BLCKSZ ->
  copy_bytes from src to dst n
  = Ok (fun i => if (dst <=? i) && (i <? dst + n) then from (src + (i - dst)) else to i).
Proof.
  intros. unfold copy_bytes. by rewrite (proj2 (in_block_iff src n)), (proj2 (in_block_iff dst n)) by lia.
Qed.

(** Nothing to copy. *)
Lemma copy_bytes_none from src to dst d :
  copy_bytes from src to dst 0 = Ok d -> forall i, d i = to i.
Proof.
  unfold copy_bytes, in_block. simpl. intros [= <-] i.
  destruct (Z.leb_spec dst i), (Z.ltb_spec i (dst + 0)); simpl; (done || lia).
Qed.

(** What a copy changes. *)
Lemma copy_bytes_inv from src to dst n d :
  copy_bytes from src to dst n = Ok d ->
  (forall k, 0 <= k < n -> d (dst + k) = from (src + k)) /\ (forall i, i < dst \/ dst + n <= i -> d i = to i).
Proof.
  unfold copy_bytes. destruct (_ && _); [|done]. intros [= <-]. split.
  - intros k Hk. destruct (Z.leb_spec dst (dst + k)), (Z.ltb_spec (dst + k) (dst + n)); try lia. simpl. f_equal. lia.
  - intros i Hi. destruct (Z.leb_spec dst i), (Z.ltb_spec i (dst + n)); simpl; (done || lia).
Qed.

Lemma valid_bounds p : valid p ->
  24 <= pd_lower p /\ pd_lower p <= pd_upper p /\ pd_upper p <= pd_special p /\ pd_special p <= BLCKSZ /\ BLCKSZ <= 2 ^ 15.
Proof. intros [? ? ? ? ? ? ? ? ?]. destruct Hb as [_ ?]. lia. Qed.

Lemma valid_header p : valid p -> header_corrupt p = false.
Proof.
  intros Hv. pose proof (valid_bounds p Hv) as (? & ? & ? & ? & _). unfold header_corrupt, SizeOfPageHeaderData.
  rewrite (proj2 (aligned_test _) (v_special8 _ Hv)).
  destruct (Z.ltb_spec (pd_lower p) 24), (Z.ltb_spec (pd_upper p) (pd_lower p)), (Z.ltb_spec (pd_special p) (pd_upper p)),
    (Z.ltb_spec BLCKSZ (pd_special p)); (done || lia).
Qed.
End copies.
