(* ===== verification/BufPageAdd.v ===== *)
(** Creating a page and adding items to it. *)

From S2P Require Import Prelude BufPage BufPageSpec.
Local Open Scope Z_scope.
Local Open Scope pg_scope.

(** ** Loops over offset numbers *)

Lemma for_offsets_ind {A} (P : Z -> A -> Prop) n (body : Z -> A -> A) a :
  0 <= n -> P 1 a -> (forall i a, 1 <= i <= n -> P i a -> P (i + 1) (body i a)) -> P (n + 1) (for_offsets n body a).
Proof.
  intros Hn H0 Hs. unfold for_offsets.
  assert (H : forall m, 0 <= m <= n -> P (m + 1) (foldl (fun a i => body i a) a (seqZ 1 m))).
  { intros m. destruct m as [|m|m]; [done| |lia]. rewrite <- (positive_nat_Z m). generalize (Pos.to_nat m) as k. clear m.
    induction k as [|k IH]; intros Hk; [done|].
    rewrite Nat2Z.inj_succ, <- Z.add_1_r, seqZ_app, foldl_app by lia. simpl.
    replace (1 + Z.of_nat k) with (Z.of_nat k + 1) by lia. apply Hs; [lia|]. apply IH. lia. }
  apply H. lia.
Qed.

Section add.
Context {bs : block_size} {Hb : block_ok bs}.

(** The scan finds the first free line pointer. *)
Lemma find_free_spec p :
  0 <= nline p -> let r := find_free p (nline p + 1) in
  let free i := ItemIdIsUsed (pd_linp p i) = false /\ ItemIdHasStorage (pd_linp p i) = false in
  1 <= r <= nline p + 1 /\ (r <= nline p -> free r) /\ (forall i, 1 <= i < r -> ~ free i).
Proof.
  intros Hn. set (limit := nline p + 1). unfold find_free. replace (limit - 1) with (nline p) by lia.
  set (free := fun i => ItemIdIsUsed (pd_linp p i) = false /\ ItemIdHasStorage (pd_linp p i) = false).
  pose (P := fun i r => 1 <= r <= limit /\ (r < limit -> r < i /\ free r) /\ (forall k, 1 <= k < i -> k < r -> ~ free k)).
  match goal with |- context [for_offsets _ ?b _] => pose proof (for_offsets_ind P (nline p) b limit Hn) as HI end.
  destruct HI as (H1 & H2 & H3).
  - split; [lia|]. split; [lia|]. lia.
  - intros i r Hi (Hr1 & Hr2 & Hr3). unfold PageGetItemId.
    destruct (Z.eqb_spec r limit) as [->|Hne]; simpl.
    + assert (Hsame : ~ free i -> P (i + 1) limit).
      { intros Hf. split; [done|]. split; [lia|]. intros k Hk Hkl. destruct (decide (k = i)) as [->|]; [done|]. apply Hr3; lia. }
      destruct (ItemIdIsUsed (pd_linp p i)) eqn:Eu; simpl; [apply Hsame; intros [? _]; congruence|].
      destruct (ItemIdHasStorage (pd_linp p i)) eqn:Es; simpl; [apply Hsame; intros [_ ?]; congruence|].
      split; [lia|]. split; [intros _; split; [lia|done]|]. intros k Hk Hki. apply Hr3; lia.
    + split; [done|]. split; [intros; destruct (Hr2 ltac:(lia)); split; [lia|done]|].
      intros k Hk Hkr. destruct (Hr2 ltac:(lia)). apply Hr3; lia.
  - split; [done|]. split; [intros; apply H2; lia|]. intros i Hi. apply H3; lia.
Qed.

(** On a valid page an unused line pointer has no storage. *)
Lemma valid_free p i : valid p -> 1 <= i <= nline p ->
  slot_at p i = Free <-> ItemIdIsUsed (pd_linp p i) = false /\ ItemIdHasStorage (pd_linp p i) = false.
Proof.
  intros Hv Hi. unfold slot_at. rewrite slot_free_iff. split; [|tauto]. intros H. split; [done|].
  destruct (v_item _ Hv i Hi) as (_ & _ & H3). unfold ItemIdHasStorage, ItemIdIsUsed, stored, LP_UNUSED in *.
  destruct (Z.eqb_spec (lp_len (pd_linp p i)) 0) as [|Hne]; [done|]. destruct (H3 Hne) as [Hf _].
  destruct (Z.eqb_spec (lp_flags (pd_linp p i)) 0); [done|]. done.
Qed.

(** Header, line pointers and data of the page that an insertion makes. *)
Definition placed (p : Page) (L : Z -> ItemIdData) (d : Z -> Z) (lower upper : Z) : Page :=
  set_upper upper (set_lower lower (set_data d (set_linp L p))).

(** Putting an item below [pd_upper], whatever is done to the line pointers: the old
    ones are the new ones but [r], [o] tells where each was. *)
Section place.
Context (p : Page) (item : list Z) (L : Z -> ItemIdData) (n r : Z) (o : Z -> Z).
Let size := Z.of_nat (length item).
Let upper := pd_upper p - MAXALIGN size.
Hypothesis Hv : valid p.
Hypothesis Hsize : 0 < size.
Hypothesis Hroom : 24 + 4 * n <= upper.
Hypothesis Hr : 1 <= r <= n.
Hypothesis Hold : forall i, 1 <= i <= n -> i <> r -> 1 <= o i <= nline p /\ L i = pd_linp p (o i).
Hypothesis Hinj : forall i j, 1 <= i <= n -> 1 <= j <= n -> i <> r -> j <> r -> i <> j -> o i <> o j.
Hypothesis Hnew : L r = ItemIdNormal upper size.

Lemma place_new : L r = mk_lp upper LP_NORMAL size /\ in_u 15 upper /\ in_u 15 size.
Proof.
  pose proof (valid_bounds p Hv). pose proof (MAXALIGN_spec size). rewrite Hnew. unfold ItemIdNormal.
  assert (in_u 15 upper /\ in_u 15 size) as [H1 H2] by (unfold in_u; lia). by rewrite !uwrap_small.
Qed.

Lemma place_valid : exists d, put_item (set_linp L p) upper item = Ok (set_data d (set_linp L p))
  /\ let p' := placed p L d (24 + 4 * n) upper in
     valid p' /\ nline p' = n /\ pd_upper p' = upper /\ slot_at p' r = Stored LP_NORMAL item
     /\ (forall i, 1 <= i <= n -> i <> r -> slot_at p' i = slot_at p (o i))
     /\ (forall i, i < upper \/ pd_upper p <= i -> d i = pd_data p i).
Proof.
  destruct place_new as (Er & Hu & Hs). pose proof (valid_bounds p Hv) as Hbd.
  pose proof (MAXALIGN_spec size) as [Hal Hal8].
  unfold put_item. cbn [pd_data set_linp]. fold size. rewrite copy_bytes_ok by lia. simpl res_bind. eexists. split; [done|].
  set (d := fun i : Z => if _ && _ then _ else _). cbv zeta.
  assert (Hd1 : forall k, 0 <= k < size -> d (upper + k) = rd item (Z.to_nat k)).
  { intros k Hk. unfold d. destruct (Z.leb_spec upper (upper + k)), (Z.ltb_spec (upper + k) (upper + size)); try lia.
    simpl. do 2 f_equal. lia. }
  assert (Hd2 : forall i, i < upper \/ pd_upper p <= i -> d i = pd_data p i).
  { intros i Hi. unfold d. destruct (Z.leb_spec upper i), (Z.ltb_spec i (upper + size)); simpl; (done || lia). }
  clearbody d. set (p' := placed p L d (24 + 4 * n) upper).
  assert (Eu : pd_upper p' = upper) by (unfold p', placed; simpl; apply uwrap_small; unfold in_u; lia).
  assert (El : pd_lower p' = 24 + 4 * n) by (unfold p', placed; simpl; apply uwrap_small; unfold in_u; lia).
  assert (En : nline p' = n) by (apply nline_of_lower; [lia|done]).
  assert (Eup8 : (8 | upper)) by (apply Z.divide_sub_r; [apply Hv|done]).
  split; [|split; [done|split; [done|split; [|split; [|done]]]]].
  - split; rewrite ?En, ?El, ?Eu; change (pd_special p') with (pd_special p); change (pd_linp p') with L; try done; try lia.
    + apply Hv.
    + intros i Hi. destruct (decide (i = r)) as [->|Hne].
      * rewrite Er. split; [done|]. split; [done|]. intros _. unfold lp_end. simpl. split; [done|]. split; [lia|]. split; [done|lia].
      * destruct (Hold i Hi Hne) as [Ho ->]. destruct (v_item _ Hv _ Ho) as (H1 & H2 & H3). split; [done|]. split; [done|].
        intros Hst. destruct (H3 Hst) as (? & ? & ? & ?). split; [done|]. split; [lia|done].
    + assert (Hold_above : forall i, 1 <= i <= n -> i <> r -> stored (L i) -> apart (L r) (L i)).
      { intros i Hi Hne Hst. destruct (Hold i Hi Hne) as [Ho E]. rewrite E in *. rewrite Er. left. unfold lp_end. simpl.
        destruct (v_item _ Hv _ Ho) as (_ & _ & H3). destruct (H3 Hst) as (_ & ? & _). lia. }
      intros i j Hi Hj Hij Hsi Hsj. destruct (decide (i = r)) as [->|Hir]; [by apply Hold_above; [|lia|]|].
      destruct (decide (j = r)) as [->|Hjr]; [destruct (Hold_above i Hi Hir Hsi); [right|left]; done|].
      destruct (Hold i Hi Hir) as [Hoi Ei], (Hold j Hj Hjr) as [Hoj Ej]. rewrite Ei, Ej in *. apply (v_apart _ Hv); auto.
  - unfold slot_at. change (pd_linp p' r) with (L r). change (pd_data p') with d. rewrite Hnew. apply slot_normal; [|done|done].
    unfold in_u in Hs. lia.
  - intros i Hi Hne. destruct (Hold i Hi Hne) as [Ho E]. unfold slot_at. change (pd_linp p' i) with (L i). rewrite E.
    change (pd_data p') with d. destruct (v_item _ Hv _ Ho) as (H1 & H2 & H3). apply slot_kept. intros k Hk. apply Hd2.
    destruct (H3 ltac:(unfold stored; lia)) as (_ & ? & _). right. lia.
Qed.
End place.

(** ** The abstract operation *)

(** The first free slot. *)
Fixpoint first_free (l : list slot) : option nat :=
  match l with
  | [] => None
  | Free :: _ => Some 0%nat
  | _ :: l => S <$> first_free l
  end.

(** The offset number for a new item, and whether a free slot is used again. *)
Definition choose (a : apage) (off : Z) (overwrite : bool) : option (Z * bool) :=
  let limit := Z.of_nat (length (a_slots a)) + 1 in
  if OffsetNumberIsValid off then
    if limit <? off then None
    else if overwrite && (off <? limit) then
      if decide (a_slots a !! Z.to_nat (off - 1) = Some Free) then Some (off, true) else None
    else Some (off, false)
  else
    match (if a_hint a then first_free (a_slots a) else None) with
    | Some k => Some (Z.of_nat k + 1, true)
    | None => Some (limit, false)
    end.

(** The hint is cleared when a search has found it wrong. *)
Definition hint_after (a : apage) (off : Z) : bool :=
  if OffsetNumberIsValid off then a_hint a
  else a_hint a && match first_free (a_slots a) with Some _ => true | None => false end.

Definition put_slot (s : slot) (off : Z) (reuse : bool) (l : list slot) : list slot :=
  if reuse then <[Z.to_nat (off - 1) := s]> l else take (Z.to_nat (off - 1)) l ++ s :: drop (Z.to_nat (off - 1)) l.

(** The offset number, 0 when the item is refused, and the page. *)
Definition add_spec (a : apage) (item : list Z) (off : Z) (overwrite is_heap : bool) : Z * apage :=
  let refused := (0, mk_apage (a_slots a) (a_free a) (hint_after a off) (a_room a)) in
  match choose a off overwrite with
  | None => refused
  | Some (r, reuse) =>
      let need := MAXALIGN (Z.of_nat (length item)) + (if reuse then 0 else sizeof_ItemIdData) in
      if is_heap && (MaxHeapTuplesPerPage <? r) then refused
      else if a_free a <? need then refused
      else (r, mk_apage (put_slot (Stored LP_NORMAL item) r reuse (a_slots a)) (a_free a - need)
                 (hint_after a off) (a_room a))
  end.

Lemma first_free_None l : first_free l = None <-> forall k, l !! k <> Some Free.
Proof.
  induction l as [|s l IH]; simpl; [done|]. destruct s.
  - split; [done|]. intros H. by destruct (H 0%nat).
  - rewrite fmap_None, IH. split; [|intros H k; apply (H (S k))]. intros H [|k]; [done|apply H].
  - rewrite fmap_None, IH. split; [|intros H k; apply (H (S k))]. intros H [|k]; [done|apply H].
Qed.

Lemma first_free_Some l k :
  l !! k = Some Free -> (forall j, (j < k)%nat -> l !! j <> Some Free) -> first_free l = Some k.
Proof.
  revert k. induction l as [|s l IH]; intros k Hk Hj; [done|]. destruct k as [|k].
  - simpl in Hk. injection Hk as ->. done.
  - simpl in Hk. assert (s <> Free) by (intros ->; by apply (Hj 0%nat ltac:(lia))).
    destruct s; [done|..]; simpl; rewrite (IH k); try done; intros j Hlt; apply (Hj (S j)); lia.
Qed.

Lemma find_free_first p : valid p ->
  let r := find_free p (nline p + 1) in
  1 <= r <= nline p + 1 /\
  first_free (slots p) = if nline p <? r then None else Some (Z.to_nat (r - 1)).
Proof.
  intros Hv r. pose proof (v_nline _ Hv). destruct (find_free_spec p ltac:(done)) as (Hr & Hf & Hno). fold r in Hr, Hf, Hno.
  assert (Hno' : forall k, (k < Z.to_nat (r - 1))%nat -> slots p !! k <> Some Free).
  { intros k Hk E. rewrite slots_lookup in E. destruct (decide _) as [Hd|]; [|done]. injection E as E.
    apply (Hno (Z.of_nat k + 1)); [lia|]. apply valid_free; [done|lia|done]. }
  split; [done|]. destruct (Z.ltb_spec (nline p) r) as [Hlt|Hle].
  - apply first_free_None. intros k E. pose proof (length_slots p ltac:(done)). pose proof (lookup_lt_Some _ _ _ E).
    apply (Hno' k); [lia|done].
  - apply first_free_Some; [|done]. rewrite slots_get by lia. f_equal. apply valid_free; [done|lia|by apply Hf].
Qed.

(** Only the hint of a page may differ. *)
Definition same_page (p q : Page) : Prop :=
  pd_lower q = pd_lower p /\ pd_upper q = pd_upper p /\ pd_special q = pd_special p /\ pd_linp q = pd_linp p
  /\ pd_data q = pd_data p.

Lemma choose_offset_spec p off flags : valid p -> 0 <= off ->
  let overwrite := negb (Z.land flags PAI_OVERWRITE =? 0) in
  match choose_offset p off flags with
  | inl _ => choose (abs p) off overwrite = None /\ hint_after (abs p) off = PageHasFreeLinePointers p
  | inr (p', r, needshuffle) => same_page p p' /\ PageHasFreeLinePointers p' = hint_after (abs p) off
      /\ 1 <= r /\ (needshuffle = true -> r <= nline p)
      /\ choose (abs p) off overwrite
         = if nline p + 1 <? r then None else Some (r, negb ((r =? nline p + 1) || needshuffle))
  end.
Proof.
  intros Hv Hoff overwrite. pose proof (v_nline _ Hv) as Hn. unfold choose_offset, choose, hint_after. fold overwrite.
  simpl a_slots. rewrite length_slots by done. simpl a_hint.
  destruct (OffsetNumberIsValid off) eqn:Eval.
  - assert (1 <= off) by (unfold OffsetNumberIsValid, InvalidOffsetNumber in Eval; rewrite andb_true_iff, negb_true_iff, Z.eqb_neq in Eval; lia).
    destruct overwrite; simpl andb.
    + destruct (Z.ltb_spec off (nline p + 1)) as [Hlt|Hge].
      * destruct (Z.ltb_spec (nline p + 1) off); [lia|]. unfold PageGetItemId.
        rewrite slots_get by lia. destruct (decide (Some (slot_at p off) = Some Free)) as [E|E].
        -- injection E as E. apply valid_free in E as [-> ->]; [|done|lia]. simpl. repeat split; try done.
           destruct (Z.ltb_spec (nline p + 1) off); [lia|]. destruct (Z.eqb_spec off (nline p + 1)); [lia|done].
        -- destruct (ItemIdIsUsed (pd_linp p off)) eqn:Eu; [done|]. destruct (ItemIdHasStorage (pd_linp p off)) eqn:Es; [done|].
           destruct E. f_equal. apply valid_free; [done|lia|done].
      * repeat split; try done. destruct (Z.ltb_spec (nline p + 1) off); [done|].
        destruct (Z.eqb_spec off (nline p + 1)); [done|lia].
    + repeat split; try done; [intros Hs; apply Z.ltb_lt in Hs; lia|]. destruct (Z.ltb_spec (nline p + 1) off); [done|].
      destruct (Z.ltb_spec off (nline p + 1)); rewrite ?orb_true_r, ?orb_false_r; simpl; [done|].
      destruct (Z.eqb_spec off (nline p + 1)); [done|lia].
  - destruct (find_free_first p Hv) as [Hr Hf]. rewrite Hf. destruct (PageHasFreeLinePointers p) eqn:Eh.
    + set (r := find_free p (nline p + 1)) in *. destruct (Z.leb_spec (nline p + 1) r) as [Hge|Hlt].
      * rewrite hint_clear. destruct (Z.ltb_spec (nline p) r); [|lia]. repeat split; try done; [lia|].
        destruct (Z.ltb_spec (nline p + 1) r); [lia|]. destruct (Z.eqb_spec r (nline p + 1)); [|lia]. simpl. do 2 f_equal. lia.
      * rewrite Eh. destruct (Z.ltb_spec (nline p) r); [lia|]. repeat split; try done; [lia|].
        destruct (Z.ltb_spec (nline p + 1) r); [lia|]. destruct (Z.eqb_spec r (nline p + 1)); [lia|]. simpl. do 2 f_equal. lia.
    + rewrite Eh. repeat split; try done; [lia|]. rewrite Z.ltb_irrefl, Z.eqb_refl. done.
Qed.

Lemma same_valid p q : same_page p q -> valid p -> valid q /\ slots q = slots p /\ nline q = nline p.
Proof.
  intros (E1 & E2 & E3 & E4 & E5) Hv. assert (En : nline q = nline p) by (unfold PageGetMaxOffsetNumber; by rewrite E1).
  split; [|split; [|done]].
  - destruct Hv. split; rewrite ?En, ?E1, ?E2, ?E3, ?E4; done.
  - unfold slots, slot_at. by rewrite En, E4, E5.
Qed.

(** Where a slot was before a slot was put in front of it. *)
Definition old_index (r : Z) (reuse : bool) (i : Z) : Z := if reuse then i else if r <? i then i - 1 else i.

Lemma put_slot_lookup s r reuse l i :
  1 <= r <= Z.of_nat (length l) + 1 -> 1 <= i -> (reuse = true -> i <= Z.of_nat (length l)) ->
  put_slot s r reuse l !! Z.to_nat (i - 1)
  = if i =? r then Some s else l !! Z.to_nat (old_index r reuse i - 1).
Proof.
  intros Hr Hi Hre. unfold put_slot, old_index. destruct reuse.
  - specialize (Hre eq_refl). destruct (Z.eqb_spec i r) as [->|Hne].
    + rewrite list_lookup_insert_eq; [done|lia].
    + rewrite list_lookup_insert_ne by lia. done.
  - assert (Hl : length (take (Z.to_nat (r - 1)) l) = Z.to_nat (r - 1)) by (rewrite length_take; lia).
    destruct (Z.eqb_spec i r) as [->|Hne]; [by rewrite lookup_app_r, Hl, Nat.sub_diag by lia|].
    destruct (Z.ltb_spec r i).
    + rewrite lookup_app_r by lia. rewrite Hl. replace (Z.to_nat (i - 1) - Z.to_nat (r - 1))%nat with (S (Z.to_nat (i - 1 - r))) by lia.
      simpl. rewrite lookup_drop. f_equal. lia.
    + rewrite lookup_app_l by lia. by rewrite lookup_take_lt by lia.
Qed.

Lemma length_put_slot s r reuse l :
  1 <= r <= Z.of_nat (length l) + 1 ->
  Z.of_nat (length (put_slot s r reuse l)) = Z.of_nat (length l) + (if reuse then 0 else 1).
Proof.
  intros Hr. unfold put_slot. destruct reuse; [rewrite length_insert; lia|].
  rewrite length_app. simpl. rewrite length_take, length_drop. lia.
Qed.

(** The line pointers after room has been made for the new one. *)
Definition shuffled (p : Page) (r : Z) (needshuffle : bool) : Z -> ItemIdData :=
  if needshuffle then fun i => if (r <? i) && (i <=? nline p + 1) then pd_linp p (i - 1) else pd_linp p i else pd_linp p.

Lemma place_slots p item r needshuffle :
  valid p -> 0 < Z.of_nat (length item) -> 1 <= r <= nline p + 1 -> (needshuffle = true -> r <= nline p) ->
  let reuse := negb ((r =? nline p + 1) || needshuffle) in
  let size := Z.of_nat (length item) in
  let upper := pd_upper p - MAXALIGN size in
  let L := fun i => if i =? r then ItemIdNormal upper size else shuffled p r needshuffle i in
  let lower := pd_lower p + (if reuse then 0 else sizeof_ItemIdData) in
  lower <= upper ->
  exists d, put_item (set_linp L p) upper item = Ok (set_data d (set_linp L p)) /\
    let p' := placed p L d lower upper in
    valid p' /\ slots p' = put_slot (Stored LP_NORMAL item) r reuse (slots p)
    /\ pd_upper p' = upper /\ pd_lower p' = lower /\ (forall i, i < upper \/ pd_upper p <= i -> d i = pd_data p i).
Proof.
  intros Hv Hsize Hr Hsh reuse size upper L lower Hroom. pose proof (v_nline _ Hv) as Hn. pose proof (v_lines _ Hv) as Hl.
  set (n := nline p + (if reuse then 0 else 1)).
  assert (Hcase : reuse = true /\ r <= nline p /\ needshuffle = false
                  \/ reuse = false /\ (r = nline p + 1 \/ needshuffle = true)).
  { unfold reuse. destruct (Z.eqb_spec r (nline p + 1)), needshuffle; simpl; auto. left. split; [done|]. split; [lia|done]. }
  assert (El : lower = 24 + 4 * n) by (unfold lower, n, sizeof_ItemIdData; destruct reuse; lia).
  destruct (place_valid p item L n r (old_index r reuse)) as (d & Ed & Hv' & En & Eu & Hnew & Hold & Hfr); try done.
  - fold size. fold upper. lia.
  - destruct Hcase as [(-> & ? & _)|(-> & _)]; lia.
  - intros i Hi Hne. unfold L. destruct (Z.eqb_spec i r); [done|]. unfold old_index, shuffled. unfold n in Hi.
    destruct Hcase as [(E & ? & ->)|(E & [->| ->])]; rewrite E in *; simpl; [by split; [lia|]|..].
    + destruct (Z.ltb_spec (nline p + 1) i); [lia|]. split; [lia|]. destruct needshuffle; [specialize (Hsh eq_refl); lia|done].
    + destruct (Z.ltb_spec r i), (Z.leb_spec i (nline p + 1)); simpl; (split; [lia|done]) || lia.
  - intros i j Hi Hj Hir Hjr Hij. unfold old_index. destruct reuse; [done|]. destruct (Z.ltb_spec r i), (Z.ltb_spec r j); lia.
  - unfold L. by rewrite Z.eqb_refl.
  - fold size in Ed, Hv', En, Eu, Hnew, Hold, Hfr. fold upper in Ed, Hv', En, Eu, Hnew, Hold, Hfr.
    exists d. split; [done|]. rewrite El. cbv zeta. split; [done|]. split; [|split; [done|split; [|done]]].
    + apply slots_eq; rewrite En; [destruct Hcase as [(-> & _)|(-> & _)]; lia| |].
      * rewrite length_put_slot by (rewrite length_slots; lia). rewrite length_slots by done. done.
      * intros i Hi. rewrite put_slot_lookup;
          [|rewrite length_slots; lia|lia|intros E; unfold n in Hi; rewrite E in Hi; rewrite length_slots; lia].
        destruct (Z.eqb_spec i r) as [->|Hne]; [by rewrite Hnew|]. rewrite Hold by done. apply slots_get.
        unfold old_index, n in *. destruct Hcase as [(E & ? & _)|(E & _)]; rewrite E in *; simpl; [lia|]. destruct (Z.ltb_spec r i); lia.
    + unfold placed. simpl. apply uwrap_small. pose proof (valid_bounds p Hv). pose proof (MAXALIGN_spec size).
      unfold in_u. split; [unfold n; destruct reuse; lia|lia].
Qed.

(** Adding an item does to the slots what [add_spec] does, on every branch; the bytes
    written lie in the free space. *)
Lemma add_item_refines p item off flags :
  valid p -> (0 < length item)%nat -> 0 <= off ->
  let a := add_spec (abs p) item off (negb (Z.land flags PAI_OVERWRITE =? 0)) (negb (Z.land flags PAI_IS_HEAP =? 0)) in
  exists w p', PageAddItemExtended p item off flags = Ok (fst a, w, p') /\ valid p' /\ abs p' = snd a
    /\ (forall i, i < pd_lower p' \/ pd_upper p <= i -> pd_data p' i = pd_data p i).
Proof.
  intros Hv Hlen Hoff. cbv zeta. unfold PageAddItemExtended, add_spec.
  pose proof (valid_bounds p Hv) as Hbd. pose proof (v_nline _ Hv) as Hn.
  assert (Hh : (pd_lower p <? SizeOfPageHeaderData) || (pd_upper p <? pd_lower p) || (pd_special p <? pd_upper p)
               || (BLCKSZ <? pd_special p) = false).
  { unfold SizeOfPageHeaderData. destruct (Z.ltb_spec (pd_lower p) 24), (Z.ltb_spec (pd_upper p) (pd_lower p)),
      (Z.ltb_spec (pd_special p) (pd_upper p)), (Z.ltb_spec BLCKSZ (pd_special p)); (done || lia). }
  rewrite Hh. cbv zeta. pose proof (choose_offset_spec p off flags Hv Hoff) as Hc. cbv zeta in Hc.
  assert (Hout : forall q w, same_page p q -> PageHasFreeLinePointers q = hint_after (abs p) off ->
    exists w' p', (Ok (InvalidOffsetNumber, w, q) : res (Z * option string * Page)) = Ok (0, w', p') /\ valid p'
    /\ abs p' = mk_apage (slots p) (pd_upper p - pd_lower p) (hint_after (abs p) off) (pd_special p - SizeOfPageHeaderData)
    /\ (forall i, i < pd_lower p' \/ pd_upper p <= i -> pd_data p' i = pd_data p i)).
  { intros q w Hsame Hhint. destruct (same_valid p q Hsame Hv) as (Hq & Es & En). destruct Hsame as (E1 & E2 & E3 & E4 & E5).
    exists w, q. split; [done|]. split; [done|]. split; [unfold abs at 1; by rewrite Es, E1, E2, E3, Hhint|]. by rewrite E5. }
  destruct (choose_offset p off flags) as [w|[[q r] sh]].
  { destruct Hc as [-> Eh]. by apply Hout. }
  destruct Hc as (Hsame & Hhint & Hr & Hsh & ->). specialize (fun w => Hout q w Hsame Hhint).
  destruct (Z.ltb_spec (nline p + 1) r) as [|Hr']; [apply Hout|].
  destruct (_ && (MaxHeapTuplesPerPage <? r)); [apply Hout|].
  destruct (same_valid p q Hsame Hv) as (Hq & Es & En). destruct Hsame as (E1 & E2 & E3 & E4 & E5).
  set (size := Z.of_nat (length item)) in *. set (reuse := negb ((r =? nline p + 1) || sh)).
  assert (Elow : (if (r =? nline p + 1) || sh then pd_lower q + sizeof_ItemIdData else pd_lower q)
                 = pd_lower q + (if reuse then 0 else sizeof_ItemIdData)) by (unfold reuse; destruct ((r =? nline p + 1) || sh); cbn [negb]; lia).
  rewrite Elow, E1, E2. clear Elow. set (lower := pd_lower p + _). set (upper := pd_upper p - MAXALIGN size).
  simpl a_free. replace (pd_upper p - pd_lower p <? MAXALIGN size + (if reuse then 0 else sizeof_ItemIdData)) with (upper <? lower)
    by (apply eq_true_iff_eq; rewrite !Z.ltb_lt; unfold upper, lower; lia).
  destruct (Z.ltb_spec upper lower) as [|Hroom]; [apply Hout|].
  destruct (place_slots q item r sh Hq ltac:(lia) ltac:(lia) ltac:(by rewrite En)) as (d & Ed & Hv' & Es' & Eu & El & Hfr).
  { rewrite En, E1, E2. done. }
  rewrite En, E1, E2 in *. fold size upper in Ed, Hv', Es', Eu, El, Hfr. fold reuse in Ed, Hv', Es', Eu, El, Hfr.
  fold lower in Hv', Es', Eu, El. set (L := fun i : Z => if i =? r then _ else _) in Ed, Hv', Es', Eu, El.
  assert (EL : set_item r (ItemIdNormal upper size)
    (if sh then set_linp (fun i => if (r <? i) && (i <=? nline p + 1) then pd_linp q (i - 1) else pd_linp q i) q else q)
    = set_linp L q) by (unfold L, shuffled; rewrite En; by destruct sh).
  rewrite EL, Ed. simpl res_bind. exists None, (placed q L d lower upper). split; [done|]. split; [done|].
  split; [|rewrite El; intros i Hi; rewrite <- E5; apply Hfr; lia].
  unfold abs at 1. rewrite Es', Eu, El, Es. simpl snd. unfold abs. simpl a_slots. simpl a_room. f_equal.
  - unfold lower, upper. lia.
  - exact Hhint.
  - unfold placed. simpl. by rewrite E3.
Qed.
End add.
