(* ===== verification/BufPageCompact.v ===== *)
(** Compaction of a page: whichever of its paths is taken, compactify_tuples moves
    every item to its place below the ones before it in the list, and nothing else. *)

From S2P Require Import Prelude BufPage BufPageSpec.
Local Open Scope Z_scope.
Local Open Scope pg_scope.

(** ** Where the items go *)

Fixpoint targets (upper : Z) (l : list itemIdCompactData) : list (itemIdCompactData * Z) :=
  match l with
  | [] => []
  | c :: l => (c, upper - alignedlen c) :: targets (upper - alignedlen c) l
  end.

Definition total (l : list itemIdCompactData) : Z := foldr (fun c n => alignedlen c + n) 0 l.

Lemma total_app l l' : total (l ++ l') = total l + total l'.
Proof. induction l as [|c l IH]; simpl; [done|]. rewrite IH. lia. Qed.

Lemma targets_app u l l' : targets u (l ++ l') = targets u l ++ targets (u - total l) l'.
Proof.
  revert u. induction l as [|c l IH]; intros u; simpl; [by rewrite Z.sub_0_r|]. rewrite IH. do 3 f_equal. lia.
Qed.

Lemma targets_fst u l : map fst (targets u l) = l.
Proof. revert u. induction l as [|c l IH]; intros u; simpl; [done|]. by rewrite IH. Qed.

Definition citem_ok (lo hi : Z) (c : itemIdCompactData) : Prop := 0 < alignedlen c /\ lo <= itemoff c /\ item_end c <= hi.
Definition capart (a b : itemIdCompactData) : Prop :=
  offsetindex a <> offsetindex b /\ (item_end a <= itemoff b \/ item_end b <= itemoff a).
Fixpoint separate (l : list itemIdCompactData) : Prop :=
  match l with
  | [] => True
  | c :: l => Forall (capart c) l /\ separate l
  end.

(** Items in descending order, all ending below [x]. *)
Fixpoint descending (x : Z) (l : list itemIdCompactData) : Prop :=
  match l with
  | [] => True
  | c :: l => item_end c <= x /\ descending (itemoff c) l
  end.

Lemma total_nonneg lo hi l : Forall (citem_ok lo hi) l -> 0 <= total l.
Proof. induction 1 as [|c l [Hc _] _ IH]; simpl; [done|]. lia. Qed.

Section compact.
Context {bs : block_size} {Hb : block_ok bs}.
Context (p : Page) (special : Z).
Let D := pd_data p.
Hypothesis Hspecial : special <= BLCKSZ.

(** ** The copying loop *)

(** Items either lie at their targets, at [mark] or above, or wait in the source between
    [copy_head] and [copy_tail]. *)
Definition arrived (d : Z -> Z) (mark : Z) (c : itemIdCompactData) (t : Z) : Prop :=
  mark <= t /\ forall k, 0 <= k < alignedlen c -> d (t + k) = D (itemoff c + k).
Definition waiting (c : compacting) (x : itemIdCompactData) (t : Z) : Prop :=
  copy_head c <= itemoff x /\ item_end x <= copy_tail c /\ t - c_upper c = itemoff x - copy_head c.

Definition mark (c : compacting) : Z := c_upper c + (copy_tail c - copy_head c).

Record under_way (scratch : option (Z -> Z)) (done : list (itemIdCompactData * Z)) (c : compacting) : Prop := {
  u_range : 0 <= copy_head c <= copy_tail c /\ copy_tail c <= BLCKSZ /\ mark c <= special;
  u_items : forall x t, (x, t) ∈ done -> arrived (pd_data (c_page c)) (mark c) x t \/ waiting c x t;
  u_data : forall i, i < mark c \/ special <= i -> pd_data (c_page c) i = D i;
  u_source : match scratch with
             | None => copy_head c <= c_upper c \/ copy_head c = copy_tail c
             | Some s => forall i, copy_head c <= i < copy_tail c -> s i = D i
             end;
  u_linp : (forall x t, (x, t) ∈ done ->
              pd_linp (c_page c) (offsetindex x + 1) = set_lp_off t (pd_linp p (offsetindex x + 1)))
           /\ (forall i, (forall x t, (x, t) ∈ done -> i <> offsetindex x + 1) -> pd_linp (c_page c) i = pd_linp p i);
  u_header : pd_lower (c_page c) = pd_lower p /\ pd_special (c_page c) = pd_special p
             /\ pd_flags (c_page c) = pd_flags p
}.

(** Copying what waits. *)
Lemma flush scratch done c :
  under_way scratch done c -> 0 <= c_upper c ->
  exists d, copy_pending scratch c = Ok (set_data d (c_page c))
    /\ (forall x t, (x, t) ∈ done -> arrived d (c_upper c) x t)
    /\ (forall i, i < c_upper c \/ special <= i -> d i = D i).
Proof.
  intros [(Hh & Ht & Hm) Hi Hd Hs _ _] Hu. unfold mark in *. unfold copy_pending. cbv zeta.
  set (from := default (pd_data (c_page c)) scratch).
  assert (Hfrom : forall i, copy_head c <= i < copy_tail c -> from i = D i).
  { intros i Hir. unfold from. destruct scratch as [s|]; simpl; [by apply Hs|]. apply Hd. lia. }
  rewrite copy_bytes_ok by lia. simpl. eexists. split; [done|]. split.
  - intros x t Hx. destruct (Hi x t Hx) as [[H1 H2]|(H1 & H2 & H3)]; (split; [lia|]); intros k Hk.
    + destruct (Z.leb_spec (c_upper c) (t + k)), (Z.ltb_spec (t + k) (c_upper c + (copy_tail c - copy_head c))); simpl; try lia.
      by apply H2.
    + unfold item_end in *. destruct (Z.leb_spec (c_upper c) (t + k)), (Z.ltb_spec (t + k) (c_upper c + (copy_tail c - copy_head c)));
        simpl; try lia. rewrite Hfrom by lia. f_equal. lia.
  - intros i Hir. destruct (Z.leb_spec (c_upper c) i), (Z.ltb_spec i (c_upper c + (copy_tail c - copy_head c))); simpl; try lia;
      apply Hd; lia.
Qed.

(** What the source must offer for the items to come. *)
Definition source_ok (scratch : option (Z -> Z)) (c : compacting) (l : list itemIdCompactData) : Prop :=
  match scratch with
  | None => descending (c_upper c) l
  | Some s => forall x, x ∈ l -> forall i, itemoff x <= i < item_end x -> s i = D i
  end.

(** The copies before an item: none if it continues the run of pending items. *)
Lemma flush_before scratch done c x l :
  under_way scratch done c -> citem_ok 0 special x -> alignedlen x <= c_upper c -> source_ok scratch c (x :: l) ->
  exists p1 tail, (if negb (copy_head c =? item_end x)
    then p <-! copy_pending scratch c ;; Ok (mk_compacting p (c_upper c) (item_end x) (copy_head c)) else Ok c)
    = Ok (mk_compacting p1 (c_upper c) tail (copy_head c))
    /\ pd_linp p1 = pd_linp (c_page c)
    /\ (pd_lower p1 = pd_lower p /\ pd_special p1 = pd_special p /\ pd_flags p1 = pd_flags p)
    /\ item_end x <= tail /\ tail <= BLCKSZ /\ c_upper c - alignedlen x + (tail - itemoff x) <= special
    /\ (forall y t, (y, t) ∈ done -> arrived (pd_data p1) (c_upper c - alignedlen x + (tail - itemoff x)) y t
        \/ itemoff x <= itemoff y /\ item_end y <= tail /\ t - (c_upper c - alignedlen x) = itemoff y - itemoff x)
    /\ (forall i, i < c_upper c - alignedlen x + (tail - itemoff x) \/ special <= i -> pd_data p1 i = D i)
    /\ (match scratch with None => True | Some s => forall i, itemoff x <= i < tail -> s i = D i end).
Proof.
  intros Hw (Hlen & Hlo & Hhi) Hroom Hsrc. pose proof Hw as [(Hh & Ht & Hm) Hi Hd Hs _ Hhd]. unfold mark in *.
  assert (Hx : itemoff x + alignedlen x = item_end x) by done.
  destruct (Z.eqb_spec (copy_head c) (item_end x)) as [E|E]; simpl.
  - exists (c_page c), (copy_tail c). split; [by destruct c|]. split; [done|]. split; [done|]. split; [lia|]. split; [lia|].
    split; [lia|]. replace (c_upper c - alignedlen x + (copy_tail c - itemoff x)) with (c_upper c + (copy_tail c - copy_head c)) by lia.
    split; [|split; [done|]].
    + intros y t Hy. destruct (Hi y t Hy) as [|(? & ? & ?)]; [by left|right]. lia.
    + destruct scratch as [s|]; [|done]. intros i Hir. destruct (decide (i < copy_head c)) as [Hlt|]; [|apply Hs; lia].
      apply (Hsrc x); [apply list_elem_of_here|lia].
  - destruct (flush scratch done c Hw ltac:(lia)) as (d & -> & Har & Hfr). simpl.
    exists (set_data d (c_page c)), (item_end x). split; [done|]. split; [done|]. split; [done|]. split; [done|].
    split; [lia|]. split; [lia|]. replace (c_upper c - alignedlen x + (item_end x - itemoff x)) with (c_upper c) by lia.
    split; [|split; [done|]].
    + intros y t Hy. left. by apply Har.
    + destruct scratch as [s|]; [|done]. apply (Hsrc x). apply list_elem_of_here.
Qed.

Lemma under_way_step scratch done c x l :
  under_way scratch done c -> citem_ok 0 special x -> alignedlen x <= c_upper c ->
  source_ok scratch c (x :: l) -> (forall y t, (y, t) ∈ done -> offsetindex y <> offsetindex x) ->
  exists c', compact_step scratch c x = Ok c' /\ c_upper c' = c_upper c - alignedlen x
    /\ under_way scratch (done ++ [(x, c_upper c - alignedlen x)]) c' /\ source_ok scratch c' l.
Proof.
  intros Hw (Hlen & Hlo & Hhi) Hroom Hsrc Hidx. pose proof Hw as [(Hh & Ht & Hm) Hi Hd _ [Hl1 Hl2] _]. unfold mark in *.
  assert (Hx : itemoff x + alignedlen x = item_end x) by done.
  destruct (flush_before scratch done c x l Hw ltac:(done) Hroom Hsrc) as (p1 & tail & E1 & El1 & Eh1 & Ht1 & Ht2 & Ht3 & Hitems & Hdata & Hscr).
  unfold compact_step. rewrite E1. simpl res_bind. eexists. split; [done|]. simpl. split; [done|].
  unfold source_ok in *. split.
  - split; unfold mark; simpl.
    + lia.
    + intros y t Hy. apply elem_of_app in Hy as [Hy|Hy].
      * destruct (Hitems y t Hy) as [|]; [by left|right]. unfold waiting. simpl. lia.
      * apply list_elem_of_singleton in Hy as [= -> ->]. right. unfold waiting. simpl. lia.
    + done.
    + destruct scratch as [s|]; [done|]. simpl in Hsrc. lia.
    + unfold PageGetItemId. rewrite El1. split.
      * intros y t Hy. apply elem_of_app in Hy as [Hy|Hy].
        -- destruct (Z.eqb_spec (offsetindex y + 1) (offsetindex x + 1)); [exfalso; apply (Hidx y t Hy); lia|]. by apply Hl1.
        -- apply list_elem_of_singleton in Hy as [= -> ->]. rewrite Z.eqb_refl. f_equal. apply Hl2.
           intros y t Hy ?. apply (Hidx y t Hy). lia.
      * intros i Hne. destruct (Z.eqb_spec i (offsetindex x + 1)) as [->|].
        -- exfalso. apply (Hne x (c_upper c - alignedlen x)); [|done]. apply elem_of_app. right. apply list_elem_of_here.
        -- apply Hl2. intros y t Hy. apply (Hne y t), elem_of_app. by left.
    + done.
  - destruct scratch as [s|]; simpl in *.
    + intros y Hy. apply Hsrc. by apply list_elem_of_further.
    + destruct Hsrc as [Hs1 Hs2]. destruct l as [|y l]; [done|]. simpl in *. destruct Hs2 as [? ?]. split; [lia|done].
Qed.

Lemma under_way_loop scratch l : forall done c,
  under_way scratch done c -> Forall (citem_ok 0 special) l -> total l <= c_upper c ->
  source_ok scratch c l -> separate l ->
  (forall y t, (y, t) ∈ done -> Forall (fun x => offsetindex y <> offsetindex x) l) ->
  exists c', compact_loop scratch l c = Ok c' /\ c_upper c' = c_upper c - total l
    /\ under_way scratch (done ++ targets (c_upper c) l) c'.
Proof.
  induction l as [|x l IH]; intros done c Hw Hok Hroom Hsrc Hsep Hidx.
  - exists c. simpl. rewrite app_nil_r, Z.sub_0_r. done.
  - apply Forall_cons_1 in Hok as [Hx Hok]. simpl in Hroom, Hsep. destruct Hsep as [Hap Hsep].
    pose proof (total_nonneg _ _ _ Hok).
    destruct (under_way_step scratch done c x l Hw Hx ltac:(lia) Hsrc) as (c' & E & Eu & Hw' & Hsrc').
    { intros y t Hy. by destruct (Forall_cons_1 _ _ _ (Hidx y t Hy)). }
    destruct (IH _ _ Hw' Hok ltac:(lia) Hsrc' Hsep) as (c'' & E' & Eu' & Hw'').
    { intros y t Hy. apply elem_of_app in Hy as [Hy|Hy].
      - by destruct (Forall_cons_1 _ _ _ (Hidx y t Hy)).
      - apply list_elem_of_singleton in Hy as [= -> ->]. eapply Forall_impl; [exact Hap|]. by intros y [? _]. }
    exists c''. simpl. rewrite E. simpl. split; [done|]. split; [lia|]. rewrite Eu in Hw''. rewrite <- app_assoc in Hw''. done.
Qed.

(** ** The whole function *)

(** The page after the items have been moved. *)
Record compacted (l : list itemIdCompactData) (p' : Page) : Prop := {
  k_upper : pd_upper p' = special - total l;
  k_lower : pd_lower p' = pd_lower p;
  k_special : pd_special p' = pd_special p;
  k_flags : pd_flags p' = pd_flags p;
  k_items : forall x t, (x, t) ∈ targets special l ->
    pd_linp p' (offsetindex x + 1) = set_lp_off t (pd_linp p (offsetindex x + 1))
    /\ forall k, 0 <= k < alignedlen x -> pd_data p' (t + k) = D (itemoff x + k);
  k_linp : forall i, (forall x, x ∈ l -> i <> offsetindex x + 1) -> pd_linp p' i = pd_linp p i;
  k_data : forall i, i < special - total l \/ special <= i -> pd_data p' i = D i
}.

(** The line pointers that the items were taken from. *)
Definition points (c : itemIdCompactData) : Prop :=
  lp_off (pd_linp p (offsetindex c + 1)) = itemoff c /\ in_u 15 (itemoff c).

Lemma in_targets u l x t : (x, t) ∈ targets u l -> x ∈ l.
Proof. intros H. rewrite <- (targets_fst u l). apply list_elem_of_fmap. by exists (x, t). Qed.

Lemma in_targets_above lo hi u l x t :
  Forall (citem_ok lo hi) l -> (x, t) ∈ targets u l -> u - total l <= t /\ t + alignedlen x <= u.
Proof.
  revert u. induction l as [|y l IH]; intros u Hok Hx; simpl in *; [by apply elem_of_nil in Hx|].
  apply Forall_cons_1 in Hok as [[Hy _] Hok]. pose proof (total_nonneg _ _ _ Hok).
  apply elem_of_cons in Hx as [[= -> ->]|Hx]; [lia|]. specialize (IH _ Hok Hx). lia.
Qed.

Lemma compact_from_spec scratch pre ptr l :
  Forall (citem_ok 0 special) (pre ++ l) -> separate (pre ++ l) -> Forall points pre ->
  (forall x t, (x, t) ∈ targets special pre -> t = itemoff x) ->
  0 <= item_end ptr <= BLCKSZ -> total (pre ++ l) <= special ->
  match scratch with
  | None => descending (special - total pre) l
  | Some s => forall x, x ∈ l -> forall i, itemoff x <= i < item_end x -> s i = D i
  end ->
  exists p', compact_from scratch p (special - total pre, ptr, l) = Ok p' /\ compacted (pre ++ l) p'.
Proof.
  intros Hok Hsep Hpts Hpre Hptr Hroom Hsrc. rewrite total_app in Hroom. apply Forall_app in Hok as [Hok1 Hok2].
  pose proof (total_nonneg _ _ _ Hok1) as Hn1. pose proof (total_nonneg _ _ _ Hok2) as Hn2.
  assert (Hsep2 : separate l /\ forall y, y ∈ pre -> Forall (fun x => offsetindex y <> offsetindex x) l).
  { clear -Hsep. induction pre as [|y pre IH]; simpl in *; [by split; [|intros y ?%elem_of_nil]|].
    destruct Hsep as [H1 H2]. destruct (IH H2) as [H3 H4]. split; [done|]. intros z [->|Hz]%elem_of_cons; [|by apply H4].
    apply Forall_app in H1 as [_ H1]. eapply Forall_impl; [exact H1|]. by intros w [? _]. }
  destruct Hsep2 as [Hsep2 Hidx].
  set (c0 := mk_compacting p (special - total pre) (item_end ptr) (item_end ptr)).
  assert (Hw : under_way scratch (targets special pre) c0).
  { split; unfold mark; simpl.
    - lia.
    - intros x t Hx. left. rewrite (Hpre x t Hx). split; [|done].
      pose proof (in_targets_above _ _ _ _ _ _ Hok1 Hx). rewrite (Hpre x t Hx) in *. lia.
    - intros i _. done.
    - destruct scratch as [s|]; [intros; lia|by right].
    - split; [|done]. intros x t Hx. pose proof (in_targets _ _ _ _ Hx) as Hin. rewrite Forall_forall in Hpts.
      destruct (Hpts x Hin) as [E Hu]. rewrite (Hpre x t Hx). unfold set_lp_off. rewrite uwrap_small by done. rewrite <- E.
      by destruct (pd_linp p _).
    - done. }
  destruct (under_way_loop scratch l _ c0 Hw Hok2) as (c & E & Eu & Hwc); [simpl; lia|done|done| |].
  { intros y t Hy. apply Hidx. by apply in_targets in Hy. }
  simpl c_upper in Eu, Hwc. rewrite <- targets_app in Hwc.
  destruct (flush _ _ _ Hwc ltac:(lia)) as (d & Ed & Har & Hfr).
  unfold compact_from. fold c0. rewrite E. simpl. rewrite Ed. simpl. eexists. split; [done|].
  destruct Hwc as [_ _ _ _ [Hl1 Hl2] (Hh1 & Hh2 & Hh3)]. split; simpl; try done.
  - rewrite Eu, total_app. rewrite uwrap_small; [lia|]. destruct Hb. unfold in_u. lia.
  - intros x t Hx. split; [by apply Hl1|]. by apply Har.
  - intros i Hi. apply Hl2. intros x t Hx. apply Hi. by apply in_targets in Hx.
  - intros i Hi. apply Hfr. rewrite Eu. rewrite total_app in Hi. lia.
Qed.

(** The items that are skipped are in place, and all others lie below them. *)
Lemma skip_placed_spec : forall rest ptr upper,
  Forall (citem_ok 0 upper) (ptr :: rest) -> separate (ptr :: rest) ->
  exists pre ptr' l, skip_placed ptr rest upper = (upper - total pre, ptr', l) /\ ptr :: rest = pre ++ l
    /\ (forall x t, (x, t) ∈ targets upper pre -> t = itemoff x)
    /\ ptr' ∈ ptr :: rest /\ Forall (citem_ok 0 (upper - total pre)) l.
Proof.
  induction rest as [|y rest IH]; intros ptr upper Hok Hsep; simpl.
  - destruct (Z.eqb_spec upper (item_end ptr)) as [E|E]; simpl.
    + exists [ptr], ptr, []. simpl. rewrite Z.add_0_r. split; [done|]. split; [done|]. split; [|split; [by left|done]].
      intros x t [[= -> ->]|?%elem_of_nil]%elem_of_cons; [|done]. unfold item_end in E. lia.
    + exists [], ptr, [ptr]. simpl. rewrite Z.sub_0_r. split; [done|]. split; [done|]. split; [|split; [by left|done]].
      by intros x t ?%elem_of_nil.
  - destruct (Z.eqb_spec upper (item_end ptr)) as [E|E]; simpl.
    + apply Forall_cons_1 in Hok as [(H0 & H1 & H2) Hok]. destruct Hsep as [Hap Hsep]. unfold item_end in E.
      destruct (IH y (upper - alignedlen ptr)) as (pre & ptr' & l & Es & El & Hpre & Hin & Hl); [|done|].
      * rewrite Forall_forall in *. intros x Hx. destruct (Hok x Hx) as (? & ? & ?). destruct (Hap x Hx) as [_ Hor].
        unfold citem_ok, item_end in *. lia.
      * exists (ptr :: pre), ptr', l. simpl. rewrite Es. split; [do 2 f_equal; lia|]. split; [by rewrite El|].
        split; [|split; [by right|]].
        -- intros x t [[= -> ->]|Hx]%elem_of_cons; [lia|]. by apply Hpre.
        -- by replace (upper - (alignedlen ptr + total pre)) with (upper - alignedlen ptr - total pre) by lia.
    + exists [], ptr, (ptr :: y :: rest). simpl. rewrite Z.sub_0_r. split; [done|]. split; [done|].
      split; [by intros x t ?%elem_of_nil|]. split; [by left|done].
Qed.

Lemma save_items_spec l : forall scratch,
  Forall (citem_ok 0 special) l ->
  exists scratch', save_items p l scratch = Ok scratch'
    /\ (forall i, scratch i = D i -> scratch' i = D i)
    /\ forall x, x ∈ l -> forall i, itemoff x <= i < item_end x -> scratch' i = D i.
Proof.
  induction l as [|c l IH]; intros scratch Hok; simpl.
  - exists scratch. split; [done|]. split; [done|]. by intros x ?%elem_of_nil.
  - apply Forall_cons_1 in Hok as [(H0 & H1 & H2) Hok]. unfold item_end in H2. rewrite copy_bytes_ok by lia. simpl.
    set (s1 := fun i : Z => if _ && _ then _ else _). destruct (IH s1 Hok) as (s2 & -> & Hk & Hs). exists s2. split; [done|].
    assert (H1s : forall i, itemoff c <= i < item_end c -> s1 i = D i).
    { intros i Hi. unfold s1, item_end in *. destruct (Z.leb_spec (itemoff c) i), (Z.ltb_spec i (itemoff c + alignedlen c)); try lia.
      simpl. unfold D. f_equal. lia. }
    split.
    + intros i Hi. apply Hk. unfold s1. destruct (_ && _); [unfold D; f_equal; lia|done].
    + intros x [->|Hx]%elem_of_cons i Hi; [|by apply (Hs x Hx)]. apply Hk, H1s, Hi.
Qed.

Lemma descending_skip u pre l :
  (forall x t, (x, t) ∈ targets u pre -> t = itemoff x) -> descending u (pre ++ l) -> descending (u - total pre) l.
Proof.
  revert u. induction pre as [|c pre IH]; intros u Hp Hd; simpl in *; [by rewrite Z.sub_0_r|]. destruct Hd as [_ Hd].
  rewrite <- (Hp c (u - alignedlen c)) in Hd by (by left).
  replace (u - (alignedlen c + total pre)) with (u - alignedlen c - total pre) by lia.
  apply IH; [|done]. intros x t Hx. apply Hp. by right.
Qed.

Lemma compactify_spec junk l presorted :
  pd_special p = special -> 0 <= pd_upper p <= special -> l <> [] ->
  Forall (citem_ok (pd_upper p) special) l -> separate l -> Forall points l -> total l <= special ->
  (presorted = true -> descending special l) ->
  exists p', compactify_tuples junk l p presorted = Ok p' /\ compacted l p'.
Proof.
  intros Esp Hup Hne Hok Hsep Hpts Hroom Hsort. destruct l as [|first rest]; [done|]. unfold compactify_tuples.
  assert (Hok0 : Forall (citem_ok 0 special) (first :: rest)).
  { eapply Forall_impl; [exact Hok|]. intros c (? & ? & ?). split; [done|]. split; [lia|done]. }
  rewrite Esp. destruct (skip_placed_spec rest first special Hok0 Hsep) as (pre & ptr & l & Es & El & Hpre & Hin & Hl).
  rewrite Es. assert (Hptr : 0 <= item_end ptr <= BLCKSZ).
  { rewrite Forall_forall in Hok0. destruct (Hok0 ptr Hin) as (? & ? & ?). unfold item_end in *. lia. }
  assert (Hpts1 : Forall points pre) by (rewrite El in Hpts; by apply Forall_app in Hpts as [? _]).
  destruct presorted.
  - rewrite El in *. apply (compact_from_spec None pre ptr l); try done. apply descending_skip; [done|]. by apply Hsort.
  - destruct (Z.of_nat _ <? _).
    + destruct (save_items_spec (first :: rest) junk Hok0) as (s & -> & _ & Hs). cbn [res_bind].
      pose proof (compact_from_spec (Some s) [] first (first :: rest)) as Hc.
      change (total []) with 0 in Hc. rewrite Z.sub_0_r in Hc. apply Hc; try done.
      * by intros x t ?%elem_of_nil.
      * apply Forall_cons_1 in Hok0 as [(? & ? & ?) _]. unfold item_end in *. lia.
    + assert (Hlow : pd_upper p <= special - total pre).
      { destruct (decide (pre = [])) as [->|Hpne]; [simpl; lia|].
        destruct (exists_last Hpne) as (pre' & c & ->). rewrite total_app. simpl.
        pose proof (Hpre c (special - total pre' - alignedlen c)) as Hc. rewrite targets_app in Hc.
        specialize (Hc ltac:(apply elem_of_app; right; by left)). rewrite El in Hok. rewrite Forall_forall in Hok.
        destruct (Hok c) as (_ & ? & _); [apply elem_of_app; left; apply elem_of_app; right; by left|]. lia. }
      rewrite El in Hok0, Hok, Hsep, Hroom |- *. rewrite total_app in Hroom. pose proof (total_nonneg _ _ _ Hl).
      assert (0 <= total pre) by (apply Forall_app in Hok0 as [Hok1 _]; by apply (total_nonneg _ _ _ Hok1)).
      rewrite copy_bytes_ok by lia. cbn [res_bind].
      set (s := fun i : Z => if _ && _ then _ else _). apply (compact_from_spec (Some s) pre ptr l); try done; [rewrite total_app; lia|].
      intros x Hx i Hi. rewrite Forall_forall in Hl, Hok. destruct (Hl x Hx) as (? & ? & ?).
      destruct (Hok x) as (_ & ? & _); [apply elem_of_app; by right|]. unfold s.
      destruct (Z.leb_spec (pd_upper p) i), (Z.ltb_spec i (pd_upper p + (special - total pre - pd_upper p))); simpl; try lia.
      unfold D. f_equal. lia.
Qed.
End compact.
