(* ===== verification/BufPageRepair.v ===== *)
(** PageRepairFragmentation and PageTruncateLinePointerArray: items keep their offset
    numbers and bytes, gaps and trailing free slots disappear. *)

From S2P Require Import Prelude BufPage BufPageSpec BufPageAdd BufPageCompact.
Local Open Scope Z_scope.
Local Open Scope pg_scope.

(** ** The items of a page *)

Definition compact_of (i : Z) (lp : ItemIdData) : itemIdCompactData :=
  mk_compact (i - 1) (lp_off lp) (MAXALIGN (lp_len lp)).
Definition collect (L : Z -> ItemIdData) (n : Z) : list itemIdCompactData :=
  map (fun i => compact_of i (L i)) (filter (fun i => lp_len (L i) <> 0) (seqZ 1 n)).

Lemma collect_elem L n c :
  c ∈ collect L n <-> exists i, 1 <= i <= n /\ stored (L i) /\ c = compact_of i (L i).
Proof.
  unfold collect. rewrite list_elem_of_fmap. split.
  - intros (i & -> & Hi). apply list_elem_of_filter in Hi as [Hs Hi]. apply elem_of_seqZ in Hi. exists i. split; [lia|done].
  - intros (i & Hi & Hs & ->). exists i. split; [done|]. apply list_elem_of_filter. split; [done|]. apply elem_of_seqZ. lia.
Qed.

Lemma collect_snoc L n : 0 <= n ->
  collect L (n + 1) = collect L n ++ (if decide (lp_len (L (n + 1)) <> 0) then [compact_of (n + 1) (L (n + 1))] else []).
Proof.
  intros Hn. unfold collect. rewrite seqZ_app by lia. rewrite filter_app, map_app. f_equal.
  rewrite seqZ_cons, seqZ_nil by lia. rewrite (Z.add_comm 1 n).
  rewrite filter_cons. by destruct (decide _).
Qed.

(** Line pointers without storage do not matter. *)
Lemma collect_ext L L' n :
  (forall i, 1 <= i <= n -> L i = L' i \/ (lp_len (L i) = 0 /\ lp_len (L' i) = 0)) -> collect L n = collect L' n.
Proof.
  intros H. destruct (decide (n < 0)) as [|Hn]; [unfold collect; by rewrite !seqZ_nil by lia|].
  destruct (Z_of_nat_complete n ltac:(lia)) as [m ->]. clear Hn. induction m as [|k IH]; [done|].
  rewrite Nat2Z.inj_succ, <- Z.add_1_r in *. rewrite !collect_snoc by lia. rewrite IH by (lia || (intros i Hi; apply H; lia)).
  destruct (H (Z.of_nat k + 1) ltac:(lia)) as [->|[-> ->]]; [done|]. by destruct (decide (0 <> 0)).
Qed.

Section items.
Context {bs : block_size} {Hb : block_ok bs}.
Context (p : Page).
Hypothesis Hv : valid p.

Lemma stored_item i : 1 <= i <= nline p -> stored (pd_linp p i) ->
  citem_ok (pd_upper p) (pd_special p) (compact_of i (pd_linp p i)).
Proof.
  intros Hi Hs. destruct (v_item _ Hv i Hi) as (_ & H2 & H3). destruct (H3 Hs) as (_ & H4 & _ & H5).
  pose proof (MAXALIGN_spec (lp_len (pd_linp p i))). unfold citem_ok, item_end, stored, lp_end, in_u in *. simpl. lia.
Qed.

Lemma collect_ok n : n <= nline p -> Forall (citem_ok (pd_upper p) (pd_special p)) (collect (pd_linp p) n).
Proof.
  intros Hn. apply Forall_forall. intros c Hc. apply collect_elem in Hc as (i & Hi & Hs & ->). apply stored_item; [lia|done].
Qed.

Lemma collect_points n : n <= nline p -> Forall (points p) (collect (pd_linp p) n).
Proof.
  intros Hn. apply Forall_forall. intros c Hc. apply collect_elem in Hc as (i & Hi & Hs & ->). unfold points. simpl.
  replace (i - 1 + 1) with i by lia. split; [done|]. by apply (v_item _ Hv i ltac:(lia)).
Qed.

Lemma collect_apart i j : 1 <= i <= nline p -> 1 <= j <= nline p -> i <> j -> stored (pd_linp p i) -> stored (pd_linp p j) ->
  capart (compact_of i (pd_linp p i)) (compact_of j (pd_linp p j)).
Proof.
  intros Hi Hj Hne Hsi Hsj. split; simpl; [lia|]. destruct (v_apart _ Hv i j Hi Hj Hne Hsi Hsj); [by left|by right].
Qed.

Lemma separate_app l l' : separate l -> separate l' -> (forall a b, a ∈ l -> b ∈ l' -> capart a b) -> separate (l ++ l').
Proof.
  induction l as [|c l IH]; simpl; [done|]. intros [H1 H2] H3 H4. split.
  - apply Forall_app. split; [done|]. apply Forall_forall. intros b Hb'. apply H4; [by left|done].
  - apply IH; [done|done|]. intros a b Ha Hb'. apply H4; [by right|done].
Qed.

Lemma collect_separate n : 0 <= n <= nline p -> separate (collect (pd_linp p) n).
Proof.
  intros [Hn0 Hn]. destruct (Z_of_nat_complete n ltac:(lia)) as [m ->]. clear Hn0. induction m as [|k IH]; [done|].
  rewrite Nat2Z.inj_succ, <- Z.add_1_r in *. rewrite collect_snoc by lia. apply separate_app; [apply IH; lia| |].
  - by destruct (decide _).
  - intros a b Ha Hb'. destruct (decide _) as [Hs|]; [|by apply elem_of_nil in Hb'].
    apply list_elem_of_singleton in Hb' as ->. apply collect_elem in Ha as (i & Hi & Hsi & ->). apply collect_apart; (lia || done).
Qed.

(** Disjoint items take no more than the space they lie in. *)
Lemma separate_total lo hi l : lo <= hi -> Forall (citem_ok lo hi) l -> separate l -> total l <= hi - lo.
Proof.
  intros Hlh Hok Hsep. set (cells := concat (map (fun c => seqZ (itemoff c) (alignedlen c)) l)).
  assert (Hlen : Z.of_nat (length cells) = total l).
  { unfold cells. clear Hsep cells. induction Hok as [|c l (H0 & _) _ IH]; [done|]. simpl. rewrite length_app, length_seqZ. lia. }
  assert (Hnd : NoDup cells /\ forall x, x ∈ cells -> exists c, c ∈ l /\ itemoff c <= x < item_end c).
  { unfold cells. clear Hlen cells. induction l as [|c l IH]; simpl; [split; [apply NoDup_nil_2|by intros x ?%elem_of_nil]|].
    apply Forall_cons_1 in Hok as [Hc Hok]. destruct Hsep as [Hap Hsep]. destruct (IH Hok Hsep) as [IH1 IH2]. split.
    - apply NoDup_app. split; [apply NoDup_seqZ|]. split; [|done]. intros x Hx Hx'. apply elem_of_seqZ in Hx.
      destruct (IH2 x Hx') as (c' & Hc' & Hr). rewrite Forall_forall in Hap. destruct (Hap c' Hc') as [_ Hor]. unfold item_end in *. lia.
    - intros x [Hx|Hx]%elem_of_app; [apply elem_of_seqZ in Hx; exists c; split; [by left|unfold item_end; lia]|].
      destruct (IH2 x Hx) as (c' & ? & ?). exists c'. split; [by right|done]. }
  destruct Hnd as [Hnd Hcell]. rewrite <- Hlen.
  assert (length cells <= length (seqZ lo (hi - lo)))%nat; [|rewrite length_seqZ in *; lia].
  apply submseteq_length, NoDup_submseteq; [done|]. intros x Hx. destruct (Hcell x Hx) as (c & Hc & Hr).
  rewrite Forall_forall in Hok. destruct (Hok c Hc) as (? & ? & ?). apply elem_of_seqZ. lia.
Qed.

Lemma collect_total n : 0 <= n <= nline p -> 0 <= total (collect (pd_linp p) n) <= pd_special p - pd_upper p.
Proof.
  intros Hn. split; [by eapply total_nonneg, collect_ok; lia|].
  apply separate_total; [apply Hv|apply collect_ok; lia|by apply collect_separate].
Qed.
End items.

(** ** Validity after compaction *)

Lemma targets_aligned u l x t :
  (8 | u) -> Forall (fun c => (8 | alignedlen c)) l -> (x, t) ∈ targets u l -> (8 | t).
Proof.
  revert u. induction l as [|c l IH]; intros u Hu Hl Hx; [by apply elem_of_nil in Hx|]. apply Forall_cons_1 in Hl as [Hc Hl].
  assert (8 | u - alignedlen c) by (by apply Z.divide_sub_r). apply elem_of_cons in Hx as [[= -> ->]|Hx]; [done|]. by apply (IH (u - alignedlen c)).
Qed.

Lemma targets_apart lo hi u l x y t t' :
  Forall (citem_ok lo hi) l -> (x, t) ∈ targets u l -> (y, t') ∈ targets u l -> x <> y ->
  t + alignedlen x <= t' \/ t' + alignedlen y <= t.
Proof.
  revert u. induction l as [|c l IH]; intros u Hl Hx Hy Hne; [by apply elem_of_nil in Hx|]. apply Forall_cons_1 in Hl as [_ Hl].
  simpl in Hx, Hy. apply elem_of_cons in Hx as [[= -> ->]|Hx]; apply elem_of_cons in Hy as [[= -> ->]|Hy].
  - done.
  - right. by apply (in_targets_above _ _ _ _ _ _ Hl Hy).
  - left. by apply (in_targets_above _ _ _ _ _ _ Hl Hx).
  - by apply (IH _ Hl Hx Hy).
Qed.

Lemma target_exists u l x : x ∈ l -> exists t, (x, t) ∈ targets u l.
Proof.
  intros Hx. rewrite <- (targets_fst u l) in Hx. apply list_elem_of_fmap in Hx as ([y t] & -> & Ht). by exists t.
Qed.

Section compacted.
Context {bs : block_size} {Hb : block_ok bs}.
Context (p p' : Page).
Let l := collect (pd_linp p) (nline p).
Hypothesis Hv : valid p.
Hypothesis Hc : compacted p (pd_special p) l p'.

Lemma compacted_nline : nline p' = nline p.
Proof. unfold PageGetMaxOffsetNumber. by rewrite (k_lower _ _ _ _ Hc). Qed.

(** A stored item of the new page. *)
Lemma compacted_item i : 1 <= i <= nline p -> stored (pd_linp p i) ->
  exists t, (compact_of i (pd_linp p i), t) ∈ targets (pd_special p) l
    /\ pd_linp p' i = mk_lp t (lp_flags (pd_linp p i)) (lp_len (pd_linp p i))
    /\ in_u 15 t /\ pd_special p - total l <= t /\ t + MAXALIGN (lp_len (pd_linp p i)) <= pd_special p /\ (8 | t)
    /\ (forall k, 0 <= k < MAXALIGN (lp_len (pd_linp p i)) -> pd_data p' (t + k) = pd_data p (lp_off (pd_linp p i) + k)).
Proof.
  intros Hi Hs. set (x := compact_of i (pd_linp p i)).
  assert (Hx : x ∈ l) by (apply collect_elem; by exists i). destruct (target_exists (pd_special p) l x Hx) as [t Ht].
  pose proof (collect_ok p Hv (nline p) ltac:(lia)) as Hok. fold l in Hok.
  pose proof (in_targets_above _ _ _ _ _ _ Hok Ht) as [Hlo Hhi]. simpl in Hhi.
  destruct (k_items _ _ _ _ Hc x t Ht) as [El Ed]. simpl in El, Ed. replace (i - 1 + 1) with i in El by lia.
  pose proof (collect_total p Hv (nline p) ltac:(pose proof (v_nline _ Hv); lia)) as Htot. fold l in Htot.
  pose proof (valid_bounds p Hv) as Hbd. pose proof (MAXALIGN_spec (lp_len (pd_linp p i))) as [Hal _].
  destruct (v_item _ Hv i Hi) as (_ & Hl15 & _). unfold in_u, stored in *.
  assert (Hu : in_u 15 t) by (unfold in_u; lia).
  exists t. split; [done|]. split; [rewrite El; unfold set_lp_off; by rewrite uwrap_small|]. split; [done|]. split; [done|].
  split; [done|]. split; [|done]. apply (targets_aligned (pd_special p) l x t); [apply Hv| |done].
  apply Forall_forall. intros c Hc'. apply collect_elem in Hc' as (j & _ & _ & ->). simpl. apply MAXALIGN_spec.
Qed.

Lemma compacted_bare i : 1 <= i <= nline p -> ~ stored (pd_linp p i) -> pd_linp p' i = pd_linp p i.
Proof.
  intros Hi Hs. apply (k_linp _ _ _ _ Hc). intros x Hx. apply collect_elem in Hx as (j & _ & Hsj & ->). simpl.
  intros ->. replace (j - 1 + 1) with j in Hs by lia. done.
Qed.

Lemma compacted_valid : valid p' /\ slots p' = slots p.
Proof.
  pose proof compacted_nline as En. pose proof (v_nline _ Hv) as Hn. pose proof (valid_bounds p Hv) as Hbd.
  pose proof (collect_total p Hv (nline p) ltac:(lia)) as Htot. fold l in Htot.
  pose proof (k_upper _ _ _ _ Hc) as Eu. pose proof (k_lower _ _ _ _ Hc) as El. pose proof (k_special _ _ _ _ Hc) as Es.
  assert (Hst : forall i, 1 <= i <= nline p -> stored (pd_linp p' i) -> stored (pd_linp p i)).
  { intros i Hi Hs. destruct (decide (lp_len (pd_linp p i) = 0)) as [E|]; [|done]. by rewrite compacted_bare in Hs by (done || auto). }
  assert (Hu8 : (8 | total l)).
  { unfold l. clear. unfold collect. induction (filter _ _) as [|i m IH]; simpl; [by exists 0|].
    apply Z.divide_add_r; [apply MAXALIGN_spec|done]. }
  split.
  - split; rewrite ?En, ?El, ?Eu, ?Es; try apply Hv; try lia.
    + apply Z.divide_sub_r; [apply Hv|done].
    + intros i Hi. destruct (decide (lp_len (pd_linp p i) = 0)) as [E|Hs].
      * rewrite compacted_bare by auto. destruct (v_item _ Hv i Hi) as (H1 & H2 & _). split; [done|]. split; [done|].
        intros Hs. by destruct Hs.
      * destruct (compacted_item i Hi Hs) as (t & _ & -> & H1 & H2 & H3 & H4 & _).
        destruct (v_item _ Hv i Hi) as (_ & H5 & H6). destruct (H6 Hs) as (H7 & _).
        split; [done|]. split; [done|]. intros _. by split.
    + intros i j Hi Hj Hij Hsi Hsj. apply Hst in Hsi, Hsj; [|done..].
      destruct (compacted_item i Hi Hsi) as (t & Ht & -> & _), (compacted_item j Hj Hsj) as (t' & Ht' & -> & _).
      unfold apart, lp_end. simpl.
      apply (targets_apart (pd_upper p) (pd_special p) (pd_special p) l _ _ t t' (collect_ok p Hv (nline p) ltac:(lia)) Ht Ht').
      intros E. apply (f_equal offsetindex) in E. simpl in E. lia.
  - unfold slots. rewrite En. apply map_ext_in. intros i Hi. apply list_elem_of_In, elem_of_seqZ in Hi. unfold slot_at.
    destruct (decide (lp_len (pd_linp p i) = 0)) as [E|Hs].
    + rewrite compacted_bare by (lia || (intros Hs; by apply Hs)). apply slot_kept. intros; lia.
    + destruct (compacted_item i ltac:(lia) Hs) as (t & _ & -> & _ & _ & _ & _ & Hd). apply slot_moved; simpl; [done|done|done|].
      intros k Hk. apply Hd. pose proof (MAXALIGN_spec (lp_len (pd_linp p i))). lia.
Qed.
End compacted.

(** ** The abstract operations *)

Fixpoint strip_free (l : list slot) : list slot :=
  match l with
  | [] => []
  | s :: l => match strip_free l with
              | [] => if decide (s = Free) then [] else [s]
              | l' => s :: l'
              end
  end.

Definition sum_sizes (l : list slot) : Z := foldr (fun s n => slot_size s + n) 0 l.
Definition has_free (l : list slot) : bool := existsb (fun s => bool_decide (s = Free)) l.

(** No gaps, no free slots at the end, and the hint is right. *)
Definition repair_spec (a : apage) : apage :=
  let l := strip_free (a_slots a) in
  mk_apage l (a_room a - sizeof_ItemIdData * Z.of_nat (length l) - sum_sizes l) (has_free l) (a_room a).

Lemma strip_free_take l f :
  (f <= length l)%nat -> (forall k, (f <= k < length l)%nat -> l !! k = Some Free) ->
  (f = 0%nat \/ l !! (f - 1)%nat <> Some Free) -> strip_free l = take f l.
Proof.
  revert f. induction l as [|s l IH]; intros f Hf Hfree Hlast; [by rewrite take_nil|].
  destruct f as [|f].
  - simpl. rewrite (IH 0%nat); [|lia|intros k Hk; apply (Hfree (S k)); simpl; lia|by left]. simpl.
    assert (E : (s :: l) !! 0%nat = Some Free) by (apply Hfree; simpl; lia). injection E as ->. by destruct (decide _).
  - assert (Hrest : f = 0%nat \/ l !! (f - 1)%nat <> Some Free).
    { destruct f as [|f]; [by left|right]. destruct Hlast as [?|Hl]; [lia|]. simpl in *. by rewrite Nat.sub_0_r in *. }
    simpl. rewrite (IH f); [|simpl in Hf; lia|intros k Hk; apply (Hfree (S k)); simpl; lia|done].
    destruct f as [|f]; simpl.
    + destruct (decide (s = Free)) as [->|]; [|done]. destruct Hlast as [?|Hl]; [lia|done].
    + destruct l as [|s' l]; [simpl in Hf; lia|]. done.
Qed.

Lemma sum_sizes_app l l' : sum_sizes (l ++ l') = sum_sizes l + sum_sizes l'.
Proof. induction l as [|s l IH]; simpl; [done|]. rewrite IH. lia. Qed.

Lemma sum_sizes_free l : Forall (eq Free) l -> sum_sizes l = 0.
Proof. induction 1 as [|s l <- _ IH]; simpl; [done|]. lia. Qed.

Section truncate.
Context {bs : block_size} {Hb : block_ok bs}.
Context (p : Page).
Hypothesis Hv : valid p.

(** Cutting line pointers off. *)
Lemma cut_lines f : 0 <= f <= nline p ->
  let p' := set_lower (pd_lower p - sizeof_ItemIdData * (nline p - f)) p in
  valid p' /\ nline p' = f /\ slots p' = take (Z.to_nat f) (slots p) /\ pd_lower p' = 24 + 4 * f.
Proof.
  intros Hf p'. pose proof (valid_bounds p Hv) as Hbd. pose proof (v_lines _ Hv) as El.
  assert (El' : pd_lower p' = 24 + 4 * f).
  { unfold p'. simpl. unfold sizeof_ItemIdData. rewrite uwrap_small; [lia|]. unfold in_u. lia. }
  assert (En : nline p' = f) by (apply nline_of_lower; [lia|done]).
  split; [|split; [done|split; [|done]]].
  - split; rewrite ?En, ?El'; try (apply Hv); try (simpl; lia).
    + intros i Hi. apply (v_item _ Hv). lia.
    + intros i j Hi Hj. apply (v_apart _ Hv); lia.
  - unfold slots. rewrite En. rewrite firstn_map. f_equal. replace (nline p) with (f + (nline p - f)) by lia.
    rewrite seqZ_app by lia. rewrite take_app_le by (rewrite length_seqZ; lia). by rewrite take_ge by (rewrite length_seqZ; lia).
Qed.

(** The space the items take. *)
Lemma slot_size_at i : 1 <= i <= nline p ->
  slot_size (slot_at p i) = if decide (lp_len (pd_linp p i) <> 0) then MAXALIGN (lp_len (pd_linp p i)) else 0.
Proof.
  intros Hi. destruct (v_item _ Hv i Hi) as (_ & H2 & H3). unfold slot_at, slot_of, ItemIdIsUsed, ItemIdHasStorage, stored in *.
  destruct (decide (lp_len (pd_linp p i) <> 0)) as [Hs|Hs].
  - destruct (H3 Hs) as [Hu _]. destruct (Z.eqb_spec (lp_flags (pd_linp p i)) LP_UNUSED); [done|]. simpl.
    destruct (Z.eqb_spec (lp_len (pd_linp p i)) 0); [done|]. simpl. unfold content. rewrite length_map, length_seqZ.
    unfold in_u in H2. by rewrite Z2Nat.id by lia.
  - destruct (negb _); [done|]. destruct (Z.eqb_spec (lp_len (pd_linp p i)) 0); [done|lia].
Qed.

Lemma total_sizes n : 0 <= n <= nline p ->
  total (collect (pd_linp p) n) = sum_sizes (map (slot_at p) (seqZ 1 n)).
Proof.
  intros [Hn0 Hn]. destruct (Z_of_nat_complete n ltac:(lia)) as [m ->]. clear Hn0. induction m as [|k IH]; [done|].
  rewrite seqZ_S, map_app, sum_sizes_app, <- IH by lia. rewrite Nat2Z.inj_succ, <- Z.add_1_r in *.
  rewrite collect_snoc, total_app by lia. f_equal. simpl. rewrite slot_size_at by lia. rewrite (Z.add_comm 1).
  destruct (decide _); simpl; lia.
Qed.
End truncate.

(** Compaction of all items of a page, if there are any. *)
Lemma compact_all {bs : block_size} {Hb : block_ok bs} junk q sorted : valid q ->
  let l := collect (pd_linp q) (nline q) in (sorted = true -> descending (pd_special q) l) ->
  exists p2, (if (length l =? 0)%nat then Ok (set_upper (pd_special q) q) else compactify_tuples junk l q sorted) = Ok p2
    /\ compacted q (pd_special q) l p2.
Proof.
  intros Hq l Hsort. pose proof (valid_bounds q Hq) as Hbd. pose proof (v_nline _ Hq) as Hn.
  pose proof (collect_total q Hq (nline q) ltac:(lia)) as Hsum. fold l in Hsum. destruct (Nat.eqb_spec (length l) 0) as [E0|E0].
  - apply nil_length_inv in E0. eexists. split; [done|]. rewrite E0. split; simpl; try done.
    + rewrite uwrap_small; [lia|]. unfold in_u. lia.
    + by intros x t ?%elem_of_nil.
  - apply compactify_spec; try done; try lia.
    + intros E. by rewrite E in E0.
    + apply (collect_ok q Hq). lia.
    + apply (collect_separate q Hq). lia.
    + apply (collect_points q Hq). lia.
Qed.

Lemma compacted_page {bs : block_size} {Hb : block_ok bs} q p2 : valid q ->
  compacted q (pd_special q) (collect (pd_linp q) (nline q)) p2 ->
  valid p2 /\ slots p2 = slots q /\ nline p2 = nline q /\ pd_lower p2 = pd_lower q /\ pd_special p2 = pd_special q
  /\ pd_flags p2 = pd_flags q /\ pd_upper p2 = pd_special q - sum_sizes (slots q)
  /\ (forall i, i < pd_upper p2 \/ pd_special q <= i -> pd_data p2 i = pd_data q i).
Proof.
  intros Hq Hc. destruct (compacted_valid q p2 Hq Hc) as [Hv2 Es2]. pose proof (compacted_nline q p2 Hc) as En.
  destruct Hc as [Ku Kl Ks Kf _ _ Kd]. split; [done|]. split; [done|]. split; [done|]. split; [done|]. split; [done|]. split; [done|].
  pose proof (v_nline _ Hq). rewrite (total_sizes q Hq) in Ku, Kd by lia. fold (slots q) in Ku, Kd. split; [done|].
  intros i Hi. apply Kd. lia.
Qed.

(** ** The scan *)

Lemma filter_Forall {A} (P : A -> Prop) `{forall x, Decision (P x)} (l : list A) : Forall P l -> filter P l = l.
Proof. induction 1 as [|x l Hx _ IH]; [done|]. rewrite filter_cons_True by done. by rewrite IH. Qed.

Definition lowest (x : Z) (l : list itemIdCompactData) : Z := foldl (fun _ c => itemoff c) x l.

Lemma descending_snoc x l c : descending x l -> item_end c <= lowest x l -> descending x (l ++ [c]).
Proof.
  revert x. induction l as [|y l IH]; intros x Hd Hc; simpl in *; [done|]. destruct Hd as [H1 H2]. split; [done|]. by apply IH.
Qed.

(** An item that starts below another and is disjoint from it ends below it. *)
Lemma below_lowest lo hi l c : Forall (citem_ok lo hi) l -> (forall y, y ∈ l -> capart y c) -> item_end c <= hi ->
  0 < alignedlen c -> itemoff c < lowest hi l -> item_end c <= lowest hi l.
Proof.
  intros Hok Hap Hhi Hc Hlow. destruct (decide (l = [])) as [->|Hne]; [done|].
  destruct (exists_last Hne) as (l' & y & ->). unfold lowest in *. rewrite foldl_app in *. simpl in *.
  destruct (Hap y) as [_ Hor]; [apply elem_of_app; right; by left|].
  apply Forall_app in Hok as [_ Hok]. apply Forall_cons_1 in Hok as [(? & _) _]. unfold item_end in *. lia.
Qed.

(** Setting the hint changes nothing else. *)
Definition flagged (hint : bool) (p : Page) : Page :=
  if hint then PageSetHasFreeLinePointers p else PageClearHasFreeLinePointers p.

Lemma flagged_valid `{bs : block_size} p hint : valid p -> valid (flagged hint p).
Proof. intros H. by destruct hint, H. Qed.

Lemma flagged_abs p hint :
  abs (flagged hint p) = mk_apage (slots p) (pd_upper p - pd_lower p) hint (pd_special p - SizeOfPageHeaderData).
Proof. unfold abs. destruct hint; simpl flagged; [by rewrite hint_set|by rewrite hint_clear]. Qed.

Lemma collect_length L n : 0 <= n -> Z.of_nat (length (collect L n)) <= n.
Proof.
  intros Hn. unfold collect. rewrite length_map. pose proof (length_filter (fun j => lp_len (L j) <> 0) (seqZ 1 n)).
  rewrite length_seqZ in *. lia.
Qed.

Section scan.
Context {bs : block_size} {Hb : block_ok bs}.
Context (p : Page).
Hypothesis Hv : valid p.
(** The array of items has this many entries. *)
Hypothesis Hheap : Z.of_nat (length (collect (pd_linp p) (nline p))) <= MaxHeapTuplesPerPage.

Definition unused_at (j : Z) : Prop := ItemIdIsUsed (pd_linp p j) = false.

Record scanned (i : Z) (r : repair) : Prop := {
  s_header : pd_lower (r_page r) = pd_lower p /\ pd_upper (r_page r) = pd_upper p
             /\ pd_special (r_page r) = pd_special p /\ pd_data (r_page r) = pd_data p;
  s_linp : forall k, pd_linp (r_page r) k = if decide (1 <= k < i /\ unused_at k) then ItemIdUnused else pd_linp p k;
  s_items : itemidbase r = collect (pd_linp p) (i - 1);
  s_total : totallen r = total (itemidbase r);
  s_sorted : presorted r = true ->
    last_offset r = lowest (pd_special p) (itemidbase r) /\ descending (pd_special p) (itemidbase r);
  s_unused : nunused r = Z.of_nat (length (filter unused_at (seqZ 1 (i - 1))));
  s_final : 0 <= finalusedlp r < i /\ (0 < finalusedlp r -> ~ unused_at (finalusedlp r))
            /\ (forall j, finalusedlp r < j < i -> unused_at j)
}.

Lemma other_line {A} i k (x y : A) : k <> i ->
  (if decide (1 <= k < i /\ unused_at k) then x else y) = if decide (1 <= k < i + 1 /\ unused_at k) then x else y.
Proof.
  intros Hk. destruct (decide (1 <= k < i /\ unused_at k)) as [[H1 H2]|H].
  - rewrite decide_True; [done|]. split; [lia|done].
  - rewrite decide_False; [done|]. intros [H1 H2]. apply H. split; [lia|done].
Qed.

Lemma seq_next i : 1 <= i -> seqZ 1 (i + 1 - 1) = seqZ 1 (i - 1) ++ [i].
Proof.
  intros Hi. replace (i + 1 - 1) with (i - 1 + 1) by lia. rewrite seqZ_app by lia. f_equal. rewrite seqZ_cons, seqZ_nil by lia. f_equal. lia.
Qed.

Lemma collect_next i : 1 <= i ->
  collect (pd_linp p) (i + 1 - 1) = collect (pd_linp p) (i - 1)
    ++ (if decide (lp_len (pd_linp p i) <> 0) then [compact_of i (pd_linp p i)] else []).
Proof.
  intros Hi. replace (i + 1 - 1) with (i - 1 + 1) by lia. rewrite collect_snoc by lia. by replace (i - 1 + 1) with i by lia.
Qed.

(** A line pointer in use adds nothing to the free ones. *)
Lemma used_linp i r : scanned i r -> ItemIdIsUsed (pd_linp p i) = true -> forall k,
  pd_linp (r_page r) k = if decide (1 <= k < i + 1 /\ unused_at k) then ItemIdUnused else pd_linp p k.
Proof.
  intros Hs Hu k. rewrite (s_linp _ _ Hs). destruct (decide (k = i)) as [->|]; [|by apply other_line].
  rewrite !decide_False by (unfold unused_at; intros [? ?]; lia || congruence). done.
Qed.

Lemma used_filter i : 1 <= i -> ItemIdIsUsed (pd_linp p i) = true ->
  filter unused_at (seqZ 1 (i + 1 - 1)) = filter unused_at (seqZ 1 (i - 1)).
Proof.
  intros Hi Hu. rewrite seq_next, filter_app, filter_cons_False by (done || (unfold unused_at; congruence)).
  by rewrite filter_nil, app_nil_r.
Qed.

Lemma used_final i : 0 <= i -> ItemIdIsUsed (pd_linp p i) = true ->
  0 <= i < i + 1 /\ (0 < i -> ~ unused_at i) /\ (forall j, i < j < i + 1 -> unused_at j).
Proof. intros Hi Hu. split; [lia|]. split; [unfold unused_at; congruence|]. intros j Hj. lia. Qed.

Lemma collect_grows i : 1 <= i <= nline p -> stored (pd_linp p i) ->
  (length (collect (pd_linp p) (i - 1)) < length (collect (pd_linp p) (nline p)))%nat.
Proof.
  intros Hi Hs. unfold collect. rewrite !length_map. replace (nline p) with ((i - 1) + (1 + (nline p - i))) by lia.
  rewrite seqZ_app, filter_app, length_app by lia. replace (1 + (i - 1)) with i by lia.
  rewrite (seqZ_cons i) by lia. rewrite filter_cons_True by done.
  simpl. lia.
Qed.

(** A further item keeps the list sorted if it starts below the last one. *)
Lemma collect_descending i : 1 <= i <= nline p -> stored (pd_linp p i) ->
  descending (pd_special p) (collect (pd_linp p) (i - 1)) ->
  lp_off (pd_linp p i) < lowest (pd_special p) (collect (pd_linp p) (i - 1)) ->
  descending (pd_special p) (collect (pd_linp p) (i + 1 - 1)).
Proof.
  intros Hi Hs Hd Hlt. rewrite collect_next by lia. rewrite decide_True by done. destruct (stored_item p Hv i Hi Hs) as (H1 & _ & H3).
  apply descending_snoc; [done|]. eapply below_lowest; [apply (collect_ok p Hv); lia| |done|done|done].
  intros y Hy. apply collect_elem in Hy as (j & Hj & Hsj & ->). apply (collect_apart p Hv); (lia || done).
Qed.

Lemma scan_stored i r : 1 <= i <= nline p -> scanned i r -> stored (pd_linp p i) -> ItemIdIsUsed (pd_linp p i) = true ->
  let sorted := lp_off (pd_linp p i) <? last_offset r in
  scanned (i + 1) (mk_repair (r_page r) (itemidbase r ++ [compact_of i (pd_linp p i)])
    (if sorted then lp_off (pd_linp p i) else last_offset r) (presorted r && sorted)
    (nunused r) (totallen r + MAXALIGN (lp_len (pd_linp p i))) i).
Proof.
  intros Hi Hs Hst Hu sorted. pose proof Hs as [Hd _ Hit Htot Hsort Hun _].
  assert (Eit : itemidbase r ++ [compact_of i (pd_linp p i)] = collect (pd_linp p) (i + 1 - 1))
    by (rewrite collect_next, Hit, decide_True by (done || lia); done).
  split; simpl; try done.
  - by apply used_linp.
  - rewrite total_app, Htot. simpl. lia.
  - unfold sorted. rewrite andb_true_iff, Z.ltb_lt. intros [Hp Hlt]. destruct (Hsort Hp) as [Elast Hdesc].
    destruct (Z.ltb_spec (lp_off (pd_linp p i)) (last_offset r)); [|lia]. split; [unfold lowest; by rewrite foldl_app|].
    rewrite Eit. rewrite Elast, Hit in Hlt. rewrite Hit in Hdesc. by apply collect_descending.
  - by rewrite Hun, used_filter by (done || lia).
  - apply used_final; (done || lia).
Qed.

Lemma scan_bare i r : 1 <= i <= nline p -> scanned i r -> lp_len (pd_linp p i) = 0 -> ItemIdIsUsed (pd_linp p i) = true ->
  scanned (i + 1) (mk_repair (r_page r) (itemidbase r) (last_offset r) (presorted r) (nunused r) (totallen r) i).
Proof.
  intros Hi Hs E0 Hu. pose proof Hs as [Hd _ Hit Htot Hsort Hun _]. split; simpl; try done.
  - by apply used_linp.
  - by rewrite collect_next, E0, Hit, app_nil_r by lia.
  - by rewrite Hun, used_filter by (done || lia).
  - apply used_final; (done || lia).
Qed.

Lemma scan_unused i r : 1 <= i <= nline p -> scanned i r -> ItemIdIsUsed (pd_linp p i) = false ->
  scanned (i + 1) (mk_repair (set_item i ItemIdUnused (r_page r)) (itemidbase r) (last_offset r) (presorted r)
    (nunused r + 1) (totallen r) (finalusedlp r)).
Proof.
  intros Hi [Hd Hl Hit Htot Hsort Hun (Hf1 & Hf2 & Hf3)] Hu. destruct (v_item _ Hv i Hi) as (_ & _ & Hst).
  assert (E0 : lp_len (pd_linp p i) = 0).
  { destruct (decide (lp_len (pd_linp p i) = 0)) as [|Hne]; [done|]. destruct (Hst Hne) as [Hf _].
    unfold ItemIdIsUsed in Hu. apply negb_false_iff, Z.eqb_eq in Hu. congruence. }
  split; simpl; try done.
  - intros k. destruct (Z.eqb_spec k i) as [->|Hne]; [|rewrite Hl; by apply other_line].
    rewrite decide_True; [done|]. split; [lia|done].
  - by rewrite collect_next, E0, Hit, app_nil_r by lia.
  - rewrite Hun, seq_next, filter_app, filter_cons_True by (done || lia). rewrite length_app. simpl. lia.
  - split; [lia|]. split; [done|]. intros j Hj. destruct (decide (j = i)) as [->|]; [done|]. apply Hf3. lia.
Qed.

Lemma repair_scan_step i r : 1 <= i <= nline p -> scanned i r -> exists r', repair_item i (Ok r) = Ok r' /\ scanned (i + 1) r'.
Proof.
  intros Hi Hs. pose proof (s_header _ _ Hs) as (_ & Hd2 & Hd3 & _). simpl repair_item. unfold PageGetItemId.
  assert (El : pd_linp (r_page r) i = pd_linp p i) by (rewrite (s_linp _ _ Hs), decide_False by lia; done).
  rewrite El, Hd2, Hd3. destruct (ItemIdIsUsed (pd_linp p i)) eqn:Eu; [|eexists; split; [done|by apply scan_unused]].
  unfold ItemIdHasStorage. destruct (Z.eqb_spec (lp_len (pd_linp p i)) 0) as [E0|E0]; simpl; [eexists; split; [done|by apply scan_bare]|].
  destruct (stored_item p Hv i Hi E0) as (H1 & H2 & H3). unfold item_end in H3. simpl in H1, H2, H3.
  pose proof (collect_grows i Hi E0) as Hcount. rewrite <- (s_items _ _ Hs) in Hcount.
  destruct (Z.leb_spec MaxHeapTuplesPerPage (Z.of_nat (length (itemidbase r)))); [lia|].
  destruct (Z.ltb_spec (lp_off (pd_linp p i)) (pd_upper p)); [lia|].
  destruct (Z.leb_spec (pd_special p) (lp_off (pd_linp p i))); [lia|]. eexists. split; [done|]. by apply scan_stored.
Qed.

Lemma repair_scan : exists r,
  for_offsets (nline p) repair_item (Ok (mk_repair p [] (pd_special p) true 0 0 InvalidOffsetNumber)) = Ok r
  /\ scanned (nline p + 1) r.
Proof.
  pose proof (v_nline _ Hv) as Hn.
  apply (for_offsets_ind (fun i r => exists r', r = Ok r' /\ scanned i r')); [done| |].
  - eexists. split; [done|]. split; simpl; try done.
    + intros k. rewrite decide_False; [done|]. intros [? _]. lia.
    + split; [done|]. split; [done|]. unfold InvalidOffsetNumber. intros j Hj. lia.
  - intros i r Hi (r' & -> & Hs). by apply repair_scan_step.
Qed.

(** The free slots that are left. *)
Lemma count_free f : 0 <= f <= nline p -> (forall j, f < j <= nline p -> unused_at j) ->
  Z.of_nat (length (filter unused_at (seqZ 1 (nline p)))) - (nline p - f)
  = Z.of_nat (length (filter unused_at (seqZ 1 f))).
Proof.
  intros Hf Hu. replace (nline p) with (f + (nline p - f)) at 1 by lia. rewrite seqZ_app, filter_app, length_app by lia.
  assert (Hall : filter unused_at (seqZ (1 + f) (nline p - f)) = seqZ (1 + f) (nline p - f)).
  { apply filter_Forall. apply Forall_forall. intros j Hj. apply elem_of_seqZ in Hj. apply Hu. lia. }
  rewrite Hall, length_seqZ. lia.
Qed.

Lemma has_free_count f : 0 <= f ->
  (0 <? Z.of_nat (length (filter unused_at (seqZ 1 f)))) = has_free (map (slot_at p) (seqZ 1 f)).
Proof.
  intros Hf. apply eq_true_iff_eq. unfold has_free. rewrite Z.ltb_lt, existsb_exists. split.
  - intros Hlt. destruct (filter unused_at (seqZ 1 f)) as [|j l] eqn:E; [simpl in Hlt; lia|].
    assert (Hj : j ∈ filter unused_at (seqZ 1 f)) by (rewrite E; by left). apply list_elem_of_filter in Hj as [Hu Hj].
    exists Free. split; [|by apply bool_decide_eq_true]. apply in_map_iff. exists j. split; [|by apply list_elem_of_In].
    by apply slot_free_iff.
  - intros (s & Hs & E%bool_decide_eq_true). apply in_map_iff in Hs as (j & Es & Hj). rewrite E in Es. apply slot_free_iff in Es.
    apply list_elem_of_In in Hj. assert (j ∈ filter unused_at (seqZ 1 f)) as Hin by (by apply list_elem_of_filter).
    destruct (filter unused_at (seqZ 1 f)); [by apply elem_of_nil in Hin|simpl; lia].
Qed.

(** The page after the scan is as good as before. *)
Lemma scanned_valid r : scanned (nline p + 1) r ->
  valid (r_page r) /\ slots (r_page r) = slots p /\ nline (r_page r) = nline p
  /\ itemidbase r = collect (pd_linp (r_page r)) (nline (r_page r)).
Proof.
  intros [(Hd1 & Hd2 & Hd3 & Hd4) Hl Hit _ _ _ _]. set (q := r_page r) in *.
  assert (En : nline q = nline p) by (unfold PageGetMaxOffsetNumber; by rewrite Hd1).
  assert (Hcase : forall i, 1 <= i <= nline p -> pd_linp q i = pd_linp p i
            \/ pd_linp q i = ItemIdUnused /\ unused_at i /\ lp_len (pd_linp p i) = 0).
  { intros i Hi. rewrite Hl. case_decide as Hd; [right|by left]. destruct Hd as [_ Hd]. split; [done|]. split; [done|].
    destruct (decide (lp_len (pd_linp p i) = 0)) as [|Hne]; [done|]. destruct (v_item _ Hv i Hi) as (_ & _ & H3).
    destruct (H3 Hne) as [Hu _]. unfold unused_at, ItemIdIsUsed in Hd. apply negb_false_iff, Z.eqb_eq in Hd. congruence. }
  assert (Hst : forall i, 1 <= i <= nline p -> stored (pd_linp q i) -> pd_linp q i = pd_linp p i).
  { intros i Hi Hs. destruct (Hcase i Hi) as [|(E & _)]; [done|]. rewrite E in Hs. by destruct Hs. }
  split; [|split; [|split; [done|]]].
  - split; rewrite ?En, ?Hd1, ?Hd2, ?Hd3; try apply Hv.
    + intros i Hi. destruct (Hcase i Hi) as [->|(-> & _)]; [by apply (v_item _ Hv)|]. split; [done|]. split; [done|]. intros H. by destruct H.
    + intros i j Hi Hj Hij Hsi Hsj. pose proof (Hst i Hi Hsi) as Ei. pose proof (Hst j Hj Hsj) as Ej.
      rewrite Ei in Hsi |- *. rewrite Ej in Hsj |- *. by apply (v_apart _ Hv).
  - unfold slots. rewrite En. apply map_ext_in. intros i Hi. apply list_elem_of_In, elem_of_seqZ in Hi. unfold slot_at. rewrite Hd4.
    destruct (Hcase i ltac:(lia)) as [->|(-> & Hu & _)]; [done|]. symmetry. by apply slot_free_iff.
  - rewrite En, Hit. replace (nline p + 1 - 1) with (nline p) by lia. apply collect_ext. intros i Hi.
    destruct (Hcase i Hi) as [->|(-> & _ & ->)]; [by left|by right].
Qed.

(** The last line pointer in use is where the trailing free slots begin. *)
Lemma final_strips r : scanned (nline p + 1) r ->
  let f := finalusedlp r in
  0 <= f <= nline p /\ strip_free (slots p) = take (Z.to_nat f) (slots p)
  /\ sum_sizes (slots p) = sum_sizes (strip_free (slots p))
  /\ (0 <? nunused r - (nline p - f)) = has_free (strip_free (slots p)).
Proof.
  intros [_ _ _ _ _ Hun (Hf1 & Hf2 & Hf3)] f. fold f in Hf1, Hf2, Hf3. pose proof (v_nline _ Hv) as Hn. pose proof (length_slots p Hn).
  assert (Estrip : strip_free (slots p) = take (Z.to_nat f) (slots p)).
  { apply strip_free_take; [lia| |].
    - intros k Hk. replace k with (Z.to_nat (Z.of_nat k + 1 - 1)) by lia. rewrite slots_get by lia. f_equal.
      apply slot_free_iff, Hf3. lia.
    - destruct (decide (f = 0)) as [->|]; [by left|right]. replace (Z.to_nat f - 1)%nat with (Z.to_nat (f - 1)) by lia.
      rewrite slots_get by lia. intros [= E]. apply slot_free_iff in E. by apply Hf2; [lia|]. }
  split; [lia|]. split; [done|]. rewrite Estrip. split.
  - rewrite <- (take_drop (Z.to_nat f) (slots p)) at 1. rewrite sum_sizes_app, (sum_sizes_free (drop _ _)); [lia|].
    apply Forall_lookup_2. intros k s Hs. rewrite lookup_drop, slots_lookup in Hs. case_decide; [|done]. injection Hs as <-.
    symmetry. apply slot_free_iff, Hf3. lia.
  - rewrite Hun. replace (nline p + 1 - 1) with (nline p) by lia. rewrite count_free by (lia || (intros j Hj; apply Hf3; lia)).
    rewrite has_free_count by lia. f_equal. unfold slots. rewrite firstn_map. f_equal.
    replace (nline p) with (f + (nline p - f)) by lia. rewrite seqZ_app by lia.
    rewrite take_app_le by (rewrite length_seqZ; lia). by rewrite take_ge by (rewrite length_seqZ; lia).
Qed.

(** Giving up the trailing line pointers. *)
Lemma repair_cut p2 f count : valid p2 -> slots p2 = slots p -> nline p2 = nline p -> 0 <= f <= nline p ->
  exists p4, (if negb (f =? nline p) then (set_lower (pd_lower p2 - sizeof_ItemIdData * (nline p - f)) p2, count - (nline p - f))
              else (p2, count)) = (p4, count - (nline p - f))
    /\ valid p4 /\ slots p4 = take (Z.to_nat f) (slots p) /\ pd_lower p4 = 24 + 4 * f /\ pd_upper p4 = pd_upper p2
    /\ pd_special p4 = pd_special p2 /\ pd_data p4 = pd_data p2.
Proof.
  intros Hv2 Es2 En2 Hf. pose proof (length_slots p ltac:(lia)). destruct (Z.eqb_spec f (nline p)) as [Ef|Ef]; simpl.
  - exists p2. split; [f_equal; lia|]. split; [done|]. rewrite Es2, take_ge by lia.
    split; [done|]. split; [rewrite (v_lines _ Hv2); lia|done].
  - destruct (cut_lines p2 Hv2 f ltac:(lia)) as (Hv3 & En3 & Es3 & El3). rewrite En2, Es2 in *.
    eexists. split; [done|]. split; [done|]. split; [done|]. by split.
Qed.

Lemma repair_refines junk :
  exists p', PageRepairFragmentation junk p = Ok p' /\ valid p' /\ abs p' = repair_spec (abs p)
    /\ (forall i, i < pd_upper p' \/ pd_special p <= i -> pd_data p' i = pd_data p i).
Proof.
  unfold PageRepairFragmentation. rewrite valid_header by done. destruct repair_scan as (r & -> & Hr). cbn [res_bind].
  destruct (scanned_valid r Hr) as (Hq & Esq & Enq & Eit). destruct (final_strips r Hr) as (Hf & Estrip & Esum & Ecount).
  pose proof Hr as [(Hd1 & Hd2 & Hd3 & Hd4) _ _ Htot Hsort _ _]. set (q := r_page r) in *. pose proof (v_nline _ Hv) as Hn.
  destruct (compact_all junk q (presorted r) Hq) as (p2 & E2 & Hc).
  { rewrite <- Eit, Hd3. intros Hp. by destruct (Hsort Hp). }
  destruct (compacted_page q p2 Hq Hc) as (Hv2 & Es2 & En2 & El2 & Esp2 & _ & Eu2 & Hdata). rewrite <- Eit in E2.
  pose proof (collect_total q Hq (nline q) ltac:(lia)) as Hsum. rewrite <- Eit in Hsum. pose proof (v_free _ Hq).
  destruct (Z.ltb_spec (pd_special q - pd_lower q) (totallen r)); [lia|]. rewrite E2. cbn [res_bind].
  rewrite Esq in Es2, Eu2. rewrite Enq in En2. rewrite Hd3 in Esp2, Eu2, Hdata. rewrite Hd4 in Hdata.
  destruct (repair_cut p2 (finalusedlp r) (nunused r) Hv2 Es2 En2 Hf) as (p4 & -> & Hv4 & Es4 & El4 & Eu4 & Esp4 & Ed4).
  rewrite Ecount. set (hint := has_free _). exists (flagged hint p4). split; [done|]. split; [by apply flagged_valid|].
  split; [|intros i Hi; destruct hint; simpl; rewrite Ed4; apply Hdata; simpl in Hi; lia].
  rewrite flagged_abs. unfold repair_spec, abs. simpl a_slots. simpl a_room. fold hint. rewrite Es4, <- Estrip. f_equal.
  - rewrite Eu4, Eu2, El4, Esum, Estrip. pose proof (length_slots p Hn). unfold sizeof_ItemIdData, SizeOfPageHeaderData.
    rewrite length_take. lia.
  - by rewrite Esp4, Esp2.
Qed.
End scan.

(** ** PageTruncateLinePointerArray *)

(** One slot is always left. *)
Definition cut_free (l : list slot) : list slot :=
  match l with [] => [] | s :: l => s :: strip_free l end.

Definition truncate_spec (a : apage) : apage :=
  let l := cut_free (a_slots a) in
  mk_apage l (a_free a + sizeof_ItemIdData * Z.of_nat (length (a_slots a) - length l)) (has_free l) (a_room a).

Lemma strip_free_snoc l s : strip_free (l ++ [s]) = if decide (s = Free) then strip_free l else l ++ [s].
Proof.
  induction l as [|x l IH]; simpl; [by destruct (decide (s = Free))|]. rewrite IH. destruct (decide (s = Free)); [done|].
  destruct (l ++ [s]) eqn:E; [by destruct l|done].
Qed.

Lemma has_free_snoc l s : has_free (l ++ [s]) = has_free l || bool_decide (s = Free).
Proof. unfold has_free. rewrite existsb_app. simpl. by rewrite orb_false_r. Qed.

Section truncation.
Context {bs : block_size} {Hb : block_ok bs}.
Context (p : Page).

Let first (m : nat) : list slot := map (slot_at p) (seqZ 1 (Z.of_nat m)).

Lemma first_S m : first (S m) = first m ++ [slot_at p (Z.of_nat (S m))].
Proof. unfold first. rewrite seqZ_S, map_app. simpl. do 3 f_equal. lia. Qed.

Lemma unused_free i : negb (ItemIdIsUsed (pd_linp p i)) = bool_decide (slot_at p i = Free).
Proof.
  unfold slot_at. apply eq_true_iff_eq. rewrite bool_decide_eq_true, slot_free_iff, negb_true_iff. done.
Qed.

(** The rest of the scan looks for a free slot. *)
Lemma truncate_rest m c :
  after (for_down_ret m (truncate_item p) (true, false, c)) id = (true, has_free (first m), c).
Proof.
  induction m as [|m IH]; [done|]. rewrite first_S, has_free_snoc. cbn [for_down_ret truncate_item negb andb].
  unfold PageGetItemId. rewrite unused_free. destruct (bool_decide _); [by rewrite orb_true_r|]. by rewrite orb_false_r.
Qed.

Lemma truncate_scan m c : exists d,
  after (for_down_ret m (truncate_item p) (false, false, c)) id
  = (d, has_free (cut_free (first m)), c + Z.of_nat (length (first m) - length (cut_free (first m)))).
Proof.
  revert c. induction m as [|m IH]; intros c; [exists false; simpl; by rewrite Z.add_0_r|].
  rewrite first_S. cbn [for_down_ret truncate_item negb andb]. unfold PageGetItemId. rewrite unused_free.
  set (s := slot_at p (Z.of_nat (S m))). destruct m as [|m].
  - simpl. destruct (bool_decide (s = Free)); exists false; simpl; by rewrite Z.add_0_r.
  - destruct (Z.ltb_spec FirstOffsetNumber (Z.of_nat (S (S m)))) as [_|H]; [|unfold FirstOffsetNumber in H; lia].
    assert (Ec : cut_free (first (S m) ++ [s]) = if decide (s = Free) then cut_free (first (S m)) else first (S m) ++ [s]).
    { unfold first. rewrite seqZ_cons by lia. simpl. rewrite strip_free_snoc. by destruct (decide _). }
    assert (Hle : (length (cut_free (first (S m))) <= length (first (S m)))%nat).
    { destruct (first (S m)) as [|x l]; [done|]. simpl. clear. induction l as [|y l IH]; simpl; [done|].
      destruct (strip_free l); [destruct (decide _); simpl; lia|simpl in *; lia]. }
    rewrite Ec. case_bool_decide as E; [rewrite decide_True by done|rewrite decide_False by done].
    + destruct (IH (c + 1)) as [d ->]. exists d. rewrite length_app. change (length [s]) with 1%nat. f_equal. lia.
    + exists true. rewrite truncate_rest. rewrite Nat.sub_diag, Z.add_0_r, has_free_snoc.
      rewrite bool_decide_eq_false_2 by done. by rewrite orb_false_r.
Qed.

Hypothesis Hv : valid p.

Lemma truncate_refines :
  let p' := PageTruncateLinePointerArray p in
  valid p' /\ abs p' = truncate_spec (abs p) /\ pd_data p' = pd_data p.
Proof.
  pose proof (v_nline _ Hv) as Hn. unfold PageTruncateLinePointerArray.
  destruct (truncate_scan (Z.to_nat (nline p)) 0) as [d ->]. unfold first. rewrite Z2Nat.id by done. fold (slots p).
  set (l := cut_free (slots p)). set (k := (length (slots p) - length l)%nat). rewrite Z.add_0_l.
  assert (El : l = take (length l) (slots p) /\ (length l <= length (slots p))%nat).
  { unfold l. destruct (slots p) as [|s m]; [done|]. simpl.
    assert (Hs : exists m', m = strip_free m ++ m').
    { clear. induction m as [|x m [m' IH]]; [by exists []|]. simpl. destruct (strip_free m) as [|y m'']; simpl in *.
      - destruct (decide _); [by exists (x :: m)|exists m; done].
      - exists m'. by rewrite IH at 1. }
    destruct Hs as [m' E]. set (z := strip_free m) in *. clearbody z. subst m. rewrite take_app_length, length_app. split; [done|lia]. }
  destruct El as [El Hle]. pose proof (length_slots p Hn).
  assert (Hcut : exists q, (if 0 <? Z.of_nat k then set_lower (pd_lower p - sizeof_ItemIdData * Z.of_nat k) p else p) = q
     /\ valid q /\ slots q = l /\ pd_upper q = pd_upper p /\ pd_lower q = pd_lower p - sizeof_ItemIdData * Z.of_nat k
     /\ pd_special q = pd_special p /\ pd_data q = pd_data p).
  { eexists. split; [done|]. destruct (Z.ltb_spec 0 (Z.of_nat k)).
    - destruct (cut_lines p Hv (Z.of_nat (length l)) ltac:(lia)) as (Hq & _ & Eq & Eql).
      replace (nline p - Z.of_nat (length l)) with (Z.of_nat k) in * by lia. rewrite Nat2Z.id, <- El in Eq.
      split; [done|]. split; [done|]. split; [done|]. split; [|done]. rewrite Eql, (v_lines _ Hv). unfold sizeof_ItemIdData. lia.
    - split; [done|]. split; [rewrite El, take_ge; [done|lia]|]. split; [done|]. split; [lia|done]. }
  destruct Hcut as (q & -> & Hq & Esq & Euq & Elq & Espq & Edq).
  split; [by apply flagged_valid|]. split; [|by destruct (has_free l)].
  rewrite (flagged_abs q (has_free l) : abs (if has_free l then _ else _) = _). unfold truncate_spec, abs. simpl a_slots. simpl a_free.
  simpl a_room. fold l. fold k. rewrite Esq, Euq, Elq, Espq. f_equal. lia.
Qed.
End truncation.
