(* ===== verification/BufPageIndex.v ===== *)
(** Deleting and replacing items on index pages. *)

From S2P Require Import Prelude BufPage BufPageSpec BufPageAdd BufPageCompact BufPageRepair.
Local Open Scope Z_scope.
Local Open Scope pg_scope.

Lemma adjust_items_spec n delta test p : 0 <= n ->
  let q := adjust_items n delta test p in
  (pd_lower q = pd_lower p /\ pd_upper q = pd_upper p /\ pd_special q = pd_special p /\ pd_flags q = pd_flags p
   /\ pd_data q = pd_data p)
  /\ forall i, pd_linp q i = if (1 <=? i) && (i <=? n) && test (pd_linp p i)
                            then set_lp_off (lp_off (pd_linp p i) + delta) (pd_linp p i) else pd_linp p i.
Proof.
  intros Hn. unfold adjust_items.
  pose (P := fun k (q : Page) =>
    (pd_lower q = pd_lower p /\ pd_upper q = pd_upper p /\ pd_special q = pd_special p /\ pd_flags q = pd_flags p
     /\ pd_data q = pd_data p)
    /\ forall i, pd_linp q i = if (1 <=? i) && (i <? k) && test (pd_linp p i)
                              then set_lp_off (lp_off (pd_linp p i) + delta) (pd_linp p i) else pd_linp p i).
  match goal with |- context [for_offsets _ ?b _] => pose proof (for_offsets_ind P n b p Hn) as HI end.
  destruct HI as [H1 H2].
  - split; [done|]. intros i. destruct (Z.leb_spec 1 i), (Z.ltb_spec i 1); simpl; (done || lia).
  - intros k q Hk [Hh Hl]. unfold PageGetItemId.
    assert (Ek : pd_linp q k = pd_linp p k) by (rewrite Hl, Z.ltb_irrefl, andb_false_r; done). rewrite Ek.
    destruct (test (pd_linp p k)) eqn:Et; (split; [done|]); intros i.
    + simpl. destruct (Z.eqb_spec i k) as [->|Hne].
      * destruct (Z.leb_spec 1 k), (Z.ltb_spec k (k + 1)); try lia. simpl. by rewrite Et.
      * rewrite Hl. destruct (Z.ltb_spec i k), (Z.ltb_spec i (k + 1)); (done || lia).
    + rewrite Hl. destruct (decide (i = k)) as [->|Hne]; [by rewrite Et, !andb_false_r|].
      destruct (Z.ltb_spec i k), (Z.ltb_spec i (k + 1)); (done || lia).
  - split; [done|]. intros i. rewrite H2. destruct (Z.ltb_spec i (n + 1)), (Z.leb_spec i n); (done || lia).
Qed.

(** The same loop, left out for an empty page. *)
Lemma adjusted n delta test p : 0 <= n -> pd_lower p = 24 + 4 * n ->
  let q := if PageIsEmpty p then p else adjust_items n delta test p in
  (pd_lower q = pd_lower p /\ pd_upper q = pd_upper p /\ pd_special q = pd_special p /\ pd_flags q = pd_flags p
   /\ pd_data q = pd_data p)
  /\ forall i, 1 <= i <= n -> pd_linp q i = if test (pd_linp p i) then set_lp_off (lp_off (pd_linp p i) + delta) (pd_linp p i) else pd_linp p i.
Proof.
  intros Hn El. unfold PageIsEmpty, SizeOfPageHeaderData. destruct (Z.leb_spec (pd_lower p) 24); [split; [done|]; intros i Hi; lia|].
  destruct (adjust_items_spec n delta test p Hn) as [Hh Hadj]. split; [done|]. intros i Hi. rewrite Hadj.
  destruct (Z.leb_spec 1 i), (Z.leb_spec i n); (done || lia).
Qed.

(** ** Moving the items below one item

    The items in front of item [m] move by [delta], which closes the item's place or
    changes its size. *)
Section shift.
Context {bs : block_size} {Hb : block_ok bs}.
Context (p : Page) (m delta : Z).
Let tup := pd_linp p m.
Let offset := lp_off tup.
Let al := MAXALIGN (lp_len tup).
Hypothesis Hv : valid p.
Hypothesis Hm : 1 <= m <= nline p.
Hypothesis Hst : stored tup.
Hypothesis Hd8 : (8 | delta).
Hypothesis Hdelta : delta <= al.
Hypothesis Hroom : 24 <= pd_upper p + delta.

Definition moved (lp : ItemIdData) : ItemIdData :=
  if ItemIdHasStorage lp && (lp_off lp <=? offset) then mk_lp (lp_off lp + delta) (lp_flags lp) (lp_len lp) else lp.

(** The bytes after the move; those of the item itself may be anything. *)
Definition shifted (d : Z -> Z) : Prop :=
  forall i, (pd_upper p + delta <= i < offset + delta -> d i = pd_data p (i - delta))
            /\ (offset + al <= i -> d i = pd_data p i).

Lemma tup_ok : in_u 15 offset /\ in_u 15 (lp_len tup) /\ lp_flags tup <> LP_UNUSED /\ pd_upper p <= offset /\ (8 | offset)
  /\ offset + al <= pd_special p /\ 0 < al.
Proof.
  destruct (v_item _ Hv m Hm) as (H1 & H2 & H3). destruct (H3 Hst) as (H4 & H5 & H6 & H7). unfold lp_end in H7.
  pose proof (MAXALIGN_spec (lp_len tup)). unfold stored, in_u in *. fold tup in H1, H2, H3, H4, H5, H6, H7. unfold al, offset.
  repeat split; (done || lia).
Qed.

(** Another item lies in front or behind. *)
Lemma shift_sides j : 1 <= j <= nline p -> j <> m -> stored (pd_linp p j) ->
  (lp_off (pd_linp p j) <= offset /\ lp_end (pd_linp p j) <= offset)
  \/ (offset < lp_off (pd_linp p j) /\ offset + al <= lp_off (pd_linp p j)).
Proof.
  intros Hj Hne Hs. destruct (v_apart _ Hv j m Hj Hm Hne Hs Hst) as [H|H]; fold tup offset al in H.
  - left. pose proof (v_item _ Hv j Hj) as (_ & H2 & _). pose proof (MAXALIGN_spec (lp_len (pd_linp p j))).
    unfold lp_end, in_u in *. fold offset in H. lia.
  - right. unfold lp_end in H. fold offset al in H. pose proof tup_ok. lia.
Qed.

Lemma moved_cases j : 1 <= j <= nline p -> j <> m -> stored (pd_linp p j) ->
  (moved (pd_linp p j) = mk_lp (lp_off (pd_linp p j) + delta) (lp_flags (pd_linp p j)) (lp_len (pd_linp p j))
     /\ lp_end (pd_linp p j) <= offset)
  \/ (moved (pd_linp p j) = pd_linp p j /\ offset + al <= lp_off (pd_linp p j)).
Proof.
  intros Hj Hne Hs. unfold moved, ItemIdHasStorage. unfold stored in Hs. destruct (Z.eqb_spec (lp_len (pd_linp p j)) 0); [done|]. simpl.
  destruct (shift_sides j Hj Hne Hs) as [[H1 H2]|[H1 H2]]; destruct (Z.leb_spec (lp_off (pd_linp p j)) offset); (lia || auto).
Qed.

Lemma moved_ok j : 1 <= j <= nline p -> j <> m -> lp_ok (pd_upper p + delta) (pd_special p) (moved (pd_linp p j)).
Proof.
  intros Hj Hne. destruct (v_item _ Hv j Hj) as (H1 & H2 & H3). pose proof tup_ok as (T1 & T2 & T3 & T4 & T5 & T6 & T7).
  pose proof (valid_bounds p Hv) as Hbd.
  destruct (decide (lp_len (pd_linp p j) = 0)) as [E|Hs].
  - unfold moved, ItemIdHasStorage. rewrite E. simpl. split; [done|]. split; [done|]. intros Hs. by destruct Hs.
  - destruct (H3 Hs) as (H4 & H5 & H6 & H7). pose proof (MAXALIGN_spec (lp_len (pd_linp p j))).
    destruct (moved_cases j Hj Hne Hs) as [[-> Hend]|[-> Habove]]; unfold lp_ok, lp_end, in_u in *; simpl.
    + split; [lia|]. split; [done|]. intros _. split; [done|]. split; [lia|]. split; [by apply Z.divide_add_r|lia].
    + split; [done|]. split; [done|]. intros _. split; [done|]. split; [lia|]. split; [done|lia].
Qed.

Lemma moved_apart i j : 1 <= i <= nline p -> 1 <= j <= nline p -> i <> m -> j <> m -> i <> j ->
  stored (pd_linp p i) -> stored (pd_linp p j) -> apart (moved (pd_linp p i)) (moved (pd_linp p j)).
Proof.
  intros Hi Hj Him Hjm Hij Hsi Hsj. pose proof (v_apart _ Hv i j Hi Hj Hij Hsi Hsj) as Hap. pose proof tup_ok as (_ & _ & _ & _ & _ & _ & T7).
  destruct (moved_cases i Hi Him Hsi) as [[-> Hei]|[-> Hei]], (moved_cases j Hj Hjm Hsj) as [[-> Hej]|[-> Hej]];
    unfold apart, lp_end in *; simpl; lia.
Qed.

Lemma moved_slot d j : shifted d -> 1 <= j <= nline p -> j <> m -> slot_of d (moved (pd_linp p j)) = slot_at p j.
Proof.
  intros Hd Hj Hne. unfold slot_at. destruct (v_item _ Hv j Hj) as (_ & H2 & H3).
  destruct (decide (lp_len (pd_linp p j) = 0)) as [E|Hs].
  - unfold moved, ItemIdHasStorage. rewrite E. simpl. apply slot_kept. intros; lia.
  - destruct (H3 Hs) as (_ & H5 & _). pose proof (MAXALIGN_spec (lp_len (pd_linp p j))).
    destruct (moved_cases j Hj Hne Hs) as [[-> Hend]|[-> Habove]]; unfold lp_end in *; apply slot_moved; try done.
    + simpl. intros k Hk. destruct (Hd (lp_off (pd_linp p j) + delta + k)) as [-> _]; [f_equal; lia|lia].
    + intros k Hk. destruct (Hd (lp_off (pd_linp p j) + k)) as [_ ->]; [done|lia].
Qed.

(** What remains of the item: nothing, or a new item in the place that is left. *)
Definition hole_ok (lp : ItemIdData) : Prop :=
  in_u 15 (lp_off lp) /\ in_u 15 (lp_len lp) /\
  (stored lp -> lp_flags lp <> LP_UNUSED /\ offset + delta <= lp_off lp /\ (8 | lp_off lp) /\ lp_end lp <= offset + al).

(** A page made of moved items, [o] telling which, and of [r], which is new. *)
Lemma shift_valid p' n r o :
  0 <= n -> pd_lower p' = 24 + 4 * n -> pd_upper p' = pd_upper p + delta -> pd_special p' = pd_special p ->
  shifted (pd_data p') -> 24 + 4 * n <= pd_upper p + delta ->
  (forall i, 1 <= i <= n -> i <> r -> 1 <= o i <= nline p /\ o i <> m /\ pd_linp p' i = moved (pd_linp p (o i))) ->
  (forall i j, 1 <= i <= n -> 1 <= j <= n -> i <> r -> j <> r -> i <> j -> o i <> o j) ->
  (1 <= r <= n -> hole_ok (pd_linp p' r)) ->
  valid p' /\ nline p' = n /\ forall i, 1 <= i <= n -> i <> r -> slot_at p' i = slot_at p (o i).
Proof.
  intros Hn0 El Eu Es Hd Hfit Ho Hinj Hr. assert (En : nline p' = n) by (apply nline_of_lower; done).
  pose proof tup_ok as (T1 & T2 & T3 & T4 & T5 & T6 & T7).
  assert (Hms : forall i, 1 <= i <= n -> i <> r -> stored (pd_linp p' i) -> stored (pd_linp p (o i))).
  { intros i Hi Hne Hs. destruct (Ho i Hi Hne) as (_ & _ & E). rewrite E in Hs. unfold moved in Hs. destruct (_ && _); done. }
  split; [|split; [done|]].
  - split; rewrite ?En, ?El, ?Eu, ?Es; try apply Hv; try lia.
    + apply Z.divide_add_r; [apply Hv|done].
    + intros i Hi. destruct (decide (i = r)) as [->|Hne].
      * destruct (Hr Hi) as (H1 & H2 & H3). split; [done|]. split; [done|]. intros Hs. destruct (H3 Hs) as (? & ? & ? & ?).
        split; [done|]. split; [lia|]. split; [done|lia].
      * destruct (Ho i Hi Hne) as (H1 & H2 & ->). by apply moved_ok.
    + assert (Hside : forall i, 1 <= i <= n -> i <> r -> 1 <= r <= n -> stored (pd_linp p' i) -> stored (pd_linp p' r) ->
                apart (pd_linp p' i) (pd_linp p' r)).
      { intros i Hi Hne Hrn Hs Hsr. pose proof (Hms i Hi Hne Hs) as Hso. destruct (Ho i Hi Hne) as (H1 & H2 & E). rewrite E.
        destruct (Hr Hrn) as (_ & _ & H3). destruct (H3 Hsr) as (_ & H4 & _ & H5).
        destruct (moved_cases (o i) H1 H2 Hso) as [[-> Hend]|[-> Habove]]; unfold apart, lp_end in *; simpl; lia. }
      intros i j Hi Hj Hij Hsi Hsj. destruct (decide (i = r)) as [->|Hir].
      { destruct (Hside j Hj ltac:(lia) Hi Hsj Hsi); [right|left]; done. }
      destruct (decide (j = r)) as [->|Hjr]; [by apply Hside|].
      pose proof (Hms i Hi Hir Hsi). pose proof (Hms j Hj Hjr Hsj).
      destruct (Ho i Hi Hir) as (H1 & H2 & ->), (Ho j Hj Hjr) as (H3 & H4 & ->). by apply moved_apart; auto.
  - intros i Hi Hne. destruct (Ho i Hi Hne) as (H1 & H2 & E). unfold slot_at at 1. rewrite E. by apply moved_slot.
Qed.
End shift.

(** ** Deletion *)

(** The abstract operations: the slot disappears, becomes free, or gets new bytes. *)
Definition remove_slot (k : nat) (l : list slot) : list slot := take k l ++ drop (S k) l.

Definition size_at (a : apage) (k : nat) : Z := from_option slot_size 0 (a_slots a !! k).

Definition delete_spec (off : Z) (a : apage) : apage :=
  let k := Z.to_nat (off - 1) in
  mk_apage (remove_slot k (a_slots a)) (a_free a + sizeof_ItemIdData + size_at a k) (a_hint a) (a_room a).

(** The last line pointer is given up, any other one kept as a free slot. *)
Definition free_spec (off : Z) (a : apage) : apage :=
  let k := Z.to_nat (off - 1) in
  if off =? Z.of_nat (length (a_slots a))
  then mk_apage (take k (a_slots a)) (a_free a + sizeof_ItemIdData + size_at a k) (a_hint a) (a_room a)
  else mk_apage (<[k := Free]> (a_slots a)) (a_free a + size_at a k) (a_hint a) (a_room a).

Definition overwrite_spec (off : Z) (item : list Z) (a : apage) : bool * apage :=
  let k := Z.to_nat (off - 1) in
  let need := MAXALIGN (Z.of_nat (length item)) in
  if size_at a k + a_free a <? need then (false, a)
  else (true, mk_apage (<[k := match a_slots a !! k with Some (Stored flags _) => Stored flags item | _ => Free end]> (a_slots a))
                (a_free a + size_at a k - need) (a_hint a) (a_room a)).

Lemma remove_slot_lookup k l i : (k < length l)%nat -> remove_slot k l !! i = if (i <? k)%nat then l !! i else l !! S i.
Proof.
  intros Hk. unfold remove_slot. assert (E : length (take k l) = k) by (rewrite length_take; lia).
  destruct (Nat.ltb_spec i k); [by rewrite lookup_app_l, lookup_take_lt by lia|].
  rewrite lookup_app_r by lia. rewrite E, lookup_drop. f_equal. lia.
Qed.

Lemma length_remove_slot k l : (k < length l)%nat -> length (remove_slot k l) = (length l - 1)%nat.
Proof. intros Hk. unfold remove_slot. rewrite length_app, length_take, length_drop. lia. Qed.

Section delete.
Context {bs : block_size} {Hb : block_ok bs}.
Context (p : Page) (m : Z).
Let tup := pd_linp p m.
Let offset := lp_off tup.
Let al := MAXALIGN (lp_len tup).
Hypothesis Hv : valid p.
Hypothesis Hm : 1 <= m <= nline p.
Hypothesis Hst : stored tup.

Lemma stored_not_bad : bad_item p offset (lp_len tup) = false.
Proof.
  pose proof (tup_ok p m Hv Hm Hst) as (_ & _ & _ & H1 & H2 & H3 & _). fold tup offset al in H1, H2, H3.
  pose proof (MAXALIGN_spec (lp_len tup)). unfold al in *. unfold bad_item. rewrite (proj2 (aligned_test _) H2).
  destruct (Z.ltb_spec offset (pd_upper p)), (Z.ltb_spec (pd_special p) (offset + lp_len tup)); (done || lia).
Qed.

Lemma size_at_tup : size_at (abs p) (Z.to_nat (m - 1)) = al.
Proof.
  unfold size_at. simpl. rewrite slots_get by lia. simpl. rewrite (slot_size_at p Hv m Hm). by rewrite decide_True.
Qed.

(** The items in front of the deleted one move up. *)
Lemma close_gap q : pd_upper q = pd_upper p -> pd_data q = pd_data p -> exists d,
  (if pd_upper q <? offset then move_data q (pd_upper q + al) (pd_upper q) (offset - pd_upper q) else Ok q) = Ok (set_data d q)
  /\ shifted p m al d /\ forall i, i < pd_upper p \/ pd_special p <= i -> d i = pd_data p i.
Proof.
  intros Eu Ed. pose proof (tup_ok p m Hv Hm Hst) as (_ & _ & _ & H1 & H2 & H3 & H4). fold tup offset al in H1, H2, H3, H4.
  pose proof (valid_bounds p Hv). rewrite Eu. destruct (Z.ltb_spec (pd_upper p) offset).
  - unfold move_data. rewrite Ed, copy_bytes_ok by lia. simpl. eexists. split; [done|].
    split; [|intros i Hi; destruct (Z.leb_spec (pd_upper p + al) i), (Z.ltb_spec i (pd_upper p + al + (offset - pd_upper p)));
             simpl; (done || lia)].
    intros i. fold tup offset al. destruct (Z.leb_spec (pd_upper p + al) i), (Z.ltb_spec i (pd_upper p + al + (offset - pd_upper p))); simpl;
      (split; intros; try lia; try done). f_equal. lia.
  - exists (pd_data q). split; [by destruct q|]. rewrite Ed. split; [|done]. intros i. fold tup offset al. split; [lia|done].
Qed.

(** A moved line pointer as the code computes it. *)
Lemma set_moved j delta : 1 <= j <= nline p -> j <> m -> (8 | delta) -> delta <= al -> 24 <= pd_upper p + delta ->
  (if ItemIdHasStorage (pd_linp p j) && (lp_off (pd_linp p j) <=? offset)
   then set_lp_off (lp_off (pd_linp p j) + delta) (pd_linp p j) else pd_linp p j) = moved p m delta (pd_linp p j).
Proof.
  intros Hj Hne H8 Hd Hr. pose proof (moved_ok p m delta Hv Hm Hst H8 Hd Hr j Hj Hne) as (H1 & _). unfold moved in H1 |- *.
  fold tup offset in H1 |- *. destruct (_ && _); [|done]. unfold set_lp_off. by rewrite uwrap_small.
Qed.

(** The slot without its item. *)
Lemma freed_line : let n' := if m <? nline p then nline p else nline p - 1 in exists q,
  (if m <? nline p then (set_item m ItemIdUnused p, nline p) else (set_lower (pd_lower p - sizeof_ItemIdData) p, nline p - 1)) = (q, n')
  /\ pd_lower q = 24 + 4 * n' /\ pd_upper q = pd_upper p /\ pd_special q = pd_special p /\ pd_flags q = pd_flags p
  /\ pd_data q = pd_data p /\ forall i, 1 <= i <= n' -> pd_linp q i = if i =? m then ItemIdUnused else pd_linp p i.
Proof.
  pose proof (v_lines _ Hv) as El. pose proof (valid_bounds p Hv) as Hbd.
  destruct (Z.ltb_spec m (nline p)); eexists; (split; [done|]); simpl; [by repeat split|].
  rewrite uwrap_small by (unfold in_u, sizeof_ItemIdData; lia). unfold sizeof_ItemIdData. split; [lia|].
  repeat split; try done. intros i Hi. destruct (Z.eqb_spec i m); [lia|done].
Qed.

Lemma free_slots p3 : let n := nline p in let n' := if m <? n then n else n - 1 in
  nline p3 = n' -> (forall i, 1 <= i <= n' -> i <> m -> slot_at p3 i = slot_at p i) -> (m < n -> slot_at p3 m = Free) ->
  slots p3 = if m =? n then take (Z.to_nat (m - 1)) (slots p) else <[Z.to_nat (m - 1) := Free]> (slots p).
Proof.
  intros n n' En Hslots Hfree. pose proof (length_slots p ltac:(lia)) as Hlen. fold n in Hlen, Hm. unfold n' in *.
  destruct (Z.ltb_spec m n), (Z.eqb_spec m n); try lia; apply slots_eq; rewrite ?En; try lia.
  - rewrite length_insert. lia.
  - intros i Hi. destruct (decide (i = m)) as [->|Hne].
    + rewrite list_lookup_insert_eq by lia. by rewrite Hfree.
    + rewrite list_lookup_insert_ne by lia. rewrite Hslots by lia. by apply slots_get.
  - rewrite length_take. lia.
  - intros i Hi. rewrite lookup_take_lt by lia. rewrite Hslots by lia. apply slots_get. fold n. lia.
Qed.

(** Deletion that keeps the offset numbers of the other items. *)
Lemma no_compact_refines :
  exists p', PageIndexTupleDeleteNoCompact p m = Ok p' /\ valid p' /\ abs p' = free_spec m (abs p)
    /\ (forall i, i < pd_upper p \/ pd_special p <= i -> pd_data p' i = pd_data p i).
Proof.
  unfold PageIndexTupleDeleteNoCompact. rewrite valid_header by done.
  destruct (Z.leb_spec m 0), (Z.ltb_spec (nline p) m); simpl; try lia. unfold PageGetItemId. fold tup offset.
  rewrite stored_not_bad. fold al. destruct freed_line as (q & -> & Hlq & Huq & Hsq & Hfq & Hdq & Hpq).
  destruct (close_gap q Huq Hdq) as (d & -> & Hd & Hfr). cbn [res_bind].
  pose proof (v_lines _ Hv) as El. pose proof (valid_bounds p Hv) as Hbd. set (n := nline p) in *.
  set (n' := if m <? n then n else n - 1) in *. assert (Hn' : n - 1 <= n' <= n) by (unfold n'; destruct (m <? n); lia).
  pose proof (tup_ok p m Hv Hm Hst) as (_ & _ & _ & H1 & H2 & H3 & H4). fold tup offset al in H1, H2, H3, H4.
  set (p2 := set_upper _ _). assert (Hu2 : pd_upper p2 = pd_upper p + al) by (unfold p2; simpl; rewrite Huq, uwrap_small; [done|unfold in_u; lia]).
  destruct (adjusted n' al (fun ii => ItemIdHasStorage ii && (lp_off ii <=? offset)) p2 ltac:(lia) Hlq) as [(Hl3 & Hu3 & Hs3 & Hf3 & Hd3) Hlp3].
  set (p3 := if PageIsEmpty p2 then _ else _) in *. change (pd_linp p2) with (pd_linp q) in Hlp3.
  assert (Hother : forall i, 1 <= i <= n' -> i <> m -> pd_linp p3 i = moved p m al (pd_linp p i)).
  { intros i Hi Hne. rewrite Hlp3, Hpq by done. destruct (Z.eqb_spec i m); [done|]. apply set_moved; try done; [fold n; lia|apply MAXALIGN_spec|lia]. }
  assert (Hfree : m < n -> pd_linp p3 m = ItemIdUnused).
  { intros Hlt. unfold n' in *. destruct (Z.ltb_spec m n); [|lia]. rewrite Hlp3, Hpq by lia. by rewrite Z.eqb_refl. }
  exists p3. split; [done|].
  destruct (shift_valid p m al Hv Hm Hst ltac:(apply MAXALIGN_spec) ltac:(done) ltac:(lia) p3 n' m id) as (Hv3 & En3 & Hslots);
    rewrite ?Hl3, ?Hu3, ?Hu2, ?Hs3, ?Hd3; try done; try lia.
  - intros i Hi Hne. split; [unfold id; fold n; lia|]. split; [done|]. by apply Hother.
  - intros Hr. rewrite Hfree by (unfold n' in Hr; destruct (Z.ltb_spec m n); lia). split; [done|]. split; [done|]. intros Hs. by destruct Hs.
  - split; [done|]. split; [|exact Hfr].
    assert (Es := free_slots p3 En3 Hslots ltac:(intros Hlt; unfold slot_at; by rewrite Hfree)). fold n in Es.
    pose proof (length_slots p ltac:(lia)) as Hlen. fold n in Hlen. unfold free_spec. rewrite size_at_tup. simpl a_slots. simpl a_free. simpl a_hint. simpl a_room.
    rewrite Hlen. unfold abs at 1, PageHasFreeLinePointers. rewrite Es, Hl3, Hu3, Hu2, Hs3, Hf3. unfold sizeof_ItemIdData.
    change (pd_lower p2) with (pd_lower q). rewrite Hlq. unfold n'. change (pd_special p2) with (pd_special q). change (pd_flags p2) with (pd_flags q). rewrite Hsq, Hfq.
    destruct (Z.ltb_spec m n), (Z.eqb_spec m n); try lia; f_equal; lia.
Qed.

Hypothesis Hall : forall i, 1 <= i <= nline p -> stored (pd_linp p i).

(** Where a slot was before the deletion. *)
Definition before (i : Z) : Z := if i <? m then i else i + 1.

Lemma before_range i : 1 <= i <= nline p - 1 -> 1 <= before i <= nline p /\ before i <> m.
Proof. unfold before. destruct (Z.ltb_spec i m); lia. Qed.

(** The line pointers behind the deleted one move down. *)
Lemma closed_lines : let n := nline p in
  let nbytes := pd_lower p - (SizeOfPageHeaderData + sizeof_ItemIdData * m) in
  let q := if 0 <? nbytes
           then set_linp (fun i => if (m <=? i) && (i <? m + nbytes / sizeof_ItemIdData) then pd_linp p (i + 1) else pd_linp p i) p
           else p in
  pd_upper q = pd_upper p /\ pd_data q = pd_data p /\ pd_lower q = pd_lower p /\ pd_special q = pd_special p
  /\ pd_flags q = pd_flags p /\ forall i, 1 <= i < n -> pd_linp q i = pd_linp p (before i).
Proof.
  intros n. cbv zeta. pose proof (v_lines _ Hv) as El. fold n in El.
  assert (Eb : pd_lower p - (SizeOfPageHeaderData + sizeof_ItemIdData * m) = (n - m) * 4)
    by (unfold SizeOfPageHeaderData, sizeof_ItemIdData; lia).
  rewrite Eb. change sizeof_ItemIdData with 4. rewrite Z.div_mul by lia. unfold before.
  destruct (Z.ltb_spec 0 ((n - m) * 4)); repeat split; try done; intros i Hi; simpl.
  - destruct (Z.leb_spec m i), (Z.ltb_spec i (m + (n - m))), (Z.ltb_spec i m); simpl; (done || lia).
  - destruct (Z.ltb_spec i m); [done|lia].
Qed.

Lemma removed_slots p3 : nline p3 = nline p - 1 -> (forall i, 1 <= i <= nline p - 1 -> slot_at p3 i = slot_at p (before i)) ->
  slots p3 = remove_slot (Z.to_nat (m - 1)) (slots p).
Proof.
  intros En Hslots. pose proof (length_slots p ltac:(lia)) as Hlen.
  apply slots_eq; rewrite ?En; [lia|rewrite length_remove_slot by lia; lia|]. intros i Hi.
  rewrite remove_slot_lookup by lia. rewrite Hslots by lia. unfold before.
  destruct (Z.ltb_spec i m), (Nat.ltb_spec (Z.to_nat (i - 1)) (Z.to_nat (m - 1))); try lia.
  - apply slots_get. lia.
  - replace (S (Z.to_nat (i - 1))) with (Z.to_nat (i + 1 - 1)) by lia. apply slots_get. lia.
Qed.

Lemma tuple_delete_refines :
  exists p', PageIndexTupleDelete p m = Ok p' /\ valid p' /\ abs p' = delete_spec m (abs p)
    /\ (forall i, i < pd_upper p \/ pd_special p <= i -> pd_data p' i = pd_data p i).
Proof.
  unfold PageIndexTupleDelete. rewrite valid_header by done.
  destruct (Z.leb_spec m 0), (Z.ltb_spec (nline p) m); simpl; try lia. unfold PageGetItemId. fold tup offset.
  rewrite stored_not_bad. fold al. destruct closed_lines as (Eu & Ed & Elq & Es & Ef & Elp). set (q := if 0 <? _ then _ else p) in *.
  destruct (close_gap q Eu Ed) as (d & -> & Hd & Hfr). cbn [res_bind].
  pose proof (v_lines _ Hv) as El. pose proof (valid_bounds p Hv) as Hbd. set (n := nline p) in *.
  pose proof (tup_ok p m Hv Hm Hst) as (_ & _ & _ & H1 & H2 & H3 & H4). fold tup offset al in H1, H2, H3, H4. set (p2 := set_lower _ _).
  assert (Hp2 : pd_lower p2 = 24 + 4 * (n - 1) /\ pd_upper p2 = pd_upper p + al /\ pd_special p2 = pd_special p
                /\ pd_flags p2 = pd_flags p /\ pd_data p2 = d /\ pd_linp p2 = pd_linp q).
  { unfold p2. simpl. unfold sizeof_ItemIdData. rewrite !uwrap_small by (rewrite ?Elq, ?Eu; unfold in_u; lia). repeat split; (done || lia). }
  destruct Hp2 as (Hl2 & Hu2 & Hs2 & Hf2 & Hd2 & Hp2).
  destruct (adjusted (n - 1) al (fun ii => lp_off ii <=? offset) p2 ltac:(lia) Hl2) as [(Hl3 & Hu3 & Hs3 & Hf3 & Hd3) Hlp3].
  set (p3 := if PageIsEmpty p2 then _ else _) in *. rewrite Hp2 in Hlp3.
  assert (Hmv : forall i, 1 <= i <= n - 1 -> pd_linp p3 i = moved p m al (pd_linp p (before i))).
  { intros i Hi. rewrite Hlp3, Elp by lia. destruct (before_range i Hi) as [Hj Hjm]. rewrite <- set_moved by (done || apply MAXALIGN_spec || lia).
    pose proof (Hall _ Hj) as Hsj. unfold ItemIdHasStorage, stored in *. destruct (Z.eqb_spec (lp_len (pd_linp p (before i))) 0); done. }
  exists p3. split; [done|].
  destruct (shift_valid p m al Hv Hm Hst ltac:(apply MAXALIGN_spec) ltac:(done) ltac:(lia) p3 (n - 1) 0 before) as (Hv3 & En3 & Hslots);
    rewrite ?Hl3, ?Hl2, ?Hu3, ?Hu2, ?Hs3, ?Hs2, ?Hd3, ?Hd2; try done; try lia.
  - intros i Hi Hne. destruct (before_range i Hi). auto.
  - intros i j Hi Hj _ _ Hij. unfold before. destruct (Z.ltb_spec i m), (Z.ltb_spec j m); lia.
  - split; [done|]. split; [|exact Hfr]. unfold abs at 1, delete_spec, PageHasFreeLinePointers. rewrite size_at_tup.
    simpl a_slots. simpl a_free. simpl a_hint. simpl a_room. rewrite (removed_slots p3 En3) by (intros i Hi; apply Hslots; lia).
    rewrite Hl3, Hl2, Hu3, Hu2, Hs3, Hs2, Hf3, Hf2. unfold sizeof_ItemIdData. f_equal. lia.
Qed.
End delete.

(** ** Replacement *)

Section overwrite.
Context {bs : block_size} {Hb : block_ok bs}.
Context (p : Page) (m : Z) (newtup : list Z).
Let tup := pd_linp p m.
Let offset := lp_off tup.
Let al := MAXALIGN (lp_len tup).
Let newsize := Z.of_nat (length newtup).
Let delta := al - MAXALIGN newsize.
Hypothesis Hv : valid p.
Hypothesis Hm : 1 <= m <= nline p.
Hypothesis Hst : stored tup.
Hypothesis Hnew : 0 < newsize.
Hypothesis Hfit : MAXALIGN newsize <= al + (pd_upper p - pd_lower p).

Lemma delta_facts : (8 | delta) /\ delta <= al /\ 24 <= pd_lower p <= pd_upper p + delta /\ newsize <= MAXALIGN newsize /\ 0 < al
  /\ offset + al <= pd_special p /\ pd_upper p <= offset /\ pd_special p <= BLCKSZ /\ BLCKSZ <= 2 ^ 15 /\ (8 | offset).
Proof.
  pose proof (MAXALIGN_spec newsize) as [H1 H2]. pose proof (valid_bounds p Hv).
  pose proof (tup_ok p m Hv Hm Hst) as (_ & _ & _ & H3 & H4 & H5 & H6). fold tup offset al in H3, H4, H5, H6.
  split; [apply Z.divide_sub_r; [apply MAXALIGN_spec|done]|]. unfold delta. repeat split; (done || lia).
Qed.

(** The relocation of the items in front. *)
Lemma relocate : exists q,
  (if negb (delta =? 0) then
     p1 <-! move_data p (pd_upper p + delta) (pd_upper p) (offset - pd_upper p) ;;
     let p1 := set_upper (pd_upper p1 + delta) p1 in
     Ok (adjust_items (nline p) delta (fun ii => ItemIdHasStorage ii && (lp_off ii <=? offset)) p1)
   else Ok p) = Ok q
  /\ pd_lower q = pd_lower p /\ pd_upper q = pd_upper p + delta /\ pd_special q = pd_special p /\ pd_flags q = pd_flags p
  /\ shifted p m delta (pd_data q) /\ lp_flags (pd_linp q m) = lp_flags tup
  /\ (forall i, i < pd_lower p \/ pd_special p <= i -> pd_data q i = pd_data p i)
  /\ forall i, 1 <= i <= nline p -> i <> m -> pd_linp q i = moved p m delta (pd_linp p i).
Proof.
  pose proof delta_facts as (D1 & D2 & D3 & D4 & D5 & D6 & D7 & D8 & D9 & _). destruct (Z.eqb_spec delta 0) as [E0|E0]; simpl.
  - exists p. split; [done|]. split; [done|]. split; [lia|]. split; [done|]. split; [done|]. rewrite E0. split; [|split; [done|split; [done|]]].
    + intros i. split; intros; [f_equal; lia|done].
    + intros i Hi Hne. unfold moved. destruct (_ && _); [|done]. rewrite Z.add_0_r. by destruct (pd_linp p i).
  - unfold move_data. pose proof (v_free _ Hv). rewrite copy_bytes_ok by lia. simpl. eexists. split; [done|]. set (d := fun i : Z => if _ && _ then _ else _).
    set (p1 := set_upper _ _). pose proof (v_nline _ Hv) as Hn.
    destruct (adjust_items_spec (nline p) delta (fun ii => ItemIdHasStorage ii && (lp_off ii <=? offset)) p1 Hn) as [(-> & -> & -> & -> & ->) Hadj].
    split; [done|]. split; [unfold p1; simpl; rewrite uwrap_small; [done|unfold in_u; lia]|]. split; [done|]. split; [done|].
    change (pd_data p1) with d. split; [|split; [|split]].
    + intros i. fold tup offset al. unfold d.
      destruct (Z.leb_spec (pd_upper p + delta) i), (Z.ltb_spec i (pd_upper p + delta + (offset - pd_upper p))); simpl;
        (split; intros; try lia; try done). f_equal. lia.
    + rewrite Hadj. change (pd_linp p1 m) with tup. destruct (_ && _); done.
    + intros i Hi. unfold d. destruct (Z.leb_spec (pd_upper p + delta) i), (Z.ltb_spec i (pd_upper p + delta + (offset - pd_upper p)));
        simpl; (done || lia).
    + intros i Hi Hne. rewrite Hadj. change (pd_linp p1 i) with (pd_linp p i).
      destruct (Z.leb_spec 1 i), (Z.leb_spec i (nline p)); try lia. simpl andb. apply (set_moved p m Hv Hm Hst); (done || lia).
Qed.

Lemma overwrite_valid : exists p', PageIndexTupleOverwrite p m newtup = Ok (true, p') /\ valid p'
  /\ slots p' = <[Z.to_nat (m - 1) := Stored (lp_flags tup) newtup]> (slots p)
  /\ pd_upper p' = pd_upper p + delta /\ pd_lower p' = pd_lower p /\ pd_special p' = pd_special p /\ pd_flags p' = pd_flags p
  /\ (forall i, i < pd_lower p \/ pd_special p <= i -> pd_data p' i = pd_data p i).
Proof.
  unfold PageIndexTupleOverwrite. rewrite valid_header by done. pose proof delta_facts as (D1 & D2 & D3 & D4 & D5 & D6 & D7 & D8 & D9 & D10).
  destruct (Z.leb_spec m 0), (Z.ltb_spec (nline p) m); simpl orb; cbv iota; try lia. cbv zeta. change (PageGetItemId p m) with tup. fold offset.
  pose proof (stored_not_bad p m Hv Hm Hst) as Hbad. fold tup offset in Hbad. rewrite Hbad. fold newsize al.
  destruct (Z.ltb_spec (al + (pd_upper p - pd_lower p)) (MAXALIGN newsize)); [lia|]. fold delta.
  destruct relocate as (q & Eq & Hl & Hu & Hs & Hf & Hd & Hfl & Hfr & Hlp). cbv zeta in Eq. rewrite Eq. cbn [res_bind].
  unfold PageGetItemId. rewrite Hfl.
  assert (Hoff : in_u 15 (offset + delta)) by (unfold in_u; lia). assert (Hns : in_u 15 newsize) by (unfold in_u, delta in *; lia).
  rewrite !uwrap_small by done. cbn [lp_off]. set (lp := mk_lp (offset + delta) (lp_flags tup) newsize).
  unfold put_item. cbn [pd_data set_item set_linp]. rewrite copy_bytes_ok by (fold newsize; unfold delta in *; lia). fold newsize. cbn [res_bind].
  set (d := fun i : Z => if _ && _ then _ else _). eexists. split; [done|].
  assert (Hd1 : forall k, 0 <= k < newsize -> d (offset + delta + k) = rd newtup (Z.to_nat k)).
  { intros k Hk. unfold d. destruct (Z.leb_spec (offset + delta) (offset + delta + k)), (Z.ltb_spec (offset + delta + k) (offset + delta + newsize)); try lia.
    simpl. do 2 f_equal. lia. }
  assert (Hd2 : forall i, i < offset + delta \/ offset + al <= i -> d i = pd_data q i).
  { intros i Hi. unfold d. destruct (Z.leb_spec (offset + delta) i), (Z.ltb_spec i (offset + delta + newsize)); simpl; try done; unfold delta in *; lia. }
  clearbody d. set (p' := set_data d _).
  assert (Hlp' : forall i, pd_linp p' i = if i =? m then lp else pd_linp q i) by done.
  assert (Hslot : slot_at p' m = Stored (lp_flags tup) newtup).
  { unfold slot_at. rewrite Hlp', Z.eqb_refl. unfold slot_of, ItemIdIsUsed, ItemIdHasStorage, lp. simpl.
    pose proof (tup_ok p m Hv Hm Hst) as (_ & _ & Hfl' & _). fold tup in Hfl'.
    destruct (Z.eqb_spec (lp_flags tup) LP_UNUSED); [done|]. destruct (Z.eqb_spec newsize 0); [lia|]. simpl. f_equal. by apply content_item. }
  pose proof (v_nline _ Hv) as Hn. pose proof (v_lines _ Hv) as El.
  destruct (shift_valid p m delta Hv Hm Hst D1 D2 ltac:(lia) p' (nline p) m id) as (Hv' & En' & Hslots); try done.
  - unfold p'. simpl. by rewrite Hl.
  - intros i. fold tup offset al. change (pd_data p') with d. destruct (Hd i) as [Ha Hc]. fold tup offset al in Ha, Hc.
    split; intros; rewrite Hd2 by lia; auto.
  - lia.
  - intros i Hi Hne. split; [done|]. split; [done|]. rewrite Hlp'. destruct (Z.eqb_spec i m); [done|]. by apply Hlp.
  - intros _. rewrite Hlp', Z.eqb_refl. unfold lp, hole_ok, lp_end. simpl. fold tup offset al. split; [done|]. split; [done|]. intros _.
    split; [by apply (tup_ok p m Hv Hm Hst)|]. split; [lia|]. split; [by apply Z.divide_add_r|unfold delta in *; lia].
  - split; [done|]. split; [|split; [done|split; [done|split; [done|split; [done|]]]]].
    + pose proof (length_slots p Hn). apply slots_eq; rewrite ?En'; [done|rewrite length_insert; lia|]. intros i Hi.
      destruct (decide (i = m)) as [->|Hne]; [rewrite list_lookup_insert_eq by lia; by rewrite Hslot|].
      rewrite list_lookup_insert_ne by lia. rewrite Hslots by done. by apply slots_get.
    + intros i Hi. change (pd_data p') with d. rewrite Hd2 by lia. by apply Hfr.
Qed.
End overwrite.

Lemma overwrite_refines {bs : block_size} {Hb : block_ok bs} p m newtup :
  valid p -> 1 <= m <= nline p -> stored (pd_linp p m) -> (0 < length newtup)%nat ->
  exists p', PageIndexTupleOverwrite p m newtup = Ok (fst (overwrite_spec m newtup (abs p)), p') /\ valid p'
    /\ abs p' = snd (overwrite_spec m newtup (abs p))
    /\ (forall i, i < pd_lower p \/ pd_special p <= i -> pd_data p' i = pd_data p i).
Proof.
  intros Hv Hm Hst Hnew. unfold overwrite_spec. rewrite size_at_tup by done. simpl a_free.
  destruct (Z.ltb_spec (MAXALIGN (lp_len (pd_linp p m)) + (pd_upper p - pd_lower p)) (MAXALIGN (Z.of_nat (length newtup)))) as [Hfull|Hfit].
  - exists p. simpl. split; [|done]. unfold PageIndexTupleOverwrite. rewrite valid_header by done.
    destruct (Z.leb_spec m 0), (Z.ltb_spec (nline p) m); simpl orb; cbv iota; try lia. cbv zeta. unfold PageGetItemId at 1 2.
    rewrite (stored_not_bad p m Hv Hm Hst). unfold PageGetItemId.
    destruct (Z.ltb_spec (MAXALIGN (lp_len (pd_linp p m)) + (pd_upper p - pd_lower p)) (MAXALIGN (Z.of_nat (length newtup)))); [done|lia].
  - destruct (overwrite_valid p m newtup Hv Hm Hst ltac:(lia) Hfit) as (p' & E & Hv' & Es & Eu & El & Esp & Ef & Hfr).
    exists p'. split; [done|]. split; [done|]. split; [|done]. simpl. unfold abs at 1, PageHasFreeLinePointers.
    rewrite Es, Eu, El, Esp, Ef. rewrite slots_get by done. unfold slot_at, slot_of, ItemIdIsUsed, ItemIdHasStorage.
    destruct (tup_ok p m Hv Hm Hst) as (_ & _ & Hf & _). destruct (Z.eqb_spec (lp_flags (pd_linp p m)) LP_UNUSED); [done|].
    unfold stored in Hst. destruct (Z.eqb_spec (lp_len (pd_linp p m)) 0); [done|]. simpl. f_equal. lia.
Qed.
