(* ===== verification/BufPageMulti.v ===== *)
(** PageIndexMultiDelete: both of its ways of deleting many items leave the items
    that were not named, in their order. *)

From S2P Require Import Prelude BufPage BufPageSpec BufPageAdd BufPageCompact BufPageRepair BufPageIndex.
Local Open Scope Z_scope.
Local Open Scope pg_scope.

(** ** What is kept *)

Fixpoint kept_from (i : Z) (itemnos : list Z) (l : list slot) : list slot :=
  match l with
  | [] => []
  | s :: l => if decide (i ∈ itemnos) then kept_from (i + 1) itemnos l else s :: kept_from (i + 1) itemnos l
  end.
Definition kept (itemnos : list Z) (l : list slot) : list slot := kept_from 1 itemnos l.

(** Items in number order, all on the page. *)
Definition in_order (itemnos : list Z) (n : Z) : Prop := StronglySorted Z.lt itemnos /\ Forall (fun x => 1 <= x <= n) itemnos.

#[global] Instance in_order_dec itemnos n : Decision (in_order itemnos n).
Proof. unfold in_order. apply _. Qed.

(** An index page: every line pointer has an item, and there are no gaps. *)
Definition tight (a : apage) : Prop :=
  a_free a = a_room a - sizeof_ItemIdData * Z.of_nat (length (a_slots a)) - sum_sizes (a_slots a).

Definition multi_spec (itemnos : list Z) (a : apage) : apage :=
  let l := kept itemnos (a_slots a) in
  mk_apage l (a_room a - sizeof_ItemIdData * Z.of_nat (length l) - sum_sizes l) (a_hint a) (a_room a).

Lemma kept_from_app i its a b :
  kept_from i its (a ++ b) = kept_from i its a ++ kept_from (i + Z.of_nat (length a)) its b.
Proof.
  revert i. induction a as [|s a IH]; intros i; simpl; [by rewrite Z.add_0_r|].
  rewrite IH. replace (i + 1 + Z.of_nat (length a)) with (i + Z.of_nat (S (length a))) by lia. by destruct (decide _).
Qed.

Lemma kept_from_all i its l : (forall x, x ∈ its -> x < i) -> kept_from i its l = l.
Proof.
  revert i. induction l as [|s l IH]; intros i Hi; simpl; [done|]. destruct (decide _) as [H|]; [specialize (Hi i H); lia|].
  rewrite IH; [done|]. intros x Hx. specialize (Hi x Hx). lia.
Qed.

Lemma kept_from_ext i its its' l :
  (forall x, i <= x < i + Z.of_nat (length l) -> x ∈ its <-> x ∈ its') -> kept_from i its l = kept_from i its' l.
Proof.
  revert i. induction l as [|s l IH]; intros i Hi; simpl in *; [done|]. rewrite (IH (i + 1)) by (intros x Hx; apply Hi; lia).
  pose proof (Hi i ltac:(lia)). destruct (decide (i ∈ its)), (decide (i ∈ its')); tauto.
Qed.

(** The greatest number first. *)
Lemma kept_snoc its x l : Forall (fun y => y < x) its -> 1 <= x <= Z.of_nat (length l) ->
  kept (its ++ [x]) l = kept its (remove_slot (Z.to_nat (x - 1)) l).
Proof.
  intros Hlt Hx. unfold kept, remove_slot. set (k := Z.to_nat (x - 1)). rewrite Forall_forall in Hlt.
  destruct (lookup_lt_is_Some_2 l k ltac:(lia)) as [s Hs].
  rewrite <- (take_drop_middle l k s Hs) at 1. rewrite !kept_from_app. simpl.
  assert (El : length (take k l) = k) by (rewrite length_take; lia). rewrite El.
  destruct (decide (1 + Z.of_nat k ∈ its ++ [x])) as [_|Hn]; [|destruct Hn; apply elem_of_app; right; apply list_elem_of_singleton; lia].
  rewrite !(kept_from_all (_ + _)).
  - f_equal. apply kept_from_ext. rewrite El. intros y Hy. rewrite elem_of_app, list_elem_of_singleton. split; [|by left].
    intros [?|?]; [done|lia].
  - intros y Hy. specialize (Hlt y Hy). lia.
  - intros y Hy. apply elem_of_app in Hy as [Hy|Hy]; [specialize (Hlt y Hy); lia|]. apply list_elem_of_singleton in Hy. lia.
Qed.

Lemma kept_from_map {f : Z -> slot} its n : forall i, kept_from i its (map f (seqZ i (Z.of_nat n))) = map f (filter (fun j => j ∉ its) (seqZ i (Z.of_nat n))).
Proof.
  induction n as [|n IH]; intros i; [done|]. rewrite seqZ_cons by lia. simpl. rewrite filter_cons.
  replace (Z.pred (Z.of_nat (S n))) with (Z.of_nat n) by lia. rewrite <- Z.add_1_r, IH.
  destruct (decide (i ∈ its)) as [H|H]; [rewrite decide_False by tauto|rewrite decide_True by done]; done.
Qed.

Lemma slots_kept its p : 0 <= nline p -> kept its (slots p) = map (slot_at p) (filter (fun j => j ∉ its) (seqZ 1 (nline p))).
Proof. intros Hn. unfold kept, slots. rewrite <- (Z2Nat.id (nline p)) by done. apply kept_from_map. Qed.

(** ** The scan over the items *)

Definition select_step (itemnos : list Z) (i : Z) (s : list Z * nat) : list Z * nat :=
  let '(keep, k) := s in
  if (k <? length itemnos)%nat && (i =? rd itemnos k) then (keep, S k) else (keep ++ [i], k).

Definition select (itemnos : list Z) (n : Z) : list Z * nat := for_offsets n (select_step itemnos) ([], 0%nat).

Lemma select_snoc its n : 0 <= n -> select its (n + 1) = select_step its (n + 1) (select its n).
Proof.
  intros Hn. unfold select, for_offsets. rewrite seqZ_app, foldl_app by lia. rewrite (seqZ_cons (1 + n)), (seqZ_nil (Z.succ _)) by lia.
  simpl. by rewrite (Z.add_comm 1 n).
Qed.

Lemma Forall_le_succ (lo k : Z) l : Forall (fun x => lo <= x <= k) l -> Forall (fun x => lo <= x <= k + 1) l.
Proof. intros H. eapply Forall_impl; [exact H|]. simpl. intros. lia. Qed.

(** The numbers found so far are in order. *)
Lemma select_found its n : 0 <= n -> (snd (select its n) <= length its)%nat /\ in_order (take (snd (select its n)) its) n.
Proof.
  intros Hn. destruct (Z_of_nat_complete n Hn) as [k ->]. clear Hn. induction k as [|k [IH1 [IH2 IH3]]].
  - split; [simpl; lia|]. split; constructor.
  - rewrite Nat2Z.inj_succ, <- Z.add_1_r, select_snoc by lia. destruct (select its (Z.of_nat k)) as [keep c]. simpl in *.
    assert (IH4 := Forall_le_succ _ _ _ IH3).
    destruct (Nat.ltb_spec c (length its)) as [Hc|Hc]; simpl; [|done].
    destruct (Z.eqb_spec (Z.of_nat k + 1) (rd its c)) as [E|E]; simpl; [|done].
    split; [lia|]. rewrite (take_S_r _ _ (rd its c)) by (by apply rd_lookup). rewrite <- E. split.
    + apply StronglySorted_app_2; [|done|repeat constructor]. intros x y Hx Hy. apply list_elem_of_singleton in Hy as ->.
      rewrite Forall_forall in IH3. specialize (IH3 x Hx). lia.
    + apply Forall_app. split; [done|repeat constructor; lia].
Qed.

(** How far the scan is when it has seen the items up to [k]. *)
Definition split_at (its : list Z) (c : nat) (k : Z) : Prop :=
  (c <= length its)%nat /\ Forall (fun x => 1 <= x <= k) (take c its) /\ Forall (fun x => k < x) (drop c its).

Lemma next_listed its c k : StronglySorted Z.lt its -> split_at its c k ->
  k + 1 ∈ its <-> (c < length its)%nat /\ k + 1 = rd its c.
Proof.
  intros Hs (Hc & Ht & Hd). rewrite Forall_forall in Ht. split; [|intros [H ->]; apply (list_elem_of_lookup_2 _ c); by apply rd_lookup].
  intros Hin. rewrite <- (take_drop c its) in Hin, Hs. apply elem_of_app in Hin as [Hin|Hin]; [specialize (Ht _ Hin); lia|].
  apply StronglySorted_app_1_r in Hs. destruct (decide (c < length its)%nat) as [Hl|Hl].
  - assert (Ed := drop_S its _ c (rd_lookup its c Hl)). rewrite Ed in Hin, Hd, Hs. split; [done|].
    apply Forall_cons_1 in Hd as [Hd _]. apply elem_of_cons in Hin as [?|Hin]; [done|].
    apply StronglySorted_inv in Hs as [_ Hs]. rewrite Forall_forall in Hs. specialize (Hs _ Hin). lia.
  - rewrite drop_ge in Hin by lia. by apply elem_of_nil in Hin.
Qed.

Lemma split_next its c k : StronglySorted Z.lt its -> 0 <= k -> split_at its c k -> (c < length its)%nat -> k + 1 = rd its c ->
  split_at its (S c) (k + 1).
Proof.
  intros Hs Hk (_ & Ht & Hd) Hl E. pose proof (rd_lookup its c Hl) as Hr. rewrite (drop_S its _ c Hr) in Hd.
  split; [lia|]. rewrite (take_S_r _ _ _ Hr). split.
  - apply Forall_app. split; [by apply Forall_le_succ|repeat constructor; lia].
  - rewrite <- (take_drop c its), (drop_S its _ c Hr) in Hs. apply StronglySorted_app_1_r, StronglySorted_inv in Hs as [_ Hs].
    by rewrite E.
Qed.

Lemma split_same its c k : split_at its c k -> k + 1 ∉ its -> split_at its c (k + 1).
Proof.
  intros (Hc & Ht & Hd) Hn. split; [done|]. split; [by apply Forall_le_succ|].
  rewrite Forall_forall in Hd |- *. intros x Hx. specialize (Hd x Hx). destruct (decide (x = k + 1)) as [->|]; [|lia].
  destruct Hn. rewrite <- (take_drop c its). apply elem_of_app. by right.
Qed.

Lemma select_split its (k : nat) : StronglySorted Z.lt its -> Forall (fun x => 1 <= x) its ->
  fst (select its (Z.of_nat k)) = filter (fun j => j ∉ its) (seqZ 1 (Z.of_nat k))
  /\ split_at its (snd (select its (Z.of_nat k))) (Z.of_nat k).
Proof.
  intros Hs Hr. induction k as [|k [E Hk]].
  - split; [done|]. split; [simpl; lia|]. split; [constructor|]. simpl. eapply Forall_impl; [exact Hr|]. simpl. intros; lia.
  - rewrite seqZ_S, filter_app, filter_cons, filter_nil. replace (1 + Z.of_nat k) with (Z.of_nat k + 1) by lia.
    rewrite Nat2Z.inj_succ, <- Z.add_1_r, select_snoc by lia.
    destruct (select its (Z.of_nat k)) as [keep c]. simpl in *. subst keep. pose proof (next_listed _ _ _ Hs Hk) as Hin.
    destruct ((c <? length its)%nat && (Z.of_nat k + 1 =? rd its c)) eqn:Et; [apply andb_true_iff in Et|apply andb_false_iff in Et].
    + destruct Et as [Hl Er]. apply Nat.ltb_lt in Hl. apply Z.eqb_eq in Er. rewrite decide_False by tauto. simpl.
      rewrite app_nil_r. split; [done|]. apply split_next; (done || lia).
    + assert (Hni : Z.of_nat k + 1 ∉ its).
      { rewrite Hin. intros [Hl Er]. rewrite Nat.ltb_ge, Z.eqb_neq in Et. lia. }
      rewrite decide_True by done. simpl. split; [done|]. by apply split_same.
Qed.

(** All of them are found when they are in order. *)
Lemma select_in_order its n : 0 <= n -> in_order its n -> select its n = (filter (fun j => j ∉ its) (seqZ 1 n), length its).
Proof.
  intros Hn [Hs Hr]. destruct (Z_of_nat_complete n Hn) as [k ->].
  destruct (select_split its k Hs) as [E (Hc & _ & Hd)]; [eapply Forall_impl; [exact Hr|]; simpl; intros; lia|].
  destruct (select its (Z.of_nat k)) as [keep c]. simpl in *. subst keep. f_equal.
  destruct (decide (c < length its)%nat) as [Hl|]; [|lia]. rewrite (drop_S its _ c (rd_lookup _ _ Hl)) in Hd.
  apply Forall_cons_1 in Hd as [Hd _]. rewrite Forall_forall in Hr.
  specialize (Hr _ (list_elem_of_lookup_2 _ _ _ (rd_lookup _ _ Hl))). lia.
Qed.

(** Every number is either kept or found, and kept in order. *)
Lemma select_kept its n : 0 <= n -> NoDup (fst (select its n)) /\ Forall (fun x => 1 <= x <= n) (fst (select its n)).
Proof.
  intros Hn. destruct (Z_of_nat_complete n Hn) as [k ->]. clear Hn. induction k as [|k [IH1 IH2]].
  - split; constructor.
  - rewrite Nat2Z.inj_succ, <- Z.add_1_r, select_snoc by lia. destruct (select its (Z.of_nat k)) as [keep c]. simpl in *.
    pose proof (Forall_le_succ _ _ _ IH2). destruct (_ && _); simpl; [done|]. split.
    + apply NoDup_app. split; [done|]. split; [|apply NoDup_singleton]. intros x Hx Hx'. apply list_elem_of_singleton in Hx' as ->.
      rewrite Forall_forall in IH2. specialize (IH2 _ Hx). lia.
    + apply Forall_app. split; [done|]. repeat constructor; lia.
Qed.

(** ** The page with the chosen line pointers *)

Section chosen.
Context {bs : block_size} {Hb : block_ok bs}.
Context (p : Page).
Hypothesis Hv : valid p.
Hypothesis Hall : forall i, 1 <= i <= nline p -> stored (pd_linp p i).

Definition chosen (ids : list ItemIdData) : Page :=
  let nused := Z.of_nat (length ids) in
  set_lower (SizeOfPageHeaderData + nused * sizeof_ItemIdData)
    (set_linp (fun i => if (1 <=? i) && (i <=? nused) then default ItemIdUnused (ids !! Z.to_nat (i - 1)) else pd_linp p i) p).

Section keep.
Context (K : list Z).
Hypothesis Hnd : NoDup K.
Hypothesis Hin : Forall (fun x => 1 <= x <= nline p) K.
Let q := chosen (map (pd_linp p) K).

Lemma chosen_count : Z.of_nat (length K) <= nline p.
Proof.
  assert (length K <= length (seqZ 1 (nline p)))%nat; [|rewrite length_seqZ in *; pose proof (v_nline _ Hv); lia].
  apply submseteq_length, NoDup_submseteq; [done|]. intros x Hx. rewrite Forall_forall in Hin. specialize (Hin x Hx).
  apply elem_of_seqZ. lia.
Qed.

Lemma chosen_linp i x : 1 <= i -> K !! Z.to_nat (i - 1) = Some x -> pd_linp q i = pd_linp p x.
Proof.
  intros Hi Hx. pose proof (lookup_lt_Some _ _ _ Hx). unfold q, chosen. simpl. rewrite length_map.
  destruct (Z.leb_spec 1 i), (Z.leb_spec i (Z.of_nat (length K))); try lia. simpl. by rewrite list_lookup_fmap, Hx.
Qed.

Lemma chosen_lower : pd_lower q = 24 + 4 * Z.of_nat (length K) /\ nline q = Z.of_nat (length K).
Proof.
  assert (E : pd_lower q = 24 + 4 * Z.of_nat (length K)).
  { unfold q, chosen. simpl. rewrite length_map. unfold SizeOfPageHeaderData, sizeof_ItemIdData.
    pose proof chosen_count. pose proof (valid_bounds p Hv). pose proof (v_lines _ Hv). rewrite uwrap_small; [lia|]. unfold in_u. lia. }
  split; [done|]. apply nline_of_lower; [lia|done].
Qed.

(** The item that a line pointer of the new page is. *)
Lemma chosen_at i : 1 <= i <= nline q -> exists x, K !! Z.to_nat (i - 1) = Some x /\ 1 <= x <= nline p /\ pd_linp q i = pd_linp p x.
Proof.
  intros Hi. destruct chosen_lower as [_ En]. destruct (lookup_lt_is_Some_2 K (Z.to_nat (i - 1)) ltac:(lia)) as [x Hx].
  exists x. split; [done|]. split; [|apply chosen_linp; (done || lia)].
  rewrite Forall_forall in Hin. apply Hin. by eapply list_elem_of_lookup_2.
Qed.

Lemma chosen_valid : valid q /\ slots q = map (slot_at p) K /\ forall i, 1 <= i <= nline q -> stored (pd_linp q i).
Proof.
  destruct chosen_lower as [El En]. pose proof chosen_count as Hc. pose proof (v_lines _ Hv) as Elp.
  split; [|split].
  - split; rewrite ?En, ?El; try apply Hv; try (lia || done).
    + pose proof (v_free _ Hv). simpl. lia.
    + intros i Hi. rewrite <- En in Hi. destruct (chosen_at i Hi) as (x & _ & Hx & ->). by apply (v_item _ Hv).
    + intros i j Hi Hj Hij. rewrite <- En in Hi, Hj. destruct (chosen_at i Hi) as (x & Ex & Hx & ->), (chosen_at j Hj) as (y & Ey & Hy & ->).
      apply (v_apart _ Hv); [done..|]. intros ->. pose proof (NoDup_lookup _ _ _ _ Hnd Ex Ey). lia.
  - apply slots_eq; rewrite ?En; [lia|by rewrite length_map|]. intros i Hi. rewrite <- En in Hi.
    destruct (chosen_at i Hi) as (x & Ex & Hx & E). rewrite list_lookup_fmap, Ex. simpl. unfold slot_at. by rewrite E.
  - intros i Hi. destruct (chosen_at i Hi) as (x & _ & Hx & ->). by apply Hall.
Qed.
End keep.

Definition chosen_items (K : list Z) : list itemIdCompactData :=
  collect (pd_linp (chosen (map (pd_linp p) K))) (Z.of_nat (length K)).

Lemma chosen_items_snoc K x : stored (pd_linp p x) ->
  chosen_items (K ++ [x]) = chosen_items K ++ [compact_of (Z.of_nat (length K) + 1) (pd_linp p x)].
Proof.
  intros Hs. unfold chosen_items. rewrite length_app. simpl length. rewrite Nat2Z.inj_add. simpl Z.of_nat. rewrite collect_snoc by lia.
  rewrite (chosen_linp (K ++ [x]) (Z.of_nat (length K) + 1) x) by (lia || (rewrite lookup_app_r by lia; by replace (Z.to_nat _ - _)%nat with 0%nat by lia)).
  destruct (decide (lp_len (pd_linp p x) <> 0)); [|done]. f_equal. apply collect_ext. intros i Hi. left.
  destruct (lookup_lt_is_Some_2 K (Z.to_nat (i - 1)) ltac:(lia)) as [y Hy].
  rewrite (chosen_linp K i y), (chosen_linp (K ++ [x]) i y) by (lia || done || by apply lookup_app_l_Some). done.
Qed.

Lemma length_chosen_items K : Forall (fun y => 1 <= y <= nline p) K -> length (chosen_items K) = length K.
Proof.
  induction K as [|x K IH] using rev_ind; [done|]. intros [HK Hx]%Forall_app. apply Forall_cons_1 in Hx as [Hx _].
  rewrite chosen_items_snoc by auto. rewrite !length_app. simpl. rewrite IH by done. done.
Qed.

Record multi_scanned (its : list Z) (i : Z) (m : multidel) : Prop := {
  ms_ids : newitemids m = map (pd_linp p) (fst (select its (i - 1)));
  ms_items : m_items m = chosen_items (fst (select its (i - 1)));
  ms_next : nextitm m = snd (select its (i - 1));
  ms_total : m_total m = total (m_items m);
  ms_sorted : m_presorted m = true -> m_last m = lowest (pd_special p) (m_items m) /\ descending (pd_special p) (m_items m)
}.

(** A further item starts below all others only if it ends below them. *)
Lemma multi_descending K x : NoDup (K ++ [x]) -> Forall (fun y => 1 <= y <= nline p) (K ++ [x]) ->
  descending (pd_special p) (chosen_items K) -> lp_off (pd_linp p x) < lowest (pd_special p) (chosen_items K) ->
  descending (pd_special p) (chosen_items (K ++ [x])).
Proof.
  intros Hnd Hin Hdesc Hlow. destruct (chosen_valid (K ++ [x]) Hnd Hin) as (Hq & _ & Hst).
  pose proof (chosen_lower (K ++ [x]) Hnd Hin) as [_ En]. pose proof (collect_ok _ Hq (Z.of_nat (length (K ++ [x]))) ltac:(lia)) as Hok.
  pose proof (collect_separate _ Hq (Z.of_nat (length (K ++ [x]))) ltac:(lia)) as Hsep.
  fold (chosen_items (K ++ [x])) in Hok, Hsep.
  assert (Hs : stored (pd_linp p x)). { apply Hall. apply Forall_app in Hin as [_ Hin]. by apply Forall_cons_1 in Hin as [? _]. }
  rewrite chosen_items_snoc in * by done. apply Forall_app in Hok as [Hok1 Hok2]. apply Forall_cons_1 in Hok2 as [(Hc1 & _ & Hc3) _].
  apply descending_snoc; [done|]. eapply below_lowest; [exact Hok1| |done|done|done].
  intros y Hy. clear - Hsep Hy. induction (chosen_items K) as [|c l IH]; simpl in *; [by apply elem_of_nil in Hy|].
  destruct Hsep as [H1 H2]. apply elem_of_cons in Hy as [->|Hy]; [|by apply IH].
  apply Forall_app in H1 as [_ H1]. by apply Forall_cons_1 in H1 as [? _].
Qed.

Hypothesis Hindex : nline p <= MaxIndexTuplesPerPage.

Lemma multi_scan_step its i m : 1 <= i <= nline p -> multi_scanned its i m ->
  exists m', multidel_item p its i (Ok m) = Ok m' /\ multi_scanned its (i + 1) m'.
Proof.
  intros Hi [Hids Hits Hnext Htot Hsort]. simpl multidel_item. unfold PageGetItemId.
  pose proof (stored_not_bad p i Hv Hi (Hall i Hi)) as Hbad. rewrite Hbad. rewrite Hnext.
  pose proof (select_snoc its (i - 1) ltac:(lia)) as Es. replace (i - 1 + 1) with i in Es by lia.
  destruct (select_kept its i ltac:(lia)) as [Hnd Hin]. destruct (select_kept its (i - 1) ltac:(lia)) as [Hnd0 Hin0].
  unfold select_step in Es. rewrite Hids, Hits in *. destruct (select its (i - 1)) as [K c] eqn:E0. simpl in *.
  destruct ((c <? length its)%nat && (i =? rd its c)).
  - eexists. split; [done|]. split; simpl; replace (i + 1 - 1) with i by lia; rewrite ?Es; simpl; try done.
  - rewrite Es in Hnd, Hin. simpl in Hnd, Hin.
    assert (Hin' : Forall (fun y => 1 <= y <= nline p) (K ++ [i])) by (eapply Forall_impl; [exact Hin|]; simpl; intros; lia).
    assert (Hlen : length (chosen_items K) = length K) by (apply length_chosen_items; by apply Forall_app in Hin' as [? _]).
    destruct (Z.leb_spec MaxIndexTuplesPerPage (Z.of_nat (length (chosen_items K)))) as [Hbig|_].
    { pose proof (chosen_count (K ++ [i]) Hnd Hin'). rewrite length_app in *. simpl in *. lia. }
    eexists. split; [done|]. rewrite length_map.
    assert (Ec : mk_compact (Z.of_nat (length K)) (lp_off (pd_linp p i)) (MAXALIGN (lp_len (pd_linp p i)))
                 = compact_of (Z.of_nat (length K) + 1) (pd_linp p i)) by (unfold compact_of; f_equal; lia).
    rewrite Ec, <- chosen_items_snoc by (by apply Hall).
    split; simpl; replace (i + 1 - 1) with i by lia; rewrite ?Es; simpl; try done.
    + by rewrite map_app.
    + rewrite chosen_items_snoc, total_app by (by apply Hall). simpl. lia.
    + rewrite andb_true_iff, Z.ltb_lt. intros [Hp Hlt]. destruct (Hsort Hp) as [Elast Hdesc]. rewrite Elast in Hlt.
      split; [|by apply multi_descending]. rewrite Elast. destruct (Z.ltb_spec (lp_off (pd_linp p i)) (lowest (pd_special p) (chosen_items K))); [|lia].
      rewrite chosen_items_snoc by (by apply Hall). unfold lowest. by rewrite foldl_app.
Qed.

Lemma multi_scan its : exists m,
  for_offsets (nline p) (multidel_item p its) (Ok (mk_multidel [] [] (pd_special p) true 0 0)) = Ok m
  /\ multi_scanned its (nline p + 1) m.
Proof.
  apply (for_offsets_ind (fun i r => exists m, r = Ok m /\ multi_scanned its i m)); [apply Hv| |].
  - eexists. split; [done|]. by split.
  - intros i r Hi (m & -> & Hs). by apply multi_scan_step.
Qed.

(** Rebuilding the page from the line pointers that are kept. *)
Lemma multi_rebuild junk K sorted : NoDup K -> Forall (fun x => 1 <= x <= nline p) K ->
  (sorted = true -> descending (pd_special p) (chosen_items K)) ->
  total (chosen_items K) <= pd_special p - pd_lower p
  /\ exists p', (if 0 <? Z.of_nat (length K) then compactify_tuples junk (chosen_items K) (chosen (map (pd_linp p) K)) sorted
     else Ok (set_upper (pd_special p) (chosen (map (pd_linp p) K)))) = Ok p'
  /\ valid p' /\ slots p' = map (slot_at p) K /\ pd_special p' = pd_special p /\ pd_flags p' = pd_flags p
  /\ pd_lower p' = 24 + 4 * Z.of_nat (length K) /\ pd_upper p' = pd_special p - sum_sizes (map (slot_at p) K)
  /\ pd_upper p <= pd_upper p' /\ (forall i, i < pd_upper p' \/ pd_special p <= i -> pd_data p' i = pd_data p i).
Proof.
  intros Hnd Hin Hsort. destruct (chosen_valid K Hnd Hin) as (Hq & Esl & _). destruct (chosen_lower K Hnd Hin) as [El En].
  set (q := chosen (map (pd_linp p) K)) in *.
  assert (Ei : collect (pd_linp q) (nline q) = chosen_items K) by (by rewrite En).
  pose proof (collect_total q Hq (nline q) ltac:(lia)) as Htot. rewrite Ei in Htot.
  change (pd_special q) with (pd_special p) in Htot. change (pd_upper q) with (pd_upper p) in Htot.
  split; [pose proof (v_free _ Hv); lia|].
  destruct (compact_all junk q sorted Hq) as (p' & E & Hc); [by rewrite Ei|]. rewrite Ei, (length_chosen_items K Hin) in E.
  exists p'. split.
  - destruct (Nat.eqb_spec (length K) 0), (Z.ltb_spec 0 (Z.of_nat (length K))); (done || lia).
  - destruct (compacted_page q p' Hq Hc) as (H1 & H2 & _ & H4 & H5 & H6 & H7 & H8). rewrite Esl in H2, H7. rewrite El in H4.
    do 6 (split; [done|]). split; [|done]. rewrite H7. pose proof (total_sizes q Hq (nline q) ltac:(lia)) as Et.
    fold (slots q) in Et. rewrite Ei, Esl in Et. change (pd_special q) with (pd_special p). lia.
Qed.

(** More than two items: the scan. *)
Lemma multi_scan_refines junk its : (2 < length its)%nat ->
  (in_order its (nline p) -> exists p', PageIndexMultiDelete junk p its = Ok p' /\ valid p' /\ abs p' = multi_spec its (abs p)
     /\ (forall i, i < pd_upper p \/ pd_special p <= i -> pd_data p' i = pd_data p i))
  /\ (~ in_order its (nline p) -> PageIndexMultiDelete junk p its = Err "incorrect index offsets supplied"%string).
Proof.
  intros Hlen. unfold PageIndexMultiDelete. destruct (Nat.leb_spec (length its) 2); [lia|]. rewrite valid_header by done.
  destruct (multi_scan its) as (m & -> & [Hids Hits Hnext Htot Hsort]). cbn [res_bind].
  replace (nline p + 1 - 1) with (nline p) in * by lia. pose proof (v_nline _ Hv) as Hn. rewrite Hnext. split.
  - intros Hord. destruct (select_kept its (nline p) Hn) as [Hnd Hin]. pose proof (slots_kept its p Hn) as Ek.
    rewrite (select_in_order its (nline p) Hn Hord) in *. simpl fst in *. simpl snd. rewrite Nat.eqb_refl. simpl negb. cbv iota.
    set (K := filter _ _) in *. rewrite Hits in *. destruct (multi_rebuild junk K (m_presorted m) Hnd Hin) as (Hfit & p' & E & Hv' & Es & Esp & Ef & El & Eu & Hup & Hd).
    { intros Hp. by apply Hsort. }
    rewrite Htot. destruct (Z.ltb_spec (pd_special p - pd_lower p) (total (chosen_items K))); [lia|]. cbv zeta.
    rewrite Hids. fold (chosen (map (pd_linp p) K)). rewrite length_map. exists p'. split; [exact E|]. split; [done|].
    split; [|intros i Hi; apply Hd; lia]. unfold abs at 1, multi_spec, PageHasFreeLinePointers. simpl a_slots. simpl a_room. simpl a_hint. rewrite Ek, Es, Eu, El, Esp, Ef, length_map.
    unfold sizeof_ItemIdData, SizeOfPageHeaderData. f_equal. lia.
  - intros Hord. destruct (Nat.eqb_spec (snd (select its (nline p))) (length its)) as [E|]; [|done].
    destruct Hord. destruct (select_found its (nline p) Hn) as [_ Ho]. by rewrite E, take_ge in Ho.
Qed.
End chosen.

(** ** One by one *)

Definition is_stored (s : slot) : bool := match s with Stored _ _ => true | _ => false end.

Lemma all_stored `{bs : block_size} p : valid p ->
  (forall i, 1 <= i <= nline p -> stored (pd_linp p i)) <-> Forall is_stored (slots p).
Proof.
  intros Hv. assert (Hone : forall i, 1 <= i <= nline p -> is_stored (slot_at p i) <-> stored (pd_linp p i)).
  { intros i Hi. destruct (v_item _ Hv i Hi) as (_ & _ & H3). unfold slot_at, slot_of, ItemIdIsUsed, ItemIdHasStorage, stored in *.
    destruct (Z.eqb_spec (lp_flags (pd_linp p i)) LP_UNUSED), (Z.eqb_spec (lp_len (pd_linp p i)) 0); simpl; split; try done.
    intros Hs. by destruct (H3 Hs). }
  rewrite Forall_forall. split.
  - intros H s (i & -> & Hi)%list_elem_of_fmap. apply elem_of_seqZ in Hi. apply Hone; [lia|]. apply H. lia.
  - intros H i Hi. apply Hone; [done|]. apply H. apply list_elem_of_fmap. exists i. split; [done|]. apply elem_of_seqZ. lia.
Qed.

Lemma remove_slot_stored k l : Forall is_stored l -> Forall is_stored (remove_slot k l).
Proof. intros H. apply Forall_app. split; [by apply Forall_take|by apply Forall_drop]. Qed.

Lemma sum_remove_slot k l s : l !! k = Some s -> sum_sizes (remove_slot k l) = sum_sizes l - slot_size s.
Proof.
  intros Hs. unfold remove_slot. rewrite <- (take_drop_middle l k s Hs) at 3. rewrite !sum_sizes_app. simpl. lia.
Qed.

Lemma delete_tight x a : 1 <= x <= Z.of_nat (length (a_slots a)) -> tight a -> tight (delete_spec x a).
Proof.
  unfold tight, delete_spec, size_at. intros Hx Ht. simpl. destruct (lookup_lt_is_Some_2 (a_slots a) (Z.to_nat (x - 1)) ltac:(lia)) as [s Hs].
  rewrite Hs, (sum_remove_slot _ _ s Hs), length_remove_slot by lia. simpl. unfold sizeof_ItemIdData in *. lia.
Qed.

Lemma multi_spec_snoc its x a : Forall (fun y => y < x) its -> 1 <= x <= Z.of_nat (length (a_slots a)) ->
  multi_spec (its ++ [x]) a = multi_spec its (delete_spec x a).
Proof. intros Hlt Hx. unfold multi_spec. simpl. by rewrite kept_snoc. Qed.

Lemma delete_backwards_app `{bs : block_size} k its l p : (k <= length its)%nat -> delete_backwards k (its ++ l) p = delete_backwards k its p.
Proof.
  revert p. induction k as [|k IH]; intros p Hk; [done|]. simpl. unfold rd. rewrite lookup_app_l by lia.
  destruct (PageIndexTupleDelete p _); [|done]. cbn [res_bind]. apply IH. lia.
Qed.

Lemma in_order_snoc its x n : in_order (its ++ [x]) n -> in_order its (n - 1) /\ Forall (fun y => y < x) its /\ 1 <= x <= n.
Proof.
  intros [Hs [Hr Hx]%Forall_app]. apply Forall_cons_1 in Hx as [Hx _]. apply StronglySorted_app in Hs as (Hlt & Hs & _).
  assert (Hl : Forall (fun y => y < x) its) by (apply Forall_forall; intros y Hy; apply Hlt; [done|by left]).
  split; [|done]. split; [done|]. rewrite Forall_forall in Hr, Hl |- *. intros y Hy. specialize (Hr y Hy). specialize (Hl y Hy). lia.
Qed.

Lemma delete_upper `{bs : block_size} p x p1 : valid p -> valid p1 -> 1 <= x <= nline p -> abs p1 = delete_spec x (abs p) ->
  pd_upper p <= pd_upper p1 /\ pd_special p1 = pd_special p.
Proof.
  intros Hv Hv1 Hx E. pose proof (length_slots p (v_nline _ Hv)) as Hlen. pose proof (length_slots p1 (v_nline _ Hv1)) as Hlen1.
  unfold delete_spec, abs in E. injection E as Es Ef _ Er. rewrite Es, length_remove_slot in Hlen1 by lia. split; [|lia].
  rewrite (v_lines _ Hv), (v_lines _ Hv1) in Ef. unfold sizeof_ItemIdData, size_at in Ef. simpl in Ef. rewrite slots_get in Ef by done. simpl in Ef.
  pose proof (slot_size_at p Hv x Hx) as Hsz. rewrite Hsz in Ef. destruct (v_item _ Hv x Hx) as (_ & H15 & _).
  pose proof (MAXALIGN_spec (lp_len (pd_linp p x))). unfold in_u in H15. destruct (decide _); lia.
Qed.

Lemma delete_backwards_refines {bs : block_size} {Hb : block_ok bs} its p :
  valid p -> Forall is_stored (slots p) -> tight (abs p) -> in_order its (nline p) ->
  exists p', delete_backwards (length its) its p = Ok p' /\ valid p' /\ abs p' = multi_spec its (abs p)
    /\ (forall i, i < pd_upper p \/ pd_special p <= i -> pd_data p' i = pd_data p i).
Proof.
  revert p. induction its as [|x its IH] using rev_ind; intros p Hv Hst Ht Hord.
  - exists p. split; [done|]. split; [done|]. split; [|done]. unfold multi_spec, kept. rewrite kept_from_all by (by intros x ?%elem_of_nil).
    unfold tight in Ht. destruct (abs p). simpl in *. f_equal. lia.
  - apply in_order_snoc in Hord as (Hord & Hlt & Hx). pose proof (length_slots p (v_nline _ Hv)) as Hlen.
    pose proof (proj2 (all_stored p Hv) Hst) as Hall.
    destruct (tuple_delete_refines p x Hv Hx (Hall x Hx) Hall) as (p1 & E1 & Hv1 & Ea1 & Hd1).
    rewrite length_app, Nat.add_1_r. simpl. unfold rd at 1. rewrite lookup_app_r, Nat.sub_diag by lia. simpl. rewrite E1. cbn [res_bind].
    rewrite delete_backwards_app by lia.
    assert (Es1 : slots p1 = remove_slot (Z.to_nat (x - 1)) (slots p)) by (change (slots p1) with (a_slots (abs p1)); by rewrite Ea1).
    assert (En1 : nline p1 = nline p - 1).
    { rewrite <- (length_slots p1 (v_nline _ Hv1)), Es1, length_remove_slot by lia. lia. }
    destruct (IH p1 Hv1) as (p' & E' & Hv' & Ea' & Hd').
    + rewrite Es1. by apply remove_slot_stored.
    + rewrite Ea1. apply delete_tight; [simpl; lia|done].
    + by rewrite En1.
    + exists p'. split; [done|]. split; [done|]. split; [rewrite Ea', Ea1; symmetry; apply multi_spec_snoc; [done|simpl; lia]|].
      pose proof (delete_upper p x p1 Hv Hv1 Hx Ea1) as [Hu Hs]. intros i Hi. rewrite Hd' by lia. by apply Hd1.
Qed.

(** Both ways. *)
Lemma multi_refines {bs : block_size} {Hb : block_ok bs} junk its p :
  valid p -> Forall is_stored (slots p) -> tight (abs p) -> nline p <= MaxIndexTuplesPerPage -> in_order its (nline p) ->
  exists p', PageIndexMultiDelete junk p its = Ok p' /\ valid p' /\ abs p' = multi_spec its (abs p)
    /\ (forall i, i < pd_upper p \/ pd_special p <= i -> pd_data p' i = pd_data p i).
Proof.
  intros Hv Hst Ht Hmax Hord. destruct (Nat.leb_spec (length its) 2) as [H2|H2].
  - unfold PageIndexMultiDelete. destruct (Nat.leb_spec (length its) 2); [|lia]. by apply delete_backwards_refines.
  - by apply multi_scan_refines; [|apply all_stored|..].
Qed.
