(* ===== verification/BufPageLife.v ===== *)
(** The life of a page: every heap page and every index page that the operations can
    make from an empty one is valid, and on such a page they do not fail. *)

From S2P Require Import Prelude BufPage BufPageSpec BufPageAdd BufPageCompact BufPageRepair BufPageIndex BufPageMulti.
Local Open Scope Z_scope.
Local Open Scope pg_scope.

Section life.
Context {bs : block_size} {Hb : block_ok bs}.

(** ** Empty pages *)

Definition empty_spec (special : Z) : apage := mk_apage [] (special - SizeOfPageHeaderData) false (special - SizeOfPageHeaderData).

Lemma PageInit_valid specialSize : 0 <= specialSize -> MAXALIGN specialSize + SizeOfPageHeaderData <= BLCKSZ ->
  valid (PageInit BLCKSZ specialSize) /\ abs (PageInit BLCKSZ specialSize) = empty_spec (BLCKSZ - MAXALIGN specialSize).
Proof.
  intros H0 Hfit. pose proof (MAXALIGN_spec specialSize) as [H1 H2]. pose proof block_aligned as H8. pose proof block_bounds as [_ Hmax].
  unfold SizeOfPageHeaderData in *. set (p := PageInit BLCKSZ specialSize).
  assert (Eu : pd_upper p = BLCKSZ - MAXALIGN specialSize) by (unfold p, PageInit; simpl; apply uwrap_small; unfold in_u; lia).
  assert (Es : pd_special p = pd_upper p) by done. assert (En : nline p = 0) by done.
  split; [|unfold abs, empty_spec, SizeOfPageHeaderData; rewrite Es, Eu; done].
  split; rewrite ?En, ?Es, ?Eu; try done; try (intros; lia); try (by apply Z.divide_sub_r).
  change (pd_lower p) with 24. lia.
Qed.

Lemma item_flags (overwrite is_heap : bool) :
  let flags := Z.lor (if overwrite then PAI_OVERWRITE else 0) (if is_heap then PAI_IS_HEAP else 0) in
  negb (Z.land flags PAI_OVERWRITE =? 0) = overwrite /\ negb (Z.land flags PAI_IS_HEAP =? 0) = is_heap.
Proof. by destruct overwrite, is_heap. Qed.

Lemma PageAddItem_refines p item off overwrite is_heap : valid p -> (0 < length item)%nat -> 0 <= off ->
  let a := add_spec (abs p) item off overwrite is_heap in
  exists w p', PageAddItem p item off overwrite is_heap = Ok (fst a, w, p') /\ valid p' /\ abs p' = snd a
    /\ (forall i, i < pd_lower p' \/ pd_upper p <= i -> pd_data p' i = pd_data p i).
Proof.
  intros Hv Hl Ho a. unfold PageAddItem. destruct (item_flags overwrite is_heap) as [E1 E2].
  pose proof (fun flags => add_item_refines p item off flags Hv Hl Ho) as H. cbv zeta in H.
  specialize (H (Z.lor (if overwrite then PAI_OVERWRITE else 0) (if is_heap then PAI_IS_HEAP else 0))). by rewrite E1, E2 in H.
Qed.

(** ** Line pointers that are changed in place *)

(** A line pointer without storage may replace any other. *)
Lemma set_bare_valid p i lp : valid p -> lp_len lp = 0 -> in_u 15 (lp_off lp) -> valid (set_item i lp p).
Proof.
  intros Hv Hl Ho. assert (En : nline (set_item i lp p) = nline p) by done.
  split; rewrite ?En; try apply Hv.
  - intros j Hj. simpl. destruct (Z.eqb_spec j i); [|by apply (v_item _ Hv)]. split; [done|]. rewrite Hl. split; [done|]. intros Hs. by destruct Hs.
  - intros j k Hj Hk Hjk. simpl. destruct (Z.eqb_spec j i), (Z.eqb_spec k i); unfold stored; rewrite ?Hl; try done. by apply (v_apart _ Hv).
Qed.

(** Marking an index item dead keeps its bytes. *)
Definition kill (s : slot) : slot := match s with Stored _ b => Stored LP_DEAD b | _ => s end.

Lemma mark_dead_valid p i : valid p -> 1 <= i <= nline p -> stored (pd_linp p i) ->
  let p' := set_item i (ItemIdMarkDead (pd_linp p i)) p in
  valid p' /\ abs p' = mk_apage (alter kill (Z.to_nat (i - 1)) (slots p)) (a_free (abs p)) (a_hint (abs p)) (a_room (abs p)).
Proof.
  intros Hv Hi Hs p'. assert (En : nline p' = nline p) by done. destruct (v_item _ Hv i Hi) as (H1 & H2 & H3).
  destruct (H3 Hs) as (H4 & H5). split.
  - split; rewrite ?En; try apply Hv.
    + intros j Hj. simpl. destruct (Z.eqb_spec j i); [|by apply (v_item _ Hv)]. split; [done|]. split; [done|]. intros _. by split.
    + intros j k Hj Hk Hjk. simpl. destruct (Z.eqb_spec j i) as [->|], (Z.eqb_spec k i) as [->|]; try done; apply (v_apart _ Hv); done.
  - unfold abs at 1. f_equal. pose proof (length_slots p (v_nline _ Hv)).
    apply slots_eq; rewrite ?En; [apply Hv|by rewrite length_alter|]. intros j Hj. unfold slot_at at 1. simpl.
    destruct (Z.eqb_spec j i) as [->|Hne].
    + rewrite list_lookup_alter_eq, slots_get by done. simpl. f_equal. unfold slot_at, slot_of, ItemIdIsUsed, ItemIdHasStorage, stored in *. simpl.
      destruct (Z.eqb_spec (lp_flags (pd_linp p i)) LP_UNUSED); [done|]. simpl. by destruct (Z.eqb_spec (lp_len (pd_linp p i)) 0).
    + rewrite list_lookup_alter_ne, slots_get by lia. done.
Qed.

(** ** Heap pages *)

(** A heap tuple has at least its header of 23 bytes. *)
Definition heap_tuple (item : list Z) : Prop := (23 <= length item)%nat.

(** Everything that happens to a heap page. Where [limited] holds, tuples are only put
    where the code chooses or at a free or the next number, as the heap itself does it
    ([overwrite]); else they may also move the line pointers from a given number on. *)
Inductive heap_step (limited : bool) : Page -> Page -> Prop :=
| heap_insert p item off overwrite n w p' : heap_tuple item -> 0 <= off ->
    (limited = true -> overwrite = true \/ off = InvalidOffsetNumber) ->
    PageAddItem p item off overwrite true = Ok (n, w, p') -> heap_step limited p p'
| heap_redirect p i link : 1 <= i <= nline p -> heap_step limited p (set_item i (ItemIdRedirect link) p)
| heap_dead p i : 1 <= i <= nline p -> heap_step limited p (set_item i ItemIdDead p)
| heap_unused p i : 1 <= i <= nline p -> heap_step limited p (set_item i ItemIdUnused p)
| heap_hint p hint : heap_step limited p (flagged hint p)
| heap_repair p junk p' : PageRepairFragmentation junk p = Ok p' -> heap_step limited p p'
| heap_truncate p : heap_step limited p (PageTruncateLinePointerArray p).

Definition heap_page (p : Page) : Prop := valid p /\ nline p <= MaxHeapTuplesPerPage.

Lemma slots_count p q : valid p -> valid q -> (length (slots q) <= length (slots p))%nat -> nline q <= nline p.
Proof. intros Hp Hq. rewrite <- (length_slots p (v_nline _ Hp)), <- (length_slots q (v_nline _ Hq)). lia. Qed.

Lemma length_strip_free l : (length (strip_free l) <= length l)%nat.
Proof. induction l as [|s l IH]; simpl; [done|]. destruct (strip_free l); [destruct (decide _); simpl; lia|simpl in *; lia]. Qed.

(** As the heap inserts: into a given free slot, or anywhere. *)
Lemma add_count a item off overwrite : overwrite = true \/ off = InvalidOffsetNumber ->
  Z.of_nat (length (a_slots a)) <= MaxHeapTuplesPerPage ->
  Z.of_nat (length (a_slots (snd (add_spec a item off overwrite true)))) <= MaxHeapTuplesPerPage.
Proof.
  intros Hov Ha. unfold add_spec. destruct (choose a off overwrite) as [[r reuse]|] eqn:E; [|done]. simpl andb.
  destruct (Z.ltb_spec MaxHeapTuplesPerPage r); [done|]. destruct (_ <? _); [done|]. simpl. unfold put_slot.
  destruct reuse; [by rewrite length_insert|].
  assert (Er : r = Z.of_nat (length (a_slots a)) + 1).
  { unfold choose in E. destruct (OffsetNumberIsValid off) eqn:Ev.
    - destruct Hov as [->| ->]; [|done]. destruct (Z.ltb_spec (Z.of_nat (length (a_slots a)) + 1) off); [done|].
      simpl in E. destruct (Z.ltb_spec off (Z.of_nat (length (a_slots a)) + 1)); [by destruct (decide _)|]. injection E as <-. lia.
    - destruct (if a_hint a then _ else _); [done|]. by injection E as <-. }
  rewrite length_app, length_take. simpl. rewrite length_drop. lia.
Qed.

(** Tuples of a heap page are not shorter than their header. *)
Definition wide (s : slot) : Prop := is_stored s -> 24 <= slot_size s.
Definition wide_page (p : Page) : Prop := valid p /\ Forall wide (slots p).

Lemma heap_tuple_size item : heap_tuple item -> 24 <= MAXALIGN (Z.of_nat (length item)).
Proof. unfold heap_tuple. intros H. destruct (MAXALIGN_spec (Z.of_nat (length item))) as [? [k ?]]. lia. Qed.

Lemma wide_at p : 0 <= nline p -> Forall wide (slots p) <-> forall i, 1 <= i <= nline p -> wide (slot_at p i).
Proof.
  intros Hn. rewrite Forall_lookup. split.
  - intros H i Hi. eapply H. by apply slots_get.
  - intros H k s Hk. rewrite slots_lookup in Hk. destruct (decide _) as [Hd|]; [|done]. injection Hk as <-. apply H. lia.
Qed.

(** So there is room for MaxHeapTuplesPerPage of them at most, however many line pointers
    without a tuple the page has. *)
Lemma wide_count p : wide_page p -> Z.of_nat (length (collect (pd_linp p) (nline p))) <= MaxHeapTuplesPerPage.
Proof.
  intros [Hv Hw]. pose proof (v_nline _ Hv) as Hn. rewrite wide_at in Hw by done.
  pose proof (collect_total p Hv (nline p) ltac:(lia)) as Ht. pose proof (collect_length (pd_linp p) (nline p) Hn) as Hl.
  assert (Hs : 24 * Z.of_nat (length (collect (pd_linp p) (nline p))) <= total (collect (pd_linp p) (nline p))).
  { assert (Hf : Forall (fun c => 24 <= alignedlen c) (collect (pd_linp p) (nline p))).
    { apply Forall_forall. intros c (i & Hi & Hst & ->)%collect_elem. specialize (Hw i Hi). destruct (v_item _ Hv i Hi) as (_ & H2 & H3).
      destruct (H3 Hst) as [Hu _]. revert Hw. unfold wide, slot_at, slot_of, ItemIdIsUsed, ItemIdHasStorage. unfold stored in *.
      destruct (Z.eqb_spec (lp_flags (pd_linp p i)) LP_UNUSED); [done|]. destruct (Z.eqb_spec (lp_len (pd_linp p i)) 0); [done|].
      simpl. intros Hw. specialize (Hw I). revert Hw. unfold content. rewrite length_map, length_seqZ, Z2Nat.id; [done|]. unfold in_u in *. lia. }
    clear - Hf. induction Hf as [|c l Hc _ IH]; simpl; lia. }
  pose proof (v_lines _ Hv). pose proof (v_free _ Hv). pose proof (v_special _ Hv).
  unfold MaxHeapTuplesPerPage, SizeOfPageHeaderData, sizeof_ItemIdData. apply Z.div_le_lower_bound; lia.
Qed.

Lemma set_bare_wide p i lp : wide_page p -> lp_len lp = 0 -> in_u 15 (lp_off lp) -> wide_page (set_item i lp p).
Proof.
  intros [Hv Hw] Hl Ho. split; [by apply set_bare_valid|]. pose proof (v_nline _ Hv) as Hn. rewrite wide_at in * by done.
  intros j Hj. unfold slot_at. simpl. destruct (Z.eqb_spec j i); [|by apply Hw].
  unfold wide, slot_of, ItemIdHasStorage. rewrite Hl. by destruct (ItemIdIsUsed lp).
Qed.

Lemma add_wide a item off overwrite is_heap :
  heap_tuple item -> Forall wide (a_slots a) -> Forall wide (a_slots (snd (add_spec a item off overwrite is_heap))).
Proof.
  intros Hi Ha. unfold add_spec. destruct (choose a off overwrite) as [[r reuse]|]; [|done].
  destruct (_ && _); [done|]. destruct (_ <? _); [done|]. simpl. unfold put_slot.
  assert (Hs : wide (Stored LP_NORMAL item)) by (intros _; by apply heap_tuple_size).
  destruct reuse; [by apply Forall_insert|]. apply Forall_app. split; [by apply Forall_take|]. constructor; [done|by apply Forall_drop].
Qed.

Lemma strip_free_Forall (P : slot -> Prop) l : Forall P l -> Forall P (strip_free l).
Proof. intros H. induction H as [|s l H _ IH]; simpl; [done|]. destruct (strip_free l); [destruct (decide _); [done|]|]; by constructor. Qed.

Lemma repair_wide p junk : wide_page p -> exists q, PageRepairFragmentation junk p = Ok q /\ valid q /\ abs q = repair_spec (abs p).
Proof. intros Hp. destruct (repair_refines p (proj1 Hp) (wide_count p Hp) junk) as (q & ? & ? & ? & _). eauto. Qed.

Lemma heap_step_wide limited p p' : wide_page p -> heap_step limited p p' -> wide_page p'.
Proof.
  intros Hp Hs. pose proof Hp as [Hv Hw]. destruct Hs as [p item off ov n w p' Hl Ho Hov E|p i link Hi|p i Hi|p i Hi|p hint|p junk p' E|p].
  - destruct (PageAddItem_refines p item off ov true Hv ltac:(unfold heap_tuple in Hl; lia) Ho) as (w' & q & E' & Hq & Ea & _).
    rewrite E' in E. injection E as _ _ <-. split; [done|]. change (slots q) with (a_slots (abs q)). rewrite Ea. by apply add_wide.
  - apply set_bare_wide; [done..|]. apply uwrap_range. lia.
  - by apply set_bare_wide.
  - by apply set_bare_wide.
  - split; [by apply flagged_valid|]. by destruct hint.
  - destruct (repair_wide p junk Hp) as (q & E' & Hq & Ea). rewrite E' in E. injection E as <-. split; [done|].
    change (slots q) with (a_slots (abs q)). rewrite Ea. by apply strip_free_Forall.
  - destruct (truncate_refines p Hv) as (Hq & Ea & _). split; [done|]. set (q := PageTruncateLinePointerArray p) in *.
    change (slots q) with (a_slots (abs q)). rewrite Ea. simpl. destruct Hw as [|s l H1 H2]; simpl; [done|]. constructor; [done|].
    by apply strip_free_Forall.
Qed.

Lemma heap_insert_page p item off overwrite n w p' : heap_page p -> (0 < length item)%nat -> 0 <= off ->
  overwrite = true \/ off = InvalidOffsetNumber -> PageAddItem p item off overwrite true = Ok (n, w, p') -> heap_page p'.
Proof.
  intros [Hv Hn] Hl Ho Hov E. destruct (PageAddItem_refines p item off overwrite true Hv Hl Ho) as (w' & q & E' & Hq & Ea & _).
  rewrite E' in E. injection E as _ _ <-. split; [done|]. rewrite <- (length_slots q (v_nline _ Hq)).
  change (slots q) with (a_slots (abs q)). rewrite Ea. apply add_count; [done|]. simpl. by rewrite length_slots by apply Hv.
Qed.

Lemma heap_step_page p p' : heap_page p -> heap_step true p p' -> heap_page p'.
Proof.
  intros Hp Hs. pose proof Hp as [Hv Hn]. destruct Hs as [p item off ov n w p' Hl Ho Hov E|p i link Hi|p i Hi|p i Hi|p hint|p junk p' E|p].
  - eapply heap_insert_page; [exact Hp| |exact Ho|by apply Hov|exact E]. unfold heap_tuple in Hl. lia.
  - split; [|done]. apply set_bare_valid; try done. simpl. apply uwrap_range. lia.
  - split; [|done]. by apply set_bare_valid.
  - split; [|done]. by apply set_bare_valid.
  - split; [by apply flagged_valid|]. by destruct hint.
  - destruct (repair_refines p Hv ltac:(etrans; [apply collect_length, Hv|done]) junk) as (q & E' & Hq & Ea & _).
    rewrite E' in E. injection E as <-. split; [done|].
    etrans; [|exact Hn]. apply slots_count; [done..|]. change (slots q) with (a_slots (abs q)). rewrite Ea. apply length_strip_free.
  - destruct (truncate_refines p Hv) as (Hq & Ea & _). split; [done|]. etrans; [|exact Hn]. apply slots_count; [done..|].
    set (q := PageTruncateLinePointerArray p) in *. change (slots q) with (a_slots (abs q)). rewrite Ea. simpl.
    destruct (slots p) as [|s l]; [done|]. simpl. pose proof (length_strip_free l). lia.
Qed.

(** ** Index pages *)

(** An index tuple has its header and at least one byte more. *)
Definition index_tuple (item : list Z) : Prop := (9 <= length item)%nat.

Inductive index_step : Page -> Page -> Prop :=
| index_insert p item off overwrite n w p' : index_tuple item -> 0 <= off ->
    PageAddItem p item off overwrite false = Ok (n, w, p') -> index_step p p'
| index_mark_dead p i : 1 <= i <= nline p -> index_step p (set_item i (ItemIdMarkDead (pd_linp p i)) p)
| index_delete p i p' : PageIndexTupleDelete p i = Ok p' -> index_step p p'
| index_multi p junk itemnos p' : PageIndexMultiDelete junk p itemnos = Ok p' -> index_step p p'
| index_overwrite p i item r p' : index_tuple item -> PageIndexTupleOverwrite p i item = Ok (r, p') -> index_step p p'.

Definition index_slot (s : slot) : Prop := is_stored s /\ 16 <= slot_size s.
Definition index_apage (a : apage) : Prop := Forall index_slot (a_slots a) /\ tight a.
Definition index_page (p : Page) : Prop := valid p /\ index_apage (abs p).

Lemma index_slots_stored l : Forall index_slot l -> Forall is_stored l.
Proof. intros H. eapply Forall_impl; [exact H|]. by intros s [? _]. Qed.

Lemma index_tuple_size item : index_tuple item -> 16 <= MAXALIGN (Z.of_nat (length item)).
Proof. unfold index_tuple. intros H. destruct (MAXALIGN_spec (Z.of_nat (length item))) as [? [k ?]]. lia. Qed.

(** There is room for MaxIndexTuplesPerPage of them and no more. *)
Lemma index_count p : index_page p -> nline p <= MaxIndexTuplesPerPage.
Proof.
  intros (Hv & Hs & Ht). unfold tight, abs in *. simpl in *. rewrite length_slots in Ht by apply Hv.
  assert (Hsum : 16 * Z.of_nat (length (slots p)) <= sum_sizes (slots p)) by (clear - Hs; induction Hs as [|s l [_ H] _ IH]; simpl; lia).
  rewrite length_slots in Hsum by apply Hv. pose proof (v_free _ Hv). pose proof (v_special _ Hv).
  unfold MaxIndexTuplesPerPage, SizeOfPageHeaderData, sizeof_ItemIdData in *. apply Z.div_le_lower_bound; lia.
Qed.

Lemma sum_sizes_insert l k s s' : l !! k = Some s -> sum_sizes (<[k := s']> l) = sum_sizes l - slot_size s + slot_size s'.
Proof.
  intros Hs. pose proof (lookup_lt_Some _ _ _ Hs). rewrite insert_take_drop by done. rewrite <- (take_drop_middle l k s Hs) at 3.
  rewrite !sum_sizes_app. simpl. lia.
Qed.

Lemma index_add_spec a item off overwrite : index_tuple item -> 0 <= off -> index_apage a ->
  index_apage (snd (add_spec a item off overwrite false)).
Proof.
  intros Hit Hoff [Hs Ht]. unfold add_spec. destruct (choose a off overwrite) as [[r reuse]|] eqn:E; [|done]. simpl andb.
  destruct (_ <? _); [done|]. simpl snd.
  assert (Er : reuse = false /\ 1 <= r <= Z.of_nat (length (a_slots a)) + 1).
  { unfold choose in E. destruct (OffsetNumberIsValid off) eqn:Ev.
    - destruct (Z.ltb_spec (Z.of_nat (length (a_slots a)) + 1) off); [done|].
      assert (Hno : overwrite && (off <? Z.of_nat (length (a_slots a)) + 1) = true ->
        a_slots a !! Z.to_nat (off - 1) <> Some Free) by (intros _ Hk; rewrite Forall_lookup in Hs; by destruct (Hs _ _ Hk)).
      destruct (overwrite && _); [destruct (decide _); [by destruct (Hno eq_refl)|done]|].
      injection E as <- <-. split; [done|]. unfold OffsetNumberIsValid, InvalidOffsetNumber in Ev. destruct (Z.eqb_spec off 0); [done|]. lia.
    - assert (Hno : first_free (a_slots a) = None).
      { apply first_free_None. intros k Hk. rewrite Forall_lookup in Hs. by destruct (Hs _ _ Hk). }
      rewrite Hno in E. destruct (a_hint a); injection E as <- <-; (split; [done|lia]). }
  destruct Er as [-> Hr]. pose proof (index_tuple_size item Hit). split.
  - simpl. apply Forall_app. split; [by apply Forall_take|]. apply Forall_cons. split; [by split|by apply Forall_drop].
  - unfold tight in *. simpl. rewrite length_app. simpl. rewrite length_take, length_drop. rewrite sum_sizes_app. simpl.
    assert (Esum : sum_sizes (a_slots a) = sum_sizes (take (Z.to_nat (r - 1)) (a_slots a)) + sum_sizes (drop (Z.to_nat (r - 1)) (a_slots a)))
      by (rewrite <- sum_sizes_app; by rewrite take_drop).
    unfold sizeof_ItemIdData in *. lia.
Qed.

Lemma sum_sizes_kill l k : sum_sizes (alter kill k l) = sum_sizes l.
Proof. revert k. induction l as [|s l IH]; intros [|k]; simpl; [done..| |]; [by destruct s|]. f_equal. apply IH. Qed.

Lemma index_kill_spec a k : index_apage a -> index_apage (mk_apage (alter kill k (a_slots a)) (a_free a) (a_hint a) (a_room a)).
Proof.
  intros [Hs Ht]. split; simpl.
  - apply Forall_alter; [done|]. intros s _ [H1 H2]. by destruct s.
  - unfold tight in *. simpl. by rewrite length_alter, sum_sizes_kill.
Qed.

Lemma index_delete_spec a i : 1 <= i <= Z.of_nat (length (a_slots a)) -> index_apage a -> index_apage (delete_spec i a).
Proof.
  intros Hi [Hs Ht]. split; [|by apply delete_tight]. simpl. apply Forall_app. split; [by apply Forall_take|by apply Forall_drop].
Qed.

Lemma kept_from_Forall (P : slot -> Prop) j its l : Forall P l -> Forall P (kept_from j its l).
Proof. intros H. revert j. induction H as [|s l H1 _ IH]; intros j; simpl; [done|]. destruct (decide _); [apply IH|by constructor]. Qed.

Lemma index_multi_spec a its : index_apage a -> index_apage (multi_spec its a).
Proof. intros [Hs Ht]. split; [by apply kept_from_Forall|done]. Qed.

Lemma index_overwrite_spec a i item : index_tuple item -> 1 <= i <= Z.of_nat (length (a_slots a)) -> index_apage a ->
  index_apage (snd (overwrite_spec i item a)).
Proof.
  intros Hit Hi [Hs Ht]. unfold overwrite_spec. destruct (_ <? _); [done|]. simpl snd. pose proof (index_tuple_size item Hit).
  destruct (lookup_lt_is_Some_2 (a_slots a) (Z.to_nat (i - 1)) ltac:(lia)) as [s Es]. unfold size_at. rewrite Es. simpl from_option.
  assert (Hst : is_stored s) by (rewrite Forall_lookup in Hs; by destruct (Hs _ _ Es)). destruct s as [| |f b]; try done. split; simpl.
  - apply Forall_insert; [done|]. by split.
  - unfold tight in *. simpl. rewrite length_insert, (sum_sizes_insert _ _ _ _ Es). simpl. lia.
Qed.

(** The routines refuse offset numbers that are not on the page. *)
Lemma delete_in_range p i p' : PageIndexTupleDelete p i = Ok p' -> 1 <= i <= nline p.
Proof.
  unfold PageIndexTupleDelete. destruct (header_corrupt p); [done|]. cbv zeta.
  destruct (Z.leb_spec i 0), (Z.ltb_spec (nline p) i); simpl; try done. lia.
Qed.

Lemma overwrite_in_range p i item r : PageIndexTupleOverwrite p i item = Ok r -> 1 <= i <= nline p.
Proof.
  unfold PageIndexTupleOverwrite. destruct (header_corrupt p); [done|]. cbv zeta.
  destruct (Z.leb_spec i 0), (Z.ltb_spec (nline p) i); simpl; try done. lia.
Qed.

Lemma index_all_stored p : index_page p -> forall i, 1 <= i <= nline p -> stored (pd_linp p i).
Proof. intros (Hv & Hs & _). apply all_stored; [done|]. by apply index_slots_stored. Qed.

Lemma index_delete_page p i p' : index_page p -> PageIndexTupleDelete p i = Ok p' -> index_page p'.
Proof.
  intros Hp E. pose proof (delete_in_range _ _ _ E) as Hi. pose proof (index_all_stored p Hp) as Hall. destruct Hp as (Hv & Ha).
  destruct (tuple_delete_refines p i Hv Hi (Hall i Hi) Hall) as (q & E' & Hq & Ea & _).
  rewrite E' in E. injection E as <-. split; [done|]. rewrite Ea. apply index_delete_spec; [|done]. simpl. by rewrite length_slots by apply Hv.
Qed.

(** Also of numbers that are not in order; up to two of them are accepted. *)
Lemma index_multi_page p junk its p' : index_page p -> PageIndexMultiDelete junk p its = Ok p' -> index_page p'.
Proof.
  intros Hp E. destruct (Nat.leb_spec (length its) 2) as [H2|H2].
  - unfold PageIndexMultiDelete in E. destruct (Nat.leb_spec (length its) 2); [|lia]. clear H2 H. revert p Hp E. generalize (length its) as k.
    induction k as [|k IH]; intros p Hp E; [by injection E as <-|]. simpl in E.
    destruct (PageIndexTupleDelete p (rd its k)) as [q|] eqn:Eq; [|done]. apply (IH q); [by eapply index_delete_page|done].
  - pose proof (index_count p Hp) as Hmax. pose proof (index_all_stored p Hp) as Hall. destruct Hp as (Hv & Ha).
    destruct (multi_scan_refines p Hv Hall Hmax junk its H2) as [H1 Hno].
    destruct (decide (in_order its (nline p))) as [Ho|Ho]; [|by rewrite Hno in E].
    destruct (H1 Ho) as (q & E' & Hq & Ea & _). rewrite E' in E. injection E as <-. split; [done|]. rewrite Ea. by apply index_multi_spec.
Qed.

Lemma index_step_page p p' : index_page p -> index_step p p' -> index_page p'.
Proof.
  intros Hp Hs. pose proof (index_all_stored p Hp) as Hall. pose proof Hp as (Hv & Ha). pose proof (length_slots p (v_nline _ Hv)) as Hlen.
  destruct Hs as [p item off ov n w p' Hit Ho E|p i Hi|p i p' E|p junk its p' E|p i item r p' Hit E].
  - destruct (PageAddItem_refines p item off ov false Hv ltac:(unfold index_tuple in Hit; lia) Ho) as (w' & q & E' & Hq & Ea & _).
    rewrite E' in E. injection E as _ _ <-. split; [done|]. rewrite Ea. by apply index_add_spec.
  - destruct (mark_dead_valid p i Hv Hi (Hall i Hi)) as [Hq Ea]. split; [done|]. rewrite Ea. by apply (index_kill_spec (abs p)).
  - by eapply index_delete_page.
  - by eapply index_multi_page.
  - pose proof (overwrite_in_range _ _ _ _ E) as Hi.
    destruct (overwrite_refines p i item Hv Hi (Hall i Hi) ltac:(unfold index_tuple in Hit; lia)) as (q & E' & Hq & Ea & _).
    rewrite E' in E. injection E as _ <-. split; [done|]. rewrite Ea. apply index_overwrite_spec; [done|simpl; lia|done].
Qed.

(** ** Index pages that keep their offset numbers *)

(** An access method that points to offset numbers deletes without compaction of the line
    pointers; its pages have free slots, and the other two deletions, which assert that
    every line pointer has an item, are not for them. *)
Inductive stable_step : Page -> Page -> Prop :=
| stable_insert p item off overwrite n w p' : (0 < length item)%nat -> 0 <= off ->
    PageAddItem p item off overwrite false = Ok (n, w, p') -> stable_step p p'
| stable_delete p i p' : stored (pd_linp p i) -> PageIndexTupleDeleteNoCompact p i = Ok p' -> stable_step p p'
| stable_overwrite p i item r p' : stored (pd_linp p i) -> (0 < length item)%nat ->
    PageIndexTupleOverwrite p i item = Ok (r, p') -> stable_step p p'.

Lemma no_compact_in_range p i p' : PageIndexTupleDeleteNoCompact p i = Ok p' -> 1 <= i <= nline p.
Proof.
  unfold PageIndexTupleDeleteNoCompact. destruct (header_corrupt p); [done|]. cbv zeta.
  destruct (Z.leb_spec i 0), (Z.ltb_spec (nline p) i); simpl; try done. lia.
Qed.

Lemma stable_step_valid p p' : valid p -> stable_step p p' -> valid p'.
Proof.
  intros Hv Hs. destruct Hs as [p item off ov n w p' Hl Ho E|p i p' Hst E|p i item r p' Hst Hl E].
  - destruct (PageAddItem_refines p item off ov false Hv Hl Ho) as (w' & q & E' & Hq & _). rewrite E' in E. by injection E as _ _ <-.
  - pose proof (no_compact_in_range _ _ _ E) as Hi. destruct (no_compact_refines p i Hv Hi Hst) as (q & E' & Hq & _).
    rewrite E' in E. by injection E as <-.
  - pose proof (overwrite_in_range _ _ _ _ E) as Hi. destruct (overwrite_refines p i item Hv Hi Hst Hl) as (q & E' & Hq & _).
    rewrite E' in E. by injection E as _ <-.
Qed.

Lemma empty_index_page specialSize : 0 <= specialSize -> MAXALIGN specialSize + SizeOfPageHeaderData <= BLCKSZ ->
  index_page (PageInit BLCKSZ specialSize).
Proof. intros H1 H2. destruct (PageInit_valid specialSize H1 H2) as [Hv Ea]. split; [done|]. rewrite Ea. split; [constructor|]. unfold tight. simpl. lia. Qed.

Lemma empty_wide_page specialSize : 0 <= specialSize -> MAXALIGN specialSize + SizeOfPageHeaderData <= BLCKSZ ->
  wide_page (PageInit BLCKSZ specialSize).
Proof. intros H1 H2. destruct (PageInit_valid specialSize H1 H2) as [Hv _]. by split. Qed.

(** What every step keeps holds after any number of steps. *)
Lemma rtc_keeps {A} {R : A -> A -> Prop} {P : A -> Prop} (Hstep : forall x y, P x -> R x y -> P y) x y : P x -> rtc R x y -> P y.
Proof. intros Hx Hr. induction Hr; eauto. Qed.

Lemma empty_heap_page specialSize : 0 <= specialSize -> MAXALIGN specialSize + SizeOfPageHeaderData <= BLCKSZ ->
  heap_page (PageInit BLCKSZ specialSize).
Proof.
  intros H1 H2. destruct (PageInit_valid specialSize H1 H2) as [Hv _]. split; [done|]. change (nline (PageInit BLCKSZ specialSize)) with 0.
  pose proof block_bounds. unfold MaxHeapTuplesPerPage, SizeOfPageHeaderData, sizeof_ItemIdData. apply Z.div_pos; lia.
Qed.

(** ** Free space *)

Lemma free_space_eq p : valid p -> PageGetFreeSpace p = Z.max 0 (a_free (abs p) - sizeof_ItemIdData).
Proof. intros Hv. unfold PageGetFreeSpace, sizeof_ItemIdData. simpl. destruct (Z.ltb_spec (pd_upper p - pd_lower p) 4); lia. Qed.

Lemma existsb_free p : valid p ->
  existsb (fun i => negb (ItemIdIsUsed (PageGetItemId p i))) (seqZ 1 (nline p)) = has_free (slots p).
Proof.
  intros Hv. unfold has_free, slots, PageGetItemId. induction (seqZ 1 (nline p)) as [|i l IH]; simpl; [done|].
  by rewrite (unused_free p i), IH.
Qed.

Lemma has_free_first l : has_free l = match first_free l with Some _ => true | None => false end.
Proof.
  induction l as [|s l IH]; [done|]. unfold has_free in *. simpl. rewrite IH. destruct s; simpl; [done|..]; by destruct (first_free l).
Qed.

Lemma first_free_lt l k : first_free l = Some k -> (k < length l)%nat.
Proof.
  revert k. induction l as [|s l IH]; intros k; simpl; [done|].
  destruct s; [by intros [= <-]; lia|..]; intros (j & Hj & ->)%fmap_Some; specialize (IH j Hj); lia.
Qed.

(** What PageGetHeapFreeSpace promises is there: such an item is accepted. *)
Lemma heap_free_space_fits p item : heap_page p -> (0 < length item)%nat ->
  MAXALIGN (Z.of_nat (length item)) <= PageGetHeapFreeSpace p ->
  0 < fst (add_spec (abs p) item InvalidOffsetNumber false true).
Proof.
  intros [Hv Hn] Hl. pose proof (MAXALIGN_spec (Z.of_nat (length item))) as [Hal _]. pose proof (free_space_eq p Hv) as Efs.
  pose proof (v_nline _ Hv). pose proof (length_slots p ltac:(done)) as Hlen. unfold PageGetHeapFreeSpace. rewrite (existsb_free p Hv), has_free_first.
  intros Hfit. unfold add_spec, choose. change (OffsetNumberIsValid InvalidOffsetNumber) with false. cbv iota. change (a_hint (abs p)) with (PageHasFreeLinePointers p).
  change (a_slots (abs p)) with (slots p). rewrite Hlen. unfold sizeof_ItemIdData in *.
  destruct (Z.ltb_spec 0 (PageGetFreeSpace p)); [|lia]. destruct (Z.leb_spec MaxHeapTuplesPerPage (nline p)).
  - destruct (PageHasFreeLinePointers p); [|lia]. destruct (first_free (slots p)) as [k|] eqn:Ek; [|lia].
    pose proof (first_free_lt _ _ Ek). simpl andb. destruct (Z.ltb_spec MaxHeapTuplesPerPage (Z.of_nat k + 1)); [lia|].
    destruct (Z.ltb_spec (a_free (abs p)) (MAXALIGN (Z.of_nat (length item)) + 0)); simpl; lia.
  - destruct (if PageHasFreeLinePointers p then _ else _) as [k|] eqn:Ek.
    + destruct (PageHasFreeLinePointers p); [|done]. pose proof (first_free_lt _ _ Ek). simpl andb. destruct (Z.ltb_spec MaxHeapTuplesPerPage (Z.of_nat k + 1)); [lia|].
      destruct (Z.ltb_spec (a_free (abs p)) (MAXALIGN (Z.of_nat (length item)) + 0)); simpl; lia.
    + simpl andb. destruct (Z.ltb_spec MaxHeapTuplesPerPage (nline p + 1)); [lia|].
      destruct (Z.ltb_spec (a_free (abs p)) (MAXALIGN (Z.of_nat (length item)) + 4)); simpl; lia.
Qed.

(** As does PageGetFreeSpace for a new line pointer. *)
Lemma free_space_fits p item off : valid p -> (0 < length item)%nat -> 1 <= off <= nline p + 1 -> off <= MaxOffsetNumber ->
  MAXALIGN (Z.of_nat (length item)) <= PageGetFreeSpace p -> fst (add_spec (abs p) item off false false) = off.
Proof.
  intros Hv Hl Hoff Hmax Hfit. pose proof (MAXALIGN_spec (Z.of_nat (length item))) as [Hal _]. rewrite (free_space_eq p Hv) in Hfit.
  pose proof (length_slots p (v_nline _ Hv)) as Hlen. unfold add_spec, choose, OffsetNumberIsValid, InvalidOffsetNumber.
  change (a_slots (abs p)) with (slots p). rewrite Hlen. unfold sizeof_ItemIdData in *.
  destruct (Z.eqb_spec off 0), (Z.leb_spec off MaxOffsetNumber), (Z.ltb_spec (nline p + 1) off); try lia. simpl andb.
  cbn [negb]. cbv iota. destruct (Z.ltb_spec (a_free (abs p)) (MAXALIGN (Z.of_nat (length item)) + 4)); [lia|done].
Qed.

(** An item that is accepted is read back. *)
Lemma add_spec_lookup a item off overwrite is_heap : 0 <= off -> let r := add_spec a item off overwrite is_heap in
  0 < fst r -> a_slots (snd r) !! Z.to_nat (fst r - 1) = Some (Stored LP_NORMAL item).
Proof.
  intros Hoff. cbv zeta. unfold add_spec. destruct (choose a off overwrite) as [[r reuse]|] eqn:E; [|simpl; lia].
  destruct (_ && _); [simpl; lia|]. destruct (_ <? _); [simpl; lia|]. simpl. intros Hr.
  assert (Hin : r <= Z.of_nat (length (a_slots a)) + 1 /\ (reuse = true -> r <= Z.of_nat (length (a_slots a)))).
  { unfold choose in E. destruct (OffsetNumberIsValid off).
    - destruct (Z.ltb_spec (Z.of_nat (length (a_slots a)) + 1) off); [done|]. destruct (overwrite && (off <? _)) eqn:Eo.
      + apply andb_true_iff in Eo as [_ Eo%Z.ltb_lt]. destruct (decide _); [|done]. injection E as <- <-. lia.
      + injection E as <- <-. by split; [lia|].
    - destruct (if a_hint a then _ else _) as [k|] eqn:Ek; injection E as <- <-; [|by split; [lia|]].
      destruct (a_hint a); [|done]. apply first_free_lt in Ek. lia. }
  rewrite put_slot_lookup by (lia || tauto). by rewrite Z.eqb_refl.
Qed.

Lemma slots_abs p : a_slots (abs p) = slots p.
Proof. done. Qed.
End life.
