(* ===== verification/BufPageProps.v ===== *)
(** The contracts of slotted pages (backend/storage/page/bufpage.c), with witnesses on
    pages of 8192 bytes. *)

From S2P Require Import Prelude BufPage BufPageSpec BufPageAdd BufPageCompact BufPageRepair BufPageIndex BufPageMulti BufPageLife.
Local Open Scope Z_scope.
Local Open Scope pg_scope.

(** ** Sample pages *)

Module Pages.
#[export] Instance block8k : block_size := 8192.
#[export] Instance block8k_ok : block_ok block8k.
Proof. split; [by exists 1024|done]. Qed.

Definition junk : Z -> Z := fun i => i mod 251.
Definition tuple (n : nat) (b : Z) : list Z := replicate n b.

Definition page_of (r : res (Z * option string * Page)) : Page :=
  match r with Ok (_, _, p) => p | Err _ => PageInit 0 0 end.
Definition ok_page (r : res Page) : Page := match r with Ok p => p | Err _ => PageInit 0 0 end.

Definition add (item : list Z) (p : Page) : Page := page_of (PageAddItem p item 0 false false).
Definition heap_add (item : list Z) (p : Page) : Page := page_of (PageAddItem p item 0 false true).

(** A heap page with a dead, a redirected and two free line pointers between and
    behind its tuples. *)
Definition empty : Page := PageInit BLCKSZ 0.
Definition heap5 : Page :=
  heap_add (tuple 30 5) (heap_add (tuple 40 4) (heap_add (tuple 50 3) (heap_add (tuple 25 2) (heap_add (tuple 33 1) empty)))).
Definition pruned : Page := set_item 5 ItemIdUnused (set_item 2 (ItemIdRedirect 4) (set_item 1 ItemIdUnused heap5)).

(** An index page with five tuples. *)
Definition index5 : Page :=
  add (tuple 16 5) (add (tuple 24 4) (add (tuple 17 3) (add (tuple 40 2) (add (tuple 16 1) (PageInit BLCKSZ 16))))).


Lemma heap_add_page item p : heap_page p -> (0 < length item)%nat -> heap_page (heap_add item p).
Proof.
  intros Hp Hl. destruct (PageAddItem_refines p item 0 false true (proj1 Hp) Hl ltac:(done)) as (w & q & E & _).
  unfold heap_add. rewrite E. by eapply heap_insert_page; [..|right|exact E].
Qed.

Lemma add_index_step item p : index_page p -> index_tuple item -> index_step p (add item p).
Proof.
  intros Hp Hl. destruct (PageAddItem_refines p item 0 false false (proj1 Hp) ltac:(unfold index_tuple in Hl; lia) ltac:(done)) as (w & q & E & _).
  unfold add. rewrite E. by eapply index_insert.
Qed.

(** An index page made by insertions. *)
Definition grown (special : Z) (p : Page) : Prop := rtc index_step (PageInit BLCKSZ special) p /\ index_page p.

Lemma add_grown special item p : grown special p -> index_tuple item -> grown special (add item p).
Proof. intros [Hr Hp] Hl. pose proof (add_index_step item p Hp Hl) as Hs. split; [by eapply rtc_r|by eapply index_step_page]. Qed.

Lemma heap5_page : heap_page heap5.
Proof. unfold heap5. do 5 (apply heap_add_page; [|simpl; lia]). apply empty_heap_page; done. Qed.

Lemma pruned_page : heap_page pruned.
Proof.
  unfold pruned. eapply heap_step_page; [|apply heap_unused; by vm_compute]. eapply heap_step_page; [|apply heap_redirect; by vm_compute].
  eapply heap_step_page; [exact heap5_page|apply heap_unused; by vm_compute].
Qed.

Lemma index5_grown : grown 16 index5.
Proof.
  unfold index5. do 5 (apply add_grown; [|unfold index_tuple; simpl; lia]). split; [apply rtc_refl|]. apply empty_index_page; done.
Qed.

Lemma index5_page : index_page index5.
Proof. apply index5_grown. Qed.
End Pages.

(** ** Insertion *)

Section contracts.
Context {bs : block_size} {Hb : block_ok bs}.

(** C28: PageAddItemExtended does to the slots of a valid page what [add_spec] says,
    on every branch: an item goes into the first free slot when the hint says that
    there is one and no number was asked for, into the free slot asked for, in front of
    the slot with the number asked for, or at the end; it is refused, and the slots
    left alone, when the slot is used, the number too large, the limit of heap pages
    passed or the space too small.  The page stays valid, a wrong hint is cleared, and
    bytes change in the free space only. *)
Theorem page_add_item_refines p item off flags :
  valid p -> (0 < length item)%nat -> 0 <= off ->
  let a := add_spec (abs p) item off (negb (Z.land flags PAI_OVERWRITE =? 0)) (negb (Z.land flags PAI_IS_HEAP =? 0)) in
  exists w p', PageAddItemExtended p item off flags = Ok (fst a, w, p') /\ valid p' /\ abs p' = snd a
    /\ (forall i, i < pd_lower p' \/ pd_upper p <= i -> pd_data p' i = pd_data p i).
Proof. apply add_item_refines. Qed.

(** The free space that is reported is there.  A tuple whose aligned length is at
    most PageGetHeapFreeSpace is accepted by a heap page and read back under the offset
    number returned, even when the page has all the line pointers it may have; an item
    within PageGetFreeSpace is accepted by any page at any number up to the next new
    one. *)
Theorem free_space_promise p item :
  (0 < length item)%nat ->
  (heap_page p -> MAXALIGN (Z.of_nat (length item)) <= PageGetHeapFreeSpace p ->
   exists n w p', PageAddItem p item InvalidOffsetNumber false true = Ok (n, w, p') /\ 0 < n
     /\ slots p' !! Z.to_nat (n - 1) = Some (Stored LP_NORMAL item))
  /\ (forall off, valid p -> 1 <= off <= nline p + 1 -> off <= MaxOffsetNumber ->
      MAXALIGN (Z.of_nat (length item)) <= PageGetFreeSpace p ->
      exists w p', PageAddItem p item off false false = Ok (off, w, p')
        /\ slots p' !! Z.to_nat (off - 1) = Some (Stored LP_NORMAL item)).
Proof.
  intros Hl. split.
  - intros Hp Hfit. pose proof (heap_free_space_fits p item Hp Hl Hfit) as Hn.
    destruct (PageAddItem_refines p item InvalidOffsetNumber false true (proj1 Hp) Hl ltac:(done)) as (w & q & E & _ & Ea & _).
    do 3 eexists. split; [exact E|]. split; [done|]. rewrite <- slots_abs, Ea. by apply add_spec_lookup.
  - intros off Hv Hoff Hmax Hfit. pose proof (free_space_fits p item off Hv Hl Hoff Hmax Hfit) as Hn.
    destruct (PageAddItem_refines p item off false false Hv Hl ltac:(lia)) as (w & q & E & _ & Ea & _). rewrite Hn in E.
    do 2 eexists. split; [exact E|]. rewrite <- slots_abs, Ea.
    pose proof (add_spec_lookup (abs p) item off false false ltac:(lia)) as Hlk. cbv zeta in Hlk. rewrite Hn in Hlk. apply Hlk. lia.
Qed.

(** ** Heap pages *)

(** C26: PageRepairFragmentation keeps every tuple, stub and free slot of a heap page
    under its offset number with its bytes, wherever they move; gaps between tuples
    disappear, free slots at the end are given up, and the hint tells whether a free
    slot is left.  It works in place or through the scratch block, whatever that holds,
    and changes no byte of the header, the line pointers or the special space.
    PageTruncateLinePointerArray gives up the free slots at the end but the first, and
    moves nothing. *)
Theorem page_compaction_refines p junk :
  heap_page p ->
  (exists p', PageRepairFragmentation junk p = Ok p' /\ valid p' /\ abs p' = repair_spec (abs p)
    /\ (forall i, i < pd_upper p' \/ pd_special p <= i -> pd_data p' i = pd_data p i))
  /\ (let p' := PageTruncateLinePointerArray p in valid p' /\ abs p' = truncate_spec (abs p) /\ pd_data p' = pd_data p).
Proof. intros [Hv Hn]. split; [apply repair_refines; [done|]; etrans; [apply collect_length, Hv|done]|by apply truncate_refines]. Qed.

(** ** Index pages *)

(** On an index page PageIndexTupleDelete removes a slot and numbers the rest
    anew; PageIndexTupleDeleteNoCompact frees the slot, or gives it up if it is the
    last, and leaves the other numbers; PageIndexTupleOverwrite replaces the bytes of an
    item, or says that there is no room and changes nothing.  The space becomes free,
    all other items keep their bytes, and nothing outside the item space changes. *)
Theorem index_item_refines p m item :
  valid p -> 1 <= m <= nline p -> stored (pd_linp p m) -> (0 < length item)%nat ->
  (Forall is_stored (slots p) ->
   exists p', PageIndexTupleDelete p m = Ok p' /\ valid p' /\ abs p' = delete_spec m (abs p)
     /\ (forall i, i < pd_upper p \/ pd_special p <= i -> pd_data p' i = pd_data p i))
  /\ (exists p', PageIndexTupleDeleteNoCompact p m = Ok p' /\ valid p' /\ abs p' = free_spec m (abs p)
     /\ (forall i, i < pd_upper p \/ pd_special p <= i -> pd_data p' i = pd_data p i))
  /\ (exists p', PageIndexTupleOverwrite p m item = Ok (fst (overwrite_spec m item (abs p)), p') /\ valid p'
     /\ abs p' = snd (overwrite_spec m item (abs p))
     /\ (forall i, i < pd_lower p \/ pd_special p <= i -> pd_data p' i = pd_data p i)).
Proof.
  intros Hv Hm Hs Hl. split; [|split].
  - intros Hall. apply tuple_delete_refines; try done. by apply all_stored.
  - by apply no_compact_refines.
  - by apply overwrite_refines.
Qed.

(** C29: PageIndexMultiDelete, whether it deletes one by one or rebuilds the page,
    leaves exactly the items that were not named, in their order and without gaps, when
    the numbers are in order; more than two numbers that are not in order, or not on the
    page, are an error. *)
Theorem index_multi_delete_refines p junk itemnos :
  index_page p ->
  (in_order itemnos (nline p) ->
   exists p', PageIndexMultiDelete junk p itemnos = Ok p' /\ valid p' /\ abs p' = multi_spec itemnos (abs p)
     /\ (forall i, i < pd_upper p \/ pd_special p <= i -> pd_data p' i = pd_data p i))
  /\ ((2 < length itemnos)%nat -> ~ in_order itemnos (nline p) ->
      PageIndexMultiDelete junk p itemnos = Err "incorrect index offsets supplied"%string).
Proof.
  intros Hp. pose proof (index_count p Hp) as Hmax. destruct Hp as (Hv & Hs & Ht). apply index_slots_stored in Hs. split.
  - by apply multi_refines.
  - intros Hlen Hord. apply multi_scan_refines; try done. by apply all_stored.
Qed.

(** ** Over the life of a page *)

End contracts.

(** ** Witnesses *)

Section witnesses.
Import Pages.

(** A tuple takes the first free slot, number 1, of a page whose hint is set. *)
Lemma page_add_item_refines_witness :
  let p := PageSetHasFreeLinePointers pruned in
  fst (add_spec (abs p) (tuple 20 9) 0 false true) = 1
  /\ exists w p', PageAddItemExtended p (tuple 20 9) 0 PAI_IS_HEAP = Ok (1, w, p') /\ valid p'.
Proof.
  intros p. assert (Hp : valid p) by (apply (heap_step_page pruned p pruned_page); apply (heap_hint true pruned true)).
  destruct (page_add_item_refines p (tuple 20 9) 0 PAI_IS_HEAP Hp ltac:(simpl; lia) ltac:(done)) as (w & p' & E & Hv & _).
  split; [vm_compute; reflexivity|]. exists w, p'. split; [|exact Hv]. rewrite E. do 2 f_equal; vm_compute; reflexivity.
Defined.

(** A page with 291 line pointers has room for a tuple in a free slot. *)
Definition full_lines : Page :=
  PageSetHasFreeLinePointers (set_item 7 ItemIdUnused (Nat.iter 291 (heap_add (tuple 8 1)) empty)).

Lemma full_lines_page : heap_page full_lines.
Proof.
  unfold full_lines. eapply (heap_step_page _ (flagged true _)); [|apply heap_hint]. eapply heap_step_page; [|apply heap_unused; by vm_compute].
  generalize 291%nat as n. induction n as [|n IH]; [apply empty_heap_page; done|]. apply heap_add_page; [exact IH|simpl; lia].
Qed.

Lemma free_space_promise_witness :
  nline full_lines = MaxHeapTuplesPerPage /\ PageGetHeapFreeSpace full_lines = 4672
  /\ exists n w p', PageAddItem full_lines (tuple 4672 9) InvalidOffsetNumber false true = Ok (n, w, p') /\ 0 < n.
Proof.
  split; [vm_compute; reflexivity|]. split; [vm_compute; reflexivity|].
  destruct (proj1 (free_space_promise full_lines (tuple 4672 9) ltac:(unfold tuple; rewrite length_replicate; lia)) full_lines_page) as (n & w & p' & E & Hn & _);
    [vm_compute; discriminate|]. exists n, w, p'. split; [exact E|exact Hn].
Defined.

Lemma page_compaction_refines_witness :
  exists p', PageRepairFragmentation junk pruned = Ok p'
    /\ abs p' = mk_apage [Free; Bare LP_REDIRECT 4; Stored LP_NORMAL (tuple 50 3); Stored LP_NORMAL (tuple 40 4)] 8056 true 8168.
Proof.
  destruct (page_compaction_refines pruned junk pruned_page) as [(p' & E & _ & Ea & _) _]. exists p'. split; [exact E|].
  rewrite Ea. vm_compute. reflexivity.
Defined.

Lemma index_item_refines_witness :
  (exists p', PageIndexTupleDelete index5 2 = Ok p' /\ length (slots p') = 4%nat)
  /\ (exists p', PageIndexTupleDeleteNoCompact index5 2 = Ok p' /\ slots p' !! 1%nat = Some Free)
  /\ exists p', PageIndexTupleOverwrite index5 2 (tuple 100 7) = Ok (true, p') /\ slots p' !! 1%nat = Some (Stored LP_NORMAL (tuple 100 7)).
Proof.
  destruct (index_item_refines index5 2 (tuple 100 7) (proj1 index5_page) ltac:(by vm_compute) ltac:(by vm_compute) ltac:(simpl; lia))
    as (H1 & (p2 & E2 & _ & Ea2 & _) & (p3 & E3 & _ & Ea3 & _)).
  destruct H1 as (p1 & E1 & _ & Ea1 & _); [apply index_slots_stored, index5_page|].
  split; [|split].
  - exists p1. split; [exact E1|]. rewrite <- slots_abs, Ea1. vm_compute. reflexivity.
  - exists p2. split; [exact E2|]. rewrite <- slots_abs, Ea2. vm_compute. reflexivity.
  - exists p3. split; [exact E3|]. rewrite <- slots_abs, Ea3. vm_compute. reflexivity.
Defined.

Lemma index_multi_delete_refines_witness :
  (exists p', PageIndexMultiDelete junk index5 [1; 3; 5] = Ok p'
     /\ slots p' = [Stored LP_NORMAL (tuple 40 2); Stored LP_NORMAL (tuple 24 4)])
  /\ PageIndexMultiDelete junk index5 [1; 5; 3] = Err "incorrect index offsets supplied"%string.
Proof.
  split.
  - destruct (proj1 (index_multi_delete_refines index5 junk [1; 3; 5] index5_page)) as (p' & E & _ & Ea & _).
    + split; [repeat constructor|]. vm_compute. repeat constructor; discriminate.
    + exists p'. split; [exact E|]. rewrite <- slots_abs, Ea. vm_compute. reflexivity.
  - apply (proj2 (index_multi_delete_refines index5 junk [1; 5; 3] index5_page)); [simpl; lia|].
    intros [Hs _]. apply StronglySorted_inv in Hs as [Hs _]. apply StronglySorted_inv in Hs as [_ Hs]. apply Forall_cons_1 in Hs as [Hs _]. lia.
Defined.

(** A full heap page that got one line pointer more after the first of its tuples was
    removed, and pages from which an item is deleted. *)
Definition packed : Page := Nat.iter 291 (heap_add (tuple 24 1)) empty.
Definition crowded : Page :=
  page_of (PageAddItem (ok_page (PageRepairFragmentation junk (set_item 1 ItemIdUnused packed))) (tuple 24 2) 1 false true).

Lemma packed_reached n : rtc (heap_step false) empty (Nat.iter n (heap_add (tuple 24 1)) empty).
Proof.
  pose proof (empty_wide_page 0 ltac:(done) ltac:(by vm_compute)) as H0.
  induction n as [|n IH]; [apply rtc_refl|]. eapply rtc_r; [exact IH|]. simpl. set (p := Nat.iter n _ _) in *. clearbody p.
  pose proof (rtc_keeps (heap_step_wide false) _ _ H0 IH) as Hp.
  destruct (PageAddItem_refines p (tuple 24 1) 0 false true (proj1 Hp) ltac:(simpl; lia) ltac:(done)) as (w & q & E & _).
  unfold heap_add. rewrite E. eapply heap_insert; [..|exact E]; [unfold heap_tuple, tuple; rewrite length_replicate; lia|done|by right].
Qed.

Lemma crowded_reached : rtc (heap_step false) empty crowded.
Proof.
  pose proof (empty_wide_page 0 ltac:(done) ltac:(by vm_compute)) as H0. change (PageInit BLCKSZ 0) with empty in H0.
  assert (Hr : rtc (heap_step false) empty packed) by (unfold packed; apply packed_reached).
  pose proof (rtc_keeps (heap_step_wide false) _ _ H0 Hr) as Hw.
  assert (S1 : heap_step false packed (set_item 1 ItemIdUnused packed)) by (apply heap_unused; by vm_compute).
  pose proof (heap_step_wide _ _ _ Hw S1) as Hw1. destruct (repair_wide _ junk Hw1) as (q & E & Hq & _).
  pose proof (heap_repair false _ _ _ E) as S2. unfold crowded. rewrite E. cbn [ok_page].
  destruct (PageAddItem_refines q (tuple 24 2) 1 false true Hq ltac:(simpl; lia) ltac:(done)) as (w & q' & E' & _).
  eapply rtc_r; [eapply rtc_r; [eapply rtc_r; [exact Hr|exact S1]|exact S2]|]. rewrite E'.
  eapply heap_insert; [..|exact E']; [unfold heap_tuple, tuple; rewrite length_replicate; lia|done|done].
Qed.

Lemma stable_reached : rtc stable_step (PageInit BLCKSZ 16) (add (tuple 24 1) (PageInit BLCKSZ 16)).
Proof.
  apply rtc_once. destruct (PageInit_valid 16 ltac:(done) ltac:(by vm_compute)) as [Hv _].
  destruct (PageAddItem_refines (PageInit BLCKSZ 16) (tuple 24 1) 0 false false Hv ltac:(simpl; lia) ltac:(done)) as (w & q & E & _).
  unfold add. rewrite E. eapply stable_insert; [..|exact E]; [simpl; lia|done].
Qed.


(** A page whose second line pointer says that its item reaches far behind the block. *)
Definition corrupt : Page :=
  set_linp (fun i => if i =? 1 then ItemIdNormal 8000 8 else if i =? 2 then ItemIdNormal 8184 4000 else ItemIdDead)
    (set_upper 8000 (set_lower (24 + 4 * 12) empty)).

(** The checks of PageRepairFragmentation do not see that the item of [corrupt] ends
    behind the block: it is copied past the end of the scratch block. *)
Example repair_overrun : header_corrupt corrupt = false /\ PageRepairFragmentation junk corrupt = Err out_of_bounds.
Proof. vm_compute. done. Qed.

(** Insertion in front of another item is not counted against the limit of a heap page:
    a page with 291 line pointers gets another one, and is too large for
    PageRepairFragmentation. *)
Definition full : Page := Nat.iter 291 (heap_add (tuple 8 1)) empty.
Definition overfull : Page := page_of (PageAddItem full (tuple 8 2) 1 false true).

Example heap_limit_passed :
  nline full = MaxHeapTuplesPerPage /\ nline overfull = MaxHeapTuplesPerPage + 1
  /\ PageRepairFragmentation junk overfull = Err out_of_bounds.
Proof. vm_compute. done. Qed.
End witnesses.
