(* ===== verification/Numeric.v ===== *)
(** Numeric values: backend/utils/adt/numeric.c.

    A number is a sign, a weight and digits of base 10000; the packed form puts sign,
    display scale and weight into a header of one or two words.  A variable keeps the
    cells of its buffer that lie in front of its digits, the nearest first: rounding
    may carry into them.  [int] is 32 bits wide where sums may grow; an overflow, an
    access outside the buffer and a failed assertion are errors. *)

From S2P Require Import Prelude.
Local Open Scope Z_scope.
Local Open Scope pg_scope.

Definition NBASE : Z := 10000.
Definition HALF_NBASE : Z := 5000.
Definition DEC_DIGITS : Z := 4.
Definition MUL_GUARD_DIGITS : Z := 2.

(** ** The packed format *)

Definition NUMERIC_SIGN_MASK : Z := 0xC000.
Definition NUMERIC_POS : Z := 0x0000.
Definition NUMERIC_NEG : Z := 0x4000.
Definition NUMERIC_SHORT : Z := 0x8000.
Definition NUMERIC_SPECIAL : Z := 0xC000.
Definition NUMERIC_EXT_SIGN_MASK : Z := 0xF000.
Definition NUMERIC_NAN : Z := 0xC000.
Definition NUMERIC_PINF : Z := 0xD000.
Definition NUMERIC_NINF : Z := 0xF000.
Definition NUMERIC_INF_SIGN_MASK : Z := 0x2000.
Definition NUMERIC_SHORT_SIGN_MASK : Z := 0x2000.
Definition NUMERIC_SHORT_DSCALE_MASK : Z := 0x1F80.
Definition NUMERIC_SHORT_DSCALE_SHIFT : Z := 7.
Definition NUMERIC_SHORT_DSCALE_MAX : Z := Z.shiftr NUMERIC_SHORT_DSCALE_MASK NUMERIC_SHORT_DSCALE_SHIFT.
Definition NUMERIC_SHORT_WEIGHT_SIGN_MASK : Z := 0x0040.
Definition NUMERIC_SHORT_WEIGHT_MASK : Z := 0x003F.
Definition NUMERIC_SHORT_WEIGHT_MAX : Z := NUMERIC_SHORT_WEIGHT_MASK.
Definition NUMERIC_SHORT_WEIGHT_MIN : Z := - (NUMERIC_SHORT_WEIGHT_MASK + 1).
Definition NUMERIC_DSCALE_MASK : Z := 0x3FFF.
Definition NUMERIC_DSCALE_MAX : Z := NUMERIC_DSCALE_MASK.
Definition NUMERIC_MAX_RESULT_SCALE : Z := 2000.

(** [n_weight] is present in the long form only. *)
Record Numeric : Set := mk_numeric { n_header : Z; n_weight : Z; n_data : list Z }.

Definition NUMERIC_FLAGBITS (n : Numeric) : Z := Z.land (n_header n) NUMERIC_SIGN_MASK.
Definition NUMERIC_IS_SHORT (n : Numeric) : bool := NUMERIC_FLAGBITS n =? NUMERIC_SHORT.
Definition NUMERIC_IS_SPECIAL (n : Numeric) : bool := NUMERIC_FLAGBITS n =? NUMERIC_SPECIAL.
Definition NUMERIC_HEADER_IS_SHORT (n : Numeric) : bool := negb (Z.land (n_header n) 0x8000 =? 0).
Definition NUMERIC_EXT_FLAGBITS (n : Numeric) : Z := Z.land (n_header n) NUMERIC_EXT_SIGN_MASK.
Definition NUMERIC_IS_NAN (n : Numeric) : bool := n_header n =? NUMERIC_NAN.
Definition NUMERIC_IS_PINF (n : Numeric) : bool := n_header n =? NUMERIC_PINF.
Definition NUMERIC_IS_NINF (n : Numeric) : bool := n_header n =? NUMERIC_NINF.
Definition NUMERIC_SIGN (n : Numeric) : Z :=
  if NUMERIC_IS_SHORT n then
    if negb (Z.land (n_header n) NUMERIC_SHORT_SIGN_MASK =? 0) then NUMERIC_NEG else NUMERIC_POS
  else if NUMERIC_IS_SPECIAL n then NUMERIC_EXT_FLAGBITS n else NUMERIC_FLAGBITS n.
Definition NUMERIC_DSCALE (n : Numeric) : Z :=
  if NUMERIC_HEADER_IS_SHORT n
  then Z.shiftr (Z.land (n_header n) NUMERIC_SHORT_DSCALE_MASK) NUMERIC_SHORT_DSCALE_SHIFT
  else Z.land (n_header n) NUMERIC_DSCALE_MASK.
Definition NUMERIC_WEIGHT (n : Numeric) : Z :=
  if NUMERIC_HEADER_IS_SHORT n
  then Z.lor (if negb (Z.land (n_header n) NUMERIC_SHORT_WEIGHT_SIGN_MASK =? 0) then Z.lnot NUMERIC_SHORT_WEIGHT_MASK else 0)
         (Z.land (n_header n) NUMERIC_SHORT_WEIGHT_MASK)
  else n_weight n.
Definition NUMERIC_DIGITS (n : Numeric) : list Z := n_data n.
Definition NUMERIC_NDIGITS (n : Numeric) : Z := Z.of_nat (length (n_data n)).
Definition NUMERIC_CAN_BE_SHORT (scale weight : Z) : bool :=
  (scale <=? NUMERIC_SHORT_DSCALE_MAX) && (weight <=? NUMERIC_SHORT_WEIGHT_MAX)
  && (NUMERIC_SHORT_WEIGHT_MIN <=? weight).

(** ** Variables *)

Record NumericVar : Set := mk_var { spare : list Z; digits : list Z; weight : Z; sign : Z; dscale : Z }.

Definition ndigits (v : NumericVar) : Z := Z.of_nat (length (digits v)).

Definition set_sign (s : Z) (v : NumericVar) : NumericVar := mk_var (spare v) (digits v) (weight v) s (dscale v).
Definition set_dscale (s : Z) (v : NumericVar) : NumericVar := mk_var (spare v) (digits v) (weight v) (sign v) s.

Definition const_nan : NumericVar := mk_var [] [] 0 NUMERIC_NAN 0.
Definition const_pinf : NumericVar := mk_var [] [] 0 NUMERIC_PINF 0.
Definition const_ninf : NumericVar := mk_var [] [] 0 NUMERIC_NINF 0.

(** [zero_var(result); result->dscale = dscale] *)
Definition zero_var (dscale : Z) : NumericVar := mk_var [] [] 0 NUMERIC_POS dscale.

Definition set_var_from_num (num : Numeric) : NumericVar :=
  mk_var [0] (NUMERIC_DIGITS num) (NUMERIC_WEIGHT num) (NUMERIC_SIGN num) (NUMERIC_DSCALE num).
(** The digits of the packed value are used in place: nothing may be written to them. *)
Definition init_var_from_num (num : Numeric) : NumericVar :=
  mk_var [] (NUMERIC_DIGITS num) (NUMERIC_WEIGHT num) (NUMERIC_SIGN num) (NUMERIC_DSCALE num).
Definition set_var_from_var (value : NumericVar) : NumericVar :=
  mk_var [0] (digits value) (weight value) (sign value) (dscale value).

(** *** Stripping zeroes *)

(** [while (ndigits > 0 && *digits == 0)] *)
Fixpoint strip_leading (front ds : list Z) (w : Z) : list Z * list Z * Z :=
  match ds with
  | [] => (front, [], w)
  | d :: ds' => if d =? 0 then strip_leading (d :: front) ds' (w - 1) else (front, ds, w)
  end.

(** [while (ndigits > 0 && digits[ndigits - 1] == 0)]: how many digits are left. *)
Fixpoint strip_trailing (n : nat) (ds : list Z) : nat :=
  match n with
  | O => O
  | S k => if rd ds k =? 0 then strip_trailing k ds else n
  end.

Definition strip_var (v : NumericVar) : NumericVar :=
  let '(front, ds, w) := strip_leading (spare v) (digits v) (weight v) in
  let n := strip_trailing (length ds) ds in
  if (n =? 0)%nat then mk_var front [] 0 NUMERIC_POS (dscale v)
  else mk_var front (take n ds) w (sign v) (dscale v).

(** *** Comparison *)

(** Digits before the first common one: true if one of them is not zero; else the digits
    that are left, and the weight of the first. *)
Fixpoint skip_higher (ds : list Z) (w other : Z) : bool * list Z * Z :=
  match ds with
  | [] => (false, [], w)
  | d :: ds' =>
      if other <? w then if negb (d =? 0) then (true, ds', w) else skip_higher ds' (w - 1) other
      else (false, ds, w)
  end.

(** The digits both have: the first difference, or the digits that are left. *)
Fixpoint cmp_digits (ds1 ds2 : list Z) : Z + (list Z * list Z) :=
  match ds1, ds2 with
  | d1 :: ds1', d2 :: ds2' =>
      let stat := d1 - d2 in
      if negb (stat =? 0) then inl (if 0 <? stat then 1 else -1) else cmp_digits ds1' ds2'
  | _, _ => inr (ds1, ds2)
  end.

Definition any_nonzero (ds : list Z) : bool := existsb (fun d => negb (d =? 0)) ds.

Definition cmp_abs_common (ds1 : list Z) (w1 : Z) (ds2 : list Z) (w2 : Z) : Z :=
  let '(found1, ds1, w1) := skip_higher ds1 w1 w2 in
  if found1 then 1
  else
    let '(found2, ds2, w2) := skip_higher ds2 w2 w1 in
    if found2 then -1
    else
      match (if w1 =? w2 then cmp_digits ds1 ds2 else inr (ds1, ds2)) with
      | inl r => r
      | inr (ds1, ds2) => if any_nonzero ds1 then 1 else if any_nonzero ds2 then -1 else 0
      end.

Definition cmp_abs (var1 var2 : NumericVar) : Z :=
  cmp_abs_common (digits var1) (weight var1) (digits var2) (weight var2).

Definition cmp_var_common (ds1 : list Z) (w1 sign1 : Z) (ds2 : list Z) (w2 sign2 : Z) : Z :=
  if (length ds1 =? 0)%nat then
    if (length ds2 =? 0)%nat then 0 else if sign2 =? NUMERIC_NEG then 1 else -1
  else if (length ds2 =? 0)%nat then
    if sign1 =? NUMERIC_POS then 1 else -1
  else if sign1 =? NUMERIC_POS then
    if sign2 =? NUMERIC_NEG then 1 else cmp_abs_common ds1 w1 ds2 w2
  else if sign2 =? NUMERIC_POS then -1
  else cmp_abs_common ds2 w2 ds1 w1.

Definition cmp_var (var1 var2 : NumericVar) : Z :=
  cmp_var_common (digits var1) (weight var1) (sign var1) (digits var2) (weight var2) (sign var2).

(** *** Addition and subtraction *)

(** [if (i >= 0 && i < ndigits) ... digits[i]] *)
Definition digit_or_zero (ds : list Z) (i : Z) : Z :=
  if (0 <=? i) && (i <? Z.of_nat (length ds)) then rd ds (Z.to_nat i) else 0.

Definition add_step (ds1 ds2 : list Z) (off1 off2 : Z) (i : nat) (s : Z * list Z) : Z * list Z :=
  let '(carry, res) := s in
  let carry := carry + digit_or_zero ds1 (Z.of_nat i + off1) in
  let carry := carry + digit_or_zero ds2 (Z.of_nat i + off2) in
  if NBASE <=? carry then (1, carry - NBASE :: res) else (0, carry :: res).

Definition sub_step (ds1 ds2 : list Z) (off1 off2 : Z) (i : nat) (s : Z * list Z) : Z * list Z :=
  let '(borrow, res) := s in
  let borrow := borrow + digit_or_zero ds1 (Z.of_nat i + off1) in
  let borrow := borrow - digit_or_zero ds2 (Z.of_nat i + off2) in
  if borrow <? 0 then (-1, borrow + NBASE :: res) else (0, borrow :: res).

Definition add_abs (var1 var2 : NumericVar) : res NumericVar :=
  let res_weight := Z.max (weight var1) (weight var2) + 1 in
  let res_dscale := Z.max (dscale var1) (dscale var2) in
  let rscale1 := ndigits var1 - weight var1 - 1 in
  let rscale2 := ndigits var2 - weight var2 - 1 in
  let res_rscale := Z.max rscale1 rscale2 in
  let res_ndigits := res_rscale + res_weight + 1 in
  let res_ndigits := if res_ndigits <=? 0 then 1 else res_ndigits in
  let off1 := res_rscale + weight var1 + 1 - res_ndigits in
  let off2 := res_rscale + weight var2 + 1 - res_ndigits in
  let '(carry, ds) := for_down (Z.to_nat res_ndigits) (add_step (digits var1) (digits var2) off1 off2) (0, []) in
  if negb (carry =? 0) then Err "carry == 0"
  else Ok (strip_var (mk_var [0] ds res_weight NUMERIC_POS res_dscale)).

Definition sub_abs (var1 var2 : NumericVar) : res NumericVar :=
  let res_weight := weight var1 in
  let res_dscale := Z.max (dscale var1) (dscale var2) in
  let rscale1 := ndigits var1 - weight var1 - 1 in
  let rscale2 := ndigits var2 - weight var2 - 1 in
  let res_rscale := Z.max rscale1 rscale2 in
  let res_ndigits := res_rscale + res_weight + 1 in
  let res_ndigits := if res_ndigits <=? 0 then 1 else res_ndigits in
  let off1 := res_rscale + weight var1 + 1 - res_ndigits in
  let off2 := res_rscale + weight var2 + 1 - res_ndigits in
  let '(borrow, ds) := for_down (Z.to_nat res_ndigits) (sub_step (digits var1) (digits var2) off1 off2) (0, []) in
  if negb (borrow =? 0) then Err "borrow == 0"
  else Ok (strip_var (mk_var [0] ds res_weight NUMERIC_POS res_dscale)).

Definition signed (s : Z) (r : res NumericVar) : res NumericVar := v <-! r ;; Ok (set_sign s v).

(** The absolute values are compared first, and the smaller one subtracted. *)
Definition difference (var1 var2 : NumericVar) (greater less : Z) : res NumericVar :=
  let c := cmp_abs var1 var2 in
  if c =? 0 then Ok (zero_var (Z.max (dscale var1) (dscale var2)))
  else if c =? 1 then signed greater (sub_abs var1 var2)
  else signed less (sub_abs var2 var1).

Definition add_var (var1 var2 : NumericVar) : res NumericVar :=
  if sign var1 =? NUMERIC_POS then
    if sign var2 =? NUMERIC_POS then signed NUMERIC_POS (add_abs var1 var2)
    else difference var1 var2 NUMERIC_POS NUMERIC_NEG
  else if sign var2 =? NUMERIC_POS then difference var1 var2 NUMERIC_NEG NUMERIC_POS
  else signed NUMERIC_NEG (add_abs var1 var2).

Definition sub_var (var1 var2 : NumericVar) : res NumericVar :=
  if sign var1 =? NUMERIC_POS then
    if sign var2 =? NUMERIC_NEG then signed NUMERIC_POS (add_abs var1 var2)
    else difference var1 var2 NUMERIC_POS NUMERIC_NEG
  else if sign var2 =? NUMERIC_NEG then difference var1 var2 NUMERIC_NEG NUMERIC_POS
  else signed NUMERIC_NEG (add_abs var1 var2).

(** *** Rounding and truncation *)

Definition round_powers : list Z := [0; 1000; 100; 10].

(** [while (carry)]: the digits before position [n] get the carry; at the first digit it
    goes into the cell in front.  The last component tells whether it did. *)
Fixpoint propagate_carry (n : nat) (front ds : list Z) : res (list Z * list Z * bool) :=
  match n with
  | O =>
      match front with
      | [] => Err "access in front of the digit buffer"
      | c :: front' => if NBASE <=? 1 + c then Err "ndigits == -1" else Ok (front', 1 + c :: ds, true)
      end
  | S k =>
      let carry := 1 + rd ds k in
      if NBASE <=? carry then propagate_carry k front (<[k := carry - NBASE]> ds)
      else Ok (front, <[k := carry]> ds, false)
  end.

(** Rounding within a digit: the digit, and the carry out of it. *)
Definition round_digit (d pow10 : Z) : Z * bool :=
  let extra := Z.rem d pow10 in
  let d := d - extra in
  if Z.quot pow10 2 <=? extra then
    let pow10 := pow10 + d in
    if NBASE <=? pow10 then (pow10 - NBASE, true) else (pow10, false)
  else (d, false).

Definition round_var (v : NumericVar) (rscale : Z) : res NumericVar :=
  let di := (weight v + 1) * DEC_DIGITS + rscale in
  if di <? 0 then Ok (mk_var (spare v) [] 0 NUMERIC_POS rscale)
  else
    let n := Z.quot (di + DEC_DIGITS - 1) DEC_DIGITS in
    let di := Z.rem di DEC_DIGITS in
    if (n <? ndigits v) || ((n =? ndigits v) && (0 <? di)) then
      let n := Z.to_nat n in
      let '(k, ds, carry) :=
        if di =? 0 then (n, take n (digits v), HALF_NBASE <=? rd (digits v) n)
        else
          let k := pred n in
          let '(d, carry) := round_digit (rd (digits v) k) (rd round_powers (Z.to_nat di)) in
          (k, <[k := d]> (take n (digits v)), carry) in
      if carry then
        '(front, ds, out) <-! propagate_carry k (spare v) ds ;;
        Ok (mk_var front ds (if out then weight v + 1 else weight v) (sign v) rscale)
      else Ok (mk_var (spare v) ds (weight v) (sign v) rscale)
    else Ok (mk_var (spare v) (digits v) (weight v) (sign v) rscale).

Definition trunc_var (v : NumericVar) (rscale : Z) : NumericVar :=
  let di := (weight v + 1) * DEC_DIGITS + rscale in
  if di <=? 0 then mk_var (spare v) [] 0 NUMERIC_POS rscale
  else
    let n := Z.quot (di + DEC_DIGITS - 1) DEC_DIGITS in
    if n <=? ndigits v then
      let di := Z.rem di DEC_DIGITS in
      let ds := take (Z.to_nat n) (digits v) in
      let ds :=
        if 0 <? di then
          let k := pred (Z.to_nat n) in
          let extra := Z.rem (rd ds k) (rd round_powers (Z.to_nat di)) in
          <[k := rd ds k - extra]> ds
        else ds in
      mk_var (spare v) ds (weight v) (sign v) rscale
    else mk_var (spare v) (digits v) (weight v) (sign v) rscale.

(** *** Multiplication *)

Definition INT32_MAX : Z := 2 ^ 31 - 1.

(** The value of an [int] expression. *)
Definition int32 (x : Z) : res Z := if (- 2 ^ 31 <=? x) && (x <=? INT32_MAX) then Ok x else Err "integer overflow".

(** The pass from the last element of [dig] to the first that leaves digits: the carry
    and the digits. *)
Fixpoint carry_pass (dig : list Z) : res (Z * list Z) :=
  match dig with
  | [] => Ok (0, [])
  | x :: dig =>
      '(carry, out) <-! carry_pass dig ;;
      newdig <-! int32 (x + carry) ;;
      if NBASE <=? newdig then
        let carry := Z.quot newdig NBASE in
        p <-! int32 (carry * NBASE) ;;
        Ok (carry, newdig - p :: out)
      else Ok (0, newdig :: out)
  end.

Definition normalize (dig : list Z) : res (list Z) :=
  '(carry, out) <-! carry_pass dig ;;
  if negb (carry =? 0) then Err "carry == 0" else Ok out.

(** [dig_i1_2[i2] += var1digit * var2digits[i2]] as far as both go. *)
Fixpoint add_row (var1digit : Z) (dig var2digits : list Z) : res (list Z) :=
  match dig, var2digits with
  | x :: dig', y :: var2digits' =>
      p <-! int32 (var1digit * y) ;;
      s <-! int32 (x + p) ;;
      rest <-! add_row var1digit dig' var2digits' ;;
      Ok (s :: rest)
  | _, _ => Ok dig
  end.

(** The rows [i1 = n - 1], ..., [0], with [maxdig]. *)
Fixpoint mul_rows (n : nat) (ds1 ds2 dig : list Z) (maxdig : Z) : res (list Z) :=
  match n with
  | O => Ok dig
  | S i1 =>
      let var1digit := rd ds1 i1 in
      if var1digit =? 0 then mul_rows i1 ds1 ds2 dig maxdig
      else
        maxdig <-! int32 (maxdig + var1digit) ;;
        '(dig, maxdig) <-!
          (if Z.quot (INT32_MAX - Z.quot INT32_MAX NBASE) (NBASE - 1) <? maxdig
           then dig <-! normalize dig ;; Ok (dig, 1 + var1digit)
           else Ok (dig, maxdig)) ;;
        row <-! add_row var1digit (drop (i1 + 2) dig) ds2 ;;
        mul_rows i1 ds1 ds2 (take (i1 + 2) dig ++ row) maxdig
  end.

Definition mul_var (var1 var2 : NumericVar) (rscale : Z) : res NumericVar :=
  let '(var1, var2) := if ndigits var2 <? ndigits var1 then (var2, var1) else (var1, var2) in
  if (ndigits var1 =? 0) || (ndigits var2 =? 0) then Ok (zero_var rscale)
  else
    let res_sign := if sign var1 =? sign var2 then NUMERIC_POS else NUMERIC_NEG in
    let res_weight := weight var1 + weight var2 + 2 in
    let res_ndigits := ndigits var1 + ndigits var2 + 1 in
    let maxdigits := res_weight + 1 + Z.quot (rscale + DEC_DIGITS - 1) DEC_DIGITS + MUL_GUARD_DIGITS in
    let res_ndigits := Z.min res_ndigits maxdigits in
    if res_ndigits <? 3 then Ok (zero_var rscale)
    else
      let rows := Z.to_nat (Z.min (ndigits var1 - 1) (res_ndigits - 3) + 1) in
      dig <-! mul_rows rows (digits var1) (digits var2) (replicate (Z.to_nat res_ndigits) 0) 0 ;;
      ds <-! normalize dig ;;
      v <-! round_var (mk_var [0] ds res_weight res_sign (dscale var1)) rscale ;;
      Ok (strip_var v).

(** *** Integers *)

Definition PG_INT64_MIN : Z := - 2 ^ 63.

(** [pg_mul_s64_overflow] and [pg_sub_s64_overflow]: no value on overflow. *)
Definition s64 (x : Z) : option Z := if (PG_INT64_MIN <=? x) && (x <? 2 ^ 63) then Some x else None.

Fixpoint accumulate (n i : nat) (ds : list Z) (val : Z) : option Z :=
  match n with
  | O => Some val
  | S n' =>
      val ← s64 (val * NBASE);
      val ← (if (i <? length ds)%nat then s64 (val - rd ds i) else Some val);
      accumulate n' (S i) ds val
  end.

(** No value: out of range. *)
Definition numericvar_to_int64 (var : NumericVar) : res (option Z) :=
  rounded <-! round_var (set_var_from_var var) 0 ;;
  let rounded := strip_var rounded in
  if ndigits rounded =? 0 then Ok (Some 0)
  else if negb ((0 <=? weight rounded) && (ndigits rounded <=? weight rounded + 1)) then Err "weight >= 0 && ndigits <= weight + 1"
  else
    let neg := sign rounded =? NUMERIC_NEG in
    Ok (val ← accumulate (Z.to_nat (weight rounded)) 1 (digits rounded) (- rd (digits rounded) 0);
        if negb neg then if val =? PG_INT64_MIN then None else Some (- val) else Some val).

(** The [do ... while] that writes digits into the cells in front of [ptr]. *)
Fixpoint split_digits (cells : list Z) (uval : Z) (ds : list Z) : res (list Z * list Z) :=
  match cells with
  | [] => Err "access in front of the digit buffer"
  | _ :: cells' =>
      let newuval := uval / NBASE in
      let ds := uval - newuval * NBASE :: ds in
      if newuval =? 0 then Ok (cells', ds) else split_digits cells' newuval ds
  end.

(** [cells] is what the five new digits hold. *)
Definition int64_to_numericvar (cells : list Z) (val : Z) : res NumericVar :=
  let '(s, uval) := if val <? 0 then (NUMERIC_NEG, uwrap 64 (- val)) else (NUMERIC_POS, uwrap 64 val) in
  if val =? 0 then Ok (mk_var [0] [] 0 s 0)
  else
    '(front, ds) <-! split_digits (take 5 cells ++ [0]) uval [] ;;
    Ok (mk_var front ds (Z.of_nat (length ds) - 1) s 0).

(** ** Packed values *)

Definition make_result (var : NumericVar) : res Numeric :=
  let s := sign var in
  if Z.land s NUMERIC_SIGN_MASK =? NUMERIC_SPECIAL then
    if negb ((s =? NUMERIC_NAN) || (s =? NUMERIC_PINF) || (s =? NUMERIC_NINF)) then Err "invalid numeric sign value"
    else Ok (mk_numeric s 0 [])
  else
    let '(_, ds, w) := strip_leading [] (digits var) (weight var) in
    let n := strip_trailing (length ds) ds in
    let '(w, s) := if (n =? 0)%nat then (0, NUMERIC_POS) else (w, s) in
    let result :=
      if NUMERIC_CAN_BE_SHORT (dscale var) w then
        mk_numeric
          (uwrap 16
             (Z.lor (Z.lor (Z.lor (if s =? NUMERIC_NEG then Z.lor NUMERIC_SHORT NUMERIC_SHORT_SIGN_MASK else NUMERIC_SHORT)
                              (Z.shiftl (dscale var) NUMERIC_SHORT_DSCALE_SHIFT))
                       (if w <? 0 then NUMERIC_SHORT_WEIGHT_SIGN_MASK else 0))
                (Z.land w NUMERIC_SHORT_WEIGHT_MASK)))
          0 (take n ds)
      else mk_numeric (uwrap 16 (Z.lor s (Z.land (dscale var) NUMERIC_DSCALE_MASK))) (swrap 16 w) (take n ds) in
    if negb (NUMERIC_WEIGHT result =? w) || negb (NUMERIC_DSCALE result =? dscale var)
    then Err "value overflows numeric format"
    else Ok result.

Definition numeric_sign_internal (num : Numeric) : Z :=
  if NUMERIC_IS_SPECIAL num then if NUMERIC_IS_PINF num then 1 else -1
  else if NUMERIC_NDIGITS num =? 0 then 0
  else if NUMERIC_SIGN num =? NUMERIC_NEG then -1
  else 1.

Definition cmp_numerics (num1 num2 : Numeric) : Z :=
  if NUMERIC_IS_SPECIAL num1 then
    if NUMERIC_IS_NAN num1 then if NUMERIC_IS_NAN num2 then 0 else 1
    else if NUMERIC_IS_PINF num1 then
      if NUMERIC_IS_NAN num2 then -1 else if NUMERIC_IS_PINF num2 then 0 else 1
    else if NUMERIC_IS_NINF num2 then 0 else -1
  else if NUMERIC_IS_SPECIAL num2 then if NUMERIC_IS_NINF num2 then 1 else -1
  else cmp_var_common (NUMERIC_DIGITS num1) (NUMERIC_WEIGHT num1) (NUMERIC_SIGN num1)
         (NUMERIC_DIGITS num2) (NUMERIC_WEIGHT num2) (NUMERIC_SIGN num2).

(** Addition and subtraction treat infinities alike but for the sign of the second
    operand. *)
Definition numeric_add (num1 num2 : Numeric) : res Numeric :=
  if NUMERIC_IS_SPECIAL num1 || NUMERIC_IS_SPECIAL num2 then
    if NUMERIC_IS_NAN num1 || NUMERIC_IS_NAN num2 then make_result const_nan
    else if NUMERIC_IS_PINF num1 then
      if NUMERIC_IS_NINF num2 then make_result const_nan else make_result const_pinf
    else if NUMERIC_IS_NINF num1 then
      if NUMERIC_IS_PINF num2 then make_result const_nan else make_result const_ninf
    else if NUMERIC_IS_PINF num2 then make_result const_pinf
    else make_result const_ninf
  else
    result <-! add_var (init_var_from_num num1) (init_var_from_num num2) ;;
    make_result result.

Definition numeric_sub (num1 num2 : Numeric) : res Numeric :=
  if NUMERIC_IS_SPECIAL num1 || NUMERIC_IS_SPECIAL num2 then
    if NUMERIC_IS_NAN num1 || NUMERIC_IS_NAN num2 then make_result const_nan
    else if NUMERIC_IS_PINF num1 then
      if NUMERIC_IS_PINF num2 then make_result const_nan else make_result const_pinf
    else if NUMERIC_IS_NINF num1 then
      if NUMERIC_IS_NINF num2 then make_result const_nan else make_result const_ninf
    else if NUMERIC_IS_PINF num2 then make_result const_ninf
    else make_result const_pinf
  else
    result <-! sub_var (init_var_from_num num1) (init_var_from_num num2) ;;
    make_result result.

(** The product of an infinity and a number of sign [s]. *)
Definition inf_times (s : Z) (pos neg : NumericVar) : res Numeric :=
  if s =? 0 then make_result const_nan else if s =? 1 then make_result pos else make_result neg.

Definition numeric_mul (num1 num2 : Numeric) : res Numeric :=
  if NUMERIC_IS_SPECIAL num1 || NUMERIC_IS_SPECIAL num2 then
    if NUMERIC_IS_NAN num1 || NUMERIC_IS_NAN num2 then make_result const_nan
    else if NUMERIC_IS_PINF num1 then inf_times (numeric_sign_internal num2) const_pinf const_ninf
    else if NUMERIC_IS_NINF num1 then inf_times (numeric_sign_internal num2) const_ninf const_pinf
    else if NUMERIC_IS_PINF num2 then inf_times (numeric_sign_internal num1) const_pinf const_ninf
    else inf_times (numeric_sign_internal num1) const_ninf const_pinf
  else
    let arg1 := init_var_from_num num1 in
    let arg2 := init_var_from_num num2 in
    result <-! mul_var arg1 arg2 (dscale arg1 + dscale arg2) ;;
    result <-! (if NUMERIC_DSCALE_MAX <? dscale result then round_var result NUMERIC_DSCALE_MAX else Ok result) ;;
    make_result result.

Definition numeric_abs (num : Numeric) : Numeric :=
  if NUMERIC_IS_SHORT num then
    mk_numeric (Z.land (n_header num) (unot 16 NUMERIC_SHORT_SIGN_MASK)) (n_weight num) (n_data num)
  else if NUMERIC_IS_SPECIAL num then
    mk_numeric (Z.land (n_header num) (unot 16 NUMERIC_INF_SIGN_MASK)) (n_weight num) (n_data num)
  else mk_numeric (Z.lor NUMERIC_POS (NUMERIC_DSCALE num)) (n_weight num) (n_data num).

Definition numeric_uminus (num : Numeric) : Numeric :=
  let with_header h := mk_numeric h (n_weight num) (n_data num) in
  if NUMERIC_IS_SPECIAL num then
    if negb (NUMERIC_IS_NAN num) then with_header (Z.lxor (n_header num) NUMERIC_INF_SIGN_MASK) else num
  else if negb (NUMERIC_NDIGITS num =? 0) then
    if NUMERIC_IS_SHORT num then with_header (Z.lxor (n_header num) NUMERIC_SHORT_SIGN_MASK)
    else if NUMERIC_SIGN num =? NUMERIC_POS then with_header (Z.lor NUMERIC_NEG (NUMERIC_DSCALE num))
    else with_header (Z.lor NUMERIC_POS (NUMERIC_DSCALE num))
  else num.

Definition clamp_scale (scale : Z) : Z := Z.min (Z.max scale (- NUMERIC_MAX_RESULT_SCALE)) NUMERIC_MAX_RESULT_SCALE.

Definition numeric_round (num : Numeric) (scale : Z) : res Numeric :=
  if NUMERIC_IS_SPECIAL num then Ok num
  else
    let scale := clamp_scale scale in
    arg <-! round_var (set_var_from_num num) scale ;;
    make_result (if scale <? 0 then set_dscale 0 arg else arg).

Definition numeric_trunc (num : Numeric) (scale : Z) : res Numeric :=
  if NUMERIC_IS_SPECIAL num then Ok num
  else
    let scale := clamp_scale scale in
    let arg := trunc_var (set_var_from_num num) scale in
    make_result (if scale <? 0 then set_dscale 0 arg else arg).

Definition int64_to_numeric (cells : list Z) (val : Z) : res Numeric :=
  result <-! int64_to_numericvar cells val ;; make_result result.

Definition numeric_int8 (num : Numeric) : res Z :=
  if NUMERIC_IS_SPECIAL num then
    if NUMERIC_IS_NAN num then Err "cannot convert NaN to bigint" else Err "cannot convert infinity to bigint"
  else
    r <-! numericvar_to_int64 (init_var_from_num num) ;;
    match r with
    | Some result => Ok result
    | None => Err "bigint out of range"
    end.
