(* ===== verification/NumericArith.v ===== *)
(** The rational number that digits stand for, when variables are sound, and that stripping,
    comparison, addition and subtraction are exact. *)

From S2P Require Import Prelude Numeric.
From Stdlib Require Export QArith Qpower Qround Lqa.
Local Open Scope Z_scope.
Local Open Scope pg_scope.

(** ** Powers of the base *)

Definition bpow (e : Z) : Q := Qpower (inject_Z NBASE) e.

Lemma base_nonzero : ~ (inject_Z NBASE == 0)%Q.
Proof. discriminate. Qed.

Lemma bpow_plus a b : (bpow (a + b) == bpow a * bpow b)%Q.
Proof. apply Qpower_plus. exact base_nonzero. Qed.

Lemma bpow_succ e : (bpow (e + 1) == inject_Z NBASE * bpow e)%Q.
Proof. rewrite bpow_plus. change (bpow 1) with (inject_Z NBASE). ring. Qed.

Lemma bpow_pred e : (bpow e == inject_Z NBASE * bpow (e - 1))%Q.
Proof. rewrite <- bpow_succ. replace (e - 1 + 1) with e by lia. reflexivity. Qed.

Lemma bpow_pos e : (0 < bpow e)%Q.
Proof. apply Qpower_0_lt. reflexivity. Qed.

Lemma bpow_Z e : 0 <= e -> (bpow e == inject_Z (NBASE ^ e))%Q.
Proof.
  intros He. destruct (Z_of_nat_complete e He) as [n ->]. clear He. induction n as [|n IH]; [reflexivity|].
  rewrite Nat2Z.inj_succ, <- Z.add_1_r, bpow_succ, IH, Z.add_1_r, Z.pow_succ_r by lia. rewrite inject_Z_mult. reflexivity.
Qed.

(** ** Digits *)

(** The number with these digits, the first of weight [w]. *)
Fixpoint mag (ds : list Z) (w : Z) : Q :=
  match ds with
  | [] => 0
  | d :: ds => inject_Z d * bpow w + mag ds (w - 1)
  end.

Definition is_digit (d : Z) : Prop := 0 <= d < NBASE.
Definition digits_ok (ds : list Z) : Prop := Forall is_digit ds.

Lemma mag_app a b w : (mag (a ++ b) w == mag a w + mag b (w - Z.of_nat (length a)))%Q.
Proof.
  revert w. induction a as [|d a IH]; intros w; cbn [app mag length].
  - rewrite Z.sub_0_r. ring.
  - rewrite IH. replace (w - 1 - Z.of_nat (length a)) with (w - Z.of_nat (S (length a))) by lia. ring.
Qed.

Lemma mag_zeroes n w : (mag (replicate n 0%Z) w == 0)%Q.
Proof. revert w. induction n as [|n IH]; intros w; cbn [replicate mag]; [reflexivity|]. rewrite IH. ring. Qed.

Lemma mag_bounds ds w : digits_ok ds -> (0 <= mag ds w /\ mag ds w < bpow (w + 1))%Q.
Proof.
  intros H. revert w. induction H as [|d ds [Hd0 Hd] _ IH]; intros w; cbn [mag]; [pose proof (bpow_pos (w + 1)); lra|].
  destruct (IH (w - 1)) as [IH1 IH2]. replace (w - 1 + 1) with w in IH2 by lia. rewrite bpow_succ.
  assert (H1 : (0 <= inject_Z d)%Q) by (change 0%Q with (inject_Z 0); rewrite <- Zle_Qle; lia).
  assert (H2 : (inject_Z d + 1 <= inject_Z NBASE)%Q) by (change 1%Q with (inject_Z 1); rewrite <- inject_Z_plus, <- Zle_Qle; lia).
  pose proof (bpow_pos w). split; nra.
Qed.

Lemma mag_nonneg ds w : digits_ok ds -> (0 <= mag ds w)%Q.
Proof. intros H. apply mag_bounds. done. Qed.

(** Zero exactly if all digits are. *)
Lemma mag_zero_iff ds w : digits_ok ds -> (mag ds w == 0)%Q <-> any_nonzero ds = false.
Proof.
  intros H. revert w. induction H as [|d ds [Hd0 Hd] Hds IH]; intros w; cbn [mag any_nonzero existsb]; [done|].
  pose proof (mag_nonneg ds (w - 1) Hds). pose proof (bpow_pos w). rewrite orb_false_iff, negb_false_iff, Z.eqb_eq, <- (IH (w - 1)).
  assert (Hq : (0 <= inject_Z d)%Q) by (change 0%Q with (inject_Z 0); rewrite <- Zle_Qle; done).
  split.
  - intros E. assert (Ed : (inject_Z d * bpow w == 0)%Q) by nra. split; [|lra].
    apply Qmult_integral in Ed as [Ed|Ed]; [|lra]. by apply (inject_Z_injective d 0).
  - intros [-> E]. rewrite E. ring.
Qed.

(** ** Variables *)

Definition sgn (v : NumericVar) : Q := if sign v =? NUMERIC_NEG then (-1)%Q else 1%Q.
Definition magnitude (v : NumericVar) : Q := mag (digits v) (weight v).
Definition value (v : NumericVar) : Q := (sgn v * magnitude v)%Q.

(** A finite number, possibly not stripped. *)
Record var_ok (v : NumericVar) : Prop := {
  ok_digits : digits_ok (digits v);
  ok_sign : sign v = NUMERIC_POS \/ sign v = NUMERIC_NEG
}.

(** Nothing to strip; zero is positive. *)
Record stripped (v : NumericVar) : Prop := {
  st_first : rd (digits v) 0 <> 0 \/ digits v = [];
  st_last : rd (digits v) (pred (length (digits v))) <> 0 \/ digits v = [];
  st_zero : digits v = [] -> sign v = NUMERIC_POS /\ weight v = 0
}.

(** * Stripping, comparison, addition and subtraction of digits *)

(** ** Stripping *)

Lemma strip_leading_spec front ds w : exists n front' ds', strip_leading front ds w = (front', ds', w - Z.of_nat n)
  /\ ds = replicate n 0 ++ ds' /\ front' = replicate n 0 ++ front /\ (rd ds' 0 <> 0 \/ ds' = []).
Proof.
  revert front w. induction ds as [|d ds IH]; intros front w; simpl.
  - exists 0%nat, front, []. rewrite Z.sub_0_r. auto.
  - destruct (Z.eqb_spec d 0) as [->|Hd].
    + destruct (IH (0 :: front) (w - 1)) as (n & front' & ds' & -> & -> & -> & Hne). exists (S n), (replicate (S n) 0 ++ front), ds'.
      split; [|split; [done|split; [done|done]]]. rewrite replicate_S_end, <- app_assoc. f_equal. lia.
    + exists 0%nat, front, (d :: ds). rewrite Z.sub_0_r. auto.
Qed.

Lemma strip_trailing_spec n ds : (n <= length ds)%nat ->
  let k := strip_trailing n ds in
  (k <= n)%nat /\ take n ds = take k ds ++ replicate (n - k) 0 /\ (k = 0%nat \/ rd ds (pred k) <> 0).
Proof.
  induction n as [|n IH]; intros Hn; simpl; [split; [lia|]; split; [done|by left]|].
  destruct (Z.eqb_spec (rd ds n) 0) as [E|E].
  - destruct (IH ltac:(lia)) as (H1 & H2 & H3). split; [lia|]. split; [|done].
    rewrite (take_S_r ds n (rd ds n)) by (apply rd_lookup; lia). rewrite H2, E, <- app_assoc. f_equal.
    rewrite <- replicate_S_end. f_equal. lia.
  - split; [lia|]. split; [|by right]. rewrite Nat.sub_diag. simpl. by rewrite app_nil_r.
Qed.

Lemma mag_drop_zeroes ds n w : (mag (ds ++ replicate n 0%Z) w == mag ds w)%Q.
Proof. rewrite mag_app, mag_zeroes. ring. Qed.

Lemma mag_skip_zeroes ds n w : (mag (replicate n 0%Z ++ ds) w == mag ds (w - Z.of_nat n))%Q.
Proof. rewrite mag_app, mag_zeroes, length_replicate. ring. Qed.

Definition roomy (v : NumericVar) : Prop := exists front, spare v = 0 :: front.

Lemma strip_var_spec v : var_ok v ->
  let v' := strip_var v in
  var_ok v' /\ stripped v' /\ (value v' == value v)%Q /\ dscale v' = dscale v /\ (magnitude v' == magnitude v)%Q
  /\ (digits v' <> [] -> weight v' <= weight v) /\ (roomy v -> roomy v').
Proof.
  intros [Hd Hs]. unfold strip_var. destruct (strip_leading_spec (spare v) (digits v) (weight v)) as (n & front & ds & -> & E & Ef & Hne).
  unfold digits_ok in Hd. rewrite E in Hd. apply Forall_app in Hd as [_ Hd].
  destruct (strip_trailing_spec (length ds) ds (le_n _)) as (H1 & H2 & H3). set (k := strip_trailing (length ds) ds) in *.
  rewrite (take_ge ds (length ds)) in H2 by done.
  assert (Em : (mag (take k ds) (weight v - Z.of_nat n) == magnitude v)%Q).
  { unfold magnitude. rewrite E, mag_skip_zeroes. rewrite H2 at 2. rewrite mag_drop_zeroes. reflexivity. }
  assert (Hroom : roomy v -> exists f, front = 0 :: f).
  { intros [f Hf]. rewrite Ef, Hf. destruct n; simpl; eauto. }
  destruct (Nat.eqb_spec k 0) as [Ek|Ek].
  - rewrite Ek, take_0 in Em. cbn [mag] in Em. unfold value, sgn, magnitude. cbn [digits weight sign dscale spare mag].
    split; [split; [constructor|by left]|]. split; [split; cbn [digits]; by auto|]. split; [unfold magnitude in Em; rewrite <- Em; ring|].
    split; [done|]. split; [exact Em|]. split; [done|]. exact Hroom.
  - assert (Hk : take k ds <> []) by (destruct ds; [simpl in *; lia|destruct k; done]).
    unfold value, sgn, magnitude in *. cbn [digits weight sign dscale spare].
    split; [split; [by apply Forall_take|done]|]. split.
    + split; cbn [digits].
      * left. destruct Hne as [Hne| ->]; [|by rewrite take_nil in Hk]. destruct ds; [by rewrite take_nil in Hk|]. by destruct k.
      * left. rewrite length_take. replace (k `min` length ds)%nat with k by lia. unfold rd in *. rewrite lookup_take_lt by lia. tauto.
      * done.
    + split; [rewrite Em; reflexivity|]. split; [done|]. split; [exact Em|]. split; [lia|]. exact Hroom.
Qed.

(** ** Comparison *)

Definition compares (r : Z) (x y : Q) : Prop := (r = 1 /\ (y < x)%Q) \/ (r = 0 /\ (x == y)%Q) \/ (r = -1 /\ (x < y)%Q).

Lemma bpow_le a b : a <= b -> (bpow a <= bpow b)%Q.
Proof. intros H. apply Qpower_le_compat_l; [done|]. done. Qed.

Lemma inject_Z_ge d : 1 <= d -> (1 <= inject_Z d)%Q.
Proof. intros H. change 1%Q with (inject_Z 1). by rewrite <- Zle_Qle. Qed.

Lemma skip_higher_spec ds w other : digits_ok ds ->
  let '(found, ds', w') := skip_higher ds w other in
  if found then (bpow (other + 1) <= mag ds w)%Q
  else digits_ok ds' /\ (mag ds' w' == mag ds w)%Q /\ (ds' <> [] -> w' = Z.min w other).
Proof.
  intros Hd. revert w. induction Hd as [|d ds Hd Hds IH]; intros w; simpl; [by split; [constructor|]|].
  destruct (Z.ltb_spec other w) as [Hw|Hw].
  - destruct (Z.eqb_spec d 0) as [->|Hne]; simpl.
    + specialize (IH (w - 1)). destruct (skip_higher ds (w - 1) other) as [[[|] ds'] w'].
      * rewrite Qmult_0_l, Qplus_0_l. exact IH.
      * destruct IH as (H1 & H2 & H3). split; [done|]. split; [rewrite H2; ring|]. intros Hx. specialize (H3 Hx). lia.
    + pose proof (mag_nonneg ds (w - 1) Hds). pose proof (bpow_le (other + 1) w ltac:(lia)). pose proof (bpow_pos w).
      pose proof (inject_Z_ge d ltac:(unfold is_digit in Hd; lia)). nra.
  - split; [by constructor|]. split; [reflexivity|]. intros _. lia.
Qed.

(** The leading digit decides. *)
Lemma mag_lt_cons d1 d2 ds1 ds2 w : digits_ok ds1 -> digits_ok ds2 -> d1 < d2 -> (mag (d1 :: ds1) w < mag (d2 :: ds2) w)%Q.
Proof.
  intros H1 H2 Hlt. cbn [mag]. destruct (mag_bounds ds1 (w - 1) H1) as [_ Hb]. replace (w - 1 + 1) with w in Hb by lia.
  pose proof (mag_nonneg ds2 (w - 1) H2). pose proof (bpow_pos w).
  assert (inject_Z d1 + 1 <= inject_Z d2)%Q by (change 1%Q with (inject_Z 1); rewrite <- inject_Z_plus, <- Zle_Qle; lia). nra.
Qed.

Lemma cmp_digits_spec ds1 ds2 w : digits_ok ds1 -> digits_ok ds2 ->
  match cmp_digits ds1 ds2 with
  | inl r => compares r (mag ds1 w) (mag ds2 w)
  | inr (r1, r2) => digits_ok r1 /\ digits_ok r2 /\ (r1 = [] \/ r2 = [])
      /\ exists w' c, (mag ds1 w == c + mag r1 w')%Q /\ (mag ds2 w == c + mag r2 w')%Q
  end.
Proof.
  intros H1. revert ds2 w. induction H1 as [|d1 ds1 Hd1 H1 IH]; intros ds2 w H2.
  - simpl. split; [constructor|]. split; [done|]. split; [by left|]. exists w, 0%Q. split; ring.
  - destruct H2 as [|d2 ds2 Hd2 H2]; simpl cmp_digits.
    + split; [by constructor|]. split; [constructor|]. split; [by right|]. exists w, 0%Q. split; ring.
    + destruct (Z.eqb_spec (d1 - d2) 0) as [E|E]; simpl.
      * assert (d1 = d2) as -> by lia. specialize (IH ds2 (w - 1) H2). destruct (cmp_digits ds1 ds2) as [r|[r1 r2]].
        -- destruct IH as [[-> ?]|[[-> ?]|[-> ?]]]; cbn [mag]; [left|right; left|right; right]; (split; [done|]); lra.
        -- destruct IH as (? & ? & ? & w' & c & E1 & E2). split; [done|]. split; [done|]. split; [done|].
           exists w', (inject_Z d2 * bpow w + c)%Q. cbn [mag]. rewrite E1, E2. split; ring.
      * destruct (Z.ltb_spec 0 (d1 - d2)); [left|right; right]; (split; [done|]); apply mag_lt_cons; (done || lia).
Qed.

(** What is left on one side only decides by being zero or not. *)
Lemma rest_compares r1 r2 w1 w2 : digits_ok r1 -> digits_ok r2 -> r1 = [] \/ r2 = [] ->
  compares (if any_nonzero r1 then 1 else if any_nonzero r2 then -1 else 0) (mag r1 w1) (mag r2 w2).
Proof.
  intros H1 H2 Hor. pose proof (mag_zero_iff r1 w1 H1) as Z1. pose proof (mag_zero_iff r2 w2 H2) as Z2.
  pose proof (mag_nonneg r1 w1 H1). pose proof (mag_nonneg r2 w2 H2). unfold compares.
  destruct (any_nonzero r1) eqn:E1.
  - left. split; [done|]. destruct Hor as [->| ->]; [done|]. cbn [mag] in *. apply Qnot_le_lt. intros Hle.
    assert (mag r1 w1 == 0)%Q by lra. by apply Z1 in H3.
  - destruct Z1 as [_ Z1]. specialize (Z1 eq_refl). destruct (any_nonzero r2) eqn:E2.
    + right; right. split; [done|]. apply Qnot_le_lt. intros Hle. assert (mag r2 w2 == 0)%Q as Hz by lra. by apply Z2 in Hz.
    + destruct Z2 as [_ Z2]. specialize (Z2 eq_refl). right; left. split; [done|]. lra.
Qed.

Lemma compares_ext r x y x' y' : (x == x')%Q -> (y == y')%Q -> compares r x y -> compares r x' y'.
Proof. intros Ex Ey. unfold compares. rewrite Ex, Ey. done. Qed.

Lemma cmp_abs_common_spec ds1 w1 ds2 w2 : digits_ok ds1 -> digits_ok ds2 ->
  compares (cmp_abs_common ds1 w1 ds2 w2) (mag ds1 w1) (mag ds2 w2).
Proof.
  intros H1 H2. unfold cmp_abs_common. pose proof (skip_higher_spec ds1 w1 w2 H1) as S1.
  destruct (skip_higher ds1 w1 w2) as [[[|] e1] v1].
  { left. split; [done|]. destruct (mag_bounds ds2 w2 H2) as [_ ?]. lra. }
  destruct S1 as (D1 & M1 & W1). pose proof (skip_higher_spec ds2 w2 v1 H2) as S2. destruct (skip_higher ds2 w2 v1) as [[[|] e2] v2].
  { right; right. split; [done|]. destruct (mag_bounds e1 v1 D1) as [_ ?]. lra. }
  destruct S2 as (D2 & M2 & W2). eapply compares_ext; [exact M1|exact M2|]. destruct (Z.eqb_spec v1 v2) as [->|Hne].
  - pose proof (cmp_digits_spec e1 e2 v2 D1 D2) as Hc. destruct (cmp_digits e1 e2) as [r|[r1 r2]]; [done|].
    destruct Hc as (R1 & R2 & Hor & w' & c & E1 & E2). pose proof (rest_compares r1 r2 w' w' R1 R2 Hor) as Hr.
    eapply compares_ext; [symmetry; exact E1|symmetry; exact E2|].
    destruct Hr as [[-> ?]|[[-> ?]|[-> ?]]]; [left|right; left|right; right]; (split; [done|]); lra.
  - apply rest_compares; [done|done|]. destruct e1 as [|x1 e1]; [by left|]. destruct e2 as [|x2 e2]; [by right|].
    specialize (W1 ltac:(done)). specialize (W2 ltac:(done)). lia.
Qed.

(** ** Addition and subtraction *)

(** The digits of a number at the positions of another one. *)
Definition window (ds : list Z) (off : Z) (n : nat) : list Z := map (fun i => digit_or_zero ds (Z.of_nat i + off)) (seq 0 n).

Lemma window_S ds off n : window ds off (S n) = window ds off n ++ [digit_or_zero ds (Z.of_nat n + off)].
Proof. unfold window. by rewrite seq_S, map_app. Qed.

Lemma length_window ds off n : length (window ds off n) = n.
Proof. unfold window. by rewrite length_map, length_seq. Qed.

Lemma window_eq ds (k n : nat) : (k + length ds <= n)%nat ->
  window ds (- Z.of_nat k) n = replicate k 0 ++ ds ++ replicate (n - k - length ds) 0.
Proof.
  intros Hn. apply list_eq. intros i. unfold window. rewrite list_lookup_fmap.
  destruct (decide (i < n)%nat) as [Hi|Hi].
  - rewrite lookup_seq_lt by done. simpl. unfold digit_or_zero, rd. destruct (decide (i < k)%nat) as [Hk|Hk].
    + rewrite lookup_app_l by (rewrite length_replicate; done). rewrite lookup_replicate_2 by done.
      destruct (Z.leb_spec 0 (Z.of_nat i + - Z.of_nat k)); [lia|done].
    + rewrite lookup_app_r by (rewrite length_replicate; lia). rewrite length_replicate.
      replace (Z.to_nat (Z.of_nat i + - Z.of_nat k)) with (i - k)%nat by lia.
      destruct (Z.leb_spec 0 (Z.of_nat i + - Z.of_nat k)); [|lia].
      destruct (Z.ltb_spec (Z.of_nat i + - Z.of_nat k) (Z.of_nat (length ds))) as [Hl|Hl]; simpl.
      * rewrite lookup_app_l by lia. destruct (lookup_lt_is_Some_2 ds (i - k)%nat ltac:(lia)) as [x ->]. done.
      * rewrite lookup_app_r by lia. rewrite lookup_replicate_2 by lia. done.
  - rewrite lookup_seq_ge, !lookup_app_r by (rewrite ?length_replicate; lia). symmetry.
    apply lookup_ge_None_2. rewrite !length_replicate. lia.
Qed.

Lemma mag_window ds off n w : off <= 0 -> Z.of_nat (length ds) - off <= Z.of_nat n -> (mag (window ds off n) w == mag ds (w + off))%Q.
Proof.
  intros Hoff Hn. destruct (Z_of_nat_complete (- off) ltac:(lia)) as [k Ek]. replace off with (- Z.of_nat k) by lia.
  rewrite window_eq by lia. rewrite mag_skip_zeroes, mag_drop_zeroes. replace (w - Z.of_nat k) with (w + - Z.of_nat k) by lia. reflexivity.
Qed.

Lemma digit_or_zero_ok ds i : digits_ok ds -> is_digit (digit_or_zero ds i).
Proof.
  intros H. unfold digit_or_zero. destruct ((0 <=? i) && (i <? Z.of_nat (length ds))) eqn:E; [|done].
  apply andb_true_iff in E as [E1%Z.leb_le E2%Z.ltb_lt]. unfold digits_ok in H. rewrite Forall_lookup in H.
  apply (H (Z.to_nat i)). apply rd_lookup. lia.
Qed.

Lemma mag_snoc ds d w : (mag (ds ++ [d]) w == mag ds w + inject_Z d * bpow (w - Z.of_nat (length ds)))%Q.
Proof. rewrite mag_app. cbn [mag]. ring. Qed.

(** The loops, from the last position to the first. *)
Lemma add_loop ds1 ds2 off1 off2 w : digits_ok ds1 -> digits_ok ds2 -> forall n c res, 0 <= c <= 1 ->
  exists c' l, for_down n (add_step ds1 ds2 off1 off2) (c, res) = (c', l ++ res) /\ length l = n /\ digits_ok l /\ 0 <= c' <= 1
  /\ (mag l w + inject_Z c' * bpow (w + 1)
      == mag (window ds1 off1 n) w + mag (window ds2 off2 n) w + inject_Z c * bpow (w + 1 - Z.of_nat n))%Q.
Proof.
  intros H1 H2. induction n as [|n IH]; intros c res Hc.
  - exists c, []. split; [done|]. split; [done|]. split; [constructor|]. split; [done|]. cbn. rewrite Z.sub_0_r. ring.
  - cbn [for_down add_step]. set (d1 := digit_or_zero ds1 (Z.of_nat n + off1)). set (d2 := digit_or_zero ds2 (Z.of_nat n + off2)).
    assert (Hd1 : is_digit d1) by (by apply digit_or_zero_ok). assert (Hd2 : is_digit d2) by (by apply digit_or_zero_ok).
    assert (Hstep : exists c1 x, (if NBASE <=? c + d1 + d2 then (1, c + d1 + d2 - NBASE :: res) else (0, c + d1 + d2 :: res)) = (c1, x :: res)
      /\ 0 <= c1 <= 1 /\ is_digit x /\ c + d1 + d2 = x + NBASE * c1).
    { unfold is_digit in *. destruct (Z.leb_spec NBASE (c + d1 + d2)); do 2 eexists; (split; [done|]); lia. }
    destruct Hstep as (c1 & x & -> & Hc1 & Hx & E). destruct (IH c1 (x :: res) Hc1) as (c' & l & -> & Hl & Hlok & Hc' & Em).
    exists c', (l ++ [x]). split; [by rewrite <- app_assoc|]. split; [rewrite length_app; simpl; lia|].
    split; [apply Forall_app; split; [done|by constructor]|]. split; [done|].
    rewrite !window_S, !mag_snoc, !length_window, Hl. fold d1 d2.
    replace (w + 1 - Z.of_nat (S n)) with (w - Z.of_nat n) by lia. replace (w + 1 - Z.of_nat n) with (w - Z.of_nat n + 1) in Em by lia.
    rewrite (bpow_succ (w - Z.of_nat n)) in Em. assert (Eq : (inject_Z c + inject_Z d1 + inject_Z d2 == inject_Z x + inject_Z NBASE * inject_Z c1)%Q)
      by (rewrite <- inject_Z_mult, <- !inject_Z_plus, E; reflexivity).
    set (b := bpow (w - Z.of_nat n)) in *. pose proof (Qmult_comp _ _ Eq b b (Qeq_refl b)).
    lra.
Qed.

Lemma sub_loop ds1 ds2 off1 off2 w : digits_ok ds1 -> digits_ok ds2 -> forall n c res, -1 <= c <= 0 ->
  exists c' l, for_down n (sub_step ds1 ds2 off1 off2) (c, res) = (c', l ++ res) /\ length l = n /\ digits_ok l /\ -1 <= c' <= 0
  /\ (mag l w + inject_Z c' * bpow (w + 1)
      == mag (window ds1 off1 n) w - mag (window ds2 off2 n) w + inject_Z c * bpow (w + 1 - Z.of_nat n))%Q.
Proof.
  intros H1 H2. induction n as [|n IH]; intros c res Hc.
  - exists c, []. split; [done|]. split; [done|]. split; [constructor|]. split; [done|]. cbn. rewrite Z.sub_0_r. ring.
  - cbn [for_down sub_step]. set (d1 := digit_or_zero ds1 (Z.of_nat n + off1)). set (d2 := digit_or_zero ds2 (Z.of_nat n + off2)).
    assert (Hd1 : is_digit d1) by (by apply digit_or_zero_ok). assert (Hd2 : is_digit d2) by (by apply digit_or_zero_ok).
    assert (Hstep : exists c1 x, (if c + d1 - d2 <? 0 then (-1, c + d1 - d2 + NBASE :: res) else (0, c + d1 - d2 :: res)) = (c1, x :: res)
      /\ -1 <= c1 <= 0 /\ is_digit x /\ c + d1 + - d2 = x + NBASE * c1).
    { unfold is_digit in *. destruct (Z.ltb_spec (c + d1 - d2) 0); do 2 eexists; (split; [done|]); lia. }
    destruct Hstep as (c1 & x & -> & Hc1 & Hx & E). destruct (IH c1 (x :: res) Hc1) as (c' & l & -> & Hl & Hlok & Hc' & Em).
    exists c', (l ++ [x]). split; [by rewrite <- app_assoc|]. split; [rewrite length_app; simpl; lia|].
    split; [apply Forall_app; split; [done|by constructor]|]. split; [done|].
    rewrite !window_S, !mag_snoc, !length_window, Hl. fold d1 d2.
    replace (w + 1 - Z.of_nat (S n)) with (w - Z.of_nat n) by lia. replace (w + 1 - Z.of_nat n) with (w - Z.of_nat n + 1) in Em by lia.
    rewrite (bpow_succ (w - Z.of_nat n)) in Em.
    assert (Eq : (inject_Z c + inject_Z d1 - inject_Z d2 == inject_Z x + inject_Z NBASE * inject_Z c1)%Q)
      by (unfold Qminus; rewrite <- inject_Z_opp, <- inject_Z_mult, <- !inject_Z_plus, E; reflexivity).
    set (b := bpow (w - Z.of_nat n)) in *. pose proof (Qmult_comp _ _ Eq b b (Qeq_refl b)). lra.
Qed.

Section sums.
Context (v1 v2 : NumericVar).
Hypothesis H1 : var_ok v1.
Hypothesis H2 : var_ok v2.

(** The result has a position for every digit of both. *)
Definition fits_weight (v : NumericVar) (w : Z) : Prop := digits v = [] \/ weight v <= w.

Lemma window_nil off n : window [] off n = replicate n 0.
Proof.
  apply list_eq. intros i. unfold window. rewrite list_lookup_fmap. destruct (decide (i < n)%nat).
  - rewrite lookup_seq_lt, lookup_replicate_2 by done. simpl. unfold digit_or_zero. simpl. by destruct (_ && _).
  - rewrite lookup_seq_ge by lia. simpl. symmetry. apply lookup_ge_None_2. rewrite length_replicate. lia.
Qed.

Lemma window_magnitude v w n : fits_weight v w -> ndigits v - weight v - 1 + w + 1 <= n ->
  (mag (window (digits v) (weight v - w) (Z.to_nat n)) w == magnitude v)%Q.
Proof.
  intros [E|Hw] Hn; unfold magnitude, ndigits in *.
  - rewrite E, window_nil, mag_zeroes. reflexivity.
  - rewrite mag_window by lia. replace (w + (weight v - w)) with (weight v) by lia. reflexivity.
Qed.

Lemma stripped_result l w d : digits_ok l ->
  let v := strip_var (mk_var [0] l w NUMERIC_POS d) in
  var_ok v /\ stripped v /\ sign v = NUMERIC_POS /\ (magnitude v == mag l w)%Q /\ dscale v = d /\ roomy v.
Proof.
  intros Hl. destruct (strip_var_spec (mk_var [0] l w NUMERIC_POS d)) as (S1 & S2 & _ & S4 & S5 & _ & S7); [split; [done|by left]|].
  split; [done|]. split; [done|]. split; [|split; [exact S5|split; [done|apply S7; by exists []]]].
  unfold strip_var. destruct (strip_leading _ _ _) as [[? ?] ?]. by destruct (_ =? 0)%nat.
Qed.

Lemma add_abs_spec : exists v, add_abs v1 v2 = Ok v /\ var_ok v /\ stripped v /\ sign v = NUMERIC_POS
  /\ (magnitude v == magnitude v1 + magnitude v2)%Q /\ dscale v = Z.max (dscale v1) (dscale v2) /\ roomy v.
Proof.
  unfold add_abs. set (w := Z.max (weight v1) (weight v2) + 1). set (r := Z.max (ndigits v1 - weight v1 - 1) _).
  destruct (Z.leb_spec (r + w + 1) 0) as [H0|_]; [unfold r, w, ndigits in H0; lia|].
  set (n := r + w + 1). replace (r + weight v1 + 1 - n) with (weight v1 - w) by (unfold n; lia).
  replace (r + weight v2 + 1 - n) with (weight v2 - w) by (unfold n; lia).
  destruct (add_loop (digits v1) (digits v2) (weight v1 - w) (weight v2 - w) w (ok_digits _ H1) (ok_digits _ H2) (Z.to_nat n) 0 [])
    as (c & l & -> & Hl & Hlok & Hc & Em); [lia|].
  rewrite !window_magnitude in Em by (try (right; unfold w; lia); unfold n, r; lia). change (inject_Z 0) with 0%Q in Em.
  destruct (mag_bounds (digits v1) (weight v1) (ok_digits _ H1)) as [_ B1], (mag_bounds (digits v2) (weight v2) (ok_digits _ H2)) as [_ B2].
  pose proof (bpow_le (weight v1 + 1) w ltac:(unfold w; lia)). pose proof (bpow_le (weight v2 + 1) w ltac:(unfold w; lia)).
  pose proof (mag_nonneg l w Hlok). pose proof (bpow_pos w). pose proof (bpow_succ w) as Eb. change (inject_Z NBASE) with (10000#1)%Q in Eb.
  unfold magnitude in *. assert (c = 0) as ->.
  { destruct (decide (c = 0)) as [|]; [done|]. assert (c = 1) as -> by lia. change (inject_Z 1) with 1%Q in Em. lra. }
  simpl negb. cbv iota. rewrite app_nil_r. eexists. split; [done|].
  destruct (stripped_result l w (Z.max (dscale v1) (dscale v2)) Hlok) as (S1 & S2 & S3 & S4 & S5 & S6).
  split; [done|]. split; [done|]. split; [done|]. split; [|done]. unfold magnitude in S4. rewrite S4. change (inject_Z 0) with 0%Q in Em. lra.
Qed.

(** The code compares first: the first is the greater one. *)
Lemma sub_abs_spec : (magnitude v2 < magnitude v1)%Q -> fits_weight v2 (weight v1) ->
  exists v, sub_abs v1 v2 = Ok v /\ var_ok v /\ stripped v /\ sign v = NUMERIC_POS
  /\ (magnitude v == magnitude v1 - magnitude v2)%Q /\ dscale v = Z.max (dscale v1) (dscale v2) /\ roomy v.
Proof.
  intros Hlt Hfit. unfold sub_abs. set (w := weight v1) in *. set (r := Z.max (ndigits v1 - w - 1) _).
  assert (Hne : digits v1 <> []).
  { intros E. pose proof (mag_nonneg _ (weight v2) (ok_digits _ H2)). unfold magnitude in Hlt. rewrite E in Hlt. cbn [mag] in Hlt. lra. }
  destruct (Z.leb_spec (r + w + 1) 0) as [H0|_]; [unfold r, ndigits in H0; destruct (digits v1); [done|simpl in H0; lia]|].
  set (n := r + w + 1). replace (n - n) with (weight v1 - w) by (unfold w; lia).
  replace (r + weight v2 + 1 - n) with (weight v2 - w) by (unfold n; lia).
  destruct (sub_loop (digits v1) (digits v2) (weight v1 - w) (weight v2 - w) w (ok_digits _ H1) (ok_digits _ H2) (Z.to_nat n) 0 [])
    as (c & l & -> & Hl & Hlok & Hc & Em); [lia|].
  rewrite (window_magnitude v2) in Em by (try done; unfold n, r; lia).
  rewrite (window_magnitude v1) in Em by (try (right; unfold w; lia); unfold n, r; unfold w; lia). change (inject_Z 0) with 0%Q in Em.
  destruct (mag_bounds l w Hlok) as [_ B]. pose proof (bpow_pos (w + 1)). assert (c = 0) as ->.
  { destruct (decide (c = 0)) as [|]; [done|]. assert (c = -1) as -> by lia. change (inject_Z (-1)) with (-(1))%Q in Em. lra. }
  simpl negb. cbv iota. rewrite app_nil_r. eexists. split; [done|].
  destruct (stripped_result l w (Z.max (dscale v1) (dscale v2)) Hlok) as (S1 & S2 & S3 & S4 & S5 & S6).
  split; [done|]. split; [done|]. split; [done|]. split; [|done]. rewrite S4. change (inject_Z 0) with 0%Q in Em. lra.
Qed.
End sums.

(** * Sums, differences and comparison of variables that are stripped *)

(** What operations take and give. *)
Definition normal (v : NumericVar) : Prop := var_ok v /\ stripped v.

(** What sums and comparisons rely on: the first digit is not zero. *)
Record leading (v : NumericVar) : Prop := {
  ld_first : rd (digits v) 0 <> 0 \/ digits v = [];
  ld_zero : digits v = [] -> sign v = NUMERIC_POS
}.

Definition led (v : NumericVar) : Prop := var_ok v /\ leading v.

Lemma normal_led v : normal v -> led v.
Proof. intros [Hv [S1 _ S3]]. split; [done|]. split; [done|]. intros E. by apply S3. Qed.

Lemma stripped_large v : led v -> digits v <> [] -> (bpow (weight v) <= magnitude v)%Q.
Proof.
  intros [[Hd _] [[Hf|Hf] _]] Hne; [|done]. unfold magnitude. destruct (digits v) as [|d ds]; [done|].
  inversion Hd as [|? ? Hd0 Hds]; subst. unfold rd in Hf. simpl in Hf. cbn [mag].
  pose proof (mag_nonneg ds (weight v - 1) Hds). pose proof (bpow_pos (weight v)).
  pose proof (inject_Z_ge d ltac:(unfold is_digit in Hd0; lia)). nra.
Qed.

Lemma magnitude_nonneg v : var_ok v -> (0 <= magnitude v)%Q.
Proof. intros [H _]. by apply mag_nonneg. Qed.

Lemma magnitude_empty v : digits v = [] -> (magnitude v == 0)%Q.
Proof. intros E. unfold magnitude. rewrite E. reflexivity. Qed.

Lemma magnitude_zero v : led v -> (magnitude v == 0)%Q -> digits v = [].
Proof.
  intros H E. destruct (digits v) as [|d ds] eqn:Ed; [done|]. exfalso.
  pose proof (stripped_large v H ltac:(rewrite Ed; discriminate)) as Hl. pose proof (bpow_pos (weight v)). lra.
Qed.

Lemma smaller_fits v1 v2 : var_ok v1 -> led v2 -> (magnitude v2 < magnitude v1)%Q -> fits_weight v2 (weight v1).
Proof.
  intros H1 H2 Hlt. destruct (decide (digits v2 = [])) as [E|Hne]; [by left|right].
  pose proof (stripped_large v2 H2 Hne). destruct (mag_bounds (digits v1) (weight v1) (ok_digits _ H1)) as [_ Hb].
  unfold magnitude in Hlt at 2. destruct (decide (weight v2 <= weight v1)) as [|Hgt]; [done|].
  pose proof (bpow_le (weight v1 + 1) (weight v2) ltac:(lia)). lra.
Qed.

(** The operation returns a stripped variable of the value [q] and the scale [d]. *)
Definition yields (r : res NumericVar) (q : Q) (d : Z) : Prop :=
  exists v, r = Ok v /\ normal v /\ (value v == q)%Q /\ dscale v = d /\ (roomy v \/ digits v = []).

Lemma yields_ext r q q' d : (q == q')%Q -> yields r q d -> yields r q' d.
Proof. intros E (v & ? & ? & Ev & ?). exists v. rewrite <- E. done. Qed.

Lemma yields_zero d : yields (Ok (zero_var d)) 0 d.
Proof.
  exists (zero_var d). split; [done|]. split; [split; split; simpl; auto; constructor|]. split; [|by auto].
  unfold value, magnitude. simpl. ring.
Qed.

Definition unit_of (s : Z) : Q := if s =? NUMERIC_NEG then (-1)%Q else 1%Q.

(** A sign for an absolute value; only a number other than zero may become negative. *)
Lemma signed_yields s r q d : s = NUMERIC_POS \/ s = NUMERIC_NEG /\ (0 < q)%Q ->
  (exists v, r = Ok v /\ var_ok v /\ stripped v /\ sign v = NUMERIC_POS /\ (magnitude v == q)%Q /\ dscale v = d /\ roomy v) ->
  yields (signed s r) (unit_of s * q) d.
Proof.
  intros Hs (v & -> & [Hv _] & [S1 S2 S3] & Hp & Em & Hd & Hr). exists (set_sign s v). split; [done|].
  split; [|split; [|split; [done|left; exact Hr]]].
  - split; [split; [done|simpl; tauto]|]. split; [done|done|]. intros E. simpl in E. destruct (S3 E) as [_ Hw]. split; [|done].
    destruct Hs as [Hs|[_ Hq]]; [done|]. rewrite (magnitude_empty v E) in Em. lra.
  - unfold value, sgn, unit_of, magnitude in *. cbn [set_sign digits weight sign]. rewrite Em. reflexivity.
Qed.

Lemma compares_cases r x y : compares r x y -> (r = 0 /\ (x == y)%Q) \/ (r = 1 /\ (y < x)%Q) \/ (r <> 0 /\ r <> 1 /\ (x < y)%Q).
Proof. intros [?|[?|[-> ?]]]; [by right; left|by left|]. right; right. split; [done|]. split; done. Qed.

(** The greater absolute value has the room for the smaller one. *)
Lemma difference_fits v1 v2 s1 s2 : var_ok v1 -> var_ok v2 -> ((magnitude v2 < magnitude v1)%Q -> fits_weight v2 (weight v1)) -> ((magnitude v1 < magnitude v2)%Q -> fits_weight v1 (weight v2)) ->
  (s1 = NUMERIC_POS /\ s2 = NUMERIC_NEG) \/ (s1 = NUMERIC_NEG /\ s2 = NUMERIC_POS) ->
  yields (difference v1 v2 s1 s2) (unit_of s1 * (magnitude v1 - magnitude v2)) (Z.max (dscale v1) (dscale v2)).
Proof.
  intros O1 O2 F1 F2 Hs. unfold difference.
  destruct (compares_cases _ _ _ (cmp_abs_common_spec _ (weight v1) _ (weight v2) (ok_digits _ O1) (ok_digits _ O2))) as [[E Hc]|[[E Hc]|(E0 & E1 & Hc)]];
    unfold cmp_abs; fold (magnitude v1) in Hc; fold (magnitude v2) in Hc.
  - rewrite E. eapply yields_ext; [|apply yields_zero]. rewrite Hc. ring.
  - rewrite E. simpl. apply signed_yields; [destruct Hs as [[-> _]|[-> _]]; [by left|right; split; [done|lra]]|].
    apply sub_abs_spec; [done|done|done|]. by apply F1.
  - apply Z.eqb_neq in E0, E1. rewrite E0, E1. apply (yields_ext _ (unit_of s2 * (magnitude v2 - magnitude v1))).
    { destruct Hs as [[-> ->]|[-> ->]]; unfold unit_of; simpl; ring. }
    apply signed_yields; [destruct Hs as [[_ ->]|[_ ->]]; [right; split; [done|lra]|by left]|].
    rewrite Z.max_comm. apply sub_abs_spec; [done|done|done|]. by apply F2.
Qed.

Section exact.
Context (v1 v2 : NumericVar).
Hypothesis N1 : led v1.
Hypothesis N2 : led v2.

Let d := Z.max (dscale v1) (dscale v2).

Lemma difference_yields s1 s2 : (s1 = NUMERIC_POS /\ s2 = NUMERIC_NEG) \/ (s1 = NUMERIC_NEG /\ s2 = NUMERIC_POS) ->
  yields (difference v1 v2 s1 s2) (unit_of s1 * (magnitude v1 - magnitude v2)) d.
Proof. apply difference_fits; [apply N1|apply N2|apply smaller_fits; [apply N1|exact N2]|apply smaller_fits; [apply N2|exact N1]]. Qed.

Lemma negative_large v : led v -> sign v = NUMERIC_NEG -> (0 < magnitude v)%Q.
Proof.
  intros H Hs. assert (Hne : digits v <> []) by (intros E; destruct H as [_ [_ S]]; pose proof (S E) as S'; rewrite Hs in S'; discriminate).
  pose proof (stripped_large v H Hne). pose proof (bpow_pos (weight v)). lra.
Qed.

Lemma sum_yields s : s = NUMERIC_POS \/ s = NUMERIC_NEG /\ sign v1 = NUMERIC_NEG ->
  yields (signed s (add_abs v1 v2)) (unit_of s * (magnitude v1 + magnitude v2)) d.
Proof.
  intros Hs. apply signed_yields; [|by apply add_abs_spec; [apply N1|apply N2]]. destruct Hs as [Hs|[-> Hs]]; [by left|right]. split; [done|].
  pose proof (negative_large v1 N1 Hs). pose proof (magnitude_nonneg v2 (proj1 N2)). lra.
Qed.

Ltac exact_cases := destruct (ok_sign _ (proj1 N1)) as [E1|E1], (ok_sign _ (proj1 N2)) as [E2|E2]; unfold value, sgn; rewrite E1, E2; simpl;
  (eapply yields_ext; [|first [apply sum_yields; auto|apply difference_yields; auto]]); unfold unit_of; simpl; ring.

Lemma add_var_exact : yields (add_var v1 v2) (value v1 + value v2) d.
Proof. unfold add_var. exact_cases. Qed.

Lemma sub_var_exact : yields (sub_var v1 v2) (value v1 - value v2) d.
Proof. unfold sub_var. exact_cases. Qed.

Lemma cmp_var_exact : compares (cmp_var v1 v2) (value v1) (value v2).
Proof.
  unfold cmp_var, cmp_var_common. pose proof (magnitude_nonneg v1 (proj1 N1)). pose proof (magnitude_nonneg v2 (proj1 N2)).
  pose proof (negative_large v1 N1). pose proof (negative_large v2 N2). pose proof (stripped_large v1 N1). pose proof (stripped_large v2 N2).
  pose proof (bpow_pos (weight v1)). pose proof (bpow_pos (weight v2)). unfold value, sgn.
  pose proof (cmp_abs_common_spec _ (weight v1) _ (weight v2) (ok_digits _ (proj1 N1)) (ok_digits _ (proj1 N2))) as C12.
  pose proof (cmp_abs_common_spec _ (weight v2) _ (weight v1) (ok_digits _ (proj1 N2)) (ok_digits _ (proj1 N1))) as C21.
  pose proof (magnitude_empty v1). pose proof (magnitude_empty v2). fold (magnitude v1) in C12, C21. fold (magnitude v2) in C12, C21.
  destruct (decide (digits v1 = [])) as [D1|D1].
  - destruct N1 as [_ [_ S1]]. rewrite (S1 D1). specialize (H7 D1). rewrite D1. simpl.
    destruct (Nat.eqb_spec (length (digits v2)) 0) as [L|L].
    + apply nil_length_inv in L. specialize (H8 L). destruct N2 as [_ [_ S2]]. rewrite (S2 L). right; left. split; [done|]. simpl. lra.
    + assert (D2 : digits v2 <> []) by (intros E; by rewrite E in L). specialize (H4 D2).
      destruct (ok_sign _ (proj1 N2)) as [-> | ->]; simpl; [right; right|left]; (split; [done|]); lra.
  - destruct (Nat.eqb_spec (length (digits v1)) 0) as [L|L]; [by apply nil_length_inv in L|]. specialize (H3 D1).
    destruct (Nat.eqb_spec (length (digits v2)) 0) as [L2|L2].
    + apply nil_length_inv in L2. specialize (H8 L2). destruct N2 as [_ [_ S2]]. rewrite (S2 L2).
      destruct (ok_sign _ (proj1 N1)) as [-> | ->]; simpl; [left|right; right]; (split; [done|]); lra.
    + assert (D2 : digits v2 <> []) by (intros E; by rewrite E in L2). specialize (H4 D2).
      destruct (ok_sign _ (proj1 N1)) as [-> | ->], (ok_sign _ (proj1 N2)) as [-> | ->]; simpl.
      * eapply compares_ext; [| |exact C12]; ring.
      * left. split; [done|]. lra.
      * right; right. split; [done|]. lra.
      * destruct C21 as [[-> ?]|[[-> ?]|[-> ?]]]; [left|right; left|right; right]; (split; [done|]); lra.
Qed.
End exact.
