(* ===== verification/NumericRound.v ===== *)
(** Rounding and truncation at a decimal position. *)

From S2P Require Import Prelude Numeric NumericArith.
Local Open Scope Z_scope.
Local Open Scope pg_scope.

(** ** Powers of ten and their multiples *)

Definition tpow (e : Z) : Q := Qpower (inject_Z 10) e.

Lemma tpow_plus a b : (tpow (a + b) == tpow a * tpow b)%Q.
Proof. apply Qpower_plus. discriminate. Qed.

Lemma tpow_pos e : (0 < tpow e)%Q.
Proof. apply Qpower_0_lt. reflexivity. Qed.

Lemma bpow_tpow e : (bpow e == tpow (DEC_DIGITS * e))%Q.
Proof. unfold tpow. rewrite Qpower_mult. reflexivity. Qed.

Lemma tpow_Z e : 0 <= e -> (tpow e == inject_Z (10 ^ e))%Q.
Proof.
  intros He. destruct (Z_of_nat_complete e He) as [n ->]. clear He. induction n as [|n IH]; [reflexivity|].
  rewrite Nat2Z.inj_succ, Z.pow_succ_r, <- Z.add_1_l, tpow_plus, IH, inject_Z_mult by lia. reflexivity.
Qed.

Definition multiple (x u : Q) : Prop := exists k : Z, (x == inject_Z k * u)%Q.

Lemma multiple_self u : multiple u u.
Proof. exists 1. ring. Qed.

Lemma multiple_zero u : multiple 0 u.
Proof. exists 0. ring. Qed.

Lemma multiple_plus x y u : multiple x u -> multiple y u -> multiple (x + y) u.
Proof. intros [a Ha] [b Hb]. exists (a + b). rewrite Ha, Hb, inject_Z_plus. ring. Qed.

Lemma multiple_times d x u : multiple x u -> multiple (inject_Z d * x) u.
Proof. intros [a Ha]. exists (d * a). rewrite Ha, inject_Z_mult. ring. Qed.

Lemma multiple_trans x u v : multiple x u -> multiple u v -> multiple x v.
Proof. intros [a Ha] [b Hb]. exists (a * b). rewrite Ha, Hb, inject_Z_mult. ring. Qed.

#[export] Instance multiple_proper : Proper (Qeq ==> Qeq ==> iff) multiple.
Proof. intros x y E u v F. unfold multiple. setoid_rewrite E. setoid_rewrite F. done. Qed.

Lemma tpow_multiple a b : b <= a -> multiple (tpow a) (tpow b).
Proof.
  intros H. exists (10 ^ (a - b)). rewrite <- tpow_Z by lia. rewrite <- tpow_plus. replace (a - b + b) with a by lia. reflexivity.
Qed.

Lemma mag_multiple ds w e : e <= w + 1 - Z.of_nat (length ds) -> multiple (mag ds w) (bpow e).
Proof.
  revert w. induction ds as [|d ds IH]; intros w He; cbn [mag]; [apply multiple_zero|]. simpl in He.
  apply multiple_plus; [|apply IH; lia]. apply multiple_times. rewrite !bpow_tpow. apply tpow_multiple. unfold DEC_DIGITS. lia.
Qed.

(** ** What rounding means *)

(** The greatest multiple of [10 ^ -s] that is at most [x], and the nearest one to [x],
    the greater of two. *)
Definition trunc_at (x : Q) (s : Z) : Q := (inject_Z (Qfloor (x / tpow (- s))) * tpow (- s))%Q.
Definition round_at (x : Q) (s : Z) : Q := trunc_at (x + (1 # 2) * tpow (- s)) s.

Lemma trunc_intro x y s : multiple y (tpow (- s)) -> (y <= x)%Q -> (x < y + tpow (- s))%Q -> (trunc_at x s == y)%Q.
Proof.
  intros [k Ek] H1 H2. unfold trunc_at. pose proof (tpow_pos (- s)) as Hu. set (u := tpow (- s)) in *.
  assert (Qfloor (x / u) = k) as ->; [|by symmetry].
  rewrite Ek in H1, H2. assert (L1 : (inject_Z k <= x / u)%Q) by (apply Qle_shift_div_l; [done|lra]).
  assert (L2 : (x / u < inject_Z (k + 1))%Q) by (apply Qlt_shift_div_r; [done|rewrite inject_Z_plus; change (inject_Z 1) with 1%Q; lra]).
  pose proof (Qfloor_le (x / u)). pose proof (Qlt_floor (x / u)) as L4.
  assert (inject_Z (Qfloor (x / u)) < inject_Z (k + 1))%Q as L5 by lra. assert (inject_Z k < inject_Z (Qfloor (x / u) + 1))%Q as L6 by lra.
  rewrite <- Zlt_Qlt in L5, L6. lia.
Qed.

Lemma round_intro x y s : multiple y (tpow (- s)) -> (y - (1 # 2) * tpow (- s) <= x)%Q -> (x < y + (1 # 2) * tpow (- s))%Q -> (round_at x s == y)%Q.
Proof. intros H H1 H2. apply trunc_intro; [done| |]; lra. Qed.

Lemma round_multiple x s : multiple x (tpow (- s)) -> (round_at x s == x)%Q.
Proof. intros H. pose proof (tpow_pos (- s)). apply round_intro; [done| |]; lra. Qed.

Lemma trunc_multiple x s : multiple x (tpow (- s)) -> (trunc_at x s == x)%Q.
Proof. intros H. pose proof (tpow_pos (- s)). apply trunc_intro; [done| |]; lra. Qed.

Lemma trunc_at_le x s : (trunc_at x s <= x)%Q.
Proof.
  unfold trunc_at. pose proof (tpow_pos (- s)) as Hu. set (u := tpow (- s)) in *. pose proof (Qfloor_le (x / u)) as H.
  apply (Qmult_le_compat_r _ _ u) in H; [|lra]. rewrite (Qmult_comm (x / u)), Qmult_div_r in H by (intros E; rewrite E in Hu; lra). exact H.
Qed.

Lemma round_at_le x s : (round_at x s <= x + (1 # 2) * tpow (- s))%Q.
Proof. apply trunc_at_le. Qed.

#[export] Instance trunc_at_proper : Proper (Qeq ==> eq ==> Qeq) trunc_at.
Proof. intros x y E s ? <-. unfold trunc_at. rewrite E. reflexivity. Qed.

#[export] Instance round_at_proper : Proper (Qeq ==> eq ==> Qeq) round_at.
Proof. intros x y E s ? <-. unfold round_at. rewrite E. reflexivity. Qed.

(** ** The carry *)

Lemma insert_mag ds k d w : (k < length ds)%nat ->
  (mag (<[k := d]> ds) w == mag ds w + (inject_Z d - inject_Z (rd ds k)) * bpow (w - Z.of_nat k))%Q.
Proof.
  revert k w. induction ds as [|x ds IH]; intros k w Hk; simpl in Hk; [lia|]. destruct k as [|k]; cbn [insert list_insert mag].
  - unfold rd. simpl. rewrite Z.sub_0_r. ring.
  - change (list_insert k d ds) with (<[k := d]> ds). rewrite IH by lia. unfold rd. simpl lookup.
    replace (w - 1 - Z.of_nat k) with (w - Z.of_nat (S k)) by lia. ring.
Qed.

Lemma rd_digit ds k : digits_ok ds -> is_digit (rd ds k).
Proof.
  intros H. unfold rd. destruct (ds !! k) as [x|] eqn:E; simpl; [|unfold is_digit, NBASE; lia].
  unfold digits_ok in H. rewrite Forall_lookup in H. by apply (H k).
Qed.

Lemma digits_insert ds k d : digits_ok ds -> is_digit d -> digits_ok (<[k := d]> ds).
Proof. intros. by apply Forall_insert. Qed.

Lemma propagate_carry_spec front' k ds w : (k <= length ds)%nat -> digits_ok ds ->
  exists front ds' out, propagate_carry k (0 :: front') ds = Ok (front, ds', out) /\ digits_ok ds'
  /\ (mag ds' (if out then w + 1 else w) == mag ds w + bpow (w + 1 - Z.of_nat k))%Q
  /\ (out = false /\ front = 0 :: front' \/ out = true /\ (bpow (w + 1) <= mag ds' (w + 1))%Q).
Proof.
  revert ds. induction k as [|k IH]; intros ds Hk Hd; cbn [propagate_carry].
  - exists front', (1 :: ds), true. split; [done|]. split; [by constructor; [unfold is_digit, NBASE; lia|]|].
    cbn [mag]. replace (w + 1 - 1) with w by lia. rewrite Z.sub_0_r. change (inject_Z 1) with 1%Q. split; [ring|].
    right. split; [done|]. pose proof (mag_nonneg ds w Hd). lra.
  - assert (Hr : is_digit (rd ds k)) by (by apply rd_digit). unfold is_digit in Hr.
    replace (w + 1 - Z.of_nat (S k)) with (w - Z.of_nat k) by lia. destruct (Z.leb_spec NBASE (1 + rd ds k)) as [Hc|Hc].
    + assert (rd ds k = NBASE - 1) as E by lia. replace (1 + rd ds k - NBASE) with 0 by lia.
      destruct (IH (<[k := 0]> ds)) as (front & ds' & out & -> & Hd' & Em & Hout); [rewrite length_insert; lia|by apply digits_insert|].
      exists front, ds', out. split; [done|]. split; [done|]. split; [|done]. rewrite Em, insert_mag, E by lia.
      replace (w + 1 - Z.of_nat k) with (w - Z.of_nat k + 1) by lia. rewrite bpow_succ. change (inject_Z (NBASE - 1)) with (9999#1)%Q.
      change (inject_Z NBASE) with (10000#1)%Q. change (inject_Z 0) with 0%Q. ring.
    + exists (0 :: front'), (<[k := 1 + rd ds k]> ds), false. split; [done|]. split; [apply digits_insert; [done|unfold is_digit; lia]|].
      split; [|by left]. rewrite insert_mag, inject_Z_plus by lia. change (inject_Z 1) with 1%Q. ring.
Qed.

(** ** The position *)

Lemma position_split di : 0 <= di -> let n := Z.quot (di + DEC_DIGITS - 1) DEC_DIGITS in let r := Z.rem di DEC_DIGITS in
  0 <= r < DEC_DIGITS /\ 0 <= n /\ (r = 0 -> di = DEC_DIGITS * n) /\ (r <> 0 -> 1 <= n /\ di = DEC_DIGITS * (n - 1) + r).
Proof.
  intros Hdi n r. assert (Hr : r = di mod 4) by (apply Z.rem_mod_nonneg; lia).
  assert (Hn : n = (di + 3) / 4) by (subst n; rewrite Z.quot_div_nonneg by (unfold DEC_DIGITS; lia); f_equal; unfold DEC_DIGITS; lia).
  unfold DEC_DIGITS. clearbody n r. subst. pose proof (Z.div_mod di 4 ltac:(lia)). pose proof (Z.div_mod (di + 3) 4 ltac:(lia)).
  pose proof (Z.mod_pos_bound di 4 ltac:(lia)). pose proof (Z.mod_pos_bound (di + 3) 4 ltac:(lia)). lia.
Qed.

Lemma unit_at_digit w s n : (w + 1) * DEC_DIGITS + s = DEC_DIGITS * n -> (tpow (- s) == bpow (w + 1 - n))%Q.
Proof. intros E. rewrite bpow_tpow. replace (- s) with (DEC_DIGITS * (w + 1 - n)) by (unfold DEC_DIGITS in *; lia). reflexivity. Qed.

Lemma unit_in_digit w s n r : 0 < r < DEC_DIGITS -> (w + 1) * DEC_DIGITS + s = DEC_DIGITS * n + r ->
  (tpow (- s) == inject_Z (rd round_powers (Z.to_nat r)) * bpow (w - n))%Q.
Proof.
  intros Hr E. rewrite bpow_tpow. replace (- s) with (DEC_DIGITS - r + DEC_DIGITS * (w - n)) by (unfold DEC_DIGITS in *; lia). rewrite tpow_plus.
  unfold DEC_DIGITS in Hr. assert (r = 1 \/ r = 2 \/ r = 3) as [->|[->| ->]] by lia; reflexivity.
Qed.

Lemma round_power_cases r : 0 < r < DEC_DIGITS -> exists h q, rd round_powers (Z.to_nat r) = 2 * h /\ 0 < h /\ NBASE = q * (2 * h) /\ Z.quot (2 * h) 2 = h.
Proof.
  unfold DEC_DIGITS. intros Hr. assert (r = 1 \/ r = 2 \/ r = 3) as [->|[->| ->]] by lia.
  - by exists 500, 10.
  - by exists 50, 100.
  - by exists 5, 1000.
Qed.

Lemma mag_split ds k w : (k <= length ds)%nat -> (mag ds w == mag (take k ds) w + mag (drop k ds) (w - Z.of_nat k))%Q.
Proof.
  intros Hk. rewrite <- (take_drop k ds) at 1. rewrite mag_app, length_take. replace (k `min` length ds)%nat with k by lia. reflexivity.
Qed.

Lemma split_at ds k w : digits_ok ds -> (k < length ds)%nat ->
  exists rest, (mag ds w == mag (take k ds) w + inject_Z (rd ds k) * bpow (w - Z.of_nat k) + rest)%Q
  /\ (0 <= rest)%Q /\ (rest < bpow (w - Z.of_nat k))%Q.
Proof.
  intros Hd Hk. exists (mag (drop (S k) ds) (w - Z.of_nat k - 1)). split.
  - rewrite (mag_split ds k w), (drop_S ds (rd ds k)) by (try apply rd_lookup; lia). cbn [mag]. ring.
  - destruct (mag_bounds (drop (S k) ds) (w - Z.of_nat k - 1)) as [H1 H2]; [by apply Forall_drop|].
    split; [done|]. by replace (w - Z.of_nat k - 1 + 1) with (w - Z.of_nat k) in H2 by lia.
Qed.

Lemma mag_take_multiple ds k w : (k <= length ds)%nat -> multiple (mag (take k ds) w) (bpow (w + 1 - Z.of_nat k)).
Proof. intros Hk. apply mag_multiple. rewrite length_take. lia. Qed.

(** The digit and its carry together are the multiple of the power next to the digit. *)
Lemma round_digit_spec x r : is_digit x -> 0 < r < DEC_DIGITS -> let p := rd round_powers (Z.to_nat r) in
  exists d c m, round_digit x p = (d, c) /\ is_digit d /\ d + (if c : bool then NBASE else 0) = p * m /\ - p <= 2 * (x - p * m) <= p - 2.
Proof.
  intros [Hx0 Hx] Hr p. destruct (round_power_cases r Hr) as (h & q & Ep & Hh & Eq & Ehalf). subst p. rewrite Ep. unfold round_digit. rewrite Ehalf.
  rewrite Z.rem_mod_nonneg by lia. pose proof (Z.div_mod x (2 * h) ltac:(lia)) as Ed. pose proof (Z.mod_pos_bound x (2 * h) ltac:(lia)) as Hm.
  assert (Hq : x / (2 * h) < q) by (apply Z.div_lt_upper_bound; lia). pose proof (Z.div_pos x (2 * h) ltac:(lia) ltac:(lia)) as Hdp.
  set (m := x / (2 * h)) in *. set (e := x mod (2 * h)) in *. unfold is_digit. destruct (Z.leb_spec h e).
  - destruct (Z.leb_spec NBASE (2 * h + (x - e))).
    + assert (m = q - 1) by nia. exists (2 * h + (x - e) - NBASE), true, (m + 1). split; [done|]. nia.
    + exists (2 * h + (x - e)), false, (m + 1). split; [done|]. nia.
  - exists (x - e), false, m. split; [done|]. nia.
Qed.

Section cut.
Context (ds : list Z) (w s : Z) (k : nat).
Hypothesis Hd : digits_ok ds.
Hypothesis Hk : (k < length ds)%nat.

(** In front of a digit. *)
Lemma round_at_digit : (w + 1) * DEC_DIGITS + s = DEC_DIGITS * Z.of_nat k ->
  (round_at (mag ds w) s == mag (take k ds) w + (if HALF_NBASE <=? rd ds k then bpow (w + 1 - Z.of_nat k) else 0))%Q.
Proof.
  intros E. pose proof (unit_at_digit w s (Z.of_nat k) E) as Hu. destruct (split_at ds k w Hd Hk) as (rest & Em & H1 & H2).
  assert (Hr : is_digit (rd ds k)) by (by apply rd_digit). destruct Hr as [Hr1 Hr2].
  pose proof (mag_take_multiple ds k w ltac:(lia)) as Hm. replace (w + 1 - Z.of_nat k) with (w - Z.of_nat k + 1) in * by lia.
  pose proof (bpow_succ (w - Z.of_nat k)) as Eb. change (inject_Z NBASE) with (10000#1)%Q in Eb. set (b := bpow (w - Z.of_nat k)) in *.
  rewrite <- Hu in Hm. pose proof (bpow_pos (w - Z.of_nat k)) as Hb. fold b in Hb. destruct (Z.leb_spec HALF_NBASE (rd ds k)) as [Hc|Hc].
  - assert (5000 <= inject_Z (rd ds k) /\ inject_Z (rd ds k) <= 9999)%Q as [Q1 Q2]
      by (split; [change 5000%Q with (inject_Z 5000)|change 9999%Q with (inject_Z 9999)]; rewrite <- Zle_Qle; unfold HALF_NBASE, NBASE in *; lia).
    apply round_intro; [apply multiple_plus; [done|rewrite Hu; apply multiple_self]| |]; rewrite Em, Hu, Eb; nra.
  - assert (0 <= inject_Z (rd ds k) /\ inject_Z (rd ds k) <= 4999)%Q as [Q1 Q2]
      by (split; [change 0%Q with (inject_Z 0)|change 4999%Q with (inject_Z 4999)]; rewrite <- Zle_Qle; unfold HALF_NBASE, NBASE in *; lia).
    apply round_intro; [apply multiple_plus; [done|apply multiple_zero]| |]; rewrite Em, Hu, Eb; nra.
Qed.

Lemma trunc_at_digit : (w + 1) * DEC_DIGITS + s = DEC_DIGITS * Z.of_nat k -> (trunc_at (mag ds w) s == mag (take k ds) w)%Q.
Proof.
  intros E. pose proof (unit_at_digit w s (Z.of_nat k) E) as Hu. pose proof (mag_split ds k w ltac:(lia)) as Em.
  destruct (mag_bounds (drop k ds) (w - Z.of_nat k) ltac:(by apply Forall_drop)) as [B1 B2].
  replace (w - Z.of_nat k + 1) with (w + 1 - Z.of_nat k) in B2 by lia.
  apply trunc_intro; [rewrite Hu; apply mag_take_multiple; lia| |]; rewrite Em, ?Hu; lra.
Qed.

(** Within a digit: [y] is the nearest multiple, or the one before. *)
Lemma in_digit r m : 0 < r < DEC_DIGITS -> (w + 1) * DEC_DIGITS + s = DEC_DIGITS * Z.of_nat k + r ->
  let p := rd round_powers (Z.to_nat r) in
  let y := (mag (take k ds) w + inject_Z (p * m) * bpow (w - Z.of_nat k))%Q in
  (- p <= 2 * (rd ds k - p * m) <= p - 2 -> (round_at (mag ds w) s == y)%Q)
  /\ (0 <= rd ds k - p * m <= p - 1 -> (trunc_at (mag ds w) s == y)%Q).
Proof.
  intros Hr E p y. pose proof (unit_in_digit w s (Z.of_nat k) r Hr E) as Hu. fold p in Hu. destruct (split_at ds k w Hd Hk) as (rest & Em & H1 & H2).
  assert (Hm : multiple y (tpow (- s))).
  { apply multiple_plus.
    - apply (multiple_trans _ (bpow (w + 1 - Z.of_nat k))); [apply mag_take_multiple; lia|].
      rewrite bpow_tpow. apply tpow_multiple. unfold DEC_DIGITS in *. lia.
    - exists m. rewrite Hu, inject_Z_mult. ring. }
  unfold y in *. set (b := bpow (w - Z.of_nat k)) in *. pose proof (bpow_pos (w - Z.of_nat k)) as Hb. fold b in Hb.
  set (t := rd ds k - p * m) in *. assert (Et : rd ds k = t + p * m) by (unfold t; lia). rewrite Et, inject_Z_plus in Em. clearbody t. split; intros [Q1 Q2].
  - assert (- inject_Z p <= 2 * inject_Z t /\ 2 * inject_Z t <= inject_Z p - 2)%Q as [Q3 Q4].
    { change 2%Q with (inject_Z 2). unfold Qminus. rewrite <- !inject_Z_opp, <- !inject_Z_mult, <- inject_Z_plus, <- !Zle_Qle. lia. }
    apply round_intro; [done| |]; rewrite Em, Hu; nra.
  - assert (0 <= inject_Z t /\ inject_Z t <= inject_Z p - 1)%Q as [Q3 Q4].
    { change 0%Q with (inject_Z 0). change 1%Q with (inject_Z 1). unfold Qminus. rewrite <- !inject_Z_opp, <- inject_Z_plus, <- !Zle_Qle. lia. }
    apply trunc_intro; [done| |]; rewrite Em, ?Hu; nra.
Qed.

Lemma mag_replaced d : (mag (<[k := d]> (take (S k) ds)) w == mag (take k ds) w + inject_Z d * bpow (w - Z.of_nat k))%Q.
Proof.
  rewrite insert_mag by (rewrite length_take; lia). unfold rd. rewrite lookup_take_lt by lia.
  rewrite (take_S_r ds k (rd ds k)) by (by apply rd_lookup). rewrite mag_snoc, length_take. replace (k `min` length ds)%nat with k by lia.
  unfold rd. ring.
Qed.
End cut.

(** ** [round_var] and [trunc_var] *)

Lemma round_small v s : var_ok v -> (weight v + 1) * DEC_DIGITS + s < 0 -> (round_at (magnitude v) s == 0)%Q.
Proof.
  intros [Hd _] Hdi. destruct (mag_bounds (digits v) (weight v) Hd) as [B1 B2]. rewrite bpow_tpow in B2.
  assert (Hu : (10 * tpow (DEC_DIGITS * (weight v + 1)) <= tpow (- s))%Q).
  { change 10%Q with (tpow 1). rewrite <- tpow_plus. apply Qpower_le_compat_l; [unfold DEC_DIGITS in *; lia|done]. }
  pose proof (tpow_pos (DEC_DIGITS * (weight v + 1))). unfold magnitude. apply round_intro; [apply multiple_zero| |]; lra.
Qed.

Lemma trunc_small v s : var_ok v -> (weight v + 1) * DEC_DIGITS + s <= 0 -> (trunc_at (magnitude v) s == 0)%Q.
Proof.
  intros [Hd _] Hdi. destruct (mag_bounds (digits v) (weight v) Hd) as [B1 B2]. rewrite bpow_tpow in B2.
  assert (Hu : (tpow (DEC_DIGITS * (weight v + 1)) <= tpow (- s))%Q) by (apply Qpower_le_compat_l; [unfold DEC_DIGITS in *; lia|done]).
  unfold magnitude. apply trunc_intro; [apply multiple_zero| |]; lra.
Qed.

(** All digits are before the position. *)
Lemma digits_before v s : DEC_DIGITS * ndigits v <= (weight v + 1) * DEC_DIGITS + s -> multiple (magnitude v) (tpow (- s)).
Proof.
  intros H. apply (multiple_trans _ (bpow (weight v + 1 - ndigits v))); [apply mag_multiple; unfold ndigits; lia|].
  rewrite bpow_tpow. apply tpow_multiple. unfold DEC_DIGITS in *. lia.
Qed.

(** The digits before the carry: at [k] they end or a digit was rounded. *)
Lemma round_cut v s n r : var_ok v -> (weight v + 1) * DEC_DIGITS + s >= 0 ->
  n = Z.quot ((weight v + 1) * DEC_DIGITS + s + DEC_DIGITS - 1) DEC_DIGITS -> r = Z.rem ((weight v + 1) * DEC_DIGITS + s) DEC_DIGITS ->
  (n <? ndigits v) || ((n =? ndigits v) && (0 <? r)) = true ->
  exists k ds carry,
    (if r =? 0 then (Z.to_nat n, take (Z.to_nat n) (digits v), HALF_NBASE <=? rd (digits v) (Z.to_nat n))
     else let k := pred (Z.to_nat n) in
          let '(d, carry) := round_digit (rd (digits v) k) (rd round_powers (Z.to_nat r)) in
          (k, <[k := d]> (take (Z.to_nat n) (digits v)), carry)) = (k, ds, carry)
    /\ (k <= length ds)%nat /\ digits_ok ds
    /\ (round_at (magnitude v) s == mag ds (weight v) + (if carry then bpow (weight v + 1 - Z.of_nat k) else 0))%Q.
Proof.
  intros [Hd _] Hdi Hn Hr Hcut. destruct (position_split _ (proj1 (Z.ge_le_iff _ _) Hdi)) as (P1 & P2 & P3 & P4). rewrite <- Hr, <- Hn in *.
  unfold ndigits in Hcut. unfold magnitude. destruct (Z.eqb_spec r 0) as [E|E].
  - assert (Hk : (Z.to_nat n < length (digits v))%nat) by lia. exists (Z.to_nat n), (take (Z.to_nat n) (digits v)), (HALF_NBASE <=? rd (digits v) (Z.to_nat n)).
    split; [done|]. split; [rewrite length_take; lia|]. split; [by apply Forall_take|].
    apply round_at_digit; [done|done|]. rewrite Z2Nat.id by lia. auto.
  - destruct (P4 E) as [Hn1 Edi]. assert (Hk : (pred (Z.to_nat n) < length (digits v))%nat) by lia. cbv zeta.
    destruct (round_digit_spec (rd (digits v) (pred (Z.to_nat n))) r) as (d & c & m & -> & Hdd & Em & Hb); [by apply rd_digit|lia|].
    do 3 eexists. split; [done|]. split; [rewrite length_insert, length_take; lia|]. split; [apply digits_insert; [by apply Forall_take|done]|].
    replace (Z.to_nat n) with (S (pred (Z.to_nat n))) at 2 by lia. rewrite mag_replaced by done.
    destruct (in_digit (digits v) (weight v) s _ Hd Hk r m ltac:(lia) ltac:(unfold DEC_DIGITS in *; lia)) as [-> _]; [|done]. rewrite <- Em, inject_Z_plus. destruct c.
    + replace (weight v + 1 - Z.of_nat (pred (Z.to_nat n))) with (weight v - Z.of_nat (pred (Z.to_nat n)) + 1) by lia. rewrite bpow_succ. ring.
    + change (inject_Z 0) with 0%Q. ring.
Qed.

Lemma round_var_spec v s : var_ok v -> roomy v \/ digits v = [] ->
  exists v', round_var v s = Ok v' /\ var_ok v' /\ dscale v' = s /\ (magnitude v' == round_at (magnitude v) s)%Q
  /\ (sign v' = sign v \/ digits v' = []) /\ (spare v' = spare v \/ (bpow (weight v + 1) <= magnitude v')%Q).
Proof.
  intros Hv Hroom. unfold round_var. destruct (Z.ltb_spec ((weight v + 1) * DEC_DIGITS + s) 0) as [Hdi|Hdi].
  { eexists. split; [done|]. split; [split; [constructor|by left]|]. split; [done|]. split; [rewrite round_small by done; reflexivity|]. split; [by right|by left]. }
  destruct (_ || _) eqn:Ec.
  - destruct (round_cut v s _ _ Hv ltac:(lia) eq_refl eq_refl Ec) as (k & ds & carry & Hcut & Hk & Hok & Em). cbv zeta in Hcut |- *. rewrite Hcut. destruct carry.
    + destruct Hroom as [[front' Ef]|En].
      * rewrite Ef. destruct (propagate_carry_spec front' k ds (weight v) Hk Hok) as (front & ds' & out & -> & Hok' & Em' & Hout).
        cbn [res_bind]. eexists. split; [done|]. split; [split; [done|apply Hv]|]. split; [done|]. split; [rewrite Em, <- Em'; reflexivity|].
        split; [by left|]. destruct Hout as [[-> ->]|[-> Hge]]; [by left|right; exact Hge].
      * exfalso. unfold ndigits in Ec. rewrite En in Ec. simpl length in Ec.
        destruct (position_split _ Hdi) as (P1 & P2 & P3 & P4). set (n := Z.quot _ _) in *. set (r := Z.rem _ _) in *. clearbody n r. clear Hcut Em. apply orb_true_iff in Ec as [Ec%Z.ltb_lt|[Ec%Z.eqb_eq Ec2%Z.ltb_lt]%andb_true_iff]; [lia|]. destruct (P4 ltac:(lia)). lia.
    + eexists. split; [done|]. split; [split; [done|apply Hv]|]. split; [done|]. split; [|by split; left]. rewrite Em. unfold magnitude. cbn [digits weight]. ring.
  - eexists. split; [done|]. split; [split; apply Hv|]. split; [done|]. split; [|by split; left]. symmetry. apply round_multiple, (digits_before v).
    destruct (position_split _ Hdi) as (P1 & P2 & P3 & P4). set (n := Z.quot _ _) in *. set (r := Z.rem _ _) in *. unfold DEC_DIGITS in *. lia.
Qed.

Lemma trunc_var_spec v s : var_ok v ->
  let v' := trunc_var v s in
  var_ok v' /\ dscale v' = s /\ (magnitude v' == trunc_at (magnitude v) s)%Q /\ (sign v' = sign v \/ digits v' = []).
Proof.
  intros Hv. unfold trunc_var. destruct (Z.leb_spec ((weight v + 1) * DEC_DIGITS + s) 0) as [Hdi|Hdi].
  { split; [split; [constructor|by left]|]. split; [done|]. split; [|by right]. rewrite trunc_small by done. reflexivity. }
  destruct (position_split _ (Z.lt_le_incl _ _ Hdi)) as (P1 & P2 & P3 & P4). set (n := Z.quot _ _) in *. set (r := Z.rem _ _) in *.
  destruct (Z.leb_spec n (ndigits v)) as [Hn|Hn]; unfold ndigits in Hn.
  - destruct (Z.ltb_spec 0 r) as [Hr|Hr].
    + destruct (P4 ltac:(lia)) as [Hn1 Edi]. set (k := pred (Z.to_nat n)). assert (Hk : (k < length (digits v))%nat) by (unfold k; lia).
      assert (E : rd (take (Z.to_nat n) (digits v)) k = rd (digits v) k) by (unfold rd; rewrite lookup_take_lt by (unfold k; lia); done).
      destruct (round_power_cases r ltac:(lia)) as (h & q & Ep & Hh & Eq & _). assert (Hx : is_digit (rd (digits v) k)) by (apply rd_digit, Hv). unfold is_digit in Hx.
      rewrite E, Ep, Z.rem_mod_nonneg by lia. set (x := rd (digits v) k) in *. pose proof (Z.div_mod x (2 * h) ltac:(lia)).
      pose proof (Z.mod_pos_bound x (2 * h) ltac:(lia)). replace (x - x mod (2 * h)) with (2 * h * (x / (2 * h))) by lia.
      pose proof (Z.mod_le x (2 * h) ltac:(lia) ltac:(lia)). split; [split; [apply digits_insert; [apply Forall_take, Hv|unfold is_digit; lia]|apply Hv]|]. split; [done|]. split; [|by left].
      destruct (in_digit (digits v) (weight v) s k (ok_digits _ Hv) Hk r (x / (2 * h)) ltac:(lia) ltac:(unfold k, DEC_DIGITS in *; lia)) as [_ Ht].
      rewrite Ep in Ht. unfold magnitude at 2. rewrite Ht by (fold x; lia). unfold magnitude. cbn [digits weight].
      replace (Z.to_nat n) with (S k) by (unfold k; lia). apply mag_replaced. done.
    + assert (Edi : (weight v + 1) * DEC_DIGITS + s = DEC_DIGITS * n) by (apply P3; lia).
      split; [split; [apply Forall_take, Hv|apply Hv]|]. split; [done|]. split; [|by left]. unfold magnitude. cbn [digits weight].
      destruct (decide (Z.to_nat n < length (digits v))%nat) as [Hk|Hk].
      * symmetry. apply trunc_at_digit; [apply Hv|done|]. rewrite Z2Nat.id by lia. done.
      * rewrite take_ge by lia. symmetry. apply trunc_multiple, (digits_before v). unfold ndigits, DEC_DIGITS in *. lia.
  - split; [split; apply Hv|]. split; [done|]. split; [|by left]. symmetry. apply trunc_multiple, (digits_before v). unfold ndigits, DEC_DIGITS in *. lia.
Qed.
