(* ===== verification/NumericMul.v ===== *)
(** Multiplication: the sums of products never overflow an [int], and the product is
    exact up to the rounding that was asked for. *)

From S2P Require Import Prelude Numeric NumericArith NumericRound.
Local Open Scope Z_scope.
Local Open Scope pg_scope.

(** What [maxdig] may reach before a pass of carries. *)
Definition maxdig_limit : Z := Z.quot (INT32_MAX - Z.quot INT32_MAX NBASE) (NBASE - 1).

(** Elements that are sums of at most [maxdig] times the greatest digit. *)
Definition below (maxdig : Z) (dig : list Z) : Prop := Forall (fun x => 0 <= x <= maxdig * (NBASE - 1)) dig.

Lemma int32_ok x : 0 <= x <= INT32_MAX -> int32 x = Ok x.
Proof. intros H. unfold int32, INT32_MAX in *. destruct (Z.leb_spec (- 2 ^ 31) x), (Z.leb_spec x (2 ^ 31 - 1)); simpl; (done || lia). Qed.

Lemma below_weaken a b dig : a <= b -> below a dig -> below b dig.
Proof. intros H Hb. eapply Forall_impl; [exact Hb|]. unfold NBASE. intros x Hx. cbv beta in *. lia. Qed.

Lemma below_mag a dig w : below a dig -> (0 <= mag dig w)%Q.
Proof.
  intros H. revert w. induction H as [|x dig Hx _ IH]; intros w; cbn [mag]; [lra|]. specialize (IH (w - 1)). pose proof (bpow_pos w).
  assert (0 <= inject_Z x)%Q by (change 0%Q with (inject_Z 0); rewrite <- Zle_Qle; lia). nra.
Qed.

(** ** The pass of carries *)

Lemma carry_pass_spec dig w : below maxdig_limit dig ->
  exists carry out, carry_pass dig = Ok (carry, out) /\ length out = length dig /\ digits_ok out /\ 0 <= carry <= 214748
  /\ (mag out w + inject_Z carry * bpow (w + 1) == mag dig w)%Q.
Proof.
  intros H. revert w. induction H as [|x dig Hx _ IH]; intros w; cbn [carry_pass].
  - exists 0, []. split; [done|]. split; [done|]. split; [constructor|]. split; [lia|]. cbn [mag]. ring.
  - destruct (IH (w - 1)) as (c & out & -> & Hl & Hok & Hc & Em). cbn [res_bind]. replace (w - 1 + 1) with w in Em by lia.
    assert (Hb : 0 <= x + c <= INT32_MAX) by (change (maxdig_limit * (NBASE - 1)) with 2147265252 in Hx; unfold INT32_MAX; lia).
    rewrite (int32_ok _ Hb). cbn [res_bind]. destruct (Z.leb_spec NBASE (x + c)) as [Hn|Hn].
    + rewrite Z.quot_div_nonneg by (unfold NBASE in *; lia). pose proof (Z.div_mod (x + c) NBASE ltac:(done)) as Ed.
      pose proof (Z.mod_pos_bound (x + c) NBASE ltac:(done)) as Hm. set (q := (x + c) / NBASE) in *. set (e := (x + c) mod NBASE) in *. clearbody q e.
      rewrite int32_ok by (unfold INT32_MAX, NBASE in *; lia). cbn [res_bind]. exists q, (x + c - q * NBASE :: out). split; [done|]. split; [simpl; lia|].
      split; [constructor; [unfold is_digit, NBASE in *; lia|done]|]. split; [unfold NBASE, INT32_MAX in *; lia|]. cbn [mag].
      replace (x + c - q * NBASE) with e by lia. rewrite bpow_succ, <- Em.
      assert (Eq : (inject_Z x + inject_Z c == inject_Z NBASE * inject_Z q + inject_Z e)%Q) by (rewrite <- inject_Z_mult, <- !inject_Z_plus, Ed; reflexivity).
      pose proof (Qmult_comp _ _ Eq (bpow w) (bpow w) (Qeq_refl _)). lra.
    + exists 0, (x + c :: out). split; [done|]. split; [simpl; lia|]. split; [constructor; [unfold is_digit; lia|done]|]. split; [lia|].
      cbn [mag]. rewrite <- Em, inject_Z_plus. change (inject_Z 0) with 0%Q. ring.
Qed.

Lemma normalize_spec dig w : below maxdig_limit dig -> (mag dig w < bpow (w + 1))%Q ->
  exists out, normalize dig = Ok out /\ length out = length dig /\ digits_ok out /\ (mag out w == mag dig w)%Q.
Proof.
  intros Hb Hlt. unfold normalize. destruct (carry_pass_spec dig w Hb) as (c & out & -> & Hl & Hok & Hc & Em). cbn [res_bind].
  destruct (Z.eqb_spec c 0) as [->|Hne]; simpl.
  - exists out. split; [done|]. split; [done|]. split; [done|]. rewrite <- Em. change (inject_Z 0) with 0%Q. ring.
  - exfalso. pose proof (mag_nonneg out w Hok). pose proof (bpow_pos (w + 1)). pose proof (inject_Z_ge c ltac:(lia)). nra.
Qed.

(** ** One row *)

Lemma add_row_spec d dig ds2 a w : is_digit d -> digits_ok ds2 -> below a dig -> 0 <= a -> a + d <= maxdig_limit ->
  exists row, add_row d dig ds2 = Ok row /\ length row = length dig /\ below (a + d) row
  /\ (mag row w == mag dig w + inject_Z d * mag (take (length dig) ds2) w)%Q.
Proof.
  intros [Hd0 Hd] H2 Hb Ha Hlim. change maxdig_limit with 214748 in Hlim. revert ds2 w H2.
  induction Hb as [|x dig Hx Hb IH]; intros ds2 w H2; cbn [add_row].
  - exists []. split; [done|]. split; [done|]. split; [constructor|]. simpl. ring.
  - destruct H2 as [|y ds2 [Hy0 Hy] H2].
    + exists (x :: dig). split; [done|]. split; [done|]. split; [|rewrite take_nil; cbn [mag]; ring].
      apply (below_weaken a); [lia|]. by constructor.
    + unfold NBASE in *. assert (Hp : 0 <= d * y <= d * 9999) by nia. rewrite int32_ok by (unfold INT32_MAX; nia). cbn [res_bind].
      rewrite int32_ok by (unfold INT32_MAX; nia). cbn [res_bind]. destruct (IH ds2 (w - 1) H2) as (row & -> & Hl & Hr & Em). cbn [res_bind].
      exists (x + d * y :: row). split; [done|]. split; [simpl; lia|]. split; [constructor; [unfold NBASE; nia|done]|].
      cbn [mag length firstn take]. rewrite Em, inject_Z_plus, inject_Z_mult. ring.
Qed.

Lemma mag_shift ds w e : (mag ds (w + e) == bpow e * mag ds w)%Q.
Proof.
  revert w. induction ds as [|d ds IH]; intros w; cbn [mag]; [ring|]. replace (w + e - 1) with (w - 1 + e) by lia. rewrite IH, bpow_plus. ring.
Qed.

Lemma mag_take_le ds n w : digits_ok ds -> (0 <= mag (take n ds) w /\ mag (take n ds) w <= mag ds w)%Q.
Proof.
  intros H. split; [by apply mag_nonneg, Forall_take|]. destruct (decide (n <= length ds)%nat) as [Hn|Hn].
  - rewrite (mag_split ds n w Hn). pose proof (mag_nonneg (drop n ds) (w - Z.of_nat n) ltac:(by apply Forall_drop)). lra.
  - rewrite take_ge by lia. lra.
Qed.

(** ** All rows *)

Section rows.
Context (ds1 ds2 : list Z) (w1 w2 : Z).
Hypothesis H1 : digits_ok ds1.
Hypothesis H2 : digits_ok ds2.

Let w := w1 + w2 + 2.

(** What rows [0] to [n - 1] add. *)
Let partial (n : nat) : Q := (mag (take n ds1) w1 * mag ds2 w2)%Q.

Lemma partial_S n : (n < length ds1)%nat -> (partial (S n) == partial n + inject_Z (rd ds1 n) * bpow (w1 - Z.of_nat n) * mag ds2 w2)%Q.
Proof.
  intros Hn. unfold partial. rewrite (take_S_r ds1 n (rd ds1 n)) by (by apply rd_lookup). rewrite mag_snoc, length_take.
  replace (n `min` length ds1)%nat with n by lia. ring.
Qed.

(** A row goes to the positions from [i1 + 2] on. *)
Lemma row_spec i1 dig maxdig : (i1 + 2 <= length dig)%nat -> below maxdig dig -> 0 <= maxdig -> maxdig + rd ds1 i1 <= maxdig_limit ->
  exists row, add_row (rd ds1 i1) (drop (i1 + 2) dig) ds2 = Ok row /\ length (take (i1 + 2) dig ++ row) = length dig
  /\ below (maxdig + rd ds1 i1) (take (i1 + 2) dig ++ row)
  /\ (mag (take (i1 + 2) dig ++ row) w
      == mag dig w + inject_Z (rd ds1 i1) * bpow (w1 - Z.of_nat i1) * mag (take (length dig - (i1 + 2)) ds2) w2)%Q.
Proof.
  intros Hl Hb Hm Hlim. assert (Hd : is_digit (rd ds1 i1)) by (by apply rd_digit).
  destruct (add_row_spec (rd ds1 i1) (drop (i1 + 2) dig) ds2 maxdig (w2 + (w1 - Z.of_nat i1)) Hd H2) as (row & E & Hlr & Hbr & Em);
    [by apply Forall_drop|done|done|].
  exists row. split; [done|]. rewrite length_drop in Hlr, Em. split; [rewrite length_app, length_take, Hlr; lia|]. split.
  - apply Forall_app. split; [|done]. apply (below_weaken maxdig); [unfold is_digit in Hd; lia|by apply Forall_take].
  - rewrite mag_app, length_take, (mag_split dig (i1 + 2) w Hl). replace ((i1 + 2) `min` length dig)%nat with (i1 + 2)%nat by lia.
    unfold w. replace (w1 + w2 + 2 - Z.of_nat (i1 + 2)) with (w2 + (w1 - Z.of_nat i1)) by lia. rewrite Em, (mag_shift (take _ ds2)). ring.
Qed.

(** Carries are spread when the next row might overflow. *)
Lemma spread_spec i1 dig maxdig : below maxdig dig -> 0 <= maxdig <= maxdig_limit -> (mag dig w < bpow (w + 1))%Q ->
  exists dig' maxdig',
    (if Z.quot (INT32_MAX - Z.quot INT32_MAX NBASE) (NBASE - 1) <? maxdig + rd ds1 i1
     then dig <-! normalize dig ;; Ok (dig, 1 + rd ds1 i1) else Ok (dig, maxdig + rd ds1 i1)) = Ok (dig', maxdig' + rd ds1 i1)
    /\ length dig' = length dig /\ below maxdig' dig' /\ 0 <= maxdig' /\ maxdig' + rd ds1 i1 <= maxdig_limit /\ (mag dig' w == mag dig w)%Q.
Proof.
  intros Hb Hm Hlt. assert (Hd : is_digit (rd ds1 i1)) by (by apply rd_digit). destruct Hd as [Hd0 Hd]. fold maxdig_limit.
  destruct (Z.ltb_spec maxdig_limit (maxdig + rd ds1 i1)) as [Hx|Hx].
  - destruct (normalize_spec dig w (below_weaken maxdig _ dig (proj2 Hm) Hb) Hlt) as (out & -> & Hl & Hok & Em). cbn [res_bind].
    exists out, 1. split; [done|]. split; [done|]. split; [|split; [lia|split; [|done]]].
    + eapply Forall_impl; [exact Hok|]. intros x [? ?]. cbv beta. lia.
    + change maxdig_limit with 214748. unfold NBASE in *. lia.
  - exists dig, maxdig. split; [done|]. split; [done|]. split; [done|]. split; [lia|]. split; [lia|reflexivity].
Qed.

(** The rows never overflow; they are complete if every position exists. *)
Lemma mul_rows_spec n dig maxdig : (n <= length ds1)%nat -> (n + 1 <= length dig)%nat ->
  below maxdig dig -> 0 <= maxdig <= maxdig_limit -> (mag dig w + partial n < bpow (w + 1))%Q ->
  exists dig', mul_rows n ds1 ds2 dig maxdig = Ok dig' /\ length dig' = length dig /\ below maxdig_limit dig'
  /\ (mag dig' w <= mag dig w + partial n)%Q /\ ((n + 1 + length ds2 <= length dig)%nat -> (mag dig' w == mag dig w + partial n)%Q).
Proof.
  revert dig maxdig. induction n as [|n IH]; intros dig maxdig Hn Hl Hb Hm Hlt; cbn [mul_rows].
  { assert (E : (partial 0 == 0)%Q) by (unfold partial; rewrite take_0; cbn [mag]; ring). exists dig. split; [done|]. split; [done|].
    split; [apply (below_weaken maxdig); [lia|done]|]. split; [lra|intros _; lra]. }
  pose proof (partial_S n ltac:(lia)) as Ep. destruct (Z.eqb_spec (rd ds1 n) 0) as [E0|E0].
  { rewrite E0 in Ep. change (inject_Z 0) with 0%Q in Ep. destruct (IH dig maxdig) as (dig' & -> & Hl' & Hb' & Hle & Heq); [lia|lia|done|done|lra|].
    exists dig'. split; [done|]. split; [done|]. split; [done|]. split; [lra|]. intros Hf. rewrite Heq by lia. lra. }
  assert (Hd : is_digit (rd ds1 n)) by (by apply rd_digit). destruct Hd as [Hd0 Hd].
  rewrite int32_ok by (change maxdig_limit with 214748 in Hm; unfold INT32_MAX, NBASE in *; lia). cbn [res_bind].
  assert (Hrow : (0 <= inject_Z (rd ds1 n) * bpow (w1 - Z.of_nat n))%Q).
  { pose proof (bpow_pos (w1 - Z.of_nat n)). pose proof (inject_Z_ge (rd ds1 n) ltac:(lia)). nra. }
  set (f := (inject_Z (rd ds1 n) * bpow (w1 - Z.of_nat n))%Q) in *.
  pose proof (mag_nonneg ds2 w2 H2). assert (Hp : (0 <= partial n)%Q).
  { unfold partial. pose proof (mag_nonneg (take n ds1) w1 ltac:(by apply Forall_take)). nra. }
  destruct (spread_spec n dig maxdig Hb Hm) as (dig1 & md & -> & Hl1 & Hb1 & Hm1 & Hlim & Em1); [nra|]. cbn [res_bind].
  destruct (row_spec n dig1 md) as (row & -> & Hl2 & Hb2 & Em2); [lia|done|done|done|]. cbn [res_bind]. fold f in Em2.
  destruct (mag_take_le ds2 (length dig1 - (n + 2)) w2 H2) as [B1 B2].
  destruct (IH (take (n + 2) dig1 ++ row) (md + rd ds1 n)) as (dig' & -> & Hl' & Hb' & Hle & Heq); [lia|lia|done|lia|nra|].
  exists dig'. split; [done|]. split; [lia|]. split; [done|]. split; [nra|]. intros Hf. rewrite Heq by lia.
  rewrite Em2, take_ge by lia. lra.
Qed.
End rows.

Lemma product_below v1 v2 : var_ok v1 -> var_ok v2 -> (magnitude v1 * magnitude v2 < bpow (weight v1 + weight v2 + 2))%Q.
Proof.
  intros [O1 _] [O2 _]. destruct (mag_bounds (digits v1) (weight v1) O1) as [A1 A2], (mag_bounds (digits v2) (weight v2) O2) as [B1 B2].
  replace (weight v1 + weight v2 + 2) with ((weight v1 + 1) + (weight v2 + 1)) by lia. rewrite bpow_plus. unfold magnitude.
  pose proof (bpow_pos (weight v1 + 1)). nra.
Qed.

Lemma product_digits v1 v2 n : var_ok v1 -> var_ok v2 -> 3 <= n <= ndigits v1 + ndigits v2 + 1 -> digits v1 <> [] -> digits v2 <> [] ->
  let w := weight v1 + weight v2 + 2 in
  exists dig ds,
    mul_rows (Z.to_nat (Z.min (ndigits v1 - 1) (n - 3) + 1)) (digits v1) (digits v2) (replicate (Z.to_nat n) 0) 0 = Ok dig
    /\ normalize dig = Ok ds /\ digits_ok ds /\ (mag ds w <= magnitude v1 * magnitude v2)%Q
    /\ (n = ndigits v1 + ndigits v2 + 1 -> (mag ds w == magnitude v1 * magnitude v2)%Q).
Proof.
  intros H1 H2 Hn Hne Hne2 w. pose proof (ok_digits _ H1) as O1. pose proof (ok_digits _ H2) as O2. unfold ndigits in *.
  assert (L1 : (1 <= length (digits v1))%nat) by (destruct (digits v1); [done|simpl; lia]).
  assert (L2 : (1 <= length (digits v2))%nat) by (destruct (digits v2); [done|simpl; lia]).
  destruct (mag_bounds (digits v1) (weight v1) O1) as [A1 A2], (mag_bounds (digits v2) (weight v2) O2) as [B1 B2].
  pose proof (product_below v1 v2 H1 H2) as Hprod. fold w in Hprod. pose proof (bpow_le w (w + 1) ltac:(lia)).
  set (rows := Z.to_nat _). assert (Hrows : (rows <= length (digits v1))%nat /\ (rows + 1 <= Z.to_nat n)%nat) by (unfold rows; lia).
  destruct (mag_take_le (digits v1) rows (weight v1) O1) as [T1 T2]. fold (magnitude v1) in A1, T2. fold (magnitude v2) in B1.
  assert (Hpart : (0 <= mag (take rows (digits v1)) (weight v1) * magnitude v2 /\ mag (take rows (digits v1)) (weight v1) * magnitude v2 <= magnitude v1 * magnitude v2)%Q).
  { split; [by apply Qmult_le_0_compat|by apply Qmult_le_compat_r]. }
  destruct (mul_rows_spec (digits v1) (digits v2) (weight v1) (weight v2) O1 O2 rows (replicate (Z.to_nat n) 0) 0) as (dig & E & Hl & Hb & Hle & Heq).
  - lia.
  - rewrite length_replicate. lia.
  - apply Forall_replicate. simpl. lia.
  - change maxdig_limit with 214748. lia.
  - fold w. rewrite mag_zeroes. fold (magnitude v2). lra.
  - fold w in Hle, Heq. fold (magnitude v2) in Hle, Heq. rewrite mag_zeroes in Hle, Heq. assert (Hlt : (mag dig w < bpow (w + 1))%Q) by lra.
    destruct (normalize_spec dig w Hb Hlt) as (ds & E2 & _ & Hok & Em). exists dig, ds. split; [done|]. split; [done|]. split; [done|].
    split; [rewrite Em; lra|]. intros Ef. rewrite length_replicate in Heq. rewrite Em, Heq by (unfold rows; lia).
    rewrite take_ge by (unfold rows; lia). fold (magnitude v1). ring.
Qed.

(** The digits of a product that the code computes. *)
Definition product_room (v1 v2 : NumericVar) (s : Z) : Z :=
  weight v1 + weight v2 + 2 + 1 + Z.quot (s + DEC_DIGITS - 1) DEC_DIGITS + MUL_GUARD_DIGITS.

Lemma sign_product v1 v2 m : var_ok v1 -> var_ok v2 ->
  ((if (if sign v1 =? sign v2 then NUMERIC_POS else NUMERIC_NEG) =? NUMERIC_NEG then (-1)%Q else 1%Q) * m == sgn v1 * sgn v2 * m)%Q.
Proof. intros [_ [S1|S1]] [_ [S2|S2]]; unfold sgn; rewrite S1, S2; simpl; ring. Qed.

(** Less than a digit before the first: rounding cannot carry out of the digits. *)
Lemma rounded_below v (Hv : var_ok v) s : (magnitude v < bpow (weight v))%Q -> ~ (bpow (weight v + 1) <= round_at (magnitude v) s)%Q.
Proof.
  intros Hlt Hge. pose proof (bpow_pos (weight v)). pose proof (bpow_succ (weight v)) as Eb. change (inject_Z NBASE) with (10000#1)%Q in Eb.
  destruct (decide ((weight v + 1) * DEC_DIGITS + s < 0)) as [Hdi|Hdi]; [rewrite round_small in Hge by done; lra|].
  pose proof (round_at_le (magnitude v) s). assert (tpow (- s) <= bpow (weight v + 1))%Q; [|lra].
  rewrite bpow_tpow. apply Qpower_le_compat_l; [unfold DEC_DIGITS in *; lia|done].
Qed.

(** The code after the operands were put in order. *)
Lemma mul_ordered v1 v2 s : var_ok v1 -> var_ok v2 -> digits v1 <> [] -> digits v2 <> [] ->
  let n := Z.min (ndigits v1 + ndigits v2 + 1) (product_room v1 v2 s) in 3 <= n ->
  exists v, (dig <-! mul_rows (Z.to_nat (Z.min (ndigits v1 - 1) (n - 3) + 1)) (digits v1) (digits v2) (replicate (Z.to_nat n) 0) 0 ;;
             ds <-! normalize dig ;;
             v <-! round_var (mk_var [0] ds (weight v1 + weight v2 + 2) (if sign v1 =? sign v2 then NUMERIC_POS else NUMERIC_NEG) (dscale v1)) s ;;
             Ok (strip_var v)) = Ok v
  /\ normal v /\ dscale v = s /\ (roomy v \/ digits v = [])
  /\ (ndigits v1 + ndigits v2 + 1 <= product_room v1 v2 s -> (value v == sgn v1 * sgn v2 * round_at (magnitude v1 * magnitude v2) s)%Q).
Proof.
  intros H1 H2 Hne1 Hne2 n Hn. destruct (product_digits v1 v2 n H1 H2 ltac:(lia) Hne1 Hne2) as (dig & ds & -> & En & Hok & Hle & Heq).
  cbn [res_bind]. rewrite En. cbn [res_bind].   set (w := weight v1 + weight v2 + 2) in *. set (sg := if sign v1 =? sign v2 then NUMERIC_POS else NUMERIC_NEG).
  assert (Hv : var_ok (mk_var [0] ds w sg (dscale v1))) by (split; [done|unfold sg; simpl; destruct (_ =? _); auto]).
  destruct (round_var_spec (mk_var [0] ds w sg (dscale v1)) s Hv) as (v & -> & Hok' & Hsc & Em & Hs & Hsp); [by left; exists []|].
  cbn [res_bind]. eexists. split; [done|]. destruct (strip_var_spec v Hok') as (S1 & S2 & S3 & S4 & S5 & _ & S7).
  split; [by split|]. split; [lia|]. split; [left; apply S7|].
  - destruct Hsp as [Hsp|Hge]; [by exists []|]. exfalso. rewrite Em in Hge. revert Hge. apply (rounded_below _ Hv).
    cbn [weight]. apply (Qle_lt_trans _ _ _ Hle). by apply product_below.
  - intros Hroom. rewrite S3. unfold value, sgn at 1. rewrite Em. unfold magnitude at 1. cbn [digits weight]. fold w.
    assert (E : (round_at (mag ds w) s == round_at (magnitude v1 * magnitude v2) s)%Q) by (rewrite Heq by lia; reflexivity). rewrite E.
    destruct Hs as [->|Hs].
    + apply sign_product; done.
    + rewrite (magnitude_empty v Hs) in Em. unfold magnitude at 1 in Em. cbn [digits weight] in Em. rewrite E in Em. rewrite <- Em. ring.
Qed.

(** What [mul_var] promises of a result. *)
Definition product_of (v1 v2 : NumericVar) (s : Z) (v : NumericVar) : Prop :=
  normal v /\ dscale v = s /\ (roomy v \/ digits v = [])
  /\ (ndigits v1 + ndigits v2 + 1 <= product_room v1 v2 s -> (value v == sgn v1 * sgn v2 * round_at (magnitude v1 * magnitude v2) s)%Q).

Lemma product_of_sym v1 v2 s v : product_of v1 v2 s v -> product_of v2 v1 s v.
Proof.
  intros (H1 & H2 & H3 & H4). split; [done|]. split; [done|]. split; [done|]. unfold product_room in *. intros Hr. rewrite H4 by lia.
  rewrite (Qmult_comm (magnitude v1)), (Qmult_comm (sgn v1)). reflexivity.
Qed.

Lemma product_of_zero v1 v2 s : digits v1 = [] \/ digits v2 = [] \/ ndigits v1 + ndigits v2 + 1 > product_room v1 v2 s -> product_of v1 v2 s (zero_var s).
Proof.
  intros Hz. destruct (yields_zero s) as (v & [= <-] & Hn & Hv & Hd & Hr). split; [done|]. split; [done|]. split; [done|]. intros Hroom. rewrite Hv.
  assert (E : (magnitude v1 * magnitude v2 == 0)%Q) by (destruct Hz as [Hz|[Hz|Hz]]; [| |lia]; rewrite (magnitude_empty _ Hz); ring).
  rewrite E, round_multiple by apply multiple_zero. ring.
Qed.

Lemma mul_var_spec v1 v2 s : var_ok v1 -> var_ok v2 -> exists v, mul_var v1 v2 s = Ok v /\ product_of v1 v2 s v.
Proof.
  intros H1 H2. unfold mul_var.
  set (p := if ndigits v2 <? ndigits v1 then (v2, v1) else (v1, v2)).
  assert (Hp : exists a b, p = (a, b) /\ var_ok a /\ var_ok b /\ (forall v, product_of a b s v -> product_of v1 v2 s v)).
  { unfold p. destruct (ndigits v2 <? ndigits v1); do 2 eexists; (split; [done|]); repeat (split; [done|]); auto using product_of_sym. }
  destruct Hp as (a & b & -> & Ha & Hb & Hsym). destruct (_ || _) eqn:Ez.
  { exists (zero_var s). split; [done|]. apply Hsym, product_of_zero. unfold ndigits in Ez.
    apply orb_true_iff in Ez as [Ez%Z.eqb_eq|Ez%Z.eqb_eq]; [left|right; left]; apply nil_length_inv; lia. }
  apply orb_false_iff in Ez as [Ea%Z.eqb_neq Eb%Z.eqb_neq]. fold (product_room a b s).
  assert (Hna : digits a <> []) by (intros E; unfold ndigits in Ea; by rewrite E in Ea).
  assert (Hnb : digits b <> []) by (intros E; unfold ndigits in Eb; by rewrite E in Eb).
  destruct (Z.ltb_spec (Z.min (ndigits a + ndigits b + 1) (product_room a b s)) 3) as [Hlt|Hge].
  - exists (zero_var s). split; [done|]. apply Hsym, product_of_zero. right; right. unfold ndigits in *. lia.
  - destruct (mul_ordered a b s Ha Hb Hna Hnb Hge) as (v & -> & Hv). exists v. split; [done|]. apply Hsym. exact Hv.
Qed.
