(* ===== verification/NumericPack.v ===== *)
(** The packed form: what fits into the header comes back, the rest is an error. *)

From S2P Require Import Prelude Numeric NumericArith NumericRound NumericMul.
From Stdlib Require Export Qabs.
Local Open Scope Z_scope.
Local Open Scope pg_scope.

(** ** Headers *)

Definition short_header (s d w : Z) : Z :=
  uwrap 16
    (Z.lor (Z.lor (Z.lor (if s =? NUMERIC_NEG then Z.lor NUMERIC_SHORT NUMERIC_SHORT_SIGN_MASK else NUMERIC_SHORT)
                     (Z.shiftl d NUMERIC_SHORT_DSCALE_SHIFT))
              (if w <? 0 then NUMERIC_SHORT_WEIGHT_SIGN_MASK else 0))
       (Z.land w NUMERIC_SHORT_WEIGHT_MASK)).

Definition long_header (s d : Z) : Z := uwrap 16 (Z.lor s (Z.land d NUMERIC_DSCALE_MASK)).

Lemma short_header_range s d w : in_u 16 (short_header s d w).
Proof. by apply uwrap_range. Qed.

Lemma long_header_range s d : in_u 16 (long_header s d).
Proof. by apply uwrap_range. Qed.

(** The fields read back from a header. *)
Definition reads_back (n : Numeric) (s w d : Z) : bool :=
  negb (NUMERIC_IS_SPECIAL n) && (NUMERIC_SIGN n =? s) && (NUMERIC_WEIGHT n =? w) && (NUMERIC_DSCALE n =? d).

(** Every short header, and every long one, by evaluation. *)
Lemma short_headers_checked :
  forallb (fun s => forallb (fun d => forallb (fun w => reads_back (mk_numeric (short_header s d w) 0 []) s w d) (seqZ (-64) 128)) (seqZ 0 64))
    [NUMERIC_POS; NUMERIC_NEG] = true.
Proof. vm_compute. reflexivity. Qed.

Definition long_ok (s d : Z) : bool :=
  let n := mk_numeric (long_header s d) 0 [] in reads_back n s 0 d && negb (NUMERIC_HEADER_IS_SHORT n).

Lemma long_headers_checked :
  forallb (fun s => forallb (fun a => forallb (fun b => long_ok s (128 * a + b)) (seqZ 0 128)) (seqZ 0 128)) [NUMERIC_POS; NUMERIC_NEG] = true.
Proof. vm_compute. reflexivity. Qed.

Lemma forallb_elem {A} (f : A -> bool) l x : forallb f l = true -> x ∈ l -> f x = true.
Proof. intros H Hx. rewrite forallb_forall in H. apply H. by apply list_elem_of_In. Qed.

Lemma sign_in s : s = NUMERIC_POS \/ s = NUMERIC_NEG -> s ∈ [NUMERIC_POS; NUMERIC_NEG].
Proof. intros [-> | ->]; set_solver. Qed.

Lemma short_reads_back s d w ds : s = NUMERIC_POS \/ s = NUMERIC_NEG -> 0 <= d < 64 -> -64 <= w < 64 ->
  reads_back (mk_numeric (short_header s d w) 0 ds) s w d = true.
Proof.
  intros Hs Hd Hw. apply sign_in in Hs. assert (Hd' : d ∈ seqZ 0 64) by (apply elem_of_seqZ; lia). assert (Hw' : w ∈ seqZ (-64) 128) by (apply elem_of_seqZ; lia).
  exact (forallb_elem _ _ w (forallb_elem _ _ d (forallb_elem _ _ s short_headers_checked Hs) Hd') Hw').
Qed.

Lemma long_reads_back s d w ds : s = NUMERIC_POS \/ s = NUMERIC_NEG -> 0 <= d < 16384 -> reads_back (mk_numeric (long_header s d) w ds) s w d = true.
Proof.
  intros Hs Hd. apply sign_in in Hs. pose proof (Z.div_mod d 128 ltac:(lia)) as Ed. pose proof (Z.mod_pos_bound d 128 ltac:(lia)).
  assert (Ha : d / 128 ∈ seqZ 0 128) by (apply elem_of_seqZ; lia). assert (Hb : d mod 128 ∈ seqZ 0 128) by (apply elem_of_seqZ; lia).
  pose proof (forallb_elem _ _ _ (forallb_elem _ _ _ (forallb_elem _ _ s long_headers_checked Hs) Ha) Hb) as H'. cbv beta in H'. rewrite <- Ed in H'.
  apply andb_true_iff in H' as [H1 H2%negb_true_iff].
  unfold reads_back in *. rewrite !andb_true_iff in *. destruct H1 as [[[A1 A2] A3] A4]. split; [split; [split|]|]; [exact A1|exact A2| |exact A4].
  unfold NUMERIC_WEIGHT. unfold NUMERIC_HEADER_IS_SHORT in *. cbn [n_header n_weight] in *. rewrite H2. apply Z.eqb_refl.
Qed.

Lemma long_header_mod s d : long_header s d = long_header s (d mod 16384).
Proof.
  unfold long_header. change NUMERIC_DSCALE_MASK with (Z.ones 14). rewrite !Z.land_ones by lia. change (2 ^ 14) with 16384. by rewrite Z.mod_mod.
Qed.

Lemma swrap16_range w : -32768 <= swrap 16 w < 32768.
Proof. unfold swrap. change (2 ^ (16 - 1)) with 32768. change (2 ^ 16) with 65536. pose proof (Z.mod_pos_bound (w + 32768) 65536 ltac:(lia)). lia. Qed.

Lemma swrap16_id w : -32768 <= w < 32768 -> swrap 16 w = w.
Proof. intros H. unfold swrap. change (2 ^ (16 - 1)) with 32768. change (2 ^ 16) with 65536. rewrite Z.mod_small by lia. lia. Qed.

(** ** [make_result] *)

(** The fields of the format. *)
Definition fields_fit (w d : Z) : Prop := -32768 <= w < 32768 /\ 0 <= d <= NUMERIC_DSCALE_MAX.

#[export] Instance fields_fit_dec w d : Decision (fields_fit w d).
Proof. unfold fields_fit. apply _. Defined.

(** A packed number with these fields. *)
Record packed (n : Numeric) (s w d : Z) (ds : list Z) : Prop := {
  pk_sign : NUMERIC_SIGN n = s;
  pk_weight : NUMERIC_WEIGHT n = w;
  pk_dscale : NUMERIC_DSCALE n = d;
  pk_digits : NUMERIC_DIGITS n = ds;
  pk_finite : NUMERIC_IS_SPECIAL n = false;
  pk_header : in_u 16 (n_header n)
}.

Lemma reads_back_packed h nw ds s w d : in_u 16 h -> reads_back (mk_numeric h nw ds) s w d = true -> packed (mk_numeric h nw ds) s w d ds.
Proof. unfold reads_back. rewrite !andb_true_iff, negb_true_iff, !Z.eqb_eq. intros ? [[[? ?] ?] ?]. by split. Qed.

Definition pack_fields (s w d : Z) (ds : list Z) : res Numeric :=
  let result := if NUMERIC_CAN_BE_SHORT d w then mk_numeric (short_header s d w) 0 ds else mk_numeric (long_header s d) (swrap 16 w) ds in
  if negb (NUMERIC_WEIGHT result =? w) || negb (NUMERIC_DSCALE result =? d) then Err "value overflows numeric format" else Ok result.

Lemma pack_fields_spec s w d ds : s = NUMERIC_POS \/ s = NUMERIC_NEG -> 0 <= d ->
  if decide (fields_fit w d) then exists n, pack_fields s w d ds = Ok n /\ packed n s w d ds
  else pack_fields s w d ds = Err "value overflows numeric format".
Proof.
  intros Hs Hd. unfold pack_fields, NUMERIC_CAN_BE_SHORT. change NUMERIC_SHORT_DSCALE_MAX with 63. change NUMERIC_SHORT_WEIGHT_MAX with 63.
  change NUMERIC_SHORT_WEIGHT_MIN with (-64). destruct ((d <=? 63) && (w <=? 63) && (-64 <=? w)) eqn:E.
  - rewrite !andb_true_iff, !Z.leb_le in E. destruct E as [[E1 E2] E3].
    pose proof (reads_back_packed _ _ _ _ _ _ (short_header_range s d w) (short_reads_back s d w ds Hs ltac:(lia) ltac:(lia))) as Hp.
    rewrite (pk_weight _ _ _ _ _ Hp), (pk_dscale _ _ _ _ _ Hp), !Z.eqb_refl. simpl. destruct (decide _) as [_|Hn]; [by eexists|].
    exfalso. apply Hn. unfold fields_fit. change NUMERIC_DSCALE_MAX with 16383. lia.
  - clear E. rewrite long_header_mod.
    pose proof (reads_back_packed _ _ _ _ _ _ (long_header_range s (d mod 16384)) (long_reads_back s (d mod 16384) (swrap 16 w) ds Hs (Z.mod_pos_bound d 16384 ltac:(lia)))) as Hp.
    rewrite (pk_weight _ _ _ _ _ Hp), (pk_dscale _ _ _ _ _ Hp). pose proof (swrap16_range w) as Hr.
    destruct (decide _) as [[F1 F2]|Hn]; change NUMERIC_DSCALE_MAX with 16383 in *.
    + rewrite swrap16_id in * by lia. rewrite Z.mod_small in * by lia. rewrite !Z.eqb_refl. simpl. by eexists.
    + destruct (Z.eqb_spec (swrap 16 w) w) as [Ew|Ew]; [|done]. destruct (Z.eqb_spec (d mod 16384) d) as [Ed|Ed]; [|done].
      exfalso. apply Hn. unfold fields_fit. change NUMERIC_DSCALE_MAX with 16383. pose proof (Z.mod_pos_bound d 16384 ltac:(lia)). lia.
Qed.

Lemma strip_leading_indep f1 f2 ds w : exists a b ds' w', strip_leading f1 ds w = (a, ds', w') /\ strip_leading f2 ds w = (b, ds', w').
Proof.
  revert f1 f2 w. induction ds as [|d ds IH]; intros f1 f2 w; cbn [strip_leading]; [by do 4 eexists|].
  destruct (d =? 0); [apply IH|by do 4 eexists].
Qed.

Lemma make_result_fields v : var_ok v -> let v' := strip_var v in make_result v = pack_fields (sign v') (weight v') (dscale v) (digits v').
Proof.
  intros [_ Hs]. unfold make_result, strip_var.
  assert (Hsp : (Z.land (sign v) NUMERIC_SIGN_MASK =? NUMERIC_SPECIAL) = false) by (destruct Hs as [-> | ->]; done). rewrite Hsp.
  destruct (strip_leading_indep [] (spare v) (digits v) (weight v)) as (a & b & ds & w & -> & ->).
  destruct (Nat.eqb_spec (strip_trailing (length ds) ds) 0) as [En|En]; cbn [sign weight digits]; [|reflexivity].
  rewrite En, take_0. reflexivity.
Qed.

(** ** Packed numbers *)

(** A finite number of the format: its digits end at the display scale. *)
Record finite_ok (n : Numeric) : Prop := {
  fo_finite : NUMERIC_IS_SPECIAL n = false;
  fo_header : in_u 16 (n_header n);
  fo_normal : normal (init_var_from_num n);
  fo_scale : 0 <= NUMERIC_DSCALE n <= NUMERIC_DSCALE_MAX;
  fo_weight : -32768 <= NUMERIC_WEIGHT n < 32768;
  fo_places : multiple (magnitude (init_var_from_num n)) (tpow (- NUMERIC_DSCALE n))
}.

Definition num_value (n : Numeric) : Q := value (init_var_from_num n).

(** What the format holds: less than ten thousand to the power of 32768, and no more
    than 16383 decimal places. *)
Definition in_format (q : Q) (d : Z) : Prop := (Qabs q < bpow 32768)%Q /\ d <= NUMERIC_DSCALE_MAX.

Lemma abs_value v : var_ok v -> (Qabs (value v) == magnitude v)%Q.
Proof.
  intros H. pose proof (magnitude_nonneg v H). unfold value, sgn. destruct (sign v =? NUMERIC_NEG).
  - rewrite Qabs_neg by lra. ring.
  - rewrite Qabs_pos by lra. ring.
Qed.

Lemma value_magnitude v v' : (magnitude v' == magnitude v)%Q -> multiple (magnitude v) (tpow (- dscale v)) -> multiple (magnitude v') (tpow (- dscale v)).
Proof. intros ->. done. Qed.

Lemma tpow_lt_inv a b : (tpow a < tpow b)%Q -> a < b.
Proof.
  intros H. destruct (decide (a < b)) as [|Hn]; [done|]. assert (tpow b <= tpow a)%Q by (apply Qpower_le_compat_l; [lia|done]). lra.
Qed.

Lemma bpow_lt_inv a b : (bpow a < bpow b)%Q -> a < b.
Proof. rewrite !bpow_tpow. intros H%tpow_lt_inv. unfold DEC_DIGITS in H. lia. Qed.

Lemma multiple_least x u : (0 < x)%Q -> (0 < u)%Q -> multiple x u -> (u <= x)%Q.
Proof.
  intros Hx Hu [k Ek]. rewrite Ek in *. assert (Hk : 1 <= k).
  { destruct (decide (1 <= k)) as [|Hn]; [done|]. assert (inject_Z k <= 0)%Q by (change 0%Q with (inject_Z 0); rewrite <- Zle_Qle; lia). nra. }
  apply inject_Z_ge in Hk. nra.
Qed.

(** The fields fit exactly if the number is in the format. *)
Lemma fields_fit_value v : normal v -> 0 <= dscale v -> multiple (magnitude v) (tpow (- dscale v)) ->
  fields_fit (weight v) (dscale v) <-> in_format (value v) (dscale v).
Proof.
  intros Hn Hd Hm. unfold fields_fit, in_format. rewrite (abs_value v) by apply Hn.
  destruct (decide (digits v = [])) as [E|Hne].
  - destruct Hn as [_ [_ _ S]]. destruct (S E) as [_ ->]. rewrite (magnitude_empty v E). pose proof (bpow_pos 32768). split; intros [? ?]; (split; [|lia]); (lra || lia).
  - pose proof (stripped_large v (normal_led _ Hn) Hne) as Hl. destruct (mag_bounds (digits v) (weight v) (ok_digits _ (proj1 Hn))) as [_ Hu]. fold (magnitude v) in Hu.
    split; intros [H1 H2]; (split; [|lia]).
    + pose proof (bpow_le (weight v + 1) 32768 ltac:(lia)). lra.
    + assert (weight v < 32768) by (apply bpow_lt_inv; lra). split; [|done].
      assert (Hp : (0 < magnitude v)%Q) by (pose proof (bpow_pos (weight v)); lra). pose proof (multiple_least _ _ Hp (tpow_pos (- dscale v)) Hm) as Hs.
      rewrite bpow_tpow in Hu. assert (Hx : - dscale v < DEC_DIGITS * (weight v + 1)) by (apply tpow_lt_inv; lra).
      change NUMERIC_DSCALE_MAX with 16383 in H2. unfold DEC_DIGITS in Hx. lia.
Qed.

(** A result is packed, or it is an error because it is not in the format. *)
Definition packs (r : res Numeric) (q : Q) (d : Z) : Prop :=
  (in_format q d /\ exists n, r = Ok n /\ finite_ok n /\ (num_value n == q)%Q /\ NUMERIC_DSCALE n = d)
  \/ (~ in_format q d /\ r = Err "value overflows numeric format").

#[export] Instance in_format_proper : Proper (Qeq ==> eq ==> iff) in_format.
Proof. intros x y E d ? <-. unfold in_format. rewrite E. done. Qed.

Lemma packs_ext r q q' d : (q == q')%Q -> packs r q d -> packs r q' d.
Proof. unfold packs. intros E. rewrite E. intros [[? (n & ? & ? & Ev & ?)]|?]; [left|by right]. split; [done|]. exists n. rewrite <- E. done. Qed.

Lemma packed_var n s w d ds : packed n s w d ds -> init_var_from_num n = mk_var [] ds w s d.
Proof. intros [E1 E2 E3 E4 _ _]. unfold init_var_from_num. by rewrite E1, E2, E3, E4. Qed.

Lemma make_result_packs v d : var_ok v -> dscale v = d -> 0 <= d -> multiple (magnitude v) (tpow (- d)) -> packs (make_result v) (value v) d.
Proof.
  intros Hv <- Hd Hm. destruct (strip_var_spec v Hv) as (S1 & S2 & S3 & S4 & S5 & _ & _). rewrite (make_result_fields v Hv).
  set (v' := strip_var v) in *. assert (N' : normal v') by done. assert (Hm' : multiple (magnitude v') (tpow (- dscale v'))) by (rewrite S4, S5; done).
  pose proof (fields_fit_value v' N' ltac:(lia) Hm') as Hfit. rewrite S3, S4 in Hfit.
  pose proof (pack_fields_spec (sign v') (weight v') (dscale v) (digits v') (ok_sign _ S1) Hd) as Hp. destruct (decide _) as [Hf|Hf].
  - left. split; [by apply Hfit|]. destruct Hp as (n & -> & Hp). exists n. split; [done|]. pose proof (packed_var _ _ _ _ _ Hp) as Ev.
    assert (Em : magnitude (init_var_from_num n) = magnitude v') by (by rewrite Ev). split; [|split].
    + split; [apply Hp|apply Hp| | | |].
      * rewrite Ev. destruct S1 as [? ?], S2 as [? ? ?]. by split; split.
      * rewrite (pk_dscale _ _ _ _ _ Hp). apply Hf.
      * rewrite (pk_weight _ _ _ _ _ Hp). apply Hf.
      * rewrite Em, (pk_dscale _ _ _ _ _ Hp), S5. done.
    + unfold num_value. rewrite <- S3, Ev. reflexivity.
    + apply Hp.
  - right. split; [by rewrite <- Hfit|done].
Qed.
