(* ===== verification/NumericNum.v ===== *)
(** The numbers that packed values stand for, and the operations on them. *)

From S2P Require Import Prelude Numeric NumericArith NumericRound NumericMul NumericPack.
Local Open Scope Z_scope.
Local Open Scope pg_scope.

(** ** The abstract data type *)

(** A finite number carries the number of decimal places to display. *)
Inductive number : Set := NaN | PInf | NInf | Fin (q : Q) (d : Z).

Definition denotes (n : Numeric) (x : number) : Prop :=
  match x with
  | NaN => n_header n = NUMERIC_NAN
  | PInf => n_header n = NUMERIC_PINF
  | NInf => n_header n = NUMERIC_NINF
  | Fin q d => finite_ok n /\ (num_value n == q)%Q /\ NUMERIC_DSCALE n = d
  end.

(** The operation returns a value that stands for [x]; a finite number that is not in
    the format is an error. *)
Definition gives (r : res Numeric) (x : number) : Prop :=
  match x with
  | Fin q d => packs r q d
  | _ => exists n, r = Ok n /\ denotes n x
  end.

Definition negated (x : number) : number :=
  match x with NaN => NaN | PInf => NInf | NInf => PInf | Fin q d => Fin (- q) d end.

Definition absolute (x : number) : number :=
  match x with NaN => NaN | PInf => PInf | NInf => PInf | Fin q d => Fin (Qabs q) d end.

Definition plus (x y : number) : number :=
  match x, y with
  | NaN, _ | _, NaN => NaN
  | PInf, NInf | NInf, PInf => NaN
  | PInf, _ | _, PInf => PInf
  | NInf, _ | _, NInf => NInf
  | Fin q1 d1, Fin q2 d2 => Fin (q1 + q2) (Z.max d1 d2)
  end.

Definition minus (x y : number) : number := plus x (negated y).

(** Half away from zero, and toward zero. *)
Definition by_magnitude (f : Q -> Z -> Q) (q : Q) (s : Z) : Q := if Qle_bool 0 q then f q s else (- f (- q) s)%Q.
Definition half_away : Q -> Z -> Q := by_magnitude round_at.
Definition toward_zero : Q -> Z -> Q := by_magnitude trunc_at.

Definition inf_of (positive : bool) : number := if positive then PInf else NInf.

(** Infinity times a number. *)
Definition inf_by (positive : bool) (q : Q) : number :=
  match (q ?= 0)%Q with Eq => NaN | Gt => inf_of positive | Lt => inf_of (negb positive) end.

Definition times (x y : number) : number :=
  match x, y with
  | NaN, _ | _, NaN => NaN
  | PInf, PInf | NInf, NInf => PInf
  | PInf, NInf | NInf, PInf => NInf
  | PInf, Fin q _ | Fin q _, PInf => inf_by true q
  | NInf, Fin q _ | Fin q _, NInf => inf_by false q
  | Fin q1 d1, Fin q2 d2 =>
      if NUMERIC_DSCALE_MAX <? d1 + d2 then Fin (half_away (q1 * q2) NUMERIC_DSCALE_MAX) NUMERIC_DSCALE_MAX
      else Fin (q1 * q2) (d1 + d2)
  end.

Definition adjusted (f : Q -> Z -> Q) (x : number) (s : Z) : number :=
  match x with Fin q _ => Fin (f q (clamp_scale s)) (Z.max 0 (clamp_scale s)) | _ => x end.

(** The order: not-a-number is the greatest and equal to itself. *)
Definition rank (x : number) : Z := match x with NInf => 0 | Fin _ _ => 1 | PInf => 2 | NaN => 3 end.
Definition ordered (r : Z) (x y : number) : Prop :=
  match x, y with
  | Fin q1 _, Fin q2 _ => compares r q1 q2
  | _, _ => r = Z.sgn (rank x - rank y)
  end.

(** ** Which kind a packed value is *)

Definition is_fin (x : number) : bool := match x with Fin _ _ => true | _ => false end.

Lemma kinds n x : denotes n x ->
  NUMERIC_IS_SPECIAL n = negb (is_fin x)
  /\ NUMERIC_IS_NAN n = match x with NaN => true | _ => false end
  /\ NUMERIC_IS_PINF n = match x with PInf => true | _ => false end
  /\ NUMERIC_IS_NINF n = match x with NInf => true | _ => false end.
Proof.
  unfold NUMERIC_IS_SPECIAL, NUMERIC_FLAGBITS, NUMERIC_IS_NAN, NUMERIC_IS_PINF, NUMERIC_IS_NINF.
  destruct x; simpl; [by intros ->..|]. intros ([Hf _ _ _ _ _] & _). split; [exact Hf|].
  unfold NUMERIC_IS_SPECIAL, NUMERIC_FLAGBITS in Hf. split; [|split]; apply Z.eqb_neq; intros E; rewrite E in Hf; discriminate.
Qed.

Lemma gives_special (v : NumericVar) (x : number) : (v, x) ∈ [(const_nan, NaN); (const_pinf, PInf); (const_ninf, NInf)] -> gives (make_result v) x.
Proof. intros H. repeat (apply elem_of_cons in H as [[= -> ->]|H]; [by eexists|]). by apply elem_of_nil in H. Qed.

(** ** Sums and differences *)

Lemma fin_parts n q d : denotes n (Fin q d) ->
  normal (init_var_from_num n) /\ (value (init_var_from_num n) == q)%Q /\ dscale (init_var_from_num n) = d /\ 0 <= d <= NUMERIC_DSCALE_MAX
  /\ multiple (magnitude (init_var_from_num n)) (tpow (- d)).
Proof. intros (Hf & Hq & Hd). destruct Hf. rewrite Hd in *. done. Qed.

Lemma multiple_neg x u : multiple x u -> multiple (- x) u.
Proof. intros [k Ek]. exists (- k). rewrite Ek, inject_Z_opp. ring. Qed.

Lemma multiple_value v u : multiple (magnitude v) u <-> multiple (value v) u.
Proof.
  unfold value, sgn. destruct (sign v =? NUMERIC_NEG).
  - assert (E1 : (- (-1 * magnitude v) == magnitude v)%Q) by ring. assert (E2 : (- magnitude v == -1 * magnitude v)%Q) by ring.
    split; intros H%multiple_neg; [rewrite <- E2|rewrite <- E1]; done.
  - rewrite Qmult_1_l. done.
Qed.

Lemma multiple_coarser x d d' : d <= d' -> multiple x (tpow (- d)) -> multiple x (tpow (- d')).
Proof. intros H Hm. eapply multiple_trans; [exact Hm|]. apply tpow_multiple. lia. Qed.

Lemma packs_yields r q d : yields r q d -> 0 <= d -> multiple q (tpow (- d)) -> packs (result <-! r ;; make_result result) q d.
Proof.
  intros (v & -> & [Hv _] & Hq & Hd & _) Hd0 Hm. cbn [res_bind]. eapply packs_ext; [exact Hq|]. apply make_result_packs; [done|done|done|].
  apply multiple_value. rewrite Hq. done.
Qed.

Lemma multiple_sum q1 q2 d1 d2 : multiple q1 (tpow (- d1)) -> multiple q2 (tpow (- d2)) -> multiple (q1 + q2) (tpow (- Z.max d1 d2)).
Proof. intros H1 H2. apply multiple_plus; [apply (multiple_coarser _ d1)|apply (multiple_coarser _ d2)]; (done || lia). Qed.

Lemma fin_multiple n q d : denotes n (Fin q d) -> multiple q (tpow (- d)).
Proof. intros (_ & Hq & _ & _ & Hm)%fin_parts. rewrite <- Hq. by apply multiple_value. Qed.

Lemma add_refines n1 n2 x1 x2 : denotes n1 x1 -> denotes n2 x2 -> gives (numeric_add n1 n2) (plus x1 x2).
Proof.
  intros D1 D2. unfold numeric_add. destruct (kinds n1 x1 D1) as (-> & -> & -> & ->), (kinds n2 x2 D2) as (-> & -> & -> & ->).
  destruct x1 as [| | |q1 d1], x2 as [| | |q2 d2]; cbn [is_fin negb orb plus]; try (apply gives_special; set_solver).
  pose proof (fin_multiple _ _ _ D1) as M1. pose proof (fin_multiple _ _ _ D2) as M2.
  apply fin_parts in D1 as (N1 & Q1 & E1 & B1 & _), D2 as (N2 & Q2 & E2 & B2 & _).
  apply packs_yields; [|lia|by apply multiple_sum]. rewrite <- E1, <- E2. eapply yields_ext; [|apply add_var_exact; by apply normal_led]. rewrite Q1, Q2. reflexivity.
Qed.

Lemma sub_refines n1 n2 x1 x2 : denotes n1 x1 -> denotes n2 x2 -> gives (numeric_sub n1 n2) (minus x1 x2).
Proof.
  intros D1 D2. unfold numeric_sub, minus. destruct (kinds n1 x1 D1) as (-> & -> & -> & ->), (kinds n2 x2 D2) as (-> & -> & -> & ->).
  destruct x1 as [| | |q1 d1], x2 as [| | |q2 d2]; cbn [is_fin negb orb plus negated]; try (apply gives_special; set_solver).
  pose proof (fin_multiple _ _ _ D1) as M1. pose proof (fin_multiple _ _ _ D2) as M2%multiple_neg.
  apply fin_parts in D1 as (N1 & Q1 & E1 & B1 & _), D2 as (N2 & Q2 & E2 & B2 & _).
  apply packs_yields; [|lia|by apply multiple_sum]. rewrite <- E1, <- E2. eapply yields_ext; [|apply sub_var_exact; by apply normal_led]. rewrite Q1, Q2. reflexivity.
Qed.

(** ** Comparison *)

Lemma cmp_refines n1 n2 x1 x2 : denotes n1 x1 -> denotes n2 x2 -> ordered (cmp_numerics n1 n2) x1 x2.
Proof.
  intros D1 D2. unfold cmp_numerics. destruct (kinds n1 x1 D1) as (-> & -> & -> & _), (kinds n2 x2 D2) as (-> & -> & -> & ->).
  destruct x1 as [| | |q1 d1], x2 as [| | |q2 d2]; try done. apply fin_parts in D1 as (N1 & Q1 & _), D2 as (N2 & Q2 & _).
  eapply compares_ext; [exact Q1|exact Q2|]. apply (cmp_var_exact _ _ (normal_led _ N1) (normal_led _ N2)).
Qed.

(** ** Rounding *)

Lemma by_magnitude_value f v v' s : Proper (Qeq ==> eq ==> Qeq) f -> (f 0 s == 0)%Q -> var_ok v -> (magnitude v' == f (magnitude v) s)%Q ->
  sign v' = sign v \/ digits v' = [] -> (value v' == by_magnitude f (value v) s)%Q.
Proof.
  intros Hp H0 Hv Em Hs. pose proof (magnitude_nonneg v Hv) as Hm. assert (Ev : (value v' == sgn v * f (magnitude v) s)%Q).
  { unfold value, sgn. destruct Hs as [->|E]; [by rewrite Em|]. rewrite (magnitude_empty v' E) in *. rewrite <- Em. ring. }
  rewrite Ev. unfold by_magnitude, value, sgn. destruct (sign v =? NUMERIC_NEG).
  - destruct (Qle_bool 0 _) eqn:Eq.
    + apply Qle_bool_iff in Eq. assert (Ez : (magnitude v == 0)%Q) by lra. assert (En : (-1 * magnitude v == 0)%Q) by lra. rewrite En, Ez, H0. ring.
    + assert (En : (- (-1 * magnitude v) == magnitude v)%Q) by ring. rewrite En. ring.
  - assert (En : (1 * magnitude v == magnitude v)%Q) by ring. destruct (Qle_bool 0 _) eqn:Eq; [rewrite En; ring|].
    exfalso. assert (Qle_bool 0 (1 * magnitude v) = true) by (apply Qle_bool_iff; lra). congruence.
Qed.

#[export] Instance by_magnitude_proper f : Proper (Qeq ==> eq ==> Qeq) f -> Proper (Qeq ==> eq ==> Qeq) (by_magnitude f).
Proof. intros Hf x y E s ? <-. unfold by_magnitude. rewrite E. destruct (Qle_bool 0 y); rewrite E; reflexivity. Qed.

Lemma round_at_zero s : (round_at 0 s == 0)%Q.
Proof. apply round_multiple, multiple_zero. Qed.

Lemma trunc_at_zero s : (trunc_at 0 s == 0)%Q.
Proof. apply trunc_multiple, multiple_zero. Qed.

Lemma trunc_at_multiple x s : multiple (trunc_at x s) (tpow (- s)).
Proof. eexists. reflexivity. Qed.

Lemma round_at_multiple x s : multiple (round_at x s) (tpow (- s)).
Proof. apply trunc_at_multiple. Qed.

(** A negative scale displays no decimal places. *)
Lemma packs_adjusted v c : var_ok v -> dscale v = c -> multiple (magnitude v) (tpow (- c)) ->
  packs (make_result (if c <? 0 then set_dscale 0 v else v)) (value v) (Z.max 0 c).
Proof.
  intros Hv Hc Hm. destruct (Z.ltb_spec c 0) as [Hlt|Hge].
  - replace (Z.max 0 c) with 0 by lia. apply (make_result_packs (set_dscale 0 v) 0); [split; apply Hv|done|done|].
    apply (multiple_coarser _ c); [lia|exact Hm].
  - replace (Z.max 0 c) with c by lia. by apply make_result_packs.
Qed.

Lemma round_refines n x s : denotes n x -> gives (numeric_round n s) (adjusted half_away x s).
Proof.
  intros D. unfold numeric_round. destruct (kinds n x D) as (-> & _). destruct x as [| | |q d]; cbn [is_fin negb adjusted]; [by eexists..|].
  apply fin_parts in D as (N & Q & _). set (c := clamp_scale s).
  assert (Hv : var_ok (set_var_from_num n)) by (destruct N as [[? ?] _]; by split).
  destruct (round_var_spec (set_var_from_num n) c Hv ltac:(left; by exists [])) as (v & -> & Hv' & Hd & Em & Hs & _). cbn [res_bind].
  eapply packs_ext; [|apply packs_adjusted; [done|done|rewrite Em; apply round_at_multiple]].
  rewrite (by_magnitude_value round_at (set_var_from_num n) v c) by (done || apply round_at_proper || apply round_at_zero).
  change (value (set_var_from_num n)) with (value (init_var_from_num n)). apply by_magnitude_proper; [apply round_at_proper|exact Q|done].
Qed.

Lemma trunc_refines n x s : denotes n x -> gives (numeric_trunc n s) (adjusted toward_zero x s).
Proof.
  intros D. unfold numeric_trunc. destruct (kinds n x D) as (-> & _). destruct x as [| | |q d]; cbn [is_fin negb adjusted]; [by eexists..|].
  apply fin_parts in D as (N & Q & _). set (c := clamp_scale s).
  assert (Hv : var_ok (set_var_from_num n)) by (destruct N as [[? ?] _]; by split).
  destruct (trunc_var_spec (set_var_from_num n) c Hv) as (Hv' & Hd & Em & Hs).
  eapply packs_ext; [|apply packs_adjusted; [done|done|rewrite Em; apply trunc_at_multiple]].
  rewrite (by_magnitude_value trunc_at (set_var_from_num n) _ c) by (done || apply trunc_at_proper || apply trunc_at_zero).
  change (value (set_var_from_num n)) with (value (init_var_from_num n)). apply by_magnitude_proper; [apply trunc_at_proper|exact Q|done].
Qed.
