(* ===== verification/NumericTimes.v ===== *)
(** Products of packed values: every digit is computed. *)

From S2P Require Import Prelude Numeric NumericArith NumericRound NumericMul NumericPack NumericNum.
Local Open Scope Z_scope.
Local Open Scope pg_scope.

(** ** The digits end at the display scale *)

Lemma multiple_minus x y u : multiple x u -> multiple y u -> multiple (x - y) u.
Proof. intros Hx Hy%multiple_neg. by apply multiple_plus. Qed.

Lemma no_digit_multiple x e : 0 < x < NBASE -> ~ multiple (inject_Z x * bpow e) (bpow (e + 1)).
Proof.
  intros Hx [k Ek]. rewrite bpow_succ in Ek. pose proof (bpow_pos e).
  assert (E : ((inject_Z x - inject_Z (k * NBASE)) * bpow e == 0)%Q) by (rewrite inject_Z_mult; lra).
  apply Qmult_integral in E as [E|E]; [|lra]. assert (E' : (inject_Z x == inject_Z (k * NBASE))%Q) by lra. rewrite inject_Z_injective in E'.
  unfold NBASE in *. lia.
Qed.

(** The last digit is not zero, so it is not after the scale. *)
Lemma digits_end_nonempty v d : normal v -> digits v <> [] -> multiple (magnitude v) (tpow (- d)) -> DEC_DIGITS * (ndigits v - weight v - 1) < d + DEC_DIGITS.
Proof.
  intros [[Hd _] [_ Hlast _]] Hne Hm. unfold ndigits.
  destruct Hlast as [Hlast|?]; [|done]. destruct (exists_last Hne) as (l & x & E). unfold magnitude in Hm. rewrite E in *.
  rewrite length_app in *. simpl length in *. replace (pred (length l + 1)) with (length l) in Hlast by lia.
  unfold rd in Hlast. rewrite lookup_app_r, Nat.sub_diag in Hlast by lia. simpl in Hlast. apply Forall_app in Hd as [_ Hx]. inversion Hx as [|? ? Hx0 _]; subst.
  destruct (Z.ltb_spec (DEC_DIGITS * (Z.of_nat (length l + 1) - weight v - 1)) (d + DEC_DIGITS)) as [|Hge]; [done|]. exfalso.
  set (e := weight v - Z.of_nat (length l)). apply (no_digit_multiple x e); [unfold is_digit in Hx0; lia|].
  assert (Em : (inject_Z x * bpow e == mag (l ++ [x]) (weight v) - mag l (weight v))%Q) by (rewrite mag_snoc; fold e; ring). rewrite Em.
  apply multiple_minus; [|apply mag_multiple; unfold e; lia]. eapply multiple_trans; [exact Hm|]. rewrite bpow_tpow. apply tpow_multiple.
  unfold DEC_DIGITS, e in *. lia.
Qed.

Lemma digits_end v d : normal v -> 0 <= d -> multiple (magnitude v) (tpow (- d)) -> DEC_DIGITS * (ndigits v - weight v - 1) < d + DEC_DIGITS.
Proof.
  intros N Hd0 Hm. destruct (decide (digits v = [])) as [E|Hne]; [|by apply digits_end_nonempty].
  unfold ndigits. rewrite E. destruct N as [_ [_ _ Hz]]. destruct (Hz E) as [_ ->]. unfold DEC_DIGITS. simpl. lia.
Qed.

(** The digits end where numbers with [d] decimal places end. *)
Definition ends (v : NumericVar) (d : Z) : Prop := DEC_DIGITS * (ndigits v - weight v - 1) < d + DEC_DIGITS.

Lemma product_has_room v1 v2 d1 d2 : 0 <= d1 -> 0 <= d2 -> ends v1 d1 -> ends v2 d2 -> ndigits v1 + ndigits v2 + 1 <= product_room v1 v2 (d1 + d2).
Proof.
  intros H1 H2 E1 E2. unfold ends in *. unfold product_room. rewrite Z.quot_div_nonneg by (unfold DEC_DIGITS; lia). unfold DEC_DIGITS, MUL_GUARD_DIGITS in *.
  pose proof (Z.div_mod (d1 + d2 + 4 - 1) 4 ltac:(lia)). pose proof (Z.mod_pos_bound (d1 + d2 + 4 - 1) 4 ltac:(lia)). lia.
Qed.

Lemma multiple_product x y a b : multiple x (tpow (- a)) -> multiple y (tpow (- b)) -> multiple (x * y) (tpow (- (a + b))).
Proof.
  intros [k Ek] [l El]. exists (k * l). replace (- (a + b)) with (- a + - b) by lia. rewrite tpow_plus, Ek, El, inject_Z_mult. ring.
Qed.

Lemma mul_var_ends v1 v2 d1 d2 : var_ok v1 -> var_ok v2 -> 0 <= d1 -> 0 <= d2 -> ends v1 d1 -> ends v2 d2 ->
  multiple (magnitude v1) (tpow (- d1)) -> multiple (magnitude v2) (tpow (- d2)) -> yields (mul_var v1 v2 (d1 + d2)) (value v1 * value v2) (d1 + d2).
Proof.
  intros N1 N2 H1 H2 E1 E2 M1 M2. destruct (mul_var_spec v1 v2 (d1 + d2) N1 N2) as (v & E & Hn & Hd & Hr & Hv). exists v.
  split; [done|]. split; [done|]. split; [|done]. rewrite Hv by (by apply product_has_room).
  rewrite round_multiple by (by apply multiple_product). unfold value. ring.
Qed.

Lemma mul_var_exact v1 v2 d1 d2 : normal v1 -> normal v2 -> 0 <= d1 -> 0 <= d2 ->
  multiple (magnitude v1) (tpow (- d1)) -> multiple (magnitude v2) (tpow (- d2)) -> yields (mul_var v1 v2 (d1 + d2)) (value v1 * value v2) (d1 + d2).
Proof. intros N1 N2 H1 H2 M1 M2. apply mul_var_ends; try done; [apply N1|apply N2|by apply digits_end|by apply digits_end]. Qed.

(** ** [numeric_mul] *)

Lemma sign_internal_spec n q d : denotes n (Fin q d) -> compares (numeric_sign_internal n) q 0.
Proof.
  intros D. unfold numeric_sign_internal. destruct (kinds n _ D) as (-> & _ & _ & _). apply fin_parts in D as (N & Q & _). simpl negb. cbv iota.
  change (NUMERIC_NDIGITS n) with (ndigits (init_var_from_num n)). change (NUMERIC_SIGN n) with (sign (init_var_from_num n)).
  set (v := init_var_from_num n) in *. eapply compares_ext; [exact Q|reflexivity|]. unfold value, sgn.
  destruct (Z.eqb_spec (ndigits v) 0) as [E|E].
  - assert (Ed : digits v = []) by (apply nil_length_inv; unfold ndigits in E; lia). right; left. split; [done|]. rewrite (magnitude_empty v Ed). ring.
  - assert (Hne : digits v <> []) by (intros Ed; unfold ndigits in E; by rewrite Ed in E). pose proof (stripped_large v (normal_led _ N) Hne).
    pose proof (bpow_pos (weight v)). destruct (sign v =? NUMERIC_NEG); [right; right|left]; (split; [done|lra]).
Qed.

Lemma inf_times_spec n q d b : denotes n (Fin q d) ->
  gives (inf_times (numeric_sign_internal n) (if b : bool then const_pinf else const_ninf) (if b then const_ninf else const_pinf)) (inf_by b q).
Proof.
  intros D. unfold inf_times, inf_by. destruct (sign_internal_spec n q d D) as [[-> H]|[[-> H]|[-> H]]]; simpl.
  - assert (E : (q ?= 0)%Q = Gt) by (by apply Qgt_alt). rewrite E. destruct b; apply gives_special; set_solver.
  - assert (E : (q ?= 0)%Q = Eq) by (by apply Qeq_alt). rewrite E. apply gives_special; set_solver.
  - assert (E : (q ?= 0)%Q = Lt) by (by apply Qlt_alt). rewrite E. destruct b; apply gives_special; set_solver.
Qed.

Lemma inf_times_inf s b : s = 1 \/ s = -1 ->
  gives (inf_times s (if b : bool then const_pinf else const_ninf) (if b then const_ninf else const_pinf)) (inf_of (if s =? 1 then b else negb b)).
Proof. intros [-> | ->]; destruct b; apply gives_special; set_solver. Qed.

Lemma sign_internal_inf n (b : bool) : denotes n (inf_of b) -> numeric_sign_internal n = if b then 1 else -1.
Proof. intros D. unfold numeric_sign_internal. destruct (kinds n _ D) as (-> & _ & -> & _). by destruct b. Qed.

Lemma finite_product n1 n2 q1 d1 q2 d2 : denotes n1 (Fin q1 d1) -> denotes n2 (Fin q2 d2) ->
  gives (result <-! mul_var (init_var_from_num n1) (init_var_from_num n2) (d1 + d2) ;;
         result <-! (if NUMERIC_DSCALE_MAX <? dscale result then round_var result NUMERIC_DSCALE_MAX else Ok result) ;; make_result result)
    (times (Fin q1 d1) (Fin q2 d2)).
Proof.
  intros D1 D2. pose proof (fin_multiple _ _ _ D1) as M1. pose proof (fin_multiple _ _ _ D2) as M2.
  apply fin_parts in D1 as (N1 & Q1 & E1 & B1 & P1), D2 as (N2 & Q2 & E2 & B2 & P2).
  destruct (mul_var_exact _ _ d1 d2 N1 N2 ltac:(lia) ltac:(lia) P1 P2) as (v & -> & [Hv _] & Hq & Hd & Hroom). rewrite Q1, Q2 in Hq.
  cbn [res_bind times]. rewrite Hd. assert (H0 : 0 <= NUMERIC_DSCALE_MAX) by done. set (m := NUMERIC_DSCALE_MAX) in *. clearbody m.
  destruct (Z.ltb_spec m (d1 + d2)) as [Hlt|Hle].
  - destruct (round_var_spec v m Hv Hroom) as (v' & -> & Hv' & Hd' & Em & Hs & _). cbn [res_bind].
    eapply packs_ext; [|apply make_result_packs; [done|done|done|rewrite Em; apply round_at_multiple]].
    rewrite (by_magnitude_value round_at v v' m) by (done || apply round_at_proper || apply round_at_zero).
    apply by_magnitude_proper; [apply round_at_proper|exact Hq|done].
  - cbn [res_bind]. eapply packs_ext; [exact Hq|]. apply make_result_packs; [done|done|lia|]. apply multiple_value. rewrite Hq. by apply multiple_product.
Qed.

Lemma mul_refines n1 n2 x1 x2 : denotes n1 x1 -> denotes n2 x2 -> gives (numeric_mul n1 n2) (times x1 x2).
Proof.
  intros D1 D2. unfold numeric_mul. destruct (kinds n1 x1 D1) as (-> & -> & -> & ->), (kinds n2 x2 D2) as (-> & -> & -> & _).
  destruct x1 as [| | |q1 d1], x2 as [| | |q2 d2]; cbn [is_fin negb orb]; try (apply gives_special; set_solver).
  - rewrite (sign_internal_inf n2 true D2). apply (inf_times_inf 1 true). auto.
  - rewrite (sign_internal_inf n2 false D2). apply (inf_times_inf (-1) true). auto.
  - apply (inf_times_spec n2 q2 d2 true D2).
  - rewrite (sign_internal_inf n2 true D2). apply (inf_times_inf 1 false). auto.
  - rewrite (sign_internal_inf n2 false D2). apply (inf_times_inf (-1) false). auto.
  - apply (inf_times_spec n2 q2 d2 false D2).
  - apply (inf_times_spec n1 q1 d1 true D1).
  - apply (inf_times_spec n1 q1 d1 false D1).
  - cbv zeta. destruct D1 as (F1 & G1 & <-), D2 as (F2 & G2 & <-). by apply finite_product.
Qed.

(** * Signs

    Absolute value and negation change one bit of the header, or the long header. *)

Definition of_header (h : Z) : Numeric := mk_numeric h 0 [].

(** The header [h'] says what [h] says, but for the sign [s]. *)
Definition same_but_sign (h h' s : Z) : bool :=
  let n := of_header h in
  let n' := of_header h' in
  negb (NUMERIC_IS_SPECIAL n') && (NUMERIC_SIGN n' =? s) && (NUMERIC_DSCALE n' =? NUMERIC_DSCALE n) && (NUMERIC_WEIGHT n' =? NUMERIC_WEIGHT n)
  && Bool.eqb (NUMERIC_HEADER_IS_SHORT n') (NUMERIC_HEADER_IS_SHORT n) && (0 <=? h') && (h' <? 65536).

(** The headers that negation and absolute value write. *)
Definition abs_header (h : Z) : Z := n_header (numeric_abs (of_header h)).
Definition neg_header (h : Z) : Z := n_header (numeric_uminus (mk_numeric h 0 [1])).

Definition opposite (s : Z) : Z := if s =? NUMERIC_POS then NUMERIC_NEG else NUMERIC_POS.

Definition headers_ok (h : Z) : bool :=
  NUMERIC_IS_SPECIAL (of_header h)
  || (same_but_sign h (abs_header h) NUMERIC_POS && same_but_sign h (neg_header h) (opposite (NUMERIC_SIGN (of_header h)))).

(** Every header, by evaluation. *)
Lemma headers_checked : forallb (fun a => forallb (fun b => headers_ok (256 * a + b)) (seqZ 0 256)) (seqZ 0 256) = true.
Proof. vm_compute. reflexivity. Qed.

Lemma header_ok h : in_u 16 h -> headers_ok h = true.
Proof.
  intros Hh. unfold in_u in Hh. change (2 ^ 16) with 65536 in Hh. pose proof (Z.div_mod h 256 ltac:(lia)) as E. pose proof (Z.mod_pos_bound h 256 ltac:(lia)).
  assert (Ha : h / 256 ∈ seqZ 0 256) by (apply elem_of_seqZ; lia). assert (Hb : h mod 256 ∈ seqZ 0 256) by (apply elem_of_seqZ; lia).
  pose proof (forallb_elem _ _ _ (forallb_elem _ _ _ headers_checked Ha) Hb) as H'. cbv beta in H'. by rewrite <- E in H'.
Qed.

Lemma weight_of_header n : NUMERIC_WEIGHT n = if NUMERIC_HEADER_IS_SHORT (of_header (n_header n)) then NUMERIC_WEIGHT (of_header (n_header n)) else n_weight n.
Proof.
  unfold NUMERIC_WEIGHT. change (NUMERIC_HEADER_IS_SHORT (of_header (n_header n))) with (NUMERIC_HEADER_IS_SHORT n). by destruct (NUMERIC_HEADER_IS_SHORT n).
Qed.

(** A value with another header of this kind is the same number with the other sign. *)
Lemma other_sign n h s q : finite_ok n -> same_but_sign (n_header n) h s = true -> (n_data n <> [] \/ s = NUMERIC_POS) -> s = NUMERIC_POS \/ s = NUMERIC_NEG ->
  (q == unit_of s * magnitude (init_var_from_num n))%Q -> denotes (mk_numeric h (n_weight n) (n_data n)) (Fin q (NUMERIC_DSCALE n)).
Proof.
  intros Hf Hsame Hne Hs Hq. unfold same_but_sign in Hsame. rewrite !andb_true_iff, negb_true_iff, !Z.eqb_eq, eqb_true_iff, Z.leb_le, Z.ltb_lt in Hsame.
  destruct Hsame as [[[[[[A1 A2] A3] A4] A5] A6] A7]. set (n' := mk_numeric h (n_weight n) (n_data n)).
  assert (Ew : NUMERIC_WEIGHT n' = NUMERIC_WEIGHT n) by (rewrite (weight_of_header n'), (weight_of_header n); unfold n'; cbn [n_header n_weight]; rewrite A4, A5; reflexivity).
  assert (Ev : init_var_from_num n' = mk_var [] (digits (init_var_from_num n)) (weight (init_var_from_num n)) s (dscale (init_var_from_num n))).
  { unfold init_var_from_num at 1. rewrite Ew. cbn [digits weight dscale init_var_from_num].
    change (NUMERIC_SIGN n') with (NUMERIC_SIGN (of_header h)). change (NUMERIC_DSCALE n') with (NUMERIC_DSCALE (of_header h)). by rewrite A2, A3. }
  split; [|split; [|exact A3]].
  - destruct Hf as [_ _ [[Hd _] [S1 S2 S3]] F4 F5 F6]. split.
    + exact A1.
    + exact (conj A6 A7).
    + rewrite Ev. split; split; cbn [digits sign weight]; [done|done|done|done|]. intros E. split; [destruct Hne as [Hne|]; [|done]; done|by apply S3].
    + change (NUMERIC_DSCALE n') with (NUMERIC_DSCALE (of_header h)). by rewrite A3.
    + by rewrite Ew.
    + rewrite Ev. change (NUMERIC_DSCALE n') with (NUMERIC_DSCALE (of_header h)). rewrite A3. exact F6.
  - unfold num_value, value. rewrite Ev, Hq. reflexivity.
Qed.

Lemma finite_header n : finite_ok n ->
  same_but_sign (n_header n) (abs_header (n_header n)) NUMERIC_POS = true
  /\ same_but_sign (n_header n) (neg_header (n_header n)) (opposite (NUMERIC_SIGN n)) = true.
Proof.
  intros [F1 F2 _ _ _ _]. pose proof (header_ok _ F2) as H. unfold headers_ok in H. change (NUMERIC_IS_SPECIAL (of_header (n_header n))) with (NUMERIC_IS_SPECIAL n) in H.
  rewrite F1 in H. by apply andb_true_iff in H.
Qed.

Lemma abs_refines n x : denotes n x -> denotes (numeric_abs n) (absolute x).
Proof.
  destruct x as [| | |q d]; [intros H; unfold numeric_abs, NUMERIC_IS_SHORT, NUMERIC_IS_SPECIAL, NUMERIC_FLAGBITS; simpl in H; rewrite H; reflexivity..|].
  intros (Hf & Hq & <-). assert (E : numeric_abs n = mk_numeric (abs_header (n_header n)) (n_weight n) (n_data n)).
  { unfold abs_header, numeric_abs, of_header, NUMERIC_IS_SHORT, NUMERIC_IS_SPECIAL, NUMERIC_FLAGBITS, NUMERIC_DSCALE, NUMERIC_HEADER_IS_SHORT. cbn [n_header].
    destruct (_ =? NUMERIC_SHORT); [done|]. by destruct (_ =? NUMERIC_SPECIAL). }
  rewrite E. cbn [absolute]. apply (other_sign n _ NUMERIC_POS); [done|apply finite_header; done|by right|by left|].
  rewrite <- Hq. unfold num_value. rewrite abs_value by apply Hf. unfold unit_of. simpl. ring.
Qed.

Lemma neg_refines n x : denotes n x -> denotes (numeric_uminus n) (negated x).
Proof.
  destruct x as [| | |q d]; [intros H; unfold numeric_uminus, NUMERIC_IS_SPECIAL, NUMERIC_FLAGBITS, NUMERIC_IS_NAN; simpl in H; rewrite H; try exact H; reflexivity..|].
  intros (Hf & Hq & <-). unfold num_value in Hq. destruct (decide (n_data n = [])) as [E0|Hne].
  - assert (E : numeric_uminus n = n) by (unfold numeric_uminus, NUMERIC_NDIGITS; rewrite (fo_finite _ Hf), E0; done). rewrite E.
    split; [done|]. split; [|done]. unfold num_value. rewrite <- Hq. unfold value. rewrite (magnitude_empty (init_var_from_num n) E0). ring.
  - assert (E : numeric_uminus n = mk_numeric (neg_header (n_header n)) (n_weight n) (n_data n)).
    { unfold neg_header, numeric_uminus. change (NUMERIC_IS_SPECIAL (mk_numeric (n_header n) 0 [1])) with (NUMERIC_IS_SPECIAL n). rewrite (fo_finite _ Hf).
      change (NUMERIC_IS_SHORT (mk_numeric (n_header n) 0 [1])) with (NUMERIC_IS_SHORT n). change (NUMERIC_SIGN (mk_numeric (n_header n) 0 [1])) with (NUMERIC_SIGN n).
      change (NUMERIC_NDIGITS (mk_numeric (n_header n) 0 [1]) =? 0) with false. cbn [negb n_header].
      assert (En : (NUMERIC_NDIGITS n =? 0) = false) by (apply Z.eqb_neq; unfold NUMERIC_NDIGITS; destruct (n_data n); [done|simpl; lia]). rewrite En. cbn [negb].
      destruct (NUMERIC_IS_SHORT n); [done|]. by destruct (NUMERIC_SIGN n =? NUMERIC_POS). }
    rewrite E. cbn [negated]. destruct (finite_header n Hf) as [_ Hneg]. destruct (ok_sign _ (proj1 (fo_normal _ Hf))) as [Hs|Hs]; change (sign (init_var_from_num n)) with (NUMERIC_SIGN n) in Hs;
      rewrite Hs in Hneg; apply (other_sign n _ _ _ Hf Hneg); [by left|by right| |by left|by left|]; try (rewrite <- Hq; unfold value, sgn, unit_of; cbn [sign init_var_from_num]; rewrite Hs; simpl; ring).
Qed.
