(* ===== verification/NumericInt.v ===== *)
(** Conversions between packed values and 64-bit integers. *)

From S2P Require Import Prelude Numeric NumericArith NumericRound NumericMul NumericPack NumericNum NumericTimes.
Local Open Scope Z_scope.
Local Open Scope pg_scope.

(** ** To an integer *)

(** The number that the loop accumulates, without bounds and positive. *)
Fixpoint horner (n i : nat) (ds : list Z) (m : Z) : Z :=
  match n with
  | O => m
  | S n' => horner n' (S i) ds (m * NBASE + rd ds i)
  end.

Lemma horner_ge n i ds m : digits_ok ds -> 0 <= m -> m <= horner n i ds m.
Proof.
  intros Hd. revert i m. induction n as [|n IH]; intros i m Hm; cbn [horner]; [lia|]. pose proof (rd_digit ds i Hd) as [H0 _].
  specialize (IH (S i) (m * NBASE + rd ds i) ltac:(unfold NBASE; lia)). unfold NBASE in *. lia.
Qed.

Lemma horner_mag n i ds m : (length ds <= i + n)%nat ->
  (inject_Z (horner n i ds m) == inject_Z m * bpow (Z.of_nat n) + mag (drop i ds) (Z.of_nat n - 1))%Q.
Proof.
  revert i m. induction n as [|n IH]; intros i m Hl; cbn [horner].
  - rewrite drop_ge by lia. cbn [mag]. change (bpow (Z.of_nat 0)) with 1%Q. ring.
  - rewrite IH by lia. rewrite inject_Z_plus, inject_Z_mult. replace (Z.of_nat (S n)) with (Z.of_nat n + 1) by lia. rewrite bpow_succ.
    replace (Z.of_nat n + 1 - 1) with (Z.of_nat n) by lia. destruct (decide (i < length ds)%nat) as [Hi|Hi].
    + rewrite (drop_S ds (rd ds i) i) by (by apply rd_lookup). cbn [mag]. ring.
    + rewrite !drop_ge by lia. cbn [mag]. unfold rd. rewrite lookup_ge_None_2 by lia. simpl default. change (inject_Z 0) with 0%Q. ring.
Qed.

Lemma s64_neg m : 0 <= m -> s64 (- m) = if m <=? 2 ^ 63 then Some (- m) else None.
Proof.
  intros Hm. unfold s64, PG_INT64_MIN. destruct (Z.leb_spec (- 2 ^ 63) (- m)), (Z.leb_spec m (2 ^ 63)); [|lia|lia|done].
  destruct (Z.ltb_spec (- m) (2 ^ 63)); [done|lia].
Qed.

(** Digits that are not there are zero and cannot overflow. *)
Lemma add_digit ds i m : digits_ok ds -> 0 <= m <= 2 ^ 63 ->
  (if (i <? length ds)%nat then s64 (- m - rd ds i) else Some (- m)) = s64 (- (m + rd ds i)).
Proof.
  intros Hd Hm. destruct (Nat.ltb_spec i (length ds)); [f_equal; lia|].
  assert (E : rd ds i = 0) by (unfold rd; rewrite lookup_ge_None_2 by lia; done). rewrite E, Z.add_0_r, s64_neg by lia.
  destruct (Z.leb_spec m (2 ^ 63)); [done|lia].
Qed.

Lemma accumulate_spec n i ds m : digits_ok ds -> 0 <= m <= 2 ^ 63 ->
  accumulate n i ds (- m) = if horner n i ds m <=? 2 ^ 63 then Some (- horner n i ds m) else None.
Proof.
  intros Hd. revert i m. induction n as [|n IH]; intros i m Hm; cbn [accumulate horner].
  - destruct (Z.leb_spec m (2 ^ 63)); [done|lia].
  - pose proof (rd_digit ds i Hd) as [H0 H1]. assert (Hn : 0 <= m * NBASE) by (unfold NBASE; lia).
    pose proof (horner_ge n (S i) ds (m * NBASE + rd ds i) Hd ltac:(lia)) as Hge.
    replace (- m * NBASE) with (- (m * NBASE)) by lia. rewrite s64_neg by done. destruct (Z.leb_spec (m * NBASE) (2 ^ 63)) as [Hb|Hb]; cbn [mbind option_bind].
    + rewrite add_digit, s64_neg by (done || lia). set (m' := m * NBASE + rd ds i) in *. assert (Hm0 : 0 <= m') by (unfold m'; lia). clearbody m'.
      destruct (Z.leb_spec m' (2 ^ 63)) as [Hm'|Hm']; cbn [mbind option_bind]; [apply IH; lia|].
      destruct (Z.leb_spec (horner n (S i) ds m') (2 ^ 63)); [lia|done].
    + destruct (Z.leb_spec (horner n (S i) ds (m * NBASE + rd ds i)) (2 ^ 63)); [lia|done].
Qed.

(** A stripped whole number as the loop sees it. *)
Lemma whole_digits v : normal v -> multiple (magnitude v) (tpow 0) -> digits v <> [] ->
  0 <= weight v /\ ndigits v <= weight v + 1
  /\ (inject_Z (horner (Z.to_nat (weight v)) 1 (digits v) (rd (digits v) 0)) == magnitude v)%Q.
Proof.
  intros N Hm Hne. pose proof (digits_end v 0 N ltac:(lia) Hm) as He. pose proof (stripped_large v (normal_led _ N) Hne) as Hl. pose proof (bpow_pos (weight v)).
  destruct (mag_bounds _ (weight v) (ok_digits _ (proj1 N))) as [_ Hu]. fold (magnitude v) in Hu. rewrite bpow_tpow in Hu.
  pose proof (multiple_least (magnitude v) (tpow 0) ltac:(lra) (tpow_pos 0) Hm) as H1.
  assert (Hw : 0 < DEC_DIGITS * (weight v + 1)) by (apply tpow_lt_inv; lra). unfold DEC_DIGITS in He, Hw. split; [lia|]. split; [lia|].
  unfold ndigits in He. rewrite horner_mag by lia. rewrite Z2Nat.id by lia. unfold magnitude. destruct (digits v) as [|d ds]; [done|].
  unfold rd. cbn [lookup list_lookup default drop mag]. reflexivity.
Qed.

Definition int64_range (z : Z) : Prop := - 2 ^ 63 <= z < 2 ^ 63.
#[export] Instance int64_range_dec z : Decision (int64_range z).
Proof. unfold int64_range. apply _. Defined.

Lemma sign_horner v m : normal v -> digits v <> [] -> (inject_Z m == magnitude v)%Q ->
  (inject_Z (if sign v =? NUMERIC_NEG then - m else m) == value v)%Q.
Proof. intros _ _ E. unfold value, sgn. destruct (sign v =? NUMERIC_NEG); rewrite ?inject_Z_opp, E; ring. Qed.

(** The nearest integer, if it has 64 bits. *)
Lemma to_int64_spec v : normal v ->
  exists z, (inject_Z z == half_away (value v) 0)%Q /\ numericvar_to_int64 v = Ok (if decide (int64_range z) then Some z else None).
Proof.
  intros N. unfold numericvar_to_int64. assert (Hv : var_ok (set_var_from_var v)) by (destruct N as [[? ?] _]; by split).
  destruct (round_var_spec (set_var_from_var v) 0 Hv ltac:(left; by exists [])) as (r & -> & Hr & _ & Em & Hs & _). cbn [res_bind].
  pose proof (by_magnitude_value round_at (set_var_from_var v) r 0 _ (round_at_zero 0) Hv Em Hs) as Eq. change (value (set_var_from_var v)) with (value v) in Eq.
  destruct (strip_var_spec r Hr) as (S1 & S2 & S3 & _ & S5 & _ & _). set (t := strip_var r) in *. assert (Nt : normal t) by done.
  assert (Ht : multiple (magnitude t) (tpow 0)) by (rewrite S5, Em; apply (round_at_multiple _ 0)). fold half_away in Eq. rewrite <- S3 in Eq.
  destruct (Z.eqb_spec (ndigits t) 0) as [E|E].
  - assert (Et : digits t = []) by (apply nil_length_inv; unfold ndigits in E; lia). exists 0. split; [|done]. rewrite <- Eq. unfold value.
    rewrite (magnitude_empty t Et). change (inject_Z 0) with 0%Q. ring.
  - assert (Hne : digits t <> []) by (intros Et; unfold ndigits in E; by rewrite Et in E). destruct (whole_digits t Nt Ht Hne) as (Hw & Hn & Eh).
    destruct (Z.leb_spec 0 (weight t)) as [_|]; [|lia]. destruct (Z.leb_spec (ndigits t) (weight t + 1)) as [_|]; [|lia]. cbn [andb negb].
    pose proof (rd_digit (digits t) 0 (ok_digits _ S1)) as [D0 D1]. unfold NBASE in D1.
    rewrite accumulate_spec by (apply S1 || lia). pose proof (horner_ge (Z.to_nat (weight t)) 1 (digits t) _ (ok_digits _ S1) D0) as Hge.
    set (m := horner _ _ _ _) in *. exists (if sign t =? NUMERIC_NEG then - m else m). split; [rewrite sign_horner by done; exact Eq|]. f_equal.
    clearbody m. unfold int64_range, PG_INT64_MIN. destruct (Z.leb_spec m (2 ^ 63)) as [Hm|Hm]; cbn [mbind option_bind]; destruct (sign t =? NUMERIC_NEG); cbn [negb].
    + by rewrite decide_True by lia.
    + destruct (Z.eqb_spec (- m) (- 2 ^ 63)); [by rewrite decide_False by lia|]. rewrite decide_True by lia. f_equal. lia.
    + by rewrite decide_False by lia.
    + by rewrite decide_False by lia.
Qed.

Lemma int8_refines n q d : denotes n (Fin q d) ->
  exists z, (inject_Z z == half_away q 0)%Q /\ numeric_int8 n = if decide (int64_range z) then Ok z else Err "bigint out of range".
Proof.
  intros D. unfold numeric_int8. destruct (kinds n _ D) as (-> & _). cbn [is_fin negb]. apply fin_parts in D as (N & Q & _).
  destruct (to_int64_spec _ N) as (z & Ez & ->). cbn [res_bind]. exists z. split; [|by destruct (decide _)]. rewrite Ez.
  apply by_magnitude_proper; [apply round_at_proper|exact Q|done].
Qed.

(** ** From an integer *)

Lemma split_digits_spec cells u acc : 0 <= u < NBASE ^ Z.of_nat (length cells) -> (cells <> []) ->
  exists front l, split_digits cells u acc = Ok (front, l ++ acc) /\ digits_ok l /\ (mag l (Z.of_nat (length l) - 1) == inject_Z u)%Q
  /\ (0 < u -> rd l 0 <> 0).
Proof.
  revert u acc. induction cells as [|c cells IH]; intros u acc Hu Hne; [done|]. cbn [split_digits]. clear Hne.
  pose proof (Z.div_mod u NBASE ltac:(done)) as Ed. pose proof (Z.mod_pos_bound u NBASE ltac:(done)) as Hm.
  set (q := u / NBASE) in *. set (r := u mod NBASE) in *. replace (u - q * NBASE) with r by lia.
  assert (Hq : 0 <= q < NBASE ^ Z.of_nat (length cells)).
  { split; [apply Z.div_pos; [lia|done]|]. apply Z.div_lt_upper_bound; [done|]. rewrite <- Z.pow_succ_r by lia. simpl length in Hu. rewrite Nat2Z.inj_succ in Hu. lia. }
  clearbody q r. destruct (Z.eqb_spec q 0) as [->|Hq0].
  - exists cells, [r]. split; [done|]. split; [by constructor|]. cbn [mag length]. change (bpow (Z.of_nat 1 - 1)) with 1%Q. split; [rewrite Ed, Z.mul_0_r, Z.add_0_l; ring|]. unfold rd. simpl. lia.
  - destruct (IH q (r :: acc) Hq) as (front & l & -> & Hl & El & Hf). { intros ->. simpl in Hq. lia. }
    exists front, (l ++ [r]). split; [by rewrite <- app_assoc|]. split; [apply Forall_app; split; [done|by constructor]|]. split; [|intros _; unfold rd in *; destruct l; [simpl in Hf; lia|apply Hf; lia]].
    rewrite mag_snoc, length_app. simpl length. replace (Z.of_nat (length l + 1) - 1) with (Z.of_nat (length l) - 1 + 1) by lia.
    rewrite mag_shift, El. replace (Z.of_nat (length l) - 1 + 1 - Z.of_nat (length l)) with 0 by lia. change (bpow 0) with 1%Q.
    change (bpow 1) with (inject_Z NBASE). rewrite Ed, inject_Z_plus, inject_Z_mult. ring.
Qed.

Lemma int64_magnitude z : int64_range z ->
  (if z <? 0 then (NUMERIC_NEG, uwrap 64 (- z)) else (NUMERIC_POS, uwrap 64 z)) = (if z <? 0 then NUMERIC_NEG else NUMERIC_POS, Z.abs z).
Proof.
  intros [H1 H2]. destruct (Z.ltb_spec z 0); f_equal; (rewrite uwrap_small; [lia|]); unfold in_u; change (2 ^ 64) with (2 * 2 ^ 63); lia.
Qed.

Lemma int64_value z (l : list Z) f : (mag l (Z.of_nat (length l) - 1) == inject_Z (Z.abs z))%Q ->
  (value (mk_var f l (Z.of_nat (length l) - 1) (if (z <? 0)%Z then NUMERIC_NEG else NUMERIC_POS) 0) == inject_Z z)%Q.
Proof.
  intros E. unfold value, sgn, magnitude. cbn [digits weight sign]. rewrite E. destruct (Z.ltb_spec z 0); cbn [Z.eqb].
  - rewrite Z.abs_neq, inject_Z_opp by lia. simpl. ring.
  - rewrite Z.abs_eq by lia. simpl. ring.
Qed.

Lemma of_int64_refines cells z : (5 <= length cells)%nat -> int64_range z ->
  exists n, int64_to_numeric cells z = Ok n /\ denotes n (Fin (inject_Z z) 0).
Proof.
  intros Hc Hz. unfold int64_to_numeric, int64_to_numericvar. rewrite int64_magnitude by done.
  assert (Hv : exists v, (if z =? 0 then Ok (mk_var [0] [] 0 (if z <? 0 then NUMERIC_NEG else NUMERIC_POS) 0)
    else '(front, ds) <-! split_digits (take 5 cells ++ [0]) (Z.abs z) [] ;;
         Ok (mk_var front ds (Z.of_nat (length ds) - 1) (if z <? 0 then NUMERIC_NEG else NUMERIC_POS) 0)) = Ok v
    /\ var_ok v /\ (value v == inject_Z z)%Q /\ dscale v = 0).
  { destruct (Z.eqb_spec z 0) as [->|Hz0].
    - eexists. split; [done|]. split; [split; [constructor|by left]|]. split; [|done]. unfold value, magnitude. simpl. reflexivity.
    - destruct (split_digits_spec (take 5 cells ++ [0]) (Z.abs z) []) as (front & l & -> & Hl & El & _).
      + rewrite length_app, length_take. replace (5 `min` length cells)%nat with 5%nat by lia. unfold int64_range in Hz. change (NBASE ^ Z.of_nat (5 + length [0])) with (10 ^ 24). lia.
      + by destruct (take 5 cells).
      + cbn [res_bind]. rewrite app_nil_r. eexists. split; [done|]. split; [split; [done|simpl; destruct (z <? 0); auto]|]. split; [|done]. by apply int64_value. }
  destruct Hv as (v & -> & Hok & Ev & Hd). cbn [res_bind].
  assert (Hm : multiple (magnitude v) (tpow (- 0))) by (apply multiple_value; rewrite Ev; exists z; change (tpow (- 0)) with 1%Q; ring).
  destruct (make_result_packs v 0 Hok Hd ltac:(lia) Hm) as [[_ (n & E & Hf & Hq & Hs)]|[Hn _]].
  - exists n. split; [done|]. split; [done|]. split; [rewrite Hq; exact Ev|done].
  - exfalso. apply Hn. split; [|done]. rewrite abs_value by done. rewrite <- abs_value by done. rewrite Ev.
    apply Qlt_le_trans with (bpow 6); [|by apply bpow_le]. unfold int64_range in Hz. rewrite bpow_Z by lia. change (Qabs (inject_Z z)) with (inject_Z (Z.abs z)).
    rewrite <- Zlt_Qlt. change (NBASE ^ 6) with (10 ^ 24). lia.
Qed.

Lemma half_away_whole z : (half_away (inject_Z z) 0 == inject_Z z)%Q.
Proof.
  assert (Hm : forall y, multiple (inject_Z y) (tpow (- 0))) by (intros y; exists y; change (tpow (- 0)) with 1%Q; ring).
  unfold half_away, by_magnitude. destruct (Qle_bool 0 (inject_Z z)); [by apply round_multiple|].
  rewrite <- inject_Z_opp, round_multiple by done. rewrite inject_Z_opp. ring.
Qed.
