(* ===== verification/NumericProps.v ===== *)
(** The theorems on numeric values, each with an application to concrete values. *)

From S2P Require Import Prelude Numeric NumericArith NumericRound NumericMul NumericPack NumericNum NumericTimes NumericInt.
Local Open Scope Z_scope.
Local Open Scope pg_scope.

(** Sample values: 12.5, -0.05, 99999999 and the infinities. *)
Definition num_12_5 : Numeric := mk_numeric 0x8080 0 [12; 5000].
Definition num_m0_05 : Numeric := mk_numeric 0xA17F 0 [500].
Definition num_8nines : Numeric := mk_numeric 0x8001 0 [9999; 9999].
Definition num_pinf : Numeric := mk_numeric NUMERIC_PINF 0 [].
Definition num_nan : Numeric := mk_numeric NUMERIC_NAN 0 [].

Ltac sample k := split; [split; [reflexivity|split; [discriminate|reflexivity]| | |split; [discriminate|reflexivity]|exists k; reflexivity]|split; reflexivity];
  [split; split; [repeat constructor; (discriminate || reflexivity)|cbn; auto|left; discriminate|left; discriminate|discriminate]|split; discriminate].

Lemma num_12_5_ok : denotes num_12_5 (Fin (25 # 2) 1).
Proof. sample 125. Qed.

Lemma num_m0_05_ok : denotes num_m0_05 (Fin (- (1 # 20)) 2).
Proof. sample 5. Qed.

Lemma num_8nines_ok : denotes num_8nines (Fin (99999999 # 1) 0).
Proof. sample 99999999. Qed.

(** ** Arithmetic *)

(** numeric_add and numeric_sub compute the exact sum and difference of any two
    values, with the greater display scale; not-a-number and the infinities follow their
    rules; the only error is a finite result that does not fit into the format. *)
Theorem numeric_sum_exact n1 n2 x1 x2 : denotes n1 x1 -> denotes n2 x2 ->
  gives (numeric_add n1 n2) (plus x1 x2) /\ gives (numeric_sub n1 n2) (minus x1 x2).
Proof. intros D1 D2. split; [by apply add_refines|by apply sub_refines]. Qed.

Lemma numeric_sum_exact_witness :
  gives (numeric_add num_12_5 num_m0_05) (Fin ((25 # 2) + - (1 # 20)) 2) /\ numeric_add num_12_5 num_m0_05 = Ok (mk_numeric 0x8100 0 [12; 4500])
  /\ gives (numeric_sub num_pinf num_pinf) NaN.
Proof.
  split; [|split; [reflexivity|]].
  - exact (proj1 (numeric_sum_exact _ _ _ _ num_12_5_ok num_m0_05_ok)).
  - exact (proj2 (numeric_sum_exact num_pinf num_pinf PInf PInf eq_refl eq_refl)).
Defined.

(** C16: numeric_mul computes the exact product of any two values: the digits it decides
    to compute are all there are; a product with more decimal places than the format has
    is rounded half away from zero; infinity times zero is not-a-number. *)
Theorem numeric_product_exact n1 n2 x1 x2 : denotes n1 x1 -> denotes n2 x2 -> gives (numeric_mul n1 n2) (times x1 x2).
Proof. apply mul_refines. Qed.

Lemma numeric_product_exact_witness :
  gives (numeric_mul num_8nines num_m0_05) (Fin ((99999999 # 1) * - (1 # 20)) 2) /\ numeric_mul num_8nines num_m0_05 = Ok (mk_numeric 0xA101 0 [499; 9999; 9500]).
Proof. split; [|reflexivity]. exact (numeric_product_exact _ _ _ _ num_8nines_ok num_m0_05_ok). Defined.

(** mul_var returns a stripped result of the requested scale for any operands and
    any scale: no product, no sum and no carry overflows an [int], no carry is left over
    and nothing is written outside the buffers; if the digits it computes are all there
    are, the result is the product rounded half away from zero. *)
Theorem mul_var_no_overflow v1 v2 s : var_ok v1 -> var_ok v2 ->
  exists v, mul_var v1 v2 s = Ok v /\ normal v /\ dscale v = s
  /\ (ndigits v1 + ndigits v2 + 1 <= product_room v1 v2 s -> (value v == sgn v1 * sgn v2 * round_at (magnitude v1 * magnitude v2) s)%Q).
Proof. intros H1 H2. destruct (mul_var_spec v1 v2 s H1 H2) as (v & E & Hn & Hd & _ & Hv). exists v. done. Qed.

Definition nines (n : nat) : NumericVar := mk_var [] (replicate n 9999) 0 NUMERIC_POS 0.

Lemma nines_ok n : var_ok (nines n).
Proof. split; [apply Forall_replicate; split; [discriminate|reflexivity]|by left]. Qed.

Lemma mul_var_no_overflow_witness : exists v, mul_var (nines 40) (nines 60) 3 = Ok v /\ normal v /\ dscale v = 3.
Proof. destruct (mul_var_no_overflow (nines 40) (nines 60) 3 (nines_ok 40) (nines_ok 60)) as (v & E & Hn & Hd & _). exists v. auto. Defined.

(** ** Rounding, order and sign *)

(** numeric_round gives the nearest number with the requested decimal places, ties
    away from zero, and numeric_trunc the nearest one toward zero, for every scale (also
    in front of the decimal point, clamped to two thousand places), carrying into new
    digits as needed. *)
Theorem numeric_rounding_exact n x s : denotes n x ->
  gives (numeric_round n s) (adjusted half_away x s) /\ gives (numeric_trunc n s) (adjusted toward_zero x s).
Proof. intros D. split; [by apply round_refines|by apply trunc_refines]. Qed.

Lemma numeric_rounding_exact_witness :
  gives (numeric_round num_8nines (-1)) (Fin (half_away (99999999 # 1) (-1)) 0) /\ numeric_round num_8nines (-1) = Ok (mk_numeric 0x8002 0 [1])
  /\ (half_away (99999999 # 1) (-1) == 100000000)%Q.
Proof. split; [|split; reflexivity]. exact (proj1 (numeric_rounding_exact _ _ (-1) num_8nines_ok)). Defined.

(** cmp_numerics compares by value, however the values are packed and scaled, with
    not-a-number equal to itself and greater than everything, and the infinities at the
    ends; numeric_abs and numeric_uminus change nothing but the sign. *)
Theorem numeric_order_and_sign n1 n2 x1 x2 : denotes n1 x1 -> denotes n2 x2 ->
  ordered (cmp_numerics n1 n2) x1 x2 /\ denotes (numeric_abs n1) (absolute x1) /\ denotes (numeric_uminus n1) (negated x1).
Proof. intros D1 D2. split; [by apply cmp_refines|]. split; [by apply abs_refines|by apply neg_refines]. Qed.

Lemma numeric_order_and_sign_witness :
  ordered (cmp_numerics num_m0_05 num_12_5) (Fin (- (1 # 20)) 2) (Fin (25 # 2) 1) /\ cmp_numerics num_m0_05 num_12_5 = -1
  /\ denotes (numeric_abs num_m0_05) (Fin (1 # 20) 2) /\ ordered (cmp_numerics num_nan num_pinf) NaN PInf.
Proof.
  destruct (numeric_order_and_sign _ _ _ _ num_m0_05_ok num_12_5_ok) as (H1 & H2 & _).
  split; [exact H1|]. split; [reflexivity|]. split; [exact H2|]. exact (proj1 (numeric_order_and_sign num_nan num_pinf NaN PInf eq_refl eq_refl)).
Defined.

(** ** The format *)

(** make_result packs any finite variable so that unpacking gives back its sign, its
    digits without leading and trailing zeroes, their weight and the display scale, in the
    short format or the long one; it fails exactly if the weight or the scale does not fit
    into the long format. *)
Theorem numeric_pack_roundtrip v : var_ok v -> 0 <= dscale v ->
  let v' := strip_var v in
  if decide (fields_fit (weight v') (dscale v))
  then exists n, make_result v = Ok n /\ init_var_from_num n = mk_var [] (digits v') (weight v') (sign v') (dscale v)
  else make_result v = Err "value overflows numeric format".
Proof.
  intros Hv Hd v'. rewrite (make_result_fields v Hv). fold v'. destruct (strip_var_spec v Hv) as (S1 & _).
  pose proof (pack_fields_spec (sign v') (weight v') (dscale v) (digits v') (ok_sign _ S1) Hd) as Hp. destruct (decide _); [|done].
  destruct Hp as (n & E & Hp). exists n. split; [done|]. by apply packed_var.
Qed.

Lemma numeric_pack_roundtrip_witness :
  (exists n, make_result (mk_var [] [0; 7; 0] (-70) NUMERIC_NEG 300) = Ok n /\ init_var_from_num n = mk_var [] [7] (-71) NUMERIC_NEG 300)
  /\ make_result (mk_var [] [1] 32768 NUMERIC_POS 0) = Err "value overflows numeric format".
Proof.
  split.
  - apply (numeric_pack_roundtrip (mk_var [] [0; 7; 0] (-70) NUMERIC_NEG 300)); [|discriminate].
    split; [repeat constructor; (discriminate || reflexivity)|by right].
  - apply (numeric_pack_roundtrip (mk_var [] [1] 32768 NUMERIC_POS 0)); [|discriminate]. split; [repeat constructor; (discriminate || reflexivity)|by left].
Defined.

(** every bigint converts to a numeric of its value and back to itself, whatever the
    new digits held; numeric_int8 gives the integer nearest to a value, ties away from
    zero, if that is a bigint (both ends included), and otherwise the error that fits. *)
Theorem int64_conversions cells z n x : (5 <= length cells)%nat -> int64_range z -> denotes n x ->
  (exists m, int64_to_numeric cells z = Ok m /\ denotes m (Fin (inject_Z z) 0) /\ numeric_int8 m = Ok z)
  /\ match x with
     | NaN => numeric_int8 n = Err "cannot convert NaN to bigint"
     | PInf | NInf => numeric_int8 n = Err "cannot convert infinity to bigint"
     | Fin q d => exists y, (inject_Z y == half_away q 0)%Q /\ numeric_int8 n = if decide (int64_range y) then Ok y else Err "bigint out of range"
     end.
Proof.
  intros Hc Hz D. split.
  - destruct (of_int64_refines cells z Hc Hz) as (m & E & Dm). exists m. split; [done|]. split; [done|]. destruct (int8_refines m _ _ Dm) as (y & Ey & ->).
    assert (y = z) as ->; [|by rewrite decide_True]. apply inject_Z_injective. rewrite Ey. apply half_away_whole.
  - unfold numeric_int8. destruct (kinds n x D) as (K1 & K2 & _). destruct x as [| | |q d]; [rewrite K1, K2; done..|]. by apply (int8_refines n q d).
Qed.

Lemma int64_conversions_witness :
  (exists m, int64_to_numeric (replicate 5 77) (- 2 ^ 63) = Ok m /\ numeric_int8 m = Ok (- 2 ^ 63))
  /\ (exists y, (inject_Z y == half_away (25 # 2) 0)%Q) /\ numeric_int8 num_12_5 = Ok 13.
Proof.
  destruct (int64_conversions (replicate 5 77) (- 2 ^ 63) num_12_5 _ ltac:(simpl; lia) ltac:(split; [discriminate|reflexivity]) num_12_5_ok) as [(m & E & _ & H) (y & Ey & _)].
  split; [by exists m|]. split; [by exists y|]. reflexivity.
Defined.
