(* ===== verification/NumericFun.v ===== *)
(** Numeric values: type modifiers, whole numbers and scales (backend/utils/adt/numeric.c). *)

From S2P Require Import Prelude Numeric.
Local Open Scope Z_scope.
Local Open Scope pg_scope.

Definition NUMERIC_MAX_PRECISION : Z := 1000.
Definition NUMERIC_MIN_SCALE : Z := -1000.
Definition NUMERIC_MAX_SCALE : Z := 1000.
Definition VARHDRSZ : Z := 4.
Definition NUMERIC_HDRSZ : Z := VARHDRSZ + 2 + 2.
Definition sizeof_NumericDigit : Z := 2.

Definition const_zero : NumericVar := mk_var [] [] 0 NUMERIC_POS 0.
Definition const_one : NumericVar := mk_var [] [1] 0 NUMERIC_POS 0.
Definition const_minus_one : NumericVar := mk_var [] [1] 0 NUMERIC_NEG 0.

(** ** Type modifiers *)

Definition make_numeric_typmod (precision scale : Z) : Z := Z.lor (Z.shiftl precision 16) (Z.land scale 0x7ff) + VARHDRSZ.
Definition is_valid_numeric_typmod (typmod : Z) : bool := VARHDRSZ <=? typmod.
Definition numeric_typmod_precision (typmod : Z) : Z := Z.land (Z.shiftr (typmod - VARHDRSZ) 16) 0xffff.
Definition numeric_typmod_scale (typmod : Z) : Z := Z.lxor (Z.land (typmod - VARHDRSZ) 0x7ff) 1024 - 1024.

(** [tl] is the array of the modifiers. *)
Definition numerictypmodin (tl : list Z) : res Z :=
  let bad_precision := Err "NUMERIC precision must be between 1 and 1000" in
  match tl with
  | [p; s] =>
      if (p <? 1) || (NUMERIC_MAX_PRECISION <? p) then bad_precision
      else if (s <? NUMERIC_MIN_SCALE) || (NUMERIC_MAX_SCALE <? s) then Err "NUMERIC scale must be between -1000 and 1000"
      else Ok (make_numeric_typmod p s)
  | [p] => if (p <? 1) || (NUMERIC_MAX_PRECISION <? p) then bad_precision else Ok (make_numeric_typmod p 0)
  | _ => Err "invalid NUMERIC type modifier"
  end.

Definition numeric_maximum_size (typmod : Z) : Z :=
  if negb (is_valid_numeric_typmod typmod) then -1
  else
    let precision := numeric_typmod_precision typmod in
    let numeric_digits := Z.quot (precision + 2 * (DEC_DIGITS - 1)) DEC_DIGITS in
    NUMERIC_HDRSZ + numeric_digits * sizeof_NumericDigit.

(** The scan for the first digit that is not zero: true if the number has more than
    [maxdigits] decimal digits in front of the point. *)
Fixpoint too_wide (ds : list Z) (ddigits maxdigits : Z) : bool :=
  match ds with
  | [] => false
  | dig :: ds' =>
      if negb (dig =? 0) then
        let ddigits := if dig <? 10 then ddigits - 3 else if dig <? 100 then ddigits - 2 else if dig <? 1000 then ddigits - 1 else ddigits in
        maxdigits <? ddigits
      else too_wide ds' (ddigits - DEC_DIGITS) maxdigits
  end.

Definition apply_typmod (var : NumericVar) (typmod : Z) : res NumericVar :=
  if negb (is_valid_numeric_typmod typmod) then Ok var
  else
    let precision := numeric_typmod_precision typmod in
    let scale := numeric_typmod_scale typmod in
    let maxdigits := precision - scale in
    var <-! round_var var scale ;;
    let var := if dscale var <? 0 then set_dscale 0 var else var in
    let ddigits := (weight var + 1) * DEC_DIGITS in
    if (maxdigits <? ddigits) && too_wide (digits var) ddigits maxdigits then Err "numeric field overflow" else Ok var.

Definition apply_typmod_special (num : Numeric) (typmod : Z) : res unit :=
  if NUMERIC_IS_NAN num then Ok tt
  else if negb (is_valid_numeric_typmod typmod) then Ok tt
  else Err "numeric field overflow".

(** The function [numeric], which casts to a type with a modifier. *)
Definition numeric (num : Numeric) (typmod : Z) : res Numeric :=
  if NUMERIC_IS_SPECIAL num then _ <-! apply_typmod_special num typmod ;; Ok num
  else if negb (is_valid_numeric_typmod typmod) then Ok num
  else
    let precision := numeric_typmod_precision typmod in
    let scale := numeric_typmod_scale typmod in
    let maxdigits := precision - scale in
    let dscale := Z.max scale 0 in
    let ddigits := (NUMERIC_WEIGHT num + 1) * DEC_DIGITS in
    if (ddigits <=? maxdigits) && (NUMERIC_DSCALE num <=? scale)
       && (NUMERIC_CAN_BE_SHORT dscale (NUMERIC_WEIGHT num) || negb (NUMERIC_IS_SHORT num)) then
      let header :=
        if NUMERIC_IS_SHORT num
        then uwrap 16 (Z.lor (Z.land (n_header num) (Z.lnot NUMERIC_SHORT_DSCALE_MASK)) (Z.shiftl dscale NUMERIC_SHORT_DSCALE_SHIFT))
        else uwrap 16 (Z.lor (NUMERIC_SIGN num) (Z.land (uwrap 16 dscale) NUMERIC_DSCALE_MASK)) in
      Ok (mk_numeric header (n_weight num) (n_data num))
    else
      var <-! apply_typmod (set_var_from_num num) typmod ;;
      make_result var.

(** ** Whole numbers *)

Definition ceil_var (var : NumericVar) : res NumericVar :=
  let tmp := trunc_var (set_var_from_var var) 0 in
  tmp <-! (if (sign var =? NUMERIC_POS) && negb (cmp_var var tmp =? 0) then add_var tmp const_one else Ok tmp) ;;
  Ok (set_var_from_var tmp).

Definition floor_var (var : NumericVar) : res NumericVar :=
  let tmp := trunc_var (set_var_from_var var) 0 in
  tmp <-! (if (sign var =? NUMERIC_NEG) && negb (cmp_var var tmp =? 0) then sub_var tmp const_one else Ok tmp) ;;
  Ok (set_var_from_var tmp).

Definition numeric_ceil (num : Numeric) : res Numeric :=
  if NUMERIC_IS_SPECIAL num then Ok num else result <-! ceil_var (init_var_from_num num) ;; make_result result.
Definition numeric_floor (num : Numeric) : res Numeric :=
  if NUMERIC_IS_SPECIAL num then Ok num else result <-! floor_var (init_var_from_num num) ;; make_result result.
Definition numeric_inc (num : Numeric) : res Numeric :=
  if NUMERIC_IS_SPECIAL num then Ok num else arg <-! add_var (init_var_from_num num) const_one ;; make_result arg.
Definition numeric_sign (num : Numeric) : res Numeric :=
  if NUMERIC_IS_NAN num then make_result const_nan
  else
    let s := numeric_sign_internal num in
    if s =? 0 then make_result const_zero else if s =? 1 then make_result const_one else make_result const_minus_one.
Definition numeric_smaller (num1 num2 : Numeric) : Numeric := if cmp_numerics num1 num2 <? 0 then num1 else num2.
Definition numeric_larger (num1 num2 : Numeric) : Numeric := if 0 <? cmp_numerics num1 num2 then num1 else num2.
Definition numeric_is_integral (num : Numeric) : bool :=
  if NUMERIC_IS_SPECIAL num then negb (NUMERIC_IS_NAN num)
  else
    let arg := init_var_from_num num in
    (ndigits arg =? 0) || (ndigits arg <=? weight arg + 1).

(** ** Scales *)

Definition numeric_scale (num : Numeric) : option Z := if NUMERIC_IS_SPECIAL num then None else Some (NUMERIC_DSCALE num).

(** [while (last_digit % 10 == 0)]: [fuel] passes. *)
Fixpoint drop_zeroes (fuel : nat) (last_digit min_scale : Z) : res Z :=
  match fuel with
  | O => Err "the loop does not end"
  | S fuel => if Z.rem last_digit 10 =? 0 then drop_zeroes fuel (Z.quot last_digit 10) (min_scale - 1) else Ok min_scale
  end.

(** A digit other than zero ends in at most three zeroes. *)
Definition get_min_scale (var : NumericVar) : res Z :=
  match strip_trailing (length (digits var)) (digits var) with
  | O => Ok 0
  | S last_digit_pos =>
      let min_scale := (Z.of_nat last_digit_pos - weight var) * DEC_DIGITS in
      if 0 <? min_scale then drop_zeroes 4 (rd (digits var) last_digit_pos) min_scale else Ok 0
  end.

Definition numeric_min_scale (num : Numeric) : res (option Z) :=
  if NUMERIC_IS_SPECIAL num then Ok None else s <-! get_min_scale (init_var_from_num num) ;; Ok (Some s).
Definition numeric_trim_scale (num : Numeric) : res Numeric :=
  if NUMERIC_IS_SPECIAL num then Ok num
  else
    let result := init_var_from_num num in
    s <-! get_min_scale result ;;
    make_result (set_dscale s result).
