(* ===== verification/NumericType.v ===== *)
(** Type modifiers: what fits into a column of a given precision and scale. *)

From S2P Require Import Prelude Numeric NumericArith NumericRound NumericMul NumericPack NumericNum NumericTimes NumericFun.
Local Open Scope Z_scope.
Local Open Scope pg_scope.

(** ** The modifier *)

Lemma scale_bits_checked : forallb (fun s => Z.lxor (Z.land s 0x7ff) 1024 - 1024 =? s) (seqZ (-1024) 2048) = true.
Proof. vm_compute. reflexivity. Qed.

Lemma small_log2 x : 0 <= x < 2048 -> Z.log2 x <= 10.
Proof. intros Hx. destruct (decide (x = 0)) as [->|]; [done|]. assert (Z.log2 x < 11) by (apply Z.log2_lt_pow2; lia). lia. Qed.

Lemma typmod_roundtrip p s : 0 <= p < 65536 -> -1024 <= s < 1024 ->
  let t := make_numeric_typmod p s in
  is_valid_numeric_typmod t = true /\ numeric_typmod_precision t = p /\ numeric_typmod_scale t = s.
Proof.
  intros Hp Hs. unfold make_numeric_typmod, is_valid_numeric_typmod, numeric_typmod_precision, numeric_typmod_scale. change 0x7ff with (Z.ones 11).
  rewrite (Z.land_ones s) by lia. set (x := s mod 2 ^ 11). assert (Hx : 0 <= x < 2048) by (apply Z.mod_pos_bound; lia).
  assert (E : Z.lor (Z.shiftl p 16) x = p * 65536 + x).
  { assert (E0 : Z.land (Z.shiftl p 16) x = 0); [|rewrite <- Z.lxor_lor, <- Z.add_nocarry_lxor, Z.shiftl_mul_pow2 by (done || lia); lia].
    apply Z.bits_inj'. intros i Hi. rewrite Z.land_spec, Z.bits_0. destruct (decide (i < 16)) as [Hlt|Hge]; [by rewrite Z.shiftl_spec_low|].
    rewrite (Z.bits_above_log2 x i) by (pose proof (small_log2 x Hx); lia).
    apply andb_false_r. }
  rewrite E. unfold VARHDRSZ. replace (p * 65536 + x + 4 - 4) with (p * 65536 + x) by lia. split; [apply Z.leb_le; lia|]. split.
  - rewrite Z.shiftr_div_pow2 by lia. change (2 ^ 16) with 65536. rewrite Z.div_add_l, (Z.div_small x) by lia.
    change 0xffff with (Z.ones 16). rewrite Z.add_0_r, Z.land_ones by lia. apply Z.mod_small. done.
  - rewrite Z.land_ones by lia. change (2 ^ 11) with 2048 in *. replace (p * 65536 + x) with (x + p * 32 * 2048) by lia. rewrite Z.mod_add, (Z.mod_small x) by lia.
    pose proof (forallb_elem _ _ s scale_bits_checked ltac:(apply elem_of_seqZ; lia)) as H. cbv beta in H. apply Z.eqb_eq in H.
    change 0x7ff with (Z.ones 11) in H. rewrite Z.land_ones in H by lia. exact H.
Qed.

Lemma typmod_ranges t : 0 <= numeric_typmod_precision t < 65536 /\ -1024 <= numeric_typmod_scale t < 1024.
Proof.
  unfold numeric_typmod_precision, numeric_typmod_scale. change 0xffff with (Z.ones 16). change 0x7ff with (Z.ones 11). rewrite !Z.land_ones by lia. split; [apply Z.mod_pos_bound; lia|].
  set (x := (t - VARHDRSZ) mod 2 ^ 11). assert (Hx : 0 <= x < 2048) by (apply Z.mod_pos_bound; lia). clearbody x.
  assert (0 <= Z.lxor x 1024 < 2 ^ 11); [|lia]. split; [apply Z.lxor_nonneg; lia|]. destruct (decide (Z.lxor x 1024 = 0)) as [->|Hne]; [lia|].
  apply Z.log2_lt_pow2; [assert (0 <= Z.lxor x 1024) by (apply Z.lxor_nonneg; lia); lia|]. eapply Z.le_lt_trans; [apply Z.log2_lxor; lia|].
  pose proof (small_log2 x Hx). change (Z.log2 1024) with 10. lia.
Qed.

(** ** [apply_typmod] *)

Lemma tpow_le a b : a <= b -> (tpow a <= tpow b)%Q.
Proof. intros H. apply Qpower_le_compat_l; [done|done]. Qed.

(** The decimal digits of a digit. *)
Lemma digit_length dig : 0 < dig < NBASE -> exists k, 0 <= k <= 3 /\ 10 ^ k <= dig < 10 ^ (k + 1)
  /\ (forall x, (if dig <? 10 then x - 3 else if dig <? 100 then x - 2 else if dig <? 1000 then x - 1 else x) = x - 3 + k).
Proof.
  intros Hd. unfold NBASE in Hd. destruct (Z.ltb_spec dig 10); [exists 0; split; [lia|]; split; [change (10 ^ 0) with 1; change (10 ^ (0 + 1)) with 10; lia|intros; lia]|].
  destruct (Z.ltb_spec dig 100); [exists 1; split; [lia|]; split; [change (10 ^ 1) with 10; change (10 ^ (1 + 1)) with 100; lia|intros; lia]|].
  destruct (Z.ltb_spec dig 1000); [exists 2; split; [lia|]; split; [change (10 ^ 2) with 100; change (10 ^ (2 + 1)) with 1000; lia|intros; lia]|].
  exists 3. split; [lia|]. split; [change (10 ^ 3) with 1000; change (10 ^ (3 + 1)) with 10000; lia|intros; lia].
Qed.

(** The leading digit bounds the number between powers of ten. *)
Lemma mag_decades dig ds w k : 0 <= k -> 10 ^ k <= dig < 10 ^ (k + 1) -> digits_ok ds ->
  (tpow (DEC_DIGITS * w + k) <= mag (dig :: ds) w /\ mag (dig :: ds) w < tpow (DEC_DIGITS * w + k + 1))%Q.
Proof.
  intros Hk [H1 H2] Hd. cbn [mag]. destruct (mag_bounds ds (w - 1) Hd) as [B1 B2]. replace (w - 1 + 1) with w in B2 by lia.
  rewrite <- Z.add_assoc, !(tpow_plus (DEC_DIGITS * w)), <- bpow_tpow, !tpow_Z by lia. pose proof (bpow_pos w).
  assert (inject_Z (10 ^ k) <= inject_Z dig)%Q by (by rewrite <- Zle_Qle).
  assert (inject_Z dig + 1 <= inject_Z (10 ^ (k + 1)))%Q by (change 1%Q with (inject_Z 1); rewrite <- inject_Z_plus, <- Zle_Qle; lia). split; nra.
Qed.

Lemma too_wide_spec ds w m : digits_ok ds -> too_wide ds ((w + 1) * DEC_DIGITS) m = true <-> (tpow m <= mag ds w)%Q.
Proof.
  intros Hd. revert w. induction Hd as [|dig ds [Hd0 Hd] Hds IH]; intros w; cbn [too_wide].
  - pose proof (tpow_pos m). cbn [mag]. split; [done|lra].
  - destruct (Z.eqb_spec dig 0) as [->|Hne]; cbn [negb].
    + replace ((w + 1) * DEC_DIGITS - DEC_DIGITS) with ((w - 1 + 1) * DEC_DIGITS) by lia. rewrite IH. cbn [mag]. change (inject_Z 0) with 0%Q.
      assert (E : (0 * bpow w + mag ds (w - 1) == mag ds (w - 1))%Q) by ring. by rewrite E.
    + destruct (digit_length dig ltac:(lia)) as (k & Hk & Hb & ->). rewrite Z.ltb_lt. destruct (mag_decades dig ds w k ltac:(lia) Hb Hds) as [L U].
      split; intros H.
      * pose proof (tpow_le m (DEC_DIGITS * w + k) ltac:(unfold DEC_DIGITS in *; lia)). lra.
      * assert (m < DEC_DIGITS * w + k + 1) by (apply tpow_lt_inv; lra). unfold DEC_DIGITS in *. lia.
Qed.

Lemma apply_typmod_spec v t : var_ok v -> roomy v \/ digits v = [] -> is_valid_numeric_typmod t = true ->
  let p := numeric_typmod_precision t in
  let s := numeric_typmod_scale t in
  if Qlt_le_dec (round_at (magnitude v) s) (tpow (p - s))
  then exists v', apply_typmod v t = Ok v' /\ var_ok v' /\ dscale v' = Z.max s 0 /\ (magnitude v' == round_at (magnitude v) s)%Q
    /\ (value v' == half_away (value v) s)%Q
  else apply_typmod v t = Err "numeric field overflow".
Proof.
  intros Hv Hr Ht p s. unfold apply_typmod. rewrite Ht. cbn [negb]. fold p s. destruct (round_var_spec v s Hv Hr) as (r & -> & Hok & Hd & Em & Hs & _). cbn [res_bind].
  set (r' := if dscale r <? 0 then set_dscale 0 r else r).
  assert (Hr' : digits r' = digits r /\ weight r' = weight r /\ sign r' = sign r /\ dscale r' = Z.max s 0).
  { unfold r'. rewrite Hd. destruct (Z.ltb_spec s 0); cbn [set_dscale digits weight sign dscale]; repeat split; lia. }
  destruct Hr' as (E1 & E2 & E3 & E4). rewrite E1, E2. pose proof (too_wide_spec (digits r) (weight r) (p - s) (ok_digits _ Hok)) as Hw. fold (magnitude r) in Hw. rewrite Em in Hw.
  destruct (Qlt_le_dec _ _) as [Hlt|Hge].
  - assert (Hn : too_wide (digits r) ((weight r + 1) * DEC_DIGITS) (p - s) = false) by (apply not_true_iff_false; rewrite Hw; lra). rewrite Hn, andb_false_r.
    assert (Em' : magnitude r' = magnitude r) by (unfold magnitude; by rewrite E1, E2). exists r'. split; [done|].
    split; [split; [rewrite E1; apply Hok|rewrite E3; apply Hok]|]. split; [done|]. split; [by rewrite Em'|].
    apply by_magnitude_value; [apply round_at_proper|apply round_at_zero|done|by rewrite Em'|by rewrite E1, E3].
  - apply Hw in Hge as Hwide. rewrite Hwide, andb_true_r. destruct (Z.ltb_spec (p - s) ((weight r + 1) * DEC_DIGITS)) as [|Hle]; [done|]. exfalso.
    destruct (mag_bounds _ (weight r) (ok_digits _ Hok)) as [_ Hu]. fold (magnitude r) in Hu. rewrite bpow_tpow, Em in Hu.
    pose proof (tpow_le (DEC_DIGITS * (weight r + 1)) (p - s) ltac:(lia)). lra.
Qed.

(** ** The cast *)

(** Headers that get another display scale: every one, by evaluation. *)
Definition unscaled (h : Z) : Z := Z.land h (Z.lnot NUMERIC_SHORT_DSCALE_MASK).
Definition rescale_ok (h : Z) : bool :=
  let n := of_header h in
  if NUMERIC_IS_SHORT n then unscaled h =? short_header (NUMERIC_SIGN n) 0 (NUMERIC_WEIGHT n)
  else NUMERIC_IS_SPECIAL n || negb (NUMERIC_HEADER_IS_SHORT n).

Lemma unscaled_checked : forallb (fun a => forallb (fun b => rescale_ok (256 * a + b)) (seqZ 0 256)) (seqZ 0 256) = true.
Proof. vm_compute. reflexivity. Qed.

Definition set_scale_ok (s w d : Z) : bool :=
  uwrap 16 (Z.lor (short_header s 0 w) (Z.shiftl d NUMERIC_SHORT_DSCALE_SHIFT)) =? short_header s d w.

Lemma set_scale_checked :
  forallb (fun s => forallb (fun d => forallb (fun w => set_scale_ok s w d) (seqZ (-64) 128)) (seqZ 0 64)) [NUMERIC_POS; NUMERIC_NEG] = true.
Proof. vm_compute. reflexivity. Qed.

Lemma short_headers_short :
  forallb (fun s => forallb (fun d => forallb (fun w => NUMERIC_HEADER_IS_SHORT (mk_numeric (short_header s d w) 0 [])) (seqZ (-64) 128)) (seqZ 0 64))
    [NUMERIC_POS; NUMERIC_NEG] = true.
Proof. vm_compute. reflexivity. Qed.

Lemma rescale_header h : in_u 16 h -> rescale_ok h = true.
Proof.
  intros Hh. unfold in_u in Hh. change (2 ^ 16) with 65536 in Hh. pose proof (Z.div_mod h 256 ltac:(lia)) as E. pose proof (Z.mod_pos_bound h 256 ltac:(lia)).
  assert (Ha : h / 256 ∈ seqZ 0 256) by (apply elem_of_seqZ; lia). assert (Hb : h mod 256 ∈ seqZ 0 256) by (apply elem_of_seqZ; lia).
  pose proof (forallb_elem _ _ _ (forallb_elem _ _ _ unscaled_checked Ha) Hb) as H'. cbv beta in H'. by rewrite <- E in H'.
Qed.

(** The second word is not read behind a short header. *)
Lemma short_any_weight s d w nw ds : s = NUMERIC_POS \/ s = NUMERIC_NEG -> 0 <= d < 64 -> -64 <= w < 64 ->
  reads_back (mk_numeric (short_header s d w) nw ds) s w d = true.
Proof.
  intros Hs Hd Hw. pose proof (short_reads_back s d w ds Hs Hd Hw) as H.
  assert (Hsh : NUMERIC_HEADER_IS_SHORT (mk_numeric (short_header s d w) 0 ds) = true).
  { exact (forallb_elem _ _ w (forallb_elem _ _ d (forallb_elem _ _ s short_headers_short (sign_in s Hs)) ltac:(apply elem_of_seqZ; lia)) ltac:(apply elem_of_seqZ; lia)). }
  unfold reads_back in *. rewrite !andb_true_iff in *. destruct H as [[[A1 A2] A3] A4]. split; [split; [split|]|]; [exact A1|exact A2| |exact A4].
  unfold NUMERIC_WEIGHT in *. change (NUMERIC_HEADER_IS_SHORT (mk_numeric (short_header s d w) nw ds)) with (NUMERIC_HEADER_IS_SHORT (mk_numeric (short_header s d w) 0 ds)).
  rewrite Hsh in A3 |- *. exact A3.
Qed.

Lemma packed_denotes n n' d q : finite_ok n -> (num_value n == q)%Q -> packed n' (NUMERIC_SIGN n) (NUMERIC_WEIGHT n) d (NUMERIC_DIGITS n) ->
  NUMERIC_DSCALE n <= d <= NUMERIC_DSCALE_MAX -> denotes n' (Fin q d).
Proof.
  intros [F1 F2 [[O1 O2] [S1 S2 S3]] F4 F5 F6] Hq Hp Hd. pose proof (packed_var _ _ _ _ _ Hp) as Ev. destruct Hp as [P1 P2 P3 P4 P5 P6].
  split; [|split; [|done]].
  - split; [done|done| | | |].
    + rewrite Ev. by split; split.
    + rewrite P3. lia.
    + by rewrite P2.
    + rewrite Ev, P3. apply (multiple_coarser _ (NUMERIC_DSCALE n)); [lia|exact F6].
  - rewrite <- Hq. unfold num_value. rewrite Ev. reflexivity.
Qed.

Lemma rescaled n q d s : denotes n (Fin q d) -> d <= s <= NUMERIC_DSCALE_MAX ->
  NUMERIC_CAN_BE_SHORT s (NUMERIC_WEIGHT n) || negb (NUMERIC_IS_SHORT n) = true ->
  denotes (mk_numeric (if NUMERIC_IS_SHORT n then uwrap 16 (Z.lor (unscaled (n_header n)) (Z.shiftl s NUMERIC_SHORT_DSCALE_SHIFT))
                       else uwrap 16 (Z.lor (NUMERIC_SIGN n) (Z.land (uwrap 16 s) NUMERIC_DSCALE_MASK))) (n_weight n) (n_data n)) (Fin q s).
Proof.
  intros (Hf & Hq & <-) Hs Hshort. pose proof (rescale_header _ (fo_header _ Hf)) as Hh. unfold rescale_ok in Hh.
  change (NUMERIC_IS_SHORT (of_header (n_header n))) with (NUMERIC_IS_SHORT n) in Hh. pose proof (ok_sign _ (proj1 (fo_normal _ Hf))) as Hsg.
  change (sign (init_var_from_num n)) with (NUMERIC_SIGN n) in Hsg. pose proof (fo_scale _ Hf) as Hsc. destruct (NUMERIC_IS_SHORT n) eqn:Esh.
  - cbn [negb] in Hshort. rewrite orb_false_r in Hshort. unfold NUMERIC_CAN_BE_SHORT in Hshort. change NUMERIC_SHORT_DSCALE_MAX with 63 in Hshort.
    change NUMERIC_SHORT_WEIGHT_MAX with 63 in Hshort. change NUMERIC_SHORT_WEIGHT_MIN with (-64) in Hshort. rewrite !andb_true_iff, !Z.leb_le in Hshort.
    assert (Hhs : NUMERIC_HEADER_IS_SHORT n = true).
    { unfold NUMERIC_IS_SHORT, NUMERIC_FLAGBITS in Esh. apply Z.eqb_eq in Esh. unfold NUMERIC_HEADER_IS_SHORT. apply negb_true_iff, Z.eqb_neq. intros E0.
      change NUMERIC_SIGN_MASK with (Z.lor 0x8000 0x4000) in Esh. rewrite Z.land_lor_distr_r, E0, Z.lor_0_l in Esh.
      apply (f_equal (fun x => Z.testbit x 15)) in Esh. rewrite Z.land_spec in Esh. change (Z.testbit 0x4000 15) with false in Esh. rewrite andb_false_r in Esh. discriminate. }
    assert (Ew : NUMERIC_WEIGHT (of_header (n_header n)) = NUMERIC_WEIGHT n).
    { rewrite (weight_of_header n). change (NUMERIC_HEADER_IS_SHORT (of_header (n_header n))) with (NUMERIC_HEADER_IS_SHORT n). by rewrite Hhs. }
    apply Z.eqb_eq in Hh. rewrite Hh. change (NUMERIC_SIGN (of_header (n_header n))) with (NUMERIC_SIGN n). rewrite Ew.
    assert (Is : s ∈ seqZ 0 64) by (apply elem_of_seqZ; lia). assert (Iw : NUMERIC_WEIGHT n ∈ seqZ (-64) 128) by (apply elem_of_seqZ; lia).
    pose proof (forallb_elem _ _ _ (forallb_elem _ _ _ (forallb_elem _ _ _ set_scale_checked (sign_in _ Hsg)) Is) Iw) as Hset. apply Z.eqb_eq in Hset. rewrite Hset.
    apply (packed_denotes n); [done|done| |lia].
    pose proof (reads_back_packed _ (n_weight n) (n_data n) _ _ _ (short_header_range (NUMERIC_SIGN n) s (NUMERIC_WEIGHT n))
      (short_any_weight (NUMERIC_SIGN n) s (NUMERIC_WEIGHT n) (n_weight n) (n_data n) Hsg ltac:(lia) ltac:(lia))) as Hp. exact Hp.
  - change (NUMERIC_IS_SPECIAL (of_header (n_header n))) with (NUMERIC_IS_SPECIAL n) in Hh. rewrite (fo_finite _ Hf) in Hh. simpl in Hh. apply negb_true_iff in Hh.
    change (NUMERIC_HEADER_IS_SHORT (of_header (n_header n))) with (NUMERIC_HEADER_IS_SHORT n) in Hh.
    assert (Ew : NUMERIC_WEIGHT n = n_weight n) by (unfold NUMERIC_WEIGHT; by rewrite Hh). change NUMERIC_DSCALE_MAX with 16383 in *.
    rewrite (uwrap_small 16 s) by (unfold in_u; change (2 ^ 16) with 65536; lia). fold (long_header (NUMERIC_SIGN n) s).
    apply (packed_denotes n); [done|done| |change NUMERIC_DSCALE_MAX with 16383; lia]. rewrite Ew.
    apply reads_back_packed; [apply long_header_range|]. apply long_reads_back; [done|lia].
Qed.

Lemma abs_by_magnitude f v s : Proper (Qeq ==> eq ==> Qeq) f -> (f 0 s == 0)%Q -> (forall x, 0 <= x -> 0 <= f x s)%Q -> var_ok v ->
  (Qabs (by_magnitude f (value v) s) == f (magnitude v) s)%Q.
Proof.
  intros Hp H0 Hpos Hv. pose proof (magnitude_nonneg v Hv) as Hm. pose proof (Hpos _ Hm) as Hf. unfold by_magnitude, value, sgn.
  assert (E1 : (1 * magnitude v == magnitude v)%Q) by ring. assert (E2 : (- (-1 * magnitude v) == magnitude v)%Q) by ring.
  destruct (sign v =? NUMERIC_NEG); destruct (Qle_bool 0 _) eqn:Eq.
  - apply Qle_bool_iff in Eq. assert (Ez : (magnitude v == 0)%Q) by lra. assert (En : (-1 * magnitude v == 0)%Q) by lra. rewrite En, Ez, H0. reflexivity.
  - rewrite E2. rewrite Qabs_neg by lra. ring.
  - rewrite E1. by apply Qabs_pos.
  - exfalso. assert (Qle_bool 0 (1 * magnitude v) = true) by (apply Qle_bool_iff; lra). congruence.
Qed.

Lemma trunc_at_nonneg x s : (0 <= x)%Q -> (0 <= trunc_at x s)%Q.
Proof.
  intros Hx. unfold trunc_at. pose proof (tpow_pos (- s)) as Hu. assert (Hd : (inject_Z 0 <= x / tpow (- s))%Q) by (apply Qle_shift_div_l; [done|change (inject_Z 0) with 0%Q; lra]).
  apply Qfloor_resp_le in Hd. rewrite Qfloor_Z in Hd. assert (0 <= inject_Z (Qfloor (x / tpow (- s))))%Q by (change 0%Q with (inject_Z 0); by rewrite <- Zle_Qle). nra.
Qed.

Lemma round_at_nonneg x s : (0 <= x)%Q -> (0 <= round_at x s)%Q.
Proof. intros Hx. apply trunc_at_nonneg. pose proof (tpow_pos (- s)). lra. Qed.

Lemma half_away_abs v s : var_ok v -> (Qabs (half_away (value v) s) == round_at (magnitude v) s)%Q.
Proof. intros Hv. apply abs_by_magnitude; [apply round_at_proper|apply round_at_zero|intros; by apply round_at_nonneg|done]. Qed.

(** What a column holds is in the format. *)
Lemma column_in_format q p s : p - s <= 131072 -> s <= NUMERIC_DSCALE_MAX -> (Qabs q < tpow (p - s))%Q -> in_format q (Z.max s 0).
Proof.
  intros Hp Hs Hq. split; [|change NUMERIC_DSCALE_MAX with 16383 in *; lia]. eapply Qlt_le_trans; [exact Hq|]. rewrite bpow_tpow. apply tpow_le. unfold DEC_DIGITS. lia.
Qed.

Definition fits_column (q : Q) (t : Z) : bool :=
  if Qlt_le_dec (Qabs q) (tpow (numeric_typmod_precision t - numeric_typmod_scale t)) then true else false.

Lemma fits_column_spec q t : fits_column q t = true <-> (Qabs q < tpow (numeric_typmod_precision t - numeric_typmod_scale t))%Q.
Proof. unfold fits_column. destruct (Qlt_le_dec _ _) as [H|H]; [done|]. split; [done|lra]. Qed.

#[export] Instance fits_column_proper : Proper (Qeq ==> eq ==> eq) fits_column.
Proof. intros x y E t ? <-. apply eq_true_iff_eq. rewrite !fits_column_spec, E. done. Qed.

(** Nothing to round and certainly in bounds. *)
Lemma surely_fits n q d t : denotes n (Fin q d) -> (NUMERIC_WEIGHT n + 1) * DEC_DIGITS <= numeric_typmod_precision t - numeric_typmod_scale t ->
  d <= numeric_typmod_scale t -> (half_away q (numeric_typmod_scale t) == q)%Q /\ fits_column q t = true.
Proof.
  intros D Hw Hd. pose proof (fin_multiple _ _ _ D) as Hm. apply fin_parts in D as (N & Hq & _ & _ & Hp). split.
  - unfold half_away, by_magnitude. apply (multiple_coarser _ _ (numeric_typmod_scale t)) in Hm; [|done]. destruct (Qle_bool 0 q); [by apply round_multiple|].
    rewrite round_multiple by (by apply multiple_neg). ring.
  - apply fits_column_spec. rewrite <- Hq, abs_value by apply N. destruct (mag_bounds _ (NUMERIC_WEIGHT n) (ok_digits _ (proj1 N))) as [_ Hu].
    eapply Qlt_le_trans; [exact Hu|]. rewrite bpow_tpow. apply tpow_le. lia.
Qed.

(** A value goes into a column: rounded to its scale, or refused; without a modifier only
    the format is a limit. *)
Definition stored (r : res Numeric) (q : Q) (d t : Z) : Prop :=
  if is_valid_numeric_typmod t then
    let q' := half_away q (numeric_typmod_scale t) in
    if fits_column q' t then exists n, r = Ok n /\ denotes n (Fin q' (Z.max (numeric_typmod_scale t) 0))
    else r = Err "numeric field overflow"
  else packs r q d.

Lemma typmod_stored v q d t : var_ok v -> roomy v \/ digits v = [] -> (value v == q)%Q -> dscale v = d -> 0 <= d -> multiple q (tpow (- d)) ->
  stored (var <-! apply_typmod v t ;; make_result var) q d t.
Proof.
  intros Hv Hr Hq Hd Hd0 Hm. unfold stored. destruct (is_valid_numeric_typmod t) eqn:Ht.
  - destruct (typmod_ranges t) as [Rp Rs]. pose proof (apply_typmod_spec v t Hv Hr Ht) as Ha. cbv zeta in Ha |- *. pose proof (half_away_abs v (numeric_typmod_scale t) Hv) as Eh.
    set (s := numeric_typmod_scale t) in *. set (p := numeric_typmod_precision t) in *. set (q' := half_away q s).
    assert (Eq : (half_away (value v) s == q')%Q) by (apply by_magnitude_proper; [apply round_at_proper|exact Hq|done]). rewrite Eq in Eh. destruct (Qlt_le_dec _ _) as [Hlt|Hge].
    + assert (Hfit : fits_column q' t = true) by (apply fits_column_spec; rewrite Eh; done). rewrite Hfit. destruct Ha as (r & -> & Hok & Hs & Em & Ev). cbn [res_bind].
      assert (Hmr : multiple (magnitude r) (tpow (- Z.max s 0))) by (apply (multiple_coarser _ s); [lia|rewrite Em; apply round_at_multiple]).
      destruct (make_result_packs r _ Hok Hs ltac:(lia) Hmr) as [[_ (m & -> & Hf & Hv' & Hs')]|[Hn _]].
      * exists m. split; [done|]. split; [done|]. split; [rewrite Hv', Ev; exact Eq|done].
      * exfalso. apply Hn. apply (column_in_format _ p); [lia|change NUMERIC_DSCALE_MAX with 16383; lia|]. rewrite Ev, Eq, Eh. exact Hlt.
    + assert (Hfit : fits_column q' t = false) by (apply not_true_iff_false; rewrite fits_column_spec; fold p s; lra). by rewrite Hfit, Ha.
  - unfold apply_typmod. rewrite Ht. cbn [negb res_bind]. eapply packs_ext; [exact Hq|]. apply make_result_packs; [done|done|done|]. apply multiple_value. rewrite Hq. done.
Qed.

Lemma cast_refines n q d t : denotes n (Fin q d) -> is_valid_numeric_typmod t = true -> stored (numeric n t) q d t.
Proof.
  intros D Ht. unfold numeric. destruct (kinds n _ D) as (-> & _). rewrite Ht. cbn [is_fin negb]. destruct (typmod_ranges t) as [Rp Rs]. destruct (_ && _ && _) eqn:Ef.
  - unfold stored. rewrite Ht. cbv zeta. set (s := numeric_typmod_scale t) in *. rewrite !andb_true_iff, !Z.leb_le in Ef. destruct Ef as [[E1 E2] E3].
    assert (Ed : NUMERIC_DSCALE n = d) by apply D. rewrite Ed in E2. destruct (surely_fits n q d t D E1 E2) as [Eq Hfit]. fold s in Eq. pose proof (fin_parts _ _ _ D) as (_ & _ & _ & Hd0 & _).
    assert (Hfit' : fits_column (half_away q s) t = true) by (rewrite Eq; exact Hfit). rewrite Hfit'. replace (Z.max s 0) with s in * by lia. eexists. split; [done|].
    pose proof (rescaled n q d s D ltac:(change NUMERIC_DSCALE_MAX with 16383; lia) E3) as (A1 & A2 & A3). split; [exact A1|]. split; [transitivity q; [exact A2|symmetry; exact Eq]|exact A3].
  - pose proof (fin_multiple _ _ _ D) as Hm. apply fin_parts in D as (N & Hq & Hd & B & _).
    apply typmod_stored; [destruct N as [[? ?] _]; by split|left; by exists []|exact Hq|exact Hd|lia|done].
Qed.

(** ** The size of a value in a column *)

Definition num_size (n : Numeric) : Z := NUMERIC_HDRSZ + NUMERIC_NDIGITS n * sizeof_NumericDigit.

Lemma column_digits v p s : normal v -> multiple (magnitude v) (tpow (- s)) -> (magnitude v < tpow (p - s))%Q -> 0 <= p ->
  ndigits v <= Z.quot (p + 2 * (DEC_DIGITS - 1)) DEC_DIGITS.
Proof.
  intros N Hm Hlt Hp. rewrite Z.quot_div_nonneg by (unfold DEC_DIGITS; lia). destruct (decide (digits v = [])) as [E|Hne].
  - unfold ndigits. rewrite E. apply Z.div_pos; unfold DEC_DIGITS; simpl; lia.
  - pose proof (digits_end_nonempty v s N Hne Hm) as He. pose proof (stripped_large v (normal_led _ N) Hne) as Hl. rewrite bpow_tpow in Hl.
    assert (DEC_DIGITS * weight v < p - s) by (apply tpow_lt_inv; lra). unfold DEC_DIGITS in *. apply Z.div_le_lower_bound; lia.
Qed.

Lemma cast_size n q d t m : denotes n (Fin q d) -> is_valid_numeric_typmod t = true -> numeric n t = Ok m -> num_size m <= numeric_maximum_size t.
Proof.
  intros D Ht Em. pose proof (cast_refines n q d t D Ht) as Hc. unfold stored in Hc. rewrite Ht in Hc. cbv zeta in Hc. destruct (fits_column _ t) eqn:Ef; [|congruence].
  destruct Hc as (m' & E & Dm). assert (m' = m) as -> by congruence. apply fits_column_spec in Ef. destruct (typmod_ranges t) as [Rp _].
  apply fin_parts in Dm as (N & Hq & _ & _ & _). unfold numeric_maximum_size. rewrite Ht. cbn [negb].
  pose proof (column_digits (init_var_from_num m) (numeric_typmod_precision t) (numeric_typmod_scale t) N) as Hnd.
  assert (ndigits (init_var_from_num m) <= Z.quot (numeric_typmod_precision t + 2 * (DEC_DIGITS - 1)) DEC_DIGITS); [|unfold num_size, sizeof_NumericDigit; change (NUMERIC_NDIGITS m) with (ndigits (init_var_from_num m)); lia].
  apply Hnd; [| |lia].
  - apply multiple_value. rewrite Hq. unfold half_away, by_magnitude. destruct (Qle_bool 0 q); [apply round_at_multiple|apply multiple_neg, round_at_multiple].
  - rewrite <- abs_value by apply N. rewrite Hq. exact Ef.
Qed.
