(* ===== verification/NumericWhole.v ===== *)
(** Whole numbers above and below a value, its sign, and the fewest decimal places that
    show it. *)

From S2P Require Import Prelude Numeric NumericArith NumericRound NumericMul NumericPack NumericNum NumericTimes NumericInt NumericFun NumericType.
Local Open Scope Z_scope.
Local Open Scope pg_scope.

(** ** Ceiling and floor *)

Lemma floor_unique q z : (inject_Z z <= q)%Q -> (q < inject_Z z + 1)%Q -> Qfloor q = z.
Proof.
  intros H1 H2. pose proof (Qfloor_le q) as H3. pose proof (Qlt_floor q) as H4. rewrite inject_Z_plus in H4. change (inject_Z 1) with 1%Q in H4.
  assert (L1 : (inject_Z (Qfloor q) < inject_Z (z + 1))%Q) by (rewrite inject_Z_plus; change (inject_Z 1) with 1%Q; lra).
  assert (L2 : (inject_Z z < inject_Z (Qfloor q + 1))%Q) by (rewrite inject_Z_plus; change (inject_Z 1) with 1%Q; lra).
  rewrite <- Zlt_Qlt in L1, L2. lia.
Qed.

Lemma ceiling_unique q z : (inject_Z z - 1 < q)%Q -> (q <= inject_Z z)%Q -> Qceiling q = z.
Proof.
  intros H1 H2. unfold Qceiling. rewrite (floor_unique (- q) (- z)); [lia| |]; rewrite inject_Z_opp; lra.
Qed.

Lemma trunc_whole x : (trunc_at x 0 == inject_Z (Qfloor x))%Q.
Proof.
  unfold trunc_at. change (tpow (- 0)) with 1%Q. assert (E : (x / 1 == x)%Q) by (unfold Qdiv; change (/ 1)%Q with 1%Q; ring). rewrite E. ring.
Qed.

(** The whole part of a stripped number keeps the first digit. *)
Lemma trunc_var_led v : normal v -> led (trunc_var v 0).
Proof.
  intros N. destruct (trunc_var_spec v 0 (proj1 N)) as (Hok & _). split; [exact Hok|]. clear Hok. destruct N as [_ [S1 _ S3]]. unfold trunc_var.
  destruct (Z.leb_spec ((weight v + 1) * DEC_DIGITS + 0) 0) as [Hdi|Hdi]; [by split; [right|]|].
  assert (E0 : Z.rem ((weight v + 1) * DEC_DIGITS + 0) DEC_DIGITS = 0) by (rewrite Z.add_0_r; by apply Z.rem_mul).
  destruct (Z.leb_spec (Z.quot ((weight v + 1) * DEC_DIGITS + 0 + DEC_DIGITS - 1) DEC_DIGITS) (ndigits v)) as [Hn|Hn].
  - rewrite E0. cbn [Z.ltb Z.compare]. set (n := Z.to_nat _). assert (Hn1 : (0 < n)%nat).
    { unfold n. rewrite Z.quot_div_nonneg by (unfold DEC_DIGITS in *; lia). assert (1 <= ((weight v + 1) * DEC_DIGITS + 0 + DEC_DIGITS - 1) / DEC_DIGITS); [|lia].
      apply Z.div_le_lower_bound; unfold DEC_DIGITS in *; lia. }
    split; cbn [digits sign].
    + destruct S1 as [S1|S1]; [left|right; rewrite S1; by apply take_nil]. unfold rd in *. by rewrite lookup_take_lt.
    + intros E. apply S3. destruct (digits v); [done|]. destruct n; [lia|done].
  - split; cbn [digits sign]; [done|]. intros E. by apply S3.
Qed.

Definition one_led : led const_one.
Proof. split; split; [repeat constructor; (discriminate || reflexivity)|by left|by left|done]. Qed.

Lemma const_one_value : (value const_one == 1)%Q.
Proof. reflexivity. Qed.

Lemma normal_copy v : normal v -> normal (set_var_from_var v).
Proof. intros [[? ?] [? ? ?]]. by split; split. Qed.

(** The number without its fraction, and whether it had one. *)
Lemma whole_part v : normal v ->
  let t := trunc_var (set_var_from_var v) 0 in
  let z := Qfloor (magnitude v) in
  led t /\ dscale t = 0 /\ (value t == sgn v * inject_Z z)%Q /\ (magnitude t == inject_Z z)%Q
  /\ (inject_Z z <= magnitude v)%Q /\ (magnitude v < inject_Z z + 1)%Q /\ ((cmp_var v t =? 0) = true <-> (magnitude v == inject_Z z)%Q).
Proof.
  intros N t z. pose proof (normal_copy v N) as Nc. pose proof (trunc_var_led _ Nc) as Lt. fold t in Lt.
  destruct (trunc_var_spec (set_var_from_var v) 0 (proj1 Nc)) as (_ & Hd & Em & Hs). fold t in Hd, Em, Hs.
  change (magnitude (set_var_from_var v)) with (magnitude v) in Em. rewrite trunc_whole in Em. fold z in Em.
  assert (Ev : (value t == sgn v * inject_Z z)%Q).
  { unfold value, sgn. destruct Hs as [->|E]; [by rewrite Em|]. rewrite <- Em, (magnitude_empty t E). ring. }
  split; [done|]. split; [done|]. split; [done|]. split; [done|]. split; [apply Qfloor_le|].
  split; [pose proof (Qlt_floor (magnitude v)) as Hlt; rewrite inject_Z_plus in Hlt; exact Hlt|]. rewrite Z.eqb_eq.
  pose proof (compares_ext _ _ _ _ _ (Qeq_refl _) Ev (cmp_var_exact v t (normal_led _ N) Lt)) as Hc. unfold value, sgn in Hc.
  destruct Hc as [[-> Hc]|[[-> Hc]|[-> Hc]]]; destruct (sign v =? NUMERIC_NEG); split; intros H; (done || lra || lia).
Qed.

Lemma ceil_var_spec v : normal v -> exists r, ceil_var v = Ok r /\ var_ok r /\ dscale r = 0 /\ (value r == inject_Z (Qceiling (value v)))%Q.
Proof.
  intros N. unfold ceil_var. destruct (whole_part v N) as (Lt & Hd & Ev & Em & B1 & B2 & Hc). set (t := trunc_var (set_var_from_var v) 0) in *. set (z := Qfloor (magnitude v)) in *.
  destruct ((sign v =? NUMERIC_POS) && negb (cmp_var v t =? 0)) eqn:E.
  - apply andb_true_iff in E as [Es%Z.eqb_eq Ec%negb_true_iff]. destruct (add_var_exact t const_one Lt one_led) as (r & -> & [Hr _] & Hv & Hds & _). cbn [res_bind].
    eexists. split; [done|]. split; [destruct Hr; by split|]. split; [cbn [dscale set_var_from_var]; rewrite Hds, Hd; done|]. change (value (set_var_from_var r)) with (value r).
    rewrite Hv, Ev, const_one_value. unfold value, sgn. rewrite Es. cbn [Z.eqb NUMERIC_POS NUMERIC_NEG].
    assert (Hne : ~ (magnitude v == inject_Z z)%Q) by (rewrite <- Hc; congruence).
    rewrite (ceiling_unique _ (z + 1)); rewrite ?inject_Z_plus; change (inject_Z 1) with 1%Q; [ring|lra..|]. 
    destruct (Qlt_le_dec (inject_Z z) (magnitude v)) as [|Hle]; [lra|exfalso; apply Hne; lra].
  - cbn [res_bind]. eexists. split; [done|]. split; [destruct (proj1 Lt); by split|]. split; [exact Hd|]. change (value (set_var_from_var t)) with (value t). rewrite Ev. unfold value, sgn.
    destruct (ok_sign _ (proj1 N)) as [Es|Es]; rewrite Es in *; simpl in E |- *.
    + apply negb_false_iff in E. apply Hc in E. rewrite (ceiling_unique _ z); [ring|lra|lra].
    + rewrite (ceiling_unique _ (- z)); rewrite ?inject_Z_opp; [ring|lra|lra].
Qed.

Lemma floor_var_spec v : normal v -> exists r, floor_var v = Ok r /\ var_ok r /\ dscale r = 0 /\ (value r == inject_Z (Qfloor (value v)))%Q.
Proof.
  intros N. unfold floor_var. destruct (whole_part v N) as (Lt & Hd & Ev & Em & B1 & B2 & Hc). set (t := trunc_var (set_var_from_var v) 0) in *. set (z := Qfloor (magnitude v)) in *.
  destruct ((sign v =? NUMERIC_NEG) && negb (cmp_var v t =? 0)) eqn:E.
  - apply andb_true_iff in E as [Es%Z.eqb_eq Ec%negb_true_iff]. destruct (sub_var_exact t const_one Lt one_led) as (r & -> & [Hr _] & Hv & Hds & _). cbn [res_bind].
    eexists. split; [done|]. split; [destruct Hr; by split|]. split; [cbn [dscale set_var_from_var]; rewrite Hds, Hd; done|]. change (value (set_var_from_var r)) with (value r).
    rewrite Hv, Ev, const_one_value. unfold value, sgn. rewrite Es, Z.eqb_refl. assert (Hne : ~ (magnitude v == inject_Z z)%Q) by (rewrite <- Hc; congruence).
    rewrite (floor_unique _ (- z - 1)); unfold Z.sub; rewrite ?inject_Z_plus, ?inject_Z_opp; change (inject_Z 1) with 1%Q; [ring|lra|].
    destruct (Qlt_le_dec (inject_Z z) (magnitude v)) as [|Hle]; [lra|exfalso; apply Hne; lra].
  - cbn [res_bind]. eexists. split; [done|]. split; [destruct (proj1 Lt); by split|]. split; [exact Hd|]. change (value (set_var_from_var t)) with (value t). rewrite Ev. unfold value, sgn.
    destruct (ok_sign _ (proj1 N)) as [Es|Es]; rewrite Es in *.
    + change (NUMERIC_POS =? NUMERIC_NEG) with false. cbv iota. rewrite (floor_unique _ z); [ring|lra|lra].
    + change (NUMERIC_NEG =? NUMERIC_NEG) with true in *. cbv iota. cbn [andb] in E. apply negb_false_iff in E. apply Hc in E. rewrite (floor_unique _ (- z)); rewrite ?inject_Z_opp; [ring|lra|lra].
Qed.

Lemma whole_multiple z : multiple (inject_Z z) (tpow (- 0)).
Proof. exists z. change (tpow (- 0)) with 1%Q. ring. Qed.

Lemma packs_whole r z : (exists v, r = Ok v /\ var_ok v /\ dscale v = 0 /\ (value v == inject_Z z)%Q) -> packs (v <-! r ;; make_result v) (inject_Z z) 0.
Proof.
  intros (v & -> & Hv & Hd & Ev). cbn [res_bind]. eapply packs_ext; [exact Ev|]. apply make_result_packs; [done|done|done|]. apply multiple_value. rewrite Ev. apply whole_multiple.
Qed.

(** A function that leaves the special values alone. *)
Definition on_finite (f : Q -> Z -> number) (x : number) : number := match x with Fin q d => f q d | _ => x end.

Lemma ceil_refines n x : denotes n x -> gives (numeric_ceil n) (on_finite (fun q _ => Fin (inject_Z (Qceiling q)) 0) x).
Proof.
  intros D. unfold numeric_ceil. destruct (kinds n x D) as (-> & _). destruct x as [| | |q d]; cbn [is_fin negb on_finite]; [by eexists..|].
  apply fin_parts in D as (N & Hq & _). rewrite <- Hq. apply packs_whole, ceil_var_spec, N.
Qed.

Lemma floor_refines n x : denotes n x -> gives (numeric_floor n) (on_finite (fun q _ => Fin (inject_Z (Qfloor q)) 0) x).
Proof.
  intros D. unfold numeric_floor. destruct (kinds n x D) as (-> & _). destruct x as [| | |q d]; cbn [is_fin negb on_finite]; [by eexists..|].
  apply fin_parts in D as (N & Hq & _). rewrite <- Hq. apply packs_whole, floor_var_spec, N.
Qed.

(** ** Increment, sign, extremes *)

Lemma inc_refines n x : denotes n x -> gives (numeric_inc n) (plus x (Fin 1 0)).
Proof.
  intros D. unfold numeric_inc. destruct (kinds n x D) as (-> & _). destruct x as [| | |q d]; cbn [is_fin negb plus]; [by eexists..|].
  pose proof (fin_multiple _ _ _ D) as Hm. apply fin_parts in D as (N & Hq & Hd & B & _). apply packs_yields; [|lia|apply multiple_sum; [done|apply (whole_multiple 1)]].
  rewrite <- Hd. eapply yields_ext; [|apply (add_var_exact _ const_one (normal_led _ N) one_led)]. rewrite Hq, const_one_value. reflexivity.
Qed.

Definition sign_number (x : number) : number :=
  match x with
  | NaN => NaN
  | PInf => Fin 1 0
  | NInf => Fin (-1) 0
  | Fin q _ => Fin (match (q ?= 0)%Q with Eq => 0 | Gt => 1 | Lt => -1 end) 0
  end.

Lemma const_packs v z : (v, z) ∈ [(const_zero, 0); (const_one, 1); (const_minus_one, -1)] -> packs (make_result v) (inject_Z z) 0.
Proof.
  intros H. assert (Hv : var_ok v /\ dscale v = 0 /\ (value v == inject_Z z)%Q).
  { repeat (apply elem_of_cons in H as [[= -> ->]|H]); [..|by apply elem_of_nil in H];
      (split; [split; [repeat constructor; (discriminate || reflexivity)|cbn; auto]|split; reflexivity]). }
  destruct Hv as (Hv & Hd & Ev). eapply packs_ext; [exact Ev|]. apply make_result_packs; [done|done|done|]. apply multiple_value. rewrite Ev. apply whole_multiple.
Qed.

Lemma sign_refines n x : denotes n x -> gives (numeric_sign n) (sign_number x).
Proof.
  intros D. unfold numeric_sign. destruct (kinds n x D) as (_ & -> & _). destruct x as [| | |q d]; cbn [sign_number].
  - by eexists.
  - rewrite (sign_internal_inf n true D). apply (const_packs const_one 1). set_solver.
  - rewrite (sign_internal_inf n false D). apply (const_packs const_minus_one (-1)). set_solver.
  - destruct (sign_internal_spec n q d D) as [[-> H]|[[-> H]|[-> H]]]; simpl.
    + assert (E : (q ?= 0)%Q = Gt) by (by apply Qgt_alt). rewrite E. apply (const_packs const_one 1). set_solver.
    + assert (E : (q ?= 0)%Q = Eq) by (by apply Qeq_alt). rewrite E. apply (const_packs const_zero 0). set_solver.
    + assert (E : (q ?= 0)%Q = Lt) by (by apply Qlt_alt). rewrite E. apply (const_packs const_minus_one (-1)). set_solver.
Qed.

(** [y] is not before [x]. *)
Definition not_before (x y : number) : Prop :=
  match x, y with Fin q1 _, Fin q2 _ => (q1 <= q2)%Q | _, _ => rank x <= rank y end.

Lemma extremes_refine n1 n2 x1 x2 : denotes n1 x1 -> denotes n2 x2 ->
  (numeric_smaller n1 n2 = n1 /\ not_before x1 x2 \/ numeric_smaller n1 n2 = n2 /\ not_before x2 x1)
  /\ (numeric_larger n1 n2 = n1 /\ not_before x2 x1 \/ numeric_larger n1 n2 = n2 /\ not_before x1 x2).
Proof.
  intros D1 D2. pose proof (cmp_refines n1 n2 x1 x2 D1 D2) as Hc. unfold numeric_smaller, numeric_larger. set (c := cmp_numerics n1 n2) in *. clearbody c.
  assert (H : c < 0 /\ not_before x1 x2 \/ c = 0 /\ not_before x1 x2 /\ not_before x2 x1 \/ 0 < c /\ not_before x2 x1).
  { destruct x1 as [| | |q1 d1], x2 as [| | |q2 d2]; cbn in Hc; cbn; try lia.
    destruct Hc as [[-> H]|[[-> H]|[-> H]]]; [right; right|right; left|left]; repeat split; (lia || lra). }
  destruct (Z.ltb_spec c 0), (Z.ltb_spec 0 c); (destruct H as [[? ?]|[(? & ? & ?)|[? ?]]]; [..|]; try lia; auto).
Qed.

Lemma integral_spec n q d : denotes n (Fin q d) -> numeric_is_integral n = true <-> multiple q 1.
Proof.
  intros D. unfold numeric_is_integral. destruct (kinds n _ D) as (-> & _). cbn [is_fin negb]. apply fin_parts in D as (N & Hq & _). set (v := init_var_from_num n) in *.
  rewrite <- Hq, <- multiple_value, orb_true_iff, Z.eqb_eq, Z.leb_le. change 1%Q with (bpow 0). split.
  - intros H. unfold magnitude. apply mag_multiple. destruct N as [_ [_ _ S]]. destruct H as [H|H]; unfold ndigits in H; [|lia].
    assert (E : digits v = []) by (apply nil_length_inv; lia). destruct (S E) as [_ ->]. lia.
  - intros Hm. change (bpow 0) with (tpow (- 0)) in Hm. pose proof (digits_end v 0 N ltac:(lia) Hm). right. unfold DEC_DIGITS in *. lia.
Qed.

(** ** The fewest decimal places *)

(** A digit other than zero is ten to a power times a number that does not end in zero. *)
Lemma drop_zeroes_spec fuel x m : (0 < fuel)%nat -> 0 < x < 10 ^ Z.of_nat fuel ->
  exists j y, 0 <= j < Z.of_nat fuel /\ x = y * 10 ^ j /\ y mod 10 <> 0 /\ drop_zeroes fuel x m = Ok (m - j).
Proof.
  revert x m. induction fuel as [|fuel IH]; intros x m Hf Hx; [lia|]. cbn [drop_zeroes]. rewrite Z.rem_mod_nonneg, Z.quot_div_nonneg by lia.
  pose proof (Z.div_mod x 10 ltac:(lia)) as Ed. pose proof (Z.mod_pos_bound x 10 ltac:(lia)). rewrite Nat2Z.inj_succ, Z.pow_succ_r in Hx by lia.
  destruct (Z.eqb_spec (x mod 10) 0) as [E|E].
  - destruct fuel as [|fuel]; [simpl in Hx; lia|]. destruct (IH (x / 10) (m - 1)) as (j & y & Hj & Ey & Hy & ->); [lia|lia|].
    exists (j + 1), y. split; [lia|]. split; [rewrite Z.pow_add_r, Z.pow_1_r by lia; lia|]. split; [done|]. f_equal. lia.
  - exists 0, x. split; [lia|]. split; [lia|]. split; [done|]. f_equal. lia.
Qed.

Lemma strip_nothing ds : rd ds (pred (length ds)) <> 0 \/ ds = [] -> strip_trailing (length ds) ds = length ds.
Proof. intros H. destruct (length ds) as [|n] eqn:E; [done|]. cbn [strip_trailing pred] in *. destruct H as [H| ->]; [|done]. destruct (Z.eqb_spec (rd ds n) 0); done. Qed.

(** With the last digit written that way, the number has exactly so many places. *)
Lemma least_places k y e j : y mod 10 <> 0 -> 0 <= j < DEC_DIGITS ->
  multiple (inject_Z k * bpow (e + 1) + inject_Z (y * 10 ^ j) * bpow e) (tpow (DEC_DIGITS * e + j))
  /\ ~ multiple (inject_Z k * bpow (e + 1) + inject_Z (y * 10 ^ j) * bpow e) (tpow (DEC_DIGITS * e + j + 1)).
Proof.
  intros Hy Hj. set (u := tpow (DEC_DIGITS * e + j)). set (c := k * 10 ^ (DEC_DIGITS - j) + y).
  assert (E : (inject_Z k * bpow (e + 1) + inject_Z (y * 10 ^ j) * bpow e == inject_Z c * u)%Q).
  { unfold c, u. rewrite tpow_plus, <- bpow_tpow, tpow_Z, bpow_succ, inject_Z_plus, !inject_Z_mult by lia.
    assert (Ep : (inject_Z NBASE == inject_Z (10 ^ (DEC_DIGITS - j)) * inject_Z (10 ^ j))%Q).
    { rewrite <- inject_Z_mult, <- Z.pow_add_r by lia. replace (DEC_DIGITS - j + j) with DEC_DIGITS by lia. reflexivity. }
    rewrite Ep. ring. }
  rewrite E. split; [by exists c|]. intros [l El]. rewrite tpow_plus in El. fold u in El. change (tpow 1) with (inject_Z 10) in El. pose proof (tpow_pos (DEC_DIGITS * e + j)) as Hu. fold u in Hu.
  assert (E0 : ((inject_Z c - inject_Z (l * 10)) * u == 0)%Q) by (rewrite inject_Z_mult; lra). apply Qmult_integral in E0 as [E0|E0]; [|lra].
  assert (E1 : (inject_Z c == inject_Z (l * 10))%Q) by lra. rewrite inject_Z_injective in E1. apply Hy. unfold c in E1.
  replace (DEC_DIGITS - j) with (Z.succ (DEC_DIGITS - j - 1)) in E1 by lia. rewrite Z.pow_succ_r in E1 by lia.
  replace y with ((l - k * 10 ^ (DEC_DIGITS - j - 1)) * 10) by lia. apply Z.mod_mul. done.
Qed.

(** [s] decimal places show the number, and fewer do not. *)
Definition fewest_places (q : Q) (s : Z) : Prop := 0 <= s /\ multiple q (tpow (- s)) /\ forall s', 0 <= s' < s -> ~ multiple q (tpow (- s')).

Lemma mag_last l x w : exists k, (mag (l ++ [x]) w == inject_Z k * bpow (w - Z.of_nat (length l) + 1) + inject_Z x * bpow (w - Z.of_nat (length l)))%Q.
Proof. destruct (mag_multiple l w (w - Z.of_nat (length l) + 1) ltac:(lia)) as [k Ek]. exists k. rewrite mag_snoc, Ek. reflexivity. Qed.

Lemma get_min_scale_spec v : normal v -> exists s, get_min_scale v = Ok s /\ fewest_places (magnitude v) s.
Proof.
  intros [[Hd _] [_ Hlast Hz]]. unfold get_min_scale. rewrite strip_nothing by done. destruct (decide (digits v = [])) as [E|Hne].
  { rewrite E. exists 0. split; [done|]. split; [lia|]. split; [rewrite (magnitude_empty v E); apply multiple_zero|intros; lia]. }
  destruct (exists_last Hne) as (l & x & E). rewrite E in *. rewrite length_app in *. simpl length in *.
  replace (length l + 1)%nat with (S (length l)) in * by lia. cbn [pred] in Hlast.
  assert (Ex : rd (l ++ [x]) (length l) = x) by (unfold rd; rewrite lookup_app_r, Nat.sub_diag by lia; done). rewrite Ex in *.
  apply Forall_app in Hd as [_ Hx]. inversion Hx as [|? ? [Hx0 Hx1] _]; subst. destruct Hlast as [Hx2|]; [|by destruct l].
  destruct (mag_last l x (weight v)) as [k Ek]. set (e := weight v - Z.of_nat (length l)) in *. assert (Em : magnitude v = mag (l ++ [x]) (weight v)) by (unfold magnitude; by rewrite E).
  destruct (Z.ltb_spec 0 ((Z.of_nat (length l) - weight v) * DEC_DIGITS)) as [Hpos|Hneg].
  - destruct (drop_zeroes_spec 4 x ((Z.of_nat (length l) - weight v) * DEC_DIGITS)) as (j & y & Hj & Ey & Hy & ->); [lia|change (10 ^ Z.of_nat 4) with NBASE; lia|].
    eexists. split; [done|]. destruct (least_places k y e j Hy ltac:(unfold DEC_DIGITS; lia)) as [L1 L2]. rewrite <- Ey, <- Ek, <- Em in L1, L2.
    split; [unfold DEC_DIGITS in *; lia|]. split.
    + replace (- ((Z.of_nat (length l) - weight v) * DEC_DIGITS - j)) with (DEC_DIGITS * e + j) by (unfold e; lia). exact L1.
    + intros s' Hs Hm. apply L2. eapply multiple_trans; [exact Hm|]. apply tpow_multiple. unfold e, DEC_DIGITS in *. lia.
  - exists 0. split; [done|]. split; [lia|]. split; [|intros; lia]. rewrite Em. change (tpow (- 0)) with (bpow 0). apply mag_multiple. rewrite length_app. simpl. unfold DEC_DIGITS in *. lia.
Qed.

#[export] Instance fewest_places_proper : Proper (Qeq ==> eq ==> iff) fewest_places.
Proof. intros x y E s ? <-. unfold fewest_places. setoid_rewrite E. done. Qed.

Lemma fewest_places_value v s : fewest_places (magnitude v) s -> fewest_places (value v) s.
Proof. intros (H1 & H2 & H3). split; [done|]. split; [by apply multiple_value|]. intros s' Hs Hm. apply (H3 s' Hs). by apply multiple_value. Qed.

Lemma scales_refine n q d : denotes n (Fin q d) ->
  exists s, fewest_places q s /\ s <= d /\ numeric_min_scale n = Ok (Some s) /\ gives (numeric_trim_scale n) (Fin q s).
Proof.
  intros D. unfold numeric_min_scale, numeric_trim_scale. destruct (kinds n _ D) as (-> & _). cbn [is_fin negb]. pose proof (fin_multiple _ _ _ D) as Hm.
  apply fin_parts in D as (N & Hq & _ & B & _). destruct (get_min_scale_spec _ N) as (s & -> & Hf). cbn [res_bind]. apply fewest_places_value in Hf as Hfv. rewrite Hq in Hfv.
  exists s. split; [done|]. split; [|split; [done|]].
  - destruct Hfv as (_ & _ & Hl). destruct (decide (s <= d)) as [|Hgt]; [done|]. exfalso. apply (Hl d); [lia|done].
  - eapply packs_ext; [exact Hq|]. destruct Hf as (H0 & H1 & _). apply (make_result_packs (set_dscale s (init_var_from_num n)) s); [destruct N as [[? ?] _]; by split|done|done|exact H1].
Qed.
