(* ===== verification/NumericText.v ===== *)
(** Numeric values as text: input and output functions of backend/utils/adt/numeric.c.

    Strings are as in [Numutils]: a pointer is the rest of the string, and the character
    classes are those of the C locale.  A read of decimal digits that were not set and
    text that is longer than its buffer are errors. *)

From S2P Require Import Prelude Numutils Numeric NumericFun.
Local Open Scope Z_scope.
Local Open Scope pg_scope.

Definition SYNTAX : string := "invalid input syntax for type numeric".
Definition OVERFLOW : string := "value overflows numeric format".

(** ** Input *)

(** [pg_strncasecmp(s1, s2, n) == 0] *)
Definition pg_lower (ch : Z) : Z := if (65 <=? ch) && (ch <=? 90) then ch + 32 else ch.
Fixpoint pg_strncaseeq (s1 s2 : list Z) (n : nat) : bool :=
  match n with
  | O => true
  | S n' =>
      let ch1 := deref s1 in
      let ch2 := deref s2 in
      if negb (ch1 =? ch2) && negb (pg_lower ch1 =? pg_lower ch2) then false
      else if ch1 =? 0 then true
      else pg_strncaseeq (tail s1) (tail s2) n'
  end.

(** *** Decimal numbers *)

(** The loop over the digits: the digits so far, [dweight] and [dscale], and the rest. *)
Fixpoint scan_digits (cp : list Z) (have_dp : bool) (decdigits : list Z) (dweight dscale : Z) : res (list Z * Z * Z * list Z) :=
  match cp with
  | [] => Ok (decdigits, dweight, dscale, cp)
  | c :: cp' =>
      if isdigit c then
        if negb have_dp then scan_digits cp' have_dp (decdigits ++ [c - 48]) (dweight + 1) dscale
        else scan_digits cp' have_dp (decdigits ++ [c - 48]) dweight (dscale + 1)
      else if c =? 46 then
        if have_dp then Err SYNTAX
        else if deref cp' =? 95 then Err SYNTAX
        else scan_digits cp' true decdigits dweight dscale
      else if c =? 95 then
        if negb (isdigit (deref cp')) then Err SYNTAX else scan_digits cp' have_dp decdigits dweight dscale
      else Ok (decdigits, dweight, dscale, cp)
  end.

Fixpoint scan_exponent (cp : list Z) (exponent : Z) : res (Z * list Z) :=
  match cp with
  | [] => Ok (exponent, cp)
  | c :: cp' =>
      if isdigit c then
        let exponent := exponent * 10 + (c - 48) in
        if Z.quot INT32_MAX 2 <? exponent then Err OVERFLOW else scan_exponent cp' exponent
      else if c =? 95 then
        if negb (isdigit (deref cp')) then Err SYNTAX else scan_exponent cp' exponent
      else Ok (exponent, cp)
  end.

(** [if ( *cp == 'e' || *cp == 'E')] *)
Definition exponent_part (cp : list Z) (dweight dscale : Z) : res (Z * Z * list Z) :=
  if (deref cp =? 101) || (deref cp =? 69) then
    let cp := tail cp in
    let '(neg, cp) := if deref cp =? 43 then (false, tail cp) else if deref cp =? 45 then (true, tail cp) else (false, cp) in
    if negb (isdigit (deref cp)) then Err SYNTAX
    else
      '(exponent, cp) <-! scan_exponent cp 0 ;;
      let exponent := if neg : bool then - exponent else exponent in
      let dscale := dscale - exponent in
      Ok (dweight + exponent, if dscale <? 0 then 0 else dscale, cp)
  else Ok (dweight, dscale, cp).

(** A digit of base 10000 from four decimal digits. *)
Definition group (decdigits : list Z) (i : nat) : res Z :=
  match decdigits !! i, decdigits !! (i + 1)%nat, decdigits !! (i + 2)%nat, decdigits !! (i + 3)%nat with
  | Some a, Some b, Some c, Some d => Ok (((a * 10 + b) * 10 + c) * 10 + d)
  | _, _, _, _ => Err "read of unset decimal digits"
  end.

Fixpoint group_all (n : nat) (decdigits : list Z) (i : nat) : res (list Z) :=
  match n with
  | O => Ok []
  | S n' =>
      d <-! group decdigits i ;;
      rest <-! group_all n' decdigits (i + Z.to_nat DEC_DIGITS) ;;
      Ok (d :: rest)
  end.

(** From decimal digits to base 10000; the array has zeroes in front and behind. *)
Definition from_decimal (decdigits : list Z) (dweight dscale s : Z) : res NumericVar :=
  let ddigits := Z.of_nat (length decdigits) in
  let array := replicate (Z.to_nat DEC_DIGITS) 0 ++ decdigits ++ replicate (Z.to_nat (DEC_DIGITS - 1)) 0 in
  let w :=
    if 0 <=? dweight then Z.quot (dweight + 1 + DEC_DIGITS - 1) DEC_DIGITS - 1
    else - (Z.quot (- dweight - 1) DEC_DIGITS + 1) in
  let offset := (w + 1) * DEC_DIGITS - (dweight + 1) in
  let n := Z.quot (ddigits + offset + DEC_DIGITS - 1) DEC_DIGITS in
  ds <-! group_all (Z.to_nat n) array (Z.to_nat (DEC_DIGITS - offset)) ;;
  Ok (strip_var (mk_var [0] ds w s dscale)).

Definition set_var_from_str (cp : list Z) : res (NumericVar * list Z) :=
  let '(s, cp) := if deref cp =? 43 then (NUMERIC_POS, tail cp) else if deref cp =? 45 then (NUMERIC_NEG, tail cp) else (NUMERIC_POS, cp) in
  let '(have_dp, cp) := if deref cp =? 46 then (true, tail cp) else (false, cp) in
  if negb (isdigit (deref cp)) then Err SYNTAX
  else
    '(decdigits, dweight, dscale, cp) <-! scan_digits cp have_dp [] (-1) 0 ;;
    '(dweight, dscale, cp) <-! exponent_part cp dweight dscale ;;
    dest <-! from_decimal decdigits dweight dscale s ;;
    Ok (dest, cp).

(** *** Hexadecimal, octal and binary integers *)

Definition SHRT_MAX : Z := 2 ^ 15 - 1.
Definition PG_INT64_MAX : Z := 2 ^ 63 - 1.

Definition xdigit_value (dig : Z) : Z :=
  if (48 <=? dig) && (dig <=? 57) then dig - 48
  else if (97 <=? dig) && (dig <=? 102) then dig - 97 + 10
  else if (65 <=? dig) && (dig <=? 70) then dig - 65 + 10
  else -1.

Definition int64 (x : Z) : res Z := match s64 x with Some x => Ok x | None => Err "integer overflow" end.

(** Add the contribution of a group of digits; [cells] is what new digits hold. *)
Definition add_group (cells : list Z) (dest : NumericVar) (mul tmp : Z) : res NumericVar :=
  tmp_var <-! int64_to_numericvar cells mul ;;
  dest <-! mul_var dest tmp_var 0 ;;
  tmp_var <-! int64_to_numericvar cells tmp ;;
  dest <-! add_var dest tmp_var ;;
  if SHRT_MAX <? weight dest then Err OVERFLOW else Ok dest.

(** The loops for the three bases differ in the base, the digits and their values. *)
Fixpoint scan_based (cells : list Z) (base : Z) (isdig : Z -> bool) (val : Z -> Z) (cp : list Z) (dest : NumericVar) (tmp mul : Z)
    : res (NumericVar * Z * Z * list Z) :=
  match cp with
  | [] => Ok (dest, tmp, mul, cp)
  | c :: cp' =>
      if isdig c then
        '(dest, tmp, mul) <-!
          (if Z.quot PG_INT64_MAX base <? mul then dest <-! add_group cells dest mul tmp ;; Ok (dest, 0, 1) else Ok (dest, tmp, mul)) ;;
        tmp <-! int64 (tmp * base + val c) ;;
        mul <-! int64 (mul * base) ;;
        scan_based cells base isdig val cp' dest tmp mul
      else if c =? 95 then
        if negb (isdig (deref cp')) then Err SYNTAX else scan_based cells base isdig val cp' dest tmp mul
      else Ok (dest, tmp, mul, cp)
  end.

Definition set_var_from_non_decimal_integer_str (cells cp : list Z) (s base : Z) : res (NumericVar * list Z) :=
  let firstdigit := cp in
  let dest := zero_var 0 in
  '(dest, tmp, mul, cp) <-!
    (if base =? 16 then scan_based cells 16 isxdigit xdigit_value cp dest 0 1
     else if base =? 8 then scan_based cells 8 isodigit decval cp dest 0 1
     else if base =? 2 then scan_based cells 2 isbdigit decval cp dest 0 1
     else Err SYNTAX) ;;
  if (length cp =? length firstdigit)%nat then Err SYNTAX
  else
    dest <-! add_group cells dest mul tmp ;;
    Ok (set_sign s dest, cp).

(** *** [numeric_in] *)

(** [while ( *cp) if (!isspace( *cp)) goto invalid_syntax] *)
Definition only_spaces (cp : list Z) : res unit := if deref (skip_spaces cp) =? 0 then Ok tt else Err SYNTAX.

Definition base_of (cp : list Z) : Z :=
  if deref cp =? 48 then
    let c := deref (tail cp) in
    if (c =? 120) || (c =? 88) then 16 else if (c =? 111) || (c =? 79) then 8 else if (c =? 98) || (c =? 66) then 2 else 10
  else 10.

Definition numeric_in (cells str : list Z) (typmod : Z) : res Numeric :=
  let cp := skip_spaces str in
  let numstart := cp in
  let '(s, cp) := if deref cp =? 43 then (NUMERIC_POS, tail cp) else if deref cp =? 45 then (NUMERIC_NEG, tail cp) else (NUMERIC_POS, cp) in
  if negb (isdigit (deref cp)) && negb (deref cp =? 46) then
    let inf := if s =? NUMERIC_POS then const_pinf else const_ninf in
    '(special, cp) <-!
      (if pg_strncaseeq numstart (codes "NaN") 3 then Ok (const_nan, drop 3 numstart)
       else if pg_strncaseeq cp (codes "Infinity") 8 then Ok (inf, drop 8 cp)
       else if pg_strncaseeq cp (codes "inf") 3 then Ok (inf, drop 3 cp)
       else Err SYNTAX) ;;
    res <-! make_result special ;;
    _ <-! only_spaces cp ;;
    _ <-! apply_typmod_special res typmod ;;
    Ok res
  else
    let base := base_of cp in
    '(value, cp) <-!
      (if base =? 10 then '(value, cp) <-! set_var_from_str cp ;; Ok (set_sign s value, cp)
       else set_var_from_non_decimal_integer_str cells (drop 2 cp) s base) ;;
    _ <-! only_spaces cp ;;
    value <-! apply_typmod value typmod ;;
    make_result value.

(** ** Output *)

(** A digit of base 10000 as text; without [putit] leading zeroes but the last are left
    out. *)
Definition digit_text (putit : bool) (dig : Z) : list Z :=
  let d1 := Z.quot dig 1000 in
  let dig := dig - d1 * 1000 in
  let putit1 := putit || (0 <? d1) in
  let d2 := Z.quot dig 100 in
  let dig := dig - d2 * 100 in
  let putit2 := putit1 || (0 <? d2) in
  let d3 := Z.quot dig 10 in
  let dig := dig - d3 * 10 in
  let putit3 := putit2 || (0 <? d3) in
  (if putit1 then [d1 + 48] else []) ++ (if putit2 then [d2 + 48] else []) ++ (if putit3 then [d3 + 48] else []) ++ [dig + 48].

Definition integer_text (var : NumericVar) : list Z :=
  if weight var <? 0 then [48]
  else flat_map (fun d => digit_text (0 <? d) (digit_or_zero (digits var) d)) (seqZ 0 (weight var + 1)).

(** [for (i = 0; i < dscale; d++, i += DEC_DIGITS)] *)
Definition fraction_text (var : NumericVar) : list Z :=
  flat_map (fun d => digit_text true (digit_or_zero (digits var) d)) (seqZ (weight var + 1) (Z.quot (dscale var + DEC_DIGITS - 1) DEC_DIGITS)).

Definition get_str_from_var (var : NumericVar) : res (list Z) :=
  let i := Z.max 1 ((weight var + 1) * DEC_DIGITS) in
  let room := i + dscale var + DEC_DIGITS + 2 in
  let front := (if sign var =? NUMERIC_NEG then [45] else []) ++ integer_text var in
  let '(written, text) :=
    if 0 <? dscale var then (front ++ 46 :: fraction_text var, front ++ 46 :: take (Z.to_nat (dscale var)) (fraction_text var))
    else (front, front) in
  if room <? Z.max (Z.of_nat (length written)) (Z.of_nat (length text) + 1) then Err "text longer than its buffer" else Ok text.

Definition numeric_out (num : Numeric) : res (list Z) :=
  if NUMERIC_IS_SPECIAL num then
    if NUMERIC_IS_PINF num then Ok (codes "Infinity") else if NUMERIC_IS_NINF num then Ok (codes "-Infinity") else Ok (codes "NaN")
  else get_str_from_var (init_var_from_num num).

Example reads_exponent : numeric_in [] (codes " -12_3.4500e-3 ") (-1) = Ok (mk_numeric 0xA3FF 0 [1234; 5000]).
Proof. vm_compute. reflexivity. Qed.

Example reads_hexadecimal : numeric_in (replicate 5 0) (codes "0x1_0000000000000000") (-1) = Ok (mk_numeric 0x8004 0 [1844; 6744; 737; 955; 1616]).
Proof. vm_compute. reflexivity. Qed.

Example prints_zeroes : (n <-! numeric_in [] (codes "1200003.0405060") (-1) ;; numeric_out n) = Ok (codes "1200003.0405060").
Proof. vm_compute. reflexivity. Qed.
