(* ===== verification/NumericPrint.v ===== *)
(** The text of a value: its decimal digits, as many as the display scale says. *)

From S2P Require Import Prelude Numutils Numeric NumericArith NumericRound NumericMul NumericPack NumericNum NumericTimes NumericInt NumericFun NumericType NumericText.
Local Open Scope Z_scope.
Local Open Scope pg_scope.

(** ** Decimal digits *)

Definition is_decimal (d : Z) : Prop := 0 <= d < 10.

(** The number that decimal digits write. *)
Definition dval (l : list Z) : Z := fold_left (fun a d => a * 10 + d) l 0.

Definition chars (l : list Z) : list Z := map (fun d => d + 48) l.

Lemma fold_dval l a : fold_left (fun a d => a * 10 + d) l a = a * 10 ^ Z.of_nat (length l) + dval l.
Proof.
  unfold dval. revert a. induction l as [|d l IH]; intros a; [simpl; lia|]. cbn [fold_left length]. rewrite IH, (IH (0 * 10 + d)), Nat2Z.inj_succ, Z.pow_succ_r by lia. ring.
Qed.

Lemma dval_app a b : dval (a ++ b) = dval a * 10 ^ Z.of_nat (length b) + dval b.
Proof. unfold dval at 1. rewrite fold_left_app, fold_dval. reflexivity. Qed.

Lemma dval_bounds l : Forall is_decimal l -> 0 <= dval l < 10 ^ Z.of_nat (length l).
Proof.
  induction l as [|d l IH] using rev_ind; intros H; [simpl; unfold dval; simpl; lia|]. apply Forall_app in H as [Hl Hd]. inversion Hd as [|? ? [H0 H1] _]; subst.
  specialize (IH Hl). rewrite dval_app, length_app. simpl length. change (dval [d]) with (0 * 10 + d). rewrite Nat2Z.inj_add, Z.pow_add_r, !Z.pow_1_r by lia. lia.
Qed.

(** ** The text of one digit *)

Definition first_not_zero (l : list Z) : Prop := length l = 1%nat \/ rd l 0 <> 0.

Definition digit_text_ok (b : bool) (x : Z) : bool :=
  let l := map (fun c => c - 48) (digit_text b x) in
  (dval l =? x) && forallb (fun d => (0 <=? d) && (d <? 10)) l && (1 <=? length l)%nat && (length l <=? 4)%nat
  && (if b then (length l =? 4)%nat else (length l =? 1)%nat || negb (rd l 0 =? 0)).

(** All of them, by evaluation. *)
Lemma digit_texts_checked : forallb (fun b => forallb (fun i => forallb (fun j => digit_text_ok b (100 * i + j)) (seqZ 0 100)) (seqZ 0 100)) [true; false] = true.
Proof. vm_compute. reflexivity. Qed.

Lemma chars_back t : chars (map (fun c => c - 48) t) = t.
Proof. unfold chars. rewrite map_map. rewrite <- (map_id t) at 2. apply map_ext. intros; lia. Qed.

Lemma digit_text_spec b x : is_digit x -> exists l, digit_text b x = chars l /\ Forall is_decimal l /\ dval l = x /\ (1 <= length l <= 4)%nat
  /\ (if b then length l = 4%nat else first_not_zero l).
Proof.
  intros [H0 H1]. unfold NBASE in H1. pose proof (Z.div_mod x 100 ltac:(lia)) as E. pose proof (Z.mod_pos_bound x 100 ltac:(lia)).
  assert (Hi : x / 100 ∈ seqZ 0 100) by (apply elem_of_seqZ; lia). assert (Hj : x mod 100 ∈ seqZ 0 100) by (apply elem_of_seqZ; lia). assert (Hb : b ∈ [true; false]) by (destruct b; set_solver).
  pose proof (forallb_elem _ _ _ (forallb_elem _ _ _ (forallb_elem _ _ _ digit_texts_checked Hb) Hi) Hj) as H'. cbv beta in H'. rewrite <- E in H'.
  unfold digit_text_ok in H'. exists (map (fun c => c - 48) (digit_text b x)). set (l := map _ (digit_text b x)) in *. rewrite !andb_true_iff, Z.eqb_eq, !Nat.leb_le in H'. destruct H' as [[[[A1 A2] A3] A4] A5].
  split; [symmetry; apply chars_back|]. split.
  - apply Forall_forall. intros d Hd. apply (forallb_elem _ _ d) in A2; [|done]. apply andb_true_iff in A2 as [B1%Z.leb_le B2%Z.ltb_lt]. done.
  - split; [done|]. split; [done|]. destruct b; [by apply Nat.eqb_eq|]. apply orb_true_iff in A5 as [A5%Nat.eqb_eq|A5%negb_true_iff]; [by left|right]. by apply Z.eqb_neq.
Qed.

(** ** Runs of digits *)

Lemma digits_text xs : digits_ok xs -> exists l, flat_map (digit_text true) xs = chars l /\ Forall is_decimal l /\ length l = (4 * length xs)%nat
  /\ (inject_Z (dval l) == mag xs (Z.of_nat (length xs) - 1))%Q.
Proof.
  induction xs as [|x xs IH]; intros H.
  - exists []. split; [done|]. split; [constructor|]. split; [done|]. reflexivity.
  - inversion H as [|? ? Hx Hxs]; subst. destruct (IH Hxs) as (l & E & Hl & Hn & Ev). destruct (digit_text_spec true x Hx) as (k & Ek & Hk & Hv & _ & Hn4).
    exists (k ++ l). split; [cbn [flat_map]; rewrite E, Ek; unfold chars; by rewrite map_app|]. split; [by apply Forall_app|]. split; [rewrite length_app; simpl length; lia|].
    rewrite dval_app, Hv, inject_Z_plus, inject_Z_mult, Ev. cbn [mag length]. replace (Z.of_nat (S (length xs)) - 1) with (Z.of_nat (length xs)) by lia.
    rewrite bpow_tpow, tpow_Z, Hn by (unfold DEC_DIGITS; lia). replace (DEC_DIGITS * Z.of_nat (length xs)) with (Z.of_nat (4 * length xs)) by (unfold DEC_DIGITS; lia). reflexivity.
Qed.

(** The first one without leading zeroes. *)
Lemma leading_text x xs : is_digit x -> digits_ok xs -> exists l, digit_text false x ++ flat_map (digit_text true) xs = chars l /\ Forall is_decimal l
  /\ (1 <= length l <= 4 * length (x :: xs))%nat /\ (first_not_zero l \/ x = 0) /\ (inject_Z (dval l) == mag (x :: xs) (Z.of_nat (length xs)))%Q.
Proof.
  intros Hx Hxs. destruct (digits_text xs Hxs) as (l & E & Hl & Hn & Ev). destruct (digit_text_spec false x Hx) as (k & Ek & Hk & Hv & Hn4 & Hf). exists (k ++ l).
  split; [rewrite E, Ek; unfold chars; by rewrite map_app|]. split; [by apply Forall_app|]. split; [rewrite length_app; simpl length; lia|]. split.
  - destruct (decide (x = 0)) as [->|Hne]; [by right|left]. right. destruct k as [|d k]; [simpl in Hn4; lia|]. unfold rd. simpl. destruct Hf as [Hf|Hf]; [|exact Hf].
    simpl in Hf. destruct k; [|done]. change (dval [d]) with (0 * 10 + d) in Hv. lia.
  - rewrite dval_app, Hv, inject_Z_plus, inject_Z_mult, Ev. cbn [mag]. rewrite bpow_tpow, tpow_Z, Hn by (unfold DEC_DIGITS; lia).
    replace (DEC_DIGITS * Z.of_nat (length xs)) with (Z.of_nat (4 * length xs)) by (unfold DEC_DIGITS; lia). reflexivity.
Qed.

(** Digits of a variable from position [a] on. *)
Definition from_to (ds : list Z) (a n : Z) : list Z := map (digit_or_zero ds) (seqZ a n).

Lemma from_to_ok ds a n : digits_ok ds -> digits_ok (from_to ds a n).
Proof. intros H. unfold from_to, digits_ok. apply Forall_map, Forall_forall. intros i _. by apply digit_or_zero_ok. Qed.

Lemma from_to_window ds a n : from_to ds a n = window ds a (Z.to_nat n).
Proof. unfold from_to, window, seqZ. rewrite map_map. done. Qed.

Lemma from_to_app ds a m n : 0 <= m -> 0 <= n -> from_to ds a (m + n) = from_to ds a m ++ from_to ds (a + m) n.
Proof. intros Hm Hn. unfold from_to. rewrite seqZ_app by done. apply map_app. Qed.

Lemma length_from_to ds a n : length (from_to ds a n) = Z.to_nat n.
Proof. unfold from_to. rewrite length_map. apply length_seqZ. Qed.

Lemma flat_map_from_to (f : Z -> list Z) ds a n : flat_map (fun d => f (digit_or_zero ds d)) (seqZ a n) = flat_map f (from_to ds a n).
Proof. unfold from_to. generalize (seqZ a n). intros l. induction l as [|d l IH]; [done|]. cbn [flat_map map]. by rewrite IH. Qed.

(** ** The parts of the text *)

Lemma integer_text_spec v : normal v -> exists l, integer_text v = chars l /\ Forall is_decimal l /\ (1 <= length l)%nat
  /\ Z.of_nat (length l) <= Z.max 1 ((weight v + 1) * DEC_DIGITS) /\ first_not_zero l
  /\ (inject_Z (dval l) == mag (from_to (digits v) 0 (weight v + 1)) (weight v))%Q.
Proof.
  intros [[Hd _] [S1 _ S3]]. unfold integer_text. destruct (Z.ltb_spec (weight v) 0) as [Hw|Hw].
  - exists [0]. split; [done|]. split; [by repeat constructor|]. split; [done|]. split; [simpl; lia|]. split; [by left|].
    unfold from_to. rewrite seqZ_nil by lia. reflexivity.
  - rewrite (seqZ_cons 0 (weight v + 1)) by lia. cbn [flat_map Z.ltb Z.compare]. set (x := digit_or_zero (digits v) 0).
    assert (Erest : flat_map (fun d => digit_text (0 <? d) (digit_or_zero (digits v) d)) (seqZ (Z.succ 0) (Z.pred (weight v + 1))) = flat_map (digit_text true) (from_to (digits v) 1 (weight v))).
    { replace (Z.pred (weight v + 1)) with (weight v) by lia. rewrite <- flat_map_from_to. rewrite !flat_map_concat_map. f_equal. apply map_ext_in. intros d Hin. apply list_elem_of_In, elem_of_seqZ in Hin.
      destruct (Z.ltb_spec 0 d); [done|lia]. }
    rewrite Erest. destruct (leading_text x (from_to (digits v) 1 (weight v))) as (l & E & Hl & Hn & Hf & Ev); [by apply digit_or_zero_ok|by apply from_to_ok|].
    simpl length in Hn. rewrite length_from_to in Hn, Ev. exists l. split; [exact E|]. split; [done|]. split; [lia|]. split; [unfold DEC_DIGITS; lia|]. split.
    + destruct Hf as [Hf|Hf]; [done|]. left. unfold x, digit_or_zero in Hf. destruct (digits v) as [|d ds] eqn:Ed.
      * destruct (S3 eq_refl) as [_ Ew]. rewrite Ew in E. unfold from_to in E. change (seqZ 1 0) with (@nil Z) in E. cbn in E. destruct l as [|? [|]]; done.
      * simpl in Hf. destruct S1 as [S1|]; done.
    + rewrite Ev. replace (weight v + 1) with (1 + weight v) by lia. rewrite from_to_app by lia. cbn [mag]. rewrite Z2Nat.id by lia. reflexivity.
Qed.

Lemma fraction_text_spec v : digits_ok (digits v) -> let nf := Z.quot (dscale v + DEC_DIGITS - 1) DEC_DIGITS in 0 <= nf ->
  exists l, fraction_text v = chars l /\ Forall is_decimal l /\ Z.of_nat (length l) = DEC_DIGITS * nf
  /\ (inject_Z (dval l) * tpow (- (DEC_DIGITS * nf)) == mag (from_to (digits v) (weight v + 1) nf) (-1))%Q.
Proof.
  intros Hd nf Hnf. unfold fraction_text. fold nf. rewrite (flat_map_from_to (digit_text true)).
  destruct (digits_text (from_to (digits v) (weight v + 1) nf) (from_to_ok _ _ _ Hd)) as (l & E & Hl & Hn & Ev). rewrite length_from_to in Hn, Ev. exists l.
  split; [done|]. split; [done|]. split; [unfold DEC_DIGITS; lia|]. rewrite Ev, Z2Nat.id by lia. replace (- (DEC_DIGITS * nf)) with (DEC_DIGITS * - nf) by lia. rewrite <- bpow_tpow.
  replace (-1) with (nf - 1 + - nf) by lia. rewrite mag_shift. ring.
Qed.

(** Together they are the whole number. *)
Lemma parts_magnitude v : normal v -> 0 <= dscale v -> multiple (magnitude v) (tpow (- dscale v)) ->
  let nf := Z.quot (dscale v + DEC_DIGITS - 1) DEC_DIGITS in
  0 <= nf /\ dscale v <= DEC_DIGITS * nf <= dscale v + 3
  /\ (magnitude v == mag (from_to (digits v) 0 (weight v + 1)) (weight v) + mag (from_to (digits v) (weight v + 1) nf) (-1))%Q.
Proof.
  intros N Hd Hm. pose proof (digits_end v (dscale v) N Hd Hm) as He. rewrite Z.quot_div_nonneg by (unfold DEC_DIGITS; lia).
  pose proof (Z.div_mod (dscale v + DEC_DIGITS - 1) DEC_DIGITS ltac:(done)). pose proof (Z.mod_pos_bound (dscale v + DEC_DIGITS - 1) DEC_DIGITS ltac:(done)).
  set (nf := (dscale v + DEC_DIGITS - 1) / DEC_DIGITS) in *. clearbody nf. unfold DEC_DIGITS in *. split; [lia|]. split; [lia|]. unfold ndigits in He.
  destruct (Z.ltb_spec (weight v) 0) as [Hw|Hw].
  - rewrite !from_to_window. replace (Z.to_nat (weight v + 1)) with 0%nat by lia. cbn [window seq map mag]. rewrite mag_window by lia.
    replace (-1 + (weight v + 1)) with (weight v) by lia. unfold magnitude. ring.
  - assert (E : (mag (from_to (digits v) 0 ((weight v + 1) + nf)) (weight v) == magnitude v)%Q) by (rewrite from_to_window, mag_window by lia; rewrite Z.add_0_r; reflexivity).
    rewrite <- E, from_to_app, mag_app, length_from_to by lia. replace (weight v - Z.of_nat (Z.to_nat (weight v + 1))) with (-1) by lia. reflexivity.
Qed.

(** What is cut off are zeroes. *)
Lemma cut_zeroes m i l (d k : nat) : multiple m (tpow (- Z.of_nat d)) -> length l = (d + k)%nat -> Forall is_decimal l ->
  (m == inject_Z i + inject_Z (dval l) * tpow (- Z.of_nat (d + k)))%Q -> (m == inject_Z i + inject_Z (dval (take d l)) * tpow (- Z.of_nat d))%Q.
Proof.
  intros Hm Hl Hok E. rewrite <- (take_drop d l), dval_app in E. assert (Hr : Forall is_decimal (drop d l)) by (by apply Forall_drop). apply dval_bounds in Hr.
  rewrite length_drop, Hl in *. replace (d + k - d)%nat with k in * by lia. set (r := dval (drop d l)) in *. set (a := dval (take d l)) in *. clearbody r a.
  assert (Eu : (tpow (- Z.of_nat d) == inject_Z (10 ^ Z.of_nat k) * tpow (- Z.of_nat (d + k)))%Q).
  { rewrite <- tpow_Z, <- tpow_plus by lia. replace (Z.of_nat k + - Z.of_nat (d + k)) with (- Z.of_nat d) by lia. reflexivity. }
  rewrite inject_Z_plus, inject_Z_mult in E. pose proof (tpow_pos (- Z.of_nat (d + k))) as Hu. set (u := tpow (- Z.of_nat (d + k))) in *.
  assert (Hmr : multiple (inject_Z r * u) (tpow (- Z.of_nat d))).
  { assert (Er : (inject_Z r * u == m - (inject_Z i + inject_Z a * tpow (- Z.of_nat d)))%Q) by (rewrite E, Eu; ring). rewrite Er. apply multiple_minus; [done|]. apply multiple_plus; [|by exists a].
    exists (i * 10 ^ Z.of_nat d). rewrite inject_Z_mult, <- (tpow_Z (Z.of_nat d)) by lia. rewrite <- Qmult_assoc, <- tpow_plus. replace (Z.of_nat d + - Z.of_nat d) with 0 by lia. change (tpow 0) with 1%Q. ring. }
  assert (Hr0 : r = 0); [|rewrite E, Eu, Hr0; change (inject_Z 0) with 0%Q; ring].
  destruct (decide (r = 0)) as [|Hne]; [done|]. exfalso. assert (Hpos : (0 < inject_Z r * u)%Q) by (pose proof (inject_Z_ge r ltac:(lia)); nra).
  pose proof (multiple_least _ _ Hpos (tpow_pos _) Hmr) as Hle. rewrite Eu in Hle. assert (inject_Z r + 1 <= inject_Z (10 ^ Z.of_nat k))%Q by (change 1%Q with (inject_Z 1); rewrite <- inject_Z_plus, <- Zle_Qle; lia). nra.
Qed.

(** ** The text *)

(** Sign, digits, and a point with digits after it if there are any. *)
Definition decimal_text (neg : bool) (int frac : list Z) : list Z :=
  (if neg then [45] else []) ++ chars int ++ match frac with [] => [] | _ => 46 :: chars frac end.

(** Digits that write the magnitude of [v] with [dscale v] places and no superfluous zero
    in front. *)
Record writes (v : NumericVar) (int frac : list Z) : Prop := {
  wr_int : Forall is_decimal int;
  wr_frac : Forall is_decimal frac;
  wr_some : int <> [];
  wr_first : first_not_zero int;
  wr_scale : Z.of_nat (length frac) = dscale v;
  wr_value : (magnitude v == inject_Z (dval (int ++ frac)) * tpow (- dscale v))%Q
}.

Lemma get_str_spec v : normal v -> 0 <= dscale v -> multiple (magnitude v) (tpow (- dscale v)) ->
  exists int frac, get_str_from_var v = Ok (decimal_text (sign v =? NUMERIC_NEG) int frac) /\ writes v int frac.
Proof.
  intros N Hd Hm. destruct (integer_text_spec v N) as (int & Ei & Hi & Hi1 & Hi2 & Hif & Evi). destruct (parts_magnitude v N Hd Hm) as (Hnf & Hb & Em).
  destruct (fraction_text_spec v (ok_digits _ (proj1 N)) Hnf) as (l & El & Hl & Hn & Evl). set (nf := Z.quot _ _) in *. rewrite <- Evi, <- Evl in Em. clearbody nf.
  set (d := Z.to_nat (dscale v)). set (k := (length l - d)%nat). assert (Ed : Z.of_nat d = dscale v) by (unfold d; lia). assert (Hk : length l = (d + k)%nat) by (unfold k; lia).
  replace (DEC_DIGITS * nf) with (Z.of_nat (d + k)) in Em by lia. rewrite <- Ed in Hm. pose proof (cut_zeroes _ _ _ _ _ Hm Hk Hl Em) as Ec.
  assert (Hlt : length (take d l) = d) by (rewrite length_take; lia).
  exists int, (take d l). split.
  - unfold get_str_from_var. rewrite Ei, El. assert (Et : take (Z.to_nat (dscale v)) (chars l) = chars (take d l)) by (apply firstn_map). rewrite Et.
    set (sg := if sign v =? NUMERIC_NEG then [45] else []). assert (Hsg : (length sg <= 1)%nat) by (unfold sg; destruct (_ =? _); simpl; lia).
    assert (Hlc : forall x, length (chars x) = length x) by (intros; apply length_map). unfold decimal_text. destruct (Z.ltb_spec 0 (dscale v)) as [Hpos|Hz].
    + rewrite <- !(app_assoc sg). assert (Hne : exists y ys, take d l = y :: ys) by (destruct (take d l); [simpl in Hlt; lia|by eexists _, _]). destruct Hne as (y & ys & Ey).
      cbv zeta beta iota. match goal with |- context [?a <? ?b] => destruct (Z.ltb_spec a b) as [Hbad|_] end; [exfalso|rewrite Ey; done]. rewrite !length_app in Hbad. cbn [length] in Hbad. rewrite !Hlc, Hlt in Hbad. unfold DEC_DIGITS in *. lia.
    + assert (d = 0%nat) as Ed0 by lia. rewrite Ed0, take_0. cbn [app]. rewrite app_nil_r. cbv zeta beta iota. match goal with |- context [?a <? ?b] => destruct (Z.ltb_spec a b) as [Hbad|_] end; [exfalso|done].
      rewrite !length_app, Hlc in Hbad. unfold DEC_DIGITS in *. lia.
  - split; [done|by apply Forall_take|destruct int; [simpl in Hi1; lia|done]|done|lia|]. rewrite Ec, dval_app, Hlt, inject_Z_plus, inject_Z_mult, <- Ed, <- tpow_Z by lia.
    assert (E1 : (tpow (Z.of_nat d) * tpow (- Z.of_nat d) == 1)%Q) by (rewrite <- tpow_plus; replace (Z.of_nat d + - Z.of_nat d) with 0 by lia; reflexivity).
    transitivity (inject_Z (dval int) * (tpow (Z.of_nat d) * tpow (- Z.of_nat d)) + inject_Z (dval (take d l)) * tpow (- Z.of_nat d))%Q; [rewrite E1; ring|ring].
Qed.
