(* ===== verification/NumericParse.v ===== *)
(** Reading text: decimal literals get exactly the value that they write. *)

From S2P Require Import Prelude Numutils NumutilsProps Numeric NumericArith NumericRound NumericMul NumericPack NumericNum NumericTimes NumericInt NumericFun NumericType NumericText NumericPrint.
Local Open Scope Z_scope.
Local Open Scope pg_scope.

(** ** From decimal digits to base 10000 *)

Lemma dval_zeroes n l : dval (replicate n 0 ++ l) = dval l.
Proof. rewrite dval_app. assert (E : dval (replicate n 0) = 0); [|lia]. induction n as [|n IH]; [done|]. rewrite replicate_S_end, dval_app, IH. reflexivity. Qed.

Lemma dval_pad l n : dval (l ++ replicate n 0) = dval l * 10 ^ Z.of_nat n.
Proof. rewrite dval_app, length_replicate. replace (dval (replicate n 0)) with 0; [lia|]. rewrite <- (app_nil_r (replicate n 0)), dval_zeroes. done. Qed.

Lemma group_all_spec n a i : Forall is_decimal a -> (i + 4 * n <= length a)%nat ->
  exists ds, group_all n a i = Ok ds /\ length ds = n /\ digits_ok ds /\ (mag ds (Z.of_nat n - 1) == inject_Z (dval (take (4 * n) (drop i a))))%Q.
Proof.
  intros Ha. revert i. induction n as [|n IH]; intros i Hi; cbn [group_all].
  - exists []. split; [done|]. split; [done|]. split; [constructor|]. reflexivity.
  - destruct (lookup_lt_is_Some_2 a i ltac:(lia)) as [x0 E0]. destruct (lookup_lt_is_Some_2 a (i + 1) ltac:(lia)) as [x1 E1].
    destruct (lookup_lt_is_Some_2 a (i + 2) ltac:(lia)) as [x2 E2]. destruct (lookup_lt_is_Some_2 a (i + 3) ltac:(lia)) as [x3 E3].
    unfold group. rewrite E0, E1, E2, E3. cbn [res_bind]. change (Z.to_nat DEC_DIGITS) with 4%nat. destruct (IH (i + 4)%nat ltac:(lia)) as (ds & -> & Hl & Hok & Em). cbn [res_bind].
    set (x := ((x0 * 10 + x1) * 10 + x2) * 10 + x3). exists (x :: ds). split; [done|]. split; [simpl; lia|].
    assert (Hx : is_digit x).
    { rewrite Forall_lookup in Ha. pose proof (Ha _ _ E0) as [? ?]. pose proof (Ha _ _ E1) as [? ?]. pose proof (Ha _ _ E2) as [? ?]. pose proof (Ha _ _ E3) as [? ?]. unfold is_digit, NBASE, x. lia. }
    split; [by constructor|].
    assert (Et : take (4 * S n) (drop i a) = [x0; x1; x2; x3] ++ take (4 * n) (drop (i + 4) a)).
    { replace (4 * S n)%nat with (S (S (S (S (4 * n))))) by lia. rewrite (drop_S a x0 i E0). rewrite (drop_S a x1 (S i)) by (by replace (S i) with (i + 1)%nat by lia).
      rewrite (drop_S a x2 (S (S i))) by (by replace (S (S i)) with (i + 2)%nat by lia). rewrite (drop_S a x3 (S (S (S i)))) by (by replace (S (S (S i))) with (i + 3)%nat by lia).
      replace (i + 4)%nat with (S (S (S (S i)))) by lia. done. }
    assert (Hlen : length (take (4 * n) (drop (i + 4) a)) = (4 * n)%nat) by (rewrite length_take, length_drop; lia).
    rewrite Et, dval_app, Hlen. change (dval [x0; x1; x2; x3]) with ((((0 * 10 + x0) * 10 + x1) * 10 + x2) * 10 + x3). replace ((((0 * 10 + x0) * 10 + x1) * 10 + x2) * 10 + x3) with x by (unfold x; lia).
    rewrite inject_Z_plus, inject_Z_mult, <- Em, <- tpow_Z by lia. cbn [mag]. replace (Z.of_nat (S n) - 1) with (Z.of_nat n) by lia.
    rewrite bpow_tpow. replace (DEC_DIGITS * Z.of_nat n) with (Z.of_nat (4 * n)) by (unfold DEC_DIGITS; lia). reflexivity.
Qed.

Lemma take_pad (l : list Z) (off p : nat) : (off <= 4)%nat -> (p <= 3)%nat ->
  take (off + length l + p) (drop (4 - off) (replicate 4 0 ++ l ++ replicate 3 0)) = replicate off 0 ++ l ++ replicate p 0.
Proof.
  intros Ho Hp. rewrite drop_app_le by (rewrite length_replicate; lia). rewrite drop_replicate. replace (4 - (4 - off))%nat with off by lia.
  rewrite take_app_ge by (rewrite length_replicate; lia). rewrite length_replicate. replace (off + length l + p - off)%nat with (length l + p)%nat by lia.
  rewrite take_app_ge by lia. replace (length l + p - length l)%nat with p by lia. rewrite take_replicate. replace (p `min` 3)%nat with p by lia. done.
Qed.

(** The weight of the first digit, and the zeroes in front of the first decimal one. *)
Lemma weight_offset dweight :
  let w := if 0 <=? dweight then Z.quot (dweight + 1 + DEC_DIGITS - 1) DEC_DIGITS - 1 else - (Z.quot (- dweight - 1) DEC_DIGITS + 1) in
  0 <= (w + 1) * DEC_DIGITS - (dweight + 1) < DEC_DIGITS.
Proof.
  unfold DEC_DIGITS. destruct (Z.leb_spec 0 dweight).
  - rewrite Z.quot_div_nonneg by lia. pose proof (Z.div_mod (dweight + 1 + 4 - 1) 4 ltac:(lia)). pose proof (Z.mod_pos_bound (dweight + 1 + 4 - 1) 4 ltac:(lia)). lia.
  - rewrite Z.quot_div_nonneg by lia. pose proof (Z.div_mod (- dweight - 1) 4 ltac:(lia)). pose proof (Z.mod_pos_bound (- dweight - 1) 4 ltac:(lia)). lia.
Qed.

Lemma from_decimal_spec dd dweight d s : Forall is_decimal dd -> s = NUMERIC_POS \/ s = NUMERIC_NEG ->
  yields (from_decimal dd dweight d s) (unit_of s * (inject_Z (dval dd) * tpow (dweight + 1 - Z.of_nat (length dd)))) d.
Proof.
  intros Hdd Hs. unfold from_decimal. pose proof (weight_offset dweight) as Ho. cbv zeta in Ho. set (w := if 0 <=? dweight then _ else _) in *. clearbody w.
  set (off := (w + 1) * DEC_DIGITS - (dweight + 1)) in *. set (n := Z.quot _ _).
  assert (Hn : 0 <= n /\ Z.of_nat (length dd) + off <= 4 * n <= Z.of_nat (length dd) + off + 3).
  { unfold n. rewrite Z.quot_div_nonneg by (unfold DEC_DIGITS in *; lia). unfold DEC_DIGITS in *. pose proof (Z.div_mod (Z.of_nat (length dd) + off + 4 - 1) 4 ltac:(lia)).
    pose proof (Z.mod_pos_bound (Z.of_nat (length dd) + off + 4 - 1) 4 ltac:(lia)). lia. }
  clearbody n. unfold DEC_DIGITS in Ho. change (Z.to_nat DEC_DIGITS) with 4%nat. change (Z.to_nat (DEC_DIGITS - 1)) with 3%nat.
  replace (Z.to_nat (DEC_DIGITS - off)) with (4 - Z.to_nat off)%nat by (unfold DEC_DIGITS; lia). set (o := Z.to_nat off). set (p := (4 * Z.to_nat n - o - length dd)%nat).
  set (arr := replicate 4 0 ++ dd ++ replicate 3 0). assert (Harr : Forall is_decimal arr) by (repeat (apply Forall_app; split); [by apply Forall_replicate|done|by apply Forall_replicate]).
  destruct (group_all_spec (Z.to_nat n) arr (4 - o)%nat Harr) as (ds & -> & Hl & Hok & Em).
  { unfold arr. rewrite !length_app, !length_replicate. unfold o. lia. }
  replace (4 * Z.to_nat n)%nat with (o + length dd + p)%nat in Em by (unfold p, o; lia). unfold arr in Em. rewrite take_pad in Em by (unfold p, o; lia). rewrite dval_zeroes, dval_pad in Em.
  cbn [res_bind]. set (v := mk_var [0] ds w s d). assert (Hv : var_ok v) by done. destruct (strip_var_spec v Hv) as (S1 & S2 & S3 & S4 & _ & _ & S7). exists (strip_var v).
  split; [done|]. split; [done|]. split; [|split; [done|left; apply S7; by exists []]]. rewrite S3. unfold value, v, sgn, magnitude. cbn [digits weight sign].
  fold (unit_of s). apply Qmult_comp; [reflexivity|]. replace w with (Z.of_nat (Z.to_nat n) - 1 + (w + 1 - n)) by lia. rewrite mag_shift, Em, inject_Z_mult, <- tpow_Z, bpow_tpow by lia.
  assert (E : (tpow (DEC_DIGITS * (w + 1 - n)) * tpow (Z.of_nat p) == tpow (dweight + 1 - Z.of_nat (length dd)))%Q).
  { rewrite <- tpow_plus. replace (DEC_DIGITS * (w + 1 - n) + Z.of_nat p) with (dweight + 1 - Z.of_nat (length dd)); [reflexivity|]. unfold p, o, off, DEC_DIGITS in *. lia. }
  rewrite <- E. ring.
Qed.

(** ** Literals *)

(** Digits, possibly with single underscores between them, and their values. *)
Inductive spelled (isdig : Z -> bool) (val : Z -> Z) : list Z -> list Z -> Prop :=
| spelled_one c : isdig c = true -> spelled isdig val [val c] [c]
| spelled_more c ds s : isdig c = true -> spelled isdig val ds s -> spelled isdig val (val c :: ds) (c :: s)
| spelled_sep c ds s : isdig c = true -> spelled isdig val ds s -> spelled isdig val (val c :: ds) (c :: 95 :: s).

Local Notation decimals := (spelled isdigit decval).

(** Digits before and after the point. *)
Inductive mantissa : list Z -> list Z -> list Z -> Prop :=
| man_int int s : decimals int s -> mantissa int [] s
| man_point int s : decimals int s -> mantissa int [] (s ++ [46])
| man_both int s frac t : decimals int s -> decimals frac t -> mantissa int frac (s ++ 46 :: t)
| man_frac frac t : decimals frac t -> mantissa [] frac (46 :: t).

Definition max_exponent : Z := Z.quot INT32_MAX 2.

Inductive exponent_text : Z -> list Z -> Prop :=
| exp_none : exponent_text 0 []
| exp_plus c sg ds s : c = 101 \/ c = 69 -> sg = [] \/ sg = [43] -> decimals ds s -> dval ds <= max_exponent -> exponent_text (dval ds) (c :: sg ++ s)
| exp_minus c ds s : c = 101 \/ c = 69 -> decimals ds s -> dval ds <= max_exponent -> exponent_text (- dval ds) (c :: 45 :: s).

Inductive sign_text : Z -> list Z -> Prop :=
| sign_none : sign_text NUMERIC_POS []
| sign_plus : sign_text NUMERIC_POS [43]
| sign_minus : sign_text NUMERIC_NEG [45].

Lemma spelled_first isdig val ds s : spelled isdig val ds s -> exists c s', s = c :: s' /\ isdig c = true.
Proof. intros [c Hc|c ds' s' Hc _|c ds' s' Hc _]; by eexists _, _. Qed.

Lemma spelled_deref isdig val ds s r : spelled isdig val ds s -> isdig (deref (s ++ r)) = true.
Proof. intros (c & s' & -> & Hc)%spelled_first. exact Hc. Qed.

Lemma isdigit_range c : isdigit c = true <-> 48 <= c <= 57.
Proof. unfold isdigit. rewrite andb_true_iff, !Z.leb_le. done. Qed.

Lemma isspace_cases c : isspace c = true -> c = 32 \/ 9 <= c <= 13.
Proof. unfold isspace. rewrite orb_true_iff, andb_true_iff, Z.eqb_eq, !Z.leb_le. done. Qed.

Lemma decimals_ok ds s : decimals ds s -> Forall is_decimal ds.
Proof. intros H. induction H as [c Hc|c ds s Hc _ IH|c ds s Hc _ IH]; constructor; auto; apply isdigit_range in Hc; unfold decval, is_decimal; lia. Qed.

(** *** Scanning digits *)

Lemma scan_run ds s r dp dd w sc : decimals ds s ->
  scan_digits (s ++ r) dp dd w sc
  = scan_digits r dp (dd ++ ds) (if dp : bool then w else w + Z.of_nat (length ds)) (if dp then sc + Z.of_nat (length ds) else sc).
Proof.
  intros H. revert dd w sc. induction H as [c Hc|c ds s Hc Hs IH|c ds s Hc Hs IH]; intros dd w sc; cbn [app scan_digits]; rewrite Hc.
  - change (c - 48) with (decval c). by destruct dp.
  - change (c - 48) with (decval c). destruct dp; cbn [negb]; rewrite IH, <- app_assoc; cbn [length app]; f_equal; lia.
  - change (isdigit 95) with false. change (95 =? 46) with false. change (95 =? 95) with true. rewrite (spelled_deref _ _ _ _ r Hs). cbn [negb].
    change (c - 48) with (decval c). destruct dp; cbn [negb]; rewrite IH, <- app_assoc; cbn [length app]; f_equal; lia.
Qed.

(** A character that ends the digits. *)
Definition ends_digits (r : list Z) : Prop := isdigit (deref r) = false /\ deref r <> 46 /\ deref r <> 95.

Lemma scan_end r dp dd w sc : ends_digits r -> scan_digits r dp dd w sc = Ok (dd, w, sc, r).
Proof.
  intros (H1 & H2 & H3). destruct r as [|c r]; [done|]. change (deref (c :: r)) with c in *. cbn [scan_digits]. rewrite H1.
  destruct (Z.eqb_spec c 46); [done|]. destruct (Z.eqb_spec c 95); done.
Qed.

Lemma digit_not_point c : isdigit c = true -> (c =? 46) = false /\ (c =? 95) = false /\ (c =? 43) = false /\ (c =? 45) = false.
Proof. intros H%isdigit_range. repeat split; apply Z.eqb_neq; lia. Qed.

Lemma scan_mantissa int frac s r : mantissa int frac s -> ends_digits r ->
  exists dp cp, (if deref (s ++ r) =? 46 then (true, tail (s ++ r)) else (false, s ++ r)) = (dp, cp) /\ isdigit (deref cp) = true
  /\ scan_digits cp dp [] (-1) 0 = Ok (int ++ frac, Z.of_nat (length int) - 1, Z.of_nat (length frac), r).
Proof.
  intros [i t Hi|i t Hi|i t f u Hi Hf|f u Hf] Hr.
  - pose proof (spelled_deref _ _ _ _ r Hi) as Hd. destruct (digit_not_point _ Hd) as [-> _]. do 2 eexists. split; [done|]. split; [done|].
    rewrite (scan_run _ _ _ _ _ _ _ Hi), scan_end by done. cbn [app length]. rewrite app_nil_r. do 4 f_equal. lia.
  - rewrite <- app_assoc. pose proof (spelled_deref _ _ _ _ ([46] ++ r) Hi) as Hd. destruct (digit_not_point _ Hd) as [-> _]. do 2 eexists. split; [done|]. split; [done|].
    rewrite (scan_run _ _ _ _ _ _ _ Hi). cbn [app scan_digits]. change (isdigit 46) with false. change (46 =? 46) with true. destruct Hr as (R1 & R2 & R3). apply Z.eqb_neq in R3 as R3'. rewrite R3'.
    rewrite scan_end by done. cbn [app length]. rewrite app_nil_r. do 4 f_equal. lia.
  - rewrite <- app_assoc. pose proof (spelled_deref _ _ _ _ ((46 :: u) ++ r) Hi) as Hd. destruct (digit_not_point _ Hd) as [-> _]. do 2 eexists. split; [done|]. split; [done|].
    rewrite (scan_run _ _ _ _ _ _ _ Hi). cbn [app scan_digits]. change (isdigit 46) with false. change (46 =? 46) with true.
    destruct (digit_not_point _ (spelled_deref _ _ _ _ r Hf)) as (_ & -> & _). rewrite (scan_run _ _ _ _ _ _ _ Hf), scan_end by done. cbn [app length]. do 4 f_equal. lia.
  - cbn [app deref head default tail]. change (46 =? 46) with true. do 2 eexists. split; [done|]. split; [by apply (spelled_deref _ _ _ _ r Hf)|].
    rewrite (scan_run _ _ _ _ _ _ _ Hf), scan_end by done. done.
Qed.

(** *** The exponent *)

Lemma fold_cons c ds a : a * 10 ^ Z.of_nat (length (c :: ds)) + dval (c :: ds) = (a * 10 + c) * 10 ^ Z.of_nat (length ds) + dval ds.
Proof.
  change (c :: ds) with ([c] ++ ds). rewrite dval_app, length_app. change (dval [c]) with (0 * 10 + c). simpl length. rewrite Nat2Z.inj_succ, Z.pow_succ_r by lia. ring.
Qed.

(** The exponent so far is no more than the whole one. *)
Lemma fold_grows c ds a : is_decimal c -> Forall is_decimal ds -> 0 <= a -> a * 10 + c <= a * 10 ^ Z.of_nat (length (c :: ds)) + dval (c :: ds).
Proof.
  intros [Hc _] Hds Ha. rewrite fold_cons. apply dval_bounds in Hds. assert (1 <= 10 ^ Z.of_nat (length ds)) by (apply (Z.pow_le_mono_r 10 0); lia). nia.
Qed.

Lemma decval_ok c : isdigit c = true -> is_decimal (decval c).
Proof. intros H%isdigit_range. unfold is_decimal, decval. lia. Qed.

Lemma scan_exponent_run ds s r a : decimals ds s -> 0 <= a -> a * 10 ^ Z.of_nat (length ds) + dval ds <= max_exponent ->
  scan_exponent (s ++ r) a = scan_exponent r (a * 10 ^ Z.of_nat (length ds) + dval ds).
Proof.
  intros H. revert a. induction H as [c Hc|c ds s Hc Hs IH|c ds s Hc Hs IH]; intros a Ha Hb; cbn [app scan_exponent]; rewrite Hc; fold max_exponent; change (c - 48) with (decval c);
    pose proof (decval_ok c Hc) as Hd.
  - rewrite fold_cons in *. simpl in *. destruct (Z.ltb_spec max_exponent (a * 10 + decval c)); [unfold dval in Hb; simpl in Hb; lia|]. f_equal. unfold dval. simpl. lia.
  - pose proof (fold_grows _ _ a Hd (decimals_ok _ _ Hs) Ha). destruct (Z.ltb_spec max_exponent (a * 10 + decval c)); [lia|]. rewrite fold_cons in *. destruct Hd. apply IH; lia.
  - pose proof (fold_grows _ _ a Hd (decimals_ok _ _ Hs) Ha). destruct (Z.ltb_spec max_exponent (a * 10 + decval c)); [lia|]. rewrite fold_cons in *. destruct Hd.
    change (isdigit 95) with false. change (95 =? 95) with true. rewrite (spelled_deref _ _ _ _ r Hs). cbn [negb]. apply IH; lia.
Qed.

Lemma spaces_deref r : spaces r -> r = [] \/ isspace (deref r) = true.
Proof. intros [|c l Hc _]; [by left|by right]. Qed.

Lemma spaces_end r : spaces r -> ends_digits r /\ deref r <> 101 /\ deref r <> 69.
Proof.
  intros [->|H%isspace_cases]%spaces_deref; [repeat split; discriminate|]. unfold ends_digits. rewrite <- not_true_iff_false, isdigit_range. repeat split; lia.
Qed.

Lemma scan_exponent_end r a : ends_digits r -> scan_exponent r a = Ok (a, r).
Proof. intros (H1 & _ & H3). destruct r as [|c r]; [done|]. change (deref (c :: r)) with c in *. cbn [scan_exponent]. rewrite H1. destruct (Z.eqb_spec c 95); done. Qed.

Lemma exponent_digits ds s r (neg : bool) dw sc : decimals ds s -> dval ds <= max_exponent -> ends_digits r ->
  ('(exponent, cp) <-! scan_exponent (s ++ r) 0 ;;
   Ok (dw + (if neg then - exponent else exponent), if sc - (if neg then - exponent else exponent) <? 0 then 0 else sc - (if neg then - exponent else exponent), cp))
  = Ok (dw + (if neg then - dval ds else dval ds), Z.max 0 (sc - (if neg then - dval ds else dval ds)), r).
Proof.
  intros Hs Hb Hr. rewrite (scan_exponent_run _ _ _ _ Hs), scan_exponent_end by (done || lia). cbn [res_bind]. rewrite Z.mul_0_l, Z.add_0_l.
  set (e := if neg then _ else _). do 3 f_equal. destruct (Z.ltb_spec (sc - e) 0); lia.
Qed.

Lemma exponent_spec e s r dw sc : exponent_text e s -> spaces r -> 0 <= sc -> exponent_part (s ++ r) dw sc = Ok (dw + e, Z.max 0 (sc - e), r).
Proof.
  intros He Hr Hsc. destruct (spaces_end r Hr) as (Hend & N1 & N2). unfold exponent_part. destruct He as [|c sg ds t Hc Hsg Hs Hb|c ds t Hc Hs Hb].
  - cbn [app]. apply Z.eqb_neq in N1, N2. rewrite N1, N2. cbn [orb]. do 3 f_equal; lia.
  - assert (E : (deref ((c :: sg ++ t) ++ r) =? 101) || (deref ((c :: sg ++ t) ++ r) =? 69) = true) by (destruct Hc as [-> | ->]; done). rewrite E. cbn [app tail]. rewrite <- app_assoc.
    pose proof (spelled_deref _ _ _ _ r Hs) as Hd. destruct (digit_not_point _ Hd) as (_ & _ & D1 & D2). destruct Hsg as [-> | ->]; cbn [app].
    + rewrite D1, D2, Hd. cbn [negb]. apply (exponent_digits ds t r false); done.
    + change (deref (43 :: t ++ r)) with 43. change (43 =? 43) with true. cbn [tail]. rewrite Hd. cbn [negb]. apply (exponent_digits ds t r false); done.
  - assert (E : (deref ((c :: 45 :: t) ++ r) =? 101) || (deref ((c :: 45 :: t) ++ r) =? 69) = true) by (destruct Hc as [-> | ->]; done). rewrite E. cbn [app tail].
    change (deref (45 :: t ++ r)) with 45. change (45 =? 43) with false. change (45 =? 45) with true. cbn [tail]. rewrite (spelled_deref _ _ _ _ r Hs). cbn [negb].
    apply (exponent_digits ds t r true); done.
Qed.

(** ** Decimal literals as a whole *)

(** The first characters of a mantissa. *)
Lemma mantissa_first int frac s r : mantissa int frac s ->
  (isdigit (deref (s ++ r)) = true \/ deref (s ++ r) = 46) /\ (int <> [] \/ frac <> []) /\ Forall is_decimal (int ++ frac).
Proof.
  intros [i t Hi|i t Hi|i t f u Hi Hf|f u Hf].
  - split; [left; by apply (spelled_deref _ _ _ _ r Hi)|]. split; [left; by inversion Hi|]. rewrite app_nil_r. by apply (decimals_ok _ t).
  - rewrite <- app_assoc. split; [left; by apply (spelled_deref _ _ _ _ _ Hi)|]. split; [left; by inversion Hi|]. rewrite app_nil_r. by apply (decimals_ok _ t).
  - rewrite <- app_assoc. split; [left; by apply (spelled_deref _ _ _ _ _ Hi)|]. split; [left; by inversion Hi|]. apply Forall_app. split; [by apply (decimals_ok _ t)|by apply (decimals_ok _ u)].
  - split; [by right|]. split; [right; by inversion Hf|]. by apply (decimals_ok _ u).
Qed.

(** What may follow the digits. *)
Lemma after_mantissa x e r : exponent_text x e -> spaces r -> ends_digits (e ++ r).
Proof.
  intros He Hr. destruct He as [|c sg ds t Hc _ _ _|c ds t Hc _ _]; [by apply (spaces_end r Hr)| |]; unfold ends_digits; cbn [app deref head default]; destruct Hc as [-> | ->]; done.
Qed.

Definition literal_value (s : Z) (int frac : list Z) (x : Z) : Q := (unit_of s * (inject_Z (dval (int ++ frac)) * tpow (x - Z.of_nat (length frac))))%Q.
Definition literal_scale (frac : list Z) (x : Z) : Z := Z.max 0 (Z.of_nat (length frac) - x).

Lemma set_var_from_str_spec int frac m x e r : mantissa int frac m -> exponent_text x e -> spaces r ->
  exists v, set_var_from_str (m ++ e ++ r) = Ok (v, r) /\ normal v /\ (roomy v \/ digits v = [])
  /\ (value v == literal_value NUMERIC_POS int frac x)%Q /\ dscale v = literal_scale frac x.
Proof.
  intros Hm He Hr. unfold set_var_from_str. destruct (mantissa_first _ _ _ (e ++ r) Hm) as (Hf & _ & Hok).
  assert (Hns : (deref (m ++ e ++ r) =? 43) = false /\ (deref (m ++ e ++ r) =? 45) = false) by (destruct Hf as [Hf| ->]; [destruct (digit_not_point _ Hf) as (_ & _ & ? & ?); done|done]).
  destruct Hns as [-> ->]. destruct (scan_mantissa _ _ _ (e ++ r) Hm (after_mantissa _ _ _ He Hr)) as (dp & cp & -> & -> & Hscan). cbn [negb]. rewrite Hscan. cbn [res_bind].
  rewrite (exponent_spec _ _ _ _ _ He Hr) by lia. cbn [res_bind].
  destruct (from_decimal_spec (int ++ frac) (Z.of_nat (length int) - 1 + x) (Z.max 0 (Z.of_nat (length frac) - x)) NUMERIC_POS Hok) as (v & -> & Hn & Hv & Hd & Hroom); [by left|].
  cbn [res_bind]. exists v. split; [done|]. split; [done|]. split; [done|]. split; [|done]. rewrite Hv. unfold literal_value. rewrite length_app.
  replace (Z.of_nat (length int) - 1 + x + 1 - Z.of_nat (length int + length frac)) with (x - Z.of_nat (length frac)) by lia. reflexivity.
Qed.

Lemma second_char int frac m x e r : mantissa int frac m -> exponent_text x e -> spaces r -> base_of (m ++ e ++ r) = 10.
Proof.
  intros Hm He Hr. unfold base_of. destruct (Z.eqb_spec (deref (m ++ e ++ r)) 48) as [E0|]; [|done].
  assert (Hc : let c := deref (tail (m ++ e ++ r)) in isdigit c = true \/ c = 46 \/ c = 95 \/ c = 101 \/ c = 69 \/ isspace c = true \/ c = 0).
  { assert (Hrest : let c := deref (e ++ r) in c = 101 \/ c = 69 \/ isspace c = true \/ c = 0).
    { destruct He as [|c sg ds t Hc _ _ _|c ds t Hc _ _]; cbn [app deref head default]; [|tauto..]. destruct (spaces_deref r Hr) as [-> |H]; [by right; right; right|tauto]. }
    assert (Hdig : forall ds t u, decimals ds t -> let c := deref (tail (t ++ u)) in isdigit c = true \/ c = 95 \/ c = deref u).
    { intros ds t u [c Hc|c ds' s' Hc Hs|c ds' s' Hc Hs]; cbn [app tail]; [by right; right|left; by apply (spelled_deref _ _ _ _ u Hs)|by right; left]. }
    destruct Hm as [i t Hi|i t Hi|i t f u Hi Hf|f u Hf]; cbv zeta in *.
    - destruct (Hdig _ _ (e ++ r) Hi) as [H|[H| ->]]; tauto.
    - rewrite <- app_assoc. destruct (Hdig _ _ ([46] ++ e ++ r) Hi) as [H|[H| ->]]; [tauto|tauto|]. right; left. done.
    - rewrite <- app_assoc. destruct (Hdig _ _ ((46 :: u) ++ e ++ r) Hi) as [H|[H| ->]]; [tauto|tauto|]. right; left. done.
    - cbn [app tail]. left. by apply (spelled_deref _ _ _ _ _ Hf). }
  cbv zeta in *. set (c := deref (tail (m ++ e ++ r))) in *. clearbody c. rewrite isdigit_range in Hc.
  assert (Hx : c <> 120 /\ c <> 88 /\ c <> 111 /\ c <> 79 /\ c <> 98 /\ c <> 66).
  { destruct Hc as [H|[H|[H|[H|[H|[H%isspace_cases|H]]]]]]; repeat split; lia. }
  destruct Hx as (X1 & X2 & X3 & X4 & X5 & X6). apply Z.eqb_neq in X1, X2, X3, X4, X5, X6. by rewrite X1, X2, X3, X4, X5, X6.
Qed.

Lemma only_spaces_spec r : spaces r -> only_spaces r = Ok tt.
Proof. intros H. unfold only_spaces. by rewrite <- (app_nil_r r), (skip_spaces_spec r []). Qed.

(** A number without sign, then with it. *)
Lemma signed_value s v q : normal v -> (value v == q)%Q -> (0 <= q)%Q -> s = NUMERIC_POS \/ s = NUMERIC_NEG ->
  var_ok (set_sign s v) /\ (value (set_sign s v) == unit_of s * q)%Q.
Proof.
  intros [Hv _] Hq H0 Hs. split; [destruct Hv; by split|]. assert (Em : (magnitude v == q)%Q) by (rewrite <- abs_value, Hq by done; by apply Qabs_pos).
  unfold value, sgn. cbn [set_sign sign]. fold (unit_of s). change (magnitude (set_sign s v)) with (magnitude v). rewrite Em. reflexivity.
Qed.

Lemma sign_scan s sg r : sign_text s sg -> (deref r =? 43) = false -> (deref r =? 45) = false ->
  (if deref (sg ++ r) =? 43 then (NUMERIC_POS, tail (sg ++ r)) else if deref (sg ++ r) =? 45 then (NUMERIC_NEG, tail (sg ++ r)) else (NUMERIC_POS, sg ++ r)) = (s, r)
  /\ (s = NUMERIC_POS \/ s = NUMERIC_NEG).
Proof. intros [] H1 H2; cbn [app deref head default tail]; [rewrite H1, H2|..]; auto. Qed.

Lemma literal_multiple s int frac x : multiple (literal_value s int frac x) (tpow (- literal_scale frac x)).
Proof.
  unfold literal_value, literal_scale. assert (H : multiple (inject_Z (dval (int ++ frac)) * tpow (x - Z.of_nat (length frac))) (tpow (- Z.max 0 (Z.of_nat (length frac) - x)))).
  { apply multiple_times, tpow_multiple. lia. }
  unfold unit_of. destruct (s =? NUMERIC_NEG); [apply (multiple_times (-1))|apply (multiple_times 1)]; exact H.
Qed.

Lemma literal_nonneg int frac x : Forall is_decimal (int ++ frac) -> (0 <= inject_Z (dval (int ++ frac)) * tpow (x - Z.of_nat (length frac)))%Q.
Proof.
  intros H%dval_bounds. pose proof (tpow_pos (x - Z.of_nat (length frac))). assert (0 <= inject_Z (dval (int ++ frac)))%Q by (change 0%Q with (inject_Z 0); rewrite <- Zle_Qle; lia). nra.
Qed.

(** A decimal literal, possibly in spaces. *)
Lemma decimal_input cells sp s sg int frac m x e r t : spaces sp -> sign_text s sg -> mantissa int frac m -> exponent_text x e -> spaces r ->
  stored (numeric_in cells (sp ++ sg ++ m ++ e ++ r) t) (literal_value s int frac x) (literal_scale frac x) t.
Proof.
  intros Hsp Hsg Hm He Hr. unfold numeric_in. destruct (mantissa_first _ _ _ (e ++ r) Hm) as (Hf & _ & Hok).
  assert (Hc : (deref (m ++ e ++ r) =? 43) = false /\ (deref (m ++ e ++ r) =? 45) = false /\ isspace (deref (m ++ e ++ r)) = false).
  { destruct Hf as [Hf| ->]; [|done]. destruct (digit_not_point _ Hf) as (_ & _ & ? & ?). split; [done|]. split; [done|]. apply not_true_iff_false. apply isdigit_range in Hf. intros Hsp0%isspace_cases. lia. }
  destruct Hc as (C1 & C2 & C3). rewrite skip_spaces_spec by (done || by destruct Hsg). destruct (sign_scan s sg _ Hsg C1 C2) as [-> Hs].
  assert (Hnum : negb (isdigit (deref (m ++ e ++ r))) && negb (deref (m ++ e ++ r) =? 46) = false) by (destruct Hf as [-> | ->]; [done|by rewrite andb_false_r]). rewrite Hnum.
  rewrite (second_char _ _ _ _ _ _ Hm He Hr). change (10 =? 10) with true. cbv iota. destruct (set_var_from_str_spec _ _ _ _ _ _ Hm He Hr) as (v & -> & Hn & Hroom & Hv & Hd). cbn [res_bind].
  rewrite only_spaces_spec by done. cbn [res_bind]. unfold literal_value in Hv. rewrite Qmult_1_l in Hv. destruct (signed_value s v _ Hn Hv (literal_nonneg _ _ _ Hok) Hs) as [Hok' Hv'].
  apply typmod_stored; [done|exact Hroom|exact Hv'|exact Hd|unfold literal_scale; lia|apply literal_multiple].
Qed.
