(* ===== verification/NumericBased.v ===== *)
(** Reading hexadecimal, octal and binary integers: the groups of digits never overflow,
    and they make up the whole number. *)

From S2P Require Import Prelude Numutils NumutilsProps Numeric NumericArith NumericRound NumericMul NumericPack NumericNum NumericTimes NumericInt NumericFun NumericType NumericText NumericPrint NumericParse.
Local Open Scope Z_scope.
Local Open Scope pg_scope.

(** The number that digits of a base write. *)
Definition bval (base : Z) (l : list Z) : Z := fold_left (fun a d => a * base + d) l 0.

Lemma fold_bval base l a : fold_left (fun a d => a * base + d) l a = a * base ^ Z.of_nat (length l) + bval base l.
Proof.
  unfold bval. revert a. induction l as [|d l IH]; intros a; [simpl; lia|]. cbn [fold_left length]. rewrite IH, (IH (0 * base + d)), Nat2Z.inj_succ, Z.pow_succ_r by lia. ring.
Qed.

Lemma bval_cons base d l : bval base (d :: l) = d * base ^ Z.of_nat (length l) + bval base l.
Proof. unfold bval at 1. cbn [fold_left]. rewrite fold_bval. f_equal; lia. Qed.

(** ** Variables that hold an integer *)

(** A nonnegative integer that a group of digits may be added to. *)
Record whole (v : NumericVar) (z : Z) : Prop := {
  wh_normal : normal v;
  wh_value : (value v == inject_Z z)%Q;
  wh_dscale : dscale v = 0;
  wh_roomy : roomy v \/ digits v = []
}.

Lemma whole_zero : whole (zero_var 0) 0.
Proof. destruct (yields_zero 0) as (v & [= <-] & H1 & H2 & H3 & H4). split; done. Qed.

(** The variable of a nonnegative [int64]: every digit is in front of the point. *)
Lemma int64_var cells z : (5 <= length cells)%nat -> 0 <= z < 2 ^ 63 ->
  exists v, int64_to_numericvar cells z = Ok v /\ led v /\ (value v == inject_Z z)%Q /\ dscale v = 0 /\ ndigits v <= weight v + 1.
Proof.
  intros Hc Hz. unfold int64_to_numericvar. rewrite int64_magnitude by (unfold int64_range; lia). destruct (Z.ltb_spec z 0); [lia|]. destruct (Z.eqb_spec z 0) as [->|Hz0].
  - eexists. split; [done|]. split; [split; split; [constructor|by left|by right|done]|]. split; [reflexivity|]. split; [done|]. done.
  - destruct (split_digits_spec (take 5 cells ++ [0]) (Z.abs z) []) as (front & l & -> & Hl & El & Hf).
    + rewrite length_app, length_take. replace (5 `min` length cells)%nat with 5%nat by lia. change (NBASE ^ Z.of_nat (5 + length [0])) with (10 ^ 24). lia.
    + by destruct (take 5 cells).
    + cbn [res_bind]. rewrite app_nil_r. specialize (Hf ltac:(lia)). eexists. split; [done|]. split; [|split; [|split; [done|unfold ndigits; cbn [digits weight]; lia]]].
      * split; split; cbn [digits sign]; [done|by left|by left|done].
      * pose proof (int64_value z l front El) as Hv. destruct (Z.ltb_spec z 0); [lia|]. exact Hv.
Qed.

Lemma whole_width v z : whole v z -> ndigits v <= weight v + 1.
Proof.
  intros [N Hv _ _]. assert (Hm : multiple (magnitude v) (tpow (- 0))).
  { apply multiple_value. rewrite Hv. exists z. change (tpow (- 0)) with 1%Q. ring. }
  pose proof (digits_end v 0 N ltac:(lia) Hm). unfold DEC_DIGITS in *. lia.
Qed.

Lemma whole_round z : (round_at (inject_Z z) 0 == inject_Z z)%Q.
Proof. apply round_multiple. exists z. change (tpow (- 0)) with 1%Q. ring. Qed.

Lemma magnitude_whole v z : var_ok v -> (value v == inject_Z z)%Q -> 0 <= z -> (magnitude v == inject_Z z)%Q.
Proof. intros Hv E Hz. rewrite <- abs_value, E by done. apply Qabs_pos. change 0%Q with (inject_Z 0). by rewrite <- Zle_Qle. Qed.

(** The product with a multiplier is exact. *)
Lemma mul_whole v z u y : var_ok v -> (value v == inject_Z z)%Q -> 0 <= z -> ndigits v <= weight v + 1 -> var_ok u -> (value u == inject_Z y)%Q -> 0 <= y -> ndigits u <= weight u + 1 ->
  exists r, mul_var v u 0 = Ok r /\ normal r /\ (value r == inject_Z (z * y))%Q /\ dscale r = 0.
Proof.
  intros Hok Ev Hz Hwn Hu Eu Hy Hn. destruct (mul_var_spec v u 0 Hok Hu) as (r & E & Hr & Hd & _ & Hv). exists r.
  split; [done|]. split; [done|]. split; [|done]. rewrite Hv by (unfold product_room, MUL_GUARD_DIGITS; change (Z.quot (0 + DEC_DIGITS - 1) DEC_DIGITS) with 0; lia).
  pose proof (magnitude_whole v z Hok Ev Hz) as Mv. pose proof (magnitude_whole u y Hu Eu Hy) as Mu. unfold value in Ev, Eu.
  rewrite Mv, Mu, <- inject_Z_mult, whole_round, inject_Z_mult. rewrite Mv in Ev. rewrite Mu in Eu. rewrite <- Ev at 2. rewrite <- Eu at 2. ring.
Qed.

(** A group either makes the number too large for the format, or it is added. *)
Lemma add_group_spec cells v z mul tmp : (5 <= length cells)%nat -> whole v z -> 0 <= z -> 0 <= mul < 2 ^ 63 -> 0 <= tmp < 2 ^ 63 ->
  (exists v', add_group cells v mul tmp = Ok v' /\ whole v' (z * mul + tmp)) \/ (add_group cells v mul tmp = Err OVERFLOW /\ (bpow 32768 <= inject_Z (z * mul + tmp))%Q).
Proof.
  intros Hc Hw Hz Hm Ht. unfold add_group. destruct (int64_var cells mul Hc Hm) as (u & -> & Lu & Eu & _ & Nu). cbn [res_bind].
  destruct (mul_whole v z u mul (proj1 (wh_normal _ _ Hw)) (wh_value _ _ Hw) Hz (whole_width v z Hw) (proj1 Lu) Eu (proj1 Hm) Nu) as (r & -> & Nr & Er & Dr). cbn [res_bind]. destruct (int64_var cells tmp Hc Ht) as (a & -> & La & Ea & Da & _). cbn [res_bind].
  destruct (add_var_exact r a (normal_led _ Nr) La) as (v' & -> & N' & E' & D' & R'). cbn [res_bind]. rewrite Er, Ea, <- inject_Z_plus in E'. rewrite Dr, Da in D'.
  destruct (Z.ltb_spec SHRT_MAX (weight v')) as [Hlt|Hge]; [right|left; exists v'; done]. split; [done|]. change SHRT_MAX with 32767 in Hlt.
  rewrite <- (magnitude_whole v' _ (proj1 N') E') by lia. destruct (decide (digits v' = [])) as [E|Hne]; [destruct N' as [_ [_ _ S]]; destruct (S E) as [_ Hw0]; lia|].
  pose proof (stripped_large v' (normal_led _ N') Hne). pose proof (bpow_le 32768 (weight v') ltac:(lia)). lra.
Qed.

(** ** Scanning *)

Section scan.
Context (cells : list Z) (base : Z) (isdig : Z -> bool) (val : Z -> Z).
Hypothesis Hcells : (5 <= length cells)%nat.
Hypothesis Hbase : 2 <= base <= 16.
Hypothesis Hval : forall c, isdig c = true -> 0 <= val c < base.
Hypothesis Hsep : isdig 95 = false.

(** The number so far is [z * mul + tmp]. *)
Definition scanning (v : NumericVar) (z tmp mul : Z) : Prop := whole v z /\ 0 <= z /\ 0 <= tmp < mul /\ mul < 2 ^ 63.

(** Scanning [cp] gets to [r] with the number [n], or [n] is too large. *)
Definition advances (cp r : list Z) (v : NumericVar) (tmp mul n : Z) : Prop :=
  (exists v' z' tmp' mul', scan_based cells base isdig val cp v tmp mul = scan_based cells base isdig val r v' tmp' mul'
     /\ scanning v' z' tmp' mul' /\ z' * mul' + tmp' = n)
  \/ (scan_based cells base isdig val cp v tmp mul = Err OVERFLOW /\ (bpow 32768 <= inject_Z n)%Q).

Lemma scan_one c p v z tmp mul : isdig c = true -> scanning v z tmp mul -> advances (c :: p) p v tmp mul ((z * mul + tmp) * base + val c).
Proof.
  intros Hc (Hw & Hz & Ht & Hm). pose proof (Hval c Hc) as Hv.
  assert (Hdiv : base * (PG_INT64_MAX / base) <= PG_INT64_MAX) by (apply Z.mul_div_le; lia).
  assert (Hstep : forall v z tmp mul, scanning v z tmp mul -> mul <= PG_INT64_MAX / base ->
    exists v' z' tmp' mul', (tmp <-! int64 (tmp * base + val c) ;; mul <-! int64 (mul * base) ;; scan_based cells base isdig val p v tmp mul)
       = scan_based cells base isdig val p v' tmp' mul' /\ scanning v' z' tmp' mul' /\ z' * mul' + tmp' = (z * mul + tmp) * base + val c).
  { intros v0 z0 t0 m0 (Hw0 & Hz0 & Ht0 & Hm0) Hle. assert (0 <= m0 * base <= PG_INT64_MAX) by nia. assert (0 <= t0 * base + val c < m0 * base) by nia. unfold PG_INT64_MAX in *.
    unfold int64, s64, PG_INT64_MIN. destruct (Z.leb_spec (- 2 ^ 63) (t0 * base + val c)); [|lia]. destruct (Z.ltb_spec (t0 * base + val c) (2 ^ 63)); [|lia]. cbn [andb res_bind].
    destruct (Z.leb_spec (- 2 ^ 63) (m0 * base)); [|lia]. destruct (Z.ltb_spec (m0 * base) (2 ^ 63)); [|lia]. cbn [andb res_bind].
    exists v0, z0, (t0 * base + val c), (m0 * base). split; [done|]. split; [|ring]. split; [done|]. split; [done|]. split; lia. }
  destruct (Z.ltb_spec (PG_INT64_MAX / base) mul) as [Hlt|Hle].
  2: { left. cbn [scan_based]. rewrite Hc, Z.quot_div_nonneg by (unfold PG_INT64_MAX; lia). destruct (Z.ltb_spec (PG_INT64_MAX / base) mul); [lia|]. cbn [res_bind]. by apply Hstep. }
  unfold advances. cbn [scan_based]. rewrite Hc, Z.quot_div_nonneg by (unfold PG_INT64_MAX; lia). destruct (Z.ltb_spec (PG_INT64_MAX / base) mul) as [_|]; [|lia].
  destruct (add_group_spec cells v z mul tmp Hcells Hw Hz ltac:(lia) ltac:(lia)) as [(v' & -> & Hw')|[-> Hbig]]; [left|right; split; [done|]; eapply Qle_trans; [exact Hbig|]; rewrite <- Zle_Qle; assert (0 <= z * mul + tmp) by nia; set (x := z * mul + tmp) in *; clearbody x; nia]. cbn [res_bind].
  destruct (Hstep v' (z * mul + tmp) 0 1) as (v2 & z2 & t2 & m2 & E & Hs & Ep); [|apply Z.div_le_lower_bound; unfold PG_INT64_MAX; lia|].
  - split; [done|]. split; [nia|]. split; lia.
  - exists v2, z2, t2, m2. split; [done|]. split; [done|]. lia.
Qed.

Lemma bval_bounds ds s : spelled isdig val ds s -> 0 <= bval base ds.
Proof.
  clear cells Hcells Hsep. intros H. induction H as [c Hc|c ds s Hc _ IH|c ds s Hc _ IH]; rewrite bval_cons; pose proof (Hval c Hc); [simpl; unfold bval; simpl; lia|..]; assert (0 < base ^ Z.of_nat (length ds)) by (apply Z.pow_pos_nonneg; lia); nia.
Qed.

(** One digit more in front; [p] is what follows it. *)
Lemma advances_cons c ds t p r v z tmp mul : isdig c = true -> spelled isdig val ds t -> scanning v z tmp mul ->
  (forall v' t' m', scan_based cells base isdig val p v' t' m' = scan_based cells base isdig val (t ++ r) v' t' m') ->
  (forall v' z' t' m', scanning v' z' t' m' -> advances (t ++ r) r v' t' m' ((z' * m' + t') * base ^ Z.of_nat (length ds) + bval base ds)) ->
  advances (c :: p) r v tmp mul ((z * mul + tmp) * base ^ Z.of_nat (length (val c :: ds)) + bval base (val c :: ds)).
Proof.
  intros Hc Hs Hst Hp IH. pose proof (bval_bounds ds t Hs) as Hb. pose proof (Hval c Hc) as Hv. pose proof Hst as (_ & Hz & Ht & _).
  replace ((z * mul + tmp) * base ^ Z.of_nat (length (val c :: ds)) + bval base (val c :: ds)) with (((z * mul + tmp) * base + val c) * base ^ Z.of_nat (length ds) + bval base ds)
    by (rewrite bval_cons; cbn [length]; rewrite Nat2Z.inj_succ, Z.pow_succ_r by lia; ring).
  destruct (scan_one c p v z tmp mul Hc Hst) as [(v' & z' & t' & m' & E & Hst' & Ep)|[E Hbig]].
  - rewrite <- Ep. unfold advances. rewrite E, Hp. by apply IH.
  - right. split; [done|]. eapply Qle_trans; [exact Hbig|]. rewrite <- Zle_Qle. assert (0 < base ^ Z.of_nat (length ds)) by (apply Z.pow_pos_nonneg; lia).
    assert (0 <= z * mul + tmp) by nia. set (x := z * mul + tmp) in *. clearbody x. set (k := base ^ _) in *. clearbody k. assert (0 <= x * base + val c) by nia. nia.
Qed.

Lemma scan_based_run ds s r v z tmp mul : spelled isdig val ds s -> scanning v z tmp mul ->
  advances (s ++ r) r v tmp mul ((z * mul + tmp) * base ^ Z.of_nat (length ds) + bval base ds).
Proof.
  intros H. revert v z tmp mul. induction H as [c Hc|c ds s Hc Hs IH|c ds s Hc Hs IH]; intros v z tmp mul Hst; cbn [app].
  - replace ((z * mul + tmp) * base ^ Z.of_nat (length [val c]) + bval base [val c]) with ((z * mul + tmp) * base + val c) by (unfold bval; simpl; lia). by apply scan_one.
  - by apply (advances_cons c ds s).
  - apply (advances_cons c ds s); [done|done|done| |exact IH]. intros v' t' m'. cbn [scan_based]. rewrite Hsep. change (95 =? 95) with true. by rewrite (spelled_deref _ _ _ _ r Hs).
Qed.
End scan.

(** ** Literals *)

(** A prefix, possibly an underscore, and digits. *)
Inductive based : Z -> list Z -> list Z -> Prop :=
| based_hex c u ds s : c = 120 \/ c = 88 -> u = [] \/ u = [95] -> spelled isxdigit xdigit_value ds s -> based 16 ds (48 :: c :: u ++ s)
| based_octal c u ds s : c = 111 \/ c = 79 -> u = [] \/ u = [95] -> spelled isodigit decval ds s -> based 8 ds (48 :: c :: u ++ s)
| based_binary c u ds s : c = 98 \/ c = 66 -> u = [] \/ u = [95] -> spelled isbdigit decval ds s -> based 2 ds (48 :: c :: u ++ s).

Lemma xdigit_bounds c : isxdigit c = true -> 0 <= xdigit_value c < 16.
Proof.
  unfold isxdigit, isdigit, xdigit_value. rewrite !orb_true_iff, !andb_true_iff, !Z.leb_le.
  destruct (Z.leb_spec 48 c), (Z.leb_spec c 57), (Z.leb_spec 97 c), (Z.leb_spec c 102), (Z.leb_spec 65 c), (Z.leb_spec c 70); simpl; lia.
Qed.

Lemma odigit_bounds c : isodigit c = true -> 0 <= decval c < 8.
Proof. unfold isodigit, decval. rewrite andb_true_iff, !Z.leb_le. lia. Qed.

Lemma bdigit_bounds c : isbdigit c = true -> 0 <= decval c < 2.
Proof. unfold isbdigit, decval. rewrite andb_true_iff, !Z.leb_le. lia. Qed.

Lemma spaces_no_digit r : spaces r -> (deref r =? 95) = false /\ isxdigit (deref r) = false /\ isodigit (deref r) = false /\ isbdigit (deref r) = false.
Proof.
  intros [-> |H%isspace_cases]%spaces_deref; [done|]. unfold isxdigit, isdigit, isodigit, isbdigit. rewrite <- !not_true_iff_false, !orb_true_iff, !andb_true_iff, !Z.leb_le, Z.eqb_eq. lia.
Qed.

Lemma scan_based_end cells base isdig val r v tmp mul : isdig (deref r) = false -> (deref r =? 95) = false -> scan_based cells base isdig val r v tmp mul = Ok (v, tmp, mul, r).
Proof. intros H1 H2. destruct r as [|c r]; [done|]. change (deref (c :: r)) with c in *. cbn [scan_based]. by rewrite H1, H2. Qed.

(** From the prefix to the end of the digits, and the last group. *)
Lemma scan_whole cells base isdig val u ds s r : (5 <= length cells)%nat -> 2 <= base <= 16 -> (forall c, isdig c = true -> 0 <= val c < base) -> isdig 95 = false ->
  isdig (deref r) = false -> (deref r =? 95) = false -> u = [] \/ u = [95] -> spelled isdig val ds s ->
  let n := bval base ds in
  (exists v, ('(dest, tmp, mul, cp) <-! scan_based cells base isdig val (u ++ s ++ r) (zero_var 0) 0 1 ;;
              if (length cp =? length (u ++ s ++ r))%nat then Err SYNTAX else dest <-! add_group cells dest mul tmp ;; Ok (dest, cp)) = Ok (v, r) /\ whole v n)
  \/ (('(dest, tmp, mul, cp) <-! scan_based cells base isdig val (u ++ s ++ r) (zero_var 0) 0 1 ;;
       if (length cp =? length (u ++ s ++ r))%nat then Err SYNTAX else dest <-! add_group cells dest mul tmp ;; Ok (dest, cp)) = Err OVERFLOW
      /\ (bpow 32768 <= inject_Z n)%Q).
Proof.
  intros Hc Hb Hv Hsep He1 He2 Hu Hs n. assert (H0 : scanning (zero_var 0) 0 0 1) by (split; [apply whole_zero|]; repeat split; lia).
  assert (E : scan_based cells base isdig val (u ++ s ++ r) (zero_var 0) 0 1 = scan_based cells base isdig val (s ++ r) (zero_var 0) 0 1).
  { destruct Hu as [-> | ->]; [done|]. cbn [app scan_based]. rewrite Hsep. change (95 =? 95) with true. by rewrite (spelled_deref _ _ _ _ r Hs). }
  assert (Hlen : (length r =? length (u ++ s ++ r))%nat = false).
  { apply Nat.eqb_neq. rewrite !length_app. apply spelled_first in Hs as (c & s' & -> & _). simpl. lia. }
  rewrite E. destruct (scan_based_run cells base isdig val Hc Hb Hv Hsep ds s r _ _ _ _ Hs H0) as [(v & z & t & m & -> & (Hw & Hz & Ht & Hm) & Ep)|[-> Hbig]].
  - rewrite scan_based_end by done. cbn [res_bind]. rewrite Hlen. replace (0 * 1 + 0) with 0 in Ep by lia. rewrite Z.mul_0_l, Z.add_0_l in Ep. fold n in Ep. rewrite <- Ep.
    destruct (add_group_spec cells v z m t Hc Hw Hz ltac:(lia) ltac:(lia)) as [(v' & -> & Hw')|[-> Hbig]]; [left; by exists v'|by right].
  - right. split; [done|]. by replace ((0 * 1 + 0) * base ^ Z.of_nat (length ds) + bval base ds) with n in Hbig by (unfold n; lia).
Qed.

Lemma based_first base ds m r : based base ds m -> exists c p, m ++ r = 48 :: c :: p /\ base_of (m ++ r) = base.
Proof. intros [c u l s Hc _ _|c u l s Hc _ _|c u l s Hc _ _]; cbn [app]; do 2 eexists; (split; [reflexivity|]); destruct Hc as [-> | ->]; reflexivity. Qed.

(** The sign is set last. *)
Ltac read_groups H := destruct H as [(v & E & Hw)|[E Hbig]]; [left; exists v; split; [|done]|right; split; [|done]];
  destruct (scan_based _ _ _ _ _ _ _ _) as [[[[d t'] m'] cp]|]; cbn [res_bind] in *; [|done| |congruence]; (destruct (length cp =? _)%nat; [congruence|]);
  destruct (add_group _ d m' t'); cbn [res_bind] in *; congruence.

(** The digits of a literal as they are read. *)
Lemma set_based_spec cells base ds m r s : (5 <= length cells)%nat -> based base ds m -> spaces r ->
  (exists v, set_var_from_non_decimal_integer_str cells (drop 2 (m ++ r)) s base = Ok (set_sign s v, r) /\ whole v (bval base ds))
  \/ (set_var_from_non_decimal_integer_str cells (drop 2 (m ++ r)) s base = Err OVERFLOW /\ (bpow 32768 <= inject_Z (bval base ds))%Q).
Proof.
  intros Hc Hm Hr. destruct (spaces_no_digit r Hr) as (E1 & E2 & E3 & E4). unfold set_var_from_non_decimal_integer_str.
  destruct Hm as [c u l t _ Hu Hs|c u l t _ Hu Hs|c u l t _ Hu Hs]; cbn [app drop]; rewrite <- app_assoc;
    [change (16 =? 16) with true|change (8 =? 16) with false; change (8 =? 8) with true|change (2 =? 16) with false; change (2 =? 8) with false; change (2 =? 2) with true]; cbv iota.
  - read_groups (scan_whole cells 16 isxdigit xdigit_value u l t r Hc ltac:(lia) xdigit_bounds eq_refl E2 E1 Hu Hs).
  - read_groups (scan_whole cells 8 isodigit decval u l t r Hc ltac:(lia) odigit_bounds eq_refl E3 E1 Hu Hs).
  - read_groups (scan_whole cells 2 isbdigit decval u l t r Hc ltac:(lia) bdigit_bounds eq_refl E4 E1 Hu Hs).
Qed.

(** An integer literal in another base, possibly in spaces. *)
Lemma based_input cells sp s sg base ds m r t : (5 <= length cells)%nat -> spaces sp -> sign_text s sg -> based base ds m -> spaces r ->
  let n := bval base ds in
  stored (numeric_in cells (sp ++ sg ++ m ++ r) t) (unit_of s * inject_Z n) 0 t
  \/ (numeric_in cells (sp ++ sg ++ m ++ r) t = Err OVERFLOW /\ (bpow 32768 <= inject_Z n)%Q).
Proof.
  intros Hc Hsp Hsg Hm Hr n. destruct (based_first base ds m r Hm) as (c & p & E & Eb). assert (Hn : 0 <= n).
  { unfold n. destruct Hm as [? ? ? ? _ _ H|? ? ? ? _ _ H|? ? ? ? _ _ H]; [apply (bval_bounds 16 isxdigit xdigit_value ltac:(lia) xdigit_bounds _ _ H)
      |apply (bval_bounds 8 isodigit decval ltac:(lia) odigit_bounds _ _ H)|apply (bval_bounds 2 isbdigit decval ltac:(lia) bdigit_bounds _ _ H)]. }
  assert (Hb10 : (base =? 10) = false) by (destruct Hm; done).
  unfold numeric_in. rewrite skip_spaces_spec by (done || (rewrite E; by destruct Hsg)). destruct (sign_scan s sg (m ++ r) Hsg) as [-> Hs]; [by rewrite E..|].
  assert (Hd : isdigit (deref (m ++ r)) = true) by (by rewrite E). rewrite Hd, Eb. cbn [negb andb]. rewrite Hb10.
  destruct (set_based_spec cells base ds m r s Hc Hm Hr) as [(v & -> & [N Ev Dv Rv])|[-> Hbig]]; [left|by right]. cbn [res_bind]. rewrite only_spaces_spec by done. cbn [res_bind].
  destruct (signed_value s v _ N Ev ltac:(change 0%Q with (inject_Z 0); by rewrite <- Zle_Qle) Hs) as [Hok Hv'].
  apply typmod_stored; [done|exact Rv|exact Hv'|exact Dv|lia|]. unfold unit_of. destruct (s =? NUMERIC_NEG); [apply (multiple_times (-1))|apply (multiple_times 1)]; exists n; change (tpow (- 0)) with 1%Q; ring.
Qed.
