(* ===== verification/NumericAccept.v ===== *)
(** The text that is accepted: literals and nothing else. *)

From S2P Require Import Prelude Numutils NumutilsProps Numeric NumericArith NumericRound NumericMul NumericPack NumericNum NumericTimes NumericInt NumericFun NumericType NumericText NumericPrint NumericParse NumericBased.
Local Open Scope Z_scope.
Local Open Scope pg_scope.

(** Letters in either case. *)
Definition letters (w : list Z) (s : string) : Prop := map pg_lower w = codes s.

(** The literals of the type and the numbers that they write. *)
Inductive literal : list Z -> number -> Prop :=
| lit_decimal sp s sg int frac m x e r : spaces sp -> sign_text s sg -> mantissa int frac m -> exponent_text x e -> spaces r ->
    literal (sp ++ sg ++ m ++ e ++ r) (Fin (literal_value s int frac x) (literal_scale frac x))
| lit_based sp s sg base ds m r : spaces sp -> sign_text s sg -> based base ds m -> spaces r ->
    literal (sp ++ sg ++ m ++ r) (Fin (unit_of s * inject_Z (bval base ds)) 0)
| lit_nan sp w r : spaces sp -> letters w "nan" -> spaces r -> literal (sp ++ w ++ r) NaN
| lit_inf sp s sg w r : spaces sp -> sign_text s sg -> letters w "infinity" \/ letters w "inf" -> spaces r ->
    literal (sp ++ sg ++ w ++ r) (inf_of (s =? NUMERIC_POS)).

(** A C string has no zero in it. *)
Definition c_string (s : list Z) : Prop := Forall (fun c => c <> 0) s.

(** ** Runs of digits *)

(** The longest run from a digit on. *)
Lemma longest_run isdig val cp : isdig (deref cp) = true -> isdig 95 = false -> isdig 0 = false ->
  exists ds s r, cp = s ++ r /\ spelled isdig val ds s /\ isdig (deref r) = false /\ (deref r = 95 -> isdig (deref (tail r)) = false).
Proof.
  intros Hd H95 H0. remember (length cp) as n eqn:En. revert cp Hd En. induction (lt_wf n) as [n _ IH]. intros cp Hd En. destruct cp as [|c p]; [change (deref []) with 0 in Hd; congruence|].
  change (deref (c :: p)) with c in Hd. simpl in En. destruct (isdig (deref p)) eqn:Ep.
  - destruct (IH (length p) ltac:(lia) p Ep eq_refl) as (ds & s & r & -> & Hs & Hr). exists (val c :: ds), (c :: s), r. split; [done|]. split; [by constructor|done].
  - destruct (decide (deref p = 95 /\ isdig (deref (tail p)) = true)) as [[E95 Et]|Hn].
    + destruct p as [|c' p]; [done|]. change (deref (c' :: p)) with c' in E95. subst c'. cbn [tail] in Et. simpl in En.
      destruct (IH (length p) ltac:(lia) p Et eq_refl) as (ds & s & r & -> & Hs & Hr). exists (val c :: ds), (c :: 95 :: s), r. split; [done|]. split; [by constructor|done].
    + exists [val c], [c], p. split; [done|]. split; [by constructor|]. split; [done|]. intros E. apply not_true_iff_false. intros Ht. by apply Hn.
Qed.

(** ** Inversion of the scanners *)

(** What is left after a run: the end, or an error. *)
Lemma scan_rest r dp dd w sc out : isdigit (deref r) = false -> (deref r = 95 -> isdigit (deref (tail r)) = false) -> deref r <> 46 \/ dp = true ->
  scan_digits r dp dd w sc = Ok out -> out = (dd, w, sc, r).
Proof.
  intros H1 H2 H3 E. destruct r as [|c r]; [by injection E as <-|]. change (deref (c :: r)) with c in *. cbn [scan_digits tail] in *. rewrite H1 in E.
  destruct (Z.eqb_spec c 46) as [->|]; [destruct H3 as [| ->]; done|]. destruct (Z.eqb_spec c 95) as [->|]; [by rewrite (H2 eq_refl) in E|]. by injection E as <-.
Qed.

Lemma scan_inv cp dd w sc r dp cp' : (if deref cp =? 46 then (true, tail cp) else (false, cp)) = (dp, cp') -> isdigit (deref cp') = true ->
  scan_digits cp' dp [] (-1) 0 = Ok (dd, w, sc, r) -> exists int frac m, cp = m ++ r /\ mantissa int frac m.
Proof.
  intros Edp Hd E. destruct (longest_run isdigit decval cp' Hd eq_refl eq_refl) as (ds & s & r1 & -> & Hs & R1 & R2). rewrite (scan_run _ _ _ _ _ _ _ Hs) in E.
  destruct (Z.eqb_spec (deref cp) 46) as [E46|E46]; injection Edp as <- Ecp.
  - destruct cp as [|c cp]; [done|]. change (deref (c :: cp)) with c in E46. cbn [tail] in Ecp. subst. apply scan_rest in E; [|done|done|by right]. injection E as _ _ _ ->.
    exists [], ds, (46 :: s). split; [done|by constructor].
  - subst cp. destruct (decide (deref r1 = 46)) as [E1|E1]; [|apply scan_rest in E; [|done|done|by left]; injection E as _ _ _ ->; exists ds, [], s; split; [done|by constructor]].
    destruct r1 as [|c r1]; [done|]. change (deref (c :: r1)) with c in E1. subst c. cbn [scan_digits] in E. change (isdigit 46) with false in E. change (46 =? 46) with true in E. cbv iota in E.
    destruct (Z.eqb_spec (deref r1) 95) as [|H95]; [done|]. destruct (isdigit (deref r1)) eqn:Ed.
    + destruct (longest_run isdigit decval r1 Ed eq_refl eq_refl) as (fs & t & r2 & -> & Ht & T1 & T2). rewrite (scan_run _ _ _ _ _ _ _ Ht) in E. apply scan_rest in E; [|done|done|by right].
      injection E as _ _ _ ->. exists ds, fs, (s ++ 46 :: t). rewrite <- app_assoc. split; [done|by constructor].
    + apply scan_rest in E; [|done|done|by right]. injection E as _ _ _ ->. exists ds, [], (s ++ [46]). rewrite <- app_assoc. split; [done|by constructor].
Qed.

Lemma scan_exponent_large ds s r a : spelled isdigit decval ds s -> 0 <= a -> max_exponent < a * 10 ^ Z.of_nat (length ds) + dval ds -> scan_exponent (s ++ r) a = Err OVERFLOW.
Proof.
  intros H. revert a. induction H as [c Hc|c ds s Hc Hs IH|c ds s Hc Hs IH]; intros a Ha Hb; cbn [app scan_exponent]; rewrite Hc; fold max_exponent; change (c - 48) with (decval c); rewrite fold_cons in Hb;
    pose proof (decval_ok c Hc) as [Hd _]; destruct (Z.ltb_spec max_exponent (a * 10 + decval c)) as [|Hle]; try done.
  - unfold dval in Hb. simpl in Hb. lia.
  - apply IH; lia.
  - change (isdigit 95) with false. change (95 =? 95) with true. rewrite (spelled_deref _ _ _ _ r Hs). cbn [negb]. apply IH; lia.
Qed.

Lemma exponent_inv cp w sc w' sc' r : exponent_part cp w sc = Ok (w', sc', r) -> exists x e, cp = e ++ r /\ exponent_text x e.
Proof.
  unfold exponent_part. destruct ((deref cp =? 101) || (deref cp =? 69)) eqn:Ee; [|intros [= _ _ ->]; exists 0, []; split; [done|constructor]].
  destruct cp as [|c cp]; [done|]. change (deref (c :: cp)) with c in Ee. cbn [tail]. apply orb_true_iff in Ee. rewrite !Z.eqb_eq in Ee.
  set (q := if deref cp =? 43 then _ else _). assert (Hq : exists neg p, q = (neg, p) /\ (neg = false /\ (cp = p \/ cp = 43 :: p) \/ neg = true /\ cp = 45 :: p)).
  { unfold q. destruct cp as [|c' cp]; [by exists false, []; auto|]. change (deref (c' :: cp)) with c'. destruct (Z.eqb_spec c' 43) as [->|]; [exists false, cp; auto|].
    destruct (Z.eqb_spec c' 45) as [->|]; [exists true, cp; auto|exists false, (c' :: cp); auto]. }
  destruct Hq as (neg & p & -> & Hcp). destruct (isdigit (deref p)) eqn:Ed; cbn [negb]; [|done]. intros E.
  destruct (longest_run isdigit decval p Ed eq_refl eq_refl) as (ds & s & r1 & -> & Hs & R1 & R2). destruct (decide (dval ds <= max_exponent)) as [Hle|Hgt].
  2: { rewrite (scan_exponent_large ds s r1 0 Hs) in E by lia. done. }
  rewrite (scan_exponent_run _ _ _ _ Hs) in E by lia. assert (Er : r = r1 /\ deref r1 <> 95).
  { destruct r1 as [|c' r1]; [by injection E|]. change (deref (c' :: r1)) with c' in *. cbn [scan_exponent tail] in *. rewrite R1 in E. destruct (Z.eqb_spec c' 95) as [->|]; [by rewrite (R2 eq_refl) in E|].
    by injection E. }
  destruct Er as [-> _]. destruct Hcp as [[-> [-> | ->]]|[-> ->]].
  - exists (dval ds), (c :: [] ++ s). split; [done|]. by apply exp_plus; [|left| |].
  - exists (dval ds), (c :: [43] ++ s). split; [done|]. by apply exp_plus; [|right| |].
  - exists (- dval ds), (c :: 45 :: s). split; [done|]. by apply exp_minus.
Qed.

Lemma set_var_inv cp v r : (deref cp =? 43) = false -> (deref cp =? 45) = false -> set_var_from_str cp = Ok (v, r) ->
  exists int frac m x e, cp = m ++ e ++ r /\ mantissa int frac m /\ exponent_text x e.
Proof.
  intros H1 H2. unfold set_var_from_str. rewrite H1, H2. destruct (if deref cp =? 46 then (true, tail cp) else (false, cp)) as [dp cp'] eqn:Edp.
  destruct (isdigit (deref cp')) eqn:Ed; cbn [negb]; [|done]. destruct (scan_digits cp' dp [] (-1) 0) as [[[[dd w] sc] r1]|] eqn:Es; cbn [res_bind]; [|done].
  destruct (exponent_part r1 w sc) as [[[w' sc'] r2]|] eqn:Ex; cbn [res_bind]; [|done]. destruct (from_decimal dd w' sc' NUMERIC_POS); cbn [res_bind]; [|done]. intros [= _ <-].
  destruct (scan_inv _ _ _ _ _ _ _ Edp Ed Es) as (int & frac & m & -> & Hm). destruct (exponent_inv _ _ _ _ _ _ Ex) as (x & e & -> & He). by exists int, frac, m, x, e.
Qed.

(** Scanning in another base goes through the run. *)
Lemma scan_based_through cells base isdig val ds s r v tmp mul out : isdig 95 = false -> spelled isdig val ds s ->
  scan_based cells base isdig val (s ++ r) v tmp mul = Ok out -> exists v' tmp' mul', scan_based cells base isdig val r v' tmp' mul' = Ok out.
Proof.
  intros H95 H. assert (Hstep : forall c p v tmp mul, isdig c = true -> scan_based cells base isdig val (c :: p) v tmp mul = Ok out ->
    exists v' tmp' mul', scan_based cells base isdig val p v' tmp' mul' = Ok out).
  { intros c p v0 t0 m0 Hc. cbn [scan_based]. rewrite Hc. destruct (if _ <? m0 then _ else _) as [[[v1 t1] m1]|]; cbn [res_bind]; [|done].
    destruct (int64 (t1 * base + val c)) as [t2|]; cbn [res_bind]; [|done]. destruct (int64 (m1 * base)) as [m2|]; cbn [res_bind]; [|done]. intros E. by exists v1, t2, m2. }
  revert v tmp mul. induction H as [c Hc|c ds s Hc Hs IH|c ds s Hc Hs IH]; intros v tmp mul E; cbn [app] in E; destruct (Hstep _ _ _ _ _ Hc E) as (v' & t' & m' & E'); clear E; rename E' into E; [by exists v', t', m'|by apply IH in E|].
  cbn [scan_based] in E. rewrite H95 in E. change (95 =? 95) with true in E. rewrite (spelled_deref _ _ _ _ r Hs) in E. by apply IH in E.
Qed.

Lemma scan_based_inv cells base isdig val cp v tmp mul v' t' m' r : isdig 95 = false -> isdig 0 = false ->
  scan_based cells base isdig val cp v tmp mul = Ok (v', t', m', r) -> length r <> length cp -> exists u ds s, cp = u ++ s ++ r /\ (u = [] \/ u = [95]) /\ spelled isdig val ds s.
Proof.
  intros H95 H0 E Hlen. assert (Hrun : forall p v tmp mul, isdig (deref p) = true -> scan_based cells base isdig val p v tmp mul = Ok (v', t', m', r) -> exists ds s, p = s ++ r /\ spelled isdig val ds s).
  { intros p v0 t0 m0 Hd Ep. destruct (longest_run isdig val p Hd H95 H0) as (ds & s & r1 & -> & Hs & R1 & R2). destruct (scan_based_through _ _ _ _ _ _ _ _ _ _ _ H95 Hs Ep) as (v2 & t2 & m2 & E2).
    exists ds, s. split; [|done]. f_equal. destruct r1 as [|c r1]; [by injection E2|]. change (deref (c :: r1)) with c in *. cbn [scan_based tail] in *. rewrite R1 in E2.
    destruct (Z.eqb_spec c 95) as [->|]; [by rewrite (R2 eq_refl) in E2|]. by injection E2. }
  destruct cp as [|c cp]; [by injection E as _ _ _ <-|]. destruct (isdig c) eqn:Ec.
  - destruct (Hrun (c :: cp) v tmp mul Ec E) as (ds & s & Ecp & Hs). exists [], ds, s. auto.
  - cbn [scan_based] in E. rewrite Ec in E. destruct (Z.eqb_spec c 95) as [->|]; [|by injection E as _ _ _ <-]. destruct (isdig (deref cp)) eqn:Ed; cbn [negb] in E; [|done].
    destruct (Hrun cp v tmp mul Ed E) as (ds & s & -> & Hs). exists [95], ds, s. auto.
Qed.

(** The digits that were read, from a result; [H] is the test of the prefix. *)
Ltac invert_groups E con H p c1 :=
  let Es := fresh in destruct (scan_based _ _ _ _ _ _ _ _) as [[[[d t'] m'] cp]|] eqn:Es; cbn [res_bind] in E; [|done];
  let Hlen := fresh in destruct (Nat.eqb_spec (length cp) (length p)) as [|Hlen]; [done|]; destruct (add_group _ d m' t'); cbn [res_bind] in E; [|done]; injection E as _ <-;
  destruct (scan_based_inv _ _ _ _ _ _ _ _ _ _ _ _ eq_refl eq_refl Es Hlen) as (u & ds & t & -> & Hu & Hs); exists ds, (48 :: c1 :: u ++ t); split; [cbn [app]; by rewrite <- app_assoc|];
  apply con; [|done|done]; apply orb_true_iff in H; by rewrite !Z.eqb_eq in H.

Lemma set_based_inv cells cp s base v r : deref cp = 48 -> base_of cp = base -> base <> 10 ->
  set_var_from_non_decimal_integer_str cells (drop 2 cp) s base = Ok (v, r) -> exists ds m, cp = m ++ r /\ based base ds m.
Proof.
  intros H48 Hb Hne E. destruct cp as [|c0 [|c1 p]]; [done|change (deref [c0]) with c0 in H48; subst; done|]. change (deref (c0 :: c1 :: p)) with c0 in H48. subst c0. change (drop 2 (48 :: c1 :: p)) with p in E.
  unfold set_var_from_non_decimal_integer_str in E. unfold base_of in Hb. change (deref (48 :: c1 :: p)) with 48 in Hb. change (deref (tail (48 :: c1 :: p))) with c1 in Hb. cbv zeta in Hb. change (48 =? 48) with true in Hb. cbv iota in Hb.
  destruct ((c1 =? 120) || (c1 =? 88)) eqn:Ex; [|destruct ((c1 =? 111) || (c1 =? 79)) eqn:Eo; [|destruct ((c1 =? 98) || (c1 =? 66)) eqn:Eb; [|by destruct Hne]]]; subst base.
  - change (16 =? 16) with true in E. cbv iota in E. invert_groups E based_hex Ex p c1.
  - change (8 =? 16) with false in E. change (8 =? 8) with true in E. cbv iota in E. invert_groups E based_octal Eo p c1.
  - change (2 =? 16) with false in E. change (2 =? 8) with false in E. change (2 =? 2) with true in E. cbv iota in E. invert_groups E based_binary Eb p c1.
Qed.

(** ** Special values *)

Lemma caseeq_inv s1 s2 : c_string s1 -> c_string s2 -> pg_strncaseeq s1 s2 (length s2) = true -> map pg_lower (take (length s2) s1) = map pg_lower s2.
Proof.
  intros H1 H2. revert s1 H1. induction H2 as [|c s2 Hc _ IH]; intros s1 H1; [done|]. cbn [length pg_strncaseeq]. change (deref (c :: s2)) with c. destruct H1 as [|c1 s1 Hc1 H1].
  - change (deref []) with 0. destruct (Z.eqb_spec 0 c); [done|]. cbn [negb andb]. unfold pg_lower at 1. cbn [Z.leb Z.compare andb].
    destruct (Z.eqb_spec 0 (pg_lower c)) as [E|]; [|done]. exfalso. unfold pg_lower in E. destruct ((65 <=? c) && (c <=? 90)) eqn:Er; [|done]. rewrite andb_true_iff, !Z.leb_le in Er. lia.
  - change (deref (c1 :: s1)) with c1. cbn [tail take firstn map]. destruct (Z.eqb_spec c1 c) as [->|Hne]; cbn [negb andb].
    + destruct (Z.eqb_spec c 0); [done|]. intros E. f_equal. by apply IH.
    + destruct (Z.eqb_spec (pg_lower c1) (pg_lower c)) as [El|]; cbn [negb]; [|done]. destruct (Z.eqb_spec c1 0); [done|]. intros E. f_equal; [done|]. by apply IH.
Qed.

Lemma caseeq_same w s r : c_string s -> map pg_lower w = map pg_lower s -> c_string w -> pg_strncaseeq (w ++ r) s (length s) = true.
Proof.
  intros Hs. revert w. induction Hs as [|c s Hc _ IH]; intros w E Hw; [done|]. destruct w as [|c1 w]; [done|]. injection E as Ec E. inversion Hw; subst.
  cbn [length pg_strncaseeq app]. change (deref (c1 :: w ++ r)) with c1. change (deref (c :: s)) with c. rewrite Ec, Z.eqb_refl, andb_false_r. destruct (Z.eqb_spec c1 0); [done|]. by apply IH.
Qed.

(** "inf" and spaces is not the beginning of "infinity". *)
Lemma caseeq_short w r : letters w "inf" -> c_string w -> spaces r -> pg_strncaseeq (w ++ r) (codes "Infinity") 8 = false.
Proof.
  intros Hw Hc Hr. apply not_true_iff_false. intros E. assert (Hcr : c_string r) by (eapply Forall_impl; [exact Hr|]; intros c H%isspace_cases; lia).
  change 8%nat with (length (codes "Infinity")) in E. apply caseeq_inv in E; [|by apply Forall_app|by repeat constructor]. unfold letters in Hw.
  assert (Hlen : length w = 3%nat) by (apply (f_equal length) in Hw; by rewrite length_map in Hw).
  rewrite take_app_ge, map_app, Hw in E by (rewrite Hlen; simpl; lia). rewrite Hlen in E. destruct Hr as [|c r Hs _]; [discriminate|]. apply (f_equal (fun l => l !! 3%nat)) in E. change (Some (pg_lower c) = Some 105) in E. injection E as E. apply isspace_cases in Hs. unfold pg_lower in E.
  destruct ((65 <=? c) && (c <=? 90)) eqn:Er; [rewrite andb_true_iff, !Z.leb_le in Er; lia|lia].
Qed.

(** What becomes of a literal, given the modifier of the column. *)
Definition input_result (r : res Numeric) (x : number) (t : Z) : Prop :=
  match x with
  | Fin q d => stored r q d t \/ (~ in_format q 0 /\ r = Err OVERFLOW)
  | NaN => exists n, r = Ok n /\ denotes n NaN
  | _ => if is_valid_numeric_typmod t then r = Err "numeric field overflow" else exists n, r = Ok n /\ denotes n x
  end.

Lemma unit_abs s n : 0 <= n -> (Qabs (unit_of s * inject_Z n) == inject_Z n)%Q.
Proof.
  intros H. assert (0 <= inject_Z n)%Q by (change 0%Q with (inject_Z 0); by rewrite <- Zle_Qle). unfold unit_of. destruct (s =? NUMERIC_NEG); [rewrite Qabs_neg by lra; ring|rewrite Qabs_pos by lra; ring].
Qed.

Lemma lower_first w a l : map pg_lower w = a :: l -> 97 <= a <= 122 -> forall r, let c := deref (w ++ r) in
  isdigit c = false /\ (c =? 46) = false /\ (c =? 43) = false /\ (c =? 45) = false /\ isspace c = false.
Proof.
  intros E Ha r. destruct w as [|c w]; [done|]. injection E as Ec _. change (deref ((c :: w) ++ r)) with c. cbv zeta. unfold pg_lower in Ec.
  assert (Hc : 65 <= c <= 90 \/ 97 <= c <= 122) by (destruct ((65 <=? c) && (c <=? 90)) eqn:Er; [rewrite andb_true_iff, !Z.leb_le in Er; lia|lia]).
  rewrite <- !not_true_iff_false, isdigit_range, !Z.eqb_eq. repeat split; try lia. intros H%isspace_cases. lia.
Qed.

Lemma not_nan cp : pg_lower (deref cp) <> 110 -> pg_strncaseeq cp (codes "NaN") 3 = false.
Proof.
  intros H. change (codes "NaN") with [78; 97; 78]. cbn [pg_strncaseeq]. change (deref [78; 97; 78]) with 78. change (pg_lower 78) with 110.
  destruct (Z.eqb_spec (deref cp) 78) as [E|]; [by rewrite E in H|]. by destruct (Z.eqb_spec (pg_lower (deref cp)) 110).
Qed.

Lemma special_input cells str x t : literal str x -> is_fin x = false -> c_string str -> input_result (numeric_in cells str t) x t.
Proof.
  intros Hl Hx Hstr. destruct Hl as [| |sp w r Hsp Hw Hr|sp s sg w r Hsp Hsg Hw Hr]; [done|done| |].
  - apply Forall_app in Hstr as [_ [Hcw _]%Forall_app]. unfold letters in Hw. assert (Ew : w <> []) by (by intros ->). destruct (lower_first w 110 _ Hw ltac:(lia) r) as (L1 & L2 & L3 & L4 & L5).
    unfold numeric_in. rewrite skip_spaces_spec by done. rewrite L3, L4, L1, L2. cbn [negb andb].
    pose proof (caseeq_same w (codes "NaN") r ltac:(by repeat constructor) ltac:(rewrite Hw; reflexivity) Hcw) as Hq. change (length (codes "NaN")) with 3%nat in Hq. rewrite Hq. cbn [res_bind].
    assert (Hlen : length w = 3%nat) by (apply (f_equal length) in Hw; by rewrite length_map in Hw). rewrite <- Hlen, drop_app_length. cbn [res_bind make_result]. cbn. rewrite only_spaces_spec by done. by eexists.
  - apply Forall_app in Hstr as [_ [_ [Hcw _]%Forall_app]%Forall_app]. assert (Ef : exists rest, map pg_lower w = 105 :: rest) by (destruct Hw as [-> | ->]; by eexists). destruct Ef as [rest Ef].
    destruct (lower_first w 105 _ Ef ltac:(lia) r) as (L1 & L2 & L3 & L4 & L5).
    unfold numeric_in. rewrite skip_spaces_spec by (done || by destruct Hsg). destruct (sign_scan s sg (w ++ r) Hsg L3 L4) as [-> Hs]. rewrite L1, L2. cbn [negb andb].
    assert (Hnan : pg_strncaseeq (sg ++ w ++ r) (codes "NaN") 3 = false).
    { apply not_nan. destruct Hsg; [|done|done]. destruct w as [|c w]; [done|]. injection Ef as Ec _. cbn [app]. change (deref (c :: w ++ r)) with c. by rewrite Ec. }
    rewrite Hnan. assert (Hinf : exists k, length w = k /\ (if pg_strncaseeq (w ++ r) (codes "Infinity") 8 then Ok (if s =? NUMERIC_POS then const_pinf else const_ninf, drop 8 (w ++ r))
      else if pg_strncaseeq (w ++ r) (codes "inf") 3 then Ok (if s =? NUMERIC_POS then const_pinf else const_ninf, drop 3 (w ++ r)) else Err SYNTAX)
      = Ok (if s =? NUMERIC_POS then const_pinf else const_ninf, r)).
    { unfold letters in Hw. destruct Hw as [Hw|Hw].
      - assert (Hlen : length w = 8%nat) by (apply (f_equal length) in Hw; by rewrite length_map in Hw). exists 8%nat. split; [done|].
        pose proof (caseeq_same w (codes "Infinity") r ltac:(by repeat constructor) ltac:(rewrite Hw; reflexivity) Hcw) as Hq. change (length (codes "Infinity")) with 8%nat in Hq. rewrite Hq. by rewrite <- Hlen, drop_app_length.
      - assert (Hlen : length w = 3%nat) by (apply (f_equal length) in Hw; by rewrite length_map in Hw). exists 3%nat. split; [done|]. rewrite caseeq_short by done.
        pose proof (caseeq_same w (codes "inf") r ltac:(by repeat constructor) ltac:(rewrite Hw; reflexivity) Hcw) as Hq. change (length (codes "inf")) with 3%nat in Hq. rewrite Hq. by rewrite <- Hlen, drop_app_length. }
    destruct Hinf as (k & _ & ->). cbn [res_bind]. unfold input_result. destruct Hs as [-> | ->]; cbn; rewrite only_spaces_spec by done; cbn; unfold apply_typmod_special; cbn; destruct (is_valid_numeric_typmod t); cbn; (done || by eexists).
Qed.

(** ** Input as a whole *)

(** A literal is read, whatever the type modifier. *)
Lemma literal_input cells str x t : (5 <= length cells)%nat -> c_string str -> literal str x -> input_result (numeric_in cells str t) x t.
Proof.
  intros Hc Hstr Hl. destruct (is_fin x) eqn:Ex; [|by apply special_input]. destruct Hl as [sp s sg int frac m x e r Hsp Hsg Hm He Hr|sp s sg base ds m r Hsp Hsg Hm Hr| |sp s sg w r]; [| |done|by destruct (s =? NUMERIC_POS)].
  - left. by apply decimal_input.
  - destruct (based_input cells sp s sg base ds m r t Hc Hsp Hsg Hm Hr) as [H|[-> Hbig]]; [by left|right]. split; [|done]. intros [Hlt _]. rewrite unit_abs in Hlt; [lra|].
    rewrite Zle_Qle. eapply Qle_trans; [|exact Hbig]. apply Qlt_le_weak, bpow_pos.
Qed.

Lemma only_spaces_inv r u : c_string r -> only_spaces r = Ok u -> spaces r.
Proof.
  intros Hc. unfold only_spaces. destruct (skip_spaces_split r) as (ws & E & Hws & _). destruct (Z.eqb_spec (deref (skip_spaces r)) 0) as [E0|]; [|done]. intros _.
  destruct (skip_spaces r) as [|c p]; subst r; [by rewrite app_nil_r|]. apply Forall_app in Hc as [_ Hc]. by inversion Hc; subst.
Qed.

(** The sign that is read. *)
Lemma sign_inv cp s cp' :
  (if deref cp =? 43 then (NUMERIC_POS, tail cp) else if deref cp =? 45 then (NUMERIC_NEG, tail cp) else (NUMERIC_POS, cp)) = (s, cp') -> exists sg, sign_text s sg /\ cp = sg ++ cp'.
Proof.
  destruct cp as [|c cp]; [intros [= <- <-]; exists []; split; [constructor|done]|]. change (deref (c :: cp)) with c. cbn [tail].
  destruct (Z.eqb_spec c 43) as [->|]; [intros [= <- <-]; exists [43]; split; [constructor|done]|].
  destruct (Z.eqb_spec c 45) as [->|]; intros [= <- <-]; [exists [45]|exists []]; (split; [constructor|done]).
Qed.

(** A word of the special values and what follows it. *)
Lemma special_word cp w : c_string cp -> c_string (codes w) -> pg_strncaseeq cp (codes w) (length (codes w)) = true ->
  exists v, cp = v ++ drop (length (codes w)) cp /\ map pg_lower v = map pg_lower (codes w).
Proof. intros H1 H2 H3. exists (take (length (codes w)) cp). split; [symmetry; apply take_drop|]. by apply caseeq_inv. Qed.

(** What is accepted is a literal. *)
Lemma numeric_in_inv cells str t n : c_string str -> numeric_in cells str t = Ok n -> exists x, literal str x.
Proof.
  intros Hstr. unfold numeric_in. destruct (skip_spaces_split str) as (sp & E & Hsp & _). set (cp0 := skip_spaces str) in *. clearbody cp0. subst str. apply Forall_app in Hstr as [_ Hcp0].
  destruct (if deref cp0 =? 43 then _ else _) as [s cp] eqn:Es. destruct (sign_inv _ _ _ Es) as (sg & Hsg & E0).
  assert (Hcp : c_string cp) by (subst cp0; by apply Forall_app in Hcp0 as [_ ?]). destruct (negb (isdigit (deref cp)) && negb (deref cp =? 46)) eqn:Ed.
  - destruct (pg_strncaseeq cp0 (codes "NaN") 3) eqn:E1; [|destruct (pg_strncaseeq cp (codes "Infinity") 8) eqn:E2; [|destruct (pg_strncaseeq cp (codes "inf") 3) eqn:E3; [|done]]]; cbn [res_bind];
      (destruct (make_result _) as [res|]; cbn [res_bind]; [|done]); (destruct (only_spaces _) as [u|] eqn:Eo; cbn [res_bind]; [|done]); intros _.
    + destruct (special_word cp0 "NaN" Hcp0 ltac:(by repeat constructor) E1) as (v & Ev & Hv). exists NaN. change (length (codes "NaN")) with 3%nat in Ev. rewrite Ev. rewrite Ev in Hcp0.
      apply Forall_app in Hcp0 as [_ Hr]. apply lit_nan; [done|exact Hv|by apply only_spaces_inv in Eo].
    + destruct (special_word cp "Infinity" Hcp ltac:(by repeat constructor) E2) as (v & Ev & Hv). change (length (codes "Infinity")) with 8%nat in Ev. eexists. rewrite E0, Ev. rewrite Ev in Hcp.
      apply Forall_app in Hcp as [_ Hr]. apply (lit_inf sp s sg v); [done|done|left; exact Hv|by apply only_spaces_inv in Eo].
    + destruct (special_word cp "inf" Hcp ltac:(by repeat constructor) E3) as (v & Ev & Hv). change (length (codes "inf")) with 3%nat in Ev. eexists. rewrite E0, Ev. rewrite Ev in Hcp.
      apply Forall_app in Hcp as [_ Hr]. apply (lit_inf sp s sg v); [done|done|right; exact Hv|by apply only_spaces_inv in Eo].
  - intros En. subst cp0. clear Es Hcp0. assert (Hd : (deref cp =? 43) = false /\ (deref cp =? 45) = false).
    { destruct (isdigit (deref cp)) eqn:Ei; [by destruct (digit_not_point _ Ei) as (_ & _ & ? & ?)|]. cbn [negb andb] in Ed. apply negb_false_iff, Z.eqb_eq in Ed. by rewrite Ed. }
    destruct (Z.eqb_spec (base_of cp) 10) as [Eb|Eb].
    + destruct (set_var_from_str cp) as [[v r]|] eqn:Ev; cbn [res_bind] in En; [|done]. destruct (only_spaces r) as [u|] eqn:Eo; cbn [res_bind] in En; [|done].
      destruct (set_var_inv cp v r (proj1 Hd) (proj2 Hd) Ev) as (int & frac & m & x & e & -> & Hm & He). apply Forall_app in Hcp as [_ [_ Hr]%Forall_app]. eexists. apply lit_decimal; try done. by apply only_spaces_inv in Eo.
    + destruct (set_var_from_non_decimal_integer_str cells (drop 2 cp) s (base_of cp)) as [[v r]|] eqn:Ev; cbn [res_bind] in En; [|done]. destruct (only_spaces r) as [u|] eqn:Eo; cbn [res_bind] in En; [|done].
      assert (H48 : deref cp = 48) by (unfold base_of in Eb; by destruct (Z.eqb_spec (deref cp) 48)). destruct (set_based_inv cells cp s _ v r H48 eq_refl Eb Ev) as (ds & m & Ecp & Hm). rewrite Ecp in *.
      apply Forall_app in Hcp as [_ Hr]. eexists. eapply lit_based; try done. by apply only_spaces_inv in Eo.
Qed.
