(* ===== verification/NumericTextProps.v ===== *)
(** The theorems on numeric columns, whole numbers and text, each with an application to
    concrete values. *)

From S2P Require Import Prelude Numutils NumutilsProps Numeric NumericArith NumericRound NumericMul NumericPack NumericNum NumericTimes NumericInt NumericProps NumericFun NumericType NumericWhole NumericText NumericPrint NumericParse NumericBased NumericAccept.
Local Open Scope Z_scope.
Local Open Scope pg_scope.

(** ** Text that is written *)

Lemma spelled_chars l : Forall is_decimal l -> l <> [] -> spelled isdigit decval l (chars l).
Proof.
  intros H Hne. induction H as [|d l Hd Hl IH]; [done|]. assert (Hi : isdigit (d + 48) = true) by (apply isdigit_range; unfold is_decimal in Hd; lia).
  assert (Ev : d = decval (d + 48)) by (unfold decval; lia). cbn [chars map]. rewrite Ev at 1. destruct l as [|d' l]; [by apply spelled_one|]. apply spelled_more; [done|by apply IH].
Qed.

Lemma mantissa_text int frac : Forall is_decimal int -> Forall is_decimal frac -> int <> [] -> mantissa int frac (chars int ++ match frac with [] => [] | _ => 46 :: chars frac end).
Proof.
  intros Hi Hf Hne. destruct frac as [|d frac]; [rewrite app_nil_r; apply man_int; by apply spelled_chars|]. apply man_both; by apply spelled_chars.
Qed.

(** What is written of a finite value is read as that value. *)
Lemma out_finite n q d : denotes n (Fin q d) -> exists neg int frac, numeric_out n = Ok (decimal_text neg int frac)
  /\ (forall cells t, exists q', (q' == q)%Q /\ stored (numeric_in cells (decimal_text neg int frac) t) q' d t) /\ Z.of_nat (length frac) = d /\ first_not_zero int.
Proof.
  intros D. unfold numeric_out. destruct (kinds n _ D) as (-> & _). cbn [is_fin negb]. apply fin_parts in D as (N & Hq & Hd & B & Hm). set (v := init_var_from_num n) in *. clearbody v.
  destruct (get_str_spec v N ltac:(lia) ltac:(by rewrite Hd)) as (int & frac & -> & [W1 W2 W3 W4 W5 W6]). rewrite Hd in *. set (s := if sign v =? NUMERIC_NEG then NUMERIC_NEG else NUMERIC_POS).
  exists (sign v =? NUMERIC_NEG), int, frac. split; [done|]. split; [|done]. intros cells t. exists (literal_value s int frac 0). split.
  - rewrite <- Hq. unfold literal_value, value, sgn. rewrite W6, W5, Z.sub_0_l. unfold unit_of, s. by destruct (sign v =? NUMERIC_NEG).
  - assert (Hsg : sign_text s (if sign v =? NUMERIC_NEG then [45] else [])) by (unfold s; destruct (sign v =? NUMERIC_NEG); constructor).
    pose proof (decimal_input cells [] s _ int frac _ 0 [] [] t (Forall_nil_2 _) Hsg (mantissa_text int frac W1 W2 W3) exp_none (Forall_nil_2 _)) as Hl.
    rewrite !app_nil_r in Hl. replace (literal_scale frac 0) with d in Hl by (unfold literal_scale; lia). exact Hl.
Qed.

(** The numbers of the format are packed. *)
Lemma denoted_fits n q d : denotes n (Fin q d) -> in_format q d.
Proof.
  intros D. pose proof D as (F & _). apply fin_parts in D as (N & Hq & _ & B & _). split; [|lia]. rewrite <- Hq, abs_value by apply N.
  destruct (mag_bounds _ (NUMERIC_WEIGHT n) (ok_digits _ (proj1 N))) as [_ Hu]. eapply Qlt_le_trans; [exact Hu|]. apply bpow_le. destruct F. lia.
Qed.

(** ** Theorems *)

(** C15: the text that numeric_out writes is accepted by numeric_in, whatever the contents
    of unset digits, and gives back the same number with the same display scale; a finite
    value is written with exactly as many decimal places as its display scale and without
    superfluous zeroes in front. *)
Theorem numeric_text_roundtrip cells n x : denotes n x -> exists text n', numeric_out n = Ok text /\ numeric_in cells text (-1) = Ok n' /\ denotes n' x
  /\ match x with Fin q d => exists neg int frac, text = decimal_text neg int frac /\ Z.of_nat (length frac) = d /\ first_not_zero int | _ => True end.
Proof.
  intros D. destruct x as [| | |q d]; [unfold numeric_out; destruct (kinds n _ D) as (Ks & _ & Kp & Kn); rewrite Ks, Kp; try rewrite Kn; by do 2 eexists..|].
  destruct (out_finite n q d D) as (neg & int & frac & -> & Hin & Hd & Hf). exists (decimal_text neg int frac). destruct (Hin cells (-1)) as (q' & Hq & Hst).
  destruct Hst as [(_ & n' & -> & F & V & S)|[Hno _]]; [|destruct Hno; rewrite Hq; by apply (denoted_fits n)].
  exists n'. split; [done|]. split; [done|]. split; [split; [done|]; split; [by rewrite V|done]|]. by exists neg, int, frac.
Qed.

Lemma numeric_text_roundtrip_witness :
  exists text n', numeric_out num_m0_05 = Ok text /\ numeric_in [] text (-1) = Ok n' /\ denotes n' (Fin (- (1 # 20)) 2) /\ text = codes "-0.05" /\ n' = num_m0_05.
Proof.
  destruct (numeric_text_roundtrip [] _ _ num_m0_05_ok) as (text & n' & E1 & E2 & D & _). exists text, n'. split; [exact E1|]. split; [exact E2|]. split; [exact D|].
  vm_compute in E1. injection E1 as <-. split; [reflexivity|]. vm_compute in E2. by injection E2 as <-.
Defined.

(** C14: numeric_in accepts the literals and nothing else.  Decimal literals with sign,
    point, exponent and underscores and integers in base 16, 8 and 2, in any spaces, give
    exactly the number that they write, rounded to the scale of the column; a number that
    fits neither the column nor the format is an error; "NaN" and the infinities are read
    in any case of letters, the infinities not into a column with a precision.  Any other
    text is refused. *)
Theorem numeric_in_literals cells str t : (5 <= length cells)%nat -> c_string str ->
  (forall x, literal str x -> input_result (numeric_in cells str t) x t) /\ ((forall x, ~ literal str x) -> exists e, numeric_in cells str t = Err e).
Proof.
  intros Hc Hs. split; [intros x; by apply literal_input|]. intros Hn. destruct (numeric_in cells str t) as [n|e] eqn:E; [|by exists e].
  destruct (numeric_in_inv cells str t n Hs E) as (x & Hx). by destruct (Hn x).
Qed.

Lemma numeric_in_literals_witness :
  input_result (numeric_in (replicate 5 0) (codes " 0x_1F ") (-1)) (Fin (1 * inject_Z 31) 0) (-1) /\ numeric_in (replicate 5 0) (codes " 0x_1F ") (-1) = Ok (mk_numeric 0x8000 0 [31])
  /\ numeric_in (replicate 5 0) (codes "1__0") (-1) = Err SYNTAX.
Proof.
  split; [|split; reflexivity]. apply (numeric_in_literals (replicate 5 0) (codes " 0x_1F ") (-1)); [simpl; lia|by repeat constructor|].
  apply (lit_based [32] NUMERIC_POS [] 16 [1; 15] (codes "0x_1F") [32]); [by repeat constructor|constructor| |by repeat constructor].
  apply (based_hex 120 [95] [1; 15] [49; 70]); [by left|by right|]. apply (spelled_more isxdigit xdigit_value 49 [15] [70]); [done|]. by apply (spelled_one isxdigit xdigit_value 70).
Defined.

(** C22: numeric(p, s) is a type for any precision from 1 to 1000 and scale from -1000 to
    1000.  A finite value that goes into such a column is rounded half away from zero to
    the scale; if it then has at most p - s digits in front of the point it is stored
    exactly, in no more bytes than numeric_maximum_size says, and otherwise it is an
    error; not-a-number is stored and the infinities are refused. *)
Theorem numeric_column_cast p s : 1 <= p <= NUMERIC_MAX_PRECISION -> NUMERIC_MIN_SCALE <= s <= NUMERIC_MAX_SCALE ->
  exists t, numerictypmodin [p; s] = Ok t
  /\ (forall n q d, denotes n (Fin q d) -> let q' := half_away q s in
       ((Qabs q' < tpow (p - s))%Q -> exists m, numeric n t = Ok m /\ denotes m (Fin q' (Z.max s 0)) /\ num_size m <= numeric_maximum_size t)
       /\ ((tpow (p - s) <= Qabs q')%Q -> numeric n t = Err "numeric field overflow"))
  /\ (forall n, denotes n NaN -> numeric n t = Ok n) /\ (forall n, denotes n PInf \/ denotes n NInf -> numeric n t = Err "numeric field overflow").
Proof.
  intros Hp Hs. unfold NUMERIC_MAX_PRECISION, NUMERIC_MIN_SCALE, NUMERIC_MAX_SCALE in *. destruct (typmod_roundtrip p s ltac:(lia) ltac:(lia)) as (T1 & T2 & T3). exists (make_numeric_typmod p s). split.
  { unfold numerictypmodin, NUMERIC_MAX_PRECISION, NUMERIC_MIN_SCALE, NUMERIC_MAX_SCALE. destruct (Z.ltb_spec p 1), (Z.ltb_spec 1000 p), (Z.ltb_spec s (-1000)), (Z.ltb_spec 1000 s); try lia. done. }
  set (t := make_numeric_typmod p s) in *. clearbody t. split; [|split].
  - intros n q d D. pose proof (cast_refines n q d t D T1) as Hc. unfold stored in Hc. rewrite T1, T3 in Hc. cbv zeta in Hc. set (q' := half_away q s) in *. destruct (fits_column q' t) eqn:Ef.
    + apply fits_column_spec in Ef. rewrite T2, T3 in Ef. split; [intros _|lra]. destruct Hc as (m & E & Dm). exists m. split; [done|]. split; [done|]. by apply (cast_size n q d).
    + split; [|done]. intros Hlt. rewrite <- T2, <- T3 in Hlt. apply fits_column_spec in Hlt. congruence.
  - intros n D. unfold numeric, apply_typmod_special. destruct (kinds n _ D) as (-> & -> & _). done.
  - intros n [D|D]; unfold numeric, apply_typmod_special; destruct (kinds n _ D) as (-> & -> & _); rewrite T1; done.
Qed.

Lemma numeric_column_cast_witness :
  exists t, numerictypmodin [3; 1] = Ok t /\ (exists m, numeric num_m0_05 t = Ok m /\ denotes m (Fin (half_away (- (1 # 20)) 1) 1)) /\ numeric num_8nines t = Err "numeric field overflow".
Proof.
  destruct (numeric_column_cast 3 1) as (t & E & H & _); [unfold NUMERIC_MAX_PRECISION; lia|unfold NUMERIC_MIN_SCALE, NUMERIC_MAX_SCALE; lia|]. exists t. split; [exact E|]. split.
  - destruct (H _ _ _ num_m0_05_ok) as [H1 _]. destruct H1 as (m & Em & Dm & _); [reflexivity|]. by exists m.
  - apply (H _ _ _ num_8nines_ok). by apply Qle_bool_iff.
Defined.

(** numeric_ceil and numeric_floor give the least integer not below and the greatest
    not above a finite number, numeric_inc adds one, numeric_is_integral says whether it is
    an integer, and numeric_min_scale and numeric_trim_scale find the fewest decimal places
    that write it exactly. *)
Theorem numeric_whole_numbers n q d : denotes n (Fin q d) ->
  gives (numeric_ceil n) (Fin (inject_Z (Qceiling q)) 0) /\ gives (numeric_floor n) (Fin (inject_Z (Qfloor q)) 0) /\ gives (numeric_inc n) (Fin (q + 1) d)
  /\ (numeric_is_integral n = true <-> multiple q 1)
  /\ exists s, fewest_places q s /\ s <= d /\ numeric_min_scale n = Ok (Some s) /\ gives (numeric_trim_scale n) (Fin q s).
Proof.
  intros D. split; [exact (ceil_refines _ _ D)|]. split; [exact (floor_refines _ _ D)|]. split; [|split; [by apply (integral_spec _ _ d)|by apply scales_refine]].
  pose proof (inc_refines _ _ D) as H. cbn [plus] in H. rewrite Z.max_l in H; [exact H|]. apply fin_parts in D. lia.
Qed.

Lemma numeric_whole_numbers_witness :
  gives (numeric_ceil num_12_5) (Fin (inject_Z 13) 0) /\ gives (numeric_floor num_m0_05) (Fin (inject_Z (-1)) 0) /\ numeric_is_integral num_8nines = true.
Proof.
  split; [exact (proj1 (numeric_whole_numbers _ _ _ num_12_5_ok))|]. split; [exact (proj1 (proj2 (numeric_whole_numbers _ _ _ num_m0_05_ok)))|].
  apply (numeric_whole_numbers _ _ _ num_8nines_ok). by exists 99999999.
Defined.
