(* ===== verification/NumericDiv.v ===== *)
(** Division of numeric values, remainders, divisors and factorials
    (backend/utils/adt/numeric.c).

    [have_int128] tells whether the platform has 128-bit integers (the macro
    HAVE_INT128): divisors of three and four digits are then divided by in one word. *)

From S2P Require Import Prelude Numeric NumericFun.
Local Open Scope Z_scope.
Local Open Scope pg_scope.

Definition NUMERIC_MIN_SIG_DIGITS : Z := 16.
Definition NUMERIC_MIN_DISPLAY_SCALE : Z := 0.
Definition NUMERIC_MAX_DISPLAY_SCALE : Z := NUMERIC_MAX_PRECISION.
Definition NUMERIC_IS_INF (n : Numeric) : bool := Z.land (n_header n) (Z.lnot NUMERIC_INF_SIGN_MASK) =? NUMERIC_PINF.
Definition DIVISION_BY_ZERO : string := "division by zero".

(** The number of quotient digits to compute. Weights and scales are [int] in the code and
    unbounded here: the weights of values are 16-bit integers, the scales that the callers
    pass are at most a few ten thousand, and no sum of a few of them nears the limits. *)
Definition quotient_digits (res_weight rscale : Z) (round : bool) : Z :=
  let res_ndigits := Z.max (res_weight + 1 + Z.quot (rscale + DEC_DIGITS - 1) DEC_DIGITS) 1 in
  if round then res_ndigits + 1 else res_ndigits.

(** The end of all divisions. *)
Definition finish_quotient (v : NumericVar) (rscale : Z) (round : bool) : res NumericVar :=
  v <-! (if round then round_var v rscale else Ok (trunc_var v rscale)) ;;
  Ok (strip_var v).

(** ** Short division *)

(** The loop with a carry of [bits] bits. *)
Fixpoint short_digits (bits divisor : Z) (n i : nat) (var_digits : list Z) (carry : Z) : list Z :=
  match n with
  | O => []
  | S n' =>
      let carry := uwrap bits (carry * NBASE + (if (i <? length var_digits)%nat then rd var_digits i else 0)) in
      swrap 16 (carry / divisor) :: short_digits bits divisor n' (S i) var_digits (carry mod divisor)
  end.

(** The code for 32 bits and its copy for 64 bits. *)
Definition div_short (bits : Z) (var : NumericVar) (ival ival_weight rscale : Z) (round : bool) : res NumericVar :=
  if ival =? 0 then Err DIVISION_BY_ZERO
  else if ndigits var =? 0 then Ok (zero_var rscale)
  else
    let res_sign :=
      if sign var =? NUMERIC_POS then if 0 <? ival then NUMERIC_POS else NUMERIC_NEG
      else if 0 <? ival then NUMERIC_NEG else NUMERIC_POS in
    let res_weight := weight var - ival_weight in
    let res_ndigits := quotient_digits res_weight rscale round in
    let divisor := Z.abs ival in
    let bits := if divisor <=? Z.quot (2 ^ bits - 1) NBASE then bits else 2 * bits in
    let ds := short_digits bits divisor (Z.to_nat res_ndigits) 0 (digits var) 0 in
    finish_quotient (mk_var [0] ds res_weight res_sign (dscale var)) rscale round.

Definition div_var_int : NumericVar -> Z -> Z -> Z -> bool -> res NumericVar := div_short 32.
Definition div_var_int64 : NumericVar -> Z -> Z -> Z -> bool -> res NumericVar := div_short 64.

(** ** Long division *)

(** The value of a [NumericDigit] expression that is stored. *)
Definition int16 (x : Z) : res Z := if (- 2 ^ 15 <=? x) && (x <? 2 ^ 15) then Ok x else Err "digit out of range".

(** [carry += x * d], from the last digit to the first: the carry out and the digits. *)
Fixpoint scale_digits (d : Z) (ds : list Z) : res (Z * list Z) :=
  match ds with
  | [] => Ok (0, [])
  | x :: ds =>
      '(carry, out) <-! scale_digits d ds ;;
      p <-! int32 (x * d) ;;
      carry <-! int32 (carry + p) ;;
      Ok (Z.quot carry NBASE, Z.rem carry NBASE :: out)
  end.

Definition scale_exactly (d : Z) (ds : list Z) : res (list Z) :=
  '(carry, out) <-! scale_digits d ds ;;
  if negb (carry =? 0) then Err "carry == 0" else Ok out.

(** [while (divisor2 * qhat > (next2digits - qhat * divisor1) * NBASE + dividend[j + 2])] *)
Fixpoint lower_qhat (fuel : nat) (divisor1 divisor2 next2digits third qhat : Z) : res Z :=
  match fuel with
  | O => Err "the loop does not end"
  | S fuel =>
      p2 <-! int32 (divisor2 * qhat) ;;
      p1 <-! int32 (qhat * divisor1) ;;
      rest <-! int32 ((next2digits - p1) * NBASE) ;;
      rest <-! int32 (rest + third) ;;
      if rest <? p2 then lower_qhat fuel divisor1 divisor2 next2digits third (qhat - 1) else Ok qhat
  end.

(** The divisor times [qhat] is subtracted from the dividend, from the last digit to the
    first: the borrow and the digits. *)
Fixpoint mul_sub (qhat : Z) (dividend divisor : list Z) : res (Z * list Z) :=
  match dividend, divisor with
  | x :: dividend, y :: divisor =>
      '(borrow, out) <-! mul_sub qhat dividend divisor ;;
      p <-! int32 (y * qhat) ;;
      tmp_result <-! int32 (x - borrow - p) ;;
      let borrow := Z.quot (NBASE - 1 - tmp_result) NBASE in
      newdig <-! int16 (tmp_result + borrow * NBASE) ;;
      Ok (borrow, newdig :: out)
  | _, _ => Ok (0, [])
  end.

(** The divisor is added back. *)
Fixpoint add_back (dividend divisor : list Z) : Z * list Z :=
  match dividend, divisor with
  | x :: dividend, y :: divisor =>
      let '(carry, out) := add_back dividend divisor in
      let carry := carry + (x + y) in
      if NBASE <=? carry then (1, carry - NBASE :: out) else (0, carry :: out)
  | _, _ => (0, [])
  end.

(** A quotient digit, and the dividend after it; [dividend] begins at position [j], and
    [divisor] with the zero in front.  [qhat] is lowered at most twice. *)
Definition quotient_digit (divisor dividend : list Z) : res (Z * list Z) :=
  let n := length divisor in
  if (length dividend <? n)%nat then Err "access behind the dividend"
  else
    let divisor1 := rd divisor 1 in
    let divisor2 := rd divisor 2 in
    next2digits <-! int32 (rd dividend 0 * NBASE + rd dividend 1) ;;
    if next2digits =? 0 then Ok (0, dividend)
    else
      let qhat := if rd dividend 0 =? divisor1 then NBASE - 1 else Z.quot next2digits divisor1 in
      qhat <-! lower_qhat 3 divisor1 divisor2 next2digits (rd dividend 2) qhat ;;
      if 0 <? qhat then
        '(borrow, window) <-! mul_sub qhat (take n dividend) divisor ;;
        if negb (borrow =? 0) then
          let '(carry, window) := add_back window divisor in
          if negb (carry =? 1) then Err "carry == 1" else Ok (qhat - 1, window ++ drop n dividend)
        else Ok (qhat, window ++ drop n dividend)
      else Ok (qhat, dividend).

Fixpoint long_digits (n : nat) (divisor dividend : list Z) : res (list Z) :=
  match n with
  | O => Ok []
  | S n' =>
      '(q, dividend) <-! quotient_digit divisor dividend ;;
      out <-! long_digits n' divisor (tail dividend) ;;
      Ok (q :: out)
  end.

Definition long_division (var1 var2 : NumericVar) (rscale : Z) (round : bool) : res NumericVar :=
  let res_sign := if sign var1 =? sign var2 then NUMERIC_POS else NUMERIC_NEG in
  let res_weight := weight var1 - weight var2 in
  let res_ndigits := quotient_digits res_weight rscale round in
  let div_ndigits := Z.max (res_ndigits + ndigits var2) (ndigits var1) in
  let divisor1 := rd (digits var2) 0 in
  let rest := replicate (Z.to_nat (div_ndigits - ndigits var1)) 0 in
  '(dividend, divisor) <-!
    (if divisor1 <? HALF_NBASE then
       let d := Z.quot NBASE (divisor1 + 1) in
       divisor <-! scale_exactly d (digits var2) ;;
       dividend <-! scale_exactly d (0 :: digits var1) ;;
       if negb (HALF_NBASE <=? rd divisor 0) then Err "divisor[1] >= HALF_NBASE" else Ok (dividend, divisor)
     else Ok (0 :: digits var1, digits var2)) ;;
  ds <-! long_digits (Z.to_nat res_ndigits) (0 :: divisor) (dividend ++ rest) ;;
  finish_quotient (mk_var [0] ds res_weight res_sign (dscale var1)) rscale round.

(** The digits of a short divisor as one integer, with its sign. *)
Definition one_word (var : NumericVar) : Z :=
  let idivisor := fold_left (fun a d => a * NBASE + d) (digits var) 0 in
  if sign var =? NUMERIC_NEG then - idivisor else idivisor.

Definition div_var (have_int128 : bool) (var1 var2 : NumericVar) (rscale : Z) (round : bool) : res NumericVar :=
  if (ndigits var2 =? 0) || (rd (digits var2) 0 =? 0) then Err DIVISION_BY_ZERO
  else
    let idivisor_weight := weight var2 - (ndigits var2 - 1) in
    if ndigits var2 <=? 2 then div_var_int var1 (one_word var2) idivisor_weight rscale round
    else if have_int128 && (ndigits var2 <=? 4) then div_var_int64 var1 (one_word var2) idivisor_weight rscale round
    else if ndigits var1 =? 0 then Ok (zero_var rscale)
    else long_division var1 var2 rscale round.

(** ** Scales *)

(** The weight of the first digit that is not zero, and that digit; the last digit looked
    at if there is none. *)
Fixpoint first_digit (ds : list Z) (w last : Z) : Z * Z :=
  match ds with
  | [] => (0, last)
  | d :: ds => if negb (d =? 0) then (w, d) else first_digit ds (w - 1) d
  end.

Definition select_div_scale (var1 var2 : NumericVar) : Z :=
  let '(weight1, firstdigit1) := first_digit (digits var1) (weight var1) 0 in
  let '(weight2, firstdigit2) := first_digit (digits var2) (weight var2) 0 in
  let qweight := weight1 - weight2 in
  let qweight := if firstdigit1 <=? firstdigit2 then qweight - 1 else qweight in
  let rscale := NUMERIC_MIN_SIG_DIGITS - qweight * DEC_DIGITS in
  let rscale := Z.max rscale (dscale var1) in
  let rscale := Z.max rscale (dscale var2) in
  let rscale := Z.max rscale NUMERIC_MIN_DISPLAY_SCALE in
  Z.min rscale NUMERIC_MAX_DISPLAY_SCALE.

(** ** Remainders and common divisors *)

Definition mod_var (have_int128 : bool) (var1 var2 : NumericVar) : res NumericVar :=
  tmp <-! div_var have_int128 var1 var2 0 false ;;
  tmp <-! mul_var var2 tmp (dscale var2) ;;
  sub_var var1 tmp.

(** [for (;;)]: the last remainder that is not zero. *)
Fixpoint euclid (have_int128 : bool) (fuel : nat) (tmp_arg result : NumericVar) : res NumericVar :=
  match fuel with
  | O => Err "the loop does not end"
  | S fuel =>
      remainder <-! mod_var have_int128 tmp_arg result ;;
      if ndigits remainder =? 0 then Ok result
      else euclid have_int128 fuel (set_var_from_var result) (set_var_from_var remainder)
  end.

(** Twice as many passes as binary digits: 14 for each digit between the first and the
    last of both numbers. *)
Definition euclid_fuel (var1 var2 : NumericVar) : nat :=
  let first := Z.max (weight var1) (weight var2) + 1 in
  let last := Z.min (weight var1 + 1 - ndigits var1) (weight var2 + 1 - ndigits var2) in
  (2 * Z.to_nat (14 * (first - last)) + 1)%nat.

Definition gcd_var (have_int128 : bool) (var1 var2 : NumericVar) : res NumericVar :=
  let res_dscale := Z.max (dscale var1) (dscale var2) in
  let cmp := cmp_abs var1 var2 in
  let '(var1, var2) := if cmp <? 0 then (var2, var1) else (var1, var2) in
  result <-!
    (if (cmp =? 0) || (ndigits var2 =? 0) then Ok (set_var_from_var var1)
     else euclid have_int128 (euclid_fuel var1 var2) (set_var_from_var var1) (set_var_from_var var2)) ;;
  Ok (set_dscale res_dscale (set_sign NUMERIC_POS result)).

(** ** Packed values *)

(** What both divisions do with infinite operands; [None] if there is none. *)
Definition special_quotient (num1 num2 : Numeric) : option (res Numeric) :=
  if NUMERIC_IS_SPECIAL num1 || NUMERIC_IS_SPECIAL num2 then
    Some
      (if NUMERIC_IS_NAN num1 || NUMERIC_IS_NAN num2 then make_result const_nan
       else if NUMERIC_IS_PINF num1 then
         if NUMERIC_IS_SPECIAL num2 then make_result const_nan
         else if numeric_sign_internal num2 =? 0 then Err DIVISION_BY_ZERO
         else if numeric_sign_internal num2 =? 1 then make_result const_pinf
         else make_result const_ninf
       else if NUMERIC_IS_NINF num1 then
         if NUMERIC_IS_SPECIAL num2 then make_result const_nan
         else if numeric_sign_internal num2 =? 0 then Err DIVISION_BY_ZERO
         else if numeric_sign_internal num2 =? 1 then make_result const_ninf
         else make_result const_pinf
       else make_result const_zero)
  else None.

Definition numeric_div (have_int128 : bool) (num1 num2 : Numeric) : res Numeric :=
  match special_quotient num1 num2 with
  | Some r => r
  | None =>
      let arg1 := init_var_from_num num1 in
      let arg2 := init_var_from_num num2 in
      result <-! div_var have_int128 arg1 arg2 (select_div_scale arg1 arg2) true ;;
      make_result result
  end.

Definition numeric_div_trunc (have_int128 : bool) (num1 num2 : Numeric) : res Numeric :=
  match special_quotient num1 num2 with
  | Some r => r
  | None =>
      result <-! div_var have_int128 (init_var_from_num num1) (init_var_from_num num2) 0 false ;;
      make_result result
  end.

Definition numeric_mod (have_int128 : bool) (num1 num2 : Numeric) : res Numeric :=
  if NUMERIC_IS_SPECIAL num1 || NUMERIC_IS_SPECIAL num2 then
    if NUMERIC_IS_NAN num1 || NUMERIC_IS_NAN num2 then make_result const_nan
    else if NUMERIC_IS_INF num1 then
      if numeric_sign_internal num2 =? 0 then Err DIVISION_BY_ZERO else make_result const_nan
    else Ok num1
  else
    result <-! mod_var have_int128 (init_var_from_num num1) (init_var_from_num num2) ;;
    make_result result.

Definition numeric_gcd (have_int128 : bool) (num1 num2 : Numeric) : res Numeric :=
  if NUMERIC_IS_SPECIAL num1 || NUMERIC_IS_SPECIAL num2 then make_result const_nan
  else
    result <-! gcd_var have_int128 (init_var_from_num num1) (init_var_from_num num2) ;;
    make_result result.

Definition numeric_lcm (have_int128 : bool) (num1 num2 : Numeric) : res Numeric :=
  if NUMERIC_IS_SPECIAL num1 || NUMERIC_IS_SPECIAL num2 then make_result const_nan
  else
    let arg1 := init_var_from_num num1 in
    let arg2 := init_var_from_num num2 in
    result <-!
      (if (ndigits arg1 =? 0) || (ndigits arg2 =? 0) then Ok (set_var_from_var const_zero)
       else
         result <-! gcd_var have_int128 arg1 arg2 ;;
         result <-! div_var have_int128 arg1 result 0 false ;;
         result <-! mul_var arg2 result (dscale arg2) ;;
         Ok (set_sign NUMERIC_POS result)) ;;
    make_result (set_dscale (Z.max (dscale arg1) (dscale arg2)) result).

(** ** Factorials *)

(** [for (num = num - 1; num > 1; num--)]; [cells] is what new digits hold. *)
Definition fac_loop (cells : list Z) (num : Z) (result : NumericVar) : res NumericVar :=
  for_down (Z.to_nat (num - 2))
    (fun i r =>
       result <-! r ;;
       fact <-! int64_to_numericvar cells (Z.of_nat i + 2) ;;
       mul_var result fact 0)
    (Ok result).

Definition numeric_fac (cells : list Z) (num : Z) : res Numeric :=
  if num <? 0 then Err "factorial of a negative number is undefined"
  else if num <=? 1 then make_result const_one
  else if 32177 <? num then Err "value overflows numeric format"
  else
    result <-! int64_to_numericvar cells num ;;
    result <-! fac_loop cells num result ;;
    make_result result.

(** The estimate 5000 is one too great, and the divisor is added back. *)
Example adds_back : quotient_digit [0; 5000; 0; 9999] [2500; 0; 4999; 4999] = Ok (4999, [0; 5000; 0; 9998]).
Proof. vm_compute. reflexivity. Qed.

Example gcd_with_fractions : numeric_gcd true (mk_numeric 0x8080 0 [12; 5000]) (mk_numeric 0x8100 0 [3; 7500]) = Ok (mk_numeric 0x8100 0 [1; 2500]).
Proof. vm_compute. reflexivity. Qed.

Example factorial_20 : numeric_fac (replicate 5 0) 20 = Ok (mk_numeric 0x8004 0 [243; 2902; 81; 7664]).
Proof. vm_compute. reflexivity. Qed.
