(* ===== verification/NumericQuot.v ===== *)
(** The digits of a quotient: short division, and long division with estimated digits. *)

From S2P Require Import Prelude Numeric NumericArith NumericRound NumericMul NumericPack NumericBased NumericFun NumericDiv.
Local Open Scope Z_scope.
Local Open Scope pg_scope.

(** ** Digits as an integer *)

Local Notation hval := (bval NBASE).

Lemma hval_app a b : hval (a ++ b) = hval a * NBASE ^ Z.of_nat (length b) + hval b.
Proof. unfold bval at 1. rewrite fold_left_app, fold_bval. reflexivity. Qed.

Lemma hval_bounds l : digits_ok l -> 0 <= hval l < NBASE ^ Z.of_nat (length l).
Proof.
  intros H. induction H as [|d l [H0 H1] _ IH]; [done|]. rewrite bval_cons. cbn [length]. rewrite Nat2Z.inj_succ, Z.pow_succ_r by lia. nia.
Qed.

Lemma hval_zeroes n : hval (replicate n 0) = 0.
Proof. induction n as [|n IH]; [done|]. cbn [replicate]. rewrite bval_cons, IH. lia. Qed.

Lemma mag_hval ds w : (mag ds w == inject_Z (hval ds) * bpow (w + 1 - Z.of_nat (length ds)))%Q.
Proof.
  revert w. induction ds as [|d ds IH]; intros w; [cbn [mag]; change (hval []) with 0; ring|]. cbn [mag]. rewrite IH, bval_cons, inject_Z_plus, inject_Z_mult, <- bpow_Z by lia.
  cbn [length]. replace (w - 1 + 1 - Z.of_nat (length ds)) with (w + 1 - Z.of_nat (S (length ds))) by lia.
  replace w with (Z.of_nat (length ds) + (w + 1 - Z.of_nat (S (length ds)))) at 1 by lia. rewrite bpow_plus. ring.
Qed.

Lemma base_power n : 0 < NBASE ^ Z.of_nat n.
Proof. apply Z.pow_pos_nonneg; unfold NBASE; lia. Qed.

Lemma base_power_S n : NBASE ^ Z.of_nat (S n) = NBASE * NBASE ^ Z.of_nat n.
Proof. rewrite Nat2Z.inj_succ, Z.pow_succ_r by lia. done. Qed.

Lemma hval_take l a n : (a + n <= length l)%nat -> hval (take (a + n) l) = hval (take a l) * NBASE ^ Z.of_nat n + hval (take n (drop a l)).
Proof. intros H. rewrite <- take_take_drop, hval_app, length_take, length_drop. by replace (n `min` (length l - a))%nat with n by lia. Qed.

(** ** Short division *)

Lemma short_digits_spec bits divisor : 0 < divisor -> divisor * NBASE <= 2 ^ bits -> forall n i ds carry, digits_ok ds -> 0 <= carry < divisor ->
  let out := short_digits bits divisor n i ds carry in
  let read := window ds (Z.of_nat i) n in
  length out = n /\ digits_ok out
  /\ exists r, 0 <= r < divisor /\ carry * NBASE ^ Z.of_nat n + hval read = hval out * divisor + r.
Proof.
  intros Hd Hb n. induction n as [|n IH]; intros i ds carry Hds Hc; cbv zeta.
  - split; [done|]. split; [constructor|]. exists carry. split; [done|]. change (Z.of_nat 0) with 0. cbn [short_digits window]. change (window ds (Z.of_nat i) 0) with (@nil Z). change (hval []) with 0. lia.
  - assert (Ex : (if (i <? length ds)%nat then rd ds i else 0) = digit_or_zero ds (Z.of_nat i)).
    { unfold digit_or_zero. destruct (Nat.ltb_spec i (length ds)), (Z.leb_spec 0 (Z.of_nat i)), (Z.ltb_spec (Z.of_nat i) (Z.of_nat (length ds))); try lia; cbn [andb]; [by rewrite Nat2Z.id|done]. }
    cbn [short_digits]. rewrite Ex. pose proof (digit_or_zero_ok ds (Z.of_nat i) Hds) as [X0 X1]. set (x := digit_or_zero ds (Z.of_nat i)) in *.
    assert (Hcar : 0 <= carry * NBASE + x < divisor * NBASE) by nia. rewrite uwrap_small by (unfold in_u; nia). set (c := carry * NBASE + x) in *.
    assert (Hq : 0 <= c / divisor < NBASE) by (split; [apply Z.div_pos; lia|apply Z.div_lt_upper_bound; lia]). pose proof (Z.mod_pos_bound c divisor Hd) as Hr.
    assert (Hw : swrap 16 (c / divisor) = c / divisor) by (apply swrap16_id; unfold NBASE in *; lia). rewrite Hw.
    destruct (IH (S i) ds (c mod divisor) Hds Hr) as (L & O & r & Br & E). split; [cbn [length]; by rewrite L|]. split; [by constructor|]. exists r. split; [done|].
    assert (Ew : window ds (Z.of_nat i) (S n) = x :: window ds (Z.of_nat (S i)) n).
    { unfold window. cbn [seq map]. rewrite <- seq_shift, map_map. f_equal. apply map_ext. intros a. f_equal. lia. }
    rewrite Ew, !bval_cons, L, length_window. pose proof (Z.div_mod c divisor ltac:(lia)) as Edm. unfold c in Edm at 1. rewrite base_power_S.
    set (P := NBASE ^ Z.of_nat n) in *. set (q := c / divisor) in *. set (m := c mod divisor) in *. set (o := hval (short_digits _ _ _ _ _ _)) in *. set (h := hval (window _ _ _)) in *. clearbody P q m o h x. nia.
Qed.

(** ** Estimates *)

Lemma int32_signed x : - 2 ^ 31 <= x <= INT32_MAX -> int32 x = Ok x.
Proof. intros [H1 H2]. unfold int32. apply Z.leb_le in H1, H2. by rewrite H1, H2. Qed.

(** The loop stops at an estimate that is not below [q], whenever [q] passes its test. *)
Lemma lower_qhat_spec v1 v2 next2 u2 q : HALF_NBASE <= v1 < NBASE -> is_digit v2 -> is_digit u2 -> 0 <= next2 < NBASE * NBASE -> 0 <= q ->
  q * (v1 * NBASE + v2) <= next2 * NBASE + u2 -> forall fuel qhat, q <= qhat < NBASE -> 0 <= next2 - qhat * v1 < 2 * NBASE ->
  (1 <= fuel)%nat -> NBASE <= next2 - qhat * v1 + HALF_NBASE * (Z.of_nat fuel - 1) ->
  exists q', lower_qhat fuel v1 v2 next2 u2 qhat = Ok q' /\ q <= q' <= qhat /\ q' * (v1 * NBASE + v2) <= next2 * NBASE + u2.
Proof.
  intros H1 [V0 V1] [U0 U1] Hn Hq0 Hq fuel. unfold NBASE, HALF_NBASE in *. induction fuel as [|fuel IH]; intros qhat Hqh Hr Hf Hfuel; [lia|]. cbn [lower_qhat]. unfold NBASE.
  assert (B1 : 0 <= v2 * qhat < 100000000) by nia. assert (B2 : 0 <= qhat * v1 < 100000000) by nia.
  rewrite (int32_signed (v2 * qhat)) by (unfold INT32_MAX; lia). cbn [res_bind]. rewrite (int32_signed (qhat * v1)) by (unfold INT32_MAX; lia). cbn [res_bind].
  rewrite (int32_signed ((next2 - qhat * v1) * 10000)) by (unfold INT32_MAX; lia). cbn [res_bind]. rewrite (int32_signed (_ + u2)) by (unfold INT32_MAX; lia). cbn [res_bind].
  destruct (Z.ltb_spec ((next2 - qhat * v1) * 10000 + u2) (v2 * qhat)) as [Hlt|Hge]; [|exists qhat; split; [done|]; split; [lia|nia]].
  assert (Hne : q < qhat) by (destruct (decide (q = qhat)) as [->|]; [nia|lia]). assert (Hr' : next2 - qhat * v1 < 10000) by nia.
  destruct (IH (qhat - 1)) as (q' & -> & Hq' & Ht); [lia|nia|nia|nia|]. exists q'. split; [done|]. split; [lia|done].
Qed.

(** An estimate that passes the test is at most one too great. *)
Lemma estimate_close u v1 v2 c t s q' : 0 < c -> 0 <= t < c -> 0 <= s < c -> 0 < v1 -> 0 <= v2 -> 0 <= q' <= NBASE -> q' * (v1 * NBASE + v2) <= u ->
  (q' - 1) * ((v1 * NBASE + v2) * c + s) <= u * c + t.
Proof.
  intros Hc Ht Hs H1 H2 Hq Hle. set (V := v1 * NBASE + v2) in *. assert (HV : NBASE <= V) by (unfold V, NBASE; lia). assert (A1 : q' * V * c <= u * c) by nia. assert (A2 : q' * s <= NBASE * c) by nia. assert (A3 : NBASE * c <= V * c) by nia. nia.
Qed.

(** The true digit passes the test. *)
Lemma quotient_passes u v1 v2 c t s q : 0 < c -> 0 <= t < c -> 0 <= s < c -> 0 <= q -> q * ((v1 * NBASE + v2) * c + s) <= u * c + t -> q * (v1 * NBASE + v2) <= u.
Proof.
  intros Hc Ht Hs Hq Hle. assert (A : q * (v1 * NBASE + v2) * c < (u + 1) * c) by nia. apply Z.mul_lt_mono_pos_r in A; lia.
Qed.

(** ** Subtraction of a multiple *)

Lemma mul_sub_spec q : 0 <= q <= NBASE -> forall xs ys, length xs = length ys -> digits_ok xs -> digits_ok ys ->
  exists borrow out, mul_sub q xs ys = Ok (borrow, out) /\ length out = length xs /\ digits_ok out /\ 0 <= borrow <= NBASE
  /\ hval out = hval xs - q * hval ys + borrow * NBASE ^ Z.of_nat (length xs).
Proof.
  intros Hq. induction xs as [|x xs IH]; intros [|y ys] Hl Hx Hy; try done.
  - exists 0, []. split; [done|]. split; [done|]. split; [constructor|]. split; [unfold NBASE; lia|]. change (hval []) with 0. lia.
  - injection Hl as Hl. inversion Hx as [|? ? [X0 X1] Hxs]; inversion Hy as [|? ? [Y0 Y1] Hys]; subst. destruct (IH ys Hl Hxs Hys) as (c & out & E & L & O & B & V). cbn [mul_sub]. rewrite E. cbn [res_bind].
    unfold NBASE in X1, Y1, Hq, B. rewrite (int32_signed (y * q)) by (unfold INT32_MAX; nia). cbn [res_bind]. rewrite (int32_signed (x - c - y * q)) by (unfold INT32_MAX; nia). cbn [res_bind].
    set (tmp := x - c - y * q). assert (Ht : -100000000 <= tmp <= 9999) by (unfold tmp; nia). cbv zeta.
    set (b := (10000 - 1 - tmp) / 10000). assert (Eb : Z.quot (NBASE - 1 - tmp) NBASE = b) by (unfold NBASE; rewrite Z.quot_div_nonneg by lia; reflexivity). rewrite Eb. assert (Hb : 0 <= tmp + b * 10000 < 10000) by (unfold b; pose proof (Z.div_mod (10000 - 1 - tmp) 10000 ltac:(lia)); pose proof (Z.mod_pos_bound (10000 - 1 - tmp) 10000 ltac:(lia)); lia).
    assert (Hb2 : 0 <= b <= 10000) by lia. clearbody b. unfold int16. change (b * NBASE) with (b * 10000). destruct (Z.leb_spec (- 2 ^ 15) (tmp + b * 10000)), (Z.ltb_spec (tmp + b * 10000) (2 ^ 15)); try lia. cbn [andb res_bind].
    exists b, (tmp + b * 10000 :: out). split; [done|]. split; [cbn [length]; by rewrite L|]. split; [by constructor|]. split; [unfold NBASE; lia|].
    rewrite !bval_cons, L, V. cbn [length]. rewrite base_power_S, Hl. set (P := NBASE ^ _). change NBASE with 10000. unfold tmp. ring.
Qed.

Lemma add_back_spec : forall xs ys, length xs = length ys -> digits_ok xs -> digits_ok ys ->
  exists carry out, add_back xs ys = (carry, out) /\ length out = length xs /\ digits_ok out /\ 0 <= carry <= 1
  /\ hval out + carry * NBASE ^ Z.of_nat (length xs) = hval xs + hval ys.
Proof.
  induction xs as [|x xs IH]; intros [|y ys] Hl Hx Hy; try done.
  - exists 0, []. split; [done|]. split; [done|]. split; [constructor|]. split; [lia|]. done.
  - injection Hl as Hl. inversion Hx as [|? ? [X0 X1] Hxs]; inversion Hy as [|? ? [Y0 Y1] Hys]; subst. destruct (IH ys Hl Hxs Hys) as (c & out & E & L & O & B & V). cbn [add_back]. rewrite E.
    destruct (Z.leb_spec NBASE (c + (x + y))) as [H|H]; eexists _, _; (split; [reflexivity|]); (split; [cbn [length]; by rewrite L|]); (split; [constructor; [unfold is_digit; lia|done]|]); (split; [lia|]);
      rewrite !bval_cons, L; cbn [length]; rewrite base_power_S, <- Hl; set (P := NBASE ^ _) in *; nia.
Qed.

(** ** A quotient digit *)

Lemma borrow_cases P W D q c o : 0 < D < P -> 0 <= o < P -> 0 <= c -> o = W - q * D + c * P -> W / D <= q <= W / D + 1 ->
  (q = W / D /\ c = 0 /\ o = W mod D) \/ (q = W / D + 1 /\ c = 1 /\ o + D = W mod D + P).
Proof.
  intros HD Ho Hc E Hq. pose proof (Z.div_mod W D ltac:(lia)) as Edm. pose proof (Z.mod_pos_bound W D ltac:(lia)) as Hm. set (r := W mod D) in *. set (k := W / D) in *. clearbody r k.
  destruct (decide (q = k)) as [->|Hne]; [left|right; assert (q = k + 1) as -> by lia]; (split; [done|]).
  - assert (Ec : c * P = o - r) by lia. assert (c = 0) as -> by nia. lia.
  - assert (Ec : c * P = o - r + D) by lia. assert (c = 1) as -> by nia. lia.
Qed.

(** The leading digits of a dividend and a divisor. *)
Lemma leading_three u0 u1 u2 ut k : hval (take (S (S (S k))) (u0 :: u1 :: u2 :: ut)) = ((u0 * NBASE + u1) * NBASE + u2) * NBASE ^ Z.of_nat (length (take k ut)) + hval (take k ut).
Proof. cbn [take]. rewrite !bval_cons. cbn [length]. rewrite !base_power_S. ring. Qed.

Lemma leading_two v1 v2 vt : hval (v1 :: v2 :: vt) = (v1 * NBASE + v2) * NBASE ^ Z.of_nat (length vt) + hval vt.
Proof. rewrite !bval_cons. cbn [length]. rewrite base_power_S. ring. Qed.

Lemma two_or_more (l : list Z) : (2 <= length l)%nat -> exists a b t, l = a :: b :: t.
Proof. destruct l as [|a [|b t]]; simpl; [lia|lia|]. intros _. by exists a, b, t. Qed.

Lemma three_or_more (l : list Z) : (3 <= length l)%nat -> exists a b c t, l = a :: b :: c :: t.
Proof. destruct l as [|a [|b [|c t]]]; simpl; [lia..|]. intros _. by exists a, b, c, t. Qed.

Lemma take_longer us k : (k < length us)%nat -> digits_ok us -> exists x, is_digit x /\ hval (take (S k) us) = hval (take k us) * NBASE + x.
Proof.
  intros Hk Hu. destruct (lookup_lt_is_Some_2 us k Hk) as [x Ex]. exists x. split; [unfold digits_ok in Hu; rewrite Forall_lookup in Hu; by apply (Hu k)|].
  rewrite (take_S_r us k x Ex), hval_app. change (NBASE ^ Z.of_nat (length [x])) with NBASE. by f_equal.
Qed.

(** The first estimate is between the true digit and the base. *)
Lemma first_estimate v1 v2 u0 u1 u2 q : HALF_NBASE <= v1 < NBASE -> is_digit v2 -> is_digit u0 -> is_digit u1 -> is_digit u2 -> u0 <= v1 -> 0 <= q < NBASE ->
  q * (v1 * NBASE + v2) <= (u0 * NBASE + u1) * NBASE + u2 ->
  let next2 := u0 * NBASE + u1 in let qhat := if u0 =? v1 then NBASE - 1 else Z.quot next2 v1 in
  q <= qhat < NBASE /\ 0 <= next2 - qhat * v1 < 2 * NBASE.
Proof.
  intros H1 [V0 V2] [U0 U1] [W0 W1] [X0 X1] Hle Hq Hp next2 qhat. unfold HALF_NBASE, NBASE in *. destruct (Z.eqb_spec u0 v1) as [->|Hne].
  - unfold qhat, next2. split; [lia|nia].
  - assert (Hn : 0 <= next2 < v1 * 10000) by (unfold next2; nia). assert (Eq : qhat = next2 / v1) by (unfold qhat; apply Z.quot_div_nonneg; lia). clearbody qhat. subst qhat. pose proof (Z.div_mod next2 v1 ltac:(lia)) as Edm. pose proof (Z.mod_pos_bound next2 v1 ltac:(lia)).
    assert (Hlt : next2 / v1 < 10000) by (apply Z.div_lt_upper_bound; lia). split; [|nia]. split; [|done]. apply Z.div_le_lower_bound; [lia|]. unfold next2 in *. nia.
Qed.

Section digit.
Context (vs us : list Z).
Hypothesis (Hv : digits_ok vs) (Hu : digits_ok us) (Hlen : (S (length vs) <= length us)%nat) (Hv2 : (2 <= length vs)%nat).
Hypothesis (Htop : HALF_NBASE <= rd vs 0) (Hless : hval (take (length vs) us) < hval vs).
Let n := S (length vs).
Let W := hval (take n us).
Let D := hval vs.

Lemma window_small : 0 <= W < D * NBASE.
Proof.
  destruct (take_longer us (length vs) ltac:(lia) Hu) as (x & [X0 X1] & E). unfold W, n. rewrite E. pose proof (hval_bounds _ (Forall_take _ (length vs) us Hu)) as [B _]. unfold D. nia.
Qed.

(** The digit and what is left of the dividend. *)
Definition digit_found (us' : list Z) : Prop := length us' = length us /\ digits_ok us' /\ drop n us' = drop n us /\ hval (take n us') = W mod D.

Lemma divisor_positive : 0 < D.
Proof. pose proof window_small. unfold D in *. pose proof (hval_bounds _ (Forall_take _ (length vs) us Hu)). lia. Qed.

Lemma digit_zero : W < D -> W / D = 0 /\ digit_found us.
Proof. intros H. pose proof window_small. rewrite Z.div_small by lia. split; [done|]. split; [done|]. split; [done|]. split; [done|]. by rewrite Z.mod_small by lia. Qed.

(** Subtraction, and the correction if the estimate was too great. *)
Lemma subtract_estimate q : W / D <= q <= W / D + 1 -> q < NBASE ->
  exists us', ('(borrow, window) <-! mul_sub q (take n us) (0 :: vs) ;;
        if negb (borrow =? 0) then
          let '(carry, window) := add_back window (0 :: vs) in
          if negb (carry =? 1) then Err "carry == 1" else Ok (q - 1, window ++ drop n us)
        else Ok (q, window ++ drop n us)) = Ok (W / D, us') /\ digit_found us'.
Proof.
  intros Hq Hb. pose proof window_small as HW. pose proof divisor_positive as HD. assert (Hq0 : 0 <= W / D) by (apply Z.div_pos; lia).
  assert (Hl : length (take n us) = length (0 :: vs)) by (rewrite length_take; cbn [length]; unfold n; lia). assert (H0 : digits_ok (0 :: vs)) by (by constructor).
  assert (E0 : hval (0 :: vs) = D) by (rewrite bval_cons; unfold D; lia).
  destruct (mul_sub_spec q ltac:(lia) (take n us) (0 :: vs) Hl (Forall_take _ n us Hu) H0) as (c & out & -> & L & O & B & E). cbn [res_bind]. rewrite E0 in E. fold W in E.
  assert (HP : D < NBASE ^ Z.of_nat (length (take n us))).
  { rewrite Hl. cbn [length]. rewrite base_power_S. pose proof (hval_bounds vs Hv) as [_ Hb']. fold D in Hb'. pose proof (base_power (length vs)). unfold NBASE at 1. lia. }
  pose proof (hval_bounds out O) as Bo. rewrite L in Bo. set (P := NBASE ^ _) in *.
  assert (Hres : forall l, length l = length (take n us) -> digits_ok l -> hval l = W mod D -> digit_found (l ++ drop n us)).
  { intros l Ll Ol El. assert (Ln : length l = n) by (rewrite Ll, length_take; unfold n; lia). split; [rewrite length_app, length_drop; unfold n in *; lia|]. split; [apply Forall_app; split; [done|by apply Forall_drop]|].
    split; [by rewrite <- Ln, drop_app_length|]. by rewrite <- Ln, take_app_length. }
  destruct (borrow_cases P W D q c (hval out) ltac:(lia) Bo ltac:(lia) E Hq) as [(-> & -> & Eo)|(-> & -> & Eo)].
  - change (negb (0 =? 0)) with false. cbv iota. exists (out ++ drop n us). split; [done|]. by apply Hres.
  - change (negb (1 =? 0)) with true. cbv iota. destruct (add_back_spec out (0 :: vs) ltac:(congruence) O H0) as (carry & out2 & -> & L2 & O2 & B2 & E2). rewrite E0, L in E2. fold P in E2.
    pose proof (hval_bounds out2 O2) as Bo2. rewrite L2, L in Bo2. fold P in Bo2. pose proof (Z.mod_pos_bound W D ltac:(lia)). assert (carry = 1) as -> by nia.
    change (negb (1 =? 1)) with false. cbv iota. exists (out2 ++ drop n us). split; [f_equal; f_equal; lia|]. apply Hres; [congruence|done|lia].
Qed.

Lemma quotient_digit_spec : exists us', quotient_digit (0 :: vs) us = Ok (W / D, us') /\ digit_found us'.
Proof.
  pose proof window_small as HW. pose proof divisor_positive as HD. unfold quotient_digit. cbn [length]. fold n. destruct (Nat.ltb_spec (length us) n) as [Hlt|_]; [unfold n in Hlt; lia|].
  destruct (two_or_more vs Hv2) as (v1 & v2 & vt & Ev). destruct (three_or_more us ltac:(lia)) as (u0 & u1 & u2 & ut & Eu).
  pose proof Hv as Hv'. pose proof Hu as Hu'. unfold digits_ok in Hv', Hu'. rewrite Ev, !Forall_cons in Hv'. rewrite Eu, !Forall_cons in Hu'. destruct Hv' as (V1 & V2 & Hvt), Hu' as (U0 & U1 & U2 & Hut).
  assert (R : rd us 0 = u0 /\ rd us 1 = u1 /\ rd us 2 = u2 /\ rd (0 :: vs) 1 = v1 /\ rd (0 :: vs) 2 = v2 /\ rd vs 0 = v1) by (rewrite Eu, Ev; done).
  destruct R as (-> & -> & -> & -> & -> & R). rewrite R in Htop.
  set (k := length vt). assert (Hk : (k <= length ut)%nat) by (rewrite Eu, Ev in Hlen; simpl in Hlen; unfold k; lia).
  assert (Lk : length (take k ut) = k) by (rewrite length_take; lia). set (C := NBASE ^ Z.of_nat k). assert (HC : 0 < C) by apply base_power. set (t := hval (take k ut)). set (s := hval vt).
  assert (EW : W = ((u0 * NBASE + u1) * NBASE + u2) * C + t) by (unfold W, n; rewrite Eu, Ev; cbn [length]; fold k; rewrite leading_three, Lk; done).
  assert (ED : D = (v1 * NBASE + v2) * C + s) by (unfold D; rewrite Ev; apply leading_two).
  assert (Bt : 0 <= t < C) by (unfold C; rewrite <- Lk; apply hval_bounds; by apply Forall_take). assert (Bs : 0 <= s < C) by (by apply hval_bounds).
  assert (Hu0 : u0 <= v1).
  { rewrite Eu, Ev in Hless. cbn [length] in Hless. fold k in Hless. change (take (S (S k)) (u0 :: u1 :: u2 :: ut)) with (u0 :: u1 :: take k (u2 :: ut)) in Hless.
    rewrite !leading_two in Hless. fold s in Hless. assert (Lk' : length (take k (u2 :: ut)) = k) by (rewrite length_take; simpl; lia). rewrite Lk' in Hless. fold k C in Hless.
    pose proof (hval_bounds (take k (u2 :: ut)) ltac:(apply Forall_take; by constructor)) as [Bx _]. destruct U1, V2. unfold NBASE in *. nia. }
  unfold is_digit in V1. assert (Hn2 : 0 <= u0 * NBASE + u1 < NBASE * NBASE) by (destruct U0, U1; unfold NBASE in *; lia).
  rewrite int32_signed by (unfold INT32_MAX, NBASE in *; lia). cbn [res_bind]. destruct (Z.eqb_spec (u0 * NBASE + u1) 0) as [Ez|Ez].
  { assert (A : (u2 + 1) * C <= (v1 * NBASE + v2) * C) by (apply Z.mul_le_mono_nonneg_r; destruct U2, V2; unfold HALF_NBASE, NBASE in *; lia).
    destruct digit_zero as [Eq Hf]; [rewrite EW, ED, Ez; lia|]. exists us. rewrite Eq. done. }
  assert (Hq : 0 <= W / D < NBASE) by (split; [apply Z.div_pos; lia|apply Z.div_lt_upper_bound; lia]).
  assert (Hp : W / D * (v1 * NBASE + v2) <= (u0 * NBASE + u1) * NBASE + u2).
  { apply (quotient_passes _ _ _ C t s); try lia. rewrite <- EW, <- ED. pose proof (Z.mul_div_le W D HD). lia. }
  destruct (first_estimate v1 v2 u0 u1 u2 (W / D) ltac:(lia) V2 U0 U1 U2 Hu0 Hq Hp) as [F1 F2].
  destruct (lower_qhat_spec v1 v2 (u0 * NBASE + u1) u2 (W / D) ltac:(lia) V2 U2 Hn2 ltac:(lia) Hp 3%nat _ F1 F2 ltac:(lia) ltac:(unfold NBASE, HALF_NBASE in *; lia)) as (q & -> & Hq' & Ht). cbn [res_bind].
  assert (Hc : q <= W / D + 1).
  { pose proof (estimate_close _ v1 v2 C t s q HC Bt Bs ltac:(unfold HALF_NBASE in *; lia) ltac:(destruct V2; lia) ltac:(lia) Ht) as Hc. rewrite <- EW, <- ED in Hc. pose proof (Z.div_le_lower_bound W D (q - 1) HD ltac:(lia)). lia. }
  destruct (Z.ltb_spec 0 q) as [Hpos|Hz]; [by apply subtract_estimate; lia|].
  destruct digit_zero as [Eq Hf]; [pose proof (Z.mul_succ_div_gt W D HD); assert (Ez' : W / D = 0) by lia; rewrite Ez' in *; lia|]. exists us. replace q with (W / D) by lia. done.
Qed.

End digit.

(** ** Long division *)

Lemma long_digits_spec vs : digits_ok vs -> (2 <= length vs)%nat -> HALF_NBASE <= rd vs 0 -> forall n us, digits_ok us -> (n + length vs <= length us)%nat ->
  hval (take (length vs) us) < hval vs ->
  exists ds, long_digits n (0 :: vs) us = Ok ds /\ length ds = n /\ digits_ok ds
  /\ exists r, 0 <= r < hval vs /\ hval (take (n + length vs) us) = hval ds * hval vs + r.
Proof.
  intros Hv Hv2 Htop. induction n as [|n IH]; intros us Hu Hlen Hless.
  - exists []. split; [done|]. split; [done|]. split; [constructor|]. exists (hval (take (length vs) us)). split; [|cbn [plus]; change (hval []) with 0; lia].
    pose proof (hval_bounds _ (Forall_take _ (length vs) us Hu)). lia.
  - cbn [long_digits]. destruct (quotient_digit_spec vs us Hv Hu ltac:(lia) Hv2 Htop Hless) as (us' & -> & L & O & Ed & Et). cbn [res_bind].
    pose proof (window_small vs us Hu ltac:(lia) Hv2 Hless) as HW. set (W := hval (take (S (length vs)) us)) in *. set (D := hval vs) in *. assert (HD : 0 < D) by (unfold NBASE in HW; lia). pose proof (Z.mod_pos_bound W D HD) as Hm.
    destruct us' as [|x us']; [simpl in L; lia|]. cbn [tail]. inversion O as [|? ? X Ous']; subst. cbn [take] in Et. rewrite bval_cons in Et. cbn [length drop] in L, Ed.
    assert (Lt : length (take (length vs) us') = length vs) by (rewrite length_take; lia). rewrite Lt in Et. pose proof (hval_bounds vs Hv) as [_ BD]. fold D in BD. pose proof (hval_bounds _ (Forall_take _ (length vs) us' Ous')) as [Bt _].
    assert (x = 0) as -> by (destruct X; pose proof (base_power (length vs)); nia). destruct (IH us' Ous' ltac:(lia)) as (ds & -> & Ld & Od & r & Br & Er); [fold D; lia|]. cbn [res_bind].
    exists (W / D :: ds). split; [done|]. split; [cbn [length]; by rewrite Ld|]. assert (Hq : 0 <= W / D < NBASE) by (split; [apply Z.div_pos; lia|apply Z.div_lt_upper_bound; lia]). split; [by constructor|]. exists r. split; [done|].
    assert (E1 : hval (take (S n + length vs) us) = W * NBASE ^ Z.of_nat n + hval (take n (drop (S (length vs)) us))).
    { replace (S n + length vs)%nat with (S (length vs) + n)%nat by lia. rewrite hval_take by lia. done. }
    assert (E2 : hval (take (n + length vs) us') = W mod D * NBASE ^ Z.of_nat n + hval (take n (drop (S (length vs)) us))).
    { replace (n + length vs)%nat with (length vs + n)%nat by lia. rewrite hval_take by lia. rewrite Ed. f_equal. f_equal. lia. }
    rewrite bval_cons, Ld, E1. pose proof (Z.div_mod W D ltac:(lia)) as Edm. set (P := NBASE ^ Z.of_nat n) in *. set (h := hval (take n _)) in *. fold D in Er. rewrite E2 in Er. nia.
Qed.
