(* ===== verification/NumericDivide.v ===== *)
(** Division of variables: the quotient rounded or truncated at the requested scale. *)

From S2P Require Import Prelude Numeric NumericArith NumericRound NumericMul NumericPack NumericNum NumericBased NumericFun NumericDiv NumericQuot.
Local Open Scope Z_scope.
Local Open Scope pg_scope.

Local Notation hval := (bval NBASE).

(** ** What quotient digits are *)

(** The digits, the first of weight [w], are those of [m1 / m2], cut off. *)
Definition quotient_of (ds : list Z) (w : Z) (m1 m2 : Q) : Prop :=
  digits_ok ds /\ (mag ds w * m2 <= m1)%Q /\ (m1 < (mag ds w + bpow (w + 1 - Z.of_nat (length ds))) * m2)%Q.

Lemma quotient_of_read out w m1 m2 D e h r : digits_ok out -> h = hval out * D + r -> 0 <= r < D -> (inject_Z h * bpow e <= m1)%Q -> (m1 < (inject_Z h + 1) * bpow e)%Q ->
  (m2 == inject_Z D * bpow (e - (w + 1 - Z.of_nat (length out))))%Q -> quotient_of out w m1 m2.
Proof.
  intros Ho Eh Hr H1 H2 E2. split; [done|]. set (f := w + 1 - Z.of_nat (length out)) in *. rewrite mag_hval. fold f. assert (Ee : (bpow e == bpow f * bpow (e - f))%Q) by (rewrite <- bpow_plus; replace (f + (e - f)) with e by lia; reflexivity).
  rewrite E2. rewrite Ee in H1, H2. pose proof (bpow_pos f). pose proof (bpow_pos (e - f)). set (p := bpow f) in *. set (p' := bpow (e - f)) in *. assert (Hp : (0 < p * p')%Q) by nra.
  assert (A1 : (inject_Z (hval out) * inject_Z D <= inject_Z h)%Q) by (rewrite <- inject_Z_mult, <- Zle_Qle; lia).
  assert (A2 : (inject_Z h + 1 <= (inject_Z (hval out) + 1) * inject_Z D)%Q).
  { change 1%Q with (inject_Z 1). rewrite <- !inject_Z_plus, <- inject_Z_mult, <- Zle_Qle. lia. }
  split.
  - eapply Qle_trans; [|exact H1]. assert (Er : ((inject_Z (hval out) * p * (inject_Z D * p')) == (inject_Z (hval out) * inject_Z D * (p * p')))%Q) by ring. rewrite Er. apply Qmult_le_compat_r; [done|lra].
  - eapply Qlt_le_trans; [exact H2|]. assert (Er : (((inject_Z (hval out) * p + p) * (inject_Z D * p')) == ((inject_Z (hval out) + 1) * inject_Z D * (p * p')))%Q) by ring. rewrite Er. apply Qmult_le_compat_r; [done|lra].
Qed.

Lemma quotient_of_scaled d ds w m1 m2 : (0 < d)%Q -> quotient_of ds w (d * m1) (d * m2) -> quotient_of ds w m1 m2.
Proof.
  intros Hd (H & H1 & H2). split; [done|]. set (y := mag ds w) in *. set (z := (y + _)%Q) in *. split.
  - apply (Qmult_le_l _ _ d); [done|]. assert (Er : ((d * (y * m2)) == (y * (d * m2)))%Q) by ring. rewrite Er. done.
  - apply (Qmult_lt_l _ _ d); [done|]. assert (Er : ((d * (z * m2)) == (z * (d * m2)))%Q) by ring. rewrite Er. done.
Qed.

(** ** Rounding the digits that there are *)

Lemma multiple_gap a b u : (0 < u)%Q -> multiple a u -> multiple b u -> (a < b)%Q -> (a + u <= b)%Q.
Proof.
  intros Hu Ha Hb Hlt. assert (H : (u <= b + - a)%Q); [|lra]. apply multiple_least; [lra|done|]. by apply multiple_plus; [|apply multiple_neg].
Qed.

Lemma trunc_stable y x u s : (0 < u)%Q -> multiple y u -> multiple (tpow (- s)) u -> (y <= x)%Q -> (x < y + u)%Q -> (trunc_at x s == trunc_at y s)%Q.
Proof.
  intros Hu Hy Ht H1 H2. pose proof (tpow_pos (- s)) as Hp. apply trunc_intro; [apply trunc_at_multiple|pose proof (trunc_at_le y s); lra|].
  assert (Hlt : (y < trunc_at y s + tpow (- s))%Q).
  { unfold trunc_at. set (t := tpow (- s)) in *. pose proof (Qlt_floor (y / t)) as Hf. rewrite inject_Z_plus in Hf. change (inject_Z 1) with 1%Q in Hf. apply (Qmult_lt_r _ _ t) in Hf; [|done].
    assert (E : (y / t * t == y)%Q) by (rewrite Qmult_comm; apply Qmult_div_r; lra). lra. }
  apply (multiple_gap _ _ u) in Hlt; [lra|done|done|]. apply multiple_plus; [|done]. eapply multiple_trans; [apply trunc_at_multiple|done].
Qed.

(** The number of digits is enough to round. *)
Lemma enough_digits w s round n : n = quotient_digits w s round -> 1 <= n /\ DEC_DIGITS * (w + 1 - n) + (if round : bool then DEC_DIGITS else 0) <= - s.
Proof.
  unfold quotient_digits, DEC_DIGITS. intros ->. assert (H : s <= 4 * Z.quot (s + 4 - 1) 4).
  { pose proof (Z.quot_rem' (s + 4 - 1) 4) as E. pose proof (Z.rem_bound_abs (s + 4 - 1) 4 ltac:(lia)). lia. }
  destruct round; lia.
Qed.

Definition cut (round : bool) : Q -> Z -> Q := if round then round_at else trunc_at.

#[export] Instance cut_proper round : Proper (Qeq ==> eq ==> Qeq) (cut round).
Proof. destruct round; [apply round_at_proper|apply trunc_at_proper]. Qed.

Lemma cut_zero round s : (cut round 0 s == 0)%Q.
Proof. destruct round; [apply round_at_zero|apply trunc_at_zero]. Qed.

Lemma cut_multiple round x s : multiple (cut round x s) (tpow (- s)).
Proof. destruct round; apply trunc_at_multiple. Qed.

Lemma cut_stable round y x w s n : n = quotient_digits w s round -> multiple y (bpow (w + 1 - n)) -> (y <= x)%Q -> (x < y + bpow (w + 1 - n))%Q -> (cut round x s == cut round y s)%Q.
Proof.
  intros [Hn He]%enough_digits Hy H1 H2. pose proof (bpow_pos (w + 1 - n)) as Hp. set (u := bpow (w + 1 - n)) in *. assert (Hu : (u == tpow (DEC_DIGITS * (w + 1 - n)))%Q) by apply bpow_tpow. destruct round; cbn [cut].
  - assert (Hh : multiple ((1 # 2) * tpow (- s)) u).
    { destruct (tpow_multiple (- s) (DEC_DIGITS * (w + 1 - n) + DEC_DIGITS) ltac:(lia)) as [k Ek]. exists (k * 5000). rewrite Ek, tpow_plus, <- Hu, inject_Z_mult. change (tpow DEC_DIGITS) with (10000 # 1)%Q. change (inject_Z 5000) with (5000 # 1)%Q. ring. }
    unfold round_at. apply (trunc_stable _ _ u); [done|by apply multiple_plus| |lra|lra]. rewrite Hu. apply tpow_multiple. unfold DEC_DIGITS in *. lia.
  - apply (trunc_stable _ _ u); [done|done| |done|done]. rewrite Hu. apply tpow_multiple. lia.
Qed.

(** ** The result of a division *)

Lemma by_magnitude_unit f u m s : Proper (Qeq ==> eq ==> Qeq) f -> (f 0 s == 0)%Q -> u = 1%Q \/ u = (-1)%Q -> (0 <= m)%Q -> (u * f m s == by_magnitude f (u * m) s)%Q.
Proof.
  intros Hp H0 Hu Hm. unfold by_magnitude. destruct Hu as [-> | ->].
  - assert (E : (1 * m == m)%Q) by ring. rewrite E. assert (Hb : Qle_bool 0 m = true) by (by apply Qle_bool_iff). rewrite Hb. rewrite E. ring.
  - assert (E : (- (-1 * m) == m)%Q) by ring. destruct (Qle_bool 0 (-1 * m)) eqn:Eb; [|rewrite E; ring]. apply Qle_bool_iff in Eb. assert (Ez : (m == 0)%Q) by lra. assert (En : (-1 * m == 0)%Q) by lra. rewrite En, Ez, H0. ring.
Qed.

(** The quotient of two variables, rounded half away from zero or truncated toward it. *)
Definition divided (r : res NumericVar) (v1 v2 : NumericVar) (s : Z) (round : bool) : Prop :=
  exists v, r = Ok v /\ normal v /\ dscale v = s /\ (value v == by_magnitude (cut round) (value v1 / value v2) s)%Q.

Lemma unit_cases s : unit_of s = 1%Q \/ unit_of s = (-1)%Q.
Proof. unfold unit_of. destruct (s =? NUMERIC_NEG); auto. Qed.

Lemma finish_spec ds w sg d s round v1 v2 : quotient_of ds w (magnitude v1) (magnitude v2) -> Z.of_nat (length ds) = quotient_digits w s round -> sg = NUMERIC_POS \/ sg = NUMERIC_NEG ->
  (0 < magnitude v2)%Q -> (0 <= magnitude v1)%Q -> (value v1 / value v2 == unit_of sg * (magnitude v1 / magnitude v2))%Q ->
  divided (finish_quotient (mk_var [0] ds w sg d) s round) v1 v2 s round.
Proof.
  intros (Ho & H1 & H2) Hn Hsg Hm2 Hm1 Eq. set (v := mk_var [0] ds w sg d). assert (Hv : var_ok v) by (by split). set (x := (magnitude v1 / magnitude v2)%Q) in *.
  assert (Hx : (0 <= x)%Q) by (apply Qle_shift_div_l; lra). assert (Est : (cut round (magnitude v) s == cut round x s)%Q).
  { symmetry. apply (cut_stable round (mag ds w) x w s _ Hn); [by apply mag_multiple|by apply Qle_shift_div_l|by apply Qlt_shift_div_r]. }
  assert (Hfin : exists v', (if round then round_var v s else Ok (trunc_var v s)) = Ok v' /\ var_ok v' /\ dscale v' = s /\ (magnitude v' == cut round (magnitude v) s)%Q /\ (sign v' = sign v \/ digits v' = [])).
  { destruct round; [destruct (round_var_spec v s Hv ltac:(left; by exists [])) as (v' & -> & ? & ? & ? & ? & _)|destruct (trunc_var_spec v s Hv) as (? & ? & ? & ?)]; by eexists. }
  destruct Hfin as (v' & E & Hv' & Hd & Em & Hs). unfold finish_quotient. fold v. rewrite E. cbn [res_bind]. destruct (strip_var_spec v' Hv') as (S1 & S2 & S3 & S4 & _). exists (strip_var v').
  split; [done|]. split; [done|]. split; [by rewrite S4|]. rewrite S3. assert (Hc : Proper (Qeq ==> eq ==> Qeq) (by_magnitude (cut round))) by (apply by_magnitude_proper, cut_proper).
  rewrite Eq, <- (by_magnitude_unit (cut round) (unit_of sg) x s) by (apply cut_proper || apply cut_zero || apply unit_cases || done). rewrite <- Est, <- Em. unfold value, sgn.
  destruct Hs as [->|En]; [reflexivity|]. rewrite (magnitude_empty v' En). ring.
Qed.

(** ** Short division *)

(** The digits that are read, with zeroes behind the last one. *)
Lemma window_prefix ds n w : digits_ok ds -> (mag (window ds 0 n) w <= mag ds w /\ mag ds w < mag (window ds 0 n) w + bpow (w + 1 - Z.of_nat n))%Q.
Proof.
  intros Hd. pose proof (bpow_pos (w + 1 - Z.of_nat n)) as Hp. destruct (decide (length ds <= n)%nat) as [Hle|Hgt].
  - rewrite (mag_window ds 0 n w) by lia. replace (w + 0) with w by lia. split; lra.
  - assert (E : window ds 0 n = take n ds).
    { apply list_eq. intros i. unfold window. rewrite list_lookup_fmap. destruct (decide (i < n)%nat) as [Hi|Hi].
      - rewrite lookup_seq_lt, lookup_take_lt by done. simpl. unfold digit_or_zero, rd. destruct (lookup_lt_is_Some_2 ds i ltac:(lia)) as [x Ex].
        destruct (Z.leb_spec 0 (Z.of_nat i + 0)), (Z.ltb_spec (Z.of_nat i + 0) (Z.of_nat (length ds))); try lia. cbn [andb]. replace (Z.to_nat (Z.of_nat i + 0)) with i by lia. by rewrite Ex.
      - rewrite lookup_seq_ge, lookup_take_ge by lia. done. }
    rewrite E, (mag_split ds n w) by lia. destruct (mag_bounds (drop n ds) (w - Z.of_nat n) ltac:(by apply Forall_drop)) as [B1 B2]. replace (w - Z.of_nat n + 1) with (w + 1 - Z.of_nat n) in B2 by lia. split; lra.
Qed.

Lemma sign_quotient sg1 (s1 s2 m1 m2 : Q) : (0 < m2)%Q -> s1 = 1%Q \/ s1 = (-1)%Q -> s2 = 1%Q \/ s2 = (-1)%Q -> unit_of sg1 = (s1 * s2)%Q -> (s1 * m1 / (s2 * m2) == unit_of sg1 * (m1 / m2))%Q.
Proof. intros Hm H1 H2 ->. destruct H1 as [-> | ->], H2 as [-> | ->]; field; lra. Qed.

Lemma divided_zero v1 v2 s round : digits v1 = [] -> divided (Ok (zero_var s)) v1 v2 s round.
Proof.
  intros E. destruct (yields_zero s) as (v & [= <-] & N & V & D & _). exists (zero_var s). split; [done|]. split; [done|]. split; [done|]. rewrite V.
  assert (Ez : (value v1 / value v2 == 0)%Q) by (unfold value; rewrite (magnitude_empty v1 E); unfold Qdiv; ring).
  assert (Hc : Proper (Qeq ==> eq ==> Qeq) (by_magnitude (cut round))) by (apply by_magnitude_proper, cut_proper). rewrite Ez. unfold by_magnitude. cbn [Qle_bool]. change (Qle_bool 0 0) with true. cbv iota. by rewrite cut_zero.
Qed.

Section short.
Context (v1 v2 : NumericVar) (iw : Z).
Hypothesis (H1 : var_ok v1) (Hs2 : sign v2 = NUMERIC_POS \/ sign v2 = NUMERIC_NEG) (D : Z).
Hypothesis (HD : 0 < D) (Hm2 : (magnitude v2 == inject_Z D * bpow iw)%Q).
Let ival := if sign v2 =? NUMERIC_NEG then - D else D.

Lemma div_short_spec bits s round : bits = 32 \/ bits = 64 -> D < 2 ^ (bits - 1) -> divided (div_short bits v1 ival iw s round) v1 v2 s round.
Proof.
  intros Hbits Hsmall. unfold div_short. assert (Hi : ival <> 0 /\ Z.abs ival = D /\ (0 <? ival) = (sign v2 =? NUMERIC_POS)).
  { unfold ival. destruct Hs2 as [-> | ->]; cbn; repeat split; lia. }
  destruct Hi as (I1 & -> & I3). destruct (Z.eqb_spec ival 0) as [|_]; [done|]. destruct (Z.eqb_spec (ndigits v1) 0) as [E0|E0].
  { apply divided_zero, nil_length_inv. unfold ndigits in E0. lia. }
  set (w := weight v1 - iw). set (n := quotient_digits w s round). destruct (enough_digits w s round n eq_refl) as [Hn _]. set (b := if D <=? _ then bits else 2 * bits).
  assert (Hb : D * NBASE <= 2 ^ b).
  { unfold b. destruct (Z.leb_spec D (Z.quot (2 ^ bits - 1) NBASE)) as [Hle|Hgt]; [rewrite Z.quot_div_nonneg in Hle by (unfold NBASE; destruct Hbits as [-> | ->]; lia); pose proof (Z.mul_div_le (2 ^ bits - 1) NBASE ltac:(unfold NBASE; lia)); unfold NBASE in *; lia|].
    unfold NBASE. destruct Hbits as [-> | ->]; simpl in Hsmall |- *; lia. }
  clearbody b. destruct (short_digits_spec b D HD Hb (Z.to_nat n) 0 (digits v1) 0 (ok_digits _ H1) ltac:(lia)) as (L & O & r & Br & E). set (out := short_digits _ _ _ _ _ _) in *. set (read := window _ _ _) in *.
  assert (Lr : length read = Z.to_nat n) by apply length_window. pose proof (window_prefix (digits v1) (Z.to_nat n) (weight v1) (ok_digits _ H1)) as [P1 P2]. change (window (digits v1) 0 (Z.to_nat n)) with read in P1, P2. rewrite (mag_hval read), Lr in P1, P2.
  assert (Hp2 : (0 < magnitude v2)%Q) by (rewrite Hm2; pose proof (bpow_pos iw); assert (0 < inject_Z D)%Q by (change 0%Q with (inject_Z 0); by rewrite <- Zlt_Qlt); nra).
  apply finish_spec; [|rewrite L; unfold n in *; lia|by destruct (sign v1 =? NUMERIC_POS), (0 <? ival); auto|done|by apply magnitude_nonneg|].
  - apply (quotient_of_read _ _ _ _ D (weight v1 + 1 - Z.of_nat (Z.to_nat n)) (hval read) r O); [by rewrite Z.mul_0_l, Z.add_0_l in E|done|exact P1|eapply Qlt_le_trans; [exact P2|lra]|].
    rewrite Hm2, L. unfold w. replace (weight v1 + 1 - Z.of_nat (Z.to_nat n) - (weight v1 - iw + 1 - Z.of_nat (Z.to_nat n))) with iw by lia. reflexivity.
  - apply sign_quotient; [done|unfold sgn; destruct (sign v1 =? NUMERIC_NEG); auto|unfold sgn; destruct (sign v2 =? NUMERIC_NEG); auto|]. rewrite I3. unfold sgn. destruct (ok_sign _ H1) as [-> | ->], Hs2 as [-> | ->]; reflexivity.
Qed.

End short.

(** ** Long division *)

Lemma scale_digits_spec d : 1 <= d < NBASE -> forall l, digits_ok l ->
  exists carry out, scale_digits d l = Ok (carry, out) /\ length out = length l /\ digits_ok out /\ 0 <= carry < d /\ hval out + carry * NBASE ^ Z.of_nat (length l) = d * hval l.
Proof.
  intros Hd l Hl. induction Hl as [|x l [X0 X1] _ IH]; [exists 0, []; split; [done|]; split; [done|]; split; [constructor|]; split; [lia|]; change (hval []) with 0; lia|].
  destruct IH as (c & out & E & L & O & B & V). cbn [scale_digits]. rewrite E. cbn [res_bind]. unfold NBASE in X1, Hd. rewrite (int32_signed (x * d)) by (unfold INT32_MAX; nia). cbn [res_bind].
  rewrite (int32_signed (c + x * d)) by (unfold INT32_MAX; nia). cbn [res_bind]. set (y := c + x * d). assert (Hy : 0 <= y < d * NBASE) by (unfold y, NBASE; nia).
  rewrite Z.quot_div_nonneg, Z.rem_mod_nonneg by (unfold NBASE in *; lia). pose proof (Z.div_mod y NBASE ltac:(unfold NBASE; lia)) as Edm. pose proof (Z.mod_pos_bound y NBASE ltac:(unfold NBASE; lia)) as Hm.
  exists (y / NBASE), (y mod NBASE :: out). split; [done|]. split; [cbn [length]; by rewrite L|]. split; [by constructor|]. split; [split; [apply Z.div_pos; unfold NBASE in *; lia|apply Z.div_lt_upper_bound; unfold NBASE in *; lia]|].
  rewrite !bval_cons, L. cbn [length]. rewrite base_power_S. set (P := NBASE ^ _) in *. set (k := y / NBASE) in *. set (m := y mod NBASE) in *. clearbody k m. unfold y in Edm. nia.
Qed.

Lemma scale_exactly_spec d l : 1 <= d < NBASE -> digits_ok l -> d * hval l < NBASE ^ Z.of_nat (length l) ->
  exists out, scale_exactly d l = Ok out /\ length out = length l /\ digits_ok out /\ hval out = d * hval l.
Proof.
  intros Hd Hl Hlt. unfold scale_exactly. destruct (scale_digits_spec d Hd l Hl) as (c & out & -> & L & O & B & V). cbn [res_bind]. pose proof (hval_bounds out O) as [B1 _]. pose proof (base_power (length l)).
  assert (c = 0) as -> by nia. change (negb (0 =? 0)) with false. cbv iota. exists out. split; [done|]. split; [done|]. split; [done|]. lia.
Qed.

(** Scaling makes the first digit of the divisor large, for each of its values. *)
Lemma lead_checked : forallb (fun i => forallb (fun j => let x := 100 * i + j in (x =? 0) || (HALF_NBASE <=? Z.quot NBASE (x + 1) * x)) (seqZ 0 100)) (seqZ 0 50) = true.
Proof. vm_compute. reflexivity. Qed.

Lemma lead_large x : 0 < x < HALF_NBASE -> HALF_NBASE <= Z.quot NBASE (x + 1) * x /\ 1 <= Z.quot NBASE (x + 1) <= HALF_NBASE /\ Z.quot NBASE (x + 1) * (x + 1) <= NBASE.
Proof.
  intros Hx. unfold HALF_NBASE in Hx. pose proof (Z.div_mod x 100 ltac:(lia)) as E. pose proof (Z.mod_pos_bound x 100 ltac:(lia)).
  assert (Hi : x / 100 ∈ seqZ 0 50) by (apply elem_of_seqZ; lia). assert (Hj : x mod 100 ∈ seqZ 0 100) by (apply elem_of_seqZ; lia).
  pose proof (forallb_elem _ _ _ (forallb_elem _ _ _ lead_checked Hi) Hj) as Hc. cbv beta zeta in Hc. rewrite <- E in Hc. destruct (Z.eqb_spec x 0); [lia|]. cbn [orb] in Hc. apply Z.leb_le in Hc. split; [done|].
  rewrite Z.quot_div_nonneg in * by (unfold NBASE; lia). pose proof (Z.mul_div_le NBASE (x + 1) ltac:(lia)). split; [|lia]. unfold HALF_NBASE, NBASE in *. split; [apply Z.div_le_lower_bound; lia|apply Z.div_le_upper_bound; lia].
Qed.

Lemma head_bounds l : digits_ok l -> l <> [] -> rd l 0 * NBASE ^ Z.of_nat (pred (length l)) <= hval l < (rd l 0 + 1) * NBASE ^ Z.of_nat (pred (length l)).
Proof.
  intros H Hne. destruct l as [|x l]; [done|]. inversion H as [|? ? _ Hl]; subst. rewrite bval_cons. cbn [length pred]. change (rd (x :: l) 0) with x. pose proof (hval_bounds l Hl). lia.
Qed.

(** A dividend whose first digit is smaller than that of the divisor. *)
Lemma head_less us vs : digits_ok us -> digits_ok vs -> vs <> [] -> (length vs <= length us)%nat -> rd us 0 < rd vs 0 -> hval (take (length vs) us) < hval vs.
Proof.
  intros Hu Hv Hne Hl Hlt. assert (Lt : length (take (length vs) us) = length vs) by (rewrite length_take; lia). assert (Hne' : take (length vs) us <> []) by (intros E; rewrite E in Lt; destruct vs; done).
  destruct (head_bounds _ (Forall_take _ (length vs) us Hu) Hne') as [_ B1], (head_bounds vs Hv Hne) as [B2 _]. rewrite Lt in B1. assert (E : rd (take (length vs) us) 0 = rd us 0) by (unfold rd; rewrite lookup_take_lt by (destruct vs; [done|simpl; lia]); done).
  rewrite E in B1. pose proof (base_power (pred (length vs))). nia.
Qed.

Lemma scaled_operands ds1 ds2 : digits_ok ds1 -> digits_ok ds2 -> 0 < rd ds2 0 ->
  exists d dividend divisor,
    (if rd ds2 0 <? HALF_NBASE then
       let d := Z.quot NBASE (rd ds2 0 + 1) in
       divisor <-! scale_exactly d ds2 ;;
       dividend <-! scale_exactly d (0 :: ds1) ;;
       if negb (HALF_NBASE <=? rd divisor 0) then Err "divisor[1] >= HALF_NBASE" else Ok (dividend, divisor)
     else Ok (0 :: ds1, ds2)) = Ok (dividend, divisor)
    /\ 0 < d /\ (length dividend = S (length ds1) /\ digits_ok dividend /\ hval dividend = d * hval ds1)
    /\ (length divisor = length ds2 /\ digits_ok divisor /\ hval divisor = d * hval ds2) /\ HALF_NBASE <= rd divisor 0 /\ rd dividend 0 < rd divisor 0.
Proof.
  intros H1 H2 Hx. assert (Hne : ds2 <> []) by (by intros ->). destruct (head_bounds ds2 H2 Hne) as [B1 B2]. set (P := NBASE ^ Z.of_nat (pred (length ds2))) in *. assert (HP : 0 < P) by apply base_power.
  assert (EP : NBASE ^ Z.of_nat (length ds2) = NBASE * P) by (unfold P; rewrite <- base_power_S; f_equal; f_equal; destruct ds2; done).
  assert (H0 : digits_ok (0 :: ds1)) by (by constructor). assert (E0 : hval (0 :: ds1) = hval ds1) by (rewrite bval_cons; lia). pose proof (hval_bounds ds1 H1) as Bd. destruct (Z.ltb_spec (rd ds2 0) HALF_NBASE) as [Hlt|Hge].
  - destruct (lead_large (rd ds2 0) ltac:(lia)) as (L1 & L2 & L3). set (d := Z.quot NBASE (rd ds2 0 + 1)) in *. clearbody d. cbv zeta. assert (Hd : 1 <= d < NBASE) by (unfold HALF_NBASE, NBASE in *; lia).
    destruct (scale_exactly_spec d ds2 Hd H2) as (vs & -> & Lv & Ov & Ev); [rewrite EP; nia|]. cbn [res_bind].
    destruct (scale_exactly_spec d (0 :: ds1) Hd H0) as (us & -> & Lu & Ou & Eu); [rewrite E0; cbn [length]; rewrite base_power_S; nia|]. cbn [res_bind]. rewrite E0 in Eu.
    assert (Hvs : vs <> []) by (intros ->; destruct ds2; done). destruct (head_bounds vs Ov Hvs) as [C1 C2]. rewrite Lv in C1, C2. fold P in C1, C2. assert (Hr : HALF_NBASE <= rd vs 0) by nia.
    assert (Hus : us <> []) by (by intros ->). destruct (head_bounds us Ou Hus) as [C3 _]. rewrite Lu in C3. cbn [length pred] in C3, Lu. pose proof (base_power (length ds1)). assert (Hru : rd us 0 < d) by nia.
    apply Z.leb_le in Hr as Hr'. rewrite Hr'. cbn [negb]. exists d, us, vs. split; [done|]. split; [lia|]. split; [done|]. split; [done|]. split; [done|]. lia.
  - exists 1, (0 :: ds1), ds2. split; [done|]. split; [lia|]. split; [split; [done|]; split; [done|lia]|]. split; [split; [done|]; split; [done|lia]|]. split; [done|]. change (rd (0 :: ds1) 0) with 0. unfold HALF_NBASE in *. lia.
Qed.

Lemma long_division_spec v1 v2 s round : var_ok v1 -> var_ok v2 -> 0 < rd (digits v2) 0 -> (2 <= length (digits v2))%nat -> divided (long_division v1 v2 s round) v1 v2 s round.
Proof.
  intros H1 H2 Hx Hlen. unfold long_division. cbv zeta. set (w := weight v1 - weight v2). set (n := quotient_digits w s round). destruct (enough_digits w s round n eq_refl) as [Hn _].
  set (dn := Z.max (n + ndigits v2) (ndigits v1)). destruct (scaled_operands (digits v1) (digits v2) (ok_digits _ H1) (ok_digits _ H2) Hx) as (d & us & vs & Eop & Hd & (Lu & Ou & Eu) & (Lv & Ov & Ev) & Hv0 & Hu0). cbv zeta in Eop. rewrite Eop. clear Eop. cbn [res_bind].
  set (k := Z.to_nat (dn - ndigits v1)). set (all := us ++ replicate k 0). assert (Oall : digits_ok all) by (apply Forall_app; split; [done|by apply Forall_replicate]).
  assert (Lall : length all = S (length (digits v1) + k)) by (unfold all; rewrite length_app, length_replicate, Lu; lia).
  assert (Hroom : (Z.to_nat n + length vs <= length all)%nat) by (rewrite Lall, Lv; unfold k, dn, ndigits; lia).
  assert (Hvs : vs <> []) by (intros ->; simpl in Lv; lia). assert (Hall0 : rd all 0 = rd us 0) by (unfold all, rd; rewrite lookup_app_l by (rewrite Lu; lia); done).
  destruct (long_digits_spec vs Ov ltac:(lia) Hv0 (Z.to_nat n) all Oall Hroom) as (ds & -> & Ld & Od & r & Br & Er); [apply head_less; [done|done|done|lia|by rewrite Hall0]|]. cbn [res_bind].
  assert (Hd1 : (mag all (weight v1 + 1) == inject_Z d * magnitude v1)%Q).
  { unfold all. rewrite mag_drop_zeroes, mag_hval, Lu, Eu, inject_Z_mult. unfold magnitude. rewrite mag_hval. replace (weight v1 + 1 + 1 - Z.of_nat (S (length (digits v1)))) with (weight v1 + 1 - Z.of_nat (length (digits v1))) by lia. ring. }
  assert (Hm2 : (inject_Z d * magnitude v2 == inject_Z (hval vs) * bpow (weight v2 + 1 - Z.of_nat (length vs)))%Q) by (unfold magnitude; rewrite mag_hval, Ev, Lv, inject_Z_mult; ring).
  assert (Hdq : (0 < inject_Z d)%Q) by (change 0%Q with (inject_Z 0); by rewrite <- Zlt_Qlt). set (m := (Z.to_nat n + length vs)%nat) in *.
  assert (Hp2 : (0 < magnitude v2)%Q).
  { apply (Qmult_lt_l _ _ (inject_Z d)); [done|]. rewrite Qmult_0_r, Hm2. pose proof (bpow_pos (weight v2 + 1 - Z.of_nat (length vs))). assert (0 < inject_Z (hval vs))%Q by (change 0%Q with (inject_Z 0); rewrite <- Zlt_Qlt; lia). nra. }
  pose proof (mag_split all m (weight v1 + 1) Hroom) as Esp. destruct (mag_bounds (drop m all) (weight v1 + 1 - Z.of_nat m) ltac:(by apply Forall_drop)) as [B1 B2].
  assert (Lm : length (take m all) = m) by (rewrite length_take; lia). rewrite (mag_hval (take m all)), Lm, Hd1 in Esp. set (e := weight v1 + 1 + 1 - Z.of_nat m) in *. replace (weight v1 + 1 - Z.of_nat m + 1) with e in B2 by (unfold e; lia).
  apply finish_spec; [|rewrite Ld; unfold n in *; lia|by destruct (sign v1 =? sign v2); auto|done|by apply magnitude_nonneg|].
  - apply (quotient_of_scaled (inject_Z d)); [done|]. apply (quotient_of_read _ _ _ _ (hval vs) e (hval (take m all)) r Od Er Br); [lra|lra|].
    rewrite Hm2, Ld. unfold e, w, m. replace (weight v1 + 1 + 1 - Z.of_nat (Z.to_nat n + length vs) - (weight v1 - weight v2 + 1 - Z.of_nat (Z.to_nat n))) with (weight v2 + 1 - Z.of_nat (length vs)) by lia. reflexivity.
  - apply sign_quotient; [done|unfold sgn; destruct (sign v1 =? NUMERIC_NEG); auto|unfold sgn; destruct (sign v2 =? NUMERIC_NEG); auto|]. unfold sgn. destruct (ok_sign _ H1) as [-> | ->], (ok_sign _ H2) as [-> | ->]; reflexivity.
Qed.

(** ** [div_var] *)

Lemma one_word_value v : var_ok v -> let D := hval (digits v) in
  one_word v = (if sign v =? NUMERIC_NEG then - D else D) /\ (magnitude v == inject_Z D * bpow (weight v - (ndigits v - 1)))%Q.
Proof. intros Hv D. split; [done|]. unfold magnitude. rewrite mag_hval. unfold ndigits. replace (weight v - (Z.of_nat (length (digits v)) - 1)) with (weight v + 1 - Z.of_nat (length (digits v))) by lia. reflexivity. Qed.

Lemma div_var_spec h v1 v2 s round : var_ok v1 -> var_ok v2 -> rd (digits v2) 0 <> 0 -> divided (div_var h v1 v2 s round) v1 v2 s round.
Proof.
  intros H1 H2 Hx. unfold div_var. assert (Hx0 : 0 < rd (digits v2) 0) by (pose proof (rd_digit (digits v2) 0 (ok_digits _ H2)) as [? _]; lia). assert (Hne : digits v2 <> []) by (intros E; by rewrite E in Hx).
  assert (Hn : 1 <= ndigits v2) by (unfold ndigits; destruct (digits v2); [done|simpl; lia]). destruct (Z.eqb_spec (ndigits v2) 0), (Z.eqb_spec (rd (digits v2) 0) 0); try lia. cbn [orb].
  destruct (one_word_value v2 H2) as [-> Em]. pose proof (hval_bounds _ (ok_digits _ H2)) as [_ Hb]. destruct (head_bounds _ (ok_digits _ H2) Hne) as [Hl _]. pose proof (base_power (pred (length (digits v2)))). set (D := hval (digits v2)) in *. assert (HD : 0 < D) by nia.
  assert (Hpow : forall k, ndigits v2 <= k -> D < NBASE ^ k) by (intros k Hk; eapply Z.lt_le_trans; [exact Hb|]; apply Z.pow_le_mono_r; [unfold NBASE; lia|unfold ndigits in Hk; lia]).
  destruct (Z.leb_spec (ndigits v2) 2) as [H2d|H2d]; [apply div_short_spec; [done|apply H2|done|exact Em|by left|]; specialize (Hpow 2 H2d); change (NBASE ^ 2) with 100000000 in Hpow; lia|].
  destruct h; cbn [andb].
  - destruct (Z.leb_spec (ndigits v2) 4) as [H4|H4]; [apply div_short_spec; [done|apply H2|done|exact Em|by right|]; specialize (Hpow 4 H4); change (NBASE ^ 4) with 10000000000000000 in Hpow; lia|].
    destruct (Z.eqb_spec (ndigits v1) 0) as [E0|E0]; [apply divided_zero, nil_length_inv; unfold ndigits in E0; lia|]. apply long_division_spec; [done|done|done|unfold ndigits in H2d; lia].
  - destruct (Z.eqb_spec (ndigits v1) 0) as [E0|E0]; [apply divided_zero, nil_length_inv; unfold ndigits in E0; lia|]. apply long_division_spec; [done|done|done|unfold ndigits in H2d; lia].
Qed.
