(* ===== verification/NumericModulo.v ===== *)
(** Remainders and common divisors. *)

From S2P Require Import Prelude Numeric NumericArith NumericRound NumericMul NumericPack NumericNum NumericTimes NumericBased NumericFun NumericDiv NumericQuot NumericDivide.
Local Open Scope Z_scope.
Local Open Scope pg_scope.

(** ** Truncated quotients *)

Lemma toward_zero_proper : Proper (Qeq ==> eq ==> Qeq) toward_zero.
Proof. apply by_magnitude_proper, trunc_at_proper. Qed.

Lemma inject_nonneg z : 0 <= z -> (0 <= inject_Z z)%Q.
Proof. intros H. change 0%Q with (inject_Z 0). by rewrite <- Zle_Qle. Qed.

Lemma inject_nonzero z : z <> 0 -> ~ (inject_Z z == 0)%Q.
Proof. intros H E. apply H. by apply (inject_Z_injective z 0). Qed.

Lemma trunc_integer a b : 0 <= a -> 0 < b -> (trunc_at (inject_Z a / inject_Z b) 0 == inject_Z (a / b))%Q.
Proof.
  intros Ha Hb. change (- 0) with 0. pose proof (Z.div_mod a b ltac:(lia)) as E. pose proof (Z.mod_pos_bound a b Hb) as Hm. assert (Hq : (0 < inject_Z b)%Q) by (change 0%Q with (inject_Z 0); by rewrite <- Zlt_Qlt).
  apply trunc_intro; change (tpow (- 0)) with 1%Q; [exists (a / b); ring| |].
  - apply Qle_shift_div_l; [done|]. rewrite <- inject_Z_mult, <- Zle_Qle. lia.
  - apply Qlt_shift_div_r; [done|]. change 1%Q with (inject_Z 1). rewrite <- inject_Z_plus, <- inject_Z_mult, <- Zlt_Qlt. lia.
Qed.

Lemma toward_zero_quot a b : b <> 0 -> (toward_zero (inject_Z a / inject_Z b) 0 == inject_Z (Z.quot a b))%Q.
Proof.
  intros Hb. set (s := if (0 <=? a) && (0 <=? b) || (a <=? 0) && (b <=? 0) then 1%Q else (-1)%Q).
  assert (Es : (inject_Z a / inject_Z b == s * (inject_Z (Z.abs a) / inject_Z (Z.abs b)))%Q /\ Z.quot a b = (if (0 <=? a) && (0 <=? b) || (a <=? 0) && (b <=? 0) then 1 else -1) * (Z.abs a / Z.abs b)).
  { pose proof (inject_nonzero b Hb) as Hq. unfold s. destruct (Z.leb_spec 0 a), (Z.leb_spec 0 b), (Z.leb_spec a 0), (Z.leb_spec b 0); cbn [andb orb]; try lia;
      try (assert (a = 0) as -> by lia); rewrite ?(Z.abs_eq a), ?(Z.abs_neq a), ?(Z.abs_eq b), ?(Z.abs_neq b), ?Z.abs_0 by lia; rewrite ?inject_Z_opp; (split; [field; done|]);
      rewrite ?Z.quot_0_l, ?Z.div_0_l by lia; try lia; rewrite <- Z.quot_div_nonneg by lia; rewrite ?Z.quot_opp_l, ?Z.quot_opp_r by lia; lia. }
  destruct Es as [Eq Ez]. unfold toward_zero. rewrite (by_magnitude_proper _ trunc_at_proper _ _ Eq 0 0 eq_refl).
  rewrite <- (by_magnitude_unit trunc_at s); [|apply trunc_at_proper|apply trunc_at_zero|unfold s; destruct (_ || _); auto|].
  - rewrite trunc_integer, Ez by lia. rewrite inject_Z_mult. unfold s. by destruct (_ || _).
  - apply Qle_shift_div_l; [change 0%Q with (inject_Z 0); rewrite <- Zlt_Qlt; lia|]. rewrite Qmult_0_l. by apply inject_nonneg, Z.abs_nonneg.
Qed.

(** ** [mod_var] *)

(** A variable whose digits end at its display scale. *)
Record sound (v : NumericVar) : Prop := {
  sn_normal : normal v;
  sn_dscale : 0 <= dscale v;
  sn_places : multiple (magnitude v) (tpow (- dscale v))
}.

Definition remainder (q1 q2 : Q) : Q := (q1 - q2 * toward_zero (q1 / q2) 0)%Q.

#[export] Instance remainder_proper : Proper (Qeq ==> Qeq ==> Qeq) remainder.
Proof. intros x y E x' y' E'. unfold remainder. rewrite (toward_zero_proper (x / x')%Q (y / y')%Q ltac:(by rewrite E, E') 0 0 eq_refl), E, E'. reflexivity. Qed.

Lemma whole_quotient q : multiple (toward_zero q 0) (tpow (- 0)).
Proof. unfold toward_zero, by_magnitude. destruct (Qle_bool 0 q); [apply trunc_at_multiple|apply multiple_neg, trunc_at_multiple]. Qed.

Lemma remainder_multiple q1 q2 d1 d2 : multiple q1 (tpow (- d1)) -> multiple q2 (tpow (- d2)) -> multiple (remainder q1 q2) (tpow (- Z.max d1 d2)).
Proof.
  intros H1 H2. unfold remainder. destruct (whole_quotient (q1 / q2)) as [k Ek]. rewrite Ek. change (tpow (- 0)) with 1%Q. assert (E : (q1 - q2 * (inject_Z k * 1) == q1 + - (inject_Z k * q2))%Q) by ring. rewrite E.
  apply multiple_sum; [done|]. apply multiple_neg. by apply multiple_times.
Qed.

Lemma mod_var_spec h v1 v2 : sound v1 -> sound v2 -> digits v2 <> [] ->
  exists v, mod_var h v1 v2 = Ok v /\ sound v /\ dscale v = Z.max (dscale v1) (dscale v2) /\ (value v == remainder (value v1) (value v2))%Q.
Proof.
  intros [N1 D1 M1] [N2 D2 M2] Hne. unfold mod_var. assert (Hx : rd (digits v2) 0 <> 0) by (destruct N2 as [_ [[?|?] _ _]]; done).
  destruct (div_var_spec h v1 v2 0 false (proj1 N1) (proj1 N2) Hx) as (t & -> & Nt & Dt & Vt). cbn [res_bind]. change (by_magnitude (cut false)) with toward_zero in Vt.
  assert (Mt : multiple (magnitude t) (tpow (- 0))) by (apply multiple_value; rewrite Vt; apply whole_quotient).
  destruct (mul_var_exact v2 t (dscale v2) 0 N2 Nt D2 ltac:(lia) M2 Mt) as (p & Ep & Np & Vp & Dp & _). rewrite Z.add_0_r in Ep, Dp. rewrite Ep. cbn [res_bind].
  destruct (sub_var_exact v1 p (normal_led _ N1) (normal_led _ Np)) as (v & -> & Nv & Vv & Dv & _). exists v. rewrite Vp, Vt in Vv. rewrite Dp in Dv. split; [done|].
  split; [|split; [done|exact Vv]]. split; [done|lia|]. apply multiple_value. rewrite Vv, Dv. apply (remainder_multiple _ _ (dscale v1) (dscale v2)); by apply multiple_value.
Qed.

Lemma remainder_rem a b u : (0 < u)%Q -> b <> 0 -> (remainder (inject_Z a * u) (inject_Z b * u) == inject_Z (Z.rem a b) * u)%Q.
Proof.
  intros Hu Hb. unfold remainder. pose proof (inject_nonzero b Hb). assert (E : (inject_Z a * u / (inject_Z b * u) == inject_Z a / inject_Z b)%Q) by (field; split; (done || lra)).
  rewrite (toward_zero_proper _ _ E 0 0 eq_refl), toward_zero_quot by done. rewrite Z.rem_eq by done. unfold Z.sub. rewrite inject_Z_plus, inject_Z_opp, inject_Z_mult. ring.
Qed.

(** ** Common divisors *)

(** The greatest common divisor of two numbers: they are multiples of it, and it is a
    combination of them. *)
Definition common_divisor (g q1 q2 : Q) : Prop := (0 <= g)%Q /\ multiple q1 g /\ multiple q2 g /\ exists x y : Z, (g == inject_Z x * q1 + inject_Z y * q2)%Q.

#[export] Instance common_divisor_proper : Proper (Qeq ==> Qeq ==> Qeq ==> iff) common_divisor.
Proof. intros g g' E x x' Ex y y' Ey. unfold common_divisor. setoid_rewrite E. setoid_rewrite Ex. setoid_rewrite Ey. done. Qed.

Lemma gcd_common a b u : (0 < u)%Q -> common_divisor (inject_Z (Z.gcd a b) * u) (inject_Z a * u) (inject_Z b * u).
Proof.
  intros Hu. pose proof (Z.gcd_nonneg a b) as H0%inject_nonneg. split; [nra|]. destruct (Z.gcd_divide_l a b) as [k Ek], (Z.gcd_divide_r a b) as [l El].
  split; [exists k; rewrite Ek at 1; rewrite inject_Z_mult; ring|]. split; [exists l; rewrite El at 1; rewrite inject_Z_mult; ring|].
  destruct (Z.gcd_bezout a b (Z.gcd a b) eq_refl) as (x & y & E). exists x, y. rewrite <- E, inject_Z_plus, !inject_Z_mult. ring.
Qed.

(** Two passes at least halve the divisor. *)
Lemma rem_halves a b : b <> 0 -> Z.rem a b <> 0 -> 2 * Z.abs (Z.rem b (Z.rem a b)) < Z.abs b.
Proof.
  intros Hb Hr. pose proof (Z.rem_bound_abs a b Hb) as B1. set (r := Z.rem a b) in *. clearbody r. pose proof (Z.rem_bound_abs b r Hr) as B2.
  assert (E : Z.abs (Z.rem b r) = Z.abs b mod Z.abs r) by (rewrite <- Z.rem_mod_nonneg by lia; by rewrite Z.rem_abs).
  rewrite E in *. pose proof (Z.div_mod (Z.abs b) (Z.abs r) ltac:(lia)) as Ed. assert (1 <= Z.abs b / Z.abs r) by (apply Z.div_le_lower_bound; lia). nia.
Qed.

Lemma gcd_rem_step a b : b <> 0 -> Z.gcd b (Z.rem a b) = Z.gcd a b.
Proof. intros Hb. rewrite (Z.gcd_comm a b). symmetry. rewrite <- (Z.gcd_add_mult_diag_r b a (- Z.quot a b)). f_equal. rewrite Z.rem_eq by done. lia. Qed.

Definition units (v : NumericVar) (a : Z) (u : Q) : Prop := sound v /\ (value v == inject_Z a * u)%Q.

Lemma sound_copy v : sound v -> sound (set_var_from_var v).
Proof. intros [[[? ?] [? ? ?]] ? ?]. split; [split; split; done|done|done]. Qed.

Lemma units_zero v a u : (0 < u)%Q -> units v a u -> (ndigits v =? 0) = (a =? 0).
Proof.
  intros Hu [[N _ _] E]. apply eq_true_iff_eq. rewrite !Z.eqb_eq. unfold ndigits. split.
  - intros H. assert (Ed : digits v = []) by (apply nil_length_inv; lia). unfold value in E. rewrite (magnitude_empty v Ed) in E. apply (inject_Z_injective a 0). assert ((inject_Z a * u == 0)%Q) as Hz by lra.
    apply Qmult_integral in Hz as [Hz|Hz]; [done|lra].
  - intros ->. rewrite (magnitude_zero v (normal_led _ N)); [done|]. rewrite <- abs_value, E by apply N. rewrite Qmult_0_l. done.
Qed.

Lemma mod_units h v1 v2 a b u : (0 < u)%Q -> units v1 a u -> units v2 b u -> b <> 0 ->
  exists v, mod_var h v1 v2 = Ok v /\ units v (Z.rem a b) u.
Proof.
  intros Hu U1 U2 Hb. pose proof (units_zero v2 b u Hu U2) as Hz. destruct U1 as [S1 E1], U2 as [S2 E2]. destruct (mod_var_spec h v1 v2 S1 S2) as (v & -> & Sv & _ & Ev).
  - intros Ed. unfold ndigits in Hz. rewrite Ed in Hz. destruct (Z.eqb_spec b 0); done.
  - exists v. split; [done|]. split; [done|]. by rewrite Ev, E1, E2, remainder_rem.
Qed.

Lemma euclid_spec h u : (0 < u)%Q -> forall n fuel v1 v2 a b, units v1 a u -> units v2 b u -> b <> 0 -> Z.abs b < 2 ^ Z.of_nat n -> (2 * n + 1 <= fuel)%nat ->
  exists v g, euclid h fuel v1 v2 = Ok v /\ units v g u /\ Z.abs g = Z.gcd a b.
Proof.
  intros Hu n. induction n as [|n IH]; intros fuel v1 v2 a b U1 U2 Hb Hlt Hf; [change (2 ^ Z.of_nat 0) with 1 in Hlt; lia|].
  assert (Hcopy : forall v x, units v x u -> units (set_var_from_var v) x u) by (intros v x [S E]; split; [by apply sound_copy|exact E]).
  destruct fuel as [|[|fuel]]; [lia|lia|]. cbn [euclid]. destruct (mod_units h v1 v2 a b u Hu U1 U2 Hb) as (r & -> & Ur). cbn [res_bind]. rewrite (units_zero r _ u Hu Ur).
  destruct (Z.eqb_spec (Z.rem a b) 0) as [E0|E0]; [exists v2, b; split; [done|]; split; [done|]; rewrite <- gcd_rem_step, E0, Z.gcd_0_r by done; done|].
  destruct (mod_units h _ _ _ _ u Hu (Hcopy _ _ U2) (Hcopy _ _ Ur) E0) as (r2 & -> & Ur2). cbn [res_bind]. rewrite (units_zero r2 _ u Hu Ur2).
  destruct (Z.eqb_spec (Z.rem b (Z.rem a b)) 0) as [E2|E2].
  { exists (set_var_from_var r), (Z.rem a b). split; [done|]. split; [by apply Hcopy|]. rewrite <- (gcd_rem_step a b), <- (gcd_rem_step b (Z.rem a b)), E2, Z.gcd_0_r by done. done. }
  pose proof (rem_halves a b Hb E0). rewrite Nat2Z.inj_succ, Z.pow_succ_r in Hlt by lia.
  destruct (IH fuel _ _ _ _ (Hcopy _ _ (Hcopy _ _ Ur)) (Hcopy _ _ Ur2) E2 ltac:(lia) ltac:(lia)) as (v & g & Ev & Ug & Eg). exists v, g. split; [exact Ev|]. split; [done|].
  rewrite Eg, (gcd_rem_step b (Z.rem a b)), (gcd_rem_step a b) by done. done.
Qed.

(** ** [gcd_var] *)

Lemma in_units v e : sound v -> e <= weight v + 1 - ndigits v -> exists a, units v a (bpow e).
Proof.
  intros S He. assert (M : multiple (magnitude v) (bpow e)) by (by apply mag_multiple). apply multiple_value in M as [a Ea]. exists a. by split.
Qed.

Lemma base_binary k : 0 <= k -> NBASE ^ k <= 2 ^ (14 * k).
Proof. intros Hk. rewrite Z.pow_mul_r by lia. apply Z.pow_le_mono_l. unfold NBASE. simpl. lia. Qed.

Lemma euclid_enough h v1 v2 : sound v1 -> sound v2 -> digits v2 <> [] ->
  exists v g, euclid h (euclid_fuel v1 v2) (set_var_from_var v1) (set_var_from_var v2) = Ok v /\ sound v /\ (Qabs (value v) == g)%Q /\ common_divisor g (value v1) (value v2).
Proof.
  intros S1 S2 Hne. unfold euclid_fuel. set (first := Z.max (weight v1) (weight v2) + 1). set (last := Z.min _ _). assert (Hfl : last <= first) by (unfold first, last, ndigits; lia).
  destruct (in_units v1 last S1 ltac:(unfold last; lia)) as [a Ua], (in_units v2 last S2 ltac:(unfold last; lia)) as [b Ub]. pose proof (bpow_pos last) as Hu.
  assert (Hb : b <> 0) by (pose proof (units_zero v2 b _ Hu Ub) as Hz; intros ->; apply Hne, nil_length_inv; change (0 =? 0) with true in Hz; apply Z.eqb_eq in Hz; unfold ndigits in Hz; lia).
  assert (Hlt : Z.abs b < 2 ^ Z.of_nat (Z.to_nat (14 * (first - last)))).
  { rewrite Z2Nat.id by lia. eapply Z.lt_le_trans; [|apply base_binary; lia]. destruct Ub as [[N _ _] Eb]. destruct (mag_bounds (digits v2) (weight v2) (ok_digits _ (proj1 N))) as [_ B].
    assert (B2 : (Qabs (value v2) < bpow first)%Q) by (rewrite abs_value by apply N; eapply Qlt_le_trans; [exact B|]; apply bpow_le; unfold first; lia).
    rewrite Eb, Qabs_Qmult, (Qabs_pos (bpow last)) in B2 by lra. rewrite Zlt_Qlt, <- bpow_Z by lia. apply (Qmult_lt_r _ _ (bpow last)); [done|]. rewrite <- bpow_plus. replace (first - last + last) with first by lia.
    assert (Ea : (Qabs (inject_Z b) == inject_Z (Z.abs b))%Q) by reflexivity. by rewrite <- Ea. }
  assert (Hcopy : forall v x, units v x (bpow last) -> units (set_var_from_var v) x (bpow last)) by (intros v x [S E]; split; [by apply sound_copy|exact E]).
  destruct (euclid_spec h (bpow last) Hu _ (2 * Z.to_nat (14 * (first - last)) + 1) _ _ a b (Hcopy _ _ Ua) (Hcopy _ _ Ub) Hb Hlt ltac:(lia)) as (v & g & E & [Sv Eg] & Hg).
  exists v, (inject_Z (Z.gcd a b) * bpow last)%Q. split; [exact E|]. split; [done|]. destruct Ua as [_ ->], Ub as [_ ->]. split; [|by apply gcd_common].
  rewrite Eg, Qabs_Qmult, (Qabs_pos (bpow last)) by lra. rewrite <- Hg. reflexivity.
Qed.

Lemma common_divisor_abs q1 q2 : (Qabs q1 == Qabs q2)%Q \/ (q2 == 0)%Q -> common_divisor (Qabs q1) q1 q2.
Proof.
  intros H. assert (M : forall q, exists k : Z, (q == inject_Z k * Qabs q)%Q /\ (Qabs q == inject_Z k * q)%Q).
  { intros q. destruct (Qlt_le_dec q 0); [exists (-1); rewrite Qabs_neg by lra|exists 1; rewrite Qabs_pos by done]; split; ring. }
  destruct (M q1) as (k & E1 & E2). split; [apply Qabs_nonneg|]. split; [by exists k|]. split; [|exists k, 0; rewrite E2 at 1; ring].
  destruct H as [H|H]; [destruct (M q2) as (l & E3 & _); exists l; by rewrite H|exists 0; rewrite H; ring].
Qed.

Lemma common_divisor_sym g q1 q2 : common_divisor g q1 q2 -> common_divisor g q2 q1.
Proof. intros (H & M1 & M2 & x & y & E). split; [done|]. split; [done|]. split; [done|]. exists y, x. rewrite E. ring. Qed.

Lemma gcd_var_spec h v1 v2 : sound v1 -> sound v2 ->
  exists v, gcd_var h v1 v2 = Ok v /\ normal v /\ dscale v = Z.max (dscale v1) (dscale v2) /\ common_divisor (value v) (value v1) (value v2).
Proof.
  intros S1 S2. unfold gcd_var, cmp_abs. pose proof (cmp_abs_common_spec _ (weight v1) _ (weight v2) (ok_digits _ (proj1 (sn_normal _ S1))) (ok_digits _ (proj1 (sn_normal _ S2)))) as Hc. set (c := cmp_abs_common _ _ _ _) in *.
  assert (Hfin : forall r va vb, (exists v, r = Ok v /\ sound v /\ common_divisor (Qabs (value v)) va vb) ->
    exists v, (result <-! r ;; Ok (set_dscale (Z.max (dscale v1) (dscale v2)) (set_sign NUMERIC_POS result))) = Ok v /\ normal v /\ dscale v = Z.max (dscale v1) (dscale v2) /\ common_divisor (value v) va vb).
  { intros r va vb (v & -> & [[Hv St] _ _] & Hg). cbn [res_bind]. eexists. split; [done|]. split; [split; [split; [apply Hv|by left]|destruct St; split; [done|done|intros; split; [done|]; by apply st_zero]]|]. split; [done|].
    rewrite abs_value in Hg by done. unfold value, sgn. cbn [set_dscale set_sign sign]. change (NUMERIC_POS =? NUMERIC_NEG) with false. cbv iota. rewrite Qmult_1_l. exact Hg. }
  assert (Hrun : forall va vb, sound va -> sound vb -> (c = 0 -> (Qabs (value va) == Qabs (value vb))%Q) ->
    exists v, (if (c =? 0) || (ndigits vb =? 0) then Ok (set_var_from_var va) else euclid h (euclid_fuel va vb) (set_var_from_var va) (set_var_from_var vb)) = Ok v /\ sound v /\ common_divisor (Qabs (value v)) (value va) (value vb)).
  { intros va vb Sa Sb H0. destruct (Z.eqb_spec c 0) as [Ec|Ec]; cbn [orb]; [eexists; split; [done|]; split; [by apply sound_copy|]; apply common_divisor_abs; left; by apply H0|].
    destruct (Z.eqb_spec (ndigits vb) 0) as [En|En]; [eexists; split; [done|]; split; [by apply sound_copy|]; apply common_divisor_abs; right|].
    - unfold value. rewrite magnitude_empty; [ring|]. apply nil_length_inv. unfold ndigits in En. lia.
    - destruct (euclid_enough h va vb Sa Sb ltac:(intros E; unfold ndigits in En; by rewrite E in En)) as (v & g & -> & Sv & Eg & Hg). exists v. split; [done|]. split; [done|]. by rewrite Eg. }
  assert (Heq : c = 0 -> (Qabs (value v1) == Qabs (value v2))%Q) by (intros E; destruct Hc as [[? _]|[[_ H]|[? _]]]; [lia| |lia]; rewrite !abs_value by (apply S1 || apply S2); exact H).
  destruct (c <? 0).
  - destruct (Hfin _ _ _ (Hrun v2 v1 S2 S1 ltac:(intros E; symmetry; by apply Heq))) as (v & E & N & D & G). exists v. split; [exact E|]. split; [done|]. split; [done|]. by apply common_divisor_sym.
  - apply Hfin. by apply Hrun.
Qed.
