(* ===== verification/NumericDivProps.v ===== *)
(** The theorems on division, remainders, common divisors and factorials, each with an
    application to concrete values. *)

From S2P Require Import Prelude Numeric NumericArith NumericRound NumericMul NumericPack NumericNum NumericTimes NumericInt NumericProps NumericFun NumericType NumericBased NumericDiv NumericQuot NumericDivide NumericModulo.
Local Open Scope Z_scope.
Local Open Scope pg_scope.

(** ** The scale of a quotient *)

Lemma first_digit_spec v : normal v -> first_digit (digits v) (weight v) 0 = (weight v, rd (digits v) 0).
Proof.
  intros [_ [Hf _ Hz]]. destruct (digits v) as [|d ds]; [destruct (Hz eq_refl) as [_ ->]; done|]. destruct Hf as [Hf|]; [|done]. change (rd (d :: ds) 0) with d in *. cbn [first_digit]. by destruct (Z.eqb_spec d 0).
Qed.

(** A number by its first digit. *)
Lemma magnitude_first v : normal v -> digits v <> [] -> 1 <= rd (digits v) 0 < NBASE /\ (inject_Z (rd (digits v) 0) * bpow (weight v) <= magnitude v)%Q /\ (magnitude v < (inject_Z (rd (digits v) 0) + 1) * bpow (weight v))%Q.
Proof.
  intros [[Hd _] [Hf _ _]] Hne. destruct Hf as [Hf|]; [|done]. unfold magnitude. destruct (digits v) as [|d ds]; [done|]. inversion Hd as [|? ? [D0 D1] Hds]; subst. change (rd (d :: ds) 0) with d in *. split; [lia|]. cbn [mag].
  destruct (mag_bounds ds (weight v - 1) Hds) as [B1 B2]. replace (weight v - 1 + 1) with (weight v) in B2 by lia. split; lra.
Qed.

(** The estimate of the weight of a quotient is not too great. *)
Lemma quotient_weight v1 v2 : normal v1 -> normal v2 -> digits v1 <> [] -> digits v2 <> [] ->
  let qw := if rd (digits v1) 0 <=? rd (digits v2) 0 then weight v1 - weight v2 - 1 else weight v1 - weight v2 in (bpow qw <= magnitude v1 / magnitude v2)%Q.
Proof.
  intros N1 N2 E1 E2 qw. destruct (magnitude_first v1 N1 E1) as (A1 & A2 & _), (magnitude_first v2 N2 E2) as (B1 & B2 & B3). set (f1 := rd (digits v1) 0) in *. set (f2 := rd (digits v2) 0) in *.
  pose proof (bpow_pos (weight v1)) as P1. pose proof (bpow_pos (weight v2)) as P2. pose proof (bpow_pos qw) as P3. assert (Hf2 : (1 <= inject_Z f2)%Q) by (apply inject_Z_ge; lia). assert (Hf1 : (1 <= inject_Z f1)%Q) by (apply inject_Z_ge; lia).
  apply Qle_shift_div_l; [nra|]. assert (Hle : (bpow qw * ((inject_Z f2 + 1) * bpow (weight v2)) <= inject_Z f1 * bpow (weight v1))%Q); [|nra].
  unfold qw. destruct (Z.leb_spec f1 f2) as [Hle|Hlt].
  - assert (Eb : (bpow (weight v1) == inject_Z NBASE * (bpow (weight v1 - weight v2 - 1) * bpow (weight v2)))%Q).
    { rewrite <- bpow_plus. replace (weight v1 - weight v2 - 1 + weight v2) with (weight v1 - 1) by lia. apply bpow_pred. }
    rewrite Eb. pose proof (bpow_pos (weight v1 - weight v2 - 1)) as P4. set (p := (bpow (weight v1 - weight v2 - 1) * bpow (weight v2))%Q) in *. assert (Hp : (0 < p)%Q) by (unfold p; nra).
    assert (Hn : (inject_Z f2 + 1 <= inject_Z NBASE)%Q) by (change 1%Q with (inject_Z 1); rewrite <- inject_Z_plus, <- Zle_Qle; lia). assert (Er : (bpow (weight v1 - weight v2 - 1) * ((inject_Z f2 + 1) * bpow (weight v2)) == (inject_Z f2 + 1) * p)%Q) by (unfold p; ring). rewrite Er. nra.
  - assert (Eb : (bpow (weight v1) == bpow (weight v1 - weight v2) * bpow (weight v2))%Q) by (rewrite <- bpow_plus; replace (weight v1 - weight v2 + weight v2) with (weight v1) by lia; reflexivity).
    rewrite Eb. pose proof (bpow_pos (weight v1 - weight v2)) as P4. set (p := (bpow (weight v1 - weight v2) * bpow (weight v2))%Q) in *. assert (Hp : (0 < p)%Q) by (unfold p; nra).
    assert (Hn : (inject_Z f2 + 1 <= inject_Z f1)%Q) by (change 1%Q with (inject_Z 1); rewrite <- inject_Z_plus, <- Zle_Qle; lia). assert (Er : (bpow (weight v1 - weight v2) * ((inject_Z f2 + 1) * bpow (weight v2)) == (inject_Z f2 + 1) * p)%Q) by (unfold p; ring). rewrite Er. nra.
Qed.

(** Nor is it much too small. *)
Lemma quotient_weight_upper v1 v2 : normal v1 -> normal v2 -> digits v1 <> [] -> digits v2 <> [] ->
  let qw := if rd (digits v1) 0 <=? rd (digits v2) 0 then weight v1 - weight v2 - 1 else weight v1 - weight v2 in
  (magnitude v1 / magnitude v2 < 2 * bpow (qw + 1))%Q.
Proof.
  intros N1 N2 E1 E2 qw. destruct (magnitude_first v1 N1 E1) as (A1 & A2 & A3), (magnitude_first v2 N2 E2) as (B1 & B2 & _).
  set (f1 := rd (digits v1) 0) in *. set (f2 := rd (digits v2) 0) in *.
  pose proof (bpow_pos (weight v2)) as P2. pose proof (bpow_pos (weight v1 - weight v2)) as P3.
  assert (Hf2 : (1 <= inject_Z f2)%Q) by (apply inject_Z_ge; lia).
  assert (Eb : (bpow (weight v1) == bpow (weight v1 - weight v2) * bpow (weight v2))%Q)
    by (rewrite <- bpow_plus; replace (weight v1 - weight v2 + weight v2) with (weight v1) by lia; reflexivity).
  apply Qlt_shift_div_r; [nra|]. eapply Qlt_le_trans; [exact A3|]. rewrite Eb.
  set (p := (bpow (weight v1 - weight v2) * bpow (weight v2))%Q) in *. assert (Hp : (0 < p)%Q) by (unfold p; nra).
  assert (Hq : (bpow (weight v1 - weight v2) * (inject_Z f2 * bpow (weight v2)) == inject_Z f2 * p)%Q) by (unfold p; ring).
  assert (Hle : forall c, (0 <= c)%Q -> (inject_Z f1 + 1 <= 2 * c * inject_Z f2)%Q ->
    ((inject_Z f1 + 1) * p <= 2 * (c * bpow (weight v1 - weight v2)) * magnitude v2)%Q).
  { intros c Hc H. apply Qle_trans with (2 * c * (inject_Z f2 * p))%Q; [nra|]. rewrite <- Hq.
    assert (0 <= 2 * c * bpow (weight v1 - weight v2))%Q by nra. nra. }
  unfold qw. destruct (Z.leb_spec f1 f2) as [H|H].
  - replace (weight v1 - weight v2 - 1 + 1) with (weight v1 - weight v2) by lia.
    rewrite <- (Qmult_1_l (bpow (weight v1 - weight v2))). apply Hle; [done|]. rewrite Zle_Qle in H. lra.
  - rewrite (bpow_pred (weight v1 - weight v2 + 1)).
    replace (weight v1 - weight v2 + 1 - 1) with (weight v1 - weight v2) by lia. apply Hle; [done|].
    assert (inject_Z f1 + 1 <= inject_Z NBASE)%Q by (change 1%Q with (inject_Z 1); rewrite <- inject_Z_plus, <- Zle_Qle; lia).
    assert (0 <= inject_Z NBASE)%Q by done. nra.
Qed.

(** A scale that is not below those of the operands and shows 16 significant digits, as
    far as the greatest scale allows; and that is not greater than needed for that by more
    than the four decimal places of a digit and one place of the estimate. *)
Record good_scale (s : Z) (q : Q) (d1 d2 : Z) : Prop := {
  gs_range : NUMERIC_MIN_DISPLAY_SCALE <= s <= NUMERIC_MAX_DISPLAY_SCALE;
  gs_operands : Z.min (Z.max d1 d2) NUMERIC_MAX_DISPLAY_SCALE <= s;
  gs_digits : s = NUMERIC_MAX_DISPLAY_SCALE \/ (q == 0)%Q \/ (tpow NUMERIC_MIN_SIG_DIGITS <= Qabs q * tpow s)%Q;
  gs_least : s = NUMERIC_MIN_DISPLAY_SCALE \/ s <= Z.max d1 d2 \/ (q == 0)%Q
             \/ (Qabs q * tpow s < 2 * tpow (NUMERIC_MIN_SIG_DIGITS + DEC_DIGITS))%Q
}.

(** The first digit of a number in base 10000 and its weight; 0 and 0 for zero. *)
Definition leads (q : Q) (w f : Z) : Prop :=
  if Qeq_bool q 0 then w = 0 /\ f = 0
  else 1 <= f < NBASE /\ (inject_Z f * bpow w <= Qabs q)%Q /\ (Qabs q < (inject_Z f + 1) * bpow w)%Q.

(** The scale of a quotient from the first digits of the operands. *)
Definition quotient_scale (s : Z) (q1 : Q) (d1 : Z) (q2 : Q) (d2 : Z) : Prop :=
  exists w1 f1 w2 f2, leads q1 w1 f1 /\ leads q2 w2 f2
    /\ s = Z.min (Z.max 0 (Z.max (Z.max d1 d2) (16 - 4 * (w1 - w2 - Z.b2z (f1 <=? f2))))) 1000.

Lemma abs_quotient v1 v2 : var_ok v1 -> var_ok v2 -> (Qabs (value v1 / value v2) == magnitude v1 / magnitude v2)%Q.
Proof. intros H1 H2. unfold Qdiv. rewrite Qabs_Qmult, Qabs_Qinv, !abs_value by done. reflexivity. Qed.

Lemma select_div_scale_spec v1 v2 : normal v1 -> normal v2 -> digits v2 <> [] -> good_scale (select_div_scale v1 v2) (value v1 / value v2) (dscale v1) (dscale v2).
Proof.
  intros N1 N2 E2. unfold select_div_scale. rewrite !first_digit_spec by done.
  set (qw := if rd (digits v1) 0 <=? _ then _ else _). set (r := NUMERIC_MIN_SIG_DIGITS - qw * DEC_DIGITS).
  unfold NUMERIC_MIN_DISPLAY_SCALE, NUMERIC_MAX_DISPLAY_SCALE, NUMERIC_MAX_PRECISION. set (s := Z.min _ 1000).
  assert (Hs : 0 <= s <= 1000 /\ Z.min (Z.max (dscale v1) (dscale v2)) 1000 <= s /\ (s = 1000 \/ r <= s)
    /\ (s = 0 \/ s <= Z.max (dscale v1) (dscale v2) \/ s <= r)) by (unfold s; lia).
  destruct Hs as (S1 & S2 & S3 & S4). clearbody s.
  destruct (decide (digits v1 = [])) as [Ez|Hne].
  { assert (Hz : (value v1 / value v2 == 0)%Q) by (unfold value; rewrite (magnitude_empty v1 Ez); unfold Qdiv; ring).
    split; [done|done|by right; left|by do 2 right; left]. }
  pose proof (quotient_weight v1 v2 N1 N2 Hne E2) as Hq. pose proof (quotient_weight_upper v1 v2 N1 N2 Hne E2) as Hu.
  cbv zeta in Hq, Hu. fold qw in Hq, Hu. pose proof (tpow_pos s) as Ps.
  assert (Er : r = 16 - qw * 4) by done. clearbody r. split; [done|done|destruct S3 as [S3|S3]; [by left|right; right]|].
  - rewrite abs_quotient by (apply N1 || apply N2). rewrite bpow_tpow in Hq.
    eapply Qle_trans; [|apply Qmult_le_compat_r; [exact Hq|lra]].
    rewrite <- tpow_plus. apply tpow_le. unfold NUMERIC_MIN_SIG_DIGITS, DEC_DIGITS. lia.
  - destruct S4 as [S4|[S4|S4]]; [by left|by right; left|do 3 right].
    rewrite abs_quotient by (apply N1 || apply N2). rewrite bpow_tpow in Hu.
    apply Qlt_le_trans with (2 * tpow (4 * (qw + 1)) * tpow s)%Q; [by apply Qmult_lt_r|].
    rewrite <- Qmult_assoc, <- tpow_plus. apply Qmult_le_l; [done|]. apply tpow_le.
    unfold NUMERIC_MIN_SIG_DIGITS, DEC_DIGITS. lia.
Qed.

Lemma leads_value v : normal v -> leads (value v) (weight v) (rd (digits v) 0).
Proof.
  intros N. unfold leads. destruct (decide (digits v = [])) as [E|Hne].
  - assert (Hz : Qeq_bool (value v) 0 = true) by (apply Qeq_bool_iff; unfold value; rewrite (magnitude_empty v E); ring).
    rewrite Hz. destruct N as [_ [_ _ Hw]]. destruct (Hw E) as [_ ->]. by rewrite E.
  - destruct (magnitude_first v N Hne) as (A1 & A2 & A3). destruct (Qeq_bool (value v) 0) eqn:Eq.
    + exfalso. apply Qeq_bool_iff in Eq. pose proof (abs_value v (proj1 N)) as Ha. rewrite Eq in Ha.
      pose proof (bpow_pos (weight v)). assert (1 <= inject_Z (rd (digits v) 0))%Q by (apply inject_Z_ge; lia).
      change (Qabs 0) with 0%Q in Ha. nra.
    + rewrite abs_value by apply N. done.
Qed.

Lemma leads_ext q q' w f : (q == q')%Q -> leads q w f -> leads q' w f.
Proof.
  intros E. unfold leads. assert (Eb : Qeq_bool q 0 = Qeq_bool q' 0) by (apply eq_true_iff_eq; rewrite !Qeq_bool_iff, E; done).
  rewrite Eb. destruct (Qeq_bool q' 0); [done|]. by rewrite E.
Qed.

Lemma select_div_scale_exact v1 v2 : normal v1 -> normal v2 ->
  quotient_scale (select_div_scale v1 v2) (value v1) (dscale v1) (value v2) (dscale v2).
Proof.
  intros N1 N2. exists (weight v1), (rd (digits v1) 0), (weight v2), (rd (digits v2) 0).
  split; [by apply leads_value|]. split; [by apply leads_value|]. unfold select_div_scale.
  rewrite !first_digit_spec by done. unfold NUMERIC_MIN_SIG_DIGITS, DEC_DIGITS, NUMERIC_MIN_DISPLAY_SCALE, NUMERIC_MAX_DISPLAY_SCALE, NUMERIC_MAX_PRECISION.
  destruct (_ <=? _); simpl Z.b2z; lia.
Qed.

(** ** Packed quotients *)

(** What a division of infinite operands gives; nothing if the divisor is zero. *)
Definition infinite_quotient (x y : number) : option number :=
  match x, y with
  | NaN, _ | _, NaN => Some NaN
  | Fin _ _, _ => Some (Fin 0 0)
  | _, Fin q _ => if Qeq_bool q 0 then None else Some (inf_by (match x with PInf => true | _ => false end) q)
  | _, _ => Some NaN
  end.

Definition gives_or_zero (r : res Numeric) (x : option number) : Prop := match x with Some x => gives r x | None => r = Err DIVISION_BY_ZERO end.

Lemma special_quotient_spec n1 n2 x1 x2 : denotes n1 x1 -> denotes n2 x2 ->
  if is_fin x1 && is_fin x2 then special_quotient n1 n2 = None else exists r, special_quotient n1 n2 = Some r /\ gives_or_zero r (infinite_quotient x1 x2).
Proof.
  intros D1 D2. unfold special_quotient. destruct (kinds n1 x1 D1) as (-> & -> & -> & ->), (kinds n2 x2 D2) as (-> & -> & _).
  assert (Hz : gives (make_result const_zero) (Fin 0 0)) by (apply make_result_packs; [split; [constructor|by left]|done|done|apply multiple_zero]).
  destruct x1 as [| | |q1 d1], x2 as [| | |q2 d2]; cbn [is_fin negb orb andb infinite_quotient]; try done; eexists; (split; [reflexivity|]); cbn [gives_or_zero]; try (apply gives_special; set_solver); try exact Hz;
    (destruct (Qeq_bool q2 0) eqn:Eq; cbn [gives_or_zero]; destruct (sign_internal_spec n2 q2 d2 D2) as [[-> H]|[[-> H]|[-> H]]]; try (apply Qeq_bool_iff in Eq; lra); try (apply Qeq_bool_neq in Eq; done); try done; unfold inf_by).
  - assert (E : (q2 ?= 0)%Q = Gt) by (by apply Qgt_alt). rewrite E. apply gives_special; set_solver.
  - assert (E : (q2 ?= 0)%Q = Lt) by (by apply Qlt_alt). rewrite E. apply gives_special; set_solver.
  - assert (E : (q2 ?= 0)%Q = Gt) by (by apply Qgt_alt). rewrite E. apply gives_special; set_solver.
  - assert (E : (q2 ?= 0)%Q = Lt) by (by apply Qlt_alt). rewrite E. apply gives_special; set_solver.
Qed.

Lemma half_away_proper : Proper (Qeq ==> eq ==> Qeq) half_away.
Proof. apply by_magnitude_proper, round_at_proper. Qed.

Lemma fin_sound n q d : denotes n (Fin q d) -> sound (init_var_from_num n) /\ (value (init_var_from_num n) == q)%Q /\ dscale (init_var_from_num n) = d.
Proof. intros (N & Q & D & B & M)%fin_parts. split; [split; [done|lia|by rewrite D]|done]. Qed.

(** A divisor of zero is one without digits. *)
Lemma fin_zero n q d : denotes n (Fin q d) -> Qeq_bool q 0 = true <-> digits (init_var_from_num n) = [].
Proof.
  intros ([N _ _] & Q & _)%fin_sound. set (v := init_var_from_num n) in *. rewrite Qeq_bool_iff, <- Q. split.
  - intros E. apply magnitude_zero; [by apply normal_led|]. rewrite <- abs_value, E by apply N. done.
  - intros E. unfold value. rewrite (magnitude_empty v E). ring.
Qed.

Lemma first_nonzero v : normal v -> digits v <> [] -> rd (digits v) 0 <> 0.
Proof. intros [_ [[?|?] _ _]] Hne; done. Qed.

Lemma div_var_zero h v1 v2 s round : digits v2 = [] -> div_var h v1 v2 s round = Err DIVISION_BY_ZERO.
Proof. intros E. unfold div_var, ndigits. by rewrite E. Qed.

Lemma cut_places round q s : multiple (by_magnitude (cut round) q s) (tpow (- s)).
Proof. unfold by_magnitude. destruct (Qle_bool 0 q); [apply cut_multiple|apply multiple_neg, cut_multiple]. Qed.

Lemma divided_packs r v1 v2 q1 q2 s round : divided r v1 v2 s round -> (value v1 == q1)%Q -> (value v2 == q2)%Q -> 0 <= s ->
  packs (result <-! r ;; make_result result) (by_magnitude (cut round) (q1 / q2) s) s.
Proof.
  intros (v & -> & [Hv _] & Hd & Ev) E1 E2 Hs. cbn [res_bind]. assert (Eq : (value v == by_magnitude (cut round) (q1 / q2) s)%Q).
  { rewrite Ev. apply by_magnitude_proper; [apply cut_proper|by rewrite E1, E2|done]. }
  eapply packs_ext; [exact Eq|]. apply make_result_packs; [done|done|done|]. apply multiple_value. rewrite Eq. apply cut_places.
Qed.

Lemma good_scale_ext s q q' d1 d2 : (q == q')%Q -> good_scale s q d1 d2 -> good_scale s q' d1 d2.
Proof. intros E [H1 H2 H3 H4]. by split; rewrite <- ?E. Qed.

Lemma infinite_spec n x : denotes n x -> match x with PInf | NInf => NUMERIC_IS_INF n = true | Fin _ _ => NUMERIC_IS_INF n = false | NaN => True end.
Proof.
  unfold NUMERIC_IS_INF. destruct x as [| | |q d]; [done|intros E; cbn in E; by rewrite E..|]. intros D. destruct (kinds n _ D) as (Hs & _). cbn [is_fin negb] in Hs. apply Z.eqb_neq. intros E.
  unfold NUMERIC_IS_SPECIAL, NUMERIC_FLAGBITS in Hs. apply Z.eqb_neq in Hs. apply Hs. replace NUMERIC_SIGN_MASK with (Z.land (Z.lnot NUMERIC_INF_SIGN_MASK) NUMERIC_SIGN_MASK) by reflexivity. by rewrite Z.land_assoc, E.
Qed.

Lemma sign_zero n q d : denotes n (Fin q d) -> (numeric_sign_internal n =? 0) = Qeq_bool q 0.
Proof.
  intros D. apply eq_true_iff_eq. rewrite Z.eqb_eq, Qeq_bool_iff. destruct (sign_internal_spec n q d D) as [[-> H]|[[-> H]|[-> H]]]; split; try done; intros E; lra.
Qed.

(** The quotient of finite values by one that is not zero. *)
Lemma div_refines h n1 n2 q1 q2 d1 d2 : denotes n1 (Fin q1 d1) -> denotes n2 (Fin q2 d2) -> Qeq_bool q2 0 = false ->
  exists s, good_scale s (q1 / q2) d1 d2 /\ quotient_scale s q1 d1 q2 d2
    /\ gives (numeric_div h n1 n2) (Fin (half_away (q1 / q2) s) s).
Proof.
  intros D1 D2 Eq. pose proof (special_quotient_spec n1 n2 _ _ D1 D2) as Hsp. cbn [is_fin andb] in Hsp. unfold numeric_div. rewrite Hsp. pose proof (fin_zero _ _ _ D2) as Hz.
  apply fin_sound in D1 as ([N1 _ _] & Q1 & <-), D2 as ([N2 _ _] & Q2 & <-). assert (Hne : digits (init_var_from_num n2) <> []) by (intros E; apply Hz in E; congruence). pose proof (first_nonzero _ N2 Hne) as Hx.
  pose proof (select_div_scale_spec _ _ N1 N2 Hne) as Hg. pose proof (select_div_scale_exact _ _ N1 N2) as He. set (s := select_div_scale _ _) in *. clearbody s. exists s. split; [eapply good_scale_ext; [|exact Hg]; by rewrite Q1, Q2|].
  split; [destruct He as (w1 & f1 & w2 & f2 & L1 & L2 & Es); exists w1, f1, w2, f2; split; [by eapply leads_ext|]; split; [by eapply leads_ext|done]|].
  apply (divided_packs _ _ _ q1 q2 s true (div_var_spec h _ _ s true (proj1 N1) (proj1 N2) Hx) Q1 Q2). destruct Hg as [[Hg _] _ _ _]. exact Hg.
Qed.

(** ** Common divisors and multiples *)

Lemma divisor_places g q1 q2 d1 d2 : common_divisor g q1 q2 -> multiple q1 (tpow (- d1)) -> multiple q2 (tpow (- d2)) -> multiple g (tpow (- Z.max d1 d2)).
Proof. intros (_ & _ & _ & x & y & ->) M1 M2. apply multiple_sum; by apply multiple_times. Qed.

Lemma multiple_abs x u : multiple x u -> multiple (Qabs x) u.
Proof. intros H. destruct (Qlt_le_dec x 0); [rewrite Qabs_neg by lra; by apply multiple_neg|by rewrite Qabs_pos]. Qed.

(** The quotient by a divisor is a whole number, and the product that the least common
    multiple needs is exact. *)
Lemma lcm_var h v1 v2 g : sound v1 -> sound v2 -> normal g -> (0 < value g)%Q -> multiple (value v1) (value g) ->
  exists k r, (value v1 == inject_Z k * value g)%Q /\ (value r == inject_Z k * value v2)%Q /\ var_ok r
  /\ (result <-! div_var h v1 g 0 false ;; result <-! mul_var v2 result (dscale v2) ;; Ok (set_sign NUMERIC_POS result)) = Ok (set_sign NUMERIC_POS r).
Proof.
  intros [N1 _ _] [N2 P2 M2] Ng Hg [k Ek]. assert (Hne : digits g <> []) by (intros E; unfold value in Hg; rewrite (magnitude_empty g E) in Hg; lra).
  destruct (div_var_spec h v1 g 0 false (proj1 N1) (proj1 Ng) (first_nonzero _ Ng Hne)) as (t & -> & Nt & Dt & Vt). cbn [res_bind]. change (by_magnitude (cut false)) with toward_zero in Vt.
  assert (Et : (value t == inject_Z k)%Q).
  { rewrite Vt. assert (E : (value v1 / value g == inject_Z k / inject_Z 1)%Q) by (rewrite Ek; change (inject_Z 1) with 1%Q; field; lra). rewrite (toward_zero_proper _ _ E 0 0 eq_refl), toward_zero_quot, Z.quot_1_r by done. done. }
  assert (Mt : multiple (magnitude t) (tpow (- 0))) by (apply multiple_value; rewrite Et; exists k; change (tpow (- 0)) with 1%Q; ring).
  destruct (mul_var_exact v2 t (dscale v2) 0 N2 Nt P2 ltac:(lia) M2 Mt) as (r & Er & [Hr _] & Vr & _). rewrite Z.add_0_r in Er. rewrite Er. cbn [res_bind]. exists k, r. split; [done|]. split; [rewrite Vr, Et; ring|]. done.
Qed.

Lemma gcd_lcm_refines h n1 n2 q1 q2 d1 d2 : denotes n1 (Fin q1 d1) -> denotes n2 (Fin q2 d2) ->
  exists g l, common_divisor g q1 q2 /\ gives (numeric_gcd h n1 n2) (Fin g (Z.max d1 d2))
  /\ multiple l q1 /\ multiple l q2 /\ (l * g == Qabs (q1 * q2))%Q /\ gives (numeric_lcm h n1 n2) (Fin l (Z.max d1 d2)).
Proof.
  intros D1 D2. unfold numeric_gcd, numeric_lcm. destruct (kinds n1 _ D1) as (-> & _), (kinds n2 _ D2) as (-> & _). cbn [is_fin negb orb]. pose proof (fin_multiple _ _ _ D1) as M1. pose proof (fin_multiple _ _ _ D2) as M2.
  pose proof (fin_zero _ _ _ D1) as Z1. pose proof (fin_zero _ _ _ D2) as Z2. rewrite Qeq_bool_iff in Z1, Z2.
  apply fin_sound in D1 as (S1 & Q1 & <-), D2 as (S2 & Q2 & <-). set (v1 := init_var_from_num n1) in *. set (v2 := init_var_from_num n2) in *. set (d := Z.max (dscale v1) (dscale v2)).
  assert (Hd : 0 <= d) by (destruct S1, S2; unfold d; lia). destruct (gcd_var_spec h v1 v2 S1 S2) as (g & -> & Ng & Dg & Hg). cbn [res_bind]. pose proof Hg as Hg'. rewrite Q1, Q2 in Hg.
  assert (Hgcd : packs (make_result g) (value g) d) by (apply make_result_packs; [apply Ng|exact Dg|done|]; apply multiple_value; by apply (divisor_places _ q1 q2)).
  destruct Hg as (G0 & G1 & G2 & G3). pose proof Hg' as (_ & G1' & _). destruct ((ndigits v1 =? 0) || (ndigits v2 =? 0)) eqn:Hz; [|apply not_true_iff_false in Hz]; rewrite orb_true_iff, !Z.eqb_eq in Hz.
  - exists (value g), 0%Q. split; [split; [done|]; by split|]. split; [done|]. split; [exists 0; ring|]. split; [exists 0; ring|].
    assert (E : (q1 * q2 == 0)%Q) by (destruct Hz as [Hz|Hz]; [rewrite (proj2 Z1)|rewrite (proj2 Z2)]; try ring; apply nil_length_inv; unfold ndigits in Hz; lia). split; [rewrite E; change (Qabs 0) with 0%Q; ring|].
    cbn [res_bind]. apply (make_result_packs (set_dscale d (set_var_from_var const_zero)) d); [split; [constructor|by left]|done|done|apply multiple_zero].
  - assert (Hq1 : ~ (q1 == 0)%Q) by (intros E%Z1; apply Hz; left; unfold ndigits; by rewrite E). assert (Hgp : (0 < value g)%Q).
    { destruct (Qlt_le_dec 0 (value g)) as [|Hle]; [done|]. destruct Hq1. destruct G1 as [k ->]. assert (E : (value g == 0)%Q) by lra. rewrite E. ring. }
    destruct (lcm_var h v1 v2 g S1 S2 Ng Hgp G1') as (k & r & E1 & Er & Hr & ->). cbn [res_bind]. rewrite Q1 in E1. rewrite Q2 in Er. exists (value g), (Qabs (value r)). split; [split; [done|]; by split|]. split; [done|].
    assert (Ml : forall u, multiple (value r) u -> multiple (Qabs (value r)) u) by (intros u; apply multiple_abs).
    split; [apply Ml; destruct G2 as [m Em]; exists m; rewrite Er, E1, Em; ring|]. split; [apply Ml; by exists k|].
    split; [rewrite <- (Qabs_pos (value g)) at 1 by done; rewrite <- Qabs_Qmult; apply Qabs_wd; rewrite Er, E1; ring|].
    set (v := set_dscale d (set_sign NUMERIC_POS r)). assert (Ev : (value v == Qabs (value r))%Q) by (rewrite abs_value by done; unfold value, sgn; cbn [v set_dscale set_sign sign]; change (NUMERIC_POS =? NUMERIC_NEG) with false; cbv iota; rewrite Qmult_1_l; reflexivity).
    eapply packs_ext; [exact Ev|]. apply make_result_packs; [split; [apply Hr|by left]|done|done|]. apply multiple_value. rewrite Ev. apply Ml. rewrite Er. apply (multiple_coarser _ (dscale v2)); [unfold d; lia|]. by apply multiple_times.
Qed.

(** ** Factorials *)

(** An integer whose digits all stand in front of the point. *)
Definition integral (v : NumericVar) (z : Z) : Prop := var_ok v /\ (value v == inject_Z z)%Q /\ dscale v = 0 /\ ndigits v <= weight v + 1.

Lemma integral_packs v z : integral v z -> packs (make_result v) (inject_Z z) 0.
Proof.
  intros (Hv & E & D & _). eapply packs_ext; [exact E|]. apply make_result_packs; [done|done|done|]. apply multiple_value. rewrite E. exists z. change (tpow (- 0)) with 1%Q. ring.
Qed.

Lemma fac_loop_spec cells num v : (5 <= length cells)%nat -> 2 <= num < 2 ^ 63 -> integral v num ->
  exists r, fac_loop cells num v = Ok r /\ integral r (Z.of_nat (fact (Z.to_nat num))).
Proof.
  intros Hc Hnum Hv. unfold fac_loop. set (n := Z.to_nat (num - 2)).
  enough (H : exists r z, for_down n (fun i r => result <-! r ;; fact <-! int64_to_numericvar cells (Z.of_nat i + 2) ;; mul_var result fact 0) (Ok v) = Ok r /\ integral r z /\ 0 <= z
      /\ z * Z.of_nat (fact 1) = Z.of_nat (fact (Z.to_nat num))).
  { destruct H as (r & z & E & Hr & _ & Ez). exists r. split; [exact E|]. change (Z.of_nat (fact 1)) with 1 in Ez. by rewrite <- Ez, Z.mul_1_r. }
  apply (for_down_ind (fun k st => exists r z, st = Ok r /\ integral r z /\ 0 <= z /\ z * Z.of_nat (fact (k + 1)) = Z.of_nat (fact (Z.to_nat num)))).
  - exists v, num. split; [done|]. split; [done|]. split; [lia|]. replace (Z.to_nat num) with (S (n + 1)) by (unfold n; lia). change (fact (S (n + 1))) with (S (n + 1) * fact (n + 1))%nat. rewrite Nat2Z.inj_mul. replace (Z.of_nat (S (n + 1))) with num by (unfold n; lia). done.
  - intros k st Hk (r & z & -> & (Hr & Er & Dr & Nr) & Hz & Ez). cbn [res_bind]. destruct (int64_var cells (Z.of_nat k + 2) Hc ltac:(unfold n in Hk; lia)) as (u & -> & [Hu _] & Eu & _ & Nu). cbn [res_bind].
    destruct (mul_whole r z u (Z.of_nat k + 2) Hr Er Hz Nr Hu Eu ltac:(lia) Nu) as (p & -> & Np & Ep & Dp). exists p, (z * (Z.of_nat k + 2)). split; [done|].
    assert (Mp : multiple (magnitude p) (tpow (- 0))) by (apply multiple_value; rewrite Ep; eexists; change (tpow (- 0)) with 1%Q; rewrite Qmult_1_r; reflexivity).
    pose proof (digits_end p 0 Np ltac:(lia) Mp) as Hw. split; [split; [apply Np|]; split; [done|]; split; [done|unfold DEC_DIGITS in Hw; lia]|]. split; [lia|].
    rewrite <- Ez. replace (S k + 1)%nat with (S (k + 1)) by lia. change (fact (S (k + 1))) with (S (k + 1) * fact (k + 1))%nat. rewrite Nat2Z.inj_mul. replace (Z.of_nat (S (k + 1))) with (Z.of_nat k + 2) by lia. ring.
Qed.

(** ** Theorems *)

(** C18: div_var computes, for any two variables with a divisor that begins with a digit
    other than zero, the quotient rounded half away from zero or truncated toward zero at
    any scale, by short division in 32, 64 or 128 bits or by long division, with and
    without 128-bit integers.  No intermediate result overflows its type, no digit leaves
    its range, the loop that lowers an estimate ends within two steps, an estimate that is
    still too great is corrected by adding the divisor back, and nothing outside the
    working arrays is read. *)
Theorem div_var_exact h v1 v2 s round : var_ok v1 -> var_ok v2 -> rd (digits v2) 0 <> 0 ->
  exists v, div_var h v1 v2 s round = Ok v /\ normal v /\ dscale v = s
  /\ (value v == (if round : bool then half_away else toward_zero) (value v1 / value v2) s)%Q.
Proof. intros H1 H2 Hx. destruct (div_var_spec h v1 v2 s round H1 H2 Hx) as (v & E & N & D & V). exists v. split; [done|]. split; [done|]. split; [done|]. by destruct round. Qed.

Lemma div_var_exact_witness :
  exists v, div_var false (mk_var [] [2500; 0; 4999; 4999] 3 NUMERIC_POS 0) (mk_var [] [5000; 0; 9999] 2 NUMERIC_NEG 0) 0 false = Ok v /\ dscale v = 0 /\ digits v = [4999] /\ sign v = NUMERIC_NEG.
Proof.
  destruct (div_var_exact false (mk_var [] [2500; 0; 4999; 4999] 3 NUMERIC_POS 0) (mk_var [] [5000; 0; 9999] 2 NUMERIC_NEG 0) 0 false) as (v & E & _ & D & _).
  - split; [repeat constructor; discriminate|by left].
  - split; [repeat constructor; discriminate|by right].
  - discriminate.
  - exists v. split; [exact E|]. split; [exact D|]. vm_compute in E. by injection E as <-.
Defined.

(** C17: numeric_div gives the quotient of any two finite values rounded half away from
    zero at the scale it selects. That scale follows from the operands' scales and first
    digits ([quotient_scale]): as far as the greatest scale, 1000, allows, it is not below
    the scales of the operands and shows at least 16 significant digits, and unless an
    operand's scale asks for more it shows less than 22 ([good_scale]). numeric_div_trunc gives the integer part of the quotient.  A divisor of zero is an
    error, and infinite operands follow their rules. *)
Theorem numeric_quotient_exact h n1 n2 x1 x2 : denotes n1 x1 -> denotes n2 x2 ->
  match x1, x2 with
  | Fin q1 d1, Fin q2 d2 =>
      if Qeq_bool q2 0 then numeric_div h n1 n2 = Err DIVISION_BY_ZERO /\ numeric_div_trunc h n1 n2 = Err DIVISION_BY_ZERO
      else (exists s, good_scale s (q1 / q2) d1 d2 /\ quotient_scale s q1 d1 q2 d2
              /\ gives (numeric_div h n1 n2) (Fin (half_away (q1 / q2) s) s))
           /\ gives (numeric_div_trunc h n1 n2) (Fin (toward_zero (q1 / q2) 0) 0)
  | _, _ => gives_or_zero (numeric_div h n1 n2) (infinite_quotient x1 x2) /\ gives_or_zero (numeric_div_trunc h n1 n2) (infinite_quotient x1 x2)
  end.
Proof.
  intros D1 D2. pose proof (special_quotient_spec n1 n2 x1 x2 D1 D2) as Hsp.
  destruct x1 as [| | |q1 d1], x2 as [| | |q2 d2]; cbn [is_fin andb] in Hsp; try (unfold numeric_div, numeric_div_trunc; destruct Hsp as (r & -> & Hr); done).
  destruct (Qeq_bool q2 0) eqn:Eq; [|split; [by apply div_refines|]]; pose proof (fin_zero _ _ _ D2) as Hz; [unfold numeric_div, numeric_div_trunc; rewrite Hsp, !div_var_zero by (by apply Hz); done|].
  unfold numeric_div_trunc. rewrite Hsp. apply fin_sound in D1 as ([N1 _ _] & Q1 & _), D2 as ([N2 _ _] & Q2 & _).
  assert (Hx : rd (digits (init_var_from_num n2)) 0 <> 0) by (apply first_nonzero; [done|]; intros E; apply Hz in E; congruence).
  apply (divided_packs _ _ _ q1 q2 0 false (div_var_spec h _ _ 0 false (proj1 N1) (proj1 N2) Hx) Q1 Q2). lia.
Qed.

Lemma numeric_quotient_exact_witness :
  (exists s, good_scale s ((25 # 2) / - (1 # 20)) 1 2 /\ quotient_scale s (25 # 2) 1 (- (1 # 20)) 2
     /\ gives (numeric_div true num_12_5 num_m0_05) (Fin (half_away ((25 # 2) / - (1 # 20)) s) s))
  /\ numeric_div true num_12_5 num_m0_05 = Ok (mk_numeric 0xA800 0 [250]).
Proof. split; [|vm_compute; reflexivity]. exact (proj1 (numeric_quotient_exact true _ _ _ _ num_12_5_ok num_m0_05_ok)). Defined.

(** numeric_mod gives the exact remainder q1 - q2 * trunc(q1 / q2) with the greater
    display scale; a divisor of zero is an error; a finite value modulo an infinite one is
    unchanged, an infinite value modulo any other is not-a-number. *)
Theorem numeric_remainder_exact h n1 n2 x1 x2 : denotes n1 x1 -> denotes n2 x2 ->
  match x1, x2 with
  | NaN, _ | _, NaN => gives (numeric_mod h n1 n2) NaN
  | Fin q1 d1, Fin q2 d2 =>
      if Qeq_bool q2 0 then numeric_mod h n1 n2 = Err DIVISION_BY_ZERO else gives (numeric_mod h n1 n2) (Fin (remainder q1 q2) (Z.max d1 d2))
  | Fin _ _, _ => numeric_mod h n1 n2 = Ok n1
  | _, Fin q2 _ => if Qeq_bool q2 0 then numeric_mod h n1 n2 = Err DIVISION_BY_ZERO else gives (numeric_mod h n1 n2) NaN
  | _, _ => gives (numeric_mod h n1 n2) NaN
  end.
Proof.
  intros D1 D2. unfold numeric_mod. destruct (kinds n1 x1 D1) as (-> & -> & _ & _), (kinds n2 x2 D2) as (-> & -> & _).
  pose proof (infinite_spec n1 x1 D1) as Hinf. destruct x1 as [| | |q1 d1], x2 as [| | |q2 d2]; cbn [is_fin negb orb] in *; try (apply gives_special; set_solver); rewrite ?Hinf; cbv iota; try done;
    try (rewrite (sign_internal_inf n2 true D2) || rewrite (sign_internal_inf n2 false D2); apply gives_special; set_solver);
    try (rewrite (sign_zero n2 q2 d2 D2); destruct (Qeq_bool q2 0); [done|apply gives_special; set_solver]).
  pose proof (fin_zero _ _ _ D2) as Hz. pose proof (fin_multiple _ _ _ D1) as M1. pose proof (fin_multiple _ _ _ D2) as M2. apply fin_sound in D1 as (S1 & Q1 & <-), D2 as (S2 & Q2 & <-).
  destruct (Qeq_bool q2 0) eqn:Eq; [unfold mod_var; rewrite div_var_zero by (by apply Hz); done|]. destruct (mod_var_spec h _ _ S1 S2 ltac:(intros E; by apply Hz in E)) as (v & -> & [[Hv _] _ _] & Dv & Ev). cbn [res_bind].
  rewrite Q1, Q2 in Ev. eapply packs_ext; [exact Ev|]. destruct S1 as [_ P1 _], S2 as [_ P2 _]. apply make_result_packs; [done|exact Dv|lia|]. apply multiple_value. rewrite Ev. by apply remainder_multiple.
Qed.

Lemma numeric_remainder_exact_witness :
  gives (numeric_mod true num_12_5 num_8nines) (Fin (remainder (25 # 2) (99999999 # 1)) 1) /\ numeric_mod true num_8nines num_12_5 = Ok (mk_numeric 0x8080 0 [11; 5000]).
Proof. split; [|vm_compute; reflexivity]. exact (numeric_remainder_exact true _ _ _ _ num_12_5_ok num_8nines_ok). Defined.

(** numeric_gcd gives the greatest common divisor of any two finite values, the
    number of which both are integer multiples and which is an integer combination of
    them, within the number of passes that halving allows; numeric_lcm gives the common
    multiple whose product with it is the product of the values. *)
Theorem numeric_gcd_lcm h n1 n2 q1 q2 d1 d2 : denotes n1 (Fin q1 d1) -> denotes n2 (Fin q2 d2) ->
  exists g l, common_divisor g q1 q2 /\ gives (numeric_gcd h n1 n2) (Fin g (Z.max d1 d2))
  /\ multiple l q1 /\ multiple l q2 /\ (l * g == Qabs (q1 * q2))%Q /\ gives (numeric_lcm h n1 n2) (Fin l (Z.max d1 d2)).
Proof. apply gcd_lcm_refines. Qed.

Lemma numeric_gcd_lcm_witness :
  (exists g l, common_divisor g (25 # 2) (- (1 # 20)) /\ gives (numeric_gcd false num_12_5 num_m0_05) (Fin g 2) /\ multiple l (25 # 2))
  /\ numeric_gcd false num_12_5 num_m0_05 = Ok (mk_numeric 0x817F 0 [500]).
Proof.
  split; [|vm_compute; reflexivity]. destruct (numeric_gcd_lcm false _ _ _ _ _ _ num_12_5_ok num_m0_05_ok) as (g & l & H1 & H2 & H3 & _). by exists g, l.
Defined.

(** numeric_fac computes the factorial of any number up to 32177 exactly, or reports
    that it does not fit into the format; greater numbers are refused at once and so are
    negative ones, whatever the contents of unset digits. *)
Theorem numeric_factorial cells num : (5 <= length cells)%nat ->
  (num < 0 -> numeric_fac cells num = Err "factorial of a negative number is undefined")
  /\ (0 <= num <= 32177 -> gives (numeric_fac cells num) (Fin (inject_Z (Z.of_nat (fact (Z.to_nat num)))) 0))
  /\ (32177 < num -> numeric_fac cells num = Err "value overflows numeric format").
Proof.
  intros Hc. unfold numeric_fac. destruct (Z.ltb_spec num 0) as [H0|H0]; [split; [done|split; lia]|]. split; [lia|]. destruct (Z.leb_spec num 1) as [H1|H1].
  - split; [intros _|lia]. assert (E : Z.of_nat (fact (Z.to_nat num)) = 1) by (assert (num = 0 \/ num = 1) as [-> | ->] by lia; reflexivity). rewrite E. apply (integral_packs const_one). split; [split; [by repeat constructor|by left]|done].
  - destruct (Z.ltb_spec 32177 num) as [H2|H2]; [split; [lia|done]|]. split; [intros _|lia]. destruct (int64_var cells num Hc ltac:(lia)) as (v & -> & [Hv _] & Ev & Dv & Nv). cbn [res_bind].
    destruct (fac_loop_spec cells num v Hc ltac:(lia)) as (r & -> & Hr); [done|]. cbn [res_bind]. by apply integral_packs.
Qed.

Lemma numeric_factorial_witness :
  gives (numeric_fac (replicate 5 0) 20) (Fin (inject_Z (Z.of_nat (fact (Z.to_nat 20)))) 0) /\ numeric_fac (replicate 5 0) (-1) = Err "factorial of a negative number is undefined".
Proof. split; [|reflexivity]. apply (numeric_factorial (replicate 5 0) 20); [simpl; lia|lia]. Defined.
