(* ===== verification/NumericAccum.v ===== *)
(** Sums of numeric values: the accumulator that adds without propagating carries, and the
    aggregates sum, avg and variance built on it (backend/utils/adt/numeric.c).

    Aggregates are called with states of their own: the memory they live in is not
    modelled.  A state that does not exist is [None], and so is a value that is NULL. *)

From S2P Require Import Prelude Numeric NumericFun NumericText NumericDiv.
Local Open Scope Z_scope.
Local Open Scope pg_scope.

(** ** The accumulator *)

(** Positive and negative values are added up apart, in arrays of [a_ndigits] digits. *)
Record NumericSumAccum : Set := mk_accum {
  a_ndigits : Z;
  a_weight : Z;
  a_dscale : Z;
  num_uncarried : Z;
  have_carry_space : bool;
  pos_digits : list Z;
  neg_digits : list Z
}.

(** All fields zero. *)
Definition empty_accum : NumericSumAccum := mk_accum 0 0 0 0 false [] [].

Definition accum_sum_reset (accum : NumericSumAccum) : NumericSumAccum :=
  let zeroes ds := replicate (Z.to_nat (a_ndigits accum)) 0 ++ drop (Z.to_nat (a_ndigits accum)) ds in
  mk_accum (a_ndigits accum) (a_weight accum) 0 (num_uncarried accum) (have_carry_space accum)
    (zeroes (pos_digits accum)) (zeroes (neg_digits accum)).

(** The digit at position 0, which is reserved for the carry. *)
Definition reserved (ds : list Z) : bool := match ds with d :: _ => d =? 0 | [] => false end.

Definition accum_sum_carry (accum : NumericSumAccum) : res NumericSumAccum :=
  if num_uncarried accum =? 0 then Ok accum
  else if negb (reserved (pos_digits accum) && reserved (neg_digits accum)) then Err "pos_digits[0] == 0 && neg_digits[0] == 0"
  else
    '(_, pos) <-! carry_pass (pos_digits accum) ;;
    '(_, neg) <-! carry_pass (neg_digits accum) ;;
    let have := if 0 <? rd pos 0 then false else have_carry_space accum in
    let have := if 0 <? rd neg 0 then false else have in
    Ok (mk_accum (a_ndigits accum) (a_weight accum) (a_dscale accum) 0 have pos neg).

(** A new array of [n] zeroes, into which the old digits are copied at [at_]. *)
Definition enlarged (old : list Z) (at_ n : Z) : res (list Z) :=
  let rest := n - at_ - Z.of_nat (length old) in
  if (at_ <? 0) || (rest <? 0) then Err "copy outside the new digits"
  else Ok (replicate (Z.to_nat at_) 0 ++ old ++ replicate (Z.to_nat rest) 0).

Definition accum_sum_rescale (accum : NumericSumAccum) (val : NumericVar) : res NumericSumAccum :=
  let old_weight := a_weight accum in
  let old_ndigits := a_ndigits accum in
  let '(accum_weight, accum_ndigits) :=
    if old_weight <=? weight val then (weight val + 1, old_ndigits + (weight val + 1 - old_weight))
    else if negb (have_carry_space accum) then (old_weight + 1, old_ndigits + 1)
    else (old_weight, old_ndigits) in
  let accum_rscale := accum_ndigits - accum_weight - 1 in
  let val_rscale := ndigits val - weight val - 1 in
  let accum_ndigits := if accum_rscale <? val_rscale then accum_ndigits + (val_rscale - accum_rscale) else accum_ndigits in
  let dscale := if a_dscale accum <? dscale val then dscale val else a_dscale accum in
  if negb (accum_ndigits =? old_ndigits) || negb (accum_weight =? old_weight) then
    let weightdiff := accum_weight - old_weight in
    pos <-! enlarged (pos_digits accum) weightdiff accum_ndigits ;;
    neg <-! enlarged (neg_digits accum) weightdiff accum_ndigits ;;
    if negb (reserved pos && reserved neg) then Err "pos_digits[0] == 0 && neg_digits[0] == 0"
    else Ok (mk_accum accum_ndigits accum_weight dscale (num_uncarried accum) true pos neg)
  else Ok (mk_accum old_ndigits old_weight dscale (num_uncarried accum) (have_carry_space accum) (pos_digits accum) (neg_digits accum)).

(** [accum_digits[i] += val_digits[val_i]] *)
Fixpoint add_digits (accum_digits : list Z) (i : Z) (val_digits : list Z) : res (list Z) :=
  match val_digits with
  | [] => Ok accum_digits
  | d :: val_digits' =>
      if negb ((0 <=? i) && (i <? Z.of_nat (length accum_digits))) then Err "access outside the accumulator"
      else
        s <-! int32 (rd accum_digits (Z.to_nat i) + d) ;;
        add_digits (<[Z.to_nat i := s]> accum_digits) (i + 1) val_digits'
  end.

Definition accum_sum_add (accum : NumericSumAccum) (val : NumericVar) : res NumericSumAccum :=
  accum <-! (if num_uncarried accum =? NBASE - 1 then accum_sum_carry accum else Ok accum) ;;
  accum <-! accum_sum_rescale accum val ;;
  let i := a_weight accum - weight val in
  '(pos, neg) <-!
    (if sign val =? NUMERIC_POS then pos <-! add_digits (pos_digits accum) i (digits val) ;; Ok (pos, neg_digits accum)
     else neg <-! add_digits (neg_digits accum) i (digits val) ;; Ok (pos_digits accum, neg)) ;;
  uncarried <-! int32 (num_uncarried accum + 1) ;;
  Ok (mk_accum (a_ndigits accum) (a_weight accum) (a_dscale accum) uncarried (have_carry_space accum) pos neg).

(** The accumulator after the last propagation of carries, and its value. *)
Definition accum_sum_final (accum : NumericSumAccum) : res (NumericSumAccum * NumericVar) :=
  if a_ndigits accum =? 0 then Ok (accum, set_var_from_var const_zero)
  else
    accum <-! accum_sum_carry accum ;;
    let n := Z.to_nat (a_ndigits accum) in
    let part ds s := mk_var [] (map (swrap 16) (take n ds)) (a_weight accum) s (a_dscale accum) in
    if negb (forallb (fun d => d <? NBASE) (take n (pos_digits accum) ++ take n (neg_digits accum))) then Err "digits[i] < NBASE"
    else
      result <-! add_var (part (pos_digits accum) NUMERIC_POS) (part (neg_digits accum) NUMERIC_NEG) ;;
      Ok (accum, strip_var result).

(** The flag is not copied: the copy has been set to zeroes. *)
Definition accum_sum_copy (src : NumericSumAccum) : NumericSumAccum :=
  let n := Z.to_nat (a_ndigits src) in
  mk_accum (a_ndigits src) (a_weight src) (a_dscale src) (num_uncarried src) false (take n (pos_digits src)) (take n (neg_digits src)).

(** Both accumulators: the carries of the second are propagated. *)
Definition accum_sum_combine (accum accum2 : NumericSumAccum) : res (NumericSumAccum * NumericSumAccum) :=
  '(accum2, tmp_var) <-! accum_sum_final accum2 ;;
  accum <-! accum_sum_add accum tmp_var ;;
  Ok (accum, accum2).

(** ** Aggregate states *)

(** The numbers [N], the special values counted apart. *)
Record NumericAggState : Set := mk_agg {
  calcSumX2 : bool;
  agg_N : Z;
  sumX : NumericSumAccum;
  sumX2 : NumericSumAccum;
  maxScale : Z;
  maxScaleCount : Z;
  NaNcount : Z;
  pInfcount : Z;
  nInfcount : Z
}.

Definition NA_TOTAL_COUNT (na : NumericAggState) : Z := agg_N na + NaNcount na + pInfcount na + nInfcount na.

Definition makeNumericAggState (calcSumX2 : bool) : NumericAggState := mk_agg calcSumX2 0 empty_accum empty_accum 0 0 0 0 0.

(** The counters of special values, changed by [by_]. *)
Definition count_special (by_ : Z) (state : NumericAggState) (newval : Numeric) : res NumericAggState :=
  let '(mk_agg c n s s2 m mc nan pinf ninf) := state in
  if NUMERIC_IS_PINF newval then pinf <-! int64 (pinf + by_) ;; Ok (mk_agg c n s s2 m mc nan pinf ninf)
  else if NUMERIC_IS_NINF newval then ninf <-! int64 (ninf + by_) ;; Ok (mk_agg c n s s2 m mc nan pinf ninf)
  else nan <-! int64 (nan + by_) ;; Ok (mk_agg c n s s2 m mc nan pinf ninf).

(** The square of the value, and a sum of squares to which it is added with a sign; nothing
    happens to it if squares are not needed. *)
Definition add_square (calc : bool) (sum : NumericSumAccum) (X : NumericVar) (negative : bool) : res NumericSumAccum :=
  if calc then
    X2 <-! mul_var X X (dscale X * 2) ;;
    accum_sum_add sum (if negative then set_sign NUMERIC_NEG X2 else X2)
  else Ok sum.

Definition do_numeric_accum (state : NumericAggState) (newval : Numeric) : res NumericAggState :=
  if NUMERIC_IS_SPECIAL newval then count_special 1 state newval
  else
    let X := init_var_from_num newval in
    let '(mk_agg c n s s2 m mc nan pinf ninf) := state in
    '(m, mc) <-!
      (if m <? dscale X then Ok (dscale X, 1)
       else if dscale X =? m then mc <-! int64 (mc + 1) ;; Ok (m, mc)
       else Ok (m, mc)) ;;
    n <-! int64 (n + 1) ;;
    s <-! accum_sum_add s X ;;
    s2 <-! add_square c s2 X false ;;
    Ok (mk_agg c n s s2 m mc nan pinf ninf).

(** The new state, or [None] if the value cannot be removed. *)
Definition do_numeric_discard (state : NumericAggState) (newval : Numeric) : res (option NumericAggState) :=
  if NUMERIC_IS_SPECIAL newval then state <-! count_special (-1) state newval ;; Ok (Some state)
  else
    let X := init_var_from_num newval in
    let '(mk_agg c n s s2 m mc nan pinf ninf) := state in
    let scale :=
      if dscale X =? m then
        if (1 <? mc) || (m =? 0) then Some (m, mc - 1)
        else if n =? 1 then Some (0, 0)
        else None
      else Some (m, mc) in
    match scale with
    | None => Ok None
    | Some (m, mc) =>
        '(s, s2) <-!
          (if 1 <? n then
             s <-! accum_sum_add s (set_sign (if sign X =? NUMERIC_POS then NUMERIC_NEG else NUMERIC_POS) X) ;;
             s2 <-! add_square c s2 X true ;;
             Ok (s, s2)
           else if negb (n - 1 =? 0) then Err "state->N == 0"
           else Ok (accum_sum_reset s, if c then accum_sum_reset s2 else s2)) ;;
        Ok (Some (mk_agg c (n - 1) s s2 m mc nan pinf ninf))
    end.

Definition accum_with (calc : bool) (state : option NumericAggState) (newval : option Numeric) : res NumericAggState :=
  let state := match state with None => makeNumericAggState calc | Some state => state end in
  match newval with None => Ok state | Some newval => do_numeric_accum state newval end.

Definition numeric_accum : option NumericAggState -> option Numeric -> res NumericAggState := accum_with true.
Definition numeric_avg_accum : option NumericAggState -> option Numeric -> res NumericAggState := accum_with false.

Definition numeric_accum_inv (state : option NumericAggState) (newval : option Numeric) : res (option NumericAggState) :=
  match state with
  | None => Err "numeric_accum_inv called with NULL state"
  | Some state => match newval with None => Ok (Some state) | Some newval => do_numeric_discard state newval end
  end.

(** Both states after the second has been added to the first; sums of squares are combined
    only if they are needed. *)
Definition combine_with (calc : bool) (state1 state2 : option NumericAggState) : res (option NumericAggState * option NumericAggState) :=
  match state2, state1 with
  | None, _ => Ok (state1, state2)
  | Some (mk_agg c' n' s' s2' m' mc' nan' pinf' ninf'), None =>
      Ok (Some (mk_agg calc n' (accum_sum_copy s') (if calc then accum_sum_copy s2' else empty_accum) m' mc' nan' pinf' ninf'), state2)
  | Some (mk_agg c' n' s' s2' m' mc' nan' pinf' ninf'), Some (mk_agg c n s s2 m mc nan pinf ninf) =>
      n1 <-! int64 (n + n') ;;
      nan <-! int64 (nan + nan') ;;
      pinf <-! int64 (pinf + pinf') ;;
      ninf <-! int64 (ninf + ninf') ;;
      if 0 <? n' then
        '(m, mc) <-!
          (if m <? m' then Ok (m', mc')
           else if m' =? m then mc <-! int64 (mc + mc') ;; Ok (m, mc)
           else Ok (m, mc)) ;;
        '(s, s') <-! accum_sum_combine s s' ;;
        '(s2, s2') <-! (if calc then accum_sum_combine s2 s2' else Ok (s2, s2')) ;;
        Ok (Some (mk_agg c n1 s s2 m mc nan pinf ninf), Some (mk_agg c' n' s' s2' m' mc' nan' pinf' ninf'))
      else Ok (Some (mk_agg c n1 s s2 m mc nan pinf ninf), state2)
  end.

Definition numeric_combine : option NumericAggState -> option NumericAggState -> res (option NumericAggState * option NumericAggState) := combine_with true.
Definition numeric_avg_combine : option NumericAggState -> option NumericAggState -> res (option NumericAggState * option NumericAggState) := combine_with false.

(** ** Results *)

(** What sum and avg do with special inputs; [None] if there are none. *)
Definition special_total (state : NumericAggState) : option (res Numeric) :=
  if 0 <? NaNcount state then Some (make_result const_nan)
  else if (0 <? pInfcount state) && (0 <? nInfcount state) then Some (make_result const_nan)
  else if 0 <? pInfcount state then Some (make_result const_pinf)
  else if 0 <? nInfcount state then Some (make_result const_ninf)
  else None.

Definition set_sumX (s : NumericSumAccum) (state : NumericAggState) : NumericAggState :=
  mk_agg (calcSumX2 state) (agg_N state) s (sumX2 state) (maxScale state) (maxScaleCount state) (NaNcount state) (pInfcount state) (nInfcount state).
Definition set_sumX2 (s2 : NumericSumAccum) (state : NumericAggState) : NumericAggState :=
  mk_agg (calcSumX2 state) (agg_N state) (sumX state) s2 (maxScale state) (maxScaleCount state) (NaNcount state) (pInfcount state) (nInfcount state).

(** The state after the call, in which carries have been propagated, and the result; NULL
    if there was no input. *)
Definition finish_total (state : option NumericAggState) (f : Numeric -> NumericAggState -> res Numeric) : res (option NumericAggState * option Numeric) :=
  match state with
  | None => Ok (None, None)
  | Some st =>
      if NA_TOTAL_COUNT st =? 0 then Ok (state, None)
      else
        match special_total st with
        | Some r => r <-! r ;; Ok (state, Some r)
        | None =>
            '(s, sumX_var) <-! accum_sum_final (sumX st) ;;
            sum <-! make_result sumX_var ;;
            r <-! f sum st ;;
            Ok (Some (set_sumX s st), Some r)
        end
  end.

Definition numeric_sum (state : option NumericAggState) : res (option NumericAggState * option Numeric) :=
  finish_total state (fun sum _ => Ok sum).

(** [cells] is what the digits of the count hold before they are set. *)
Definition numeric_avg (have_int128 : bool) (cells : list Z) (state : option NumericAggState) : res (option NumericAggState * option Numeric) :=
  finish_total state (fun sum st => N_datum <-! int64_to_numeric cells (agg_N st) ;; numeric_div have_int128 sum N_datum).

(** The variance: numeric_stddev_internal with [variance] true. *)
Definition variance_internal (have_int128 : bool) (cells : list Z) (sample : bool) (state : option NumericAggState) : res (option NumericAggState * option Numeric) :=
  match state with
  | None => Ok (None, None)
  | Some st =>
      let totCount := NA_TOTAL_COUNT st in
      if (totCount =? 0) || sample && (totCount <=? 1) then Ok (state, None)
      else if (0 <? NaNcount st) || (0 <? pInfcount st) || (0 <? nInfcount st) then r <-! make_result const_nan ;; Ok (state, Some r)
      else
        vN <-! int64_to_numericvar cells (agg_N st) ;;
        '(s, vsumX) <-! accum_sum_final (sumX st) ;;
        '(s2, vsumX2) <-! accum_sum_final (sumX2 st) ;;
        vNminus1 <-! sub_var vN const_one ;;
        let rscale := dscale vsumX * 2 in
        vsumX <-! mul_var vsumX vsumX rscale ;;
        vsumX2 <-! mul_var vN vsumX2 rscale ;;
        vsumX2 <-! sub_var vsumX2 vsumX ;;
        res <-!
          (if cmp_var vsumX2 const_zero <=? 0 then make_result const_zero
           else
             vNminus1 <-! (if sample then mul_var vN vNminus1 0 else mul_var vN vN 0) ;;
             let rscale := select_div_scale vsumX2 vNminus1 in
             vsumX <-! div_var have_int128 vsumX2 vNminus1 rscale true ;;
             make_result vsumX) ;;
        Ok (Some (set_sumX2 s2 (set_sumX s st)), Some res)
  end.

Definition numeric_var_samp (have_int128 : bool) (cells : list Z) : option NumericAggState -> res (option NumericAggState * option Numeric) := variance_internal have_int128 cells true.
Definition numeric_var_pop (have_int128 : bool) (cells : list Z) : option NumericAggState -> res (option NumericAggState * option Numeric) := variance_internal have_int128 cells false.

(** The values 12.5, -0.05 and 12.5 again are added and the first is removed. *)
Example moving_sum :
  (st <-! numeric_accum None (Some (mk_numeric 0x8080 0 [12; 5000])) ;;
   st <-! numeric_accum (Some st) (Some (mk_numeric 0xA17F 0 [500])) ;;
   st <-! numeric_accum (Some st) (Some (mk_numeric 0x8080 0 [12; 5000])) ;;
   st <-! numeric_accum_inv (Some st) (Some (mk_numeric 0x8080 0 [12; 5000])) ;;
   '(st, sum) <-! numeric_sum st ;;
   '(_, var) <-! numeric_var_samp true (replicate 5 0) st ;;
   Ok (sum, var)) = Ok (Some (mk_numeric 0x8100 0 [12; 4500]), Some (mk_numeric 0x8800 0 [78; 7512; 5000])).
Proof. vm_compute. reflexivity. Qed.
