(* ===== verification/NumericAccumSpec.v ===== *)
(** What the accumulator holds: the exact sum of the values added to it.  No digit overflows
    an [int32], whatever number of values is added, and no carry is lost. *)

From S2P Require Import Prelude Numeric NumericArith NumericRound NumericMul NumericPack NumericFun NumericAccum.
Local Open Scope Z_scope.
Local Open Scope pg_scope.

(** ** Arrays of wide digits *)

Lemma mag_insert ds i x w : (i < length ds)%nat -> (mag (<[i := x]> ds) w == mag ds w + inject_Z (x - rd ds i) * bpow (w - Z.of_nat i))%Q.
Proof.
  revert i w. induction ds as [|d ds IH]; intros i w Hi; [simpl in Hi; lia|]. destruct i as [|i]; cbn [insert list_insert mag].
  - change (rd (d :: ds) 0) with d. replace (w - Z.of_nat 0) with w by lia. unfold Z.sub. rewrite inject_Z_plus, inject_Z_opp. ring.
  - change (list_insert i x ds) with (<[i := x]> ds). rewrite IH, rd_cons_S by (simpl in Hi; lia). replace (w - 1 - Z.of_nat i) with (w - Z.of_nat (S i)) by lia. ring.
Qed.

Lemma below_mag_lt b dig w : 0 < b -> below b dig -> (mag dig w < inject_Z b * bpow (w + 1))%Q.
Proof.
  intros Hb H. assert (Hq : (0 < inject_Z b)%Q) by (change 0%Q with (inject_Z 0); rewrite <- Zlt_Qlt; lia). revert w. induction H as [|x dig Hx _ IH]; intros w; cbn [mag].
  - pose proof (bpow_pos (w + 1)). nra.
  - specialize (IH (w - 1)). replace (w - 1 + 1) with w in IH by lia. rewrite bpow_succ. pose proof (bpow_pos w) as Hp.
    assert (Hx' : (inject_Z x <= inject_Z b * (inject_Z NBASE - 1))%Q) by (change 1%Q with (inject_Z 1); unfold Qminus; rewrite <- inject_Z_opp, <- inject_Z_plus, <- inject_Z_mult, <- Zle_Qle; unfold NBASE in *; lia).
    assert (Hm : (inject_Z x * bpow w <= inject_Z b * (inject_Z NBASE - 1) * bpow w)%Q) by (apply Qmult_le_compat_r; lra). lra.
Qed.

Lemma reserved_cons ds : reserved ds = true <-> exists ds', ds = 0 :: ds'.
Proof. destruct ds as [|d ds]; cbn; [split; [done|by intros [? ?]]|]. rewrite Z.eqb_eq. split; [intros ->; by exists ds|by intros [? [= -> _]]]. Qed.

Lemma reserved_rd ds : reserved ds = true <-> ds <> [] /\ rd ds 0 = 0.
Proof. destruct ds as [|d ds]; cbn; [split; [done|by intros [? _]]|]. change (rd (d :: ds) 0) with d. rewrite Z.eqb_eq. split; [done|tauto]. Qed.

(** A pass over digits that have taken up at most 9999 values beside a digit. *)
Lemma carry_digits ds w n : 0 <= n < NBASE -> below (n + 1) ds -> reserved ds = true ->
  exists out, carry_pass ds = Ok (0, out) /\ length out = length ds /\ digits_ok out /\ (mag out w == mag ds w)%Q.
Proof.
  intros Hn Hb Hr. assert (Hlt : (mag ds w < bpow (w + 1))%Q).
  { apply reserved_cons in Hr as [ds' ->]. inversion Hb as [|? ? _ Hb']; subst. cbn [mag]. pose proof (below_mag_lt (n + 1) ds' (w - 1) ltac:(lia) Hb') as H. replace (w - 1 + 1) with w in H by lia. rewrite bpow_succ.
    pose proof (bpow_pos w) as Hp. assert (Hq : (inject_Z (n + 1) <= inject_Z NBASE)%Q) by (rewrite <- Zle_Qle; lia). assert (Hm : (inject_Z (n + 1) * bpow w <= inject_Z NBASE * bpow w)%Q) by (apply Qmult_le_compat_r; lra). change (inject_Z 0) with 0%Q. lra. }
  destruct (normalize_spec ds w) as (out & E & Hl & Ho & Em); [eapply below_weaken; [|exact Hb]; change maxdig_limit with 214748; unfold NBASE in *; lia|done|].
  exists out. split; [|done]. unfold normalize in E. destruct (carry_pass ds) as [[c out']|]; [|done]. cbn [res_bind] in E. destruct (Z.eqb_spec c 0) as [->|]; cbn [negb] in E; [by injection E as ->|done].
Qed.

Lemma below_digits ds : digits_ok ds <-> below 1 ds.
Proof. unfold digits_ok, below, is_digit, NBASE. split; (intros H; eapply Forall_impl; [exact H|]; cbv beta; intros; lia). Qed.

(** The digits of a value are added from position [i] on, which have taken up one value
    less than those before. *)
Lemma add_digits_spec vs : digits_ok vs -> forall ds i b w, 0 <= b < NBASE -> below (b + 1) ds -> below b (drop (Z.to_nat i) ds) -> 1 <= i -> i + Z.of_nat (length vs) <= Z.of_nat (length ds) ->
  exists out, add_digits ds i vs = Ok out /\ length out = length ds /\ below (b + 1) out /\ rd out 0 = rd ds 0 /\ (mag out w == mag ds w + mag vs (w - i))%Q.
Proof.
  induction 1 as [|d vs Hd _ IH]; intros ds i b w Hb Hds Hrest Hi Hlen; cbn [add_digits].
  - exists ds. do 4 (split; [done|]). cbn [mag]. ring.
  - cbn [length] in Hlen. set (k := Z.to_nat i) in *. assert (Hk : (k < length ds)%nat) by (unfold k; lia).
    destruct (Z.leb_spec 0 i); [|lia]. destruct (Z.ltb_spec i (Z.of_nat (length ds))); [|lia]. cbn [andb negb].
    assert (Hx : 0 <= rd ds k <= b * (NBASE - 1)) by (unfold below in Hrest; rewrite (drop_S ds (rd ds k) k) in Hrest by (by apply rd_lookup); by inversion Hrest).
    unfold is_digit in Hd. rewrite int32_ok by (unfold INT32_MAX, NBASE in *; lia). cbn [res_bind].
    destruct (IH (<[k := rd ds k + d]> ds) (i + 1) b w Hb) as (out & E & Hl & Ho & Hz & Em).
    + apply Forall_insert; [done|unfold NBASE in *; lia].
    + replace (Z.to_nat (i + 1)) with (S k) by (unfold k; lia). rewrite drop_insert_lt by lia. unfold below in *. rewrite (drop_S ds (rd ds k) k) in Hrest by (by apply rd_lookup). by inversion Hrest.
    + lia.
    + rewrite length_insert. lia.
    + exists out. rewrite length_insert in Hl. split; [done|]. split; [done|]. split; [done|]. split; [rewrite Hz; apply rd_insert_ne; unfold k; lia|].
      rewrite Em, mag_insert by done. cbn [mag]. replace (rd ds k + d - rd ds k) with d by lia. replace (w - Z.of_nat k) with (w - i) by (unfold k; lia). replace (w - (i + 1)) with (w - i - 1) by lia. ring.
Qed.

(** ** The invariant *)

(** The accumulator holds the sum [q] with the scale [d]: each digit is that of a number
    and of one more for each value since the last carry, and the first digit is free
    whenever there may be a carry. *)
Record accum_ok (a : NumericSumAccum) (q : Q) (d : Z) : Prop := {
  ac_pos_length : Z.of_nat (length (pos_digits a)) = a_ndigits a;
  ac_neg_length : Z.of_nat (length (neg_digits a)) = a_ndigits a;
  ac_count : 0 <= num_uncarried a < NBASE;
  ac_pos : below (num_uncarried a + 1) (pos_digits a);
  ac_neg : below (num_uncarried a + 1) (neg_digits a);
  ac_room : have_carry_space a = true \/ 0 < num_uncarried a -> reserved (pos_digits a) = true /\ reserved (neg_digits a) = true;
  ac_value : (mag (pos_digits a) (a_weight a) - mag (neg_digits a) (a_weight a) == q)%Q;
  ac_scale : a_dscale a = d;
  ac_empty : a_ndigits a = 0 -> d = 0
}.

Lemma accum_ok_ext a q q' d : (q == q')%Q -> accum_ok a q d -> accum_ok a q' d.
Proof. intros E []. split; try done. by rewrite <- E. Qed.

Lemma empty_accum_ok : accum_ok empty_accum 0 0.
Proof. split; try done; [by constructor..|]. intros [|H]; [done|cbn in H; lia]. Qed.

(** Digits without a carry; the flag [h] after the pass over them. *)
Lemma reserved_after h out : digits_ok out -> out <> [] -> (if 0 <? rd out 0 then false else h) = true -> reserved out = true.
Proof.
  intros Ho Hne. destruct out as [|d out]; [done|]. inversion Ho as [|? ? [Hd _] _]; subst. change (rd (d :: out) 0) with d. cbn [reserved]. destruct (Z.ltb_spec 0 d); [done|]. intros _. apply Z.eqb_eq. lia.
Qed.

Lemma carry_spec a q d : accum_ok a q d -> exists a', accum_sum_carry a = Ok a' /\ accum_ok a' q d /\ num_uncarried a' = 0 /\ a_ndigits a' = a_ndigits a.
Proof.
  intros H. unfold accum_sum_carry. destruct (Z.eqb_spec (num_uncarried a) 0) as [E0|E0]; [by exists a|]. destruct H as [Lp Ln Hc Hp Hn Hr Hv Hs He]. destruct Hr as [Rp Rn]; [right; lia|]. rewrite Rp, Rn. cbn [andb negb].
  destruct (carry_digits _ (a_weight a) _ Hc Hp Rp) as (pos & -> & Lp' & Op & Mp), (carry_digits _ (a_weight a) _ Hc Hn Rn) as (neg & -> & Ln' & On & Mn). cbn [res_bind].
  apply reserved_rd in Rp as [Np _], Rn as [Nn _]. assert (Np' : pos <> []) by (intros ->; apply Np, nil_length_inv; by rewrite <- Lp'). assert (Nn' : neg <> []) by (intros ->; apply Nn, nil_length_inv; by rewrite <- Ln').
  eexists. split; [done|]. split; [|done]. split; cbn [pos_digits neg_digits a_ndigits num_uncarried have_carry_space a_weight a_dscale]; try lia; try done.
  - by apply below_digits.
  - by apply below_digits.
  - intros [Hh|]; [|lia]. split; [|by apply reserved_after in Hh]. destruct (0 <? rd neg 0); [done|]. by apply reserved_after in Hh.
  - by rewrite Mp, Mn.
Qed.

Lemma enlarged_spec old at_ n b w : 0 <= at_ -> at_ + Z.of_nat (length old) <= n -> 0 <= b -> below b old ->
  exists new, enlarged old at_ n = Ok new /\ Z.of_nat (length new) = n /\ below b new /\ (mag new (w + at_) == mag old w)%Q /\ (0 < at_ \/ reserved old = true -> reserved new = true).
Proof.
  intros Ha Hn Hb Ho. unfold enlarged. set (rest := n - at_ - Z.of_nat (length old)). destruct (Z.ltb_spec at_ 0); [lia|]. destruct (Z.ltb_spec rest 0); [lia|]. cbn [orb]. eexists. split; [done|].
  assert (Hz : forall k, below b (replicate k 0)) by (intros k; apply Forall_replicate; unfold NBASE; lia).
  split; [rewrite !length_app, !length_replicate; lia|]. split; [apply Forall_app; split; [apply Hz|apply Forall_app; split; [done|apply Hz]]|]. split.
  - rewrite mag_skip_zeroes, mag_drop_zeroes. replace (w + at_ - Z.of_nat (Z.to_nat at_)) with w by lia. reflexivity.
  - intros Hr. apply reserved_cons. destruct (decide (0 < at_)) as [Hp|Hp]; [replace (Z.to_nat at_) with (S (pred (Z.to_nat at_))) by lia; by eexists|]. replace at_ with 0 by lia.
    destruct Hr as [Hr|[old' ->]%reserved_cons]; [lia|]. by eexists.
Qed.

(** Room for a value: the first digit stays free. *)
Definition room_for (a : NumericSumAccum) (val : NumericVar) : Prop :=
  reserved (pos_digits a) = true /\ reserved (neg_digits a) = true /\ weight val < a_weight a /\ ndigits val - weight val <= a_ndigits a - a_weight a.

Lemma rescale_spec a q d val : accum_ok a q d ->
  exists a', accum_sum_rescale a val = Ok a' /\ accum_ok a' q (Z.max d (dscale val)) /\ num_uncarried a' = num_uncarried a /\ room_for a' val.
Proof.
  intros [Lp Ln Hc Hp Hn Hr Hv Hs He]. unfold accum_sum_rescale. replace (if a_dscale a <? dscale val then _ else _) with (Z.max d (dscale val)) by (rewrite Hs; destruct (Z.ltb_spec d (dscale val)); lia).
  set (p := if a_weight a <=? weight val then _ else _). assert (Hp' : a_weight a <= p.1 /\ weight val < p.1 /\ p.2 - a_ndigits a = p.1 - a_weight a /\ (a_weight a < p.1 \/ p.1 = a_weight a /\ have_carry_space a = true)).
  { unfold p. destruct (Z.leb_spec (a_weight a) (weight val)); cbn [fst snd]; [lia|]. destruct (have_carry_space a); cbn [negb fst snd]; [repeat split; try lia; by right|lia]. }
  destruct p as [w' n']. cbn [fst snd] in Hp'. destruct Hp' as (W1 & W2 & W3 & W4). set (n := if _ <? _ then _ else n'). assert (Hn' : n' <= n /\ ndigits val - weight val <= n - w') by (unfold n; destruct (Z.ltb_spec (n' - w' - 1) (ndigits val - weight val - 1)); lia).
  destruct Hn' as [N1 N2]. clearbody n. destruct (negb (n =? a_ndigits a) || negb (w' =? a_weight a)) eqn:Hch.
  - destruct (enlarged_spec (pos_digits a) (w' - a_weight a) n (num_uncarried a + 1) (a_weight a) ltac:(lia) ltac:(lia) ltac:(lia) Hp) as (pos & -> & Lp' & Bp & Mp & Rp).
    destruct (enlarged_spec (neg_digits a) (w' - a_weight a) n (num_uncarried a + 1) (a_weight a) ltac:(lia) ltac:(lia) ltac:(lia) Hn) as (neg & -> & Ln' & Bn & Mn & Rn). cbn [res_bind].
    assert (Hres : reserved pos = true /\ reserved neg = true) by (destruct W4 as [W4|[_ W4]]; [split; [apply Rp|apply Rn]; left; lia|destruct Hr as [? ?]; [by left|]; split; [apply Rp|apply Rn]; by right]).
    destruct Hres as [R1 R2]. rewrite R1, R2. cbn [andb negb]. eexists. split; [done|]. replace (a_weight a + (w' - a_weight a)) with w' in * by lia.
    split; [|split; [done|split; [done|split; [done|cbn [a_weight a_ndigits]; lia]]]]. split; cbn [pos_digits neg_digits a_ndigits num_uncarried have_carry_space a_weight a_dscale]; try done; [by rewrite Mp, Mn|]. intros ->. apply reserved_rd in R1 as [R1 _]. by apply nil_length_inv in Lp' || (destruct pos; [done|simpl in Lp'; lia]).
  - apply orb_false_elim in Hch as [E1%negb_false_iff%Z.eqb_eq E2%negb_false_iff%Z.eqb_eq]. assert (Hh : have_carry_space a = true) by (destruct W4 as [|[_ ?]]; [lia|done]). destruct Hr as [R1 R2]; [by left|].
    eexists. split; [done|]. split; [|split; [done|split; [done|split; [done|cbn [a_weight a_ndigits]; lia]]]]. split; cbn [pos_digits neg_digits a_ndigits num_uncarried have_carry_space a_weight a_dscale]; try done. intros E. apply reserved_rd in R1 as [R1 _]. destruct (pos_digits a); [done|simpl in Lp; lia].
Qed.

(** ** Operations *)

Lemma add_into ds i val b w : digits_ok (digits val) -> 0 <= b < NBASE -> below b ds -> reserved ds = true -> 1 <= i -> i + ndigits val <= Z.of_nat (length ds) ->
  exists out, add_digits ds i (digits val) = Ok out /\ length out = length ds /\ below (b + 1) out /\ reserved out = true /\ (mag out w == mag ds w + mag (digits val) (w - i))%Q.
Proof.
  intros Hd Hb Hds Hr Hi Hlen. destruct (add_digits_spec _ Hd ds i b w Hb) as (out & -> & Hl & Ho & H0 & Em); [by eapply below_weaken; [|exact Hds]; lia|by apply Forall_drop|done|done|].
  exists out. do 3 (split; [done|]). split; [|done]. apply reserved_rd in Hr as [Hne Hz]. apply reserved_rd. split; [|by rewrite H0]. intros ->. apply Hne, nil_length_inv. by rewrite <- Hl.
Qed.

Lemma add_spec a q d val : accum_ok a q d -> var_ok val ->
  exists a', accum_sum_add a val = Ok a' /\ accum_ok a' (q + value val) (Z.max d (dscale val)) /\ 0 < a_ndigits a'.
Proof.
  intros Ha [Hd Hsign]. unfold accum_sum_add.
  assert (H1 : exists a1, (if num_uncarried a =? NBASE - 1 then accum_sum_carry a else Ok a) = Ok a1 /\ accum_ok a1 q d /\ num_uncarried a1 < NBASE - 1).
  { destruct (Z.eqb_spec (num_uncarried a) (NBASE - 1)) as [E|E]; [|exists a; split; [done|]; split; [done|]; destruct Ha; lia]. destruct (carry_spec a q d Ha) as (a1 & E1 & H1 & H2 & _). exists a1. split; [done|]. split; [done|]. by rewrite H2. }
  destruct H1 as (a1 & -> & H1 & Hc1). cbn [res_bind]. destruct (rescale_spec a1 q d val H1) as (a2 & -> & H2 & Hc2 & Rp & Rn & Hw & Hr). cbn [res_bind]. rewrite <- Hc2 in Hc1.
  destruct H2 as [Lp Ln Hc Hp Hn _ Hv Hs He]. set (w := a_weight a2) in *. set (n := num_uncarried a2) in *.
  assert (Hnd : 0 < a_ndigits a2) by (apply reserved_rd in Rp as [Rp _]; destruct (pos_digits a2); [done|simpl in Lp; lia]). rewrite (int32_ok (n + 1)) by (unfold INT32_MAX, NBASE in *; lia).
  assert (Hi : 1 <= w - weight val /\ w - weight val + ndigits val <= a_ndigits a2 /\ 0 <= n + 1 < NBASE) by lia. destruct Hi as (I1 & I2 & I3).
  unfold value, sgn, magnitude. destruct Hsign as [-> | ->]; cbn [Z.eqb Pos.eqb NUMERIC_POS NUMERIC_NEG].
  - destruct (add_into _ (w - weight val) val (n + 1) w Hd I3 Hp Rp I1 ltac:(by rewrite Lp)) as (out & -> & Lo & Bo & Ro & Mo). cbn [res_bind]. eexists. split; [done|]. split; [|done].
    split; cbn [pos_digits neg_digits a_ndigits num_uncarried have_carry_space a_weight a_dscale]; try done; try lia; [eapply below_weaken; [|exact Hn]; lia|]. fold w in Hv |- *. rewrite Mo, <- Hv. replace (w - (w - weight val)) with (weight val) by lia. ring.
  - destruct (add_into _ (w - weight val) val (n + 1) w Hd I3 Hn Rn I1 ltac:(by rewrite Ln)) as (out & -> & Lo & Bo & Ro & Mo). cbn [res_bind]. eexists. split; [done|]. split; [|done].
    split; cbn [pos_digits neg_digits a_ndigits num_uncarried have_carry_space a_weight a_dscale]; try done; try lia; [eapply below_weaken; [|exact Hp]; lia|]. fold w in Hv |- *. rewrite Mo, <- Hv. replace (w - (w - weight val)) with (weight val) by lia. ring.
Qed.

Lemma small_digits ds : digits_ok ds -> map (swrap 16) ds = ds /\ forallb (fun d => d <? NBASE) ds = true.
Proof.
  induction 1 as [|d ds [H0 H1] _ [IH1 IH2]]; [done|]. cbn [map forallb]. rewrite IH1, IH2. split; [f_equal; apply swrap16_id; unfold NBASE in *; lia|]. destruct (Z.ltb_spec d NBASE); [done|lia].
Qed.

(** The value of the accumulator, which still holds it. *)
Lemma final_spec a q d : accum_ok a q d ->
  exists a' v, accum_sum_final a = Ok (a', v) /\ accum_ok a' q d /\ normal v /\ (value v == q)%Q /\ dscale v = d.
Proof.
  intros Ha. unfold accum_sum_final. destruct (Z.eqb_spec (a_ndigits a) 0) as [E0|E0].
  - exists a, (set_var_from_var const_zero). split; [done|]. split; [done|]. destruct Ha as [Lp Ln _ _ _ _ Hv _ He]. split; [split; [split; [constructor|by left]|split; [by right|by right|done]]|]. split; [|symmetry; by apply He].
    rewrite <- Hv. rewrite (nil_length_inv (pos_digits a)), (nil_length_inv (neg_digits a)) by lia. done.
  - destruct (carry_spec a q d Ha) as (a1 & -> & H1 & Hc & Hnd). cbn [res_bind]. exists a1. pose proof H1 as [Lp Ln _ Hp Hn _ Hv Hs _]. rewrite Hc in Hp, Hn. apply below_digits in Hp, Hn.
    rewrite !take_ge by lia. destruct (small_digits _ Hp) as [-> F1], (small_digits _ Hn) as [-> F2]. rewrite forallb_app, F1, F2. cbn [andb negb]. set (vp := mk_var [] (pos_digits a1) _ _ _). set (vn := mk_var [] (neg_digits a1) _ _ _).
    assert (Op : var_ok vp) by (split; [done|by left]). assert (On : var_ok vn) by (split; [done|by right]).
    destruct (difference_fits vp vn NUMERIC_POS NUMERIC_NEG Op On) as (v & E & Nv & Vv & Dv & _); [intros _; right; cbn; lia|intros _; right; cbn; lia|by left|].
    change (add_var vp vn) with (difference vp vn NUMERIC_POS NUMERIC_NEG). rewrite E. cbn [res_bind]. eexists. split; [done|]. split; [done|].
    destruct (strip_var_spec v (proj1 Nv)) as (S1 & S2 & S3 & S4 & _). split; [done|]. split; [|rewrite S4, Dv; unfold vp, vn; cbn [dscale]; lia].
    rewrite S3, Vv, <- Hv. unfold unit_of, vp, vn, magnitude. cbn. ring.
Qed.

Lemma reset_spec a q d : accum_ok a q d -> accum_ok (accum_sum_reset a) 0 0.
Proof.
  intros [Lp Ln Hc Hp Hn Hr Hv Hs He]. unfold accum_sum_reset. rewrite !drop_ge, app_nil_r by lia. set (n := Z.to_nat (a_ndigits a)).
  assert (Hz : below (num_uncarried a + 1) (replicate n 0)) by (apply Forall_replicate; unfold NBASE; lia).
  split; cbn [pos_digits neg_digits a_ndigits num_uncarried have_carry_space a_weight a_dscale]; try done; [rewrite length_replicate; lia..| |rewrite mag_zeroes; ring].
  intros H. destruct (Hr H) as [[Hne _]%reserved_rd _]. assert (0 < n)%nat by (destruct (pos_digits a); [done|simpl in Lp; lia]). destruct n; [lia|done].
Qed.

Lemma copy_spec a q d : accum_ok a q d -> accum_ok (accum_sum_copy a) q d.
Proof.
  intros [Lp Ln Hc Hp Hn Hr Hv Hs He]. unfold accum_sum_copy. rewrite !take_ge by lia. split; try done. cbn [pos_digits neg_digits num_uncarried have_carry_space]. intros [?|H]; [done|]. apply Hr. by right.
Qed.

Lemma combine_spec a q d a2 q2 d2 : accum_ok a q d -> accum_ok a2 q2 d2 ->
  exists b b2, accum_sum_combine a a2 = Ok (b, b2) /\ accum_ok b (q + q2) (Z.max d d2) /\ accum_ok b2 q2 d2.
Proof.
  intros H1 H2. unfold accum_sum_combine. destruct (final_spec a2 q2 d2 H2) as (b2 & v & -> & Hb2 & Nv & Vv & Dv). cbn [res_bind]. destruct (add_spec a q d v H1 (proj1 Nv)) as (b & -> & Hb & _). cbn [res_bind].
  exists b, b2. split; [done|]. split; [|done]. rewrite <- Dv. eapply accum_ok_ext; [|exact Hb]. by rewrite Vv.
Qed.
