(* ===== verification/NumericAgg.v ===== *)
(** What an aggregate state stands for: the inputs, in any order, and how the transition
    functions change them. *)

From S2P Require Import Prelude Numeric NumericArith NumericRound NumericMul NumericPack NumericNum NumericTimes NumericInt NumericFun NumericText NumericAccum NumericAccumSpec.
Local Open Scope Z_scope.
Local Open Scope pg_scope.

(** ** The inputs *)

Fixpoint total (xs : list number) : Q :=
  match xs with [] => 0 | Fin q _ :: xs => q + total xs | _ :: xs => total xs end.
Fixpoint squares (xs : list number) : Q :=
  match xs with [] => 0 | Fin q _ :: xs => q * q + squares xs | _ :: xs => squares xs end.
(** The greatest scale. *)
Fixpoint top (xs : list number) : Z :=
  match xs with [] => 0 | Fin _ d :: xs => Z.max d (top xs) | _ :: xs => top xs end.

Definition count (f : number -> bool) (xs : list number) : Z := Z.of_nat (length (List.filter f xs)).
Definition is_nan (x : number) : bool := match x with NaN => true | _ => false end.
Definition is_pinf (x : number) : bool := match x with PInf => true | _ => false end.
Definition is_ninf (x : number) : bool := match x with NInf => true | _ => false end.
Definition has_scale (s : Z) (x : number) : bool := match x with Fin _ d => d =? s | _ => false end.

(** A number has no more decimal places than it shows. *)
Definition placed (x : number) : Prop := match x with Fin q d => 0 <= d /\ multiple q (tpow (- d)) | _ => True end.

Lemma count_cons f x xs : count f (x :: xs) = (if f x then 1 else 0) + count f xs.
Proof. unfold count. cbn [List.filter]. destruct (f x); cbn [length]; lia. Qed.

Lemma count_app f xs ys : count f (xs ++ ys) = count f xs + count f ys.
Proof. induction xs as [|x xs IH]; [done|]. cbn [app]. rewrite !count_cons. lia. Qed.

Lemma count_nonneg f xs : 0 <= count f xs.
Proof. unfold count. lia. Qed.

Lemma count_perm f xs ys : xs ≡ₚ ys -> count f xs = count f ys.
Proof. induction 1; rewrite ?count_cons; lia. Qed.

Lemma top_perm xs ys : xs ≡ₚ ys -> top xs = top ys.
Proof. induction 1 as [|x xs ys _ IH|x y xs|]; cbn [top]; [done|destruct x; lia|destruct x, y; lia|congruence]. Qed.

Lemma total_perm xs ys : xs ≡ₚ ys -> (total xs == total ys)%Q.
Proof. induction 1 as [|x xs ys _ IH|x y xs|xs ys zs _ IH1 _ IH2]; cbn [total]; [reflexivity|destruct x; rewrite ?IH; reflexivity|destruct x, y; try reflexivity; ring|by rewrite IH1]. Qed.

Lemma squares_perm xs ys : xs ≡ₚ ys -> (squares xs == squares ys)%Q.
Proof. induction 1 as [|x xs ys _ IH|x y xs|xs ys zs _ IH1 _ IH2]; cbn [squares]; [reflexivity|destruct x; rewrite ?IH; reflexivity|destruct x, y; try reflexivity; ring|by rewrite IH1]. Qed.

Lemma total_of_app xs ys : (total (xs ++ ys) == total xs + total ys)%Q.
Proof. induction xs as [|x xs IH]; cbn [app total]; [ring|]. destruct x; rewrite IH; ring. Qed.

Lemma squares_app xs ys : (squares (xs ++ ys) == squares xs + squares ys)%Q.
Proof. induction xs as [|x xs IH]; cbn [app squares]; [ring|]. destruct x; rewrite IH; ring. Qed.

Lemma top_nonneg xs : 0 <= top xs.
Proof. induction xs as [|x xs IH]; cbn [top]; [done|]. destruct x; lia. Qed.

Lemma top_app xs ys : top (xs ++ ys) = Z.max (top xs) (top ys).
Proof. pose proof (top_nonneg ys). induction xs as [|x xs IH]; cbn [app top]; [lia|]. destruct x; lia. Qed.

Lemma none_finite xs : count is_fin xs = 0 -> (total xs == 0)%Q /\ (squares xs == 0)%Q /\ top xs = 0 /\ forall s, count (has_scale s) xs = 0.
Proof.
  induction xs as [|x xs IH]; [done|]. rewrite count_cons. pose proof (count_nonneg is_fin xs). destruct x; cbn [is_fin]; intros E; try lia; destruct (IH ltac:(lia)) as (H1 & H2 & H3 & H4); (split; [done|]; split; [done|]; split; [done|]); intros s; rewrite count_cons; cbn [has_scale]; by rewrite H4.
Qed.

Lemma above_top s xs : top xs < s -> count (has_scale s) xs = 0.
Proof. induction xs as [|x xs IH]; [done|]. rewrite count_cons. cbn [top]. destruct x as [| | |q d]; cbn [has_scale]; try (intros; rewrite IH; done). intros H. destruct (Z.eqb_spec d s); [lia|]. rewrite IH; [done|lia]. Qed.

(** The greatest scale is that of an input, unless it is zero. *)
Lemma top_counts xs : 0 < top xs -> 1 <= count (has_scale (top xs)) xs.
Proof.
  induction xs as [|x xs IH]; cbn [top]; [lia|]. rewrite count_cons. destruct x as [| | |q d]; cbn [has_scale]; try (intros H; specialize (IH H); lia).
  intros H. pose proof (count_nonneg (has_scale (Z.max d (top xs))) xs). destruct (Z.eqb_spec d (Z.max d (top xs))) as [E|E]; [lia|]. replace (Z.max d (top xs)) with (top xs) in * by lia. specialize (IH H). lia.
Qed.

Lemma total_multiple xs : Forall placed xs -> multiple (total xs) (tpow (- top xs)).
Proof.
  induction 1 as [|x xs Hx _ IH]; cbn [total top]; [apply multiple_zero|]. destruct x as [| | |q d]; try done. destruct Hx as [_ Hx]. by apply multiple_sum.
Qed.

Lemma squares_multiple xs : Forall placed xs -> multiple (squares xs) (tpow (- (2 * top xs))).
Proof.
  induction 1 as [|x xs Hx _ IH]; cbn [squares top]; [apply multiple_zero|]. destruct x as [| | |q d]; try done. destruct Hx as [_ Hx].
  replace (2 * Z.max d (top xs)) with (Z.max (2 * d) (2 * top xs)) by lia. apply multiple_sum; [|done]. replace (2 * d) with (d + d) by lia. by apply multiple_product.
Qed.

(** ** States *)

Record holds (st : NumericAggState) (xs : list number) : Prop := {
  h_placed : Forall placed xs;
  h_N : agg_N st = count is_fin xs;
  h_nan : NaNcount st = count is_nan xs;
  h_pinf : pInfcount st = count is_pinf xs;
  h_ninf : nInfcount st = count is_ninf xs;
  h_scale : maxScale st = top xs;
  h_scale_count : maxScaleCount st = count (has_scale (top xs)) xs;
  h_sum : accum_ok (sumX st) (total xs) (top xs);
  h_squares : calcSumX2 st = true -> accum_ok (sumX2 st) (squares xs) (2 * top xs)
}.

#[export] Instance holds_proper : Proper (eq ==> (≡ₚ) ==> iff) holds.
Proof.
  assert (H : forall st xs ys, xs ≡ₚ ys -> holds st xs -> holds st ys); [|intros st ? <- xs ys E; split; apply H; [done|by symmetry]].
  intros st xs ys E [H1 H2 H3 H4 H5 H6 H7 H8 H9]. pose proof (top_perm _ _ E) as Et. split; rewrite <- ?Et, <- ?(count_perm _ _ _ E); try done; [by rewrite <- E|eapply accum_ok_ext; [by apply total_perm|done]|intros Hc; eapply accum_ok_ext; [by apply squares_perm|by apply H9]].
Qed.

Lemma make_holds c : holds (makeNumericAggState c) [].
Proof. split; try done; [apply empty_accum_ok|intros _; apply empty_accum_ok]. Qed.

(** ** Transitions *)

Lemma count_le f xs : count f xs <= Z.of_nat (length xs).
Proof. induction xs as [|x xs IH]; [done|]. rewrite count_cons. cbn [length]. destruct (f x); lia. Qed.

Lemma int64_ok x : 0 <= x < 2 ^ 63 -> int64 x = Ok x.
Proof. intros H. unfold int64, s64, PG_INT64_MIN. destruct (Z.leb_spec (- 2 ^ 63) x); [|lia]. destruct (Z.ltb_spec x (2 ^ 63)); [done|lia]. Qed.

Lemma denotes_placed n x : denotes n x -> placed x.
Proof. destruct x as [| | |q d]; try done. intros D. pose proof (fin_multiple _ _ _ D). apply fin_parts in D as (_ & _ & _ & B & _). split; [lia|done]. Qed.

(** A special value changes a counter. *)
Lemma special_holds c n s s2 m mc nan pinf ninf x xs : is_fin x = false ->
  holds (mk_agg c n s s2 m mc (nan + if is_nan x then 1 else 0) (pinf + if is_pinf x then 1 else 0) (ninf + if is_ninf x then 1 else 0)) (x :: xs)
  <-> holds (mk_agg c n s s2 m mc nan pinf ninf) xs.
Proof.
  intros Hx. assert (E : total (x :: xs) = total xs /\ squares (x :: xs) = squares xs /\ top (x :: xs) = top xs /\ forall s, has_scale s x = false) by (by destruct x). destruct E as (E1 & E2 & E3 & E4). assert (Hp : placed x) by (by destruct x).
  split; intros [H1 H2 H3 H4 H5 H6 H7 H8 H9]; rewrite ?E1, ?E2, ?E3 in *; cbn [agg_N NaNcount pInfcount nInfcount maxScale maxScaleCount sumX sumX2 calcSumX2] in *; rewrite ?count_cons, ?Hx, ?E4 in *;
    split; rewrite ?E1, ?E2, ?E3; cbn [agg_N NaNcount pInfcount nInfcount maxScale maxScaleCount sumX sumX2 calcSumX2]; rewrite ?count_cons, ?Hx, ?E4; try done; try lia; [by inversion H1|by constructor].
Qed.

Lemma count_special_spec st n x xs : denotes n x -> is_fin x = false -> Z.of_nat (length xs) < 2 ^ 63 - 1 ->
  (holds st xs -> exists st', count_special 1 st n = Ok st' /\ holds st' (x :: xs) /\ calcSumX2 st' = calcSumX2 st)
  /\ (holds st (x :: xs) -> exists st', count_special (-1) st n = Ok st' /\ holds st' xs /\ calcSumX2 st' = calcSumX2 st).
Proof.
  intros D Hx Hl. destruct st as [c k s s2 m mc nan pinf ninf]. destruct (kinds n x D) as (_ & _ & Hp & Hn). unfold count_special. rewrite Hp, Hn.
  pose proof (count_le is_nan xs). pose proof (count_le is_pinf xs). pose proof (count_le is_ninf xs). pose proof (count_nonneg is_nan xs). pose proof (count_nonneg is_pinf xs). pose proof (count_nonneg is_ninf xs). split; intros H'.
  - pose proof H' as [_ _ C1 C2 C3 _ _ _ _]. cbn in C1, C2, C3. apply (special_holds _ _ _ _ _ _ _ _ _ x) in H'; [|done].
    destruct x; try done; cbn [is_nan is_pinf is_ninf] in H'; rewrite ?Z.add_0_r in H'; rewrite int64_ok by lia; cbn [res_bind]; by eexists.
  - pose proof H' as [_ _ C1 C2 C3 _ _ _ _]. cbn in C1, C2, C3. rewrite count_cons in C1, C2, C3. destruct x; try done; cbn [is_nan is_pinf is_ninf] in *; rewrite int64_ok by lia; cbn [res_bind]; eexists; (split; [done|]); (split; [|done]);
      eapply (special_holds _ _ _ _ _ _ _ _ _ _ xs Hx); cbn [is_nan is_pinf is_ninf]; rewrite ?Z.add_0_r, ?Z.sub_add; rewrite <- ?Z.add_assoc, ?Z.add_0_r; exact H'.
Qed.

Lemma add_square_spec sum q2 t X (neg : bool) : accum_ok sum q2 (2 * t) -> normal X -> 0 <= dscale X -> multiple (magnitude X) (tpow (- dscale X)) ->
  exists sum', add_square true sum X neg = Ok sum' /\ accum_ok sum' (q2 + (if neg then - (value X * value X) else value X * value X)) (2 * Z.max t (dscale X)).
Proof.
  intros Ha N Hd M. unfold add_square. replace (dscale X * 2) with (dscale X + dscale X) by lia. destruct (mul_var_exact X X _ _ N N Hd Hd M M) as (v & -> & [Ov _] & Vv & Dv & _). cbn [res_bind].
  set (v' := if neg then set_sign NUMERIC_NEG v else v). assert (H : var_ok v' /\ dscale v' = dscale v /\ (value v' == if neg then - (value X * value X) else value X * value X)%Q).
  { unfold v'. destruct neg; [|done]. split; [split; [apply Ov|by right]|]. split; [done|]. rewrite <- Vv. assert (Hp : (0 <= value v)%Q) by (rewrite Vv; nra). rewrite <- (Qabs_pos (value v)), abs_value by done. unfold value, sgn, magnitude. cbn. ring. }
  destruct H as (O' & D' & V'). destruct (add_spec sum q2 _ v' Ha O') as (sum' & -> & Hs & _). exists sum'. split; [done|]. rewrite D', Dv in Hs. replace (2 * Z.max t (dscale X)) with (Z.max (2 * t) (dscale X + dscale X)) by lia. eapply accum_ok_ext; [|exact Hs]. by rewrite V'.
Qed.

Ltac fields := cbn [agg_N NaNcount pInfcount nInfcount maxScale maxScaleCount sumX sumX2 calcSumX2].
Tactic Notation "fields" "in" ne_hyp_list(h) := cbn [agg_N NaNcount pInfcount nInfcount maxScale maxScaleCount sumX sumX2 calcSumX2] in h.

(** The scale and the number of inputs that have it, after one more input. *)
Lemma accum_scale m mc d q xs : m = top xs -> mc = count (has_scale (top xs)) xs -> Z.of_nat (length xs) < 2 ^ 63 - 1 ->
  (if m <? d then Ok (d, 1) else if d =? m then mc <-! int64 (mc + 1) ;; Ok (m, mc) else Ok (m, mc)) = Ok (top (Fin q d :: xs), count (has_scale (top (Fin q d :: xs))) (Fin q d :: xs)).
Proof.
  intros -> -> Hl. rewrite count_cons. cbn [top has_scale]. pose proof (count_le (has_scale (top xs)) xs). pose proof (count_nonneg (has_scale (top xs)) xs). destruct (Z.ltb_spec (top xs) d) as [H1|H1].
  - replace (Z.max d (top xs)) with d by lia. rewrite Z.eqb_refl, above_top by lia. done.
  - replace (Z.max d (top xs)) with (top xs) by lia. destruct (Z.eqb_spec d (top xs)); [|done]. rewrite int64_ok by lia. cbn [res_bind]. by rewrite (Z.add_comm 1).
Qed.

Lemma accum_holds st n x xs : holds st xs -> denotes n x -> Z.of_nat (length xs) < 2 ^ 63 - 1 ->
  exists st', do_numeric_accum st n = Ok st' /\ holds st' (x :: xs) /\ calcSumX2 st' = calcSumX2 st.
Proof.
  intros H D Hl. unfold do_numeric_accum. destruct (kinds n x D) as (-> & _). destruct (is_fin x) eqn:Hx; cbn [negb]; [|by apply count_special_spec]. destruct x as [| | |q d]; try done. clear Hx.
  pose proof (denotes_placed _ _ D) as Hp. apply fin_parts in D as (N & Q & <- & B & M). set (X := init_var_from_num n) in *. destruct st as [c k s s2 m mc nan pinf ninf]. destruct H as [H1 H2 H3 H4 H5 H6 H7 H8 H9]; fields in H2 H3 H4 H5 H6 H7 H8 H9.
  rewrite (accum_scale m mc (dscale X) q xs H6 H7 Hl). cbn [res_bind]. pose proof (count_le is_fin xs). pose proof (count_nonneg is_fin xs). rewrite int64_ok by lia. cbn [res_bind].
  destruct (add_spec s _ _ X H8 (proj1 N)) as (s' & -> & Hs & _). cbn [res_bind].
  assert (E2 : exists s2', add_square c s2 X false = Ok s2' /\ (c = true -> accum_ok s2' (squares (Fin q (dscale X) :: xs)) (2 * top (Fin q (dscale X) :: xs)))).
  { destruct c; [|by exists s2]. destruct (add_square_spec s2 _ _ X false (H9 eq_refl) N ltac:(lia) M) as (s2' & -> & Hs2). exists s2'. split; [done|]. intros _. cbn [squares top]. rewrite Z.max_comm. eapply accum_ok_ext; [|exact Hs2]. rewrite Q. ring. }
  destruct E2 as (s2' & -> & Hs2). cbn [res_bind]. eexists. split; [done|]. split; [|done].
  split; fields; rewrite ?count_cons; cbn [is_fin is_nan is_pinf is_ninf]; try done; try lia; [by constructor|]. cbn [total top]. rewrite Z.max_comm. eapply accum_ok_ext; [|exact Hs]. rewrite Q. ring.
Qed.

(** The scale after an input has been taken away; it is not known if the input was the
    only one that had the greatest scale, and others are left. *)
Lemma discard_scale m mc k d q xs : 0 <= d -> m = top (Fin q d :: xs) -> mc = count (has_scale m) (Fin q d :: xs) -> k = 1 + count is_fin xs ->
  match (if d =? m then if (1 <? mc) || (m =? 0) then Some (m, mc - 1) else if k =? 1 then Some (0, 0) else None else Some (m, mc)) with
  | Some p => p = (top xs, count (has_scale (top xs)) xs) /\ (1 < k -> Z.max d (top xs) = top xs)
  | None => 0 < d /\ top xs < d /\ 0 < count is_fin xs
  end.
Proof.
  intros Hd Em Emc Ek. rewrite count_cons in Emc. cbn [top has_scale] in Em, Emc. pose proof (top_nonneg xs). pose proof (count_nonneg is_fin xs). destruct (Z.eqb_spec d m) as [E|E].
  - pose proof (above_top m xs) as Ha. pose proof (top_counts xs) as Hc. pose proof (count_nonneg (has_scale m) xs). destruct ((1 <? mc) || (m =? 0)) eqn:Hb; [apply orb_true_iff in Hb as [Hb%Z.ltb_lt|Hb%Z.eqb_eq]|apply orb_false_iff in Hb as [Hb1%Z.ltb_ge Hb2%Z.eqb_neq]].
    + assert (Et : top xs = m) by (destruct (Z.lt_ge_cases (top xs) m) as [Hlt|]; [specialize (Ha Hlt); lia|lia]). rewrite Et. split; [f_equal; lia|lia].
    + assert (Et : top xs = m) by lia. rewrite Et. split; [f_equal; lia|lia].
    + assert (Hlt : top xs < m) by (destruct (Z.lt_ge_cases (top xs) m) as [Hlt|Hge]; [done|]; assert (Et : top xs = m) by lia; rewrite Et in Hc; specialize (Hc ltac:(lia)); lia).
      destruct (Z.eqb_spec k 1); [|lia]. destruct (none_finite xs ltac:(lia)) as (_ & _ & -> & ->). split; [done|lia].
  - assert (Et : top xs = m) by lia. rewrite Et. split; [f_equal; lia|lia].
Qed.

(** The only input with the greatest scale, others being left. *)
Definition sole_top (x : number) (xs : list number) : Prop := exists q d, x = Fin q d /\ 0 < d /\ top xs < d /\ 0 < count is_fin xs.

Lemma discard_holds st n x xs : holds st (x :: xs) -> denotes n x -> Z.of_nat (length xs) < 2 ^ 63 - 1 ->
  exists r, do_numeric_discard st n = Ok r
  /\ match r with
     | Some st' => holds st' xs /\ calcSumX2 st' = calcSumX2 st /\ ~ sole_top x xs
     | None => sole_top x xs
     end.
Proof.
  intros H D Hl. unfold do_numeric_discard. destruct (kinds n x D) as (-> & _). destruct (is_fin x) eqn:Hx; cbn [negb].
  2:{ destruct (proj2 (count_special_spec st n x xs D Hx Hl) H) as (st' & -> & H' & Ec). eexists. split; [done|]. split; [done|]. split; [done|]. intros (q & d & -> & _). done. }
  destruct x as [| | |q d]; try done. clear Hx. apply fin_parts in D as (N & Q & <- & B & M). set (X := init_var_from_num n) in *. destruct st as [c k s s2 m mc nan pinf ninf].
  destruct H as [H1 H2 H3 H4 H5 H6 H7 H8 H9]; fields in H2 H3 H4 H5 H6 H7 H8 H9. rewrite count_cons in H2, H3, H4, H5. cbn [is_fin is_nan is_pinf is_ninf] in H2, H3, H4, H5. pose proof (count_nonneg is_fin xs) as Hk.
  rewrite <- H6 in H7. pose proof (discard_scale m mc k (dscale X) q xs ltac:(lia) H6 H7 H2) as Hsc. destruct (if dscale X =? m then _ else _) as [[m' mc']|]; [|eexists; split; [done|]; by exists q, (dscale X)].
  destruct Hsc as [[= -> ->] Hmax]. cbn [total squares top] in H8, H9.
  assert (E : exists s' s2', (if 1 <? k then s <-! accum_sum_add s (set_sign (if sign X =? NUMERIC_POS then NUMERIC_NEG else NUMERIC_POS) X) ;; s2 <-! add_square c s2 X true ;; Ok (s, s2)
    else if negb (k - 1 =? 0) then Err "state->N == 0" else Ok (accum_sum_reset s, if c then accum_sum_reset s2 else s2)) = Ok (s', s2') /\ accum_ok s' (total xs) (top xs) /\ (c = true -> accum_ok s2' (squares xs) (2 * top xs))).
  { destruct (Z.ltb_spec 1 k) as [Hk1|Hk1].
    - specialize (Hmax Hk1). rewrite Hmax in H8, H9. set (Y := set_sign _ X). assert (HY : var_ok Y /\ (value Y == - q)%Q) by (destruct N as [[N1 N2] _]; split; [split; [done|unfold Y; destruct N2 as [-> | ->]; cbn; auto]|rewrite <- Q; unfold value, sgn, magnitude, Y; destruct N2 as [-> | ->]; cbn; ring]).
      destruct HY as [OY VY]. destruct (add_spec s _ _ Y H8 OY) as (s' & -> & Hs & _). cbn [res_bind]. exists s'. replace (Z.max (top xs) (dscale Y)) with (top xs) in Hs by (change (dscale Y) with (dscale X); lia).
      assert (Hs' : accum_ok s' (total xs) (top xs)) by (eapply accum_ok_ext; [|exact Hs]; rewrite VY; ring). destruct c; [|by exists s2].
      destruct (add_square_spec s2 _ _ X true (H9 eq_refl) N ltac:(lia) M) as (s2' & -> & Hs2). exists s2'. split; [done|]. split; [done|]. intros _. replace (Z.max (top xs) (dscale X)) with (top xs) in Hs2 by lia. eapply accum_ok_ext; [|exact Hs2]. rewrite Q. ring.
    - replace (k - 1) with 0 by lia. cbn [Z.eqb negb]. destruct (none_finite xs ltac:(lia)) as (T1 & T2 & -> & _). eexists _, _. split; [done|]. split; [eapply accum_ok_ext; [symmetry; exact T1|]; by eapply reset_spec|].
      intros Ec. destruct c; [|done]. eapply accum_ok_ext; [symmetry; exact T2|]. eapply reset_spec. by apply H9. }
  destruct E as (s' & s2' & -> & Hs & Hs2). cbn [res_bind]. eexists. split; [done|]. split; [|split; [done|]].
  - split; fields; try done; try lia. by inversion H1.
  - intros (q' & d' & [= _ E] & T1 & T2 & T3). change (NUMERIC_DSCALE n) with (dscale X) in E.
    specialize (Hmax ltac:(lia)). lia.
Qed.

(** ** Combination *)

Lemma combine_scale m mc m' mc' xs ys : m = top xs -> mc = count (has_scale (top xs)) xs -> m' = top ys -> mc' = count (has_scale (top ys)) ys -> Z.of_nat (length xs) + Z.of_nat (length ys) < 2 ^ 63 ->
  (if m <? m' then Ok (m', mc') else if m' =? m then mc <-! int64 (mc + mc') ;; Ok (m, mc) else Ok (m, mc)) = Ok (top (xs ++ ys), count (has_scale (top (xs ++ ys))) (xs ++ ys)).
Proof.
  intros -> -> -> -> Hl. rewrite top_app, count_app. pose proof (count_le (has_scale (top xs)) xs). pose proof (count_le (has_scale (top ys)) ys). pose proof (count_nonneg (has_scale (top xs)) xs). pose proof (count_nonneg (has_scale (top ys)) ys).
  destruct (Z.ltb_spec (top xs) (top ys)) as [Hxy|Hxy]; [replace (Z.max (top xs) (top ys)) with (top ys) by lia; by rewrite (above_top _ xs) by lia|]. replace (Z.max (top xs) (top ys)) with (top xs) by lia.
  destruct (Z.eqb_spec (top ys) (top xs)) as [E|E]; [rewrite E in *; by rewrite int64_ok by lia|]. rewrite (above_top _ ys) by lia. by rewrite Z.add_0_r.
Qed.

(** What the inputs of a second state add, with the sums [s] and [s2]. *)
Lemma holds_app c n s s2 m mc nan pinf ninf c' n' s' s2' m' mc' nan' pinf' ninf' xs ys t1 t2 :
  holds (mk_agg c n s s2 m mc nan pinf ninf) xs -> holds (mk_agg c' n' s' s2' m' mc' nan' pinf' ninf') ys ->
  accum_ok t1 (total xs + total ys) (Z.max (top xs) (top ys)) -> (c = true -> accum_ok t2 (squares xs + squares ys) (2 * Z.max (top xs) (top ys))) ->
  holds (mk_agg c (n + n') t1 t2 (top (xs ++ ys)) (count (has_scale (top (xs ++ ys))) (xs ++ ys)) (nan + nan') (pinf + pinf') (ninf + ninf')) (xs ++ ys).
Proof.
  intros [X1 X2 X3 X4 X5 X6 X7 X8 X9] [Y1 Y2 Y3 Y4 Y5 Y6 Y7 Y8 Y9] T1 T2. fields in X2 X3 X4 X5 Y2 Y3 Y4 Y5. split; fields; rewrite ?count_app, ?top_app; try done; try lia; [by apply Forall_app|eapply accum_ok_ext; [|exact T1]; by rewrite total_of_app|].
  intros E. eapply accum_ok_ext; [|by apply T2]. by rewrite squares_app.
Qed.

Lemma combine_holds calc st st' xs ys : holds st xs -> holds st' ys -> calcSumX2 st = calc -> calcSumX2 st' = calc -> Z.of_nat (length xs) + Z.of_nat (length ys) < 2 ^ 63 ->
  exists r r', combine_with calc (Some st) (Some st') = Ok (Some r, Some r') /\ holds r (xs ++ ys) /\ holds r' ys /\ calcSumX2 r = calc.
Proof.
  intros H H' Ec Ec' Hl. destruct st as [c n s s2 m mc nan pinf ninf], st' as [c' n' s' s2' m' mc' nan' pinf' ninf']. cbn in Ec, Ec'. subst c c'.
  pose proof H as [X1 X2 X3 X4 X5 X6 X7 X8 X9]. pose proof H' as [Y1 Y2 Y3 Y4 Y5 Y6 Y7 Y8 Y9]. fields in X2 X3 X4 X5 X6 X7 X8 X9. fields in Y2 Y3 Y4 Y5 Y6 Y7 Y8 Y9. cbn [combine_with].
  assert (Hi : forall f, 0 <= count f xs + count f ys < 2 ^ 63) by (intros f; pose proof (count_le f xs); pose proof (count_le f ys); pose proof (count_nonneg f xs); pose proof (count_nonneg f ys); lia).
  rewrite !int64_ok by (rewrite ?X2, ?X3, ?X4, ?X5, ?Y2, ?Y3, ?Y4, ?Y5; apply Hi). cbn [res_bind]. destruct (Z.ltb_spec 0 n') as [Hn|Hn].
  - rewrite (combine_scale m mc m' mc' xs ys) by done. cbn [res_bind]. destruct (combine_spec s _ _ s' _ _ X8 Y8) as (t & t' & -> & T & T'). cbn [res_bind].
    assert (E2 : exists t2 t2', (if calc then accum_sum_combine s2 s2' else Ok (s2, s2')) = Ok (t2, t2') /\ (calc = true -> accum_ok t2 (squares xs + squares ys) (2 * Z.max (top xs) (top ys)) /\ accum_ok t2' (squares ys) (2 * top ys))).
    { destruct calc; [|by eexists _, _]. destruct (combine_spec s2 _ _ s2' _ _ (X9 eq_refl) (Y9 eq_refl)) as (t2 & t2' & -> & T2 & T2'). exists t2, t2'. split; [done|]. intros _. split; [|done]. replace (2 * Z.max (top xs) (top ys)) with (Z.max (2 * top xs) (2 * top ys)) by lia. done. }
    destruct E2 as (t2 & t2' & -> & T2). cbn [res_bind]. eexists _, _. split; [done|]. split; [eapply holds_app; [exact H|exact H'|done|intros E; by apply T2]|]. split; [|done]. split; try done. fields. intros E. by apply T2.
  - destruct (none_finite ys) as (T1 & T2 & Et & Hc); [pose proof (count_nonneg is_fin ys); lia|]. eexists _, _. split; [done|]. split; [|done].
    pose proof (holds_app _ _ _ _ _ _ _ _ _ _ _ _ _ _ _ _ _ _ xs ys s s2 H H') as Happ. rewrite top_app, count_app, Hc, Et, Z.max_l, Z.add_0_r in Happ by apply top_nonneg. rewrite X6, X7.
    apply Happ; [eapply accum_ok_ext; [|exact X8]; rewrite T1; ring|]. intros E. eapply accum_ok_ext; [|by apply X9]. rewrite T2. ring.
Qed.

(** The first state of a combination is a copy. *)
Lemma copy_holds calc st ys : holds st ys -> calcSumX2 st = calc -> exists r, combine_with calc None (Some st) = Ok (Some r, Some st) /\ holds r ys /\ calcSumX2 r = calc.
Proof.
  intros H Ec. destruct st as [c n s s2 m mc nan pinf ninf]. cbn in Ec. subst c. eexists. split; [done|]. split; [|done]. destruct H as [Y1 Y2 Y3 Y4 Y5 Y6 Y7 Y8 Y9]. split; fields; try done; [by apply copy_spec|]. intros E. destruct calc; [|done]. by apply copy_spec, Y9.
Qed.
