(* ===== verification/NumericAggProps.v ===== *)
(** The theorems on sums and aggregates of numeric values, each with an application to
    concrete values. *)

From S2P Require Import Prelude Numeric NumericArith NumericRound NumericMul NumericPack NumericNum NumericTimes NumericInt NumericProps NumericFun NumericBased NumericDiv NumericDivide NumericDivProps NumericAccum NumericAccumSpec NumericAgg.
Local Open Scope Z_scope.
Local Open Scope pg_scope.

(** ** Sums of special values *)

(** The sum of all inputs. *)
Definition sum_of (xs : list number) : number := foldr plus (Fin 0 0) xs.

Lemma counted c : 0 <= c -> (0 <? 1 + c) = true.
Proof. intros H. destruct (Z.ltb_spec 0 (1 + c)); [done|lia]. Qed.

Lemma sum_of_counts xs : sum_of xs =
  if 0 <? count is_nan xs then NaN
  else if (0 <? count is_pinf xs) && (0 <? count is_ninf xs) then NaN
  else if 0 <? count is_pinf xs then PInf else if 0 <? count is_ninf xs then NInf else Fin (total xs) (top xs).
Proof.
  induction xs as [|x xs IH]; [done|]. unfold sum_of in *. cbn [foldr]. rewrite IH, !count_cons. pose proof (count_nonneg is_nan xs). pose proof (count_nonneg is_pinf xs). pose proof (count_nonneg is_ninf xs).
  destruct x; cbn [is_nan is_pinf is_ninf]; rewrite ?Z.add_0_l, ?counted by done; cbn [andb total top]; destruct (0 <? count is_nan xs); try done; destruct (0 <? count is_pinf xs), (0 <? count is_ninf xs); done.
Qed.

Lemma special_total_spec st xs : holds st xs ->
  match special_total st with Some r => is_fin (sum_of xs) = false /\ gives r (sum_of xs) | None => sum_of xs = Fin (total xs) (top xs) end.
Proof.
  intros [_ _ C1 C2 C3 _ _ _ _]. unfold special_total. rewrite C1, C2, C3, sum_of_counts. destruct (0 <? count is_nan xs); [split; [done|apply gives_special; set_solver]|].
  destruct (0 <? count is_pinf xs), (0 <? count is_ninf xs); cbn [andb]; try done; (split; [done|apply gives_special; set_solver]).
Qed.

Lemma total_count st xs : holds st xs -> NA_TOTAL_COUNT st = Z.of_nat (length xs).
Proof.
  intros [_ C0 C1 C2 C3 _ _ _ _]. unfold NA_TOTAL_COUNT. rewrite C0, C1, C2, C3. clear. induction xs as [|x xs IH]; [done|]. rewrite !count_cons. destruct x; cbn [is_fin is_nan is_pinf is_ninf length]; lia.
Qed.

(** ** Results *)

(** The state holds the inputs, and sums of squares if [calc]. *)
Definition keeps (calc : bool) (st : NumericAggState) (xs : list number) : Prop := holds st xs /\ calcSumX2 st = calc.

(** The call answers with a value that stands for [y], and the state still holds the
    inputs. *)
Definition answers (calc : bool) (r : res (option NumericAggState * option Numeric)) (xs : list number) (y : number) : Prop :=
  exists rn st, r = (n <-! rn ;; Ok (Some st, Some n)) /\ gives rn y /\ keeps calc st xs.

Lemma keeps_sums calc st xs s s2 : keeps calc st xs -> accum_ok s (total xs) (top xs) -> (calc = true -> accum_ok s2 (squares xs) (2 * top xs)) -> keeps calc (set_sumX2 s2 (set_sumX s st)) xs.
Proof. intros [[] <-] H1 H2. by split. Qed.

Lemma keeps_sum calc st xs s : keeps calc st xs -> accum_ok s (total xs) (top xs) -> keeps calc (set_sumX s st) xs.
Proof. intros [[] <-] H1. by split. Qed.

Lemma sum_packs v q d xs : normal v -> (value v == total xs)%Q -> dscale v = top xs -> q = total xs -> d = top xs -> Forall placed xs -> packs (make_result v) q d.
Proof.
  intros [Hv _] E D -> -> Hp. eapply packs_ext; [exact E|]. apply make_result_packs; [done|done|apply top_nonneg|]. apply multiple_value. rewrite E. by apply total_multiple.
Qed.

(** What is done with the packed sum of finite inputs. *)
Lemma finish_total_spec calc st xs f : keeps calc st xs -> xs <> [] ->
  match sum_of xs with
  | Fin q d => exists rs st', packs rs q d /\ keeps calc st' xs /\ finish_total (Some st) f = (sum <-! rs ;; r <-! f sum st ;; Ok (Some st', Some r))
  | y => answers calc (finish_total (Some st) f) xs y
  end.
Proof.
  intros Hk Hne. pose proof (proj1 Hk) as H. pose proof (total_count st xs H) as Hc. pose proof (special_total_spec st xs H) as Hs. cbn [finish_total]. rewrite Hc. destruct (Z.eqb_spec (Z.of_nat (length xs)) 0) as [E|_]; [destruct xs; [done|simpl in E; lia]|].
  destruct (special_total st) as [r|].
  - destruct Hs as [Hf Hg]. destruct (sum_of xs); try done; by exists r, st.
  - rewrite Hs. destruct (final_spec _ _ _ (h_sum _ _ H)) as (s' & v & -> & Ha & Nv & Vv & Dv). cbn [res_bind]. exists (make_result v), (set_sumX s' st). split; [eapply sum_packs; try done; apply H|]. split; [by apply keeps_sum|done].
Qed.

Lemma no_input st f : holds st [] -> finish_total (Some st) f = Ok (Some st, None).
Proof. intros H. cbn [finish_total]. rewrite (total_count st [] H). done. Qed.

Lemma all_finite xs q d : sum_of xs = Fin q d -> q = total xs /\ d = top xs /\ count is_fin xs = Z.of_nat (length xs) /\ Forall (fun x => is_fin x = true) xs.
Proof.
  rewrite sum_of_counts. pose proof (count_nonneg is_nan xs). pose proof (count_nonneg is_pinf xs). pose proof (count_nonneg is_ninf xs).
  destruct (Z.ltb_spec 0 (count is_nan xs)) as [|C1]; [done|]. destruct (Z.ltb_spec 0 (count is_pinf xs)) as [|C2], (Z.ltb_spec 0 (count is_ninf xs)) as [|C3]; cbn [andb]; try done. intros [= <- <-]. split; [done|]. split; [done|].
  assert (E : count is_nan xs = 0 /\ count is_pinf xs = 0 /\ count is_ninf xs = 0) by lia. clear -E. induction xs as [|x xs IH]; [by split|]. rewrite !count_cons in *. pose proof (count_nonneg is_nan xs). pose proof (count_nonneg is_pinf xs). pose proof (count_nonneg is_ninf xs).
  destruct x; cbn [is_fin is_nan is_pinf is_ninf length] in *; try lia. destruct (IH ltac:(lia)) as [-> IH2]. split; [lia|by constructor].
Qed.

Lemma nonzero_length (xs : list number) : xs <> [] -> Qeq_bool (inject_Z (Z.of_nat (length xs))) 0 = false.
Proof. intros Hne. apply not_true_iff_false. rewrite Qeq_bool_iff. unfold Qeq. cbn. destruct xs; [done|cbn [length]; lia]. Qed.

(** The average of the inputs, unless their sum does not fit. *)
Lemma avg_refines h cells calc st xs : (5 <= length cells)%nat -> keeps calc st xs -> xs <> [] -> Z.of_nat (length xs) < 2 ^ 63 ->
  match sum_of xs with
  | Fin q d => (in_format q d /\ exists s, good_scale s (q / inject_Z (Z.of_nat (length xs))) d 0 /\ answers calc (numeric_avg h cells (Some st)) xs (Fin (half_away (q / inject_Z (Z.of_nat (length xs))) s) s))
               \/ (~ in_format q d /\ numeric_avg h cells (Some st) = Err "value overflows numeric format")
  | y => answers calc (numeric_avg h cells (Some st)) xs y
  end.
Proof.
  intros Hc Hk Hne Hl. unfold numeric_avg. set (f := fun (sum : Numeric) (st : NumericAggState) => _). pose proof (finish_total_spec calc st xs f Hk Hne) as Hf. destruct (sum_of xs) as [| | |q d] eqn:Es; try done.
  destruct (all_finite _ _ _ Es) as (_ & _ & Hn & _). destruct Hf as (rs & st' & Hp & Hk' & ->). destruct Hp as [[Hin (n & -> & D1 & D2 & D3)]|[Hin ->]]; [left|by right]. split; [done|]. cbn [res_bind].
  destruct (of_int64_refines cells (Z.of_nat (length xs)) Hc) as (m & Em & Dm); [unfold int64_range; lia|]. assert (Ef : f n st = numeric_div h n m) by (unfold f; rewrite (h_N _ _ (proj1 Hk)), Hn, Em; done).
  destruct (div_refines h n m q _ d 0 (conj D1 (conj D2 D3)) Dm (nonzero_length xs Hne)) as (s & Hs & _ & Hg). exists s. split; [done|]. exists (numeric_div h n m), st'. split; [|done]. by rewrite Ef.
Qed.

(** ** The variance *)

(** The sum of squared deviations from [m], and the variance. *)
Fixpoint deviations (m : Q) (xs : list number) : Q :=
  match xs with [] => 0 | Fin q _ :: xs => (q - m) * (q - m) + deviations m xs | _ :: xs => deviations m xs end.

Definition variance (sample : bool) (xs : list number) : Q :=
  let n := Z.of_nat (length xs) in (deviations (total xs / inject_Z n) xs / inject_Z (if sample then n - 1 else n))%Q.

Lemma deviations_nonneg m xs : (0 <= deviations m xs)%Q.
Proof. induction xs as [|x xs IH]; cbn [deviations]; [done|]. destruct x as [| | |q d]; try done. set (e := (q - m)%Q). assert (0 <= e * e)%Q by nra. lra. Qed.

Lemma deviations_expand m xs : (deviations m xs == squares xs - 2 * m * total xs + inject_Z (count is_fin xs) * (m * m))%Q.
Proof.
  induction xs as [|x xs IH]; [cbn [deviations squares total]; change (inject_Z (count is_fin [])) with 0%Q; ring|]. rewrite count_cons. cbn [deviations squares total]. destruct x; cbn [is_fin]; rewrite ?Z.add_0_l; try exact IH. rewrite IH, inject_Z_plus. change (inject_Z 1) with 1%Q. ring.
Qed.

(** The numerator that the code computes. *)
Lemma numerator xs n : count is_fin xs = n -> 0 < n -> (inject_Z n * squares xs - total xs * total xs == inject_Z n * deviations (total xs / inject_Z n) xs)%Q.
Proof. intros E Hn. rewrite deviations_expand, E. field. intros H. unfold Qeq in H. cbn in H. lia. Qed.

Lemma const_one_led : led const_one.
Proof. split; split; [by repeat constructor|by left|by left|done]. Qed.

Lemma const_zero_led : led const_zero.
Proof. split; split; [constructor|by left|by right|done]. Qed.

Lemma integer_multiple v z : (value v == inject_Z z)%Q -> multiple (magnitude v) (tpow (- 0)).
Proof. intros E. apply multiple_value. rewrite E. exists z. change (tpow (- 0)) with 1%Q. ring. Qed.

(** The number of inputs times the sum of squares, less the square of the sum. *)
Lemma numerator_var vN v1 v2 n xs : var_ok vN -> (value vN == inject_Z n)%Q -> ends vN 0 -> normal v1 -> (value v1 == total xs)%Q -> dscale v1 = top xs -> normal v2 -> (value v2 == squares xs)%Q -> Forall placed xs ->
  yields (vsumX <-! mul_var v1 v1 (dscale v1 * 2) ;; vsumX2 <-! mul_var vN v2 (dscale v1 * 2) ;; sub_var vsumX2 vsumX) (inject_Z n * squares xs - total xs * total xs) (2 * top xs).
Proof.
  intros HN EN Hend N1 E1 D1 N2 E2 Hp. pose proof (top_nonneg xs) as Ht. assert (M1 : multiple (magnitude v1) (tpow (- top xs))) by (apply multiple_value; rewrite E1; by apply total_multiple).
  assert (M2 : multiple (magnitude v2) (tpow (- (2 * top xs)))) by (apply multiple_value; rewrite E2; by apply squares_multiple).
  destruct (mul_var_exact v1 v1 (top xs) (top xs) N1 N1 Ht Ht M1 M1) as (a & Ea & Na & Va & Da & _). destruct (mul_var_ends vN v2 0 (2 * top xs) HN (proj1 N2) ltac:(lia) ltac:(lia) Hend (digits_end v2 (2 * top xs) N2 ltac:(lia) M2) (integer_multiple _ _ EN) M2) as (b & Eb & Nb & Vb & Db & _).
  replace (dscale v1 * 2) with (top xs + top xs) by lia. rewrite Ea. replace (top xs + top xs) with (0 + 2 * top xs) by lia. rewrite Eb. cbn [res_bind]. destruct (sub_var_exact b a (normal_led _ Nb) (normal_led _ Na)) as (r & -> & Nr & Vr & Dr & Rr). exists r. split; [done|]. split; [done|].
  split; [rewrite Vr, Va, Vb, E1, E2, EN; reflexivity|]. split; [lia|done].
Qed.

(** Rounding the quotient of a positive numerator. *)
Lemma variance_quotient h vnum vden num den d : normal vnum -> (value vnum == num)%Q -> dscale vnum = d -> normal vden -> (value vden == den)%Q -> (0 < den)%Q -> dscale vden = 0 ->
  exists s, good_scale s (num / den) d 0 /\ packs (v <-! div_var h vnum vden (select_div_scale vnum vden) true ;; make_result v) (half_away (num / den) s) s.
Proof.
  intros N1 E1 D1 N2 E2 Hpos D2. assert (Hne : digits vden <> []) by (intros E; unfold value in E2; rewrite (magnitude_empty _ E) in E2; lra). pose proof (select_div_scale_spec _ _ N1 N2 Hne) as Hg. rewrite D1, D2 in Hg. set (s := select_div_scale _ _) in *. clearbody s.
  exists s. split; [eapply good_scale_ext; [|exact Hg]; by rewrite E1, E2|]. apply (divided_packs _ _ _ num den s true (div_var_spec h _ _ s true (proj1 N1) (proj1 N2) (first_nonzero _ N2 Hne)) E1 E2). destruct Hg as [[Hg _] _ _ _]. exact Hg.
Qed.

(** The denominator is the number of inputs times itself, or less one. *)
Lemma denominator_var (sample : bool) vN vm n : led vN -> (value vN == inject_Z n)%Q -> ends vN 0 -> normal vm -> (value vm == inject_Z (n - 1))%Q ->
  yields (if sample then mul_var vN vm 0 else mul_var vN vN 0) (inject_Z n * inject_Z (if sample then n - 1 else n)) 0.
Proof.
  intros [LN _] EN Hend Nm Em. pose proof (integer_multiple _ _ EN) as M1. pose proof (integer_multiple _ _ Em) as M2.
  destruct sample; (eapply yields_ext; [|eapply (mul_var_ends _ _ 0 0); try done]); [by rewrite EN, Em|apply Nm|by apply digits_end|by rewrite EN].
Qed.

Lemma positive_Z n : 0 < n -> (0 < inject_Z n)%Q.
Proof. intros H. change 0%Q with (inject_Z 0). by rewrite <- Zlt_Qlt. Qed.

(** The packed variance of finite inputs: zero if they are all equal. *)
Lemma variance_result h (sample : bool) vN vm vnum n xs : led vN -> (value vN == inject_Z n)%Q -> ends vN 0 -> normal vm -> (value vm == inject_Z (n - 1))%Q -> n = Z.of_nat (length xs) -> (if sample then 1 else 0) < n -> count is_fin xs = n ->
  normal vnum -> (value vnum == inject_Z n * squares xs - total xs * total xs)%Q -> dscale vnum = 2 * top xs ->
  let r := if cmp_var vnum const_zero <=? 0 then make_result const_zero
           else vden <-! (if sample then mul_var vN vm 0 else mul_var vN vN 0) ;; v <-! div_var h vnum vden (select_div_scale vnum vden) true ;; make_result v in
  if Qeq_bool (variance sample xs) 0 then gives r (Fin 0 0) else exists s, good_scale s (variance sample xs) (2 * top xs) 0 /\ gives r (Fin (half_away (variance sample xs) s) s).
Proof.
  intros LN EN Hend Nm Em Hl Hn Hf Nnum Enum Dnum r. assert (Hn0 : 0 < n) by (destruct sample; lia). rewrite (numerator xs n Hf Hn0) in Enum. unfold variance. rewrite <- Hl. set (k := if sample then n - 1 else n). set (dev := deviations _ xs) in *.
  pose proof (positive_Z n Hn0) as Pn. assert (Pk : (0 < inject_Z k)%Q) by (apply positive_Z; unfold k; destruct sample; lia). assert (Hd : (0 <= dev)%Q) by apply deviations_nonneg.
  pose proof (cmp_var_exact vnum const_zero (normal_led _ Nnum) const_zero_led) as Hc. change (value const_zero) with 0%Q in Hc. unfold r. destruct (Qeq_bool (dev / inject_Z k) 0) eqn:Eq.
  - apply Qeq_bool_iff in Eq. assert (Ed : (dev == 0)%Q) by (rewrite <- (Qmult_div_r dev (inject_Z k)), Eq by lra; ring). rewrite Ed in Enum. destruct (Z.leb_spec (cmp_var vnum const_zero) 0) as [_|Hgt].
    + apply (make_result_packs const_zero 0); [split; [constructor|by left]|done|done|apply multiple_zero].
    + exfalso. destruct Hc as [[_ H]|[[E _]|[E _]]]; [|lia|lia]. rewrite Enum in H. lra.
  - apply Qeq_bool_neq in Eq. assert (Ed : (0 < dev)%Q) by (destruct (Qlt_le_dec 0 dev) as [|Hle]; [done|]; destruct Eq; assert (E : (dev == 0)%Q) by lra; rewrite E; unfold Qdiv; ring).
    destruct (Z.leb_spec (cmp_var vnum const_zero) 0) as [Hle|_]; [exfalso; destruct Hc as [[E _]|[[_ H]|[_ H]]]; [lia|rewrite Enum in H; nra|rewrite Enum in H; nra]|].
    destruct (denominator_var sample vN vm n LN EN Hend Nm Em) as (vden & -> & Nden & Eden & Dden & _). cbn [res_bind]. fold k in Eden.
    destruct (variance_quotient h vnum vden _ _ _ Nnum Enum Dnum Nden Eden ltac:(nra) Dden) as (s & Hs & Hp). assert (Ev : (inject_Z n * dev / (inject_Z n * inject_Z k) == dev / inject_Z k)%Q) by (field; lra).
    exists s. split; [by eapply good_scale_ext|]. eapply packs_ext; [|exact Hp]. apply half_away_proper; [exact Ev|done].
Qed.

Lemma variance_refines h cells sample st xs : (5 <= length cells)%nat -> keeps true st xs -> Z.of_nat (length xs) < 2 ^ 63 ->
  let r := variance_internal h cells sample (Some st) in
  if Z.of_nat (length xs) <=? (if sample then 1 else 0) then r = Ok (Some st, None)
  else if negb (is_fin (sum_of xs)) then answers true r xs NaN
  else if Qeq_bool (variance sample xs) 0 then answers true r xs (Fin 0 0)
  else exists s, good_scale s (variance sample xs) (2 * top xs) 0 /\ answers true r xs (Fin (half_away (variance sample xs) s) s).
Proof.
  intros Hc Hk Hl r. pose proof (proj1 Hk) as H. set (n := Z.of_nat (length xs)) in *. subst r. cbn [variance_internal]. rewrite (total_count st xs H). fold n.
  destruct (Z.leb_spec n (if sample then 1 else 0)) as [Hn|Hn].
  - replace ((n =? 0) || sample && (n <=? 1)) with true; [done|]. symmetry. apply orb_true_iff. destruct sample; [right; cbn [andb]; by apply Z.leb_le|left; apply Z.eqb_eq; lia].
  - replace ((n =? 0) || sample && (n <=? 1)) with false by (symmetry; apply orb_false_iff; split; [apply Z.eqb_neq; destruct sample; lia|destruct sample; [cbn [andb]; apply Z.leb_gt; lia|done]]).
    pose proof H as [Hp C0 C1 C2 C3 _ _ HX HX2]. rewrite C1, C2, C3. replace ((0 <? count is_nan xs) || (0 <? count is_pinf xs) || (0 <? count is_ninf xs)) with (negb (is_fin (sum_of xs))) by (rewrite sum_of_counts; destruct (0 <? count is_nan xs), (0 <? count is_pinf xs), (0 <? count is_ninf xs); done).
    destruct (sum_of xs) as [| | |q d] eqn:Es; cbn [is_fin negb]; try (exists (make_result const_nan), st; split; [done|]; split; [apply gives_special; set_solver|done]).
    destruct (all_finite _ _ _ Es) as (_ & _ & Hf & _). rewrite C0, Hf. fold n in Hf |- *. assert (Hn0 : 0 <= n < 2 ^ 63) by lia. destruct (int64_var cells n Hc Hn0) as (vN & -> & LN & EN & DN & WN). cbn [res_bind].
    destruct (final_spec _ _ _ HX) as (s1 & v1 & -> & A1 & N1 & V1 & D1). cbn [res_bind]. destruct (final_spec _ _ _ (HX2 (proj2 Hk))) as (s2 & v2 & -> & A2 & N2 & V2 & D2). cbn [res_bind].
    destruct (sub_var_exact vN const_one LN const_one_led) as (vm & -> & Nm & Vm & Dm & _). cbn [res_bind]. assert (Em : (value vm == inject_Z (n - 1))%Q) by (rewrite Vm, EN; unfold Z.sub; rewrite inject_Z_plus; reflexivity).
    assert (Hend : ends vN 0) by (unfold ends, DEC_DIGITS; lia). destruct (numerator_var vN v1 v2 n xs (proj1 LN) EN Hend N1 V1 D1 N2 V2 Hp) as (vnum & Enum & Nnum & Vnum & Dnum & _).
    destruct (mul_var v1 v1 _) as [a|]; [|done]. cbn [res_bind] in *. destruct (mul_var vN v2 _) as [b|]; [|done]. cbn [res_bind] in *. rewrite Enum. cbn [res_bind].
    pose proof (variance_result h sample vN vm vnum n xs LN EN Hend Nm Em eq_refl Hn Hf Nnum Vnum Dnum) as Hr. set (rn := if cmp_var vnum const_zero <=? 0 then _ else _) in *. cbv zeta in Hr.
    assert (Hkeep : keeps true (set_sumX2 s2 (set_sumX s1 st)) xs) by (by apply keeps_sums). destruct (Qeq_bool (variance sample xs) 0); [by exists rn, (set_sumX2 s2 (set_sumX s1 st))|].
    destruct Hr as (s & Hs & Hg). exists s. split; [done|]. by exists rn, (set_sumX2 s2 (set_sumX s1 st)).
Qed.

(** ** The states that calls make *)

(** The states that the transition, inverse, combine and final functions make, with the
    inputs they stand for; at most [2 ^ 63 - 1] inputs. *)
Inductive reached (calc : bool) : NumericAggState -> list number -> Prop :=
| reached_null st : accum_with calc None None = Ok st -> reached calc st []
| reached_first n x st : denotes n x -> accum_with calc None (Some n) = Ok st -> reached calc st [x]
| reached_skip st xs st' : reached calc st xs -> accum_with calc (Some st) None = Ok st' -> reached calc st' xs
| reached_accum st xs n x st' : reached calc st xs -> denotes n x -> Z.of_nat (length xs) < 2 ^ 63 - 1 -> accum_with calc (Some st) (Some n) = Ok st' -> reached calc st' (x :: xs)
| reached_discard st xs n x st' : reached calc st (x :: xs) -> denotes n x -> numeric_accum_inv (Some st) (Some n) = Ok (Some st') -> reached calc st' xs
| reached_order st xs ys : reached calc st xs -> xs ≡ₚ ys -> reached calc st ys
| reached_copy st xs r r' : reached calc st xs -> combine_with calc None (Some st) = Ok (Some r, Some r') -> reached calc r xs
| reached_combine st xs st' ys r r' : reached calc st xs -> reached calc st' ys -> Z.of_nat (length xs) + Z.of_nat (length ys) < 2 ^ 63 ->
    combine_with calc (Some st) (Some st') = Ok (Some r, Some r') -> reached calc r (xs ++ ys)
| reached_sum st xs st' o : reached calc st xs -> numeric_sum (Some st) = Ok (Some st', o) -> reached calc st' xs
| reached_avg h cells st xs st' o : (5 <= length cells)%nat -> reached calc st xs -> numeric_avg h cells (Some st) = Ok (Some st', o) -> reached calc st' xs
| reached_variance h cells sample st xs st' o : calc = true -> (5 <= length cells)%nat -> reached calc st xs -> variance_internal h cells sample (Some st) = Ok (Some st', o) -> reached calc st' xs.

Lemma total_state calc st xs f st' o : keeps calc st xs -> finish_total (Some st) f = Ok (Some st', o) -> keeps calc st' xs.
Proof.
  intros Hk. destruct (decide (xs = [])) as [->|Hne]; [rewrite (no_input st f (proj1 Hk)); by intros [= <- _]|]. pose proof (finish_total_spec calc st xs f Hk Hne) as Hf.
  destruct (sum_of xs); [by destruct Hf as ([?|?] & ? & -> & _ & ?); intros [= <- _]..|]. destruct Hf as ([sum|?] & st1 & _ & H1 & ->); cbn [res_bind]; [|done]. destruct (f sum st); cbn [res_bind]; [|done]. by intros [= <- _].
Qed.

Lemma answers_state calc r xs y st' o : answers calc r xs y -> r = Ok (Some st', o) -> keeps calc st' xs.
Proof. intros ([n|e] & st & -> & _ & H); cbn [res_bind]; [|done]. by intros [= <- _]. Qed.

Lemma variance_state h cells sample st xs st' o : (5 <= length cells)%nat -> keeps true st xs -> Z.of_nat (length xs) < 2 ^ 63 -> variance_internal h cells sample (Some st) = Ok (Some st', o) -> keeps true st' xs.
Proof.
  intros Hc Hk Hl E. pose proof (variance_refines h cells sample st xs Hc Hk Hl) as H. cbv zeta in H. destruct (_ <=? _); [rewrite E in H; by injection H as -> _|]. destruct (negb _); [by eapply answers_state|]. destruct (Qeq_bool _ 0); [by eapply answers_state|]. destruct H as (s & _ & H). by eapply answers_state.
Qed.

Lemma keeps_make calc : keeps calc (makeNumericAggState calc) [].
Proof. split; [apply make_holds|done]. Qed.

Lemma accum_keeps calc st n x xs : keeps calc st xs -> denotes n x -> Z.of_nat (length xs) < 2 ^ 63 - 1 -> exists st', accum_with calc (Some st) (Some n) = Ok st' /\ keeps calc st' (x :: xs).
Proof. intros [H E] D Hl. destruct (accum_holds st n x xs H D Hl) as (st' & E' & H' & Ec). exists st'. split; [exact E'|]. split; [done|congruence]. Qed.

Lemma reached_keeps calc st xs : reached calc st xs -> keeps calc st xs /\ Z.of_nat (length xs) < 2 ^ 63.
Proof.
  induction 1 as [st E|n x st D E|st xs st' _ IH E|st xs n x st' _ [IH _] D Hl E|st xs n x st' _ [[IH Ec] Hl] D E|st xs ys _ [[IH Ec] Hl] Hp|st xs r r' _ [[IH Ec] Hl] E|st xs st' ys r r' _ [[IH Ec] _] _ [[IH' Ec'] _] Hl E|st xs st' o _ [IH Hl] E|h cells st xs st' o _ _ [IH Hl] E|h cells sample st xs st' o -> Hc _ [IH Hl] E].
  - injection E as <-. split; [apply keeps_make|done].
  - destruct (accum_keeps calc _ n x [] (keeps_make calc) D ltac:(done)) as (st1 & E1 & H1). change (accum_with calc None (Some n)) with (accum_with calc (Some (makeNumericAggState calc)) (Some n)) in E. rewrite E1 in E. injection E as <-. done.
  - by injection E as <-.
  - destruct (accum_keeps calc st n x xs IH D Hl) as (st1 & E1 & H1). rewrite E1 in E. injection E as <-. split; [done|cbn [length]; lia].
  - cbn [length] in Hl. destruct (discard_holds st n x xs IH D ltac:(lia)) as (r & E1 & H1). cbn [numeric_accum_inv] in E. rewrite E1 in E. injection E as ->. split; [split; [by apply H1|destruct H1 as (_ & H1 & _); congruence]|lia].
  - split; [split; [by rewrite <- Hp|done]|]. by rewrite <- Hp.
  - destruct (copy_holds calc st xs IH Ec) as (r1 & E1 & H1 & H2). rewrite E1 in E. injection E as <- _. by split.
  - destruct (combine_holds calc st st' xs ys IH IH' Ec Ec' Hl) as (r1 & r2 & E1 & H1 & _ & H2). rewrite E1 in E. injection E as <- _. split; [by split|]. rewrite length_app. lia.
  - split; [by eapply total_state|done].
  - split; [by eapply total_state|done].
  - split; [by eapply variance_state|done].
Qed.

Lemma sum_refines calc st xs : keeps calc st xs -> xs <> [] -> answers calc (numeric_sum (Some st)) xs (sum_of xs).
Proof.
  intros Hk Hne. unfold numeric_sum. set (f := fun (sum : Numeric) (_ : NumericAggState) => Ok sum). pose proof (finish_total_spec calc st xs f Hk Hne) as Hf. destruct (sum_of xs) as [| | |q d]; try done. destruct Hf as (rs & st' & Hp & Hk' & ->). exists rs, st'. split; [by destruct rs|done].
Qed.

(** ** Sequences of additions *)

Definition add_all (a : NumericSumAccum) (vs : list NumericVar) : res NumericSumAccum := fold_left (fun r v => a <-! r ;; accum_sum_add a v) vs (Ok a).
Definition values_sum (vs : list NumericVar) : Q := foldr (fun v q => (value v + q)%Q) 0%Q vs.
Definition values_scale (vs : list NumericVar) : Z := foldr (fun v d => Z.max (dscale v) d) 0 vs.

Lemma values_scale_nonneg vs : 0 <= values_scale vs.
Proof. induction vs as [|v vs IH]; cbn; [done|]. fold (values_scale vs). lia. Qed.

Lemma add_all_spec vs : Forall var_ok vs -> forall a q d, accum_ok a q d -> 0 <= d -> exists a', add_all a vs = Ok a' /\ accum_ok a' (q + values_sum vs) (Z.max d (values_scale vs)).
Proof.
  unfold add_all. induction 1 as [|v vs Hv _ IH]; intros a q d Ha Hd; cbn [fold_left values_sum values_scale foldr].
  - exists a. split; [done|]. rewrite Z.max_l by done. eapply accum_ok_ext; [|exact Ha]. ring.
  - fold (values_sum vs) (values_scale vs). cbn [res_bind]. destruct (add_spec a q d v Ha Hv) as (a1 & -> & H1 & _). destruct (IH a1 _ _ H1 ltac:(lia)) as (a2 & -> & H2). exists a2. split; [done|]. rewrite Z.max_assoc. eapply accum_ok_ext; [|exact H2]. ring.
Qed.

(** ** Sample states *)

Definition two_values : NumericAggState := Eval vm_compute in
  match (st <-! numeric_accum None (Some num_12_5) ;; numeric_accum (Some st) (Some num_m0_05)) with Ok st => st | Err _ => makeNumericAggState true end.

Lemma two_values_reached : reached true two_values [Fin (- (1 # 20)) 2; Fin (25 # 2) 1].
Proof.
  eapply reached_accum; [eapply (reached_first true num_12_5); [apply num_12_5_ok|vm_compute; reflexivity]|apply num_m0_05_ok|done|vm_compute; reflexivity].
Qed.

(** ** Theorems *)

(** C20: The sum accumulator is exact for any number of values in any order of signs,
    weights and scales: no digit overflows an [int32] although carries are propagated only
    once in 9999 additions, the digit reserved for the carry is free whenever a carry may
    come, nothing is written outside the arrays, and the final value is the sum with the
    greatest scale. *)
Theorem accumulator_exact vs : Forall var_ok vs ->
  exists a a' v, add_all empty_accum vs = Ok a /\ accum_sum_final a = Ok (a', v) /\ normal v /\ (value v == values_sum vs)%Q /\ dscale v = values_scale vs.
Proof.
  intros H. destruct (add_all_spec vs H _ _ _ empty_accum_ok ltac:(done)) as (a & E & Ha). destruct (final_spec _ _ _ Ha) as (a' & v & Ef & _ & Nv & Vv & Dv). exists a, a', v. split; [done|]. split; [done|]. split; [done|].
  split; [rewrite Vv; ring|]. rewrite Dv. pose proof (values_scale_nonneg vs). lia.
Qed.

Lemma accumulator_exact_witness :
  exists a a' v, add_all empty_accum [mk_var [] [9999; 9999] 0 NUMERIC_POS 4; mk_var [] [1] (-1) NUMERIC_POS 4; mk_var [] [5] 3 NUMERIC_NEG 0] = Ok a
  /\ accum_sum_final a = Ok (a', v) /\ dscale v = 4 /\ sign v = NUMERIC_NEG /\ digits v = [4; 9999; 9999].
Proof.
  destruct (accumulator_exact [mk_var [] [9999; 9999] 0 NUMERIC_POS 4; mk_var [] [1] (-1) NUMERIC_POS 4; mk_var [] [5] 3 NUMERIC_NEG 0]) as (a & a' & v & E1 & E2 & _ & _ & D).
  - repeat (apply Forall_cons; split); [split; [repeat constructor; discriminate|by left]..|split; [repeat constructor; discriminate|by right]|constructor].
  - exists a, a', v. split; [exact E1|]. split; [exact E2|]. split; [exact D|]. vm_compute in E1. injection E1 as <-. vm_compute in E2. by injection E2 as _ <-.
Defined.

(** C21: From every state that aggregate calls make, a value can be added, states can be
    combined, and an input can be removed, unless it is the only one with the greatest
    scale and others are left: then the inverse transition says that it cannot be done.
    No counter overflows for fewer than 2^63 inputs, and no call fails. *)
Theorem aggregate_transitions calc st xs : reached calc st xs ->
  (forall n x, denotes n x -> Z.of_nat (length xs) < 2 ^ 63 - 1 -> exists st', accum_with calc (Some st) (Some n) = Ok st' /\ reached calc st' (x :: xs))
  /\ (forall n x ys, xs ≡ₚ x :: ys -> denotes n x ->
      exists r, numeric_accum_inv (Some st) (Some n) = Ok r /\ match r with Some st' => reached calc st' ys /\ ~ sole_top x ys | None => sole_top x ys end)
  /\ (forall st' ys, reached calc st' ys -> Z.of_nat (length xs) + Z.of_nat (length ys) < 2 ^ 63 ->
      exists r r', combine_with calc (Some st) (Some st') = Ok (Some r, Some r') /\ reached calc r (xs ++ ys)).
Proof.
  intros H. destruct (reached_keeps _ _ _ H) as [Hk Hl]. split; [|split].
  - intros n x D Hlen. destruct (accum_keeps calc st n x xs Hk D Hlen) as (st' & E & _). exists st'. split; [done|]. by eapply reached_accum.
  - intros n x ys Hp D. pose proof (reached_order _ _ _ _ H Hp) as H1. destruct (reached_keeps _ _ _ H1) as [[Hk1 _] Hl1]. cbn [length] in Hl1. destruct (discard_holds st n x ys Hk1 D ltac:(lia)) as (r & E & Hr). exists r. split; [exact E|].
    destruct r as [st'|]; [|done]. split; [|apply Hr]. eapply reached_discard; [exact H1|exact D|exact E].
  - intros st' ys H' Hlen. destruct (reached_keeps _ _ _ H') as [[Hk' Ec'] _], Hk as [Hk Ec]. destruct (combine_holds calc st st' xs ys Hk Hk' Ec Ec' Hlen) as (r & r' & E & _). exists r, r'. split; [done|]. by eapply reached_combine.
Qed.

Lemma aggregate_transitions_witness :
  (exists st', accum_with true (Some two_values) (Some num_12_5) = Ok st' /\ reached true st' [Fin (25 # 2) 1; Fin (- (1 # 20)) 2; Fin (25 # 2) 1])
  /\ (exists r, numeric_accum_inv (Some two_values) (Some num_m0_05) = Ok r /\ r = None).
Proof.
  destruct (aggregate_transitions true two_values _ two_values_reached) as (H1 & H2 & _). split.
  - apply H1; [exact num_12_5_ok|reflexivity].
  - destruct (H2 num_m0_05 _ [Fin (25 # 2) 1] ltac:(reflexivity) num_m0_05_ok) as (r & E & _). exists r. split; [exact E|]. vm_compute in E. by injection E as <-.
Defined.

(** C19: Whatever additions, removals and combinations made a state, numeric_sum gives the
    exact sum of the inputs it stands for, with their greatest scale, and numeric_avg that
    sum divided by their number and rounded half away from zero, with at least 16
    significant digits; special inputs follow the rules of addition; no input gives NULL;
    and the state stands for the same inputs afterwards. *)
Theorem aggregate_sum_avg h cells calc st xs : (5 <= length cells)%nat -> reached calc st xs ->
  let n := inject_Z (Z.of_nat (length xs)) in
  if decide (xs = []) then numeric_sum (Some st) = Ok (Some st, None) /\ numeric_avg h cells (Some st) = Ok (Some st, None)
  else answers calc (numeric_sum (Some st)) xs (sum_of xs)
       /\ match sum_of xs with
          | Fin q d => (in_format q d /\ exists s, good_scale s (q / n) d 0 /\ answers calc (numeric_avg h cells (Some st)) xs (Fin (half_away (q / n) s) s))
                       \/ (~ in_format q d /\ numeric_avg h cells (Some st) = Err "value overflows numeric format")
          | y => answers calc (numeric_avg h cells (Some st)) xs y
          end.
Proof.
  intros Hc [Hk Hl]%reached_keeps n. case_decide as Hx; [subst xs; split; by apply no_input, Hk|]. split; [by apply sum_refines|by apply avg_refines].
Qed.

Lemma aggregate_sum_avg_witness :
  answers true (numeric_sum (Some two_values)) [Fin (- (1 # 20)) 2; Fin (25 # 2) 1] (Fin (- (1 # 20) + ((25 # 2) + 0)) 2)
  /\ (exists st, numeric_avg true (replicate 5 0) (Some two_values) = Ok (Some st, Some (mk_numeric 0x8800 0 [6; 2250]))).
Proof.
  split; [|eexists; vm_compute; reflexivity]. exact (proj1 (aggregate_sum_avg true (replicate 5 0) true two_values _ (le_n 5) two_values_reached)).
Defined.

(** numeric_var_samp and numeric_var_pop give the variance of the inputs, the sum of
    the squared deviations from their mean divided by their number (or one less), rounded
    half away from zero with at least 16 significant digits; fewer than two inputs (or
    one) give NULL, special inputs not-a-number; no roundoff makes the numerator
    negative. *)
Theorem aggregate_variance h cells (sample : bool) st xs : (5 <= length cells)%nat -> reached true st xs ->
  let r := (if sample then numeric_var_samp else numeric_var_pop) h cells (Some st) in
  if Z.of_nat (length xs) <=? (if sample then 1 else 0) then r = Ok (Some st, None)
  else if negb (is_fin (sum_of xs)) then answers true r xs NaN
  else if Qeq_bool (variance sample xs) 0 then answers true r xs (Fin 0 0)
  else exists s, good_scale s (variance sample xs) (2 * top xs) 0 /\ answers true r xs (Fin (half_away (variance sample xs) s) s).
Proof.
  intros Hc [Hk Hl]%reached_keeps. destruct sample; [exact (variance_refines h cells true st xs Hc Hk Hl)|exact (variance_refines h cells false st xs Hc Hk Hl)].
Qed.

Lemma aggregate_variance_witness :
  (exists s, good_scale s (variance false [Fin (- (1 # 20)) 2; Fin (25 # 2) 1]) 4 0
   /\ answers true (numeric_var_pop true (replicate 5 0) (Some two_values)) [Fin (- (1 # 20)) 2; Fin (25 # 2) 1] (Fin (half_away (variance false [Fin (- (1 # 20)) 2; Fin (25 # 2) 1]) s) s))
  /\ (exists st, numeric_var_pop true (replicate 5 0) (Some two_values) = Ok (Some st, Some (mk_numeric 0x8800 0 [39; 3756; 2500]))).
Proof.
  split; [|eexists; vm_compute; reflexivity]. exact (aggregate_variance true (replicate 5 0) false two_values _ (le_n 5) two_values_reached).
Defined.
