(* ===== verification/Dates.v ===== *)
(** Dates: the conversion between dates and Julian day numbers (backend/utils/adt/datetime.c),
    ISO weeks (timestamp.c) and the type date (date.c).

    [int] is 32 bits wide: an expression that leaves its range is an error, but for the
    sums of date_pli and date_mii and the negation of make_date, which wrap around and are
    checked afterwards. *)

From S2P Require Import Prelude.
Local Open Scope Z_scope.
Local Open Scope pg_scope.

(** The value of an [int] expression. *)
Definition int (x : Z) : res Z := if (- 2 ^ 31 <=? x) && (x <? 2 ^ 31) then Ok x else Err "integer overflow".

Definition MONTHS_PER_YEAR : Z := 12.

(** ** Julian days *)

Definition date2j (year month day : Z) : res Z :=
  '(month, year) <-!
    (if 2 <? month then month <-! int (month + 1) ;; year <-! int (year + 4800) ;; Ok (month, year)
     else month <-! int (month + 13) ;; year <-! int (year + 4799) ;; Ok (month, year)) ;;
  let century := Z.quot year 100 in
  julian <-! int (year * 365) ;;
  julian <-! int (julian - 32167) ;;
  leaps <-! int (Z.quot year 4 - century) ;;
  leaps <-! int (leaps + Z.quot century 4) ;;
  julian <-! int (julian + leaps) ;;
  days <-! int (7834 * month) ;;
  days <-! int (Z.quot days 256 + day) ;;
  int (julian + days).

(** The arithmetic is unsigned. *)
Definition j2date (jd : Z) : Z * Z * Z :=
  let julian := uwrap 32 jd in
  let julian := uwrap 32 (julian + 32044) in
  let quad := julian / 146097 in
  let extra := uwrap 32 (uwrap 32 (uwrap 32 (julian - uwrap 32 (quad * 146097)) * 4) + 3) in
  let julian := uwrap 32 (julian + uwrap 32 (uwrap 32 (60 + uwrap 32 (quad * 3)) + extra / 146097)) in
  let quad := julian / 1461 in
  let julian := uwrap 32 (julian - uwrap 32 (quad * 1461)) in
  let y := swrap 32 (uwrap 32 (julian * 4) / 1461) in
  let julian := uwrap 32 ((if negb (y =? 0) then uwrap 32 (julian + 305) mod 365 else uwrap 32 (julian + 306) mod 366) + 123) in
  let y := swrap 32 (y + uwrap 32 (quad * 4)) in
  let year := swrap 32 (y - 4800) in
  let quad := uwrap 32 (julian * 2141) / 65536 in
  let day := swrap 32 (julian - uwrap 32 (7834 * quad) / 256) in
  let month := swrap 32 (uwrap 32 (quad + 10) mod MONTHS_PER_YEAR + 1) in
  (year, month, day).

(** Sunday is 0. *)
Definition j2day (date : Z) : res Z :=
  date <-! int (date + 1) ;;
  let date := Z.rem date 7 in
  if date <? 0 then Ok (date + 7) else Ok date.

Definition isleap (y : Z) : bool := (Z.rem y 4 =? 0) && (negb (Z.rem y 100 =? 0) || (Z.rem y 400 =? 0)).

Definition day_tab (leap : bool) : list Z :=
  if leap then [31; 29; 31; 30; 31; 30; 31; 31; 30; 31; 30; 31; 0] else [31; 28; 31; 30; 31; 30; 31; 31; 30; 31; 30; 31; 0].

(** ** ISO weeks *)

(** The Monday of the week of the fourth of January. *)
Definition first_week (year : Z) : res Z :=
  day4 <-! date2j year 1 4 ;;
  day0 <-! j2day (day4 - 1) ;;
  int (day4 - day0).

Definition isoweek2j (year week : Z) : res Z :=
  first <-! first_week year ;;
  days <-! int ((week - 1) * 7) ;;
  int (days + first).

Definition isoweek2date (woy year : Z) : res (Z * Z * Z) := j <-! isoweek2j year woy ;; Ok (j2date j).

(** The weekday counts from Sunday as 1. *)
Definition isoweekdate2date (isoweek wday year : Z) : res (Z * Z * Z) :=
  jday <-! isoweek2j year isoweek ;;
  jday <-! (if 1 <? wday then int (jday + (wday - 2)) else int (jday + 6)) ;;
  Ok (j2date jday).

(** The days since the first week of the ISO year, and whether that is the year before. *)
Definition since_first_week (year dayn : Z) : res (Z * bool) :=
  first <-! first_week year ;;
  if dayn <? first then first <-! first_week (year - 1) ;; Ok (dayn - first, true)
  else Ok (dayn - first, false).

Definition date2isoweek (year mon mday : Z) : res Z :=
  dayn <-! date2j year mon mday ;;
  '(days, _) <-! since_first_week year dayn ;;
  let result := Z.quot days 7 + 1 in
  if 52 <=? result then
    first <-! first_week (year + 1) ;;
    if first <=? dayn then Ok (Z.quot (dayn - first) 7 + 1) else Ok result
  else Ok result.

Definition date2isoyear (year mon mday : Z) : res Z :=
  dayn <-! date2j year mon mday ;;
  '(days, before) <-! since_first_week year dayn ;;
  let year := if before : bool then year - 1 else year in
  let result := Z.quot days 7 + 1 in
  if 52 <=? result then
    first <-! first_week (year + 1) ;;
    if first <=? dayn then Ok (year + 1) else Ok year
  else Ok year.

Definition date2isoyearday (year mon mday : Z) : res Z :=
  dayn <-! date2j year mon mday ;;
  isoyear <-! date2isoyear year mon mday ;;
  first <-! isoweek2j isoyear 1 ;;
  int (dayn - first + 1).

(** ** The type date *)

Definition JULIAN_MINYEAR : Z := -4713.
Definition JULIAN_MINMONTH : Z := 11.
Definition JULIAN_MAXYEAR : Z := 5874898.
Definition JULIAN_MAXMONTH : Z := 6.
Definition POSTGRES_EPOCH_JDATE : Z := 2451545.
Definition DATETIME_MIN_JULIAN : Z := 0.
Definition DATE_END_JULIAN : Z := 2147483494.

Definition IS_VALID_JULIAN (y m : Z) : bool :=
  ((JULIAN_MINYEAR <? y) || ((y =? JULIAN_MINYEAR) && (JULIAN_MINMONTH <=? m)))
  && ((y <? JULIAN_MAXYEAR) || ((y =? JULIAN_MAXYEAR) && (m <? JULIAN_MAXMONTH))).
Definition IS_VALID_DATE (d : Z) : bool :=
  (DATETIME_MIN_JULIAN - POSTGRES_EPOCH_JDATE <=? d) && (d <? DATE_END_JULIAN - POSTGRES_EPOCH_JDATE).

Definition DATEVAL_NOBEGIN : Z := - 2 ^ 31.
Definition DATEVAL_NOEND : Z := 2 ^ 31 - 1.
Definition DATE_NOT_FINITE (j : Z) : bool := (j =? DATEVAL_NOBEGIN) || (j =? DATEVAL_NOEND).

Definition DTERR_FIELD_OVERFLOW : Z := -2.
Definition DTERR_MD_FIELD_OVERFLOW : Z := -3.

Record pg_tm : Set := mk_tm { tm_year : Z; tm_mon : Z; tm_mday : Z; tm_hour : Z; tm_min : Z; tm_sec : Z; tm_yday : Z }.

Definition set_date (tm : pg_tm) (year mon mday : Z) : pg_tm := mk_tm year mon mday (tm_hour tm) (tm_min tm) (tm_sec tm) (tm_yday tm).

Definition MONTH : Z := 1.
Definition YEAR : Z := 2.
Definition DAY : Z := 3.
Definition DOY : Z := 15.
Definition DTK_M (t : Z) : Z := Z.shiftl 1 t.
Definition DTK_DATE_M : Z := Z.lor (Z.lor (DTK_M YEAR) (DTK_M MONTH)) (DTK_M DAY).

(** [fmask & field] *)
Definition has (fmask field : Z) : bool := negb (Z.land fmask (DTK_M field) =? 0).

(** The year with 1 BC as zero, or an error code. *)
Definition internal_year (isjulian is2digits bc : bool) (year : Z) : Z + Z :=
  if isjulian then inl year
  else if bc then if year <=? 0 then inr DTERR_FIELD_OVERFLOW else inl (- (year - 1))
  else if is2digits then
    if year <? 0 then inr DTERR_FIELD_OVERFLOW
    else if year <? 70 then inl (year + 2000) else if year <? 100 then inl (year + 1900) else inl year
  else if year <=? 0 then inr DTERR_FIELD_OVERFLOW else inl year.

(** The code, and the fields. *)
Definition ValidateDate (fmask : Z) (isjulian is2digits bc : bool) (tm : pg_tm) : res (Z * pg_tm) :=
  match (if has fmask YEAR then internal_year isjulian is2digits bc (tm_year tm) else inl (tm_year tm)) with
  | inr dterr => Ok (dterr, tm)
  | inl year =>
      tm <-!
        (if has fmask DOY then
           jan1 <-! date2j year 1 1 ;;
           j <-! int (jan1 + tm_yday tm) ;;
           j <-! int (j - 1) ;;
           let '(y, m, d) := j2date j in Ok (set_date tm y m d)
         else Ok (set_date tm year (tm_mon tm) (tm_mday tm))) ;;
      if has fmask MONTH && ((tm_mon tm <? 1) || (MONTHS_PER_YEAR <? tm_mon tm)) then Ok (DTERR_MD_FIELD_OVERFLOW, tm)
      else if has fmask DAY && ((tm_mday tm <? 1) || (31 <? tm_mday tm)) then Ok (DTERR_MD_FIELD_OVERFLOW, tm)
      else if (Z.land fmask DTK_DATE_M =? DTK_DATE_M) && (rd (day_tab (isleap (tm_year tm))) (Z.to_nat (tm_mon tm - 1)) <? tm_mday tm)
      then Ok (DTERR_FIELD_OVERFLOW, tm)
      else Ok (0, tm)
  end.

Definition make_date (year mon mday : Z) : res Z :=
  let bc := year <? 0 in
  let year := if bc then swrap 32 (- year) else year in
  '(dterr, tm) <-! ValidateDate DTK_DATE_M false false bc (mk_tm year mon mday 0 0 0 0) ;;
  if negb (dterr =? 0) then Err "date field value out of range"
  else if negb (IS_VALID_JULIAN (tm_year tm) (tm_mon tm)) then Err "date out of range"
  else
    julian <-! date2j (tm_year tm) (tm_mon tm) (tm_mday tm) ;;
    date <-! int (julian - POSTGRES_EPOCH_JDATE) ;;
    if negb (IS_VALID_DATE date) then Err "date out of range" else Ok date.

Definition date_pli (dateVal days : Z) : res Z :=
  if DATE_NOT_FINITE dateVal then Ok dateVal
  else
    let result := swrap 32 (dateVal + days) in
    if (if 0 <=? days then result <? dateVal else dateVal <? result) || negb (IS_VALID_DATE result) then Err "date out of range" else Ok result.

Definition date_mii (dateVal days : Z) : res Z :=
  if DATE_NOT_FINITE dateVal then Ok dateVal
  else
    let result := swrap 32 (dateVal - days) in
    if (if 0 <=? days then dateVal <? result else result <? dateVal) || negb (IS_VALID_DATE result) then Err "date out of range" else Ok result.

Definition date_mi (dateVal1 dateVal2 : Z) : res Z :=
  if DATE_NOT_FINITE dateVal1 || DATE_NOT_FINITE dateVal2 then Err "cannot subtract infinite dates" else int (dateVal1 - dateVal2).

Definition date_cmp (dateVal1 dateVal2 : Z) : Z :=
  if dateVal1 <? dateVal2 then -1 else if dateVal2 <? dateVal1 then 1 else 0.

Definition date_larger (dateVal1 dateVal2 : Z) : Z := if dateVal2 <? dateVal1 then dateVal1 else dateVal2.
Definition date_smaller (dateVal1 dateVal2 : Z) : Z := if dateVal1 <? dateVal2 then dateVal1 else dateVal2.
Definition date_finite (date : Z) : bool := negb (DATE_NOT_FINITE date).

Example epoch : date2j 2000 1 1 = Ok POSTGRES_EPOCH_JDATE /\ j2date 0 = (-4713, 11, 24) /\ date2j JULIAN_MAXYEAR 1 1 = Ok DATE_END_JULIAN.
Proof. vm_compute. done. Qed.

Example last_week : date2isoweek 2021 1 3 = Ok 53 /\ date2isoyear 2021 1 3 = Ok 2020.
Proof. vm_compute. done. Qed.
