(* ===== verification/DatesProps.v ===== *)
(** Julian days are the calendar: the day after a date has the next number, and the
    conversions are inverse.  The calendar repeats after 400 years; one cycle is checked year
    by year. *)

From S2P Require Import Prelude Dates.
Local Open Scope Z_scope.
Local Open Scope pg_scope.

(** ** The calendar *)

Definition month_days (y m : Z) : Z := rd (day_tab (isleap y)) (Z.to_nat (m - 1)).

Definition valid_date (y m d : Z) : bool := (1 <=? m) && (m <=? 12) && (1 <=? d) && (d <=? month_days y m).

(** The day after. *)
Definition next_day (y m d : Z) : Z * Z * Z :=
  if d <? month_days y m then (y, m, d + 1) else if m <? 12 then (y, m + 1, 1) else (y + 1, 1, 1).

Lemma isleap_mod y : isleap y = (y mod 4 =? 0) && (negb (y mod 100 =? 0) || (y mod 400 =? 0)).
Proof.
  assert (H : forall n, 0 < n -> (Z.rem y n =? 0) = (y mod n =? 0)) by (intros n Hn; apply eq_true_iff_eq; rewrite !Z.eqb_eq, Z.rem_divide, Z.mod_divide by lia; done).
  unfold isleap. by rewrite !H by lia.
Qed.

Lemma isleap_cycle y k : isleap (y + 400 * k) = isleap y.
Proof.
  rewrite !isleap_mod. replace (y + 400 * k) with (y + 100 * k * 4) at 1 by lia. rewrite Z.mod_add by lia. replace (y + 400 * k) with (y + 4 * k * 100) at 1 by lia. rewrite Z.mod_add by lia. replace (y + 400 * k) with (y + k * 400) by lia. by rewrite Z.mod_add by lia.
Qed.

Lemma month_days_cycle y k m : month_days (y + 400 * k) m = month_days y m.
Proof. unfold month_days. by rewrite isleap_cycle. Qed.

(** ** The conversions without bounds *)

(** The days before the year [yy], which begins in March. *)
Definition year_base (yy : Z) : Z := yy * 365 - 32167 + (yy / 4 - yy / 100 + yy / 400).
(** The position of a day in such a year, from 123 on. *)
Definition position (m d : Z) : Z := 7834 * (if 2 <? m then m + 1 else m + 13) / 256 + d.
Definition jdn (y m d : Z) : Z := year_base (if 2 <? m then y + 4800 else y + 4799) + position m d.

(** The year that begins in January, and the position. *)
Definition split_days (j : Z) : Z * Z :=
  let j := j + 32044 in
  let quad := j / 146097 in
  let extra := j mod 146097 * 4 + 3 in
  let j := j + (60 + quad * 3 + extra / 146097) in
  let r := j mod 1461 in
  let y := r * 4 / 1461 in
  (y + j / 1461 * 4 - 4800, (if negb (y =? 0) then (r + 305) mod 365 else (r + 306) mod 366) + 123).
Definition month_day (pos : Z) : Z * Z := let q := pos * 2141 / 65536 in ((q + 10) mod 12 + 1, pos - 7834 * q / 256).
Definition jdate (j : Z) : Z * Z * Z := let '(y, pos) := split_days j in let '(m, d) := month_day pos in (y, m, d).

Lemma year_base_cycle z k : year_base (z + 400 * k) = year_base z + 146097 * k.
Proof.
  unfold year_base. replace (z + 400 * k) with (z + 100 * k * 4) at 2 by lia. replace (z + 400 * k) with (z + 4 * k * 100) at 2 by lia. replace (z + 400 * k) with (z + k * 400) at 2 by lia. rewrite !Z.div_add by lia. lia.
Qed.

Lemma jdn_cycle y k m d : jdn (y + 400 * k) m d = jdn y m d + 146097 * k.
Proof. unfold jdn. destruct (2 <? m); [replace (y + 400 * k + 4800) with (y + 4800 + 400 * k) by lia|replace (y + 400 * k + 4799) with (y + 4799 + 400 * k) by lia]; rewrite year_base_cycle; lia. Qed.

Lemma split_days_cycle j k : split_days (j + 146097 * k) = ((split_days j).1 + 400 * k, (split_days j).2).
Proof.
  unfold split_days. replace (j + 146097 * k + 32044) with (j + 32044 + k * 146097) by lia. set (z := j + 32044). rewrite Z.div_add, Z.mod_add by lia. set (e := (z mod 146097 * 4 + 3) / 146097).
  replace (z + k * 146097 + (60 + (z / 146097 + k) * 3 + e)) with (z + (60 + z / 146097 * 3 + e) + 100 * k * 1461) by lia. rewrite Z.div_add, Z.mod_add by lia. cbn [fst snd]. f_equal. lia.
Qed.

(** ** Segments *)

(** All of [lo, lo + 1, ..., lo + n - 1]. *)
Definition all_from (lo n : Z) (f : Z -> bool) : bool := forallb f (seqZ lo n).

Lemma all_from_spec lo n f x : all_from lo n f = true -> lo <= x < lo + n -> f x = true.
Proof. unfold all_from. rewrite forallb_forall. intros H Hx. apply H. apply list_elem_of_In, elem_of_seqZ. lia. Qed.

(** The quotients on the way. *)
Definition quotients (j : Z) : Z * Z * Z * Z * Z :=
  let j := j + 32044 in
  let extra := (j mod 146097 * 4 + 3) / 146097 in
  let z := j + (60 + j / 146097 * 3 + extra) in
  let r := z mod 1461 in
  (j / 146097, extra, z / 1461, r * 4 / 1461, if negb (r * 4 / 1461 =? 0) then (r + 305) / 365 else (r + 306) / 366).

(** Between two numbers with the same quotient, quotients are the same and remainders grow
    as the numbers do. *)
Lemma between a b x n : 0 < n -> a <= x <= b -> a / n = b / n -> x / n = a / n /\ x mod n = a mod n + (x - a).
Proof.
  intros Hn Hx E. assert (Eq : x / n = a / n) by (pose proof (Z.div_le_mono a x n Hn ltac:(lia)); pose proof (Z.div_le_mono x b n Hn ltac:(lia)); lia). split; [done|]. rewrite !Z.mod_eq, Eq by lia. lia.
Qed.

Lemma split_days_between a b x : a <= x <= b -> quotients a = quotients b -> split_days x = ((split_days a).1, (split_days a).2 + (x - a)).
Proof.
  intros Hx. unfold quotients, split_days. cbv zeta. intros [= E1 E2 E3 E4 E5]. destruct (between (a + 32044) (b + 32044) (x + 32044) 146097 ltac:(lia) ltac:(lia) E1) as [F1 M1].
  destruct (between (a + 32044) (b + 32044) (b + 32044) 146097 ltac:(lia) ltac:(lia) E1) as [_ N1]. rewrite <- E1, N1 in *. rewrite F1, M1. set (Q := (a + 32044) / 146097) in *. set (n := (a + 32044) mod 146097) in *. clearbody Q n.
  destruct (between (n * 4 + 3) ((n + (b + 32044 - (a + 32044))) * 4 + 3) ((n + (x + 32044 - (a + 32044))) * 4 + 3) 146097 ltac:(lia) ltac:(lia) E2) as [F2 _]. rewrite <- E2 in *. rewrite F2. set (e := (n * 4 + 3) / 146097) in *. clearbody e.
  set (za := a + 32044 + (60 + Q * 3 + e)) in *. set (zb := b + 32044 + (60 + Q * 3 + e)) in *. destruct (between za zb (x + 32044 + (60 + Q * 3 + e)) 1461 ltac:(lia) ltac:(unfold za, zb; lia) E3) as [F3 M3]. destruct (between za zb zb 1461 ltac:(lia) ltac:(unfold za, zb; lia) E3) as [_ N3].
  rewrite N3 in *. rewrite F3, M3. set (ra := za mod 1461) in *. destruct (between (ra * 4) ((ra + (zb - za)) * 4) ((ra + (x + 32044 + (60 + Q * 3 + e) - za)) * 4) 1461 ltac:(lia) ltac:(unfold za, zb; lia) E4) as [F4 _]. rewrite <- E4 in *. rewrite F4. cbn [fst snd]. f_equal.
  set (y := ra * 4 / 1461) in *. clearbody y ra. destruct (negb (y =? 0)).
  - destruct (between (ra + 305) (ra + (zb - za) + 305) (ra + (x + 32044 + (60 + Q * 3 + e) - za) + 305) 365 ltac:(lia) ltac:(unfold za, zb; lia) E5) as [_ ->]. unfold za. lia.
  - destruct (between (ra + 306) (ra + (zb - za) + 306) (ra + (x + 32044 + (60 + Q * 3 + e) - za) + 306) 366 ltac:(lia) ltac:(unfold za, zb; lia) E5) as [_ ->]. unfold za. lia.
Qed.

(** ** One cycle *)

(** A segment of the year [y]: the quotients are the same at both ends, and the first
    day is right. *)
Definition segment_checked (y base lo hi : Z) : bool :=
  bool_decide (quotients (base + lo) = quotients (base + hi)) && bool_decide (split_days (base + lo) = (y, lo)).

(** January and February are one segment, the other months are another. *)
Definition year_checked (y : Z) : bool :=
  segment_checked y (year_base (y + 4799)) 429 (459 + month_days y 2) && segment_checked y (year_base (y + 4800)) 123 428
  && (year_base (y + 4799) + 460 + month_days y 2 =? year_base (y + 4800) + 123).

Lemma cycle_checked : all_from 0 400 year_checked = true.
Proof. vm_compute. done. Qed.

Lemma segment_spec y base lo hi k x : segment_checked y base lo hi = true -> lo <= x <= hi -> split_days (base + 146097 * k + x) = (y + 400 * k, x).
Proof.
  unfold segment_checked. rewrite andb_true_iff, !bool_decide_eq_true. intros [Q F] Hx. replace (base + 146097 * k + x) with (base + x + 146097 * k) by lia. rewrite split_days_cycle, (split_days_between (base + lo) (base + hi)), F by (done || lia). cbn. f_equal. lia.
Qed.

Lemma year_spec y : let leapless := month_days y 2 in
  (forall x, 429 <= x <= 459 + leapless -> split_days (year_base (y + 4799) + x) = (y, x))
  /\ (forall x, 123 <= x <= 428 -> split_days (year_base (y + 4800) + x) = (y, x))
  /\ year_base (y + 4799) + 460 + leapless = year_base (y + 4800) + 123.
Proof.
  intros feb. pose proof (Z.mod_pos_bound y 400 ltac:(lia)). pose proof (all_from_spec _ _ _ (y mod 400) cycle_checked ltac:(lia)) as H1. set (r := y mod 400) in *. set (k := y / 400).
  assert (Ey : y = r + 400 * k) by (unfold r, k; pose proof (Z.div_mod y 400 ltac:(lia)); lia). assert (Ef : feb = month_days r 2) by (unfold feb; by rewrite Ey, month_days_cycle). rewrite Ef. clear feb Ef. clearbody r k. subst y.
  unfold year_checked in H1. rewrite !andb_true_iff, Z.eqb_eq in H1. destruct H1 as [[A B] C]. replace (r + 400 * k + 4799) with (r + 4799 + 400 * k) by lia. replace (r + 400 * k + 4800) with (r + 4800 + 400 * k) by lia. rewrite !year_base_cycle.
  split_and!; [intros x Hx; by eapply segment_spec|intros x Hx; by eapply segment_spec|lia].
Qed.

(** ** Months *)

Lemma month_days_bounds y m : 1 <= m <= 12 -> 28 <= month_days y m <= 31 /\ (m = 2 \/ month_days y m = month_days 1 m).
Proof.
  intros Hm. assert (H : forallb (fun m => forallb (fun leap => (28 <=? rd (day_tab leap) (Z.to_nat (m - 1))) && (rd (day_tab leap) (Z.to_nat (m - 1)) <=? 31)
    && ((m =? 2) || (rd (day_tab leap) (Z.to_nat (m - 1)) =? month_days 1 m))) [true; false]) (seqZ 1 12) = true) by (vm_compute; done).
  rewrite forallb_forall in H. specialize (H m ltac:(apply list_elem_of_In, elem_of_seqZ; lia)). rewrite forallb_forall in H. specialize (H (isleap y) ltac:(destruct (isleap y); cbn; tauto)).
  fold (month_days y m) in H. rewrite !andb_true_iff, orb_true_iff, !Z.leb_le, !Z.eqb_eq in H. tauto.
Qed.

(** The months follow one another, and a position tells its month and day. *)
Definition month_checked (m : Z) : bool :=
  all_from 1 (if m =? 2 then 29 else month_days 1 m) (fun d => bool_decide (month_day (position m d) = (m, d)))
  && ((m =? 2) || (position m (month_days 1 m) + 1 =? (if m =? 12 then 429 else position (m + 1) 1)))
  && (if m <=? 2 then (429 <=? position m 1) && (position m (month_days 1 m) <=? (if m =? 2 then 487 else 459))
      else (123 <=? position m 1) && (position m (month_days 1 m) <=? 428)).

Lemma months_checked : all_from 1 12 month_checked = true.
Proof. vm_compute. done. Qed.

Lemma valid_date_spec y m d : valid_date y m d = true <-> 1 <= m <= 12 /\ 1 <= d <= month_days y m.
Proof. unfold valid_date. rewrite !andb_true_iff, !Z.leb_le. lia. Qed.

Lemma feb_days y : month_days y 2 = 28 \/ month_days y 2 = 29.
Proof. unfold month_days. destruct (isleap y); [by right|by left]. Qed.

Lemma position_day m d : position m d = position m 1 + (d - 1).
Proof. unfold position. lia. Qed.

(** Where a date is in its year. *)
Lemma position_range y m d : valid_date y m d = true -> month_day (position m d) = (m, d)
  /\ (if m <=? 2 then 429 <= position m d <= 459 + month_days y 2 else 123 <= position m d <= 428).
Proof.
  intros [Hm Hd]%valid_date_spec. pose proof (all_from_spec _ _ _ m months_checked ltac:(lia)) as H. unfold month_checked in H. rewrite !andb_true_iff in H. destruct H as [[Hmd _] Hr]. pose proof (feb_days y) as Hf. destruct (month_days_bounds y m Hm) as [_ E]. split.
  - assert (Hd' : 1 <= d < 1 + (if m =? 2 then 29 else month_days 1 m)) by (destruct (Z.eqb_spec m 2) as [->|]; lia). by apply (all_from_spec _ _ _ d Hmd), bool_decide_eq_true in Hd'.
  - revert Hr. rewrite !(position_day m d), !(position_day m (month_days 1 m)). destruct (Z.leb_spec m 2), (Z.eqb_spec m 2); rewrite ?andb_true_iff, ?Z.leb_le; intros [? ?]; try lia. subst m. change (month_days 1 2) with 28 in *. lia.
Qed.

Lemma base_of m y : (if 2 <? m then y + 4800 else y + 4799) = if m <=? 2 then y + 4799 else y + 4800.
Proof. rewrite Z.ltb_antisym. by destruct (m <=? 2). Qed.

(** The date of the number of a date is that date. *)
Lemma jdate_jdn y m d : valid_date y m d = true -> jdate (jdn y m d) = (y, m, d).
Proof.
  intros H. destruct (position_range y m d H) as [Hmd Hr]. unfold jdate, jdn. rewrite base_of. destruct (year_spec y) as (A & B & _). destruct (m <=? 2); [rewrite A by done|rewrite B by done]; by rewrite Hmd.
Qed.

(** The day after a date has the next number. *)
Lemma jdn_next y m d : valid_date y m d = true -> let '(y', m', d') := next_day y m d in valid_date y' m' d' = true /\ jdn y' m' d' = jdn y m d + 1.
Proof.
  intros H. apply valid_date_spec in H as [Hm Hd]. unfold next_day. destruct (Z.ltb_spec d (month_days y m)).
  { split; [apply valid_date_spec; lia|]. unfold jdn. rewrite (position_day m d), (position_day m (d + 1)). lia. }
  pose proof (all_from_spec _ _ _ m months_checked ltac:(lia)) as C. unfold month_checked in C. rewrite !andb_true_iff, orb_true_iff, !Z.eqb_eq in C. destruct C as [[_ C] _]. assert (d = month_days y m) as -> by lia. destruct (month_days_bounds y m Hm) as [_ E]. destruct (year_spec y) as (_ & _ & F). destruct (Z.ltb_spec m 12) as [Hlt|].
  - split; [apply valid_date_spec; pose proof (month_days_bounds y (m + 1)); lia|]. unfold jdn. rewrite !base_of. destruct (Z.eqb_spec m 12); [lia|]. destruct (Z.eq_dec m 2) as [->|].
    + rewrite (position_day 2), !Z.leb_refl. change (position 2 1) with 460. change (2 + 1 <=? 2) with false. change (position (2 + 1) 1) with 123. cbv iota. lia.
    + destruct C as [|C]; [done|]. destruct E as [|E]; [done|]. rewrite E. replace (m + 1 <=? 2) with (m <=? 2) by (destruct (Z.leb_spec m 2), (Z.leb_spec (m + 1) 2); lia). lia.
  - assert (m = 12) as -> by lia. split; [apply valid_date_spec; pose proof (month_days_bounds (y + 1) 1); lia|]. unfold jdn. rewrite !base_of. destruct E as [|E]; [done|]. rewrite E. replace (y + 1 + 4799) with (y + 4800) by lia. change (12 <=? 2) with false. change (1 <=? 2) with true. cbv iota. change (position 12 (month_days 1 12)) with 428. change (position 1 1) with 429. lia.
Qed.

(** Every number is the number of a date. *)
Lemma every_day j : exists y m d, valid_date y m d = true /\ jdn y m d = j.
Proof.
  assert (H : forall n k, exists y m d, valid_date y m d = true /\ jdn y m d = jdn 0 3 1 + 146097 * k + Z.of_nat n).
  { intros n k. induction n as [|n (y & m & d & V & E)].
    - exists (0 + 400 * k), 3, 1. split; [|rewrite jdn_cycle; lia]. apply valid_date_spec. pose proof (month_days_bounds (0 + 400 * k) 3). lia.
    - pose proof (jdn_next y m d V) as N. destruct (next_day y m d) as [[y' m'] d']. exists y', m', d'. split; [apply N|lia]. }
  set (k := (j - jdn 0 3 1) / 146097). destruct (H (Z.to_nat ((j - jdn 0 3 1) mod 146097)) k) as (y & m & d & V & E). exists y, m, d. split; [done|]. rewrite E. pose proof (Z.mod_pos_bound (j - jdn 0 3 1) 146097 ltac:(lia)). pose proof (Z.div_mod (j - jdn 0 3 1) 146097 ltac:(lia)). rewrite Z2Nat.id by lia. unfold k. lia.
Qed.

Lemma jdn_jdate j : let '(y, m, d) := jdate j in valid_date y m d = true /\ jdn y m d = j.
Proof. destruct (every_day j) as (y & m & d & V & <-). by rewrite jdate_jdn. Qed.

(** ** The conversions with their bounds *)

Lemma int_ok x : - 2 ^ 31 <= x < 2 ^ 31 -> int x = Ok x.
Proof. intros H. unfold int. by destruct (Z.leb_spec (- 2 ^ 31) x), (Z.ltb_spec x (2 ^ 31)); try lia. Qed.

Lemma u32 x : 0 <= x < 2 ^ 32 -> uwrap 32 x = x.
Proof. apply uwrap_small. Qed.

Lemma s32 x : - 2 ^ 31 <= x < 2 ^ 31 -> swrap 32 x = x.
Proof. intros H. unfold swrap. rewrite Z.mod_small; lia. Qed.

(** The years whose dates have a number. *)
Definition year_ok (y : Z) : Prop := -4799 <= y <= JULIAN_MAXYEAR.

Lemma date2j_jdn y m d : year_ok y -> valid_date y m d = true -> jdn y m d < 2 ^ 31 -> date2j y m d = Ok (jdn y m d).
Proof.
  unfold year_ok, JULIAN_MAXYEAR. intros Hy V Hj. destruct (position_range y m d V) as [_ Hr]. apply valid_date_spec in V as [Hm Hd]. pose proof (month_days_bounds y m Hm) as [Hb _]. unfold date2j, jdn in *. rewrite base_of in *. unfold position, year_base in *. rewrite Z.ltb_antisym in *.
  set (yy := if m <=? 2 then y + 4799 else y + 4800) in *. set (mm := if negb (m <=? 2) then m + 1 else m + 13) in *. assert (Hyy : 0 <= yy <= 5879698) by (unfold yy; destruct (m <=? 2); lia). assert (Hmm : 4 <= mm <= 15) by (unfold mm; destruct (Z.leb_spec m 2); cbn; lia).
  assert (Hpos : 123 <= 7834 * mm / 256 + d <= 488) by (pose proof (feb_days y); destruct (m <=? 2); lia). clear Hr.
  transitivity (res_bind (Ok (mm, yy)) (fun '(mm, yy) => julian <-! int (yy * 365) ;; julian <-! int (julian - 32167) ;; leaps <-! int (Z.quot yy 4 - Z.quot yy 100) ;; leaps <-! int (leaps + Z.quot (Z.quot yy 100) 4) ;;
    julian <-! int (julian + leaps) ;; days <-! int (7834 * mm) ;; days <-! int (Z.quot days 256 + d) ;; int (julian + days))).
  { unfold mm, yy. destruct (m <=? 2); cbn [negb]; rewrite !int_ok by lia; done. }
  cbn [res_bind]. clearbody yy mm. assert (0 <= yy / 100 <= yy) by (split; [apply Z.div_pos; lia|apply Z.div_le_upper_bound; lia]). assert (0 <= yy / 4 <= yy) by (split; [apply Z.div_pos; lia|apply Z.div_le_upper_bound; lia]).
  rewrite !(Z.quot_div_nonneg yy) by lia. rewrite (Z.quot_div_nonneg (yy / 100)), Z.div_div by lia. change (100 * 4) with 400. rewrite (int_ok (yy * 365)) by lia. cbn [res_bind]. rewrite (int_ok (yy * 365 - 32167)) by lia. cbn [res_bind]. assert (0 <= yy / 400 <= yy) by (split; [apply Z.div_pos; lia|apply Z.div_le_upper_bound; lia]).
  rewrite (int_ok (yy / 4 - yy / 100)) by lia. cbn [res_bind]. rewrite (int_ok (yy / 4 - yy / 100 + yy / 400)) by lia. cbn [res_bind]. rewrite (int_ok (yy * 365 - 32167 + _)) by lia. cbn [res_bind]. rewrite (int_ok (7834 * mm)) by lia. cbn [res_bind]. rewrite Z.quot_div_nonneg by lia. rewrite (int_ok (7834 * mm / 256 + d)) by lia. cbn [res_bind]. by apply int_ok; lia.
Qed.

Lemma u32_sub_div x n : 0 < n -> 0 <= x < 2 ^ 32 -> uwrap 32 (x - uwrap 32 (x / n * n)) = x mod n.
Proof.
  intros Hn Hx. pose proof (Z.mod_pos_bound x n Hn). pose proof (Z.div_mod x n ltac:(lia)). pose proof (Z.div_pos x n ltac:(lia) Hn). rewrite (u32 (x / n * n)) by nia. rewrite u32 by nia. lia.
Qed.

(** The unsigned arithmetic is right up to 121000 days before it wraps around. *)
Lemma j2date_unsigned j u : -32044 <= u < 2 ^ 32 - 121000 -> uwrap 32 j = uwrap 32 u -> j2date j = jdate u.
Proof.
  intros Hj Eu. unfold j2date, jdate, split_days, month_day. rewrite Eu. assert (E0 : uwrap 32 (uwrap 32 u + 32044) = u + 32044) by (unfold uwrap; rewrite Zplus_mod_idemp_l; apply Z.mod_small; lia). rewrite E0. clear E0 Eu. set (x := u + 32044).
  assert (Hx : 0 <= x < 2 ^ 32 - 88956) by lia. clearbody x. rewrite (u32_sub_div x 146097) by lia. pose proof (Z.mod_pos_bound x 146097 ltac:(lia)). rewrite (u32 (x mod 146097 * 4)), (u32 (x mod 146097 * 4 + 3)) by lia. set (e := (x mod 146097 * 4 + 3) / 146097). assert (He : 0 <= e <= 4) by (unfold e; split; [apply Z.div_pos; lia|apply Z.div_le_upper_bound; lia]). clearbody e.
  set (q := x / 146097). assert (Hq : 0 <= q <= 29398) by (unfold q; split; [apply Z.div_pos; lia|apply Z.div_le_upper_bound; lia]). clearbody q. rewrite (u32 (q * 3)), (u32 (60 + q * 3)), (u32 (60 + q * 3 + e)), (u32 (x + (60 + q * 3 + e))) by lia.
  set (z := x + (60 + q * 3 + e)). assert (Hz : 0 <= z < 2 ^ 32) by lia. clearbody z. rewrite (u32_sub_div z 1461) by lia. pose proof (Z.mod_pos_bound z 1461 ltac:(lia)) as Hr. set (r := z mod 1461) in *. clearbody r. set (c := z / 1461). assert (Hc : 0 <= c <= 3000000) by (unfold c; split; [apply Z.div_pos; lia|apply Z.div_le_upper_bound; lia]). clearbody c.
  rewrite (u32 (r * 4)) by lia. set (y := r * 4 / 1461). assert (Hy : 0 <= y <= 4) by (unfold y; split; [apply Z.div_pos; lia|apply Z.div_le_upper_bound; lia]). clearbody y. rewrite (s32 y) by lia. rewrite (u32 (r + 305)), (u32 (r + 306)) by lia.
  set (p := if negb (y =? 0) then (r + 305) mod 365 else (r + 306) mod 366). assert (Hp : 0 <= p < 366) by (unfold p; destruct (negb _); [pose proof (Z.mod_pos_bound (r + 305) 365)|pose proof (Z.mod_pos_bound (r + 306) 366)]; lia). clearbody p.
  rewrite (u32 (p + 123)), (u32 (c * 4)), (s32 (y + c * 4)), (s32 (y + c * 4 - 4800)), (u32 ((p + 123) * 2141)) by lia. set (t := (p + 123) * 2141 / 65536). assert (Ht : 0 <= t <= 20) by (unfold t; split; [apply Z.div_pos; lia|apply Z.div_le_upper_bound; lia]). clearbody t.
  rewrite (u32 (7834 * t)), (u32 (t + 10)) by lia. unfold MONTHS_PER_YEAR. pose proof (Z.mod_pos_bound (t + 10) 12 ltac:(lia)). rewrite (s32 ((t + 10) mod 12 + 1)) by lia. assert (0 <= 7834 * t / 256 <= 1000) by (split; [apply Z.div_pos; lia|apply Z.div_le_upper_bound; lia]). by rewrite (s32 (p + 123 - _)) by lia.
Qed.

Lemma j2date_jdate j : -32044 <= j < 2 ^ 31 -> j2date j = jdate j.
Proof. intros Hj. apply j2date_unsigned; [lia|done]. Qed.

(** A day between two first of Januaries belongs to the year. *)
Lemma jdate_year y j : jdn y 1 1 <= j < jdn (y + 1) 1 1 -> (jdate j).1.1 = y.
Proof.
  unfold jdn. change (2 <? 1) with false. cbv iota. change (position 1 1) with 429. replace (y + 1 + 4799) with (y + 4800) by lia. intros Hj. destruct (year_spec y) as (A & B & C). unfold jdate.
  destruct (Z.lt_ge_cases j (year_base (y + 4800) + 123)); [replace j with (year_base (y + 4799) + (j - year_base (y + 4799))) by lia; rewrite A by lia|replace j with (year_base (y + 4800) + (j - year_base (y + 4800))) by lia; rewrite B by lia]; by destruct (month_day _).
Qed.

Lemma jdn_year y m d : valid_date y m d = true -> jdn y 1 1 <= jdn y m d < jdn (y + 1) 1 1.
Proof.
  intros V. destruct (position_range y m d V) as [_ Hr]. unfold jdn. rewrite (base_of m). change (2 <? 1) with false. cbv iota. change (position 1 1) with 429. replace (y + 1 + 4799) with (y + 4800) by lia. destruct (year_spec y) as (_ & _ & C). pose proof (feb_days y). destruct (m <=? 2); lia.
Qed.

Lemma jan1_mono y y' : y <= y' -> jdn y 1 1 <= jdn y' 1 1.
Proof.
  intros H. unfold jdn, year_base. change (2 <? 1) with false. cbv iota. set (a := y + 4799). set (b := y' + 4799). assert (a <= b) by lia. clearbody a b. pose proof (Z.div_le_mono a b 4 ltac:(lia) ltac:(lia)). pose proof (Z.div_le_mono a b 400 ltac:(lia) ltac:(lia)).
  assert (b / 100 <= a / 100 + (b - a)) by (apply Z.lt_succ_r, Z.div_lt_upper_bound; [lia|]; pose proof (Z.mod_pos_bound a 100 ltac:(lia)); pose proof (Z.div_mod a 100 ltac:(lia)); lia). lia.
Qed.

Lemma jdn_day y m d : jdn y m d = jdn y m 1 + (d - 1).
Proof. unfold jdn. rewrite (position_day m d). lia. Qed.

(** Which dates have a number. *)
Lemma julian_jdn y m d : valid_date y m d = true -> IS_VALID_JULIAN y m = true -> date2j y m d = Ok (jdn y m d) /\ -30 <= jdn y m d < 2 ^ 31.
Proof.
  unfold IS_VALID_JULIAN, JULIAN_MINYEAR, JULIAN_MINMONTH, JULIAN_MAXYEAR, JULIAN_MAXMONTH. rewrite andb_true_iff, !orb_true_iff, !andb_true_iff, !Z.ltb_lt, !Z.eqb_eq, Z.leb_le. intros V [L U].
  assert (Hj : -30 <= jdn y m d < 2 ^ 31); [|split; [|done]; apply date2j_jdn; [unfold year_ok, JULIAN_MAXYEAR; lia|done|lia]].
  pose proof (jdn_year y m d V) as Hy. pose proof V as V'. apply valid_date_spec in V' as [Hm Hd]. pose proof (month_days_bounds y m Hm) as [Hb _]. split.
  - destruct L as [L|[-> L]].
    + pose proof (jan1_mono (-4712) y ltac:(lia)) as M. change (jdn (-4712) 1 1) with 38 in M. lia.
    + assert (m = 11 \/ m = 12) as [-> | ->] by lia; rewrite jdn_day; [change (jdn (-4713) 11 1) with (-23)|change (jdn (-4713) 12 1) with 7]; lia.
  - destruct U as [U|[-> U]].
    + pose proof (jan1_mono (y + 1) 5874898 ltac:(lia)) as M. change (jdn 5874898 1 1) with 2147483494 in M. lia.
    + rewrite jdn_day. assert (jdn 5874898 m 1 <= 2147483614); [|lia]. assert (m = 1 \/ m = 2 \/ m = 3 \/ m = 4 \/ m = 5) as [-> | [-> | [-> | [-> | ->]]]] by lia; by apply Z.leb_le.
Qed.

Lemma jdn_year_ok y m d : valid_date y m d = true -> 0 <= jdn y m d < 2 ^ 31 -> year_ok y.
Proof.
  intros V Hj. pose proof (jdn_year y m d V). unfold year_ok, JULIAN_MAXYEAR. split.
  - destruct (Z.lt_ge_cases y (-4799)); [|done]. pose proof (jan1_mono (y + 1) (-4799) ltac:(lia)) as M. change (jdn (-4799) 1 1) with (-31738) in M. lia.
  - destruct (Z.lt_ge_cases 5874898 y); [|done]. pose proof (jan1_mono 5874899 y ltac:(lia)) as M. change (jdn 5874899 1 1) with 2147483859 in M. lia.
Qed.

Lemma j2day_mod j : - 2 ^ 31 <= j < 2 ^ 31 - 1 -> j2day j = Ok ((j + 1) mod 7).
Proof.
  intros Hj. unfold j2day. rewrite int_ok by lia. cbn [res_bind]. pose proof (Z.rem_bound_abs (j + 1) 7 ltac:(lia)) as Hb. pose proof (Z.quot_rem' (j + 1) 7) as E. destruct (Z.ltb_spec (Z.rem (j + 1) 7) 0); f_equal.
  - apply Z.mod_unique with (q := Z.quot (j + 1) 7 - 1); lia.
  - apply Z.mod_unique with (q := Z.quot (j + 1) 7); lia.
Qed.

(** ** Weeks *)

(** The Monday of the first week. *)
Definition week1 (y : Z) : Z := 7 * (jdn y 1 4 / 7).

Lemma jan4 y : jdn y 1 4 = jdn y 1 1 + 3.
Proof. rewrite jdn_day. lia. Qed.

Lemma week1_jan1 y : jdn y 1 1 - 3 <= week1 y <= jdn y 1 1 + 3.
Proof. unfold week1. pose proof (Z.div_mod (jdn y 1 4) 7 ltac:(lia)). pose proof (Z.mod_pos_bound (jdn y 1 4) 7 ltac:(lia)). pose proof (jan4 y). lia. Qed.

Lemma year_length y : 365 <= jdn (y + 1) 1 1 - jdn y 1 1 <= 366.
Proof. destruct (year_spec y) as (_ & _ & C). pose proof (feb_days y). unfold jdn. change (2 <? 1) with false. cbv iota. replace (y + 1 + 4799) with (y + 4800) by lia. lia. Qed.

Lemma jan1_range y : year_ok y -> -31738 <= jdn y 1 1 <= DATE_END_JULIAN.
Proof.
  unfold year_ok. intros Hy. pose proof (jan1_mono (-4799) y ltac:(lia)) as A. pose proof (jan1_mono y JULIAN_MAXYEAR ltac:(lia)) as B. change (jdn (-4799) 1 1) with (-31738) in A. change (jdn JULIAN_MAXYEAR 1 1) with DATE_END_JULIAN in B. lia.
Qed.

Lemma first_week_ok y : year_ok y -> first_week y = Ok (week1 y).
Proof.
  intros Hy. pose proof (jan1_range y Hy) as Hr. pose proof (jan4 y) as E. unfold DATE_END_JULIAN in Hr. unfold first_week. rewrite date2j_jdn; [|done|apply valid_date_spec; pose proof (month_days_bounds y 1); lia|lia]. cbn [res_bind]. rewrite j2day_mod by lia. cbn [res_bind]. replace (jdn y 1 4 - 1 + 1) with (jdn y 1 4) by lia.
  unfold week1. pose proof (Z.div_mod (jdn y 1 4) 7 ltac:(lia)). pose proof (Z.mod_pos_bound (jdn y 1 4) 7 ltac:(lia)). rewrite int_ok by lia. f_equal. lia.
Qed.

Lemma week1_next y : week1 (y + 1) = week1 y + 364 \/ week1 (y + 1) = week1 y + 371.
Proof. pose proof (week1_jan1 y). pose proof (week1_jan1 (y + 1)). pose proof (year_length y). unfold week1 in *. lia. Qed.

(** The ISO year and week of a day. *)
Lemma iso_year y m d : valid_date y m d = true -> year_ok (y - 1) -> year_ok (y + 1) -> exists Y, y - 1 <= Y <= y + 1 /\ week1 Y <= jdn y m d < week1 (Y + 1)
  /\ date2isoyear y m d = Ok Y /\ date2isoweek y m d = Ok ((jdn y m d - week1 Y) / 7 + 1).
Proof.
  intros V H1 H2. assert (Hy : year_ok y) by (unfold year_ok in *; lia). pose proof (jdn_year y m d V) as Hj. pose proof (jan1_range (y + 1) H2) as Hr. unfold DATE_END_JULIAN in Hr. unfold date2isoyear, date2isoweek, since_first_week. rewrite date2j_jdn by (done || lia). cbn [res_bind]. rewrite !first_week_ok by done.
  set (j := jdn y m d) in *. clearbody j. pose proof (week1_jan1 y). pose proof (week1_jan1 (y + 1)). pose proof (year_length y). pose proof (year_length (y - 1)) as YL. pose proof (week1_next (y - 1)) as WP. pose proof (week1_next y) as WN. replace (y - 1 + 1) with y in * by lia. cbn [res_bind]. pose proof (week1_jan1 (y - 1)).
  destruct (Z.ltb_spec j (week1 y)); cbn [res_bind]; rewrite ?Z.quot_div_nonneg by lia.
  - exists (y - 1). replace (y - 1 + 1) with y by lia. rewrite !first_week_ok by done. cbn [res_bind]. destruct (Z.leb_spec (week1 y) j); [lia|]. destruct (Z.leb_spec (week1 (y + 1)) j); [lia|]. split_and!; try lia; by destruct (52 <=? _).
  - rewrite first_week_ok by done. cbn [res_bind]. destruct (Z.leb_spec 52 ((j - week1 y) / 7 + 1)) as [G|G]; [destruct (Z.leb_spec (week1 (y + 1)) j)|].
    + exists (y + 1). pose proof (week1_next (y + 1)). rewrite Z.quot_div_nonneg by lia. by split_and!; try lia.
    + exists y. by split_and!; try lia.
    + exists y. assert (j - week1 y < 7 * 51) by (pose proof (Z.div_mod (j - week1 y) 7 ltac:(lia)); pose proof (Z.mod_pos_bound (j - week1 y) 7 ltac:(lia)); lia). by split_and!; try lia.
Qed.

(** The Monday of a day and its weekday. *)
Lemma week_split Y j : j = week1 Y + 7 * ((j - week1 Y) / 7) + j mod 7 /\ 0 <= j mod 7 < 7.
Proof.
  split; [|by apply Z.mod_pos_bound]. unfold week1. set (a := jdn Y 1 4 / 7). replace (j - 7 * a) with (j + - a * 7) by lia. rewrite Z.div_add by lia. pose proof (Z.div_mod j 7 ltac:(lia)). lia.
Qed.

Lemma monday_mod Y w : (week1 Y + 7 * w + 1) mod 7 = 1.
Proof. unfold week1. replace (7 * (jdn Y 1 4 / 7) + 7 * w + 1) with (1 + (jdn Y 1 4 / 7 + w) * 7) by lia. by rewrite Z.mod_add. Qed.

Lemma weekday_next j : (j + 1) mod 7 = if j mod 7 =? 6 then 0 else j mod 7 + 1.
Proof. pose proof (Z.div_mod j 7 ltac:(lia)). pose proof (Z.mod_pos_bound j 7 ltac:(lia)). destruct (Z.eqb_spec (j mod 7) 6); symmetry; [apply Z.mod_unique with (q := j / 7 + 1); lia|apply Z.mod_unique with (q := j / 7); lia]. Qed.

(** A week of a year, within the range. *)
Lemma isoweek2j_ok Y W : year_ok Y -> 1 <= W <= 53 -> week1 Y + 7 * (W - 1) < 2 ^ 31 -> isoweek2j Y W = Ok (week1 Y + 7 * (W - 1)).
Proof.
  intros HY HW HB. pose proof (jan1_range Y HY). pose proof (week1_jan1 Y). unfold DATE_END_JULIAN in *. unfold isoweek2j. rewrite first_week_ok by done. cbn [res_bind]. rewrite int_ok by lia. cbn [res_bind]. rewrite int_ok by lia. f_equal. lia.
Qed.

(** A date that is not infinite is valid. *)
Definition date_ok (v : Z) : Prop := IS_VALID_DATE v = true.

Lemma date_ok_spec v : date_ok v <-> - POSTGRES_EPOCH_JDATE <= v < DATE_END_JULIAN - POSTGRES_EPOCH_JDATE.
Proof. unfold date_ok, IS_VALID_DATE, DATETIME_MIN_JULIAN. rewrite andb_true_iff, Z.leb_le, Z.ltb_lt. lia. Qed.

Lemma finite_ok v : date_ok v -> DATE_NOT_FINITE v = false.
Proof. rewrite date_ok_spec. unfold DATE_NOT_FINITE, DATEVAL_NOBEGIN, DATEVAL_NOEND, POSTGRES_EPOCH_JDATE, DATE_END_JULIAN. rewrite orb_false_iff, !Z.eqb_neq. lia. Qed.

Lemma swrap32_cases x : - 2 ^ 32 <= x < 2 ^ 32 -> swrap 32 x = if x <? - 2 ^ 31 then x + 2 ^ 32 else if x <? 2 ^ 31 then x else x - 2 ^ 32.
Proof.
  intros Hx. unfold swrap. change (32 - 1) with 31. destruct (Z.ltb_spec x (- 2 ^ 31)); [|destruct (Z.ltb_spec x (2 ^ 31))].
  - rewrite <- (Z.mod_unique (x + 2 ^ 31) (2 ^ 32) (-1) (x + 2 ^ 31 + 2 ^ 32)); lia.
  - rewrite Z.mod_small; lia.
  - rewrite <- (Z.mod_unique (x + 2 ^ 31) (2 ^ 32) 1 (x + 2 ^ 31 - 2 ^ 32)); lia.
Qed.

Ltac date_cases :=
  unfold date_ok, IS_VALID_DATE, DATETIME_MIN_JULIAN, POSTGRES_EPOCH_JDATE, DATE_END_JULIAN in *;
  repeat case_match;
  rewrite ?andb_true_iff, ?andb_false_iff, ?orb_true_iff, ?orb_false_iff, ?negb_true_iff, ?negb_false_iff, ?andb_true_iff, ?andb_false_iff, ?Z.leb_le, ?Z.leb_gt, ?Z.ltb_lt, ?Z.ltb_ge in *;
  first [done|lia].

(** Adding days gives the exact date or an error. *)
Lemma date_pli_exact v n : date_ok v -> - 2 ^ 31 <= n < 2 ^ 31 -> date_pli v n = if IS_VALID_DATE (v + n) then Ok (v + n) else Err "date out of range".
Proof. intros Hv Hn. unfold date_pli. rewrite finite_ok by done. rewrite swrap32_cases by (apply date_ok_spec in Hv; date_cases). date_cases. Qed.

Lemma date_mii_exact v n : date_ok v -> - 2 ^ 31 <= n < 2 ^ 31 -> date_mii v n = if IS_VALID_DATE (v - n) then Ok (v - n) else Err "date out of range".
Proof. intros Hv Hn. unfold date_mii. rewrite finite_ok by done. rewrite swrap32_cases by (apply date_ok_spec in Hv; date_cases). date_cases. Qed.

Lemma date_mi_exact v w : date_ok v -> date_ok w -> date_mi v w = Ok (v - w).
Proof. intros Hv Hw. unfold date_mi. rewrite !finite_ok by done. apply int_ok. apply date_ok_spec in Hv, Hw. unfold POSTGRES_EPOCH_JDATE, DATE_END_JULIAN in *. lia. Qed.

(** ** The constructor *)

(** The year in which 1 BC is zero, of a year in which it is -1. *)
Definition year_of (y : Z) : Z := if y <? 0 then y + 1 else y.

Lemma ValidateDate_date (bc : bool) y m d : 0 < y -> let iy := if bc then - (y - 1) else y in
  exists code, ValidateDate DTK_DATE_M false false bc (mk_tm y m d 0 0 0 0) = Ok (code, mk_tm iy m d 0 0 0 0) /\ (code =? 0) = valid_date iy m d.
Proof.
  intros Hy iy. unfold ValidateDate, internal_year, set_date. change (has DTK_DATE_M YEAR) with true. change (has DTK_DATE_M DOY) with false. change (has DTK_DATE_M MONTH) with true. change (has DTK_DATE_M DAY) with true. cbn [tm_year tm_mon tm_mday tm_hour tm_min tm_sec tm_yday andb]. rewrite Z.eqb_refl. destruct (Z.leb_spec y 0); [lia|].
  assert (E : (if bc then inl (- (y - 1)) else inl y : Z + Z) = inl iy) by (unfold iy; by destruct bc). rewrite E. cbn [res_bind tm_year tm_mon tm_mday tm_yday andb]. clearbody iy. unfold valid_date. fold (month_days iy m).
  destruct (Z.ltb_spec m 1); [exists DTERR_MD_FIELD_OVERFLOW; cbn [orb]; split; [done|]; by destruct (Z.leb_spec 1 m); [lia|]|]. unfold MONTHS_PER_YEAR. destruct (Z.ltb_spec 12 m); [exists DTERR_MD_FIELD_OVERFLOW; split; [done|]; destruct (Z.leb_spec m 12); [lia|]; by rewrite andb_false_r|]. cbn [orb].
  destruct (Z.leb_spec 1 m), (Z.leb_spec m 12); [|lia..]. cbn [andb]. pose proof (month_days_bounds iy m ltac:(lia)) as [Hb _].
  destruct (Z.ltb_spec d 1), (Z.ltb_spec 31 d), (Z.leb_spec 1 d), (Z.leb_spec d (month_days iy m)), (Z.ltb_spec (month_days iy m) d); cbn [orb andb]; first [lia|by eexists].
Qed.

(** The dates from day zero to the end of the range have years that date2j accepts. *)
Lemma range_julian y m d : valid_date y m d = true -> 0 <= jdn y m d < DATE_END_JULIAN -> IS_VALID_JULIAN y m = true /\ y < JULIAN_MAXYEAR.
Proof.
  unfold DATE_END_JULIAN. intros V Hj. pose proof (jdn_year y m d V) as Hy. assert (U : y < JULIAN_MAXYEAR). { destruct (Z.lt_ge_cases y JULIAN_MAXYEAR) as [|G]; [done|]. pose proof (jan1_mono _ _ G) as M. change (jdn JULIAN_MAXYEAR 1 1) with 2147483494 in M. lia. }
  split; [|done]. unfold IS_VALID_JULIAN. destruct (Z.ltb_spec y JULIAN_MAXYEAR); [|lia]. cbn [orb andb]. rewrite andb_true_r. destruct (Z.ltb_spec JULIAN_MINYEAR y); [done|]. cbn [orb]. unfold JULIAN_MINYEAR, JULIAN_MINMONTH in *. destruct (Z.eqb_spec y (-4713)) as [->|].
  - apply valid_date_spec in V as [Hm Hd]. destruct (Z.leb_spec 11 m); [done|]. rewrite jdn_day in Hj. pose proof (month_days_bounds (-4713) m Hm) as [Hb _].
    assert (H11 : all_from 1 10 (fun m => jdn (-4713) m 1 <=? -54) = true) by done. pose proof (all_from_spec _ _ _ m H11 ltac:(lia)) as L. apply Z.leb_le in L. lia.
  - pose proof (jan1_mono (y + 1) (-4713) ltac:(lia)) as M. change (jdn (-4713) 1 1) with (-327) in M. lia.
Qed.

(** The date of a value. *)
Lemma date_of_value v y m d : date_ok v -> j2date (v + POSTGRES_EPOCH_JDATE) = (y, m, d) <-> valid_date y m d = true /\ IS_VALID_JULIAN y m = true /\ jdn y m d = v + POSTGRES_EPOCH_JDATE.
Proof.
  rewrite date_ok_spec. unfold POSTGRES_EPOCH_JDATE. intros Hv. unfold DATE_END_JULIAN in Hv. rewrite j2date_jdate by lia. split; [|intros (V & _ & <-); by apply jdate_jdn].
  intros E. pose proof (jdn_jdate (v + 2451545)) as J. rewrite E in J. destruct J as [V J]. split_and!; [done| |done]. apply (range_julian y m d V). unfold DATE_END_JULIAN. lia.
Qed.

Lemma make_date_spec y m d v : - 2 ^ 31 <= y < 2 ^ 31 ->
  make_date y m d = Ok v <-> y <> 0 /\ date_ok v /\ j2date (v + POSTGRES_EPOCH_JDATE) = (year_of y, m, d).
Proof.
  intros Hy. unfold make_date. set (yy := if y <? 0 then swrap 32 (- y) else y). destruct (Z.eq_dec y 0) as [->|Hz]; [split; [done|by intros [? _]]|]. destruct (Z.eq_dec y (- 2 ^ 31)) as [->|Hmin].
  { split; [done|]. intros (_ & Hv & E). by apply date_of_value in E as (_ & R & _). }
  assert (Hyy : 0 < yy /\ (if y <? 0 then - (yy - 1) else yy) = year_of y) by (unfold yy, year_of; destruct (Z.ltb_spec y 0); rewrite ?s32 by lia; lia). destruct Hyy as [Hpos Eyy]. clearbody yy. destruct (ValidateDate_date (y <? 0) yy m d Hpos) as (code & -> & Ec). rewrite Eyy in *. cbn [res_bind tm_year tm_mon tm_mday]. rewrite Ec. set (iy := year_of y) in *. clearbody iy.
  destruct (valid_date iy m d) eqn:V; cbn [negb]; [|split; [done|]; intros (_ & Hv & E); apply date_of_value in E as (? & _); [congruence|done]].
  destruct (IS_VALID_JULIAN iy m) eqn:J; cbn [negb]; [|split; [done|]; intros (_ & Hv & E); apply date_of_value in E as (_ & ? & _); [congruence|done]].
  destruct (julian_jdn iy m d V J) as [-> Hr]. cbn [res_bind]. rewrite int_ok by (unfold POSTGRES_EPOCH_JDATE; lia). cbn [res_bind]. destruct (IS_VALID_DATE (jdn iy m d - POSTGRES_EPOCH_JDATE)) eqn:D; cbn [negb].
  - split; [intros [= <-]; split_and!; [done|done|]; apply date_of_value; [done|]; split_and!; [done|done|lia]|]. intros (_ & Hv & E). apply date_of_value in E as (_ & _ & E); [|done]. f_equal. lia.
  - split; [done|]. intros (_ & Hv & E). apply date_of_value in E as (_ & _ & E); [|done]. unfold date_ok in Hv. rewrite E, Z.add_simpl_r in D. congruence.
Qed.

(** ** Theorems *)

(** C30: Julian day numbers are the calendar.  Every date of the Gregorian calendar whose
    year and month IS_VALID_JULIAN accepts has a number, from which j2date gives the date
    back, and the day after has the next number; every number from zero on that fits is the
    number of a valid date; the number of 2000-01-01 is that of the epoch. *)
Theorem calendar_roundtrip :
  (forall y m d, IS_VALID_JULIAN y m = true -> valid_date y m d = true ->
     exists j, date2j y m d = Ok j /\ j2date j = (y, m, d)
     /\ (let '(y', m', d') := next_day y m d in valid_date y' m' d' = true /\ (IS_VALID_JULIAN y' m' = true -> date2j y' m' d' = Ok (j + 1))))
  /\ (forall j, 0 <= j < 2 ^ 31 -> exists y m d, j2date j = (y, m, d) /\ valid_date y m d = true /\ date2j y m d = Ok j)
  /\ date2j 2000 1 1 = Ok POSTGRES_EPOCH_JDATE.
Proof.
  split_and!; [| |done].
  - intros y m d J V. destruct (julian_jdn y m d V J) as [E Hr]. exists (jdn y m d). split_and!; [done|rewrite j2date_jdate by lia; by apply jdate_jdn|]. pose proof (jdn_next y m d V) as N. destruct (next_day y m d) as [[y' m'] d']. destruct N as [V' N]. split; [done|]. intros J'. rewrite <- N. by apply julian_jdn.
  - intros j Hj. pose proof (jdn_jdate j) as E. rewrite j2date_jdate by lia. destruct (jdate j) as [[y m] d]. destruct E as [V <-]. exists y, m, d. split_and!; [done|done|]. apply date2j_jdn; [by eapply jdn_year_ok|done|lia].
Qed.

Lemma calendar_roundtrip_witness : exists j, date2j 2023 12 31 = Ok j /\ j2date j = (2023, 12, 31) /\ date2j 2024 1 1 = Ok (j + 1).
Proof.
  destruct (proj1 calendar_roundtrip 2023 12 31 eq_refl eq_refl) as (j & E1 & E2 & N). exists j. split_and!; [exact E1|exact E2|]. by apply N.
Defined.

(** C31: ISO 8601 weeks.  For every date whose year is not the last, the ISO year and week are
    found, the week is one of 1 to 53, isoweek2j gives its Monday, the date is one of the
    seven days from that Monday on, the Thursday of the week is in the ISO year, the weekday
    in that week of that year gives the date back, and the day of the ISO year counts from
    the Monday of its first week. *)
Theorem iso_week y m d :
  IS_VALID_JULIAN y m = true -> y < JULIAN_MAXYEAR -> valid_date y m d = true ->
  exists j isoyear week monday wday, date2j y m d = Ok j /\ date2isoyear y m d = Ok isoyear /\ date2isoweek y m d = Ok week
    /\ 1 <= week <= 53 /\ isoweek2j isoyear week = Ok monday /\ j2day monday = Ok 1 /\ monday <= j <= monday + 6
    /\ (j2date (monday + 3)).1.1 = isoyear
    /\ j2day j = Ok wday /\ isoweekdate2date week (wday + 1) isoyear = Ok (y, m, d)
    /\ (exists first, isoweek2j isoyear 1 = Ok first /\ date2isoyearday y m d = Ok (j - first + 1)).
Proof.
  intros J Hy V. destruct (julian_jdn y m d V J) as [Ej Hr]. pose proof J as J'. unfold IS_VALID_JULIAN, JULIAN_MINYEAR in J'. assert (HY : year_ok (y - 1) /\ year_ok (y + 1)) by (unfold year_ok; rewrite andb_true_iff, !orb_true_iff, andb_true_iff, Z.ltb_lt, Z.eqb_eq in J'; lia). destruct HY as [H1 H2].
  destruct (iso_year y m d V H1 H2) as (Y & HY & HW & EY & EW). assert (Hok : year_ok Y) by (unfold year_ok in *; lia). pose proof (jdn_year y m d V) as Hyr. pose proof (jan1_range _ H2) as Hend. unfold DATE_END_JULIAN in Hend. pose proof (jdate_jdn y m d V) as Ed. set (j := jdn y m d) in *. clearbody j. pose proof (week1_next Y) as WN. pose proof (jan1_range Y Hok) as HrY. pose proof (week1_jan1 Y) as HwY. pose proof (week1_jan1 (Y + 1)) as HwN. unfold DATE_END_JULIAN in HrY.
  destruct (week_split Y j) as [Ew Hmod]. set (w := (j - week1 Y) / 7) in *. assert (Hw53 : 0 <= w <= 52) by lia. clearbody w.
  exists j, Y, (w + 1), (week1 Y + 7 * w), ((j + 1) mod 7). assert (EM : isoweek2j Y (w + 1) = Ok (week1 Y + 7 * w)) by (rewrite isoweek2j_ok by (done || lia); f_equal; lia). split_and!; try done; try lia.
  - rewrite j2day_mod by lia. by rewrite monday_mod.
  - rewrite j2date_jdate by lia. apply jdate_year. lia.
  - apply j2day_mod. lia.
  - unfold isoweekdate2date. rewrite EM. cbn [res_bind]. rewrite weekday_next, <- Ed, <- j2date_jdate by lia. destruct (Z.eqb_spec (j mod 7) 6); [change (1 <? 0 + 1) with false; cbv iota|destruct (Z.ltb_spec 1 (j mod 7 + 1 + 1)); [|lia]]; rewrite int_ok by lia; cbn [res_bind]; do 2 f_equal; lia.
  - exists (week1 Y). assert (E1 : isoweek2j Y 1 = Ok (week1 Y)) by (rewrite isoweek2j_ok by (done || lia); f_equal; lia). split; [done|]. unfold date2isoyearday. rewrite Ej, EY. cbn [res_bind]. rewrite E1. cbn [res_bind]. apply int_ok. lia.
Qed.

Lemma iso_week_witness : exists j isoyear week monday wday, date2j 2021 1 3 = Ok j /\ date2isoyear 2021 1 3 = Ok isoyear /\ date2isoweek 2021 1 3 = Ok week
  /\ 1 <= week <= 53 /\ isoweek2j isoyear week = Ok monday /\ j2day monday = Ok 1 /\ monday <= j <= monday + 6
  /\ (j2date (monday + 3)).1.1 = isoyear
  /\ j2day j = Ok wday /\ isoweekdate2date week (wday + 1) isoyear = Ok (2021, 1, 3)
  /\ (exists first, isoweek2j isoyear 1 = Ok first /\ date2isoyearday 2021 1 3 = Ok (j - first + 1)).
Proof. apply (iso_week 2021 1 3); done. Defined.

(** Values of the type date.  make_date makes a value out of a year that is not zero, a
    month and a day exactly when they are the date of a value in the range, whatever integers
    they are; adding and subtracting days gives the exact date, or an error when it leaves
    the range (also when the 32-bit sum wraps around), leaves infinite dates alone, and the
    difference of two dates undoes it; the larger and the smaller date are as compared. *)
Theorem date_values :
  (forall y m d v, in_s 32 y -> make_date y m d = Ok v <-> y <> 0 /\ date_ok v /\ j2date (v + POSTGRES_EPOCH_JDATE) = (year_of y, m, d))
  /\ (forall v n, date_ok v -> in_s 32 n -> date_pli v n = (if IS_VALID_DATE (v + n) then Ok (v + n) else Err "date out of range")
        /\ date_mii v n = (if IS_VALID_DATE (v - n) then Ok (v - n) else Err "date out of range"))
  /\ (forall v n w, date_ok v -> in_s 32 n -> date_pli v n = Ok w -> date_ok w /\ date_mi w v = Ok n /\ date_mii w n = Ok v)
  /\ (forall v n, date_finite v = false -> date_pli v n = Ok v /\ date_mii v n = Ok v)
  /\ (forall v w, date_larger v w = Z.max v w /\ date_smaller v w = Z.min v w /\ date_cmp v w = Z.sgn (v - w)).
Proof.
  unfold in_s. change (32 - 1) with 31. split_and!.
  - intros y m d v Hy. by apply make_date_spec.
  - intros v n Hv Hn. split; [by apply date_pli_exact|by apply date_mii_exact].
  - intros v n w Hv Hn E. rewrite date_pli_exact in E by done. destruct (IS_VALID_DATE (v + n)) eqn:D; [|done]. injection E as <-. split_and!; [done|rewrite date_mi_exact by done; f_equal; lia|]. rewrite date_mii_exact, Z.add_simpl_r by done. by rewrite Hv.
  - intros v n. unfold date_finite. rewrite negb_false_iff. intros F. unfold date_pli, date_mii. by rewrite F.
  - intros v w. unfold date_larger, date_smaller, date_cmp. split_and!; repeat case_match; lia.
Qed.

Lemma date_values_witness : date_pli 0 366 = Ok 366 /\ date_mi 366 0 = Ok 366.
Proof.
  destruct date_values as (_ & _ & H & _). split; [reflexivity|]. apply (H 0 366 366); [reflexivity|unfold in_s; lia|reflexivity].
Defined.
