(* ===== verification/Timestamps.v ===== *)
(** Timestamps and intervals: conversion to and from fields, arithmetic, truncation
    (backend/utils/adt/timestamp.c), and their conversions from and to dates and times of day
    (date.c).

    A timestamp counts microseconds from 2000-01-01 on, an interval has months, days and
    microseconds.  Sums and products that can leave their type wrap around ([int4], [int8]);
    those that cannot, whatever the arguments are, are written without.  Time zones are not
    modelled: timestamp2tm is the function as it is called without one. *)

From S2P Require Import Prelude Dates.
Local Open Scope Z_scope.
Local Open Scope pg_scope.

(** The values of int32 and int64 expressions. *)
Definition int4 (x : Z) : Z := swrap 32 x.
Definition int8 (x : Z) : Z := swrap 64 x.

Definition INT_MIN : Z := - 2 ^ 31.
Definition INT_MAX : Z := 2 ^ 31 - 1.

Definition DAYS_PER_MONTH : Z := 30.
Definition HOURS_PER_DAY : Z := 24.
Definition SECS_PER_MINUTE : Z := 60.
Definition MINS_PER_HOUR : Z := 60.
Definition USECS_PER_DAY : Z := 86400000000.
Definition USECS_PER_HOUR : Z := 3600000000.
Definition USECS_PER_MINUTE : Z := 60000000.
Definition USECS_PER_SEC : Z := 1000000.

Definition DT_NOBEGIN : Z := - 2 ^ 63.
Definition DT_NOEND : Z := 2 ^ 63 - 1.
Definition TIMESTAMP_NOT_FINITE (j : Z) : bool := (j =? DT_NOBEGIN) || (j =? DT_NOEND).
Definition TIMESTAMP_END_JULIAN : Z := 109203528.
Definition MIN_TIMESTAMP : Z := -211813488000000000.
Definition END_TIMESTAMP : Z := 9223371331200000000.
Definition IS_VALID_TIMESTAMP (t : Z) : bool := (MIN_TIMESTAMP <=? t) && (t <? END_TIMESTAMP).

(** [pg_add_s32_overflow], [pg_mul_s64_overflow], [pg_add_s64_overflow]: the result if it fits *)
Definition s_fits (w x : Z) : option Z := if (- 2 ^ (w - 1) <=? x) && (x <? 2 ^ (w - 1)) then Some x else None.
Definition add_s32 (a b : Z) : option Z := s_fits 32 (a + b).
Definition mul_s64 (a b : Z) : option Z := s_fits 64 (a * b).
Definition add_s64 (a b : Z) : option Z := s_fits 64 (a + b).
Definition sub_s64 (a b : Z) : option Z := s_fits 64 (a - b).

(** The remainder and the quotient. *)
Definition TMODULO (t u : Z) : Z * Z :=
  let q := Z.quot t u in
  (if negb (q =? 0) then t - q * u else t, q).

Definition SAMESIGN (a b : Z) : bool := Bool.eqb (a <? 0) (b <? 0).

(** An error for no result. *)
Definition out_of_range {A} (msg : string) (x : option A) : res A := match x with Some a => Ok a | None => Err msg end.
Definition TIMESTAMP_RANGE : string := "timestamp out of range".
Definition INTERVAL_RANGE : string := "interval out of range".

(** ** Fields *)

Definition dt2time (jd : Z) : Z * Z * Z * Z :=
  let time := jd in
  let hour := int4 (Z.quot time USECS_PER_HOUR) in
  let time := time - hour * USECS_PER_HOUR in
  let min := int4 (Z.quot time USECS_PER_MINUTE) in
  let time := time - min * USECS_PER_MINUTE in
  let sec := int4 (Z.quot time USECS_PER_SEC) in
  (hour, min, sec, int4 (time - sec * USECS_PER_SEC)).

(** The fields and the microseconds, or nothing if the timestamp is out of range. *)
Definition timestamp2tm (dt : Z) : option (pg_tm * Z) :=
  let '(time, date) := TMODULO dt USECS_PER_DAY in
  let '(time, date) := if time <? 0 then (time + USECS_PER_DAY, date - 1) else (time, date) in
  let date := date + POSTGRES_EPOCH_JDATE in
  if (date <? 0) || (INT_MAX <? date) then None
  else
    let '(year, mon, mday) := j2date date in
    let '(hour, min, sec, fsec) := dt2time time in
    Some (mk_tm year mon mday hour min sec 0, fsec).

Definition time2t (hour min sec fsec : Z) : Z := int4 (int4 (int4 (hour * MINS_PER_HOUR + min) * SECS_PER_MINUTE) + sec) * USECS_PER_SEC + fsec.

Definition dt2local (dt timezone : Z) : Z := int8 (dt - timezone * USECS_PER_SEC).

Definition tm2timestamp (tm : pg_tm) (fsec : Z) (tzp : option Z) : res (option Z) :=
  if negb (IS_VALID_JULIAN (tm_year tm) (tm_mon tm)) then Ok None
  else
    julian <-! date2j (tm_year tm) (tm_mon tm) (tm_mday tm) ;;
    date <-! int (julian - POSTGRES_EPOCH_JDATE) ;;
    let time := time2t (tm_hour tm) (tm_min tm) (tm_sec tm) fsec in
    let result := int8 (date * USECS_PER_DAY + time) in
    if negb (Z.quot (int8 (result - time)) USECS_PER_DAY =? date) then Ok None
    else if ((result <? 0) && (0 <? date)) || ((0 <? result) && (date <? -1)) then Ok None
    else
      let result := match tzp with Some tz => dt2local result (- tz) | None => result end in
      if negb (IS_VALID_TIMESTAMP result) then Ok None else Ok (Some result).

(** ** Intervals *)

Record Interval : Set := mk_interval { i_time : Z; i_day : Z; i_month : Z }.

Record pg_itm : Set := mk_itm { itm_usec : Z; itm_sec : Z; itm_min : Z; itm_hour : Z; itm_mday : Z; itm_mon : Z; itm_year : Z }.

Definition interval2itm (span : Interval) : pg_itm :=
  let time := i_time span in
  let hour := Z.quot time USECS_PER_HOUR in
  let time := time - hour * USECS_PER_HOUR in
  let min := Z.quot time USECS_PER_MINUTE in
  let time := time - min * USECS_PER_MINUTE in
  let sec := Z.quot time USECS_PER_SEC in
  let time := time - sec * USECS_PER_SEC in
  mk_itm time sec min hour (i_day span) (Z.rem (i_month span) MONTHS_PER_YEAR) (Z.quot (i_month span) MONTHS_PER_YEAR).

Definition itm2interval (itm : pg_itm) : option Interval :=
  let total_months := itm_year itm * MONTHS_PER_YEAR + itm_mon itm in
  if (INT_MAX <? total_months) || (total_months <? INT_MIN) then None
  else
    time ← mul_s64 (itm_hour itm) USECS_PER_HOUR;
    time ← add_s64 time (itm_min itm * USECS_PER_MINUTE);
    time ← add_s64 time (itm_sec itm * USECS_PER_SEC);
    time ← add_s64 time (itm_usec itm);
    Some (mk_interval time (itm_mday itm) total_months).

(** The 128-bit number of microseconds. *)
Definition interval_cmp_value (interval : Interval) : Z :=
  let days := i_month interval * 30 + i_day interval in
  i_time interval + days * USECS_PER_DAY.

Definition int128_compare (x y : Z) : Z := if x <? y then -1 else if y <? x then 1 else 0.
Definition interval_cmp_internal (interval1 interval2 : Interval) : Z := int128_compare (interval_cmp_value interval1) (interval_cmp_value interval2).

Definition interval_smaller (interval1 interval2 : Interval) : Interval := if interval_cmp_internal interval1 interval2 <? 0 then interval1 else interval2.
Definition interval_larger (interval1 interval2 : Interval) : Interval := if 0 <? interval_cmp_internal interval1 interval2 then interval1 else interval2.

(** The negation of a field, with the check copied from int4um. *)
Definition field_um (w x : Z) : res Z :=
  let r := swrap w (- x) in
  if negb (x =? 0) && SAMESIGN r x then Err INTERVAL_RANGE else Ok r.
Definition interval_um (interval : Interval) : res Interval :=
  time <-! field_um 64 (i_time interval) ;;
  day <-! field_um 32 (i_day interval) ;;
  month <-! field_um 32 (i_month interval) ;;
  Ok (mk_interval time day month).

Definition field_pl (w x y : Z) : res Z :=
  let r := swrap w (x + y) in
  if SAMESIGN x y && negb (SAMESIGN r x) then Err INTERVAL_RANGE else Ok r.
Definition interval_pl (span1 span2 : Interval) : res Interval :=
  month <-! field_pl 32 (i_month span1) (i_month span2) ;;
  day <-! field_pl 32 (i_day span1) (i_day span2) ;;
  time <-! field_pl 64 (i_time span1) (i_time span2) ;;
  Ok (mk_interval time day month).

Definition field_mi (w x y : Z) : res Z :=
  let r := swrap w (x - y) in
  if negb (SAMESIGN x y) && negb (SAMESIGN r x) then Err INTERVAL_RANGE else Ok r.
Definition interval_mi (span1 span2 : Interval) : res Interval :=
  month <-! field_mi 32 (i_month span1) (i_month span2) ;;
  day <-! field_mi 32 (i_day span1) (i_day span2) ;;
  time <-! field_mi 64 (i_time span1) (i_time span2) ;;
  Ok (mk_interval time day month).

(** Whole days out of the time, and whole months out of the days: the signs are made equal
    by borrowing. *)
Definition borrow_day (time day : Z) : Z * Z :=
  if (0 <? day) && (time <? 0) then (time + USECS_PER_DAY, day - 1)
  else if (day <? 0) && (0 <? time) then (time - USECS_PER_DAY, day + 1)
  else (time, day).

Definition interval_justify_hours (span : Interval) : res Interval :=
  let '(time, wholeday) := TMODULO (i_time span) USECS_PER_DAY in
  day <-! out_of_range INTERVAL_RANGE (add_s32 (i_day span) (int4 wholeday)) ;;
  let '(time, day) := borrow_day time day in
  Ok (mk_interval time day (i_month span)).

(** The days that are left, and the month. *)
Definition whole_months (day month : Z) : res (Z * Z) :=
  let wholemonth := Z.quot day DAYS_PER_MONTH in
  let day := day - wholemonth * DAYS_PER_MONTH in
  month <-! out_of_range INTERVAL_RANGE (add_s32 month wholemonth) ;;
  Ok (day, month).

Definition interval_justify_days (span : Interval) : res Interval :=
  '(day, month) <-! whole_months (i_day span) (i_month span) ;;
  let '(day, month) :=
    if (0 <? month) && (day <? 0) then (day + DAYS_PER_MONTH, month - 1)
    else if (month <? 0) && (0 <? day) then (day - DAYS_PER_MONTH, month + 1)
    else (day, month) in
  Ok (mk_interval (i_time span) day month).

Definition interval_justify_interval (span : Interval) : res Interval :=
  '(day, month) <-!
    (if ((0 <? i_day span) && (0 <? i_time span)) || ((i_day span <? 0) && (i_time span <? 0)) then whole_months (i_day span) (i_month span)
     else Ok (i_day span, i_month span)) ;;
  let '(time, wholeday) := TMODULO (i_time span) USECS_PER_DAY in
  let day := int4 (day + wholeday) in
  '(day, month) <-! whole_months day month ;;
  let '(day, month) :=
    if (0 <? month) && ((day <? 0) || ((day =? 0) && (time <? 0))) then (day + DAYS_PER_MONTH, month - 1)
    else if (month <? 0) && ((0 <? day) || ((day =? 0) && (0 <? time))) then (day - DAYS_PER_MONTH, month + 1)
    else (day, month) in
  let '(time, day) := borrow_day time day in
  Ok (mk_interval time day month).

(** ** Timestamps *)

Definition timestamp_cmp_internal (dt1 dt2 : Z) : Z := if dt1 <? dt2 then -1 else if dt2 <? dt1 then 1 else 0.
Definition timestamp_smaller (dt1 dt2 : Z) : Z := if timestamp_cmp_internal dt1 dt2 <? 0 then dt1 else dt2.
Definition timestamp_larger (dt1 dt2 : Z) : Z := if 0 <? timestamp_cmp_internal dt1 dt2 then dt1 else dt2.

Definition timestamp_mi (dt1 dt2 : Z) : res Interval :=
  if TIMESTAMP_NOT_FINITE dt1 || TIMESTAMP_NOT_FINITE dt2 then Err "cannot subtract infinite timestamps"
  else
    time <-! out_of_range INTERVAL_RANGE (sub_s64 dt1 dt2) ;;
    interval_justify_hours (mk_interval time 0 0).

(** The year and the month after [months] more. *)
Definition shift_months (year mon months : Z) : Z * Z :=
  let mon := int4 (mon + months) in
  if MONTHS_PER_YEAR <? mon then (year + Z.quot (mon - 1) MONTHS_PER_YEAR, Z.rem (mon - 1) MONTHS_PER_YEAR + 1)
  else if mon <? 1 then (year + (Z.quot mon MONTHS_PER_YEAR - 1), Z.rem mon MONTHS_PER_YEAR + MONTHS_PER_YEAR)
  else (year, mon).

(** The three stages of the addition. *)
Definition pl_months (timestamp months : Z) : res Z :=
  '(tm, fsec) <-! out_of_range TIMESTAMP_RANGE (timestamp2tm timestamp) ;;
  let '(year, mon) := shift_months (tm_year tm) (tm_mon tm) months in
  let last := rd (day_tab (isleap year)) (Z.to_nat (mon - 1)) in
  let mday := if last <? tm_mday tm then last else tm_mday tm in
  t <-! tm2timestamp (mk_tm year mon mday (tm_hour tm) (tm_min tm) (tm_sec tm) 0) fsec None ;;
  out_of_range TIMESTAMP_RANGE t.

Definition pl_days (timestamp days : Z) : res Z :=
  '(tm, fsec) <-! out_of_range TIMESTAMP_RANGE (timestamp2tm timestamp) ;;
  julian <-! date2j (tm_year tm) (tm_mon tm) (tm_mday tm) ;;
  let '(year, mon, mday) := j2date (int4 (julian + days)) in
  t <-! tm2timestamp (mk_tm year mon mday (tm_hour tm) (tm_min tm) (tm_sec tm) 0) fsec None ;;
  out_of_range TIMESTAMP_RANGE t.

Definition timestamp_pl_interval (timestamp : Z) (span : Interval) : res Z :=
  if TIMESTAMP_NOT_FINITE timestamp then Ok timestamp
  else
    timestamp <-! (if negb (i_month span =? 0) then pl_months timestamp (i_month span) else Ok timestamp) ;;
    timestamp <-! (if negb (i_day span =? 0) then pl_days timestamp (i_day span) else Ok timestamp) ;;
    let timestamp := int8 (timestamp + i_time span) in
    if negb (IS_VALID_TIMESTAMP timestamp) then Err TIMESTAMP_RANGE else Ok timestamp.

Definition timestamp_mi_interval (timestamp : Z) (span : Interval) : res Z :=
  timestamp_pl_interval timestamp (mk_interval (int8 (- i_time span)) (int4 (- i_day span)) (int4 (- i_month span))).

Definition BAD_OFFSET : string := "invalid preceding or following size in window function".

Definition in_range_timestamp_interval (val base : Z) (offset : Interval) (sub less : bool) : res bool :=
  if int128_compare (interval_cmp_value offset) 0 <? 0 then Err BAD_OFFSET
  else
    sum <-! (if sub then timestamp_mi_interval base offset else timestamp_pl_interval base offset) ;;
    Ok (if less then val <=? sum else sum <=? val).

Definition in_range_interval_interval (val base offset : Interval) (sub less : bool) : res bool :=
  if int128_compare (interval_cmp_value offset) 0 <? 0 then Err BAD_OFFSET
  else
    sum <-! (if sub then interval_mi base offset else interval_pl base offset) ;;
    Ok (if less then interval_cmp_internal val sum <=? 0 else 0 <=? interval_cmp_internal val sum).

(** *** Columns of less precision *)

Definition MAX_TIMESTAMP_PRECISION : Z := 6.
Definition TimestampScales : list Z := [1000000; 100000; 10000; 1000; 100; 10; 1].
Definition TimestampOffsets : list Z := [500000; 50000; 5000; 500; 50; 5; 0].

Definition AdjustTimestampForTypmod (time typmod : Z) : res Z :=
  if negb (TIMESTAMP_NOT_FINITE time) && negb (typmod =? -1) && negb (typmod =? MAX_TIMESTAMP_PRECISION) then
    if (typmod <? 0) || (MAX_TIMESTAMP_PRECISION <? typmod) then Err "timestamp precision must be between 0 and 6"
    else
      let scale := rd TimestampScales (Z.to_nat typmod) in
      let offset := rd TimestampOffsets (Z.to_nat typmod) in
      if 0 <=? time then Ok (Z.quot (int8 (time + offset)) scale * scale)
      else Ok (- (Z.quot (int8 (- time + offset)) scale * scale))
  else Ok time.

Definition timestamp_scale (timestamp typmod : Z) : res Z := AdjustTimestampForTypmod timestamp typmod.

(** *** Difference in fields *)

(** [while (low < 0) { low += unit; high--; }] *)
Fixpoint carry (fuel : nat) (unit low high : Z) : res (Z * Z) :=
  match fuel with
  | O => Err "out of fuel"
  | S fuel' => if low <? 0 then carry fuel' unit (low + unit) (high - 1) else Ok (low, high)
  end.

Definition itm_neg (itm : pg_itm) : pg_itm :=
  mk_itm (- itm_usec itm) (- itm_sec itm) (- itm_min itm) (- itm_hour itm) (- itm_mday itm) (- itm_mon itm) (- itm_year itm).

(** No loop has more than two passes. *)
Definition carry_fields (itm : pg_itm) (days : Z) : res pg_itm :=
  '(usec, sec) <-! carry 3 USECS_PER_SEC (itm_usec itm) (itm_sec itm) ;;
  '(sec, min) <-! carry 3 SECS_PER_MINUTE sec (itm_min itm) ;;
  '(min, hour) <-! carry 3 MINS_PER_HOUR min (itm_hour itm) ;;
  '(hour, mday) <-! carry 3 HOURS_PER_DAY hour (itm_mday itm) ;;
  '(mday, mon) <-! carry 3 days mday (itm_mon itm) ;;
  '(mon, year) <-! carry 3 MONTHS_PER_YEAR mon (itm_year itm) ;;
  Ok (mk_itm usec sec min hour mday mon year).

Definition timestamp_age (dt1 dt2 : Z) : res Interval :=
  match timestamp2tm dt1, timestamp2tm dt2 with
  | Some (tm1, fsec1), Some (tm2, fsec2) =>
      let tm := mk_itm (fsec1 - fsec2) (tm_sec tm1 - tm_sec tm2) (tm_min tm1 - tm_min tm2) (tm_hour tm1 - tm_hour tm2)
                  (tm_mday tm1 - tm_mday tm2) (tm_mon tm1 - tm_mon tm2) (tm_year tm1 - tm_year tm2) in
      let tm := if dt1 <? dt2 then itm_neg tm else tm in
      let from := if dt1 <? dt2 then tm1 else tm2 in
      tm <-! carry_fields tm (rd (day_tab (isleap (tm_year from))) (Z.to_nat (tm_mon from - 1))) ;;
      let tm := if dt1 <? dt2 then itm_neg tm else tm in
      out_of_range INTERVAL_RANGE (itm2interval tm)
  | _, _ => Err TIMESTAMP_RANGE
  end.

(** *** Bins and truncation *)

Definition timestamp_bin (stride : Interval) (timestamp origin : Z) : res Z :=
  if TIMESTAMP_NOT_FINITE timestamp then Ok timestamp
  else if TIMESTAMP_NOT_FINITE origin then Err "origin out of range"
  else if negb (i_month stride =? 0) then Err "timestamps cannot be binned into intervals containing months or years"
  else
    let stride_usecs := int8 (i_day stride * USECS_PER_DAY + i_time stride) in
    if stride_usecs <=? 0 then Err "stride must be greater than zero"
    else
      let tm_diff := int8 (timestamp - origin) in
      let tm_delta := tm_diff - Z.rem tm_diff stride_usecs in
      let tm_delta := if (timestamp <? origin) && (1 <? stride_usecs) then int8 (tm_delta - stride_usecs) else tm_delta in
      Ok (int8 (origin + tm_delta)).

(** The units that DecodeUnits knows; [DTK_OTHER] is any that is not supported here. *)
Inductive unit_of_time : Set :=
| DTK_WEEK | DTK_MILLENNIUM | DTK_CENTURY | DTK_DECADE | DTK_YEAR | DTK_QUARTER | DTK_MONTH | DTK_DAY
| DTK_HOUR | DTK_MINUTE | DTK_SECOND | DTK_MILLISEC | DTK_MICROSEC | DTK_OTHER.

#[export] Instance unit_of_time_eq_dec : EqDecision unit_of_time.
Proof. solve_decision. Defined.

(** The cases of the switch fall through from the greater to the smaller units: the place of
    a unit in that order. *)
Definition unit_rank (val : unit_of_time) : Z :=
  match val with
  | DTK_MILLENNIUM => 10 | DTK_CENTURY => 9 | DTK_DECADE => 8 | DTK_YEAR => 7 | DTK_QUARTER => 6 | DTK_MONTH => 5 | DTK_DAY => 4
  | DTK_HOUR => 3 | DTK_MINUTE => 2 | DTK_SECOND => 1 | _ => 0
  end.
Definition falls_through (val label : unit_of_time) : bool := unit_rank label <=? unit_rank val.

Definition trunc_year (val : unit_of_time) (year : Z) : Z :=
  let year := if falls_through val DTK_MILLENNIUM then
    if 0 <? year then Z.quot (year + 999) 1000 * 1000 - 999 else - Z.quot (999 - (year - 1)) 1000 * 1000 + 1 else year in
  let year := if falls_through val DTK_CENTURY then
    if 0 <? year then Z.quot (year + 99) 100 * 100 - 99 else - Z.quot (99 - (year - 1)) 100 * 100 + 1 else year in
  match val with
  | DTK_DECADE => if 0 <? year then Z.quot year 10 * 10 else - Z.quot (8 - (year - 1)) 10 * 10
  | _ => year
  end.

Definition trunc_fields (val : unit_of_time) (tm : pg_tm) : pg_tm :=
  let mon := if falls_through val DTK_YEAR then 1 else tm_mon tm in
  let mon := if falls_through val DTK_QUARTER then 3 * Z.quot (mon - 1) 3 + 1 else mon in
  mk_tm (trunc_year val (tm_year tm)) mon
    (if falls_through val DTK_MONTH then 1 else tm_mday tm)
    (if falls_through val DTK_DAY then 0 else tm_hour tm)
    (if falls_through val DTK_HOUR then 0 else tm_min tm)
    (if falls_through val DTK_MINUTE then 0 else tm_sec tm) (tm_yday tm).

Definition trunc_week (tm : pg_tm) : res pg_tm :=
  woy <-! date2isoweek (tm_year tm) (tm_mon tm) (tm_mday tm) ;;
  let year := if (52 <=? woy) && (tm_mon tm =? 1) then tm_year tm - 1 else tm_year tm in
  let year := if (woy <=? 1) && (tm_mon tm =? MONTHS_PER_YEAR) then year + 1 else year in
  '(y, m, d) <-! isoweek2date woy year ;;
  Ok (mk_tm y m d 0 0 0 (tm_yday tm)).

Definition timestamp_trunc (val : unit_of_time) (timestamp : Z) : res Z :=
  if TIMESTAMP_NOT_FINITE timestamp then Ok timestamp
  else
    '(tm, fsec) <-! out_of_range TIMESTAMP_RANGE (timestamp2tm timestamp) ;;
    '(tm, fsec) <-!
      match val with
      | DTK_WEEK => tm <-! trunc_week tm ;; Ok (tm, 0)
      | DTK_MILLISEC => Ok (tm, Z.quot fsec 1000 * 1000)
      | DTK_MICROSEC => Ok (tm, fsec)
      | DTK_OTHER => Err "unit not supported"
      | _ => Ok (trunc_fields val tm, 0)
      end ;;
    t <-! tm2timestamp tm fsec None ;;
    out_of_range TIMESTAMP_RANGE t.

Definition interval_trunc (val : unit_of_time) (interval : Interval) : res Interval :=
  let tm := interval2itm interval in
  let year := if falls_through val DTK_MILLENNIUM then Z.quot (itm_year tm) 1000 * 1000 else itm_year tm in
  let year := if falls_through val DTK_CENTURY then Z.quot year 100 * 100 else year in
  let year := if falls_through val DTK_DECADE then Z.quot year 10 * 10 else year in
  let mon := if falls_through val DTK_YEAR then 0 else itm_mon tm in
  let mon := if falls_through val DTK_QUARTER then 3 * Z.quot mon 3 else mon in
  let mday := if falls_through val DTK_MONTH then 0 else itm_mday tm in
  let hour := if falls_through val DTK_DAY then 0 else itm_hour tm in
  let min := if falls_through val DTK_HOUR then 0 else itm_min tm in
  let sec := if falls_through val DTK_MINUTE then 0 else itm_sec tm in
  usec <-!
    match val with
    | DTK_WEEK | DTK_OTHER => Err "unit not supported"
    | DTK_MILLISEC => Ok (Z.quot (itm_usec tm) 1000 * 1000)
    | DTK_MICROSEC => Ok (itm_usec tm)
    | _ => Ok 0
    end ;;
  out_of_range INTERVAL_RANGE (itm2interval (mk_itm usec sec min hour mday mon year)).

(** *** OVERLAPS *)

(** The endpoints of an interval in order, the first of them not null. *)
Definition endpoints (ts te : option Z) : option (Z * option Z) :=
  match ts, te with
  | None, None => None
  | None, Some e => Some (e, None)
  | Some s, None => Some (s, None)
  | Some s, Some e => if e <? s then Some (e, Some s) else Some (s, Some e)
  end.

(** The answer, or null. *)
Definition overlaps_timestamp (ts1 te1 ts2 te2 : option Z) : option bool :=
  match endpoints ts1 te1 with
  | None => None
  | Some (ts1, te1) =>
      match endpoints ts2 te2 with
      | None => None
      | Some (ts2, te2) =>
          if ts2 <? ts1 then
            te2 ← te2;
            if ts1 <? te2 then Some true else te1 ← te1; Some false
          else if ts1 <? ts2 then
            te1 ← te1;
            if ts2 <? te1 then Some true else te2 ← te2; Some false
          else te1 ← te1; te2 ← te2; Some true
      end
  end.

(** *** Series *)

Record series : Set := mk_series { current : Z; finish : Z; step : Interval; step_sign : Z }.

Definition series_start (start finish : Z) (step : Interval) : res series :=
  let step_sign := interval_cmp_internal step (mk_interval 0 0 0) in
  if step_sign =? 0 then Err "step size cannot equal zero" else Ok (mk_series start finish step step_sign).

(** The value returned, or nothing at the end, and the state for the next call. *)
Definition series_next (fctx : series) : res (option Z * series) :=
  let result := current fctx in
  if (if 0 <? step_sign fctx then timestamp_cmp_internal result (finish fctx) <=? 0 else 0 <=? timestamp_cmp_internal result (finish fctx)) then
    next <-! timestamp_pl_interval (current fctx) (step fctx) ;;
    Ok (Some result, mk_series next (finish fctx) (step fctx) (step_sign fctx))
  else Ok (None, fctx).

(** ** Dates and times of day *)

(** The timestamp, and whether it is beyond the range. *)
Definition date2timestamp_opt_overflow (dateVal : Z) : Z * bool :=
  if dateVal =? DATEVAL_NOBEGIN then (DT_NOBEGIN, false)
  else if dateVal =? DATEVAL_NOEND then (DT_NOEND, false)
  else if TIMESTAMP_END_JULIAN - POSTGRES_EPOCH_JDATE <=? dateVal then (DT_NOEND, true)
  else (dateVal * USECS_PER_DAY, false).

Definition date2timestamp (dateVal : Z) : res Z :=
  let '(result, overflow) := date2timestamp_opt_overflow dateVal in
  if overflow : bool then Err "date out of range for timestamp" else Ok result.

Definition date_cmp_timestamp_internal (dateVal dt2 : Z) : Z :=
  let '(dt1, overflow) := date2timestamp_opt_overflow dateVal in
  if overflow : bool then if dt2 =? DT_NOEND then -1 else 1 else timestamp_cmp_internal dt1 dt2.

Definition timestamp_date (timestamp : Z) : res Z :=
  if timestamp =? DT_NOBEGIN then Ok DATEVAL_NOBEGIN
  else if timestamp =? DT_NOEND then Ok DATEVAL_NOEND
  else
    '(tm, _) <-! out_of_range TIMESTAMP_RANGE (timestamp2tm timestamp) ;;
    julian <-! date2j (tm_year tm) (tm_mon tm) (tm_mday tm) ;;
    int (julian - POSTGRES_EPOCH_JDATE).

Definition date_pl_interval (dateVal : Z) (span : Interval) : res Z := dateStamp <-! date2timestamp dateVal ;; timestamp_pl_interval dateStamp span.
Definition date_mi_interval (dateVal : Z) (span : Interval) : res Z := dateStamp <-! date2timestamp dateVal ;; timestamp_mi_interval dateStamp span.

Definition in_range_date_interval (val base : Z) (offset : Interval) (sub less : bool) : res bool :=
  valStamp <-! date2timestamp val ;;
  baseStamp <-! date2timestamp base ;;
  in_range_timestamp_interval valStamp baseStamp offset sub less.

Definition tm2time (tm : pg_tm) (fsec : Z) : Z := time2t (tm_hour tm) (tm_min tm) (tm_sec tm) fsec.
Definition time2tm (time : Z) : Z * Z * Z * Z := dt2time time.

Definition time_overflows (hour min sec fsec : Z) : bool :=
  if (hour <? 0) || (HOURS_PER_DAY <? hour) || (min <? 0) || (MINS_PER_HOUR <=? min) || (sec <? 0) || (SECS_PER_MINUTE <? sec) || (fsec <? 0) || (USECS_PER_SEC <? fsec) then true
  else USECS_PER_DAY <? time2t hour min sec fsec.

Definition AdjustTimeForTypmod (time typmod : Z) : Z :=
  if (0 <=? typmod) && (typmod <=? 6) then
    let scale := rd TimestampScales (Z.to_nat typmod) in
    let offset := rd TimestampOffsets (Z.to_nat typmod) in
    if 0 <=? time then Z.quot (int8 (time + offset)) scale * scale
    else - (Z.quot (int8 (- time + offset)) scale * scale)
  else time.

(** NULL for an infinite timestamp. *)
Definition timestamp_time (timestamp : Z) : res (option Z) :=
  if TIMESTAMP_NOT_FINITE timestamp then Ok None
  else
    '(tm, fsec) <-! out_of_range TIMESTAMP_RANGE (timestamp2tm timestamp) ;;
    Ok (Some (time2t (tm_hour tm) (tm_min tm) (tm_sec tm) fsec)).

Definition datetime_timestamp (date time : Z) : res Z :=
  result <-! date2timestamp date ;;
  if TIMESTAMP_NOT_FINITE result then Ok result
  else
    let result := int8 (result + time) in
    if negb (IS_VALID_TIMESTAMP result) then Err TIMESTAMP_RANGE else Ok result.

Definition time_interval (time : Z) : Interval := mk_interval time 0 0.

Definition interval_time (span : Interval) : Z :=
  let result := i_time span in
  if USECS_PER_DAY <=? result then result - Z.quot result USECS_PER_DAY * USECS_PER_DAY
  else if result <? 0 then int8 (result + Z.quot (int8 (int8 (- result + USECS_PER_DAY) - 1)) USECS_PER_DAY * USECS_PER_DAY)
  else result.

Definition time_mi_time (time1 time2 : Z) : Interval := mk_interval (int8 (time1 - time2)) 0 0.

Definition within_day (result : Z) : Z :=
  let result := result - Z.quot result USECS_PER_DAY * USECS_PER_DAY in
  if result <? 0 then result + USECS_PER_DAY else result.
Definition time_pl_interval (time : Z) (span : Interval) : Z := within_day (int8 (time + i_time span)).
Definition time_mi_interval (time : Z) (span : Interval) : Z := within_day (int8 (time - i_time span)).

Definition in_range_time_interval (val base : Z) (offset : Interval) (sub less : bool) : res bool :=
  if i_time offset <? 0 then Err BAD_OFFSET
  else
    let sum := if sub then int8 (base - i_time offset) else int8 (base + i_time offset) in
    Ok (if less then val <=? sum else sum <=? val).

(** ** Waiting *)

Definition TimestampDifference (start_time stop_time : Z) : Z * Z :=
  let diff := int8 (stop_time - start_time) in
  if diff <=? 0 then (0, 0) else (Z.quot diff USECS_PER_SEC, Z.rem diff USECS_PER_SEC).

Definition TimestampDifferenceMilliseconds (start_time stop_time : Z) : Z :=
  if stop_time <=? start_time then 0
  else
    match sub_s64 stop_time start_time with
    | None => INT_MAX
    | Some diff => if INT_MAX * 1000 - 999 <=? diff then INT_MAX else Z.quot (diff + 999) 1000
    end.

Definition TimestampDifferenceExceeds (start_time stop_time msec : Z) : bool := msec * 1000 <=? int8 (stop_time - start_time).
