(* ===== verification/TimestampSpec.v ===== *)
(** Fields of timestamps and the stages of their arithmetic, against dates and the time of
    day. *)

From S2P Require Import Prelude Dates DatesProps Timestamps.
Local Open Scope Z_scope.
Local Open Scope pg_scope.

Ltac unfold_units := unfold USECS_PER_DAY, USECS_PER_HOUR, USECS_PER_MINUTE, USECS_PER_SEC, SECS_PER_MINUTE, MINS_PER_HOUR, HOURS_PER_DAY, POSTGRES_EPOCH_JDATE in *.

Lemma int4_id x : in_s 32 x -> int4 x = x.
Proof. apply s32. Qed.

Lemma int8_id x : in_s 64 x -> int8 x = x.
Proof. intros H. unfold int8, swrap, in_s in *. rewrite Z.mod_small; lia. Qed.

(** ** Times of day *)

(** Hours, minutes, seconds and microseconds make the time. *)
Definition time_of (hour min sec fsec : Z) : Z := ((hour * 60 + min) * 60 + sec) * USECS_PER_SEC + fsec.

Definition time_ok (hour min sec fsec : Z) : Prop := 0 <= hour < 24 /\ 0 <= min < 60 /\ 0 <= sec < 60 /\ 0 <= fsec < USECS_PER_SEC.

Lemma time_of_range h mi s f : time_ok h mi s f -> 0 <= time_of h mi s f < USECS_PER_DAY.
Proof. unfold time_ok, time_of. unfold_units. lia. Qed.

Lemma dt2time_time_of h mi s f : 0 <= h <= 24 -> 0 <= mi < 60 -> 0 <= s < 60 -> 0 <= f < USECS_PER_SEC -> dt2time (time_of h mi s f) = (h, mi, s, f).
Proof.
  intros Hh Hm Hs Hf. unfold dt2time, time_of in *. unfold_units. set (t := ((h * 60 + mi) * 60 + s) * 1000000 + f).
  assert (E1 : Z.quot t 3600000000 = h) by (rewrite Z.quot_div_nonneg by lia; symmetry; apply Z.div_unique with (r := (mi * 60 + s) * 1000000 + f); lia). rewrite E1, (int4_id h) by (unfold in_s; lia).
  assert (E2 : Z.quot (t - h * 3600000000) 60000000 = mi) by (rewrite Z.quot_div_nonneg by lia; symmetry; apply Z.div_unique with (r := s * 1000000 + f); lia). rewrite E2, (int4_id mi) by (unfold in_s; lia).
  assert (E3 : Z.quot (t - h * 3600000000 - mi * 60000000) 1000000 = s) by (rewrite Z.quot_div_nonneg by lia; symmetry; apply Z.div_unique with (r := f); lia). rewrite E3, (int4_id s) by (unfold in_s; lia). rewrite int4_id by (unfold in_s; lia). f_equal. lia.
Qed.

Lemma time_of_surj t : 0 <= t < USECS_PER_DAY -> exists h mi s f, time_ok h mi s f /\ t = time_of h mi s f.
Proof.
  unfold time_ok, time_of. unfold_units. intros Ht. exists (t / 3600000000), (t / 60000000 mod 60), (t / 1000000 mod 60), (t mod 1000000).
  pose proof (Z.div_mod t 1000000 ltac:(lia)). pose proof (Z.mod_pos_bound t 1000000 ltac:(lia)). pose proof (Z.div_mod (t / 1000000) 60 ltac:(lia)). pose proof (Z.mod_pos_bound (t / 1000000) 60 ltac:(lia)). assert (t / 60000000 = t / 1000000 / 60) as -> by (by rewrite Z.div_div by lia).
  assert (t / 3600000000 = t / 1000000 / 60 / 60) as -> by (by rewrite !Z.div_div by lia). pose proof (Z.div_mod (t / 1000000 / 60) 60 ltac:(lia)). pose proof (Z.mod_pos_bound (t / 1000000 / 60) 60 ltac:(lia)). lia.
Qed.

Lemma time2t_time_of h mi s f : 0 <= h <= 24 -> 0 <= mi <= 60 -> 0 <= s <= 60 -> time2t h mi s f = time_of h mi s f.
Proof. intros Hh Hm Hs. unfold time2t, time_of. unfold_units. rewrite (int4_id (h * 60 + mi)) by (unfold in_s; lia). rewrite (int4_id ((h * 60 + mi) * 60)) by (unfold in_s; lia). rewrite int4_id by (unfold in_s; lia). lia. Qed.

(** ** Timestamps *)

(** A day, by its Julian number, and a time of day. *)
Definition stamp (j tod : Z) : Z := (j - POSTGRES_EPOCH_JDATE) * USECS_PER_DAY + tod.
Definition day_of (t : Z) : Z := t / USECS_PER_DAY + POSTGRES_EPOCH_JDATE.
Definition tod_of (t : Z) : Z := t mod USECS_PER_DAY.

Definition stamp_ok (t : Z) : Prop := IS_VALID_TIMESTAMP t = true.

Lemma stamp_ok_spec t : stamp_ok t <-> MIN_TIMESTAMP <= t < END_TIMESTAMP.
Proof. unfold stamp_ok, IS_VALID_TIMESTAMP. rewrite andb_true_iff, Z.leb_le, Z.ltb_lt. done. Qed.

Lemma stamp_split t : t = stamp (day_of t) (tod_of t) /\ 0 <= tod_of t < USECS_PER_DAY.
Proof. unfold stamp, day_of, tod_of. unfold_units. pose proof (Z.div_mod t 86400000000 ltac:(lia)). pose proof (Z.mod_pos_bound t 86400000000 ltac:(lia)). lia. Qed.

Lemma day_of_stamp j tod : 0 <= tod < USECS_PER_DAY -> day_of (stamp j tod) = j /\ tod_of (stamp j tod) = tod.
Proof.
  unfold stamp, day_of, tod_of. unfold_units. intros H. split.
  - rewrite Z.div_add_l, Z.div_small by lia. lia.
  - rewrite Z.add_comm, Z.mod_add by lia. by apply Z.mod_small.
Qed.

(** The valid timestamps are those of the days in the range. *)
Lemma stamp_ok_day j tod : 0 <= tod < USECS_PER_DAY -> stamp_ok (stamp j tod) <-> 0 <= j < TIMESTAMP_END_JULIAN.
Proof. rewrite stamp_ok_spec. unfold stamp, MIN_TIMESTAMP, END_TIMESTAMP, TIMESTAMP_END_JULIAN. unfold_units. lia. Qed.

Lemma stamp_ok_range t : stamp_ok t -> 0 <= day_of t < TIMESTAMP_END_JULIAN /\ 0 <= tod_of t < USECS_PER_DAY.
Proof. intros H. destruct (stamp_split t) as [E B]. split; [|done]. rewrite E in H. by apply stamp_ok_day in H. Qed.

Lemma finite_stamp t : stamp_ok t -> TIMESTAMP_NOT_FINITE t = false.
Proof. rewrite stamp_ok_spec. unfold TIMESTAMP_NOT_FINITE, DT_NOBEGIN, DT_NOEND, MIN_TIMESTAMP, END_TIMESTAMP. rewrite orb_false_iff, !Z.eqb_neq. lia. Qed.

Lemma TMODULO_spec t u : TMODULO t u = (Z.rem t u, Z.quot t u).
Proof. unfold TMODULO. pose proof (Z.quot_rem' t u). destruct (Z.eqb_spec (Z.quot t u) 0) as [E|E]; cbn [negb]; f_equal; [rewrite E in *|]; lia. Qed.

(** Truncated division, corrected to a remainder that is not negative. *)
Lemma floor_split t u : 0 < u -> (if Z.rem t u <? 0 then (Z.rem t u + u, Z.quot t u - 1) else (Z.rem t u, Z.quot t u)) = (t mod u, t / u).
Proof.
  intros Hu. pose proof (Z.quot_rem' t u) as E. pose proof (Z.rem_bound_abs t u ltac:(lia)) as B. destruct (Z.ltb_spec (Z.rem t u) 0).
  - f_equal; [apply Z.mod_unique with (q := Z.quot t u - 1)|apply Z.div_unique with (r := Z.rem t u + u)]; lia.
  - f_equal; [apply Z.mod_unique with (q := Z.quot t u)|apply Z.div_unique with (r := Z.rem t u)]; lia.
Qed.

(** The fields of a timestamp. *)
Lemma timestamp2tm_spec j h mi s f : 0 <= j < 2 ^ 31 -> time_ok h mi s f ->
  timestamp2tm (stamp j (time_of h mi s f)) = let '(y, m, d) := jdate j in Some (mk_tm y m d h mi s 0, f).
Proof.
  intros Hj Ht. pose proof (time_of_range _ _ _ _ Ht) as Hr. destruct (day_of_stamp j _ Hr) as [Ed Et]. unfold timestamp2tm. rewrite TMODULO_spec, floor_split by (unfold_units; lia). fold (tod_of (stamp j (time_of h mi s f))). rewrite Et. change (stamp j (time_of h mi s f) / USECS_PER_DAY + POSTGRES_EPOCH_JDATE) with (day_of (stamp j (time_of h mi s f))). rewrite Ed.
  destruct (Z.ltb_spec j 0), (Z.ltb_spec INT_MAX j); unfold INT_MAX in *; try lia. cbn [orb]. rewrite j2date_jdate by lia. destruct (jdate j) as [[y m] d]. rewrite dt2time_time_of by (unfold time_ok in Ht; lia). done.
Qed.

(** Days out of the range of 64 bits are noticed. *)
Lemma int8_range x : - 2 ^ 63 <= int8 x < 2 ^ 63.
Proof. unfold int8, swrap. change (64 - 1) with 63. pose proof (Z.mod_pos_bound (x + 2 ^ 63) (2 ^ 64) ltac:(lia)). lia. Qed.

Lemma wrapped_days date : Z.quot (int8 (date * USECS_PER_DAY)) USECS_PER_DAY = date -> in_s 64 (date * USECS_PER_DAY).
Proof.
  intros E. pose proof (int8_range (date * USECS_PER_DAY)) as Hw. set (w := int8 (date * USECS_PER_DAY)) in *. clearbody w. pose proof (Z.quot_rem' w USECS_PER_DAY) as Q. rewrite E in Q. unfold in_s. unfold_units. change (64 - 1) with 63.
  destruct (Z.le_gt_cases 0 w); [pose proof (Z.rem_nonneg w 86400000000 ltac:(lia) ltac:(lia))|pose proof (Z.rem_nonpos w 86400000000 ltac:(lia) ltac:(lia))]; pose proof (Z.rem_bound_abs w 86400000000 ltac:(lia)); lia.
Qed.

(** Sums that wrap around twice. *)
Lemma int8_sub_wrapped a b : int8 (int8 (a + b) - b) = int8 a.
Proof.
  unfold int8, swrap. change (64 - 1) with 63. f_equal. replace ((a + b + 2 ^ 63) mod 2 ^ 64 - 2 ^ 63 - b + 2 ^ 63) with ((a + b + 2 ^ 63) mod 2 ^ 64 - b) by lia. rewrite Zminus_mod_idemp_l. f_equal. lia.
Qed.

Lemma int8_cases x : - 2 ^ 64 <= x < 2 ^ 64 -> int8 x = if x <? - 2 ^ 63 then x + 2 ^ 64 else if x <? 2 ^ 63 then x else x - 2 ^ 64.
Proof.
  intros Hx. unfold int8, swrap. change (64 - 1) with 63. destruct (Z.ltb_spec x (- 2 ^ 63)); [|destruct (Z.ltb_spec x (2 ^ 63))].
  - rewrite <- (Z.mod_unique (x + 2 ^ 63) (2 ^ 64) (-1) (x + 2 ^ 63 + 2 ^ 64)); lia.
  - rewrite Z.mod_small; lia.
  - rewrite <- (Z.mod_unique (x + 2 ^ 63) (2 ^ 64) 1 (x + 2 ^ 63 - 2 ^ 64)); lia.
Qed.

(** The checks of tm2timestamp: the sum of days and time of day is exact, or the range is
    left. *)
Lemma stamp_checks date time : - 2 ^ 31 <= date < 2 ^ 31 -> 0 <= time <= USECS_PER_DAY ->
  let result := int8 (date * USECS_PER_DAY + time) in
  (negb (Z.quot (int8 (result - time)) USECS_PER_DAY =? date) || (((result <? 0) && (0 <? date)) || ((0 <? result) && (date <? -1)))) = false /\ result = date * USECS_PER_DAY + time
  \/ (negb (Z.quot (int8 (result - time)) USECS_PER_DAY =? date) || (((result <? 0) && (0 <? date)) || ((0 <? result) && (date <? -1)))) = true /\ ~ stamp_ok (date * USECS_PER_DAY + time).
Proof.
  intros Hd Ht result. assert (int8 (result - time) = int8 (date * USECS_PER_DAY)) as -> by apply int8_sub_wrapped. rewrite stamp_ok_spec. unfold MIN_TIMESTAMP, END_TIMESTAMP. destruct (Z.eqb_spec (Z.quot (int8 (date * USECS_PER_DAY)) USECS_PER_DAY) date) as [E|E]; cbn [negb orb].
  - apply wrapped_days in E. unfold in_s in E. unfold result. unfold_units. rewrite int8_cases by lia. change (64 - 1) with 63 in E. destruct (Z.ltb_spec (date * 86400000000 + time) (- 2 ^ 63)); [lia|]. destruct (Z.ltb_spec (date * 86400000000 + time) (2 ^ 63)).
    + left. split; [|done]. rewrite orb_false_iff, !andb_false_iff, !Z.ltb_ge. lia.
    + right. split; [|lia]. rewrite orb_true_iff, !andb_true_iff, !Z.ltb_lt. lia.
  - right. split; [done|]. intros H. apply E. rewrite int8_id; [apply Z.quot_mul; unfold_units; lia|]. unfold in_s. unfold_units. lia.
Qed.

(** Only the dates of the range make valid timestamps. *)
Lemma stamp_julian y m d tod : valid_date y m d = true -> 0 <= tod < USECS_PER_DAY -> stamp_ok (stamp (jdn y m d) tod) -> IS_VALID_JULIAN y m = true.
Proof. intros V Ht H. apply stamp_ok_day in H; [|done]. unfold TIMESTAMP_END_JULIAN in H. apply (range_julian y m d V). unfold DATE_END_JULIAN. lia. Qed.

(** The timestamp of a date and a time of day, or nothing if it is out of range. *)
Lemma tm2timestamp_spec y m d h mi s f yd : valid_date y m d = true -> time_ok h mi s f ->
  let t := stamp (jdn y m d) (time_of h mi s f) in
  tm2timestamp (mk_tm y m d h mi s yd) f None = Ok (if IS_VALID_TIMESTAMP t then Some t else None).
Proof.
  intros V Ht t. unfold tm2timestamp. cbn [tm_year tm_mon tm_mday tm_hour tm_min tm_sec]. pose proof (time_of_range _ _ _ _ Ht) as Hr. destruct (IS_VALID_JULIAN y m) eqn:J; cbn [negb].
  - destruct (julian_jdn y m d V J) as [-> Hj]. cbn [res_bind]. rewrite int_ok by (unfold_units; lia). cbn [res_bind]. rewrite time2t_time_of by (unfold time_ok in Ht; lia). change (stamp (jdn y m d) (time_of h mi s f)) with ((jdn y m d - POSTGRES_EPOCH_JDATE) * USECS_PER_DAY + time_of h mi s f) in t.
    destruct (stamp_checks (jdn y m d - POSTGRES_EPOCH_JDATE) (time_of h mi s f)) as [[C E]|[C N]]; [unfold_units; lia|lia| |].
    + apply orb_false_iff in C as [-> ->]. rewrite E. fold t. by destruct (IS_VALID_TIMESTAMP t).
    + fold t in N. unfold stamp_ok in N. apply not_true_is_false in N. rewrite N. apply orb_true_iff in C as [-> | ->]; [done|]. by destruct (negb _).
  - destruct (IS_VALID_TIMESTAMP t) eqn:K; [|done]. apply stamp_julian in K; [congruence|done|done].
Qed.

(** The fields of a valid timestamp. *)
Lemma stamp_view t : stamp_ok t -> exists y m d h mi s f, valid_date y m d = true /\ time_ok h mi s f /\ jdate (day_of t) = (y, m, d) /\ jdn y m d = day_of t /\ tod_of t = time_of h mi s f
  /\ timestamp2tm t = Some (mk_tm y m d h mi s 0, f) /\ date2j y m d = Ok (day_of t) /\ IS_VALID_JULIAN y m = true.
Proof.
  intros H. destruct (stamp_ok_range t H) as [Hd Ht]. destruct (time_of_surj _ Ht) as (h & mi & s & f & Hok & Et). pose proof (jdn_jdate (day_of t)) as Hj. destruct (jdate (day_of t)) as [[y m] d] eqn:Ed. destruct Hj as [V J]. exists y, m, d, h, mi, s, f. unfold TIMESTAMP_END_JULIAN in Hd.
  assert (R : IS_VALID_JULIAN y m = true) by (apply (range_julian y m d V); unfold DATE_END_JULIAN; lia). split_and!; try done.
  - destruct (stamp_split t) as [E _]. rewrite E at 1. rewrite Et, timestamp2tm_spec, Ed by (done || lia). done.
  - destruct (julian_jdn y m d V R) as [-> _]. by rewrite J.
Qed.

(** ** Months *)

(** The day of the month in another month, or its last day. *)
Definition months_later (y m d months : Z) : Z * Z * Z :=
  let total := y * 12 + (m - 1) + months in
  let y' := total / 12 in
  let m' := total mod 12 + 1 in
  (y', m', Z.min d (month_days y' m')).

Lemma months_later_valid y m d k : valid_date y m d = true -> let '(y', m', d') := months_later y m d k in valid_date y' m' d' = true.
Proof.
  intros [Hm Hd]%valid_date_spec. unfold months_later. apply valid_date_spec. pose proof (Z.mod_pos_bound (y * 12 + (m - 1) + k) 12 ltac:(lia)). pose proof (month_days_bounds ((y * 12 + (m - 1) + k) / 12) ((y * 12 + (m - 1) + k) mod 12 + 1) ltac:(lia)). lia.
Qed.

Lemma shift_months_spec y m k : 1 <= m <= 12 -> in_s 32 (m + k) -> shift_months y m k = ((y * 12 + (m - 1) + k) / 12, (y * 12 + (m - 1) + k) mod 12 + 1).
Proof.
  intros Hm Hk. unfold shift_months, MONTHS_PER_YEAR. rewrite int4_id by done. set (n := m + k). replace (y * 12 + (m - 1) + k) with (y * 12 + (n - 1)) by lia. clearbody n. rewrite Z.div_add_l by lia. rewrite (Z.add_comm (y * 12)), Z.mod_add by lia. destruct (Z.ltb_spec 12 n); [|destruct (Z.ltb_spec n 1)].
  - rewrite Z.quot_div_nonneg, Z.rem_mod_nonneg by lia. f_equal; lia.
  - pose proof (Z.quot_rem' n 12) as Q. pose proof (Z.rem_nonpos n 12 ltac:(lia) ltac:(lia)). pose proof (Z.rem_bound_abs n 12 ltac:(lia)). f_equal.
    + f_equal. apply Z.div_unique with (r := Z.rem n 12 + 11); lia.
    + rewrite <- (Z.mod_unique (n - 1) 12 (Z.quot n 12 - 1) (Z.rem n 12 + 11)); lia.
  - rewrite Z.div_small, Z.mod_small by lia. f_equal; lia.
Qed.

(** Far away years. *)
Lemma stamp_years y m d tod : valid_date y m d = true -> 0 <= tod < USECS_PER_DAY -> stamp_ok (stamp (jdn y m d) tod) -> -4713 <= y <= JULIAN_MAXYEAR.
Proof. intros V Ht H. pose proof (stamp_julian _ _ _ _ V Ht H) as J. unfold IS_VALID_JULIAN, JULIAN_MINYEAR in J. rewrite andb_true_iff, !orb_true_iff, !andb_true_iff, !Z.ltb_lt, !Z.eqb_eq in J. lia. Qed.

Lemma not_stamp_years y m d tod : valid_date y m d = true -> 0 <= tod < USECS_PER_DAY -> y < -4713 \/ JULIAN_MAXYEAR < y -> IS_VALID_TIMESTAMP (stamp (jdn y m d) tod) = false.
Proof. intros V Ht H. apply not_true_is_false. intros K. pose proof (stamp_years y m d tod V Ht K). lia. Qed.

Definition checked (t : Z) : res Z := if IS_VALID_TIMESTAMP t then Ok t else Err TIMESTAMP_RANGE.

Lemma out_of_range_checked t : out_of_range TIMESTAMP_RANGE (if IS_VALID_TIMESTAMP t then Some t else None) = checked t.
Proof. unfold checked. by destruct (IS_VALID_TIMESTAMP t). Qed.

(** What [months] more make of a timestamp. *)
Definition plus_months (t months : Z) : Z :=
  let '(y, m, d) := jdate (day_of t) in
  let '(y', m', d') := months_later y m d months in
  stamp (jdn y' m' d') (tod_of t).

(** The sum of the month and the months may wrap around; the year is out of range then. *)
Lemma shift_months_far y m k : -4713 <= y <= JULIAN_MAXYEAR -> 1 <= m <= 12 -> in_s 32 k -> ~ in_s 32 (m + k) ->
  let '(y', m') := shift_months y m k in y' < -4713 /\ 1 <= m' <= 12 /\ JULIAN_MAXYEAR < (y * 12 + (m - 1) + k) / 12.
Proof.
  unfold in_s, JULIAN_MAXYEAR. change (32 - 1) with 31. intros Hy Hm Hk Hn. unfold shift_months, MONTHS_PER_YEAR. assert (E : int4 (m + k) = m + k - 2 ^ 32) by (unfold int4; rewrite swrap32_cases by lia; destruct (Z.ltb_spec (m + k) (- 2 ^ 31)); [lia|]; destruct (Z.ltb_spec (m + k) (2 ^ 31)); lia). rewrite E.
  destruct (Z.ltb_spec 12 (m + k - 2 ^ 32)); [lia|]. destruct (Z.ltb_spec (m + k - 2 ^ 32) 1); [|lia]. pose proof (Z.quot_rem' (m + k - 2 ^ 32) 12). pose proof (Z.rem_nonpos (m + k - 2 ^ 32) 12 ltac:(lia) ltac:(lia)). pose proof (Z.rem_bound_abs (m + k - 2 ^ 32) 12 ltac:(lia)).
  split_and!; [lia|lia|lia|]. apply Z.lt_le_trans with (178956970 - 4713); [lia|]. apply Z.div_le_lower_bound; lia.
Qed.

Lemma pl_months_spec t k : stamp_ok t -> in_s 32 k -> pl_months t k = checked (plus_months t k).
Proof.
  intros Ht Hk. destruct (stamp_view t Ht) as (y & m & d & h & mi & s & f & V & Hok & Ed & Ej & Et & E2 & _ & J). destruct (stamp_ok_range t Ht) as [Hday Htod]. unfold pl_months, plus_months. rewrite E2, Ed, Et. cbn [out_of_range res_bind tm_year tm_mon tm_mday tm_hour tm_min tm_sec].
  assert (Hy : -4713 <= y <= JULIAN_MAXYEAR) by (apply (stamp_years y m d (tod_of t)); [done|done|]; rewrite Ej; by destruct (stamp_split t) as [<- _]). apply valid_date_spec in V as V'. destruct V' as [Hm Hd]. rewrite Et in Htod.
  pose proof (months_later_valid y m d k V) as VL. destruct (decide (in_s 32 (m + k))) as [Hin|Hn].
  - rewrite shift_months_spec by done. unfold months_later in *. set (y' := (y * 12 + (m - 1) + k) / 12) in *. set (m' := (y * 12 + (m - 1) + k) mod 12 + 1) in *. fold (month_days y' m'). assert ((if month_days y' m' <? d then month_days y' m' else d) = Z.min d (month_days y' m')) as -> by (destruct (Z.ltb_spec (month_days y' m') d); lia).
    rewrite tm2timestamp_spec by done. cbn [res_bind]. apply out_of_range_checked.
  - pose proof (shift_months_far y m k Hy Hm Hk Hn) as F. destruct (shift_months y m k) as [y1 m1]. destruct F as (F1 & F2 & F3). fold (month_days y1 m1). pose proof (month_days_bounds y1 m1 F2) as [B _]. rewrite tm2timestamp_spec; [|apply valid_date_spec; destruct (Z.ltb_spec (month_days y1 m1) d); lia|done]. cbn [res_bind]. rewrite not_stamp_years; [|apply valid_date_spec; destruct (Z.ltb_spec (month_days y1 m1) d); lia|done|lia].
    unfold months_later in *. unfold checked. rewrite not_stamp_years by (done || lia). done.
Qed.

(** ** Days *)

(** The day numbers that j2date takes for others: its unsigned arithmetic wraps around. *)
Definition wild_day (j : Z) : Prop := -121000 <= j < -32044.

Lemma stamp_shift j k tod : stamp (j + k) tod = stamp j tod + k * USECS_PER_DAY.
Proof. unfold stamp. lia. Qed.

Lemma pl_days_spec t k : stamp_ok t -> in_s 32 k -> ~ wild_day (day_of t + k) -> pl_days t k = checked (t + k * USECS_PER_DAY).
Proof.
  intros Ht Hk Hw. destruct (stamp_view t Ht) as (y & m & d & h & mi & s & f & V & Hok & Ed & Ej & Et & E2 & ED & J). destruct (stamp_ok_range t Ht) as [Hday Htod]. unfold TIMESTAMP_END_JULIAN, in_s, wild_day in *. change (32 - 1) with 31 in Hk. unfold pl_days. rewrite E2. cbn [out_of_range res_bind tm_year tm_mon tm_mday tm_hour tm_min tm_sec]. rewrite ED. cbn [res_bind].
  destruct (stamp_split t) as [E _]. rewrite E at 2. rewrite <- stamp_shift, Et. assert (G : forall u, -32044 <= u < 2 ^ 32 - 121000 -> uwrap 32 (int4 (day_of t + k)) = uwrap 32 u ->
    (let '(year, mon, mday) := j2date (int4 (day_of t + k)) in t0 <-! tm2timestamp (mk_tm year mon mday h mi s 0) f None ;; out_of_range TIMESTAMP_RANGE t0) = checked (stamp u (time_of h mi s f))).
  { intros u Hu Eu. rewrite (j2date_unsigned _ u Hu Eu). pose proof (jdn_jdate u) as JJ. destruct (jdate u) as [[y' m'] d']. destruct JJ as [V' <-]. rewrite tm2timestamp_spec by done. cbn [res_bind]. apply out_of_range_checked. }
  assert (W : forall a, uwrap 32 (int4 a) = uwrap 32 a) by (intros a; unfold uwrap, int4, swrap; change (32 - 1) with 31; rewrite Zminus_mod_idemp_l; f_equal; lia).
  destruct (Z.le_gt_cases (-32044) (day_of t + k)); [apply G; [lia|apply W]|]. rewrite (G (day_of t + k + 1 * 2 ^ 32)); [|lia|rewrite W; unfold uwrap; by rewrite Z.mod_add].
  unfold checked. pose proof (time_of_range _ _ _ _ Hok) as Hr. assert (F : forall j, ~ (0 <= j < TIMESTAMP_END_JULIAN) -> IS_VALID_TIMESTAMP (stamp j (time_of h mi s f)) = false) by (intros j Hj; apply not_true_is_false; intros K; by apply stamp_ok_day in K). unfold TIMESTAMP_END_JULIAN in F. rewrite !F by lia. done.
Qed.

(** ** The sum of a timestamp and an interval *)

(** Each stage must stay in the range. *)
Definition timestamp_plus (t : Z) (span : Interval) : res Z :=
  t <-! (if negb (i_month span =? 0) then checked (plus_months t (i_month span)) else Ok t) ;;
  t <-! (if negb (i_day span =? 0) then checked (t + i_day span * USECS_PER_DAY) else Ok t) ;;
  checked (t + i_time span).

Definition interval_typed (span : Interval) : Prop := in_s 64 (i_time span) /\ in_s 32 (i_day span) /\ in_s 32 (i_month span).

(** The days do not lead to a number that j2date mistakes, and the time does not wrap around. *)
Definition sum_safe (t : Z) (span : Interval) : Prop :=
  let t1 := if negb (i_month span =? 0) then plus_months t (i_month span) else t in
  ~ wild_day (day_of t1 + i_day span) /\ in_s 64 (t1 + i_day span * USECS_PER_DAY + i_time span).

Lemma checked_ok t r : checked t = Ok r -> r = t /\ stamp_ok t.
Proof. unfold checked, stamp_ok. by destruct (IS_VALID_TIMESTAMP t); intros [= <-]. Qed.

Lemma timestamp_pl_interval_spec t span : stamp_ok t -> interval_typed span -> sum_safe t span -> timestamp_pl_interval t span = timestamp_plus t span.
Proof.
  intros Ht (Hti & Hdi & Hmi) [S1 S2]. unfold timestamp_pl_interval, timestamp_plus. rewrite finite_stamp by done. assert (E1 : (if negb (i_month span =? 0) then pl_months t (i_month span) else Ok t) = if negb (i_month span =? 0) then checked (plus_months t (i_month span)) else Ok t) by (destruct (negb _); [by apply pl_months_spec|done]). rewrite E1. clear E1.
  destruct (if negb (i_month span =? 0) then checked _ else Ok t) as [t1|] eqn:E1; [|done]. cbn [res_bind]. assert (H1 : stamp_ok t1 /\ t1 = if negb (i_month span =? 0) then plus_months t (i_month span) else t) by (destruct (negb _); [by apply checked_ok in E1 as [-> ?]|by injection E1 as <-]). destruct H1 as [Ht1 H1]. rewrite <- H1 in *.
  assert (E2 : (if negb (i_day span =? 0) then pl_days t1 (i_day span) else Ok t1) = if negb (i_day span =? 0) then checked (t1 + i_day span * USECS_PER_DAY) else Ok t1) by (destruct (negb (i_day span =? 0)); [by apply pl_days_spec|done]). rewrite E2. clear E2.
  destruct (if negb (i_day span =? 0) then checked _ else Ok t1) as [t2|] eqn:E2; [|done]. cbn [res_bind]. assert (t2 = t1 + i_day span * USECS_PER_DAY) as -> by (destruct (Z.eqb_spec (i_day span) 0) as [Z0|]; cbn [negb] in E2; [injection E2 as <-; rewrite Z0; lia|by apply checked_ok in E2 as [-> _]]).
  rewrite int8_id by done. unfold checked. by destruct (IS_VALID_TIMESTAMP _).
Qed.
