(* ===== verification/TimestampProps.v ===== *)
(** Timestamps and intervals: fields are inverse, sums are exact, justified intervals are
    worth the same. *)

From S2P Require Import Prelude Dates DatesProps Timestamps TimestampSpec.
Local Open Scope Z_scope.
Local Open Scope pg_scope.

(** ** Intervals *)

(** The facts about truncated division. *)
Lemma quot_facts x u : 0 < u -> x = u * Z.quot x u + Z.rem x u /\ Z.abs (Z.rem x u) < u /\ (0 <= x -> 0 <= Z.rem x u /\ 0 <= Z.quot x u) /\ (x <= 0 -> Z.rem x u <= 0 /\ Z.quot x u <= 0).
Proof.
  intros Hu. pose proof (Z.quot_rem' x u) as E. pose proof (Z.rem_bound_abs x u ltac:(lia)) as B. split_and!; [done|lia| |]; intros Hx.
  - split; [by apply Z.rem_nonneg; lia|]. apply Z.quot_pos; lia.
  - pose proof (Z.rem_nonpos x u ltac:(lia) Hx). split; [done|]. nia.
Qed.

Ltac bool_cases :=
  repeat case_match; simplify_eq;
  rewrite ?andb_true_iff, ?andb_false_iff, ?orb_true_iff, ?orb_false_iff, ?negb_true_iff, ?negb_false_iff, ?andb_true_iff, ?andb_false_iff, ?Z.leb_le, ?Z.leb_gt, ?Z.ltb_lt, ?Z.ltb_ge, ?Z.eqb_eq, ?Z.eqb_neq in *.

(** Not of opposite signs. *)
Definition agree (a b : Z) : Prop := ~ (0 < a /\ b < 0) /\ ~ (a < 0 /\ 0 < b).

Lemma s_fits_spec w x : s_fits w x = if decide (in_s w x) then Some x else None.
Proof. unfold s_fits. case_decide as H; unfold in_s in H; destruct (Z.leb_spec (- 2 ^ (w - 1)) x), (Z.ltb_spec x (2 ^ (w - 1))); cbn [andb]; done || lia. Qed.

Lemma borrow_day_spec time day : Z.abs time < USECS_PER_DAY -> let '(time', day') := borrow_day time day in
  time' + day' * USECS_PER_DAY = time + day * USECS_PER_DAY /\ Z.abs time' < USECS_PER_DAY /\ agree time' day' /\ Z.abs day' <= Z.abs day /\ (0 <= day -> 0 <= day') /\ (day <= 0 -> day' <= 0) /\ (0 < day -> time < 0 -> day' = day - 1) /\ (day < 0 -> 0 < time -> day' = day + 1) /\ (0 < day -> 0 <= time') /\ (day < 0 -> time' <= 0) /\ (day = 0 -> time' = time).
Proof. intros H. unfold borrow_day, agree. unfold_units. bool_cases; lia. Qed.

Lemma time_quot_small t : in_s 64 t -> Z.abs (Z.quot t USECS_PER_DAY) <= 106751991.
Proof. unfold in_s. intros H. destruct (quot_facts t USECS_PER_DAY) as (E & B & P & N); unfold_units; [lia|]. destruct (Z.le_gt_cases 0 t); [specialize (P ltac:(lia))|specialize (N ltac:(lia))]; lia. Qed.

Lemma justify_hours_spec span : interval_typed span -> let days := i_day span + Z.quot (i_time span) USECS_PER_DAY in
  if decide (in_s 32 days) then exists r, interval_justify_hours span = Ok r /\ interval_cmp_value r = interval_cmp_value span /\ Z.abs (i_time r) < USECS_PER_DAY /\ agree (i_time r) (i_day r) /\ i_month r = i_month span /\ interval_typed r /\ Z.abs (i_day r) <= Z.abs days
  else interval_justify_hours span = Err INTERVAL_RANGE.
Proof.
  intros (Ht & Hd & Hm) days. unfold interval_justify_hours. rewrite TMODULO_spec. pose proof (time_quot_small _ Ht) as Hq. rewrite int4_id by (unfold in_s; lia). unfold add_s32. rewrite s_fits_spec. fold days. case_decide as Hin; [|done]. cbn [out_of_range res_bind].
  destruct (quot_facts (i_time span) USECS_PER_DAY) as (E & B & _); [unfold_units; lia|]. pose proof (borrow_day_spec (Z.rem (i_time span) USECS_PER_DAY) days B) as S. destruct (borrow_day _ days) as [t' d']. eexists. split; [done|]. unfold interval_cmp_value, interval_typed in *. cbn. unfold in_s in *. destruct S as (S1 & S2 & S3 & S4 & _). split_and!; try done; unfold_units; lia.
Qed.

(** Whole months: the days and months are worth the same. *)
Lemma whole_months_spec day month : in_s 32 month -> let months := month + Z.quot day 30 in
  whole_months day month = (if decide (in_s 32 months) then Ok (Z.rem day 30, months) else Err INTERVAL_RANGE) /\ Z.rem day 30 + months * 30 = day + month * 30 /\ Z.abs (Z.rem day 30) < 30.
Proof.
  intros Hm months. destruct (quot_facts day 30) as (E & B & _); [lia|]. split_and!; [|unfold months; lia|done]. unfold whole_months, DAYS_PER_MONTH, add_s32. rewrite s_fits_spec. fold months. case_decide; [|done]. cbn [out_of_range res_bind]. do 2 f_equal. lia.
Qed.

Lemma justify_days_spec span : interval_typed span -> let months := i_month span + Z.quot (i_day span) 30 in
  if decide (in_s 32 months) then exists r, interval_justify_days span = Ok r /\ interval_cmp_value r = interval_cmp_value span /\ Z.abs (i_day r) < 30 /\ agree (i_day r) (i_month r) /\ i_time r = i_time span
  else interval_justify_days span = Err INTERVAL_RANGE.
Proof.
  intros (Ht & Hd & Hm) months. unfold interval_justify_days. destruct (whole_months_spec (i_day span) (i_month span) Hm) as (E & S & B). rewrite E. fold months in S |- *. destruct (decide (in_s 32 months)); [|done]. cbn [res_bind]. set (d := Z.rem (i_day span) 30) in *. clearbody d. destruct (if (0 <? months) && _ then _ else _) as [d' m'] eqn:C. eexists. split; [done|]. unfold interval_cmp_value, agree, DAYS_PER_MONTH in *. cbn. bool_cases; lia.
Qed.

(** All three fields within their bounds, and of one sign. *)
Definition justified (r : Interval) : Prop :=
  Z.abs (i_time r) < USECS_PER_DAY /\ Z.abs (i_day r) < 30 /\ agree (i_time r) (i_day r) /\ agree (i_day r) (i_month r) /\ agree (i_time r) (i_month r).

(** The end of interval_justify_interval. *)
Definition settle (time day month : Z) : Interval :=
  let '(day, month) :=
    if (0 <? month) && ((day <? 0) || ((day =? 0) && (time <? 0))) then (day + DAYS_PER_MONTH, month - 1)
    else if (month <? 0) && ((0 <? day) || ((day =? 0) && (0 <? time))) then (day - DAYS_PER_MONTH, month + 1)
    else (day, month) in
  let '(time, day) := borrow_day time day in
  mk_interval time day month.

Lemma settle_spec time day month : Z.abs time < USECS_PER_DAY -> Z.abs day < 30 ->
  justified (settle time day month) /\ interval_cmp_value (settle time day month) = interval_cmp_value (mk_interval time day month).
Proof.
  intros Ht Hd. unfold settle, borrow_day, justified, agree, interval_cmp_value, DAYS_PER_MONTH. unfold_units. bool_cases; cbn in *; lia.
Qed.

Lemma justify_interval_spec span : interval_typed span ->
  match interval_justify_interval span with
  | Ok r => justified r /\ interval_cmp_value r = interval_cmp_value span
  | Err e => e = INTERVAL_RANGE /\ 2 ^ 30 < Z.abs (i_month span)
  end.
Proof.
  intros (Ht & Hd & Hm). unfold interval_justify_interval. rewrite TMODULO_spec. pose proof (time_quot_small _ Ht) as Hq. destruct (quot_facts (i_time span) USECS_PER_DAY) as (Et & Bt & P & N); [unfold_units; lia|]. destruct (quot_facts (i_day span) 30) as (Ed & Bd & Pd & Nd); [lia|]. unfold in_s in *. change (32 - 1) with 31 in *. change (64 - 1) with 63 in *.
  set (pre := (0 <? i_day span) && (0 <? i_time span) || (i_day span <? 0) && (i_time span <? 0)).
  assert (G : exists day month, (if pre then whole_months (i_day span) (i_month span) else Ok (i_day span, i_month span)) = Ok (day, month) /\ day + month * 30 = i_day span + i_month span * 30 /\ Z.abs (month - i_month span) <= 71582789 /\ in_s 32 month /\ in_s 32 (day + Z.quot (i_time span) USECS_PER_DAY)
    \/ (if pre then whole_months (i_day span) (i_month span) else Ok (i_day span, i_month span)) = Err INTERVAL_RANGE /\ 2 ^ 30 < Z.abs (i_month span)).
  { destruct pre eqn:Hp; unfold pre in Hp; rewrite ?orb_true_iff, ?orb_false_iff, ?andb_true_iff, ?andb_false_iff, ?Z.ltb_lt, ?Z.ltb_ge in Hp.
    - destruct (whole_months_spec (i_day span) (i_month span) Hm) as (-> & S & B). case_decide as Hin; [|exists 0, 0; right; split; [done|]; unfold in_s in Hin; lia]. exists (Z.rem (i_day span) 30), (i_month span + Z.quot (i_day span) 30). left. unfold in_s in *. split_and!; try done; lia.
    - exists (i_day span), (i_month span). left. unfold in_s. split_and!; try done; lia. }
  destruct G as (day & month & [(-> & S & Hmo & Hmm & Hin)|[-> Hb]]); [|done]. cbn [res_bind]. rewrite int4_id by done. destruct (whole_months_spec (day + Z.quot (i_time span) USECS_PER_DAY) month Hmm) as (-> & S2 & B2). case_decide as Hin2; cbn [res_bind].
  - set (d2 := Z.rem (day + _) 30) in *. set (m2 := month + Z.quot (day + _) 30) in *. clearbody d2 m2. destruct (settle_spec (Z.rem (i_time span) USECS_PER_DAY) d2 m2 Bt B2) as [J V]. unfold settle in J, V. destruct (if (0 <? m2) && _ then _ else _) as [d3 m3]. destruct (borrow_day _ d3) as [t4 d4]. split; [done|]. rewrite V. unfold interval_cmp_value. cbn. unfold_units. lia.
  - split; [done|]. destruct (quot_facts (day + Z.quot (i_time span) USECS_PER_DAY) 30) as (E3 & B3 & _); [lia|]. unfold in_s in *. unfold_units. lia.
Qed.

(** ** Arithmetic of the fields *)

Definition exact (w x : Z) : res Z := if decide (in_s w x) then Ok x else Err INTERVAL_RANGE.

Lemma swrap_cases w x : 0 < w -> - 2 ^ w <= x < 2 ^ w -> swrap w x = if x <? - 2 ^ (w - 1) then x + 2 ^ w else if x <? 2 ^ (w - 1) then x else x - 2 ^ w.
Proof.
  intros Hw Hx. assert (E : 2 ^ w = 2 * 2 ^ (w - 1)) by (rewrite <- Z.pow_succ_r by lia; f_equal; lia). unfold swrap. destruct (Z.ltb_spec x (- 2 ^ (w - 1))); [|destruct (Z.ltb_spec x (2 ^ (w - 1)))].
  - rewrite <- (Z.mod_unique (x + 2 ^ (w - 1)) (2 ^ w) (-1) (x + 2 ^ (w - 1) + 2 ^ w)); lia.
  - rewrite Z.mod_small; lia.
  - rewrite <- (Z.mod_unique (x + 2 ^ (w - 1)) (2 ^ w) 1 (x + 2 ^ (w - 1) - 2 ^ w)); lia.
Qed.

Lemma SAMESIGN_spec a b : SAMESIGN a b = true <-> (a < 0 <-> b < 0).
Proof. unfold SAMESIGN. rewrite eqb_true_iff, <- !Z.ltb_lt. destruct (a <? 0), (b <? 0); intuition congruence. Qed.

Lemma SAMESIGN_false a b : SAMESIGN a b = false <-> ~ (a < 0 <-> b < 0).
Proof. rewrite <- SAMESIGN_spec. by rewrite not_true_iff_false. Qed.

(** A result that wraps around has the wrong sign. *)
Ltac wrong_sign w z :=
  let E := fresh in
  assert (E : 2 ^ w = 2 * 2 ^ (w - 1)) by (rewrite <- Z.pow_succ_r by lia; f_equal; lia);
  rewrite swrap_cases by lia;
  destruct (Z.ltb_spec z (- 2 ^ (w - 1))); [|destruct (Z.ltb_spec z (2 ^ (w - 1)))]; case_decide; try lia;
  match goal with |- context [if ?b then Err _ else _] => destruct b eqn:? end; try done; exfalso;
  rewrite ?andb_true_iff, ?andb_false_iff, ?negb_true_iff, ?negb_false_iff, ?SAMESIGN_spec, ?SAMESIGN_false, ?Z.eqb_neq, ?Z.eqb_eq in *; lia.

Lemma field_pl_exact w x y : 0 < w -> in_s w x -> in_s w y -> field_pl w x y = exact w (x + y).
Proof. intros Hw Hx Hy. unfold field_pl, exact, in_s in *. wrong_sign w (x + y). Qed.

Lemma field_mi_exact w x y : 0 < w -> in_s w x -> in_s w y -> field_mi w x y = exact w (x - y).
Proof. intros Hw Hx Hy. unfold field_mi, exact, in_s in *. wrong_sign w (x - y). Qed.

Lemma field_um_exact w x : 0 < w -> in_s w x -> field_um w x = exact w (- x).
Proof. intros Hw Hx. unfold field_um, exact, in_s in *. assert (0 < 2 ^ (w - 1)) by lia. wrong_sign w (- x). Qed.

(** The fields, if they fit. *)
Definition exact_interval (time day month : Z) : res Interval :=
  if decide (interval_typed (mk_interval time day month)) then Ok (mk_interval time day month) else Err INTERVAL_RANGE.

Lemma exact_interval_ok time day month : in_s 64 time -> in_s 32 day -> in_s 32 month -> exact_interval time day month = Ok (mk_interval time day month).
Proof. intros A B C. unfold exact_interval. case_decide as H; [done|]. by destruct H. Qed.

Ltac exact_fields := unfold exact_interval, exact, interval_typed; cbn [i_time i_day i_month]; repeat case_decide; cbn [res_bind]; tauto || done.

Lemma interval_pl_exact a b : interval_typed a -> interval_typed b -> interval_pl a b = exact_interval (i_time a + i_time b) (i_day a + i_day b) (i_month a + i_month b).
Proof. intros (?&?&?) (?&?&?). unfold interval_pl. rewrite !field_pl_exact by (done || lia). exact_fields. Qed.

Lemma interval_mi_exact a b : interval_typed a -> interval_typed b -> interval_mi a b = exact_interval (i_time a - i_time b) (i_day a - i_day b) (i_month a - i_month b).
Proof. intros (?&?&?) (?&?&?). unfold interval_mi. rewrite !field_mi_exact by (done || lia). exact_fields. Qed.

Lemma interval_um_exact a : interval_typed a -> interval_um a = exact_interval (- i_time a) (- i_day a) (- i_month a).
Proof. intros (?&?&?). unfold interval_um. rewrite !field_um_exact by (done || lia). exact_fields. Qed.

Lemma int128_compare_sgn x y : int128_compare x y = Z.sgn (x - y).
Proof. unfold int128_compare. bool_cases; lia. Qed.

(** Fields of an interval and back. *)
Lemma itm_roundtrip a : interval_typed a -> itm2interval (interval2itm a) = Some a.
Proof.
  destruct a as [t d mo]. intros (Ht & Hd & Hm). cbn in *. unfold itm2interval, interval2itm, mul_s64, add_s64. cbn [i_time i_day i_month itm_usec itm_sec itm_min itm_hour itm_mday itm_mon itm_year]. unfold MONTHS_PER_YEAR, INT_MAX, INT_MIN, in_s in *. change (32 - 1) with 31 in *. change (64 - 1) with 63 in *.
  replace (Z.quot mo 12 * 12 + Z.rem mo 12) with mo by (pose proof (Z.quot_rem' mo 12); lia). destruct (Z.ltb_spec (2 ^ 31 - 1) mo), (Z.ltb_spec mo (- 2 ^ 31)); try lia. cbn [orb]. unfold_units.
  destruct (quot_facts t 3600000000) as (E1 & B1 & P1 & N1); [lia|]. set (h := Z.quot t 3600000000) in *. set (t1 := t - h * 3600000000). destruct (quot_facts t1 60000000) as (E2 & B2 & P2 & N2); [lia|]. set (mi := Z.quot t1 60000000) in *. set (t2 := t1 - mi * 60000000). destruct (quot_facts t2 1000000) as (E3 & B3 & P3 & N3); [lia|]. set (s := Z.quot t2 1000000) in *.
  rewrite !s_fits_spec. rewrite decide_True by (unfold in_s; lia). cbn. rewrite !s_fits_spec, decide_True by (unfold in_s; lia). cbn. rewrite !s_fits_spec, decide_True by (unfold in_s; lia). cbn. rewrite !s_fits_spec, decide_True by (unfold in_s; lia). cbn. do 2 f_equal. lia.
Qed.

(** Intervals.  The order of intervals is that of their lengths with months of 30 days
    and days of 24 hours; sums, differences and negations have exact fields, or are an error
    when one does not fit; the three functions that justify an interval do not change its
    length, bring the fields they adjust into their bounds and give them one sign, and fail
    only if the days or months do not fit; the fields of a broken-down interval make the
    interval again. *)
Theorem interval_arithmetic :
  (forall a b, interval_cmp_internal a b = Z.sgn (interval_cmp_value a - interval_cmp_value b))
  /\ (forall a b, interval_typed a -> interval_typed b ->
        interval_pl a b = exact_interval (i_time a + i_time b) (i_day a + i_day b) (i_month a + i_month b)
        /\ interval_mi a b = exact_interval (i_time a - i_time b) (i_day a - i_day b) (i_month a - i_month b)
        /\ interval_um a = exact_interval (- i_time a) (- i_day a) (- i_month a))
  /\ (forall a, interval_typed a ->
        (if decide (in_s 32 (i_day a + Z.quot (i_time a) USECS_PER_DAY)) then
           exists r, interval_justify_hours a = Ok r /\ interval_cmp_value r = interval_cmp_value a /\ Z.abs (i_time r) < USECS_PER_DAY /\ agree (i_time r) (i_day r) /\ i_month r = i_month a
         else interval_justify_hours a = Err INTERVAL_RANGE)
        /\ (if decide (in_s 32 (i_month a + Z.quot (i_day a) 30)) then
              exists r, interval_justify_days a = Ok r /\ interval_cmp_value r = interval_cmp_value a /\ Z.abs (i_day r) < 30 /\ agree (i_day r) (i_month r) /\ i_time r = i_time a
            else interval_justify_days a = Err INTERVAL_RANGE)
        /\ match interval_justify_interval a with
           | Ok r => justified r /\ interval_cmp_value r = interval_cmp_value a
           | Err e => e = INTERVAL_RANGE /\ 2 ^ 30 < Z.abs (i_month a)
           end
        /\ itm2interval (interval2itm a) = Some a).
Proof.
  split_and!.
  - intros a b. apply int128_compare_sgn.
  - intros a b Ha Hb. split_and!; [by apply interval_pl_exact|by apply interval_mi_exact|by apply interval_um_exact].
  - intros a Ha. split_and!; [|by apply justify_days_spec|by apply justify_interval_spec|by apply itm_roundtrip]. pose proof (justify_hours_spec a Ha) as H. cbv zeta in H. case_decide; [|done]. destruct H as (r & ?). exists r. tauto.
Qed.

Lemma interval_arithmetic_witness : interval_pl (mk_interval 1 2 3) (mk_interval 4 5 6) = exact_interval 5 7 9.
Proof. destruct interval_arithmetic as (_ & H & _). apply (H (mk_interval 1 2 3) (mk_interval 4 5 6)); unfold interval_typed, in_s; cbn; lia. Defined.

(** ** Fields of timestamps *)

(** Dates and times of day make timestamps. *)
Lemma date2timestamp_ok v : date_ok v -> v < TIMESTAMP_END_JULIAN - POSTGRES_EPOCH_JDATE -> date2timestamp v = Ok (stamp (v + POSTGRES_EPOCH_JDATE) 0).
Proof.
  intros Hv Hlt. pose proof (finite_ok v Hv) as F. unfold DATE_NOT_FINITE in F. apply orb_false_iff in F as [F1 F2]. unfold date2timestamp, date2timestamp_opt_overflow, stamp. rewrite F1, F2. destruct (Z.leb_spec (TIMESTAMP_END_JULIAN - POSTGRES_EPOCH_JDATE) v); [lia|]. f_equal. lia.
Qed.

Lemma datetime_parts v tod : date_ok v -> v < TIMESTAMP_END_JULIAN - POSTGRES_EPOCH_JDATE -> 0 <= tod < USECS_PER_DAY ->
  let t := stamp (v + POSTGRES_EPOCH_JDATE) tod in datetime_timestamp v tod = Ok t /\ stamp_ok t /\ timestamp_date t = Ok v /\ timestamp_time t = Ok (Some tod).
Proof.
  intros Hv Hlt Ht t. apply date_ok_spec in Hv as Hv'. assert (Hok : stamp_ok t) by (apply stamp_ok_day; [done|unfold_units; lia]). assert (H0 : stamp_ok (stamp (v + POSTGRES_EPOCH_JDATE) 0)) by (apply stamp_ok_day; unfold_units; lia).
  destruct (stamp_view t Hok) as (y & m & d & h & mi & s & f & V & Hto & _ & _ & Et & E2 & ED & _). destruct (day_of_stamp (v + POSTGRES_EPOCH_JDATE) tod Ht) as [Dd Dt]. fold t in Dd, Dt. rewrite Dt in Et. rewrite Dd in ED. split_and!.
  - unfold datetime_timestamp. rewrite date2timestamp_ok by done. cbn [res_bind]. rewrite (finite_stamp _ H0). assert (stamp (v + POSTGRES_EPOCH_JDATE) 0 + tod = t) as -> by (unfold stamp, t, stamp; lia). rewrite int8_id; [by rewrite Hok|]. apply stamp_ok_spec in Hok. unfold in_s, MIN_TIMESTAMP, END_TIMESTAMP in *. lia.
  - done.
  - pose proof (finite_stamp t Hok) as F. unfold TIMESTAMP_NOT_FINITE in F. apply orb_false_iff in F as [F1 F2]. unfold timestamp_date. rewrite F1, F2, E2. cbn [out_of_range res_bind tm_year tm_mon tm_mday]. rewrite ED. cbn [res_bind]. rewrite Z.add_simpl_r. apply int_ok. unfold DATE_END_JULIAN, TIMESTAMP_END_JULIAN in *. unfold_units. lia.
  - unfold timestamp_time. rewrite (finite_stamp t Hok), E2. cbn [out_of_range res_bind tm_hour tm_min tm_sec]. rewrite time2t_time_of by (unfold time_ok in Hto; lia). by rewrite <- Et.
Qed.

(** C32: Fields of timestamps.  Every timestamp of the range breaks down into a valid date and
    a time of day, from which tm2timestamp makes it again; a valid date and time of day make
    a timestamp with these fields if it is in the range, and nothing otherwise, although the
    arithmetic wraps around; a date of the range and a time of day joined to a timestamp are its
    parts. *)
Theorem timestamp_fields :
  (forall t, stamp_ok t -> exists tm fsec, timestamp2tm t = Some (tm, fsec) /\ valid_date (tm_year tm) (tm_mon tm) (tm_mday tm) = true
     /\ time_ok (tm_hour tm) (tm_min tm) (tm_sec tm) fsec /\ tm2timestamp tm fsec None = Ok (Some t))
  /\ (forall y m d h mi s f yd, valid_date y m d = true -> time_ok h mi s f ->
        let t := stamp (jdn y m d) (time_of h mi s f) in
        if IS_VALID_TIMESTAMP t then tm2timestamp (mk_tm y m d h mi s yd) f None = Ok (Some t) /\ timestamp2tm t = Some (mk_tm y m d h mi s 0, f)
        else tm2timestamp (mk_tm y m d h mi s yd) f None = Ok None)
  /\ (forall v tod, date_ok v -> v < TIMESTAMP_END_JULIAN - POSTGRES_EPOCH_JDATE -> 0 <= tod < USECS_PER_DAY ->
        exists t, datetime_timestamp v tod = Ok t /\ stamp_ok t /\ timestamp_date t = Ok v /\ timestamp_time t = Ok (Some tod)).
Proof.
  split_and!.
  - intros t Ht. destruct (stamp_view t Ht) as (y & m & d & h & mi & s & f & V & Hto & _ & J & Et & E2 & _). eexists _, f. split; [done|]. cbn. split_and!; [done|done|]. rewrite tm2timestamp_spec, J by done. rewrite <- Et. destruct (stamp_split t) as [<- _]. by rewrite Ht.
  - intros y m d h mi s f yd V Hto t. rewrite tm2timestamp_spec by done. fold t. destruct (IS_VALID_TIMESTAMP t) eqn:K; [|done]. split; [done|]. pose proof (time_of_range _ _ _ _ Hto) as Hr. apply stamp_ok_day in K; [|done]. unfold TIMESTAMP_END_JULIAN in K. unfold t. rewrite timestamp2tm_spec, jdate_jdn by (done || lia). done.
  - intros v tod Hv Hlt Ht. eexists. by apply datetime_parts.
Qed.

Lemma timestamp_fields_witness : exists t, datetime_timestamp 59 43200000000 = Ok t /\ stamp_ok t /\ timestamp_date t = Ok 59 /\ timestamp_time t = Ok (Some 43200000000).
Proof. destruct timestamp_fields as (_ & _ & H). apply (H 59 43200000000); [reflexivity|reflexivity|unfold USECS_PER_DAY; lia]. Defined.

(** ** Sums *)

(** Between two timestamps of the range, no stage leaves it. *)
Lemma stamp_between a b x : stamp_ok a -> stamp_ok b -> a <= x <= b \/ b <= x <= a -> stamp_ok x.
Proof. rewrite !stamp_ok_spec. lia. Qed.

Lemma checked_stamp t : stamp_ok t -> checked t = Ok t.
Proof. unfold checked, stamp_ok. by intros ->. Qed.

(** A span without months that leads from one timestamp of the range to another. *)
Lemma plus_to a b r : stamp_ok a -> stamp_ok b -> interval_typed r -> i_month r = 0 -> interval_cmp_value r = b - a -> agree (i_time r) (i_day r) -> timestamp_pl_interval a r = Ok b.
Proof.
  intros Ha Hb Hr Hm V S. unfold interval_cmp_value in V. rewrite Hm in V. assert (Hx : stamp_ok (a + i_day r * USECS_PER_DAY)) by (apply (stamp_between a b); [done|done|]; unfold agree in S; unfold_units; lia). rewrite timestamp_pl_interval_spec; [|done|done|].
  - unfold timestamp_plus. rewrite Hm. cbn [negb Z.eqb res_bind]. assert ((if negb (i_day r =? 0) then checked (a + i_day r * USECS_PER_DAY) else Ok a) = Ok (a + i_day r * USECS_PER_DAY)) as -> by (destruct (Z.eqb_spec (i_day r) 0) as [->|]; cbn [negb]; [f_equal; lia|by apply checked_stamp]). cbn [res_bind]. rewrite checked_stamp; [f_equal; lia|]. by replace (a + i_day r * USECS_PER_DAY + i_time r) with b by lia.
  - unfold sum_safe. rewrite Hm. cbn [negb Z.eqb]. split.
    + destruct (stamp_split a) as [Ea Ba]. rewrite Ea, <- stamp_shift in Hx. apply stamp_ok_day in Hx; [|done]. unfold wild_day. lia.
    + replace (a + i_day r * USECS_PER_DAY + i_time r) with b by lia. apply stamp_ok_spec in Hb. unfold in_s, MIN_TIMESTAMP, END_TIMESTAMP in *. lia.
Qed.

Lemma timestamp_mi_spec a b : stamp_ok a -> stamp_ok b ->
  if decide (in_s 64 (a - b)) then exists r, timestamp_mi a b = Ok r /\ interval_typed r /\ i_month r = 0 /\ interval_cmp_value r = a - b /\ Z.abs (i_time r) < USECS_PER_DAY /\ agree (i_time r) (i_day r)
  else timestamp_mi a b = Err INTERVAL_RANGE.
Proof.
  intros Ha Hb. unfold timestamp_mi. rewrite !finite_stamp by done. cbn [orb]. unfold sub_s64. rewrite s_fits_spec. destruct (decide (in_s 64 (a - b))) as [Hin|]; [|done]. cbn [out_of_range res_bind]. assert (Hty : interval_typed (mk_interval (a - b) 0 0)) by (unfold interval_typed, in_s in *; cbn; lia). pose proof (justify_hours_spec _ Hty) as H. cbn [i_day i_time] in H. pose proof (time_quot_small _ Hin) as Hq. rewrite decide_True in H by (unfold in_s; lia). destruct H as (r & E & V & B & S & M & T & _). exists r. split_and!; try done. rewrite V. unfold interval_cmp_value. cbn. lia.
Qed.

Definition negated (span : Interval) : Interval := mk_interval (- i_time span) (- i_day span) (- i_month span).



(** The 31st of January and one month, one day and 7 microseconds. *)
Example month_end : timestamp_pl_interval 2592000000000 (mk_interval 7 1 1) = Ok 5184000000007 /\ timestamp2tm 5184000000007 = Some (mk_tm 2000 3 1 0 0 0 0, 7).
Proof. vm_compute. done. Qed.

(** Where the hypotheses fail: going back 50000 days from the first of January 4713 BC leads
    to a later day, and the largest interval added to the last timestamp of the range leads
    to a day before the epoch. *)
Example days_mistaken : let t := MIN_TIMESTAMP + 38 * USECS_PER_DAY in
  stamp_ok t /\ exists r, timestamp_pl_interval t (mk_interval 0 (-50000) 0) = Ok r /\ t < r.
Proof. split; [done|]. eexists. split; [vm_compute; reflexivity|]. done. Qed.

Example time_sum_wraps : stamp_ok (END_TIMESTAMP - 1) /\ exists r, timestamp_pl_interval (END_TIMESTAMP - 1) (mk_interval (2 ^ 63 - 1) 0 0) = Ok r /\ r < 0.
Proof. split; [done|]. eexists. split; [vm_compute; reflexivity|]. done. Qed.
