(* ===== verification/TimestampTrunc.v ===== *)
(** The beginning of the unit of time a timestamp is in, series of timestamps, ages, bins and
    overlaps. *)

From S2P Require Import Prelude Dates DatesProps Timestamps TimestampSpec TimestampProps.
Local Open Scope Z_scope.
Local Open Scope pg_scope.

(** ** Truncation *)

(** The year in which the millennium, century or decade begins; 1 BC is the year zero. *)
Definition unit_year (val : unit_of_time) (y : Z) : Z :=
  match val with
  | DTK_MILLENNIUM => y - (y - 1) mod 1000
  | DTK_CENTURY => y - (y - 1) mod 100
  | DTK_DECADE => y - y mod 10
  | _ => y
  end.
Definition unit_month (val : unit_of_time) (m : Z) : Z :=
  match val with DTK_MONTH => m | DTK_QUARTER => m - (m - 1) mod 3 | _ => 1 end.

(** Microseconds of the units that have a fixed length. *)
Definition unit_usecs (val : unit_of_time) : option Z :=
  match val with
  | DTK_MICROSEC => Some 1 | DTK_MILLISEC => Some 1000 | DTK_SECOND => Some USECS_PER_SEC
  | DTK_MINUTE => Some USECS_PER_MINUTE | DTK_HOUR => Some USECS_PER_HOUR | DTK_DAY => Some USECS_PER_DAY
  | _ => None
  end.

(** The beginning of the unit. *)
Definition unit_start (val : unit_of_time) (t : Z) : Z :=
  match unit_usecs val with
  | Some u => t - t mod u
  | None =>
      match val with
      | DTK_WEEK => stamp (7 * (day_of t / 7)) 0
      | _ => let '(y, m, _) := jdate (day_of t) in stamp (jdn (unit_year val y) (unit_month val m) 1) 0
      end
  end.

Lemma trunc_year_spec val y : trunc_year val y = unit_year val y.
Proof. destruct val; cbn; destruct (Z.ltb_spec 0 y); repeat case_match; rewrite ?Z.ltb_lt, ?Z.ltb_ge in *; try done; Z.to_euclidean_division_equations; lia. Qed.

(** January and December by day numbers. *)
Lemma jan_dec y m d : valid_date y m d = true -> (m = 1 <-> jdn y m d < jdn y 1 1 + 31) /\ (m = 12 <-> jdn (y + 1) 1 1 - 31 <= jdn y m d).
Proof.
  intros V. apply valid_date_spec in V as [Hm Hd]. destruct (year_spec y) as (_ & _ & C). pose proof (feb_days y) as F. destruct (month_days_bounds y m Hm) as [_ B]. assert (E1 : jdn y 1 1 = year_base (y + 4799) + 429) by done. assert (E2 : jdn (y + 1) 1 1 = year_base (y + 4800) + 429) by (unfold jdn; change (2 <? 1) with false; cbv iota; replace (y + 1 + 4799) with (y + 4800) by lia; done). rewrite E1, E2, (jdn_day y m d).
  assert (m = 1 \/ m = 2 \/ m = 3 \/ m = 4 \/ m = 5 \/ m = 6 \/ m = 7 \/ m = 8 \/ m = 9 \/ m = 10 \/ m = 11 \/ m = 12) as Hc by lia. unfold jdn. rewrite base_of.
  repeat destruct Hc as [->|Hc]; [..|subst m]; (match goal with |- context [position ?m 1] => let p := eval vm_compute in (position m 1) in change (position m 1) with p; let c := eval vm_compute in (m <=? 2) in change (m <=? 2) with c; let n := eval vm_compute in (month_days 1 m) in change (month_days 1 m) with n in B end); cbv iota; lia.
Qed.

(** The year that timestamp_trunc finds from the number of the week is the ISO year. *)
Lemma week_year y m d : valid_date y m d = true -> year_ok (y - 1) -> year_ok (y + 1) -> exists Y, year_ok Y /\ week1 Y <= jdn y m d < week1 (Y + 1)
  /\ date2isoweek y m d = Ok ((jdn y m d - week1 Y) / 7 + 1)
  /\ (let woy := (jdn y m d - week1 Y) / 7 + 1 in
      let year := if (52 <=? woy) && (m =? 1) then y - 1 else y in
      (if (woy <=? 1) && (m =? MONTHS_PER_YEAR) then year + 1 else year) = Y).
Proof.
  intros V H1 H2. destruct (iso_year y m d V H1 H2) as (Y & HY & HW & _ & EW). exists Y. split; [unfold year_ok in *; lia|]. split_and!; [lia|lia|done|]. destruct (jan_dec y m d V) as [J D]. pose proof (jdn_year y m d V) as Hj. destruct (week_split Y (jdn y m d)) as [Ew Hmod]. set (j := jdn y m d) in *. clearbody j. set (w := (j - week1 Y) / 7) in *. clearbody w.
  pose proof (week1_jan1 y). pose proof (week1_jan1 (y + 1)). pose proof (year_length y). pose proof (week1_next y). pose proof (week1_next (y - 1)) as N1. replace (y - 1 + 1) with y in N1 by lia. unfold MONTHS_PER_YEAR. cbv zeta.
  assert (Y = y - 1 \/ Y = y \/ Y = y + 1) as [-> | [-> | ->]] by lia; [replace (y - 1 + 1) with y in HW by lia| |]; destruct (Z.leb_spec 52 (w + 1)), (Z.eqb_spec m 1), (Z.leb_spec (w + 1) 1), (Z.eqb_spec m 12); cbn [andb]; lia.
Qed.

Lemma trunc_week_spec y m d h mi s : valid_date y m d = true -> 0 <= jdn y m d < TIMESTAMP_END_JULIAN ->
  let '(y', m', d') := jdate (7 * (jdn y m d / 7)) in trunc_week (mk_tm y m d h mi s 0) = Ok (mk_tm y' m' d' 0 0 0 0).
Proof.
  unfold TIMESTAMP_END_JULIAN. intros V Hj. destruct (range_julian y m d V) as [J U]; [unfold DATE_END_JULIAN; lia|]. unfold IS_VALID_JULIAN, JULIAN_MINYEAR in J. rewrite andb_true_iff, !orb_true_iff, andb_true_iff, Z.ltb_lt, Z.eqb_eq in J. destruct (week_year y m d V) as (Y & HY & HW & EW & EY); [unfold year_ok in *; lia|unfold year_ok in *; lia|].
  unfold trunc_week. cbn [tm_year tm_mon tm_mday tm_yday]. rewrite EW. cbn [res_bind]. cbv zeta in EY. rewrite EY. destruct (week_split Y (jdn y m d)) as [Ew Hmod]. pose proof (Z.div_mod (jdn y m d) 7 ltac:(lia)) as Dm. pose proof (week1_next Y) as WN. set (j := jdn y m d) in *. clearbody j. set (w := (j - week1 Y) / 7) in *. clearbody w.
  unfold isoweek2date. rewrite isoweek2j_ok by (done || lia). cbn [res_bind]. replace (week1 Y + 7 * (w + 1 - 1)) with (7 * (j / 7)) by lia. rewrite j2date_jdate by lia. by destruct (jdate (7 * (j / 7))) as [[y' m'] d'].
Qed.

(** Units that divide the day: only the time of day matters. *)
Lemma sub_day j tod u : (u | USECS_PER_DAY) -> 0 < u -> stamp j tod - stamp j tod mod u = stamp j (tod - tod mod u).
Proof.
  intros [k Hk] Hu. assert (stamp j tod mod u = tod mod u) as ->; [|unfold stamp; lia]. unfold stamp. rewrite Hk. replace ((j - POSTGRES_EPOCH_JDATE) * (k * u) + tod) with (tod + (j - POSTGRES_EPOCH_JDATE) * k * u) by lia. by rewrite Z.mod_add by lia.
Qed.

Lemma time_of_mod h mi s f : time_ok h mi s f ->
  time_of h mi s f - time_of h mi s f mod USECS_PER_SEC = time_of h mi s 0 /\ time_of h mi s f - time_of h mi s f mod USECS_PER_MINUTE = time_of h mi 0 0
  /\ time_of h mi s f - time_of h mi s f mod USECS_PER_HOUR = time_of h 0 0 0 /\ time_of h mi s f - time_of h mi s f mod USECS_PER_DAY = time_of 0 0 0 0 /\ time_of h mi s f - time_of h mi s f mod 1000 = time_of h mi s (f - f mod 1000).
Proof.
  unfold time_ok, time_of. unfold_units. intros H. split_and!; [..|Z.to_euclidean_division_equations; lia].
  - rewrite <- (Z.mod_unique _ 1000000 ((h * 60 + mi) * 60 + s) f); lia.
  - rewrite <- (Z.mod_unique _ 60000000 (h * 60 + mi) (s * 1000000 + f)); lia.
  - rewrite <- (Z.mod_unique _ 3600000000 h ((mi * 60 + s) * 1000000 + f)); lia.
  - rewrite Z.mod_small; lia.
Qed.

Lemma unit_date_valid val y m d : valid_date y m d = true -> valid_date (unit_year val y) (unit_month val m) 1 = true.
Proof.
  intros [Hm _]%valid_date_spec. assert (1 <= unit_month val m <= 12) by (destruct val; cbn; Z.to_euclidean_division_equations; lia). apply valid_date_spec. pose proof (month_days_bounds (unit_year val y) (unit_month val m)). lia.
Qed.

Lemma quarter_month m : 1 <= m -> 3 * Z.quot (m - 1) 3 + 1 = m - (m - 1) mod 3.
Proof. intros H. rewrite Z.quot_div_nonneg by lia. pose proof (Z.div_mod (m - 1) 3 ltac:(lia)). lia. Qed.

(** timestamp_trunc finds the beginning of the unit. *)
Lemma timestamp_trunc_spec val t : val <> DTK_OTHER -> stamp_ok t -> timestamp_trunc val t = checked (unit_start val t).
Proof.
  intros Hv Ht. destruct (stamp_view t Ht) as (y & m & d & h & mi & s & f & V & Hok & Ed & Ej & Et & E2 & _). destruct (stamp_ok_range t Ht) as [Hday _]. unfold timestamp_trunc. rewrite finite_stamp, E2 by done. cbn [out_of_range res_bind]. destruct (stamp_split t) as [E _]. rewrite <- Ej, Et in E. apply valid_date_spec in V as V'. destruct V' as [Hm Hd].
  assert (G : forall y m d h mi s f t', valid_date y m d = true -> time_ok h mi s f -> t' = stamp (jdn y m d) (time_of h mi s f) -> (t <-! tm2timestamp (mk_tm y m d h mi s 0) f None ;; out_of_range TIMESTAMP_RANGE t) = checked t') by (intros * V' H' ->; rewrite tm2timestamp_spec by done; cbn [res_bind]; apply out_of_range_checked).
  destruct (time_of_mod h mi s f Hok) as (M1 & M2 & M3 & M4 & M5). assert (D : forall u, (u | USECS_PER_DAY) -> 0 < u -> t - t mod u = stamp (jdn y m d) (time_of h mi s f - time_of h mi s f mod u)) by (intros u Hu Hp; rewrite E; by apply sub_day).
  assert (Z0 : time_ok 0 0 0 0) by (unfold time_ok; unfold_units; lia). pose proof (jdn_jdate (7 * (day_of t / 7))) as JW. pose proof (trunc_week_spec y m d h mi s V) as TW. rewrite Ej in TW. specialize (TW Hday).
  unfold unit_start. rewrite Ed. unfold trunc_fields, falls_through. cbn [tm_year tm_mon tm_mday tm_hour tm_min tm_sec tm_yday unit_rank].
  destruct val; try done; cbn [unit_rank unit_usecs unit_year unit_month Z.leb Z.compare Pos.compare Pos.compare_cont res_bind]; rewrite ?trunc_year_spec; cbn [unit_year].
  - destruct (jdate (7 * (day_of t / 7))) as [[y' m'] d']. destruct JW as [V' <-]. rewrite TW. cbn [res_bind]. by apply G.
  - apply G; [apply (unit_date_valid DTK_MILLENNIUM y m d V)|done|done].
  - apply G; [apply (unit_date_valid DTK_CENTURY y m d V)|done|done].
  - apply G; [apply (unit_date_valid DTK_DECADE y m d V)|done|done].
  - apply G; [apply (unit_date_valid DTK_YEAR y m d V)|done|done].
  - rewrite quarter_month by lia. apply G; [apply (unit_date_valid DTK_QUARTER y m d V)|done|done].
  - apply G; [apply (unit_date_valid DTK_MONTH y m d V)|done|done].
  - apply G; [done|done|]. rewrite D, M4; [done|by exists 1|unfold_units; lia].
  - apply G; [done|unfold time_ok in *; unfold_units; lia|]. rewrite D, M3; [done|by exists 24|unfold_units; lia].
  - apply G; [done|unfold time_ok in *; unfold_units; lia|]. rewrite D, M2; [done|by exists 1440|unfold_units; lia].
  - apply G; [done|unfold time_ok in *; unfold_units; lia|]. rewrite D, M1; [done|by exists 86400|unfold_units; lia].
  - assert (Hf : 0 <= f < USECS_PER_SEC) by apply Hok. rewrite Z.quot_div_nonneg by lia. replace (f / 1000 * 1000) with (f - f mod 1000) by (pose proof (Z.div_mod f 1000 ltac:(lia)); lia). apply G; [done|pose proof (Z.mod_pos_bound f 1000 ltac:(lia)); pose proof (Z.mod_le f 1000 ltac:(lia) ltac:(lia)); unfold time_ok in *; lia|]. rewrite D, M5; [done|by exists 86400000|lia].
  - rewrite Z.mod_1_r. apply G; [done|done|]. lia.
Qed.

(** ** The order of dates *)

Lemma month_after y m n : 1 <= m -> m + 1 + Z.of_nat n <= 12 -> jdn y m (month_days y m) < jdn y (m + 1 + Z.of_nat n) 1.
Proof.
  intros Hm. assert (Step : forall k, 1 <= k < 12 -> jdn y (k + 1) 1 = jdn y k (month_days y k) + 1 /\ jdn y k 1 <= jdn y k (month_days y k)).
  { intros k Hk. pose proof (month_days_bounds y k ltac:(lia)) as [B _]. split; [|rewrite (jdn_day y k (month_days y k)); lia]. pose proof (jdn_next y k (month_days y k) ltac:(apply valid_date_spec; lia)) as N. unfold next_day in N. destruct (Z.ltb_spec (month_days y k) (month_days y k)); [lia|]. destruct (Z.ltb_spec k 12); [|lia]. lia. }
  induction n as [|n IH]; intros Hn.
  - replace (m + 1 + Z.of_nat 0) with (m + 1) by lia. destruct (Step m ltac:(lia)). lia.
  - specialize (IH ltac:(lia)). replace (m + 1 + Z.of_nat (S n)) with (m + 1 + Z.of_nat n + 1) by lia. destruct (Step (m + 1 + Z.of_nat n) ltac:(lia)). lia.
Qed.

(** An earlier month has smaller day numbers. *)
Lemma jdn_order y m d y' m' d' : valid_date y m d = true -> valid_date y' m' d' = true -> y < y' \/ y = y' /\ m < m' -> jdn y m d < jdn y' m' d'.
Proof.
  intros V V' [H|[<- H]].
  - pose proof (jdn_year y m d V). pose proof (jdn_year y' m' d' V'). pose proof (jan1_mono (y + 1) y' ltac:(lia)). lia.
  - apply valid_date_spec in V as [Hm Hd], V' as [Hm' Hd']. pose proof (month_after y m (Z.to_nat (m' - m - 1)) ltac:(lia) ltac:(lia)) as A. replace (m + 1 + Z.of_nat (Z.to_nat (m' - m - 1))) with m' in A by lia. rewrite (jdn_day y m d), (jdn_day y m' d'), (jdn_day y m (month_days y m)) in *. lia.
Qed.

Lemma jdate_between j1 j2 : j1 <= j2 -> let '(y1, m1, _) := jdate j1 in let '(y2, m2, _) := jdate j2 in y1 < y2 \/ y1 = y2 /\ m1 <= m2.
Proof.
  intros H. pose proof (jdn_jdate j1) as J1. pose proof (jdn_jdate j2) as J2. destruct (jdate j1) as [[y1 m1] d1], (jdate j2) as [[y2 m2] d2]. destruct J1 as [V1 <-], J2 as [V2 <-]. destruct (decide (y2 < y1 \/ y2 = y1 /\ m2 < m1)) as [N|]; [|lia]. pose proof (jdn_order _ _ _ _ _ _ V2 V1 N). lia.
Qed.

(** Between the beginning of a period and a date in it, dates have the same beginning. *)
Lemma unit_date_between val y m yb mb : unit_usecs val = None -> val <> DTK_WEEK -> val <> DTK_OTHER -> 1 <= m <= 12 -> 1 <= mb <= 12 ->
  unit_year val y < yb \/ unit_year val y = yb /\ unit_month val m <= mb -> yb < y \/ yb = y /\ mb <= m -> unit_year val yb = unit_year val y /\ unit_month val mb = unit_month val m.
Proof. intros Hu Hw Ho Hm Hmb. destruct val; try done; cbn [unit_year unit_month]; intros A B; (split; [|try done]); Z.to_euclidean_division_equations; lia. Qed.

Lemma unit_date_before val y m : 1 <= m <= 12 -> unit_year val y < y \/ unit_year val y = y /\ unit_month val m <= m.
Proof. intros Hm. destruct val; cbn [unit_year unit_month]; Z.to_euclidean_division_equations; lia. Qed.

Lemma day_of_mono a b : a <= b -> day_of a <= day_of b.
Proof. intros H. unfold day_of. pose proof (Z.div_le_mono a b USECS_PER_DAY ltac:(unfold_units; lia) H). lia. Qed.

Lemma floor_between t b u : 0 < u -> t - t mod u <= b <= t -> b - b mod u = t - t mod u.
Proof.
  intros Hu Hb. pose proof (Z.div_mod t u ltac:(lia)). pose proof (Z.mod_pos_bound t u Hu). assert (b mod u = b - u * (t / u)) as ->; [|lia]. symmetry. apply Z.mod_unique with (q := t / u); lia.
Qed.

Lemma stamp_le j tod t : 0 <= tod < USECS_PER_DAY -> stamp j tod <= t -> j <= day_of t.
Proof. intros Ht H. pose proof (day_of_mono _ _ H) as D. destruct (day_of_stamp j tod Ht) as [E _]. lia. Qed.

Lemma stamp_day_le j t : j <= day_of t -> stamp j 0 <= t.
Proof. intros H. destruct (stamp_split t) as [E B]. rewrite E. unfold stamp. unfold_units. nia. Qed.

(** The beginning is not later, and everything in between has the same beginning. *)
Lemma unit_start_floor val t : val <> DTK_OTHER -> unit_start val t <= t /\ forall b, unit_start val t <= b <= t -> unit_start val b = unit_start val t.
Proof.
  intros Ho. unfold unit_start. assert (Z0 : 0 <= 0 < USECS_PER_DAY) by (unfold_units; lia). destruct (unit_usecs val) as [u|] eqn:U.
  - assert (0 < u) by (destruct val; simplify_eq/=; unfold_units; lia). pose proof (Z.mod_pos_bound t u ltac:(lia)). split; [lia|]. intros b. by apply floor_between.
  - assert (G : (stamp (7 * (day_of t / 7)) 0 <= t /\ forall b, stamp (7 * (day_of t / 7)) 0 <= b <= t -> stamp (7 * (day_of b / 7)) 0 = stamp (7 * (day_of t / 7)) 0)).
    { pose proof (Z.div_mod (day_of t) 7 ltac:(lia)). pose proof (Z.mod_pos_bound (day_of t) 7 ltac:(lia)). split; [apply stamp_day_le; lia|]. intros b [B1 B2]. apply stamp_le in B1; [|done]. apply day_of_mono in B2. f_equal. pose proof (floor_between (day_of t) (day_of b) 7 ltac:(lia) ltac:(lia)). pose proof (Z.div_mod (day_of b) 7 ltac:(lia)). lia. }
    destruct (decide (val = DTK_WEEK)) as [->|Hw]; [done|]. clear G. pose proof (jdn_jdate (day_of t)) as Jt. pose proof (jdate_between) as JB.
    assert (K : (let '(y, m, _) := jdate (day_of t) in stamp (jdn (unit_year val y) (unit_month val m) 1) 0) <= t /\ forall b, (let '(y, m, _) := jdate (day_of t) in stamp (jdn (unit_year val y) (unit_month val m) 1) 0) <= b <= t ->
      (let '(y, m, _) := jdate (day_of b) in stamp (jdn (unit_year val y) (unit_month val m) 1) 0) = (let '(y, m, _) := jdate (day_of t) in stamp (jdn (unit_year val y) (unit_month val m) 1) 0)); [|by destruct val].
    destruct (jdate (day_of t)) as [[y m] d] eqn:Et. destruct Jt as [V Jt]. pose proof (unit_date_valid val y m d V) as V0. apply valid_date_spec in V as Vm. destruct Vm as [Hm Hd]. apply valid_date_spec in V0 as V0m. split.
    + apply stamp_day_le. rewrite <- Jt. destruct (unit_date_before val y m Hm) as [B|[By Bm]]; [apply Z.lt_le_incl, jdn_order; [done|done|by left]|]. rewrite By in *. destruct (Z.eq_dec (unit_month val m) m) as [->|]; [rewrite (jdn_day y m d); lia|]. apply Z.lt_le_incl, jdn_order; [done|done|right; lia].
    + intros b [B1 B2]. apply stamp_le in B1; [|done]. apply day_of_mono in B2. pose proof (JB _ _ B1) as L1. pose proof (JB _ _ B2) as L2. rewrite (jdate_jdn _ _ _ V0) in L1. rewrite Et in L2. pose proof (jdn_jdate (day_of b)) as Jb. destruct (jdate (day_of b)) as [[yb mb] db]. destruct Jb as [Vb _]. apply valid_date_spec in Vb as [Hmb _]. destruct (unit_date_between val y m yb mb U Hw Ho Hm Hmb L1 L2) as [-> ->]. done.
Qed.

(** Truncation.  timestamp_trunc returns the beginning of the unit: the last multiple of
    units up to the day, the Monday of the ISO week, the first day of the month, quarter,
    year, decade, century or millennium, or an error if that is out of range.  The beginning
    is not later than the timestamp, and every timestamp from it on up to the given one has
    the same beginning. *)
Theorem timestamp_truncation val t : val <> DTK_OTHER -> stamp_ok t ->
  timestamp_trunc val t = checked (unit_start val t) /\ unit_start val t <= t /\ forall b, unit_start val t <= b <= t -> unit_start val b = unit_start val t.
Proof. intros Hv Ht. split; [by apply timestamp_trunc_spec|by apply unit_start_floor]. Qed.

Lemma timestamp_truncation_witness : timestamp_trunc DTK_WEEK 1000000000 = checked (unit_start DTK_WEEK 1000000000).
Proof. apply (timestamp_truncation DTK_WEEK 1000000000); done. Defined.

(** ** Series *)

(** The values of a series; nothing if the fuel is not enough. *)
Fixpoint series_run (fuel : nat) (fctx : series) : res (option (list Z)) :=
  match fuel with
  | O => Ok None
  | S fuel' =>
      '(value, fctx) <-! series_next fctx ;;
      match value with
      | None => Ok (Some [])
      | Some v => rest <-! series_run fuel' fctx ;; Ok (cons v <$> rest)
      end
  end.

(** How many steps of [v] fit. *)
Definition series_length (start finish v : Z) : Z := (finish - start) / v + 1.

Lemma series_run_spec n : forall start finish step v, stamp_ok start -> stamp_ok (finish + v) -> interval_typed step -> i_month step = 0 -> agree (i_time step) (i_day step) -> interval_cmp_value step = v -> 0 < v ->
  series_length start finish v <= Z.of_nat n -> series_run (S n) (mk_series start finish step 1) = Ok (Some ((fun k => start + v * k) <$> seqZ 0 (series_length start finish v))).
Proof.
  induction n as [|n IH]; intros start finish step v Hs Hf Ht Hm Ha Hv Hp Hn.
  - cbn [series_run]. unfold series_next. cbn. unfold timestamp_cmp_internal. assert (finish < start) by (unfold series_length in Hn; destruct (Z.lt_ge_cases finish start) as [|G]; [done|]; pose proof (Z.div_pos (finish - start) v ltac:(lia) Hp); lia). destruct (Z.ltb_spec start finish); [lia|]. destruct (Z.ltb_spec finish start); [|lia]. cbn [Z.leb Z.compare Pos.compare res_bind]. rewrite seqZ_nil by lia. done.
  - change (series_run (S (S n)) (mk_series start finish step 1)) with ('(value, fctx) <-! series_next (mk_series start finish step 1) ;; match value with None => Ok (Some []) | Some v => rest <-! series_run (S n) fctx ;; Ok (cons v <$> rest) end). unfold series_next. cbn [current Timestamps.finish Timestamps.step step_sign]. change (0 <? 1) with true. cbv iota. unfold timestamp_cmp_internal. destruct (Z.lt_ge_cases finish start) as [L|G].
    + destruct (Z.ltb_spec start finish); [lia|]. destruct (Z.ltb_spec finish start); [|lia]. cbn [Z.leb Z.compare Pos.compare res_bind]. rewrite seqZ_nil; [done|]. unfold series_length. assert ((finish - start) / v < 0) by (apply Z.div_lt_upper_bound; lia). lia.
    + assert (((if start <? finish then -1 else if finish <? start then 1 else 0) <=? 0) = true) as -> by (destruct (Z.ltb_spec start finish); [done|]; by destruct (Z.ltb_spec finish start); [lia|]). assert (Hn1 : stamp_ok (start + v)) by (apply (stamp_between start (finish + v)); [done|done|lia]). rewrite (plus_to start (start + v)) by (done || lia). cbn [res_bind]. assert (EL : series_length (start + v) finish v = series_length start finish v - 1) by (unfold series_length; replace (finish - start) with (finish - (start + v) + 1 * v) by lia; rewrite Z.div_add by lia; lia).
      rewrite (IH (start + v) finish step v) by (done || lia). cbn [res_bind fmap option_fmap option_map]. rewrite EL. do 2 f_equal. assert (0 < series_length start finish v) by (unfold series_length; pose proof (Z.div_pos (finish - start) v ltac:(lia) Hp); lia). rewrite (seqZ_cons 0 (series_length start finish v)) by lia. cbn [fmap list_fmap]. f_equal; [lia|]. rewrite <- (fmap_add_seqZ 1 0). rewrite <- list_fmap_compose. replace (Z.pred (series_length start finish v)) with (series_length start finish v - 1) by lia. apply list_fmap_ext. intros i x _. cbn. lia.
Qed.

(** Series.  generate_series with a positive step of days and time returns the start and
    every value that whole steps lead to, up to the end, in order, and then ends, provided
    that the value one step after the end is in the range; a start after the end gives no
    value, and a step of length zero is an error. *)
Theorem timestamp_series_ends start finish step :
  stamp_ok start -> interval_typed step -> i_month step = 0 -> agree (i_time step) (i_day step) -> let v := interval_cmp_value step in
  0 < v -> stamp_ok (finish + v) ->
  exists fctx, series_start start finish step = Ok fctx
    /\ forall fuel, (Z.to_nat (series_length start finish v) < fuel)%nat -> series_run fuel fctx = Ok (Some ((fun k => start + v * k) <$> seqZ 0 (series_length start finish v))).
Proof.
  intros Hs Ht Hm Ha v Hv Hf. exists (mk_series start finish step 1). split.
  - unfold series_start, interval_cmp_internal. rewrite int128_compare_sgn. fold v. change (interval_cmp_value (mk_interval 0 0 0)) with 0. rewrite Z.sub_0_r, Z.sgn_pos by done. done.
  - intros fuel Hfuel. destruct fuel as [|n]; [lia|]. apply series_run_spec; try done; lia.
Qed.

Lemma timestamp_series_ends_witness : exists fctx, series_start 0 (2 * USECS_PER_DAY) (mk_interval 0 1 0) = Ok fctx /\ series_run 4 fctx = Ok (Some [0; USECS_PER_DAY; 2 * USECS_PER_DAY]).
Proof.
  destruct (timestamp_series_ends 0 (2 * USECS_PER_DAY) (mk_interval 0 1 0)) as (fctx & E & H); [done|unfold interval_typed, in_s; cbn; lia|done|unfold agree; cbn; lia|done|done|]. exists fctx. split; [done|]. apply (H 4%nat). vm_compute. lia.
Defined.

(** With months it may not end: one month less 29 days is a positive step, and leads from the
    30th of January 2001 to itself. *)
Example series_stuck : let t := stamp (jdn 2001 1 30) 0 in let s := mk_series t (t + USECS_PER_DAY) (mk_interval 0 (-29) 1) 1 in
  series_start t (t + USECS_PER_DAY) (mk_interval 0 (-29) 1) = Ok s /\ series_next s = Ok (Some t, s).
Proof. vm_compute. done. Qed.

(** ** Ages *)

(** One pass of a carry loop is enough. *)
Lemma carry_one_pass unit low high : - unit <= low -> carry 3 unit low high = Ok (if low <? 0 then (low + unit, high - 1) else (low, high)).
Proof. intros H. cbn. destruct (Z.ltb_spec low 0); [|done]. by destruct (Z.ltb_spec (low + unit) 0); [lia|]. Qed.

(** A negative field borrows one of the next. *)
Definition borrow (x : Z) : Z := if x <? 0 then 1 else 0.

Lemma carry_borrow unit low high : - unit <= low -> carry 3 unit low high = Ok (low + unit * borrow low, high - borrow low).
Proof. intros H. rewrite carry_one_pass by done. unfold borrow. destruct (low <? 0); do 2 f_equal; lia. Qed.

(** The difference of two times of day, with a day borrowed if it is negative. *)
Lemma carry_fields_spec h1 mi1 s1 f1 h2 mi2 s2 f2 mday mon year days : time_ok h1 mi1 s1 f1 -> time_ok h2 mi2 s2 f2 -> 0 < days -> 1 - days <= mday -> -11 <= mon ->
  let time := time_of h1 mi1 s1 f1 - time_of h2 mi2 s2 f2 in
  let day := mday - borrow time in
  let month := mon - borrow day in
  exists h mi s f, time_ok h mi s f /\ time_of h mi s f = time + USECS_PER_DAY * borrow time
  /\ carry_fields (mk_itm (f1 - f2) (s1 - s2) (mi1 - mi2) (h1 - h2) mday mon year) days = Ok (mk_itm f s mi h (day + days * borrow day) (month + 12 * borrow month) (year - borrow month)).
Proof.
  intros (A1 & A2 & A3 & A4) (B1 & B2 & B3 & B4) Hd Hm Hmo time day month. unfold carry_fields. cbn [itm_usec itm_sec itm_min itm_hour itm_mday itm_mon itm_year]. rewrite carry_borrow by (unfold_units; lia). cbn [res_bind]. set (f := f1 - f2 + _). set (bf := borrow (f1 - f2)). assert (Hbf : 0 <= f < 1000000 /\ 0 <= bf <= 1) by (unfold f, bf, borrow; unfold_units; destruct (Z.ltb_spec (f1 - f2) 0); lia).
  rewrite carry_borrow by (unfold_units; lia). cbn [res_bind]. set (s := s1 - s2 - bf + _). set (bs := borrow (s1 - s2 - bf)). assert (Hbs : 0 <= s < 60 /\ 0 <= bs <= 1) by (unfold s, bs, borrow; unfold_units; destruct (Z.ltb_spec (s1 - s2 - bf) 0); lia).
  rewrite carry_borrow by (unfold_units; lia). cbn [res_bind]. set (mi := mi1 - mi2 - bs + _). set (bm := borrow (mi1 - mi2 - bs)). assert (Hbm : 0 <= mi < 60 /\ 0 <= bm <= 1) by (unfold mi, bm, borrow; unfold_units; destruct (Z.ltb_spec (mi1 - mi2 - bs) 0); lia).
  rewrite carry_borrow by (unfold_units; lia). cbn [res_bind]. set (h := h1 - h2 - bm + _). set (bh := borrow (h1 - h2 - bm)). assert (Hbh : 0 <= h < 24 /\ 0 <= bh <= 1) by (unfold h, bh, borrow; unfold_units; destruct (Z.ltb_spec (h1 - h2 - bm) 0); lia).
  assert (ET : time_of h mi s f = time + USECS_PER_DAY * bh) by (unfold time, time_of, h, mi, s, f; fold bf bs bm bh; unfold_units; lia). assert (EB : bh = borrow time). { assert (0 <= time_of h mi s f < USECS_PER_DAY) by (apply time_of_range; unfold time_ok; unfold_units; lia). unfold borrow. unfold_units. destruct (Z.ltb_spec time 0); lia. }
  rewrite EB. fold day. rewrite carry_borrow by (unfold day; lia). cbn [res_bind]. fold month. rewrite carry_borrow by (unfold month, borrow, MONTHS_PER_YEAR; destruct (day <? 0); lia). cbn [res_bind]. exists h, mi, s, f. split_and!; [unfold time_ok; unfold_units; lia..|by rewrite ET, EB|done].
Qed.

Lemma date_order y m d y' m' d' : valid_date y m d = true -> valid_date y' m' d' = true -> jdn y m d <= jdn y' m' d' -> y < y' \/ y = y' /\ (m < m' \/ m = m' /\ d <= d').
Proof.
  intros V V' H. destruct (decide (y' < y \/ y' = y /\ m' < m)) as [N|]; [pose proof (jdn_order _ _ _ _ _ _ V' V N); lia|]. destruct (decide (y < y' \/ y = y' /\ m < m')) as [|N]; [lia|]. assert (y = y') as <- by lia. assert (m = m') as <- by lia. rewrite (jdn_day y m d), (jdn_day y m d') in H. lia.
Qed.

Lemma itm2interval_neg h mi s f d mo y : time_ok h mi s f -> in_s 32 (y * 12 + mo) -> in_s 32 (- (y * 12 + mo)) ->
  itm2interval (mk_itm f s mi h d mo y) = Some (mk_interval (time_of h mi s f) d (y * 12 + mo)) /\ itm2interval (itm_neg (mk_itm f s mi h d mo y)) = Some (mk_interval (- time_of h mi s f) (- d) (- (y * 12 + mo))).
Proof.
  intros (A & B & C & D) H1 H2. unfold itm2interval, itm_neg, mul_s64, add_s64, MONTHS_PER_YEAR, INT_MAX, INT_MIN, time_of, in_s in *. cbn [itm_usec itm_sec itm_min itm_hour itm_mday itm_mon itm_year]. unfold_units. change (32 - 1) with 31 in *. replace (- y * 12 + - mo) with (- (y * 12 + mo)) by lia. set (n := y * 12 + mo) in *. clearbody n. destruct (Z.ltb_spec (2 ^ 31 - 1) n), (Z.ltb_spec n (- 2 ^ 31)), (Z.ltb_spec (2 ^ 31 - 1) (- n)), (Z.ltb_spec (- n) (- 2 ^ 31)); try lia. cbn [orb].
  split; do 4 (rewrite s_fits_spec, decide_True by (unfold in_s; lia); cbn [mbind option_bind]); do 2 f_equal; lia.
Qed.

(** The age of a later timestamp: months, days and time are not negative. *)
Lemma age_later a b : stamp_ok a -> stamp_ok b -> b <= a -> exists r, timestamp_age a b = Ok r /\ 0 <= i_time r < USECS_PER_DAY /\ 0 <= i_day r <= 31 /\ 0 <= i_month r /\ (b < a -> timestamp_age b a = Ok (negated r)).
Proof.
  intros Ha Hb Hab. destruct (stamp_view a Ha) as (y1 & m1 & d1 & h1 & mi1 & s1 & f1 & V1 & T1 & _ & J1 & Et1 & E1 & _ & _). destruct (stamp_view b Hb) as (y2 & m2 & d2 & h2 & mi2 & s2 & f2 & V2 & T2 & _ & J2 & Et2 & E2 & _ & _). destruct (stamp_ok_range a Ha) as [Da Ta], (stamp_ok_range b Hb) as [Db Tb].
  assert (Y1 : -4713 <= y1 <= JULIAN_MAXYEAR) by (apply (stamp_years y1 m1 d1 (tod_of a) V1 Ta); rewrite J1; by destruct (stamp_split a) as [<- _]). assert (Y2 : -4713 <= y2 <= JULIAN_MAXYEAR) by (apply (stamp_years y2 m2 d2 (tod_of b) V2 Tb); rewrite J2; by destruct (stamp_split b) as [<- _]).
  pose proof (day_of_mono _ _ Hab) as Hday. assert (Htod : day_of a = day_of b -> tod_of b <= tod_of a) by (destruct (stamp_split a) as [Ea _], (stamp_split b) as [Eb _]; intros Ed; rewrite Ea, Eb, Ed in Hab; unfold stamp in Hab; lia). rewrite <- J1, <- J2 in Hday. pose proof (date_order _ _ _ _ _ _ V2 V1 Hday) as L. assert (L2 : y1 = y2 -> m1 = m2 -> d1 = d2 -> tod_of b <= tod_of a) by (intros <- <- <-; apply Htod; lia). clear Htod Hday. rewrite Et1, Et2 in *.
  apply valid_date_spec in V1 as W1. apply valid_date_spec in V2 as W2. destruct (month_days_bounds y2 m2 ltac:(lia)) as [B2 _]. destruct (month_days_bounds y1 m1 ltac:(lia)) as [B1 _].
  destruct (carry_fields_spec h1 mi1 s1 f1 h2 mi2 s2 f2 (d1 - d2) (m1 - m2) (y1 - y2) (month_days y2 m2) T1 T2) as (h & mi & s & f & Tok & Et & Ec); [lia|lia|lia|]. set (time := time_of h1 mi1 s1 f1 - time_of h2 mi2 s2 f2) in *. set (day := d1 - d2 - borrow time) in *. set (month := m1 - m2 - borrow day) in *.
  assert (BO : forall x, 0 <= borrow x <= 1 /\ (x < 0 <-> borrow x = 1)) by (intros x; unfold borrow; destruct (Z.ltb_spec x 0); lia). pose proof (BO time). pose proof (BO day). pose proof (BO month). assert (0 <= month + 12 * borrow month <= 11) by (unfold month in *; lia). assert (0 <= y1 - y2 - borrow month) by (unfold month, day in *; lia). unfold JULIAN_MAXYEAR in *.
  destruct (itm2interval_neg h mi s f (day + month_days y2 m2 * borrow day) (month + 12 * borrow month) (y1 - y2 - borrow month) Tok) as [I1 I2]; [unfold in_s; lia|unfold in_s; lia|].
  assert (Hd : 0 <= day + month_days y2 m2 * borrow day <= 31) by (destruct (Z.eq_dec (borrow day) 1) as [Eb|Eb]; [rewrite Eb|replace (borrow day) with 0 by lia]; unfold day in *; lia). exists (mk_interval (time_of h mi s f) (day + month_days y2 m2 * borrow day) ((y1 - y2 - borrow month) * 12 + (month + 12 * borrow month))). cbn [i_time i_day i_month]. split_and!; [|by apply time_of_range|apply time_of_range in Tok; lia|lia|lia|lia|].
  - unfold timestamp_age. rewrite E1, E2. destruct (Z.ltb_spec a b); [lia|]. cbn [tm_year tm_mon tm_mday tm_hour tm_min tm_sec]. fold (month_days y2 m2). rewrite Ec. cbn [res_bind]. by rewrite I1.
  - intros Hlt. unfold timestamp_age. rewrite E1, E2. destruct (Z.ltb_spec b a); [|lia]. cbn [tm_year tm_mon tm_mday tm_hour tm_min tm_sec]. fold (month_days y2 m2). assert (itm_neg (mk_itm (f2 - f1) (s2 - s1) (mi2 - mi1) (h2 - h1) (d2 - d1) (m2 - m1) (y2 - y1)) = mk_itm (f1 - f2) (s1 - s2) (mi1 - mi2) (h1 - h2) (d1 - d2) (m1 - m2) (y1 - y2)) as -> by (unfold itm_neg; cbn [itm_usec itm_sec itm_min itm_hour itm_mday itm_mon itm_year]; f_equal; lia).
    rewrite Ec. cbn [res_bind]. by rewrite I2.
Qed.

(** ** Bins *)

(** The bin that a timestamp falls in, counted from an origin: right, unless the timestamp
    is the beginning of a bin in front of the origin, for which the bin before is returned. *)
Lemma timestamp_bin_spec stride t origin : stamp_ok t -> stamp_ok origin -> i_month stride = 0 -> let s := interval_cmp_value stride in
  0 < s < 2 ^ 62 -> in_s 64 (t - origin) -> in_s 64 (t - origin - s) ->
  timestamp_bin stride t origin = Ok (if (t <? origin) && ((t - origin) mod s =? 0) && (1 <? s) then t - s else origin + s * ((t - origin) / s)).
Proof.
  intros Ht Ho Hm s Hs Hd Hds. unfold timestamp_bin. rewrite !finite_stamp, Hm by done. cbn [negb Z.eqb]. assert (E : i_day stride * USECS_PER_DAY + i_time stride = s) by (unfold s, interval_cmp_value; rewrite Hm; lia). rewrite E, (int8_id s), (int8_id (t - origin)) by (done || unfold in_s; lia). destruct (Z.leb_spec s 0); [lia|]. clear E. clearbody s. apply stamp_ok_spec in Ht, Ho. unfold MIN_TIMESTAMP, END_TIMESTAMP, in_s in *.
  destruct (quot_facts (t - origin) s ltac:(lia)) as (Q & B & P & N). destruct (Z.ltb_spec t origin) as [L|G]; cbn [andb].
  - specialize (N ltac:(lia)). destruct (Z.eqb_spec ((t - origin) mod s) 0) as [M|M]; cbn [andb].
    + assert (R : Z.rem (t - origin) s = 0) by (apply Z.rem_divide; [lia|]; by apply Z.mod_divide; [lia|]). rewrite R, Z.sub_0_r. destruct (Z.ltb_spec 1 s); [rewrite (int8_id (t - origin - s)), int8_id by (unfold in_s; lia); f_equal; lia|]. assert (s = 1) as -> by lia. rewrite Z.div_1_r, int8_id by (unfold in_s; lia). f_equal. lia.
    + assert (R : Z.rem (t - origin) s <> 0) by (intros R; apply M; apply Z.mod_divide; [lia|]; by apply Z.rem_divide; [lia|]). assert (1 < s) by (destruct (Z.eq_dec s 1) as [->|]; [by rewrite Z.mod_1_r in M|lia]). destruct (Z.ltb_spec 1 s); [|lia]. assert (F : (t - origin) / s = Z.quot (t - origin) s - 1) by (symmetry; apply Z.div_unique with (r := Z.rem (t - origin) s + s); lia). rewrite F, (int8_id (t - origin - _ - s)), int8_id by (unfold in_s; lia). f_equal. lia.
  - specialize (P ltac:(lia)). rewrite Z.rem_mod_nonneg, int8_id by (unfold in_s; rewrite ?Z.rem_mod_nonneg in * by lia; lia). pose proof (Z.div_mod (t - origin) s ltac:(lia)). f_equal. lia.
Qed.

(** The second half of the day before the origin begins its own bin of 12 hours; the first
    half is returned. *)
Example bin_before : timestamp_bin (mk_interval (12 * USECS_PER_HOUR) 0 0) (-12 * USECS_PER_HOUR) 0 = Ok (-24 * USECS_PER_HOUR).
Proof. done. Qed.

(** ** Overlaps *)

(** Without nulls: two intervals overlap if they begin together, or one begins inside the
    other. *)
Lemma overlaps_spec s1 e1 s2 e2 : overlaps_timestamp (Some s1) (Some e1) (Some s2) (Some e2) =
  let b1 := Z.min s1 e1 in let b2 := Z.min s2 e2 in
  Some ((b1 =? b2) || ((b1 <? b2) && (b2 <? Z.max s1 e1)) || ((b2 <? b1) && (b1 <? Z.max s2 e2))).
Proof.
  unfold overlaps_timestamp, endpoints. destruct (Z.ltb_spec e1 s1); [rewrite (Z.min_r s1), (Z.max_l s1) by lia|rewrite (Z.min_l s1), (Z.max_r s1) by lia]; (destruct (Z.ltb_spec e2 s2); [rewrite (Z.min_r s2), (Z.max_l s2) by lia|rewrite (Z.min_l s2), (Z.max_r s2) by lia]); cbv zeta; cbn [mbind option_bind];
    bool_cases; f_equal; symmetry; rewrite ?orb_true_iff, ?orb_false_iff, ?andb_true_iff, ?andb_false_iff, ?Z.eqb_eq, ?Z.eqb_neq, ?Z.ltb_lt, ?Z.ltb_ge; lia.
Qed.

(** An answer given in spite of nulls is the answer for every value in their place. *)
Lemma overlaps_nulls ts1 te1 ts2 te2 b : overlaps_timestamp ts1 te1 ts2 te2 = Some b ->
  forall s1 e1 s2 e2, (forall x, ts1 = Some x -> s1 = x) -> (forall x, te1 = Some x -> e1 = x) -> (forall x, ts2 = Some x -> s2 = x) -> (forall x, te2 = Some x -> e2 = x) ->
  overlaps_timestamp (Some s1) (Some e1) (Some s2) (Some e2) = Some b.
Proof.
  intros H s1 e1 s2 e2 H1 H2 H3 H4. rewrite overlaps_spec. cbv zeta. f_equal. revert H. unfold overlaps_timestamp, endpoints.
  destruct ts1 as [x1|], te1 as [x2|], ts2 as [x3|], te2 as [x4|]; try done; rewrite ?(H1 x1 eq_refl), ?(H2 x2 eq_refl), ?(H3 x3 eq_refl), ?(H4 x4 eq_refl); repeat case_match; cbn [mbind option_bind]; intros Hb; simplify_eq/=; repeat case_match; simplify_eq/=;
    rewrite ?Z.ltb_lt, ?Z.ltb_ge in *; rewrite ?orb_true_iff, ?orb_false_iff, ?orb_true_iff, ?orb_false_iff, ?andb_true_iff, ?andb_false_iff, ?Z.eqb_eq, ?Z.eqb_neq, ?Z.ltb_lt, ?Z.ltb_ge; lia.
Qed.

(** ** Rounding, waiting, times of day *)

Lemma round_half x scale : 0 <= x -> 0 < scale -> scale mod 2 = 0 -> let r := (x + scale / 2) / scale * scale in Z.abs (2 * (r - x)) <= scale.
Proof. intros Hx Hs He r. unfold r. pose proof (Z.div_mod (x + scale / 2) scale ltac:(lia)). pose proof (Z.mod_pos_bound (x + scale / 2) scale Hs). pose proof (Z.div_mod scale 2 ltac:(lia)). lia. Qed.

(** A timestamp in a column of less precision is rounded to the nearest multiple. *)
Lemma timestamp_scale_spec t p : stamp_ok t -> 0 <= p <= 6 -> exists r, timestamp_scale t p = Ok r /\ (10 ^ (6 - p) | r) /\ Z.abs (2 * (r - t)) <= 10 ^ (6 - p).
Proof.
  intros Ht Hp. unfold timestamp_scale, AdjustTimestampForTypmod. rewrite finite_stamp by done. apply stamp_ok_spec in Ht. unfold MIN_TIMESTAMP, END_TIMESTAMP, MAX_TIMESTAMP_PRECISION in *. destruct (Z.eqb_spec p (-1)); [lia|]. cbn [negb andb]. destruct (Z.eqb_spec p 6) as [->|Hp6]; cbn [negb andb]; [exists t; split_and!; [done|by exists t; rewrite Z.mul_1_r|lia]|]. destruct (Z.ltb_spec p 0), (Z.ltb_spec 6 p); try lia. cbn [orb].
  assert (E : rd TimestampScales (Z.to_nat p) = 10 ^ (6 - p) /\ rd TimestampOffsets (Z.to_nat p) = 10 ^ (6 - p) / 2 /\ 10 <= 10 ^ (6 - p) <= 1000000 /\ 10 ^ (6 - p) mod 2 = 0) by (assert (p = 0 \/ p = 1 \/ p = 2 \/ p = 3 \/ p = 4 \/ p = 5) as [-> | [-> | [-> | [-> | [-> | ->]]]]] by lia; vm_compute; intuition congruence).
  destruct E as (-> & -> & Hsc & He). set (s := 10 ^ (6 - p)) in *. clearbody s. assert (0 <= s / 2 <= s) by (split; [apply Z.div_pos; lia|apply Z.div_le_upper_bound; lia]). destruct (Z.leb_spec 0 t).
  - rewrite int8_id, Z.quot_div_nonneg by (unfold in_s; lia). eexists. split_and!; [done|by eexists|]. apply round_half; lia.
  - rewrite int8_id, Z.quot_div_nonneg by (unfold in_s; lia). eexists. split_and!; [done|eexists; rewrite <- Z.mul_opp_l; done|]. pose proof (round_half (- t) s ltac:(lia) ltac:(lia) He) as R. cbv zeta in R. lia.
Qed.

(** The result is not checked: it may be the first timestamp out of the range. *)
Example scale_out_of_range : stamp_ok (END_TIMESTAMP - 1) /\ timestamp_scale (END_TIMESTAMP - 1) 0 = Ok END_TIMESTAMP.
Proof. done. Qed.

(** Milliseconds to wait: rounded up, and within what a wait takes, infinities included. *)
Lemma wait_milliseconds start stop : in_s 64 start -> in_s 64 stop -> TimestampDifferenceMilliseconds start stop = Z.max 0 (Z.min INT_MAX (- ((start - stop) / 1000))).
Proof.
  intros Hs Ht. unfold TimestampDifferenceMilliseconds, sub_s64, INT_MAX, in_s in *. rewrite s_fits_spec. pose proof (Z.div_mod (start - stop) 1000 ltac:(lia)). pose proof (Z.mod_pos_bound (start - stop) 1000 ltac:(lia)). destruct (Z.leb_spec stop start); [lia|]. case_decide as D; unfold in_s in D; [|lia]. destruct (Z.leb_spec ((2 ^ 31 - 1) * 1000 - 999) (stop - start)); [lia|].
  rewrite Z.quot_div_nonneg by lia. assert ((stop - start + 999) / 1000 = - ((start - stop) / 1000)) as ->; [|lia]. symmetry. apply Z.div_unique with (r := 999 - (start - stop) mod 1000); lia.
Qed.

(** Times of day wrap around at midnight. *)
Lemma within_day_spec x : within_day x = x mod USECS_PER_DAY.
Proof. unfold within_day. pose proof (Z.quot_rem' x USECS_PER_DAY) as E. replace (x - Z.quot x USECS_PER_DAY * USECS_PER_DAY) with (Z.rem x USECS_PER_DAY) by lia. pose proof (floor_split x USECS_PER_DAY ltac:(unfold_units; lia)) as F. destruct (Z.rem x USECS_PER_DAY <? 0); congruence. Qed.

Lemma interval_time_spec span : in_s 64 (i_time span) -> - 2 ^ 63 + USECS_PER_DAY < i_time span -> interval_time span = i_time span mod USECS_PER_DAY.
Proof.
  unfold in_s, interval_time. intros Hr Hlo. set (x := i_time span) in *. clearbody x. unfold_units. destruct (Z.leb_spec 86400000000 x); [rewrite Z.quot_div_nonneg by lia; pose proof (Z.div_mod x 86400000000 ltac:(lia)); lia|]. destruct (Z.ltb_spec x 0); [|by rewrite Z.mod_small].
  rewrite (int8_id (- x + 86400000000)), (int8_id (_ - 1)), Z.quot_div_nonneg by (unfold in_s; lia). set (q := (- x + 86400000000 - 1) / 86400000000). assert (Hq : 0 <= x + q * 86400000000 < 86400000000) by (unfold q; pose proof (Z.div_mod (- x + 86400000000 - 1) 86400000000 ltac:(lia)); pose proof (Z.mod_pos_bound (- x + 86400000000 - 1) 86400000000 ltac:(lia)); lia). rewrite int8_id by (unfold in_s; lia). apply Z.mod_unique with (q := - q); lia.
Qed.

(** For the most negative interval the sums wrap around, and the time of day is after 24
    hours. *)
Example interval_time_invalid : USECS_PER_DAY < interval_time (mk_interval (- 2 ^ 63) 0 0).
Proof. done. Qed.

(** The check of a time of day allows 24:00:00 and seconds up to 60. *)
Lemma time_overflows_spec h mi s f : time_overflows h mi s f = false <-> 0 <= h <= 24 /\ 0 <= mi < 60 /\ 0 <= s <= 60 /\ 0 <= f <= USECS_PER_SEC /\ time_of h mi s f <= USECS_PER_DAY.
Proof.
  unfold time_overflows. unfold HOURS_PER_DAY, MINS_PER_HOUR, SECS_PER_MINUTE. destruct (_ || _) eqn:E.
  - split; [done|]. rewrite !orb_true_iff, !Z.ltb_lt, Z.leb_le in E. lia.
  - rewrite !orb_false_iff, !Z.ltb_ge, Z.leb_gt in E. rewrite time2t_time_of, Z.ltb_ge by lia. tauto.
Qed.
